(* ===== verification/_CoqProject ===== *)
-Q . S2P
Vock.v
Prelude.v
Text.v
FuzzRng.v
FuzzSets.v
FuzzSignal.v
SortScan.v
DwarfReader.v
DwarfCodec.v
DwarfTables.v
DwarfAranges.v
DwarfUnit.v
DwarfLine.v
DwarfLineSpec.v
DwarfFuncs.v
DwarfSymbolizer.v
DwarfHistory.v
PtPacket.v
PtDecoder.v
Inflate.v
Syscalls.v
SysDecode.v
FuzzDraw.v
FuzzBtf.v
FuzzBtfTable.v
BtfMutate.v
FuzzTypes.v
FuzzMutate.v
ReportLog.v
ReportPaths.v
ReportKaslr.v
ReportKallsyms.v
ReportStream.v
ReportPipe.v
ReportBackends.v
ReportRender.v
ReportBtfPage.v
ProgSyntax.v
ProgPrint.v
ProgText.v
ProgArena.v
ProgPlace.v
ProgCopyin.v
ProgLayout.v
ProgImage.v
ProgMutate.v
ProgExec.v
CovLogs.v
KcovShim.v
TraceFiles.v
BpfProg.v
BpfRing.v
Ptrace.v
Process.v
BpfRun.v
Sud.v
UsbGadget.v
UsbProg.v
PseudoExt.v
PerfSession.v
ExecProg.v
Cli.v
ReportRun.v
KcovRun.v
Replay.v
HwRun.v
