(* ===== verification/Vock.v ===== *)
(** * vock: a verification development

    vock (src/vock/src, Rust) drives kernel workloads under coverage: it runs a
    command or a syzkaller program, collects the kernel program counters it
    reached (KCOV, Intel PT, branch sampling), and turns the log of addresses
    into a source-level report; around this it carries a small fuzzer.  This
    library translates the computational core of that program into Rocq
    definitions and proves what each part promises to the others.

    ** How the parts interact

    A coverage producer (mode/engine.rs, fuzz/prog_exec.rs, the preloaded KCOV
    shim kcov-preload/src/lib.rs) writes a log of lines [0x<pc>]; mode/kcov.rs
    merges the logs of the tasks.  The report reads the log (report/mod.rs),
    corrects it for KASLR (report/kaslr.rs), resolves every address with an
    external tool, with the in-process DWARF symbolizer (dwarf/) or with
    /proc/kallsyms (report/btf.rs), folds the answers into covered lines
    (report/resolve.rs) and prints excerpts (report/terminal.rs, html.rs).
    The replayer parses a syzkaller program (fuzz/prog_decode.rs), mutates it
    (fuzz/prog_mutate.rs), lays its arguments out in a data arena and runs it
    call by call (fuzz/prog_exec.rs), pseudo-system-calls through
    fuzz/pseudo_ext.rs; USB programs have their own interpreter
    (fuzz/pseudo_syscalls.rs).  Traces of system calls are captured with ptrace
    (syscall/ptrace.rs) or two eBPF probes (ebpf.rs), written as text (fuzz.rs,
    syzlang.rs), read back (execprog.rs) and translated to C (prog2c.rs).  The
    fuzzer mutates them (fuzz/mutate.rs), binds their arguments to kernel structures
    (fuzz/types.rs, fuzz/btf.rs), mutates those by type (fuzz/btf_mutate.rs)
    and keeps a corpus by edge signal (fuzz/signal_edge.rs).

    ** Files

    Shared: [Prelude] (machine integers, the [outcome] monad with its rules
    [wp], lists, automation), [Text] (UTF-8 text and integer parsing and
    printing), [SortScan] (sorted tables against scans), [FuzzDraw]
    (computations that draw from the generator), [DwarfCodec] (readers paired
    with encodings).

    Coverage decoding.  [PtPacket]: the packet layer of mode/engine.rs
    ([scan_packet], [find_psb], [decode_tip_only]).  [PtDecoder]: its
    instruction decoder, TNT window, the walk of the kernel text and the main
    loop.  [PerfSession]: the perf session around the decoders, over the class
    [PerfHost], and the AMD decoder.  The property group: the length table
    recognises every packet of the grammar, the TIP-only decoder logs exactly
    the kernel addresses of a stream, the full decoder refines it when no text
    is loaded, the TNT window is the list of outcomes; the full decoder
    terminates when direct jumps go forward and diverges on a jump to itself; a
    session gives back what it took; the AMD log is every sample, by time. [Sud]
    is sud.rs and exec.rs: the SIGSYS handler over the class of a kernel, the
    log it writes through a fixed buffer, the child and the wait; shown: a
    dispatched target performs the calls it would have made, with one log line
    for each.  [HwRun] is mode/hw.rs, a run around a session, and the gate that
    holds its child; [Process] has the children of a process, what it holds, and
    the workers and repetitions the drivers share.

    Symbolizer (dwarf/).  [DwarfReader] is reader.rs, [DwarfTables] abbrev.rs
    and elf.rs, [DwarfAranges] the address index of mod.rs, [DwarfUnit] and
    [DwarfFuncs] unit.rs, [DwarfLine] line.rs with its meaning in
    [DwarfLineSpec] (the state machine of the DWARF standard, and the row in
    force at an address), [DwarfSymbolizer] the rest of mod.rs, and
    [DwarfHistory] the effect of its one observable cache.  Shown: totality on
    every byte string, exactness of the index, of the line table and of the
    innermost function on well-formed input, and what the cache can change.

    Report.  [ReportLog] and [ReportStream] (mod.rs), [ReportPaths]
    (resolve.rs, symbolize.rs), [ReportKaslr] (kaslr.rs), [ReportKallsyms]
    (btf.rs), [ReportBackends] (the resolvers), [ReportRender] (terminal.rs,
    html.rs).  The class [ReportStream.Resolver] with its laws is the interface
    between the report and a resolver; the theorems on the report are proved
    against it, [ReportBackends] discharges it.  Shown: blocks carry exactly
    the complete lines however reads are split, the report is a function of
    the answers, never of the blocks, and of the set of addresses only when
    answers are; excerpts show exactly the lines in reach of a covered one.
    [ReportPipe] has the threads of the streaming report as a step function over
    two bounded channels: every fair schedule ends, with the report of the
    sequential definition, whatever the disk does to the twin.
    [ReportRun] composes them into the driver of mod.rs: the tool it chooses,
    the log it streams, the pages it writes, and which addresses the files on the
    disk then keep.
    [ReportBtfPage] is the page by function of btf.rs, over grep's output.

    Programs.  [ProgSyntax] is the parser of prog_decode.rs, [ProgPrint] and
    [ProgText] its round trip; [ProgArena] the data arena, [ProgPlace] the
    placement of objects against an abstract relation, [ProgCopyin] the byte
    images, check sums and copyouts, [ProgLayout] what laying a call out does to
    the arena, and [ProgImage] that it leaves images there, by a relation of its
    own; [ProgMutate] is prog_mutate.rs.  [ProgExec] is the executor of
    prog_exec.rs over the classes [Kernel], [KernelFds] and [KernelMem].  A
    system call may sleep ([None] in a state of the kernel); the process's one
    timer, when armed, ends the sleep of the main thread.  An overlapped thread
    takes two steps (up to its system call, and from it on) where the schedule,
    an argument, lets it: before an iteration of the loop or while the call of
    the loop sleeps.  Shown: a run completes when none is overlapped or none
    sleeps, and hangs on concrete programs otherwise; a consumer reads what its
    producer returned under every schedule, and no schedule is observed.
    [PseudoExt] is pseudo_ext.rs over the class [ExtHost]: every call stays in
    the arena (one under a condition) and leaks no descriptor.  [UsbGadget] and
    [UsbProg] are pseudo_syscalls.rs over the class [Gadget]: the descriptor
    index, the answers of an enumeration against the USB protocol, and the
    descriptors a program leaves open. [ExecProg] (execprog.rs) composes the
    parsers, the executor, the mutators and the pseudo-system-calls: every pass
    and every stress run completes (under the conditions of a run), and a stress
    run stays within its seed.
    [Cli] is the command line of main.rs and the order of a run; printed options
    are read back.

    Coverage logs.  [CovLogs] (write_cover of prog_exec.rs, the merges of
    mode/kcov.rs) and [KcovShim] (kcov-preload/src/lib.rs: the state of a task,
    each interposed call as a hook around the real one).  Shown: the files read
    back as the addresses of each call and their union, and each task writes
    what it recorded exactly once, however it leaves.  [KcovRun] is the run of
    mode/kcov.rs with the helpers of util.rs: the set-up of the directory, the
    preloaded command, the release of the handle, the merge; shown: every form of
    report reads the logs of this run and none of an earlier one, but for a run
    that collects nothing.

    Traces.  [Ptrace] (syscall/ptrace.rs and the baseline of fuzz.rs) against a
    relation of the runs of a tracee; [BpfProg] (the two programs of ebpf.rs
    under an interpreter of their instructions that refuses what the verifier
    refuses, stack bytes never written among it where the kernel does),
    [BpfRing] (the ring buffer and its reader) and [BpfRun] (the run around
    them, from the maps to the file, over the class [BpfHost]); [TraceFiles]
    (the writer of fuzz.rs, the reader of execprog.rs and the translation of
    prog2c.rs, byte for byte); [Replay] (the replay of a trace in execprog.rs
    and prog2c_exec.rs, and the run of fuzz.rs).  Shown: a capture is the list
    of completed calls, a run leaves no child and, once set up, nothing open, a
    written trace is read back up to the limit of the reader, and what was
    captured is what is replayed.

    Fuzzer.  [FuzzRng] (rng.rs and the generator of prog_mutate.rs),
    [FuzzSets] (covset.rs, signal.rs, state.rs), [FuzzSignal]
    (signal_edge.rs), [FuzzMutate] (mutate.rs), [FuzzTypes] (types.rs and
    syzlang.rs), [FuzzBtf] and [FuzzBtfTable] (btf.rs), [BtfMutate]
    (btf_mutate.rs), [Inflate] (inflate.rs).

    System calls.  [Syscalls] (tables.rs, syscall/mod.rs) and [SysDecode]
    (decode.rs).

    ** Conventions of the model

    A [w]-bit integer is a [Z] in [0, 2^w) (or its signed range); casts and
    arithmetic that can leave the range are reduced explicitly, as the release
    profile does ([overflow-checks] off); Rust's [wrapping_], [saturating_] and
    [checked_] operations are written out.  A byte is a [Z] below 256, text is
    the list of its UTF-8 bytes.  A function that can return early with
    [None] or [Err] returns [Fail]; an index or slice out of range is
    [Panic]; allocation always succeeds.  State a function keeps is passed and
    returned.

    Fuel.  A loop whose Rust form has no structural bound takes fuel; the
    definitions the code exports pass a bound computed from the input (the
    length of a section or of a text, the number of pending outcomes), and a
    totality theorem shows [Fuel] is never the result.  Where no bound exists
    the fuel is an argument and the theorem says so ([run_total] asks that
    jumps go forward, [run_diverges_on_self_jump] and [resolve_decides] state
    the divergence for every fuel).  An enumeration takes as fuel more than
    the events the gadget delivers before the watchdog, a drain of the ring the
    number of its words, a BPF program its length (its jumps go forward).

    Parameters.  Values of libc constants, the kernel (system calls and their
    effect, memory of a traced process, coverage), the external addr2line
    program, the iteration order of hash maps, and the order an unstable sort
    leaves equal keys in are arguments of the definitions; a hypothesis states
    only what their documentation promises, and every theorem with one has a
    witness with a concrete instance.

    ** Not modelled

    A worker process is one step of its parent: what it does is modelled
    ([ExecProg], [UsbProg], [Replay]), its interleaving with other workers is
    not.  report/dwarf.rs and report/timing.rs (a process-wide handle and
    wall-clock marks), the texts of messages, and the self tests, which assert
    on a running kernel.
    The fixed furniture of the HTML page.  The memory of overlapped calls is
    shared, and each call acts on it in one step. *)
From Stdlib Require Export ZArith.
