(* ===== verification/Prelude.v ===== *)
(** Vocabulary shared by every component: machine integers, the [outcome] monad
    of a Rust computation with its rules [wp], counted loops, slices indexed by
    a [usize], little-endian integers, sorting and deduplication, and the
    development's tactics and hints. *)
From Stdlib Require Export ZArith Lia.
From stdpp Require Export base list numbers sorting gmap.
#[global] Open Scope Z_scope.

(** * Machine integers

    A [w]-bit unsigned integer is a [Z] in [0, 2^w); a cast or a wrapping
    operation is an explicit reduction. *)

Definition as_u8 (x : Z) : Z := x mod 2 ^ 8.
Definition as_u16 (x : Z) : Z := x mod 2 ^ 16.
Definition as_u32 (x : Z) : Z := x mod 2 ^ 32.
Definition as_u64 (x : Z) : Z := x mod 2 ^ 64.
Definition as_signed (w x : Z) : Z := (x + 2 ^ (w - 1)) mod 2 ^ w - 2 ^ (w - 1).
Definition as_i8 (x : Z) : Z := as_signed 8 x.
Definition as_i32 (x : Z) : Z := as_signed 32 x.
Definition as_i64 (x : Z) : Z := as_signed 64 x.

Definition is_u8 (x : Z) : Prop := 0 <= x < 2 ^ 8.
Definition is_u16 (x : Z) : Prop := 0 <= x < 2 ^ 16.
Definition is_u32 (x : Z) : Prop := 0 <= x < 2 ^ 32.
Definition is_u64 (x : Z) : Prop := 0 <= x < 2 ^ 64.

Declare Scope word_scope.
Delimit Scope word_scope with word.
Notation "a +₆₄ b" := (as_u64 (a + b)) (at level 50, left associativity) : word_scope.
Notation "a -₆₄ b" := (as_u64 (a - b)) (at level 50, left associativity) : word_scope.
Notation "a *₆₄ b" := (as_u64 (a * b)) (at level 40, left associativity) : word_scope.
Notation "a <<₆₄ n" := (as_u64 (Z.shiftl a n)) (at level 34, left associativity) : word_scope.
Notation "a >>₆₄ n" := (Z.shiftr a n) (at level 34, left associativity) : word_scope.
#[global] Open Scope word_scope.

(** * The outcome of a Rust computation

    [Done a] is a normal return, [Fail] the [None]/[Err] a fallible function
    returns, [Panic] an out-of-range index or slice, and [Fuel] a loop bound
    of the model that was too small.  Totality theorems exclude the last two. *)

Inductive outcome (A : Type) : Type :=
  | Done (a : A)
  | Fail
  | Panic
  | Fuel.
Arguments Done {A} _.
Arguments Fail {A}.
Arguments Panic {A}.
Arguments Fuel {A}.

#[global] Instance outcome_ret : MRet outcome := fun A a => Done a.
#[global] Instance outcome_bind : MBind outcome := fun A B f m =>
  match m with Done a => f a | Fail => Fail | Panic => Panic | Fuel => Fuel end.

Definition of_option {A} (o : option A) : outcome A :=
  match o with Some a => Done a | None => Fail end.
Definition or_panic {A} (o : option A) : outcome A :=
  match o with Some a => Done a | None => Panic end.

(** [wp m Q F]: [m] neither panics nor runs out of fuel; a normal return
    satisfies [Q], a failure is allowed only under [F]. *)
Definition wp {A} (m : outcome A) (Q : A -> Prop) (F : Prop) : Prop :=
  match m with Done a => Q a | Fail => F | Panic => False | Fuel => False end.

Lemma wp_bind {A B} (m : outcome A) (f : A -> outcome B) Q F :
  wp m (fun a => wp (f a) Q F) F -> wp (m ≫= f) Q F.
Proof. by destruct m. Qed.

Lemma wp_mono {A} (m : outcome A) (Q Q' : A -> Prop) (F F' : Prop) :
  wp m Q F -> (forall a, Q a -> Q' a) -> (F -> F') -> wp m Q' F'.
Proof. destruct m; naive_solver. Qed.

Lemma wp_done {A} (m : outcome A) Q F a : wp m Q F -> m = Done a -> Q a.
Proof. by intros ? ->. Qed.

(** * Loops

    A [while] or [loop] is [loop fuel body]: [Next s] continues with the new
    loop state, [Stop r] leaves with a value. *)

Inductive ctl (S R : Type) : Type :=
  | Next (s : S)
  | Stop (r : R).
Arguments Next {S R} _.
Arguments Stop {S R} _.

Fixpoint loop {S R} (fuel : nat) (body : S -> outcome (ctl S R)) (s : S) : outcome R :=
  match fuel with
  | O => Fuel
  | Datatypes.S fuel' =>
      c ← body s;
      match c with Next s' => loop fuel' body s' | Stop r => Done r end
  end.

Lemma loop_S {S R} fuel (body : S -> outcome (ctl S R)) s :
  loop (Datatypes.S fuel) body s = (c ← body s; match c with Next s' => loop fuel body s' | Stop r => Done r end).
Proof. done. Qed.

(** A loop whose body keeps [I] and strictly decreases the measure [mu] is
    total: with more fuel than the measure it returns or fails. *)
Lemma wp_loop {S R} (I : S -> Prop) (mu : S -> Z) (Q : R -> Prop) (F : Prop)
    (body : S -> outcome (ctl S R)) fuel s :
  (forall s, I s ->
     wp (body s) (fun c => match c with
                           | Next s' => I s' /\ 0 <= mu s' < mu s
                           | Stop r => Q r
                           end) F) ->
  I s -> 0 <= mu s < Z.of_nat fuel ->
  wp (loop fuel body s) Q F.
Proof.
  intros Hbody. revert s. induction fuel as [|fuel IH]; intros s HI Hmu; [lia|].
  cbn [loop]. apply wp_bind. eapply wp_mono; [by apply Hbody| |done].
  intros [s'|r]; [|done]. intros [HI' Hmu']. apply IH; [done|lia].
Qed.

(** The result of a loop that returned satisfies whatever its body keeps,
    with no assumption on the fuel. *)
Lemma loop_inv {S R} (I : S -> Prop) (Q : R -> Prop)
    (body : S -> outcome (ctl S R)) fuel s r :
  (forall s c, I s -> body s = Done c ->
     match c with Next s' => I s' | Stop r => Q r end) ->
  I s -> loop fuel body s = Done r -> Q r.
Proof.
  intros Hbody. revert s. induction fuel as [|fuel IH]; intros s HI H; [done|].
  cbn [loop] in H. destruct (body s) as [c| | |] eqn:E; try done.
  specialize (Hbody _ _ HI E). destruct c; simpl in H; [eauto|congruence].
Qed.

(** More fuel never changes a result. *)
Lemma loop_mono {S R} (body : S -> outcome (ctl S R)) fuel fuel' s r :
  (fuel <= fuel')%nat -> loop fuel body s = Done r -> loop fuel' body s = Done r.
Proof.
  revert fuel' s. induction fuel as [|fuel IH]; intros [|fuel'] s Hle H; try done; [lia|].
  cbn [loop] in *. destruct (body s) as [[s'|r']| | |]; try done.
  simpl in *. apply IH; [lia|done].
Qed.

(** A loop whose body always continues exhausts every fuel. *)
Lemma loop_diverges {S R} (I : S -> Prop) (body : S -> outcome (ctl S R)) fuel s :
  (forall s, I s -> exists s', body s = Done (Next s') /\ I s') -> I s -> loop fuel body s = Fuel.
Proof.
  intros Hb. revert s. induction fuel as [|fuel IH]; intros s HI; [done|].
  cbn [loop]. destruct (Hb s HI) as (s' & -> & HI'). cbn [mbind outcome_bind]. by apply IH.
Qed.

(** Two loops in lockstep: equal control flow, related states. *)
Definition ctl_rel {S1 R1 S2 R2} (P : S1 -> S2 -> Prop) (Q : R1 -> R2 -> Prop)
    (m1 : outcome (ctl S1 R1)) (m2 : outcome (ctl S2 R2)) : Prop :=
  match m1, m2 with
  | Done (Next s1), Done (Next s2) => P s1 s2
  | Done (Stop r1), Done (Stop r2) => Q r1 r2
  | Fail, Fail | Panic, Panic | Fuel, Fuel => True
  | _, _ => False
  end.

Lemma loop_sim {S1 R1 S2 R2} (P : S1 -> S2 -> Prop) (Q : R1 -> R2 -> Prop)
    (b1 : S1 -> outcome (ctl S1 R1)) (b2 : S2 -> outcome (ctl S2 R2)) fuel s1 s2 r1 :
  (forall s1 s2, P s1 s2 -> ctl_rel P Q (b1 s1) (b2 s2)) ->
  P s1 s2 -> loop fuel b1 s1 = Done r1 -> exists r2, loop fuel b2 s2 = Done r2 /\ Q r1 r2.
Proof.
  intros Hb. revert s1 s2. induction fuel as [|fuel IH]; intros s1 s2 HP H; [done|].
  cbn [loop] in *. specialize (Hb s1 s2 HP). unfold ctl_rel in Hb.
  destruct (b1 s1) as [[|]| | |], (b2 s2) as [[|]| | |]; try done; simpl in *; [by eapply IH|].
  simplify_eq. eauto.
Qed.

(** A bounded [for _ in 0..n] whose body may fail. *)
Fixpoint repeat_m {S} (n : nat) (body : S -> outcome S) (s : S) : outcome S :=
  match n with O => Done s | Datatypes.S n' => s' ← body s; repeat_m n' body s' end.

Lemma wp_repeat_m {S} (I : nat -> S -> Prop) (F : Prop) (body : S -> outcome S) n s :
  (forall k s, I (Datatypes.S k) s -> wp (body s) (I k) F) ->
  I n s -> wp (repeat_m n body s) (I O) F.
Proof.
  intros Hb. revert s. induction n as [|n IH]; intros s HI; [done|].
  cbn [repeat_m]. apply wp_bind. eapply wp_mono; [by apply Hb|apply IH|done].
Qed.

(** [for x in l] whose body may fail or panic. *)
Fixpoint fold_m {S A} (f : S -> A -> outcome S) (l : list A) (s : S) : outcome S :=
  match l with [] => Done s | x :: t => s' ← f s x; fold_m f t s' end.

(** [iter().any(p)] with a partial [p], short-circuiting. *)
Fixpoint any_m {A} (p : A -> outcome bool) (l : list A) : outcome bool :=
  match l with
  | [] => Done false
  | x :: t => b ← p x; if b : bool then Done true else any_m p t
  end.

(** [iter().filter(p).count()] with a partial [p]. *)
Fixpoint count_m {A} (p : A -> outcome bool) (l : list A) : outcome Z :=
  match l with
  | [] => Done 0
  | x :: t => b ← p x; n ← count_m p t; Done (if b : bool then 1 + n else n)
  end.

(** Loop rule for [fold_m]; the invariant speaks of the part done. *)
Lemma wp_fold_m {S A} (I : list A -> S -> Prop) (F : Prop) (f : S -> A -> outcome S) l s :
  (forall done_ x rest s, l = done_ ++ x :: rest -> I done_ s ->
     wp (f s x) (fun s' => I (done_ ++ [x]) s') F) ->
  I [] s -> wp (fold_m f l s) (I l) F.
Proof.
  intros Hf HI.
  enough (forall d r s, l = d ++ r -> I d s -> wp (fold_m f r s) (I l) F) as H by (by apply (H [])).
  intros d r. revert d. induction r as [|x r IH]; intros d s' Hl HI'.
  { by rewrite Hl, app_nil_r. }
  cbn [fold_m]. apply wp_bind. eapply wp_mono; [by eapply Hf| |done].
  intros s'' HI''. apply (IH (d ++ [x])); [|done]. by rewrite Hl, <- app_assoc.
Qed.

Lemma any_m_existsb {A} (p : A -> outcome bool) (q : A -> bool) l :
  (forall x, x ∈ l -> p x = Done (q x)) -> any_m p l = Done (existsb q l).
Proof.
  induction l as [|x l IH]; intros H; [done|]. cbn [any_m existsb].
  rewrite H by left. cbn. destruct (q x); [done|]. apply IH. intros. apply H. by right.
Qed.

Lemma count_m_filter {A} (p : A -> outcome bool) (q : A -> Prop) `{!forall x, Decision (q x)} l :
  (forall x, x ∈ l -> p x = Done (bool_decide (q x))) ->
  count_m p l = Done (Z.of_nat (length (filter q l))).
Proof.
  induction l as [|x l IH]; intros Hp; [done|]. cbn [count_m].
  rewrite Hp by left. cbn [mbind outcome_bind]. rewrite IH by (intros; apply Hp; by right). cbn [mbind outcome_bind].
  rewrite filter_cons. case_decide; case_bool_decide; try done. f_equal. simpl. lia.
Qed.

(** * Slices indexed by [usize]

    A slice is a list; [zlen] is its [len()].  Reads are by [Z] index and
    bounds-checked, so a corrupt 64-bit index is just out of range. *)

Definition zlen {A} (l : list A) : Z := Z.of_nat (length l).

(** [l.get(i)] *)
Definition get {A} (l : list A) (i : Z) : option A :=
  if (0 <=? i) && (i <? zlen l) then l !! Z.to_nat i else None.

(** [l[i]], panicking out of range *)
Definition idx {A} (l : list A) (i : Z) : outcome A := or_panic (get l i).

(** [l.get(a..b)] *)
Definition slice {A} (l : list A) (a b : Z) : option (list A) :=
  if (0 <=? a) && (a <=? b) && (b <=? zlen l)
  then Some (take (Z.to_nat (b - a)) (drop (Z.to_nat a) l)) else None.

(** [l.get(a..)] *)
Definition slice_from {A} (l : list A) (a : Z) : option (list A) :=
  if (0 <=? a) && (a <=? zlen l) then Some (drop (Z.to_nat a) l) else None.

(** [l[i] = v], panicking out of range *)
Definition upd {A} (l : list A) (i : Z) (v : A) : outcome (list A) :=
  if (0 <=? i) && (i <? zlen l) then Done (<[Z.to_nat i := v]> l) else Panic.

(** Index of the first element satisfying [p] ([iter().position]). *)
Fixpoint position {A} (p : A -> bool) (l : list A) : option Z :=
  match l with
  | [] => None
  | x :: t => if p x then Some 0 else Z.succ <$> position p t
  end.

(** [partition_point]: the length of the prefix on which [p] holds. *)
Fixpoint partition_point {A} (p : A -> bool) (l : list A) : Z :=
  match l with
  | [] => 0
  | x :: t => if p x then 1 + partition_point p t else 0
  end.

Definition bytes_ok (l : list Z) : Prop := Forall is_u8 l.

#[global] Arguments zlen {A} l : simpl never.
#[global] Arguments get {A} l i : simpl never.
#[global] Arguments idx {A} l i : simpl never.
#[global] Arguments slice {A} l a b : simpl never.
#[global] Arguments slice_from {A} l a : simpl never.
#[global] Arguments upd {A} l i v : simpl never.

Lemma zlen_nonneg {A} (l : list A) : 0 <= zlen l.
Proof. unfold zlen. lia. Qed.

Lemma zlen_app {A} (l k : list A) : zlen (l ++ k) = zlen l + zlen k.
Proof. unfold zlen. rewrite length_app. lia. Qed.

Lemma zlen_cons {A} (x : A) l : zlen (x :: l) = 1 + zlen l.
Proof. unfold zlen. simpl. lia. Qed.

Lemma zlen_nil {A} : zlen (@nil A) = 0.
Proof. done. Qed.

Lemma get_Some {A} (l : list A) i x :
  get l i = Some x <-> 0 <= i < zlen l /\ l !! Z.to_nat i = Some x.
Proof.
  unfold get, zlen. destruct (_ && _) eqn:E.
  - apply andb_prop in E as [?%Z.leb_le ?%Z.ltb_lt]. naive_solver.
  - split; [done|]. intros [[? ?] _].
    apply andb_false_iff in E as [?%Z.leb_gt|?%Z.ltb_ge]; lia.
Qed.

Lemma get_is_Some {A} (l : list A) i : is_Some (get l i) <-> 0 <= i < zlen l.
Proof.
  split.
  - intros [x H]. by apply get_Some in H as [? _].
  - intros H. destruct (l !! Z.to_nat i) as [x|] eqn:E.
    + exists x. by apply get_Some.
    + apply lookup_ge_None in E. unfold zlen in H. lia.
Qed.

Lemma get_None {A} (l : list A) i : get l i = None <-> ~ 0 <= i < zlen l.
Proof. rewrite <- get_is_Some, eq_None_not_Some. done. Qed.

Lemma get_bytes_ok l i b : bytes_ok l -> get l i = Some b -> is_u8 b.
Proof.
  intros H [_ Hl]%get_Some. eapply Forall_lookup_1; eauto.
Qed.

(** An index in range is read without a panic. *)
Lemma idx_Done {A} (l : list A) i : 0 <= i < zlen l -> exists x, idx l i = Done x /\ get l i = Some x.
Proof. intros [x Hx]%get_is_Some. exists x. unfold idx. by rewrite Hx. Qed.

Lemma wp_idx l i (Q : Z -> Prop) F :
  bytes_ok l -> 0 <= i < zlen l -> (forall b, is_u8 b -> get l i = Some b -> Q b) -> wp (idx l i) Q F.
Proof.
  intros Hb Hi HQ. destruct (idx_Done l i Hi) as (b & -> & Hg). apply HQ; [|done].
  by eapply get_bytes_ok.
Qed.

Lemma get_app_r {A} (pre l : list A) i : 0 <= i -> get (pre ++ l) (zlen pre + i) = get l i.
Proof.
  intros Hi. unfold get. rewrite zlen_app. pose proof (zlen_nonneg pre).
  replace (zlen pre + i <? zlen pre + zlen l) with (i <? zlen l) by lia.
  replace (0 <=? zlen pre + i) with (0 <=? i) by lia.
  destruct (_ && _) eqn:E; [|done]. rewrite lookup_app_r by (unfold zlen; lia).
  f_equal. unfold zlen. lia.
Qed.

Lemma get_app_l {A} (l k : list A) i : i < zlen l -> get (l ++ k) i = get l i.
Proof.
  intros Hi. unfold get. rewrite zlen_app. pose proof (zlen_nonneg k).
  replace (i <? zlen l + zlen k) with true by lia. replace (i <? zlen l) with true by lia.
  destruct (_ && _) eqn:E; [|done]. apply lookup_app_l. unfold zlen in *. lia.
Qed.

Lemma get_cons {A} (x : A) l i : get (x :: l) i = if i =? 0 then Some x else get l (i - 1).
Proof.
  unfold get. rewrite zlen_cons. pose proof (zlen_nonneg l). destruct (Z.eqb_spec i 0) as [->|].
  { by replace ((0 <=? 0) && (0 <? 1 + zlen l)) with true by lia. }
  destruct ((0 <=? i) && (i <? 1 + zlen l)) eqn:E; destruct ((0 <=? i - 1) && (i - 1 <? zlen l)) eqn:E'; try lia; [|done].
  replace (Z.to_nat i) with (S (Z.to_nat (i - 1))) by lia. done.
Qed.

Lemma slice_Some {A} (l : list A) a b s :
  slice l a b = Some s <->
  0 <= a <= b /\ b <= zlen l /\ s = take (Z.to_nat (b - a)) (drop (Z.to_nat a) l).
Proof.
  unfold slice. destruct (_ && _) eqn:E.
  - rewrite !andb_true_iff, !Z.leb_le in E. naive_solver.
  - rewrite !andb_false_iff, !Z.leb_gt in E. split; [done|]. lia.
Qed.

Lemma slice_length {A} (l : list A) a b s :
  slice l a b = Some s -> zlen s = b - a.
Proof.
  intros (?&?&->)%slice_Some. unfold zlen in *.
  rewrite length_take, length_drop. lia.
Qed.

Lemma slice_Done {A} (l : list A) a b : 0 <= a <= b -> b <= zlen l -> exists s, slice l a b = Some s /\ zlen s = b - a.
Proof.
  intros Ha Hb. unfold slice. rewrite !(proj2 (Z.leb_le _ _)) by lia. eexists. split; [done|].
  unfold zlen in *. rewrite length_take, length_drop. lia.
Qed.

(** The middle of three parts. *)
Lemma slice_mid {A} (pre e rest : list A) : slice (pre ++ e ++ rest) (zlen pre) (zlen pre + zlen e) = Some e.
Proof.
  apply slice_Some. rewrite !zlen_app. pose proof (zlen_nonneg pre). pose proof (zlen_nonneg e). pose proof (zlen_nonneg rest).
  split_and!; [lia..|]. unfold zlen. rewrite Nat2Z.id, drop_app_length.
  replace (Z.to_nat _) with (length e) by lia. by rewrite take_app_length.
Qed.

Lemma slice_at {A} (pre e rest : list A) a b : a = zlen pre -> b = zlen pre + zlen e -> slice (pre ++ e ++ rest) a b = Some e.
Proof. intros -> ->. apply slice_mid. Qed.

Lemma slice_bytes_ok l a b s : bytes_ok l -> slice l a b = Some s -> bytes_ok s.
Proof. intros H (?&?&->)%slice_Some. by apply Forall_take, Forall_drop. Qed.

Lemma slice_from_Some {A} (l : list A) a s :
  slice_from l a = Some s <-> 0 <= a <= zlen l /\ s = drop (Z.to_nat a) l.
Proof.
  unfold slice_from. destruct (_ && _) eqn:E.
  - rewrite andb_true_iff, !Z.leb_le in E. naive_solver.
  - rewrite andb_false_iff, !Z.leb_gt in E. split; [done|]. lia.
Qed.

Lemma upd_Done {A} (l l' : list A) i v :
  upd l i v = Done l' <-> 0 <= i < zlen l /\ l' = <[Z.to_nat i := v]> l.
Proof.
  unfold upd. destruct (_ && _) eqn:E.
  - rewrite andb_true_iff, Z.leb_le, Z.ltb_lt in E. naive_solver.
  - rewrite andb_false_iff, Z.leb_gt, Z.ltb_ge in E. split; [done|]. lia.
Qed.

Lemma wp_upd {A} (l : list A) i v (Q : list A -> Prop) F :
  0 <= i < zlen l -> Q (<[Z.to_nat i := v]> l) -> wp (upd l i v) Q F.
Proof. intros H HQ. by rewrite (proj2 (upd_Done l _ i v) (conj H eq_refl)). Qed.

Lemma zlen_insert {A} (l : list A) i x : zlen (<[i := x]> l) = zlen l.
Proof. unfold zlen. by rewrite length_insert. Qed.

Lemma get_insert {A} (l : list A) i j x : 0 <= i < zlen l ->
  get (<[Z.to_nat i := x]> l) j = if decide (i = j) then Some x else get l j.
Proof.
  intros Hi. unfold get. rewrite zlen_insert.
  destruct (decide (i = j)) as [<-|Hne].
  - replace ((0 <=? i) && (i <? zlen l)) with true by lia.
    apply list_lookup_insert_eq. unfold zlen in Hi. lia.
  - destruct ((0 <=? j) && (j <? zlen l)) eqn:E; [|done].
    apply list_lookup_insert_ne. lia.
Qed.

Lemma get_elem_of {A} (l : list A) i x : get l i = Some x -> x ∈ l.
Proof. intros [_ H]%get_Some. by eapply list_elem_of_lookup_2. Qed.

Lemma get_replicate {A} n (x : A) i : 0 <= i < Z.of_nat n -> get (replicate n x) i = Some x.
Proof.
  intros H. apply get_Some. unfold zlen. rewrite length_replicate. split; [lia|].
  apply lookup_replicate_2. lia.
Qed.

Lemma position_Some {A} (p : A -> bool) l i :
  position p l = Some i <->
  0 <= i < zlen l /\ (exists x, l !! Z.to_nat i = Some x /\ p x = true) /\
  Forall (fun x => p x = false) (take (Z.to_nat i) l).
Proof.
  revert i. induction l as [|x l IH]; intros i; simpl.
  - split; [done|]. unfold zlen. simpl. lia.
  - rewrite zlen_cons. destruct (p x) eqn:E.
    + split.
      * intros [= <-]. pose proof (zlen_nonneg l).
        split_and!; [lia|lia|by exists x|constructor].
      * intros (?&(y&Hy&Hp)&Hf). destruct (decide (i = 0)) as [->|]; [done|].
        replace (Z.to_nat i) with (S (Z.to_nat (i - 1))) in Hf by lia.
        inversion Hf. congruence.
    + rewrite fmap_Some. split.
      * intros (j&Hj&->). apply IH in Hj as (?&(y&Hy&Hp)&Hf).
        replace (Z.to_nat (Z.succ j)) with (S (Z.to_nat j)) by lia.
        split_and!; [lia|lia|by exists y|by constructor].
      * intros (?&(y&Hy&Hp)&Hf). destruct (decide (i = 0)) as [->|].
        { simpl in Hy. congruence. }
        replace (Z.to_nat i) with (S (Z.to_nat (i - 1))) in * by lia.
        exists (i - 1). split; [|lia]. apply IH. simpl in *. inversion Hf.
        split_and!; [lia|lia|by exists y|done].
Qed.

Lemma partition_point_bound {A} (p : A -> bool) l : 0 <= partition_point p l <= zlen l.
Proof.
  induction l as [|x l IH]; cbn [partition_point]; [done|].
  rewrite zlen_cons. destruct (p x); lia.
Qed.

Lemma partition_point_prefix {A} (p : A -> bool) l :
  Forall (fun x => p x = true) (take (Z.to_nat (partition_point p l)) l).
Proof.
  induction l as [|x l IH]; cbn [partition_point]; [by rewrite take_nil|].
  pose proof (partition_point_bound p l).
  destruct (p x) eqn:E; [|done].
  replace (Z.to_nat _) with (S (Z.to_nat (partition_point p l))) by lia. by constructor.
Qed.

Lemma partition_point_next {A} (p : A -> bool) l x :
  l !! Z.to_nat (partition_point p l) = Some x -> p x = false.
Proof.
  induction l as [|y l IH]; cbn [partition_point]; [done|].
  pose proof (partition_point_bound p l). destruct (p y) eqn:E.
  - replace (Z.to_nat _) with (S (Z.to_nat (partition_point p l))) by lia. apply IH.
  - simpl. congruence.
Qed.

Lemma partition_point_app {A} (p : A -> bool) l k : Forall (fun x => p x = true) l -> partition_point p (l ++ k) = zlen l + partition_point p k.
Proof. induction 1 as [|x l Hx Hl IH]; [done|]. cbn [app partition_point]. rewrite Hx, IH, zlen_cons. lia. Qed.

(** * Word lemmas *)

Lemma as_u64_range x : is_u64 (as_u64 x).
Proof. unfold is_u64, as_u64. apply Z.mod_pos_bound. lia. Qed.
Lemma as_u32_range x : is_u32 (as_u32 x).
Proof. unfold is_u32, as_u32. apply Z.mod_pos_bound. lia. Qed.
Lemma as_u16_range x : is_u16 (as_u16 x).
Proof. unfold is_u16, as_u16. apply Z.mod_pos_bound. lia. Qed.
Lemma as_u8_range x : is_u8 (as_u8 x).
Proof. unfold is_u8, as_u8. apply Z.mod_pos_bound. lia. Qed.

Lemma as_u64_small x : is_u64 x -> as_u64 x = x.
Proof. apply Z.mod_small. Qed.
Lemma as_u32_small x : is_u32 x -> as_u32 x = x.
Proof. apply Z.mod_small. Qed.
Lemma as_u16_small x : is_u16 x -> as_u16 x = x.
Proof. apply Z.mod_small. Qed.
Lemma as_u8_small x : is_u8 x -> as_u8 x = x.
Proof. apply Z.mod_small. Qed.

Lemma as_signed_range w x : 0 < w -> - 2 ^ (w - 1) <= as_signed w x < 2 ^ (w - 1).
Proof.
  intros Hw. unfold as_signed.
  pose proof (Z.mod_pos_bound (x + 2 ^ (w - 1)) (2 ^ w) ltac:(lia)).
  replace (2 ^ w) with (2 * 2 ^ (w - 1)) in * by (rewrite <- Z.pow_succ_r by lia; f_equal; lia).
  lia.
Qed.

(** Casting the signed reading back gives the same bits. *)
Lemma as_u64_as_i64 x : as_u64 (as_i64 x) = as_u64 x.
Proof.
  unfold as_u64, as_i64, as_signed. rewrite Zminus_mod_idemp_l. f_equal. lia.
Qed.

Lemma testbit_high a w i : 0 <= a < 2 ^ w -> w <= i -> Z.testbit a i = false.
Proof.
  intros Ha Hi. destruct (decide (a = 0)) as [->|]; [apply Z.bits_0|].
  apply Z.bits_above_log2; [lia|].
  apply Z.log2_lt_pow2; [lia|]. apply (Z.lt_le_trans _ (2 ^ w)); [lia|].
  apply Z.pow_le_mono_r; lia.
Qed.

Lemma bits_range a w :
  0 <= w -> 0 <= a -> (forall i, w <= i -> Z.testbit a i = false) -> 0 <= a < 2 ^ w.
Proof.
  intros Hw Ha Hb. split; [done|].
  assert (a = a mod 2 ^ w) as ->; [|apply Z.mod_pos_bound; lia].
  apply Z.bits_inj'. intros i Hi. destruct (decide (i < w)).
  - by rewrite Z.mod_pow2_bits_low by lia.
  - rewrite Z.mod_pow2_bits_high by lia. apply Hb. lia.
Qed.

Lemma lor_range a b w : 0 <= w ->
  0 <= a < 2 ^ w -> 0 <= b < 2 ^ w -> 0 <= Z.lor a b < 2 ^ w.
Proof.
  intros ? Ha Hb. apply bits_range; [done|apply Z.lor_nonneg; lia|].
  intros i Hi. by rewrite Z.lor_spec, (testbit_high a w), (testbit_high b w).
Qed.

Lemma lxor_range a b w : 0 <= w ->
  0 <= a < 2 ^ w -> 0 <= b < 2 ^ w -> 0 <= Z.lxor a b < 2 ^ w.
Proof.
  intros ? Ha Hb. apply bits_range; [done|apply Z.lxor_nonneg; lia|].
  intros i Hi. by rewrite Z.lxor_spec, (testbit_high a w), (testbit_high b w).
Qed.

Lemma land_range_r a b w : 0 <= w -> 0 <= b < 2 ^ w -> 0 <= Z.land a b < 2 ^ w.
Proof.
  intros ? Hb. apply bits_range; [done|apply Z.land_nonneg; lia|].
  intros i Hi. by rewrite Z.land_spec, (testbit_high b w), andb_false_r.
Qed.

Lemma land_le_r a b : 0 <= b -> 0 <= Z.land a b <= b.
Proof.
  intros Hb. split; [apply Z.land_nonneg; lia|].
  enough (Z.land a b + Z.ldiff b a = b) by (pose proof (Z.ldiff_nonneg b a); lia).
  rewrite Z.add_nocarry_lxor.
  - apply Z.bits_inj'. intros i Hi. rewrite Z.lxor_spec, Z.land_spec, Z.ldiff_spec.
    by destruct (Z.testbit a i), (Z.testbit b i).
  - apply Z.bits_inj'. intros i Hi. rewrite Z.land_spec, Z.land_spec, Z.ldiff_spec, Z.bits_0.
    by destruct (Z.testbit a i), (Z.testbit b i).
Qed.

Lemma shiftr_range a n w : 0 <= n -> 0 <= a < 2 ^ w -> 0 <= Z.shiftr a n < 2 ^ w.
Proof.
  intros Hn Ha. rewrite Z.shiftr_div_pow2 by done.
  pose proof (Z.pow_pos_nonneg 2 n ltac:(lia) Hn).
  split; [apply Z.div_pos; lia|]. apply (Z.le_lt_trans _ a); [|lia].
  apply Z.div_le_upper_bound; [lia|]. nia.
Qed.

(** Disjoint bits add. *)
Lemma lor_add a b k : 0 <= k -> 0 <= a < 2 ^ k -> Z.lor a (Z.shiftl b k) = a + b * 2 ^ k.
Proof.
  intros Hk Ha. rewrite <- Z.shiftl_mul_pow2 by done.
  symmetry. rewrite Z.add_nocarry_lxor; [rewrite Z.lxor_lor; [done|]|];
  apply Z.bits_inj'; intros i Hi; rewrite Z.land_spec, Z.shiftl_spec, Z.bits_0 by done.
  - destruct (decide (i < k)); [rewrite (Z.testbit_neg_r _ (i - k)) by lia; apply andb_false_r|].
    by rewrite (testbit_high a k) by lia.
  - destruct (decide (i < k)); [rewrite (Z.testbit_neg_r _ (i - k)) by lia; apply andb_false_r|].
    by rewrite (testbit_high a k) by lia.
Qed.

(** A property of all 256 bytes, checked by evaluation. *)
Lemma byte_cases (p : Z -> bool) b :
  forallb p (seqZ 0 256) = true -> is_u8 b -> p b = true.
Proof. rewrite forallb_forall. intros H Hb. apply H, list_elem_of_In, elem_of_seqZ. unfold is_u8 in Hb. lia. Qed.

(** A fact about the integers below [m], checked by evaluation. *)
Lemma range_check (m : nat) (q : Z -> bool) x :
  forallb q (seqZ 0 (Z.of_nat m)) = true -> 0 <= x < Z.of_nat m -> q x = true.
Proof. rewrite forallb_forall. intros H Hx. apply H, list_elem_of_In, elem_of_seqZ. lia. Qed.

Ltac byte_facts m q x :=
  let H := fresh in
  pose proof (range_check m q x ltac:(vm_compute; reflexivity) ltac:(lia)) as H;
  cbv beta in H; rewrite ?orb_true_iff, ?andb_true_iff, ?negb_true_iff in H.

(** What vock returns for a wait status ([WIFEXITED], [WEXITSTATUS]). *)
Definition exit_status (status : Z) : Z :=
  if Z.land status 0x7f =? 0 then Z.land (Z.shiftr status 8) 0xff else 1.

(** * Little-endian integers ([from_le_bytes], [to_le_bytes]) *)

Fixpoint le_val (bs : list Z) : Z :=
  match bs with [] => 0 | b :: t => b + 256 * le_val t end.

Fixpoint le_bytes (n : nat) (v : Z) : list Z :=
  match n with O => [] | S n' => v mod 256 :: le_bytes n' (v / 256) end.

(** [u16::from_le_bytes([d[i], d[i + 1]])] *)
Definition u16_at (d : list Z) (i : Z) : outcome Z := a ← idx d i; b ← idx d (i + 1); Done (le_val [a; b]).

Lemma le_val_range bs : bytes_ok bs -> 0 <= le_val bs < 2 ^ (8 * zlen bs).
Proof.
  induction 1 as [|b bs Hb Hbs IH]; [done|].
  rewrite zlen_cons, Z.mul_add_distr_l, Z.pow_add_r by (pose proof (zlen_nonneg bs); lia).
  cbn [le_val]. unfold is_u8 in Hb. change (2 ^ (8 * 1)) with 256. lia.
Qed.

Lemma length_le_bytes n v : length (le_bytes n v) = n.
Proof. revert v. induction n; intros; simpl; [done|]. by rewrite IHn. Qed.

Lemma zlen_le_bytes n v : zlen (le_bytes n v) = Z.of_nat n.
Proof. unfold zlen. by rewrite length_le_bytes. Qed.

Lemma le_bytes_ok n v : bytes_ok (le_bytes n v).
Proof.
  revert v. induction n as [|n IH]; intros v; cbn [le_bytes]; constructor; [|apply IH].
  unfold is_u8. pose proof (Z.mod_pos_bound v 256). lia.
Qed.

Lemma le_val_le_bytes n v : 0 <= v -> le_val (le_bytes n v) = v mod 2 ^ (8 * Z.of_nat n).
Proof.
  revert v. induction n as [|n IH]; intros v Hv; cbn [le_bytes le_val].
  { change (2 ^ (8 * Z.of_nat 0)) with 1. by rewrite Z.mod_1_r. }
  rewrite IH by (apply Z.div_pos; lia).
  replace (8 * Z.of_nat (S n)) with (8 + 8 * Z.of_nat n) by lia.
  rewrite Z.pow_add_r by lia. change (2 ^ 8) with 256.
  rewrite (Z.rem_mul_r v 256) by lia. lia.
Qed.

Lemma le_bytes_le_val bs : bytes_ok bs -> le_bytes (length bs) (le_val bs) = bs.
Proof.
  induction 1 as [|b bs Hb Hbs IH]; [done|]. cbn [length le_bytes le_val].
  unfold is_u8 in Hb.
  replace (b + 256 * le_val bs) with (b + le_val bs * 256) by lia.
  rewrite Z.mod_add, Z.div_add, Z.mod_small, (Z.div_small b) by lia. by f_equal.
Qed.

(** * Sorting and deduplication

    [sort_by le] is a stable insertion sort: the result of Rust's stable
    [sort_by_key] is determined by stability, and that of [sort_unstable] on
    plain integers by the multiset, so both are this function. *)

Section SortBy.
Context {A : Type} (le : A -> A -> bool).

Fixpoint insert_by (x : A) (l : list A) : list A :=
  match l with
  | [] => [x]
  | y :: t => if le x y then x :: y :: t else y :: insert_by x t
  end.

Definition sort_by (l : list A) : list A := foldr insert_by [] l.

Context (le_total : forall x y, le x y = true \/ le y x = true).
Context (le_trans : forall x y z, le x y = true -> le y z = true -> le x z = true).

Lemma insert_by_perm x l : insert_by x l ≡ₚ x :: l.
Proof.
  induction l as [|y t IH]; simpl; [done|].
  destruct (le x y); [done|]. rewrite IH. apply Permutation_swap.
Qed.

Lemma sort_by_perm l : sort_by l ≡ₚ l.
Proof. induction l as [|x l IH]; simpl; [done|]. by rewrite insert_by_perm, IH. Qed.

Lemma insert_by_sorted x l :
  StronglySorted (fun a b => le a b = true) l ->
  StronglySorted (fun a b => le a b = true) (insert_by x l).
Proof.
  induction 1 as [|y t Ht IH Hy]; simpl; [repeat constructor|].
  destruct (le x y) eqn:E.
  - constructor; [by constructor|]. constructor; [done|].
    eapply Forall_impl; [done|]. eauto.
  - constructor; [done|]. rewrite insert_by_perm. constructor; [|done].
    destruct (le_total x y); congruence.
Qed.

Lemma sort_by_sorted l : StronglySorted (fun a b => le a b = true) (sort_by l).
Proof. induction l as [|x l IH]; simpl; [constructor|]. by apply insert_by_sorted. Qed.
End SortBy.

Definition sort_u64 (l : list Z) : list Z := sort_by Z.leb l.

(** [Vec::dedup]: drop consecutive equal elements. *)
Fixpoint dedup (l : list Z) : list Z :=
  match l with
  | [] => []
  | x :: t => match t with
              | [] => [x]
              | y :: _ => if x =? y then dedup t else x :: dedup t
              end
  end.

Lemma sort_u64_perm l : sort_u64 l ≡ₚ l.
Proof. apply sort_by_perm. Qed.

Lemma sort_u64_sorted l : StronglySorted Z.le (sort_u64 l).
Proof.
  assert (StronglySorted (fun a b => (a <=? b) = true) (sort_u64 l)) as H.
  { apply sort_by_sorted; intros *; rewrite !Z.leb_le; lia. }
  induction H; constructor; [done|]. eapply Forall_impl; [done|]. by intros ? ?%Z.leb_le.
Qed.

Lemma elem_of_dedup l x : x ∈ dedup l <-> x ∈ l.
Proof.
  induction l as [|y [|z t] IH]; [done|done|].
  cbn [dedup] in *. destruct (y =? z) eqn:E.
  - apply Z.eqb_eq in E as ->. rewrite IH. set_solver.
  - rewrite elem_of_cons, IH. set_solver.
Qed.

Lemma dedup_sorted l : StronglySorted Z.le l -> StronglySorted Z.lt (dedup l).
Proof.
  induction 1 as [|y [|z t] Hs IH Hall]; [constructor|repeat constructor|].
  cbn [dedup] in *. destruct (y =? z) eqn:E; [done|].
  constructor; [done|]. apply Z.eqb_neq in E. apply Forall_forall.
  intros x Hx. change (x ∈ dedup (z :: t)) in Hx. rewrite elem_of_dedup in Hx.
  rewrite Forall_forall in Hall. pose proof (Hall z ltac:(set_solver)).
  apply elem_of_cons in Hx as [->|Hx]; [lia|].
  inversion Hs as [|? ? _ Hz]; subst. rewrite Forall_forall in Hz. specialize (Hz x Hx). lia.
Qed.

Lemma dedup_length l : (length (dedup l) <= length l)%nat.
Proof.
  induction l as [|y [|z t] IH]; [done|done|].
  cbn [dedup] in *. destruct (y =? z); simpl in *; lia.
Qed.

Lemma StronglySorted_lt_NoDup (l : list Z) : StronglySorted Z.lt l -> NoDup l.
Proof.
  induction 1 as [|x l _ IH Hx]; constructor; [|done].
  intros Hin. rewrite Forall_forall in Hx. specialize (Hx x Hin). lia.
Qed.

(** * Removal by swapping *)

(** [Vec::swap_remove] of an index in range. *)
Definition swap_remove {A} (l : list A) (i : nat) : list A :=
  match last l with
  | Some z => if decide (S i = length l) then take i l
              else <[i := z]> (take (pred (length l)) l)
  | None => l
  end.

Lemma swap_remove_perm {A} (l : list A) i :
  (i < length l)%nat -> swap_remove l i ≡ₚ delete i l.
Proof.
  intros Hi. unfold swap_remove. destruct l as [|z l _] using rev_ind; [done|].
  rewrite last_snoc. rewrite length_app in *. simpl in *.
  case_decide as D.
  - assert (i = length l) as -> by lia. rewrite take_app_length.
    rewrite delete_take_drop, take_app_length, drop_ge by (rewrite length_app; simpl; lia).
    by rewrite app_nil_r.
  - assert (i < length l)%nat as Hlt by lia.
    replace (pred (length l + 1)) with (length l) by lia. rewrite take_app_length.
    rewrite insert_take_drop by done.
    rewrite delete_take_drop, take_app_le, drop_app_le by lia.
    rewrite <- Permutation_cons_append. by rewrite Permutation_middle, <- app_assoc || (rewrite Permutation_app_comm; simpl; f_equiv; by rewrite app_assoc).
Qed.

Lemma swap_remove_lookup {A} (l : list A) i k :
  (k < i < length l)%nat -> swap_remove l i !! k = l !! k.
Proof.
  intros Hk. unfold swap_remove. destruct (last l) as [z|]; [|done].
  case_decide.
  - by rewrite lookup_take_lt by lia.
  - rewrite list_lookup_insert_ne by lia. by rewrite lookup_take_lt by lia.
Qed.

Lemma swap_remove_cons {A} (l : list A) i x :
  l !! i = Some x -> l ≡ₚ x :: swap_remove l i.
Proof.
  intros H. rewrite swap_remove_perm by (by eapply lookup_lt_Some).
  by apply delete_Permutation.
Qed.

(** * Automation *)

Create HintDb vock.
#[export] Hint Resolve as_u64_range as_u32_range as_u16_range as_u8_range
  get_bytes_ok slice_bytes_ok zlen_nonneg : vock.

(** [lia] with division and remainder. *)
Ltac dlia := Z.to_euclidean_division_equations; lia.

(** Turn boolean tests of the model into propositions. *)
Ltac zbool :=
  repeat match goal with
  | H : context [(?a =? ?b)] |- _ => destruct (Z.eqb_spec a b); try done
  | H : context [(?a <? ?b)] |- _ => destruct (Z.ltb_spec a b); try done
  | H : context [(?a <=? ?b)] |- _ => destruct (Z.leb_spec a b); try done
  | |- context [(?a =? ?b)] => destruct (Z.eqb_spec a b); try done
  | |- context [(?a <? ?b)] => destruct (Z.ltb_spec a b); try done
  | |- context [(?a <=? ?b)] => destruct (Z.leb_spec a b); try done
  end.

(** Invert a chain of [Done]/[Some] binds in a hypothesis. *)
Ltac binds H :=
  repeat match type of H with
  | (?m ≫= _) = Done _ =>
      let E := fresh "E" in destruct m eqn:E; cbn [mbind outcome_bind] in H; try done
  | (?m ≫= _) = Some _ =>
      let E := fresh "E" in destruct m eqn:E; cbn [mbind option_bind] in H; try done
  end.
