(* ===== verification/Text.v ===== *)
(** Text as UTF-8 bytes, and the pieces of [str], [char] and integer parsing
    that vock's readers and writers use: [trim], [lines], [strip_prefix],
    [split], [from_str_radix], [parse], and the [0x{:x}] formatting of every
    coverage log.  Shown: formatting then parsing an address gives it back,
    for hexadecimal and decimal, and parsing never exceeds the width. *)
From S2P Require Import Prelude.
From stdpp Require Export strings.
#[global] Open Scope Z_scope.

(** The bytes of a literal. *)
Definition bs (s : string) : list Z :=
  List.map (fun c => Z.of_N (Ascii.N_of_ascii c)) (String.list_ascii_of_string s).

(** * Character classes *)

(** [char::is_whitespace] of a byte read as a [char] (Latin-1). *)
Definition is_whitespace (c : Z) : bool :=
  ((9 <=? c) && (c <=? 13)) || (c =? 32) || (c =? 0x85) || (c =? 0xa0).

(** [u8::is_ascii_whitespace] (no vertical tab). *)
Definition is_ascii_whitespace (c : Z) : bool :=
  (c =? 32) || (c =? 9) || (c =? 10) || (c =? 12) || (c =? 13).

Definition is_ascii_digit (c : Z) : bool := (48 <=? c) && (c <=? 57).
Definition is_ascii_lower (c : Z) : bool := (97 <=? c) && (c <=? 122).
Definition is_ascii_upper (c : Z) : bool := (65 <=? c) && (c <=? 90).
Definition is_ascii_alphanumeric (c : Z) : bool :=
  is_ascii_digit c || is_ascii_lower c || is_ascii_upper c.
Definition is_ascii_hexdigit (c : Z) : bool :=
  is_ascii_digit c || ((97 <=? c) && (c <=? 102)) || ((65 <=? c) && (c <=? 70)).

(** [char::to_digit(radix)] for a radix up to 36. *)
Definition to_digit (c radix : Z) : option Z :=
  let d := if is_ascii_digit c then c - 48
           else if is_ascii_lower c then c - 87
           else if is_ascii_upper c then c - 55
           else radix in
  if d <? radix then Some d else None.

(** * Slices of text *)

Fixpoint strip_prefix (p s : list Z) : option (list Z) :=
  match p, s with
  | [], _ => Some s
  | a :: p', b :: s' => if a =? b then strip_prefix p' s' else None
  | _ :: _, [] => None
  end.

Definition starts_with (p s : list Z) : bool :=
  match strip_prefix p s with Some _ => true | None => false end.

Definition strip_suffix (p s : list Z) : option (list Z) :=
  reverse <$> strip_prefix (reverse p) (reverse s).

(** [str::find] of a pattern, [str::rfind] of a byte. *)
Fixpoint find_sub (pat s : list Z) : option Z :=
  if starts_with pat s then Some 0
  else match s with [] => None | _ :: t => Z.succ <$> find_sub pat t end.

Fixpoint rposition (c : Z) (s : list Z) : option Z :=
  match s with
  | [] => None
  | x :: t => match rposition c t with Some i => Some (1 + i) | None => if x =? c then Some 0 else None end
  end.

Definition bytes_eqb (a b : list Z) : bool := bool_decide (a = b).

(** UTF-8 encodings of the characters with the [White_Space] property. *)
Definition ws_chars : list (list Z) :=
  [[9]; [10]; [11]; [12]; [13]; [32]; [0xc2; 0x85]; [0xc2; 0xa0]; [0xe1; 0x9a; 0x80];
   [0xe2; 0x80; 0x80]; [0xe2; 0x80; 0x81]; [0xe2; 0x80; 0x82]; [0xe2; 0x80; 0x83];
   [0xe2; 0x80; 0x84]; [0xe2; 0x80; 0x85]; [0xe2; 0x80; 0x86]; [0xe2; 0x80; 0x87];
   [0xe2; 0x80; 0x88]; [0xe2; 0x80; 0x89]; [0xe2; 0x80; 0x8a]; [0xe2; 0x80; 0xa8];
   [0xe2; 0x80; 0xa9]; [0xe2; 0x80; 0xaf]; [0xe2; 0x81; 0x9f]; [0xe3; 0x80; 0x80]].

(** The rest of [s] after one of the encodings in [ws], if any matches. *)
Fixpoint strip_any (ws : list (list Z)) (s : list Z) : option (list Z) :=
  match ws with
  | [] => None
  | w :: ws' => match strip_prefix w s with Some r => Some r | None => strip_any ws' s end
  end.

Fixpoint strip_all (fuel : nat) (ws : list (list Z)) (s : list Z) : list Z :=
  match fuel with
  | O => s
  | S f => match strip_any ws s with Some r => strip_all f ws r | None => s end
  end.

(** [str::trim_start] and [str::trim]; the encodings are stripped from the
    back in reversed form. *)
Definition trim_start (s : list Z) : list Z := strip_all (length s) ws_chars s.
Definition trim_end (s : list Z) : list Z :=
  reverse (strip_all (length s) (reverse <$> ws_chars) (reverse s)).
Definition trim (s : list Z) : list Z := trim_end (trim_start s).

(** [str::split(c)] on an ASCII separator. *)
Fixpoint split_on (c : Z) (s : list Z) : list (list Z) :=
  match s with
  | [] => [[]]
  | x :: t => if x =? c then [] :: split_on c t
              else match split_on c t with
                   | w :: ws => (x :: w) :: ws
                   | [] => [[x]]
                   end
  end.

Definition strip_cr (l : list Z) : list Z :=
  match strip_suffix [13] l with Some r => r | None => l end.

(** [str::split_whitespace]: the text up to the next white space, and the
    pieces between runs of it. *)
Fixpoint word (s : list Z) : list Z :=
  match s with
  | [] => []
  | c :: t => match strip_any ws_chars s with Some _ => [] | None => c :: word t end
  end.

Fixpoint split_ws (fuel : nat) (s : list Z) : list (list Z) :=
  match fuel with
  | O => []
  | S f => match trim_start s with
           | [] => []
           | t => word t :: split_ws f (drop (length (word t)) t)
           end
  end.

Definition split_whitespace (s : list Z) : list (list Z) := split_ws (S (length s)) s.

(** [str::lines]: split after each newline, dropping the terminator (and a
    carriage return before it); a final empty piece is not a line. *)
Definition lines (s : list Z) : list (list Z) :=
  let ps := split_on 10 s in
  let n := pred (length ps) in
  (strip_cr <$> take n ps) ++
  match last ps with Some [] => [] | Some l => [l] | None => [] end.

(** * Integers *)

(** The digit loop of [from_str_radix], with the overflow check on [max]. *)
Fixpoint digits_val (radix max acc : Z) (s : list Z) : option Z :=
  match s with
  | [] => Some acc
  | c :: t =>
      match to_digit c radix with
      | None => None
      | Some d => let acc' := acc * radix + d in
                  if acc' <=? max then digits_val radix max acc' t else None
      end
  end.

(** [u64::from_str_radix]: an optional [+], then at least one digit. *)
Definition from_str_radix_u64 (s : list Z) (radix : Z) : option Z :=
  match s with
  | [] => None
  | c :: t =>
      if c =? 43 then match t with [] => None | _ => digits_val radix (2 ^ 64 - 1) 0 t end
      else digits_val radix (2 ^ 64 - 1) 0 s
  end.

(** [str::parse::<u64>] and [parse::<usize>]. *)
Definition parse_u64 (s : list Z) : option Z := from_str_radix_u64 s 10.
Definition parse_u32 (s : list Z) : option Z := n ← parse_u64 s; if n <? 2 ^ 32 then Some n else None.

(** [str::parse::<i64>]: a sign is allowed, the magnitude is checked against
    the bound of its sign. *)
Definition parse_i64 (s : list Z) : option Z :=
  match s with
  | [] => None
  | c :: t =>
      if c =? 45 then match t with [] => None | _ => Z.opp <$> digits_val 10 (2 ^ 63) 0 t end
      else if c =? 43 then match t with [] => None | _ => digits_val 10 (2 ^ 63 - 1) 0 t end
      else digits_val 10 (2 ^ 63 - 1) 0 s
  end.
Definition parse_i32 (s : list Z) : option Z :=
  v ← parse_i64 s; if (- 2 ^ 31 <=? v) && (v <? 2 ^ 31) then Some v else None.

Definition digit_char (d : Z) : Z := if d <? 10 then 48 + d else 87 + d.

(** Digits of [n] in [radix], most significant first; [fuel] bounds their
    number (64 suffices for a u64 in any radix from 2). *)
Fixpoint fmt_digits (fuel : nat) (radix n : Z) (acc : list Z) : list Z :=
  match fuel with
  | O => acc
  | S f => let acc' := digit_char (n mod radix) :: acc in
           if n / radix =? 0 then acc' else fmt_digits f radix (n / radix) acc'
  end.

(** [format!("{:x}")] and [format!("{}")] of an unsigned value. *)
Definition fmt_hex (n : Z) : list Z := fmt_digits 64 16 n [].
Definition fmt_dec (n : Z) : list Z := fmt_digits 64 10 n [].

(** One line of a coverage log: [writeln!(f, "0x{:x}", pc)]. *)
Definition fmt_pc_line (pc : Z) : list Z := bs "0x" ++ fmt_hex pc ++ [10].

(** * Parsing what was printed *)

Lemma to_digit_char d radix :
  0 <= d < radix -> radix <= 36 -> to_digit (digit_char d) radix = Some d.
Proof.
  intros Hd Hr. unfold digit_char, to_digit, is_ascii_digit, is_ascii_lower, is_ascii_upper.
  zbool; simpl in *; try lia; f_equal; lia.
Qed.

Lemma to_digit_range c radix d : 0 <= radix -> to_digit c radix = Some d -> 0 <= d < radix.
Proof.
  unfold to_digit, is_ascii_digit, is_ascii_lower, is_ascii_upper. intros Hr H.
  zbool; simpl in *; simplify_eq; lia.
Qed.

(** Printing in front of [tail] then reading gives the value back as the
    accumulator with which [tail] is read. *)
Lemma digits_val_fmt fuel radix max n tail :
  2 <= radix <= 36 -> 0 <= n <= max -> n < radix ^ Z.of_nat fuel ->
  digits_val radix max 0 (fmt_digits fuel radix n tail) = digits_val radix max n tail.
Proof.
  revert n tail. induction fuel as [|fuel IH]; intros n tail Hr Hn Hlt.
  { assert (n = 0) as -> by (change (radix ^ Z.of_nat 0) with 1 in Hlt; lia). done. }
  cbn [fmt_digits]. pose proof (Z.mod_pos_bound n radix).
  pose proof (Z.div_mod n radix ltac:(lia)) as Hdm.
  destruct (Z.eqb_spec (n / radix) 0) as [E|E].
  - cbn [digits_val]. rewrite to_digit_char by lia.
    replace (0 * radix + n mod radix) with n by lia. by destruct (Z.leb_spec n max); [|lia].
  - rewrite IH.
    + cbn [digits_val]. rewrite to_digit_char by lia.
      replace (n / radix * radix + n mod radix) with n by lia.
      by destruct (Z.leb_spec n max); [|lia].
    + lia.
    + split; [apply Z.div_pos; lia|]. etrans; [|apply Hn].
      apply Z.div_le_upper_bound; [lia|]. nia.
    + apply Z.div_lt_upper_bound; [lia|].
      rewrite <- Z.pow_succ_r by lia. by rewrite <- Nat2Z.inj_succ.
Qed.

Lemma fmt_digits_head fuel radix n tail :
  0 < radix -> exists d l, fmt_digits (S fuel) radix n tail = digit_char d :: l /\ 0 <= d < radix.
Proof.
  intros Hr. revert n tail. induction fuel as [|fuel IH]; intros n tail.
  - exists (n mod radix), tail. split; [|by apply Z.mod_pos_bound].
    simpl. by destruct (_ =? 0).
  - cbn [fmt_digits]. destruct (_ =? 0); [|apply IH].
    exists (n mod radix), tail. split; [done|by apply Z.mod_pos_bound].
Qed.

Lemma digits_val_range radix max acc s v :
  0 < radix -> 0 <= acc <= max -> digits_val radix max acc s = Some v -> 0 <= v <= max.
Proof.
  intros Hr. revert acc. induction s as [|c s IH]; intros acc Hacc H; cbn in H.
  { by simplify_eq. }
  destruct (to_digit c radix) as [d|] eqn:E; [|done].
  apply to_digit_range in E; [|lia].
  destruct (Z.leb_spec (acc * radix + d) max); [|done]. apply IH in H; [done|nia].
Qed.

Lemma from_str_radix_range s radix v :
  0 < radix -> from_str_radix_u64 s radix = Some v -> is_u64 v.
Proof.
  intros Hr H. unfold from_str_radix_u64 in H.
  destruct s as [|c t]; [done|]. enough (0 <= v <= 2 ^ 64 - 1) by (unfold is_u64; lia).
  destruct (c =? 43); [destruct t; [done|]|]; by eapply digits_val_range; [| |exact H].
Qed.

Lemma from_str_radix_fmt fuel radix n :
  2 <= radix <= 36 -> is_u64 n -> n < radix ^ Z.of_nat (S fuel) ->
  from_str_radix_u64 (fmt_digits (S fuel) radix n []) radix = Some n.
Proof.
  intros Hr Hn Hlt. unfold is_u64 in Hn.
  pose proof (digits_val_fmt (S fuel) radix (2 ^ 64 - 1) n [] Hr ltac:(lia) Hlt) as Hv.
  destruct (fmt_digits_head fuel radix n [] ltac:(lia)) as (d&l&Hl&Hd).
  unfold from_str_radix_u64. rewrite Hl in *.
  destruct (Z.eqb_spec (digit_char d) 43) as [E|]; [|done].
  unfold digit_char in E. zbool; lia.
Qed.

Lemma from_str_radix_fmt_hex n : is_u64 n -> from_str_radix_u64 (fmt_hex n) 16 = Some n.
Proof.
  intros Hn. apply from_str_radix_fmt; [lia|done|]. unfold is_u64 in Hn.
  change (Z.of_nat 64) with 64. apply (Z.lt_le_trans _ (2 ^ 64)); [lia|].
  apply Z.pow_le_mono_l; lia.
Qed.

Lemma parse_u64_fmt_dec n : is_u64 n -> parse_u64 (fmt_dec n) = Some n.
Proof.
  intros Hn. apply from_str_radix_fmt; [lia|done|]. unfold is_u64 in Hn.
  change (Z.of_nat 64) with 64. apply (Z.lt_le_trans _ (2 ^ 64)); [lia|].
  apply Z.pow_le_mono_l; lia.
Qed.

Lemma parse_u32_fmt_dec n : is_u32 n -> parse_u32 (fmt_dec n) = Some n.
Proof.
  unfold is_u32. intros Hn. unfold parse_u32. rewrite parse_u64_fmt_dec by (unfold is_u64; lia). cbn [mbind option_bind].
  by rewrite (proj2 (Z.ltb_lt _ _)) by lia.
Qed.

(** Every byte a number prints to is an alphanumeric. *)
Lemma fmt_digits_alnum fuel radix n tail :
  2 <= radix <= 36 -> Forall (fun c => 48 <= c <= 122) tail ->
  Forall (fun c => 48 <= c <= 122) (fmt_digits fuel radix n tail).
Proof.
  intros Hr. revert n tail. induction fuel as [|fuel IH]; intros n tail Ht; [done|].
  cbn [fmt_digits].
  assert (Forall (fun c => 48 <= c <= 122) (digit_char (n mod radix) :: tail)).
  { constructor; [|done]. pose proof (Z.mod_pos_bound n radix). unfold digit_char. zbool; lia. }
  destruct (_ =? 0); [done|]. by apply IH.
Qed.

Lemma fmt_hex_alnum n : Forall (fun c => 48 <= c <= 122) (fmt_hex n).
Proof. by apply fmt_digits_alnum. Qed.

Lemma strip_any_None ws c r :
  Forall (fun w => exists b w', w = b :: w' /\ b <> c) ws -> strip_any ws (c :: r) = None.
Proof.
  induction 1 as [|w ws (b&w'&->&Hb) _ IH]; [done|]. simpl.
  destruct (Z.eqb_spec b c); [done|exact IH].
Qed.

(** Visible ASCII is not white space. *)
Definition graph (c : Z) : Prop := 33 <= c <= 126.

Lemma strip_any_graph c r : graph c ->
  strip_any ws_chars (c :: r) = None /\ strip_any (reverse <$> ws_chars) (c :: r) = None.
Proof.
  unfold graph. intros Hc. split; apply strip_any_None; vm_compute (reverse <$> _);
    repeat (constructor; [eexists _, _; split; [done|lia]|]); constructor.
Qed.

Lemma strip_any_alnum c r : 48 <= c <= 122 ->
  strip_any ws_chars (c :: r) = None /\ strip_any (reverse <$> ws_chars) (c :: r) = None.
Proof. intros Hc. apply strip_any_graph. unfold graph. lia. Qed.

Lemma alnum_graph w : Forall (fun c => 48 <= c <= 122) w -> Forall graph w.
Proof. intros H. eapply Forall_impl; [exact H|]. unfold graph. intros c Hc. cbv beta in Hc. lia. Qed.

(** [trim] leaves alphanumeric text alone. *)
Lemma trim_alnum s : Forall (fun c => 48 <= c <= 122) s -> trim s = s.
Proof.
  intros Hs. destruct s as [|c s]; [done|].
  assert (trim_start (c :: s) = c :: s) as Hst.
  { unfold trim_start. cbn [length strip_all]. inversion Hs; subst.
    by rewrite (proj1 (strip_any_alnum c s ltac:(done))). }
  unfold trim. rewrite Hst. unfold trim_end. rewrite <- (reverse_involutive (c :: s)) at 3.
  f_equal. rewrite <- Forall_reverse in Hs.
  rewrite <- (length_reverse (c :: s)). destruct (reverse (c :: s)) as [|d r]; [done|].
  cbn [length strip_all]. inversion Hs; subst.
  by rewrite (proj2 (strip_any_alnum d r ltac:(done))).
Qed.

(** White space is stripped to the end, and [split_whitespace] is independent of
    the bound on its rounds. *)
Lemma strip_prefix_Some p s r : strip_prefix p s = Some r -> s = p ++ r.
Proof.
  revert s. induction p as [|a p IH]; intros s; [by intros [= ->]|]. destruct s as [|b s]; [done|]. cbn.
  destruct (Z.eqb_spec a b) as [->|]; [|done]. intros H. by rewrite (IH s H).
Qed.

Lemma strip_any_shorter ws s r : Forall (fun w => w <> []) ws -> strip_any ws s = Some r -> (length r < length s)%nat.
Proof.
  induction 1 as [|w ws Hw _ IH]; [done|]. cbn. destruct (strip_prefix w s) as [r'|] eqn:E; [|exact IH].
  intros [= <-]. apply strip_prefix_Some in E as ->. rewrite length_app. destruct w; [done|cbn; lia].
Qed.

Lemma ws_chars_nonempty : Forall (fun w => w <> []) ws_chars.
Proof. repeat constructor; done. Qed.

Lemma strip_all_ws fuel s : (length s <= fuel)%nat ->
  strip_any ws_chars (strip_all fuel ws_chars s) = None /\ (length (strip_all fuel ws_chars s) <= length s)%nat.
Proof.
  revert s. induction fuel as [|fuel IH]; intros s Hl; cbn [strip_all].
  - destruct s; [|cbn in Hl; lia]. split; [vm_compute; reflexivity|lia].
  - destruct (strip_any ws_chars s) as [r|] eqn:E; [|done]. apply strip_any_shorter in E as Hr; [|apply ws_chars_nonempty].
    destruct (IH r ltac:(lia)) as [H1 H2]. split; [done|lia].
Qed.

Lemma split_ws_S f s : split_ws (S f) s =
  match trim_start s with [] => [] | t => word t :: split_ws f (drop (length (word t)) t) end.
Proof. done. Qed.

Lemma split_ws_fuel f s : (length s < f)%nat -> split_ws f s = split_whitespace s.
Proof.
  unfold split_whitespace. assert (forall n f s, (length s <= n)%nat -> (length s < f)%nat -> split_ws f s = split_ws (S (length s)) s) as H; [|by intros; apply (H (length s))].
  clear. induction n as [n IH] using lt_wf_ind. intros f s Hn Hf. destruct f as [|f]; [lia|]. cbn [split_ws].
  destruct (strip_all_ws (length s) s ltac:(lia)) as [Hs Hl]. fold (trim_start s) in Hs, Hl. destruct (trim_start s) as [|c t]; [done|]. f_equal.
  assert (1 <= length (word (c :: t)))%nat by (cbn [word]; rewrite Hs; cbn; lia).
  set (r := drop _ _). assert (length r < length s)%nat as Hr by (unfold r; rewrite length_drop; cbn [length] in *; lia).
  rewrite (IH (length r) ltac:(lia) f r) by lia. by rewrite (IH (length r) ltac:(lia) (length s) r) by lia.
Qed.

Lemma word_graph w rest : Forall graph w -> (rest = [] \/ strip_any ws_chars rest <> None) -> word (w ++ rest) = w.
Proof.
  intros Hw Hr. induction Hw as [|c w Hc _ IH].
  - destruct Hr as [-> | Hr]; [done|]. destruct rest as [|c r]; [done|]. cbn [app word]. by destruct (strip_any ws_chars (c :: r)).
  - cbn [app word]. rewrite (proj1 (strip_any_graph c (w ++ rest) Hc)). by rewrite IH.
Qed.

Lemma trim_start_graph c r : graph c -> trim_start (c :: r) = c :: r.
Proof. intros Hc. unfold trim_start. cbn [length strip_all]. by rewrite (proj1 (strip_any_graph c r Hc)). Qed.

Lemma split_whitespace_step w rest : w <> [] -> Forall graph w -> (rest = [] \/ strip_any ws_chars rest <> None) ->
  split_whitespace (w ++ rest) = w :: split_whitespace rest.
Proof.
  intros Hn Hw Hr. unfold split_whitespace at 1. rewrite split_ws_S. destruct w as [|c w]; [done|]. cbn [app].
  rewrite trim_start_graph by (by apply Forall_cons in Hw as [Hc _]). change (c :: w ++ rest) with ((c :: w) ++ rest). rewrite word_graph by done.
  rewrite drop_app_length, split_ws_fuel; [done|]. rewrite length_app. cbn. lia.
Qed.

Lemma split_whitespace_word w : w <> [] -> Forall graph w -> split_whitespace w = [w].
Proof. intros Hn Hw. rewrite <- (app_nil_r w) at 1. by rewrite split_whitespace_step by (done || by left). Qed.

Lemma split_whitespace_space s : split_whitespace (32 :: s) = split_whitespace s.
Proof.
  unfold split_whitespace at 1. rewrite split_ws_S. change (trim_start (32 :: s)) with (trim_start s).
  unfold split_whitespace. rewrite split_ws_S. change (length (32 :: s)) with (S (length s)). destruct (strip_all_ws (length s) s ltac:(lia)) as [Hs Hl]. fold (trim_start s) in Hs, Hl.
  destruct (trim_start s) as [|c t]; [done|]. f_equal.
  assert (1 <= length (word (c :: t)))%nat by (cbn [word]; rewrite Hs; cbn; lia).
  set (r := drop _ _). assert (length r < length s)%nat as Hr by (unfold r; rewrite length_drop; cbn [length] in *; lia).
  by rewrite !split_ws_fuel by lia.
Qed.

(** * Lines *)

Lemma rposition_None c s : rposition c s = None <-> c ∉ s.
Proof.
  induction s as [|x s IH]; [split; [intros _; set_solver|done]|]. cbn. rewrite not_elem_of_cons.
  destruct (rposition c s) as [i|] eqn:E.
  - split; [done|]. intros [_ H]. by apply IH in H.
  - destruct (Z.eqb_spec x c) as [->|]; [split; [done|by intros [? _]]|]. split; [|done]. intros _. split; [done|by apply IH].
Qed.

Lemma rposition_Some c s i : rposition c s = Some i ->
  exists pre post, s = pre ++ c :: post /\ zlen pre = i /\ c ∉ post.
Proof.
  revert i. induction s as [|x s IH]; intros i H; [done|]. cbn in H.
  destruct (rposition c s) as [j|] eqn:E.
  - injection H as <-. destruct (IH j eq_refl) as (pre & post & -> & Hp & Hn). exists (x :: pre), post.
    split; [done|]. split; [rewrite zlen_cons; lia|done].
  - destruct (Z.eqb_spec x c) as [->|]; [|done]. injection H as <-. exists [], s. by apply rposition_None in E.
Qed.

Lemma split_on_cons c s : exists w ws, split_on c s = w :: ws.
Proof.
  induction s as [|x s (w & ws & IH)]; [by eexists _, _|]. cbn. destruct (x =? c); [by eexists _, _|]. rewrite IH. by eexists _, _.
Qed.

Lemma split_on_none c s : c ∉ s -> split_on c s = [s].
Proof.
  induction s as [|x s IH]; intros Hn; [done|]. apply not_elem_of_cons in Hn as [Hx Hn]. cbn.
  rewrite (proj2 (Z.eqb_neq _ _)) by done. by rewrite IH.
Qed.

Lemma split_on_split c l r : split_on c (l ++ c :: r) = split_on c l ++ split_on c r.
Proof.
  induction l as [|x l IH]; cbn [app split_on]; [by rewrite Z.eqb_refl|].
  destruct (x =? c); [by rewrite IH|]. rewrite IH. by destruct (split_on_cons c l) as (w & ws & ->).
Qed.

(** [find] gives the first occurrence. *)
Lemma starts_with_iff p s : starts_with p s = true <-> exists r, s = p ++ r.
Proof.
  unfold starts_with. revert s. induction p as [|a p IH]; intros s; [split; [by exists s|done]|].
  destruct s as [|b s]; cbn; [split; [done|by intros [r ?]]|]. destruct (Z.eqb_spec a b) as [->|Hn].
  - rewrite IH. split; intros [r Hr]; exists r; [by rewrite Hr|by injection Hr].
  - split; [done|]. intros [r Hr]. by injection Hr as ? _.
Qed.

Lemma find_sub_Some pat s i : find_sub pat s = Some i ->
  exists pre post, s = pre ++ pat ++ post /\ zlen pre = i /\
    forall pre' post', s = pre' ++ pat ++ post' -> zlen pre <= zlen pre'.
Proof.
  revert i. induction s as [|c s IH]; intros i; cbn [find_sub].
  - destruct (starts_with pat []) eqn:E; [|done]. intros [= <-]. apply starts_with_iff in E as [r Hr]. exists [], r.
    split; [exact Hr|]. split; [done|]. intros. apply zlen_nonneg.
  - destruct (starts_with pat (c :: s)) eqn:E.
    { intros [= <-]. apply starts_with_iff in E as [r Hr]. exists [], r. split; [exact Hr|]. split; [done|]. intros. apply zlen_nonneg. }
    destruct (find_sub pat s) as [j|]; [|done]. intros [= <-]. destruct (IH j eq_refl) as (pre & post & -> & Hp & Hf).
    exists (c :: pre), post. rewrite zlen_cons. split; [done|]. split; [lia|]. intros [|x pre'] post' H.
    + apply Bool.not_true_iff_false in E. destruct E. apply starts_with_iff. by exists post'.
    + injection H as _ H. apply Hf in H. rewrite zlen_cons. lia.
Qed.

Lemma find_sub_None pat s : find_sub pat s = None <-> forall pre post, s <> pre ++ pat ++ post.
Proof.
  induction s as [|c s IH]; cbn [find_sub]; destruct (starts_with pat _) eqn:E.
  - split; [done|]. intros H. apply starts_with_iff in E as [r Hr]. by destruct (H [] r).
  - split; [|done]. intros _ pre post Hs. symmetry in Hs. apply app_eq_nil in Hs as [-> Hs]. cbn in Hs.
    apply app_eq_nil in Hs as [-> ->]. done.
  - split; [done|]. intros H. apply starts_with_iff in E as [r Hr]. by destruct (H [] r).
  - transitivity (find_sub pat s = None); [by destruct (find_sub pat s)|]. rewrite IH. split; intros H pre post Hs.
    + destruct pre as [|x pre]; [|injection Hs as _ Hs; by destruct (H pre post)].
      apply Bool.not_true_iff_false in E. apply E. apply starts_with_iff. by exists post.
    + destruct (H (c :: pre) post). by rewrite Hs.
Qed.

Lemma split_on_app c l r : c ∉ l -> split_on c (l ++ c :: r) = l :: split_on c r.
Proof.
  induction l as [|x l IH]; intros Hn; simpl; [by rewrite Z.eqb_refl|].
  destruct (Z.eqb_spec x c) as [->|]; [set_solver|].
  rewrite IH by set_solver. done.
Qed.

Lemma split_on_concat c ls :
  Forall (fun l => c ∉ l) ls ->
  split_on c (concat ((fun l => l ++ [c]) <$> ls)) = ls ++ [[]].
Proof.
  induction 1 as [|l ls Hl _ IH]; [done|].
  cbn [fmap list_fmap concat]. rewrite <- app_assoc. simpl.
  by rewrite split_on_app, IH.
Qed.

Lemma strip_prefix_app p r : strip_prefix p (p ++ r) = Some r.
Proof. induction p as [|a p IH]; simpl; [done|]. by rewrite Z.eqb_refl. Qed.

Definition line_char (c : Z) : Prop := c <> 10 /\ c <> 13.

Lemma strip_cr_id l : Forall line_char l -> strip_cr l = l.
Proof.
  intros Hl. unfold strip_cr, strip_suffix. rewrite <- Forall_reverse in Hl.
  change (reverse [13]) with [13]. destruct (reverse l) as [|c r]; [done|].
  apply Forall_cons in Hl as [[_ Hc] _]. cbn [strip_prefix].
  by rewrite (proj2 (Z.eqb_neq 13 c)).
Qed.

(** Text written one line at a time reads back line by line. *)
Lemma lines_concat_text ls :
  Forall (Forall line_char) ls -> lines (concat ((fun l => l ++ [10]) <$> ls)) = ls.
Proof.
  intros Hls. unfold lines. rewrite split_on_concat.
  - rewrite length_app, last_snoc. simpl. rewrite Nat.add_1_r. simpl.
    rewrite take_app_length, app_nil_r.
    induction Hls as [|l ls Hl _ IH]; [done|]. cbn [fmap list_fmap].
    rewrite strip_cr_id by done. f_equal. exact IH.
  - eapply Forall_impl; [done|]. intros l Hl Hin.
    rewrite Forall_forall in Hl. by destruct (Hl _ Hin).
Qed.

Lemma alnum_line_char l : Forall (fun c => 48 <= c <= 122) l -> Forall line_char l.
Proof. intros H. eapply Forall_impl; [exact H|]. unfold line_char. intros c Hc. cbv beta in Hc. lia. Qed.

Lemma graph_line_char l : Forall graph l -> Forall line_char l.
Proof. intros H. eapply Forall_impl; [exact H|]. unfold graph, line_char. intros c Hc. cbv beta in Hc. lia. Qed.

Lemma lines_concat ls :
  Forall (Forall (fun c => 48 <= c <= 122)) ls ->
  lines (concat ((fun l => l ++ [10]) <$> ls)) = ls.
Proof. intros Hls. apply lines_concat_text. eapply Forall_impl; [exact Hls|]. intros l. apply alnum_line_char. Qed.

(** * [String::from_utf8_lossy] *)

Definition is_cont (b : Z) : bool := (0x80 <=? b) && (b <=? 0xbf).

Definition byte_at (s : list Z) (i : nat) : Z := default 0 (s !! i).

(** Length of the sequence at the head of [s] and whether it is a valid
    character; an invalid one is the maximal prefix of a valid sequence. *)
Definition utf8_head (b : Z) (s : list Z) : nat * bool :=
  let b1 := byte_at s 0 in
  let b2 := byte_at s 1 in
  let b3 := byte_at s 2 in
  let between x lo hi := (lo <=? x) && (x <=? hi) in
  if b <? 0x80 then (1%nat, true)
  else if between b 0xc2 0xdf then if is_cont b1 then (2%nat, true) else (1%nat, false)
  else if between b 0xe0 0xef then
    if ((b =? 0xe0) && between b1 0xa0 0xbf) || (between b 0xe1 0xec && is_cont b1) ||
       ((b =? 0xed) && between b1 0x80 0x9f) || (between b 0xee 0xef && is_cont b1)
    then if is_cont b2 then (3%nat, true) else (2%nat, false)
    else (1%nat, false)
  else if between b 0xf0 0xf4 then
    if ((b =? 0xf0) && between b1 0x90 0xbf) || (between b 0xf1 0xf3 && is_cont b1) ||
       ((b =? 0xf4) && between b1 0x80 0x8f)
    then if is_cont b2 then if is_cont b3 then (4%nat, true) else (3%nat, false)
         else (2%nat, false)
    else (1%nat, false)
  else (1%nat, false).

Fixpoint lossy_go (fuel : nat) (s : list Z) : list Z :=
  match fuel, s with
  | O, _ => []
  | _, [] => []
  | S f, b :: t =>
      let '(n, ok) := utf8_head b t in
      (if ok : bool then take n s else [0xef; 0xbf; 0xbd]) ++ lossy_go f (drop n s)
  end.

Definition from_utf8_lossy (s : list Z) : list Z := lossy_go (length s) s.

Lemma lossy_ascii s : Forall (fun c => c < 0x80) s -> from_utf8_lossy s = s.
Proof.
  unfold from_utf8_lossy. induction 1 as [|b s Hb _ IH]; [done|].
  cbn [length lossy_go]. unfold utf8_head.
  replace (b <? 0x80) with true by lia. simpl. by rewrite drop_0, IH.
Qed.

Lemma lines_concat_gen ls :
  Forall (Forall (fun c => c <> 10 /\ c <> 13)) ls ->
  lines (concat ((fun l => l ++ [10]) <$> ls)) = ls.
Proof.
  intros Hls. unfold lines. rewrite split_on_concat.
  - rewrite length_app, last_snoc. simpl. rewrite Nat.add_1_r. simpl.
    rewrite take_app_length, app_nil_r.
    induction Hls as [|l ls Hl _ IH]; [done|]. cbn [fmap list_fmap].
    f_equal; [|exact IH]. unfold strip_cr, strip_suffix. rewrite <- Forall_reverse in Hl.
    change (reverse [13]) with [13]. destruct (reverse l) as [|c r]; [done|].
    inversion Hl; subst. cbn [strip_prefix]. destruct (Z.eqb_spec 13 c); [lia|done].
  - eapply Forall_impl; [done|]. intros l Hl Hin.
    rewrite Forall_forall in Hl. by destruct (Hl _ Hin).
Qed.
