(* ===== verification/FuzzRng.v ===== *)
(** The two xorshift generators: [Rng] of fuzz/rng.rs (the trace fuzzer's
    [rand()]) and [StressRng] of fuzz/prog_mutate.rs (the [-stress] mutator).
    Shown: results stay in the documented ranges, the generator step never
    maps a non-zero state to zero, and the only seed of [Rng] that reaches
    the all-zero fixed point is the one equal to its own whitening constant. *)
From S2P Require Import Prelude.

Module Rng.

(** [struct Rng { state: u64 }] *)
Record t : Type := Mk { state : Z }.

Definition golden : Z := 0x9e3779b97f4a7c15.

Definition new (seed : Z) : t := Mk (Z.lxor seed golden).

Definition next_u64 (r : t) : Z * t :=
  let x := state r in
  let x := Z.lxor x (x <<₆₄ 13) in
  let x := Z.lxor x (x >>₆₄ 7) in
  let x := Z.lxor x (x <<₆₄ 17) in
  (x, Mk x).

Definition rand (r : t) : Z * t :=
  let '(x, r) := next_u64 r in (x >>₆₄ 33, r).

Definition below (r : t) (n : Z) : Z * t :=
  if n <=? 0 then (0, r)
  else let '(x, r) := rand r in (x mod n, r).

Definition wf (r : t) : Prop := is_u64 (state r).

End Rng.

Module StressRng.

(** [struct Rng(u64)] *)
Record t : Type := Mk { state : Z }.

Definition new (seed : Z) : t := Mk (if seed =? 0 then Rng.golden else seed).

Definition next (r : t) : Z * t :=
  let x := state r in
  let x := Z.lxor x (x >>₆₄ 12) in
  let x := Z.lxor x (x <<₆₄ 25) in
  let x := Z.lxor x (x >>₆₄ 27) in
  (x *₆₄ 0x2545F4914F6CDD1D, Mk x).

Definition below (r : t) (n : Z) : Z * t :=
  if n =? 0 then (0, r) else let '(x, r) := next r in (x mod n, r).

Definition chance (r : t) (one_in : Z) : bool * t :=
  let '(x, r) := below r (Z.max one_in 1) in (x =? 0, r).

Definition wf (r : t) : Prop := is_u64 (state r).

End StressRng.

(** * The xorshift step *)

Lemma xor_shl_range x k : 0 <= k -> is_u64 x -> is_u64 (Z.lxor x (x <<₆₄ k)).
Proof. intros. apply lxor_range; [lia|done|apply as_u64_range]. Qed.

Lemma xor_shr_range x k : 0 <= k -> is_u64 x -> is_u64 (Z.lxor x (x >>₆₄ k)).
Proof. intros. apply lxor_range; [lia|done|by apply shiftr_range]. Qed.

(** [x ^ (x << k) = 0] forces [x * (2^k - 1)] to vanish mod 2^64, and
    [2^k - 1] is odd. *)
Lemma xor_shl_zero x k : 1 <= k -> is_u64 x -> Z.lxor x (x <<₆₄ k) = 0 -> x = 0.
Proof.
  intros Hk Hx H. apply Z.lxor_eq in H.
  unfold as_u64 in H. rewrite Z.shiftl_mul_pow2 in H by lia.
  assert ((2 ^ 64 | (2 ^ k - 1) * x)) as Hd.
  { apply Z.mod_divide; [lia|]. rewrite Z.mul_sub_distr_r, Z.mul_1_l, (Z.mul_comm (2 ^ k)).
    rewrite Zminus_mod, <- H, (Z.mod_small x) by done. by rewrite Z.sub_diag. }
  apply Z.gauss in Hd as [q Hq].
  - unfold is_u64 in Hx. nia.
  - apply Z.coprime_pow_l; [lia|]. unfold Z.coprime.
    replace (2 ^ k - 1) with (1 + (2 ^ (k - 1) - 1) * 2).
    + by rewrite Z.gcd_add_mult_diag_r.
    + replace k with (Z.succ (k - 1)) at 2 by lia. rewrite Z.pow_succ_r by lia. lia.
Qed.

Lemma xor_shr_zero x k : 1 <= k -> is_u64 x -> Z.lxor x (x >>₆₄ k) = 0 -> x = 0.
Proof.
  intros Hk Hx H. apply Z.lxor_eq in H. rewrite Z.shiftr_div_pow2 in H by lia.
  unfold is_u64 in Hx. destruct (decide (x = 0)) as [->|]; [done|].
  enough (x / 2 ^ k < x) by lia.
  apply Z.div_lt; [lia|]. apply Z.pow_gt_1; lia.
Qed.

Lemma rng_step_wf r : Rng.wf r -> Rng.wf (Rng.next_u64 r).2.
Proof.
  intros H. unfold Rng.wf, Rng.next_u64. simpl.
  apply xor_shl_range; [lia|]. apply xor_shr_range; [lia|]. by apply xor_shl_range.
Qed.

Lemma rng_step_zero r : Rng.wf r -> Rng.state (Rng.next_u64 r).2 = 0 <-> Rng.state r = 0.
Proof.
  intros H. split; [|by destruct r; simpl; intros ->].
  unfold Rng.next_u64. simpl. intros Hz.
  assert (is_u64 (Z.lxor (Rng.state r) (Rng.state r <<₆₄ 13))) by (by apply xor_shl_range).
  apply xor_shl_zero in Hz; [|lia|by apply xor_shr_range].
  apply xor_shr_zero in Hz; [|lia|done]. by apply xor_shl_zero in Hz; [|lia|].
Qed.

Lemma rng_new_wf seed : is_u64 seed -> Rng.wf (Rng.new seed).
Proof. intros. apply lxor_range; [lia|done|unfold Rng.golden; lia]. Qed.

Lemma rng_rand_range r : Rng.wf r -> 0 <= (Rng.rand r).1 < 2 ^ 31.
Proof.
  intros H. apply rng_step_wf in H. unfold Rng.rand.
  destruct (Rng.next_u64 r) as [x r'] eqn:E. simpl.
  assert (x = Rng.state r') as -> by (by injection E as <- <-).
  unfold Rng.wf, is_u64 in H. simpl in H. rewrite Z.shiftr_div_pow2 by lia.
  split; [apply Z.div_pos; lia|apply Z.div_lt_upper_bound; lia].
Qed.

Lemma rng_rand_wf r : Rng.wf r -> Rng.wf (Rng.rand r).2.
Proof. intros H%rng_step_wf. unfold Rng.rand. by destruct (Rng.next_u64 r). Qed.

Lemma rng_below_range r n : Rng.wf r -> 0 < n -> 0 <= (Rng.below r n).1 < n.
Proof.
  intros H Hn. unfold Rng.below. destruct (Z.leb_spec n 0); [lia|].
  destruct (Rng.rand r). simpl. by apply Z.mod_pos_bound.
Qed.

Lemma rng_below_wf r n : Rng.wf r -> Rng.wf (Rng.below r n).2.
Proof.
  intros H. unfold Rng.below. destruct (n <=? 0); [done|].
  pose proof (rng_rand_wf r H). by destruct (Rng.rand r).
Qed.

#[export] Hint Resolve rng_new_wf rng_rand_wf rng_below_wf rng_rand_range rng_below_range : vock.

(** [n] successive states of the generator. *)
Fixpoint rng_iter (n : nat) (r : Rng.t) : Rng.t :=
  match n with O => r | S n' => rng_iter n' (Rng.next_u64 r).2 end.

(** The generator seeded with [seed] ever reaches the all-zero
    fixed point of xorshift, from which [rand] returns 0 for ever, exactly
    when [seed] is the constant [new] xors it with. *)
Theorem rng_zero_state_iff (seed : Z) (n : nat) (Hs : is_u64 seed) :
  Rng.state (rng_iter n (Rng.new seed)) = 0 <-> seed = Rng.golden.
Proof.
  assert (forall n r, Rng.wf r -> Rng.state (rng_iter n r) = 0 <-> Rng.state r = 0) as Hi.
  { clear. induction n as [|n IH]; intros r H; simpl; [done|].
    rewrite IH by (by apply rng_step_wf). by apply rng_step_zero. }
  rewrite Hi by (by apply rng_new_wf). unfold Rng.new. simpl. split.
  - apply Z.lxor_eq.
  - intros ->. apply Z.lxor_nilpotent.
Qed.

Lemma rng_zero_state_iff_witness :
  is_u64 7 /\ (Rng.state (rng_iter 3 (Rng.new 7)) = 0 <-> 7 = Rng.golden).
Proof. assert (is_u64 7) by (unfold is_u64; lia). split; [done|]. by apply rng_zero_state_iff. Defined.

(** * The stress generator *)

Lemma stress_step_wf r : StressRng.wf r -> StressRng.wf (StressRng.next r).2.
Proof.
  intros H. unfold StressRng.wf, StressRng.next. simpl.
  apply xor_shr_range; [lia|]. apply xor_shl_range; [lia|]. by apply xor_shr_range.
Qed.

Lemma stress_step_nonzero r : StressRng.wf r ->
  StressRng.state r <> 0 -> StressRng.state (StressRng.next r).2 <> 0.
Proof.
  intros H Hn Hz. apply Hn. unfold StressRng.next in Hz. simpl in Hz.
  assert (is_u64 (Z.lxor (StressRng.state r) (StressRng.state r >>₆₄ 12)))
    by (by apply xor_shr_range).
  apply xor_shr_zero in Hz; [|lia|by apply xor_shl_range].
  apply xor_shl_zero in Hz; [|lia|done]. by apply xor_shr_zero in Hz; [|lia|].
Qed.

Lemma stress_new_wf seed : is_u64 seed -> StressRng.wf (StressRng.new seed).
Proof.
  intros H. unfold StressRng.wf, StressRng.new. simpl.
  destruct (seed =? 0); [unfold is_u64, Rng.golden; lia|done].
Qed.

Lemma stress_new_nonzero seed : StressRng.state (StressRng.new seed) <> 0.
Proof. unfold StressRng.new. simpl. by destruct (Z.eqb_spec seed 0). Qed.

Lemma stress_below_range r n : 0 < n -> 0 <= (StressRng.below r n).1 < n.
Proof.
  intros Hn. unfold StressRng.below. destruct (Z.eqb_spec n 0); [lia|].
  destruct (StressRng.next r). simpl. by apply Z.mod_pos_bound.
Qed.

Lemma stress_below_wf r n : StressRng.wf r -> StressRng.wf (StressRng.below r n).2.
Proof.
  intros H. unfold StressRng.below. destruct (n =? 0); [done|].
  pose proof (stress_step_wf r H). by destruct (StressRng.next r).
Qed.

#[export] Hint Resolve stress_below_range stress_below_wf : vock.
