(* ===== verification/FuzzSets.v ===== *)
(** The fuzzer's bounded sets: [Covset] (fuzz/covset.rs), [SignalSet]
    (fuzz/signal.rs) and the live-descriptor table [FdState] (fuzz/state.rs).
    Shown: the two-pointer [intersect]/[novel] loops compute the cardinality
    of the set intersection and difference, capacity is respected, a coverage
    log that was written is loaded back as the sorted set of its addresses,
    and the descriptor table only ever holds live in-range descriptors. *)
From S2P Require Import Prelude Text FuzzRng.

(** Both set types sort and deduplicate the same way, leaving a vector of at
    most one element alone. *)
Definition vec_sort_dedup (v : list Z) : list Z :=
  if zlen v <=? 1 then v else dedup (sort_u64 v).

(** One iteration of the sorted two-pointer walk; the three arguments are the
    amounts the counter moves by on [=], [<] and [>]. *)
Definition walk_step (on_eq on_lt : Z) (a b : list Z) (s : Z * Z * Z)
  : outcome (ctl (Z * Z * Z) (Z * Z)) :=
  let '(i, j, n) := s in
  if (i <? zlen a) && (j <? zlen b) then
    x ← or_panic (get a i);
    y ← or_panic (get b j);
    if x =? y then Done (Next (i + 1, j + 1, as_i32 (n + on_eq)))
    else if x <? y then Done (Next (i + 1, j, as_i32 (n + on_lt)))
    else Done (Next (i, j + 1, n))
  else Done (Stop (i, n)).

Definition walk (on_eq on_lt : Z) (a b : list Z) : outcome (Z * Z) :=
  loop (S (length a + length b)) (walk_step on_eq on_lt a b) (0, 0, 0).

Module Covset.

Record t : Type := Mk { pcs : list Z; cap : Z }.

Definition MAX_COVERAGE : Z := 65536.

Definition new (cap : Z) : t := Mk [] cap.

Definition count (s : t) : Z := as_i32 (zlen (pcs s)).

Definition add (s : t) (pc : Z) : t :=
  if zlen (pcs s) <? cap s then Mk (pcs s ++ [pc]) (cap s) else s.

Definition sort_dedup (s : t) : t := Mk (vec_sort_dedup (pcs s)) (cap s).

Definition intersect (s other : t) : outcome Z :=
  '(_, n) ← walk 1 0 (pcs s) (pcs other); Done n.

Definition novel (s other : t) : outcome Z :=
  '(i, n) ← walk 0 1 (pcs s) (pcs other);
  Done (as_i32 (n + as_i32 (zlen (pcs s) - i))).

(** One line of the log. *)
Definition load_line (s : t) (line : list Z) : t :=
  let l := trim line in
  let hex := match strip_prefix (bs "0x") l with
             | Some h => h
             | None => match strip_prefix (bs "0X") l with Some h => h | None => l end
             end in
  match from_str_radix_u64 hex 16 with
  | Some pc => if pc =? 0 then s else add s pc
  | None => s
  end.

(** [load_file] on the file's contents; [None] is an unreadable file. *)
Definition load_file (s : t) (data : option (list Z)) : bool * t :=
  match data with
  | None => (false, s)
  | Some d => (true, sort_dedup (foldl load_line s (lines d)))
  end.

End Covset.

Module SignalSet.

Record t : Type := Mk { sigs : list Z; cap : Z }.

Definition MAX_SIGNAL : Z := 8192.

Definition new (cap : Z) : t := Mk [] cap.

Definition count (s : t) : Z := as_i32 (zlen (sigs s)).

(** The packed [(nr, errno)] signal.  [-ret] wraps for [i64::MIN]. *)
Definition pack (nr ret : Z) : Z :=
  let errno := Z.land (as_u64 (if ret <? 0 then as_i64 (- ret) else 0)) 0xffffffff in
  Z.lor (as_u64 (Z.land nr 0xffff) <<₆₄ 32) errno.

Definition add (s : t) (nr ret : Z) : t :=
  if zlen (sigs s) <? cap s then Mk (sigs s ++ [pack nr ret]) (cap s) else s.

Definition sort_dedup (s : t) : t := Mk (vec_sort_dedup (sigs s)) (cap s).

Definition novel (s other : t) : outcome Z :=
  '(i, n) ← walk 0 1 (sigs s) (sigs other);
  Done (as_i32 (n + as_i32 (zlen (sigs s) - i))).

End SignalSet.

Module FdState.

Definition MAX_FDS : Z := 256.

(** [fds: Vec<i32>] *)
Record t : Type := Mk { fds : list Z }.

Definition new : t := Mk [].

Definition nfds (s : t) : Z := zlen (fds s).

(** open, openat, socket, accept, dup, accept4, pipe, openat2, pidfd_open *)
Definition produces_fd (nr : Z) : bool :=
  existsb (Z.eqb nr) [2; 257; 41; 43; 32; 288; 22; 437; 434].

(** The fd-producing half of [track]. *)
Definition track_open (s : t) (nr ret : Z) : t :=
  if (0 <=? ret) && (as_u64 ret <? MAX_FDS) && produces_fd nr && (zlen (fds s) <? MAX_FDS)
  then Mk (fds s ++ [as_i32 ret]) else s.

Definition track (s : t) (nr : Z) (args : list Z) (ret : Z) : outcome t :=
  let s := track_open s nr ret in
  if nr =? 3 then
    a0 ← or_panic (get args 0);
    if (0 <=? a0) && (as_u64 a0 <? MAX_FDS) then
      match position (fun f => f =? as_i32 a0) (fds s) with
      | Some idx => Done (Mk (swap_remove (fds s) (Z.to_nat idx)))
      | None => Done s
      end
    else Done s
  else Done s.

Definition get_valid (s : t) (r : Rng.t) : outcome (Z * Rng.t) :=
  match fds s with
  | [] => Done (3, r)
  | _ => let '(i, r) := Rng.below r (zlen (fds s)) in
         f ← or_panic (get (fds s) i); Done (f, r)
  end.

Definition wf (s : t) : Prop :=
  zlen (fds s) <= MAX_FDS /\ Forall (fun f => 0 <= f < MAX_FDS) (fds s).

End FdState.

(** * The two-pointer walk against sets *)

(** Elements of [a] that are in [b], counted. *)
Definition common (a b : list Z) : Z := zlen (filter (fun x => x ∈ b) a).

Lemma drop_get {A} (l : list A) i x :
  get l i = Some x -> drop (Z.to_nat i) l = x :: drop (Z.to_nat (i + 1)) l.
Proof.
  intros [Hi Hx]%get_Some. rewrite (drop_S _ x) by done.
  by replace (Z.to_nat (i + 1)) with (S (Z.to_nat i)) by lia.
Qed.

Lemma sorted_drop {A} (R : A -> A -> Prop) n l :
  StronglySorted R l -> StronglySorted R (drop n l).
Proof.
  intros H. revert n. induction H; intros [|n]; simpl; eauto; by constructor.
Qed.

Section Common.
Context (x y : Z) (a b : list Z).
Context (Ha : StronglySorted Z.lt (x :: a)) (Hb : StronglySorted Z.lt (y :: b)).

Lemma common_eq : x = y -> common (x :: a) (y :: b) = 1 + common a b.
Proof using Ha Hb.
  intros ->. unfold common. rewrite filter_cons_True by set_solver.
  rewrite zlen_cons. f_equal. f_equal. inversion Ha as [|? ? _ Hx]; subst.
  rewrite Forall_forall in Hx.
  clear -Hx.
  induction a as [|z l IH]; [done|]. rewrite !filter_cons.
  assert (y < z) by (apply Hx; left).
  rewrite IH by (intros; apply Hx; by right).
  repeat case_decide; set_solver by lia.
Qed.

Lemma common_lt : x < y -> common (x :: a) (y :: b) = common a (y :: b).
Proof using Ha Hb.
  intros Hlt. unfold common. rewrite filter_cons_False; [done|].
  inversion Hb as [|? ? _ Hy]; subst. rewrite Forall_forall in Hy.
  rewrite elem_of_cons. intros [->|Hin]; [lia|]. specialize (Hy x Hin). lia.
Qed.

Lemma common_gt : y < x -> common (x :: a) (y :: b) = common (x :: a) b.
Proof using Ha Hb.
  intros Hlt. unfold common. f_equal.
  assert (forall z, z ∈ x :: a -> y < z) as Hz.
  { inversion Ha as [|? ? _ Hx]; subst. rewrite Forall_forall in Hx.
    intros z [->|Hin]%elem_of_cons; [done|]. specialize (Hx z Hin). lia. }
  clear -Hz. induction (x :: a) as [|z l IH]; [done|].
  assert (y < z) by (apply Hz; left).
  rewrite !filter_cons, IH by (intros; apply Hz; by right).
  repeat case_decide; set_solver by lia.
Qed.
End Common.

Lemma common_nil_r a : common a [] = 0.
Proof. unfold common. induction a as [|x a IH]; [done|]. by rewrite filter_cons_False by set_solver. Qed.

Lemma common_le a b : 0 <= common a b <= zlen a.
Proof. unfold common, zlen. pose proof (length_filter (fun x => x ∈ b) a). lia. Qed.

Lemma as_i32_small x : 0 <= x < 2 ^ 31 -> as_i32 x = x.
Proof. intros H. unfold as_i32, as_signed. rewrite Z.mod_small; lia. Qed.

(** The walk leaves [a] at some index [i]; everything it counted, on [=] and
    on [<], plus what is left, accounts for the whole of [a]. *)
Lemma walk_spec on_eq on_lt a b :
  StronglySorted Z.lt a -> StronglySorted Z.lt b -> zlen a < 2 ^ 31 ->
  (on_eq = 1 /\ on_lt = 0 \/ on_eq = 0 /\ on_lt = 1) ->
  wp (walk on_eq on_lt a b)
     (fun '(i, n) => 0 <= i <= zlen a /\
        n = on_eq * common a b + on_lt * (i - common a b)) False.
Proof.
  intros Ha Hb Hlen Hon. unfold walk.
  apply (wp_loop
    (fun '(i, j, n) => 0 <= i <= zlen a /\ 0 <= j <= zlen b /\
       let c := common a b - common (drop (Z.to_nat i) a) (drop (Z.to_nat j) b) in
       0 <= c <= i /\ n = on_eq * c + on_lt * (i - c))
    (fun '(i, j, _) => (zlen a - i) + (zlen b - j))).
  2: { rewrite !drop_0. pose proof (zlen_nonneg a). pose proof (zlen_nonneg b).
       split_and!; lia. }
  2: { pose proof (zlen_nonneg a). pose proof (zlen_nonneg b). unfold zlen in *. lia. }
  intros [[i j] n] (Hi & Hj & Hc & Hn). unfold walk_step.
  destruct (Z.ltb_spec i (zlen a)) as [Hia|Hia]; cbn [andb]; cycle 1.
  { simpl. split; [done|]. revert Hn Hc. rewrite (drop_ge a) by (unfold zlen in *; lia).
    change (common [] _) with 0. rewrite Z.sub_0_r. done. }
  destruct (Z.ltb_spec j (zlen b)) as [Hjb|Hjb]; cycle 1.
  { simpl. split; [done|]. revert Hn Hc. rewrite (drop_ge b) by (unfold zlen in *; lia).
    rewrite common_nil_r, Z.sub_0_r. done. }
  destruct (proj2 (get_is_Some a i) ltac:(lia)) as [x Hx]. rewrite Hx.
  destruct (proj2 (get_is_Some b j) ltac:(lia)) as [y Hy]. rewrite Hy. cbn.
  pose proof (sorted_drop _ (Z.to_nat i) a Ha) as Hda.
  pose proof (sorted_drop _ (Z.to_nat j) b Hb) as Hdb.
  rewrite (drop_get _ _ _ Hx), (drop_get _ _ _ Hy) in *.
  pose proof (common_le (drop (Z.to_nat (i + 1)) a) (drop (Z.to_nat (j + 1)) b)).
  destruct (Z.eqb_spec x y) as [E|E]; [|destruct (Z.ltb_spec x y) as [L|L]]; cbn.
  - pose proof (common_eq _ _ _ _ Hda Hdb E).
    rewrite as_i32_small by (destruct Hon as [[-> ->]|[-> ->]]; lia).
    destruct Hon as [[-> ->]|[-> ->]]; split_and!; lia.
  - pose proof (common_lt _ _ _ _ Hda Hdb L).
    rewrite as_i32_small by (destruct Hon as [[-> ->]|[-> ->]]; lia).
    rewrite (drop_get b j y Hy).
    destruct Hon as [[-> ->]|[-> ->]]; split_and!; lia.
  - assert (y < x) as G by lia. pose proof (common_gt _ _ _ _ Hda Hdb G).
    rewrite (drop_get a i x Hx).
    destruct Hon as [[-> ->]|[-> ->]]; split_and!; lia.
Qed.

(** On strictly sorted sets below 2^31 elements, [intersect] returns the
    number of addresses the two sets share. *)
Theorem intersect_counts_common (s o : Covset.t)
    (Hs : StronglySorted Z.lt (Covset.pcs s)) (Ho : StronglySorted Z.lt (Covset.pcs o))
    (Hl : zlen (Covset.pcs s) < 2 ^ 31) :
  Covset.intersect s o = Done (common (Covset.pcs s) (Covset.pcs o)).
Proof.
  pose proof (walk_spec 1 0 _ _ Hs Ho Hl ltac:(lia)) as H.
  unfold Covset.intersect. destruct (walk _ _ _ _) as [[i n]| | |]; try done.
  simpl in *. f_equal. lia.
Qed.

Lemma novel_walk a b :
  StronglySorted Z.lt a -> StronglySorted Z.lt b -> zlen a < 2 ^ 31 ->
  ('(i, n) ← walk 0 1 a b; Done (as_i32 (n + as_i32 (zlen a - i)))) =
  Done (zlen a - common a b).
Proof.
  intros Ha Hb Hl. pose proof (walk_spec 0 1 a b Ha Hb Hl ltac:(lia)) as H.
  destruct (walk _ _ _ _) as [[i n]| | |]; try done. simpl in *.
  pose proof (common_le a b).
  rewrite (as_i32_small (zlen a - i)), as_i32_small by lia. f_equal. lia.
Qed.

Lemma intersect_counts_common_witness :
  Covset.intersect (Covset.Mk [1; 5; 9] 10) (Covset.Mk [5; 6; 9] 10) = Done (common [1; 5; 9] [5; 6; 9]).
Proof.
  apply (intersect_counts_common (Covset.Mk [1; 5; 9] 10) (Covset.Mk [5; 6; 9] 10));
    simpl; repeat constructor; lia.
Defined.

(** C32: [novel] returns the number of addresses of the first set that the
    second one lacks. *)
Theorem novel_counts_difference (s o : Covset.t)
    (Hs : StronglySorted Z.lt (Covset.pcs s)) (Ho : StronglySorted Z.lt (Covset.pcs o))
    (Hl : zlen (Covset.pcs s) < 2 ^ 31) :
  Covset.novel s o = Done (zlen (filter (fun x => x ∉ Covset.pcs o) (Covset.pcs s))).
Proof.
  unfold Covset.novel. rewrite novel_walk by done. f_equal. unfold common. clear.
  induction (Covset.pcs s) as [|x a IH]; [done|].
  rewrite !filter_cons. repeat case_decide; rewrite ?zlen_cons; naive_solver lia.
Qed.

Lemma novel_counts_difference_witness :
  Covset.novel (Covset.Mk [1; 5; 9] 10) (Covset.Mk [5; 6] 10) =
  Done (zlen (filter (fun x => x ∉ [5; 6]) [1; 5; 9])).
Proof.
  apply (novel_counts_difference (Covset.Mk [1; 5; 9] 10) (Covset.Mk [5; 6] 10));
    simpl; repeat constructor; lia.
Defined.

(** * Sorting and capacity *)

Lemma vec_sort_dedup_sorted v : StronglySorted Z.lt (vec_sort_dedup v).
Proof.
  unfold vec_sort_dedup. destruct (Z.leb_spec (zlen v) 1) as [H|H].
  - destruct v as [|x [|y v]]; [constructor|repeat constructor|].
    rewrite !zlen_cons in H. pose proof (zlen_nonneg v). lia.
  - apply dedup_sorted, sort_u64_sorted.
Qed.

Lemma elem_of_vec_sort_dedup v x : x ∈ vec_sort_dedup v <-> x ∈ v.
Proof.
  unfold vec_sort_dedup. destruct (_ <=? _); [done|].
  by rewrite elem_of_dedup, sort_u64_perm.
Qed.

(** * Logs *)

Definition write_log (pcs : list Z) : list Z := concat (fmt_pc_line <$> pcs).

Lemma lines_write_log pcs : lines (write_log pcs) = (fun pc => bs "0x" ++ fmt_hex pc) <$> pcs.
Proof.
  rewrite <- (lines_concat ((fun pc => bs "0x" ++ fmt_hex pc) <$> pcs)).
  - f_equal. unfold write_log. rewrite <- list_fmap_compose. f_equal.
  - apply Forall_fmap, Forall_true. intros pc. simpl.
    repeat (constructor; [lia|]). apply fmt_hex_alnum.
Qed.

Lemma load_line_written s pc : is_u64 pc ->
  Covset.load_line s (bs "0x" ++ fmt_hex pc) = if pc =? 0 then s else Covset.add s pc.
Proof.
  intros H. unfold Covset.load_line. rewrite trim_alnum.
  - rewrite strip_prefix_app. by rewrite from_str_radix_fmt_hex.
  - apply Forall_app. split; [|apply fmt_hex_alnum]. cbn. repeat (constructor; [lia|]). constructor.
Qed.

Lemma load_lines_written pcs s : Forall is_u64 pcs ->
  zlen (Covset.pcs s) <= Covset.cap s ->
  foldl Covset.load_line s ((fun pc => bs "0x" ++ fmt_hex pc) <$> pcs) =
  Covset.Mk (Covset.pcs s ++
             take (Z.to_nat (Covset.cap s - zlen (Covset.pcs s))) (filter (fun x => x <> 0) pcs))
            (Covset.cap s).
Proof.
  intros Hp. revert s. induction Hp as [|pc pcs Hpc _ IH]; intros s Hs.
  { simpl. destruct (Z.to_nat _); simpl; rewrite app_nil_r; by destruct s. }
  cbn [fmap list_fmap foldl]. rewrite load_line_written by done.
  destruct (Z.eqb_spec pc 0) as [->|Hn].
  { rewrite IH by done. by rewrite filter_cons_False by naive_solver. }
  rewrite filter_cons_True by done. unfold Covset.add.
  destruct (Z.ltb_spec (zlen (Covset.pcs s)) (Covset.cap s)) as [L|L].
  - rewrite IH by (simpl; rewrite zlen_app, zlen_cons; change (zlen []) with 0; lia).
    simpl. rewrite zlen_app, zlen_cons. change (zlen []) with 0. rewrite <- app_assoc.
    f_equal. f_equal.
    replace (Z.to_nat (Covset.cap s - zlen (Covset.pcs s))) with
      (S (Z.to_nat (Covset.cap s - (zlen (Covset.pcs s) + (1 + 0))))) by lia. done.
  - rewrite IH by done.
    replace (Z.to_nat (Covset.cap s - zlen (Covset.pcs s))) with O by lia. done.
Qed.

(** Loading a log written one [0x{:x}] line per address into an empty set
    yields the strictly sorted set of its first [cap] non-zero addresses. *)
Theorem load_written_log (cap : Z) (pcs : list Z)
    (Hp : Forall is_u64 pcs) (Hc : 0 <= cap) :
  let r := Covset.load_file (Covset.new cap) (Some (write_log pcs)) in
  r.1 = true /\ StronglySorted Z.lt (Covset.pcs r.2) /\
  (forall x, x ∈ Covset.pcs r.2 <-> x ∈ take (Z.to_nat cap) (filter (fun x => x <> 0) pcs)).
Proof.
  simpl. rewrite lines_write_log, load_lines_written by done. simpl.
  change (zlen []) with 0. rewrite Z.sub_0_r.
  split; [done|]. split; [apply vec_sort_dedup_sorted|]. intros. apply elem_of_vec_sort_dedup.
Qed.

Lemma load_written_log_witness :
  let r := Covset.load_file (Covset.new 2) (Some (write_log [0xffff; 0; 7; 9])) in
  r.1 = true /\ StronglySorted Z.lt (Covset.pcs r.2) /\
  (forall x, x ∈ Covset.pcs r.2 <-> x ∈ take 2 (filter (fun x => x <> 0) [0xffff; 0; 7; 9])).
Proof.
  apply (load_written_log 2 [0xffff; 0; 7; 9]); [|lia].
  repeat constructor; unfold is_u64; lia.
Defined.

(** * Packed signals *)

Lemma pack_range nr ret : is_u64 (SignalSet.pack nr ret).
Proof.
  unfold SignalSet.pack. apply lor_range; [lia|apply as_u64_range|].
  pose proof (land_range_r (as_u64 (if ret <? 0 then as_i64 (- ret) else 0)) 0xffffffff 32).
  lia.
Qed.

(** For a 16-bit call number and a kernel return value, a signal
    determines the number and the errno (0 for any success). *)
Theorem signal_pack_decodes (nr ret : Z) (Hn : is_u16 nr) (Hr : -4096 < ret < 2 ^ 63) :
  SignalSet.pack nr ret / 2 ^ 32 = nr /\
  SignalSet.pack nr ret mod 2 ^ 32 = (if ret <? 0 then - ret else 0).
Proof.
  unfold SignalSet.pack, is_u16 in *.
  change 0xffff with (Z.ones 16). change 0xffffffff with (Z.ones 32).
  rewrite !Z.land_ones by lia. rewrite (Z.mod_small nr) by lia.
  rewrite (as_u64_small nr) by (unfold is_u64; lia).
  rewrite Z.shiftl_mul_pow2 by lia.
  rewrite (as_u64_small (nr * _)) by (unfold is_u64; lia).
  set (e := as_u64 _ mod 2 ^ 32).
  assert (e = if ret <? 0 then - ret else 0) as He.
  { unfold e. destruct (Z.ltb_spec ret 0); [|done].
    unfold as_i64, as_signed, as_u64. rewrite (Z.mod_small (- ret + _)) by lia.
    rewrite (Z.mod_small _ (2 ^ 64)), Z.mod_small by lia. lia. }
  assert (0 <= e < 2 ^ 32) by (apply Z.mod_pos_bound; lia).
  rewrite Z.lor_comm, <- Z.shiftl_mul_pow2, lor_add by lia.
  rewrite Z.div_add, Z.mod_add, Z.div_small, Z.mod_small by lia. lia.
Qed.

Lemma signal_pack_decodes_witness :
  SignalSet.pack 257 (-2) / 2 ^ 32 = 257 /\ SignalSet.pack 257 (-2) mod 2 ^ 32 = - -2.
Proof. apply (signal_pack_decodes 257 (-2)); unfold is_u16; lia. Defined.

(** * Descriptors *)

Lemma track_wf s nr args ret :
  FdState.wf s -> zlen args = 6 -> ret < 2 ^ 63 ->
  wp (FdState.track s nr args ret) FdState.wf False.
Proof.
  intros [Hl Hf] Ha Hr. unfold FdState.track.
  set (s' := FdState.track_open s nr ret).
  assert (FdState.wf s') as [Hl' Hf'].
  { unfold s', FdState.track_open. destruct (_ && _) eqn:E; [|done].
    rewrite !andb_true_iff, Z.leb_le, !Z.ltb_lt in E.
    destruct E as [[[H0 H1] _] H2].
    rewrite as_u64_small in H1 by (unfold is_u64; lia). unfold FdState.MAX_FDS in *.
    split; simpl; [rewrite zlen_app, zlen_cons; change (zlen []) with 0; unfold FdState.MAX_FDS; lia|].
    apply Forall_app. split; [done|]. constructor; [|constructor].
    rewrite as_i32_small by lia. unfold FdState.MAX_FDS. lia. }
  destruct (nr =? 3); [|done].
  destruct (proj2 (get_is_Some args 0) ltac:(lia)) as [a0 ->]. cbn.
  destruct (_ && _); [|done].
  destruct (position _ _) as [idx|] eqn:E; [|done].
  apply position_Some in E as (Hi&_&_). cbn.
  assert (swap_remove (FdState.fds s') (Z.to_nat idx) ≡ₚ delete (Z.to_nat idx) (FdState.fds s')) as P
    by (apply swap_remove_perm; unfold zlen in Hi; lia).
  split; simpl.
  - unfold zlen in *. rewrite P, delete_take_drop, length_app, length_take, length_drop. lia.
  - rewrite P. rewrite delete_take_drop. apply Forall_app. split; [by apply Forall_take|by apply Forall_drop].
Qed.

(** A run of the tracker over the calls of a trace. *)
Definition track_all (s : FdState.t) (evs : list (Z * list Z * Z)) : outcome FdState.t :=
  foldl (fun (m : outcome FdState.t) '(nr, args, ret) => s ← m; FdState.track s nr args ret)
        (Done s) evs.

(** After any trace the table holds at most 256 descriptors, all in
    [0, 256), no step panics, and [get_valid] returns a tracked descriptor,
    or 3 when none is live. *)
Theorem fd_table_sound (evs : list (Z * list Z * Z)) (r : Rng.t)
    (He : Forall (fun '(_, args, ret) => zlen args = 6 /\ ret < 2 ^ 63) evs)
    (Hr : Rng.wf r) :
  wp (s ← track_all FdState.new evs; v ← FdState.get_valid s r; Done (s, v.1))
     (fun '(s, fd) => FdState.wf s /\ 0 <= fd < 256 /\
        (FdState.fds s = [] /\ fd = 3 \/ fd ∈ FdState.fds s)) False.
Proof.
  apply wp_bind. apply (wp_mono _ FdState.wf _ False); [|clear He|done].
  - unfold track_all. assert (FdState.wf FdState.new) as H0 by (by split; [|constructor]).
    revert H0. generalize FdState.new. induction He as [|[[nr args] ret] evs [Ha Hret] _ IH];
      intros s Hs; [done|].
    cbn [foldl]. pose proof (track_wf s nr args ret Hs Ha Hret) as Hw.
    cbn [mbind outcome_bind].
    destruct (FdState.track s nr args ret) as [s'| | |]; try done. by apply IH.
  - intros s [Hl Hf]. unfold FdState.get_valid.
    destruct (FdState.fds s) as [|f l] eqn:E.
    { cbn. split; [|split; [lia|by left]]. split; rewrite E; [done|constructor]. }
    rewrite <- E in *.
    assert (0 < zlen (FdState.fds s)) as Hpos by (rewrite E, zlen_cons; pose proof (zlen_nonneg l); lia).
    pose proof (rng_below_range r _ Hr Hpos) as Hb.
    destruct (Rng.below _ _) as [i r']. simpl in Hb.
    destruct (proj2 (get_is_Some (FdState.fds s) i) Hb) as [fd Hfd].
    rewrite Hfd. cbn. apply get_Some in Hfd as [_ Hfd].
    split; [done|]. split; [by apply (Forall_lookup_1 _ _ _ _ Hf Hfd)|].
    right. by eapply list_elem_of_lookup_2.
Qed.

Lemma fd_table_sound_witness :
  wp (s ← track_all FdState.new [(2, [0;0;0;0;0;0], 5); (3, [5;0;0;0;0;0], 0); (41, [2;1;0;0;0;0], 7)];
      v ← FdState.get_valid s (Rng.new 1); Done (s, v.1))
     (fun '(s, fd) => FdState.wf s /\ 0 <= fd < 256 /\
        (FdState.fds s = [] /\ fd = 3 \/ fd ∈ FdState.fds s)) False.
Proof.
  apply fd_table_sound.
  - repeat constructor; lia.
  - apply rng_new_wf. unfold is_u64. lia.
Defined.
