(* ===== verification/FuzzSignal.v ===== *)
(** Edge signal and corpus minimisation (fuzz/signal_edge.rs).

    [EdgeSignal.map] and the reference counts are vectors of 65536 cells;
    [SignalCorpus] operations are the source's loops over them.  Shown: the
    edges of a program are the sorted set of its hashed transitions; under any
    sequence of [add] and [minimize] the map marks exactly the edges covered
    by the corpus and [total_edges] counts them; [minimize] keeps the covered
    set and leaves every program with an edge no other program has. *)
From S2P Require Import Prelude.

Definition SIGNAL_MAP_BITS : Z := 16.
Definition SIGNAL_MAP_SIZE : Z := 65536.

(** [EdgeSignal] *)
Record EdgeSignal : Type := MkEdgeSignal { map : list Z; total_edges : Z }.

Definition EdgeSignal_new : EdgeSignal :=
  MkEdgeSignal (replicate (Z.to_nat SIGNAL_MAP_SIZE) 0) 0.

Definition edge_hash (pc prev_pc : Z) : Z :=
  let h := Z.lxor pc prev_pc in
  let h := Z.lxor h (h >>₆₄ 33) in
  let h := h *₆₄ 0xff51afd7ed558ccd in
  let h := Z.lxor h (h >>₆₄ 33) in
  let h := h *₆₄ 0xc4ceb9fe1a85ec53 in
  let h := Z.lxor h (h >>₆₄ 33) in
  Z.land h (SIGNAL_MAP_SIZE - 1).

(** One PC of the trace: state is (seen bitmap, edges, previous PC). *)
Definition edge_step (s : list Z * list Z * Z) (pc : Z) : outcome (list Z * list Z * Z) :=
  let '(seen, edges, prev) := s in
  let edge := edge_hash pc prev in
  let byte := edge / 8 in
  let bit := edge mod 8 in
  b ← or_panic (get seen byte);
  if Z.land b (Z.shiftl 1 bit) =? 0 then
    seen' ← upd seen byte (Z.lor b (Z.shiftl 1 bit));
    Done (seen', edges ++ [edge], pc)
  else Done (seen, edges, pc).

Definition edge_signal_from_pcs (pcs : list Z) : outcome (list Z) :=
  '(_, edges, _) ← fold_m edge_step pcs
     (replicate (Z.to_nat (SIGNAL_MAP_SIZE / 8 + 1)) 0, [], 0);
  Done (sort_u64 edges).

(** [SignalCorpusEntry]; [sig.edges] is inlined as [edges]. *)
Record Entry : Type := MkEntry { prog_id : Z; edges : list Z; unique_edges : Z }.

Record Corpus : Type := MkCorpus { entries : list Entry; max_signal : EdgeSignal }.

Definition Corpus_new : Corpus := MkCorpus [] EdgeSignal_new.

Definition cell_is (v : Z) (m : list Z) (e : Z) : outcome bool :=
  c ← or_panic (get m e); Done (c =? v).

Definition new_count (c : Corpus) (sig : list Z) : outcome Z :=
  count_m (cell_is 0 (map (max_signal c))) sig.

(** Body of the loop of [add]. *)
Definition mark_edge (es : EdgeSignal) (e : Z) : outcome EdgeSignal :=
  v ← or_panic (get (map es) e);
  m ← (if v <? 255 then upd (map es) e (v + 1) else Done (map es));
  v' ← or_panic (get m e);
  Done (MkEdgeSignal m (if v' =? 1 then as_u32 (total_edges es + 1) else total_edges es)).

Definition add (c : Corpus) (id : Z) (sig : list Z) : outcome (bool * Corpus) :=
  new_edges ← new_count c sig;
  if new_edges =? 0 then Done (false, c)
  else
    ms ← fold_m mark_edge sig (max_signal c);
    Done (true, MkCorpus (entries c ++ [MkEntry id sig new_edges]) ms).

(** Body of the reference-counting loop, saturating at [u16::MAX]. *)
Definition bump (rc : list Z) (edge : Z) : outcome (list Z) :=
  v ← or_panic (get rc edge);
  if v <? 65535 then upd rc edge (v + 1) else Done rc.

Definition unbump (rc : list Z) (edge : Z) : outcome (list Z) :=
  v ← or_panic (get rc edge);
  upd rc edge (as_u16 (v - 1)).

(** The sweep: state is (entries, refcounts, i, removed). *)
Definition sweep_step (s : list Entry * list Z * Z * Z)
  : outcome (ctl (list Entry * list Z * Z * Z) (list Entry * list Z * Z)) :=
  let '(es, rc, i, removed) := s in
  if i <? zlen es then
    e ← or_panic (get es i);
    has_unique ← any_m (cell_is 1 rc) (edges e);
    if has_unique : bool then Done (Next (es, rc, i + 1, removed))
    else
      rc' ← fold_m unbump (edges e) rc;
      Done (Next (swap_remove es (Z.to_nat i), rc', i, as_i32 (removed + 1)))
  else Done (Stop (es, rc, removed)).

Definition recount (rc : list Z) (e : Entry) : outcome Entry :=
  n ← count_m (cell_is 1 rc) (edges e);
  Done (MkEntry (prog_id e) (edges e) (as_i32 n)).

Definition minimize (c : Corpus) : outcome (Z * Corpus) :=
  if zlen (entries c) <=? 1 then Done (0, c)
  else
    rc ← fold_m (fun rc e => fold_m bump (edges e) rc) (entries c)
           (replicate (Z.to_nat SIGNAL_MAP_SIZE) 0);
    '(es, rc, removed) ← loop (S (length (entries c))) sweep_step (entries c, rc, 0, 0);
    es' ← fold_m (fun acc e => e' ← recount rc e; Done (acc ++ [e'])) es [];
    Done (removed, MkCorpus es' (max_signal c)).

(** * Specification vocabulary *)

Definition edges_ok (es : list Z) : Prop :=
  Forall (fun e => 0 <= e < SIGNAL_MAP_SIZE) es /\ NoDup es.

Definition covers (es : list Entry) (e : Z) : Prop := exists en, en ∈ es /\ e ∈ edges en.

(** Number of programs of the corpus that hit edge [e]. *)
Definition refs (es : list Entry) (e : Z) : Z := zlen (filter (fun en => e ∈ edges en) es).

(** [tab rc f]: the 65536-cell vector [rc] holds [f e] at every edge [e]. *)
Definition tab (rc : list Z) (f : Z -> Z) : Prop :=
  zlen rc = SIGNAL_MAP_SIZE /\ forall e, 0 <= e < SIGNAL_MAP_SIZE -> get rc e = Some (f e).

Lemma tab_ext rc f g :
  (forall e, 0 <= e < SIGNAL_MAP_SIZE -> f e = g e) -> tab rc f -> tab rc g.
Proof. intros H [Hl Hg]. split; [done|]. intros e He. by rewrite Hg, H. Qed.

Lemma tab_upd rc f e v : tab rc f -> 0 <= e < SIGNAL_MAP_SIZE ->
  tab (<[Z.to_nat e := v]> rc) (fun x => if decide (x = e) then v else f x).
Proof.
  intros [Hl Hg] He. split; [by rewrite zlen_insert|].
  intros x Hx. rewrite get_insert by lia. repeat case_decide; try lia; auto.
Qed.

Lemma tab_zero : tab (replicate (Z.to_nat SIGNAL_MAP_SIZE) 0) (fun _ => 0).
Proof.
  split.
  - unfold zlen. rewrite length_replicate. done.
  - intros e He. apply get_replicate. unfold SIGNAL_MAP_SIZE in *. lia.
Qed.

(** A loop that rewrites each listed cell once by [h]. *)
Lemma wp_fold_tab (step : list Z -> Z -> outcome (list Z)) (h : Z -> Z) rc f es :
  (forall rc f e, tab rc f -> 0 <= e < SIGNAL_MAP_SIZE ->
     wp (step rc e) (fun rc' => tab rc' (fun x => if decide (x = e) then h (f e) else f x)) False) ->
  tab rc f -> edges_ok es ->
  wp (fold_m step es rc) (fun rc' => tab rc' (fun e => if decide (e ∈ es) then h (f e) else f e)) False.
Proof.
  intros Hstep Htab [Hr Hnd].
  pose (I := fun (d rc : list Z) => tab rc (fun e => if decide (e ∈ d) then h (f e) else f e)).
  change (wp (fold_m step es rc) (I es) False). apply wp_fold_m; cycle 1.
  { eapply tab_ext; [|done]. intros e _. simpl. by destruct (decide (e ∈ [])); [set_solver|]. }
  intros d x rest rc' -> Hd.
  rewrite Forall_app, Forall_cons in Hr. destruct Hr as (_ & Hx & _).
  apply NoDup_app in Hnd as (_ & Hnd & _). 
  eapply wp_mono; [by apply Hstep| |done]. intros rc'' H''. eapply tab_ext; [|exact H''].
  intros e He. simpl. assert (x ∉ d) by (intros ?; eapply (Hnd x); [done|left]).
  repeat case_decide; set_solver.
Qed.

Lemma wp_bump rc f e : tab rc f -> 0 <= e < SIGNAL_MAP_SIZE ->
  wp (bump rc e) (fun rc' => tab rc' (fun x =>
    if decide (x = e) then (if f e <? 65535 then f e + 1 else f e) else f x)) False.
Proof.
  intros Ht He. pose proof Ht as [Hl Hg]. unfold bump. rewrite Hg by done. cbn.
  destruct (f e <? 65535).
  - apply wp_upd; [lia|]. by apply tab_upd.
  - eapply tab_ext; [|done]. intros x _. simpl. case_decide; congruence.
Qed.

Lemma wp_unbump rc f e : tab rc f -> 0 <= e < SIGNAL_MAP_SIZE ->
  wp (unbump rc e) (fun rc' => tab rc' (fun x =>
    if decide (x = e) then as_u16 (f e - 1) else f x)) False.
Proof.
  intros Ht He. pose proof Ht as [Hl Hg]. unfold unbump. rewrite Hg by done. cbn.
  apply wp_upd; [lia|]. by apply tab_upd.
Qed.

Lemma cell_is_tab v rc f e : tab rc f -> 0 <= e < SIGNAL_MAP_SIZE ->
  cell_is v rc e = Done (f e =? v).
Proof. intros [Hl Hg] He. unfold cell_is. by rewrite Hg. Qed.

(** * Reference counts *)

Lemma refs_cons en es e : refs (en :: es) e = (if decide (e ∈ edges en) then 1 else 0) + refs es e.
Proof. unfold refs. rewrite filter_cons. case_decide; rewrite ?zlen_cons; lia. Qed.

Lemma refs_perm es es' e : es ≡ₚ es' -> refs es e = refs es' e.
Proof. intros H. unfold refs, zlen. by rewrite H. Qed.

Lemma refs_app es en e : refs (es ++ [en]) e = refs es e + (if decide (e ∈ edges en) then 1 else 0).
Proof.
  rewrite (refs_perm _ (en :: es)) by (symmetry; apply Permutation_cons_append).
  rewrite refs_cons. lia.
Qed.

Lemma refs_bound es e : 0 <= refs es e <= zlen es.
Proof. unfold refs, zlen. pose proof (length_filter (fun en => e ∈ edges en) es). lia. Qed.

Lemma refs_covers es e : covers es e <-> 0 < refs es e.
Proof.
  unfold covers. induction es as [|en es IH].
  { split; [intros (?&H&_); by apply elem_of_nil in H|done]. }
  rewrite refs_cons. pose proof (refs_bound es e). setoid_rewrite elem_of_cons.
  case_decide as D; split.
  - lia.
  - intros _. exists en. auto.
  - intros (en'&[->|Hin]&He); [done|]. enough (0 < refs es e) by lia. apply IH. eauto.
  - intros Hp. destruct (proj2 IH ltac:(lia)) as (en'&?&?). eauto.
Qed.

#[global] Instance covers_dec es e : Decision (covers es e).
Proof. refine (cast_if (decide (0 < refs es e))); by rewrite refs_covers. Defined.

Definition entry_ok (en : Entry) : Prop := edges_ok (edges en).

Lemma wp_count_refs es :
  Forall entry_ok es -> zlen es <= 65535 ->
  wp (fold_m (fun rc e => fold_m bump (edges e) rc) es (replicate (Z.to_nat SIGNAL_MAP_SIZE) 0))
     (fun rc => tab rc (refs es)) False.
Proof.
  intros Hok Hlen. apply (wp_fold_m (fun d rc => tab rc (refs d))); [|apply tab_zero].
  intros d en rest rc -> Hd. rewrite Forall_app, Forall_cons in Hok. destruct Hok as (_&Hen&_).
  eapply wp_mono; [apply (wp_fold_tab _ (fun v => if v <? 65535 then v + 1 else v));
    [apply wp_bump|done|done]| |done].
  intros rc' H'. eapply tab_ext; [|exact H']. intros e He. simpl. rewrite refs_app.
  pose proof (refs_bound d e). rewrite zlen_app, zlen_cons in Hlen. pose proof (zlen_nonneg rest).
  case_decide; [|lia]. destruct (Z.ltb_spec (refs d e) 65535); lia.
Qed.

(** * The sweep *)

Definition sweep_inv (es0 : list Entry) (s : list Entry * list Z * Z * Z) : Prop :=
  let '(es, rc, i, removed) := s in
  0 <= i <= zlen es /\ tab rc (refs es) /\ Forall entry_ok es /\
  (forall e, covers es e <-> covers es0 e) /\
  (forall k en, (k < Z.to_nat i)%nat -> es !! k = Some en -> exists e, e ∈ edges en /\ refs es e = 1) /\
  0 <= removed /\ zlen es + removed = zlen es0.

(** Dropping a program all of whose edges are hit elsewhere keeps the
    invariant: the counts of the survivors are again exact. *)
Lemma sweep_remove es0 es rc i removed en rc' :
  zlen es0 <= 65535 ->
  sweep_inv es0 (es, rc, i, removed) -> get es i = Some en ->
  (forall e, e ∈ edges en -> refs es e <> 1) ->
  tab rc' (fun e => if decide (e ∈ edges en) then as_u16 (refs es e - 1) else refs es e) ->
  sweep_inv es0 (swap_remove es (Z.to_nat i), rc', i, as_i32 (removed + 1)).
Proof.
  intros H0 (Hi & Htab & Hok & Hcov & Huniq & Hrem & Hlen) [Hir Hget]%get_Some Hnot Htab'.
  pose proof (swap_remove_cons _ _ _ Hget) as P.
  set (es' := swap_remove es (Z.to_nat i)) in *.
  assert (forall e, refs es e = (if decide (e ∈ edges en) then 1 else 0) + refs es' e) as Hr.
  { intros e. by rewrite (refs_perm _ _ e P), refs_cons. }
  assert (zlen es = 1 + zlen es') as Hz by (unfold zlen; rewrite P; simpl; lia).
  rewrite P in Hok. inversion Hok as [|? ? _ Hok']; subst.
  assert (as_i32 (removed + 1) = removed + 1) as ->.
  { unfold as_i32, as_signed. pose proof (zlen_nonneg es'). rewrite Z.mod_small; lia. }
  split_and!; try lia; try done.
  - eapply tab_ext; [|exact Htab']. intros e _. simpl. rewrite Hr.
    pose proof (refs_bound es' e). case_decide; [|lia].
    unfold as_u16. rewrite Z.mod_small; lia.
  - intros e. rewrite <- Hcov, !refs_covers. specialize (Hnot e). rewrite Hr in *.
    pose proof (refs_bound es' e). case_decide as D; [specialize (Hnot D)|]; lia.
  - intros k en' Hk Hlk. pose proof Hlk as Hlk'. unfold es' in Hlk.
    rewrite swap_remove_lookup in Hlk by (unfold zlen in *; lia).
    destruct (Huniq k en' Hk Hlk) as (e&He&H1). exists e. split; [done|].
    assert (0 < refs es' e).
    { apply refs_covers. exists en'. split; [by eapply list_elem_of_lookup_2|done]. }
    rewrite Hr in H1. case_decide; lia.
Qed.

Lemma has_unique_spec rc es en :
  tab rc (refs es) -> entry_ok en ->
  any_m (cell_is 1 rc) (edges en) = Done (existsb (fun e => refs es e =? 1) (edges en)).
Proof.
  intros Ht [Hr _]. apply any_m_existsb. intros e He. rewrite Forall_forall in Hr.
  by apply cell_is_tab; [|apply Hr].
Qed.

Lemma sweep_spec es0 rc :
  zlen es0 <= 65535 -> Forall entry_ok es0 -> tab rc (refs es0) ->
  wp (loop (S (length es0)) sweep_step (es0, rc, 0, 0))
     (fun '(es, rc, removed) => sweep_inv es0 (es, rc, zlen es, removed)) False.
Proof.
  intros Hlen Hok Htab.
  apply (wp_loop (sweep_inv es0) (fun '(es, _, i, _) => zlen es - i)).
  - intros [[[es rc'] i] removed] HI. unfold sweep_step.
    pose proof HI as (Hi & Ht & Hok' & Hcov & Huniq & Hrem & Hz).
    destruct (Z.ltb_spec i (zlen es)) as [Hlt|Hge]; cycle 1.
    { cbn. assert (i = zlen es) as -> by lia. done. }
    destruct (proj2 (get_is_Some es i) ltac:(lia)) as [en Hen]. rewrite Hen. cbn.
    assert (entry_ok en) as Heok.
    { rewrite Forall_forall in Hok'. by apply Hok', (get_elem_of _ i). }
    rewrite (has_unique_spec _ _ _ Ht Heok). cbn.
    destruct (existsb _ _) eqn:E.
    + cbn. split; [|lia]. split_and!; try done; try lia.
      intros k en' Hk Hlk. destruct (decide (k < Z.to_nat i)%nat) as [|Hne]; [by eauto|].
      assert (k = Z.to_nat i) as -> by lia. apply get_Some in Hen as [_ Hen].
      assert (en' = en) as -> by congruence.
      apply existsb_exists in E as (e&Hin&He). exists e.
      split; [by apply list_elem_of_In|]. by apply Z.eqb_eq.
    + apply wp_bind. eapply wp_mono; [apply (wp_fold_tab _ (fun v => as_u16 (v - 1)));
        [apply wp_unbump|exact Ht|exact Heok]| |done].
      intros rc'' Ht''. cbn [wp].
      assert (sweep_inv es0 (swap_remove es (Z.to_nat i), rc'', i, as_i32 (removed + 1))) as HI'.
      { eapply sweep_remove; try done. intros e He H1.
        apply not_true_iff_false in E. apply E, existsb_exists. exists e.
        split; [by apply list_elem_of_In|]. by apply Z.eqb_eq. }
      split; [done|]. destruct HI' as (? & _). apply get_Some in Hen as [_ Hen].
      assert (zlen es = 1 + zlen (swap_remove es (Z.to_nat i))); [|lia].
      unfold zlen. rewrite (swap_remove_cons _ _ _ Hen) at 1. simpl. lia.
  - pose proof (zlen_nonneg es0). unfold sweep_inv. split_and!; try done; try lia.
  - unfold zlen. lia.
Qed.

(** * Minimisation *)

Lemma edges_ok_length es : edges_ok es -> zlen es <= SIGNAL_MAP_SIZE.
Proof.
  intros [Hr Hnd]. unfold zlen.
  assert (es ⊆+ seqZ 0 SIGNAL_MAP_SIZE) as Hs.
  { apply NoDup_submseteq; [done|]. intros e He. rewrite Forall_forall in Hr.
    apply elem_of_seqZ. specialize (Hr e He). lia. }
  apply submseteq_length in Hs. rewrite length_seqZ in Hs. unfold SIGNAL_MAP_SIZE in *. lia.
Qed.

Definition recounted (es : list Entry) (en : Entry) : Entry :=
  MkEntry (prog_id en) (edges en) (zlen (filter (fun e => refs es e = 1) (edges en))).

Lemma recount_spec rc es en :
  tab rc (refs es) -> entry_ok en -> recount rc en = Done (recounted es en).
Proof.
  intros Ht Hok. unfold recount.
  rewrite (count_m_filter _ (fun e => refs es e = 1)).
  - cbn. unfold recounted, zlen. do 2 f_equal. unfold as_i32, as_signed.
    pose proof (edges_ok_length _ Hok) as Hl. unfold zlen, SIGNAL_MAP_SIZE in Hl.
    pose proof (length_filter (fun e => refs es e = 1) (edges en)). rewrite Z.mod_small; lia.
  - intros e He. destruct Hok as [Hr _]. rewrite Forall_forall in Hr.
    rewrite (cell_is_tab _ _ _ _ Ht) by (by apply Hr). f_equal.
    by case_bool_decide; destruct (Z.eqb_spec (refs es e) 1).
Qed.

Lemma recount_all rc es l acc :
  tab rc (refs es) -> Forall entry_ok l ->
  fold_m (fun acc e => e' ← recount rc e; Done (acc ++ [e'])) l acc =
  Done (acc ++ (recounted es <$> l)).
Proof.
  intros Ht Hok. revert acc. induction Hok as [|en l Hen _ IH]; intros acc.
  { simpl. by rewrite app_nil_r. }
  cbn [fold_m]. rewrite (recount_spec _ _ _ Ht Hen). cbn [mbind outcome_bind].
  rewrite IH. by rewrite <- app_assoc.
Qed.

Lemma covers_recounted es l e : covers (recounted es <$> l) e <-> covers l e.
Proof.
  unfold covers. setoid_rewrite list_elem_of_fmap. split.
  - intros (?&(en&->&?)&?). eauto.
  - intros (en&?&?). exists (recounted es en). eauto.
Qed.

Lemma refs_recounted es l e : refs (recounted es <$> l) e = refs l e.
Proof.
  induction l as [|en l IH]; [done|]. cbn [fmap list_fmap]. rewrite !refs_cons.
  by f_equal.
Qed.

Lemma minimize_spec c :
  Forall entry_ok (entries c) -> zlen (entries c) <= 65535 ->
  wp (minimize c) (fun '(removed, c') =>
    (forall e, covers (entries c') e <-> covers (entries c) e) /\
    removed = zlen (entries c) - zlen (entries c') /\ 0 <= removed /\
    max_signal c' = max_signal c /\ Forall entry_ok (entries c') /\
    (1 < zlen (entries c) -> forall en, en ∈ entries c' ->
       1 <= unique_edges en /\
       unique_edges en = zlen (filter (fun e => refs (entries c') e = 1) (edges en)))) False.
Proof.
  intros Hok Hlen. unfold minimize.
  destruct (Z.leb_spec (zlen (entries c)) 1) as [Hle|Hgt]; [cbn; split_and!; try done; lia|].
  apply wp_bind. eapply wp_mono; [by apply wp_count_refs| |done]. intros rc Ht.
  apply wp_bind. eapply wp_mono; [by apply sweep_spec| |done].
  intros [[es rc'] removed] (_ & Ht' & Hok' & Hcov & Huniq & Hrem & Hz).
  rewrite (recount_all rc' es) by done. cbn.
  split_and!; [..|intros _ en' Hin].
  - intros e. by rewrite covers_recounted, Hcov.
  - unfold zlen. rewrite length_fmap. unfold zlen in Hz. lia.
  - done.
  - done.
  - apply Forall_fmap. done.
  - apply list_elem_of_fmap in Hin as (en & -> & Hin). cbn [unique_edges recounted edges].
    assert (filter (fun e => refs (recounted es <$> es) e = 1) (edges en) =
            filter (fun e => refs es e = 1) (edges en)) as ->.
    { apply list_filter_iff. intros e. by rewrite refs_recounted. }
    split; [|done]. apply list_elem_of_lookup in Hin as [k Hk].
    destruct (Huniq k en) as (e & He & H1); [|done|].
    { apply lookup_lt_Some in Hk. unfold zlen. lia. }
    assert (e ∈ filter (fun e => refs es e = 1) (edges en)) as Hf.
    { by apply list_elem_of_filter. }
    destruct (filter _ _) as [|? l]; [by apply elem_of_nil in Hf|].
    rewrite zlen_cons. pose proof (zlen_nonneg l). lia.
Qed.

(** Minimising a corpus of at most 65535 programs never changes the set
    of covered edges, and every program that stays hits, after the sweep, at
    least one edge that no other program hits; [unique_edges] is recomputed
    as the number of such edges, and the result counts the removals. *)
Theorem minimize_keeps_coverage (c : Corpus)
    (Hok : Forall entry_ok (entries c)) (Hlen : 1 < zlen (entries c) <= 65535) :
  wp (minimize c) (fun '(removed, c') =>
    (forall e, covers (entries c') e <-> covers (entries c) e) /\
    removed = zlen (entries c) - zlen (entries c') /\
    (forall en, en ∈ entries c' -> 1 <= unique_edges en /\
       unique_edges en = zlen (filter (fun e => refs (entries c') e = 1) (edges en)))) False.
Proof.
  eapply wp_mono; [apply minimize_spec; [done|lia]| |done].
  intros [removed c'] (?&?&_&_&_&H). split_and!; try done. apply H. lia.
Qed.

Lemma minimize_keeps_coverage_witness :
  let c := MkCorpus [MkEntry 1 [3; 7] 2; MkEntry 2 [7] 0; MkEntry 3 [7; 9] 1] EdgeSignal_new in
  wp (minimize c) (fun '(removed, c') =>
    (forall e, covers (entries c') e <-> covers (entries c) e) /\
    removed = zlen (entries c) - zlen (entries c') /\
    (forall en, en ∈ entries c' -> 1 <= unique_edges en /\
       unique_edges en = zlen (filter (fun e => refs (entries c') e = 1) (edges en)))) False.
Proof.
  intros c. apply (minimize_keeps_coverage c).
  - repeat constructor; unfold SIGNAL_MAP_SIZE; simpl; try lia; set_solver by lia.
  - done.
Defined.

(** * The corpus invariant *)

Definition nonzero (m : list Z) : Z := zlen (filter (fun v => v <> 0) m).

(** The map marks the covered edges with a saturating count, and
    [total_edges] is the number of marked cells. *)
Definition corpus_wf (c : Corpus) : Prop :=
  Forall entry_ok (entries c) /\
  (exists f, tab (map (max_signal c)) f /\
     forall e, 0 <= e < SIGNAL_MAP_SIZE -> 0 <= f e <= 255 /\ (f e <> 0 <-> covers (entries c) e)) /\
  total_edges (max_signal c) = nonzero (map (max_signal c)).

Lemma nonzero_insert m e v w : get m e = Some v ->
  nonzero (<[Z.to_nat e := w]> m) + (if decide (v <> 0) then 1 else 0) =
  nonzero m + (if decide (w <> 0) then 1 else 0).
Proof.
  intros [Hr Hl]%get_Some. unfold nonzero.
  rewrite insert_take_drop by (unfold zlen in Hr; lia).
  rewrite <- (take_drop_middle m _ _ Hl) at 3.
  rewrite !filter_app, !zlen_app, !filter_cons.
  repeat case_decide; rewrite ?zlen_cons; lia.
Qed.

Lemma nonzero_bound m : 0 <= nonzero m <= zlen m.
Proof. unfold nonzero, zlen. pose proof (length_filter (fun v => v <> 0) m). lia. Qed.

Definition mark (v : Z) : Z := if v <? 255 then v + 1 else v.

Definition marked (f : Z -> Z) (d : list Z) (es : EdgeSignal) : Prop :=
  tab (map es) (fun e => if decide (e ∈ d) then mark (f e) else f e) /\
  total_edges es = nonzero (map es).

Lemma wp_mark_edge f d es x :
  marked f d es -> x ∉ d -> 0 <= x < SIGNAL_MAP_SIZE -> 0 <= f x <= 255 ->
  wp (mark_edge es x) (marked f (d ++ [x])) False.
Proof.
  intros [Ht Hn] Hd Hx Hf. pose proof Ht as [Hl Hg]. unfold mark_edge.
  rewrite Hg by done. cbn [or_panic mbind outcome_bind].
  rewrite decide_False by done.
  set (m := if f x <? 255 then _ else _).
  assert (m = Done (<[Z.to_nat x := mark (f x)]> (map es))) as ->.
  { unfold m, mark. destruct (f x <? 255).
    - apply upd_Done. split; [lia|done].
    - f_equal. symmetry. apply list_insert_id.
      specialize (Hg x Hx). apply get_Some in Hg as [_ ->]. by rewrite decide_False. }
  cbn [mbind outcome_bind]. rewrite get_insert by lia. rewrite decide_True by done.
  cbn [or_panic mbind outcome_bind wp]. split; simpl.
  - eapply tab_ext; [|apply tab_upd; [exact Ht|done]]. intros e He. simpl.
    repeat case_decide; set_solver.
  - pose proof (Hg x Hx) as Hgx. rewrite decide_False in Hgx by done.
    pose proof (nonzero_insert _ _ _ (mark (f x)) Hgx) as Hni.
    pose proof (nonzero_bound (map es)). unfold SIGNAL_MAP_SIZE in *.
    assert (0 < mark (f x)) by (unfold mark; destruct (Z.ltb_spec (f x) 255); lia).
    destruct (Z.eqb_spec (mark (f x)) 1) as [E|E]; repeat case_decide; unfold mark in *;
      destruct (Z.ltb_spec (f x) 255); rewrite ?as_u32_small by (unfold is_u32; lia); lia.
Qed.

Lemma wp_mark_all f es sig :
  marked f [] es -> edges_ok sig -> (forall e, 0 <= e < SIGNAL_MAP_SIZE -> 0 <= f e <= 255) ->
  wp (fold_m mark_edge sig es) (marked f sig) False.
Proof.
  intros Hm [Hr Hnd] Hf. apply wp_fold_m; [|done].
  intros d x rest s -> Hd. rewrite Forall_app, Forall_cons in Hr. destruct Hr as (_&Hx&_).
  apply NoDup_app in Hnd as (_&Hnd&_). apply wp_mark_edge; auto.
  intros ?. eapply (Hnd x); [done|left].
Qed.

Lemma new_count_spec c sig : corpus_wf c -> edges_ok sig ->
  exists n, new_count c sig = Done n /\ (n = 0 <-> forall e, e ∈ sig -> covers (entries c) e).
Proof.
  intros (_ & (f & Ht & Hf) & _) [Hr _]. unfold new_count.
  rewrite (count_m_filter _ (fun e => f e = 0)); cycle 1.
  { intros e He. rewrite Forall_forall in Hr. rewrite (cell_is_tab _ _ _ _ Ht) by (by apply Hr).
    f_equal. by case_bool_decide; destruct (Z.eqb_spec (f e) 0). }
  eexists. split; [done|]. rewrite Forall_forall in Hr. split.
  - intros Hz e He. apply Hf; [by apply Hr|]. intros Hfe.
    assert (e ∈ filter (fun e => f e = 0) sig) as Hin by (by apply list_elem_of_filter).
    destruct (filter _ sig); [by apply elem_of_nil in Hin|]. simpl in Hz. lia.
  - intros Hall. destruct (filter _ sig) as [|e l] eqn:E; [done|].
    assert (e ∈ filter (fun e => f e = 0) sig) as Hin by (rewrite E; left).
    apply list_elem_of_filter in Hin as [Hz Hin].
    apply (Hf e (Hr e Hin)) in Hz; [done|]. by apply Hall.
Qed.

Lemma covers_snoc es en e : covers (es ++ [en]) e <-> covers es e \/ e ∈ edges en.
Proof. unfold covers. setoid_rewrite elem_of_app. setoid_rewrite list_elem_of_singleton. naive_solver. Qed.

(** [add] keeps the invariant, and accepts exactly the programs that hit an
    edge the corpus did not cover. *)
Lemma add_spec c id sig : corpus_wf c -> edges_ok sig ->
  wp (add c id sig) (fun '(ok, c') =>
    corpus_wf c' /\ zlen (entries c') <= 1 + zlen (entries c) /\
    (ok = true <-> exists e, e ∈ sig /\ ~ covers (entries c) e)) False.
Proof.
  intros Hwf Hsig. unfold add. destruct (new_count_spec c sig Hwf Hsig) as (n & -> & Hn). cbn.
  destruct (Z.eqb_spec n 0) as [E|E].
  - cbn. split_and!; [done|lia|]. split; [done|]. intros (e&He&Hc). by destruct Hc; apply Hn.
  - destruct Hwf as (Hok & (f & Ht & Hf) & Htot).
    apply wp_bind. eapply wp_mono; [apply (wp_mark_all f); [|done|naive_solver]| |done].
    { split; [|done]. eapply tab_ext; [|exact Ht]. intros e _. simpl.
      by destruct (decide (e ∈ [])); [set_solver|]. }
    intros ms [Hms Hmt]. cbn. split_and!.
    + split_and!; simpl; [apply Forall_app; split; [done|by constructor]| |done].
      eexists. split; [exact Hms|]. intros e He. simpl. rewrite covers_snoc. simpl.
      destruct (Hf e He) as [Hb Hc]. case_decide as D.
      * unfold mark. destruct (Z.ltb_spec (f e) 255); split; try lia; naive_solver lia.
      * naive_solver.
    + rewrite zlen_app, zlen_cons. change (zlen []) with 0. lia.
    + split; [intros _|done].
      destruct (decide (Exists (fun e => ~ covers (entries c) e) sig)) as [Hex|Hex].
      * by apply Exists_exists in Hex.
      * exfalso. apply E, Hn. intros e He.
        destruct (decide (covers (entries c) e)); [done|]. destruct Hex.
        apply Exists_exists. eauto.
Qed.

(** * Sequences of corpus operations *)

Inductive op : Type :=
  | OpAdd (id : Z) (sig : list Z)
  | OpMinimize.

Definition run_op (c : Corpus) (o : op) : outcome Corpus :=
  match o with
  | OpAdd id sig => '(_, c') ← add c id sig; Done c'
  | OpMinimize => '(_, c') ← minimize c; Done c'
  end.

Definition op_ok (o : op) : Prop :=
  match o with OpAdd _ sig => edges_ok sig | OpMinimize => True end.

Lemma corpus_new_wf : corpus_wf Corpus_new.
Proof.
  split_and!; [constructor| |].
  - exists (fun _ => 0). split; [apply tab_zero|]. intros e He. split; [lia|].
    split; [done|]. intros (en&Hin&_). by apply elem_of_nil in Hin.
  - cbn [max_signal Corpus_new EdgeSignal_new total_edges map]. unfold nonzero.
    generalize (Z.to_nat SIGNAL_MAP_SIZE). induction n as [|n IH]; [done|].
    cbn [replicate]. by rewrite filter_cons_False by naive_solver.
Qed.

(** Whatever sequence of up to 65535 [add]s and [minimize]s runs, no
    step panics, the max-signal map marks exactly the edges the corpus
    covers, and [total_edges] is their number. *)
Theorem corpus_invariant (ops : list op)
    (Hops : Forall op_ok ops) (Hlen : zlen ops <= 65535) :
  wp (fold_m run_op ops Corpus_new) corpus_wf False.
Proof.
  eapply (wp_mono _ (fun c => corpus_wf c /\ zlen (entries c) <= zlen ops)); [|naive_solver|done].
  apply (wp_fold_m (fun d c => corpus_wf c /\ zlen (entries c) <= zlen d));
    [|split; [apply corpus_new_wf|done]].
  intros d o rest c -> [Hwf Hz]. rewrite zlen_app, zlen_cons in *. change (zlen []) with 0.
  pose proof (zlen_nonneg rest). rewrite Forall_app, Forall_cons in Hops.
  destruct Hops as (_ & Ho & _). destruct o as [id sig|]; cbn [run_op].
  - apply wp_bind. eapply wp_mono; [by apply add_spec| |done].
    intros [ok c'] (?&?&_). cbn. split; [done|lia].
  - pose proof Hwf as (Hok & (f & Ht & Hf) & Htot).
    apply wp_bind. eapply wp_mono; [apply minimize_spec; [done|lia]| |done].
    intros [removed c'] (Hcov & Hr & Hnn & Hms & Hok' & _). cbn [mbind outcome_bind wp].
    split; [|lia]. split; [done|]. rewrite Hms. split; [|done].
    exists f. split; [done|]. intros e He. rewrite Hcov. by apply Hf.
Qed.

Lemma corpus_invariant_witness :
  wp (fold_m run_op [OpAdd 1 [3; 7]; OpAdd 2 [7]; OpAdd 3 [9]; OpMinimize] Corpus_new)
     corpus_wf False.
Proof.
  apply corpus_invariant; [|done].
  repeat constructor; unfold SIGNAL_MAP_SIZE; simpl; try lia; set_solver by lia.
Defined.

(** * From a trace to its edges *)

(** The hashed transitions of a trace that starts after [prev]. *)
Fixpoint transitions (prev : Z) (pcs : list Z) : list Z :=
  match pcs with [] => [] | pc :: t => edge_hash pc prev :: transitions pc t end.

Lemma transitions_snoc p d x :
  transitions p (d ++ [x]) = transitions p d ++ [edge_hash x (default p (last d))].
Proof.
  revert p. induction d as [|y d IH]; intros p; [done|]. cbn [transitions app].
  rewrite IH. rewrite last_cons. by destruct (last d).
Qed.

Lemma edge_hash_range pc prev : 0 <= edge_hash pc prev < SIGNAL_MAP_SIZE.
Proof. apply (land_range_r _ _ 16); unfold SIGNAL_MAP_SIZE; lia. Qed.

(** The bitmap records exactly the edges collected so far. *)
Definition seen_ok (seen : list Z) (es : list Z) : Prop :=
  zlen seen = SIGNAL_MAP_SIZE / 8 + 1 /\
  forall e, 0 <= e < SIGNAL_MAP_SIZE ->
    exists b, get seen (e / 8) = Some b /\ 0 <= b /\ (Z.testbit b (e mod 8) = true <-> e ∈ es).

Lemma land_bit b i : 0 <= i -> (Z.land b (Z.shiftl 1 i) =? 0) = negb (Z.testbit b i).
Proof.
  intros Hi. rewrite Z.shiftl_1_l. destruct (Z.testbit b i) eqn:E; simpl.
  - apply Z.eqb_neq. intros H. apply (f_equal (fun x => Z.testbit x i)) in H.
    rewrite Z.land_spec, E, Z.pow2_bits_true, Z.bits_0 in H by done. done.
  - apply Z.eqb_eq, Z.bits_inj'. intros j Hj. rewrite Z.land_spec, Z.pow2_bits_eqb, Z.bits_0 by done.
    destruct (Z.eqb_spec i j) as [->|]; [by rewrite E|apply andb_false_r].
Qed.

Lemma seen_ok_add seen es e b :
  seen_ok seen es -> 0 <= e < SIGNAL_MAP_SIZE -> get seen (e / 8) = Some b ->
  seen_ok (<[Z.to_nat (e / 8) := Z.lor b (Z.shiftl 1 (e mod 8))]> seen) (es ++ [e]).
Proof.
  intros [Hl Hs] He Hb. pose proof (proj1 (proj1 (get_Some _ _ _) Hb)) as Hr.
  split; [by rewrite zlen_insert|]. intros x Hx. destruct (Hs x Hx) as (bx & Hbx & H0 & Hbit).
  rewrite get_insert by done. pose proof (Z.mod_pos_bound e 8). pose proof (Z.mod_pos_bound x 8).
  case_decide as D.
  - eexists. split; [done|]. assert (bx = b) as -> by congruence.
    split; [apply Z.lor_nonneg; split; [done|apply Z.shiftl_nonneg; lia]|].
    rewrite Z.lor_spec, Z.shiftl_1_l, Z.pow2_bits_eqb by lia.
    rewrite orb_true_iff, Hbit, Z.eqb_eq, elem_of_app, list_elem_of_singleton.
    pose proof (Z.div_mod e 8). pose proof (Z.div_mod x 8).
    split; (intros [?|?]; [by left|right; first [lia|congruence]]).
  - exists bx. split_and!; [done|done|]. rewrite Hbit, elem_of_app, list_elem_of_singleton.
    split; [by left|]. intros [?| ->]; done.
Qed.

Lemma sorted_le_nodup_lt l : StronglySorted Z.le l -> NoDup l -> StronglySorted Z.lt l.
Proof.
  induction 1 as [|x l _ IH Hx]; intros Hnd; constructor; inversion Hnd; subst; [auto|].
  rewrite Forall_forall in *. intros y Hy. specialize (Hx y Hy).
  destruct (decide (x = y)) as [->|]; [done|lia].
Qed.

(** The edges of a trace are, in strictly increasing order, exactly the
    hashes of its transitions; the bitmap indexing never goes out of range. *)
Theorem edge_signal_is_transition_set (pcs : list Z) :
  wp (edge_signal_from_pcs pcs)
     (fun es => StronglySorted Z.lt es /\ edges_ok es /\
                forall e, e ∈ es <-> e ∈ transitions 0 pcs) False.
Proof.
  unfold edge_signal_from_pcs. apply wp_bind.
  pose (I := fun (d : list Z) (s : list Z * list Z * Z) =>
    let '(seen, es, prev) := s in
    seen_ok seen es /\ NoDup es /\ (forall e, e ∈ es <-> e ∈ transitions 0 d) /\
    prev = default 0 (last d)).
  eapply (wp_mono _ (I pcs) _ False); [apply wp_fold_m| |done].
  - intros d pc rest [[seen es] prev] _ (Hseen & Hnd & Hel & Hprev). unfold edge_step.
    pose proof (edge_hash_range pc prev) as He. set (e := edge_hash pc prev) in *.
    pose proof Hseen as [_ Hs]. destruct (Hs e He) as (b & Hb & H0 & Hbit).
    rewrite Hb. cbn [or_panic mbind outcome_bind].
    pose proof (Z.mod_pos_bound e 8 ltac:(lia)). rewrite land_bit by lia.
    assert (transitions 0 (d ++ [pc]) = transitions 0 d ++ [e]) as Htr
      by (by rewrite transitions_snoc, <- Hprev).
    destruct (Z.testbit b (e mod 8)) eqn:E; cbn [negb].
    + cbn [wp]. split_and!; [done|done| |by rewrite last_snoc].
      intros x. rewrite Htr, elem_of_app, list_elem_of_singleton, Hel.
      split; [by left|]. intros [?| ->]; [done|]. apply Hel, Hbit. done.
    + apply wp_bind, wp_upd; [by apply get_Some in Hb as [? _]|]. cbn [wp].
      split_and!; [by apply seen_ok_add| | |by rewrite last_snoc].
      * apply NoDup_app. split_and!; [done| |apply NoDup_singleton].
        intros x Hx ->%list_elem_of_singleton. apply Hbit in Hx. congruence.
      * intros x. rewrite Htr, !elem_of_app, Hel. done.
  - unfold I. split; [|split_and!; [apply NoDup_nil_2|done|done]].
    split; [unfold zlen; by rewrite length_replicate|]. intros e He. exists 0.
    split_and!; [|done|rewrite Z.bits_0; set_solver].
    apply get_replicate. unfold SIGNAL_MAP_SIZE in *.
    split; [apply Z.div_pos; lia|].
    apply (Z.lt_le_trans _ 8192); [apply Z.div_lt_upper_bound; lia|done].
  - intros [[seen es] prev] (_ & Hnd & Hel & _). cbn [wp].
    assert (forall e, e ∈ sort_u64 es <-> e ∈ transitions 0 pcs) as Hel'
      by (intros; by rewrite sort_u64_perm).
    assert (NoDup (sort_u64 es)) by (by rewrite sort_u64_perm).
    split_and!; [by apply sorted_le_nodup_lt; [apply sort_u64_sorted|]| |done].
    split; [|done]. apply Forall_forall. intros e He%Hel'. clear -He.
    revert He. generalize 0 at 1. induction pcs as [|pc pcs IH]; intros p; [set_solver|].
    cbn. intros [->|He]%elem_of_cons; [apply edge_hash_range|by eapply IH].
Qed.
