(* ===== verification/SortScan.v ===== *)
(** Searching a sorted table against a linear scan of the unsorted one: shared
    by the symbol table and the line table of the symbolizer. *)
From S2P Require Import Prelude.

Section SortScan.
Context {A : Type} (le : A -> A -> bool).
Context (le_total : forall x y, le x y = true \/ le y x = true).
Context (le_trans : forall x y z, le x y = true -> le y z = true -> le x z = true).
Context (p : A -> bool).

Notation keep := (filter (fun x => p x = true)).
Notation sorted := (StronglySorted (fun a b => le a b = true)).

Definition pick_last (a b : option A) : option A :=
  match a, b with
  | Some x, Some y => if le x y then Some y else Some x
  | Some x, None => Some x
  | None, _ => b
  end.

Definition pick_first (a b : option A) : option A :=
  match a, b with
  | Some x, Some y => if le x y then Some x else Some y
  | Some x, None => Some x
  | None, _ => b
  end.

(** One pass from left to right: the last of the greatest, the first of the
    least, among the elements satisfying [p]. *)
Definition scan_last (l : list A) : option A :=
  foldl (fun best x => if p x then pick_last best (Some x) else best) None l.
Definition scan_first (l : list A) : option A :=
  foldl (fun best x => if p x then pick_first best (Some x) else best) None l.

Lemma pick_last_assoc a b c : pick_last a (pick_last b c) = pick_last (pick_last a b) c.
Proof using le_trans le_total.
  destruct a as [x|], b as [y|], c as [z|]; try done; cbn.
  - destruct (le y z) eqn:Eyz, (le x y) eqn:Exy; cbn; rewrite ?Exy, ?Eyz; try done.
    + by rewrite (le_trans x y z).
    + destruct (le x z) eqn:Exz; [|done]. exfalso.
      destruct (le_total z y) as [Hzy|]; [|congruence]. by rewrite (le_trans x z y) in Exy.
  - by destruct (le x y).
Qed.

Lemma pick_first_assoc a b c : pick_first a (pick_first b c) = pick_first (pick_first a b) c.
Proof using le_trans le_total.
  destruct a as [x|], b as [y|], c as [z|]; try done; cbn.
  - destruct (le y z) eqn:Eyz, (le x y) eqn:Exy; cbn; rewrite ?Exy, ?Eyz; try done.
    + by rewrite (le_trans x y z).
    + destruct (le x z) eqn:Exz; [|done]. exfalso.
      destruct (le_total z y) as [Hzy|]; [|congruence]. by rewrite (le_trans x z y) in Exy.
  - by destruct (le x y).
Qed.

(** The scans, written from the right. *)
Lemma scan_last_cons x l : scan_last (x :: l) = if p x then pick_last (Some x) (scan_last l) else scan_last l.
Proof using le_trans le_total.
  assert (forall l acc, foldl (fun best x => if p x then pick_last best (Some x) else best) acc l = pick_last acc (scan_last l)) as H.
  { induction l0 as [|y l0 IH]; intros acc; [by destruct acc|]. unfold scan_last. cbn [foldl]. rewrite !IH.
    destruct (p y); [|done]. by rewrite <- pick_last_assoc. }
  unfold scan_last at 1. cbn [foldl]. rewrite H. destruct (p x); [done|]. by destruct (scan_last l).
Qed.

Lemma scan_first_cons x l : scan_first (x :: l) = if p x then pick_first (Some x) (scan_first l) else scan_first l.
Proof using le_trans le_total.
  assert (forall l acc, foldl (fun best x => if p x then pick_first best (Some x) else best) acc l = pick_first acc (scan_first l)) as H.
  { induction l0 as [|y l0 IH]; intros acc; [by destruct acc|]. unfold scan_first. cbn [foldl]. rewrite !IH.
    destruct (p y); [|done]. by rewrite <- pick_first_assoc. }
  unfold scan_first at 1. cbn [foldl]. rewrite H. destruct (p x); [done|]. by destruct (scan_first l).
Qed.

Lemma keep_cons x l : keep (x :: l) = if p x then x :: keep l else keep l.
Proof using. rewrite filter_cons. destruct (p x); [by rewrite decide_True|by rewrite decide_False]. Qed.

Lemma keep_sorted l : sorted l -> sorted (keep l).
Proof using.
  induction 1 as [|x l Hl IH Hx]; [constructor|]. rewrite keep_cons. destruct (p x); [|done]. constructor; [done|].
  rewrite Forall_forall in *. intros y [_ Hy]%list_elem_of_filter. auto.
Qed.

Lemma keep_insert x l : sorted l -> keep (insert_by le x l) = if p x then insert_by le x (keep l) else keep l.
Proof using le_trans.
  induction 1 as [|y l Hl IH Hy]; cbn [insert_by]; [rewrite keep_cons; by destruct (p x)|].
  destruct (le x y) eqn:E.
  - rewrite !keep_cons. destruct (p x) eqn:Ex; [|done]. destruct (p y); cbn [insert_by]; [by rewrite E|].
    (* everything kept after [y] is above [x] *)
    assert (Forall (fun z => le x z = true) (keep l)) as Hz.
    { rewrite Forall_forall in *. intros z [_ Hz]%list_elem_of_filter. apply (le_trans x y); [done|]. by apply Hy. }
    destruct (keep l) as [|z k]; [done|]. inversion Hz as [|? ? E' _]; subst. cbn [insert_by]. by rewrite E'.
  - rewrite !keep_cons, IH. destruct (p x), (p y); try done. cbn [insert_by]. by rewrite E.
Qed.

Lemma head_insert x l : sorted l -> head (insert_by le x l) = pick_first (Some x) (head l).
Proof using. destruct 1 as [|y l]; [done|]. cbn. by destruct (le x y). Qed.

Lemma last_insert x l : sorted l -> last (insert_by le x l) = pick_last (Some x) (last l).
Proof using le_trans.
  induction 1 as [|y l Hl IH Hy]; [done|]. cbn [insert_by]. destruct (le x y) eqn:E.
  - change (last (x :: y :: l)) with (last (y :: l)). destruct (last (y :: l)) as [z|] eqn:Ez; [|by apply last_None in Ez].
    cbn [pick_last]. apply last_Some_elem_of in Ez. apply elem_of_cons in Ez as [->|Hz]; [by rewrite E|].
    rewrite Forall_forall in Hy. by rewrite (le_trans x y z E (Hy z Hz)).
  - destruct (insert_by le x l) as [|a k] eqn:Ei; [by destruct l; cbn in Ei; [|destruct (le x a)]|].
    change (last (y :: a :: k)) with (last (a :: k)). rewrite IH.
    destruct l as [|z l]; [cbn; by rewrite E|done].
Qed.

(** The last kept element of the sorted table is what the scan finds. *)
Theorem sorted_last_scan l : last (keep (sort_by le l)) = scan_last l.
Proof using le_trans le_total.
  induction l as [|x l IH]; [done|]. cbn [sort_by foldr]. fold (sort_by le l).
  rewrite keep_insert, scan_last_cons by (by apply sort_by_sorted). destruct (p x); [|done].
  by rewrite last_insert, IH by (by apply keep_sorted, sort_by_sorted).
Qed.

Theorem sorted_first_scan l : head (keep (sort_by le l)) = scan_first l.
Proof using le_trans le_total.
  induction l as [|x l IH]; [done|]. cbn [sort_by foldr]. fold (sort_by le l).
  rewrite keep_insert, scan_first_cons by (by apply sort_by_sorted). destruct (p x); [|done].
  by rewrite head_insert, IH by (by apply keep_sorted, sort_by_sorted).
Qed.

Lemma scan_last_elem l r : scan_last l = Some r -> r ∈ l /\ p r = true /\ forall t, t ∈ l -> p t = true -> le t r = true.
Proof using le_trans le_total.
  revert r. induction l as [|x l IH]; intros r; [done|]. rewrite scan_last_cons. destruct (p x) eqn:Ex.
  - destruct (scan_last l) as [y|] eqn:Ey; cbn [pick_last].
    + destruct (IH y eq_refl) as (Hy & Hpy & Hmax). destruct (le x y) eqn:Exy; intros [= <-].
      * split_and!; [by right|done|]. intros t [->|Ht]%elem_of_cons Hpt; auto.
      * split_and!; [by left|done|]. intros t [->|Ht]%elem_of_cons Hpt; [by destruct (le_total x x)|].
        destruct (le_total x y) as [|Hyx]; [congruence|]. eapply le_trans; [by apply Hmax|done].
    + intros [= <-]. split_and!; [by left|done|]. intros t [->|Ht]%elem_of_cons Hpt; [by destruct (le_total x x)|]. exfalso. clear IH.
      revert Ey Ht. induction l as [|y l IH]; intros Ey Ht; [by apply not_elem_of_nil in Ht|]. rewrite scan_last_cons in Ey.
      destruct (p y) eqn:Epy; [by destruct (scan_last l) as [z|]; [cbn in Ey; destruct (le y z)|]|].
      apply elem_of_cons in Ht as [->|Ht]; [congruence|auto].
  - intros Hl. destruct (IH r Hl) as (Hr & Hp & Hmax). split_and!; [by right|done|].
    intros t [->|Ht]%elem_of_cons Hpt; [congruence|auto].
Qed.

Lemma scan_last_intro pre r post : p r = true ->
  (forall t, t ∈ pre -> p t = true -> le t r = true) -> (forall t, t ∈ post -> p t = true -> le r t = false) ->
  scan_last (pre ++ r :: post) = Some r.
Proof using le_trans le_total.
  intros Hr Hpre Hpost. induction pre as [|x pre IH]; cbn [app]; rewrite scan_last_cons.
  - rewrite Hr. destruct (scan_last post) as [y|] eqn:E; [|done]. apply scan_last_elem in E as (Hy & Hpy & _).
    cbn. by rewrite Hpost.
  - rewrite IH by (intros t Ht; apply Hpre; by right). destruct (p x) eqn:Ex; [|done]. cbn. rewrite Hpre; [done|by left|done].
Qed.

(** The first scan keeps an element no other beats, and the first such. *)
Lemma scan_first_spec l s : scan_first l = Some s -> exists pre post, l = pre ++ s :: post /\ p s = true /\
  Forall (fun t => p t = true -> le t s = false) pre /\ Forall (fun t => p t = true -> le s t = true) post.
Proof using le_trans le_total.
  revert s. induction l as [|x l IH]; intros s; [done|]. rewrite scan_first_cons. destruct (p x) eqn:Ex.
  - destruct (scan_first l) as [y|] eqn:Ey; cbn [pick_first].
    + destruct (IH y eq_refl) as (pre & post & -> & Hy & Hpre & Hpost). destruct (le x y) eqn:Exy; intros [= <-].
      * exists [], (pre ++ y :: post). split_and!; [done|done|constructor|]. apply Forall_app; split.
        -- eapply Forall_impl; [exact Hpre|]. intros t Ht Hpt. specialize (Ht Hpt).
           destruct (le_total y t); [by eapply le_trans|congruence].
        -- constructor; [done|]. eapply Forall_impl; [exact Hpost|]. intros t Ht Hpt. eapply le_trans; [done|auto].
      * exists (x :: pre), post. split_and!; [done|done|by constructor|done].
    + intros [= <-]. exists [], l. split_and!; [done|done|constructor|]. clear IH. revert Ey.
      induction l as [|y l IH]; [constructor|]. rewrite scan_first_cons. destruct (p y) eqn:Epy.
      * by destruct (scan_first l); [cbn; destruct (le y a)|].
      * intros Hl. constructor; [congruence|auto].
  - intros Hl. destruct (IH s Hl) as (pre & post & -> & Hs & Hpre & Hpost).
    exists (x :: pre), post. split_and!; [done|done|constructor; [congruence|done]|done].
Qed.

(** On a table sorted so that [p] holds of a prefix, the element before the
    partition point is the last kept one. *)
Lemma partition_point_last l : sorted l -> (forall x y, le x y = true -> p y = true -> p x = true) ->
  keep l = take (Z.to_nat (partition_point p l)) l /\ partition_point p l = zlen (keep l).
Proof using.
  intros Hs Hp. induction Hs as [|x l Hl [IH1 IH2] Hx]; [done|]. cbn [partition_point]. rewrite keep_cons.
  pose proof (partition_point_bound p l). destruct (p x) eqn:E.
  - replace (Z.to_nat (1 + partition_point p l)) with (S (Z.to_nat (partition_point p l))) by lia.
    cbn [take]. rewrite zlen_cons. split; [by f_equal|lia].
  - assert (keep l = []) as ->; [|done]. apply filter_nil_iff || idtac.
    destruct (keep l) as [|y k] eqn:Ek; [done|]. exfalso.
    assert (y ∈ keep l) as [Hy Hyl]%list_elem_of_filter by (rewrite Ek; by left).
    rewrite Forall_forall in Hx. rewrite (Hp x y (Hx y Hyl) Hy) in E. done.
Qed.

(** Binary search on the sorted table finds what the scan finds. *)
Lemma sorted_lookup_scan l : (forall x y, le x y = true -> p y = true -> p x = true) ->
  let S := sort_by le l in
  (if partition_point p S =? 0 then None else get S (partition_point p S - 1)) = scan_last l.
Proof using le_trans le_total.
  intros Hp S. destruct (partition_point_last S (sort_by_sorted le le_total le_trans l) Hp) as [Hk Hi].
  rewrite <- sorted_last_scan. fold S. pose proof (partition_point_bound p S). destruct (Z.eqb_spec (partition_point p S) 0) as [E|E].
  - rewrite Hk, E. done.
  - rewrite Hk, last_lookup, length_take. unfold get, zlen in *. rewrite lookup_take_lt by lia.
    replace (_ && _) with true by lia. f_equal. lia.
Qed.
End SortScan.
