(* ===== verification/DwarfReader.v ===== *)
(** dwarf/reader.rs: the byte cursor [Cur], LEB128, offsets, addresses,
    strings, and [read_form], the attribute-form reader.

    A reader is a function from a cursor to a value and the advanced cursor;
    [Fail] is the [None] of a truncated or undefined input.  Shown: every
    reader is total on any byte string, moves forward, and stops inside the
    section; LEB128 and fixed-width integers read back what was encoded. *)
From S2P Require Import Prelude Text.

Record Cur : Type := MkCur { data : list Z; pos : Z }.

Definition rd (A : Type) : Type := Cur -> outcome (A * Cur).

#[global] Instance rd_ret : MRet rd := fun A a c => Done (a, c).
#[global] Instance rd_bind : MBind rd := fun A B f m c =>
  match m c with Done (a, c') => f a c' | Fail => Fail | Panic => Panic | Fuel => Fuel end.
#[global] Instance rd_fmap : FMap rd := fun A B f m => m ≫= (fun a => mret (f a)).
Definition rd_fail {A} : rd A := fun _ => Fail.

Inductive Val : Type :=
  | VNone
  | VAddr (v : Z)
  | VUdata (v : Z)
  | VSdata (v : Z)
  | VFlag
  | VStr (s : list Z)
  | VStrp (off : Z)
  | VLineStrp (off : Z)
  | VStrx (i : Z)
  | VRef (off : Z)
  | VSecOff (off : Z)
  | VAddrx (i : Z)
  | VRnglistx (i : Z)
  | VBlock.

Module Cursor.

Definition at_end (c : Cur) : bool := zlen (data c) <=? pos c.

Definition skip (n : Z) : rd unit := fun c =>
  let np := pos c + n in
  if 2 ^ 64 <=? np then Fail
  else if zlen (data c) <? np then Fail
  else Done (tt, MkCur (data c) np).

Definition bytes (n : Z) : rd (list Z) := fun c =>
  if 2 ^ 64 <=? pos c + n then Fail
  else match slice (data c) (pos c) (pos c + n) with
       | Some s => Done (s, MkCur (data c) (pos c + n))
       | None => Fail
       end.

Definition u8 : rd Z := fun c =>
  match get (data c) (pos c) with
  | Some b => Done (b, MkCur (data c) (pos c + 1))
  | None => Fail
  end.

Definition u16 : rd Z := b ← bytes 2; mret (le_val b).
Definition u24 : rd Z := b ← bytes 3; mret (le_val b).
Definition u32 : rd Z := b ← bytes 4; mret (le_val b).
Definition u64 : rd Z := b ← bytes 8; mret (le_val b).
Definition i8 : rd Z := b ← u8; mret (as_i8 b).

(** [uleb]: at most eleven bytes, since the loop gives up once [shift]
    exceeds 70. *)
Fixpoint uleb_go (fuel : nat) (result shift : Z) : rd Z :=
  match fuel with
  | O => fun _ => Fuel
  | S f =>
      b ← u8;
      let result := if shift <? 64 then Z.lor result (Z.land b 0x7f <<₆₄ shift) else result in
      let shift := shift + 7 in
      if Z.land b 0x80 =? 0 then mret result
      else if 70 <? shift then rd_fail
      else uleb_go f result shift
  end.
Definition uleb : rd Z := uleb_go 11 0 0.

Fixpoint sleb_go (fuel : nat) (result shift : Z) : rd Z :=
  match fuel with
  | O => fun _ => Fuel
  | S f =>
      b ← u8;
      let result := if shift <? 64 then Z.lor result (as_i64 (Z.shiftl (Z.land b 0x7f) shift))
                    else result in
      let shift := shift + 7 in
      if Z.land b 0x80 =? 0 then
        mret (if (shift <? 64) && negb (Z.land b 0x40 =? 0)
              then Z.lor result (as_i64 (Z.shiftl (-1) shift)) else result)
      else if 70 <? shift then rd_fail
      else sleb_go f result shift
  end.
Definition sleb : rd Z := sleb_go 11 0 0.

Definition off (format64 : bool) : rd Z := if format64 then u64 else u32.

Definition addr (size : Z) : rd Z :=
  if size =? 8 then u64
  else if size =? 4 then u32
  else if size =? 2 then u16
  else if size =? 1 then u8
  else rd_fail.

Definition cstr : rd (list Z) := fun c =>
  match slice_from (data c) (pos c) with
  | None => Fail
  | Some rest =>
      match position (fun b => b =? 0) rest with
      | None => Fail
      | Some n => Done (take (Z.to_nat n) rest, MkCur (data c) (pos c + (n + 1)))
      end
  end.

Definition initial_length : rd (Z * bool) :=
  l ← u32;
  if l =? 0xffffffff then v ← u64; mret (v, true)
  else if 0xfffffff0 <=? l then rd_fail
  else mret (l, false).

End Cursor.

Record UnitShape : Type := MkShape
  { shape_off : Z; version : Z; format64 : bool; addr_size : Z }.

Import Cursor.

(** The repeated arms of [read_form]: a sized block, a unit-relative
    reference (rebased with wrap-around), a value that is read and dropped. *)
Definition block (len : rd Z) : rd Val := n ← len; skip n;; mret VBlock.
Definition rel (u : UnitShape) (r : rd Z) : rd Val := v ← r; mret (VRef (shape_off u +₆₄ v)).
Definition drop_val {A} (r : rd A) : rd Val := r;; mret VNone.

(** A value of [form].  The indirect form re-enters the reader with the form
    number it read; [fuel] bounds that chain. *)
Fixpoint read_form_go (fuel : nat) (form : Z) (u : UnitShape) (implicit : Z) : rd Val :=
  match fuel with
  | O => fun _ => Fuel
  | S f =>
  if form =? 0x01 then VAddr <$> addr (addr_size u)
  else if form =? 0x03 then block u16
  else if form =? 0x04 then block u32
  else if form =? 0x05 then VUdata <$> u16
  else if form =? 0x06 then VUdata <$> u32
  else if form =? 0x07 then VUdata <$> u64
  else if form =? 0x08 then VStr <$> cstr
  else if (form =? 0x09) || (form =? 0x18) then block uleb
  else if form =? 0x0a then block u8
  else if form =? 0x0b then VUdata <$> u8
  else if form =? 0x0c then u8;; mret VFlag
  else if form =? 0x0d then VSdata <$> sleb
  else if form =? 0x0e then VStrp <$> off (format64 u)
  else if form =? 0x0f then VUdata <$> uleb
  else if form =? 0x10 then
    if version u <=? 2 then VRef <$> addr (addr_size u) else VRef <$> off (format64 u)
  else if form =? 0x11 then rel u u8
  else if form =? 0x12 then rel u u16
  else if form =? 0x13 then rel u u32
  else if form =? 0x14 then rel u u64
  else if form =? 0x15 then rel u uleb
  else if form =? 0x16 then f' ← uleb; read_form_go f (as_u16 f') u implicit
  else if form =? 0x17 then VSecOff <$> off (format64 u)
  else if form =? 0x19 then mret VFlag
  else if (form =? 0x1a) || (form =? 0x1f02) then VStrx <$> uleb
  else if (form =? 0x1b) || (form =? 0x1f01) then VAddrx <$> uleb
  else if form =? 0x1c then drop_val u32
  else if (form =? 0x1d) || (form =? 0x1f20) || (form =? 0x1f21) then drop_val (off (format64 u))
  else if form =? 0x1e then drop_val (skip 16)
  else if form =? 0x1f then VLineStrp <$> off (format64 u)
  else if (form =? 0x20) || (form =? 0x24) then drop_val u64
  else if form =? 0x21 then mret (VSdata implicit)
  else if form =? 0x22 then drop_val uleb
  else if form =? 0x23 then VRnglistx <$> uleb
  else if form =? 0x25 then VStrx <$> u8
  else if form =? 0x26 then VStrx <$> u16
  else if form =? 0x27 then VStrx <$> u24
  else if form =? 0x28 then VStrx <$> u32
  else if form =? 0x29 then VAddrx <$> u8
  else if form =? 0x2a then VAddrx <$> u16
  else if form =? 0x2b then VAddrx <$> u24
  else if form =? 0x2c then VAddrx <$> u32
  else rd_fail
  end.

Definition read_form (form : Z) (u : UnitShape) (implicit : Z) : rd Val := fun c =>
  read_form_go (S (length (data c))) form u implicit c.

(** [Val::as_u64] *)
Definition as_u64_val (v : Val) : option Z :=
  match v with
  | VUdata v | VAddr v => Some v
  | VSdata v => Some (as_u64 v)
  | VSecOff v | VRef v => Some v
  | _ => None
  end.

Definition cstr_at (sec : list Z) (off : Z) : option (list Z) :=
  rest ← slice_from sec off;
  n ← position (fun b => b =? 0) rest;
  Some (take (Z.to_nat n) rest).

(** * Totality and progress *)

(** A cursor over a mapped section: bytes, a [usize] position, and a length
    no mapping can exceed. *)
Definition cur_ok (c : Cur) : Prop :=
  bytes_ok (data c) /\ 0 <= pos c /\ zlen (data c) < 2 ^ 63.

(** [reads k Q m]: on any cursor, [m] either fails or returns a value in [Q]
    over the same data, at least [k] bytes further on and still inside it. *)
Definition reads {A} (k : Z) (Q : A -> Prop) (m : rd A) : Prop :=
  forall c, cur_ok c ->
    wp (m c) (fun '(a, c') => Q a /\ data c' = data c /\ pos c + k <= pos c' /\
                (pos c' <= zlen (data c) \/ pos c' = pos c)) True.

Lemma reads_step {A} (m : rd A) k Q c (P : A * Cur -> Prop) (F : Prop) :
  reads k Q m -> cur_ok c -> 0 <= k -> F ->
  (forall a c', Q a -> cur_ok c' -> data c' = data c -> pos c + k <= pos c' ->
     (pos c' <= zlen (data c) \/ pos c' = pos c) -> P (a, c')) ->
  wp (m c) P F.
Proof.
  intros Hm Hc Hk HF HP. specialize (Hm c Hc).
  destruct (m c) as [[a c']| | |]; try done. simpl in *.
  destruct Hm as (HQ & Hd & Hp & Hb). apply HP; try done.
  destruct Hc as (?&?&?). unfold cur_ok. rewrite Hd. split_and!; [done|lia|done].
Qed.

Lemma reads_ret {A} (a : A) (Q : A -> Prop) : Q a -> reads 0 Q (mret a).
Proof. intros HQ c Hc. split_and!; [done|done|lia|by right]. Qed.

Lemma reads_fail {A} k (Q : A -> Prop) : reads k Q rd_fail.
Proof. by intros c Hc. Qed.

Lemma reads_mono {A} k k' (Q Q' : A -> Prop) m :
  reads k Q m -> k' <= k -> (forall a, Q a -> Q' a) -> reads k' Q' m.
Proof.
  intros Hm Hk HQ c Hc. eapply wp_mono; [by apply Hm| |done].
  intros [a c'] (?&?&?&?). split_and!; [by apply HQ|done|lia|done].
Qed.

Lemma reads_weaken {A} k k' (Q : A -> Prop) m : reads k Q m -> k' <= k -> reads k' Q m.
Proof. intros. by eapply reads_mono. Qed.

Lemma reads_bind {A B} k1 k2 (Q1 : A -> Prop) (Q2 : B -> Prop) m f :
  reads k1 Q1 m -> (forall a, Q1 a -> reads k2 Q2 (f a)) -> 0 <= k1 -> 0 <= k2 ->
  reads (k1 + k2) Q2 (m ≫= f).
Proof.
  intros Hm Hf H1 H2 c Hc. specialize (Hm c Hc). unfold mbind, rd_bind.
  destruct (m c) as [[a c']| | |]; try done. simpl in Hm.
  destruct Hm as (HQ & Hd & Hp & Hb).
  assert (cur_ok c') as Hc'.
  { destruct Hc as (?&?&?). unfold cur_ok. rewrite Hd. split_and!; [done|lia|done]. }
  eapply wp_mono; [by apply Hf| |done]. intros [b c''] (?&Hd'&?&Hb').
  rewrite Hd in *. split_and!; [done|done|lia|]. lia.
Qed.

Lemma reads_fmap {A B} k (Q : A -> Prop) (Q' : B -> Prop) (f : A -> B) m :
  reads k Q m -> (forall a, Q a -> Q' (f a)) -> 0 <= k -> reads 0 Q' (f <$> m).
Proof.
  intros Hm Hf Hk. apply (reads_mono (k + 0) _ Q'); [|lia|done].
  eapply reads_bind; [done| |done|done]. intros a Ha. by apply reads_ret, Hf.
Qed.

Lemma reads_u8 : reads 1 is_u8 u8.
Proof.
  intros c Hc. unfold u8. destruct (get (data c) (pos c)) as [b|] eqn:E; [|done].
  destruct Hc as (Hb & _ & _). pose proof (get_bytes_ok _ _ _ Hb E).
  apply get_Some in E as [? _]. simpl. split_and!; [done|done|lia|lia].
Qed.

Lemma reads_bytes n : 0 <= n -> reads n (fun s => zlen s = n /\ bytes_ok s) (bytes n).
Proof.
  intros Hn c (Hb & Hp & Hl). unfold bytes. destruct (_ <=? _); [done|].
  destruct (slice _ _ _) as [s|] eqn:E; [|done]. simpl.
  pose proof (slice_length _ _ _ _ E). pose proof (slice_bytes_ok _ _ _ _ Hb E).
  apply slice_Some in E as (?&?&_). split_and!; [lia|done|done|lia|lia].
Qed.

Lemma reads_le n w : 0 <= n -> w = 8 * n ->
  reads n (fun v => 0 <= v < 2 ^ w) (b ← bytes n; mret (le_val b)).
Proof.
  intros Hn ->. rewrite <- (Z.add_0_r n) at 1.
  eapply reads_bind; [by apply reads_bytes| |done|done].
  intros s [<- Hs]. by apply reads_ret, le_val_range.
Qed.

Lemma reads_u16 : reads 2 is_u16 u16.
Proof. by apply reads_le. Qed.
Lemma reads_u24 : reads 3 (fun v => 0 <= v < 2 ^ 24) u24.
Proof. by apply reads_le. Qed.
Lemma reads_u32 : reads 4 is_u32 u32.
Proof. by apply reads_le. Qed.
Lemma reads_u64 : reads 8 is_u64 u64.
Proof. by apply reads_le. Qed.

Lemma reads_skip n : 0 <= n -> reads 0 (fun _ => True) (skip n).
Proof.
  intros Hn c Hc. unfold skip. destruct (_ <=? _); [done|].
  destruct (Z.ltb_spec (zlen (data c)) (pos c + n)); [done|]. simpl. split_and!; [done|done|lia|lia].
Qed.

Lemma lor_shl_u64 r b s : is_u64 r -> is_u64 (Z.lor r (b <<₆₄ s)).
Proof. intros. apply lor_range; [lia|done|apply as_u64_range]. Qed.

Lemma reads_uleb_go fuel r s :
  is_u64 r -> s <= 70 < s + 7 * Z.of_nat fuel -> reads 1 is_u64 (uleb_go fuel r s).
Proof.
  revert r s. induction fuel as [|fuel IH]; intros r s Hr Hs; [lia|]. cbn [uleb_go].
  change 1 with (1 + 0) at 1. eapply reads_bind; [apply reads_u8| |done|done].
  intros b Hb. set (r' := if s <? 64 then _ else _).
  assert (is_u64 r') by (unfold r'; destruct (s <? 64); [by apply lor_shl_u64|done]).
  destruct (_ =? 0); [by apply reads_ret|].
  destruct (Z.ltb_spec 70 (s + 7)); [apply reads_fail|].
  eapply reads_weaken; [apply IH; [done|lia]|lia].
Qed.

Lemma reads_uleb : reads 1 is_u64 uleb.
Proof. apply reads_uleb_go; [unfold is_u64; lia|lia]. Qed.

Definition is_i64 (x : Z) : Prop := - 2 ^ 63 <= x < 2 ^ 63.

Lemma lor_i64 a b : is_i64 a -> is_i64 b -> is_i64 (Z.lor a b).
Proof.
  assert (forall x, is_i64 x <-> forall i, 63 <= i -> Z.testbit x i = Z.testbit x 63) as Hx.
  { clear. intros x. unfold is_i64. split.
    - intros Hx i Hi. destruct (Z.leb_spec 0 x).
      + by rewrite (testbit_high x 63 i), (testbit_high x 63 63) by lia.
      + rewrite <- (Z.lnot_involutive x), !(Z.lnot_spec (Z.lnot x)) by lia.
        by rewrite (testbit_high (Z.lnot x) 63 i), (testbit_high (Z.lnot x) 63 63)
          by (unfold Z.lnot; lia).
    - intros Hb. destruct (Z.leb_spec 0 x) as [H0|H0].
      + pose proof (bits_range x 63 ltac:(lia) H0) as Hr. enough (0 <= x < 2 ^ 63) by lia.
        apply Hr. intros i Hi. rewrite Hb by done.
        destruct (decide (x = 0)) as [->|]; [apply Z.bits_0|].
        rewrite <- (Hb (64 + Z.log2 x)) by (pose proof (Z.log2_nonneg x); lia).
        apply Z.bits_above_log2; lia.
      + enough (0 <= Z.lnot x < 2 ^ 63) by (unfold Z.lnot in *; lia).
        apply bits_range; [lia|unfold Z.lnot; lia|]. intros i Hi.
        rewrite Z.lnot_spec by lia. rewrite Hb by done.
        rewrite <- (Hb (64 + Z.log2 (Z.pred (- x)))) by (pose proof (Z.log2_nonneg (Z.pred (-x))); lia).
        by rewrite Z.bits_above_log2_neg by lia. }
  rewrite !Hx. intros Ha Hb i Hi. rewrite !Z.lor_spec. by rewrite Ha, Hb.
Qed.

Lemma as_i64_range x : is_i64 (as_i64 x).
Proof. unfold is_i64. pose proof (as_signed_range 64 x). unfold as_i64. lia. Qed.

Lemma reads_sleb_go fuel r s :
  is_i64 r -> s <= 70 < s + 7 * Z.of_nat fuel -> reads 1 is_i64 (sleb_go fuel r s).
Proof.
  revert r s. induction fuel as [|fuel IH]; intros r s Hr Hs; [lia|]. cbn [sleb_go].
  change 1 with (1 + 0) at 1. eapply reads_bind; [apply reads_u8| |done|done].
  intros b Hb. set (r' := if s <? 64 then _ else _).
  assert (is_i64 r') by (unfold r'; destruct (s <? 64); [apply lor_i64; [done|apply as_i64_range]|done]).
  destruct (_ =? 0).
  - apply reads_ret. destruct (_ && _); [apply lor_i64; [done|apply as_i64_range]|done].
  - destruct (Z.ltb_spec 70 (s + 7)); [apply reads_fail|].
    eapply reads_weaken; [apply IH; [done|lia]|lia].
Qed.

Lemma reads_sleb : reads 1 is_i64 sleb.
Proof. apply reads_sleb_go; [unfold is_i64; lia|lia]. Qed.

Lemma reads_off f : reads 4 is_u64 (off f).
Proof.
  destruct f; [eapply reads_mono; [apply reads_u64|lia|done]|].
  eapply reads_mono; [apply reads_u32|lia|]. unfold is_u32, is_u64. lia.
Qed.

Lemma reads_addr n : reads 1 is_u64 (addr n).
Proof.
  unfold addr. destruct (n =? 8); [eapply reads_mono; [apply reads_u64|lia|done]|].
  destruct (n =? 4); [eapply reads_mono; [apply reads_u32|lia|unfold is_u32, is_u64; lia]|].
  destruct (n =? 2); [eapply reads_mono; [apply reads_u16|lia|unfold is_u16, is_u64; lia]|].
  destruct (n =? 1); [eapply reads_mono; [apply reads_u8|lia|unfold is_u8, is_u64; lia]|].
  apply reads_fail.
Qed.

Lemma reads_cstr : reads 1 (fun s => bytes_ok s /\ 0 ∉ s) cstr.
Proof.
  intros c (Hb & Hp & Hl). unfold cstr.
  destruct (slice_from _ _) as [rest|] eqn:E; [|done].
  apply slice_from_Some in E as [Hr ->].
  destruct (position _ _) as [n|] eqn:En; [|done].
  apply position_Some in En as (Hn & _ & Hz).
  assert (zlen (drop (Z.to_nat (pos c)) (data c)) = zlen (data c) - pos c)
    by (unfold zlen in *; rewrite length_drop; lia).
  simpl. split_and!; [by apply Forall_take, Forall_drop| |done|lia|lia].
  intros H0. rewrite Forall_forall in Hz. by specialize (Hz 0 H0).
Qed.

Lemma reads_initial_length : reads 4 (fun '(l, _) => is_u64 l) initial_length.
Proof.
  unfold initial_length. change 4 with (4 + 0). eapply reads_bind; [apply reads_u32| |done|done].
  intros l Hl. destruct (l =? _).
  - eapply (reads_weaken (8 + 0)); [|lia].
    eapply reads_bind; [apply reads_u64| |done|done]. intros v Hv. by apply reads_ret.
  - destruct (_ <=? _); [apply reads_fail|]. apply reads_ret. unfold is_u32, is_u64 in *. lia.
Qed.

Create HintDb rd.
#[export] Hint Resolve reads_u8 reads_u16 reads_u24 reads_u32 reads_u64 reads_uleb reads_sleb
  reads_off reads_addr reads_cstr reads_initial_length reads_ret reads_fail : rd.

(** The integer payload of a value is a [u64] ([i64] for signed data). *)
Definition val_ok (v : Val) : Prop :=
  match v with
  | VAddr x | VUdata x | VStrp x | VLineStrp x | VStrx x | VRef x | VSecOff x | VAddrx x
  | VRnglistx x => is_u64 x
  | VSdata x => is_i64 x
  | VStr s => bytes_ok s
  | VNone | VFlag | VBlock => True
  end.

Lemma reads_block k (Q : Z -> Prop) len :
  reads k Q len -> (forall n, Q n -> 0 <= n) -> 0 <= k -> reads 0 val_ok (block len).
Proof.
  intros Hl HQ Hk. eapply (reads_weaken (k + (0 + 0))); [|lia].
  eapply reads_bind; [done| |done|done]. intros n Hn.
  eapply reads_bind; [by apply reads_skip, HQ| |done|done]. intros _ _. by apply reads_ret.
Qed.

Lemma reads_rel k (Q : Z -> Prop) u r : reads k Q r -> 0 <= k -> reads 0 val_ok (rel u r).
Proof.
  intros Hr Hk. eapply (reads_weaken (k + 0)); [|lia].
  eapply reads_bind; [done| |done|done]. intros v _. apply reads_ret, as_u64_range.
Qed.

Lemma reads_drop_val {A} k (Q : A -> Prop) r : reads k Q r -> 0 <= k -> reads 0 val_ok (drop_val r).
Proof.
  intros Hr Hk. eapply (reads_weaken (k + 0)); [|lia].
  eapply reads_bind; [done| |done|done]. intros v _. by apply reads_ret.
Qed.

Lemma reads_widen k w m : 0 <= k -> 0 <= w <= 64 -> reads k (fun v => 0 <= v < 2 ^ w) m -> reads 0 is_u64 m.
Proof.
  intros Hk Hw Hm. eapply reads_mono; [exact Hm|done|]. cbv beta. intros a Ha. unfold is_u64.
  pose proof (Z.pow_le_mono_r 2 w 64 ltac:(done) ltac:(lia)). lia.
Qed.

Create HintDb rd64.
Lemma rd64_u8 : reads 0 is_u64 u8.
Proof. by eapply (reads_widen 1 8), reads_u8. Qed.
Lemma rd64_u16 : reads 0 is_u64 u16.
Proof. by eapply (reads_widen 2 16), reads_u16. Qed.
Lemma rd64_u24 : reads 0 is_u64 u24.
Proof. by eapply (reads_widen 3 24), reads_u24. Qed.
Lemma rd64_u32 : reads 0 is_u64 u32.
Proof. by eapply (reads_widen 4 32), reads_u32. Qed.
Lemma rd64_u64 : reads 0 is_u64 u64.
Proof. by eapply (reads_widen 8 64), reads_u64. Qed.
Lemma rd64_uleb : reads 0 is_u64 uleb.
Proof. by eapply reads_weaken; [apply reads_uleb|]. Qed.
Lemma rd64_off f : reads 0 is_u64 (off f).
Proof. by eapply reads_weaken; [apply reads_off|]. Qed.
Lemma rd64_addr n : reads 0 is_u64 (addr n).
Proof. by eapply reads_weaken; [apply reads_addr|]. Qed.
#[export] Hint Resolve rd64_u8 rd64_u16 rd64_u24 rd64_u32 rd64_u64 rd64_uleb rd64_off rd64_addr : rd64.

Lemma is_u64_nonneg n : is_u64 n -> 0 <= n.
Proof. unfold is_u64. lia. Qed.

(** One arm of [read_form]. *)
Ltac form_arm :=
  match goal with
  | |- reads _ _ (VSdata <$> sleb) => eapply reads_fmap; [apply reads_sleb|exact (fun a H => H)|done]
  | |- reads _ _ (VStr <$> cstr) => eapply reads_fmap; [apply reads_cstr|by intros a [H _]|done]
  | |- reads _ _ (_ <$> _) =>
      eapply (reads_fmap 0 is_u64); [solve [auto with rd64]|exact (fun a H => H)|done]
  | |- reads _ _ (block _) => eapply (reads_block 0 is_u64); [solve [auto with rd64]|apply is_u64_nonneg|done]
  | |- reads _ _ (rel _ _) => eapply (reads_rel 0 is_u64); [solve [auto with rd64]|done]
  | |- reads _ _ (drop_val (skip _)) => eapply (reads_drop_val 0); [by apply reads_skip|done]
  | |- reads _ _ (drop_val _) => eapply (reads_drop_val 0 is_u64); [solve [auto with rd64]|done]
  | |- reads _ _ (mret _) => by apply reads_ret
  | |- reads _ _ rd_fail => apply reads_fail
  | |- reads _ _ (if _ then _ else _) => case_match; form_arm
  | |- reads _ _ (u8;; mret _) =>
      eapply (reads_weaken (1 + 0)); [eapply reads_bind; [apply reads_u8|intros; by apply reads_ret|done|done]|done]
  end.

Lemma wp_read_form_go fuel form u imp c :
  cur_ok c -> is_i64 imp -> zlen (data c) - pos c < Z.of_nat fuel -> (0 < fuel)%nat ->
  wp (read_form_go fuel form u imp c) (fun '(v, c') => val_ok v /\ data c' = data c /\
    pos c <= pos c' /\ (pos c' <= zlen (data c) \/ pos c' = pos c)) True.
Proof.
  revert form c. induction fuel as [|fuel IH]; intros form c Hc Himp Hf Hpos; [lia|].
  cbn [read_form_go].
  assert (forall m, reads 0 val_ok m ->
    wp (m c) (fun '(v, c') => val_ok v /\ data c' = data c /\
      pos c <= pos c' /\ (pos c' <= zlen (data c) \/ pos c' = pos c)) True) as Hm.
  { intros m Hr. eapply wp_mono; [by apply Hr| |done]. intros [v c']. rewrite Z.add_0_r. done. }
  repeat match goal with
  | |- wp ((if ?b then ?m else _) c) _ _ =>
      lazymatch m with context [read_form_go] => fail | _ => idtac end;
      destruct b; [apply Hm; form_arm|]
  end.
  match goal with |- wp ((if ?b then _ else _) c) _ _ => destruct b end.
  2: repeat match goal with
     | |- wp ((if ?b then _ else _) c) _ _ => destruct b; [apply Hm; form_arm|]
     end; apply Hm; form_arm.
  pose proof (reads_uleb c Hc) as Hu. unfold mbind at 1, rd_bind.
  destruct (uleb c) as [[f' c']| | |]; try done. simpl in Hu. destruct Hu as (_ & Hd & Hp & Hb).
  pose proof Hc as (Hbytes & H0 & Hl).
  assert (cur_ok c') as Hc' by (unfold cur_ok; rewrite Hd; split_and!; [done|lia|done]).
  pose proof (zlen_nonneg (data c)).
  eapply wp_mono; [apply IH; [done|done|rewrite Hd; lia|lia]| |done].
  intros [v c''] (?&Hd'&?&?). rewrite Hd in *. split_and!; [done|done|lia|lia].
Qed.

Lemma reads_read_form form u imp : is_i64 imp -> reads 0 val_ok (read_form form u imp).
Proof.
  intros Himp c Hc. unfold read_form. pose proof Hc as (_ & H0 & _).
  eapply wp_mono; [apply wp_read_form_go; [done|done|unfold zlen; lia|lia]| |done].
  intros [v c']. by rewrite Z.add_0_r.
Qed.
#[export] Hint Resolve reads_read_form : rd.

(** * LEB128 and fixed-width round trips *)

(** The standard encoders. *)
Fixpoint uleb_enc (fuel : nat) (v : Z) : list Z :=
  match fuel with
  | O => []
  | S f => if v <? 128 then [v] else (v mod 128 + 128) :: uleb_enc f (v / 128)
  end.

Fixpoint sleb_enc (fuel : nat) (v : Z) : list Z :=
  match fuel with
  | O => []
  | S f => if (-64 <=? v) && (v <? 64) then [v mod 128]
           else (v mod 128 + 128) :: sleb_enc f (v / 128)
  end.

Lemma leb_last b : 0 <= b < 128 -> Z.land b 0x80 = 0 /\ Z.land b 0x7f = b.
Proof.
  intros Hb. pose proof (byte_cases (fun b => (128 <=? b) || (Z.land b 0x80 =? 0) && (Z.land b 0x7f =? b)) b) as H.
  rewrite orb_true_iff, andb_true_iff, Z.leb_le, !Z.eqb_eq in H. unfold is_u8 in H.
  destruct H as [?|?]; [by vm_compute|lia|lia|done].
Qed.

Lemma leb_more b : 0 <= b < 128 -> Z.land (b + 128) 0x80 <> 0 /\ Z.land (b + 128) 0x7f = b.
Proof.
  intros Hb. pose proof (byte_cases (fun b => (128 <=? b) || negb (Z.land (b + 128) 0x80 =? 0) && (Z.land (b + 128) 0x7f =? b)) b) as H.
  rewrite orb_true_iff, andb_true_iff, negb_true_iff, Z.leb_le, Z.eqb_neq, !Z.eqb_eq in H. unfold is_u8 in H.
  destruct H as [?|?]; [by vm_compute|lia|lia|done].
Qed.

Lemma leb_sign b : 0 <= b < 128 -> (Z.land b 0x40 =? 0) = (b <? 64).
Proof.
  intros Hb. pose proof (byte_cases (fun b => (128 <=? b) || Bool.eqb (Z.land b 0x40 =? 0) (b <? 64)) b) as H.
  rewrite orb_true_iff, Z.leb_le, eqb_true_iff in H. unfold is_u8 in H.
  destruct H as [?|?]; [by vm_compute|lia|lia|done].
Qed.

Lemma u8_at pre b rest :
  u8 (MkCur (pre ++ b :: rest) (zlen pre)) = Done (b, MkCur (pre ++ b :: rest) (zlen pre + 1)).
Proof.
  unfold u8. cbn [data pos].
  assert (get (pre ++ b :: rest) (zlen pre) = Some b) as ->; [|done].
  apply get_Some. rewrite zlen_app, zlen_cons. pose proof (zlen_nonneg pre).
  pose proof (zlen_nonneg rest). split; [lia|]. unfold zlen. rewrite Nat2Z.id. by rewrite list_lookup_middle.
Qed.

(** Re-bracket a section so that the byte just read joins the prefix. *)
Lemma snoc_data pre (b : Z) rest : MkCur (pre ++ b :: rest) (zlen pre + 1) = MkCur ((pre ++ [b]) ++ rest) (zlen (pre ++ [b])).
Proof. rewrite <- app_assoc, zlen_app. done. Qed.

Lemma lor_acc_u64 r x s : 0 <= s -> 0 <= r < 2 ^ s -> 0 <= x -> x * 2 ^ s < 2 ^ 64 ->
  Z.lor r (x <<₆₄ s) = r + x * 2 ^ s.
Proof.
  intros Hs Hr Hx Hb. rewrite as_u64_small; [by apply lor_add|].
  unfold is_u64. rewrite Z.shiftl_mul_pow2 by done. nia.
Qed.

Lemma uleb_go_enc n fuel v r s pre rest :
  0 <= s <= 63 -> 0 <= r < 2 ^ s -> 0 <= v -> v * 2 ^ s < 2 ^ 64 ->
  v < 2 ^ (7 * Z.of_nat n) -> (n <= fuel)%nat ->
  let e := uleb_enc n v in (0 < n)%nat ->
  uleb_go fuel r s (MkCur (pre ++ e ++ rest) (zlen pre)) =
    Done (r + v * 2 ^ s, MkCur (pre ++ e ++ rest) (zlen pre + zlen e)).
Proof.
  revert fuel v r s pre. induction n as [|n IH]; intros fuel v r s pre Hs Hr Hv Hvs Hvn Hf e Hn; [lia|].
  destruct fuel as [|fuel]; [lia|]. unfold e. cbn [uleb_enc uleb_go].
  replace (s <? 64) with true by lia. unfold mbind, rd_bind.
  destruct (Z.ltb_spec v 128) as [Hlt|Hge].
  - rewrite <- app_comm_cons. cbn [app]. rewrite u8_at. destruct (leb_last v) as [-> ->]; [lia|].
    cbn. rewrite lor_acc_u64 by lia. done.
  - rewrite <- app_comm_cons. rewrite u8_at. pose proof (Z.mod_pos_bound v 128 ltac:(lia)) as Hm.
    destruct (leb_more (v mod 128)) as [Hc ->]; [lia|].
    replace (Z.land _ _ =? 0) with false by lia.
    pose proof (Z.div_mod v 128 ltac:(lia)) as Hdm.
    assert (0 < 2 ^ s) by (apply Z.pow_pos_nonneg; lia).
    rewrite lor_acc_u64 by nia.
    assert (s <= 56) as Hs'.
    { destruct (Z.le_gt_cases s 56); [done|]. assert (2 ^ 57 <= 2 ^ s) by (apply Z.pow_le_mono_r; lia). nia. }
    replace (70 <? s + 7) with false by lia.
    assert (2 ^ (s + 7) = 2 ^ s * 128) as Hp by (by rewrite Z.pow_add_r by lia).
    assert (0 < n)%nat.
    { destruct n; [|lia]. change (2 ^ (7 * Z.of_nat 1)) with 128 in Hvn. lia. }
    rewrite snoc_data, IH; rewrite ?Hp; [|lia|nia|nia|nia| |lia|done].
    + rewrite !zlen_app, !zlen_cons, <- !app_assoc. cbn [app].
      do 2 f_equal; [|f_equal; change (zlen []) with 0; lia].
      rewrite Hdm at 3. ring.
    + replace (7 * Z.of_nat (S n)) with (7 + 7 * Z.of_nat n) in Hvn by lia.
      rewrite Z.pow_add_r in Hvn by lia. apply Z.div_lt_upper_bound; lia.
Qed.

Lemma as_i64_small x : is_i64 x -> as_i64 x = x.
Proof. unfold is_i64, as_i64, as_signed. intros. rewrite Z.mod_small by (change (64 - 1) with 63; lia). lia. Qed.

Lemma lor_acc_i64 r x s : 0 <= s -> 0 <= r < 2 ^ s -> is_i64 (x * 2 ^ s) ->
  Z.lor r (as_i64 (Z.shiftl x s)) = r + x * 2 ^ s.
Proof.
  intros Hs Hr Hb. rewrite as_i64_small; [by apply lor_add|]. by rewrite Z.shiftl_mul_pow2.
Qed.

(** The last group of a signed value, sign extension included. *)
Lemma sleb_final r v s k : s = 7 * k -> 0 <= s <= 63 -> 0 <= r < 2 ^ s -> is_i64 (v * 2 ^ s) -> -64 <= v < 64 ->
  let r' := Z.lor r (as_i64 (Z.shiftl (v mod 128) s)) in
  (if (s + 7 <? 64) && negb (v mod 128 <? 64) then Z.lor r' (as_i64 (Z.shiftl (-1) (s + 7))) else r') =
  r + v * 2 ^ s.
Proof.
  intros Hk Hs Hr Hi Hv r'. assert (0 < 2 ^ s) by (apply Z.pow_pos_nonneg; lia).
  assert (v mod 128 = if v <? 0 then v + 128 else v) as Hm.
  { destruct (Z.ltb_spec v 0).
    - rewrite <- (Z_mod_plus_full v 1 128), Z.mul_1_l. apply Z.mod_small. lia.
    - apply Z.mod_small. lia. }
  destruct (Z.ltb_spec v 0) as [Hn|Hp].
  - destruct (Z.ltb_spec (s + 7) 64) as [Hlt|Hge].
    + replace (v mod 128 <? 64) with false by lia. cbn [negb andb]. unfold r'. rewrite Hm.
      assert (2 ^ (s + 7) = 2 ^ s * 128) as Hp by (by rewrite Z.pow_add_r by lia).
      assert (2 ^ (s + 7) <= 2 ^ 63) by (apply Z.pow_le_mono_r; lia).
      rewrite (lor_acc_i64 r (v + 128) s); [|lia|lia|unfold is_i64; nia].
      rewrite lor_acc_i64; [rewrite Hp; ring|lia|nia|unfold is_i64; nia].
    + cbn [andb]. unfold r', is_i64 in *. assert (s = 63) as -> by lia. assert (v = -1) as -> by lia.
      change (-1 mod 128) with 127. change (as_i64 (Z.shiftl 127 63)) with (Z.shiftl (-1) 63). by apply lor_add.
  - replace (v mod 128 <? 64) with true by lia. rewrite andb_false_r. unfold r'.
    rewrite Hm. apply lor_acc_i64; [lia|lia|exact Hi].
Qed.

Lemma sleb_go_enc n fuel v r s k pre rest :
  s = 7 * k -> 0 <= s <= 63 -> 0 <= r < 2 ^ s -> is_i64 (v * 2 ^ s) ->
  - 2 ^ (7 * Z.of_nat n - 1) <= v < 2 ^ (7 * Z.of_nat n - 1) -> (n <= fuel)%nat ->
  let e := sleb_enc n v in (0 < n)%nat ->
  sleb_go fuel r s (MkCur (pre ++ e ++ rest) (zlen pre)) =
    Done (r + v * 2 ^ s, MkCur (pre ++ e ++ rest) (zlen pre + zlen e)).
Proof.
  revert fuel v r s k pre. induction n as [|n IH]; intros fuel v r s k pre Hk Hs Hr Hvs Hvn Hf e Hn; [lia|].
  destruct fuel as [|fuel]; [lia|]. unfold e. cbn [sleb_enc sleb_go].
  pose proof (Z.mod_pos_bound v 128 ltac:(lia)) as Hm.
  replace (s <? 64) with true by lia. unfold mbind, rd_bind.
  destruct ((-64 <=? v) && (v <? 64)) eqn:Ev.
  - rewrite <- app_comm_cons. cbn [app]. rewrite u8_at. destruct (leb_last (v mod 128)) as [-> ->]; [lia|].
    cbv iota. unfold mret, rd_ret. rewrite leb_sign by lia. change (0 =? 0) with true. cbv iota.
    rewrite (sleb_final r v s k) by (done || lia). done.
  - rewrite <- app_comm_cons. rewrite u8_at.
    destruct (leb_more (v mod 128)) as [Hc ->]; [lia|].
    replace (Z.land _ _ =? 0) with false by lia.
    pose proof (Z.div_mod v 128 ltac:(lia)) as Hdm.
    assert (0 < 2 ^ s) by (apply Z.pow_pos_nonneg; lia).
    assert (s <= 56) as Hs'.
    { destruct (Z.le_gt_cases s 56); [done|]. assert (2 ^ 57 <= 2 ^ s) by (apply Z.pow_le_mono_r; lia).
      unfold is_i64 in Hvs. nia. }
    assert (2 ^ (s + 7) = 2 ^ s * 128) as Hp by (by rewrite Z.pow_add_r by lia).
    assert (2 ^ (s + 7) <= 2 ^ 63) by (apply Z.pow_le_mono_r; lia).
    rewrite lor_acc_i64 by (unfold is_i64; nia).
    replace (70 <? s + 7) with false by lia.
    assert (0 < n)%nat.
    { destruct n; [|lia]. change (2 ^ (7 * Z.of_nat 1 - 1)) with 64 in Hvn. lia. }
    assert (is_i64 (v / 128 * (2 ^ s * 128))) as Hi.
    { unfold is_i64 in *. assert (2 ^ 63 = 2 ^ s * (128 * 2 ^ (56 - s))) as HQ.
      { change 128 with (2 ^ 7). rewrite <- !Z.pow_add_r by lia. f_equal. lia. }
      rewrite HQ in Hvs |- *. generalize dependent (2 ^ (56 - s)). intros Q HQ Hvs.
      assert (- (128 * Q) <= v) by (apply (Z.mul_le_mono_pos_l _ _ (2 ^ s)); lia).
      assert (v < 128 * Q) by (apply (Z.mul_lt_mono_pos_l (2 ^ s)); lia).
      assert (- Q <= v / 128 < Q) by lia. nia. }
    rewrite snoc_data, (IH _ _ _ _ (k + 1)); rewrite ?Hp; [|lia|lia|nia|exact Hi| |lia|done].
    + rewrite !zlen_app, !zlen_cons, <- !app_assoc. cbn [app].
      do 2 f_equal; [|f_equal; change (zlen []) with 0; lia].
      rewrite Hdm at 3. ring.
    + replace (7 * Z.of_nat (S n) - 1) with (7 + (7 * Z.of_nat n - 1)) in Hvn by lia.
      rewrite Z.pow_add_r in Hvn by lia. lia.
Qed.

(** LEB128 round trip.  Reading at the start of an encoded [u64]
    (unsigned) or [i64] (signed) anywhere in a section returns the value and
    leaves the cursor just past the encoding, ten bytes being enough. *)
Theorem leb128_roundtrip (pre rest : list Z) (v : Z) :
  (is_u64 v ->
     uleb (MkCur (pre ++ uleb_enc 10 v ++ rest) (zlen pre)) =
       Done (v, MkCur (pre ++ uleb_enc 10 v ++ rest) (zlen pre + zlen (uleb_enc 10 v)))) /\
  (is_i64 v ->
     sleb (MkCur (pre ++ sleb_enc 10 v ++ rest) (zlen pre)) =
       Done (v, MkCur (pre ++ sleb_enc 10 v ++ rest) (zlen pre + zlen (sleb_enc 10 v)))).
Proof.
  split; intros Hv.
  - unfold uleb. unfold is_u64 in Hv.
    rewrite (uleb_go_enc 10 11 v 0 0 pre rest) by (simpl; lia). do 2 f_equal. lia.
  - unfold sleb. unfold is_i64 in Hv.
    rewrite (sleb_go_enc 10 11 v 0 0 0 pre rest) by (unfold is_i64; simpl; lia). do 2 f_equal. lia.
Qed.

Lemma leb128_roundtrip_witness :
  is_u64 624485 /\ is_i64 (-123456) /\
  uleb (MkCur (uleb_enc 10 624485) 0) = Done (624485, MkCur [0xe5; 0x8e; 0x26] 3) /\
  sleb (MkCur (sleb_enc 10 (-123456)) 0) = Done (-123456, MkCur [0xc0; 0xbb; 0x78] 3).
Proof.
  assert (is_u64 624485) as H1 by (unfold is_u64; lia).
  assert (is_i64 (-123456)) as H2 by (unfold is_i64; lia).
  split_and!; [done|done| |].
  - exact (proj1 (leb128_roundtrip [] [] 624485) H1).
  - exact (proj2 (leb128_roundtrip [] [] (-123456)) H2).
Defined.

(** Attribute values.  On every byte string, every form number and every
    unit shape, [read_form] returns a value or [None]: it never indexes out of
    the section and the chain of indirect forms ends.  A value it returns fits
    its Rust type, and the cursor only moves forward and stays in the section. *)
Theorem read_form_total (form : Z) (u : UnitShape) (imp : Z) (c : Cur) :
  cur_ok c -> is_i64 imp -> pos c <= zlen (data c) ->
  wp (read_form form u imp c)
     (fun '(v, c') => val_ok v /\ data c' = data c /\ pos c <= pos c' <= zlen (data c)) True.
Proof.
  intros Hc Hi Hp. eapply wp_mono; [apply (reads_read_form form u imp Hi c Hc)| |done].
  intros [v c'] (?&?&?&?). split_and!; [done|done|lia|lia].
Qed.

Lemma read_form_total_witness :
  let c := MkCur [0x16; 0x16; 0x0f; 0xe5; 0x8e; 0x26] 0 in
  cur_ok c /\ read_form 0x16 (MkShape 0 5 false 8) 0 c = Done (VUdata 624485, MkCur (data c) 6) /\
  wp (read_form 0x16 (MkShape 0 5 false 8) 0 c)
     (fun '(v, c') => val_ok v /\ data c' = data c /\ pos c <= pos c' <= zlen (data c)) True.
Proof.
  assert (cur_ok (MkCur [0x16; 0x16; 0x0f; 0xe5; 0x8e; 0x26] 0)) as H.
  { split_and!; [|cbn; lia|vm_compute; reflexivity]. repeat constructor; unfold is_u8; lia. }
  split_and!; [exact H|vm_compute; reflexivity|].
  apply read_form_total; [exact H|unfold is_i64; lia|cbn; unfold zlen; cbn; lia].
Defined.
