(* ===== verification/DwarfCodec.v ===== *)
(** Loops over a cursor, and readers paired with encodings: the vocabulary of
    the parsers of the symbolizer (dwarf/abbrev.rs, mod.rs, line.rs, unit.rs).

    [reads_loop] is the totality principle of a [while] loop that consumes a
    byte per round; [delivers m e a] says that [m] reads the encoding [e] as
    [a] anywhere in a section, and composes along [bind] and loops. *)
From S2P Require Import Prelude DwarfReader.
Import Cursor.

(** * Loops over a cursor *)

Section RdLoop.
Context {S R : Type} (body : S -> rd (ctl S R)).

Definition rd_step (s : S * Cur) : outcome (ctl (S * Cur) (R * Cur)) :=
  '(x, c) ← body (fst s) (snd s);
  Done (match x with Next s' => Next (s', c) | Stop r => Stop (r, c) end).

(** A loop that reads at least a byte per round. *)
Definition rd_loop (s : S) : rd R := fun c => loop (Datatypes.S (Datatypes.S (length (data c)))) rd_step (s, c).

Lemma reads_loop (I : S -> Prop) (Q : R -> Prop) s :
  (forall s, I s -> reads 1 (fun x => match x with Next s' => I s' | Stop r => Q r end) (body s)) ->
  I s -> reads 1 Q (rd_loop s).
Proof using.
  intros Hb HI c Hc. unfold rd_loop.
  apply (wp_loop (fun sc => I (fst sc) /\ cur_ok (snd sc) /\ data (snd sc) = data c /\ pos c <= pos (snd sc) /\
           (snd sc = c \/ pos c + 1 <= pos (snd sc) <= zlen (data c)))
    (fun sc => if decide (pos (snd sc) <= zlen (data c)) then zlen (data c) - pos (snd sc) else 0)).
  - intros [s' c'] (HI' & Hc' & Hd & Hp & Hr). cbn [fst snd] in *. unfold rd_step. cbn [fst snd].
    apply wp_bind. specialize (Hb s' HI' c' Hc'). destruct (body s' c') as [[x c'']| | |]; try done. cbn [wp] in *.
    rewrite Hd in Hb. destruct Hb as (HQ & Hd'' & Hp'' & Hb''). destruct Hc' as (Hb1 & Hb2 & Hb3). rewrite Hd in *.
    destruct x as [s''|r]; [|split_and!; [done|done|lia|left; lia]].
    cbn [fst snd]. split_and!; try done.
    + unfold cur_ok. rewrite Hd''. split_and!; [done|lia|done].
    + lia.
    + right. lia.
    + destruct (decide (pos c'' <= zlen (data c))); lia.
    + destruct (decide (pos c'' <= zlen (data c))), (decide (pos c' <= zlen (data c))); lia.
  - cbn [fst snd]. split_and!; [done|done|done|lia|by left].
  - cbn [fst snd]. destruct Hc as (_ & H0 & _). destruct (decide _); unfold zlen in *; lia.
Qed.
End RdLoop.

(** A loop that a failed read ends: [fin s] is what the code goes on with. *)
Section RdWhile.
Context {S R : Type} (body : S -> rd (ctl S R)) (fin : S -> R).

Definition while_step (s : S * Cur) : outcome (ctl (S * Cur) R) :=
  match body (fst s) (snd s) with
  | Done (Next s', c') => Done (Next (s', c'))
  | Done (Stop r, _) => Done (Stop r)
  | Fail => Done (Stop (fin (fst s)))
  | Panic => Panic
  | Fuel => Fuel
  end.

Definition rd_while (s : S) (c : Cur) : outcome R := loop (Datatypes.S (Datatypes.S (length (data c)))) while_step (s, c).

(** The body stops where it stands, or reads at least a byte. *)
Lemma wp_while_bounded (I : S -> Prop) (Q : R -> Prop) s c :
  (forall s c, I s -> cur_ok c ->
     (exists r, body s c = Done (Stop r, c) /\ Q r) \/
     exists m, body s c = m c /\ reads 1 (fun x => match x with Next s' => I s' | Stop r => Q r end) m) ->
  (forall s, I s -> Q (fin s)) -> I s -> cur_ok c -> wp (rd_while s c) Q False.
Proof using.
  intros Hb Hf HI Hc. unfold rd_while.
  apply (wp_loop (fun sc => I (fst sc) /\ cur_ok (snd sc) /\ data (snd sc) = data c)
                 (fun sc => Z.max 0 (zlen (data c) + 1 - pos (snd sc)))); [|by split_and!|].
  - intros [s' c'] (HI' & Hc' & Hd). cbn [fst snd] in *. unfold while_step. cbn [fst snd].
    destruct (Hb s' c' HI' Hc') as [(r & -> & HQ)|(m & -> & Hm)]; [done|].
    specialize (Hm c' Hc'). destruct (m c') as [[x c'']| | |]; try done; [|by apply Hf].
    cbn [wp] in Hm. rewrite Hd in *. destruct Hm as (HQ & Hd'' & Hp & Hr). destruct x as [s''|r]; [|done].
    cbn [wp fst snd]. destruct Hc' as (Hb1 & Hb2 & Hb3). split_and!; [done| |done|lia|lia].
    unfold cur_ok. rewrite Hd'', <- Hd. split_and!; [done|lia|done].
  - cbn [snd]. destruct Hc as (_ & Hp & _). unfold zlen. lia.
Qed.

Lemma wp_while (I : S -> Prop) (Q : R -> Prop) s c :
  (forall s, I s -> reads 1 (fun x => match x with Next s' => I s' | Stop r => Q r end) (body s)) ->
  (forall s, I s -> Q (fin s)) -> I s -> cur_ok c -> wp (rd_while s c) Q False.
Proof using. intros Hb. apply wp_while_bounded. intros s' c' HI _. right. eauto. Qed.
End RdWhile.

(** [let Some(x) = m else { .. }]: a failed read is a value. *)
Definition rd_try {A} (m : rd A) (c : Cur) : outcome (option (A * Cur)) :=
  match m c with Done x => Done (Some x) | Fail => Done None | Panic => Panic | Fuel => Fuel end.

Lemma wp_try {A} (m : rd A) k Q c (P : option (A * Cur) -> Prop) (F : Prop) : reads k Q m -> cur_ok c -> 0 <= k -> P None ->
  (forall a c', Q a -> cur_ok c' -> data c' = data c -> pos c + k <= pos c' ->
     (pos c' <= zlen (data c) \/ pos c' = pos c) -> P (Some (a, c'))) ->
  wp (rd_try m c) P F.
Proof.
  intros Hm Hc Hk HN HS. pose proof (reads_step m k Q c (fun r => P (Some r)) True Hm Hc Hk I HS) as H.
  unfold rd_try. by destruct (m c).
Qed.

(** The position of the cursor. *)
Definition rd_pos : rd Z := fun c => Done (pos c, c).

Lemma rd_pos_bind {A} (f : Z -> rd A) c : (rd_pos ≫= f) c = f (pos c) c.
Proof. done. Qed.

Lemma reads_i8 : reads 1 (fun v => -128 <= v < 128) i8.
Proof.
  unfold i8. apply (reads_weaken (1 + 0)); [|lia]. eapply reads_bind; [apply reads_u8| |lia|lia]. intros b _.
  apply reads_ret. unfold as_i8. pose proof (as_signed_range 8 b ltac:(lia)). cbn in *. lia.
Qed.

Lemma reads_pos : reads 0 (fun p => 0 <= p) rd_pos.
Proof. intros c Hc. pose proof Hc as (_ & Hp & _). cbn. split_and!; [done|done|lia|by right]. Qed.

(** * Readers and encodings *)

(** At offset [n] of any section that fits the address space, where [e]
    stands, [m] reads [a] and ends just past [e]. *)
Definition delivers_at {A} (n : Z) (m : rd A) (e : list Z) (a : A) : Prop := forall pre rest,
  zlen pre = n -> zlen (pre ++ e ++ rest) < 2 ^ 63 ->
  m (MkCur (pre ++ e ++ rest) (zlen pre)) = Done (a, MkCur (pre ++ e ++ rest) (zlen pre + zlen e)).

(** At any offset. *)
Definition delivers {A} (m : rd A) (e : list Z) (a : A) : Prop := forall n, delivers_at n m e a.

Lemma delivers_at_pos n : delivers_at n rd_pos [] n.
Proof. intros pre rest <- _. unfold rd_pos. cbn [pos]. rewrite zlen_nil. do 3 f_equal. lia. Qed.

Lemma delivers_ret {A} (a : A) : delivers (mret a) [] a.
Proof. intros n pre rest _ _. unfold mret, rd_ret. rewrite zlen_nil. do 3 f_equal. lia. Qed.

Lemma delivers_at_bind {A B} n (m : rd A) (f : A -> rd B) e1 e2 a b :
  delivers_at n m e1 a -> delivers_at (n + zlen e1) (f a) e2 b -> delivers_at n (m ≫= f) (e1 ++ e2) b.
Proof.
  intros Hm Hf pre rest Hn Hl. unfold mbind, rd_bind. rewrite <- !app_assoc in *. rewrite Hm by done.
  specialize (Hf (pre ++ e1) rest). rewrite <- !app_assoc, (zlen_app pre e1) in Hf. rewrite Hf, (zlen_app e1) by (done || lia).
  do 3 f_equal. lia.
Qed.

Lemma delivers_bind {A B} (m : rd A) (f : A -> rd B) e1 e2 a b :
  delivers m e1 a -> delivers (f a) e2 b -> delivers (m ≫= f) (e1 ++ e2) b.
Proof. intros Hm Hf n. eapply delivers_at_bind; [apply Hm|apply Hf]. Qed.

(** A step that does not look at its offset, in a block that does. *)
Lemma delivers_bind_at {A B} n (m : rd A) (f : A -> rd B) e1 e2 a b :
  delivers m e1 a -> delivers_at (n + zlen e1) (f a) e2 b -> delivers_at n (m ≫= f) (e1 ++ e2) b.
Proof. intros Hm. apply delivers_at_bind, Hm. Qed.

Lemma delivers_pos_bind {B} n (f : Z -> rd B) e b : delivers_at n (f n) e b -> delivers_at n (rd_pos ≫= f) e b.
Proof. intros Hf pre rest <- Hl. rewrite rd_pos_bind. by apply Hf. Qed.

Lemma delivers_ret_at {A B} n (a : A) (f : A -> rd B) e b : delivers_at n (f a) e b -> delivers_at n (mret a ≫= f) e b.
Proof. done. Qed.

Lemma delivers_mret_bind {A B} (a : A) (f : A -> rd B) e b : delivers (f a) e b -> delivers (mret a ≫= f) e b.
Proof. done. Qed.

Lemma delivers_at_ret {A} n (a b : A) : a = b -> delivers_at n (mret a) [] b.
Proof. intros ->. apply delivers_ret. Qed.

(** The last reader of a block: nothing is left to encode. *)
Lemma delivers_ret_bind {A B} (m : rd A) (f : A -> B) e a : delivers m e a -> delivers (x ← m; mret (f x)) e (f a).
Proof. intros Hm. rewrite <- (app_nil_r e). eapply delivers_bind; [done|apply delivers_ret]. Qed.

Lemma delivers_u8 b : delivers u8 [b] b.
Proof. intros n pre rest _ _. apply u8_at. Qed.

Lemma delivers_bytes e : delivers (bytes (zlen e)) e e.
Proof.
  intros n pre rest _ Hl. unfold bytes. cbn [data pos]. rewrite slice_mid. rewrite !zlen_app in Hl.
  pose proof (zlen_nonneg rest). by replace (2 ^ 64 <=? zlen pre + zlen e) with false by lia.
Qed.

Lemma delivers_skip e n : n = zlen e -> delivers (skip n) e tt.
Proof.
  intros -> k pre rest _ Hl. unfold skip. cbn [data pos]. rewrite !zlen_app in *.
  pose proof (zlen_nonneg rest). pose proof (zlen_nonneg pre). pose proof (zlen_nonneg e).
  replace (2 ^ 64 <=? zlen pre + zlen e) with false by lia.
  by replace (_ <? zlen pre + zlen e) with false by lia.
Qed.

Lemma delivers_le (n : nat) v : 0 <= v < 2 ^ (8 * Z.of_nat n) ->
  delivers (b ← bytes (Z.of_nat n); mret (le_val b)) (le_bytes n v) v.
Proof.
  intros Hv. assert (le_val (le_bytes n v) = v) as E by (rewrite le_val_le_bytes by lia; apply Z.mod_small; lia).
  rewrite <- E at 2. replace (Z.of_nat n) with (zlen (le_bytes n v)) by (unfold zlen; by rewrite length_le_bytes).
  apply (delivers_ret_bind _ le_val), delivers_bytes.
Qed.

Lemma delivers_u16 v : is_u16 v -> delivers u16 (le_bytes 2 v) v.
Proof. apply (delivers_le 2). Qed.
Lemma delivers_u32 v : is_u32 v -> delivers u32 (le_bytes 4 v) v.
Proof. apply (delivers_le 4). Qed.
Lemma delivers_u64 v : is_u64 v -> delivers u64 (le_bytes 8 v) v.
Proof. apply (delivers_le 8). Qed.

Lemma delivers_uleb v : is_u64 v -> delivers uleb (uleb_enc 10 v) v.
Proof.
  intros Hv n pre rest _ _. unfold uleb, is_u64 in *. rewrite (uleb_go_enc 10 11 v 0 0) by (simpl; lia). do 2 f_equal. lia.
Qed.

Lemma delivers_sleb v : is_i64 v -> delivers sleb (sleb_enc 10 v) v.
Proof.
  intros Hv n pre rest _ _. unfold sleb, is_i64 in *.
  rewrite (sleb_go_enc 10 11 v 0 0 0) by (unfold is_i64; simpl; lia). do 2 f_equal. lia.
Qed.

Lemma position_zero s rest : 0 ∉ s -> position (fun b => b =? 0) (s ++ 0 :: rest) = Some (zlen s).
Proof.
  induction s as [|x s IH]; intros Hs; [done|]. rewrite not_elem_of_cons in Hs. cbn [app position].
  rewrite IH by tauto. replace (x =? 0) with false by lia. rewrite zlen_cons. cbn. f_equal. lia.
Qed.

Lemma delivers_cstr s : 0 ∉ s -> delivers cstr (s ++ [0]) s.
Proof.
  intros Hs n pre rest _ Hl. unfold cstr. cbn [data pos]. rewrite <- app_assoc. cbn [app].
  assert (slice_from (pre ++ s ++ 0 :: rest) (zlen pre) = Some (s ++ 0 :: rest)) as ->.
  { apply slice_from_Some. rewrite zlen_app. pose proof (zlen_nonneg pre). pose proof (zlen_nonneg (s ++ 0 :: rest)).
    split; [lia|]. unfold zlen. by rewrite Nat2Z.id, drop_app_length. }
  rewrite position_zero by done. rewrite zlen_app. unfold zlen at 1. by rewrite Nat2Z.id, take_app_length.
Qed.

Lemma uleb_enc_pos v : 1 <= zlen (uleb_enc 10 v).
Proof. cbn [uleb_enc]. destruct (v <? 128); rewrite zlen_cons; pose proof (zlen_nonneg (uleb_enc 9 (v / 128))); [done|]. cbn [uleb_enc] in *. lia. Qed.

(** A loop of readers: one encoding per round. *)
Inductive runs {S R} (body : S -> rd (ctl S R)) : S -> list Z -> R -> Prop :=
  | runs_stop s e r : delivers (body s) e (Stop r) -> runs body s e r
  | runs_next s s' e e' r : delivers (body s) e (Next s') -> 1 <= zlen e -> runs body s' e' r ->
      runs body s (e ++ e') r.

Lemma rd_step_eq {S R} (body : S -> rd (ctl S R)) s c x c' : body s c = Done (x, c') ->
  rd_step body (s, c) = Done (match x with Next s' => Next (s', c') | Stop r => Stop (r, c') end).
Proof. unfold rd_step. cbn [fst snd]. by intros ->. Qed.

Lemma delivers_loop {S R} (body : S -> rd (ctl S R)) s e r : runs body s e r -> delivers (rd_loop body s) e r.
Proof.
  intros Hr n0 pre rest _ Hl. clear n0. unfold rd_loop. cbn [data].
  assert (exists n, (length e <= n)%nat /\ Datatypes.S (Datatypes.S (length (pre ++ e ++ rest))) = Datatypes.S n) as (n & Hn & ->).
  { eexists. split; [|done]. rewrite !length_app. lia. }
  revert n pre Hn Hl. induction Hr as [s e r Hb|s s' e e' r Hb He Hr IH]; intros n pre Hn Hl;
    cbn [loop].
  - by rewrite (rd_step_eq _ _ _ _ _ (Hb _ pre rest eq_refl Hl)).
  - rewrite <- !app_assoc in *. rewrite (rd_step_eq _ _ _ _ _ (Hb _ pre (e' ++ rest) eq_refl Hl)). cbn [mbind outcome_bind].
    rewrite length_app in Hn. unfold zlen in He. destruct n as [|n]; [lia|].
    specialize (IH n (pre ++ e)). rewrite <- !app_assoc, (zlen_app pre e) in IH. rewrite IH by (done || lia).
    rewrite (zlen_app e). do 3 f_equal. lia.
Qed.

Create HintDb codec.
#[export] Hint Resolve delivers_ret delivers_u8 delivers_u16 delivers_u32 delivers_u64 delivers_uleb delivers_sleb delivers_cstr delivers_bytes : codec.
