(* ===== verification/DwarfTables.v ===== *)
(** dwarf/abbrev.rs and dwarf/elf.rs: abbreviation tables, the ELF section
    table and the symbol table.

    A section is its list of bytes.  An [Err] of the ELF reader is [Fail]; its
    message is not modelled. *)
From S2P Require Import Prelude Text SortScan DwarfReader DwarfCodec.
Import Cursor.

(** * Abbreviations *)

Record Abbrev : Type := MkAbbrev { tag : Z; children : bool; attrs : list (Z * Z * Z) }.

(** [dense]: indexed by code *)
Definition Abbrevs : Type := list (option Abbrev).

Definition attr_step (acc : list (Z * Z * Z)) : rd (ctl (list (Z * Z * Z)) (list (Z * Z * Z))) :=
  at_ ← uleb;
  form ← uleb;
  let at_ := as_u16 at_ in
  let form := as_u16 form in
  implicit ← (if form =? 0x21 then sleb else mret 0);
  mret (if (at_ =? 0) && (form =? 0) then Stop acc else Next (acc ++ [(at_, form, implicit)])).

(** [resize_with(n, || None)] when shorter than [n] *)
Definition grow (l : Abbrevs) (n : Z) : Abbrevs :=
  if zlen l <? n then l ++ replicate (Z.to_nat (n - zlen l)) None else l.

Definition abbrev_step (dense : Abbrevs) : rd (ctl Abbrevs Abbrevs) :=
  code ← uleb;
  if code =? 0 then mret (Stop dense)
  else
    tag ← uleb;
    ch ← u8;
    attrs ← rd_loop attr_step [];
    if Z.shiftl 1 20 <? code then rd_fail
    else
      let a := MkAbbrev (as_u16 tag) (negb (ch =? 0)) attrs in
      mret (Next (<[Z.to_nat code := Some a]> (grow dense (code + 1)))).

Definition parse_abbrevs (sec : list Z) (off : Z) : outcome Abbrevs :=
  '(t, _) ← rd_loop abbrev_step [] (MkCur sec off); Done t.

Definition get_abbrev (t : Abbrevs) (code : Z) : option Abbrev := mjoin (get t code).

(** * ELF sections *)

Record Section_ : Type := MkSection { sname : list Z; sh_type : Z; flags : Z; sdata : list Z; link : Z }.
Definition Elf : Type := list Section_.

Definition SHF_COMPRESSED : Z := 0x800.
Definition SHT_NOBITS : Z := 8.
Definition SHT_SYMTAB : Z := 2.

Definition run_rd {A} (m : rd A) (sec : list Z) (off : Z) : outcome A := '(a, _) ← m (MkCur sec off); Done a.

(** The fields of a section header entry. *)
Definition shdr : rd (Z * Z * Z * Z * Z * Z) :=
  name ← u32; ty ← u32; flags ← u64; _ ← u64; offset ← u64; size ← u64; link ← u32;
  mret (name, ty, flags, offset, size, link).

Fixpoint shdrs (data : list Z) (shoff shentsize : Z) (n : nat) (i : Z) : outcome (list (Z * Z * Z * Z * Z * Z)) :=
  match n with
  | O => Done []
  | S n' =>
      h ← run_rd shdr data (shoff +₆₄ i * shentsize);
      t ← shdrs data shoff shentsize n' (i + 1);
      Done (h :: t)
  end.

Definition section_of (data shstr : list Z) (h : Z * Z * Z * Z * Z * Z) : Section_ :=
  let '(name, ty, flags, offset, size, link) := h in
  MkSection (default [] (cstr_at shstr name)) ty flags
    (if ty =? SHT_NOBITS then [] else default [] (slice data offset (Z.min (offset + size) (2 ^ 64 - 1)))) link.

Definition parse_elf (data : list Z) : outcome Elf :=
  if (zlen data <? 64) || negb (bool_decide (take 4 data = [0x7f; 69; 76; 70])) then Fail else
  c4 ← idx data 4; if negb (c4 =? 2) then Fail else
  c5 ← idx data 5; if negb (c5 =? 1) then Fail else
  shoff ← run_rd u64 data 0x28;
  '(shentsize, shnum, shstrndx) ← run_rd (a ← u16; b ← u16; c ← u16; mret (a, b, c)) data 0x3a;
  if (shentsize <? 64) || (shnum =? 0) then Fail else
  raw ← shdrs data shoff shentsize (Z.to_nat shnum) 0;
  '(_, _, _, stroff, strsize, _) ← of_option (get raw shstrndx);
  shstr ← of_option (slice data stroff (stroff +₆₄ strsize));
  Done (section_of data shstr <$> raw).

Definition section (e : Elf) (name : list Z) : outcome (list Z) :=
  match list_find (fun s => sname s = name) e with
  | Some (_, s) => if negb (Z.land (flags s) SHF_COMPRESSED =? 0) then Fail else Done (sdata s)
  | None => Done []
  end.

Definition symtab (e : Elf) : list Z * list Z :=
  match list_find (fun s => sh_type s = SHT_SYMTAB) e with
  | Some (_, s) => (sdata s, match get e (link s) with Some t => sdata t | None => [] end)
  | None => ([], [])
  end.

(** * Symbols *)

Definition STT_NOTYPE : Z := 0.
Definition STT_FUNC : Z := 2.

Record Sym : Type := MkSym { value : Z; typ : Z; size : Z; sym : list Z }.

(** [chunks_exact(24)] *)
Fixpoint chunks (n : nat) (l : list Z) : list (list Z) :=
  match n with
  | O => []
  | S n' => if zlen l <? 24 then [] else take 24 l :: chunks n' (drop 24 l)
  end.

Definition le_at (l : list Z) (a n : nat) : Z := le_val (take n (drop a l)).

Definition sym_of (strtab ent : list Z) : option Sym :=
  let name := le_at ent 0 4 in
  let info := le_at ent 4 1 in
  let shndx := le_at ent 6 2 in
  let value := le_at ent 8 8 in
  let size := le_at ent 16 8 in
  let typ := Z.land info 0xf in
  if (shndx =? 0) || (value =? 0) || (negb (typ =? STT_FUNC) && negb (typ =? STT_NOTYPE)) then None else
  n ← cstr_at strtab name;
  if bool_decide (n = []) || starts_with (bs ".L") n || starts_with (bs "$") n then None
  else Some (MkSym value typ size n).

(** The sort key [(addr, typ != STT_FUNC, size == 0)]. *)
Definition sym_rank (s : Sym) : Z :=
  (if typ s =? STT_FUNC then 0 else 2) + (if size s =? 0 then 1 else 0).
Definition sym_le (a b : Sym) : bool :=
  (value a <? value b) || ((value a =? value b) && (sym_rank a <=? sym_rank b)).

Definition SymTab : Type := list (Z * list Z).

Definition parse_syms (symtab strtab : list Z) : list Sym := omap (sym_of strtab) (chunks (length symtab) symtab).
Definition sym_table (l : list Sym) : SymTab := (fun s => (value s, sym s)) <$> sort_by sym_le l.
Definition parse_symtab (symtab strtab : list Z) : SymTab := sym_table (parse_syms symtab strtab).

(** [syms[..j].iter().rposition(|s| s.0 != addr).map_or(0, |k| k + 1)] *)
Definition first_at (syms : SymTab) (j : Z) (addr : Z) : Z :=
  match position (fun s : Z * list Z => negb (fst s =? addr)) (reverse (take (Z.to_nat j) syms)) with
  | Some k => j - k
  | None => 0
  end.

Definition before (syms : SymTab) (pc : Z) : outcome (list Z) :=
  let i := partition_point (fun s : Z * list Z => fst s <=? pc) syms in
  if i =? 0 then Fail else
  let j := i - 1 in
  s ← idx syms j;
  r ← idx syms (first_at syms j (fst s));
  Done (snd r).

Definition address_of (syms : SymTab) (name : list Z) : option Z :=
  (fun s => fst (snd s)) <$> list_find (fun s : Z * list Z => snd s = name) syms.

(** * Abbreviation tables *)

(** What an attribute list promises to the reader of attribute values. *)
Definition attr_ok (x : Z * Z * Z) : Prop := is_u16 (fst (fst x)) /\ is_u16 (snd (fst x)) /\ is_i64 (snd x).
Definition abbrev_ok (a : Abbrev) : Prop := is_u16 (tag a) /\ Forall attr_ok (attrs a).
Definition abbrevs_ok (t : Abbrevs) : Prop :=
  zlen t <= 2 ^ 20 + 1 /\ Forall (fun e => match e with Some a => abbrev_ok a | None => True end) t.

Lemma reads_attr_step acc : Forall attr_ok acc ->
  reads 1 (fun x => match x with Next l => Forall attr_ok l | Stop l => Forall attr_ok l end) (attr_step acc).
Proof.
  intros Ha. unfold attr_step. apply (reads_weaken (1 + (1 + (0 + 0)))); [|lia].
  eapply reads_bind; [apply reads_uleb| |lia|lia]. intros at_ _.
  eapply reads_bind; [apply reads_uleb| |lia|lia]. intros form _.
  eapply (reads_bind 0 0 is_i64); [| |lia|lia].
  - destruct (_ =? _); [eapply reads_weaken; [apply reads_sleb|lia]|]. apply reads_ret. unfold is_i64. lia.
  - intros imp Hi. apply reads_ret. destruct (_ && _); [done|]. apply Forall_app; split; [done|].
    constructor; [|constructor]. unfold attr_ok. cbn [fst snd]. auto with vock.
Qed.

Lemma grow_length l n : zlen (grow l n) = Z.max (zlen l) n.
Proof. unfold grow. zbool; rewrite ?zlen_app; unfold zlen in *; rewrite ?length_replicate; lia. Qed.

Lemma abbrevs_ok_put t code a : 0 <= code <= 2 ^ 20 -> abbrevs_ok t -> abbrev_ok a ->
  abbrevs_ok (<[Z.to_nat code := Some a]> (grow t (code + 1))).
Proof.
  unfold Abbrevs in *. intros Hc [Hl Ht] Ha. split; [rewrite (zlen_insert (grow t (code + 1))), grow_length; lia|]. apply Forall_insert; [|done].
  unfold grow. destruct (_ <? _); [|done]. apply Forall_app; split; [done|]. by apply Forall_replicate.
Qed.

Lemma reads_abbrev_step t : abbrevs_ok t ->
  reads 1 (fun x => match x with Next l => abbrevs_ok l | Stop l => abbrevs_ok l end) (abbrev_step t).
Proof.
  intros Ht. unfold abbrev_step. apply (reads_weaken (1 + 0)); [|lia].
  eapply reads_bind; [apply reads_uleb| |lia|lia]. intros code Hc.
  destruct (code =? 0); [by apply reads_ret|].
  apply (reads_weaken (1 + (1 + (1 + 0)))); [|lia].
  eapply reads_bind; [apply reads_uleb| |lia|lia]. intros tag _.
  eapply reads_bind; [apply reads_u8| |lia|lia]. intros ch _.
  eapply reads_bind; [apply (reads_loop _ (Forall attr_ok)); [apply reads_attr_step|constructor]| |lia|lia].
  intros l Hl. destruct (Z.ltb_spec (Z.shiftl 1 20) code) as [|Hle]; [apply reads_fail|].
  change (Z.shiftl 1 20) with (2 ^ 20) in Hle.
  apply reads_ret, abbrevs_ok_put; [unfold is_u64 in Hc; lia|done|]. split; [apply as_u16_range|done].
Qed.

(** .debug_abbrev is parsed safely.  On any bytes and offset the
    table is read or refused, never with an out-of-range index or an endless
    loop; the table holds at most 2^20 + 1 entries however large the codes,
    and every attribute it lists fits the types the value reader expects. *)
Lemma wp_parse_abbrevs (sec : list Z) (off : Z) :
  bytes_ok sec -> zlen sec < 2 ^ 63 -> 0 <= off ->
  wp (parse_abbrevs sec off) abbrevs_ok True.
Proof.
  intros Hs Hl Ho. unfold parse_abbrevs. apply wp_bind.
  eapply wp_mono; [apply (reads_loop abbrev_step abbrevs_ok abbrevs_ok []); [apply reads_abbrev_step|by repeat constructor|]| |done].
  - by split_and!.
  - by intros [t c] (Ht & _).
Qed.


(** The standard encoding of a declaration. *)
Definition enc_attr (x : Z * Z * Z) : list Z :=
  uleb_enc 10 (fst (fst x)) ++ uleb_enc 10 (snd (fst x)) ++ (if snd (fst x) =? 0x21 then sleb_enc 10 (snd x) else []).
Definition enc_abbrev (d : Z * Abbrev) : list Z :=
  uleb_enc 10 (fst d) ++ uleb_enc 10 (tag (snd d)) ++ [Z.b2z (children (snd d))] ++
  concat (enc_attr <$> attrs (snd d)) ++ [0; 0].

(** What can be declared: no attribute is the (0, 0) terminator, only
    DW_FORM_implicit_const carries a value. *)
Definition attr_enc_ok (x : Z * Z * Z) : Prop :=
  attr_ok x /\ ~ (fst (fst x) = 0 /\ snd (fst x) = 0) /\ (snd (fst x) <> 0x21 -> snd x = 0).
Definition decl_ok (d : Z * Abbrev) : Prop :=
  0 < fst d <= 2 ^ 20 /\ is_u16 (tag (snd d)) /\ Forall attr_enc_ok (attrs (snd d)).

Lemma u16_u64 x : is_u16 x -> is_u64 x.
Proof. unfold is_u16, is_u64. lia. Qed.

Lemma delivers_attr acc x : attr_enc_ok x -> delivers (attr_step acc) (enc_attr x) (Next (acc ++ [x])).
Proof.
  destruct x as [[at_ form] imp]. intros ((Ha & Hf & Hi) & Hz & Himp). cbn [fst snd] in *.
  unfold attr_step, enc_attr. cbn [fst snd].
  eapply delivers_bind; [by apply delivers_uleb, u16_u64|].
  eapply delivers_bind; [by apply delivers_uleb, u16_u64|]. cbn zeta. rewrite !as_u16_small by done.
  replace (Next (acc ++ [(at_, form, imp)])) with
    (if (at_ =? 0) && (form =? 0) then Stop acc else Next (S:=list (Z*Z*Z)) (acc ++ [(at_, form, imp)])).
  2: { destruct (Z.eqb_spec at_ 0), (Z.eqb_spec form 0); try done. tauto. }
  apply (delivers_ret_bind _ (fun implicit => if (at_ =? 0) && (form =? 0) then Stop acc else Next (acc ++ [(at_, form, implicit)]))).
  destruct (Z.eqb_spec form 0x21) as [|Hn]; [by apply delivers_sleb|]. rewrite Himp by done. apply delivers_ret.
Qed.

Lemma enc_attr_pos x : 1 <= zlen (enc_attr x).
Proof. unfold enc_attr. rewrite zlen_app. pose proof (uleb_enc_pos (fst (fst x))). pose proof (zlen_nonneg (uleb_enc 10 (snd (fst x)) ++ (if snd (fst x) =? 0x21 then sleb_enc 10 (snd x) else []))). lia. Qed.

Lemma runs_attrs l acc : Forall attr_enc_ok l -> runs attr_step acc (concat (enc_attr <$> l) ++ [0; 0]) (acc ++ l).
Proof.
  intros Hl. revert acc. induction Hl as [|x l Hx Hl IH]; intros acc.
  - apply runs_stop. rewrite app_nil_r. cbn [fmap list_fmap concat app]. unfold attr_step.
    eapply (delivers_bind uleb _ [0] [0]); [by apply (delivers_uleb 0)|].
    eapply (delivers_bind uleb _ [0] []); [by apply (delivers_uleb 0)|].
    eapply (delivers_bind _ _ [] []); apply delivers_ret.
  - cbn [fmap list_fmap concat]. rewrite <- app_assoc.
    eapply runs_next; [by apply delivers_attr|apply enc_attr_pos|]. specialize (IH (acc ++ [x])). by rewrite <- app_assoc in IH.
Qed.

Definition put (t : Abbrevs) (d : Z * Abbrev) : Abbrevs := <[Z.to_nat (fst d) := Some (snd d)]> (grow t (fst d + 1)).

Lemma delivers_abbrev t d : decl_ok d -> delivers (abbrev_step t) (enc_abbrev d) (Next (put t d)).
Proof.
  destruct d as [code [tg ch l]]. intros (Hc & Ht & Hl). cbn [fst snd tag attrs] in *. unfold abbrev_step, enc_abbrev. cbn [fst snd tag children attrs].
  eapply delivers_bind; [apply delivers_uleb; unfold is_u64; lia|]. replace (code =? 0) with false by lia.
  eapply delivers_bind; [by apply delivers_uleb, u16_u64|]. eapply delivers_bind; [apply delivers_u8|].
  rewrite <- (app_nil_r (_ ++ [0; 0])). eapply delivers_bind; [by apply delivers_loop, (runs_attrs l [])|].
  change (Z.shiftl 1 20) with (2 ^ 20). replace (2 ^ 20 <? code) with false by lia. cbn [app].
  rewrite as_u16_small by done. replace (negb (Z.b2z ch =? 0)) with ch by (by destruct ch). apply delivers_ret.
Qed.

Lemma runs_abbrevs ds t : Forall decl_ok ds -> runs abbrev_step t (concat (enc_abbrev <$> ds) ++ [0]) (foldl put t ds).
Proof.
  intros Hd. revert t. induction Hd as [|d ds Hd Hds IH]; intros t.
  - apply runs_stop. unfold abbrev_step. eapply (delivers_bind uleb _ [0] []); [by apply (delivers_uleb 0)|apply delivers_ret].
  - cbn [fmap list_fmap concat]. rewrite <- app_assoc. eapply runs_next; [by apply delivers_abbrev| |apply IH].
    unfold enc_abbrev. rewrite zlen_app. pose proof (uleb_enc_pos (fst d)).
    match goal with |- context [zlen ?a + zlen ?b] => pose proof (zlen_nonneg b) end. lia.
Qed.

Lemma get_abbrev_put t d code : 0 <= fst d -> get_abbrev (put t d) code = if decide (fst d = code) then Some (snd d) else get_abbrev t code.
Proof.
  intros Hd. unfold get_abbrev, put, Abbrevs in *. rewrite get_insert by (rewrite grow_length; lia).
  destruct (decide (fst d = code)) as [Hn|Hn]; [done|].
  unfold grow. destruct (Z.ltb_spec (zlen t) (fst d + 1)) as [Hlt|]; [|done].
  destruct (Z.lt_ge_cases code (zlen t)); [by rewrite get_app_l|].
  assert (get t code = None) as -> by (apply get_None; lia).
  destruct (get (t ++ _) code) as [x|] eqn:E; [|done].
  replace code with (zlen t + (code - zlen t)) in E by lia. rewrite get_app_r in E by lia.
  apply get_elem_of, elem_of_replicate in E as [-> _]. done.
Qed.

(** Abbreviation tables.  A list of declarations in the standard
    encoding, anywhere in .debug_abbrev, is read into a table in which every
    code yields its last declaration and undeclared codes yield nothing. *)
Theorem abbrevs_roundtrip (pre rest : list Z) (ds : list (Z * Abbrev)) :
  Forall decl_ok ds -> zlen (pre ++ (concat (enc_abbrev <$> ds) ++ [0]) ++ rest) < 2 ^ 63 ->
  exists t, parse_abbrevs (pre ++ (concat (enc_abbrev <$> ds) ++ [0]) ++ rest) (zlen pre) = Done t /\
    forall code, get_abbrev t code = snd <$> last (filter (fun d => fst d = code) ds).
Proof.
  intros Hd Hl. exists (foldl put [] ds). unfold parse_abbrevs.
  rewrite (delivers_loop _ _ _ _ (runs_abbrevs ds [] Hd) _ pre rest eq_refl Hl). split; [done|]. clear Hl. intros code.
  induction ds as [|d ds IH] using rev_ind; [unfold get_abbrev, get; by destruct (_ && _)|].
  apply Forall_app in Hd as [Hd [Hd' _]%Forall_cons]. rewrite foldl_snoc, get_abbrev_put by (unfold decl_ok in *; lia).
  rewrite filter_app, IH by done. destruct (decide (fst d = code)) as [E|E].
  - rewrite (filter_cons_True _ d []), filter_nil, last_snoc by done. done.
  - rewrite (filter_cons_False _ d []), filter_nil, app_nil_r by done. done.
Qed.

Lemma abbrevs_roundtrip_witness :
  let ds := [(1, MkAbbrev 0x11 true [(3, 8, 0); (0x1b, 0x21, -5)]); (3, MkAbbrev 0x2e false [])] in
  Forall decl_ok ds /\ exists t, parse_abbrevs ([7] ++ (concat (enc_abbrev <$> ds) ++ [0]) ++ []) 1 = Done t /\
    forall code, get_abbrev t code = snd <$> last (filter (fun d => fst d = code) ds).
Proof.
  assert (Forall decl_ok [(1, MkAbbrev 0x11 true [(3, 8, 0); (0x1b, 0x21, -5)]); (3, MkAbbrev 0x2e false [])]) as H.
  { repeat constructor; unfold is_u16, is_i64; cbn; lia. }
  split; [exact H|]. apply (abbrevs_roundtrip [7] []); [exact H|reflexivity].
Defined.

(** * The symbol table *)

Lemma sym_le_total x y : sym_le x y = true \/ sym_le y x = true.
Proof. unfold sym_le. rewrite !orb_true_iff, !andb_true_iff, !Z.ltb_lt, !Z.eqb_eq, !Z.leb_le. lia. Qed.

Lemma sym_le_trans x y z : sym_le x y = true -> sym_le y z = true -> sym_le x z = true.
Proof. unfold sym_le. rewrite !orb_true_iff, !andb_true_iff, !Z.ltb_lt, !Z.eqb_eq, !Z.leb_le. lia. Qed.

Lemma sym_le_value x y : sym_le x y = true -> value x <= value y.
Proof. unfold sym_le. rewrite !orb_true_iff, !andb_true_iff, !Z.ltb_lt, !Z.eqb_eq, !Z.leb_le. lia. Qed.

Lemma partition_point_fmap {A B} (f : A -> B) p l : partition_point p (f <$> l) = partition_point (fun x => p (f x)) l.
Proof. induction l as [|x l IH]; [done|]. cbn. by rewrite IH. Qed.

(** Where the run of equal addresses that ends at [j] begins. *)
Lemma first_at_split (P : list (Z * list Z)) v : exists A B, P = A ++ B /\ Forall (fun s => fst s = v) B /\
  (A = [] \/ exists A' x, A = A' ++ [x] /\ fst x <> v) /\
  match position (fun s : Z * list Z => negb (fst s =? v)) (reverse P) with Some k => zlen P - k | None => 0 end = zlen A.
Proof.
  induction P as [|x P IH] using rev_ind; [exists [], []; split_and!; [done|constructor|by left|done]|].
  rewrite reverse_snoc. cbn [position]. destruct (Z.eqb_spec (fst x) v) as [E|E]; cbn [negb].
  - destruct IH as (A & B & -> & HB & HA & Hk). exists A, (B ++ [x]). rewrite <- app_assoc. split_and!; [done| |done|].
    + apply Forall_app; split; [done|]. by constructor.
    + destruct (position _ _) as [k|]; cbn; [|done]. rewrite !zlen_app in *. rewrite zlen_cons, zlen_nil in *. lia.
  - exists (P ++ [x]), []. rewrite app_nil_r. split_and!; [done|constructor|right; eauto|lia].
Qed.

Lemma first_at_head (syms : list (Z * list Z)) j s : StronglySorted (fun a b => fst a <= fst b) syms ->
  get syms j = Some s -> get syms (first_at syms j (fst s)) = head (filter (fun t => fst t = fst s) syms).
Proof.
  intros Hs [Hj Hl]%get_Some. unfold first_at.
  destruct (first_at_split (take (Z.to_nat j) syms) (fst s)) as (A & B & HAB & HB & HA & Hk).
  assert (zlen (take (Z.to_nat j) syms) = j) as Hlen by (unfold zlen in *; rewrite length_take; lia).
  rewrite Hlen in Hk. rewrite Hk. clear Hk. rewrite <- (take_drop_middle syms _ _ Hl), HAB, <- app_assoc in Hs |- *.
  replace (zlen A) with (zlen A + 0) by lia. rewrite get_app_r by done.
  assert (filter (fun t : Z * list Z => fst t = fst s) A = []) as HfA.
  { destruct HA as [->|(A' & x & -> & Hx)]; [done|].
    destruct (filter _ (A' ++ [x])) as [|y k] eqn:E; [done|]. exfalso.
    assert (y ∈ filter (fun t : Z * list Z => fst t = fst s) (A' ++ [x])) as [Hy Hyl]%list_elem_of_filter by (rewrite E; by left).
    pose proof Hs as Hs'. rewrite <- app_assoc in Hs'. cbn [app] in Hs'.
    assert (fst x <= fst s).
    { apply (StronglySorted_app_1_elem_of _ _ _ x s Hs); apply elem_of_app; right; by left. }
    apply elem_of_app in Hyl as [Hyl|Hyl%list_elem_of_singleton]; [|congruence].
    assert (fst y <= fst x) by (apply (StronglySorted_app_1_elem_of _ _ _ y x Hs'); [done|by left]). lia. }
  rewrite filter_app, HfA. cbn [app]. destruct B as [|b B]; cbn [app]; rewrite get_cons; cbn.
  - by rewrite decide_True.
  - apply Forall_cons in HB as [Hb _]. by rewrite decide_True.
Qed.

Lemma filter_fmap_head {A B} (f : A -> B) (P : B -> Prop) `{!forall x, Decision (P x)} (l : list A) :
  head (filter P (f <$> l)) = f <$> head (filter (fun x => P (f x)) l).
Proof. induction l as [|x l IH]; [done|]. rewrite fmap_cons, !filter_cons. by destruct (decide (P (f x))). Qed.

(** The symbol an address is attributed to: at the greatest address not above
    it, a function before an untyped label, a sized symbol before a bare
    marker, then the first in table order. *)
Inductive nearest (syms : list Sym) (pc : Z) : Sym -> Prop :=
  | Nearest pre s post :
      syms = pre ++ s :: post -> value s <= pc ->
      (forall t, t ∈ syms -> value t <= pc -> value t <= value s) ->
      Forall (fun t => value t = value s -> sym_rank s < sym_rank t) pre ->
      Forall (fun t => value t = value s -> sym_rank s <= sym_rank t) post ->
      nearest syms pc s.

Lemma get_fmap {A B} (f : A -> B) l i : get (f <$> l) i = f <$> get l i.
Proof. unfold get, zlen. rewrite length_fmap. destruct (_ && _); [|done]. apply list_lookup_fmap. Qed.

Lemma sym_table_sorted l : StronglySorted (fun a b => sym_le a b = true) l ->
  StronglySorted (fun a b : Z * list Z => fst a <= fst b) ((fun s => (value s, sym s)) <$> l).
Proof.
  induction 1 as [|x l Hl IH Hx]; [constructor|]. rewrite fmap_cons. constructor; [done|].
  apply Forall_fmap. eapply Forall_impl; [exact Hx|]. intros y. apply sym_le_value.
Qed.

Lemma nearest_run syms v s : scan_first sym_le (fun t => value t =? v) syms = Some s ->
  exists pre post, syms = pre ++ s :: post /\ value s = v /\
    Forall (fun t => value t = v -> sym_rank s < sym_rank t) pre /\
    Forall (fun t => value t = v -> sym_rank s <= sym_rank t) post.
Proof.
  intros (pre & post & -> & Hs%Z.eqb_eq & Hpre & Hpost)%(scan_first_spec _ sym_le_total sym_le_trans).
  exists pre, post. split_and!; try done; (eapply Forall_impl; [eassumption|]); intros t Ht Hv;
    specialize (Ht ltac:(by apply Z.eqb_eq)); unfold sym_le in Ht; rewrite Hs, Hv, Z.ltb_irrefl, Z.eqb_refl in Ht; cbn in Ht; lia.
Qed.

(** Symbol lookup.  For every symbol table of an ELF file and every
    address, [before] returns the name of the nearest symbol in the sense of
    [nearest], or nothing exactly when all symbols lie above the address; its
    two indexing expressions never leave the table. *)
Theorem before_nearest (st strt : list Z) (pc : Z) :
  match before (parse_symtab st strt) pc with
  | Done n => exists s, nearest (parse_syms st strt) pc s /\ n = sym s
  | Fail => forall s, s ∈ parse_syms st strt -> pc < value s
  | _ => False
  end.
Proof.
  unfold parse_symtab, sym_table. generalize (parse_syms st strt). clear st strt. intros l. set (S := sort_by sym_le l).
  assert (StronglySorted (fun a b => sym_le a b = true) S) as HS by apply (sort_by_sorted _ sym_le_total sym_le_trans).
  destruct (partition_point_last sym_le (fun s => value s <=? pc) S HS) as [Hk Hi].
  { intros x y Hxy%sym_le_value. lia. }
  unfold before. rewrite partition_point_fmap. cbn [fst]. set (i := partition_point _ S) in *.
  pose proof (partition_point_bound (fun s => value s <=? pc) S : 0 <= i <= zlen S).
  destruct (Z.eqb_spec i 0) as [E0|E0].
  { intros s Hs. destruct (Z.lt_ge_cases pc (value s)); [done|]. exfalso.
    assert (s ∈ filter (fun s => (value s <=? pc) = true) S) as Hin.
    { apply list_elem_of_filter. split; [lia|]. unfold S. by rewrite (sort_by_perm sym_le l). }
    rewrite Hk, E0 in Hin. by apply not_elem_of_nil in Hin. }
  destruct (get S (i - 1)) as [s|] eqn:Es; [|apply get_None in Es; lia].
  assert (take (Z.to_nat i) S = take (Z.to_nat (i - 1)) S ++ [s]) as Ht.
  { apply get_Some in Es as [_ Es]. replace (Z.to_nat i) with (Datatypes.S (Z.to_nat (i - 1))) by lia. by apply take_S_r. }
  rewrite Ht in Hk. assert (value s <= pc) as Hs.
  { assert (s ∈ filter (fun s => (value s <=? pc) = true) S) as [Hp _]%list_elem_of_filter; [|lia].
    rewrite Hk. apply elem_of_app. right. by left. }
  assert (forall t, t ∈ l -> value t <= pc -> value t <= value s) as Hmax.
  { intros t Htl Htp. assert (t ∈ filter (fun s => (value s <=? pc) = true) S) as Hin.
    { apply list_elem_of_filter. split; [lia|]. unfold S. by rewrite (sort_by_perm sym_le l). }
    rewrite Hk in Hin. apply elem_of_app in Hin as [Hin|Hin%list_elem_of_singleton]; [|subst; lia].
    apply sym_le_value. rewrite <- (take_drop (Z.to_nat i) S), Ht in HS.
    apply (StronglySorted_app_1_elem_of (fun a b => sym_le a b = true) _ _ t s (StronglySorted_app_1_l _ _ _ HS)); [done|by left]. }
  unfold idx. rewrite get_fmap, Es. cbn [fmap option_fmap option_map or_panic mbind outcome_bind].
  rewrite first_at_head with (s := (value s, sym s)); [|by apply sym_table_sorted|by rewrite get_fmap, Es].
  rewrite filter_fmap_head. cbn [fst].
  rewrite (list_filter_iff _ (fun t => (value t =? value s) = true)) by (intros t; by rewrite Z.eqb_eq).
  unfold S. rewrite (sorted_first_scan _ sym_le_total sym_le_trans).
  destruct (scan_first sym_le (fun t => value t =? value s) l) as [r|] eqn:Er; cbn.
  - destruct (nearest_run l (value s) r Er) as (pre & post & Hl & Hv & Hpre & Hpost).
    exists r. split; [|done]. econstructor; [done|lia|intros t; rewrite Hv; auto|by rewrite Hv|by rewrite Hv].
  - rewrite <- (sorted_first_scan _ sym_le_total sym_le_trans) in Er. fold S in Er.
    assert (s ∈ filter (fun t => (value t =? value s) = true) S) as Hin.
    { apply list_elem_of_filter. split; [lia|]. apply get_elem_of in Es. done. }
    destruct (filter (fun t => (value t =? value s) = true) S); [by apply not_elem_of_nil in Hin|done].
Qed.

(** * The section table *)

Definition section_ok (data : list Z) (s : Section_) : Prop :=
  bytes_ok (sname s) /\ is_u32 (sh_type s) /\ is_u64 (flags s) /\ is_u32 (link s) /\
  (sdata s = [] \/ exists a b, slice data a b = Some (sdata s)).

Definition shdr_ok (h : Z * Z * Z * Z * Z * Z) : Prop :=
  let '(name, ty, flags, offset, size, link) := h in
  is_u32 name /\ is_u32 ty /\ is_u64 flags /\ is_u64 offset /\ is_u64 size /\ is_u32 link.

Lemma wp_run_rd {A} (m : rd A) k Q sec off : reads k Q m -> bytes_ok sec -> zlen sec < 2 ^ 63 -> 0 <= off ->
  wp (run_rd m sec off) Q True.
Proof.
  intros Hm Hb Hl Ho. unfold run_rd. apply wp_bind. eapply wp_mono; [apply Hm; by split_and!| |done]. by intros [a c] [Ha _].
Qed.

Lemma reads_shdr : reads 0 shdr_ok shdr.
Proof.
  unfold shdr. apply (reads_weaken (4 + (4 + (8 + (8 + (8 + (8 + (4 + 0)))))))); [|lia].
  do 7 (eapply reads_bind; [first [apply reads_u32|apply reads_u64]| |lia|lia]; intros ? ?). by apply reads_ret.
Qed.

Lemma wp_shdrs data shoff ent n i : bytes_ok data -> zlen data < 2 ^ 63 -> wp (shdrs data shoff ent n i) (fun l => length l = n /\ Forall shdr_ok l) True.
Proof.
  intros Hb Hl. revert i. induction n as [|n IH]; intros i; [by split|]. cbn [shdrs]. apply wp_bind.
  eapply wp_mono; [apply (wp_run_rd _ 0); [apply reads_shdr|done|done|apply as_u64_range]| |done].
  intros h Hh. apply wp_bind. eapply wp_mono; [apply IH| |done]. intros l [<- Hf]. split; [done|by constructor].
Qed.

Lemma cstr_at_ok sec off s : bytes_ok sec -> cstr_at sec off = Some s -> bytes_ok s.
Proof.
  intros Hb. unfold cstr_at. destruct (slice_from sec off) as [rest|] eqn:E; [|done]. cbn.
  destruct (position _ rest); [|done]. intros [= <-]. apply slice_from_Some in E as [_ ->]. by apply Forall_take, Forall_drop.
Qed.

Lemma section_of_ok data shstr h : bytes_ok shstr -> shdr_ok h -> section_ok data (section_of data shstr h).
Proof.
  destruct h as [[[[[name ty] fl] offset] size] link]. intros Hb (H1 & H2 & H3 & H4 & H5 & H6).
  unfold section_ok, section_of. cbn. split_and!; try done.
  - destruct (cstr_at shstr name) eqn:E; [by eapply cstr_at_ok|constructor].
  - destruct (ty =? SHT_NOBITS); [by left|]. destruct (slice _ _ _) eqn:E; [right; cbn; eauto|by left].
Qed.

(** Every byte string is refused or read into one entry per section header,
    whose contents are empty or a contiguous slice of the file, whatever offsets
    and sizes the headers claim. *)
Lemma wp_parse_elf (data : list Z) : bytes_ok data -> zlen data < 2 ^ 63 -> wp (parse_elf data) (Forall (section_ok data)) True.
Proof.
  intros Hb Hl. unfold parse_elf. destruct (Z.ltb_spec (zlen data) 64) as [|H64]; [done|]. cbn [orb].
  destruct (negb _); [done|].
  destruct (idx_Done data 4) as (c4 & -> & _); [lia|]. cbn [mbind outcome_bind]. destruct (negb _); [done|].
  destruct (idx_Done data 5) as (c5 & -> & _); [lia|]. cbn [mbind outcome_bind]. destruct (negb _); [done|].
  apply wp_bind. eapply wp_mono; [apply (wp_run_rd u64 8 is_u64); [apply reads_u64|done|done|lia]| |done]. intros shoff _.
  apply wp_bind. eapply wp_mono.
  { apply (wp_run_rd _ (2 + (2 + (2 + 0))) (fun '(a, b, c) => is_u16 b)); [|done|done|lia].
    do 3 (eapply reads_bind; [apply reads_u16| |lia|lia]; intros ? ?). by apply reads_ret. }
  2: done.
  intros [[ent num] ndx] _. destruct (_ || _); [done|]. apply wp_bind.
  eapply wp_mono; [by apply wp_shdrs| |done]. intros raw [_ Hraw].
  destruct (get raw ndx) as [[[[[[n0 t0] f0] stroff] strsize] l0]|]; [|done]. cbn [of_option mbind outcome_bind].
  destruct (slice data stroff _) as [shstr|] eqn:Es; [|done]. cbn [of_option mbind outcome_bind wp].
  assert (Forall (section_ok data) (section_of data shstr <$> raw)) as He.
  { apply Forall_fmap. eapply Forall_impl; [exact Hraw|]. intros h. apply section_of_ok. by eapply slice_bytes_ok. }
  exact He.
Qed.

(** Contents of a section the file holds. *)
Definition held (data d : list Z) : Prop := d = [] \/ exists a b, slice data a b = Some d.

Lemma held_ok data d : bytes_ok data -> zlen data < 2 ^ 63 -> held data d -> bytes_ok d /\ zlen d < 2 ^ 63.
Proof.
  intros Hb Hl [->|(a & b & Hd)]; [by split; [constructor|]|]. split; [by eapply slice_bytes_ok|].
  apply slice_length in Hd as Hz. apply slice_Some in Hd as (? & ? & _). lia.
Qed.

Lemma wp_section data e name : Forall (section_ok data) e -> wp (section e name) (held data) True.
Proof.
  intros He. unfold section. destruct (list_find _ e) as [[i s]|] eqn:E; [|by left]. apply list_find_Some in E as (Hi & _ & _).
  destruct (negb _); [done|]. rewrite Forall_forall in He. apply He. by eapply list_elem_of_lookup_2.
Qed.

Lemma symtab_held data e : Forall (section_ok data) e -> held data (fst (symtab e)) /\ held data (snd (symtab e)).
Proof.
  intros He. unfold symtab. rewrite Forall_forall in He.
  destruct (list_find _ e) as [[i s]|] eqn:E; [|by split; left]. apply list_find_Some in E as (Hi & _ & _). cbn [fst snd].
  split; [apply He; by eapply list_elem_of_lookup_2|]. destruct (get e (link s)) as [t|] eqn:Et; [|by left]. apply He. by eapply get_elem_of.
Qed.

(** Any table of pairs, any address: the two indexing expressions are safe. *)
Lemma wp_before (syms : SymTab) pc : wp (before syms pc) (fun _ => True) True.
Proof.
  unfold before. pose proof (partition_point_bound (fun s : Z * list Z => fst s <=? pc) syms).
  destruct (Z.eqb_spec (partition_point (fun s : Z * list Z => fst s <=? pc) syms) 0); [done|].
  destruct (idx_Done syms (partition_point (fun s : Z * list Z => fst s <=? pc) syms - 1)) as (x & -> & _); [lia|].
  cbn [mbind outcome_bind]. set (j := _ - 1) in *. unfold first_at.
  destruct (first_at_split (take (Z.to_nat j) syms) (fst x)) as (A & B & HAB & _ & _ & Hk).
  assert (zlen (take (Z.to_nat j) syms) = j) as Hlen by (unfold zlen in *; rewrite length_take; lia).
  rewrite Hlen in Hk. rewrite Hk. apply (f_equal zlen) in HAB. rewrite Hlen, zlen_app in HAB.
  pose proof (zlen_nonneg A). pose proof (zlen_nonneg B).
  destruct (idx_Done syms (zlen A)) as (y & -> & _); [lia|]. done.
Qed.
