(* ===== verification/DwarfAranges.v ===== *)
(** The address index of dwarf/mod.rs: .debug_aranges and the range search.

    [sort_unstable_by_key] leaves the order of equal keys open, so the
    development works with any function that returns a sorted permutation
    ([UnstableSort]); [usort_insertion] is one. *)
From S2P Require Import Prelude DwarfReader DwarfCodec.
Import Cursor.

Record Range : Type := MkRange { start : Z; end_ : Z; unit_ : Z }.

(** [sort_unstable_by_key] *)
Class UnstableSort : Type :=
  { usort : forall {A}, (A -> Z) -> list A -> list A;
    usort_perm : forall {A} (key : A -> Z) l, usort key l ≡ₚ l;
    usort_sorted : forall {A} (key : A -> Z) l, StronglySorted (fun a b => key a <= key b) (usort key l) }.

Section Aranges.
Context `{UnstableSort}.

(** The tuples of one set, up to [stop]. *)
Definition tuple_step (asz tuple stop unit : Z) (s : list Range * Cur) : outcome (ctl (list Range * Cur) (list Range)) :=
  let '(out, c) := s in
  if stop <? pos c + tuple then Done (Stop out)
  else
    r ← rd_try (a ← addr asz; l ← addr asz; mret (a, l)) c;
    match r with
    | None => Done (Stop out)
    | Some ((a, l), c) =>
        if (a =? 0) && (l =? 0) then Done (Stop out)
        else Done (Next (if negb (l =? 0) then out ++ [MkRange a (a +₆₄ l) unit] else out, c))
    end.

Definition aranges_header : rd (Z * Z * Z * Z) :=
  '(len, f64) ← initial_length;
  p ← rd_pos;
  if 2 ^ 64 <=? p + len then rd_fail else
  version ← u16;
  if negb (version =? 2) then rd_fail else
  unit ← off f64;
  asz ← u8;
  _ ← u8;
  let tuple := 2 * asz in
  if tuple =? 0 then rd_fail else
  q ← rd_pos;
  _ ← skip ((tuple - q mod tuple) mod tuple);
  mret (p + len, unit, asz, tuple).

Definition aranges_step (sec : list Z) (s : list Range * list Z * Z) : outcome (ctl (list Range * list Z * Z) (list Range * list Z)) :=
  let '(out, units, p) := s in
  if zlen sec <=? p then Done (Stop (out, units))
  else
    h ← rd_try aranges_header (MkCur sec p);
    match h with
    | None => Done (Stop (out, units))
    | Some ((end_, unit, asz, tuple), c) =>
        out ← loop (S (S (length sec))) (tuple_step asz tuple (Z.min end_ (zlen sec)) unit) (out, c);
        Done (Next (out, units ++ [unit], end_))
    end.

Definition parse_aranges (sec : list Z) : outcome (list Range * list Z) :=
  '(out, units) ← loop (S (S (length sec))) (aranges_step sec) ([], [], 0);
  Done (usort start out, dedup (sort_u64 units)).

(** The last [n] ranges before index [i], newest first. *)
Fixpoint find_back (ranges : list Range) (pc i : Z) (n : nat) : outcome (option Z) :=
  match n with
  | O => Done None
  | S n' =>
      r ← idx ranges (i - 1);
      if (start r <=? pc) && (pc <? end_ r) then Done (Some (unit_ r)) else find_back ranges pc (i - 1) n'
  end.

Definition find_range (ranges : list Range) (pc : Z) : outcome (option Z) :=
  let i := partition_point (fun r => start r <=? pc) ranges in
  find_back ranges pc i (Z.to_nat (Z.min i 3)).
End Aranges.

(** * An unstable sort *)

Lemma sort_by_key_sorted {A} (key : A -> Z) (l : list A) :
  StronglySorted (fun a b => key a <= key b) (sort_by (fun a b => key a <=? key b) l).
Proof.
  assert (StronglySorted (fun a b => (key a <=? key b) = true) (sort_by (fun a b => key a <=? key b) l)) as H
    by (apply sort_by_sorted; intros; lia).
  induction H as [|x k Hk IH Hx]; constructor; [done|]. eapply Forall_impl; [exact Hx|]. intros y. cbv beta. lia.
Qed.

#[global] Instance usort_insertion : UnstableSort :=
  {| usort := fun A key => sort_by (fun a b => key a <=? key b);
     usort_perm := fun A key => sort_by_perm _;
     usort_sorted := fun A key => sort_by_key_sorted key |}.

(** * Totality *)

Section ArangesTotal.
Context `{UnstableSort}.

Definition range_ok (r : Range) : Prop := is_u64 (start r) /\ is_u64 (end_ r) /\ is_u64 (unit_ r).

Lemma wp_aranges_header c : cur_ok c ->
  wp (aranges_header c) (fun '((e, u, asz, t), c') => pos c + 4 <= e /\ is_u64 u /\ t = 2 * asz /\ 0 < asz /\
    cur_ok c' /\ data c' = data c) True.
Proof.
  intros Hc. unfold aranges_header. apply wp_bind.
  eapply reads_step; [apply reads_initial_length|done|lia|done|]. intros [len f64] c1 Hlen Hc1 Hd1 Hp1 _.
  rewrite rd_pos_bind. cbv beta.
  destruct (2 ^ 64 <=? pos c1 + len); [done|]. apply wp_bind.
  eapply reads_step; [apply reads_u16|done|lia|done|]. intros v c2 _ Hc2 Hd2 _ _.
  destruct (negb (v =? 2)); [done|]. apply wp_bind.
  eapply reads_step; [apply reads_off|done|lia|done|]. intros u c3 Hu Hc3 Hd3 _ _. apply wp_bind.
  eapply reads_step; [apply reads_u8|done|lia|done|]. intros asz c4 Ha Hc4 Hd4 _ _. apply wp_bind.
  eapply reads_step; [apply reads_u8|done|lia|done|]. intros g c5 _ Hc5 Hd5 _ _. cbn zeta.
  destruct (Z.eqb_spec (2 * asz) 0) as [|Hn]; [done|]. rewrite rd_pos_bind. apply wp_bind.
  unfold is_u8 in Ha. pose proof (Z.mod_pos_bound (2 * asz - pos c5 mod (2 * asz)) (2 * asz) ltac:(lia)).
  eapply reads_step; [apply reads_skip; lia|done|lia|done|]. intros _ c6 _ Hc6 Hd6 _ _. cbn.
  unfold is_u64 in Hlen. split_and!; [lia|done|done|lia|done|congruence].
Qed.

Lemma reads_tuple asz : reads 2 (fun '(a, l) => is_u64 a /\ is_u64 l) (a ← addr asz; l ← addr asz; mret (a, l)).
Proof.
  apply (reads_weaken (1 + (1 + 0))); [|lia].
  eapply reads_bind; [apply reads_addr| |lia|lia]. intros a Ha.
  eapply reads_bind; [apply reads_addr| |lia|lia]. intros l Hl. by apply reads_ret.
Qed.

Lemma wp_tuples asz tuple stop unit out c sec : cur_ok c -> data c = sec -> stop <= zlen sec -> is_u64 unit -> 0 < tuple ->
  Forall range_ok out -> wp (loop (S (S (length sec))) (tuple_step asz tuple stop unit) (out, c)) (Forall range_ok) False.
Proof.
  intros Hc Hd Hs Hu Ht Ho.
  apply (wp_loop (fun s => Forall range_ok (fst s) /\ cur_ok (snd s) /\ data (snd s) = sec)
                 (fun s => Z.max 0 (zlen sec - pos (snd s)))); [| |cbn; destruct Hc as (_ & Hp & _); unfold zlen; lia].
  2: by split_and!.
  intros [l c1] (Hl & Hc1 & Hd1). unfold tuple_step. cbn [fst snd] in *.
  destruct (Z.ltb_spec stop (pos c1 + tuple)); [done|]. apply wp_bind.
  apply (wp_try _ 2 _ c1 _ _ (reads_tuple asz)); [done|lia|done|]. intros [a n] c2 [Ha Hn] Hc2 Hd2 Hp2 Hb2.
  destruct ((a =? 0) && (n =? 0)); [done|]. cbn [wp fst snd]. rewrite <- Hd1 in *. split_and!; [|done|congruence|lia|lia].
  destruct (negb (n =? 0)); [|done]. apply Forall_app; split; [done|]. constructor; [|done].
  unfold range_ok. cbn. auto with vock.
Qed.

Lemma find_back_sound rs pc i n : Z.of_nat n <= i <= zlen rs ->
  wp (find_back rs pc i n) (fun u => u = None \/ exists r, r ∈ rs /\ u = Some (unit_ r) /\ start r <= pc < end_ r) False.
Proof using.
  revert i. induction n as [|n IH]; intros i Hi; [by left|]. cbn [find_back].
  destruct (idx_Done rs (i - 1)) as (r & -> & Hr); [lia|]. cbn [mbind outcome_bind].
  destruct (_ && _) eqn:E; [|apply IH; lia]. right. exists r. split_and!; [by eapply get_elem_of|done|lia|lia].
Qed.

Lemma find_range_sound rs pc :
  wp (find_range rs pc) (fun u => u = None \/ exists r, r ∈ rs /\ u = Some (unit_ r) /\ start r <= pc < end_ r) False.
Proof using.
  unfold find_range. pose proof (partition_point_bound (fun r => start r <=? pc) rs). apply find_back_sound. lia.
Qed.

Lemma is_u64_le_zlen l : Forall is_u64 l -> Forall is_u64 (dedup (sort_u64 l)).
Proof using. rewrite !Forall_forall. intros H' x Hx. rewrite elem_of_dedup, sort_u64_perm in Hx. auto. Qed.

(** On any bytes the parse ends, with ranges sorted by start and unit offsets
    sorted without repetition, all in range of their types. *)
Lemma wp_parse_aranges (sec : list Z) : bytes_ok sec -> zlen sec < 2 ^ 63 ->
  wp (parse_aranges sec) (fun '(ranges, units) =>
    Forall range_ok ranges /\ StronglySorted (fun a b => start a <= start b) ranges /\
    Forall is_u64 units /\ StronglySorted Z.lt units) False.
Proof.
  intros Hb Hl. unfold parse_aranges. apply wp_bind.
  eapply wp_mono; [apply (wp_loop (fun s => Forall range_ok (fst (fst s)) /\ Forall is_u64 (snd (fst s)) /\ 0 <= snd s)
                 (fun s => Z.max 0 (zlen sec - snd s)) (fun r => Forall range_ok (fst r) /\ Forall is_u64 (snd r)) False)| |done].
  - intros [[out units] p] (Ho & Hu & Hp). cbn [fst snd] in *. unfold aranges_step.
    destruct (Z.leb_spec (zlen sec) p); [done|].
    assert (cur_ok (MkCur sec p)) as Hc by by split_and!.
    pose proof (wp_aranges_header _ Hc) as Hh. unfold rd_try.
    destruct (aranges_header (MkCur sec p)) as [[[[[e u] asz] t] c]| | |]; try done; cbn [mbind outcome_bind].
    destruct Hh as (He & Hu' & -> & Ha & Hc' & Hd). cbn [data pos] in *. apply wp_bind.
    eapply wp_mono; [apply wp_tuples; [done|done|lia|done|lia|done]| |done].
    intros out' Ho'. cbn [wp fst snd]. split_and!; [done| |lia|lia|lia]. apply Forall_app; split; [done|by constructor].
  - by split_and!.
  - cbn. unfold zlen. lia.
  - intros [out units] [Ho Hu]. cbn [fst snd] in *. cbn [mret outcome_ret wp].
    split_and!; [by rewrite usort_perm|apply usort_sorted|by apply is_u64_le_zlen|apply dedup_sorted, sort_u64_sorted].
Qed.
End ArangesTotal.


(** * Looking up what the compiler emitted *)

(** The sets of a 64-bit little-endian target: a 12-byte header, padding to the
    size of a tuple, (address, length) tuples, and a null tuple. *)
Record ArangeSet : Type := MkSet { set_unit : Z; set_tuples : list (Z * Z) }.

Definition enc_tuple (t : Z * Z) : list Z := le_bytes 8 (fst t) ++ le_bytes 8 (snd t).
Definition enc_set (s : ArangeSet) : list Z :=
  le_bytes 4 (28 + 16 * zlen (set_tuples s)) ++ le_bytes 2 2 ++ le_bytes 4 (set_unit s) ++ [8] ++ [0] ++
  [0; 0; 0; 0] ++ concat (enc_tuple <$> set_tuples s) ++ enc_tuple (0, 0).

Definition tuple_ok (t : Z * Z) : Prop := 0 <= fst t /\ 0 < snd t /\ fst t + snd t < 2 ^ 64.
Definition set_ok (s : ArangeSet) : Prop :=
  is_u32 (set_unit s) /\ 28 + 16 * zlen (set_tuples s) < 0xfffffff0 /\ Forall tuple_ok (set_tuples s).

Definition set_ranges (s : ArangeSet) : list Range :=
  (fun t => MkRange (fst t) (fst t + snd t) (set_unit s)) <$> set_tuples s.

(** No two of the listed ranges share an address. *)
Definition apart (a b : Range) : Prop := end_ a <= start b \/ end_ b <= start a.

Section ArangesLookup.
Context `{UnstableSort}.

Lemma zlen_enc_tuple t : zlen (enc_tuple t) = 16.
Proof using. unfold enc_tuple, zlen. by rewrite length_app, !length_le_bytes. Qed.

Lemma zlen_enc_tuples l : zlen (concat (enc_tuple <$> l)) = 16 * zlen l.
Proof using. induction l as [|t l IH]; [done|]. cbn [fmap list_fmap concat]. rewrite zlen_app, zlen_enc_tuple, zlen_cons, IH. lia. Qed.

Lemma zlen_enc_set s : zlen (enc_set s) = 32 + 16 * zlen (set_tuples s).
Proof using. unfold enc_set. rewrite !zlen_app, zlen_enc_tuples, zlen_enc_tuple. unfold zlen. rewrite !length_le_bytes. cbn. lia. Qed.

Lemma delivers_header n s : set_ok s -> 0 <= n < 2 ^ 63 -> n mod 16 = 0 ->
  delivers_at n aranges_header
    (le_bytes 4 (28 + 16 * zlen (set_tuples s)) ++ le_bytes 2 2 ++ le_bytes 4 (set_unit s) ++ [8] ++ [0] ++ [0; 0; 0; 0] ++ [])
    (n + 32 + 16 * zlen (set_tuples s), set_unit s, 8, 16).
Proof using.
  intros (Hu & Hn & _) Hp Hm. pose proof (zlen_nonneg (set_tuples s)). unfold aranges_header, initial_length.
  set (len := 28 + 16 * zlen (set_tuples s)) in *.
  eapply delivers_bind_at.
  { rewrite <- (app_nil_r (le_bytes 4 len)). eapply (delivers_bind u32); [apply delivers_u32; unfold is_u32; lia|].
    replace (len =? 0xffffffff) with false by lia. replace (0xfffffff0 <=? len) with false by lia. apply delivers_ret. }
  cbv beta iota. apply delivers_pos_bind.
  change (zlen (le_bytes 4 len)) with 4. replace (2 ^ 64 <=? n + 4 + len) with false by lia.
  eapply delivers_bind_at; [apply delivers_u16; unfold is_u16; lia|]. change (negb (2 =? 2)) with false. cbv iota.
  eapply delivers_bind_at; [apply (delivers_u32 _ Hu)|].
  eapply delivers_bind_at; [apply delivers_u8|]. eapply delivers_bind_at; [apply delivers_u8|]. cbv zeta.
  change (2 * 8 =? 0) with false. cbv iota. apply delivers_pos_bind.
  change (2 * 8) with 16. change (zlen (le_bytes 2 2)) with 2. change (zlen (le_bytes 4 (set_unit s))) with 4.
  change (zlen [8]) with 1. change (zlen [0]) with 1.
  eapply delivers_bind_at; [apply delivers_skip|].
  - change (zlen [0; 0; 0; 0]) with 4. dlia.
  - replace (n + 32 + _) with (n + 4 + len) by (unfold len; lia). apply delivers_ret.
Qed.

Lemma delivers_tuple t a n : t = (a, n) -> is_u64 a -> is_u64 n ->
  delivers (a ← addr 8; l ← addr 8; mret (a, l)) (enc_tuple t) (a, n).
Proof using.
  intros -> Ha Hn. unfold enc_tuple. cbn [fst snd]. eapply (delivers_bind (addr 8)); [by apply delivers_u64|].
  by apply (delivers_ret_bind (addr 8) (fun l => (a, l))), delivers_u64.
Qed.

Lemma run_tuples l out pre rest unit fuel stop : Forall tuple_ok l -> (length l < fuel)%nat ->
  zlen pre + 16 * zlen l + 16 <= stop ->
  zlen (pre ++ (concat (enc_tuple <$> l) ++ enc_tuple (0, 0)) ++ rest) < 2 ^ 63 ->
  loop fuel (tuple_step 8 16 stop unit) (out, MkCur (pre ++ (concat (enc_tuple <$> l) ++ enc_tuple (0, 0)) ++ rest) (zlen pre)) =
    Done (out ++ ((fun t => MkRange (fst t) (fst t + snd t) unit) <$> l)).
Proof using.
  intros Hl. revert out pre fuel. induction Hl as [|t l Ht Hl IH]; intros out pre [|fuel] Hf Hs Hz; try (cbn in Hf; lia);
    cbn [loop tuple_step pos fmap list_fmap concat app] in *; unfold rd_try.
  - rewrite (@zlen_nil (Z * Z)) in Hs. replace (stop <? zlen pre + 16) with false by lia.
    rewrite (delivers_tuple (0, 0) 0 0) with (n := zlen pre) by (done || unfold is_u64; cbn; lia). cbn. by rewrite app_nil_r.
  - rewrite zlen_cons in Hs. pose proof (zlen_nonneg l). replace (stop <? zlen pre + 16) with false by lia.
    destruct t as [a n]. destruct Ht as (H1 & H2 & H3). cbn [fst snd] in *. rewrite <- !app_assoc in *.
    rewrite (delivers_tuple (a, n) a n) with (n := zlen pre) by (done || unfold is_u64; lia). cbn [mbind outcome_bind].
    replace ((a =? 0) && (n =? 0)) with false by (symmetry; apply andb_false_iff; lia).
    replace (negb (n =? 0)) with true by lia. cbv iota. rewrite as_u64_small by (unfold is_u64; lia).
    specialize (IH (out ++ [MkRange a (a + n) unit]) (pre ++ enc_tuple (a, n)) fuel).
    rewrite <- !app_assoc, (zlen_app pre (enc_tuple _)), zlen_enc_tuple in IH. rewrite zlen_enc_tuple. cbn in Hf. apply IH; [lia|lia|done].
Qed.

Lemma run_sets sets out units pre fuel : Forall set_ok sets -> (length sets < fuel)%nat -> zlen pre mod 16 = 0 ->
  zlen (pre ++ concat (enc_set <$> sets)) < 2 ^ 63 ->
  loop fuel (aranges_step (pre ++ concat (enc_set <$> sets))) (out, units, zlen pre) =
    Done (out ++ concat (set_ranges <$> sets), units ++ (set_unit <$> sets)).
Proof using.
  intros Hs. revert out units pre fuel. induction Hs as [|s sets Hs Hss IH]; intros out units pre [|fuel] Hf Hm Hz; try (cbn in Hf; lia);
    rewrite loop_S; cbn [fmap list_fmap concat aranges_step] in *.
  - rewrite !app_nil_r, Z.leb_refl. done.
  - pose proof Hs as (Hu & Hn & Ht). pose proof (zlen_enc_set s) as He. pose proof (zlen_nonneg pre).
    pose proof (zlen_nonneg (set_tuples s)). pose proof (zlen_nonneg (concat (enc_set <$> sets))).
    pose proof Hz as Hz'. rewrite !zlen_app in Hz'.
    replace (zlen _ <=? zlen pre) with false by (rewrite !zlen_app; lia).
    set (sec := pre ++ enc_set s ++ concat (enc_set <$> sets)) in *.
    set (hdr := le_bytes 4 (28 + 16 * zlen (set_tuples s)) ++ le_bytes 2 2 ++ le_bytes 4 (set_unit s) ++ [8] ++ [0] ++ [0; 0; 0; 0] ++ []) in *.
    assert (zlen hdr = 16) as Hh by done.
    assert (sec = pre ++ hdr ++ ((concat (enc_tuple <$> set_tuples s) ++ enc_tuple (0, 0)) ++ concat (enc_set <$> sets))) as Esec.
    { unfold sec, enc_set, hdr. by rewrite <- !app_assoc. }
    unfold rd_try. pose proof (delivers_header (zlen pre) s Hs ltac:(lia) Hm pre
      ((concat (enc_tuple <$> set_tuples s) ++ enc_tuple (0, 0)) ++ concat (enc_set <$> sets)) eq_refl) as Hd.
    fold hdr in Hd. rewrite <- Esec in Hd. rewrite Hd by done. cbn [mbind outcome_bind].
    pose proof (run_tuples (set_tuples s) out (pre ++ hdr) (concat (enc_set <$> sets)) (set_unit s)
      (S (S (length sec))) (Z.min (zlen pre + 32 + 16 * zlen (set_tuples s)) (zlen sec)) Ht) as Hr.
    rewrite <- !app_assoc in Hr. rewrite <- !app_assoc in Esec. rewrite <- Esec, (zlen_app pre hdr) in Hr.
    assert (zlen sec = zlen pre + zlen (enc_set s) + zlen (concat (enc_set <$> sets))) as Hsl by (unfold sec; rewrite !zlen_app; lia).
    rewrite Hr; [|unfold zlen in *; lia|rewrite Hsl; lia|done]. cbn [mbind outcome_bind].
    specialize (IH (out ++ set_ranges s) (units ++ [set_unit s]) (pre ++ enc_set s) fuel).
    rewrite <- !app_assoc in IH. fold sec in IH. rewrite (zlen_app pre (enc_set s)), He in IH.
    replace (zlen pre + (32 + 16 * zlen (set_tuples s))) with (zlen pre + 32 + 16 * zlen (set_tuples s)) in IH by lia.
    cbn in Hf. apply IH; [lia|dlia|done].
Qed.

Lemma find_range_complete rs r pc : StronglySorted (fun a b => end_ a <= start b) rs -> Forall (fun r => start r < end_ r) rs ->
  r ∈ rs -> start r <= pc < end_ r -> find_range rs pc = Done (Some (unit_ r)).
Proof using.
  intros Hs Hne (A & B & ->)%list_elem_of_split Hpc. unfold find_range.
  assert (partition_point (fun r => start r <=? pc) (A ++ r :: B) = zlen A + 1) as ->.
  { apply StronglySorted_app in Hs as (HAB & _ & Hr). rewrite partition_point_app.
    - cbn [partition_point]. replace (start r <=? pc) with true by lia. f_equal. inversion Hr as [|? ? _ HB]; subst.
      destruct B as [|b B]; [done|]. apply Forall_cons in HB as [Hb _]. cbn [partition_point]. by replace (start b <=? pc) with false by lia.
    - apply Forall_forall. intros a Ha. pose proof (HAB a r Ha ltac:(by left)).
      rewrite Forall_app, !Forall_forall in Hne. pose proof (proj1 Hne a Ha). cbv beta in *. lia. }
  pose proof (zlen_nonneg A). destruct (Z.to_nat (Z.min (zlen A + 1) 3)) as [|n] eqn:En; [lia|]. cbn [find_back].
  unfold idx. replace (zlen A + 1 - 1) with (zlen A + 0) by lia. rewrite get_app_r, get_cons by lia. cbn.
  by replace ((start r <=? pc) && (pc <? end_ r)) with true by (symmetry; apply andb_true_iff; lia).
Qed.

Lemma apart_perm l k : l ≡ₚ k -> ForallOrdPairs apart l -> ForallOrdPairs apart k.
Proof using.
  intros Hp. induction Hp as [|x l k Hp IH|x y l|l1 l2 l3 H1 IH1 H2 IH2]; intros Hl; [done| | |auto].
  - inversion Hl; subst. constructor; [by rewrite <- Hp|auto].
  - inversion Hl as [|? ? H1 H2]; subst. inversion H2 as [|? ? H3 H4]; subst. apply Forall_cons in H1 as [H0 H1].
    constructor; [constructor; [unfold apart in *; lia|done]|by constructor].
Qed.

Lemma apart_sorted l : StronglySorted (fun a b => start a <= start b) l -> Forall (fun r => start r < end_ r) l ->
  ForallOrdPairs apart l -> StronglySorted (fun a b => end_ a <= start b) l.
Proof using.
  induction 1 as [|x l Hl IH Hx]; intros Hne Ha; [constructor|]. apply Forall_cons in Hne as [Hnx Hne]. inversion Ha as [|? ? H1 H2]; subst.
  constructor; [auto|]. rewrite Forall_forall in *. intros y Hy. specialize (Hx y Hy). specialize (H1 y Hy). specialize (Hne y Hy).
  unfold apart in H1. lia.
Qed.

(** From the compiler's table to the unit of an address.  When
    .debug_aranges is a sequence of sets as a 64-bit compiler emits them and no
    two tuples overlap, the parsed index, sorted in any way, finds for every
    address exactly the unit of the tuple that contains it, and no unit when
    none does; and it knows exactly the units the sets name. *)
Theorem aranges_lookup (sets : list ArangeSet) (pc : Z) :
  Forall set_ok sets -> zlen (concat (enc_set <$> sets)) < 2 ^ 63 ->
  ForallOrdPairs apart (concat (set_ranges <$> sets)) ->
  exists ranges units, parse_aranges (concat (enc_set <$> sets)) = Done (ranges, units) /\
    (forall u, u ∈ units <-> exists s, s ∈ sets /\ u = set_unit s) /\
    match find_range ranges pc with
    | Done (Some u) => exists s t, s ∈ sets /\ t ∈ set_tuples s /\ u = set_unit s /\ fst t <= pc < fst t + snd t
    | Done None => forall s t, s ∈ sets -> t ∈ set_tuples s -> ~ fst t <= pc < fst t + snd t
    | _ => False
    end.
Proof.
  intros Hs Hl Ha. set (l := concat (set_ranges <$> sets)) in *.
  assert (forall r, r ∈ l <-> exists s t, s ∈ sets /\ t ∈ set_tuples s /\ r = MkRange (fst t) (fst t + snd t) (set_unit s)) as Hr.
  { intros r. unfold l. rewrite list_elem_of_In, in_concat. setoid_rewrite <- list_elem_of_In. split.
    - intros (k & (s & -> & Hs')%list_elem_of_fmap & (t & -> & Ht)%list_elem_of_fmap). eauto.
    - intros (s & t & Hs' & Ht & ->). exists (set_ranges s). split; [by apply list_elem_of_fmap_2|].
      unfold set_ranges. apply list_elem_of_fmap. eauto. }
  exists (usort start l), (dedup (sort_u64 (set_unit <$> sets))). split_and!.
  - unfold parse_aranges. pose proof (run_sets sets [] [] [] (S (S (length (concat (enc_set <$> sets))))) Hs) as Hrun.
    cbn [app] in Hrun. change (zlen (@nil Z)) with 0 in Hrun. rewrite Hrun; [done| |done|done].
    clear. enough (length sets <= length (concat (enc_set <$> sets)))%nat by lia.
    induction sets as [|s sets IH]; [done|]. cbn [fmap list_fmap concat length]. rewrite length_app.
    pose proof (zlen_enc_set s). pose proof (zlen_nonneg (set_tuples s)). unfold zlen in *. lia.
  - intros u. rewrite elem_of_dedup, sort_u64_perm. rewrite list_elem_of_fmap. naive_solver.
  - assert (Forall (fun r => start r < end_ r) (usort start l)) as Hne.
    { rewrite usort_perm. apply Forall_forall. intros r (s & t & Hs' & Ht & ->)%Hr. cbn.
      rewrite Forall_forall in Hs. destruct (Hs s Hs') as (_ & _ & Hts). rewrite Forall_forall in Hts. destruct (Hts t Ht) as (?&?&?). lia. }
    assert (StronglySorted (fun a b => end_ a <= start b) (usort start l)) as Hsort.
    { apply apart_sorted; [apply usort_sorted|done|]. eapply apart_perm; [symmetry; apply usort_perm|done]. }
    pose proof (find_range_sound (usort start l) pc) as Hf.
    destruct (find_range (usort start l) pc) as [[u|]| | |] eqn:E; try done.
    + destruct Hf as [|(r & Hin & [= ->] & Hpc)]; [done|]. rewrite usort_perm in Hin.
      apply Hr in Hin as (s & t & Hs' & Ht & ->). exists s, t. cbn in Hpc. split_and!; try done; cbn; lia.
    + intros s t Hs' Ht Hpc. assert (MkRange (fst t) (fst t + snd t) (set_unit s) ∈ usort start l) as Hin by (rewrite usort_perm; apply Hr; eauto).
      by rewrite (find_range_complete _ _ pc Hsort Hne Hin Hpc) in E.
Qed.
End ArangesLookup.

Lemma aranges_lookup_witness :
  let sets := [MkSet 0x40 [(0x2000, 0x10); (0x1000, 0x20)]; MkSet 0x99 [(0x1020, 0x100)]] in
  Forall set_ok sets /\ zlen (concat (enc_set <$> sets)) < 2 ^ 63 /\ ForallOrdPairs apart (concat (set_ranges <$> sets)) /\
  exists ranges units, parse_aranges (concat (enc_set <$> sets)) = Done (ranges, units) /\
    (forall u, u ∈ units <-> exists s, s ∈ sets /\ u = set_unit s) /\
    match find_range ranges 0x1025 with
    | Done (Some u) => exists s t, s ∈ sets /\ t ∈ set_tuples s /\ u = set_unit s /\ fst t <= 0x1025 < fst t + snd t
    | Done None => forall s t, s ∈ sets -> t ∈ set_tuples s -> ~ fst t <= 0x1025 < fst t + snd t
    | _ => False
    end.
Proof.
  match goal with |- let sets := ?s in _ => assert (Forall set_ok s) as H1; [|assert (ForallOrdPairs apart (concat (set_ranges <$> s))) as H2] end.
  - repeat constructor; unfold is_u32; cbn; lia.
  - repeat constructor; unfold apart; cbn; lia.
  - split_and!; [exact H1|reflexivity|exact H2|]. apply aranges_lookup; [exact H1|reflexivity|exact H2].
Defined.
