(* ===== verification/DwarfUnit.v ===== *)
(** dwarf/unit.rs (unit headers and root attributes) and the value resolution of
    dwarf/mod.rs: strings, addresses, the address ranges of an entry.

    The caches of the symbolizer ([OnceCell], [HashMap] of parsed tables) hold
    results of functions of the sections and are not state here; the one cache
    the code looks into without filling it, the function table of a unit, is
    the state of DwarfSymbolizer.v. *)
From S2P Require Import Prelude Text DwarfReader DwarfCodec DwarfTables.
Import Cursor.

Record Sections : Type := MkSections
  { info : list Z; abbrev : list Z; str_ : list Z; line : list Z; line_str : list Z; ranges : list Z;
    rnglists : list Z; addr_sec : list Z; str_offsets : list Z; aranges : list Z }.

(** * Units *)

Definition DW_TAG_COMPILE_UNIT : Z := 0x11.
Definition DW_TAG_PARTIAL_UNIT : Z := 0x3c.
Definition DW_AT_NAME : Z := 0x03.
Definition DW_AT_STMT_LIST : Z := 0x10.
Definition DW_AT_LOW_PC : Z := 0x11.
Definition DW_AT_HIGH_PC : Z := 0x12.
Definition DW_AT_LANGUAGE : Z := 0x13.
Definition DW_AT_COMP_DIR : Z := 0x1b.
Definition DW_AT_ABSTRACT_ORIGIN : Z := 0x31.
Definition DW_AT_SPECIFICATION : Z := 0x47.
Definition DW_AT_RANGES : Z := 0x55.
Definition DW_AT_STR_OFFSETS_BASE : Z := 0x72.
Definition DW_AT_ADDR_BASE : Z := 0x73.
Definition DW_AT_RNGLISTS_BASE : Z := 0x74.

Record Header : Type := MkHeader
  { h_shape : UnitShape; h_end : Z; h_die_off : Z; h_abbrev_off : Z; unit_type : Z }.

Definition header_rd (info_len o : Z) : rd Header :=
  '(len, f64) ← initial_length;
  p ← rd_pos;
  let end_ := p + len in
  if (2 ^ 64 <=? end_) || (info_len <? end_) then rd_fail else
  version ← u16;
  if (version <? 2) || (5 <? version) then rd_fail else
  '(ut, asz, ao) ← (if 5 <=? version then
      ut ← u8;
      asz ← u8;
      ao ← off f64;
      _ ← (if (ut =? 0x02) || (ut =? 0x06) then _ ← u64; off f64
           else if (ut =? 0x04) || (ut =? 0x05) then u64
           else mret 0);
      mret (ut, asz, ao)
    else
      ao ← off f64;
      asz ← u8;
      mret (0x01, asz, ao));
  d ← rd_pos;
  mret (MkHeader (MkShape o version f64 asz) end_ d ao ut).

Definition parse_header (info : list Z) (o : Z) : outcome Header := run_rd (header_rd (zlen info) o) info o.

Record Unit_ : Type := MkUnit
  { shape : UnitShape; u_end : Z; die_off : Z; abbrevs : Abbrevs; lang : Z; comp_dir : option (list Z);
    stmt_list : option Z; low_pc : option Val; high_pc : option Val; u_ranges : option Val;
    str_offsets_base : Z; addr_base : Z; rnglists_base : Z }.

(** The attributes of one entry, in order; an unreadable one ends the entry. *)
Fixpoint read_attrs {S} (u : UnitShape) (f : S -> Z -> Val -> S) (l : list (Z * Z * Z)) (s : S) : rd S :=
  match l with
  | [] => mret s
  | (at_, form, imp) :: l => v ← read_form form u imp; read_attrs u f l (f s at_ v)
  end.

Definition unit_attr (s : Unit_ * option Val) (at_ : Z) (v : Val) : Unit_ * option Val :=
  let '(MkUnit sh e d ab la cd st lo hi rs so ad rn, cdir) := s in
  if at_ =? DW_AT_STMT_LIST then (MkUnit sh e d ab la cd (as_u64_val v) lo hi rs so ad rn, cdir)
  else if at_ =? DW_AT_LOW_PC then (MkUnit sh e d ab la cd st (Some v) hi rs so ad rn, cdir)
  else if at_ =? DW_AT_HIGH_PC then (MkUnit sh e d ab la cd st lo (Some v) rs so ad rn, cdir)
  else if at_ =? DW_AT_RANGES then (MkUnit sh e d ab la cd st lo hi (Some v) so ad rn, cdir)
  else if at_ =? DW_AT_LANGUAGE then (MkUnit sh e d ab (as_u16 (default 0 (as_u64_val v))) cd st lo hi rs so ad rn, cdir)
  else if at_ =? DW_AT_COMP_DIR then (fst s, Some v)
  else if at_ =? DW_AT_STR_OFFSETS_BASE then (MkUnit sh e d ab la cd st lo hi rs (default 8 (as_u64_val v)) ad rn, cdir)
  else if at_ =? DW_AT_ADDR_BASE then (MkUnit sh e d ab la cd st lo hi rs so (default 8 (as_u64_val v)) rn, cdir)
  else if at_ =? DW_AT_RNGLISTS_BASE then (MkUnit sh e d ab la cd st lo hi rs so ad (default 0 (as_u64_val v)), cdir)
  else s.

(** * Values *)

Definition checked (x : Z) : option Z := if x <? 2 ^ 64 then Some x else None.

(** [Cur::new(sec, at).off(..)] and the like: a failed read is [None]. *)
Definition read_at {A} (m : rd A) (sec : list Z) (o : Z) : option A :=
  match m (MkCur sec o) with Done (a, _) => Some a | _ => None end.

Definition string_of (sec : Sections) (u : Unit_) (v : Val) : option (list Z) :=
  match v with
  | VStr s => Some s
  | VStrp o => cstr_at (str_ sec) o
  | VLineStrp o => cstr_at (line_str sec) o
  | VStrx i =>
      let osz := if format64 (shape u) then 8 else 4 in
      m ← checked (i * osz);
      at_ ← checked (str_offsets_base u + m);
      o ← read_at (off (format64 (shape u))) (str_offsets sec) at_;
      cstr_at (str_ sec) o
  | _ => None
  end.

Definition address (sec : Sections) (u : Unit_) (v : Val) : option Z :=
  match v with
  | VAddr a => Some a
  | VAddrx i =>
      m ← checked (i * addr_size (shape u));
      at_ ← checked (addr_base u + m);
      read_at (addr (addr_size (shape u))) (addr_sec sec) at_
  | _ => None
  end.

(** * Range lists *)

(** .debug_ranges: pairs of offsets from [base], a pair (max, b) moves it. *)
Definition ranges_step (asz : Z) (s : Z * list (Z * Z)) : rd (ctl (Z * list (Z * Z)) (list (Z * Z))) :=
  let '(base, out) := s in
  b ← addr asz;
  e ← addr asz;
  let max := if asz =? 8 then 2 ^ 64 - 1 else (2 ^ ((8 * asz) mod 64)) - 1 in
  mret (if (b =? 0) && (e =? 0) then Stop out
        else if b =? max then Next (e, out)
        else if b <? e then Next (base, out ++ [(base +₆₄ b, base +₆₄ e)])
        else Next (base, out)).

(** .debug_rnglists *)
Definition push (pair : option Z * option Z) (out : list (Z * Z)) : list (Z * Z) :=
  match pair with
  | (Some s, Some e) => if s <? e then out ++ [(s, e)] else out
  | _ => out
  end.

Definition rnglist_step (addrx : Z -> option Z) (asz : Z) (s : Z * list (Z * Z)) : rd (ctl (Z * list (Z * Z)) (list (Z * Z))) :=
  let '(base, out) := s in
  let emit p := mret (Next (base, push p out)) in
  kind ← u8;
  if kind =? 0 then mret (Stop out)
  else if kind =? 1 then i ← uleb; mret (Next (default 0 (addrx i), out))
  else if kind =? 2 then s ← uleb; e ← uleb; emit (addrx s, addrx e)
  else if kind =? 3 then s ← uleb; l ← uleb; emit (addrx s, (fun s => s +₆₄ l) <$> addrx s)
  else if kind =? 4 then s ← uleb; e ← uleb; emit (Some (base +₆₄ s), Some (base +₆₄ e))
  else if kind =? 5 then b ← addr asz; mret (Next (b, out))
  else if kind =? 6 then s ← addr asz; e ← addr asz; emit (Some s, Some e)
  else if kind =? 7 then s ← addr asz; l ← uleb; emit (Some s, Some (s +₆₄ l))
  else mret (Stop out).

Definition range_list (sec : Sections) (u : Unit_) (v : Val) (base : Z) : outcome (list (Z * Z)) :=
  let asz := addr_size (shape u) in
  if version (shape u) <? 5 then
    match v with
    | VSecOff o => rd_while (ranges_step asz) snd (base, []) (MkCur (ranges sec) o)
    | _ => Done []
    end
  else
    let start :=
      match v with
      | VSecOff o => Some o
      | VRnglistx i =>
          at_ ← checked (rnglists_base u + i *₆₄ (if format64 (shape u) then 8 else 4));
          rel ← read_at (off (format64 (shape u))) (rnglists sec) at_;
          Some (rnglists_base u +₆₄ rel)
      | _ => None
      end in
    match start with
    | Some o => rd_while (rnglist_step (fun i => address sec u (VAddrx i)) asz) snd (base, []) (MkCur (rnglists sec) o)
    | None => Done []
    end.

Definition die_ranges (sec : Sections) (u : Unit_) (lo hi rs : option Val) : outcome (list (Z * Z)) :=
  let base := default 0 (v ← low_pc u; address sec u v) in
  match rs with
  | Some r => range_list sec u r base
  | None =>
      Done match lo, hi with
           | Some lo, Some hi =>
               match address sec u lo with
               | Some l =>
                   let h := match hi with
                            | VAddr _ | VAddrx _ => address sec u hi
                            | VUdata n => Some (l +₆₄ n)
                            | VSdata n => Some (l +₆₄ as_u64 n)
                            | _ => None
                            end in
                   match h with Some h => if l <? h then [(l, h)] else [] | None => [] end
               | None => []
               end
           | _, _ => []
           end
  end.

Definition lossy (b : list Z) : list Z := from_utf8_lossy b.

Definition parse_unit (sec : Sections) (o : Z) : outcome Unit_ :=
  h ← parse_header (info sec) o;
  if negb ((unit_type h =? 0x01) || (unit_type h =? 0x03) || (unit_type h =? 0x04) || (unit_type h =? 0x05)) then Fail else
  abbrevs ← parse_abbrevs (abbrev sec) (h_abbrev_off h);
  '(u, cdir) ← run_rd (
    code ← uleb;
    match get_abbrev abbrevs code with
    | None => rd_fail
    | Some ab =>
        if negb (tag ab =? DW_TAG_COMPILE_UNIT) && negb (tag ab =? DW_TAG_PARTIAL_UNIT) then rd_fail
        else read_attrs (h_shape h) unit_attr (attrs ab)
               (MkUnit (h_shape h) (h_end h) (h_die_off h) abbrevs 0 None None None None None 8 8 0, None)
    end) (info sec) (h_die_off h);
  let 'MkUnit sh e d ab la _ st lo hi rs so ad rn := u in
  let cd := lossy <$> (v ← cdir; string_of sec u v) in
  Done (MkUnit sh e d ab la cd st lo hi rs so ad rn).

Definition address_ranges (sec : Sections) (u : Unit_) : outcome (list (Z * Z)) :=
  die_ranges sec u (low_pc u) (high_pc u) (u_ranges u).

(** * Totality *)

Definition sec_ok (l : list Z) : Prop := bytes_ok l /\ zlen l < 2 ^ 63.
Record sections_ok (s : Sections) : Prop := MkSectionsOk
  { ok_info : sec_ok (info s); ok_abbrev : sec_ok (abbrev s); ok_str : sec_ok (str_ s); ok_line : sec_ok (line s);
    ok_line_str : sec_ok (line_str s); ok_ranges : sec_ok (ranges s); ok_rnglists : sec_ok (rnglists s);
    ok_addr : sec_ok (addr_sec s); ok_str_offsets : sec_ok (str_offsets s); ok_aranges : sec_ok (aranges s) }.

Definition opt_ok (v : option Val) : Prop := match v with Some v => val_ok v | None => True end.

(** What the parsers of a unit rely on. *)
Definition unit_ok (s : Sections) (u : Unit_) : Prop :=
  abbrevs_ok (abbrevs u) /\ 0 <= die_off u /\ u_end u <= zlen (info s) /\
  opt_ok (low_pc u) /\ opt_ok (high_pc u) /\ opt_ok (u_ranges u) /\
  match stmt_list u with Some o => 0 <= o | None => True end.

Lemma cur_at l o : sec_ok l -> 0 <= o -> cur_ok (MkCur l o).
Proof. intros [Hb Hl] Ho. by split_and!. Qed.

Lemma reads_ranges_step asz s : reads 1 (fun _ => True) (ranges_step asz s).
Proof.
  destruct s as [base out]. unfold ranges_step. apply (reads_weaken (1 + (1 + 0))); [|lia].
  do 2 (eapply reads_bind; [apply reads_addr| |lia|lia]; intros ? ?). by apply reads_ret.
Qed.

Lemma reads_rnglist_step addrx asz s : reads 1 (fun _ => True) (rnglist_step addrx asz s).
Proof.
  destruct s as [base out]. unfold rnglist_step. apply (reads_weaken (1 + 0)); [|lia].
  eapply reads_bind; [apply reads_u8| |lia|lia]. intros kind _.
  repeat match goal with |- reads _ _ (if ?b then _ else _) => destruct b end; try (by apply reads_ret).
  1, 5: apply (reads_weaken (1 + 0)); [|lia]. 3-7: apply (reads_weaken (1 + (1 + 0))); [|lia].
  all: repeat (eapply reads_bind; [first [apply reads_uleb|apply reads_addr]| |lia|lia]; intros ? ?); by apply reads_ret.
Qed.

Lemma wp_range_list s u v base : sections_ok s -> val_ok v -> wp (range_list s u v base) (fun _ => True) False.
Proof.
  intros Hs Hv. unfold range_list. destruct (version (shape u) <? 5).
  - destruct v; try done. apply (wp_while _ _ (fun _ => True)); [|done|done|apply cur_at; [apply Hs|apply Hv]].
    intros st _. eapply reads_mono; [apply reads_ranges_step|lia|]. by intros [].
  - assert (forall o, 0 <= o -> wp (rd_while (rnglist_step (fun i => address s u (VAddrx i)) (addr_size (shape u))) snd (base, [])
      (MkCur (rnglists s) o)) (fun _ => True) False) as H.
    { intros o Ho. apply (wp_while _ _ (fun _ => True)); [|done|done|apply cur_at; [apply Hs|done]].
      intros st _. eapply reads_mono; [apply reads_rnglist_step|lia|]. by intros []. }
    destruct v; try done; [apply H, Hv|]. cbn [mbind option_bind].
    destruct (checked _); [|done]. cbn. destruct (read_at _ _ _); [|done]. apply H. apply as_u64_range.
Qed.

Lemma wp_die_ranges s u lo hi rs : sections_ok s -> opt_ok rs -> wp (die_ranges s u lo hi rs) (fun _ => True) False.
Proof. intros Hs Hr. unfold die_ranges. destruct rs as [v|]; [by apply wp_range_list|done]. Qed.

Lemma reads_attrs {S} (I : S -> Prop) u (f : S -> Z -> Val -> S) l s :
  (forall s at_ v, I s -> val_ok v -> I (f s at_ v)) -> Forall attr_ok l -> I s -> reads 0 I (read_attrs u f l s).
Proof.
  intros Hf Hl. revert s. induction Hl as [|[[at_ form] imp] l (Ha & Hform & Hi) Hl IH]; intros s HI; [by apply reads_ret|].
  cbn [read_attrs]. apply (reads_weaken (0 + 0)); [|lia]. eapply reads_bind; [by apply reads_read_form| |lia|lia].
  intros v Hv. apply IH. auto.
Qed.

Lemma wp_parse_header inf o : sec_ok inf -> 0 <= o ->
  wp (parse_header inf o) (fun h => o < h_end h <= zlen inf /\ 0 <= h_die_off h /\ 0 <= h_abbrev_off h) True.
Proof.
  intros Hi Ho. unfold parse_header, run_rd. apply wp_bind. unfold header_rd. apply wp_bind.
  eapply reads_step; [apply reads_initial_length|by apply cur_at|lia|done|]. intros [len f64] c1 Hlen Hc1 _ Hp1 _. cbn [pos] in Hp1.
  rewrite rd_pos_bind. destruct (Z.leb_spec (2 ^ 64) (pos c1 + len)); [done|]. destruct (Z.ltb_spec (zlen inf) (pos c1 + len)); [done|]. cbn [orb].
  unfold is_u64 in Hlen.
  match goal with |- wp (?m c1) _ _ => enough (reads 0 (fun h => h_end h = pos c1 + len /\ 0 <= h_die_off h /\ 0 <= h_abbrev_off h) m) as H' end.
  { eapply wp_mono; [by apply H'| |done]. intros [h c] ((E & ? & ?) & _). cbn. lia. }
  apply (reads_weaken (2 + 0)); [|lia]. eapply reads_bind; [apply reads_u16| |lia|lia]. intros ver _.
  destruct (_ || _); [apply reads_fail|]. apply (reads_weaken (0 + (0 + 0))); [|lia].
  eapply (reads_bind _ _ (fun '(ut, asz, ao) => 0 <= ao)); [| |lia|lia].
  - destruct (5 <=? ver).
    + apply (reads_weaken (1 + (1 + (4 + (0 + 0))))); [|lia]. do 2 (eapply reads_bind; [apply reads_u8| |lia|lia]; intros ? _).
      eapply reads_bind; [apply reads_off| |lia|lia]. intros ao Hao. eapply (reads_bind _ _ (fun _ => True)); [| |lia|lia].
      * destruct (_ || _); [|destruct (_ || _); [|by apply reads_ret]]; [apply (reads_weaken (8 + 4)); [|lia]|apply (reads_mono 8 _ is_u64); [apply reads_u64|lia|done]].
        eapply reads_bind; [apply reads_u64| |lia|lia]. intros _ _. eapply reads_mono; [apply reads_off|lia|done].
      * intros _ _. apply reads_ret. unfold is_u64 in Hao. lia.
    + apply (reads_weaken (4 + (1 + 0))); [|lia]. eapply reads_bind; [apply reads_off| |lia|lia]. intros ao Hao.
      eapply reads_bind; [apply reads_u8| |lia|lia]. intros ? _. apply reads_ret. unfold is_u64 in Hao. lia.
  - intros [[ut asz] ao] Hao. eapply reads_bind; [apply reads_pos| |lia|lia]. intros d Hd. by apply reads_ret.
Qed.

Lemma abbrevs_ok_get t code a : abbrevs_ok t -> get_abbrev t code = Some a -> abbrev_ok a.
Proof.
  intros [_ Ht] Ha. unfold get_abbrev in Ha. destruct (get t code) as [[b|]|] eqn:E; try done. cbn in Ha. injection Ha as ->.
  apply get_elem_of in E. rewrite Forall_forall in Ht. by apply (Ht (Some a)).
Qed.

Lemma as_u64_val_ok v o : val_ok v -> as_u64_val v = Some o -> is_u64 o.
Proof. destruct v; cbn; intros Hv [= <-]; auto with vock. Qed.

Definition unit_attr_ok (s : Sections) (x : Unit_ * option Val) : Prop := unit_ok s (fst x) /\ opt_ok (snd x).

Lemma unit_attr_keeps s x at_ v : unit_attr_ok s x -> val_ok v -> unit_attr_ok s (unit_attr x at_ v).
Proof.
  destruct x as [[sh e d ab la cd st lo hi rs so ad rn] cdir]. intros [(Hab & Hd & He & Hlo & Hhi & Hrs & Hst) Hc] Hv. cbn in *.
  unfold unit_attr.
  repeat match goal with |- unit_attr_ok s (if ?b then _ else _) => destruct b end; unfold unit_attr_ok, unit_ok; cbn; split_and!; try done.
  destruct (as_u64_val v) eqn:E; [|done]. apply as_u64_val_ok in E; [apply E|done].
Qed.

Lemma wp_parse_unit s o : sections_ok s -> 0 <= o -> wp (parse_unit s o) (unit_ok s) True.
Proof.
  intros Hs Ho. unfold parse_unit. apply wp_bind. eapply wp_mono; [by apply wp_parse_header; [apply Hs|]| |done].
  intros h (He & Hd & Ha). destruct (negb _); [done|]. apply wp_bind.
  eapply wp_mono; [by apply wp_parse_abbrevs; [apply Hs|apply Hs|]| |done]. intros ab Hab. apply wp_bind.
  eapply wp_mono; [apply (wp_run_rd _ 1 (unit_attr_ok s)); [|apply Hs|apply Hs|done]| |done].
  - apply (reads_weaken (1 + 0)); [|lia]. eapply reads_bind; [apply reads_uleb| |lia|lia]. intros code _.
    destruct (get_abbrev ab code) as [a|] eqn:Ea; [|apply reads_fail]. destruct (_ && _); [apply reads_fail|].
    apply reads_attrs; [apply unit_attr_keeps|by eapply abbrevs_ok_get|]. unfold unit_attr_ok, unit_ok. cbn. split_and!; (done || lia).
  - intros [[sh e d ab' la cd st lo hi rs so ad rn] cdir] [Hu Hc]. cbn. exact Hu.
Qed.
