(* ===== verification/DwarfLine.v ===== *)
(** dwarf/line.rs: the line-number program of a unit, its file table and the
    lookup of an address. *)
From S2P Require Import Prelude Text SortScan DwarfReader DwarfCodec DwarfTables DwarfUnit.
Import Cursor.

Record Row : Type := MkRow { row_addr : Z; row_file : Z; row_line : Z; row_end : bool }.
Record LineTable : Type := MkLineTable { rows : list Row; files : list (list Z); v5 : bool }.

Definition slash : list Z := [47].

Definition join (comp_dir dir name : list Z) : list Z :=
  if starts_with slash name then name
  else
    let dir_full :=
      if starts_with slash dir then dir
      else if bool_decide (dir = []) then comp_dir
      else if bool_decide (comp_dir = []) then dir
      else comp_dir ++ slash ++ dir in
    if bool_decide (dir_full = []) then name else dir_full ++ slash ++ name.

(** * DWARF 5 directory and file lists *)

(** [for _ in 0..n] over a cursor. *)
Fixpoint rd_repeat {A} (n : nat) (m : rd A) : rd (list A) :=
  match n with
  | O => mret []
  | S n => x ← m; xs ← rd_repeat n m; mret (x :: xs)
  end.

Fixpoint read_entry (sec : Sections) (u : Unit_) (sh : UnitShape) (fmts : list (Z * Z)) (e : list Z * Z) : rd (list Z * Z) :=
  match fmts with
  | [] => mret e
  | (ct, form) :: fmts =>
      v ← read_form form sh 0;
      let '(path, dir) := e in
      read_entry sec u sh fmts
        (if ct =? 1 then (match string_of sec u v with Some s => lossy s | None => path end, dir)
         else if ct =? 2 then (path, default 0 (as_u64_val v))
         else e)
  end.

Definition read_entries_v5 (sec : Sections) (u : Unit_) (sh : UnitShape) : rd (list (list Z * Z)) :=
  nfmt ← u8;
  fmts ← rd_repeat (Z.to_nat nfmt) (ct ← uleb; form ← uleb; mret (ct, as_u16 form));
  n ← uleb;
  rd_repeat (Z.to_nat n) (read_entry sec u sh fmts ([], 0)).

(** * DWARF 2 to 4: NUL-terminated lists *)

Definition dirs_step (d : list (list Z)) : rd (ctl (list (list Z)) (list (list Z))) :=
  s ← cstr;
  mret (if bool_decide (s = []) then Stop d else Next (d ++ [lossy s])).

Definition files_step (f : list (list Z * Z)) : rd (ctl (list (list Z * Z)) (list (list Z * Z))) :=
  s ← cstr;
  if bool_decide (s = []) then mret (Stop f)
  else
    dir ← uleb;
    _ ← uleb;
    _ ← uleb;
    mret (Next (f ++ [(lossy s, dir)])).

Definition dir_of (version : Z) (dirs : list (list Z)) (i : Z) : list Z :=
  if 5 <=? version then default [] (get dirs i)
  else if i =? 0 then [] else default [] (get dirs (i - 1)).

(** * The program *)

Record LineHeader : Type := MkLineHeader
  { min_inst : Z; default_is_stmt : bool; line_base : Z; line_range : Z; opcode_base : Z; std_lens : list Z }.

Record LineState : Type := MkLineState
  { ls_addr : Z; ls_file : Z; ls_line : Z; ls_is_stmt : bool; ls_rows : list Row }.

Definition line_init (h : LineHeader) (rows : list Row) : LineState := MkLineState 0 1 1 (default_is_stmt h) rows.
Definition push_row (s : LineState) (e : bool) : list Row := ls_rows s ++ [MkRow (ls_addr s) (ls_file s) (ls_line s) e].
Definition with_addr (s : LineState) (a : Z) : LineState := MkLineState a (ls_file s) (ls_line s) (ls_is_stmt s) (ls_rows s).

(** [(i64::from(line) + d).max(0) as u32] *)
Definition move_line (line d : Z) : Z := as_u32 (Z.max (as_i64 (line + d)) 0).

Definition seek (p : Z) : rd unit := fun c => if 2 ^ 64 <=? p then Fail else Done (tt, MkCur (data c) p).

Definition special (h : LineHeader) (s : LineState) (op : Z) : LineState :=
  let adj := op - opcode_base h in
  let s := MkLineState (ls_addr s +₆₄ (adj / line_range h) * min_inst h) (ls_file s)
             (move_line (ls_line s) (line_base h + adj mod line_range h)) (ls_is_stmt s) (ls_rows s) in
  MkLineState (ls_addr s) (ls_file s) (ls_line s) (ls_is_stmt s) (push_row s false).

Definition ext_sub (h : LineHeader) (s : LineState) (len sub : Z) : rd LineState :=
  if sub =? 1 then mret (line_init h (push_row s true))
  else if sub =? 2 then a ← addr (as_u8 (Z.max (len - 1) 0)); mret (with_addr s a)
  else mret s.

Definition extended (h : LineHeader) (s : LineState) : rd LineState :=
  len ← uleb;
  start ← rd_pos;
  sub ← u8;
  s ← ext_sub h s len sub;
  _ ← seek (start + len);
  mret s.

Definition line_op (h : LineHeader) (s : LineState) (op : Z) : rd LineState :=
  if opcode_base h <=? op then mret (special h s op)
  else if op =? 0 then extended h s
  else if op =? 1 then mret (MkLineState (ls_addr s) (ls_file s) (ls_line s) (ls_is_stmt s) (push_row s false))
  else if op =? 2 then d ← uleb; mret (with_addr s (ls_addr s +₆₄ d *₆₄ min_inst h))
  else if op =? 3 then d ← sleb; mret (MkLineState (ls_addr s) (ls_file s) (move_line (ls_line s) d) (ls_is_stmt s) (ls_rows s))
  else if op =? 4 then f ← uleb; mret (MkLineState (ls_addr s) (as_u32 f) (ls_line s) (ls_is_stmt s) (ls_rows s))
  else if op =? 5 then _ ← uleb; mret s
  else if op =? 6 then mret (MkLineState (ls_addr s) (ls_file s) (ls_line s) (negb (ls_is_stmt s)) (ls_rows s))
  else if (op =? 7) || (op =? 10) || (op =? 11) then mret s
  else if op =? 8 then mret (with_addr s (ls_addr s +₆₄ ((255 - opcode_base h) / line_range h) * min_inst h))
  else if op =? 9 then d ← u16; mret (with_addr s (ls_addr s +₆₄ d))
  else if op =? 12 then _ ← uleb; mret s
  else fun c => n ← idx (std_lens h) op; (_ ← rd_repeat (Z.to_nat n) uleb; mret s) c.

Definition program_step (h : LineHeader) (end_ : Z) (s : LineState * Cur) : outcome (ctl (LineState * Cur) (list Row)) :=
  if end_ <=? pos (snd s) then Done (Stop (ls_rows (fst s)))
  else
    '(s', c') ← (op ← u8; line_op h (fst s) op) (snd s);
    Done (Next (s', c')).

Definition run_program (h : LineHeader) (end_ : Z) (c : Cur) : outcome (list Row) :=
  loop (S (length (data c))) (program_step h end_) (line_init h [], c).

(** The sort key [(addr, !end)]. *)
Definition row_le (a b : Row) : bool :=
  (row_addr a <? row_addr b) || ((row_addr a =? row_addr b) && (Z.b2z (negb (row_end a)) <=? Z.b2z (negb (row_end b)))).

(** Everything up to the program: the header, where the program starts and
    ends, and the file table. *)
Definition line_header (sec : Sections) (u : Unit_) : rd (LineHeader * Z * Z * Z * list (list Z)) :=
  '(len, f64) ← initial_length;
  p ← rd_pos;
  if 2 ^ 64 <=? p + len then rd_fail else
  let end_ := Z.min (p + len) (zlen (line sec)) in
  version ← u16;
  if (version <? 2) || (5 <? version) then rd_fail else
  asz ← (if 5 <=? version then a ← u8; _ ← u8; mret a else mret (addr_size (shape u)));
  hlen ← off f64;
  q ← rd_pos;
  if 2 ^ 64 <=? q + hlen then rd_fail else
  min_inst ← u8;
  _ ← (if 4 <=? version then u8 else mret 0);
  dstmt ← u8;
  line_base ← i8;
  line_range ← u8;
  if line_range =? 0 then rd_fail else
  opcode_base ← u8;
  lens ← rd_repeat (Z.to_nat (opcode_base - 1)) u8;
  let std_lens := if opcode_base =? 0 then [] else 0 :: lens in
  let sh := MkShape (shape_off (shape u)) version f64 asz in
  '(dirs, files) ← (if 5 <=? version then
      d ← read_entries_v5 sec u sh;
      f ← read_entries_v5 sec u sh;
      mret (fst <$> d, f)
    else
      d ← rd_loop dirs_step [];
      f ← rd_loop files_step [];
      mret (d, f));
  let names := (fun '(name, dir) => join (default [] (comp_dir u)) (dir_of version dirs dir) name) <$> files in
  mret (MkLineHeader min_inst (negb (dstmt =? 0)) line_base line_range opcode_base std_lens, version, q + hlen, end_, names).

Definition parse_lines (sec : Sections) (u : Unit_) (o : Z) : outcome LineTable :=
  '(h, version, prog_start, end_, names) ← run_rd (line_header sec u) (line sec) o;
  rs ← run_program h end_ (MkCur (line sec) prog_start);
  Done (MkLineTable (sort_by row_le rs) names (5 <=? version)).

Definition find (t : LineTable) (pc : Z) : option (list Z * Z) :=
  let i := partition_point (fun r => row_addr r <=? pc) (rows t) in
  if i =? 0 then None else
  r ← get (rows t) (i - 1);
  if row_end r then None
  else
    f ← (if v5 t then Some (row_file r) else if row_file r =? 0 then None else Some (row_file r - 1));
    name ← get (files t) f;
    Some (name, row_line r).

(** Bytes of a program, for prefetching. *)
Definition extent (sec : list Z) (o : Z) : outcome (list Z) :=
  '((len, _), c) ← initial_length (MkCur sec o);
  if 2 ^ 64 <=? pos c + len then Fail else of_option (slice sec o (Z.min (pos c + len) (zlen sec))).

(** * Totality *)

Lemma reads_repeat {A} n (Q : A -> Prop) m : reads 0 Q m -> reads 0 (fun l => length l = n /\ Forall Q l) (rd_repeat n m).
Proof.
  intros Hm. induction n as [|n IH]; [by apply reads_ret|]. cbn [rd_repeat]. apply (reads_weaken (0 + (0 + 0))); [|lia].
  eapply reads_bind; [done| |lia|lia]. intros x Hx. eapply reads_bind; [done| |lia|lia].
  intros xs [<- Hf]. apply reads_ret. by split; [|constructor].
Qed.

Lemma reads_entry sec u sh fmts e : reads 0 (fun _ => True) (read_entry sec u sh fmts e).
Proof.
  revert e. induction fmts as [|[ct form] fmts IH]; intros [path dir]; [by apply reads_ret|]. cbn [read_entry].
  apply (reads_weaken (0 + 0)); [|lia]. eapply reads_bind; [apply reads_read_form; unfold is_i64; lia| |lia|lia].
  intros v _. apply IH.
Qed.

Lemma reads_entries_v5 sec u sh : reads 0 (fun _ => True) (read_entries_v5 sec u sh).
Proof.
  unfold read_entries_v5. apply (reads_weaken (1 + (0 + (1 + 0)))); [|lia].
  eapply reads_bind; [apply reads_u8| |lia|lia]. intros n _.
  eapply reads_bind; [apply (reads_repeat _ (fun _ => True))| |lia|lia].
  - apply (reads_weaken (1 + (1 + 0))); [|lia]. eapply reads_bind; [apply reads_uleb| |lia|lia]. intros ct _.
    eapply reads_bind; [apply reads_uleb| |lia|lia]. intros f _. by apply reads_ret.
  - intros fmts _. eapply reads_bind; [apply reads_uleb| |lia|lia]. intros m _.
    eapply reads_mono; [apply (reads_repeat _ (fun _ => True)), reads_entry|lia|done].
Qed.

Lemma reads_v4_lists : reads 0 (fun _ => True) (d ← rd_loop dirs_step []; f ← rd_loop files_step []; mret (d, f)).
Proof.
  apply (reads_weaken (1 + (1 + 0))); [|lia]. eapply reads_bind; [apply (reads_loop dirs_step (fun _ => True) (fun _ => True)); [|done]| |lia|lia].
  - intros d _. unfold dirs_step. apply (reads_weaken (1 + 0)); [|lia]. eapply reads_bind; [apply reads_cstr| |lia|lia].
    intros s _. apply reads_ret. by destruct (bool_decide _).
  - intros d _. eapply reads_bind; [apply (reads_loop files_step (fun _ => True) (fun _ => True)); [|done]| |lia|lia].
    2: { intros f _. by apply reads_ret. }
    intros f _. unfold files_step. apply (reads_weaken (1 + 0)); [|lia]. eapply reads_bind; [apply reads_cstr| |lia|lia].
    intros s _. destruct (bool_decide _); [by apply reads_ret|]. apply (reads_weaken (1 + (1 + (1 + 0)))); [|lia].
    do 3 (eapply reads_bind; [apply reads_uleb| |lia|lia]; intros ? _). by apply reads_ret.
Qed.

(** A standard opcode indexes its operand count; an address is a [u64]. *)
Definition lineh_ok (h : LineHeader) : Prop := forall op, 0 <= op < opcode_base h -> is_Some (get (std_lens h) op).
Definition row_ok (r : Row) : Prop := is_u64 (row_addr r) /\ is_u32 (row_file r) /\ is_u32 (row_line r).
Definition lstate_ok (s : LineState) : Prop :=
  is_u64 (ls_addr s) /\ is_u32 (ls_file s) /\ is_u32 (ls_line s) /\ Forall row_ok (ls_rows s).

Lemma reads_line_header sec u : reads 0 (fun '(h, ver, start, end_, names) => lineh_ok h /\ 0 <= start /\ end_ <= zlen (line sec)) (line_header sec u).
Proof.
  unfold line_header. apply (reads_weaken (4 + (0 + 0))); [|lia].
  eapply reads_bind; [apply reads_initial_length| |lia|lia]. intros [len f64] _.
  eapply reads_bind; [apply reads_pos| |lia|lia]. intros p Hp. destruct (_ <=? _); [apply reads_fail|].
  apply (reads_weaken (2 + 0)); [|lia]. eapply reads_bind; [apply reads_u16| |lia|lia]. intros ver _.
  destruct (_ || _); [apply reads_fail|]. apply (reads_weaken (0 + (4 + (0 + 0)))); [|lia].
  eapply (reads_bind _ _ (fun _ => True)); [| |lia|lia].
  { destruct (5 <=? ver); [|by apply reads_ret]. apply (reads_weaken (1 + (1 + 0))); [|lia].
    do 2 (eapply reads_bind; [apply reads_u8| |lia|lia]; intros ? _). by apply reads_ret. }
  intros asz _. eapply reads_bind; [apply reads_off| |lia|lia]. intros hlen Hh.
  eapply reads_bind; [apply reads_pos| |lia|lia]. intros q Hq. destruct (_ <=? _); [apply reads_fail|].
  apply (reads_weaken (1 + (0 + (1 + (1 + (1 + 0)))))); [|lia].
  eapply reads_bind; [apply reads_u8| |lia|lia]. intros mi _.
  eapply (reads_bind _ _ (fun _ => True)); [| |lia|lia].
  { destruct (4 <=? ver); [|by apply reads_ret]. eapply reads_mono; [apply reads_u8|lia|done]. }
  intros _ _. eapply reads_bind; [apply reads_u8| |lia|lia]. intros ds _.
  eapply reads_bind; [apply reads_i8| |lia|lia]. intros lb _.
  apply (reads_weaken (1 + 0)); [|lia]. eapply reads_bind; [apply reads_u8| |lia|lia]. intros lr _.
  destruct (lr =? 0); [apply reads_fail|]. apply (reads_weaken (1 + (0 + (0 + 0)))); [|lia].
  eapply reads_bind; [apply reads_u8| |lia|lia]. intros ob _.
  eapply reads_bind; [apply (reads_repeat _ is_u8), (reads_weaken 1); [apply reads_u8|lia]| |lia|lia]. intros lens [Hlens _]. cbv zeta.
  eapply (reads_bind _ _ (fun _ => True)); [| |lia|lia].
  { destruct (5 <=? ver); [|apply reads_v4_lists]. apply (reads_weaken (0 + (0 + 0))); [|lia].
    do 2 (eapply reads_bind; [apply reads_entries_v5| |lia|lia]; intros ? _). by apply reads_ret. }
  intros [dirs fs] _. apply reads_ret. cbv beta in Hq. split_and!; [|unfold is_u64 in Hh; lia|lia].
  intros op Hop. apply get_is_Some. cbn [std_lens opcode_base] in *. destruct (Z.eqb_spec ob 0); [lia|]. rewrite zlen_cons. unfold zlen. lia.
Qed.

Lemma row_ok_push s e : lstate_ok s -> Forall row_ok (push_row s e).
Proof. intros (?&?&?&?). apply Forall_app; split; [done|]. constructor; [done|constructor]. Qed.

Lemma move_line_range l d : is_u32 (move_line l d).
Proof. apply as_u32_range. Qed.

Lemma line_init_ok h l : Forall row_ok l -> lstate_ok (line_init h l).
Proof. intros H. unfold lstate_ok, line_init, is_u64, is_u32. cbn. split_and!; (lia || done). Qed.

(** A step leaves the cursor usable and never behind where it was. *)
Definition stepped (c : Cur) (x : LineState * Cur) : Prop :=
  lstate_ok (fst x) /\ cur_ok (snd x) /\ data (snd x) = data c /\ pos c <= pos (snd x).

Lemma reads_stepped {m : rd LineState} k c : reads k lstate_ok m -> 0 <= k -> cur_ok c -> wp (m c) (stepped c) True.
Proof.
  intros Hm Hk Hc. eapply reads_step; [done|done|done|done|]. intros s c' Hs Hc' Hd Hp _. unfold stepped. cbn. split_and!; [done|done|done|lia].
Qed.

Lemma wp_extended h s c : lstate_ok s -> cur_ok c -> wp (extended h s c) (stepped c) True.
Proof.
  intros Hs Hc. unfold extended. apply wp_bind. eapply reads_step; [apply reads_uleb|done|lia|done|].
  intros len c1 Hlen Hc1 Hd1 Hp1 _. rewrite rd_pos_bind. apply wp_bind.
  eapply reads_step; [apply reads_u8|done|lia|done|]. intros sub c2 _ Hc2 Hd2 Hp2 _. apply wp_bind.
  eapply (reads_step _ 0 lstate_ok); [|done|lia|done|].
  - unfold ext_sub. destruct (sub =? 1); [by apply reads_ret, line_init_ok, row_ok_push|]. destruct (sub =? 2); [|by apply reads_ret].
    apply (reads_weaken (1 + 0)); [|lia]. eapply reads_bind; [apply reads_addr| |lia|lia]. intros a Ha. apply reads_ret.
    destruct Hs as (_&?&?&?). by split_and!.
  - intros s' c3 Hs' Hc3 Hd3 _ _. unfold mbind at 1, rd_bind, seek. unfold is_u64 in Hlen. destruct Hc1 as (?&?&?).
    destruct (_ <=? _); [done|]. unfold stepped. cbn. destruct Hc3 as (?&?&?).
    split_and!; [done| |congruence|lia]. unfold cur_ok. cbn. split_and!; [done|lia|done].
Qed.

Lemma wp_line_op h s op c : lineh_ok h -> is_u8 op -> lstate_ok s -> cur_ok c -> wp (line_op h s op c) (stepped c) True.
Proof.
  intros Hh Hop Hs Hc. pose proof Hs as (Ha & Hf & Hl & Hr). unfold line_op.
  assert (forall m, lstate_ok m -> wp (mret (M:=rd) m c) (stepped c) True) as Hret.
  { intros m Hm. by apply (reads_stepped 0); [apply reads_ret|lia|]. }
  assert (forall (m : rd Z) k Q f, reads k Q m -> 0 <= k -> (forall x, lstate_ok (f x)) -> wp ((x ← m; mret (f x)) c) (stepped c) True) as Hrd.
  { intros m k Q f Hm Hk Hx. apply (reads_stepped (k + 0)); [|lia|done]. eapply reads_bind; [done| |lia|lia]. intros x _. by apply reads_ret. }
  destruct (Z.leb_spec (opcode_base h) op) as [|Hlt].
  { apply Hret. unfold special. split_and!; cbn; [apply as_u64_range|done|apply move_line_range|].
    apply Forall_app; split; [done|]. constructor; [|constructor]. split_and!; cbn; [apply as_u64_range|done|apply move_line_range]. }
  destruct (op =? 0); [by apply wp_extended|].
  destruct (op =? 1); [apply Hret; split_and!; cbn; [done|done|done|by apply row_ok_push]|].
  destruct (op =? 2); [apply (Hrd _ _ _ _ reads_uleb); [lia|]; intros x; split_and!; cbn; auto with vock|].
  destruct (op =? 3); [apply (Hrd _ _ _ _ reads_sleb); [lia|]; intros x; split_and!; cbn; auto using move_line_range|].
  destruct (op =? 4); [apply (Hrd _ _ _ _ reads_uleb); [lia|]; intros x; split_and!; cbn; auto with vock|].
  destruct (op =? 5); [by apply (Hrd _ _ _ _ reads_uleb)|].
  destruct (op =? 6); [by apply Hret|]. destruct (_ || _); [by apply Hret|].
  destruct (op =? 8); [apply Hret; split_and!; cbn; auto with vock|].
  destruct (op =? 9); [apply (Hrd _ _ _ _ reads_u16); [lia|]; intros x; split_and!; cbn; auto with vock|].
  destruct (op =? 12); [by apply (Hrd _ _ _ _ reads_uleb)|].
  destruct (Hh op) as [n Hn]; [unfold is_u8 in Hop; lia|]. unfold idx. rewrite Hn. cbn [or_panic mbind outcome_bind].
  apply (reads_stepped (0 + 0)); [|lia|done].
  eapply reads_bind; [apply (reads_repeat _ is_u64), (reads_weaken 1); [apply reads_uleb|lia]| |lia|lia]. intros x _. by apply reads_ret.
Qed.

Lemma wp_run_program h end_ c : lineh_ok h -> cur_ok c -> end_ <= zlen (data c) -> wp (run_program h end_ c) (Forall row_ok) True.
Proof.
  intros Hh Hc He. unfold run_program.
  apply (wp_loop (fun x => stepped c x) (fun x => Z.max 0 (zlen (data c) - pos (snd x)))).
  - intros [s c1] (Hs & Hc1 & Hd & Hp). cbn [fst snd] in *. unfold program_step. cbn [fst snd].
    destruct (Z.leb_spec end_ (pos c1)); [apply Hs|]. apply wp_bind, wp_bind.
    eapply reads_step; [apply reads_u8|done|lia|done|]. intros op c2 Hop Hc2 Hd2 Hp2 _.
    eapply wp_mono; [by apply wp_line_op| |done]. intros [s' c'] (Hs' & Hc' & Hd' & Hp'). cbn [wp fst snd] in *.
    split_and!; [|lia|lia]. unfold stepped. cbn. split_and!; [done|done|congruence|lia].
  - unfold stepped. cbn [fst snd]. split_and!; [by apply line_init_ok|done|done|lia].
  - cbn [snd]. destruct Hc as (_ & Hp & _). unfold zlen. lia.
Qed.

Lemma row_le_total a b : row_le a b = true \/ row_le b a = true.
Proof. unfold row_le. rewrite !orb_true_iff, !andb_true_iff, !Z.ltb_lt, !Z.eqb_eq, !Z.leb_le. lia. Qed.

Lemma row_le_trans a b c : row_le a b = true -> row_le b c = true -> row_le a c = true.
Proof. unfold row_le. rewrite !orb_true_iff, !andb_true_iff, !Z.ltb_lt, !Z.eqb_eq, !Z.leb_le. lia. Qed.

(** The line-number program of any unit, on any bytes, ends: with
    rows that fit their types and are sorted by address, end-of-sequence rows
    first, or with a refusal; no operand count is read out of range and no
    opcode, length or offset makes the loop run for ever. *)
Lemma wp_parse_lines (sec : Sections) (u : Unit_) (o : Z) :
  bytes_ok (line sec) -> zlen (line sec) < 2 ^ 63 -> 0 <= o ->
  wp (parse_lines sec u o) (fun t => Forall row_ok (rows t) /\ StronglySorted (fun a b => row_le a b = true) (rows t)) True.
Proof.
  intros Hb Hl Ho. unfold parse_lines. apply wp_bind.
  eapply wp_mono; [by apply (wp_run_rd _ 0), Ho; [apply reads_line_header|..]| |done].
  intros [[[[h ver] start] end_] names] (Hh & Hs & He). apply wp_bind.
  eapply wp_mono; [apply wp_run_program; [done|by split_and!|done]| |done].
  intros rs Hrs. cbn. split; [by rewrite sort_by_perm|apply sort_by_sorted; [apply row_le_total|apply row_le_trans]].
Qed.

(** A unit without attributes, and sections with only a line table. *)
Definition bare_unit : Unit_ := MkUnit (MkShape 0 4 false 8) 0 0 [] 0 None None None None None 8 8 0.
Definition line_only (l : list Z) : Sections := MkSections [] [] [] l [] [] [] [] [] [].

(** C39: the directory and file lists of DWARF 5 are not bounded by the
    section.  A list whose entries have no fields takes at most eleven bytes and
    is read as any number of empty entries up to 2^64 - 1. *)
Theorem line_entries_unbounded (sec : Sections) (u : Unit_) (sh : UnitShape) (n : Z) : is_u64 n ->
  delivers (read_entries_v5 sec u sh) ([0] ++ uleb_enc 10 n) (replicate (Z.to_nat n) ([], 0)) /\ zlen ([0] ++ uleb_enc 10 n) <= 11.
Proof.
  intros Hn. split.
  - unfold read_entries_v5. eapply delivers_bind; [apply delivers_u8|]. cbn [Z.to_nat rd_repeat].
    apply delivers_mret_bind. rewrite <- (app_nil_r (uleb_enc 10 n)).
    eapply delivers_bind; [by apply delivers_uleb|]. generalize (Z.to_nat n). intros k.
    induction k as [|k IH]; [apply delivers_ret|]. cbn [rd_repeat replicate].
    apply delivers_mret_bind. by apply (delivers_ret_bind _ (fun xs => _ :: xs)).
  - rewrite zlen_app. change (zlen [0]) with 1. enough (forall k v, zlen (uleb_enc k v) <= Z.of_nat k) as H by (specialize (H 10%nat n); lia).
    induction k as [|k IH]; intros v; [done|]. cbn [uleb_enc]. destruct (v <? 128); rewrite zlen_cons; [change (zlen []) with 0; lia|].
    specialize (IH (v / 128)). lia.
Qed.

Lemma line_entries_unbounded_witness :
  is_u64 (2 ^ 40) /\
  delivers (read_entries_v5 (line_only []) bare_unit (shape bare_unit)) ([0] ++ uleb_enc 10 (2 ^ 40)) (replicate (Z.to_nat (2 ^ 40)) ([], 0)) /\
  zlen ([0] ++ uleb_enc 10 (2 ^ 40)) <= 11.
Proof.
  assert (is_u64 (2 ^ 40)) as H by (unfold is_u64; lia).
  split; [exact H|]. apply (line_entries_unbounded (line_only []) bare_unit (shape bare_unit) (2 ^ 40) H).
Defined.
