(* ===== verification/DwarfLineSpec.v ===== *)
(** What a line table means: the state machine of the DWARF standard against
    the interpreter of DwarfLine.v, and the meaning of a table of disjoint
    sequences against its lookup. *)
From S2P Require Import Prelude Text SortScan DwarfReader DwarfCodec DwarfTables DwarfUnit DwarfLine.
Import Cursor.

(** * The abstract line-number machine *)

Inductive LineOp : Type :=
  | Special (op : Z)
  | EndSequence
  | SetAddress (a : Z)
  | ExtOther (sub : Z) (payload : list Z)
  | Copy
  | AdvancePc (d : Z)
  | AdvanceLine (d : Z)
  | SetFile (f : Z)
  | SetColumn (c : Z)
  | NegateStmt
  | Ignored (op : Z)
  | ConstAddPc
  | FixedAdvancePc (d : Z)
  | SetIsa (i : Z)
  | UnknownOp (op : Z) (args : list Z).

(** The registers the symbolizer keeps: address, file, line. *)
Definition Regs : Type := Z * Z * Z.
Definition regs0 : Regs := (0, 1, 1).

(** Effect on the registers, and the row appended to the matrix. *)
Definition op_sem (h : LineHeader) (o : LineOp) (r : Regs) : Regs * option Row :=
  let '(a, f, l) := r in
  let advance k := a +₆₄ k * min_inst h in
  match o with
  | Special op =>
      let adj := op - opcode_base h in
      let a := advance (adj / line_range h) in
      let l := move_line l (line_base h + adj mod line_range h) in
      ((a, f, l), Some (MkRow a f l false))
  | EndSequence => (regs0, Some (MkRow a f l true))
  | SetAddress a => ((a, f, l), None)
  | Copy => (r, Some (MkRow a f l false))
  | AdvancePc d => ((a +₆₄ d * min_inst h, f, l), None)
  | AdvanceLine d => ((a, f, move_line l d), None)
  | SetFile f => ((a, as_u32 f, l), None)
  | ConstAddPc => ((advance ((255 - opcode_base h) / line_range h), f, l), None)
  | FixedAdvancePc d => ((a +₆₄ d, f, l), None)
  | ExtOther _ _ | SetColumn _ | NegateStmt | Ignored _ | SetIsa _ | UnknownOp _ _ => (r, None)
  end.

Fixpoint matrix (h : LineHeader) (ops : list LineOp) (r : Regs) : list Row :=
  match ops with
  | [] => []
  | o :: ops => let '(r', row) := op_sem h o r in option_list row ++ matrix h ops r'
  end.

(** * The encoding of the standard *)

Definition enc_op (o : LineOp) : list Z :=
  match o with
  | Special op => [op]
  | EndSequence => [0] ++ uleb_enc 10 1 ++ [1]
  | SetAddress a => [0] ++ uleb_enc 10 9 ++ [2] ++ le_bytes 8 a
  | ExtOther sub payload => [0] ++ uleb_enc 10 (1 + zlen payload) ++ [sub] ++ payload
  | Copy => [1]
  | AdvancePc d => [2] ++ uleb_enc 10 d
  | AdvanceLine d => [3] ++ sleb_enc 10 d
  | SetFile f => [4] ++ uleb_enc 10 f
  | SetColumn c => [5] ++ uleb_enc 10 c
  | NegateStmt => [6]
  | Ignored op => [op]
  | ConstAddPc => [8]
  | FixedAdvancePc d => [9] ++ le_bytes 2 d
  | SetIsa i => [12] ++ uleb_enc 10 i
  | UnknownOp op args => [op] ++ concat (uleb_enc 10 <$> args)
  end.

Definition op_ok (h : LineHeader) (o : LineOp) : Prop :=
  match o with
  | Special op => opcode_base h <= op < 256
  | EndSequence => 0 < opcode_base h
  | SetAddress a => 0 < opcode_base h /\ is_u64 a
  | ExtOther sub payload => 0 < opcode_base h /\ sub <> 1 /\ sub <> 2
  | Copy => 1 < opcode_base h
  | AdvancePc d => 2 < opcode_base h /\ is_u64 d
  | AdvanceLine d => 3 < opcode_base h /\ is_i64 d
  | SetFile f => 4 < opcode_base h /\ is_u64 f
  | SetColumn c => 5 < opcode_base h /\ is_u64 c
  | NegateStmt => 6 < opcode_base h
  | Ignored op => op < opcode_base h /\ (op = 7 \/ op = 10 \/ op = 11)
  | ConstAddPc => 8 < opcode_base h
  | FixedAdvancePc d => 9 < opcode_base h /\ is_u16 d
  | SetIsa i => 12 < opcode_base h /\ is_u64 i
  | UnknownOp op args => 12 < op < opcode_base h /\ Forall is_u64 args /\ get (std_lens h) op = Some (zlen args)
  end.

(** The interpreter's state holds the registers and the rows so far. *)
Definition holds (s : LineState) (r : Regs) (rows : list Row) : Prop :=
  (ls_addr s, ls_file s, ls_line s) = r /\ ls_rows s = rows.

Lemma zlen_enc_op o : 1 <= zlen (enc_op o).
Proof. destruct o; cbn [enc_op]; rewrite ?zlen_app; repeat rewrite zlen_cons; rewrite ?zlen_nil;
  repeat match goal with |- context [zlen ?x] => lazymatch goal with H : 0 <= zlen x |- _ => fail | _ => pose proof (zlen_nonneg x) end end; lia. Qed.

Lemma delivers_repeat (l : list Z) : Forall is_u64 l -> delivers (rd_repeat (length l) uleb) (concat (uleb_enc 10 <$> l)) l.
Proof.
  induction 1 as [|x l Hx Hl IH]; [apply delivers_ret|]. cbn [length rd_repeat fmap list_fmap concat].
  eapply delivers_bind; [by apply delivers_uleb|]. by apply (delivers_ret_bind _ (fun xs => x :: xs)).
Qed.

(** An extended instruction: the sub-opcode's reader, then a jump to the end the length gives. *)
Lemma delivers_extended h s body sub e s' : is_u64 (1 + zlen e) ->
  delivers (ext_sub h s (1 + zlen e) sub) body s' -> (exists t, e = body ++ t) ->
  delivers (extended h s) (uleb_enc 10 (1 + zlen e) ++ [sub] ++ e) s'.
Proof.
  intros Hu Hb [t ->] n. unfold extended. eapply delivers_bind_at; [by apply delivers_uleb|].
  apply delivers_pos_bind. eapply delivers_bind_at; [apply delivers_u8|].
  intros pre rest Hn Hl. unfold mbind at 1, rd_bind. rewrite <- app_assoc in *.
  rewrite (Hb _ pre (t ++ rest) eq_refl) by done.
  unfold seek, mbind, rd_bind. change (zlen [sub]) with 1 in Hn. rewrite !zlen_app in *.
  pose proof (zlen_nonneg rest). pose proof (zlen_nonneg body). pose proof (zlen_nonneg t).
  replace (2 ^ 64 <=? _) with false by lia. cbn [data]. unfold mret, rd_ret. do 3 f_equal. lia.
Qed.

Ltac std_op := unfold line_op; rewrite (proj2 (Z.leb_gt _ _)) by lia; cbn [Z.eqb Pos.eqb orb].

(** One instruction: the interpreter reads its encoding and moves as the
    abstract machine does. *)
Lemma delivers_op h o s r rs : op_ok h o -> holds s r rs -> zlen (enc_op o) < 2 ^ 63 ->
  exists op e s', enc_op o = op :: e /\ delivers (line_op h s op) e s' /\
    holds s' (fst (op_sem h o r)) (rs ++ option_list (snd (op_sem h o r))).
Proof.
  intros Ho Hs Hl. destruct s as [a f l st rows0]. destruct Hs as [Hr Hrs]. cbn in Hr, Hrs. subst r rs.
  destruct o as [op| |a'|sub payload| |d|d|f'|c| |op| |d|i|op args]; cbn [enc_op app op_sem fst snd option_list op_ok] in *;
    do 3 eexists; (split; [reflexivity|]).
  - split; [unfold line_op; replace (opcode_base h <=? op) with true by lia; apply delivers_ret|done].
  - split; [std_op; apply (delivers_extended h _ [] 1 []); [done|apply delivers_ret|by exists []]|done].
  - split; [std_op|]. 
    { change 9 with (1 + zlen (le_bytes 8 a')). apply (delivers_extended h _ (le_bytes 8 a') 2); [done| |exists []; by rewrite app_nil_r].
      unfold ext_sub. cbn [Z.eqb Pos.eqb]. change (as_u8 _) with 8. apply (delivers_ret_bind (addr 8)), delivers_u64. tauto. }
    by rewrite app_nil_r.
  - split; [std_op|]. 
    { apply (delivers_extended h _ [] sub); [pose proof (zlen_nonneg payload); rewrite zlen_cons, zlen_app, zlen_cons in Hl; unfold is_u64; pose proof (zlen_nonneg (uleb_enc 10 (1 + zlen payload))); lia| |by exists payload].
      unfold ext_sub. replace (sub =? 1) with false by lia. replace (sub =? 2) with false by lia. apply delivers_ret. }
    by rewrite app_nil_r.
  - split; [std_op; apply delivers_ret|done].
  - split; [std_op; apply (delivers_ret_bind uleb), delivers_uleb; tauto|]. rewrite app_nil_r. split; [|done]. cbn.
    unfold as_u64. by rewrite Zplus_mod_idemp_r.
  - split; [std_op; apply (delivers_ret_bind sleb), delivers_sleb; tauto|]. by rewrite app_nil_r.
  - split; [std_op; apply (delivers_ret_bind uleb), delivers_uleb; tauto|]. by rewrite app_nil_r.
  - split; [std_op; apply (delivers_ret_bind uleb), delivers_uleb; tauto|]. by rewrite app_nil_r.
  - split; [std_op; apply delivers_ret|]. by rewrite app_nil_r.
  - split; [destruct Ho as [Ho [->|[->| ->]]]; std_op; apply delivers_ret|]. by rewrite app_nil_r.
  - split; [std_op; apply delivers_ret|]. by rewrite app_nil_r.
  - split; [std_op; apply (delivers_ret_bind u16), delivers_u16; tauto|]. by rewrite app_nil_r.
  - split; [std_op; apply (delivers_ret_bind uleb), delivers_uleb; tauto|]. by rewrite app_nil_r.
  - destruct Ho as (Hop & Ha & Hn). split; cycle 1.
    { instantiate (1 := MkLineState a f l st rows0). by rewrite app_nil_r. }
    unfold line_op. replace (opcode_base h <=? op) with false by lia.
    do 6 (match goal with |- delivers (if op =? ?k then _ else _) _ _ => replace (op =? k) with false by lia end).
    replace (op =? 6) with false by lia. replace ((op =? 7) || (op =? 10) || (op =? 11)) with false by (symmetry; rewrite !orb_false_iff; lia).
    do 3 (match goal with |- delivers (if op =? ?k then _ else _) _ _ => replace (op =? k) with false by lia end).
    intros n pre rest Hpre Hz. unfold idx. rewrite Hn. cbn [or_panic mbind outcome_bind].
    rewrite <- (app_nil_r (concat _)). unfold zlen at 1. rewrite Nat2Z.id.
    apply (delivers_bind (rd_repeat (length args) uleb) (fun _ => mret _) _ [] args) with (n := n); [by apply delivers_repeat|apply delivers_ret|done|by rewrite app_nil_r].
Qed.

Definition enc_ops (ops : list LineOp) : list Z := concat (enc_op <$> ops).

Lemma program_step_eq h e s c : program_step h e (s, c) =
  if e <=? pos c then Done (Stop (ls_rows s)) else '(s', c') ← (op ← u8; line_op h s op) c; Done (Next (s', c')).
Proof. done. Qed.

Lemma run_ops h ops s r rs pre rest fuel : Forall (op_ok h) ops -> holds s r rs -> (length ops < fuel)%nat ->
  zlen (pre ++ enc_ops ops ++ rest) < 2 ^ 63 ->
  loop fuel (program_step h (zlen pre + zlen (enc_ops ops))) (s, MkCur (pre ++ enc_ops ops ++ rest) (zlen pre)) =
    Done (rs ++ matrix h ops r).
Proof.
  intros Ho. revert s r rs pre fuel. induction Ho as [|o ops Ho Hos IH]; intros s r rs pre [|fuel] Hs Hf Hl; try (cbn in Hf; lia); rewrite loop_S, program_step_eq; cbn [pos].
  - change (zlen (enc_ops [])) with 0. replace (_ <=? _) with true by lia. destruct Hs as [_ <-]. cbn. by rewrite app_nil_r.
  - unfold enc_ops in *. cbn [fmap list_fmap concat] in *. pose proof (zlen_nonneg pre). pose proof (zlen_nonneg rest).
    pose proof (zlen_nonneg (concat (enc_op <$> ops))). pose proof (zlen_enc_op o).
    pose proof Hl as Hl'. rewrite !zlen_app in Hl'.
    destruct (delivers_op h o s r rs Ho Hs ltac:(lia)) as (op & e & s' & Eo & Hd & Hs').
    rewrite zlen_app. replace (_ <=? zlen pre) with false by lia. rewrite <- app_assoc in *.
    assert (delivers (op ← u8; line_op h s op) (enc_op o) s') as Hrd.
    { rewrite Eo. eapply (delivers_bind u8 _ [op]); [apply delivers_u8|done]. }
    rewrite (Hrd _ pre (concat (enc_op <$> ops) ++ rest) eq_refl) by done. cbn [mbind outcome_bind].
    specialize (IH s' _ _ (pre ++ enc_op o) fuel Hs'). rewrite <- !app_assoc, (zlen_app pre (enc_op o)) in IH.
    rewrite Z.add_assoc, IH by (done || (cbn in Hf; lia)). cbn [matrix]. by destruct (op_sem h o r).
Qed.

Lemma enc_ops_length ops : (length ops <= length (enc_ops ops))%nat.
Proof.
  induction ops as [|o ops IH]; [done|]. unfold enc_ops in *. cbn [fmap list_fmap concat length]. rewrite length_app.
  pose proof (zlen_enc_op o). unfold zlen in *. lia.
Qed.

(** C11: the line-number program.  Every sequence of instructions in the
    encoding of the standard, extended instructions the reader does not know
    and standard opcodes it only counts operands of included, anywhere in a
    section, produces exactly the rows of the abstract state machine. *)
Theorem line_program_matrix (h : LineHeader) (ops : list LineOp) (pre rest : list Z) :
  Forall (op_ok h) ops -> zlen (pre ++ enc_ops ops ++ rest) < 2 ^ 63 ->
  run_program h (zlen pre + zlen (enc_ops ops)) (MkCur (pre ++ enc_ops ops ++ rest) (zlen pre)) = Done (matrix h ops regs0).
Proof.
  intros Ho Hl. unfold run_program. rewrite (run_ops h ops _ regs0 [] pre rest); [done|done|done| |done].
  cbn [data]. rewrite !length_app. pose proof (enc_ops_length ops). lia.
Qed.

Definition header13 : LineHeader := MkLineHeader 1 true (-5) 14 13 [0; 0; 1; 1; 1; 1; 0; 0; 0; 1; 0; 0; 1].

Lemma line_program_matrix_witness :
  let ops := [SetAddress 0x1000; AdvanceLine 9; Copy; Special 200; ExtOther 0x80 [7; 7]; ConstAddPc; FixedAdvancePc 3; Copy; EndSequence] in
  Forall (op_ok header13) ops /\
  run_program header13 (0 + zlen (enc_ops ops)) (MkCur ([] ++ enc_ops ops ++ [99]) 0) = Done (matrix header13 ops regs0) /\
  matrix header13 ops regs0 = [MkRow 0x1000 1 10 false; MkRow 0x100d 1 10 false; MkRow 0x1021 1 10 false; MkRow 0x1021 1 10 true].
Proof.
  match goal with |- let ops := ?s in _ => assert (Forall (op_ok header13) s) as H end.
  { repeat constructor; cbn; unfold is_u64, is_i64, is_u16; lia. }
  split_and!; [exact H| |vm_compute; reflexivity].
  apply (line_program_matrix header13 _ [] [99] H). vm_compute. reflexivity.
Defined.

(** * Lookup in a table of sequences *)

(** A sequence: rows at increasing addresses and the address just past them. *)
Record Seq : Type := MkSeq { seq_rows : list Row; seq_end : Row }.

Definition seq_start (s : Seq) : Z := match seq_rows s with r :: _ => row_addr r | [] => row_addr (seq_end s) end.
Definition seq_ok (s : Seq) : Prop :=
  seq_rows s <> [] /\ row_end (seq_end s) = true /\ Forall (fun r => row_end r = false) (seq_rows s) /\
  StronglySorted (fun a b => row_addr a <= row_addr b) (seq_rows s) /\
  Forall (fun r => row_addr r < row_addr (seq_end s)) (seq_rows s).
Definition seq_apart (a b : Seq) : Prop :=
  row_addr (seq_end a) <= seq_start b \/ row_addr (seq_end b) <= seq_start a.

Definition table_rows (seqs : list Seq) : list Row := concat ((fun s => seq_rows s ++ [seq_end s]) <$> seqs).

(** The row in force at [pc]: the last one at or below it in the sequence that
    spans it. *)
Definition in_force (seqs : list Seq) (pc : Z) (r : Row) : Prop :=
  exists s, s ∈ seqs /\ seq_start s <= pc < row_addr (seq_end s) /\
    last (filter (fun r => row_addr r <= pc) (seq_rows s)) = Some r.

(** The file and line a row names. *)
Definition row_loc (t : LineTable) (r : Row) : option (list Z * Z) :=
  i ← (if v5 t then Some (row_file r) else if row_file r =? 0 then None else Some (row_file r - 1));
  name ← get (files t) i;
  Some (name, row_line r).

Definition the_row (l : list Row) (pc : Z) : option Row := scan_last row_le (fun r => row_addr r <=? pc) l.

Lemma find_scan l names v pc : find (MkLineTable (sort_by row_le l) names v) pc =
  (r ← the_row l pc; if row_end r then None else row_loc (MkLineTable (sort_by row_le l) names v) r).
Proof.
  unfold find, the_row. cbn [rows]. set (S := sort_by row_le l).
  assert (StronglySorted (fun a b => row_le a b = true) S) as HS by apply (sort_by_sorted _ row_le_total row_le_trans).
  destruct (partition_point_last row_le (fun r => row_addr r <=? pc) S HS) as [Hk Hi].
  { intros x y Hxy. unfold row_le in Hxy. rewrite orb_true_iff, andb_true_iff in Hxy. lia. }
  set (i := partition_point _ S) in *. pose proof (partition_point_bound (fun r => row_addr r <=? pc) S : 0 <= i <= zlen S).
  rewrite <- (sorted_last_scan _ row_le_total row_le_trans). fold S. rewrite Hk.
  destruct (Z.eqb_spec i 0) as [->|E0]; [done|].
  destruct (get S (i - 1)) as [s|] eqn:Es; [|apply get_None in Es; lia].
  apply get_Some in Es as [_ Es]. replace (Z.to_nat i) with (Datatypes.S (Z.to_nat (i - 1))) by lia.
  by rewrite (take_S_r _ _ _ Es), last_snoc.
Qed.

Lemma last_filter_split {A} (P : A -> Prop) `{!forall x, Decision (P x)} (l : list A) r : last (filter P l) = Some r ->
  exists pre post, l = pre ++ r :: post /\ P r /\ Forall (fun x => ~ P x) post.
Proof.
  induction l as [|x l IH] using rev_ind; [done|]. rewrite filter_app. destruct (decide (P x)) as [Hx|Hx].
  - rewrite (filter_cons_True _ x []), filter_nil, last_snoc by done. intros [= <-]. exists l, []. by split_and!.
  - rewrite (filter_cons_False _ x []), filter_nil, app_nil_r by done. intros (pre & post & -> & Hr & Hp)%IH.
    exists pre, (post ++ [x]). rewrite <- app_assoc. split_and!; [done|done|]. apply Forall_app; split; [done|by constructor].
Qed.

Lemma elem_of_table seqs r : r ∈ table_rows seqs <-> exists s, s ∈ seqs /\ (r ∈ seq_rows s \/ r = seq_end s).
Proof.
  unfold table_rows. rewrite list_elem_of_In, in_concat. setoid_rewrite <- list_elem_of_In. split.
  - intros (k & (s & -> & Hs)%list_elem_of_fmap & [Hr|Hr%list_elem_of_singleton]%elem_of_app); eauto.
  - intros (s & Hs & Hr). exists (seq_rows s ++ [seq_end s]). split; [apply list_elem_of_fmap; eauto|].
    apply elem_of_app. rewrite list_elem_of_singleton. done.
Qed.

Lemma seq_start_le s r : seq_ok s -> r ∈ seq_rows s -> seq_start s <= row_addr r.
Proof.
  intros (Hne & _ & _ & Hs & _) Hr. unfold seq_start. destruct (seq_rows s) as [|x l]; [done|].
  apply elem_of_cons in Hr as [->|Hr]; [lia|]. inversion Hs as [|? ? _ Hx]; subst. rewrite Forall_forall in Hx. auto.
Qed.

(** A row of another sequence that starts at or below [pc] lies below [r]. *)
Lemma other_row s s' r t pc : seq_ok s -> seq_ok s' -> seq_apart s s' -> r ∈ seq_rows s -> pc < row_addr (seq_end s) ->
  t ∈ seq_rows s' \/ t = seq_end s' -> row_addr t <= pc -> row_le t r = true /\ row_le r t = false.
Proof.
  intros Hs Hs' Ha Hr Hpc Ht Htpc. pose proof (seq_start_le s r Hs Hr) as Hstart.
  destruct Hs as (_ & _ & Hre & _). rewrite Forall_forall in Hre. specialize (Hre r Hr).
  assert (seq_start s' <= row_addr t) as Ht'.
  { destruct Ht as [Ht| ->]; [by apply seq_start_le|]. destruct Hs' as (Hne & _ & _ & _ & Hend).
    unfold seq_start. destruct (seq_rows s') as [|x l]; [done|]. apply Forall_cons in Hend as [Hx _]. lia. }
  destruct Ha as [Ha|Ha]; [lia|]. destruct Hs' as (_ & He' & Hre' & _ & Hend). rewrite Forall_forall in Hre', Hend.
  unfold row_le. rewrite Hre. destruct Ht as [Ht| ->].
  - specialize (Hre' t Ht). specialize (Hend t Ht). cbv beta in Hend. rewrite Hre'. cbn. split; [apply orb_true_iff; left; lia|].
    apply orb_false_iff. split; [lia|]. apply andb_false_iff. left. lia.
  - rewrite He'. cbn. split; [rewrite orb_true_iff, andb_true_iff; lia|]. apply orb_false_iff. split; [lia|apply andb_false_r].
Qed.

Lemma in_force_row seqs pc r : Forall seq_ok seqs -> ForallOrdPairs seq_apart seqs -> in_force seqs pc r ->
  the_row (table_rows seqs) pc = Some r /\ row_end r = false.
Proof.
  intros Hok Ha (s & (S1 & S2 & ->)%list_elem_of_split & [Hlo Hhi] & (pre & post & El & Hr & Hpost)%last_filter_split).
  rewrite Forall_app, Forall_cons in Hok. destruct Hok as (Hok1 & Hs & Hok2). rewrite Forall_forall in Hok1, Hok2.
  assert (r ∈ seq_rows s) as Hin by (rewrite El; apply elem_of_app; right; by left).
  assert (forall s', s' ∈ S1 \/ s' ∈ S2 -> seq_apart s s') as Hap.
  { clear -Ha. induction S1 as [|x S1 IH]; cbn in Ha; inversion Ha as [|? ? Hx Ha']; subst; intros s' [Hs'|Hs'].
    - by apply not_elem_of_nil in Hs'.
    - rewrite Forall_forall in Hx. auto.
    - apply elem_of_cons in Hs' as [->|Hs']; [|auto]. apply Forall_app in Hx as [_ [Hx _]%Forall_cons]. unfold seq_apart in *. tauto.
    - auto. }
  pose proof Hs as (_ & Hend & Hne & Hsort & Hlt). rewrite Forall_forall in Hne.
  split; [|by apply Hne]. unfold the_row, table_rows. rewrite fmap_app, concat_app. cbn [fmap list_fmap concat]. rewrite El, <- !app_assoc. cbn [app].
  rewrite app_assoc. apply (scan_last_intro _ row_le_total row_le_trans); [lia| |].
  - intros t [Ht|Ht]%elem_of_app Hp.
    + apply (elem_of_table S1) in Ht as (s' & Hs' & Ht). eapply (other_row s s' r t pc); eauto; lia.
    + unfold row_le. rewrite El in Hsort. rewrite (Hne r Hin). apply (StronglySorted_app_1_elem_of _ _ _ t r) in Hsort; [|done|by left].
      cbv beta in Hsort. rewrite orb_true_iff, andb_true_iff. destruct (row_end t); cbn; lia.
  - intros t [Ht|[Ht|Ht]%elem_of_cons]%elem_of_app Hp.
    + rewrite Forall_forall in Hpost. specialize (Hpost t Ht). cbv beta in *. lia.
    + subst t. lia.
    + apply (elem_of_table S2) in Ht as (s' & Hs' & Ht). eapply (other_row s s' r t pc); eauto; lia.
Qed.

Lemma no_row_in_force seqs pc : Forall seq_ok seqs -> (forall r, ~ in_force seqs pc r) ->
  match the_row (table_rows seqs) pc with Some r => row_end r = true | None => True end.
Proof.
  intros Hok Hno. unfold the_row. destruct (scan_last _ _ _) as [r|] eqn:E; [|done].
  apply (scan_last_elem _ row_le_total row_le_trans) in E as (Hr & Hp & Hmax). apply elem_of_table in Hr as (s & Hs & Hr).
  rewrite Forall_forall in Hok. pose proof (Hok s Hs) as Hs'. destruct Hr as [Hr| ->]; [|apply Hs'].
  exfalso. pose proof (seq_start_le s r Hs' Hr). destruct Hs' as (_ & He & _ & _ & Hlt). rewrite Forall_forall in Hlt. specialize (Hlt r Hr). cbv beta in Hlt.
  destruct (Z.lt_ge_cases pc (row_addr (seq_end s))) as [Hpc|Hpc].
  - destruct (last (filter (fun r => row_addr r <= pc) (seq_rows s))) as [r'|] eqn:El.
    + apply (Hno r'). exists s. split_and!; [done|lia|done|done].
    + apply last_None in El. assert (r ∈ filter (fun r => row_addr r <= pc) (seq_rows s)) as Hin by (apply list_elem_of_filter; split; [lia|done]).
      rewrite El in Hin. by apply not_elem_of_nil in Hin.
  - assert (row_le (seq_end s) r = true) as Hle by (apply Hmax; [apply elem_of_table; eauto|lia]).
    unfold row_le in Hle. rewrite orb_true_iff, andb_true_iff in Hle. lia.
Qed.

(** * A whole table *)

(** The tables of DWARF 2 to 4 in the 32-bit format. *)
Record TableSrc : Type := MkTableSrc
  { t_version : Z; t_header : LineHeader; t_max_ops : Z; t_dirs : list (list Z);
    t_files : list (list Z * Z * Z * Z); t_prog : list LineOp }.

Definition enc_file (f : list Z * Z * Z * Z) : list Z :=
  let '(name, dir, mtime, size) := f in (name ++ [0]) ++ uleb_enc 10 dir ++ uleb_enc 10 mtime ++ uleb_enc 10 size.

Definition enc_tables (t : TableSrc) : list Z :=
  (concat ((fun d => d ++ [0]) <$> t_dirs t) ++ [0]) ++ (concat (enc_file <$> t_files t) ++ [0]).

Definition enc_fields (t : TableSrc) : list Z :=
  let h := t_header t in
  [min_inst h] ++ (if 4 <=? t_version t then [t_max_ops t] else []) ++ [Z.b2z (default_is_stmt h)] ++ [as_u8 (line_base h)] ++
  [line_range h] ++ [opcode_base h] ++ tail (std_lens h) ++ enc_tables t.

Definition enc_line_table (t : TableSrc) : list Z :=
  let prog := enc_ops (t_prog t) in
  le_bytes 4 (6 + zlen (enc_fields t) + zlen prog) ++ le_bytes 2 (t_version t) ++ le_bytes 4 (zlen (enc_fields t)) ++ enc_fields t ++ prog.

Definition name_ok (s : list Z) : Prop := s <> [] /\ 0 ∉ s.
Definition file_ok (f : list Z * Z * Z * Z) : Prop :=
  let '(name, dir, mtime, size) := f in name_ok name /\ is_u64 dir /\ is_u64 mtime /\ is_u64 size.
Definition table_ok (t : TableSrc) : Prop :=
  let h := t_header t in
  2 <= t_version t <= 4 /\ -128 <= line_base h < 128 /\ line_range h <> 0 /\ 0 < opcode_base h /\
  zlen (std_lens h) = opcode_base h /\ head (std_lens h) = Some 0 /\
  Forall name_ok (t_dirs t) /\ Forall file_ok (t_files t) /\ Forall (op_ok h) (t_prog t) /\
  6 + zlen (enc_fields t) + zlen (enc_ops (t_prog t)) < 0xfffffff0.

Definition t_names (cd : list Z) (t : TableSrc) : list (list Z) :=
  (fun '(name, dir, _, _) => join cd (dir_of (t_version t) (lossy <$> t_dirs t) dir) (lossy name)) <$> t_files t.

Lemma runs_dirs dirs acc : Forall name_ok dirs ->
  runs dirs_step acc (concat ((fun d => d ++ [0]) <$> dirs) ++ [0]) (acc ++ (lossy <$> dirs)).
Proof.
  intros Hd. revert acc. induction Hd as [|d dirs [Hne Hz] Hd IH]; intros acc.
  - apply runs_stop. rewrite app_nil_r. unfold dirs_step.
    apply (delivers_bind cstr _ [0] [] []); [apply (delivers_cstr []), not_elem_of_nil|apply delivers_ret].
  - cbn [fmap list_fmap concat]. rewrite <- app_assoc. eapply runs_next; [|rewrite zlen_app; pose proof (zlen_nonneg d); change (zlen [0]) with 1; lia|].
    + pose proof (delivers_ret_bind cstr (fun s => if bool_decide (s = []) then Stop acc else Next (acc ++ [lossy s])) _ _ (delivers_cstr d Hz)) as H.
      cbv beta in H. rewrite bool_decide_eq_false_2 in H by done. exact H.
    + specialize (IH (acc ++ [lossy d])). by rewrite <- app_assoc in IH.
Qed.

Lemma runs_files fs acc : Forall file_ok fs ->
  runs files_step acc (concat (enc_file <$> fs) ++ [0]) (acc ++ ((fun '(name, dir, _, _) => (lossy name, dir)) <$> fs)).
Proof.
  intros Hf. revert acc. induction Hf as [|[[[name dir] mt] sz] fs ([Hne Hz] & Hd & Hm & Hs) Hf IH]; intros acc.
  - apply runs_stop. rewrite app_nil_r. unfold files_step.
    apply (delivers_bind cstr _ [0] [] []); [apply (delivers_cstr []), not_elem_of_nil|apply delivers_ret].
  - cbn [fmap list_fmap concat]. rewrite <- app_assoc. eapply runs_next.
    + unfold enc_file, files_step. eapply delivers_bind; [by apply delivers_cstr|]. rewrite bool_decide_eq_false_2 by done.
      eapply delivers_bind; [by apply delivers_uleb|]. eapply delivers_bind; [by apply delivers_uleb|].
      apply (delivers_ret_bind uleb (fun _ => _) _ sz). by apply delivers_uleb.
    + unfold enc_file. rewrite <- app_assoc, zlen_app. pose proof (zlen_nonneg name). rewrite zlen_app. change (zlen [0]) with 1.
      match goal with |- context [1 + zlen ?x] => pose proof (zlen_nonneg x) end. lia.
    + specialize (IH (acc ++ [(lossy name, dir)])). by rewrite <- app_assoc in IH.
Qed.

Lemma delivers_lens (l : list Z) : delivers (rd_repeat (length l) u8) l l.
Proof.
  induction l as [|x l IH]; [apply delivers_ret|]. cbn [length rd_repeat].
  apply (delivers_bind u8 _ [x] l x); [apply delivers_u8|]. by apply (delivers_ret_bind _ (fun xs => x :: xs)).
Qed.

Lemma delivers_i8 v : -128 <= v < 128 -> delivers i8 [as_u8 v] v.
Proof.
  intros Hv. unfold i8. replace v with (as_i8 (as_u8 v)) at 2 by (unfold as_i8, as_signed, as_u8; cbn; dlia).
  apply (delivers_ret_bind u8 as_i8), delivers_u8.
Qed.

Lemma delivers_tables t : Forall name_ok (t_dirs t) -> Forall file_ok (t_files t) ->
  delivers (d ← rd_loop dirs_step []; f ← rd_loop files_step []; mret (d, f)) (enc_tables t)
    (lossy <$> t_dirs t, (fun '(name, dir, _, _) => (lossy name, dir)) <$> t_files t).
Proof.
  intros Hd Hf. unfold enc_tables. eapply delivers_bind; [apply delivers_loop, (runs_dirs _ []), Hd|].
  apply (delivers_ret_bind _ (fun f => (_, f))), delivers_loop, (runs_files _ []), Hf.
Qed.

Lemma delivers_line_header sec u t n : table_ok t -> 0 <= n ->
  n + 10 + zlen (enc_fields t) + zlen (enc_ops (t_prog t)) < 2 ^ 63 ->
  delivers_at n (line_header sec u)
    (le_bytes 4 (6 + zlen (enc_fields t) + zlen (enc_ops (t_prog t))) ++ le_bytes 2 (t_version t) ++
     le_bytes 4 (zlen (enc_fields t)) ++ enc_fields t)
    (t_header t, t_version t, n + 10 + zlen (enc_fields t),
     Z.min (n + 10 + zlen (enc_fields t) + zlen (enc_ops (t_prog t))) (zlen (line sec)), t_names (default [] (comp_dir u)) t).
Proof.
  intros (Hv & Hlb & Hlr & Hob & Hsl & Hsh & Hd & Hf & _ & Hlen) Hn Hz.
  pose proof (zlen_nonneg (enc_fields t)). pose proof (zlen_nonneg (enc_ops (t_prog t))).
  unfold line_header, initial_length. set (len := 6 + _ + _) in *. set (flen := zlen (enc_fields t)) in *.
  eapply delivers_bind_at.
  { rewrite <- (app_nil_r (le_bytes 4 len)). eapply (delivers_bind u32); [apply delivers_u32; unfold is_u32; lia|].
    replace (len =? 0xffffffff) with false by lia. replace (0xfffffff0 <=? len) with false by lia. apply delivers_ret. }
  cbv beta iota. apply delivers_pos_bind. change (zlen (le_bytes 4 len)) with 4. replace (2 ^ 64 <=? n + 4 + len) with false by lia.
  eapply delivers_bind_at; [apply delivers_u16; unfold is_u16; lia|]. change (zlen (le_bytes 2 _)) with 2.
  replace ((t_version t <? 2) || (5 <? t_version t)) with false by (symmetry; apply orb_false_iff; lia).
  replace (5 <=? t_version t) with false by lia.
  cbv iota. apply delivers_ret_at.
  eapply delivers_bind_at; [apply (delivers_u32 flen); unfold is_u32; lia|].
  apply delivers_pos_bind. change (zlen (le_bytes 4 _)) with 4. change (zlen []) with 0.
  replace (2 ^ 64 <=? _) with false by lia. unfold enc_fields.
  apply delivers_bind_at with (a := min_inst (t_header t)); [apply delivers_u8|].
  eapply (delivers_bind_at _ _ _ _ _ (if 4 <=? t_version t then t_max_ops t else 0)); [destruct (4 <=? t_version t); [apply delivers_u8|apply delivers_ret]|].
  eapply delivers_bind_at; [apply delivers_u8|]. eapply delivers_bind_at; [by apply delivers_i8|].
  eapply delivers_bind_at; [apply delivers_u8|]. replace (line_range (t_header t) =? 0) with false by lia.
  eapply delivers_bind_at; [apply delivers_u8|].
  destruct (std_lens (t_header t)) as [|z l] eqn:El; [done|]. cbn [head] in Hsh. injection Hsh as ->. rewrite zlen_cons in Hsl.
  eapply delivers_bind_at.
  { replace (Z.to_nat (opcode_base (t_header t) - 1)) with (length l) by (unfold zlen in Hsl; lia). apply delivers_lens. }
  rewrite <- (app_nil_r (enc_tables t)). eapply delivers_bind_at; [by apply delivers_tables|].
  replace (opcode_base (t_header t) =? 0) with false by lia. rewrite <- El.
  replace (negb (Z.b2z (default_is_stmt (t_header t)) =? 0)) with (default_is_stmt (t_header t)) by (by destruct (default_is_stmt _)).
  apply delivers_at_ret. rewrite El in *. destruct (t_header t) as [mi ds lb lr ob sl]. cbn [min_inst default_is_stmt line_base line_range opcode_base std_lens] in *.
  subst sl. f_equal; [f_equal; [f_equal|]|].
  - change (zlen (le_bytes 4 len)) with 4. lia.
  - unfold len. f_equal. lia.
  - unfold t_names. rewrite <- list_fmap_compose. apply list_fmap_ext. by intros ? [[[name dir] mt] sz] _.
Qed.

(** C10: from the bytes of .debug_line to a source line.  A table of
    DWARF 2, 3 or 4, written anywhere in the section by the encoding of the
    standard, whose program is a series of disjoint sequences, is parsed into a
    table that answers every address by the row in force there, naming its file
    with its directory joined, and answers nothing for an address no sequence
    spans, however the sequences are ordered or adjoin. *)
Theorem line_table_lookup (sec : Sections) (u : Unit_) (t : TableSrc) (seqs : list Seq) (pre rest : list Z) (pc : Z) :
  line sec = pre ++ enc_line_table t ++ rest -> zlen (line sec) < 2 ^ 63 -> table_ok t ->
  matrix (t_header t) (t_prog t) regs0 = table_rows seqs -> Forall seq_ok seqs -> ForallOrdPairs seq_apart seqs ->
  exists T, parse_lines sec u (zlen pre) = Done T /\ files T = t_names (default [] (comp_dir u)) t /\ v5 T = false /\
    (forall r, in_force seqs pc r -> find T pc = row_loc T r) /\
    ((forall r, ~ in_force seqs pc r) -> find T pc = None).
Proof.
  intros Hs Hl Ht Hm Hok Hap. pose proof Ht as (Hv & _ & _ & _ & _ & _ & _ & _ & Hops & _).
  exists (MkLineTable (sort_by row_le (table_rows seqs)) (t_names (default [] (comp_dir u)) t) false).
  pose proof (zlen_nonneg (enc_ops (t_prog t))). pose proof (zlen_nonneg (enc_fields t)). pose proof (zlen_nonneg pre). pose proof (zlen_nonneg rest).
  set (hd := le_bytes 4 (6 + zlen (enc_fields t) + zlen (enc_ops (t_prog t))) ++ le_bytes 2 (t_version t) ++ le_bytes 4 (zlen (enc_fields t)) ++ enc_fields t).
  assert (zlen hd = 10 + zlen (enc_fields t)) as Hh.
  { unfold hd. rewrite !zlen_app. unfold zlen. rewrite !length_le_bytes. lia. }
  assert (line sec = pre ++ hd ++ enc_ops (t_prog t) ++ rest) as Hs'.
  { rewrite Hs. unfold enc_line_table, hd. cbv zeta. by rewrite <- !app_assoc. }
  assert (zlen (line sec) = zlen pre + zlen hd + zlen (enc_ops (t_prog t)) + zlen rest) as Hz by (rewrite Hs', !zlen_app; lia).
  split_and!; [|done|done| |].
  - unfold parse_lines, run_rd. rewrite Hs'.
    pose proof (delivers_line_header sec u t (zlen pre) Ht ltac:(lia) ltac:(lia) pre (enc_ops (t_prog t) ++ rest) eq_refl) as Hd.
    fold hd in Hd. rewrite <- Hs' in Hd |- *. rewrite Hd by done. cbn [mbind outcome_bind].
    replace (Z.min _ _) with (zlen (pre ++ hd) + zlen (enc_ops (t_prog t))) by (rewrite zlen_app; lia). rewrite Hs'.
    replace (zlen pre + 10 + zlen (enc_fields t)) with (zlen (pre ++ hd)) by (rewrite zlen_app; lia).
    rewrite (app_assoc pre hd). unfold run_program. rewrite (run_ops _ (t_prog t) _ regs0 [] (pre ++ hd) rest); [|done|done| |].
    + cbn [app mbind outcome_bind]. rewrite Hm. by replace (5 <=? t_version t) with false by lia.
    + cbn [data]. pose proof (enc_ops_length (t_prog t)). rewrite !length_app. lia.
    + rewrite <- app_assoc, <- Hs'. done.
  - intros r Hr. rewrite find_scan. destruct (in_force_row seqs pc r Hok Hap Hr) as [-> Hre]. cbn [mbind option_bind]. by rewrite Hre.
  - intros Hno. rewrite find_scan. pose proof (no_row_in_force seqs pc Hok Hno) as Hr.
    destruct (the_row (table_rows seqs) pc) as [r|]; [|done]. cbn [mbind option_bind]. by rewrite Hr.
Qed.

(** Two functions, the second placed first. *)
Definition two_funcs : TableSrc :=
  MkTableSrc 4 header13 1 [bs "fs"] [(bs "open.c", 1, 0, 0); (bs "a.c", 0, 0, 0)]
    [SetAddress 0x2000; AdvanceLine 9; Copy; Special 200; AdvancePc 3; EndSequence;
     SetAddress 0x1000; SetFile 2; AdvanceLine 41; Copy; FixedAdvancePc 0x1000; EndSequence].
Definition two_seqs : list Seq :=
  [MkSeq [MkRow 0x2000 1 10 false; MkRow 0x200d 1 10 false] (MkRow 0x2010 1 10 true);
   MkSeq [MkRow 0x1000 2 42 false] (MkRow 0x2000 2 42 true)].

Lemma line_table_lookup_witness :
  let sec := line_only ([99] ++ enc_line_table two_funcs ++ [1; 2]) in
  table_ok two_funcs /\ matrix header13 (t_prog two_funcs) regs0 = table_rows two_seqs /\ Forall seq_ok two_seqs /\
  ForallOrdPairs seq_apart two_seqs /\
  exists T, parse_lines sec bare_unit 1 = Done T /\ files T = t_names [] two_funcs /\ v5 T = false /\
    (forall r, in_force two_seqs 0x2000 r -> find T 0x2000 = row_loc T r) /\
    ((forall r, ~ in_force two_seqs 0x2000 r) -> find T 0x2000 = None).
Proof.
  assert (table_ok two_funcs) as H1.
  { assert (forall s : list Z, forallb (fun c => negb (c =? 0)) s = true -> 0 ∉ s) as Hz.
    { induction s as [|x s IH]; intros Hs; [apply not_elem_of_nil|]. apply andb_prop in Hs as [Hx Hs]. apply not_elem_of_cons. split; [lia|auto]. }
    unfold table_ok. cbn [two_funcs t_version t_header t_dirs t_files t_prog header13 line_base line_range opcode_base std_lens].
    split_and!; [lia|lia|lia|lia|lia|lia|reflexivity|reflexivity| | | |vm_compute; reflexivity].
    - repeat constructor; [discriminate|by apply Hz].
    - repeat constructor; try discriminate; try (by apply Hz); unfold is_u64; lia.
    - repeat constructor; cbn; unfold is_u64, is_i64, is_u16; lia. }
  assert (matrix header13 (t_prog two_funcs) regs0 = table_rows two_seqs) as H2 by (vm_compute; reflexivity).
  assert (Forall seq_ok two_seqs) as H3.
  { repeat constructor; cbn; try discriminate; lia. }
  assert (ForallOrdPairs seq_apart two_seqs) as H4 by (repeat constructor; cbn; lia).
  split_and!; [exact H1|exact H2|exact H3|exact H4|].
  apply (line_table_lookup (line_only ([99] ++ enc_line_table two_funcs ++ [1; 2])) bare_unit two_funcs two_seqs [99] [1; 2] 0x2000 eq_refl); [vm_compute; reflexivity|exact H1|exact H2|exact H3|exact H4].
Defined.
