(* ===== verification/DwarfFuncs.v ===== *)
(** dwarf/unit.rs: the function table of a unit, built by one walk over its
    entries, and the innermost function at an address. *)
From S2P Require Import Prelude Text SortScan DwarfReader DwarfCodec DwarfTables DwarfAranges DwarfUnit.
Import Cursor.

Definition DW_TAG_CLASS_TYPE : Z := 0x02.
Definition DW_TAG_ENUMERATION_TYPE : Z := 0x04.
Definition DW_TAG_STRUCTURE_TYPE : Z := 0x13.
Definition DW_TAG_UNION_TYPE : Z := 0x17.
Definition DW_TAG_INLINED_SUBROUTINE : Z := 0x1d.
Definition DW_TAG_SUBPROGRAM : Z := 0x2e.
Definition DW_TAG_NAMESPACE : Z := 0x39.

Definition qualifies (lang : Z) : bool :=
  (lang =? 0x04) || (lang =? 0x19) || (lang =? 0x1a) || (lang =? 0x1c) || (lang =? 0x21) || (lang =? 0x2b).

Inductive Name : Type :=
  | NameNone
  | NameDirect (s : list Z)
  | NameDie (o : Z).

Record Inl : Type := MkInl { i_start : Z; i_end : Z; i_depth : Z; i_name : Name }.
Record Sub : Type := MkSub { sub_name : Name; inlines : list Inl }.
Record FuncTable : Type := MkFuncTable { f_ranges : list (Z * Z * Z); subs : list Sub; names : gmap Z (list Z) }.

(** * Lookup *)

(** The last [n] ranges before index [i], newest first. *)
Fixpoint sub_back (t : FuncTable) (pc i : Z) (n : nat) : outcome (option Sub) :=
  match n with
  | O => Done None
  | S n' =>
      '(s, e, j) ← idx (f_ranges t) (i - 1);
      if (s <=? pc) && (pc <? e) then Done (get (subs t) j) else sub_back t pc (i - 1) n'
  end.

(** Strictly deeper only: the first of the deepest. *)
Definition deeper (pc : Z) (inner : option Inl) (i : Inl) : option Inl :=
  if (i_start i <=? pc) && (pc <? i_end i) && match inner with None => true | Some b => i_depth b <? i_depth i end
  then Some i else inner.

Definition find_func (t : FuncTable) (pc : Z) : outcome (option Name) :=
  let i := partition_point (fun r => fst (fst r) <=? pc) (f_ranges t) in
  best ← sub_back t pc i (Z.to_nat (Z.min i 4));
  Done match best with
       | None => None
       | Some sub => Some match foldl (deeper pc) None (inlines sub) with
                          | Some i => i_name i
                          | None => sub_name sub
                          end
       end.

(** * The walk *)

Record DieAttrs : Type := MkDieAttrs
  { a_name : option Val; a_lo : option Val; a_hi : option Val; a_ranges : option Val; a_origin : option Val; a_spec : option Val }.
Definition no_attrs : DieAttrs := MkDieAttrs None None None None None None.

Definition die_attr (a : DieAttrs) (at_ : Z) (v : Val) : DieAttrs :=
  let '(MkDieAttrs n lo hi rs og sp) := a in
  if at_ =? DW_AT_NAME then MkDieAttrs (Some v) lo hi rs og sp
  else if at_ =? DW_AT_LOW_PC then MkDieAttrs n (Some v) hi rs og sp
  else if at_ =? DW_AT_HIGH_PC then MkDieAttrs n lo (Some v) rs og sp
  else if at_ =? DW_AT_RANGES then MkDieAttrs n lo hi (Some v) og sp
  else if at_ =? DW_AT_ABSTRACT_ORIGIN then MkDieAttrs n lo hi rs (Some v) sp
  else if at_ =? DW_AT_SPECIFICATION then MkDieAttrs n lo hi rs og (Some v)
  else a.

(** The stacks of the walk, top first. *)
Record Walk : Type := MkWalk
  { depth : Z; scopes : list (Z * list Z); cur_sub : option (Z * Z); inl_stack : list Z; ft : FuncTable }.

Fixpoint drop_while {A} (p : A -> bool) (l : list A) : list A :=
  match l with x :: t => if p x then drop_while p t else l | [] => [] end.

(** The end of a list of children. *)
Definition pop_level (w : Walk) : ctl Walk FuncTable :=
  let d := as_i32 (depth w - 1) in
  if d <=? 0 then Stop (ft w)
  else Next (MkWalk d (drop_while (fun s => d <=? fst s) (scopes w))
               (match cur_sub w with Some (_, k) => if d <=? k then None else cur_sub w | None => None end)
               (drop_while (fun k => d <=? k) (inl_stack w)) (ft w)).

Definition qualified (scopes : list (Z * list Z)) (s : list Z) : list Z :=
  concat ((fun sc => snd sc ++ bs "::") <$> reverse scopes) ++ s.

Definition die_direct (sec : Sections) (u : Unit_) (w : Walk) (a : DieAttrs) : option (list Z) :=
  v ← a_name a;
  s ← string_of sec u v;
  Some (if qualifies (lang u) && negb (bool_decide (scopes w = [])) then qualified (scopes w) (lossy s) else lossy s).

Definition die_resolved (direct : option (list Z)) (a : DieAttrs) : Name :=
  match direct, a_origin a, a_spec a with
  | Some d, _, _ => NameDirect d
  | None, Some (VRef o), _ => NameDie o
  | None, None, Some (VRef o) => NameDie o
  | _, _, _ => NameNone
  end.

Definition on_subprogram (w : Walk) (ab : Abbrev) (die_off : Z) (direct : option (list Z)) (resolved : Name) (rs : list (Z * Z)) : Walk :=
  let t := ft w in
  let nm := match direct with Some d => <[die_off := d]> (names t) | None => names t end in
  match rs with
  | [] => MkWalk (depth w) (scopes w) (cur_sub w) (inl_stack w) (MkFuncTable (f_ranges t) (subs t) nm)
  | _ =>
      let i := zlen (subs t) in
      MkWalk (depth w) (scopes w) (if children ab then Some (i, depth w) else cur_sub w) (inl_stack w)
        (MkFuncTable (f_ranges t ++ ((fun '(s, e) => (s, e, as_u32 i)) <$> rs)) (subs t ++ [MkSub resolved []]) nm)
  end.

(** [ft.subs[idx].inlines.push(..)] *)
Definition add_inlines (t : FuncTable) (i d : Z) (resolved : Name) (rs : list (Z * Z)) : outcome FuncTable :=
  match rs with
  | [] => Done t
  | _ =>
      s ← idx (subs t) i;
      l ← upd (subs t) i (MkSub (sub_name s) (inlines s ++ ((fun '(a, e) => MkInl a e d resolved) <$> rs)));
      Done (MkFuncTable (f_ranges t) l (names t))
  end.

Definition on_inlined (sec : Sections) (u : Unit_) (w : Walk) (ab : Abbrev) (a : DieAttrs) (resolved : Name) : outcome Walk :=
  t ← match cur_sub w with
      | Some (i, _) =>
          rs ← die_ranges sec u (a_lo a) (a_hi a) (a_ranges a);
          add_inlines (ft w) i (as_u16 (as_u16 (zlen (inl_stack w)) + 1)) resolved rs
      | None => Done (ft w)
      end;
  Done (MkWalk (depth w) (scopes w) (cur_sub w) (if children ab then depth w :: inl_stack w else inl_stack w) t).

Definition is_scope (tag : Z) : bool :=
  (tag =? DW_TAG_NAMESPACE) || (tag =? DW_TAG_STRUCTURE_TYPE) || (tag =? DW_TAG_CLASS_TYPE) ||
  (tag =? DW_TAG_UNION_TYPE) || (tag =? DW_TAG_ENUMERATION_TYPE).

Definition on_scope (sec : Sections) (u : Unit_) (w : Walk) (a : DieAttrs) : Walk :=
  let plain := match (v ← a_name a; string_of sec u v) with Some s => lossy s | None => bs "{anon}" end in
  MkWalk (depth w) ((depth w, plain) :: scopes w) (cur_sub w) (inl_stack w) (ft w).

Definition on_die (sec : Sections) (u : Unit_) (w : Walk) (ab : Abbrev) (die_off : Z) (a : DieAttrs) : outcome Walk :=
  let direct := die_direct sec u w a in
  let resolved := die_resolved direct a in
  w ← (if tag ab =? DW_TAG_SUBPROGRAM then
         rs ← die_ranges sec u (a_lo a) (a_hi a) (a_ranges a);
         Done (on_subprogram w ab die_off direct resolved rs)
       else if tag ab =? DW_TAG_INLINED_SUBROUTINE then on_inlined sec u w ab a resolved
       else if is_scope (tag ab) && qualifies (lang u) && children ab then Done (on_scope sec u w a)
       else Done w);
  Done (if children ab then MkWalk (as_i32 (depth w + 1)) (scopes w) (cur_sub w) (inl_stack w) (ft w) else w).

Definition rd_lift {A} (m : outcome A) : rd A := fun c => a ← m; Done (a, c).

Definition walk_die (sec : Sections) (u : Unit_) (w : Walk) (die_off : Z) : rd (ctl Walk FuncTable) :=
  code ← uleb;
  if code =? 0 then mret (pop_level w)
  else
    match get_abbrev (abbrevs u) code with
    | None => rd_fail
    | Some ab =>
        a ← read_attrs (shape u) die_attr (attrs ab) no_attrs;
        w ← rd_lift (on_die sec u w ab die_off a);
        mret (Next w)
    end.

Definition walk_step (sec : Sections) (u : Unit_) (w : Walk) : rd (ctl Walk FuncTable) :=
  die_off ← rd_pos;
  if u_end u <=? die_off then mret (Stop (ft w)) else walk_die sec u w die_off.

Definition walk0 : Walk := MkWalk 0 [] None [] (MkFuncTable [] [] ∅).

Definition walk `{UnstableSort} (sec : Sections) (u : Unit_) : outcome FuncTable :=
  t ← rd_while (walk_step sec u) ft walk0 (MkCur (info sec) (die_off u));
  Done (MkFuncTable (usort (fun r => fst (fst r)) (f_ranges t)) (subs t) (names t)).

(** * Totality *)

(** The subprogram being walked is in the table. *)
Definition walk_ok (w : Walk) : Prop := match cur_sub w with Some (i, _) => 0 <= i < zlen (subs (ft w)) | None => True end.
Definition die_ok (a : DieAttrs) : Prop := opt_ok (a_ranges a).

Lemma die_attr_ok a at_ v : die_ok a -> val_ok v -> die_ok (die_attr a at_ v).
Proof.
  destruct a. intros Ha Hv. unfold die_attr.
  by repeat match goal with |- die_ok (if ?b then _ else _) => destruct b end.
Qed.

Lemma wp_add_inlines t i d r rs : 0 <= i < zlen (subs t) -> wp (add_inlines t i d r rs) (fun t' => zlen (subs t') = zlen (subs t)) False.
Proof.
  intros Hi. unfold add_inlines. destruct rs as [|x rs]; [done|]. destruct (idx_Done (subs t) i Hi) as (s & -> & _).
  cbn [mbind outcome_bind]. apply wp_bind, wp_upd; [done|]. cbn. by rewrite zlen_insert.
Qed.

Lemma wp_on_die s u w ab o a : sections_ok s -> walk_ok w -> die_ok a -> wp (on_die s u w ab o a) walk_ok False.
Proof.
  intros Hs Hw Ha. unfold on_die. apply wp_bind. eapply (wp_mono _ walk_ok); [|by destruct (children ab)|done].
  destruct (_ =? _).
  { apply wp_bind. eapply wp_mono; [by apply wp_die_ranges| |done]. intros rs _. unfold on_subprogram. cbn [wp].
    destruct rs as [|r rs]; [done|]. pose proof (zlen_nonneg (subs (ft w))). unfold walk_ok in *. cbn. rewrite zlen_app, zlen_cons.
    change (zlen []) with 0. destruct (children ab); [lia|]. destruct (cur_sub w) as [[i k]|]; [lia|done]. }
  destruct (_ =? _).
  { unfold on_inlined. apply wp_bind. unfold walk_ok in Hw. destruct (cur_sub w) as [[i k]|] eqn:Ec; [|done].
    apply wp_bind. eapply wp_mono; [by apply wp_die_ranges| |done]. intros rs _.
    eapply wp_mono; [by apply wp_add_inlines| |done]. intros t Ht. unfold walk_ok. cbn. by rewrite Ht. }
  by destruct (_ && _).
Qed.

Lemma pop_level_ok w : walk_ok w -> match pop_level w with Next w' => walk_ok w' | Stop _ => True end.
Proof.
  intros Hw. unfold pop_level. destruct (_ <=? 0); [done|]. unfold walk_ok in *. cbn.
  destruct (cur_sub w) as [[i k]|]; [|done]. by destruct (_ <=? k).
Qed.

Lemma reads_walk_die s u w o : sections_ok s -> unit_ok s u -> walk_ok w ->
  reads 1 (fun x => match x with Next w' => walk_ok w' | Stop _ => True end) (walk_die s u w o).
Proof.
  intros Hs Hu Hw. unfold walk_die. apply (reads_weaken (1 + 0)); [|lia].
  eapply reads_bind; [apply reads_uleb| |lia|lia]. intros code _. destruct (code =? 0); [by apply reads_ret, pop_level_ok|].
  destruct (get_abbrev _ _) as [ab|] eqn:Ea; [|apply reads_fail]. apply (reads_weaken (0 + (0 + 0))); [|lia].
  eapply reads_bind; [apply (reads_attrs die_ok); [apply die_attr_ok|by eapply abbrevs_ok_get; [apply Hu|]|done]| |lia|lia]. intros a Ha.
  eapply (reads_bind 0 0 walk_ok); [| |lia|lia].
  - intros c Hc. unfold rd_lift. apply wp_bind. eapply wp_mono; [by apply wp_on_die| |done]. intros w' Hw'. cbn. split_and!; [done|done|lia|by right].
  - intros w' Hw'. by apply reads_ret.
Qed.

Lemma wp_walk `{UnstableSort} s u : sections_ok s -> unit_ok s u -> wp (walk s u) (fun _ => True) False.
Proof.
  intros Hs Hu. unfold walk. apply wp_bind.
  eapply (wp_mono _ (fun _ => True)); [apply (wp_while_bounded _ _ walk_ok (fun _ => True)); [|done|done|]|done|done].
  - intros w c Hw Hc. unfold walk_step. rewrite rd_pos_bind. destruct (_ <=? _); [left; by eexists|]. right. eexists. split; [done|]. by apply reads_walk_die.
  - apply cur_at; [apply Hs|apply Hu].
Qed.

Lemma wp_sub_back t pc i n : Z.of_nat n <= i <= zlen (f_ranges t) -> wp (sub_back t pc i n) (fun _ => True) False.
Proof.
  revert i. induction n as [|n IH]; intros i Hi; [done|]. cbn [sub_back].
  destruct (idx_Done (f_ranges t) (i - 1)) as ([[s e] j] & -> & _); [lia|]. cbn [mbind outcome_bind].
  destruct (_ && _); [done|]. apply IH. lia.
Qed.

Lemma wp_find_func t pc : wp (find_func t pc) (fun _ => True) False.
Proof.
  unfold find_func. apply wp_bind. pose proof (partition_point_bound (fun r : Z * Z * Z => fst (fst r) <=? pc) (f_ranges t)).
  eapply wp_mono; [apply wp_sub_back; lia|done|done].
Qed.

(** * The innermost function *)

Definition inl_has (pc : Z) (i : Inl) : bool := (i_start i <=? pc) && (pc <? i_end i).

(** The name of a subprogram at [pc]: its deepest inlined call there (the first
    recorded of equally deep ones), or its own. *)
Inductive innermost (sub : Sub) (pc : Z) : Name -> Prop :=
  | innermost_inl pre i post :
      inlines sub = pre ++ i :: post -> inl_has pc i = true ->
      Forall (fun j => inl_has pc j = true -> i_depth j < i_depth i) pre ->
      Forall (fun j => inl_has pc j = true -> i_depth j <= i_depth i) post ->
      innermost sub pc (i_name i)
  | innermost_sub : Forall (fun j => inl_has pc j = false) (inlines sub) -> innermost sub pc (sub_name sub).

Definition shallower (a b : Inl) : bool := i_depth b <=? i_depth a.

Lemma deeper_scan pc l : foldl (deeper pc) None l = scan_first shallower (inl_has pc) l.
Proof.
  unfold scan_first. generalize (@None Inl). induction l as [|x l IH]; intros b; [done|]. cbn [foldl]. rewrite <- IH. f_equal.
  unfold deeper, pick_first, shallower. fold (inl_has pc x). destruct (inl_has pc x), b as [b|]; cbn; try done.
  destruct (Z.ltb_spec (i_depth b) (i_depth x)), (Z.leb_spec (i_depth x) (i_depth b)); (done || lia).
Qed.

Lemma shallower_total a b : shallower a b = true \/ shallower b a = true.
Proof. unfold shallower. lia. Qed.
Lemma shallower_trans a b c : shallower a b = true -> shallower b c = true -> shallower a c = true.
Proof. unfold shallower. lia. Qed.

Lemma innermost_found sub pc : innermost sub pc
  (match foldl (deeper pc) None (inlines sub) with Some i => i_name i | None => sub_name sub end).
Proof.
  rewrite deeper_scan. destruct (scan_first _ _ _) as [i|] eqn:E.
  - apply (scan_first_spec _ shallower_total shallower_trans) in E as (pre & post & Hl & Hi & Hpre & Hpost).
    eapply innermost_inl; [done|done| |]; (eapply Forall_impl; [eassumption|]); cbv beta; unfold shallower; intros j Hj Hp; specialize (Hj Hp); lia.
  - apply innermost_sub. apply Forall_forall. intros j Hj. destruct (inl_has pc j) eqn:Hp; [|done]. exfalso.
    rewrite <- (sorted_first_scan _ shallower_total shallower_trans) in E.
    assert (j ∈ filter (fun x => inl_has pc x = true) (sort_by shallower (inlines sub))) as Hin
      by (apply list_elem_of_filter; split; [done|by rewrite sort_by_perm]).
    destruct (filter _ _); [by apply not_elem_of_nil in Hin|done].
Qed.

Lemma sub_back_sound t pc i n : Z.of_nat n <= i <= zlen (f_ranges t) ->
  wp (sub_back t pc i n) (fun o => o = None \/ exists s e j, (s, e, j) ∈ f_ranges t /\ s <= pc < e /\ o = get (subs t) j) False.
Proof.
  revert i. induction n as [|n IH]; intros i Hi; [by left|]. cbn [sub_back].
  destruct (idx_Done (f_ranges t) (i - 1)) as ([[s e] j] & -> & Hr); [lia|]. cbn [mbind outcome_bind].
  destruct (_ && _) eqn:E; [|apply IH; lia]. right. exists s, e, j. split_and!; [by eapply get_elem_of|lia|lia|done].
Qed.

Notation r_start r := (fst (fst r)).
Notation r_end r := (snd (fst r)).

(** The range that holds [pc] is the last to start at or below it. *)
Lemma sub_back_complete t pc s e j : StronglySorted (fun a b : Z * Z * Z => r_end a <= r_start b) (f_ranges t) ->
  Forall (fun r : Z * Z * Z => r_start r < r_end r) (f_ranges t) -> (s, e, j) ∈ f_ranges t -> s <= pc < e ->
  let i := partition_point (fun r : Z * Z * Z => r_start r <=? pc) (f_ranges t) in
  sub_back t pc i (Z.to_nat (Z.min i 4)) = Done (get (subs t) j).
Proof.
  intros Hs Hne (A & B & El)%list_elem_of_split Hpc i. rewrite El in Hs, Hne.
  assert (i = zlen A + 1) as ->.
  { unfold i. rewrite El. apply StronglySorted_app in Hs as (HAB & _ & Hr). rewrite partition_point_app.
    - cbn [partition_point fst]. replace (s <=? pc) with true by lia. f_equal. inversion Hr as [|? ? _ HB]; subst.
      destruct B as [|b B]; [done|]. apply Forall_cons in HB as [Hb _]. cbn [partition_point fst snd] in *. by replace (r_start b <=? pc) with false by lia.
    - apply Forall_forall. intros a Ha. pose proof (HAB a _ Ha ltac:(by left)) as Hab.
      rewrite Forall_app, !Forall_forall in Hne. pose proof (proj1 Hne a Ha). cbn [fst snd] in *. lia. }
  pose proof (zlen_nonneg A). destruct (Z.to_nat (Z.min (zlen A + 1) 4)) as [|n] eqn:En; [lia|]. cbn [sub_back].
  unfold idx. rewrite El. replace (zlen A + 1 - 1) with (zlen A + 0) by lia. rewrite get_app_r, get_cons by lia. cbn.
  by replace ((s <=? pc) && (pc <? e)) with true by (symmetry; apply andb_true_iff; lia).
Qed.

(** The function at an address.  In a table of disjoint ranges whose
    subprograms exist, the lookup finds the subprogram whose range contains the
    address and names the innermost inlined function there, or the subprogram
    itself outside every inlined call; it finds nothing exactly when no range
    contains the address. *)
Theorem find_func_innermost (t : FuncTable) (pc : Z) :
  StronglySorted (fun a b : Z * Z * Z => r_end a <= r_start b) (f_ranges t) ->
  Forall (fun r : Z * Z * Z => r_start r < r_end r /\ is_Some (get (subs t) (snd r))) (f_ranges t) ->
  match find_func t pc with
  | Done (Some n) => exists s e j sub, (s, e, j) ∈ f_ranges t /\ s <= pc < e /\ get (subs t) j = Some sub /\ innermost sub pc n
  | Done None => forall s e j, (s, e, j) ∈ f_ranges t -> ~ s <= pc < e
  | _ => False
  end.
Proof.
  intros Hs Hr. unfold find_func. pose proof (partition_point_bound (fun r : Z * Z * Z => r_start r <=? pc) (f_ranges t)).
  assert (Forall (fun r : Z * Z * Z => r_start r < r_end r) (f_ranges t)) as Hne by (eapply Forall_impl; [exact Hr|]; by intros r [? _]).
  pose proof (sub_back_complete t pc) as Hc. set (i := partition_point _ _) in *.
  pose proof (sub_back_sound t pc i (Z.to_nat (Z.min i 4)) ltac:(lia)) as Hb.
  destruct (sub_back t pc i (Z.to_nat (Z.min i 4))) as [[sub|]| | |] eqn:E; try done; cbn [mbind outcome_bind wp] in *.
  - destruct Hb as [|(s & e & j & Hin & Hpc & Hj)]; [done|]. exists s, e, j, sub. split_and!; [done|lia|lia|done|apply innermost_found].
  - intros s e j Hin Hpc. specialize (Hc s e j Hs Hne Hin Hpc). fold i in Hc. cbv zeta in Hc. rewrite E in Hc. injection Hc as Hc.
    rewrite Forall_forall in Hr. destruct (Hr _ Hin) as [_ [x Hx]]. cbn [snd] in Hx. congruence.
Qed.

Lemma find_func_innermost_witness :
  let t := MkFuncTable [(0x10, 0x20, 1); (0x20, 0x40, 0)]
    [MkSub (NameDirect [97]) [MkInl 0x22 0x30 1 (NameDirect [98]); MkInl 0x24 0x28 2 (NameDie 7)]; MkSub NameNone []] ∅ in
  StronglySorted (fun a b : Z * Z * Z => r_end a <= r_start b) (f_ranges t) /\
  find_func t 0x25 = Done (Some (NameDie 7)) /\
  match find_func t 0x25 with
  | Done (Some n) => exists s e j sub, (s, e, j) ∈ f_ranges t /\ s <= 0x25 < e /\ get (subs t) j = Some sub /\ innermost sub 0x25 n
  | Done None => forall s e j, (s, e, j) ∈ f_ranges t -> ~ s <= 0x25 < e
  | _ => False
  end.
Proof.
  match goal with |- let t := ?x in _ => assert (StronglySorted (fun a b : Z * Z * Z => r_end a <= r_start b) (f_ranges x)) as H1 end.
  { repeat constructor; cbn; lia. }
  split_and!; [exact H1|reflexivity|]. apply find_func_innermost; [exact H1|].
  repeat constructor; cbn; try lia; by eexists.
Defined.
