(* ===== verification/DwarfSymbolizer.v ===== *)
(** dwarf/mod.rs: opening a vmlinux and resolving addresses.

    The state of the symbolizer that can influence a result is the set of units
    whose function table has been built ([funcs.get()] in [die_name] looks
    without building); every other cache holds values recomputed identically. *)
From S2P Require Import Prelude Text DwarfReader DwarfCodec DwarfTables DwarfAranges DwarfUnit DwarfLine DwarfFuncs.
Import Cursor.

Record Symbolizer : Type := MkSymbolizer
  { sec : Sections; symtab_raw : list Z * list Z; s_aranges : list Range; unit_offsets : list Z }.

(** Offsets of the units whose function table exists. *)
Definition Cache : Type := gset Z.

(** A failure that the caller takes as [None]. *)
Definition attempt {A} (m : outcome A) : outcome (option A) :=
  match m with Done a => Done (Some a) | Fail => Done None | Panic => Panic | Fuel => Fuel end.

(** * Clone suffixes *)

Definition CLONE_SUFFIXES : list (list Z) :=
  [bs ".constprop"; bs ".isra"; bs ".part"; bs ".cold"; bs ".lto_priv"; bs ".llvm"; bs ".sra"].

Definition canonical_function (func : list Z) : list Z :=
  take (Z.to_nat (foldl (fun e s => match find_sub s func with Some i => Z.min e i | None => e end) (zlen func) CLONE_SUFFIXES)) func.

Section Symbolizer.
Context `{UnstableSort}.

Definition open (data : list Z) : outcome Symbolizer :=
  elf ← parse_elf data;
  info ← section elf (bs ".debug_info");
  abbrev ← section elf (bs ".debug_abbrev");
  str ← section elf (bs ".debug_str");
  line ← section elf (bs ".debug_line");
  line_str ← section elf (bs ".debug_line_str");
  ranges ← section elf (bs ".debug_ranges");
  rnglists ← section elf (bs ".debug_rnglists");
  addr ← section elf (bs ".debug_addr");
  str_offsets ← section elf (bs ".debug_str_offsets");
  aranges ← section elf (bs ".debug_aranges");
  if bool_decide (info = []) then Fail else
  '(rs, units) ← parse_aranges aranges;
  Done (MkSymbolizer (MkSections info abbrev str line line_str ranges rnglists addr str_offsets aranges)
          (symtab elf) rs units).

Definition unit_containing (s : Symbolizer) (o : Z) : outcome (option Unit_) :=
  let i := partition_point (fun u => u <=? o) (unit_offsets s) in
  if i =? 0 then Done None else
  match get (unit_offsets s) (i - 1) with
  | None => Done None
  | Some uoff =>
      u ← attempt (parse_unit (sec s) uoff);
      Done match u with Some u => if o <? u_end u then Some u else None | None => None end
  end.

(** The names the function table of [u] holds, if it has been built. *)
Definition cached_name (s : Symbolizer) (c : Cache) (u : Unit_) (o : Z) : outcome (option (list Z)) :=
  if bool_decide (shape_off (shape u) ∈ c) then t ← walk (sec s) u; Done (names t !! o) else Done None.

Definition name_attr (a : option Val * option Z) (at_ : Z) (v : Val) : option Val * option Z :=
  let '(name, next) := a in
  if at_ =? DW_AT_NAME then (Some v, next)
  else if (at_ =? DW_AT_ABSTRACT_ORIGIN) || (at_ =? DW_AT_SPECIFICATION) then
    (name, match v with VRef o => Some o | _ => next end)
  else a.

(** [die_name] of a unit with [hops = 5 - n]; the symbolizer's [die_name] finds
    the unit first. *)
Fixpoint die_name (n : nat) (s : Symbolizer) (c : Cache) (u : Unit_) (o : Z) : outcome (option (list Z)) :=
  k ← cached_name s c u o;
  match k, n with
  | Some name, _ => Done (Some name)
  | None, O => Done None
  | None, S n' =>
      if (o <? die_off u) || (u_end u <=? o) then Done None else
      r ← attempt (run_rd (
        code ← uleb;
        match get_abbrev (abbrevs u) code with
        | None => rd_fail
        | Some ab => read_attrs (shape u) name_attr (attrs ab) (None, None)
        end) (info (sec s)) o);
      match r with
      | None => Done None
      | Some (name, next) =>
          match (v ← name; string_of (sec s) u v), next with
          | Some str, _ => Done (Some (lossy str))
          | None, None => Done None
          | None, Some o' =>
              u' ← unit_containing s o';
              match u' with Some u' => die_name n' s c u' o' | None => Done None end
          end
      end
  end.

Definition name_string (s : Symbolizer) (c : Cache) (u : Unit_) (n : Name) : outcome (option (list Z)) :=
  match n with
  | NameNone => Done None
  | NameDirect str => Done (Some str)
  | NameDie o =>
      if (die_off u <=? o) && (o <? u_end u) then die_name 5 s c u o
      else
        u' ← unit_containing s o;
        match u' with Some u' => die_name 5 s c u' o | None => Done None end
  end.

(** * The index built from every unit header *)

Definition full_step (s : Symbolizer) (st : Z * list Range) : outcome (ctl (Z * list Range) (list Range)) :=
  let '(o, v) := st in
  if zlen (info (sec s)) <=? o then Done (Stop v)
  else
    h ← attempt (parse_header (info (sec s)) o);
    match h with
    | None => Done (Stop v)
    | Some h =>
        u ← attempt (parse_unit (sec s) o);
        rs ← match u with Some u => address_ranges (sec s) u | None => Done [] end;
        Done (Next (h_end h, v ++ ((fun '(a, e) => MkRange a e o) <$> rs)))
    end.

Definition full_index (s : Symbolizer) : outcome (list Range) :=
  v ← loop (S (S (length (info (sec s))))) (full_step s) (0, []);
  Done (usort start v).

(** [force_full]: VOCK_DWARF_FULL_INDEX is set. *)
Definition unit_offset_for_pc (force_full : bool) (s : Symbolizer) (pc : Z) : outcome (option Z) :=
  u ← (if force_full then Done None else find_range (s_aranges s) pc);
  match u with
  | Some u => Done (Some u)
  | None => v ← full_index s; find_range v pc
  end.

(** * Resolving *)

Definition lines_of (s : Symbolizer) (u : Unit_) : outcome (option LineTable) :=
  match stmt_list u with Some o => attempt (parse_lines (sec s) u o) | None => Done None end.

Definition fmt_loc (l : list Z * Z) : list Z := fst l ++ [58] ++ fmt_dec (snd l).

Definition resolve_in (s : Symbolizer) (c : Cache) (u : Unit_) (pc : Z) : outcome (option (list Z) * option (list Z) * Cache) :=
  l ← lines_of s u;
  let loc := match l with Some t => fmt_loc <$> find t pc | None => None end in
  t ← walk (sec s) u;
  let c := {[shape_off (shape u)]} ∪ c in
  n ← find_func t pc;
  f ← match n with Some n => name_string s c u n | None => Done None end;
  Done (f, loc, c).

Definition resolve (force_full : bool) (s : Symbolizer) (c : Cache) (pc : Z) : outcome (list Z * list Z * Cache) :=
  o ← unit_offset_for_pc force_full s pc;
  u ← match o with Some o => attempt (parse_unit (sec s) o) | None => Done None end;
  '(func, loc, c) ← match u with Some u => resolve_in s c u pc | None => Done (None, None, c) end;
  func ← match func with
         | Some f => Done (Some f)
         | None => b ← attempt (before (parse_symtab (fst (symtab_raw s)) (snd (symtab_raw s))) pc);
                   Done match b with Some n => Some (canonical_function (lossy n)) | None => None end
         end;
  Done (default (bs "??") func, default (bs "??:0") loc, c).

(** A batch, in order, on one symbolizer. *)
Fixpoint resolve_all (force_full : bool) (s : Symbolizer) (c : Cache) (pcs : list Z) : outcome (list (list Z * list Z)) :=
  match pcs with
  | [] => Done []
  | pc :: pcs =>
      '(f, l, c) ← resolve force_full s c pc;
      r ← resolve_all force_full s c pcs;
      Done ((f, l) :: r)
  end.

End Symbolizer.

(** * Totality *)

Section SymbolizerTotal.
Context `{UnstableSort}.

Definition symbolizer_ok (s : Symbolizer) : Prop :=
  sections_ok (sec s) /\ Forall (fun r => 0 <= unit_ r) (s_aranges s) /\ Forall (fun o => 0 <= o) (unit_offsets s).

Lemma wp_attempt {A} (m : outcome A) (Q : A -> Prop) : wp m Q True ->
  wp (attempt m) (fun o => match o with Some a => Q a | None => True end) False.
Proof using. by destruct m. Qed.

Notation some_unit s := (fun o => match o with Some u => unit_ok (sec s) u | None => True end).

Lemma wp_unit_containing s o : symbolizer_ok s -> wp (unit_containing s o) (some_unit s) False.
Proof using.
  intros (Hs & _ & Hu). unfold unit_containing. destruct (_ =? 0); [done|]. destruct (get _ _) as [uo|] eqn:E; [|done].
  apply get_elem_of in E. rewrite Forall_forall in Hu. apply wp_bind.
  eapply wp_mono; [by apply wp_attempt, wp_parse_unit, Hu| |done]. intros [u|] Hok; [|done]. by destruct (_ <? _).
Qed.

Lemma wp_cached_name s c u o : symbolizer_ok s -> unit_ok (sec s) u -> wp (cached_name s c u o) (fun _ => True) False.
Proof using.
  intros (Hs & _) Hu. unfold cached_name. destruct (bool_decide _); [|done]. apply wp_bind. by eapply wp_mono; [by apply wp_walk| |done].
Qed.

Lemma wp_die_name n s c u o : symbolizer_ok s -> unit_ok (sec s) u -> wp (die_name n s c u o) (fun _ => True) False.
Proof using.
  intros Hs. revert u o. induction n as [|n IH]; intros u o Hu; cbn [die_name]; apply wp_bind;
    (eapply wp_mono; [by apply wp_cached_name| |done]); intros [k|] _; try done.
  destruct (Z.ltb_spec o (die_off u)) as [|Ho]; [done|]. cbn [orb]. destruct (_ <=? o); [done|]. apply wp_bind.
  destruct Hs as (Hsec & Hs'). pose proof Hu as (Hab & Hd & _).
  eapply (wp_mono _ (fun _ => True)); [| |done].
  - eapply wp_mono; [apply wp_attempt; apply (wp_run_rd _ 1 (fun _ => True)); [|apply Hsec|apply Hsec|lia]|done|done].
    apply (reads_weaken (1 + 0)); [|lia]. eapply reads_bind; [apply reads_uleb| |lia|lia]. intros code _.
    destruct (get_abbrev _ _) as [a|] eqn:Ea; [|apply reads_fail]. apply (reads_attrs (fun _ => True)); [done|by eapply abbrevs_ok_get|done].
  - intros [[name next]|] _; [|done]. destruct (name ≫= _); [done|]. destruct next as [o'|]; [|done]. apply wp_bind.
    eapply wp_mono; [by apply wp_unit_containing| |done]. intros [u'|] Hu'; [|done]. by apply IH.
Qed.

Lemma wp_name_string s c u n : symbolizer_ok s -> unit_ok (sec s) u -> wp (name_string s c u n) (fun _ => True) False.
Proof using.
  intros Hs Hu. unfold name_string. destruct n as [|str|o]; [done..|]. destruct (_ && _); [by apply wp_die_name|]. apply wp_bind.
  eapply wp_mono; [by apply wp_unit_containing| |done]. intros [u'|] Hu'; [|done]. by apply wp_die_name.
Qed.

Notation unit_range := (fun r => 0 <= unit_ r).

Lemma wp_full_index s : symbolizer_ok s -> wp (full_index s) (Forall unit_range) False.
Proof using.
  intros (Hs & _). unfold full_index. apply wp_bind.
  eapply wp_mono; [apply (wp_loop (fun st => 0 <= fst st /\ Forall unit_range (snd st))
    (fun st => Z.max 0 (zlen (info (sec s)) - fst st)) (Forall unit_range) False)| |done].
  - intros [o v] [Ho Hv]. cbn [fst snd] in *. unfold full_step. destruct (Z.leb_spec (zlen (info (sec s))) o); [done|]. apply wp_bind.
    eapply wp_mono; [apply wp_attempt, wp_parse_header; [apply Hs|done]| |done]. intros [h|] Hh; [|done]. apply wp_bind.
    eapply wp_mono; [by apply wp_attempt, wp_parse_unit| |done]. intros u Hu. apply wp_bind.
    eapply (wp_mono _ (fun _ => True)).
    + destruct u as [u|]; [|done]. apply wp_die_ranges; [done|apply Hu].
    + intros rs _. cbn [wp fst snd]. split_and!; [lia| |lia|lia]. apply Forall_app; split; [done|].
      apply Forall_fmap, Forall_true. by intros [a e].
    + done.
  - by split.
  - cbn [fst]. unfold zlen. lia.
  - intros v Hv. cbn. by rewrite usort_perm.
Qed.

Lemma wp_find_unit rs pc : Forall unit_range rs -> wp (find_range rs pc) (fun o => match o with Some u => 0 <= u | None => True end) False.
Proof using.
  intros Hr. eapply wp_mono; [apply find_range_sound| |done]. intros o [->|(r & Hin & -> & _)]; [done|].
  rewrite Forall_forall in Hr. by apply Hr.
Qed.

Lemma wp_unit_offset ff s pc : symbolizer_ok s ->
  wp (unit_offset_for_pc ff s pc) (fun o => match o with Some u => 0 <= u | None => True end) False.
Proof using.
  intros Hs. unfold unit_offset_for_pc. apply wp_bind.
  eapply (wp_mono _ (fun o => match o with Some u => 0 <= u | None => True end)); [destruct ff; [done|apply wp_find_unit, Hs]| |done].
  intros [u|] Hu; [done|]. apply wp_bind. eapply wp_mono; [by apply wp_full_index| |done]. intros v Hv. by apply wp_find_unit.
Qed.

Lemma wp_resolve_in s c u pc : symbolizer_ok s -> unit_ok (sec s) u -> wp (resolve_in s c u pc) (fun _ => True) False.
Proof using.
  intros Hs Hu. unfold resolve_in. apply wp_bind. eapply (wp_mono _ (fun _ => True)); [| |done].
  { unfold lines_of. pose proof Hu as (_ & _ & _ & _ & _ & _ & Ho). destruct (stmt_list u) as [o|]; [|done].
    destruct Hs as [Hsec _]. eapply wp_mono; [apply wp_attempt, wp_parse_lines; [apply Hsec|apply Hsec|done]|done|done]. }
  intros l _. cbv zeta. apply wp_bind. eapply wp_mono; [apply wp_walk; [apply Hs|done]| |done]. intros t _.
  apply wp_bind. eapply wp_mono; [apply wp_find_func| |done]. intros n _. apply wp_bind.
  eapply (wp_mono _ (fun _ => True)); [destruct n as [n|]; [by apply wp_name_string|done]|done|done].
Qed.

Lemma wp_resolve ff s c pc : symbolizer_ok s -> wp (resolve ff s c pc) (fun _ => True) False.
Proof using.
  intros Hs. unfold resolve. apply wp_bind. eapply wp_mono; [by apply wp_unit_offset| |done]. intros o Ho. apply wp_bind.
  eapply (wp_mono _ (some_unit s)); [destruct o as [o|]; [|done]; apply wp_attempt, wp_parse_unit; [apply Hs|done]| |done].
  intros u Hu. apply wp_bind. eapply (wp_mono _ (fun _ => True)); [destruct u as [u|]; [by apply wp_resolve_in|done]| |done].
  intros [[f l] c'] _. apply wp_bind. eapply (wp_mono _ (fun _ => True)); [|done|done].
  destruct f; [done|]. apply wp_bind. eapply wp_mono; [apply wp_attempt, wp_before|done|done].
Qed.

Lemma wp_open data : bytes_ok data -> zlen data < 2 ^ 63 -> wp (open data) symbolizer_ok True.
Proof using.
  intros Hb Hl. unfold open. apply wp_bind. eapply wp_mono; [by apply wp_parse_elf| |done]. intros e He.
  assert (forall {B} name (k : list Z -> outcome B) Q, (forall d, sec_ok d -> wp (k d) Q True) -> wp (section e name ≫= k) Q True) as Hsec.
  { intros B name k Q Hk. apply wp_bind. eapply wp_mono; [by apply wp_section| |done]. intros d Hd. apply Hk. by eapply held_ok. }
  do 9 (apply Hsec; intros ? ?). apply Hsec. intros ar [Hab Hal]. destruct (bool_decide _); [done|]. apply wp_bind.
  eapply wp_mono; [by apply wp_parse_aranges| |done]. intros [rs us] (Hr & _ & Hu & _). cbn. split_and!; [by constructor| |].
  - eapply Forall_impl; [exact Hr|]. intros r (_ & _ & Hx). apply Hx.
  - eapply Forall_impl; [exact Hu|]. intros o Ho. apply Ho.
Qed.

(** C7: symbolizing is safe on any file.  Whatever bytes a vmlinux
    holds, it is refused or opened, and then every batch of addresses, from any
    state of the caches and with or without the full index, is answered: one
    pair per address, in order, with no out-of-range index and no endless loop
    in the ELF, abbreviation, address-range, unit, line-program, range-list,
    function-table, name or symbol lookup code. *)
Theorem symbolizer_total (data : list Z) (ff : bool) (c : Cache) (pcs : list Z) : bytes_ok data -> zlen data < 2 ^ 63 ->
  wp (open data) (fun s => wp (resolve_all ff s c pcs) (fun r => length r = length pcs) False) True.
Proof using.
  intros Hb Hl. eapply wp_mono; [by apply wp_open| |done]. intros s Hs. revert c. induction pcs as [|pc pcs IH]; intros c; [done|].
  cbn [resolve_all]. apply wp_bind. eapply wp_mono; [by apply wp_resolve| |done]. intros [[f l] c'] _. apply wp_bind.
  eapply wp_mono; [apply IH| |done]. intros r Hr. cbn. by rewrite Hr.
Qed.
End SymbolizerTotal.

(** * A small vmlinux *)

(** An ELF file of the given sections: header, contents, section names, section
    table; the last section holds the names. *)
Definition place (l : list (list Z)) (base : Z) : list Z :=
  fst (foldl (fun '(os, p) d => (os ++ [p], p + zlen d)) ([], base) l).

Definition mk_elf (secs : list (list Z * Z * Z * list Z)) : list Z :=
  let shstr := 0 :: concat ((fun '(n, _, _, _) => n ++ [0]) <$> secs) in
  let all := secs ++ [([], 3, 0, shstr)] in
  let offs := place ((fun '(_, _, _, d) => d) <$> all) 64 in
  let noffs := place ((fun '(n, _, _, _) => n ++ [0]) <$> secs) 1 ++ [0] in
  let body := concat ((fun '(_, _, _, d) => d) <$> all) in
  [0x7f; 69; 76; 70; 2; 1] ++ replicate 34 0 ++ le_bytes 8 (64 + zlen body) ++ replicate 10 0 ++ le_bytes 2 64 ++
  le_bytes 2 (zlen all) ++ le_bytes 2 (zlen secs) ++ body ++
  concat (zip_with (fun '(_, ty, lnk, d) '(no, o) =>
    le_bytes 4 no ++ le_bytes 4 ty ++ le_bytes 8 0 ++ le_bytes 8 0 ++ le_bytes 8 o ++ le_bytes 8 (zlen d) ++ le_bytes 4 lnk ++ replicate 20 0)
    all (zip noffs offs)).

(** A unit with one function [f] at [0x1000, 0x1010). *)
Definition tiny_file : list Z :=
  mk_elf [(bs ".debug_info", 1, 0, le_bytes 4 31 ++ le_bytes 2 4 ++ le_bytes 4 0 ++ [8] ++ [1; 12] ++ [2] ++ le_bytes 8 0x1000 ++ le_bytes 8 16 ++ bs "f" ++ [0; 0; 0; 0]);
          (bs ".debug_abbrev", 1, 0, concat (enc_abbrev <$> [(1, MkAbbrev 0x11 true [(0x13, 0x0b, 0)]); (2, MkAbbrev 0x2e false [(0x11, 1, 0); (0x12, 7, 0); (3, 8, 0)])]) ++ [0]);
          (bs ".debug_aranges", 1, 0, enc_set (MkSet 0 [(0x1000, 16)]))].

Lemma symbolizer_total_witness :
  bytes_ok tiny_file /\ zlen tiny_file < 2 ^ 63 /\
  match open tiny_file with Done s => resolve_all false s ∅ [0x1004; 0x9999] | _ => Fail end = Done [(bs "f", bs "??:0"); (bs "??", bs "??:0")] /\
  wp (open tiny_file) (fun s => wp (resolve_all false s ∅ [0x1004; 0x9999]) (fun r => length r = 2%nat) False) True.
Proof.
  assert (bytes_ok tiny_file) as Hb.
  { assert (forallb (fun b => (0 <=? b) && (b <? 256)) tiny_file = true) as H by (vm_compute; reflexivity).
    apply Forall_forall. intros b Hin. rewrite forallb_forall in H. specialize (H b (proj1 (list_elem_of_In _ _) Hin)). unfold is_u8. lia. }
  split_and!; [exact Hb|vm_compute; reflexivity|vm_compute; reflexivity|].
  apply (symbolizer_total tiny_file false ∅ [0x1004; 0x9999]); [exact Hb|vm_compute; reflexivity].
Defined.
