(* ===== verification/DwarfHistory.v ===== *)
(** What a symbolizer answers may depend on what it answered before: the effect
    of the function-table cache on names ([die_name] in dwarf/unit.rs). *)
From S2P Require Import Prelude Text DwarfReader DwarfCodec DwarfTables DwarfAranges DwarfUnit DwarfLine DwarfFuncs DwarfSymbolizer.
Import Cursor.

(** * Names in the cache of a unit of an unqualified language *)

(** The name attribute and the reference an entry holds, read on their own. *)
Definition read_name (s : Symbolizer) (u : Unit_) (o : Z) : outcome (option Val * option Z) :=
  run_rd (code ← uleb;
          match get_abbrev (abbrevs u) code with
          | None => rd_fail
          | Some ab => read_attrs (shape u) name_attr (attrs ab) (None, None)
          end) (info (sec s)) o.

Definition own_name (s : Symbolizer) (u : Unit_) (o : Z) (k : list Z) : Prop :=
  die_off u <= o < u_end u /\
  exists v str next, read_name s u o = Done (Some v, next) /\ string_of (sec s) u v = Some str /\ k = lossy str.

Lemma read_attrs_name u l a next c a' c' : read_attrs u die_attr l a c = Done (a', c') ->
  exists next', read_attrs u name_attr l (a_name a, next) c = Done ((a_name a', next'), c').
Proof.
  revert a next c. induction l as [|[[at_ form] imp] l IH]; intros a next c H; cbn [read_attrs] in *.
  - injection H as <- <-. by exists next.
  - unfold mbind, rd_bind in *. destruct (read_form form u imp c) as [[v c1]| | |]; try done. 
    assert (exists n1, name_attr (a_name a, next) at_ v = (a_name (die_attr a at_ v), n1)) as [n1 ->]; [|by apply IH].
    unfold name_attr, die_attr. destruct a. cbn.
    destruct (at_ =? DW_AT_NAME) eqn:E1; [by eexists|].
    repeat match goal with |- context [if ?b then _ else _] => destruct b end; cbn; by eexists.
Qed.

Section History.
Context `{UnstableSort}.

Definition names_own (s : Symbolizer) (u : Unit_) (t : FuncTable) : Prop := forall o k, names t !! o = Some k -> own_name s u o k.

Lemma add_inlines_names t i d r rs t' : add_inlines t i d r rs = Done t' -> names t' = names t.
Proof using.
  unfold add_inlines. destruct rs; [by intros [= <-]|]. intros Ht. binds Ht. by injection Ht as <-.
Qed.

Lemma child_names ab w : names (ft (if children ab then MkWalk (as_i32 (depth w + 1)) (scopes w) (cur_sub w) (inl_stack w) (ft w) else w)) = names (ft w).
Proof using. by destruct (children ab). Qed.

(** The only names a walk step adds are those of the entry it reads. *)
Lemma on_die_names s u w ab o a w' : qualifies (lang u) = false -> on_die s u w ab o a = Done w' ->
  names (ft w') = names (ft w) \/
  exists v str, a_name a = Some v /\ string_of s u v = Some str /\ names (ft w') = <[o := lossy str]> (names (ft w)).
Proof using.
  intros Hq. unfold on_die, die_direct. rewrite Hq. cbn [andb]. destruct (tag ab =? DW_TAG_SUBPROGRAM).
  - destruct (die_ranges _ _ _ _ _) as [rs| | |]; try done. cbn [mbind outcome_bind]. intros [= <-].
    rewrite (child_names ab).
    unfold on_subprogram. destruct (a_name a) as [v|]; cbn; [|left; by destruct rs].
    destruct (string_of s u v) as [str|] eqn:Es; cbn; [|left; by destruct rs]. right. exists v, str. split_and!; [done|done|by destruct rs].
  - intros Hw. left. binds Hw. injection Hw as <-. rewrite child_names.
    destruct (tag ab =? DW_TAG_INLINED_SUBROUTINE).
    + unfold on_inlined in E. binds E. injection E as <-. cbn. destruct (cur_sub w) as [[i k]|]; [|by injection E0 as <-].
      binds E0. by eapply add_inlines_names.
    + rewrite andb_false_r in E. cbn in E. by injection E as <-.
Qed.

Lemma walk_die_names s u w c x c' : qualifies (lang u) = false -> data c = info (sec s) -> die_off u <= pos c < u_end u ->
  names_own s u (ft w) -> walk_die (sec s) u w (pos c) c = Done (x, c') ->
  match x with Next w' => names_own s u (ft w') | Stop t => names_own s u t end.
Proof using.
  intros Hq Hd Hp Hn. unfold walk_die. unfold mbind at 1, rd_bind at 1. destruct (uleb c) as [[code c1]| | |] eqn:Eu; try done.
  destruct (code =? 0).
  { intros [= <- <-]. unfold pop_level. by destruct (_ <=? 0). }
  destruct (get_abbrev (abbrevs u) code) as [ab|] eqn:Ea; [|done]. unfold mbind at 1, rd_bind at 1.
  destruct (read_attrs _ _ _ _ _) as [[a c2]| | |] eqn:Er; try done. unfold mbind, rd_bind, rd_lift.
  destruct (on_die _ _ _ _ _ _) as [w'| | |] eqn:Eo; try done. cbn. intros [= <- <-].
  intros o k. destruct (on_die_names _ _ _ _ _ _ _ Hq Eo) as [->|(v & str & Ev & Es & ->)]; [apply Hn|].
  rewrite lookup_insert_Some. intros [[<- <-]|[_ Ho]]; [|by apply Hn]. split; [done|].
  destruct (read_attrs_name _ _ _ None _ _ _ Er) as [next Hr]. cbn [a_name no_attrs] in Hr. rewrite Ev in Hr.
  exists v, str, next. split_and!; [|done|done]. unfold read_name, run_rd. unfold mbind at 2, rd_bind at 1.
  destruct c as [d p]. cbn [data pos] in *. subst d. rewrite Eu, Ea, Hr. done.
Qed.

Lemma walk_names s u t : sections_ok (sec s) -> unit_ok (sec s) u -> qualifies (lang u) = false ->
  walk (sec s) u = Done t -> names_own s u t.
Proof using.
  intros Hs Hu Hq. unfold walk. destruct (rd_while _ _ _ _) as [t'| | |] eqn:E; try done. cbn. intros [= <-].
  enough (names_own s u t') by done. unfold rd_while in E.
  refine (loop_inv (fun x => walk_ok (fst x) /\ cur_ok (snd x) /\ data (snd x) = info (sec s) /\ die_off u <= pos (snd x) /\ names_own s u (ft (fst x)))
    (names_own s u) _ _ _ _ _ _ E); clear E.
  - intros [w c] x (Hw & Hc & Hd & Hp & Hn). cbn [fst snd] in *. unfold while_step. cbn [fst snd]. unfold walk_step. rewrite rd_pos_bind.
    destruct (Z.leb_spec (u_end u) (pos c)); [by intros [= <-]|].
    pose proof (reads_walk_die (sec s) u w (pos c) Hs Hu Hw c Hc) as Hr.
    destruct (walk_die _ _ _ _ c) as [[y c']| | |] eqn:Ew; try done; [|by intros [= <-]].
    cbn [wp] in Hr. destruct Hr as (HQ & Hd' & Hp' & Hb). pose proof (walk_die_names s u w c y c' Hq Hd ltac:(lia) Hn Ew) as Hn'.
    destruct y as [w'|r]; intros [= <-]; [|done]. cbn [fst snd]. split_and!; [done| |congruence|lia|done].
    destruct Hc as (H1 & H2 & H3). unfold cur_ok. rewrite Hd'. split_and!; [done|lia|done].
  - cbn. split_and!; [done|apply cur_at; [apply Hs|apply Hu]|done|lia|done].
Qed.

(** Every indexed unit is of a language without qualified names, as C is. *)
Definition unqualified (s : Symbolizer) : Prop :=
  Forall (fun o => forall u, parse_unit (sec s) o = Done u -> qualifies (lang u) = false) (unit_offsets s).

Lemma cached_name_own s c u o k : sections_ok (sec s) -> unit_ok (sec s) u -> qualifies (lang u) = false ->
  cached_name s c u o = Done (Some k) -> own_name s u o k.
Proof using.
  intros Hs Hu Hq. unfold cached_name. destruct (bool_decide _); [|done]. intros Hc. binds Hc. injection Hc as Hc.
  by eapply walk_names.
Qed.

Lemma die_name_own n s c u o k : own_name s u o k -> cached_name s c u o = Done None -> die_name (S n) s c u o = Done (Some k).
Proof using.
  intros (Hr & v & str & next & He & Hs & ->) Hc. cbn [die_name]. rewrite Hc. cbn [mbind outcome_bind].
  replace ((o <? die_off u) || (u_end u <=? o)) with false by (symmetry; apply orb_false_iff; lia).
  fold (read_name s u o). rewrite He. cbn [attempt mbind outcome_bind option_bind]. by rewrite Hs.
Qed.

Lemma unit_containing_unqualified s o u : unqualified s -> unit_containing s o = Done (Some u) -> qualifies (lang u) = false.
Proof using.
  unfold unqualified, unit_containing. rewrite Forall_forall. intros Hq. destruct (_ =? 0); [done|].
  destruct (get (unit_offsets s) _) as [uo|] eqn:E; [|done]. apply get_elem_of in E.
  destruct (parse_unit (sec s) uo) as [u'| | |] eqn:Eu; try done. cbn. destruct (_ <? _); [|done]. intros [= <-]. by eapply Hq.
Qed.

Lemma cached_name_mono s c c' u o k : c ⊆ c' -> cached_name s c u o = Done (Some k) -> cached_name s c' u o = Done (Some k).
Proof using.
  intros Hc. unfold cached_name. destruct (decide (shape_off (shape u) ∈ c)) as [Hin|Hn].
  - by rewrite !bool_decide_eq_true_2 by set_solver.
  - by rewrite bool_decide_eq_false_2.
Qed.

Lemma die_name_mono n s c c' u o k : symbolizer_ok s -> unqualified s -> c ⊆ c' -> unit_ok (sec s) u -> qualifies (lang u) = false ->
  die_name n s c u o = Done (Some k) -> die_name n s c' u o = Done (Some k).
Proof using.
  intros Hs Hq Hc. revert u o. induction n as [|n IH]; intros u o Hu Hl Hd.
  - cbn [die_name] in *. destruct (cached_name s c u o) as [[k'|]| | |] eqn:E; try done. by rewrite (cached_name_mono _ _ _ _ _ _ Hc E).
  - pose proof (wp_cached_name s c' u o Hs Hu) as Hw. destruct (cached_name s c' u o) as [[k'|]| | |] eqn:E'; try done.
    + pose proof (cached_name_own s c' u o k' (proj1 Hs) Hu Hl E') as Hown. cbn [die_name]. rewrite E'. cbn. f_equal. f_equal.
      destruct (cached_name s c u o) as [[k2|]| | |] eqn:E; [|rewrite (die_name_own n s c u o k' Hown E) in Hd; congruence|by cbn [die_name] in Hd; rewrite E in Hd..].
      rewrite (cached_name_mono _ _ _ _ _ _ Hc E) in E'. cbn [die_name] in Hd. rewrite E in Hd. cbn in Hd. congruence.
    + cbn [die_name] in *. rewrite E'. destruct (cached_name s c u o) as [[k2|]| | |] eqn:E; try done.
      { by rewrite (cached_name_mono _ _ _ _ _ _ Hc E) in E'. }
      cbn [mbind outcome_bind] in *. destruct (_ || _); [done|]. fold (read_name s u o) in *.
      destruct (read_name s u o) as [[name next]| | |]; try done. cbn [attempt mbind outcome_bind] in *.
      destruct (name ≫= _); [done|]. destruct next as [o'|]; [|done].
      pose proof (wp_unit_containing s o' Hs) as Hwu. destruct (unit_containing s o') as [[u'|]| | |] eqn:Eu; try done.
      cbn [mbind outcome_bind wp] in *. apply IH; [done|by eapply unit_containing_unqualified|done].
Qed.

Lemma name_string_mono s c c' u nm k : symbolizer_ok s -> unqualified s -> c ⊆ c' -> unit_ok (sec s) u -> qualifies (lang u) = false ->
  name_string s c u nm = Done (Some k) -> name_string s c' u nm = Done (Some k).
Proof using.
  intros Hs Hq Hc Hu Hl. unfold name_string. destruct nm as [|str|o]; try done. destruct (_ && _); [by apply die_name_mono|].
  pose proof (wp_unit_containing s o Hs) as Hwu. destruct (unit_containing s o) as [[u'|]| | |] eqn:Eu; try done.
  cbn [mbind outcome_bind wp] in *. apply die_name_mono; [done|done|done|done|by eapply unit_containing_unqualified].
Qed.

(** Caching and C.  When the unit of an address and every indexed unit
    are of a language without qualified names, what was resolved before never
    changes the location of an address and never replaces the DWARF name it is
    given: a larger cache answers the same, or names a function where the
    smaller one had none within its five references. *)
Theorem history_keeps_names (s : Symbolizer) (c c' c1 : Cache) (u : Unit_) (pc : Z) (f l : option (list Z)) :
  symbolizer_ok s -> unqualified s -> unit_ok (sec s) u -> qualifies (lang u) = false -> c ⊆ c' ->
  resolve_in s c u pc = Done (f, l, c1) ->
  exists f' c1', resolve_in s c' u pc = Done (f', l, c1') /\ c1 ⊆ c1' /\ (f = None \/ f' = f).
Proof using.
  intros Hs Hq Hu Hl Hc. unfold resolve_in. destruct (lines_of s u) as [lt| | |]; try done. cbn [mbind outcome_bind].
  destruct (walk (sec s) u) as [t| | |]; try done. cbn [mbind outcome_bind]. destruct (find_func t pc) as [n| | |]; try done. cbn [mbind outcome_bind].
  set (d := {[shape_off (shape u)]} ∪ c). set (d' := {[shape_off (shape u)]} ∪ c'). assert (d ⊆ d') as Hd by (unfold d, d'; set_solver).
  destruct n as [n|]; [|intros [= <- <- <-]; exists None, d'; by split_and!; [|done|left]].
  pose proof (wp_name_string s d' u n Hs Hu) as Hw. destruct (name_string s d u n) as [[k|]| | |] eqn:E; try done; cbn [mbind outcome_bind].
  - intros [= <- <- <-]. rewrite (name_string_mono _ _ _ _ _ _ Hs Hq Hd Hu Hl E). exists (Some k), d'. by split_and!; [|done|right].
  - intros [= <- <- <-]. destruct (name_string s d' u n) as [f'| | |]; try done. exists f', d'. by split_and!; [|done|left].
Qed.
End History.

(** * A program whose answers depend on their order *)
(** Two units.  The function at 0x1000 names an entry [f] of the second unit,
    inside [ns]; the function at 0x2000 is in the second unit. *)
Definition demo_abbrev : list Z :=
  concat (enc_abbrev <$> [(1, MkAbbrev 0x11 true [(0x13, 0x0b, 0)]); (2, MkAbbrev 0x2e false [(0x11, 1, 0); (0x12, 6, 0); (0x31, 0x10, 0)]);
    (3, MkAbbrev 0x39 true [(3, 8, 0)]); (4, MkAbbrev 0x2e false [(3, 8, 0)]); (5, MkAbbrev 0x2e false [(0x11, 1, 0); (0x12, 6, 0); (3, 8, 0)])]) ++ [0].
Definition demo_unit (dies : list Z) : list Z := le_bytes 4 (7 + zlen dies) ++ le_bytes 2 4 ++ le_bytes 4 0 ++ [8] ++ dies.
Definition demo_a (lang : Z) : list Z := demo_unit ([1; lang] ++ [2] ++ le_bytes 8 0x1000 ++ le_bytes 4 16 ++ le_bytes 4 48 ++ [0]).
Definition demo_b (lang : Z) : list Z :=
  demo_unit ([1; lang] ++ [3] ++ bs "ns" ++ [0] ++ [4] ++ bs "f" ++ [0] ++ [0] ++ [5] ++ le_bytes 8 0x2000 ++ le_bytes 4 16 ++ bs "g" ++ [0] ++ [0]).
Definition demo_file (lang : Z) : list Z :=
  mk_elf [(bs ".debug_info", 1, 0, demo_a lang ++ demo_b lang); (bs ".debug_abbrev", 1, 0, demo_abbrev);
          (bs ".debug_aranges", 1, 0, enc_set (MkSet 0 [(0x1000, 16)]) ++ enc_set (MkSet (zlen (demo_a lang)) [(0x2000, 16)]))].

(** In C++ the name of an address can depend on what was resolved before
    it.  A file exists on which the same symbolizer, asked three times, names
    the first address [f], and the same address [ns::f] once an address of
    another unit has been resolved in between. *)
Theorem resolve_depends_on_history :
  (s ← open (demo_file 0x04); resolve_all false s ∅ [0x1000; 0x2000; 0x1000]) =
    Done [(bs "f", bs "??:0"); (bs "g", bs "??:0"); (bs "ns::f", bs "??:0")].
Proof. vm_compute. reflexivity. Qed.

Lemma history_keeps_names_witness :
  exists s u, open (demo_file 0x0c) = Done s /\ parse_unit (sec s) 0 = Done u /\
    symbolizer_ok s /\ unqualified s /\ unit_ok (sec s) u /\ qualifies (lang u) = false /\
    resolve_in s ∅ u 0x1000 = Done (Some (bs "f"), None, {[0]} ∪ ∅) /\
    exists f' c1', resolve_in s {[31]} u 0x1000 = Done (f', None, c1') /\ {[0]} ∪ ∅ ⊆ c1' /\ (Some (bs "f") = None \/ f' = Some (bs "f")).
Proof.
  destruct (open (demo_file 0x0c)) as [s| | |] eqn:Es; [|vm_compute in Es; discriminate Es..].
  assert (symbolizer_ok s) as Hs.
  { refine (wp_done _ _ _ s (wp_open (demo_file 0x0c) _ _) Es); [|vm_compute; reflexivity].
    assert (forallb (fun b => (0 <=? b) && (b <? 256)) (demo_file 0x0c) = true) as H by (vm_compute; reflexivity).
    apply Forall_forall. intros b Hin. rewrite forallb_forall in H. specialize (H b (proj1 (list_elem_of_In _ _) Hin)). unfold is_u8. lia. }
  pose proof (wp_parse_unit (sec s) 0 (proj1 Hs) ltac:(lia)) as Hu.
  vm_compute in Es. injection Es as <-.
  destruct (parse_unit _ 0) as [u| | |] eqn:Eu; [|vm_compute in Eu; discriminate Eu..]. vm_compute in Eu. injection Eu as <-.
  cbn [wp] in Hu.
  match type of Hs with symbolizer_ok ?s0 => match type of Hu with unit_ok _ ?u0 =>
    assert (unqualified s0) as Hq; [|assert (resolve_in s0 ∅ u0 0x1000 = Done (Some (bs "f"), None, {[0]} ∪ ∅)) as Hr; [vm_compute; reflexivity|exists s0, u0]] end end.
  { repeat constructor; intros u E; vm_compute in E; injection E as <-; reflexivity. }
  split_and!; [reflexivity|vm_compute; reflexivity|exact Hs|exact Hq|exact Hu|reflexivity|exact Hr|].
  apply (history_keeps_names _ ∅ {[31]} _ _ 0x1000 _ _ Hs Hq Hu eq_refl); [apply empty_subseteq|exact Hr].
Defined.
