(* ===== verification/PtPacket.v ===== *)
(** mode/engine.rs, packet layer: the Intel PT length table [scan_packet], the
    PSB search [find_psb] and the TIP-only decoder.

    Shown: [scan_packet] never indexes out of the trace and every packet it
    recognises has a positive length inside it; packets built to the encodings
    the source cites are measured by their true length in every context;
    [find_psb] returns the first PSB; the TIP-only decoder terminates on every
    byte string and, on a well-formed packet stream, logs exactly the
    last-IP-compressed kernel addresses of its IP packets. *)
From S2P Require Import Prelude Text.

Inductive Pkt : Type :=
  | Pad
  | Tnt8 (payload : Z)
  | Tnt64 (payload : Z)
  | Ip (opcode enc : Z)
  | Psb
  | Ovf
  | Bbp (wide : bool)
  | Bep
  | Skip
  | Bad
  | Truncated.

Record Scan : Type := MkScan { pkt : Pkt; len : Z }.

Definition scan_bad : Scan := MkScan Bad 0.
Definition scan_trunc : Scan := MkScan Truncated 0.

Definition PSB : list Z :=
  [0x02; 0x82; 0x02; 0x82; 0x02; 0x82; 0x02; 0x82; 0x02; 0x82; 0x02; 0x82; 0x02; 0x82; 0x02; 0x82].

Definition ip_payload_len (enc : Z) : option Z :=
  if enc =? 0 then Some 0
  else if enc =? 1 then Some 2
  else if enc =? 2 then Some 4
  else if (enc =? 3) || (enc =? 4) then Some 6
  else if enc =? 6 then Some 8
  else None.

(** [for i in 0..n { v |= (data[at + i] as u64) << (8 * i) }] *)
Fixpoint le_accum (data : list Z) (at_ : Z) (n : nat) (i v : Z) : outcome Z :=
  match n with
  | O => Done v
  | S n' => b ← idx data (at_ + i); le_accum data at_ n' (i + 1) (Z.lor v (b <<₆₄ (8 * i)))
  end.

(** The match on the second byte of an extended opcode: either an early
    return or a packet with its total length. *)
Definition scan_ext (data : list Z) (pos avail e : Z) : outcome (Scan + Pkt * Z) :=
  let fixed p n := Done (inr (p, n)) in
  if e =? 0x82 then fixed Psb 16
  else if e =? 0x23 then fixed Skip 2
  else if e =? 0xa3 then
    if avail <? 8 then Done (inl scan_trunc)
    else payload ← le_accum data (pos + 2) 6 0 0; fixed (Tnt64 payload) 8
  else if e =? 0x43 then fixed Skip 8
  else if e =? 0xf3 then fixed Ovf 2
  else if e =? 0x03 then fixed Skip 4
  else if e =? 0x73 then fixed Skip 7
  else if e =? 0x83 then fixed Skip 2
  else if e =? 0xc8 then fixed Skip 7
  else if (e =? 0x62) || (e =? 0xe2) then fixed Skip 2
  else if e =? 0xc2 then fixed Skip 12
  else if e =? 0x22 then fixed Skip 4
  else if e =? 0xa2 then fixed Skip 7
  else if e =? 0x13 then fixed Skip 4
  else if e =? 0x53 then fixed Skip 9
  else if (e =? 0x33) || (e =? 0xb3) then fixed Bep 2
  else if e =? 0x63 then
    if avail <? 3 then Done (inl scan_trunc)
    else b ← idx data (pos + 2); fixed (Bbp (negb (Z.land b 0x80 =? 0))) 3
  else if e =? 0xc3 then
    if avail <? 3 then Done (inl scan_trunc)
    else b ← idx data (pos + 2);
         if b =? 0x88 then fixed Skip 11 else Done (inl scan_bad)
  else if Z.land e 0x1f =? 0x12 then
    let code := Z.land (Z.shiftr e 5) 3 in
    if code =? 0 then fixed Skip (2 + 4)
    else if code =? 1 then fixed Skip (2 + 8)
    else Done (inl scan_bad)
  else Done (inl scan_bad).

(** The CYC continuation loop; [n] bytes are known to belong to the packet. *)
Fixpoint cyc_go (fuel : nat) (data : list Z) (pos n : Z) (more : bool) : outcome Scan :=
  match fuel with
  | O => Fuel
  | S f =>
      if more then
        if 9 <=? n then Done scan_bad
        else if zlen data <=? pos + n then Done scan_trunc
        else b ← idx data (pos + n); cyc_go f data pos (n + 1) (negb (Z.land b 0x01 =? 0))
      else Done (MkScan Skip n)
  end.

Definition scan_packet (data : list Z) (pos : Z) (block : option Z) : outcome Scan :=
  let l := zlen data in
  if l <=? pos then Done scan_trunc else
  let avail := l - pos in
  let sized n := if avail <? n then Done scan_trunc else Done (MkScan Skip n) in
  b ← idx data pos;
  if b =? 0x00 then Done (MkScan Pad 1)
  else if b =? 0x02 then
    if avail <? 2 then Done scan_trunc
    else
      e ← idx data (pos + 1);
      r ← scan_ext data pos avail e;
      match r with
      | inl s => Done s
      | inr (p, total) => if avail <? total then Done scan_trunc else Done (MkScan p total)
      end
  else if b =? 0x99 then sized 2
  else if b =? 0x19 then sized 8
  else if b =? 0x59 then sized 2
  else
    let short := Z.land b 0x1f in
    if (short =? 0x0d) || (short =? 0x1d) || (short =? 0x11) || (short =? 0x01) then
      let enc := Z.land (Z.shiftr b 5) 7 in
      match ip_payload_len enc with
      | None => Done scan_bad
      | Some payload =>
          if avail <? 1 + payload then Done scan_trunc
          else Done (MkScan (Ip short enc) (1 + payload))
      end
    else
      let rest :=
        if Z.land b 0x03 =? 0x03 then cyc_go 10 data pos 1 (negb (Z.land b 0x04 =? 0))
        else if Z.land b 0x01 =? 0x00 then Done (MkScan (Tnt8 (Z.shiftr b 1)) 1)
        else Done scan_bad in
      match block with
      | Some bip_size => if Z.land b 0x07 =? 0x04 then sized (1 + bip_size) else rest
      | None => rest
      end.

(** [(lo..=hi).find(|&i| p i)] *)
Fixpoint find_from (p : Z -> outcome bool) (n : nat) (i : Z) : outcome (option Z) :=
  match n with
  | O => Done None
  | S n' => b ← p i; if b : bool then Done (Some i) else find_from p n' (i + 1)
  end.

Definition find_psb (data : list Z) (from : Z) : outcome (option Z) :=
  if zlen data <? zlen PSB then Done None else
  let last := zlen data - zlen PSB in
  let lo := Z.min from (last + 1) in
  find_from (fun i => s ← or_panic (slice data i (i + zlen PSB)); Done (bool_decide (s = PSB)))
            (Z.to_nat (last + 1 - lo)) lo.

Record PtStats : Type := MkStats
  { bad_packets : Z; resyncs : Z; overflows : Z; truncated : bool }.
Definition stats0 : PtStats := MkStats 0 0 0 false.

Definition st_bad (s : PtStats) : PtStats :=
  MkStats (bad_packets s +₆₄ 1) (resyncs s) (overflows s) (truncated s).
Definition st_resync (s : PtStats) : PtStats :=
  MkStats (bad_packets s) (resyncs s +₆₄ 1) (overflows s) (truncated s).
Definition st_ovf (s : PtStats) : PtStats :=
  MkStats (bad_packets s) (resyncs s) (overflows s +₆₄ 1) (truncated s).
Definition st_trunc (s : PtStats) : PtStats :=
  MkStats (bad_packets s) (resyncs s) (overflows s) true.

(** Last-IP decompression: the [match enc] both decoders share. *)
Definition update_ip (enc last_ip ip : Z) : Z :=
  if enc =? 1 then Z.lor (Z.land last_ip (2 ^ 64 - 1 - 0xFFFF)) ip
  else if enc =? 2 then Z.lor (Z.land last_ip (2 ^ 64 - 1 - 0xFFFFFFFF)) ip
  else if enc =? 3 then
    if Z.land ip (2 ^ 47) =? 0 then ip else Z.lor ip 0xFFFF000000000000
  else if enc =? 4 then Z.lor (Z.land last_ip (2 ^ 64 - 1 - 0xFFFFFFFFFFFF)) ip
  else if enc =? 6 then ip
  else last_ip.

Definition kernel_pc (ip : Z) : bool := 0xffff000000000000 <=? ip.

(** The log under construction: the lines of [out] and the [i32] count. *)
Record Log : Type := MkLog { out : list Z; pc_count : Z }.
Definition log0 : Log := MkLog [] 0.

Definition emit_ip (ip : Z) (o : Log) : Log :=
  if kernel_pc ip
  then MkLog (out o ++ fmt_pc_line ip) (as_i32 (pc_count o + 1)) else o.

Module TipOnly.

Record state : Type := MkState
  { last_ip : Z; pos : Z; block : option Z; stats : PtStats; log : Log }.

Definition step (data : list Z) (s : state) : outcome (ctl state state) :=
  if zlen data <=? pos s then Done (Stop s) else
  scan ← scan_packet data (pos s) (block s);
  let next := pos s + len scan in
  match pkt scan with
  | Ip _ enc =>
      let ip_bytes := default 0 (ip_payload_len enc) in
      if 0 <? ip_bytes then
        ip ← le_accum data (pos s + 1) (Z.to_nat ip_bytes) 0 0;
        let last := update_ip enc (last_ip s) ip in
        Done (Next (MkState last next (block s) (stats s) (emit_ip last (log s))))
      else Done (Next (MkState (last_ip s) next (block s) (stats s) (log s)))
  | Ovf => Done (Next (MkState 0 next (block s) (st_ovf (stats s)) (log s)))
  | Bbp wide =>
      Done (Next (MkState (last_ip s) next (Some (if wide then 8 else 4)) (stats s) (log s)))
  | Bep => Done (Next (MkState (last_ip s) next None (stats s) (log s)))
  | Truncated => Done (Stop (MkState (last_ip s) (pos s) (block s) (st_trunc (stats s)) (log s)))
  | Bad =>
      let st := st_bad (stats s) in
      r ← find_psb data (pos s + 1);
      match r with
      | Some next => Done (Next (MkState 0 next None (st_resync st) (log s)))
      | None => Done (Stop (MkState 0 (pos s) None st (log s)))
      end
  | _ => Done (Next (MkState (last_ip s) next (block s) (stats s) (log s)))
  end.

Definition init : state := MkState 0 0 None stats0 log0.

Definition tip_only_decode (data : list Z) : outcome state :=
  loop (S (length data)) (step data) init.

End TipOnly.

(** * Totality of the length table *)

Lemma wp_le_accum data at_ n i v (F : Prop) :
  bytes_ok data -> 0 <= i -> 0 <= at_ + i -> at_ + i + Z.of_nat n <= zlen data ->
  0 <= v < 2 ^ (8 * i) -> i + Z.of_nat n <= 8 ->
  wp (le_accum data at_ n i v) (fun r => 0 <= r < 2 ^ (8 * (i + Z.of_nat n))) F.
Proof.
  intros Hb. revert i v. induction n as [|n IH]; intros i v Hi H0 Hl Hv Hn; cbn [le_accum].
  { simpl. by rewrite Z.add_0_r. }
  apply wp_bind, wp_idx; [done|lia|]. intros b Hb8 _. unfold is_u8 in Hb8.
  assert (2 ^ (8 * (i + 1)) = 2 ^ (8 * i) * 256) as Hp.
  { replace (8 * (i + 1)) with (8 * i + 8) by lia. by rewrite Z.pow_add_r by lia. }
  assert (2 ^ (8 * (i + 1)) <= 2 ^ 64) by (apply Z.pow_le_mono_r; lia).
  assert (0 < 2 ^ (8 * i)) by (apply Z.pow_pos_nonneg; lia).
  replace (i + Z.of_nat (S n)) with (i + 1 + Z.of_nat n) by lia.
  apply IH; [lia|lia|lia| |lia].
  rewrite as_u64_small by (unfold is_u64; rewrite Z.shiftl_mul_pow2 by lia; nia).
  rewrite lor_add by lia. nia.
Qed.

(** What the decoders rely on: the packet lies inside the trace, and its
    payload fits the field it came from. *)
Definition scan_ok (data : list Z) (pos : Z) (s : Scan) : Prop :=
  match pkt s with
  | Bad | Truncated => len s = 0
  | _ => 1 <= len s <= 16 /\ pos + len s <= zlen data
  end /\
  match pkt s with
  | Tnt8 p => 0 <= p < 2 ^ 7
  | Tnt64 p => 0 <= p < 2 ^ 48
  | Ip _ enc => ip_payload_len enc = Some (len s - 1)
  | _ => True
  end.

Lemma wp_cyc_go fuel data pos n more :
  bytes_ok data -> 0 <= pos -> 1 <= n <= 9 -> pos + n <= zlen data ->
  9 < n + Z.of_nat fuel -> wp (cyc_go fuel data pos n more) (scan_ok data pos) False.
Proof.
  intros Hb Hp. revert n more. induction fuel as [|fuel IH]; intros n more Hn Hl Hf; [lia|].
  cbn [cyc_go]. destruct more; [|split; simpl; lia].
  destruct (Z.leb_spec 9 n); [done|]. destruct (Z.leb_spec (zlen data) (pos + n)); [done|].
  apply wp_bind, wp_idx; [done|lia|]. intros b _ _. apply IH; lia.
Qed.

Lemma wp_scan_ext data pos avail e :
  bytes_ok data -> 0 <= pos -> avail = zlen data - pos -> 2 <= avail ->
  wp (scan_ext data pos avail e) (fun r => match r with
    | inl s => s = scan_bad \/ s = scan_trunc
    | inr (p, n) => 2 <= n <= 16 /\
        match p with Tnt64 q => 0 <= q < 2 ^ 48 | Psb | Skip | Ovf | Bep | Bbp _ => True | _ => False end
    end) False.
Proof.
  intros Hb Hp -> Ha. unfold scan_ext.
  repeat match goal with
  | |- wp (if ?b then _ else _) _ _ => destruct b eqn:?; [try (simpl; lia)|]
  | |- wp (Done (inr (_, _))) _ _ => simpl; lia
  | |- wp (Done (inl _)) _ _ => simpl; tauto
  end.
  - apply wp_bind. eapply wp_mono; [apply wp_le_accum; [done|lia|lia|lia|done|lia]| |done].
    intros q Hq. simpl. split; [lia|exact Hq].
  - apply wp_bind, wp_idx; [done|lia|]. intros. simpl. lia.
  - apply wp_bind, wp_idx; [done|lia|]. intros b _ _. destruct (b =? 0x88); simpl; [lia|tauto].
Qed.

Definition block_ok (block : option Z) : Prop :=
  match block with Some w => w = 4 \/ w = 8 | None => True end.

Lemma wp_scan_packet data pos block :
  bytes_ok data -> 0 <= pos -> block_ok block ->
  wp (scan_packet data pos block) (scan_ok data pos) False.
Proof.
  intros Hb Hp Hbl. unfold scan_packet. destruct (Z.leb_spec (zlen data) pos); [done|].
  apply wp_bind, wp_idx; [done|lia|]. intros b Hb8 _.
  assert (forall n, 1 <= n <= 16 -> wp (if zlen data - pos <? n then Done scan_trunc else Done (MkScan Skip n))
    (scan_ok data pos) False) as Hsized.
  { intros n Hn. destruct (Z.ltb_spec (zlen data - pos) n); [done|]. split; simpl; lia. }
  destruct (b =? 0); [split; simpl; lia|].
  destruct (b =? 2).
  { destruct (Z.ltb_spec (zlen data - pos) 2); [done|].
    apply wp_bind, wp_idx; [done|lia|]. intros e _ _.
    apply wp_bind. eapply wp_mono; [by apply wp_scan_ext| |done].
    intros [s|[p n]]; [by intros [->| ->]|]. intros [Hn Hpl].
    destruct (Z.ltb_spec (zlen data - pos) n); [done|].
    destruct p; try done; split; simpl; lia. }
  do 3 (case_match; [apply Hsized; lia|]).
  case_match.
  { destruct (ip_payload_len _) as [n|] eqn:En; [|done].
    assert (0 <= n <= 8).
    { unfold ip_payload_len in En. repeat case_match; simplify_eq; lia. }
    destruct (Z.ltb_spec (zlen data - pos) (1 + n)); [done|].
    split; simpl; [lia|]. rewrite En. f_equal. lia. }
  assert (wp (if Z.land b 3 =? 3 then cyc_go 10 data pos 1 (negb (Z.land b 4 =? 0))
    else if Z.land b 1 =? 0 then Done (MkScan (Tnt8 (Z.shiftr b 1)) 1) else Done scan_bad)
    (scan_ok data pos) False) as Hrest.
  { case_match; [apply wp_cyc_go; [done|done|lia|lia|simpl; lia]|]. case_match; [|done].
    split; simpl; [lia|]. unfold is_u8 in Hb8. rewrite Z.shiftr_div_pow2 by done.
    change (2 ^ 1) with 2. split; [apply Z.div_pos; lia|apply Z.div_lt_upper_bound; lia]. }
  destruct block as [w|]; [|exact Hrest]. destruct (Z.land b 7 =? 4); [|exact Hrest]. apply Hsized. simpl in Hbl. lia.
Qed.

(** * The PSB search *)

Lemma find_from_spec (p : Z -> outcome bool) (q : Z -> Prop) n i :
  (forall j, i <= j < i + Z.of_nat n -> exists b, p j = Done b /\ (b = true <-> q j)) ->
  exists r, find_from p n i = Done r /\
    match r with
    | Some j => i <= j < i + Z.of_nat n /\ q j /\ forall k, i <= k < j -> ~ q k
    | None => forall k, i <= k < i + Z.of_nat n -> ~ q k
    end.
Proof.
  revert i. induction n as [|n IH]; intros i H; cbn [find_from].
  { exists None. split; [done|]. lia. }
  destruct (H i ltac:(lia)) as (b & -> & Hq). cbn [mbind outcome_bind]. destruct b.
  { exists (Some i). split; [done|]. split_and!; [lia|lia|by apply Hq|lia]. }
  destruct (IH (i + 1)) as (r & -> & Hr).
  { intros j Hj. apply H. lia. }
  assert (~ q i) by (rewrite <- Hq; done).
  exists r. split; [done|]. destruct r as [j|].
  - destruct Hr as (?&?&Hk). split_and!; [lia|lia|done|]. intros k ?.
    destruct (decide (k = i)) as [->|]; [done|]. apply Hk. lia.
  - intros k ?. destruct (decide (k = i)) as [->|]; [done|]. apply Hr. lia.
Qed.

Definition psb_at (data : list Z) (i : Z) : Prop := slice data i (i + 16) = Some PSB.

Lemma psb_at_bounds data i : psb_at data i -> 0 <= i /\ i + 16 <= zlen data.
Proof. intros (?&?&_)%slice_Some. lia. Qed.

Lemma find_psb_spec data from : 0 <= from ->
  exists r, find_psb data from = Done r /\
    match r with
    | Some j => from <= j /\ psb_at data j /\ forall k, from <= k < j -> ~ psb_at data k
    | None => forall k, from <= k -> ~ psb_at data k
    end.
Proof.
  intros Hf. unfold find_psb. change (zlen PSB) with 16.
  destruct (Z.ltb_spec (zlen data) 16) as [Hs|Hs].
  { exists None. split; [done|]. intros k Hk Hp%psb_at_bounds. lia. }
  destruct (find_from_spec (fun i => s ← or_panic (slice data i (i + 16)); Done (bool_decide (s = PSB)))
    (psb_at data) (Z.to_nat (zlen data - 16 + 1 - Z.min from (zlen data - 16 + 1)))
    (Z.min from (zlen data - 16 + 1))) as (r & -> & Hr).
  - intros j Hj. destruct (slice data j (j + 16)) as [s|] eqn:E.
    + exists (bool_decide (s = PSB)). split; [done|]. rewrite bool_decide_eq_true. unfold psb_at.
      rewrite E. naive_solver.
    + exfalso. unfold slice in E. destruct (_ && _) eqn:E2; [done|]. lia.
  - exists r. split; [done|]. destruct r as [j|].
    + destruct Hr as (?&Hp&Hk). split_and!; [lia|done|]. intros k ?. apply Hk. lia.
    + intros k Hk Hp. pose proof (psb_at_bounds _ _ Hp). apply (Hr k); [lia|done].
Qed.

(** * Abstract packets

    The packet grammar, with the encodings the constants of engine.rs cite:
    an encoder, the context each packet is valid in, and what it means. *)

Inductive packet : Type :=
  | PPad
  | PTnt8 (payload : Z)
  | PTnt64 (payload : Z)
  | PIp (opcode enc ip : Z)
  | PPsb
  | POvf
  | PBbp (b : Z)
  | PBep (ipflag : bool)
  | PExt (e : Z) (body : list Z)
  | PPtw (ipflag wide : bool) (body : list Z)
  | PMnt (body : list Z)
  | PMode (b : Z)
  | PTsc (body : list Z)
  | PMtc (b : Z)
  | PBip (id : Z) (body : list Z)
  | PCyc (c0 : Z) (cs : list Z).

(** Extended packets the decoder skips: PSBEND, PIP, CBR, TMA, TraceStop,
    VMCS, EXSTOP, MWAIT, PWRE, PWRX, CFE, EVD, with their payload sizes. *)
Definition ext_table : list (Z * Z) :=
  [(0x23, 0); (0x43, 6); (0x03, 2); (0x73, 5); (0x83, 0); (0xc8, 5); (0x62, 0); (0xe2, 0);
   (0xc2, 10); (0x22, 2); (0xa2, 5); (0x13, 2); (0x53, 7)].

Fixpoint cyc_tail (cs : list Z) : list Z :=
  match cs with
  | [] => []
  | [c] => [2 * c]
  | c :: t => (2 * c + 1) :: cyc_tail t
  end.

Definition encode (p : packet) : list Z :=
  match p with
  | PPad => [0x00]
  | PTnt8 p => [2 * p]
  | PTnt64 p => 0x02 :: 0xa3 :: le_bytes 6 p
  | PIp op enc ip => (op + 32 * enc) :: le_bytes (Z.to_nat (default 0 (ip_payload_len enc))) ip
  | PPsb => PSB
  | POvf => [0x02; 0xf3]
  | PBbp b => [0x02; 0x63; b]
  | PBep f => [0x02; if f then 0xb3 else 0x33]
  | PExt e body => 0x02 :: e :: body
  | PPtw f w body => 0x02 :: (0x12 + (if w then 32 else 0) + (if f then 128 else 0)) :: body
  | PMnt body => 0x02 :: 0xc3 :: 0x88 :: body
  | PMode b => [0x99; b]
  | PTsc body => 0x19 :: body
  | PMtc b => [0x59; b]
  | PBip id body => (8 * id + 4) :: body
  | PCyc c0 cs => (8 * c0 + (if decide (cs = []) then 0 else 4) + 3) :: cyc_tail cs
  end.

(** A packet and the block context it may appear in.  A short TNT byte whose
    low bits are 100 would be a BIP inside a block. *)
Definition valid (block : option Z) (p : packet) : Prop :=
  match p with
  | PTnt8 p => 2 <= p < 128 /\ (block = None \/ (2 * p) mod 8 <> 4)
  | PTnt64 p => 0 <= p < 2 ^ 48
  | PIp op enc ip => op ∈ [0x0d; 0x1d; 0x11; 0x01] /\ 0 <= enc /\
      exists n, ip_payload_len enc = Some n /\ 0 <= ip < 2 ^ (8 * n)
  | PExt e body => (e, zlen body) ∈ ext_table
  | PPtw _ w body => zlen body = if w then 8 else 4
  | PMnt body => zlen body = 8
  | PTsc body => zlen body = 7
  | PBip id body => 0 <= id < 32 /\ block = Some (zlen body)
  | PCyc c0 cs => 0 <= c0 < 32 /\ zlen cs <= 8 /\ Forall (fun c => 0 <= c < 128) cs
  | _ => True
  end.

Definition next_block (block : option Z) (p : packet) : option Z :=
  match p with
  | PBbp b => Some (if Z.land b 0x80 =? 0 then 4 else 8)
  | PBep _ => None
  | _ => block
  end.

Fixpoint valid_stream (block : option Z) (ps : list packet) : Prop :=
  match ps with
  | [] => True
  | p :: t => valid block p /\ valid_stream (next_block block p) t
  end.

(** The kind [scan_packet] is to report. *)
Definition kind (p : packet) : Pkt :=
  match p with
  | PPad => Pad
  | PTnt8 p => Tnt8 p
  | PTnt64 p => Tnt64 p
  | PIp op enc _ => Ip op enc
  | PPsb => Psb
  | POvf => Ovf
  | PBbp b => Bbp (negb (Z.land b 0x80 =? 0))
  | PBep _ => Bep
  | _ => Skip
  end.

(** ** A packet means the same wherever it starts *)

Lemma idx_shift {A} (pre l : list A) i : 0 <= i -> idx (pre ++ l) (zlen pre + i) = idx l i.
Proof. intros. unfold idx. by rewrite get_app_r. Qed.

Lemma le_accum_shift pre l a n i v : 0 <= a + i ->
  le_accum (pre ++ l) (zlen pre + a) n i v = le_accum l a n i v.
Proof.
  revert i v. induction n as [|n IH]; intros i v H; [done|]. cbn [le_accum].
  rewrite <- Z.add_assoc, idx_shift by done. destruct (idx l (a + i)); try done.
  cbn [mbind outcome_bind]. apply IH. lia.
Qed.

Lemma cyc_go_shift pre l fuel a n more : 0 <= a + n ->
  cyc_go fuel (pre ++ l) (zlen pre + a) n more = cyc_go fuel l a n more.
Proof.
  revert n more. induction fuel as [|fuel IH]; intros n more H; [done|]. cbn [cyc_go].
  rewrite <- Z.add_assoc, idx_shift, zlen_app by done.
  replace (zlen pre + zlen l <=? zlen pre + (a + n)) with (zlen l <=? a + n) by lia.
  destruct more, (9 <=? n), (zlen l <=? a + n); try done.
  destruct (idx l (a + n)); try done. cbn [mbind outcome_bind]. apply IH. lia.
Qed.

Lemma scan_packet_shift pre l block : scan_packet (pre ++ l) (zlen pre) block = scan_packet l 0 block.
Proof.
  pose proof (idx_shift pre l) as Hi. pose proof (zlen_nonneg l) as Hl.
  unfold scan_packet, scan_ext. rewrite zlen_app.
  replace (zlen pre + zlen l <=? zlen pre) with (zlen l <=? 0) by lia.
  replace (zlen pre + zlen l - zlen pre) with (zlen l - 0) by lia.
  pose proof (Hi 0 ltac:(done)) as Hi0. rewrite Z.add_0_r in Hi0. rewrite Hi0, (Hi 1), (Hi 2) by done.
  rewrite le_accum_shift by done.
  pose proof (cyc_go_shift pre l 10 0 1) as Hc. rewrite Z.add_0_r in Hc.
  destruct (zlen l <=? 0); [done|]. destruct (idx l 0) as [b| | |]; try done.
  cbn [mbind outcome_bind]. rewrite Hc by done. reflexivity.
Qed.

(** ** The length table reads back every encoded packet *)

Lemma idx_middle {A} (pre : list A) x rest i : i = zlen pre -> idx (pre ++ x :: rest) i = Done x.
Proof.
  intros ->. rewrite <- (Z.add_0_r (zlen pre)), idx_shift by done.
  unfold idx. by rewrite get_cons.
Qed.

Lemma idx_0 {A} (x : A) l : idx (x :: l) 0 = Done x.
Proof. by apply (idx_middle []). Qed.
Lemma idx_1 {A} (x y : A) l : idx (x :: y :: l) (0 + 1) = Done y.
Proof. by apply (idx_middle [x]). Qed.
Lemma idx_2 {A} (x y z : A) l : idx (x :: y :: z :: l) (0 + 2) = Done z.
Proof. by apply (idx_middle [x; y]). Qed.

Lemma le_accum_val pre s rest a i v :
  a + i = zlen pre -> 0 <= i -> bytes_ok s -> i + zlen s <= 8 -> 0 <= v < 2 ^ (8 * i) ->
  le_accum (pre ++ s ++ rest) a (length s) i v = Done (v + 2 ^ (8 * i) * le_val s).
Proof.
  revert pre i v. induction s as [|b s IH]; intros pre i v Ha Hi Hs Hl Hv; cbn [length le_accum le_val].
  { f_equal. lia. }
  inversion Hs as [|? ? Hb Hs']; subst. rewrite zlen_cons in Hl. unfold is_u8 in Hb.
  rewrite <- app_comm_cons, idx_middle by done. cbn [mbind outcome_bind].
  assert (2 ^ (8 * (i + 1)) = 2 ^ (8 * i) * 256) as Hp.
  { replace (8 * (i + 1)) with (8 * i + 8) by lia. by rewrite Z.pow_add_r by lia. }
  pose proof (zlen_nonneg s).
  assert (2 ^ (8 * (i + 1)) <= 2 ^ 64) by (apply Z.pow_le_mono_r; lia).
  assert (0 < 2 ^ (8 * i)) by (apply Z.pow_pos_nonneg; lia).
  rewrite as_u64_small by (unfold is_u64; rewrite Z.shiftl_mul_pow2 by lia; nia).
  rewrite lor_add by lia.
  rewrite (app_assoc pre [b] (s ++ rest) : pre ++ b :: s ++ rest = _).
  rewrite IH; [f_equal; rewrite Hp; ring|rewrite zlen_app; change (zlen [b]) with 1; lia|lia|done|lia|nia].
Qed.

Lemma le_accum_enc pre n v rest a : a = zlen pre -> (n <= 8)%nat -> 0 <= v < 2 ^ (8 * Z.of_nat n) ->
  le_accum (pre ++ le_bytes n v ++ rest) a n 0 0 = Done v.
Proof.
  intros -> Hn Hv. pose proof (le_accum_val pre (le_bytes n v) rest (zlen pre) 0 0) as H.
  rewrite length_le_bytes in H. rewrite H; [|lia|lia|apply le_bytes_ok| |done].
  - rewrite le_val_le_bytes, Z.mod_small by lia. f_equal. lia.
  - unfold zlen. rewrite length_le_bytes. lia.
Qed.

Lemma cyc_go_tail fuel pre cs rest n :
  n = zlen pre -> 1 <= n -> zlen cs + n <= 9 -> Forall (fun c => 0 <= c < 128) cs ->
  (length cs < fuel)%nat ->
  cyc_go fuel (pre ++ cyc_tail cs ++ rest) 0 n (bool_decide (cs <> [])) =
    Done (MkScan Skip (n + zlen cs)).
Proof.
  revert fuel pre n. induction cs as [|c cs IH]; intros [|fuel] pre n Hn H1 Hl Hc Hf; try (simpl in Hf; lia).
  { cbn. change (zlen []) with 0. by rewrite Z.add_0_r. }
  cbn [cyc_go]. rewrite bool_decide_true by done.
  rewrite zlen_cons in *. pose proof (zlen_nonneg cs). replace (9 <=? n) with false by lia.
  inversion Hc as [|? ? Hc1 Hc2]; subst.
  assert (exists b, cyc_tail (c :: cs) = b :: cyc_tail cs /\
    negb (Z.land b 1 =? 0) = bool_decide (cs <> [])) as (b & -> & Hb).
  { destruct cs as [|c' cs].
    - exists (2 * c). split; [done|]. change 1 with (Z.ones 1). rewrite Z.land_ones, Z.mul_comm, Z_mod_mult by done. done.
    - exists (2 * c + 1). split; [done|]. change 1 with (Z.ones 1) at 2. rewrite Z.land_ones by done.
      change (2 ^ 1) with 2. rewrite Z.add_comm, Z.mul_comm, Z_mod_plus_full. done. }
  rewrite <- app_comm_cons, idx_middle by lia. cbn [mbind outcome_bind]. rewrite Hb.
  replace (zlen (pre ++ b :: cyc_tail cs ++ rest) <=? 0 + zlen pre) with false.
  2: { rewrite zlen_app, zlen_cons. pose proof (zlen_nonneg (cyc_tail cs ++ rest)). lia. }
  rewrite (app_assoc pre [b] _ : pre ++ b :: cyc_tail cs ++ rest = _).
  rewrite IH; [f_equal; f_equal; lia|rewrite zlen_app; done|lia|lia|done|simpl in Hf; lia].
Qed.

Lemma length_cyc_tail cs : zlen (cyc_tail cs) = zlen cs.
Proof.
  induction cs as [|c [|c' cs] IH]; [done|done|].
  change (zlen ((2 * c + 1) :: cyc_tail (c' :: cs)) = zlen (c :: c' :: cs)).
  by rewrite zlen_cons, IH, (zlen_cons c).
Qed.

(** First bytes, classified: a fixed single-byte opcode, a TIP-family byte. *)
Definition fixed_opcode (b : Z) : bool :=
  (b =? 0x00) || (b =? 0x02) || (b =? 0x99) || (b =? 0x19) || (b =? 0x59).
Definition ip_opcode (b : Z) : bool :=
  let short := Z.land b 0x1f in
  (short =? 0x0d) || (short =? 0x1d) || (short =? 0x11) || (short =? 0x01).

Lemma zlen_pos {A} (x : A) l : (zlen (x :: l) <=? 0) = false.
Proof. rewrite zlen_cons. pose proof (zlen_nonneg l). lia. Qed.

Lemma scan_ip_byte b l block n :
  fixed_opcode b = false -> ip_opcode b = true ->
  ip_payload_len (Z.land (Z.shiftr b 5) 7) = Some n -> n <= zlen l ->
  scan_packet (b :: l) 0 block = Done (MkScan (Ip (Z.land b 0x1f) (Z.land (Z.shiftr b 5) 7)) (1 + n)).
Proof.
  unfold fixed_opcode. rewrite !orb_false_iff. intros ((((H1&H2)&H3)&H4)&H5) Hip Hn Hl.
  unfold scan_packet. rewrite zlen_pos, idx_0. cbn [mbind outcome_bind].
  rewrite H1, H2, H3, H4, H5. change (_ || _) with (ip_opcode b). rewrite Hip, Hn.
  rewrite zlen_cons. by replace (_ <? _) with false by lia.
Qed.

Lemma scan_other_byte b l block :
  fixed_opcode b = false -> ip_opcode b = false ->
  scan_packet (b :: l) 0 block =
    match block with
    | Some w =>
        if Z.land b 0x07 =? 0x04
        then if 1 + zlen l <? 1 + w then Done scan_trunc else Done (MkScan Skip (1 + w))
        else if Z.land b 0x03 =? 0x03 then cyc_go 10 (b :: l) 0 1 (negb (Z.land b 0x04 =? 0))
        else if Z.land b 0x01 =? 0x00 then Done (MkScan (Tnt8 (Z.shiftr b 1)) 1) else Done scan_bad
    | None =>
        if Z.land b 0x03 =? 0x03 then cyc_go 10 (b :: l) 0 1 (negb (Z.land b 0x04 =? 0))
        else if Z.land b 0x01 =? 0x00 then Done (MkScan (Tnt8 (Z.shiftr b 1)) 1) else Done scan_bad
    end.
Proof.
  unfold fixed_opcode. rewrite !orb_false_iff. intros ((((H1&H2)&H3)&H4)&H5) Hip.
  unfold scan_packet. rewrite zlen_pos, idx_0. cbn [mbind outcome_bind].
  rewrite H1, H2, H3, H4, H5. change (_ || _) with (ip_opcode b). rewrite Hip, zlen_cons.
  by rewrite Z.sub_0_r.
Qed.

Lemma scan_ext_byte e l block p n :
  scan_ext (0x02 :: e :: l) 0 (2 + zlen l) e = Done (inr (p, n)) -> n <= 2 + zlen l ->
  scan_packet (0x02 :: e :: l) 0 block = Done (MkScan p n).
Proof.
  intros He Hn. unfold scan_packet. rewrite zlen_pos, idx_0. cbn [mbind outcome_bind].
  change (2 =? 0) with false. change (2 =? 2) with true. cbv iota.
  rewrite idx_1. pose proof (zlen_nonneg l).
  replace (zlen (2 :: e :: l) - 0) with (2 + zlen l) by (rewrite !zlen_cons; lia).
  replace (2 + zlen l <? 2) with false by lia. cbn [mbind outcome_bind]. rewrite He.
  cbn [mbind outcome_bind]. by replace (_ <? _) with false by lia.
Qed.

Lemma scan_tnt8 p l block : 2 <= p < 128 -> block = None \/ (2 * p) mod 8 <> 4 ->
  scan_packet (2 * p :: l) 0 block = Done (MkScan (Tnt8 p) 1).
Proof.
  intros Hp Hb.
  byte_facts 128%nat (fun p => (p <? 2) || negb (fixed_opcode (2 * p)) && negb (ip_opcode (2 * p)) &&
    Bool.eqb (Z.land (2 * p) 7 =? 4) ((2 * p) mod 8 =? 4) && negb (Z.land (2 * p) 3 =? 3) &&
    (Z.land (2 * p) 1 =? 0) && (Z.shiftr (2 * p) 1 =? p)) p.
  destruct H as [?|(((((H1&H2)&H3%eqb_prop)&H4)&H5)&H6%Z.eqb_eq)]; [lia|].
  rewrite scan_other_byte by done. rewrite H3, H4, H5, H6.
  destruct block as [w|]; [|done]. destruct Hb as [?|Hb]; [done|].
  by destruct (Z.eqb_spec ((2 * p) mod 8) 4).
Qed.

Lemma scan_bip id body rest : 0 <= id < 32 ->
  scan_packet (8 * id + 4 :: body ++ rest) 0 (Some (zlen body)) = Done (MkScan Skip (1 + zlen body)).
Proof.
  intros Hi.
  byte_facts 32%nat (fun id => negb (fixed_opcode (8 * id + 4)) && negb (ip_opcode (8 * id + 4)) &&
    (Z.land (8 * id + 4) 7 =? 4)) id.
  destruct H as ((H1&H2)&H3). rewrite scan_other_byte by done. rewrite H3, zlen_app.
  pose proof (zlen_nonneg rest). by replace (_ <? _) with false by lia.
Qed.

Lemma scan_cyc c0 cs rest block :
  0 <= c0 < 32 -> zlen cs <= 8 -> Forall (fun c => 0 <= c < 128) cs ->
  scan_packet (8 * c0 + (if decide (cs = []) then 0 else 4) + 3 :: cyc_tail cs ++ rest) 0 block =
    Done (MkScan Skip (1 + zlen cs)).
Proof.
  intros Hc Hl Hcs.
  byte_facts 32%nat (fun c0 => forallb (fun k => let b := 8 * c0 + k + 3 in
    negb (fixed_opcode b) && negb (ip_opcode b) && negb (Z.land b 7 =? 4) && (Z.land b 3 =? 3) &&
    Bool.eqb (negb (Z.land b 4 =? 0)) (k =? 4)) [0; 4]) c0.
  rewrite forallb_forall in H.
  specialize (H (if decide (cs = []) then 0 else 4) ltac:(destruct (decide _); simpl; tauto)).
  cbv zeta in H. rewrite !andb_true_iff, !negb_true_iff in H.
  destruct H as ((((H1&H2)&H3)&H4)&H5%eqb_prop). rewrite scan_other_byte by done. rewrite H3, H4, H5.
  assert (forall b, cyc_go 10 (b :: cyc_tail cs ++ rest) 0 1
     ((if decide (cs = []) then 0 else 4) =? 4) = Done (MkScan Skip (1 + zlen cs))) as Hgo.
  { intros b. rewrite <- (cyc_go_tail 10 [b] cs rest 1) by (done || lia || (unfold zlen in Hl; lia)).
    f_equal. by destruct (decide (cs = [])), (bool_decide_reflect (cs <> [])). }
  rewrite Hgo. by destruct block.
Qed.

Lemma scan_ip op enc ip rest block n :
  op ∈ [0x0d; 0x1d; 0x11; 0x01] -> 0 <= enc -> ip_payload_len enc = Some n ->
  scan_packet ((op + 32 * enc) :: le_bytes (Z.to_nat n) ip ++ rest) 0 block = Done (MkScan (Ip op enc) (1 + n)).
Proof.
  intros Hop H0 Hn.
  assert (enc ∈ [0; 1; 2; 3; 4; 6] /\ 0 <= n) as [He Hn0].
  { unfold ip_payload_len in Hn. repeat case_match; simplify_eq; zbool; (split; [set_solver|lia]). }
  set (b := op + 32 * enc).
  assert (fixed_opcode b = false /\ ip_opcode b = true /\ Z.land b 0x1f = op /\ Z.land (Z.shiftr b 5) 7 = enc)
    as (H1 & H2 & H3 & H4).
  { assert (forallb (fun op => forallb (fun enc => let b := op + 32 * enc in
      negb (fixed_opcode b) && ip_opcode b && (Z.land b 0x1f =? op) && (Z.land (Z.shiftr b 5) 7 =? enc))
      [0; 1; 2; 3; 4; 6]) [0x0d; 0x1d; 0x11; 0x01] = true) as Hc by (vm_compute; reflexivity).
    rewrite forallb_forall in Hc. specialize (Hc op ltac:(by apply list_elem_of_In)).
    rewrite forallb_forall in Hc. specialize (Hc enc ltac:(by apply list_elem_of_In)). cbv zeta in Hc.
    rewrite !andb_true_iff, negb_true_iff, !Z.eqb_eq in Hc. naive_solver. }
  rewrite (scan_ip_byte b _ block n) by (rewrite ?H4, ?zlen_app; try done;
    pose proof (zlen_nonneg rest); unfold zlen in *; rewrite length_le_bytes; lia).
  by rewrite H3, H4.
Qed.

Lemma scan_ext_table e body rest block : (e, zlen body) ∈ ext_table ->
  scan_packet (0x02 :: e :: body ++ rest) 0 block = Done (MkScan Skip (2 + zlen body)).
Proof.
  intros He. pose proof (zlen_nonneg rest). apply scan_ext_byte; [|rewrite zlen_app; lia].
  unfold ext_table in He.
  repeat (apply elem_of_cons in He as [[= -> ->]|He]; [reflexivity|]). by apply not_elem_of_nil in He.
Qed.

(** Every packet of the grammar is measured by its encoded length. *)
Lemma scan_encode p rest block : valid block p ->
  scan_packet (encode p ++ rest) 0 block = Done (MkScan (kind p) (zlen (encode p))).
Proof.
  pose proof (zlen_nonneg rest) as Hr.
  destruct p as [|p|p|op enc ip| | |b|f|e body|f w body|body|b|body|b|id body|c0 cs];
    cbn [encode valid kind app]; rewrite ?zlen_cons; try change (zlen (@nil Z)) with 0; intros Hv.
  - unfold scan_packet. by rewrite zlen_pos, idx_0.
  - destruct Hv. by apply scan_tnt8.
  - assert (zlen (le_bytes 6 p) = 6) as Hl by (unfold zlen; by rewrite length_le_bytes). rewrite Hl.
    apply scan_ext_byte; [|rewrite zlen_app, Hl; lia]. unfold scan_ext.
    change (0xa3 =? 0x82) with false. change (0xa3 =? 0x23) with false. change (0xa3 =? 0xa3) with true.
    cbv iota. replace (_ <? _) with false by (rewrite zlen_app, Hl; lia).
    by rewrite (le_accum_enc [0x02; 0xa3] 6 p rest (0 + 2) eq_refl ltac:(lia) Hv
      : le_accum (0x02 :: 0xa3 :: le_bytes 6 p ++ rest) (0 + 2) 6 0 0 = _).
  - destruct Hv as (Hop & H0 & n & Hn & Hip). rewrite Hn. change (default 0 (Some n)) with n.
    rewrite (scan_ip _ _ _ _ _ n) by done. f_equal. f_equal. unfold zlen. rewrite length_le_bytes.
    unfold ip_payload_len in Hn. repeat case_match; simplify_eq; reflexivity.
  - apply (scan_ext_byte 0x82 (drop 2 PSB ++ rest) block Psb 16); [reflexivity|].
    rewrite zlen_app. change (zlen (drop 2 PSB)) with 14. lia.
  - apply scan_ext_byte; [reflexivity|lia].
  - apply scan_ext_byte; [|rewrite zlen_cons; lia]. unfold scan_ext.
    repeat match goal with |- context [0x63 =? ?k] => 
      let v := eval vm_compute in (Z.eqb 0x63 k) in change (Z.eqb 0x63 k) with v end. cbn [orb].
    rewrite zlen_cons. replace (_ <? _) with false by lia. by rewrite idx_2.
  - destruct f; (apply scan_ext_byte; [reflexivity|lia]).
  - rewrite scan_ext_table by done. f_equal. f_equal. lia.
  - destruct f, w; rewrite Hv; (apply scan_ext_byte; [reflexivity|rewrite zlen_app; lia]).
  - apply scan_ext_byte; [|rewrite zlen_cons, zlen_app; lia].
    unfold scan_ext. repeat match goal with |- context [0xc3 =? ?k] =>
      let v := eval vm_compute in (Z.eqb 0xc3 k) in change (Z.eqb 0xc3 k) with v end. cbn [orb].
    rewrite zlen_cons, zlen_app. replace (_ <? _) with false by lia. rewrite idx_2, Hv. reflexivity.
  - unfold scan_packet. rewrite zlen_pos, idx_0. cbn [mbind outcome_bind].
    rewrite !zlen_cons. by replace (_ <? 2) with false by lia.
  - unfold scan_packet. rewrite zlen_pos, idx_0. cbn [mbind outcome_bind].
    rewrite !zlen_cons, zlen_app, Hv. by replace (_ <? 8) with false by lia.
  - unfold scan_packet. rewrite zlen_pos, idx_0. cbn [mbind outcome_bind].
    rewrite !zlen_cons. by replace (_ <? 2) with false by lia.
  - destruct Hv as [Hid ->]. by apply scan_bip.
  - destruct Hv as (?&?&?). rewrite length_cyc_tail. by apply scan_cyc.
Qed.

(** * Last-IP compression, arithmetically *)

(** The IP an IP packet announces: [enc] 1, 2 and 4 replace the low 16, 32 and
    48 bits of the last IP, 3 sign-extends 48 bits, 6 is a full address. *)
Definition ref_ip (enc last ip : Z) : Z :=
  if enc =? 1 then last - last mod 2 ^ 16 + ip
  else if enc =? 2 then last - last mod 2 ^ 32 + ip
  else if enc =? 3 then if ip <? 2 ^ 47 then ip else ip + (2 ^ 64 - 2 ^ 48)
  else if enc =? 4 then last - last mod 2 ^ 48 + ip
  else if enc =? 6 then ip
  else last.

Lemma replace_low k last ip : 0 <= k <= 64 -> is_u64 last -> 0 <= ip < 2 ^ k ->
  Z.lor (Z.land last (2 ^ 64 - 1 - (2 ^ k - 1))) ip = last - last mod 2 ^ k + ip.
Proof.
  intros Hk Hl Hip.
  assert (Z.land last (2 ^ 64 - 1 - (2 ^ k - 1)) = Z.shiftl (last / 2 ^ k) k) as ->.
  { apply Z.bits_inj'. intros i Hi. rewrite Z.land_spec, Z.shiftl_spec by done.
    replace (2 ^ 64 - 1 - (2 ^ k - 1)) with (Z.shiftl (Z.ones (64 - k)) k).
    2: { rewrite Z.shiftl_mul_pow2, Z.ones_equiv by lia. unfold Z.pred. rewrite Z.mul_add_distr_r, <- Z.pow_add_r by lia.
         replace (64 - k + k) with 64 by lia. lia. }
    rewrite Z.shiftl_spec by done. destruct (decide (i < k)).
    - rewrite !(Z.testbit_neg_r _ (i - k)) by lia. apply andb_false_r.
    - rewrite Z.div_pow2_bits by lia. replace (i - k + k) with i by lia.
      destruct (decide (i < 64)).
      + rewrite Z.ones_spec_low by lia. apply andb_true_r.
      + by rewrite (testbit_high last 64 i) by (done || lia). }
  rewrite Z.lor_comm, lor_add by lia. pose proof (Z.div_mod last (2 ^ k)). lia.
Qed.

Lemma land_pow2_bit a k : 0 <= k -> (Z.land a (2 ^ k) =? 0) = negb (Z.testbit a k).
Proof.
  intros Hk. rewrite <- Z.shiftl_1_l. destruct (Z.eqb_spec (Z.land a (Z.shiftl 1 k)) 0) as [H|H].
  - apply (f_equal (fun z => Z.testbit z k)) in H. rewrite Z.land_spec, Z.shiftl_spec, Z.sub_diag, Z.bits_0 in H by lia.
    simpl in H. by rewrite andb_true_r in H; rewrite H.
  - destruct (Z.testbit a k) eqn:E; [done|]. exfalso. apply H. apply Z.bits_inj'. intros i Hi.
    rewrite Z.land_spec, Z.shiftl_spec, Z.bits_0 by lia. destruct (decide (i = k)) as [->|]; [by rewrite E|].
    replace (Z.testbit 1 (i - k)) with false; [apply andb_false_r|].
    symmetry. destruct (decide (i < k)); [by apply Z.testbit_neg_r; lia|]. apply (testbit_high 1 1); lia.
Qed.

Lemma update_ip_ref enc last ip n :
  is_u64 last -> ip_payload_len enc = Some n -> enc <> 0 -> 0 <= ip < 2 ^ (8 * n) ->
  update_ip enc last ip = ref_ip enc last ip /\ is_u64 (ref_ip enc last ip).
Proof.
  intros Hl Hn H0 Hip. unfold ip_payload_len in Hn. unfold update_ip, ref_ip, is_u64 in *.
  pose proof (Z.mod_pos_bound last (2 ^ 16)). pose proof (Z.mod_pos_bound last (2 ^ 32)).
  pose proof (Z.mod_pos_bound last (2 ^ 48)).
  pose proof (Z.div_mod last (2 ^ 16)). pose proof (Z.div_mod last (2 ^ 32)). pose proof (Z.div_mod last (2 ^ 48)).
  destruct (Z.eqb_spec enc 0); [done|].
  destruct (Z.eqb_spec enc 1); [simpl in Hn; simplify_eq; split; [apply (replace_low 16); [lia|exact Hl|exact Hip]|lia]|].
  destruct (Z.eqb_spec enc 2); [simpl in Hn; simplify_eq; split; [apply (replace_low 32); [lia|exact Hl|exact Hip]|lia]|].
  destruct (Z.eqb_spec enc 3); [|destruct (Z.eqb_spec enc 4);
    [simpl in Hn; simplify_eq; split; [apply (replace_low 48); [lia|exact Hl|exact Hip]|lia]|destruct (Z.eqb_spec enc 6); simpl in Hn; simplify_eq; lia]].
  simpl in Hn. simplify_eq. rewrite land_pow2_bit by done. change (8 * 6) with 48 in Hip.
  destruct (Z.ltb_spec ip (2 ^ 47)) as [Hs|Hs].
  - rewrite (testbit_high ip 47) by lia. split; [done|lia].
  - assert (Z.testbit ip 47 = true) as ->.
    { rewrite Z.testbit_true by done. assert (ip / 2 ^ 47 = 1) as -> by (symmetry; apply (Z.div_unique _ _ _ (ip - 2 ^ 47)); lia). done. }
    split; [|lia]. change 0xFFFF000000000000 with (Z.shiftl (2 ^ 16 - 1) 48). by rewrite lor_add by lia.
Qed.

(** The addresses a packet stream announces, in order. *)
Fixpoint ref_pcs (last : Z) (ps : list packet) : list Z :=
  match ps with
  | [] => []
  | PIp _ enc ip :: t =>
      if enc =? 0 then ref_pcs last t else let l := ref_ip enc last ip in l :: ref_pcs l t
  | POvf :: t => ref_pcs 0 t
  | _ :: t => ref_pcs last t
  end.

(** The log the decoders are to write: the kernel addresses, one per line. *)
Definition ref_log (pcs : list Z) : list Z :=
  concat (fmt_pc_line <$> filter (fun pc => kernel_pc pc = true) pcs).

Lemma emit_ip_ref ip pcs o :
  out (emit_ip ip o) ++ ref_log pcs = out o ++ ref_log (ip :: pcs).
Proof.
  unfold emit_ip, ref_log. rewrite filter_cons. destruct (kernel_pc ip) eqn:E; [|by rewrite decide_False].
  rewrite decide_True by done. cbn [out fmap list_fmap concat]. by rewrite <- app_assoc.
Qed.

Lemma block_ok_next block p : block_ok block -> block_ok (next_block block p).
Proof. destruct p; try done. simpl. destruct (_ =? 0); auto. Qed.

Lemma encode_pos p block : valid block p -> 1 <= zlen (encode p).
Proof.
  assert (forall b (l : list Z), 1 <= zlen (b :: l)) as H.
  { intros. rewrite zlen_cons. pose proof (zlen_nonneg l). lia. }
  destruct p; intros _; apply H.
Qed.

Lemma concat_encode_length ps block : valid_stream block ps ->
  Z.of_nat (length ps) <= zlen (concat (encode <$> ps)).
Proof.
  revert block. induction ps as [|p ps IH]; intros block Hv; [done|]. destruct Hv as [Hp Hv].
  rewrite fmap_cons. cbn [concat length]. rewrite zlen_app. pose proof (encode_pos _ _ Hp).
  specialize (IH _ Hv). lia.
Qed.

(** * The TIP-only decoder *)

Import TipOnly.

Definition tip_inv (data : list Z) (s : state) : Prop :=
  0 <= pos s <= zlen data /\ block_ok (block s) /\ is_u64 (last_ip s).

Lemma update_ip_range enc last ip n :
  is_u64 last -> ip_payload_len enc = Some n -> 0 <= ip < 2 ^ (8 * n) -> is_u64 (update_ip enc last ip).
Proof.
  intros Hl Hn Hip. destruct (decide (enc = 0)) as [->|]; [done|].
  destruct (update_ip_ref enc last ip n) as [-> ?]; done.
Qed.

Ltac tip_done :=
  cbn [wp]; unfold tip_inv in *; cbn [TipOnly.pos TipOnly.block TipOnly.last_ip block_ok];
  split_and?; try done; try lia.

Lemma wp_tip_step data s : bytes_ok data -> tip_inv data s ->
  wp (step data s) (fun c => match c with
    | Next s' => tip_inv data s' /\ 0 <= zlen data - pos s' < zlen data - pos s
    | Stop s' => tip_inv data s'
    end) False.
Proof.
  intros Hb (Hp & Hbl & Hu). unfold step. destruct (Z.leb_spec (zlen data) (pos s)); [done|].
  apply wp_bind. eapply wp_mono; [apply wp_scan_packet; [done|lia|done]| |done].
  intros [p n] [Hn Hpl]. cbn [pkt len] in *.
  assert (is_u64 0) by (unfold is_u64; lia).
  destruct p as [|q|q|op enc| | |wide| | | |]; try solve [tip_done].
  - rewrite Hpl. change (default 0 (Some (n - 1))) with (n - 1). destruct (Z.ltb_spec 0 (n - 1)); [|tip_done].
    assert (n <= 9) by (unfold ip_payload_len in Hpl; repeat case_match; simplify_eq; lia).
    apply wp_bind. eapply wp_mono; [apply (wp_le_accum data (pos s + 1) (Z.to_nat (n - 1)) 0 0); [done|lia|lia|lia|done|lia]| |done].
    intros ip Hip. assert (is_u64 (update_ip enc (last_ip s) ip)).
    { eapply (update_ip_range _ _ _ (n - 1)); [done|done|]. by replace (0 + Z.of_nat (Z.to_nat (n - 1))) with (n - 1) in Hip by lia. }
    tip_done.
  - tip_done. destruct wide; auto.
  - destruct (find_psb_spec data (pos s + 1)) as ([j|] & -> & Hj); [lia| |]; cbn [mbind outcome_bind wp].
    + destruct Hj as (?&Hj%psb_at_bounds&_). tip_done.
    + tip_done.
Qed.

Lemma tip_only_ok data : bytes_ok data -> wp (tip_only_decode data) (tip_inv data) False.
Proof.
  intros Hb. pose proof (zlen_nonneg data). unfold tip_only_decode.
  apply (wp_loop (tip_inv data) (fun s => zlen data - pos s)).
  - intros s Hs. by apply wp_tip_step.
  - split_and!; simpl; unfold is_u64; lia.
  - simpl. unfold zlen in *. lia.
Qed.

(** One abstract packet, one step. *)
Lemma tip_step_packet pre p rest last block st lg :
  valid block p -> is_u64 last ->
  step (pre ++ encode p ++ rest) (MkState last (zlen pre) block st lg) =
  Done (Next (MkState
    (match p with
     | PIp _ enc ip => if enc =? 0 then last else ref_ip enc last ip
     | POvf => 0 | _ => last end)
    (zlen (pre ++ encode p)) (next_block block p)
    (match p with POvf => st_ovf st | _ => st end)
    (match p with
     | PIp _ enc ip => if enc =? 0 then lg else emit_ip (ref_ip enc last ip) lg
     | _ => lg end))).
Proof.
  intros Hv Hl. pose proof (encode_pos p block Hv) as He. pose proof (zlen_nonneg rest) as Hr.
  unfold step. cbn [TipOnly.pos TipOnly.block TipOnly.last_ip TipOnly.stats TipOnly.log].
  replace (_ <=? zlen pre) with false by (rewrite !zlen_app; lia).
  rewrite scan_packet_shift, (scan_encode p rest block Hv). cbn [mbind outcome_bind pkt len].
  rewrite zlen_app.
  destruct p as [|p|p|op enc ip| | |b|f|e body|f w body|body|b|body|b|id body|c0 cs]; try reflexivity.
  - cbn [kind]. destruct Hv as (Hop & H0 & n & Hn & Hip). rewrite Hn. change (default 0 (Some n)) with n.
    destruct (Z.eqb_spec enc 0) as [->|Hne]; [by injection Hn as <-|].
    assert (0 < n <= 8) by (unfold ip_payload_len in Hn; repeat case_match; simplify_eq; lia).
    replace (0 <? n) with true by lia. cbn [encode]. rewrite Hn. change (default 0 (Some n)) with n.
    rewrite (app_assoc pre [op + 32 * enc] _ : pre ++ (op + 32 * enc :: le_bytes (Z.to_nat n) ip) ++ rest = _).
    rewrite le_accum_enc; [|by rewrite zlen_app|lia|by rewrite Z2Nat.id by lia].
    cbn [mbind outcome_bind]. by rewrite (proj1 (update_ip_ref enc last ip n Hl Hn Hne Hip)).
  - cbn [kind next_block]. by destruct (_ =? 0).
Qed.

Lemma tip_loop_stream fuel pre ps last block st lg :
  valid_stream block ps -> is_u64 last -> (length ps < fuel)%nat ->
  exists s, loop fuel (step (pre ++ concat (encode <$> ps))) (MkState last (zlen pre) block st lg) = Done s /\
    out (log s) = out lg ++ ref_log (ref_pcs last ps) /\
    bad_packets (stats s) = bad_packets st /\ truncated (stats s) = truncated st.
Proof.
  revert fuel pre last block st lg. induction ps as [|p ps IH]; intros [|fuel] pre last block st lg Hv Hl Hf;
    try (simpl in Hf; lia).
  - exists (MkState last (zlen pre) block st lg). cbn [fmap list_fmap concat loop].
    unfold step. cbn [TipOnly.pos]. rewrite app_nil_r, Z.leb_refl. split_and!; [done| |done|done].
    by rewrite app_nil_r.
  - destruct Hv as [Hp Hv]. rewrite fmap_cons. cbn [loop concat].
    rewrite tip_step_packet by done. cbn [mbind outcome_bind].
    rewrite (app_assoc pre (encode p) _).
    edestruct (IH fuel (pre ++ encode p)) as (s & Hs & Ho & Hb & Ht); [exact Hv| |simpl in Hf; lia|].
    2: { exists s. split; [exact Hs|]. rewrite Ho, Hb, Ht.
         destruct p; try done. cbn [ref_pcs]. destruct (_ =? 0); [done|]. by rewrite emit_ip_ref. }
    destruct p; try done. destruct Hp as (_ & _ & n & Hn & Hip). destruct (Z.eqb_spec enc 0); [done|].
    by eapply update_ip_ref.
Qed.

(** * Claims *)

(** The length table is total and safe.  On every byte string, at
    every position and in every block state, [scan_packet] returns without an
    out-of-range index; a recognised packet has a length between 1 and 16 and
    lies inside the trace, its payload fits its field, and an IP packet is
    exactly one byte longer than its payload; only [Bad] and [Truncated] have
    length zero. *)
Theorem scan_packet_total data pos block :
  bytes_ok data -> 0 <= pos -> block_ok block ->
  exists s, scan_packet data pos block = Done s /\ scan_ok data pos s.
Proof.
  intros Hb Hp Hbl. pose proof (wp_scan_packet data pos block Hb Hp Hbl) as H.
  destruct (scan_packet data pos block) as [s| | |]; try done. by exists s.
Qed.

Lemma scan_packet_total_witness :
  bytes_ok [0x02; 0xa3; 1; 2; 3; 4; 5; 0x80] /\
  exists s, scan_packet [0x02; 0xa3; 1; 2; 3; 4; 5; 0x80] 0 (Some 8) = Done s /\
            scan_ok [0x02; 0xa3; 1; 2; 3; 4; 5; 0x80] 0 s.
Proof.
  assert (bytes_ok [0x02; 0xa3; 1; 2; 3; 4; 5; 0x80]) by (repeat constructor; unfold is_u8; lia).
  split; [done|]. apply scan_packet_total; [done|lia|by right].
Defined.

(** Framing.  A packet of the Intel PT grammar, encoded at any
    place of a trace in a block context that allows it, is recognised as what
    it is and measured by its true encoded length, whatever precedes or
    follows it. *)
Theorem scan_packet_frames pre p rest block :
  valid block p ->
  scan_packet (pre ++ encode p ++ rest) (zlen pre) block = Done (MkScan (kind p) (zlen (encode p))).
Proof. intros Hv. rewrite scan_packet_shift. by apply scan_encode. Qed.

Lemma scan_packet_frames_witness :
  valid (Some 4) (PCyc 31 [127; 1]) /\
  scan_packet ([9] ++ encode (PCyc 31 [127; 1]) ++ [0x82]) 1 (Some 4) = Done (MkScan Skip 3) /\
  valid (Some 4) (PBip 3 [1; 2; 3; 4]) /\
  scan_packet ([] ++ encode (PBip 3 [1; 2; 3; 4]) ++ []) 0 (Some 4) = Done (MkScan Skip 5).
Proof.
  assert (valid (Some 4) (PCyc 31 [127; 1])) as H1.
  { split_and!; [lia|lia|unfold zlen; simpl; lia|]. repeat constructor; lia. }
  assert (valid (Some 4) (PBip 3 [1; 2; 3; 4])) as H2 by (split; [lia|done]).
  split_and!; [exact H1| |exact H2|].
  - exact (scan_packet_frames [9] (PCyc 31 [127; 1]) [0x82] (Some 4) H1).
  - exact (scan_packet_frames [] (PBip 3 [1; 2; 3; 4]) [] (Some 4) H2).
Defined.

(** Resynchronisation.  [find_psb] returns the offset of the first
    PSB at or after the given offset, and [None] only when there is none; it
    never slices out of range. *)
Theorem find_psb_first data from : 0 <= from ->
  exists r, find_psb data from = Done r /\
    match r with
    | Some j => from <= j /\ psb_at data j /\ forall k, from <= k < j -> ~ psb_at data k
    | None => forall k, from <= k -> ~ psb_at data k
    end.
Proof. apply find_psb_spec. Qed.

Lemma find_psb_first_witness :
  0 <= 1 /\ find_psb ([7; 7; 7] ++ PSB) 1 = Done (Some 3) /\
  exists r, find_psb ([7; 7; 7] ++ PSB) 1 = Done r /\
    match r with
    | Some j => 1 <= j /\ psb_at ([7; 7; 7] ++ PSB) j /\ forall k, 1 <= k < j -> ~ psb_at ([7; 7; 7] ++ PSB) k
    | None => forall k, 1 <= k -> ~ psb_at ([7; 7; 7] ++ PSB) k
    end.
Proof. split_and!; [lia|vm_compute; reflexivity|]. apply find_psb_first. lia. Defined.

(** The TIP-only decoder terminates on every byte string,
    corrupt ones included, without an out-of-range index: it returns a final
    state whose last IP is a 64-bit address and whose position is in the
    trace. *)
Theorem tip_only_decode_total data : bytes_ok data ->
  exists s, tip_only_decode data = Done s /\ tip_inv data s.
Proof.
  intros Hb. pose proof (tip_only_ok data Hb) as H.
  destruct (tip_only_decode data) as [s| | |]; try done. by exists s.
Qed.

Lemma tip_only_decode_total_witness :
  bytes_ok [0x05; 0x0d; 0xcd; 0xff; 0xff] /\
  exists s, tip_only_decode [0x05; 0x0d; 0xcd; 0xff; 0xff] = Done s /\ tip_inv [0x05; 0x0d; 0xcd; 0xff; 0xff] s.
Proof.
  assert (bytes_ok [0x05; 0x0d; 0xcd; 0xff; 0xff]) by (repeat constructor; unfold is_u8; lia).
  split; [done|]. by apply tip_only_decode_total.
Defined.

(** C1: on a well-formed packet stream the TIP-only decoder logs
    exactly the kernel addresses of its IP packets, decompressed against the
    last IP and in order, loses none to a packet it skips, and reports no
    undecodable packet and no truncation. *)
Theorem tip_only_decode_stream ps : valid_stream None ps ->
  exists s, tip_only_decode (concat (encode <$> ps)) = Done s /\
    out (log s) = ref_log (ref_pcs 0 ps) /\
    bad_packets (stats s) = 0 /\ truncated (stats s) = false.
Proof.
  intros Hv. pose proof (concat_encode_length ps None Hv) as Hl. unfold zlen in Hl.
  apply (tip_loop_stream (S (length (concat (encode <$> ps)))) [] ps 0 None stats0 log0); [done| |lia].
  unfold is_u64. lia.
Qed.

(** PSB, an 8-byte TIP, a BBP/BIP block, a CYC, a 2-byte FUP, an overflow and a
    TIP with no IP: two kernel addresses. *)
Definition demo_stream : list packet :=
  [PPsb; PIp 0x0d 6 0xffffffff81000010; PBbp 0x80; PBip 5 [0x0d; 0; 0; 0; 0; 0; 0; 0]; PBep false;
   PCyc 3 [64]; PIp 0x1d 1 0x2233; POvf; PIp 0x0d 0 0].

Lemma tip_only_decode_stream_witness :
  valid_stream None demo_stream /\
  ref_log (ref_pcs 0 demo_stream) = fmt_pc_line 0xffffffff81000010 ++ fmt_pc_line 0xffffffff81002233 /\
  exists s, tip_only_decode (concat (encode <$> demo_stream)) = Done s /\
    out (log s) = ref_log (ref_pcs 0 demo_stream) /\
    bad_packets (stats s) = 0 /\ truncated (stats s) = false.
Proof.
  assert (valid_stream None demo_stream) as H.
  { unfold demo_stream. cbn [valid_stream valid next_block].
    split_and!; try done; try lia; try (set_solver); try (repeat constructor; lia);
      try (eexists; split; [reflexivity|lia]). }
  split_and!; [exact H|vm_compute; reflexivity|]. exact (tip_only_decode_stream demo_stream H).
Defined.
