(* ===== verification/PtDecoder.v ===== *)
(** mode/engine.rs, the full Intel PT decoder: [decode_insn], [walk_tnt],
    [load_tnt], [run] and the ELF [.text] loader.

    Shown: the instruction decoder stays inside its window and decodes the
    branches it knows; a TNT packet loads the encoded outcomes oldest first;
    with no kernel text loaded the full decoder logs the same addresses as the
    TIP-only one on every byte string; with text, the decoder terminates when
    direct jumps only go forward, and does not terminate on a direct jump to
    itself while outcomes are pending. *)
From S2P Require Import Prelude Text PtPacket.

(** * The instruction decoder *)

Record Insn : Type := MkInsn { ilen : Z; is_branch : bool; is_cond : bool; branch_rel : Z }.

Definition is_prefix (b : Z) : bool :=
  (b =? 0x66) || (b =? 0x67) || (b =? 0xf0) || (b =? 0xf2) || (b =? 0xf3) || (b =? 0x2e) ||
  (b =? 0x3e) || (b =? 0x26) || (b =? 0x64) || (b =? 0x65) || (b =? 0x36).

(** The prefix loop: legacy and REX prefixes, at most 15. *)
Fixpoint skip_prefixes (fuel : nat) (p : list Z) (max_len len : Z) : outcome Z :=
  match fuel with
  | O => Fuel
  | S f =>
      if (len <? 15) && (len <? max_len) then
        b ← idx p len;
        if is_prefix b || (Z.land b 0xf0 =? 0x40) then skip_prefixes f p max_len (len + 1) else Done len
      else Done len
  end.

(** [i32::from_le_bytes([p[len], .. p[len + 3]]) as i64] *)
Definition rel32 (p : list Z) (len : Z) : outcome Z :=
  b0 ← idx p len; b1 ← idx p (len + 1); b2 ← idx p (len + 2); b3 ← idx p (len + 3);
  Done (as_i32 (le_val [b0; b1; b2; b3])).

(** Bytes a ModRM byte adds, SIB and displacement. *)
Definition modrm_extra (modrm : Z) : Z :=
  let mod_ := Z.land (Z.shiftr modrm 6) 3 in
  let rm := Z.land modrm 7 in
  if (mod_ =? 0) && (rm =? 5) then 4
  else if (mod_ =? 0) && (rm =? 4) then 1
  else if mod_ =? 1 then (if rm =? 4 then 2 else 1)
  else if mod_ =? 2 then (if rm =? 4 then 5 else 4)
  else 0.

Definition has_modrm (op : Z) : bool :=
  (op <=? 0x3f) || ((0x80 <=? op) && (op <=? 0x8f)) || (op =? 0x63) || (op =? 0x69) || (op =? 0x6b) ||
  (op =? 0xc0) || (op =? 0xc1) || (op =? 0xc6) || (op =? 0xc7) || (op =? 0xd0) || (op =? 0xd1) ||
  (op =? 0xd2) || (op =? 0xd3) || (op =? 0xf6) || (op =? 0xf7) || (op =? 0xfe).

Definition imm_extra (op : Z) : Z :=
  if (op =? 0x80) || (op =? 0x82) || (op =? 0xc0) || (op =? 0xc6) then 1
  else if (op =? 0x81) || (op =? 0xc1) || (op =? 0xc7) || (op =? 0x69) then 4
  else if (op =? 0x83) || (op =? 0x6b) then 1
  else 0.

Definition decode_insn (code : list Z) (max_len : Z) : outcome Insn :=
  if max_len <? 1 then Done (MkInsn 0 false false 0) else
  len ← skip_prefixes 16 code max_len 0;
  if max_len <=? len then Done (MkInsn (if len =? 0 then 1 else len) false false 0) else
  op ← idx code len;
  let len := len + 1 in
  let rel8_branch cond :=
    if len <? max_len then b ← idx code len; Done (MkInsn (len + 1) true cond (as_i8 b))
    else Done (MkInsn len false false 0) in
  let rel32_branch cond len :=
    if len + 4 <=? max_len then r ← rel32 code len; Done (MkInsn (len + 4) true cond r)
    else Done (MkInsn len false false 0) in
  if (0x70 <=? op) && (op <=? 0x7f) then rel8_branch true
  else if op =? 0xeb then rel8_branch false
  else if op =? 0xe8 then rel32_branch false len
  else if op =? 0xe9 then rel32_branch false len
  else if (op =? 0xc3) || (op =? 0xcb) then Done (MkInsn len true false 0)
  else if (op =? 0x0f) && (len <? max_len) then
    op2 ← idx code len;
    let len := len + 1 in
    if (0x80 <=? op2) && (op2 <=? 0x8f) then rel32_branch true len
    else if (op2 =? 0x05) || (op2 =? 0x07) then Done (MkInsn len true false 0)
    else if len <? max_len then
      modrm ← idx code len; Done (MkInsn (len + 1 + modrm_extra modrm) false false 0)
    else Done (MkInsn len false false 0)
  else if (op =? 0xff) && (len <? max_len) then
    modrm ← idx code len;
    let reg := Z.land (Z.shiftr modrm 3) 7 in
    Done (MkInsn (len + 1 + modrm_extra modrm) ((reg =? 2) || (reg =? 4)) false 0)
  else if (len <? max_len) && has_modrm op then
    modrm ← idx code len; Done (MkInsn (len + 1 + modrm_extra modrm + imm_extra op) false false 0)
  else Done (MkInsn len false false 0).

(** * The decoder state *)

Record PtDecoder : Type := MkDec
  { text : list Z; text_vaddr : Z; text_size : Z;
    trace : list Z; pos : Z;
    ip : Z; tnt_bits : Z; tnt_count : Z;
    block : option Z; stats : PtStats; log : Log }.

Definition set_pos (p : Z) (d : PtDecoder) : PtDecoder :=
  MkDec (text d) (text_vaddr d) (text_size d) (trace d) p (ip d) (tnt_bits d) (tnt_count d) (block d) (stats d) (log d).
Definition set_ip (i : Z) (d : PtDecoder) : PtDecoder :=
  MkDec (text d) (text_vaddr d) (text_size d) (trace d) (pos d) i (tnt_bits d) (tnt_count d) (block d) (stats d) (log d).
Definition set_tnt (b c : Z) (d : PtDecoder) : PtDecoder :=
  MkDec (text d) (text_vaddr d) (text_size d) (trace d) (pos d) (ip d) b c (block d) (stats d) (log d).
Definition set_block (b : option Z) (d : PtDecoder) : PtDecoder :=
  MkDec (text d) (text_vaddr d) (text_size d) (trace d) (pos d) (ip d) (tnt_bits d) (tnt_count d) b (stats d) (log d).
Definition set_stats (s : PtStats) (d : PtDecoder) : PtDecoder :=
  MkDec (text d) (text_vaddr d) (text_size d) (trace d) (pos d) (ip d) (tnt_bits d) (tnt_count d) (block d) s (log d).
Definition set_log (l : Log) (d : PtDecoder) : PtDecoder :=
  MkDec (text d) (text_vaddr d) (text_size d) (trace d) (pos d) (ip d) (tnt_bits d) (tnt_count d) (block d) (stats d) l.
Definition set_vaddr (v : Z) (d : PtDecoder) : PtDecoder :=
  MkDec (text d) v (text_size d) (trace d) (pos d) (ip d) (tnt_bits d) (tnt_count d) (block d) (stats d) (log d).

(** [self.emit_ip(self.ip)] *)
Definition emit (d : PtDecoder) : PtDecoder := set_log (emit_ip (ip d) (log d)) d.

Definition drop_tnt (d : PtDecoder) : PtDecoder := set_tnt 0 0 d.

(** [pt_read_ip]: [None] is the -1 of a truncated payload. *)
Definition pt_read_ip (enc : Z) (d : PtDecoder) : outcome (option PtDecoder) :=
  let bytes := if enc =? 1 then 2 else if enc =? 2 then 4
    else if (enc =? 3) || (enc =? 4) then 6 else if enc =? 6 then 8 else 0 in
  if bytes =? 0 then Done (Some d)
  else if zlen (trace d) <? pos d + bytes then Done None
  else
    val ← le_accum (trace d) (pos d) (Z.to_nat bytes) 0 0;
    Done (Some (set_ip (update_ip enc (ip d) val) (set_pos (pos d + bytes) d))).

(** The one-shot KASLR correction at the head of [walk_tnt]. *)
Definition kaslr_fix (d : PtDecoder) : PtDecoder :=
  if kernel_pc (ip d) && negb (ip d =? 0) && negb (bool_decide (text d = [])) then
    if (ip d <? text_vaddr d) || (text_vaddr d +₆₄ text_size d <=? ip d) then
      let offset := Z.shiftr (ip d -₆₄ text_vaddr d) 21 <<₆₄ 21 in
      if (0 <? offset) && (offset <? 0x80000000)
      then set_vaddr (text_vaddr d +₆₄ offset) d else d
    else d
  else d.

(** One iteration of the walk. *)
Definition walk_step (d : PtDecoder) : outcome (ctl PtDecoder PtDecoder) :=
  if (0 <? tnt_count d) && (text_vaddr d <=? ip d) && (ip d <? text_vaddr d +₆₄ text_size d) then
    let off := ip d - text_vaddr d in
    if text_size d <? off then Done (Stop d) else
    let remain := text_size d - off in
    if remain <? 1 then Done (Stop d) else
    let maxl := if 15 <? remain then 15 else remain in
    code ← or_panic (slice (text d) off (off + maxl));
    i ← decode_insn code maxl;
    if ilen i =? 0 then Done (Stop d)
    else if is_branch i && is_cond i then
      let taken := Z.land (Z.shiftr (tnt_bits d) (tnt_count d - 1)) 1 in
      let d := set_tnt (tnt_bits d) (tnt_count d - 1) d in
      let d := if negb (taken =? 0) then set_ip ((ip d +₆₄ ilen i) +₆₄ branch_rel i) d
               else set_ip (ip d +₆₄ ilen i) d in
      Done (Next (emit d))
    else if is_branch i && negb (is_cond i) then
      if negb (branch_rel i =? 0) && (1 <? ilen i)
      then Done (Next (emit (set_ip ((ip d +₆₄ ilen i) +₆₄ branch_rel i) d)))
      else Done (Stop d)
    else Done (Next (set_ip (ip d +₆₄ ilen i) d))
  else Done (Stop d).

Definition walk_tnt (fuel : nat) (d : PtDecoder) : outcome PtDecoder :=
  loop fuel walk_step (kaslr_fix d).

Definition load_tnt (fuel : nat) (payload : Z) (d : PtDecoder) : outcome PtDecoder :=
  if payload =? 0 then Done (set_tnt 0 0 (set_stats (st_bad (stats d)) d))
  else
    let stop := Z.log2 payload in
    let d := set_tnt (Z.land payload (Z.shiftl 1 stop - 1)) stop d in
    if negb (bool_decide (text d = [])) && negb (ip d =? 0) && (0 <? tnt_count d)
    then walk_tnt fuel d else Done d.

(** One packet of [run]. *)
Definition run_step (fuel : nat) (d : PtDecoder) : outcome (ctl PtDecoder PtDecoder) :=
  if zlen (trace d) <=? pos d then Done (Stop d) else
  scan ← scan_packet (trace d) (pos d) (block d);
  let adv := set_pos (pos d + len scan) d in
  match pkt scan with
  | Pad | Skip => Done (Next adv)
  | Tnt8 payload | Tnt64 payload => d' ← load_tnt fuel payload adv; Done (Next d')
  | Ip _ enc =>
      if enc =? 0 then Done (Next adv) else
      r ← pt_read_ip enc (set_pos (pos d + 1) d);
      match r with
      | None => let d := set_pos (pos d + 1) d in Done (Stop (set_stats (st_trunc (stats d)) d))
      | Some d =>
          let d := emit d in
          if negb (bool_decide (text d = [])) && (0 <? tnt_count d)
          then d' ← walk_tnt fuel d; Done (Next d') else Done (Next d)
      end
  | Psb => Done (Next (drop_tnt adv))
  | Ovf => Done (Next (set_stats (st_ovf (stats adv)) (set_ip 0 (drop_tnt adv))))
  | Bbp wide => Done (Next (set_block (Some (if wide then 8 else 4)) adv))
  | Bep => Done (Next (set_block None adv))
  | Truncated => Done (Stop (set_stats (st_trunc (stats d)) d))
  | Bad =>
      let d := set_block None (set_ip 0 (drop_tnt (set_stats (st_bad (stats d)) d))) in
      r ← find_psb (trace d) (pos d + 1);
      match r with
      | Some next => Done (Next (set_pos next (set_stats (st_resync (stats d)) d)))
      | None => Done (Stop d)
      end
  end.

(** [run] keeps [text], [text_vaddr] and [out] and resets the rest;
    [fuel] bounds each walk. *)
Definition run (fuel : nat) (d : PtDecoder) : outcome PtDecoder :=
  loop (S (length (trace d))) (run_step fuel)
    (MkDec (text d) (text_vaddr d) (text_size d) (trace d) 0 0 0 0 None stats0 (MkLog (out (log d)) 0)).

(** * Loading the kernel text *)

Definition section_name_is (map : list Z) (pos : Z) (want : list Z) : outcome bool :=
  if zlen map <=? pos +₆₄ zlen want then Done false else
  s ← or_panic (slice map pos (pos +₆₄ zlen want));
  if bool_decide (s = want)
  then b ← idx map (pos +₆₄ zlen want); Done (b =? 0) else Done false.

(** Little-endian reads by unchecked indexing ([rd_u16] .. [rd_u64]). *)
Fixpoint rd_bytes (map : list Z) (n : nat) (o : Z) : outcome (list Z) :=
  match n with
  | O => Done []
  | S n' => b ← idx map o; l ← rd_bytes map n' (o +₆₄ 1); Done (b :: l)
  end.
Definition rd_le (map : list Z) (n : nat) (o : Z) : outcome Z := l ← rd_bytes map n o; Done (le_val l).

(** The section loop: [Stop] leaves it with the function's result. *)
Fixpoint text_section (map : list Z) (e_shoff e_shentsize shstr_off : Z) (n : nat) (i : Z)
    : outcome (option (list Z * Z * Z)) :=
  match n with
  | O => Done None
  | S n' =>
      let base := e_shoff +₆₄ (i *₆₄ e_shentsize) in
      if zlen map <? base +₆₄ 0x28 then Done None else
      sh_name ← rd_le map 4 base;
      is_text ← section_name_is map (shstr_off +₆₄ sh_name) (bs ".text");
      if is_text : bool then
        sh_addr ← rd_le map 8 (base +₆₄ 0x10);
        sh_offset ← rd_le map 8 (base +₆₄ 0x18);
        sh_size ← rd_le map 8 (base +₆₄ 0x20);
        if zlen map <? sh_offset +₆₄ sh_size then Done None else
        t ← or_panic (slice map sh_offset (sh_offset +₆₄ sh_size));
        Done (Some (t, sh_addr, sh_size))
      else text_section map e_shoff e_shentsize shstr_off n' (i + 1)
  end.

(** [load_vmlinux_text] on the bytes of the file. *)
Definition load_vmlinux_text (map : list Z) : outcome (option (list Z * Z * Z)) :=
  if zlen map <? 64 then Done None else
  e_shoff ← rd_le map 8 0x28;
  e_shentsize ← rd_le map 2 0x3a;
  e_shnum ← rd_le map 2 0x3c;
  e_shstrndx ← rd_le map 2 0x3e;
  if (e_shentsize =? 0) || (e_shoff =? 0) then Done None
  else if e_shnum <=? e_shstrndx then Done None
  else
    shstr_off ← rd_le map 8 ((e_shoff +₆₄ (e_shstrndx *₆₄ e_shentsize)) +₆₄ 0x18);
    text_section map e_shoff e_shentsize shstr_off (Z.to_nat e_shnum) 0.

(** [PtDecoder::init] on a loaded section. *)
Definition init (vmlinux trace : list Z) : outcome (option PtDecoder) :=
  r ← load_vmlinux_text vmlinux;
  Done (match r with
        | None => None
        | Some (text, text_vaddr, text_size) =>
            Some (MkDec text text_vaddr text_size trace 0 0 0 0 None stats0 log0)
        end).

(** * The instruction decoder is total *)

Lemma wp_skip_prefixes fuel p max_len len :
  bytes_ok p -> max_len <= zlen p -> 0 <= len <= 15 -> 15 < len + Z.of_nat fuel ->
  wp (skip_prefixes fuel p max_len len) (fun n => len <= n <= 15 /\ (len <= max_len -> n <= max_len)) False.
Proof.
  intros Hb Hm. revert len. induction fuel as [|fuel IH]; intros len Hl Hf; [lia|]. cbn [skip_prefixes].
  destruct ((len <? 15) && (len <? max_len)) eqn:E; [|simpl; lia].
  apply wp_bind, wp_idx; [done|lia|]. intros b _ _. destruct (_ || _); [|simpl; lia].
  eapply wp_mono; [apply IH; lia| |done]. simpl. lia.
Qed.

Definition is_i32 (x : Z) : Prop := - 2 ^ 31 <= x < 2 ^ 31.

Lemma as_i32_range x : is_i32 (as_i32 x).
Proof. unfold is_i32, as_i32. pose proof (as_signed_range 32 x). lia. Qed.
Lemma as_i8_range x : is_i32 (as_i8 x).
Proof. unfold is_i32, as_i8. pose proof (as_signed_range 8 x). lia. Qed.

Lemma wp_rel32 p len : bytes_ok p -> 0 <= len -> len + 4 <= zlen p -> wp (rel32 p len) is_i32 False.
Proof.
  intros Hb H0 Hl. unfold rel32.
  do 4 (apply wp_bind, wp_idx; [done|lia|]; intros ? _ _). apply as_i32_range.
Qed.

Lemma modrm_extra_range m : 0 <= modrm_extra m <= 5.
Proof. unfold modrm_extra. repeat case_match; lia. Qed.
Lemma imm_extra_range op : 0 <= imm_extra op <= 4.
Proof. unfold imm_extra. repeat case_match; lia. Qed.

(** What the walk relies on.  Only the approximated lengths may run past the
    window; a branch with a displacement never does. *)
Definition insn_ok (max_len : Z) (i : Insn) : Prop :=
  1 <= ilen i <= 26 /\ is_i32 (branch_rel i) /\
  (is_cond i = true -> is_branch i = true) /\
  (branch_rel i <> 0 -> is_branch i = true /\ 2 <= ilen i <= max_len).

Lemma wp_decode_insn code max_len :
  bytes_ok code -> 1 <= max_len <= zlen code -> wp (decode_insn code max_len) (insn_ok max_len) False.
Proof.
  intros Hb Hm. unfold decode_insn. replace (max_len <? 1) with false by lia.
  apply wp_bind. eapply wp_mono; [apply wp_skip_prefixes; [done|lia|lia|lia]| |done].
  intros n [Hn Hnm]. specialize (Hnm ltac:(lia)).
  assert (forall k b, 1 <= k <= 26 -> wp (Done (MkInsn k b false 0)) (insn_ok max_len) False) as Hplain.
  { intros k b Hk. unfold insn_ok, is_i32. cbn [wp ilen is_branch is_cond branch_rel]. split_and!; intros; split_and?; (done || lia). }
  destruct (Z.leb_spec max_len n); [destruct (Z.eqb_spec n 0); apply Hplain; lia|].
  apply wp_bind, wp_idx; [done|lia|]. intros op _ _. cbv zeta.
  assert (forall cond, wp (if n + 1 <? max_len then b ← idx code (n + 1); Done (MkInsn (n + 1 + 1) true cond (as_i8 b))
    else Done (MkInsn (n + 1) false false 0)) (insn_ok max_len) False) as H8.
  { intros cond. destruct (Z.ltb_spec (n + 1) max_len); [|apply Hplain; lia].
    apply wp_bind, wp_idx; [done|lia|]. intros b _ _. pose proof (as_i8_range b).
    unfold insn_ok. cbn. split_and!; intros; split_and?; try done; lia. }
  assert (forall cond l, 1 <= l <= 17 -> wp (if l + 4 <=? max_len then r ← rel32 code l; Done (MkInsn (l + 4) true cond r)
    else Done (MkInsn l false false 0)) (insn_ok max_len) False) as H32.
  { intros cond l Hl. destruct (Z.leb_spec (l + 4) max_len); [|apply Hplain; lia].
    apply wp_bind. eapply wp_mono; [apply wp_rel32; [done|lia|lia]| |done].
    intros r Hr. unfold insn_ok. cbn. split_and!; intros; split_and?; try done; lia. }
  destruct (_ && _); [apply H8|]. destruct (op =? 0xeb); [apply H8|].
  destruct (op =? 0xe8); [apply H32; lia|]. destruct (op =? 0xe9); [apply H32; lia|].
  destruct (_ || _); [apply Hplain; lia|].
  destruct (Z.ltb_spec (n + 1) max_len) as [Hlt|]; rewrite ?andb_false_r, ?andb_true_r; [|apply Hplain; lia].
  destruct (op =? 0x0f).
  { apply wp_bind, wp_idx; [done|lia|]. intros op2 _ _.
    destruct (_ && _); [apply H32; lia|]. destruct (_ || _); [apply Hplain; lia|].
    destruct (Z.ltb_spec (n + 1 + 1) max_len); [|apply Hplain; lia].
    apply wp_bind, wp_idx; [done|lia|]. intros m _ _. apply Hplain. pose proof (modrm_extra_range m). lia. }
  destruct (op =? 0xff).
  { apply wp_bind, wp_idx; [done|lia|]. intros m _ _. apply Hplain. pose proof (modrm_extra_range m). lia. }
  cbn [andb]. destruct (has_modrm op); [|apply Hplain; lia].
  apply wp_bind, wp_idx; [done|lia|]. intros m _ _. apply Hplain.
  pose proof (modrm_extra_range m). pose proof (imm_extra_range op). lia.
Qed.

(** Branches as they are encoded. *)
Inductive branch : Type :=
  | JccShort (cc rel : Z)
  | JmpShort (rel : Z)
  | CallNear (rel : Z)
  | JmpNear (rel : Z)
  | JccNear (cc rel : Z)
  | Ret.

Definition branch_ok (b : branch) : Prop :=
  match b with
  | JccShort cc rel => 0 <= cc < 16 /\ -128 <= rel < 128
  | JmpShort rel => -128 <= rel < 128
  | CallNear rel | JmpNear rel => is_i32 rel
  | JccNear cc rel => 0 <= cc < 16 /\ is_i32 rel
  | Ret => True
  end.

Definition branch_code (b : branch) : list Z :=
  match b with
  | JccShort cc rel => [0x70 + cc; rel mod 256]
  | JmpShort rel => [0xeb; rel mod 256]
  | CallNear rel => 0xe8 :: le_bytes 4 (rel mod 2 ^ 32)
  | JmpNear rel => 0xe9 :: le_bytes 4 (rel mod 2 ^ 32)
  | JccNear cc rel => 0x0f :: (0x80 + cc) :: le_bytes 4 (rel mod 2 ^ 32)
  | Ret => [0xc3]
  end.

Definition branch_insn (b : branch) : Insn :=
  match b with
  | JccShort _ rel => MkInsn 2 true true rel
  | JmpShort rel => MkInsn 2 true false rel
  | CallNear rel | JmpNear rel => MkInsn 5 true false rel
  | JccNear _ rel => MkInsn 6 true true rel
  | Ret => MkInsn 1 true false 0
  end.

Lemma as_signed_mod w x : 0 < w -> - 2 ^ (w - 1) <= x < 2 ^ (w - 1) -> as_signed w (x mod 2 ^ w) = x.
Proof.
  intros Hw Hx. unfold as_signed. rewrite Zplus_mod_idemp_l.
  assert (2 ^ w = 2 * 2 ^ (w - 1)) as Hp by (rewrite <- Z.pow_succ_r by lia; f_equal; lia).
  rewrite Z.mod_small by lia. lia.
Qed.

Lemma rel32_at pre a b c d rest :
  rel32 (pre ++ a :: b :: c :: d :: rest) (zlen pre) = Done (as_i32 (le_val [a; b; c; d])).
Proof.
  unfold rel32. rewrite <- (Z.add_0_r (zlen pre)) at 1. rewrite !idx_shift by done.
  rewrite idx_0, (idx_1 a b _ : idx _ 1 = _), (idx_2 a b c _ : idx _ 2 = _).
  by rewrite (idx_middle [a; b; c] d rest 3 eq_refl : idx (a :: b :: c :: d :: rest) 3 = _).
Qed.

Lemma rel32_enc pre rel rest : is_i32 rel ->
  rel32 (pre ++ le_bytes 4 (rel mod 2 ^ 32) ++ rest) (zlen pre) = Done rel.
Proof.
  intros Hr.
  pose proof (le_val_le_bytes 4 (rel mod 2 ^ 32) ltac:(apply Z.mod_pos_bound; lia)) as Hv.
  cbn [le_bytes] in Hv |- *. cbn [app]. rewrite rel32_at, Hv. f_equal.
  change (8 * Z.of_nat 4) with 32. rewrite Z.mod_mod by done. by apply (as_signed_mod 32 rel).
Qed.

Lemma prefix_none b l m : is_prefix b = false -> Z.land b 0xf0 <> 0x40 ->
  skip_prefixes 16 (b :: l) m 0 = Done 0.
Proof.
  intros H1 H2. cbn [skip_prefixes]. destruct (_ && _); [|done]. rewrite idx_0. cbn [mbind outcome_bind].
  rewrite H1. by destruct (Z.eqb_spec (Z.land b 0xf0) 0x40).
Qed.

Lemma decode_rel8 b rel l cond m : 2 <= m ->
  -128 <= rel < 128 -> skip_prefixes 16 (b :: rel mod 256 :: l) m 0 = Done 0 ->
  ((0x70 <=? b) && (b <=? 0x7f) = cond /\ (cond = true \/ b = 0xeb)) ->
  decode_insn (b :: rel mod 256 :: l) m = Done (MkInsn 2 true cond rel).
Proof.
  intros Hm Hr Hp [Hc Hb]. unfold decode_insn. replace (m <? 1) with false by lia. rewrite Hp.
  cbn [mbind outcome_bind]. replace (m <=? 0) with false by lia. rewrite idx_0. cbn [mbind outcome_bind].
  rewrite Hc, idx_1. replace (0 + 1 <? m) with true by lia. cbn [mbind outcome_bind].
  unfold as_i8. rewrite (as_signed_mod 8 rel ltac:(lia) ltac:(simpl; lia) : as_signed 8 (rel mod 256) = rel).
  destruct Hb as [->| ->]; [done|]. by destruct cond.
Qed.

Lemma decode_rel32 b rel l m : 5 <= m -> is_i32 rel -> b = 0xe8 \/ b = 0xe9 ->
  decode_insn (b :: le_bytes 4 (rel mod 2 ^ 32) ++ l) m = Done (MkInsn 5 true false rel).
Proof.
  intros Hm Hr Hb. unfold decode_insn. replace (m <? 1) with false by lia.
  rewrite prefix_none by (by destruct Hb as [->| ->]). cbn [mbind outcome_bind].
  replace (m <=? 0) with false by lia. rewrite idx_0. cbn [mbind outcome_bind].
  replace (0 + 1 + 4 <=? m) with true by lia.
  rewrite (rel32_enc [b] rel l Hr : rel32 (b :: _ ++ l) (0 + 1) = _). cbn [mbind outcome_bind].
  by destruct Hb as [->| ->].
Qed.

Lemma decode_jcc32 cc rel l m : 6 <= m -> is_i32 rel -> 0 <= cc < 16 ->
  decode_insn (0x0f :: (0x80 + cc) :: le_bytes 4 (rel mod 2 ^ 32) ++ l) m = Done (MkInsn 6 true true rel).
Proof.
  intros Hm Hr Hcc. unfold decode_insn. replace (m <? 1) with false by lia.
  rewrite prefix_none by done. cbn [mbind outcome_bind].
  replace (m <=? 0) with false by lia. rewrite idx_0. cbn [mbind outcome_bind].
  change (0x0f =? 0x0f) with true. replace (0 + 1 <? m) with true by lia. rewrite idx_1.
  cbn [mbind outcome_bind]. replace (0x80 <=? 0x80 + cc) with true by lia.
  replace (0x80 + cc <=? 0x8f) with true by lia. replace (0 + 1 + 1 + 4 <=? m) with true by lia.
  rewrite (rel32_enc [0x0f; 0x80 + cc] rel l Hr : rel32 (0x0f :: 0x80 + cc :: _ ++ l) (0 + 1 + 1) = _).
  done.
Qed.

(** Branch decoding.  Every direct conditional or unconditional
    branch and every near return, placed at the start of a window long enough
    to hold it, is decoded with its true length, its condition flag and its
    signed displacement, whatever bytes follow. *)
Theorem decode_branch b rest max_len :
  branch_ok b -> zlen (branch_code b) <= max_len ->
  decode_insn (branch_code b ++ rest) max_len = Done (branch_insn b).
Proof.
  assert (forall n v, zlen (le_bytes n v) = Z.of_nat n) as Hle by (intros; unfold zlen; by rewrite length_le_bytes).
  intros Hb Hm. destruct b as [cc rel|rel|rel|rel|cc rel|]; cbn [branch_code branch_insn app branch_ok] in *;
    rewrite ?zlen_cons, ?Hle in Hm; change (zlen []) with 0 in Hm.
  - destruct Hb as [Hcc Hr]. apply decode_rel8; [lia|done| |].
    + apply prefix_none; byte_facts 16%nat (fun cc => negb (is_prefix (0x70 + cc)) && negb (Z.land (0x70 + cc) 0xf0 =? 0x40)) cc;
        [naive_solver|lia].
    + split; [lia|by left].
  - apply decode_rel8; [lia|done|by apply prefix_none|]. split; [done|by right].
  - apply decode_rel32; auto; lia.
  - apply decode_rel32; auto; lia.
  - destruct Hb. by apply decode_jcc32; [lia| |].
  - unfold decode_insn. replace (max_len <? 1) with false by lia. rewrite prefix_none by done.
    cbn [mbind outcome_bind]. replace (max_len <=? 0) with false by lia. by rewrite idx_0.
Qed.

Lemma decode_branch_witness :
  branch_ok (JccNear 5 (-64)) /\
  decode_insn ([0x0f; 0x85; 0xc0; 0xff; 0xff; 0xff] ++ [0x90]) 7 = Done (MkInsn 6 true true (-64)).
Proof.
  assert (branch_ok (JccNear 5 (-64))) as H by (split; unfold is_i32; lia).
  split; [exact H|]. apply (decode_branch (JccNear 5 (-64)) [0x90] 7 H). unfold zlen. simpl. lia.
Defined.

(** * TNT packets *)

(** The payload of a TNT packet with outcomes [bits], oldest first: a stop bit
    above them. *)
Definition tnt_payload (bits : list bool) : Z :=
  foldl (fun v (b : bool) => 2 * v + Z.b2z b) 1 bits.

Definition tnt_value (bits : list bool) : Z :=
  foldl (fun v (b : bool) => 2 * v + Z.b2z b) 0 bits.

Lemma tnt_value_snoc bits b : tnt_value (bits ++ [b]) = 2 * tnt_value bits + Z.b2z b.
Proof. unfold tnt_value. by rewrite foldl_app. Qed.

Lemma tnt_value_range bits : 0 <= tnt_value bits < 2 ^ zlen bits.
Proof.
  induction bits as [|b bits IH] using rev_ind; [done|].
  rewrite tnt_value_snoc, zlen_app. change (zlen [b]) with 1.
  rewrite Z.pow_add_r by (pose proof (zlen_nonneg bits); lia). destruct b; simpl Z.b2z; lia.
Qed.

Lemma tnt_payload_value bits : tnt_payload bits = tnt_value bits + 2 ^ zlen bits.
Proof.
  induction bits as [|b bits IH] using rev_ind; [done|].
  rewrite tnt_value_snoc, zlen_app. change (zlen [b]) with 1.
  rewrite Z.pow_add_r by (pose proof (zlen_nonneg bits); lia).
  unfold tnt_payload in *. rewrite foldl_app. cbn [foldl]. rewrite IH. lia.
Qed.

Lemma tnt_value_bit bits i b : bits !! i = Some b ->
  Z.testbit (tnt_value bits) (zlen bits - 1 - Z.of_nat i) = b.
Proof.
  revert i. induction bits as [|c bits IH] using rev_ind; intros i Hi; [done|].
  rewrite tnt_value_snoc, zlen_app. change (zlen [c]) with 1.
  apply lookup_app_Some in Hi as [Hi|[Hge Hi]].
  - pose proof (lookup_lt_Some _ _ _ Hi). unfold zlen in *.
    replace (_ - 1 - Z.of_nat i) with (Z.succ (Z.of_nat (length bits) - 1 - Z.of_nat i)) by lia.
    rewrite Z.testbit_succ_r by lia. by apply IH.
  - apply list_lookup_singleton_Some in Hi as [Hi ->].
    replace (zlen bits + 1 - 1 - Z.of_nat i) with 0 by (unfold zlen; lia). apply Z.testbit_0_r.
Qed.

Lemma log2_payload bits : Z.log2 (tnt_payload bits) = zlen bits.
Proof.
  rewrite tnt_payload_value. pose proof (tnt_value_range bits). pose proof (zlen_nonneg bits).
  apply Z.log2_unique; [lia|]. rewrite Z.pow_succ_r by lia. lia.
Qed.

Lemma load_tnt_window fuel bits d :
  load_tnt fuel (tnt_payload bits) d =
    let d0 := set_tnt (tnt_value bits) (zlen bits) d in
    if negb (bool_decide (text d = [])) && negb (ip d =? 0) && (0 <? zlen bits)
    then walk_tnt fuel d0 else Done d0.
Proof.
  unfold load_tnt. pose proof (tnt_payload_value bits) as Hp.
  pose proof (tnt_value_range bits). pose proof (zlen_nonneg bits).
  destruct (Z.eqb_spec (tnt_payload bits) 0); [lia|]. rewrite log2_payload.
  assert (Z.land (tnt_payload bits) (Z.shiftl 1 (zlen bits) - 1) = tnt_value bits) as ->; [|done].
  replace (Z.shiftl 1 (zlen bits) - 1) with (Z.ones (zlen bits)) by (unfold Z.ones; lia).
  rewrite Z.land_ones, Hp by lia. replace (tnt_value bits + _) with (tnt_value bits + 1 * 2 ^ zlen bits) by lia.
  rewrite Z_mod_plus_full. apply Z.mod_small. lia.
Qed.

Lemma kaslr_fix_frame d :
  text (kaslr_fix d) = text d /\ text_size (kaslr_fix d) = text_size d /\ trace (kaslr_fix d) = trace d /\
  pos (kaslr_fix d) = pos d /\ block (kaslr_fix d) = block d /\
  ip (kaslr_fix d) = ip d /\ log (kaslr_fix d) = log d /\ tnt_bits (kaslr_fix d) = tnt_bits d /\
  tnt_count (kaslr_fix d) = tnt_count d.
Proof. unfold kaslr_fix. cbv zeta. repeat case_match; by split_and!. Qed.

Lemma kaslr_fix_set_tnt b c d : text_vaddr (kaslr_fix (set_tnt b c d)) = text_vaddr (kaslr_fix d).
Proof. unfold kaslr_fix. cbn [text ip text_vaddr text_size set_tnt]. cbv zeta. by repeat case_match. Qed.

(** ** The walk against a list of outcomes *)

(** The walk with the pending outcomes as a list, oldest first. *)
Record AWalk : Type := MkAWalk { a_ip : Z; a_bits : list bool; a_log : Log }.

Definition abs_emit (a : AWalk) : AWalk := MkAWalk (a_ip a) (a_bits a) (emit_ip (a_ip a) (a_log a)).

(** The instruction at [ip], when it is in the text. *)
Definition fetch (text : list Z) (vaddr size ip : Z) : outcome (option Insn) :=
  if (vaddr <=? ip) && (ip <? vaddr +₆₄ size) then
    let off := ip - vaddr in
    if size - off <? 1 then Done None else
    let maxl := Z.min 15 (size - off) in
    code ← or_panic (slice text off (off + maxl)); i ← decode_insn code maxl; Done (Some i)
  else Done None.

Definition abs_step (text : list Z) (vaddr size : Z) (a : AWalk) : outcome (ctl AWalk AWalk) :=
  match a_bits a with
  | [] => Done (Stop a)
  | taken :: bits =>
      r ← fetch text vaddr size (a_ip a);
      match r with
      | None => Done (Stop a)
      | Some i =>
          let next := a_ip a +₆₄ ilen i in
          if ilen i =? 0 then Done (Stop a)
          else if is_branch i then
            if is_cond i then
              Done (Next (abs_emit (MkAWalk (if taken : bool then next +₆₄ branch_rel i else next) bits (a_log a))))
            else if negb (branch_rel i =? 0) && (1 <? ilen i)
            then Done (Next (abs_emit (MkAWalk (next +₆₄ branch_rel i) (a_bits a) (a_log a))))
            else Done (Stop a)
          else Done (Next (MkAWalk next (a_bits a) (a_log a)))
      end
  end.

(** [d]'s TNT window holds [bits]. *)
Definition window (d : PtDecoder) (bits : list bool) : Prop :=
  tnt_count d = zlen bits /\
  forall i b, bits !! i = Some b -> Z.testbit (tnt_bits d) (zlen bits - 1 - Z.of_nat i) = b.

Definition walk_rel (text0 : list Z) (vaddr size : Z) (a : AWalk) (d : PtDecoder) : Prop :=
  text d = text0 /\ text_vaddr d = vaddr /\ text_size d = size /\
  a_ip a = ip d /\ a_log a = log d /\ window d (a_bits a).

Lemma window_tail d b bits : window d (b :: bits) ->
  Z.land (Z.shiftr (tnt_bits d) (tnt_count d - 1)) 1 = Z.b2z b /\
  window (set_tnt (tnt_bits d) (tnt_count d - 1) d) bits.
Proof.
  intros [Hc Hw]. pose proof (zlen_nonneg bits). rewrite zlen_cons in *. split.
  - change 1 with (Z.ones 1) at 2. rewrite Z.land_ones by done. change (2 ^ 1) with 2.
    rewrite <- Z.bit0_mod, Z.shiftr_spec by done. f_equal. rewrite <- (Hw 0%nat b eq_refl). f_equal. lia.
  - split; cbn [tnt_count tnt_bits set_tnt]; [lia|]. intros i c Hi.
    rewrite <- (Hw (S i) c Hi). f_equal. lia.
Qed.

Lemma walk_step_abs text0 vaddr size a d :
  walk_rel text0 vaddr size a d ->
  ctl_rel (walk_rel text0 vaddr size) (walk_rel text0 vaddr size) (abs_step text0 vaddr size a) (walk_step d).
Proof.
  intros HR. pose proof HR as (<- & <- & <- & Hip & Hl & Hw). destruct a as [i0 bits l0].
  cbn [a_ip a_bits a_log] in *. subst. unfold abs_step, walk_step. cbn [a_bits a_ip a_log].
  pose proof Hw as [Hc _]. destruct bits as [|b bits].
  { rewrite Hc. exact HR. }
  rewrite Hc, zlen_cons. pose proof (zlen_nonneg bits). replace (0 <? 1 + zlen bits) with true by lia.
  cbn [andb]. unfold fetch.
  destruct ((text_vaddr d <=? ip d) && (ip d <? text_vaddr d +₆₄ text_size d)); [|exact HR].
  destruct (Z.ltb_spec (text_size d) (ip d - text_vaddr d)).
  { replace (_ <? 1) with true by lia. exact HR. }
  destruct (Z.ltb_spec (text_size d - (ip d - text_vaddr d)) 1); [exact HR|].
  replace (if 15 <? _ then _ else _) with (Z.min 15 (text_size d - (ip d - text_vaddr d))) by (destruct (Z.ltb_spec 15 (text_size d - (ip d - text_vaddr d))); lia).
  destruct (slice _ _ _) as [code|]; [|exact I]. cbn [or_panic mbind outcome_bind].
  destruct (decode_insn _ _) as [i| | |]; try exact I. cbn [mbind outcome_bind].
  destruct (ilen i =? 0); [exact HR|]. destruct (window_tail d b bits Hw) as [Ht Hw'].
  rewrite Hc, zlen_cons in Ht, Hw'.
  destruct (is_branch i), (is_cond i); cbn [andb negb]; try (split_and!; done).
  - rewrite Ht. destruct b; (split_and!; [done|done|done|done|done|exact Hw']).
  - destruct (negb (branch_rel i =? 0) && (1 <? ilen i)); [|exact HR]. split_and!; (done || exact Hw).
Qed.

(** C4: TNT outcomes are followed in order.  Feeding the decoder the
    payload that encodes [bits] (oldest next to the stop bit) walks the kernel
    text exactly as the walk that takes its branch outcomes from the head of
    the list: the same addresses are logged, the final IP is the same, and the
    window left in the decoder holds exactly the outcomes not consumed. *)
Theorem walk_follows_outcomes bits d fuel r :
  text d <> [] -> ip d <> 0 -> bits <> [] ->
  loop fuel (abs_step (text d) (text_vaddr (kaslr_fix d)) (text_size d)) (MkAWalk (ip d) bits (log d)) = Done r ->
  exists d', load_tnt fuel (tnt_payload bits) d = Done d' /\
    ip d' = a_ip r /\ log d' = a_log r /\ window d' (a_bits r).
Proof.
  intros Ht Hip Hb Hr. rewrite load_tnt_window. cbv zeta. rewrite bool_decide_false by done.
  replace (ip d =? 0) with false by lia.
  replace (0 <? zlen bits) with true by (destruct bits; [done|]; rewrite zlen_cons; pose proof (zlen_nonneg bits); lia).
  cbn [negb andb]. unfold walk_tnt. set (d0 := set_tnt (tnt_value bits) (zlen bits) d).
  destruct (kaslr_fix_frame d0) as (H1 & H2 & _ & _ & _ & H3 & H4 & H5 & H6).
  assert (walk_rel (text d) (text_vaddr (kaslr_fix d)) (text_size d) (MkAWalk (ip d) bits (log d)) (kaslr_fix d0)) as HR.
  { unfold walk_rel, window. rewrite H1, H2, H3, H4, H5, H6. unfold d0. rewrite kaslr_fix_set_tnt.
    split_and!; try done. intros i b Hi. by apply tnt_value_bit. }
  destruct (loop_sim _ _ _ walk_step _ _ _ _ (walk_step_abs _ _ _) HR Hr) as (d2 & -> & (_ & _ & _ & Hi & Hl & Hw2)).
  exists d2. split_and!; done.
Qed.

(** [jz +1; nop; jnz -4; ret] with outcomes taken, taken, not taken, taken. *)
Definition demo_dec : PtDecoder :=
  MkDec [0x74; 0x01; 0x90; 0x75; 0xfb; 0xc3] 0xffffffff81000000 6 [] 0 0xffffffff81000000 0 0 None stats0 log0.

Lemma walk_follows_outcomes_witness :
  text demo_dec <> [] /\ ip demo_dec <> 0 /\
  exists d', load_tnt 20 (tnt_payload [true; true; false; true; true]) demo_dec = Done d' /\
    ip d' = 0xffffffff81000003 /\
    log d' = MkLog (concat (fmt_pc_line <$> [0xffffffff81000003; 0xffffffff81000000; 0xffffffff81000002;
                                             0xffffffff81000000; 0xffffffff81000003])) 5 /\
    window d' [].
Proof.
  split_and!; [done|done|].
  exact (walk_follows_outcomes [true; true; false; true; true] demo_dec 20
    (MkAWalk 0xffffffff81000003 [] (MkLog (concat (fmt_pc_line <$> [0xffffffff81000003; 0xffffffff81000000; 0xffffffff81000002;
                                             0xffffffff81000000; 0xffffffff81000003])) 5))
    ltac:(done) ltac:(done) ltac:(done) ltac:(vm_compute; reflexivity)).
Defined.

(** * With no text, the two decoders agree *)

Definition tip_rel (data : list Z) (s : TipOnly.state) (d : PtDecoder) : Prop :=
  tip_inv data s /\ text d = [] /\ trace d = data /\ pos d = TipOnly.pos s /\ ip d = TipOnly.last_ip s /\
  block d = TipOnly.block s /\ log d = TipOnly.log s.

Lemma load_tnt_empty fuel payload d : text d = [] ->
  exists b c st, load_tnt fuel payload d = Done (set_tnt b c (set_stats st d)).
Proof.
  intros Ht. unfold load_tnt. destruct (payload =? 0); [by eexists _, _, _|].
  cbn [text set_tnt]. rewrite Ht. cbn [bool_decide negb andb].
  rewrite bool_decide_true by done. cbn [negb andb]. exists (Z.land payload (Z.shiftl 1 (Z.log2 payload) - 1)), (Z.log2 payload), (stats d).
  by destruct d.
Qed.

Lemma pt_read_ip_eq enc n d :
  ip_payload_len enc = Some n -> enc <> 0 -> pos d + n <= zlen (trace d) ->
  pt_read_ip enc d =
    (val ← le_accum (trace d) (pos d) (Z.to_nat n) 0 0;
     Done (Some (set_ip (update_ip enc (ip d) val) (set_pos (pos d + n) d)))).
Proof.
  intros Hn H0 Hp. unfold pt_read_ip, ip_payload_len in *.
  destruct (enc =? 0) eqn:E0; [lia|].
  destruct (enc =? 1), (enc =? 2), ((enc =? 3) || (enc =? 4)), (enc =? 6); simplify_eq;
    (replace (zlen (trace d) <? _) with false by lia); reflexivity.
Qed.

Lemma tip_sim fuel data s d : bytes_ok data -> tip_rel data s d ->
  ctl_rel (tip_rel data) (fun s d => log d = TipOnly.log s) (TipOnly.step data s) (run_step fuel d).
Proof.
  intros Hb (Hinv & Ht & Htr & Hp & Hip & Hbl & Hl).
  pose proof (wp_tip_step data s Hb Hinv) as Hstep. revert Hstep. unfold TipOnly.step, run_step.
  rewrite Htr, Hp, Hbl. destruct (Z.leb_spec (zlen data) (TipOnly.pos s)); [done|].
  destruct Hinv as (Hpos & Hbo & Hu).
  pose proof (wp_scan_packet data (TipOnly.pos s) (TipOnly.block s) Hb (proj1 Hpos) Hbo) as Hs.
  destruct (scan_packet _ _ _) as [[p n]| | |]; try done. cbn [mbind outcome_bind pkt len wp] in *.
  destruct Hs as [Hn Hpl]. cbn [pkt len] in *.
  assert (forall q d0, text d0 = [] -> exists b c st, load_tnt fuel q d0 = Done (set_tnt b c (set_stats st d0))) as Htnt
    by (intros; by apply load_tnt_empty).
  destruct p as [|q|q|op enc| | |wide| | | |]; try (intros Hstep; unfold tip_rel in *; naive_solver).
  - intros Hstep. destruct (Htnt q (set_pos (TipOnly.pos s + n) d) Ht) as (b & c & st & ->). unfold tip_rel. naive_solver.
  - intros Hstep. destruct (Htnt q (set_pos (TipOnly.pos s + n) d) Ht) as (b & c & st & ->). unfold tip_rel. naive_solver.
  - rewrite Hpl. change (default 0 (Some (n - 1))) with (n - 1).
    destruct (Z.eqb_spec enc 0) as [->|Hne].
    { assert (n = 1) as -> by (cbn in Hpl; injection Hpl; lia). cbn. intros [Hs _]. by split_and!. }
    assert (0 < n - 1) by (unfold ip_payload_len in Hpl; repeat case_match; simplify_eq; lia).
    replace (0 <? n - 1) with true by lia.
    rewrite (pt_read_ip_eq enc (n - 1)) by (cbn [pos trace set_pos]; rewrite ?Htr; done || lia).
    cbn [pos trace set_pos ip]. rewrite Htr, Hip.
    destruct (le_accum _ _ _ _ _) as [v| | |]; try done. cbn [mbind outcome_bind wp].
    cbn [text emit set_ip set_pos set_log]. rewrite Ht, bool_decide_true by done. cbn [negb andb].
    intros [Hs _]. unfold tip_rel. cbn. split_and!; try done; [lia|by rewrite Hl].
  - cbn [trace pos set_block set_ip drop_tnt set_stats set_tnt]. rewrite Htr, Hp.
    destruct (find_psb _ _) as [[j|]| | |]; cbn; try done. intros [Hs _]. by split_and!.
Qed.

(** C2: the two decoders agree.  With no kernel text loaded, on every
    byte string, well-formed or not, the full decoder terminates and logs the
    same lines and the same count as the TIP-only fallback. *)
Theorem run_without_text_is_tip_only data vaddr size fuel :
  bytes_ok data ->
  exists s d, TipOnly.tip_only_decode data = Done s /\
    run fuel (MkDec [] vaddr size data 0 0 0 0 None stats0 log0) = Done d /\
    log d = TipOnly.log s.
Proof.
  intros Hb. pose proof (tip_only_ok data Hb) as H.
  destruct (TipOnly.tip_only_decode data) as [s| | |] eqn:E; try done. unfold TipOnly.tip_only_decode in E.
  assert (tip_rel data TipOnly.init (MkDec [] vaddr size data 0 0 0 0 None stats0 log0)) as HR.
  { split_and!; try done. pose proof (zlen_nonneg data). split_and!; simpl; unfold is_u64; lia. }
  destruct (loop_sim _ _ _ (run_step fuel) _ _ _ _ (fun s d => tip_sim fuel data s d Hb) HR E) as (d & Hd & Hl).
  by exists s, d.
Qed.

Lemma run_without_text_is_tip_only_witness :
  bytes_ok [0x0d; 0x05; 0x02; 0xff] /\
  exists s d, TipOnly.tip_only_decode [0x0d; 0x05; 0x02; 0xff] = Done s /\
    run 0 (MkDec [] 0 0 [0x0d; 0x05; 0x02; 0xff] 0 0 0 0 None stats0 log0) = Done d /\
    log d = TipOnly.log s.
Proof.
  assert (bytes_ok [0x0d; 0x05; 0x02; 0xff]) as H by (repeat constructor; unfold is_u8; lia).
  split; [exact H|]. exact (run_without_text_is_tip_only _ 0 0 0 H).
Defined.

(** * Termination of the walk *)

(** The decoder's text is the section it was loaded from. *)
Definition text_ok (d : PtDecoder) : Prop :=
  bytes_ok (text d) /\ text_size d = zlen (text d) /\ zlen (text d) < 2 ^ 63 /\ 2 ^ 32 <= text_vaddr d < 2 ^ 64.

(** Every direct jump or call of the text goes forward. *)
Definition forward_text (text : list Z) : Prop :=
  forall off code i, slice text off (off + Z.min 15 (zlen text - off)) = Some code ->
    decode_insn code (Z.min 15 (zlen text - off)) = Done i ->
    is_branch i = true -> is_cond i = false -> 0 <= branch_rel i.

Definition in_text (d : PtDecoder) : bool :=
  (text_vaddr d <=? ip d) && (ip d <? text_vaddr d +₆₄ text_size d).

Definition walk_mu (d : PtDecoder) : Z :=
  tnt_count d * (text_size d + 2) + (if in_text d then text_vaddr d + text_size d - ip d else 0).

Definition walk_inv (d0 d : PtDecoder) : Prop :=
  text d = text d0 /\ text_size d = text_size d0 /\ trace d = trace d0 /\ pos d = pos d0 /\ block d = block d0 /\
  text_ok d /\ forward_text (text d) /\ 0 <= tnt_count d <= 64 /\ is_u64 (ip d).

Lemma in_text_bounds d : text_ok d -> in_text d = true ->
  0 <= ip d - text_vaddr d < text_size d /\ text_vaddr d + text_size d < 2 ^ 64.
Proof.
  intros (_ & Hs & Hl & Hv). unfold in_text. intros [H1 H2]%andb_prop. pose proof (zlen_nonneg (text d)).
  unfold as_u64 in H2. destruct (decide (text_vaddr d + text_size d < 2 ^ 64)).
  - rewrite Z.mod_small in H2 by lia. lia.
  - rewrite <- (Z_mod_plus_full _ (-1)), Z.mod_small in H2 by lia. lia.
Qed.

Lemma walk_mu_bounds d : text_ok d -> 0 <= tnt_count d <= 64 -> 0 <= walk_mu d <= 65 * (text_size d + 2).
Proof.
  intros Ht Hc. unfold walk_mu. pose proof Ht as (_ & Hs & _). pose proof (zlen_nonneg (text d)).
  destruct (in_text d) eqn:E; [|nia]. pose proof (in_text_bounds d Ht E). nia.
Qed.

(** A move to any address uses up a TNT bit; a move forward gets closer to the
    end of the text or leaves it. *)
Lemma walk_mu_bit d d' : text_ok d -> text_ok d' -> text_size d' = text_size d ->
  0 < tnt_count d <= 64 -> tnt_count d' = tnt_count d - 1 -> 0 <= walk_mu d' < walk_mu d.
Proof.
  intros H1 H2 Hs Hc Hc'. pose proof (walk_mu_bounds d' H2 ltac:(lia)). split; [lia|].
  unfold walk_mu. rewrite Hc', Hs. pose proof H1 as (_ & Hsz & _). pose proof (zlen_nonneg (text d)).
  assert ((if in_text d' then text_vaddr d' + text_size d - ip d' else 0) <= text_size d).
  { destruct (in_text d') eqn:E; [pose proof (in_text_bounds d' H2 E); lia|lia]. }
  destruct (in_text d) eqn:E; [pose proof (in_text_bounds d H1 E)|]; nia.
Qed.

Lemma walk_mu_forward d x : text_ok d -> 0 < tnt_count d <= 64 -> in_text d = true -> is_u64 (ip d) ->
  1 <= x < 2 ^ 32 -> 0 <= walk_mu (set_ip (ip d +₆₄ x) d) < walk_mu d.
Proof.
  intros Ht Hc Hin Hip Hx. pose proof (in_text_bounds d Ht Hin) as [Hb Hw].
  assert (text_ok (set_ip (ip d +₆₄ x) d)) as Ht' by exact Ht.
  pose proof (walk_mu_bounds _ Ht' ltac:(cbn; lia)). split; [lia|].
  unfold walk_mu. cbn [tnt_count text_size text_vaddr ip set_ip]. rewrite Hin.
  destruct (in_text (set_ip _ d)) eqn:E; [|lia]. pose proof (in_text_bounds _ Ht' E) as [Hb' _].
  cbn [ip text_vaddr text_size set_ip] in Hb'. destruct Ht as (_ & _ & _ & Hv). unfold as_u64, is_u64 in *.
  destruct (decide (ip d + x < 2 ^ 64)).
  - rewrite Z.mod_small in * by lia. lia.
  - rewrite <- (Z_mod_plus_full _ (-1)), Z.mod_small in Hb' by lia. lia.
Qed.

Lemma as_u64_add a b c : (a +₆₄ b) +₆₄ c = a +₆₄ (b + c).
Proof. unfold as_u64. rewrite Zplus_mod_idemp_l. f_equal. lia. Qed.

Lemma wp_walk_step d0 d : walk_inv d0 d ->
  wp (walk_step d) (fun c => match c with
    | Next d' => walk_inv d0 d' /\ 0 <= walk_mu d' < walk_mu d
    | Stop d' => walk_inv d0 d'
    end) False.
Proof.
  intros HI. pose proof HI as (E1 & E2 & E3 & E4 & E5 & Ht & Hf & Hc & Hip). unfold walk_step.
  change ((0 <? tnt_count d) && (text_vaddr d <=? ip d) && _) with
    ((0 <? tnt_count d) && (text_vaddr d <=? ip d) && (ip d <? text_vaddr d +₆₄ text_size d)).
  rewrite <- andb_assoc. change ((text_vaddr d <=? ip d) && _) with (in_text d).
  destruct (0 <? tnt_count d) eqn:Ec; [|exact HI]. destruct (in_text d) eqn:Ein; [|exact HI]. cbn [andb].
  pose proof (in_text_bounds d Ht Ein) as [Hb Hw]. pose proof Ht as (Hbytes & Hsz & Hl & Hv).
  replace (text_size d <? ip d - text_vaddr d) with false by lia.
  replace (text_size d - (ip d - text_vaddr d) <? 1) with false by lia.
  replace (if 15 <? _ then _ else _) with (Z.min 15 (text_size d - (ip d - text_vaddr d)))
    by (destruct (Z.ltb_spec 15 (text_size d - (ip d - text_vaddr d))); lia).
  set (off := ip d - text_vaddr d) in *. set (maxl := Z.min 15 (text_size d - off)).
  destruct (slice (text d) off (off + maxl)) as [code|] eqn:Es.
  2: { exfalso. unfold slice in Es. destruct (_ && _) eqn:E; [done|]. lia. }
  cbn [or_panic mbind outcome_bind]. pose proof (slice_length _ _ _ _ Es).
  apply wp_bind.
  assert (wp (decode_insn code maxl) (insn_ok maxl) False) as Hd.
  { apply wp_decode_insn; [by eapply slice_bytes_ok|lia]. }
  destruct (decode_insn code maxl) as [i| | |] eqn:Ed; try done. cbn [wp] in *.
  destruct Hd as (Hil & Hrel & _ & Hbr). replace (ilen i =? 0) with false by lia.
  assert (forall x, walk_inv d0 (set_ip (as_u64 x) d)) as Hset.
  { intros x. unfold walk_inv. cbn [text text_size trace pos block tnt_count ip set_ip].
    split_and!; try done; try lia; apply as_u64_range. }
  destruct (is_branch i) eqn:Eb; cbn [andb].
  2: { split; [apply Hset|]. apply walk_mu_forward; try done; lia. }
  destruct (is_cond i) eqn:Eco; cbn [negb].
  - destruct (negb _); cbn [wp];
      (split; [unfold walk_inv; cbn [text text_size trace pos block tnt_count ip set_ip set_tnt emit set_log];
               split_and!; try done; try lia; apply as_u64_range
             |apply walk_mu_bit; (done || cbn; lia)]).
  - destruct (negb _ && _) eqn:Er; [|exact HI]. cbn [wp].
    assert (0 <= branch_rel i) as Hfw.
    { eapply (Hf off code i); try done; rewrite <- Hsz; done. }
    unfold is_i32 in Hrel.
    split; [exact (Hset ((ip d +₆₄ ilen i) + branch_rel i))|]. rewrite as_u64_add. apply (walk_mu_forward d (ilen i + branch_rel i)); try done; lia.
Qed.

Lemma kaslr_fix_ok d : text_ok d -> is_u64 (ip d) -> text_ok (kaslr_fix d).
Proof.
  intros Ht Hip. unfold kaslr_fix. destruct (kernel_pc (ip d) && _ && _) eqn:Ek; [|done].
  destruct (_ || _); [|done]. cbv zeta. destruct (_ && (_ <? 0x80000000)) eqn:E; [|done].
  destruct Ht as (?&?&?&Hv). split_and!; try done; cbn [text_vaddr set_vaddr]; [|apply as_u64_range].
  unfold kernel_pc in Ek. assert (0xffff000000000000 <= ip d) as Hk by lia.
  pose proof (as_u64_range (ip d - text_vaddr d)) as Hx. unfold is_u64 in *.
  remember (ip d -₆₄ text_vaddr d) as x eqn:Ex.
  pose proof (Z.div_mod x (2 ^ 21) ltac:(done)). pose proof (Z.mod_pos_bound x (2 ^ 21) ltac:(done)).
  assert (Z.shiftr x 21 <<₆₄ 21 = x / 2 ^ 21 * 2 ^ 21) as Ho.
  { rewrite Z.shiftr_div_pow2, Z.shiftl_mul_pow2 by done. apply as_u64_small. unfold is_u64. lia. }
  rewrite Ho in *. assert (x < 0x80000000 + 2 ^ 21) by lia.
  assert (text_vaddr d <= ip d) as Hle.
  { destruct (Z.le_gt_cases (text_vaddr d) (ip d)); [done|]. unfold as_u64 in Ex.
    rewrite <- (Z_mod_plus_full _ 1), Z.mod_small in Ex by lia. lia. }
  assert (x = ip d - text_vaddr d) by (subst; unfold as_u64; apply Z.mod_small; lia).
  rewrite as_u64_small by (unfold is_u64; lia). lia.
Qed.

Lemma walk_tnt_ok fuel d :
  text_ok d -> forward_text (text d) -> 0 <= tnt_count d <= 64 -> is_u64 (ip d) ->
  65 * (text_size d + 2) < Z.of_nat fuel ->
  wp (walk_tnt fuel d) (walk_inv d) False.
Proof.
  intros Ht Hf Hc Hip Hfuel. unfold walk_tnt. destruct (kaslr_fix_frame d) as (H1&H2&H3&H4&H5&H6&_&_&H7).
  pose proof (kaslr_fix_ok d Ht Hip) as Hk.
  apply (wp_loop (walk_inv d) walk_mu); [intros s Hs; by apply wp_walk_step| |].
  - unfold walk_inv. rewrite H1, H2, H3, H4, H5, H6, H7. split_and!; (done || lia).
  - pose proof (walk_mu_bounds (kaslr_fix d) Hk ltac:(rewrite H7; done)). rewrite H2 in *. lia.
Qed.

Definition run_inv (d0 d : PtDecoder) : Prop :=
  text d = text d0 /\ text_size d = text_size d0 /\ trace d = trace d0 /\ text_ok d /\ forward_text (text d) /\
  0 <= tnt_count d <= 64 /\ is_u64 (ip d) /\ 0 <= pos d <= zlen (trace d) /\ block_ok (block d).

Ltac run_done :=
  cbn [wp]; unfold run_inv; cbn [text text_size trace pos block tnt_count ip set_ip set_tnt emit set_log set_pos
    set_block set_stats drop_tnt block_ok];
  split_and?; try done; try lia.

(** Any state of the run after a walk that kept the run's part. *)
Lemma run_inv_walk d0 d d' : walk_inv d d' -> run_inv d0 d -> run_inv d0 d'.
Proof.
  intros (W1&W2&W3&W4&W5&W6&W7&W8&W9) (R1&R2&R3&R4&R5&R6&R7&R8&R9). unfold run_inv.
  rewrite W1, W2, W3, W4, W5 in *. split_and!; done || lia.
Qed.

Lemma wp_load_tnt fuel q d d0 : run_inv d0 d -> 0 <= q < 2 ^ 48 -> 65 * (text_size d + 2) < Z.of_nat fuel ->
  wp (load_tnt fuel q d) (fun d' => run_inv d0 d' /\ pos d' = pos d) False.
Proof.
  intros HI Hq Hf. pose proof HI as (R1&R2&R3&R4&R5&R6&R7&R8&R9). unfold load_tnt.
  destruct (Z.eqb_spec q 0); [run_done|]. pose proof (Z.log2_nonneg q).
  assert (Z.log2 q < 48) by (apply Z.log2_lt_pow2; lia).
  set (d1 := set_tnt _ _ d). assert (run_inv d0 d1) as HI1 by (unfold d1; run_done).
  destruct (_ && _); [|done].
  eapply wp_mono; [apply walk_tnt_ok; try apply HI1; exact Hf| |done].
  intros d' HW. split; [by eapply run_inv_walk|]. by destruct HW as (_&_&_&->&_).
Qed.

Lemma wp_run_step fuel d0 d : bytes_ok (trace d) -> run_inv d0 d -> 65 * (text_size d + 2) < Z.of_nat fuel ->
  wp (run_step fuel d) (fun c => match c with
    | Next d' => run_inv d0 d' /\ 0 <= zlen (trace d0) - pos d' < zlen (trace d0) - pos d
    | Stop d' => run_inv d0 d'
    end) False.
Proof.
  intros Hb HI Hf. pose proof HI as (R1&R2&R3&R4&R5&R6&R7&R8&R9). unfold run_step. rewrite R3 in Hb, R8 |- *.
  destruct (Z.leb_spec (zlen (trace d0)) (pos d)); [exact HI|].
  apply wp_bind. eapply wp_mono; [apply wp_scan_packet; [done|lia|done]| |done].
  intros [p n] [Hn Hpl]. cbn [pkt len] in *.
  assert (is_u64 0) by (unfold is_u64; lia).
  assert (run_inv d0 d -> 1 <= n -> pos d + n <= zlen (trace d0) -> run_inv d0 (set_pos (pos d + n) d)) as Hadv.
  { intros. run_done. rewrite R3. lia. }
  assert (0 <= zlen (trace d0) - (pos d + n)) by (destruct p; lia).
  destruct p as [|q|q|op enc| | |wide| | | |]; try solve [run_done; rewrite ?R3; lia].
  1-2: apply wp_bind; eapply wp_mono; [apply (wp_load_tnt _ _ _ d0); [apply Hadv; done || lia|lia|done]| |done];
    intros d' [HI' Hp']; cbn [wp pos set_pos] in *; split; [done|lia].
  - destruct (Z.eqb_spec enc 0) as [->|Hne]; [run_done; rewrite ?R3; lia|].
    assert (1 <= n - 1 <= 8) by (unfold ip_payload_len in Hpl; repeat case_match; simplify_eq; lia).
    rewrite (pt_read_ip_eq enc (n - 1)) by (cbn [pos trace set_pos]; rewrite ?R3; done || lia).
    cbn [pos trace set_pos ip]. rewrite R3. apply wp_bind, wp_bind.
    eapply wp_mono; [apply (wp_le_accum _ _ (Z.to_nat (n - 1)) 0 0); [done|lia|lia|lia|done|lia]| |done].
    intros v Hv. cbn [wp]. set (d1 := emit _).
    assert (run_inv d0 d1) as HI1.
    { unfold d1. run_done; [|rewrite R3; lia].
      eapply (update_ip_range _ _ _ (n - 1)); [done|done|]. by replace (n - 1) with (0 + Z.of_nat (Z.to_nat (n - 1))) by lia. }
    destruct (_ && _); [|split; [done|cbn; lia]].
    apply wp_bind. eapply wp_mono; [apply walk_tnt_ok; try apply HI1; done|..|done].
    intros d' HW. split; [by eapply run_inv_walk|]. destruct HW as (_&_&_&->&_). cbn. lia.
  - run_done; rewrite ?R3; try lia. destruct wide; auto.
  - cbn [trace pos set_block set_ip drop_tnt set_stats set_tnt]. rewrite R3.
    destruct (find_psb_spec (trace d0) (pos d + 1)) as ([j|] & -> & Hj); [lia| |]; cbn [mbind outcome_bind wp].
    + destruct Hj as (?&Hj%psb_at_bounds&_). run_done; rewrite ?R3; lia.
    + run_done; rewrite ?R3; lia.
Qed.

(** C3: the full decoder terminates on every trace, corrupt ones
    included, when no direct jump or call of the kernel text goes backwards:
    conditional branches may loop, each iteration paid for by a TNT bit.  It
    never indexes outside the trace or the text, and the number of walk
    iterations between two packets is at most 65 (size + 2). *)
Theorem run_total d fuel :
  bytes_ok (trace d) -> text_ok d -> forward_text (text d) -> 65 * (text_size d + 2) < Z.of_nat fuel ->
  exists d', run fuel d = Done d' /\ run_inv d d'.
Proof.
  intros Hb Ht Hf Hfuel. unfold run. set (d1 := MkDec _ _ _ _ _ _ _ _ _ _ _).
  pose proof (zlen_nonneg (trace d)) as Hl.
  assert (run_inv d d1) as HI by (run_done; unfold is_u64; lia).
  enough (wp (loop (S (length (trace d))) (run_step fuel) d1) (run_inv d) False) as H.
  { destruct (loop _ _ _) as [d'| | |]; try done. by exists d'. }
  apply (wp_loop (run_inv d) (fun d' => zlen (trace d) - pos d')); [|done|cbn; unfold zlen in *; lia].
  intros s Hs. apply wp_run_step; [by destruct Hs as (_&_&->&_)|done|]. by destruct Hs as (_&->&_).
Qed.

(** [jnz -2; ret]: a conditional self-loop, three outcomes. *)
Definition loop_dec : PtDecoder :=
  MkDec [0x75; 0xfe; 0xc3] 0xffffffff81000000 3
    (encode (PIp 0x0d 6 0xffffffff81000000) ++ encode (PTnt8 15)) 0 0 0 0 None stats0 log0.

Lemma run_total_witness :
  bytes_ok (trace loop_dec) /\ text_ok loop_dec /\ forward_text (text loop_dec) /\
  exists d', run 400 loop_dec = Done d' /\ run_inv loop_dec d'.
Proof.
  assert (bytes_ok (trace loop_dec)) as H1 by (vm_compute; repeat constructor; done).
  assert (text_ok loop_dec) as H2.
  { unfold text_ok. split_and!; [repeat constructor; unfold is_u8; lia|done|vm_compute; reflexivity|cbn; lia|cbn; lia]. }
  assert (forward_text (text loop_dec)) as H3.
  { intros off code i Hs Hd Hb Hc. pose proof Hs as (Ho & Hm & _)%slice_Some.
    change (zlen (text loop_dec)) with 3 in *. cbn [text loop_dec] in *.
    assert (off = 0 \/ off = 1 \/ off = 2 \/ off = 3) as [-> |[-> |[-> | ->]]] by lia;
      vm_compute in Hs; simplify_eq; vm_compute in Hd; simplify_eq; done. }
  split_and!; [exact H1|exact H2|exact H3|]. apply run_total; [exact H1|exact H2|exact H3|cbn; lia].
Defined.

(** ** The walk that never ends *)

(** [jmp .] with a TIP to it and one pending outcome. *)
Definition hang_dec : PtDecoder :=
  MkDec [0xeb; 0xfe] 0xffffffff81000000 2
    (encode (PIp 0x0d 6 0xffffffff81000000) ++ encode (PTnt8 3)) 0 0 0 0 None stats0 log0.

Definition hang_inv (d : PtDecoder) : Prop :=
  text d = [0xeb; 0xfe] /\ text_vaddr d = 0xffffffff81000000 /\ text_size d = 2 /\
  ip d = 0xffffffff81000000 /\ tnt_count d = 1.

Lemma walk_step_hangs d : hang_inv d -> exists d', walk_step d = Done (Next d') /\ hang_inv d'.
Proof.
  intros (H1 & H2 & H3 & H4 & H5). destruct d. cbn in *. subst.
  eexists. split; [reflexivity|]. by split_and!.
Qed.

(** A two-byte kernel text holding a jump to itself and an
    eleven-byte trace of two well-formed packets make the decoder loop for
    ever: however many iterations the walk is granted, [run] does not return. *)
Theorem run_diverges_on_self_jump fuel : run fuel hang_dec = Fuel.
Proof.
  unfold run. change (S (length (trace hang_dec))) with 11%nat. cbn [loop].
  assert (forall d, hang_inv d -> walk_tnt fuel d = Fuel) as Hw.
  { intros d Hd. unfold walk_tnt. apply (loop_diverges hang_inv); [exact walk_step_hangs|].
    destruct Hd as (H1 & H2 & H3 & H4 & H5). destruct d. cbn in *. subst. by vm_compute. }
  set (d1 := MkDec _ _ _ _ _ _ _ _ _ _ _).
  assert (exists d2, run_step fuel d1 = Done (Next d2) /\ pos d2 = 9 /\ trace d2 = trace hang_dec /\ block d2 = None /\
    ip d2 = 0xffffffff81000000 /\ text d2 = text hang_dec /\ text_vaddr d2 = 0xffffffff81000000 /\ text_size d2 = 2)
    as (d2 & -> & Hp & Ht & Hbl & Hi & Htx & Hv & Hs).
  { eexists. split; [vm_compute; reflexivity|]. by split_and!. }
  cbn [mbind outcome_bind]. destruct d2. cbn in *. subst.
  assert (forall d, run_step fuel d = Fuel -> (c ← run_step fuel d; match c with Next s' => loop 9 (run_step fuel) s' | Stop r => Done r end) = Fuel) as Hbind
    by (by intros d ->).
  apply Hbind. unfold run_step. cbn [trace PtDecoder.pos PtDecoder.block].
  match goal with |- context [scan_packet ?t 9 None] =>
    replace (scan_packet t 9 None) with (Done (MkScan (Tnt8 3) 1)) by (vm_compute; reflexivity) end.
  cbn [mbind outcome_bind pkt len]. unfold load_tnt. cbn. rewrite Hw; [done|]. by split_and!.
Qed.

(** * The ELF loader *)

Lemma rd_le_range map n o v : bytes_ok map -> rd_le map n o = Done v -> 0 <= v < 2 ^ (8 * Z.of_nat n).
Proof.
  intros Hb. unfold rd_le. intros H. binds H. injection H as <-.
  assert (bytes_ok a /\ length a = n) as [Ha <-]; [|by apply le_val_range].
  revert o a E. induction n as [|n IH]; intros o a E; cbn [rd_bytes] in E.
  { injection E as <-. by split; [constructor|]. }
  binds E. injection E as <-. destruct (IH _ _ E1) as [? <-]. split; [|done]. constructor; [|done].
  unfold idx in E0. destruct (get map o) eqn:Eg; [|done]. injection E0 as <-. eapply get_bytes_ok; [exact Hb|exact Eg].
Qed.

Lemma slice_wrap (map : list Z) o z t : is_u64 o -> is_u64 z -> slice map o (o +₆₄ z) = Some t ->
  slice map o (o + z) = Some t /\ zlen t = z.
Proof.
  unfold is_u64. intros Ho Hz Hs. pose proof (slice_length _ _ _ _ Hs) as Hl.
  pose proof Hs as (Hle & Hm & _)%slice_Some. unfold as_u64 in *.
  destruct (decide (o + z < 2 ^ 64)); [rewrite Z.mod_small in * by lia; split; [done|lia]|].
  rewrite <- (Z_mod_plus_full _ (-1)), Z.mod_small in Hle by lia. lia.
Qed.

Lemma text_section_slice map shoff ent str n i t a s : bytes_ok map ->
  text_section map shoff ent str n i = Done (Some (t, a, s)) ->
  exists off, slice map off (off + s) = Some t /\ zlen t = s /\ is_u64 a.
Proof.
  intros Hb. revert i. induction n as [|n IH]; intros i H; cbn [text_section] in H; [done|].
  destruct (_ <? _); [done|]. binds H. case_match; [|by eapply IH]. binds H. case_match; [done|].
  binds H. simplify_eq.
  repeat match goal with E : rd_le _ 8 _ = Done _ |- _ => apply rd_le_range in E; [|done] end.
  match goal with E : or_panic (slice ?m ?o ?e) = Done _ |- _ =>
    destruct (slice m o e) as [t'|] eqn:Es; [|done]; injection E as -> end.
  apply slice_wrap in Es as [Es Hl]; [|done|done]. by eexists.
Qed.

(** What the ELF loader returns.  A text section it returns is a
    contiguous part of the file, as long as the size it reports, so the decoder
    built from it reads no byte outside the section. *)
Theorem load_text_is_section map trace0 d : bytes_ok map -> zlen map < 2 ^ 63 ->
  init map trace0 = Done (Some d) ->
  (exists off, slice map off (off + text_size d) = Some (text d)) /\
  bytes_ok (text d) /\ text_size d = zlen (text d) /\ zlen (text d) < 2 ^ 63 /\ is_u64 (text_vaddr d) /\
  trace d = trace0.
Proof.
  intros Hb Hlen H. unfold init in H. binds H. injection H as H. destruct a as [[[t v] s]|]; [|done].
  injection H as <-. unfold load_vmlinux_text in E. destruct (_ <? 64); [done|]. binds E.
  destruct (_ || _); [done|]. destruct (_ <=? _); [done|]. binds E.
  apply text_section_slice in E as (off & Hs & Hl & Ha); [|done]. cbn [text text_size text_vaddr trace].
  split_and!; try done; [by eexists|by eapply slice_bytes_ok|].
  apply slice_Some in Hs as (?&?&_). lia.
Qed.

(** A minimal ELF image: header, the names ".text", one section header. *)
Definition elf_image : list Z :=
  replicate 0x28 0 ++ le_bytes 8 0x50 ++ replicate 10 0 ++ [0x40; 0; 1; 0; 0; 0] ++
  bs ".text" ++ [0] ++ [0xeb; 0xfe] ++ replicate 8 0 ++
  le_bytes 4 0 ++ replicate 12 0 ++ le_bytes 8 0xffffffff81000000 ++ le_bytes 8 0x40 ++ le_bytes 8 6 ++ replicate 24 0.

Lemma load_text_is_section_witness :
  bytes_ok elf_image /\ zlen elf_image < 2 ^ 63 /\
  exists d, init elf_image [] = Done (Some d) /\ text d = bs ".text" ++ [0] /\
    (exists off, slice elf_image off (off + text_size d) = Some (text d)) /\
    bytes_ok (text d) /\ text_size d = zlen (text d) /\ zlen (text d) < 2 ^ 63 /\ is_u64 (text_vaddr d) /\
    trace d = [].
Proof.
  assert (bytes_ok elf_image) as H1 by (vm_compute; repeat constructor; done).
  assert (zlen elf_image < 2 ^ 63) as H2 by (vm_compute; reflexivity).
  split_and!; [exact H1|exact H2|].
  eexists (MkDec (bs ".text" ++ [0]) 0xffffffff81000000 6 [] 0 0 0 0 None stats0 log0).
  split_and!; [vm_compute; reflexivity|reflexivity|..];
    apply (load_text_is_section elf_image [] (MkDec (bs ".text" ++ [0]) 0xffffffff81000000 6 [] 0 0 0 0 None stats0 log0) H1 H2);
    vm_compute; reflexivity.
Defined.

(** A 64-byte file whose section-header offset points past its
    end passes every guard of the loader and then indexes out of range: the
    loader panics where its caller expects [None] and a TIP-only decode. *)
Theorem load_text_panics_on_bad_shoff :
  exists map, bytes_ok map /\ zlen map = 64 /\ load_vmlinux_text map = Panic.
Proof.
  exists (replicate 0x28 0 ++ le_bytes 8 0x1000 ++ replicate 10 0 ++ [0x40; 0; 1; 0; 0; 0]).
  split_and!; [vm_compute; repeat constructor; done|vm_compute; reflexivity|vm_compute; reflexivity].
Qed.
