(* ===== verification/Inflate.v ===== *)
(** fuzz/inflate.rs: base64, the DEFLATE bit reader, Huffman tables and blocks,
    and the zlib wrapper that unpacks the compressed images of reproducers.

    Shown: base64 decoding inverts encoding; the bit reader delivers the bits of
    the input in order; decompression is total on every byte string (no
    out-of-range index, no endless loop), consumes input at every step and never
    produces more than its limit; a stored block is reproduced byte for byte. *)
From S2P Require Import Prelude Text.

(** * Base64 *)

Definition b64_val (c : Z) : option Z :=
  if is_ascii_upper c then Some (c - 65)
  else if is_ascii_lower c then Some (c - 97 + 26)
  else if is_ascii_digit c then Some (c - 48 + 52)
  else if c =? 43 then Some 62
  else if c =? 47 then Some 63
  else None.

(** The byte loop; [acc] is a [u32] shifted left by six each time. *)
Fixpoint base64_go (s : list Z) (acc nbits : Z) (out : list Z) : option (list Z) :=
  match s with
  | [] => Some out
  | c :: t =>
      if c =? 61 then Some out
      else if is_ascii_whitespace c then base64_go t acc nbits out
      else
        match b64_val c with
        | None => None
        | Some v =>
            let acc := Z.lor (as_u32 (Z.shiftl acc 6)) v in
            let nbits := nbits + 6 in
            if 8 <=? nbits
            then base64_go t acc (nbits - 8) (out ++ [as_u8 (Z.shiftr acc (nbits - 8))])
            else base64_go t acc nbits out
        end
  end.

Definition base64_decode (s : list Z) : option (list Z) := base64_go s 0 0 [].

(** * The bit reader *)

Record BitReader : Type := MkBits { data : list Z; pos : Z; buf : Z; cnt : Z }.

Definition new_reader (d : list Z) : BitReader := MkBits d 0 0 0.

(** The refill loop of [bits]: two bytes are enough for 16 bits. *)
Fixpoint refill (fuel : nat) (n : Z) (r : BitReader) : outcome BitReader :=
  match fuel with
  | O => Fuel
  | S f =>
      if cnt r <? n then
        match get (data r) (pos r) with
        | None => Fail
        | Some b => refill f n (MkBits (data r) (pos r + 1)
                                  (Z.lor (buf r) (as_u32 (Z.shiftl b (cnt r)))) (cnt r + 8))
        end
      else Done r
  end.

Definition bits (n : Z) (r : BitReader) : outcome (Z * BitReader) :=
  if n =? 0 then Done (0, r) else
  r ← refill 4 n r;
  Done (Z.land (buf r) (Z.shiftl 1 n - 1), MkBits (data r) (pos r) (Z.shiftr (buf r) n) (cnt r - n)).

Definition align_byte (r : BitReader) : BitReader :=
  let drop := cnt r mod 8 in
  MkBits (data r) (pos r) (Z.shiftr (buf r) drop) (cnt r - drop).

(** * Huffman tables *)

Definition MAX_BITS : Z := 15.

Record Huffman : Type := MkHuff { counts : list Z; symbols : list Z }.

(** [offs[len + 1] = offs[len] + counts[len]] for [len] in [1..15]. *)
Fixpoint offsets (counts : list Z) (n : nat) (len : Z) (offs : list Z) : outcome (list Z) :=
  match n with
  | O => Done offs
  | S n' => o ← idx offs len; c ← idx counts len;
            offs ← upd offs (len + 1) (as_u16 (o + c)); offsets counts n' (len + 1) offs
  end.

(** One symbol of the table fill. *)
Definition place_symbol (st : list Z * list Z) (e : Z * Z) : outcome (list Z * list Z) :=
  let '(offs, symbols) := st in
  let '(sym, l) := e in
  if l =? 0 then Done st else
  slot ← idx offs l;
  symbols ← (if slot <? zlen symbols then upd symbols slot (as_u16 sym) else Done symbols);
  offs ← upd offs l (as_u16 (slot + 1));
  Done (offs, symbols).

Definition enumerate {A} (l : list A) : list (Z * A) := zip (seqZ 0 (zlen l)) l.

Definition huffman_new (lengths : list Z) : outcome Huffman :=
  counts ← fold_m (fun c l => n ← idx c l; upd c l (as_u16 (n + 1))) lengths (replicate 16 0);
  counts ← upd counts 0 0;
  offs ← offsets counts 14 1 (replicate 17 0);
  st ← fold_m place_symbol (enumerate lengths) (offs, replicate (length lengths) 0);
  Done (MkHuff counts (snd st)).

(** [decode]: [n] code lengths remain, [len] is the current one. *)
Fixpoint decode_go (n : nat) (h : Huffman) (len code first index : Z) (r : BitReader)
    : outcome (Z * BitReader) :=
  match n with
  | O => Fail
  | S n' =>
      '(b, r) ← bits 1 r;
      let code := Z.lor code b in
      count ← idx (counts h) len;
      if code - count <? first then
        match get (symbols h) (index + (code - first)) with
        | Some s => Done (s, r)
        | None => Fail
        end
      else decode_go n' h (len + 1) (Z.shiftl code 1) (Z.shiftl (first + count) 1) (index + count) r
  end.

Definition decode (h : Huffman) (r : BitReader) : outcome (Z * BitReader) :=
  decode_go 15 h 1 0 0 0 r.

Definition LEN_BASE : list Z :=
  [3; 4; 5; 6; 7; 8; 9; 10; 11; 13; 15; 17; 19; 23; 27; 31; 35; 43; 51; 59; 67; 83; 99; 115; 131;
   163; 195; 227; 258].
Definition LEN_EXTRA : list Z :=
  [0; 0; 0; 0; 0; 0; 0; 0; 1; 1; 1; 1; 2; 2; 2; 2; 3; 3; 3; 3; 4; 4; 4; 4; 5; 5; 5; 5; 0].
Definition DIST_BASE : list Z :=
  [1; 2; 3; 4; 5; 7; 9; 13; 17; 25; 33; 49; 65; 97; 129; 193; 257; 385; 513; 769; 1025; 1537;
   2049; 3073; 4097; 6145; 8193; 12289; 16385; 24577].
Definition DIST_EXTRA : list Z :=
  [0; 0; 0; 0; 1; 1; 2; 2; 3; 3; 4; 4; 5; 5; 6; 6; 7; 7; 8; 8; 9; 9; 10; 10; 11; 11; 12; 12; 13; 13].

Definition fixed_lengths : list Z :=
  (fun i => if i <=? 143 then 8 else if i <=? 255 then 9 else if i <=? 279 then 7 else 8) <$> seqZ 0 288.

Definition fixed_trees : outcome (Huffman * Huffman) :=
  lit ← huffman_new fixed_lengths; dist ← huffman_new (replicate 30 5); Done (lit, dist).

(** * Blocks *)

(** The overlapping copy [for k in 0..len { out.push(out[start + k]) }]. *)
Fixpoint copy_back (n : nat) (start : Z) (out : list Z) : outcome (list Z) :=
  match n with
  | O => Done out
  | S n' => b ← idx out start; copy_back n' (start + 1) (out ++ [b])
  end.

(** One symbol of a compressed block: [Stop] is the end-of-block symbol. *)
Definition block_step (lit dist : Huffman) (limit : Z) (s : BitReader * list Z)
    : outcome (ctl (BitReader * list Z) (BitReader * list Z)) :=
  let '(r, out) := s in
  '(sym, r) ← decode lit r;
  if sym <=? 255 then
    if limit <=? zlen out then Fail else Done (Next (r, out ++ [as_u8 sym]))
  else if sym =? 256 then Done (Stop (r, out))
  else if sym <=? 285 then
    let i := sym - 257 in
    base ← idx LEN_BASE i; ex ← idx LEN_EXTRA i; '(e, r) ← bits ex r;
    let len := base + e in
    '(dsym, r) ← decode dist r;
    if 30 <=? dsym then Fail else
    dbase ← idx DIST_BASE dsym; dex ← idx DIST_EXTRA dsym; '(de, r) ← bits dex r;
    let d := dbase + de in
    if (zlen out <? d) || (limit <? zlen out + len) then Fail else
    out ← copy_back (Z.to_nat len) (zlen out - d) out;
    Done (Next (r, out))
  else Fail.

(** Bits not yet delivered: what every loop consumes. *)
Definition bits_left (r : BitReader) : Z := 8 * (zlen (data r) - pos r) + cnt r.

Definition inflate_block (lit dist : Huffman) (limit : Z) (r : BitReader) (out : list Z)
    : outcome (BitReader * list Z) :=
  loop (Z.to_nat (bits_left r + 1)) (block_step lit dist limit) (r, out).

(** The raw bytes of a stored block. *)
Fixpoint stored_go (n : nat) (limit : Z) (r : BitReader) (out : list Z) : outcome (BitReader * list Z) :=
  match n with
  | O => Done (r, out)
  | S n' =>
      if limit <=? zlen out then Fail else
      '(b, r) ← bits 8 r; stored_go n' limit r (out ++ [as_u8 b])
  end.

Definition ORDER : list Z := [16; 17; 18; 0; 8; 7; 9; 6; 10; 5; 11; 4; 12; 3; 13; 2; 14; 1; 15].

(** Code-length code lengths, in the permuted order. *)
Definition read_cl (order : list Z) (r : BitReader) : outcome (list Z * BitReader) :=
  fold_m (fun '(cl, r) o => '(v, r) ← bits 3 r; cl ← upd cl o v; Done (cl, r)) order (replicate 19 0, r).

(** [for _ in 0..n { if i >= len return None; lengths[i] = prev; i += 1 }] *)
Fixpoint repeat_prev (n : nat) (prev i : Z) (lengths : list Z) : outcome (Z * list Z) :=
  match n with
  | O => Done (i, lengths)
  | S n' => if zlen lengths <=? i then Fail
            else lengths ← upd lengths i prev; repeat_prev n' prev (i + 1) lengths
  end.

(** One code-length symbol. *)
Definition lengths_step (cl_tree : Huffman) (s : BitReader * list Z * Z)
    : outcome (ctl (BitReader * list Z * Z) (BitReader * list Z)) :=
  let '(r, lengths, i) := s in
  if zlen lengths <=? i then Done (Stop (r, lengths)) else
  '(sym, r) ← decode cl_tree r;
  if sym <=? 15 then lengths ← upd lengths i sym; Done (Next (r, lengths, i + 1))
  else if sym =? 16 then
    if i =? 0 then Fail else
    prev ← idx lengths (i - 1);
    '(n, r) ← bits 2 r;
    '(i, lengths) ← repeat_prev (Z.to_nat (3 + n)) prev i lengths;
    Done (Next (r, lengths, i))
  else if sym =? 17 then
    '(n, r) ← bits 3 r; Done (Next (r, lengths, Z.min (i + (3 + n)) (zlen lengths)))
  else if sym =? 18 then
    '(n, r) ← bits 7 r; Done (Next (r, lengths, Z.min (i + (11 + n)) (zlen lengths)))
  else Fail.

(** The two trees of a dynamic block. *)
Definition dynamic_trees (r : BitReader) : outcome (Huffman * Huffman * BitReader) :=
  '(a, r) ← bits 5 r; let hlit := a + 257 in
  '(b, r) ← bits 5 r; let hdist := b + 1 in
  '(c, r) ← bits 4 r; let hclen := c + 4 in
  '(cl, r) ← read_cl (take (Z.to_nat hclen) ORDER) r;
  cl_tree ← huffman_new cl;
  '(r, lengths) ← loop (Z.to_nat (hlit + hdist + 1)) (lengths_step cl_tree)
                       (r, replicate (Z.to_nat (hlit + hdist)) 0, 0);
  ll ← or_panic (slice lengths 0 hlit); dl ← or_panic (slice_from lengths hlit);
  lit ← huffman_new ll; dist ← huffman_new dl;
  Done (lit, dist, r).

(** One block of the stream. *)
Definition inflate_step (limit : Z) (s : BitReader * list Z)
    : outcome (ctl (BitReader * list Z) (list Z)) :=
  let '(r, out) := s in
  '(last, r) ← bits 1 r;
  '(btype, r) ← bits 2 r;
  '(r, out) ←
    (if btype =? 0 then
       let r := align_byte r in
       '(len, r) ← bits 16 r; '(_, r) ← bits 16 r;
       stored_go (Z.to_nat len) limit r out
     else if btype =? 1 then
       '(lit, dist) ← fixed_trees; inflate_block lit dist limit r out
     else if btype =? 2 then
       '(lit, dist, r) ← dynamic_trees r; inflate_block lit dist limit r out
     else Fail);
  Done (if last =? 1 then Stop out else Next (r, out)).

Definition inflate (d : list Z) (limit : Z) : outcome (list Z) :=
  loop (8 * length d + 1) (inflate_step limit) (new_reader d, []).

Definition zlib_decompress (d : list Z) (limit : Z) : outcome (list Z) :=
  if zlen d <? 2 then Fail else
  cmf ← idx d 0; flg ← idx d 1;
  if negb (Z.land cmf 0x0f =? 8) || negb (as_u16 (as_u16 (cmf * 256) + flg) mod 31 =? 0) then Fail
  else if negb (Z.land flg 0x20 =? 0) then Fail
  else rest ← or_panic (slice_from d 2); inflate rest limit.

Definition decode_compressed_image (b64 : list Z) (limit : Z) : outcome (list Z) :=
  raw ← of_option (base64_decode b64); zlib_decompress raw limit.

(** Vectors of the source's tests. *)
Example zlib_hello : zlib_decompress [0x78; 0x9c; 0xcb; 0x48; 0xcd; 0xc9; 0xc9; 0x07; 0x00; 0x06; 0x2c; 0x02; 0x15] 1000
  = Done (bs "hello").
Proof. vm_compute. reflexivity. Qed.

(** * The bit reader as a bit stream *)

(** The undelivered bits as one number, the next bit lowest; there are
    [bits_left] of them. *)
Definition stream_val (r : BitReader) : Z := buf r + 2 ^ cnt r * le_val (drop (Z.to_nat (pos r)) (data r)).

Definition reader_inv (r : BitReader) : Prop :=
  bytes_ok (data r) /\ 0 <= pos r <= zlen (data r) /\ 0 <= cnt r /\ 0 <= buf r < 2 ^ cnt r.

Definition reader_ok (r : BitReader) : Prop := reader_inv r /\ cnt r < 8.

Lemma le_val_drop l i b : get l i = Some b ->
  le_val (drop (Z.to_nat i) l) = b + 256 * le_val (drop (Z.to_nat (i + 1)) l).
Proof.
  intros [Hi Hl]%get_Some. rewrite (drop_S _ b) by done.
  replace (Z.to_nat (i + 1)) with (S (Z.to_nat i)) by lia. done.
Qed.

Lemma refill_spec fuel n r :
  reader_inv r -> n <= 16 -> cnt r <= 23 -> n <= cnt r + 8 * (Z.of_nat fuel - 1) -> (0 < fuel)%nat ->
  match refill fuel n r with
  | Done r' => reader_inv r' /\ n <= cnt r' /\ (cnt r < n -> cnt r' < n + 8) /\ (n <= cnt r -> cnt r' = cnt r) /\ data r' = data r /\
               bits_left r' = bits_left r /\ stream_val r' = stream_val r
  | Fail => bits_left r < n
  | _ => False
  end.
Proof.
  revert r. induction fuel as [|fuel IH]; intros r Hr Hn Hc Hf Hpos; [lia|]. cbn [refill].
  destruct (Z.ltb_spec (cnt r) n) as [Hlt|Hge]; [|split_and!; try done; lia].
  destruct Hr as (Hb & Hp & Hc0 & Hbuf).
  destruct (get (data r) (pos r)) as [b|] eqn:Eg.
  2: { apply get_None in Eg. unfold bits_left. lia. }
  pose proof (get_bytes_ok _ _ _ Hb Eg) as H8. unfold is_u8 in H8.
  assert (2 ^ (cnt r + 8) = 2 ^ cnt r * 256) as Hpow by (by rewrite Z.pow_add_r by lia).
  assert (2 ^ (cnt r + 8) <= 2 ^ 32) by (apply Z.pow_le_mono_r; lia).
  assert (as_u32 (Z.shiftl b (cnt r)) = Z.shiftl b (cnt r)) as ->.
  { apply as_u32_small. unfold is_u32. rewrite Z.shiftl_mul_pow2 by done. nia. }
  rewrite lor_add by lia. set (r1 := MkBits _ _ _ _).
  assert (bits_left r1 = bits_left r) as Hbl by (unfold bits_left, r1; simpl; lia).
  assert (stream_val r1 = stream_val r) as Hsv.
  { unfold stream_val, r1. cbn [buf cnt data pos]. rewrite (le_val_drop _ _ _ Eg), Hpow. ring. }
  assert (reader_inv r1) as Hr1.
  { apply get_Some in Eg as [? _]. unfold r1. split_and!; simpl; try done; try lia. nia. }
  specialize (IH r1 Hr1 Hn). unfold r1 in IH at 1 2. cbn [cnt] in IH.
  specialize (IH ltac:(lia) ltac:(lia) ltac:(lia)). unfold r1 in *.
  destruct (refill fuel n _) as [r'| | |]; [|rewrite <- Hbl|..]; try done. cbn [cnt data] in *.
  destruct IH as (?&?&?&?&?&?&?). split_and!; try done; try lia; congruence.
Qed.

(** Reading [n] bits takes the low [n] bits of the stream, and fails exactly
    when fewer remain. *)
Lemma bits_spec n r : reader_ok r -> 0 <= n <= 16 ->
  match bits n r with
  | Done (v, r') => reader_ok r' /\ data r' = data r /\ n <= bits_left r /\ bits_left r' = bits_left r - n /\
      v = stream_val r mod 2 ^ n /\ stream_val r' = stream_val r / 2 ^ n
  | Fail => bits_left r < n
  | _ => False
  end.
Proof.
  intros [Hr Hc] Hn. pose proof Hr as (_ & Hp & Hc0 & _). unfold bits. destruct (Z.eqb_spec n 0) as [->|Hn0].
  { rewrite Z.mod_1_r, Z.div_1_r. split_and!; (done || unfold bits_left; lia). }
  pose proof (refill_spec 4 n r Hr ltac:(lia) ltac:(lia) ltac:(lia) ltac:(lia)) as Hf.
  destruct (refill 4 n r) as [r1| | |]; try done. cbn [mbind outcome_bind].
  destruct Hf as (Hr1 & Hn1 & Hc1 & Hc2 & Hd & Hbl & Hsv). destruct Hr1 as (Hb & Hp1 & Hc3 & Hbuf).
  assert (2 ^ cnt r1 = 2 ^ n * 2 ^ (cnt r1 - n)) as Hpow by (rewrite <- Z.pow_add_r by lia; f_equal; lia).
  assert (0 < 2 ^ n) by (apply Z.pow_pos_nonneg; lia).
  assert (0 < 2 ^ (cnt r1 - n)) by (apply Z.pow_pos_nonneg; lia).
  rewrite Z.shiftl_1_l. replace (2 ^ n - 1) with (Z.ones n) by (rewrite Z.ones_equiv; lia).
  rewrite Z.land_ones, Z.shiftr_div_pow2 by lia. set (q := le_val (drop (Z.to_nat (pos r1)) (data r1))).
  assert (stream_val r = buf r1 + (2 ^ (cnt r1 - n) * q) * 2 ^ n) as Hs.
  { rewrite <- Hsv. unfold stream_val. fold q. rewrite Hpow. ring. }
  unfold reader_ok, reader_inv. cbn [data pos buf cnt]. split_and!; try done; try lia.
  - apply Z.div_pos; lia.
  - apply Z.div_lt_upper_bound; lia.
  - unfold bits_left in *. lia.
  - rewrite <- Hbl. unfold bits_left. simpl. lia.
  - rewrite Hs. by rewrite Z_mod_plus_full.
  - rewrite Hs, Z.div_add by lia. unfold stream_val. cbn [buf cnt pos data]. fold q. ring.
Qed.

Lemma wp_bits n r (Q : Z * BitReader -> Prop) : reader_ok r -> 0 <= n <= 16 ->
  (forall v r', reader_ok r' -> bits_left r' = bits_left r - n -> 0 <= v < 2 ^ n -> Q (v, r')) ->
  wp (bits n r) Q True.
Proof.
  intros Hr Hn HQ. pose proof (bits_spec n r Hr Hn) as H. destruct (bits n r) as [[v r']| | |]; try done.
  destruct H as (H1 & _ & _ & H2 & -> & _). apply HQ; [done|done|]. apply Z.mod_pos_bound, Z.pow_pos_nonneg; lia.
Qed.

Lemma bits_left_nonneg r : reader_ok r -> 0 <= bits_left r.
Proof. intros [(_ & Hp & Hc & _) _]. unfold bits_left. lia. Qed.

Lemma align_ok r : reader_ok r ->
  reader_ok (align_byte r) /\ bits_left (align_byte r) <= bits_left r /\ cnt (align_byte r) = 0 /\
  data (align_byte r) = data r /\ pos (align_byte r) = pos r /\ buf (align_byte r) = 0.
Proof.
  intros [(Hb & Hp & Hc & Hbuf) H8]. unfold align_byte. rewrite (Z.mod_small (cnt r) 8), Z.sub_diag by lia.
  assert (Z.shiftr (buf r) (cnt r) = 0) as -> by (rewrite Z.shiftr_div_pow2 by done; by apply Z.div_small).
  unfold reader_ok, reader_inv, bits_left. cbn [data pos cnt buf]. split_and!; try done; lia.
Qed.

(** * Huffman tables are well formed *)

Definition huff_ok (h : Huffman) : Prop := zlen (counts h) = 16 /\ Forall (fun s => 0 <= s) (symbols h).

Lemma wp_decode_go n h len code first index r :
  huff_ok h -> reader_ok r -> 0 <= len -> len + Z.of_nat n <= 16 -> (0 < n)%nat ->
  wp (decode_go n h len code first index r)
     (fun '(s, r') => 0 <= s /\ reader_ok r' /\ bits_left r' < bits_left r) True.
Proof.
  intros [Hc Hs]. revert len code first index r. induction n as [|n IH]; intros len code first index r Hr Hl Hn Hpos; [lia|].
  cbn [decode_go]. apply wp_bind, wp_bits; [done|lia|]. intros b r' Hr' Hbl _.
  destruct (idx_Done (counts h) len) as (c & -> & _); [lia|]. cbn [mbind outcome_bind].
  destruct (_ <? _).
  - destruct (get _ _) as [s|] eqn:Eg; [|done]. apply get_elem_of in Eg. rewrite Forall_forall in Hs.
    simpl. split_and!; [by apply Hs|done|lia].
  - destruct n as [|n]; [done|]. eapply wp_mono; [apply IH; [done|lia|lia|lia]| |done].
    intros [s r''] (?&?&?). split_and!; [done|done|lia].
Qed.

Lemma wp_decode h r (Q : Z * BitReader -> Prop) : huff_ok h -> reader_ok r ->
  (forall s r', 0 <= s -> reader_ok r' -> bits_left r' < bits_left r -> Q (s, r')) ->
  wp (decode h r) Q True.
Proof.
  intros Hh Hr HQ. eapply wp_mono; [apply (wp_decode_go 15 h 1); [done|done|lia|lia|lia]| |done].
  intros [s r'] (?&?&?). by apply HQ.
Qed.

Definition nonneg (l : list Z) : Prop := Forall (fun x => 0 <= x) l.

Lemma as_u16_nonneg x : 0 <= as_u16 x.
Proof. pose proof (as_u16_range x). unfold is_u16 in *. lia. Qed.

(** A u16 table keeps its length and stays non-negative under an update. *)
Lemma wp_upd_u16 l i v (Q : list Z -> Prop) (F : Prop) : nonneg l -> 0 <= i < zlen l ->
  (forall l', nonneg l' -> zlen l' = zlen l -> Q l') -> wp (upd l i (as_u16 v)) Q F.
Proof.
  intros Hl Hi HQ. apply wp_upd; [done|]. apply HQ; [|by rewrite zlen_insert].
  apply Forall_insert; [done|apply as_u16_nonneg].
Qed.

Lemma wp_idx_nonneg l i (Q : Z -> Prop) (F : Prop) : nonneg l -> 0 <= i < zlen l ->
  (forall x, 0 <= x -> Q x) -> wp (idx l i) Q F.
Proof.
  intros Hl Hi HQ. destruct (idx_Done l i Hi) as (x & -> & Hg). apply HQ.
  apply get_elem_of in Hg. unfold nonneg in Hl. rewrite Forall_forall in Hl. by apply Hl.
Qed.

Lemma wp_offsets cs n len offs (F : Prop) : nonneg cs -> zlen cs = 16 -> nonneg offs -> zlen offs = 17 ->
  0 <= len -> len + Z.of_nat n <= 15 ->
  wp (offsets cs n len offs) (fun o => nonneg o /\ zlen o = 17) F.
Proof.
  intros Hc0 Hc. revert len offs. induction n as [|n IH]; intros len offs Ho0 Ho Hl Hn; [done|]. cbn [offsets].
  apply wp_bind, wp_idx_nonneg; [done|lia|]. intros o _.
  apply wp_bind, wp_idx_nonneg; [done|lia|]. intros c _.
  apply wp_bind, wp_upd_u16; [done|lia|]. intros o' ? ?. apply IH; [done|lia|lia|lia].
Qed.

Definition len_ok (l : Z) : Prop := 0 <= l <= 15.

Lemma wp_place_symbol st sym l (F : Prop) : len_ok l -> nonneg (fst st) -> zlen (fst st) = 17 -> nonneg (snd st) ->
  wp (place_symbol st (sym, l)) (fun st' => nonneg (fst st') /\ zlen (fst st') = 17 /\ nonneg (snd st')) F.
Proof.
  destruct st as [o ss]. unfold len_ok. cbn [fst snd place_symbol]. intros Hl Ho Ho17 Hs.
  destruct (Z.eqb_spec l 0); [done|].
  apply wp_bind, wp_idx_nonneg; [done|lia|]. intros slot Hslot. apply wp_bind.
  assert (wp (if slot <? zlen ss then upd ss slot (as_u16 sym) else Done ss) nonneg F) as H.
  { destruct (Z.ltb_spec slot (zlen ss)); [|done]. by apply wp_upd_u16; [|lia|]. }
  eapply wp_mono; [exact H| |done]. intros ss' Hs'.
  apply wp_bind, wp_upd_u16; [done|lia|]. intros o' ? ?. cbn. split_and!; [done|lia|done].
Qed.

Lemma nonneg_replicate n : nonneg (replicate n 0).
Proof. by apply Forall_replicate. Qed.

Lemma huffman_new_ok lengths : Forall len_ok lengths ->
  exists h, huffman_new lengths = Done h /\ huff_ok h.
Proof.
  intros Hl. enough (wp (huffman_new lengths) huff_ok False) as H.
  { destruct (huffman_new lengths) as [h| | |]; try done. by exists h. }
  rewrite Forall_forall in Hl. unfold huffman_new. apply wp_bind.
  eapply wp_mono; [apply (wp_fold_m (fun _ c => nonneg c /\ zlen c = 16)); [|split; [apply nonneg_replicate|done]]| |done].
  { intros d l rest c Heq [Hc0 Hc]. assert (len_ok l) as Hlo by (apply Hl; rewrite Heq; set_solver). unfold len_ok in Hlo.
    apply wp_bind, wp_idx_nonneg; [done|lia|]. intros n _. apply wp_upd_u16; [done|lia|]. intros. split; [done|lia]. }
  intros c [Hc0 Hc]. apply wp_bind. change 0 with (as_u16 0) at 2. apply wp_upd_u16; [done|lia|].
  intros c' Hc0' Hc'. apply wp_bind.
  eapply wp_mono; [apply wp_offsets; [done|lia|apply nonneg_replicate|done|lia|lia]| |done].
  intros offs [Ho0 Ho]. apply wp_bind.
  eapply wp_mono; [apply (wp_fold_m (fun _ st => nonneg (fst st) /\ zlen (fst st) = 17 /\ nonneg (snd st)))| |done].
  - intros d [sym l] rest st Heq (?&?&?). apply wp_place_symbol; try done.
    apply Hl. assert ((sym, l) ∈ enumerate lengths) as Hin by (rewrite Heq; set_solver).
    unfold enumerate in Hin. by apply elem_of_zip_r in Hin.
  - cbn. split_and!; [done|done|apply nonneg_replicate].
  - intros [o ss] (_&_&Hs). split; simpl; [lia|done].
Qed.

(** * Blocks *)

(** The copy extends the output with period [zlen out - start]. *)
Lemma copy_back_spec n start out : 0 <= start < zlen out -> exists out',
  copy_back n start out = Done (out ++ out') /\ length out' = n /\
  forall k, 0 <= k < Z.of_nat n -> get (out ++ out') (zlen out + k) = get (out ++ out') (start + k).
Proof.
  revert start out. induction n as [|n IH]; intros start out Hs; cbn [copy_back].
  { exists []. rewrite app_nil_r. split_and!; [done|done|lia]. }
  destruct (idx_Done out start Hs) as (b & -> & Hb). cbn [mbind outcome_bind].
  destruct (IH (start + 1) (out ++ [b])) as (o' & -> & Hl & Hk).
  { rewrite zlen_app. change (zlen [b]) with 1. lia. }
  exists (b :: o'). rewrite <- app_assoc in *. cbn [app] in *. split_and!; [done|simpl; lia|].
  intros k Hk'. destruct (decide (k = 0)) as [->|].
  - rewrite !Z.add_0_r. rewrite (get_app_l out (b :: o') start), Hb by lia.
    rewrite <- (Z.add_0_r (zlen out)), get_app_r by lia. by rewrite get_cons.
  - specialize (Hk (k - 1) ltac:(lia)). rewrite zlen_app in Hk. change (zlen [b]) with 1 in Hk.
    by replace (zlen out + 1 + (k - 1)) with (zlen out + k) in Hk by lia;
      replace (start + 1 + (k - 1)) with (start + k) in Hk by lia.
Qed.

Lemma copy_back_bytes n start out out' : bytes_ok out -> copy_back n start out = Done out' -> bytes_ok out'.
Proof.
  revert start out. induction n as [|n IH]; intros start out Hb H; cbn [copy_back] in H; [by simplify_eq|].
  unfold idx in H. destruct (get out start) as [b|] eqn:E; [|done]. cbn in H. eapply IH; [|exact H].
  apply Forall_app. split; [done|]. constructor; [|done]. by eapply get_bytes_ok.
Qed.

Definition out_ok (limit : Z) (out : list Z) : Prop := bytes_ok out /\ zlen out <= limit.

Lemma out_ok_snoc limit out b : out_ok limit out -> zlen out < limit -> out_ok limit (out ++ [as_u8 b]).
Proof.
  intros [Hb Hl] Hlt. split; [|rewrite zlen_app; change (zlen [as_u8 b]) with 1; lia].
  apply Forall_app. split; [done|]. constructor; [apply as_u8_range|done].
Qed.

(** The extra-bits and base tables agree with the symbols that index them. *)
Lemma table_entry (t : list Z) i lo hi : 0 <= i < zlen t -> Forall (fun x => lo <= x <= hi) t ->
  exists x, idx t i = Done x /\ lo <= x <= hi.
Proof.
  intros Hi Ht. destruct (idx_Done t i Hi) as (x & -> & Hg). exists x. split; [done|].
  apply get_elem_of in Hg. rewrite Forall_forall in Ht. by apply Ht.
Qed.

Lemma wp_block_step lit dist limit r out : huff_ok lit -> huff_ok dist -> reader_ok r -> out_ok limit out ->
  wp (block_step lit dist limit (r, out)) (fun c => match c with
    | Next (r', out') => (reader_ok r' /\ out_ok limit out') /\ 0 <= bits_left r' < bits_left r
    | Stop (r', out') => reader_ok r' /\ out_ok limit out' /\ bits_left r' < bits_left r
    end) True.
Proof.
  intros Hlit Hdist Hr Ho. unfold block_step. apply wp_bind, wp_decode; [done|done|].
  intros s r1 Hs Hr1 Hb1. pose proof (bits_left_nonneg r1 Hr1).
  destruct (Z.leb_spec s 255).
  { destruct (Z.leb_spec limit (zlen out)); [done|]. cbn [wp].
    split; [split; [done|by apply out_ok_snoc]|lia]. }
  destruct (s =? 256) eqn:E256; [done|]. destruct (s <=? 285) eqn:E285; [|done].
  destruct (table_entry LEN_BASE (s - 257) 3 258) as (base & -> & Hbase);
    [unfold zlen; simpl; lia|repeat constructor; lia|]. cbn [mbind outcome_bind].
  destruct (table_entry LEN_EXTRA (s - 257) 0 5) as (ex & -> & Hex);
    [unfold zlen; simpl; lia|repeat constructor; lia|]. cbn [mbind outcome_bind].
  apply wp_bind, wp_bits; [done|lia|]. intros e r2 Hr2 Hb2 He.
  apply wp_bind, wp_decode; [done|done|]. intros ds r3 Hds Hr3 Hb3.
  destruct (Z.leb_spec 30 ds); [done|].
  destruct (table_entry DIST_BASE ds 1 24577) as (db & -> & Hdb);
    [unfold zlen; simpl; lia|repeat constructor; lia|]. cbn [mbind outcome_bind].
  destruct (table_entry DIST_EXTRA ds 0 13) as (dx & -> & Hdx);
    [unfold zlen; simpl; lia|repeat constructor; lia|]. cbn [mbind outcome_bind].
  apply wp_bind, wp_bits; [done|lia|]. intros de r4 Hr4 Hb4 Hde. pose proof (bits_left_nonneg r4 Hr4).
  destruct (_ || _) eqn:Eg; [done|]. apply orb_false_iff in Eg as [Hd%Z.ltb_ge Hlim%Z.ltb_ge].
  destruct (copy_back_spec (Z.to_nat (base + e)) (zlen out - (db + de)) out) as (o' & Hc & Hlen & _); [lia|].
  rewrite Hc. cbn [mbind outcome_bind wp]. split; [|lia]. split; [done|].
  split; [eapply copy_back_bytes; [apply Ho|exact Hc]|]. rewrite zlen_app. unfold zlen at 2. lia.
Qed.

Lemma wp_inflate_block lit dist limit r out : huff_ok lit -> huff_ok dist -> reader_ok r -> out_ok limit out ->
  wp (inflate_block lit dist limit r out)
     (fun '(r', out') => reader_ok r' /\ out_ok limit out' /\ bits_left r' < bits_left r) True.
Proof.
  intros Hlit Hdist Hr Ho. unfold inflate_block. pose proof (bits_left_nonneg r Hr).
  apply (wp_loop (fun '(r', out') => (reader_ok r' /\ out_ok limit out') /\ bits_left r' <= bits_left r)
                 (fun s => bits_left (fst s))).
  - intros [r1 o1] [[Hr1 Ho1] Hb1]. eapply wp_mono; [by apply wp_block_step| |done].
    intros [[r2 o2]|[r2 o2]]; cbn [fst]; [|naive_solver lia]. intros [? ?]. split; [|done]. split; [done|lia].
  - done.
  - cbn [fst]. lia.
Qed.

Lemma wp_stored_go n limit r out : reader_ok r -> out_ok limit out ->
  wp (stored_go n limit r out) (fun '(r', out') => reader_ok r' /\ out_ok limit out' /\ bits_left r' <= bits_left r) True.
Proof.
  revert r out. induction n as [|n IH]; intros r out Hr Ho; cbn [stored_go]; [done|].
  destruct (Z.leb_spec limit (zlen out)); [done|]. apply wp_bind, wp_bits; [done|lia|].
  intros b r1 Hr1 Hb1 _. eapply wp_mono; [apply IH; [done|by apply out_ok_snoc]| |done].
  intros [r2 o2] (?&?&?). split_and!; [done|done|lia].
Qed.

(** * Dynamic trees *)

Lemma wp_read_cl order r : reader_ok r -> Forall (fun o => 0 <= o < 19) order ->
  wp (read_cl order r) (fun '(cl, r') => Forall len_ok cl /\ zlen cl = 19 /\ reader_ok r' /\ bits_left r' <= bits_left r) True.
Proof.
  intros Hr Ho. rewrite Forall_forall in Ho. unfold read_cl.
  apply (wp_fold_m (fun _ '(cl, r') => Forall len_ok cl /\ zlen cl = 19 /\ reader_ok r' /\ bits_left r' <= bits_left r)).
  - intros d o rest [cl r'] Heq (Hcl & H19 & Hr' & Hb'). apply wp_bind, wp_bits; [done|lia|].
    intros v r2 Hr2 Hb2 Hv. change (2 ^ 3) with 8 in Hv. apply wp_bind, wp_upd.
    { rewrite H19. apply Ho. rewrite Heq. set_solver. }
    cbn. split_and!; [|by rewrite zlen_insert|done|lia]. apply Forall_insert; [done|]. unfold len_ok. lia.
  - split_and!; [|done|done|done]. apply Forall_replicate. unfold len_ok. lia.
Qed.

Lemma wp_repeat_prev n prev i lengths : len_ok prev -> 0 <= i -> Forall len_ok lengths ->
  wp (repeat_prev n prev i lengths) (fun '(i', l') => i' = i + Z.of_nat n /\ Forall len_ok l' /\ zlen l' = zlen lengths /\
    (i <= zlen lengths -> i' <= zlen l')) True.
Proof.
  intros Hp. revert i lengths. induction n as [|n IH]; intros i l Hi Hl; cbn [repeat_prev].
  { simpl. split_and!; [lia|done|done|done]. }
  destruct (Z.leb_spec (zlen l) i); [done|]. apply wp_bind, wp_upd; [lia|].
  eapply wp_mono; [apply IH; [lia|by apply Forall_insert]| |done].
  intros [i' l'] (-> & ? & H1 & H2). rewrite zlen_insert in *. split_and!; [lia|done|done|]. intros _. apply H2. lia.
Qed.

Definition lengths_inv (n : Z) (r0 : BitReader) (s : BitReader * list Z * Z) : Prop :=
  let '(r, lengths, i) := s in
  reader_ok r /\ bits_left r <= bits_left r0 /\ Forall len_ok lengths /\ zlen lengths = n /\ 0 <= i <= n.

Lemma wp_lengths_step h n r0 s : huff_ok h -> lengths_inv n r0 s ->
  wp (lengths_step h s) (fun c => match c with
    | Next s' => lengths_inv n r0 s' /\ 0 <= n - snd s' < n - snd s
    | Stop (r, l) => reader_ok r /\ bits_left r <= bits_left r0 /\ Forall len_ok l /\ zlen l = n
    end) True.
Proof.
  intros Hh. destruct s as [[r l] i]. intros (Hr & Hb & Hl & Hn & Hi). unfold lengths_step. cbn [snd].
  destruct (Z.leb_spec (zlen l) i); [done|]. apply wp_bind, wp_decode; [done|done|]. intros s r1 Hs Hr1 Hb1.
  destruct (Z.leb_spec s 15).
  { apply wp_bind, wp_upd; [lia|]. cbn. rewrite zlen_insert. split_and!; try done; try lia. by apply Forall_insert. }
  destruct (s =? 16).
  { destruct (Z.eqb_spec i 0); [done|]. destruct (idx_Done l (i - 1)) as (p & -> & Hp); [lia|]. cbn [mbind outcome_bind].
    assert (len_ok p) by (apply get_elem_of in Hp; rewrite Forall_forall in Hl; by apply Hl).
    apply wp_bind, wp_bits; [done|lia|]. intros m r2 Hr2 Hb2 Hm. apply wp_bind.
    eapply wp_mono; [by apply wp_repeat_prev; [|lia|]| |done]. intros [i' l'] (-> & Hl' & Hz & Hle). cbn.
    specialize (Hle ltac:(lia)). split_and!; try done; lia. }
  destruct (s =? 17); [|destruct (s =? 18); [|done]];
    (apply wp_bind, wp_bits; [done|lia|]; intros m r2 Hr2 Hb2 Hm; cbn; split_and!; try done; lia).
Qed.

Lemma wp_dynamic_trees r : reader_ok r ->
  wp (dynamic_trees r) (fun '(lit, dist, r') => huff_ok lit /\ huff_ok dist /\ reader_ok r' /\ bits_left r' <= bits_left r) True.
Proof.
  intros Hr. unfold dynamic_trees.
  apply wp_bind, wp_bits; [done|lia|]. intros a r1 Hr1 Hb1 Ha.
  apply wp_bind, wp_bits; [done|lia|]. intros b r2 Hr2 Hb2 Hb.
  apply wp_bind, wp_bits; [done|lia|]. intros c r3 Hr3 Hb3 Hc.
  apply wp_bind. eapply wp_mono; [apply wp_read_cl; [done|apply Forall_take; repeat constructor; lia]| |done].
  intros [cl r4] (Hcl & _ & Hr4 & Hb4).
  destruct (huffman_new_ok cl Hcl) as (h & -> & Hh). cbn [mbind outcome_bind].
  set (n := a + 257 + (b + 1)). apply wp_bind.
  eapply wp_mono; [apply (wp_loop (lengths_inv n r4) (fun s => n - snd s)
    (fun '(r, l) => reader_ok r /\ bits_left r <= bits_left r4 /\ Forall len_ok l /\ zlen l = n) True)| |done].
  - intros s Hs. by apply wp_lengths_step.
  - split_and!; try done; [|unfold zlen; rewrite length_replicate; lia|lia].
    apply Forall_replicate. unfold len_ok. lia.
  - cbn [snd]. lia.
  - intros [r5 l] (Hr5 & Hb5 & Hl & Hz). change (2 ^ 5) with 32 in *.
    destruct (slice l 0 (a + 257)) as [ll|] eqn:E1.
    2: { exfalso. unfold slice in E1. destruct (_ && _) eqn:E; [done|]. lia. }
    destruct (slice_from l (a + 257)) as [dl|] eqn:E2.
    2: { exfalso. unfold slice_from in E2. destruct (_ && _) eqn:E; [done|]. lia. }
    cbn [or_panic mbind outcome_bind]. apply slice_Some in E1 as (_&_&->). apply slice_from_Some in E2 as [_ ->].
    destruct (huffman_new_ok (take (Z.to_nat (a + 257 - 0)) (drop (Z.to_nat 0) l))) as (h1 & -> & H1).
    { by apply Forall_take, Forall_drop. }
    destruct (huffman_new_ok (drop (Z.to_nat (a + 257)) l)) as (h2 & -> & H2); [by apply Forall_drop|].
    cbn. split_and!; try done. lia.
Qed.

Lemma fixed_trees_ok : exists lit dist, fixed_trees = Done (lit, dist) /\ huff_ok lit /\ huff_ok dist.
Proof.
  destruct (huffman_new_ok fixed_lengths) as (h1 & H1 & ?).
  { apply Forall_fmap, Forall_forall. intros i _. unfold compose, len_ok. repeat case_match; lia. }
  destruct (huffman_new_ok (replicate 30 5)) as (h2 & H2 & ?).
  { apply Forall_replicate. unfold len_ok. lia. }
  exists h1, h2. unfold fixed_trees. rewrite H1, H2. cbn [mbind outcome_bind]. split; [reflexivity|split; assumption].
Qed.

Lemma wp_inflate_step limit r out : reader_ok r -> out_ok limit out ->
  wp (inflate_step limit (r, out)) (fun c => match c with
    | Next (r', out') => (reader_ok r' /\ out_ok limit out') /\ 0 <= bits_left r' < bits_left r
    | Stop out' => out_ok limit out'
    end) True.
Proof.
  intros Hr Ho. unfold inflate_step.
  apply wp_bind, wp_bits; [done|lia|]. intros last r1 Hr1 Hb1 _.
  apply wp_bind, wp_bits; [done|lia|]. intros bt r2 Hr2 Hb2 _. apply wp_bind.
  apply (wp_mono _ (fun '(r', out') => reader_ok r' /\ out_ok limit out' /\ bits_left r' <= bits_left r2) _ True); [|
    intros [r' o'] (?&?&?); pose proof (bits_left_nonneg r' ltac:(done));
    destruct (last =? 1); cbn; [done|split; [done|lia]]|done].
  destruct (bt =? 0); [|destruct (bt =? 1); [|destruct (bt =? 2); [|done]]].
  - destruct (align_ok r2 Hr2) as (Ha & Hab & _).
    apply wp_bind, wp_bits; [done|lia|]. intros len r3 Hr3 Hb3 _.
    apply wp_bind, wp_bits; [done|lia|]. intros x r4 Hr4 Hb4 _.
    eapply wp_mono; [by apply wp_stored_go| |done]. intros [r5 o5] (?&?&?). split_and!; [done|done|lia].
  - destruct fixed_trees_ok as (h1 & h2 & -> & H1 & H2). cbn [mbind outcome_bind].
    eapply wp_mono; [by apply wp_inflate_block| |done]. intros [r5 o5] (?&?&?). split_and!; [done|done|lia].
  - apply wp_bind. eapply wp_mono; [by apply wp_dynamic_trees| |done].
    intros [[h1 h2] r3] (?&?&?&?). eapply wp_mono; [by apply wp_inflate_block| |done].
    intros [r5 o5] (?&?&?). split_and!; [done|done|lia].
Qed.

Lemma new_reader_ok d : bytes_ok d -> reader_ok (new_reader d) /\ bits_left (new_reader d) = 8 * zlen d.
Proof.
  intros Hd. pose proof (zlen_nonneg d). unfold new_reader, reader_ok, reader_inv, bits_left. cbn.
  split_and!; try done; lia.
Qed.

Lemma wp_inflate d limit : bytes_ok d -> 0 <= limit -> wp (inflate d limit) (out_ok limit) True.
Proof.
  intros Hd Hl. destruct (new_reader_ok d Hd) as [Hr Hb]. unfold inflate.
  apply (wp_loop (fun '(r', out') => reader_ok r' /\ out_ok limit out') (fun s => bits_left (fst s))).
  - intros [r o] [Hr' Ho']. eapply wp_mono; [by apply wp_inflate_step| |done]. intros [[r1 o1]|o1]; done.
  - split; [done|]. split; [constructor|done].
  - cbn [fst]. rewrite Hb. unfold zlen. lia.
Qed.

(** * Stored blocks *)

Lemma land_ones_small b n : 0 <= n -> 0 <= b < 2 ^ n -> Z.land b (Z.shiftl 1 n - 1) = b.
Proof.
  intros Hn Hb. rewrite Z.shiftl_1_l. replace (2 ^ n - 1) with (Z.ones n) by (rewrite Z.ones_equiv; lia).
  rewrite Z.land_ones by done. by apply Z.mod_small.
Qed.

Lemma shiftr_small b n : 0 <= n -> 0 <= b < 2 ^ n -> Z.shiftr b n = 0.
Proof. intros Hn Hb. rewrite Z.shiftr_div_pow2 by done. by apply Z.div_small. Qed.

Lemma get_middle {A} (pre : list A) x rest : get (pre ++ x :: rest) (zlen pre) = Some x.
Proof. rewrite <- (Z.add_0_r (zlen pre)), get_app_r by done. by rewrite get_cons. Qed.

Lemma bits_aligned8 pre b rest : is_u8 b ->
  bits 8 (MkBits (pre ++ b :: rest) (zlen pre) 0 0) = Done (b, MkBits (pre ++ b :: rest) (zlen pre + 1) 0 0).
Proof.
  intros Hb. unfold is_u8 in Hb. unfold bits. change (8 =? 0) with false. cbv iota. cbn [refill cnt data pos buf].
  change (0 <? 8) with true. rewrite get_middle. cbv iota. change (0 + 8 <? 8) with false.
  cbn [mbind outcome_bind buf data pos cnt]. rewrite Z.lor_0_l, Z.shiftl_0_r, as_u32_small by (unfold is_u32; lia).
  change (0 + 8 <? 8) with false. cbv iota. cbn [mbind outcome_bind buf data pos cnt].
  by rewrite land_ones_small, shiftr_small by lia.
Qed.

Lemma bits_aligned16 pre v rest : is_u16 v ->
  bits 16 (MkBits (pre ++ le_bytes 2 v ++ rest) (zlen pre) 0 0) =
    Done (v, MkBits (pre ++ le_bytes 2 v ++ rest) (zlen pre + 2) 0 0).
Proof.
  intros Hv. unfold is_u16 in Hv.
  assert (v / 256 < 256) as Hv1 by (apply Z.div_lt_upper_bound; lia).
  assert (0 <= v / 256) as Hv0 by (apply Z.div_pos; lia).
  pose proof (Z.mod_pos_bound v 256 ltac:(lia)) as Hm. pose proof (Z.div_mod v 256 ltac:(lia)) as Hdm.
  cbn [le_bytes]. rewrite (Z.mod_small (v / 256)) by lia. cbn [app].
  unfold bits. change (16 =? 0) with false. cbv iota. cbn [refill cnt data pos buf].
  change (0 <? 16) with true. rewrite get_middle. cbv iota. cbn [cnt data pos buf].
  change (0 + 8 <? 16) with true.
  rewrite (app_assoc pre [_] (_ :: rest) : pre ++ v mod 256 :: v / 256 :: rest = _).
  replace (zlen pre + 1) with (zlen (pre ++ [v mod 256])) by (by rewrite zlen_app).
  rewrite get_middle. cbv iota. change (0 + 8 + 8 <? 16) with false. cbv iota.
  cbn [mbind outcome_bind buf data pos cnt].
  rewrite Z.lor_0_l, Z.shiftl_0_r. rewrite (as_u32_small (v mod 256)) by (unfold is_u32; lia).
  change (0 + 8) with 8.
  rewrite as_u32_small by (unfold is_u32; rewrite Z.shiftl_mul_pow2 by lia; lia).
  rewrite lor_add by lia. replace (v mod 256 + v / 256 * 2 ^ 8) with v by lia.
  rewrite land_ones_small, shiftr_small by lia. rewrite zlen_app. change (zlen [v mod 256]) with 1.
  rewrite <- app_assoc. replace (zlen pre + 1 + 1) with (zlen pre + 2) by lia. reflexivity.
Qed.

Lemma stored_go_chunk chunk limit pre rest out : bytes_ok chunk -> zlen out + zlen chunk <= limit ->
  stored_go (length chunk) limit (MkBits (pre ++ chunk ++ rest) (zlen pre) 0 0) out =
    Done (MkBits (pre ++ chunk ++ rest) (zlen (pre ++ chunk)) 0 0, out ++ chunk).
Proof.
  intros Hb. revert pre out. induction Hb as [|b chunk Hb Hc IH]; intros pre out Hl; cbn [length stored_go].
  { by rewrite !app_nil_r. }
  rewrite zlen_cons in Hl. pose proof (zlen_nonneg chunk). replace (limit <=? zlen out) with false by lia.
  rewrite <- app_comm_cons, bits_aligned8 by done. cbn [mbind outcome_bind].
  rewrite as_u8_small by done.
  replace (zlen pre + 1) with (zlen (pre ++ [b])) by (by rewrite zlen_app).
  rewrite (app_assoc pre [b] (chunk ++ rest) : pre ++ b :: chunk ++ rest = _).
  rewrite IH by (rewrite zlen_app; change (zlen [b]) with 1; lia). by rewrite <- !app_assoc.
Qed.

(** A stream of stored blocks, as a compressor writes incompressible data. *)
Definition stored_block (last : bool) (chunk : list Z) : list Z :=
  Z.b2z last :: le_bytes 2 (zlen chunk) ++ le_bytes 2 (65535 - zlen chunk) ++ chunk.

Fixpoint stored_stream (chunks : list (list Z)) : list Z :=
  match chunks with
  | [] => []
  | [c] => stored_block true c
  | c :: t => stored_block false c ++ stored_stream t
  end.

Lemma header_bits pre (last : bool) rest : exists r1 r2,
  bits 1 (MkBits (pre ++ Z.b2z last :: rest) (zlen pre) 0 0) = Done (Z.b2z last, r1) /\
  bits 2 r1 = Done (0, r2) /\
  align_byte r2 = MkBits (pre ++ Z.b2z last :: rest) (zlen pre + 1) 0 0.
Proof.
  unfold bits. change (1 =? 0) with false. cbv iota. cbn [refill cnt data pos buf].
  change (0 <? 1) with true. rewrite get_middle. cbv iota. cbn [cnt]. change (0 + 8 <? 1) with false. cbv iota.
  cbn [mbind outcome_bind buf data pos cnt].
  destruct last; (do 2 eexists; split; [reflexivity|]; split; reflexivity).
Qed.

Lemma inflate_step_stored pre last chunk rest limit out :
  bytes_ok chunk -> zlen chunk < 65536 -> zlen out + zlen chunk <= limit ->
  inflate_step limit (MkBits (pre ++ stored_block last chunk ++ rest) (zlen pre) 0 0, out) =
    Done (let r' := MkBits (pre ++ stored_block last chunk ++ rest) (zlen (pre ++ stored_block last chunk)) 0 0 in
          if last then Stop (out ++ chunk) else Next (r', out ++ chunk)).
Proof.
  intros Hb Hc Hl. pose proof (zlen_nonneg chunk). unfold inflate_step, stored_block.
  rewrite <- app_comm_cons, <- !app_assoc.
  destruct (header_bits pre last (le_bytes 2 (zlen chunk) ++ le_bytes 2 (65535 - zlen chunk) ++ chunk ++ rest))
    as (r1 & r2 & -> & H2 & Ha). cbn [mbind outcome_bind]. rewrite H2. cbn [mbind outcome_bind].
  change (0 =? 0) with true. cbv iota. rewrite Ha.
  replace (zlen pre + 1) with (zlen (pre ++ [Z.b2z last])) by (by rewrite zlen_app).
  rewrite (app_assoc pre [Z.b2z last] _ : pre ++ Z.b2z last :: _ = _).
  rewrite bits_aligned16 by (unfold is_u16; lia). cbn [mbind outcome_bind].
  assert (forall l v, zlen (l ++ le_bytes 2 v) = zlen l + 2) as Hz.
  { intros. rewrite zlen_app. unfold zlen at 2. by rewrite length_le_bytes. }
  rewrite <- Hz with (v := zlen chunk).
  rewrite (app_assoc _ (le_bytes 2 (zlen chunk))), bits_aligned16 by (unfold is_u16; lia). cbn [mbind outcome_bind].
  rewrite <- Hz with (v := 65535 - zlen chunk). rewrite (app_assoc _ (le_bytes 2 (65535 - zlen chunk))).
  assert (Z.to_nat (zlen chunk) = length chunk) as -> by (unfold zlen; lia). rewrite stored_go_chunk by done. cbn [mbind outcome_bind].
  by destruct last; rewrite <- !app_assoc.
Qed.

Lemma inflate_stored chunks : forall fuel pre limit out,
  chunks <> [] -> Forall (fun c => bytes_ok c /\ zlen c < 65536) chunks ->
  zlen out + zlen (concat chunks) <= limit -> (length chunks <= fuel)%nat ->
  loop fuel (inflate_step limit) (MkBits (pre ++ stored_stream chunks) (zlen pre) 0 0, out) = Done (out ++ concat chunks).
Proof.
  induction chunks as [|c [|c' t] IH]; intros [|fuel] pre limit out Hne Hf Hl Hfuel; try done; try (simpl in Hfuel; lia);
    inversion Hf as [|? ? [Hb Hc] Hf']; subst; cbn [loop].
  - cbn [stored_stream concat] in *. rewrite app_nil_r in *.
    rewrite <- (app_nil_r (stored_block true c)), inflate_step_stored by (done || lia). done.
  - change (stored_stream (c :: c' :: t)) with (stored_block false c ++ stored_stream (c' :: t)).
    change (concat (c :: c' :: t)) with (c ++ concat (c' :: t)) in *. rewrite zlen_app in Hl.
    pose proof (zlen_nonneg (concat (c' :: t))).
    rewrite inflate_step_stored by (done || lia). cbn [mbind outcome_bind]. cbv zeta iota.
    rewrite (app_assoc pre), IH; [by rewrite <- app_assoc|done|done|rewrite zlen_app; lia|simpl in *; lia].
Qed.

(** * Base64 *)

Definition b64_char (v : Z) : Z :=
  if v <? 26 then v + 65 else if v <? 52 then v - 26 + 97 else if v <? 62 then v - 52 + 48
  else if v =? 62 then 43 else 47.

Fixpoint base64_encode (l : list Z) : list Z :=
  match l with
  | a :: b :: c :: t =>
      b64_char (a / 4) :: b64_char (a mod 4 * 16 + b / 16) ::
      b64_char (b mod 16 * 4 + c / 64) :: b64_char (c mod 64) :: base64_encode t
  | [a; b] => [b64_char (a / 4); b64_char (a mod 4 * 16 + b / 16); b64_char (b mod 16 * 4); 61]
  | [a] => [b64_char (a / 4); b64_char (a mod 4 * 16); 61; 61]
  | [] => []
  end.

Lemma b64_val_char v : 0 <= v < 64 -> b64_val (b64_char v) = Some v /\ b64_char v <> 61 /\ is_ascii_whitespace (b64_char v) = false.
Proof.
  intros Hv. byte_facts 64%nat (fun v => bool_decide (b64_val (b64_char v) = Some v) &&
    negb (b64_char v =? 61) && negb (is_ascii_whitespace (b64_char v))) v.
  destruct H as ((H1%bool_decide_eq_true&H2)&H3). split_and!; [done|lia|done].
Qed.

Lemma base64_char_step v t acc nbits out : 0 <= v < 64 -> 0 <= acc ->
  base64_go (b64_char v :: t) acc nbits out =
    let acc := acc * 64 mod 2 ^ 32 + v in
    if 2 <=? nbits then base64_go t acc (nbits - 2) (out ++ [acc / 2 ^ (nbits - 2) mod 256])
    else base64_go t acc (nbits + 6) out.
Proof.
  intros Hv Ha. cbn [base64_go]. destruct (b64_val_char v Hv) as (-> & Hne & ->).
  replace (b64_char v =? 61) with false by lia.
  assert (Z.lor (as_u32 (Z.shiftl acc 6)) v = acc * 64 mod 2 ^ 32 + v) as ->.
  { unfold as_u32. rewrite Z.shiftl_mul_pow2 by done. change (2 ^ 6) with 64.
    replace (acc * 64 mod 2 ^ 32) with (Z.shiftl (acc mod 2 ^ 26) 6).
    - rewrite Z.lor_comm, lor_add by lia. rewrite Z.shiftl_mul_pow2 by done. lia.
    - rewrite Z.shiftl_mul_pow2 by done. change (2 ^ 6) with 64. change (2 ^ 32) with (2 ^ 26 * 64).
      by rewrite Z.mul_mod_distr_r. }
  cbv zeta. destruct (Z.leb_spec 2 nbits).
  - replace (8 <=? nbits + 6) with true by lia. replace (nbits + 6 - 8) with (nbits - 2) by lia.
    unfold as_u8. by rewrite Z.shiftr_div_pow2 by lia.
  - by replace (8 <=? nbits + 6) with false by lia.
Qed.

Lemma base64_group a b c t acc out : is_u8 a -> is_u8 b -> is_u8 c -> 0 <= acc -> exists acc', 0 <= acc' /\
  base64_go (b64_char (a / 4) :: b64_char (a mod 4 * 16 + b / 16) ::
      b64_char (b mod 16 * 4 + c / 64) :: b64_char (c mod 64) :: t) acc 0 out =
  base64_go t acc' 0 (out ++ [a; b; c]).
Proof.
  unfold is_u8. intros Ha Hb Hc Hacc. eexists. split; cycle 1.
  - rewrite base64_char_step by dlia. cbv zeta. cbn [Z.leb Z.compare Z.add].
    rewrite base64_char_step by dlia. cbv zeta. change (2 <=? 6) with true. cbv iota.
    rewrite base64_char_step by dlia. cbv zeta. change (2 <=? 6 - 2) with true. cbv iota.
    rewrite base64_char_step by dlia. cbv zeta. change (2 <=? 6 - 2 - 2) with true. cbv iota.
    change (6 - 2) with 4. change (4 - 2) with 2. change (2 - 2) with 0. rewrite <- !app_assoc. cbn [app].
    f_equal. do 2 f_equal; [dlia|]. f_equal; [dlia|]. f_equal. dlia.
  - dlia.
Qed.

Lemma base64_go_encode l acc out : bytes_ok l -> 0 <= acc ->
  base64_go (base64_encode l) acc 0 out = Some (out ++ l).
Proof.
  revert acc out. induction l as [l IH] using (induction_ltof1 _ length). unfold ltof in IH.
  intros acc out Hl Ha. destruct l as [|a [|b [|c t]]].
  - simpl. by rewrite app_nil_r.
  - inversion Hl as [|? ? H1 _]; subst. unfold is_u8 in *. cbn [base64_encode].
    rewrite base64_char_step by dlia. cbv zeta. cbn [Z.leb Z.compare Z.add].
    rewrite base64_char_step by dlia. cbv zeta. change (2 <=? 6) with true. cbv iota.
    cbn [base64_go]. change (61 =? 61) with true. cbv iota. change (6 - 2) with 4. do 3 f_equal. dlia.
  - inversion Hl as [|? ? H1 Hl']; subst. inversion Hl' as [|? ? H2 _]; subst. unfold is_u8 in *. cbn [base64_encode].
    rewrite base64_char_step by dlia. cbv zeta. cbn [Z.leb Z.compare Z.add].
    rewrite base64_char_step by dlia. cbv zeta. change (2 <=? 6) with true. cbv iota.
    rewrite base64_char_step by dlia. cbv zeta. change (2 <=? 6 - 2) with true. cbv iota.
    cbn [base64_go]. change (61 =? 61) with true. cbv iota. change (6 - 2) with 4. change (4 - 2) with 2.
    rewrite <- app_assoc. cbn [app]. do 3 f_equal; [dlia|]. f_equal. dlia.
  - inversion Hl as [|? ? H1 Hl1]; subst. inversion Hl1 as [|? ? H2 Hl2]; subst. inversion Hl2 as [|? ? H3 Hl3]; subst.
    cbn [base64_encode]. destruct (base64_group a b c (base64_encode t) acc out) as (acc' & Ha' & ->); try done.
    rewrite IH by (done || (simpl; lia)). by rewrite <- app_assoc.
Qed.

(** What the decoder returns is bytes, whatever it was given. *)
Lemma base64_go_bytes s acc nbits out l : bytes_ok out -> base64_go s acc nbits out = Some l -> bytes_ok l.
Proof.
  revert acc nbits out. induction s as [|c s IH]; intros acc nbits out Ho H; cbn [base64_go] in H; [by simplify_eq|].
  destruct (c =? 61); [by simplify_eq|]. destruct (is_ascii_whitespace c); [by eapply IH|].
  destruct (b64_val c) as [v|]; [|done]. destruct (8 <=? nbits + 6); [|by eapply IH].
  eapply IH; [|exact H]. apply Forall_app. split; [done|]. constructor; [apply as_u8_range|done].
Qed.

Lemma wp_zlib d limit : bytes_ok d -> 0 <= limit ->
  wp (zlib_decompress d limit) (fun out => bytes_ok out /\ zlen out <= limit) True.
Proof.
  intros Hd Hl. unfold zlib_decompress. destruct (Z.ltb_spec (zlen d) 2); [done|].
  apply wp_bind, wp_idx; [done|lia|]. intros cmf _ _. apply wp_bind, wp_idx; [done|lia|]. intros flg _ _.
  destruct (_ || _); [done|]. destruct (negb _); [done|].
  destruct (slice_from d 2) as [rest|] eqn:E.
  2: { exfalso. unfold slice_from in E. destruct (_ && _) eqn:E2; [done|]. lia. }
  apply slice_from_Some in E as [_ ->]. cbn [or_panic mbind outcome_bind]. apply wp_inflate; [by apply Forall_drop|done].
Qed.

Lemma wp_decode_image b64 limit : 0 <= limit ->
  wp (decode_compressed_image b64 limit) (fun out => bytes_ok out /\ zlen out <= limit) True.
Proof.
  intros Hl. unfold decode_compressed_image, base64_decode. destruct (base64_go _ _ _ _) as [raw|] eqn:E; [|done].
  cbn [of_option mbind outcome_bind]. apply wp_zlib; [|done]. eapply base64_go_bytes; [|exact E]. constructor.
Qed.

(** * Claims *)

(** Base64 round trip.  Decoding the padded standard encoding of any
    byte string gives the byte string back. *)
Theorem base64_roundtrip l : bytes_ok l -> base64_decode (base64_encode l) = Some l.
Proof. intros Hl. unfold base64_decode. by rewrite base64_go_encode. Qed.

Lemma base64_roundtrip_witness :
  bytes_ok [102; 111; 111; 98; 97] /\ base64_encode [102; 111; 111; 98; 97] = bs "Zm9vYmE=" /\
  base64_decode (base64_encode [102; 111; 111; 98; 97]) = Some [102; 111; 111; 98; 97].
Proof.
  assert (bytes_ok [102; 111; 111; 98; 97]) as H by (repeat constructor; unfold is_u8; lia).
  split_and!; [exact H|vm_compute; reflexivity|exact (base64_roundtrip _ H)].
Defined.

(** The bit reader is a bit stream.  Reading [n] <= 16 bits returns the
    next [n] bits of the input, least significant first, advances by exactly
    [n], and fails exactly when fewer than [n] bits remain. *)
Theorem bits_delivers_stream n r : reader_ok r -> 0 <= n <= 16 ->
  match bits n r with
  | Done (v, r') => reader_ok r' /\ data r' = data r /\ n <= bits_left r /\ bits_left r' = bits_left r - n /\
      v = stream_val r mod 2 ^ n /\ stream_val r' = stream_val r / 2 ^ n
  | Fail => bits_left r < n
  | _ => False
  end.
Proof. apply bits_spec. Qed.

Lemma bits_delivers_stream_witness :
  reader_ok (new_reader [0xb5; 0x0f]) /\
  match bits 11 (new_reader [0xb5; 0x0f]) with
  | Done (v, r') => reader_ok r' /\ data r' = [0xb5; 0x0f] /\ 11 <= 16 /\ bits_left r' = 16 - 11 /\
      v = stream_val (new_reader [0xb5; 0x0f]) mod 2 ^ 11 /\ stream_val r' = stream_val (new_reader [0xb5; 0x0f]) / 2 ^ 11
  | Fail => 16 < 11
  | _ => False
  end.
Proof.
  assert (reader_ok (new_reader [0xb5; 0x0f])) as H.
  { apply new_reader_ok. repeat constructor; unfold is_u8; lia. }
  split; [exact H|]. exact (bits_delivers_stream 11 _ H ltac:(lia)).
Defined.

(** Decompression is total and bounded.  For every byte string
    (however corrupt the Huffman tables, distances or lengths it describes) and
    every limit, decompressing it ends with [None] or with at most [limit]
    output bytes, never with an out-of-range index or an endless loop. *)
Theorem inflate_total d limit : bytes_ok d -> 0 <= limit ->
  wp (zlib_decompress d limit) (fun out => bytes_ok out /\ zlen out <= limit) True.
Proof. apply wp_zlib. Qed.

Lemma inflate_total_witness :
  bytes_ok [0x78; 0x9c; 0xed; 0xff; 0xff; 0xff; 0xff] /\
  wp (zlib_decompress [0x78; 0x9c; 0xed; 0xff; 0xff; 0xff; 0xff] 100) (fun out => bytes_ok out /\ zlen out <= 100) True.
Proof.
  assert (bytes_ok [0x78; 0x9c; 0xed; 0xff; 0xff; 0xff; 0xff]) as H by (repeat constructor; unfold is_u8; lia).
  split; [exact H|]. exact (inflate_total _ 100 H ltac:(lia)).
Defined.

(** Stored blocks.  A stream of stored blocks, each shorter than
    64 KiB, decompresses to the concatenation of their contents whenever that
    fits the limit. *)
Theorem inflate_stored_stream chunks limit :
  chunks <> [] -> Forall (fun c => bytes_ok c /\ zlen c < 65536) chunks -> zlen (concat chunks) <= limit ->
  inflate (stored_stream chunks) limit = Done (concat chunks).
Proof.
  intros Hne Hf Hl. unfold inflate, new_reader.
  apply (inflate_stored chunks _ [] limit []); [done|done|done|].
  assert (length chunks <= length (stored_stream chunks))%nat; [|lia].
  clear. induction chunks as [|c [|c' t] IH]; [done|simpl; lia|].
  change (stored_stream (c :: c' :: t)) with (stored_block false c ++ stored_stream (c' :: t)).
  rewrite length_app. unfold stored_block. simpl in *. lia.
Qed.

Lemma inflate_stored_stream_witness :
  Forall (fun c => bytes_ok c /\ zlen c < 65536) [[104; 101]; []; [108]] /\
  inflate (stored_stream [[104; 101]; []; [108]]) 3 = Done [104; 101; 108].
Proof.
  assert (Forall (fun c => bytes_ok c /\ zlen c < 65536) [[104; 101]; []; [108]]) as H.
  { repeat constructor; unfold is_u8; lia || (vm_compute; done). }
  split; [exact H|]. apply (inflate_stored_stream [[104; 101]; []; [108]] 3 ltac:(done) H). vm_compute. done.
Defined.
