(* ===== verification/SysDecode.v ===== *)
(** syscall/decode.rs: the strace-format renderer, one function per formatter.

    The values libc gives the flag constants and the read of the traced
    process's memory ([process_vm_readv]) are parameters.  Shown: every syscall,
    whatever the target's memory holds, renders as exactly one line of printable
    ASCII; the flag printers lose no bit. *)
From S2P Require Import Prelude Text Syscalls.

(** The libc constants the formatters test. *)
Record Libc : Type := MkLibc
  { O_CREAT : Z; O_EXCL : Z; O_TRUNC : Z; O_APPEND : Z; O_NONBLOCK : Z; O_CLOEXEC : Z;
    O_DIRECTORY : Z; O_LARGEFILE : Z;
    MAP_PRIVATE : Z; MAP_SHARED : Z; MAP_ANONYMOUS : Z; MAP_FIXED : Z; MAP_POPULATE : Z;
    AF_UNIX : Z; AF_INET : Z; AF_INET6 : Z; AF_NETLINK : Z; AF_PACKET : Z;
    SOCK_STREAM : Z; SOCK_DGRAM : Z; SOCK_RAW : Z; SOCK_SEQPACKET : Z; SOCK_NONBLOCK : Z; SOCK_CLOEXEC : Z }.

(** An observed syscall. *)
Record Syscall : Type := MkSyscall { nr : Z; args : list Z; ret : Z }.

(** [{}] and [{:x}] of an [i64], [{:04o}], [\x{:02x}]. *)
Definition fmt_i64 (v : Z) : list Z := if v <? 0 then 45 :: fmt_dec (- v) else fmt_dec v.
Definition fmt_x (v : Z) : list Z := bs "0x" ++ fmt_hex (as_u64 v).
Definition pad0 (w : nat) (s : list Z) : list Z := replicate (w - length s) 48 ++ s.
Definition fmt_04o (v : Z) : list Z := pad0 4 (fmt_digits 64 8 (as_u64 v) []).
Definition fmt_byte_escape (c : Z) : list Z := bs "\x" ++ pad0 2 (fmt_hex c).

Section Decode.
Context (arch : Arch) (L : Libc) (vm_readv : Z -> Z -> option (list Z)).

(** [read_str]: the bytes up to the first NUL. *)
Definition read_str (addr size : Z) : option (list Z) :=
  if (addr =? 0) || (0x0000ffffffffffff <? addr) then None
  else match vm_readv addr size with
       | None => None
       | Some buf =>
           let got := take (Z.to_nat size) buf in
           Some (match position (fun b => b =? 0) got with
                 | Some e => take (Z.to_nat e) got
                 | None => got
                 end)
       end.

Definition print_char (c : Z) : list Z :=
  if (32 <=? c) && (c <? 127) then [c] else fmt_byte_escape c.

Definition print_addr (addr : Z) : list Z := if addr =? 0 then bs "NULL" else fmt_x addr.

Definition print_str (addr : Z) : list Z :=
  match read_str addr 256 with
  | Some (c :: t) => [34] ++ concat (print_char <$> take 64 (c :: t)) ++ [34]
  | _ => print_addr addr
  end.

(** The loop [for (bit, name) in table { if flags & bit != 0 { write |name; flags &= !bit } }];
    [sep] tells whether a separator precedes the next name. *)
Fixpoint print_bits (tbl : list (Z * string)) (sep : bool) (flags : Z) : list Z * bool * Z :=
  match tbl with
  | [] => ([], sep, flags)
  | (bit, name) :: t =>
      if negb (Z.land flags bit =? 0) then
        let '(s, sep', rest) := print_bits t true (Z.land flags (Z.lnot bit)) in
        ((if sep then [124] else []) ++ bs name ++ s, sep', rest)
      else print_bits t sep flags
  end.

(** A residue no name covers. *)
Definition print_rest (rest : Z) : list Z := if rest =? 0 then [] else 124 :: fmt_x rest.

Definition open_table : list (Z * string) :=
  [(O_CREAT L, "O_CREAT"); (O_EXCL L, "O_EXCL"); (O_TRUNC L, "O_TRUNC"); (O_APPEND L, "O_APPEND");
   (O_NONBLOCK L, "O_NONBLOCK"); (O_CLOEXEC L, "O_CLOEXEC"); (O_DIRECTORY L, "O_DIRECTORY");
   (O_LARGEFILE L, "O_LARGEFILE")]%string.

Definition print_open_flags (flags : Z) : list Z :=
  let mode := Z.land flags 3 in
  let m := if mode =? 0 then bs "O_RDONLY" else if mode =? 1 then bs "O_WRONLY" else bs "O_RDWR" in
  let '(s, _, rest) := print_bits open_table true (Z.land flags (Z.lnot 3)) in
  m ++ s ++ print_rest rest.

Definition prot_table : list (Z * string) := [(1, "PROT_READ"); (2, "PROT_WRITE"); (4, "PROT_EXEC")]%string.

Definition print_mmap_prot (prot : Z) : list Z :=
  if prot =? 0 then bs "PROT_NONE" else
  let '(s, _, rest) := print_bits prot_table false prot in s ++ print_rest rest.

Definition map_table : list (Z * string) :=
  [(MAP_ANONYMOUS L, "MAP_ANONYMOUS"); (MAP_FIXED L, "MAP_FIXED"); (MAP_POPULATE L, "MAP_POPULATE")]%string.

Definition print_mmap_flags (flags : Z) : list Z :=
  let head := if negb (Z.land flags (MAP_PRIVATE L) =? 0) then bs "MAP_PRIVATE"
              else if negb (Z.land flags (MAP_SHARED L) =? 0) then bs "MAP_SHARED"
              else fmt_x (Z.land flags 0xf) in
  let '(s, _, rest) := print_bits map_table true (Z.land flags (Z.lnot 0xf)) in
  head ++ s ++ print_rest rest.

Definition print_socket_domain (d : Z) : list Z :=
  if d =? AF_UNIX L then bs "AF_UNIX"
  else if d =? AF_INET L then bs "AF_INET"
  else if d =? AF_INET6 L then bs "AF_INET6"
  else if d =? AF_NETLINK L then bs "AF_NETLINK"
  else if d =? AF_PACKET L then bs "AF_PACKET"
  else fmt_i64 d.

Definition print_socket_type (ty : Z) : list Z :=
  let base := Z.land ty 0xf in
  (if base =? SOCK_STREAM L then bs "SOCK_STREAM"
   else if base =? SOCK_DGRAM L then bs "SOCK_DGRAM"
   else if base =? SOCK_RAW L then bs "SOCK_RAW"
   else if base =? SOCK_SEQPACKET L then bs "SOCK_SEQPACKET"
   else fmt_i64 base) ++
  (if Z.land ty (SOCK_NONBLOCK L) =? 0 then [] else bs "|SOCK_NONBLOCK") ++
  (if Z.land ty (SOCK_CLOEXEC L) =? 0 then [] else bs "|SOCK_CLOEXEC").

Definition is_at_fdcwd (v : Z) : bool :=
  (v =? -100) || (as_u64 v =? 0xffffff9c) || (as_u64 v =? 0xffffffffffffff9c).

(** [a[i]] of the six-argument array. *)
Definition arg (a : list Z) (i : nat) : Z := default 0 (a !! i).

(** The [) = ret] tail and its newline. *)
Definition tail_ret (r : Z) : list Z := bs ") = " ++ fmt_i64 r ++ [10].
Definition tail_hex (r : Z) : list Z := bs ") = " ++ fmt_x r ++ [10].

Definition fmt_openat (a : list Z) (ret : Z) : list Z :=
  (if is_at_fdcwd (arg a 0) then bs "openat(AT_FDCWD, " else bs "openat(" ++ fmt_i64 (arg a 0) ++ bs ", ") ++
  print_str (as_u64 (arg a 1)) ++ bs ", " ++ print_open_flags (arg a 2) ++
  (if Z.land (arg a 2) (O_CREAT L) =? 0 then [] else bs ", " ++ fmt_04o (arg a 3)) ++ tail_ret ret.

Definition fmt_open (a : list Z) (ret : Z) : list Z :=
  bs "open(" ++ print_str (as_u64 (arg a 0)) ++ bs ", " ++ print_open_flags (arg a 1) ++
  (if Z.land (arg a 1) (O_CREAT L) =? 0 then [] else bs ", " ++ fmt_04o (arg a 2)) ++ tail_ret ret.

Definition fmt_rw (name : string) (a : list Z) (ret : Z) : list Z :=
  bs name ++ bs "(" ++ fmt_i64 (arg a 0) ++ bs ", " ++ fmt_x (arg a 1) ++ bs ", " ++
  fmt_dec (as_u64 (arg a 2)) ++ tail_ret ret.
Definition fmt_read := fmt_rw "read".
Definition fmt_write := fmt_rw "write".

Definition fmt_close (a : list Z) (ret : Z) : list Z := bs "close(" ++ fmt_i64 (arg a 0) ++ tail_ret ret.

Definition fmt_mmap (a : list Z) (ret : Z) : list Z :=
  bs "mmap(" ++ (if arg a 0 =? 0 then bs "NULL" else fmt_x (arg a 0)) ++ bs ", " ++
  fmt_dec (as_u64 (arg a 1)) ++ bs ", " ++ print_mmap_prot (arg a 2) ++ bs ", " ++
  print_mmap_flags (arg a 3) ++ bs ", " ++ fmt_i64 (arg a 4) ++ bs ", " ++ fmt_i64 (arg a 5) ++ tail_hex ret.

Definition fmt_mprotect (a : list Z) (ret : Z) : list Z :=
  bs "mprotect(" ++ fmt_x (arg a 0) ++ bs ", " ++ fmt_dec (as_u64 (arg a 1)) ++ bs ", " ++
  print_mmap_prot (arg a 2) ++ tail_ret ret.

Definition fmt_socket (a : list Z) (ret : Z) : list Z :=
  bs "socket(" ++ print_socket_domain (arg a 0) ++ bs ", " ++ print_socket_type (arg a 1) ++ bs ", " ++
  fmt_i64 (arg a 2) ++ tail_ret ret.

Definition fmt_connect := fmt_rw "connect".

Definition fmt_execve (a : list Z) (ret : Z) : list Z :=
  bs "execve(" ++ print_str (as_u64 (arg a 0)) ++ bs ", " ++ fmt_x (arg a 1) ++ bs ", " ++
  fmt_x (arg a 2) ++ tail_ret ret.

Definition access_table : list (Z * string) := [(4, "R_OK"); (2, "W_OK"); (1, "X_OK")]%string.

(** Bits beyond the three named ones are dropped here. *)
Definition fmt_access (a : list Z) (ret : Z) : list Z :=
  bs "access(" ++ print_str (as_u64 (arg a 0)) ++ bs ", " ++
  (if arg a 1 =? 0 then bs "F_OK" else fst (fst (print_bits access_table false (arg a 1)))) ++ tail_ret ret.

Definition fmt_brk (a : list Z) (ret : Z) : list Z :=
  (if arg a 0 =? 0 then bs "brk(NULL" else bs "brk(" ++ fmt_x (arg a 0)) ++ tail_hex ret.

Definition fmt_generic (nr : Z) (a : list Z) (ret : Z) : list Z :=
  (match syscall_name arch nr with
   | Some name => name ++ bs "("
   | None => bs "syscall_" ++ fmt_i64 nr ++ bs "("
   end) ++
  concat (imap (fun i v => (if decide (i = 0%nat) then [] else bs ", ") ++
                           (if v =? 0 then bs "0" else fmt_x v)) a) ++ tail_ret ret.

(** [decode_syscall]: the x86_64 and the aarch64 dispatch. *)
Definition decode_syscall (sc : Syscall) : list Z :=
  let n := nr sc in let a := args sc in let r := ret sc in
  match arch with
  | X86_64 =>
      if n =? 0 then fmt_read a r else if n =? 1 then fmt_write a r else if n =? 2 then fmt_open a r
      else if n =? 3 then fmt_close a r else if n =? 9 then fmt_mmap a r else if n =? 10 then fmt_mprotect a r
      else if n =? 12 then fmt_brk a r else if n =? 21 then fmt_access a r else if n =? 41 then fmt_socket a r
      else if n =? 42 then fmt_connect a r else if n =? 59 then fmt_execve a r
      else if n =? 257 then fmt_openat a r else fmt_generic n a r
  | Aarch64 =>
      if n =? 63 then fmt_read a r else if n =? 64 then fmt_write a r else if n =? 56 then fmt_openat a r
      else if n =? 57 then fmt_close a r else if n =? 222 then fmt_mmap a r else if n =? 226 then fmt_mprotect a r
      else if n =? 214 then fmt_brk a r else if n =? 198 then fmt_socket a r
      else if n =? 203 then fmt_connect a r else if n =? 221 then fmt_execve a r else fmt_generic n a r
  end.

End Decode.

(** * Every rendering is one printable line *)

Definition printable (s : list Z) : Prop := Forall (fun c => 32 <= c < 127) s.

Create HintDb pr discriminated.
#[export] Hint Constants Opaque : pr.

Lemma pr_bs s : forallb (fun c => (32 <=? c) && (c <? 127)) (bs s) = true -> printable (bs s).
Proof. rewrite forallb_forall. intros H. apply Forall_forall. intros c Hc%list_elem_of_In. specialize (H c Hc). lia. Qed.
Lemma pr_app a b : printable a -> printable b -> printable (a ++ b).
Proof. intros. by apply Forall_app. Qed.
Lemma pr_nil : printable [].
Proof. constructor. Qed.
Lemma pr_cons c s : 32 <= c < 127 -> printable s -> printable (c :: s).
Proof. by constructor. Qed.

Lemma pr_digits fuel radix n tail : 2 <= radix <= 36 -> printable tail -> printable (fmt_digits fuel radix n tail).
Proof.
  intros Hr. revert n tail. induction fuel as [|fuel IH]; intros n tail Ht; [done|]. cbn [fmt_digits].
  assert (printable (digit_char (n mod radix) :: tail)).
  { apply pr_cons; [|done]. pose proof (Z.mod_pos_bound n radix). unfold digit_char. zbool; lia. }
  destruct (_ =? 0); [done|by apply IH].
Qed.
Lemma pr_dec n : printable (fmt_dec n).
Proof. apply pr_digits; [lia|apply pr_nil]. Qed.
Lemma pr_hex n : printable (fmt_hex n).
Proof. apply pr_digits; [lia|apply pr_nil]. Qed.
Lemma pr_x n : printable (fmt_x n).
Proof. apply pr_app; [by apply pr_bs|apply pr_hex]. Qed.
Lemma pr_i64 n : printable (fmt_i64 n).
Proof. unfold fmt_i64. destruct (_ <? _); [apply pr_cons; [lia|]|]; apply pr_dec. Qed.
Lemma pr_pad0 w s : printable s -> printable (pad0 w s).
Proof. intros. apply pr_app; [|done]. apply Forall_replicate. lia. Qed.
Lemma pr_04o n : printable (fmt_04o n).
Proof. apply pr_pad0, pr_digits; [lia|apply pr_nil]. Qed.
#[export] Hint Resolve pr_nil pr_dec pr_hex pr_x pr_i64 pr_04o : pr.
#[export] Hint Extern 1 (printable (bs _)) => (apply pr_bs; vm_compute; reflexivity) : pr.
#[export] Hint Extern 1 (printable (_ ++ _)) => apply pr_app : pr.
#[export] Hint Extern 1 (printable (_ :: _)) => (apply pr_cons; [lia|]) : pr.
#[export] Hint Extern 2 (printable (if _ then _ else _)) => case_match : pr.

Lemma pr_char c : printable (print_char c).
Proof.
  unfold print_char. destruct (_ && _) eqn:E; [apply pr_cons; [lia|apply pr_nil]|].
  apply pr_app; [by apply pr_bs|apply pr_pad0, pr_hex].
Qed.

Lemma pr_addr a : printable (print_addr a).
Proof. unfold print_addr. auto with pr. Qed.

Lemma pr_str mem a : printable (print_str mem a).
Proof.
  unfold print_str. destruct (read_str _ _ _) as [[|c t]|]; try apply pr_addr.
  apply pr_cons; [lia|]. apply pr_app; [|apply pr_cons; [lia|apply pr_nil]].
  apply Forall_concat, Forall_fmap, Forall_forall. intros x _. apply pr_char.
Qed.

Definition names_ok (tbl : list (Z * string)) : Prop := Forall (fun e => printable (bs (snd e))) tbl.

Lemma pr_bits tbl sep flags : names_ok tbl -> printable (fst (fst (print_bits tbl sep flags))).
Proof.
  intros Ht. revert sep flags. induction Ht as [|[bit name] t Hn _ IH]; intros sep flags; cbn [print_bits]; [apply pr_nil|].
  destruct (negb _); [|apply IH]. specialize (IH true (Z.land flags (Z.lnot bit))).
  destruct (print_bits t true _) as [[s p] r]. cbn [fst snd] in *. apply pr_app; [destruct sep; auto with pr|by apply pr_app].
Qed.

Lemma pr_rest r : printable (print_rest r).
Proof. unfold print_rest. auto with pr. Qed.

Ltac names := repeat (apply Forall_cons; split; [apply pr_bs; vm_compute; reflexivity|]); apply Forall_nil; exact I.

Lemma pr_open_flags L f : printable (print_open_flags L f).
Proof.
  unfold print_open_flags. pose proof (pr_bits (open_table L) true (Z.land f (Z.lnot 3)) ltac:(names)) as H.
  destruct (print_bits _ _ _) as [[s p] r]. cbn [fst snd] in H. apply pr_app; [auto with pr|]. apply pr_app; [done|apply pr_rest].
Qed.

Lemma pr_mmap_prot f : printable (print_mmap_prot f).
Proof.
  unfold print_mmap_prot. destruct (f =? 0); [auto with pr|].
  pose proof (pr_bits prot_table false f ltac:(names)) as H.
  destruct (print_bits _ _ _) as [[s p] r]. cbn [fst snd] in H. apply pr_app; [done|apply pr_rest].
Qed.

Lemma pr_mmap_flags L f : printable (print_mmap_flags L f).
Proof.
  unfold print_mmap_flags. pose proof (pr_bits (map_table L) true (Z.land f (Z.lnot 0xf)) ltac:(names)) as H.
  destruct (print_bits _ _ _) as [[s p] r]. cbn [fst snd] in H. apply pr_app; [auto with pr|]. apply pr_app; [done|apply pr_rest].
Qed.

Lemma pr_domain L d : printable (print_socket_domain L d).
Proof. unfold print_socket_domain. repeat (destruct (_ =? _); [auto with pr|]). auto with pr. Qed.

Lemma pr_type L t : printable (print_socket_type L t).
Proof.
  unfold print_socket_type. apply pr_app; [|apply pr_app; destruct (_ =? 0); auto with pr].
  repeat (destruct (_ =? _); [auto with pr|]). auto with pr.
Qed.

Lemma pr_name arch n s : syscall_name arch n = Some s -> printable s.
Proof.
  unfold syscall_name. intros (r & Hr & ->)%fmap_Some. apply lookup_nr_elem in Hr. apply pr_bs.
  assert (forallb (fun e => forallb (fun c => (32 <=? c) && (c <? 127)) (bs (snd e))) (arch_table arch) = true) as H
    by (destruct arch; vm_compute; reflexivity).
  rewrite forallb_forall in H. by apply list_elem_of_In, H in Hr.
Qed.
#[export] Hint Resolve pr_str pr_open_flags pr_mmap_prot pr_mmap_flags pr_domain pr_type : pr.

(** One line: printable text closed by its only newline. *)
Definition one_line (s : list Z) : Prop := exists body, s = body ++ [10] /\ printable body.

Lemma line_ret s r : printable s -> one_line (s ++ tail_ret r).
Proof. intros H. exists (s ++ bs ") = " ++ fmt_i64 r). split; [by rewrite <- !app_assoc|]. auto with pr. Qed.
Lemma line_hex s r : printable s -> one_line (s ++ tail_hex r).
Proof. intros H. exists (s ++ bs ") = " ++ fmt_x r). split; [by rewrite <- !app_assoc|]. auto with pr. Qed.

Ltac line := rewrite ?app_assoc; first [apply line_ret|apply line_hex]; rewrite <- ?app_assoc;
  repeat match goal with |- printable (_ ++ _) => apply pr_app end; auto with pr.

Lemma line_rw name a r : printable (bs name) -> one_line (fmt_rw name a r).
Proof. intros. unfold fmt_rw. line. Qed.

(** One line per syscall.  Whatever the syscall, its arguments, the
    constants of libc and the bytes found in the traced process, the rendering
    is printable ASCII ended by its only newline, so a hostile string in the
    target cannot forge a trace line. *)
Theorem decode_syscall_one_line arch L mem sc : one_line (decode_syscall arch L mem sc).
Proof.
  assert (forall a r, one_line (fmt_openat L mem a r)) as H1.
  { intros. unfold fmt_openat. line. }
  assert (forall a r, one_line (fmt_open L mem a r)) as H2 by (intros; unfold fmt_open; line).
  assert (forall a r, one_line (fmt_close a r)) as H3 by (intros; unfold fmt_close; line).
  assert (forall a r, one_line (fmt_mmap L a r)) as H4 by (intros; unfold fmt_mmap; line).
  assert (forall a r, one_line (fmt_mprotect a r)) as H5 by (intros; unfold fmt_mprotect; line).
  assert (forall a r, one_line (fmt_socket L a r)) as H6 by (intros; unfold fmt_socket; line).
  assert (forall a r, one_line (fmt_execve mem a r)) as H7 by (intros; unfold fmt_execve; line).
  assert (forall a r, one_line (fmt_brk a r)) as H8 by (intros; unfold fmt_brk; line).
  assert (forall a r, one_line (fmt_access mem a r)) as H9.
  { intros. unfold fmt_access. rewrite ?app_assoc. apply line_ret. rewrite <- ?app_assoc.
    repeat match goal with |- printable (_ ++ _) => apply pr_app end; auto with pr. destruct (_ =? 0); [auto with pr|]. apply pr_bits. names. }
  assert (forall n a r, one_line (fmt_generic arch n a r)) as H10.
  { intros. unfold fmt_generic. rewrite ?app_assoc. apply line_ret. apply pr_app.
    - destruct (syscall_name arch n) eqn:E; [apply pr_app; [by eapply pr_name|auto with pr]|auto with pr].
    - apply Forall_concat. apply Forall_forall. intros x Hx. apply elem_of_lookup_imap in Hx as (i & y & -> & _).
      apply pr_app; [destruct (decide _); auto with pr|auto with pr]. }
  unfold decode_syscall, fmt_read, fmt_write, fmt_connect.
  destruct arch; repeat (destruct (_ =? _); [solve [auto|apply line_rw; auto with pr]|]); auto.
Qed.

(** * The open flags are printed without loss *)

Definition lor_all (l : list (Z * string)) : Z := foldr (fun e acc => Z.lor (fst e) acc) 0 l.

(** Every table entry is a single bit, or zero where libc defines the flag away. *)
Definition single_bits (tbl : list (Z * string)) : Prop :=
  Forall (fun e => fst e = 0 \/ exists k, 0 <= k /\ fst e = 2 ^ k) tbl.

Lemma land_single flags b : (b = 0 \/ exists k, 0 <= k /\ b = 2 ^ k) ->
  Z.land flags b = 0 \/ Z.land flags b = b.
Proof.
  intros [->|(k & Hk & ->)]; [left; apply Z.land_0_r|].
  destruct (Z.testbit flags k) eqn:E; [right|left]; apply Z.bits_inj'; intros i Hi;
    rewrite Z.land_spec, ?Z.bits_0, Z.pow2_bits_eqb by done; destruct (Z.eqb_spec k i) as [<-|];
    by rewrite ?E, ?andb_true_r, ?andb_false_r.
Qed.

Lemma split_bit flags b : Z.land flags b = b -> flags = Z.lor b (Z.land flags (Z.lnot b)).
Proof.
  intros H. apply Z.bits_inj'. intros i Hi. apply (f_equal (fun z => Z.testbit z i)) in H.
  rewrite Z.land_spec in H. rewrite Z.lor_spec, Z.land_spec, Z.lnot_spec by done.
  by destruct (Z.testbit flags i), (Z.testbit b i).
Qed.

Lemma print_bits_spec tbl flags : single_bits tbl ->
  let '(s, _, rest) := print_bits tbl true flags in
  exists named, named `sublist_of` tbl /\
    s = concat ((fun e => 124 :: bs (snd e)) <$> named) /\
    Forall (fun e => Z.land flags (fst e) <> 0) named /\
    flags = Z.lor (lor_all named) rest /\
    (forall k, Z.testbit rest k = true -> Z.testbit flags k = true) /\
    Forall (fun e => Z.land rest (fst e) = 0) tbl.
Proof.
  intros Ht. revert flags. induction Ht as [|[b name] t Hb _ IH]; intros flags; cbn [print_bits fst snd] in *.
  { exists []. split_and!; try done. }
  destruct (land_single flags b Hb) as [H0|H0].
  - rewrite H0. cbn [negb Z.eqb]. specialize (IH flags). destruct (print_bits t true flags) as [[s p] r].
    destruct IH as (nm & Hs & -> & Hn & Hf & Hsub & Hr). exists nm. split_and!; try done; [by apply sublist_cons|].
    constructor; [|done]. cbn. apply Z.bits_inj'. intros i Hi. rewrite Z.land_spec, Z.bits_0.
    apply (f_equal (fun z => Z.testbit z i)) in H0. rewrite Z.land_spec, Z.bits_0 in H0.
    specialize (Hsub i). destruct (Z.testbit r i); [|done]. by rewrite Hsub in H0.
  - destruct (Z.eqb_spec (Z.land flags b) 0) as [Hz|Hz]; cbn [negb].
    + assert (b = 0) as -> by congruence. specialize (IH flags). destruct (print_bits t true flags) as [[s p] r].
      destruct IH as (nm & Hs & -> & Hn & Hf & Hsub & Hr). exists nm. split_and!; try done; [by apply sublist_cons|].
      constructor; [apply Z.land_0_r|done].
    + specialize (IH (Z.land flags (Z.lnot b))). destruct (print_bits t true _) as [[s p] r].
      destruct IH as (nm & Hs & -> & Hn & Hf & Hsub & Hr). exists ((b, name) :: nm). split_and!.
      * by apply sublist_skip.
      * done.
      * constructor; [done|]. eapply Forall_impl; [exact Hn|]. intros e He Hz'. apply He.
        by rewrite <- Z.land_assoc, (Z.land_comm (Z.lnot b)), Z.land_assoc, Hz'.
      * cbn [lor_all foldr fst]. fold (lor_all nm). rewrite <- Z.lor_assoc, <- Hf. by apply split_bit.
      * intros k Hk. apply Hsub in Hk. rewrite Z.land_spec in Hk. by apply andb_prop in Hk as [? _].
      * constructor; [|done]. cbn. apply Z.bits_inj'. intros i Hi. rewrite Z.land_spec, Z.bits_0.
        specialize (Hsub i). rewrite Z.land_spec, Z.lnot_spec in Hsub by done.
        destruct (Z.testbit r i); [|done]. specialize (Hsub eq_refl). apply andb_prop in Hsub as [_ Hsub].
        by destruct (Z.testbit b i).
Qed.

(** No flag is lost or invented.  For libc constants that are single
    bits, the rendering of an [open] flag word is an access mode, then the names
    of exactly the table bits set in it, then the remaining bits in hexadecimal;
    the access mode, the named bits and the remainder put together are the word. *)
Theorem open_flags_lossless L flags : single_bits (open_table L) ->
  exists named rest,
    print_open_flags L flags =
      (if Z.land flags 3 =? 0 then bs "O_RDONLY" else if Z.land flags 3 =? 1 then bs "O_WRONLY" else bs "O_RDWR") ++
      concat ((fun e => 124 :: bs (snd e)) <$> named) ++ print_rest rest /\
    named `sublist_of` open_table L /\
    Forall (fun e => Z.land flags (fst e) <> 0) named /\
    flags = Z.lor (Z.land flags 3) (Z.lor (lor_all named) rest) /\
    Forall (fun e => Z.land rest (fst e) = 0) (open_table L).
Proof.
  intros Ht. unfold print_open_flags. pose proof (print_bits_spec (open_table L) (Z.land flags (Z.lnot 3)) Ht) as H.
  destruct (print_bits _ _ _) as [[s p] r]. destruct H as (nm & Hs & -> & Hn & Hf & _ & Hr).
  exists nm, r. split_and!; [done|done| | |done].
  - eapply Forall_impl; [exact Hn|]. intros e He Hz. apply He.
    by rewrite <- Z.land_assoc, (Z.land_comm (Z.lnot 3)), Z.land_assoc, Hz.
  - rewrite <- Hf. apply Z.bits_inj'. intros i Hi. rewrite Z.lor_spec, !Z.land_spec, Z.lnot_spec by done.
    by destruct (Z.testbit flags i), (Z.testbit 3 i).
Qed.

(** glibc's values on x86_64. *)
Definition glibc_x86_64 : Libc := MkLibc 64 128 512 1024 2048 524288 65536 0 2 1 32 16 32768 1 2 10 16 17 1 2 3 5 2048 524288.

Lemma open_flags_lossless_witness :
  single_bits (open_table glibc_x86_64) /\
  print_open_flags glibc_x86_64 (64 + 512 + 1 + 2 ^ 20) = bs "O_WRONLY|O_CREAT|O_TRUNC|0x100000" /\
  exists named rest,
    print_open_flags glibc_x86_64 (64 + 512 + 1 + 2 ^ 20) =
      bs "O_WRONLY" ++ concat ((fun e => 124 :: bs (snd e)) <$> named) ++ print_rest rest /\
    named `sublist_of` open_table glibc_x86_64 /\
    Forall (fun e => Z.land (64 + 512 + 1 + 2 ^ 20) (fst e) <> 0) named /\
    64 + 512 + 1 + 2 ^ 20 = Z.lor 1 (Z.lor (lor_all named) rest) /\
    Forall (fun e => Z.land rest (fst e) = 0) (open_table glibc_x86_64).
Proof.
  assert (single_bits (open_table glibc_x86_64)) as H.
  { repeat (apply Forall_cons; split; [|]); try apply Forall_nil; try exact I; cbn;
      first [left; reflexivity|right; first [by exists 6|by exists 7|by exists 9|by exists 10|by exists 11|by exists 19|by exists 16]]. }
  split_and!; [exact H|vm_compute; reflexivity|]. exact (open_flags_lossless glibc_x86_64 (64 + 512 + 1 + 2 ^ 20) H).
Defined.

(** A file name holding a newline and a quote renders on one line. *)
Example open_line :
  decode_syscall X86_64 glibc_x86_64 (fun _ _ => Some ([47; 10; 34; 97; 0; 99])) (MkSyscall 2 [4096; 64; 420; 0; 0; 0] 3) =
  bs "open(" ++ [34] ++ bs "/\x0a" ++ [34] ++ bs "a" ++ [34] ++ bs ", O_RDONLY|O_CREAT, 0644) = 3" ++ [10].
Proof. vm_compute. reflexivity. Qed.
