(* ===== verification/FuzzDraw.v ===== *)
(** Effects of the mutators of fuzz/: a computation that draws from the
    generator of fuzz/rng.rs, may panic, and returns a value.  [draws m Q]
    says that from every generator state [m] neither panics nor runs out of
    fuel, and its value satisfies [Q]; the rules below make the totality and
    the frame properties of the mutators a matter of applying them. *)
From S2P Require Import Prelude FuzzRng.

Definition draw (A : Type) : Type := Rng.t -> outcome (A * Rng.t).

#[global] Instance draw_ret : MRet draw := fun A a r => Done (a, r).
#[global] Instance draw_bind : MBind draw := fun A B f m r => '(a, r) ← m r; f a r.

(** [rng.rand()] and [rng.below(n)] *)
Definition random : draw Z := fun r => Done (Rng.rand r).
Definition below (n : Z) : draw Z := fun r => Done (Rng.below r n).

(** [(rng.rand() << 32) | rng.rand()] *)
Definition random62 : draw Z := a ← random; b ← random; mret (Z.lor (a <<₆₄ 32) b).

Definition lift {A} (m : outcome A) : draw A := fun r => a ← m; Done (a, r).

Definition draws {A} (m : draw A) (Q : A -> Prop) : Prop :=
  forall r, Rng.wf r -> wp (m r) (fun ar => Q (fst ar) /\ Rng.wf (snd ar)) False.

Lemma draws_ret {A} (a : A) (Q : A -> Prop) : Q a -> draws (mret a) Q.
Proof. by intros H r Hr. Qed.

Lemma draws_bind {A B} (m : draw A) (f : A -> draw B) (P : A -> Prop) (Q : B -> Prop) :
  draws m P -> (forall a, P a -> draws (f a) Q) -> draws (m ≫= f) Q.
Proof.
  intros Hm Hf r Hr. unfold mbind, draw_bind. apply wp_bind. eapply wp_mono; [by apply Hm| |done].
  intros [a r'] [Ha Hr']. by apply Hf.
Qed.

Lemma draws_mono {A} (m : draw A) (P Q : A -> Prop) : draws m P -> (forall a, P a -> Q a) -> draws m Q.
Proof. intros Hm H r Hr. eapply wp_mono; [by apply Hm| |done]. intros [a r'] [Ha Hr']. split; [by apply H|done]. Qed.

Lemma draws_below n : 0 < n -> draws (below n) (fun x => 0 <= x < n).
Proof. intros Hn r Hr. cbn. split; [by apply rng_below_range|by apply rng_below_wf]. Qed.

Lemma draws_random : draws random (fun x => 0 <= x < 2 ^ 31).
Proof. intros r Hr. cbn. split; [by apply rng_rand_range|by apply rng_rand_wf]. Qed.

Lemma draws_lift {A} (m : outcome A) (Q : A -> Prop) : wp m Q False -> draws (lift m) Q.
Proof. intros Hm r Hr. unfold lift. apply wp_bind. eapply wp_mono; [exact Hm| |done]. by intros a Ha. Qed.

Lemma draws_lift_bind {A B} (m : outcome A) (f : A -> draw B) (Q : B -> Prop) :
  wp m (fun a => draws (f a) Q) False -> draws (lift m ≫= f) Q.
Proof. intros Hm. eapply draws_bind; [by apply draws_lift|]. done. Qed.

Lemma draws_below_bind {B} n (f : Z -> draw B) (Q : B -> Prop) :
  0 < n -> (forall x, 0 <= x < n -> draws (f x) Q) -> draws (below n ≫= f) Q.
Proof. intros Hn Hf. eapply draws_bind; [by apply draws_below|done]. Qed.

Lemma draws_random_bind {B} (f : Z -> draw B) (Q : B -> Prop) :
  (forall x, 0 <= x < 2 ^ 31 -> draws (f x) Q) -> draws (random ≫= f) Q.
Proof. intros Hf. eapply draws_bind; [apply draws_random|done]. Qed.

(** The two halves do not overlap: 62 bits at most, spread over 63. *)
Lemma draws_random62 : draws random62 is_u64.
Proof.
  unfold random62. apply draws_random_bind. intros a Ha. apply draws_random_bind. intros b Hb. apply draws_ret.
  unfold is_u64. apply lor_range; [lia|apply as_u64_range|lia].
Qed.

Lemma draws_random62_bind {B} (f : Z -> draw B) (Q : B -> Prop) :
  (forall x, is_u64 x -> draws (f x) Q) -> draws (random62 ≫= f) Q.
Proof. intros Hf. eapply draws_bind; [apply draws_random62|done]. Qed.

(** What a run of [m] returned satisfies [Q]. *)
Lemma draws_done {A} (m : draw A) (Q : A -> Prop) r a r' : draws m Q -> Rng.wf r -> m r = Done (a, r') -> Q a /\ Rng.wf r'.
Proof. intros Hm Hr E. specialize (Hm r Hr). by rewrite E in Hm. Qed.

Create HintDb draws discriminated.
#[export] Hint Resolve draws_ret draws_below draws_random draws_random62 : draws.

(** One step through the program text of a mutator. *)
Ltac draw_step :=
  match goal with
  | |- draws (mret _) _ => apply draws_ret
  | |- draws (random ≫= _) _ => apply draws_random_bind; intros
  | |- draws (random62 ≫= _) _ => apply draws_random62_bind; intros
  | |- draws (below _ ≫= _) _ => apply draws_below_bind; [|intros]
  | |- draws (if ?c then _ else _) _ => destruct c eqn:?
  end.
