(* ===== verification/FuzzBtf.v ===== *)
(** fuzz/btf.rs: the reader of the kernel's BTF type table, raw or inside an
    ELF64 image, and the lookups on it.  Shown: reading a raw file always
    returns and never reads out of range, and the table it gives is well
    formed; [resolve], run for two steps more than the table has types, either
    returns a type that is not a qualifier or never returns at any bound; and
    an ELF image with a bad name offset panics. *)
From S2P Require Import Prelude Text.
From stdpp Require Import finite.
#[local] Open Scope Z_scope.

Definition BTF_KIND_INT : Z := 1.
Definition BTF_KIND_PTR : Z := 2.
Definition BTF_KIND_ARRAY : Z := 3.
Definition BTF_KIND_STRUCT : Z := 4.
Definition BTF_KIND_UNION : Z := 5.
Definition BTF_KIND_ENUM : Z := 6.
Definition BTF_KIND_FWD : Z := 7.
Definition BTF_KIND_TYPEDEF : Z := 8.
Definition BTF_KIND_VOLATILE : Z := 9.
Definition BTF_KIND_CONST : Z := 10.
Definition BTF_KIND_RESTRICT : Z := 11.
Definition BTF_KIND_FUNC : Z := 12.
Definition BTF_KIND_FUNC_PROTO : Z := 13.
Definition BTF_KIND_VAR : Z := 14.
Definition BTF_KIND_DATASEC : Z := 15.
Definition BTF_KIND_FLOAT : Z := 16.
Definition BTF_KIND_ENUM64 : Z := 19.
Definition BTF_MAGIC : Z := 0xEB9F.

Record BtfMember : Type := MkMember { m_name : list Z; m_type : Z; offset_bits : Z }.
Record BtfEnumVal : Type := MkEnumVal { e_name : list Z; e_val : Z }.

Record BtfType : Type := MkType
  { t_id : Z; t_kind : Z; t_name : list Z; t_size : Z; ref_type_id : Z;
    members : list BtfMember; enums : list BtfEnumVal;
    int_bits : Z; int_signed : Z; array_type_id : Z; array_nelems : Z }.

#[global] Instance member_eq_dec : EqDecision BtfMember.
Proof. solve_decision. Defined.
#[global] Instance enum_val_eq_dec : EqDecision BtfEnumVal.
Proof. solve_decision. Defined.
#[global] Instance btf_type_eq_dec : EqDecision BtfType.
Proof. solve_decision. Defined.

(** [BtfType::void()], then the fields [id], [kind] and [name]. *)
Definition void : BtfType := MkType 0 0 [] 0 0 [] [] 0 0 0 0.
Definition blank (id kind : Z) (name : list Z) : BtfType := MkType id kind name 0 0 [] [] 0 0 0 0.

Definition with_size (n : Z) (t : BtfType) : BtfType :=
  MkType (t_id t) (t_kind t) (t_name t) n (ref_type_id t) (members t) (enums t) (int_bits t) (int_signed t) (array_type_id t) (array_nelems t).
Definition with_ref (r : Z) (t : BtfType) : BtfType :=
  MkType (t_id t) (t_kind t) (t_name t) (t_size t) r (members t) (enums t) (int_bits t) (int_signed t) (array_type_id t) (array_nelems t).
Definition with_members (l : list BtfMember) (t : BtfType) : BtfType :=
  MkType (t_id t) (t_kind t) (t_name t) (t_size t) (ref_type_id t) l (enums t) (int_bits t) (int_signed t) (array_type_id t) (array_nelems t).
Definition with_enums (l : list BtfEnumVal) (t : BtfType) : BtfType :=
  MkType (t_id t) (t_kind t) (t_name t) (t_size t) (ref_type_id t) (members t) l (int_bits t) (int_signed t) (array_type_id t) (array_nelems t).
Definition with_int (bits sgn : Z) (t : BtfType) : BtfType :=
  MkType (t_id t) (t_kind t) (t_name t) (t_size t) (ref_type_id t) (members t) (enums t) bits sgn (array_type_id t) (array_nelems t).
Definition with_array (ty n : Z) (t : BtfType) : BtfType :=
  MkType (t_id t) (t_kind t) (t_name t) (t_size t) (ref_type_id t) (members t) (enums t) (int_bits t) (int_signed t) ty n.

(** [struct Btf { types }], index is the type id. *)
Record Btf : Type := MkBtf { types : list BtfType }.

(** * Reading *)

(** [b.get(off..off + n)] as a little-endian integer; the sum wraps. *)
Definition rd_le (n : Z) (b : list Z) (off : Z) : outcome Z :=
  s ← of_option (slice b off (off +₆₄ n)); Done (le_val s).
Definition rd_u16 : list Z -> Z -> outcome Z := rd_le 2.
Definition rd_u32 : list Z -> Z -> outcome Z := rd_le 4.
Definition rd_u64 : list Z -> Z -> outcome Z := rd_le 8.

(** The bytes up to the first zero, or all of them. *)
Definition until_nul (s : list Z) : list Z :=
  match position (fun c => c =? 0) s with Some p => take (Z.to_nat p) s | None => s end.

Definition btf_str (strs : list Z) (off : Z) : list Z :=
  if zlen strs <=? off then [] else from_utf8_lossy (until_nul (drop (Z.to_nat off) strs)).

(** One turn of the section loop of [find_elf_btf], at index [i]. *)
Definition elf_section (raw : list Z) (e_shoff e_shentsize strtab_off i : Z) : outcome (option (Z * Z)) :=
  let base := e_shoff +₆₄ i * e_shentsize in
  sh_name ← rd_u32 raw base;
  sh_offset ← rd_u64 raw (base +₆₄ 0x18);
  sh_size ← rd_u64 raw (base +₆₄ 0x20);
  name ← or_panic (slice_from raw (strtab_off +₆₄ sh_name));
  Done (if bytes_eqb (until_nul name) (bs ".BTF") then Some (sh_offset, sh_size) else None).

Fixpoint elf_sections (raw : list Z) (e_shoff e_shentsize strtab_off i : Z) (n : nat) : outcome (Z * Z) :=
  match n with
  | O => Fail
  | S n =>
      r ← elf_section raw e_shoff e_shentsize strtab_off i;
      match r with Some s => Done s | None => elf_sections raw e_shoff e_shentsize strtab_off (i + 1) n end
  end.

Definition find_elf_btf (raw : list Z) : outcome (Z * Z) :=
  e_shoff ← rd_u64 raw 0x28;
  e_shentsize ← rd_u16 raw 0x3a;
  e_shnum ← rd_u16 raw 0x3c;
  e_shstrndx ← rd_u16 raw 0x3e;
  if (e_shentsize <? 64) || (zlen raw <? e_shoff +₆₄ e_shnum * e_shentsize) then Fail else
  strtab_off ← rd_u64 raw (e_shoff +₆₄ e_shstrndx * e_shentsize +₆₄ 0x18);
  elf_sections raw e_shoff e_shentsize strtab_off 0 (Z.to_nat e_shnum).

(** * The type section

    A position in a slice stays below [2^63], so the sums of the loop do not
    wrap. *)

Definition rd_member (strs sec : list Z) (kflag p i : Z) : outcome BtfMember :=
  let mp := p + i * 12 in
  name ← rd_u32 sec mp;
  ty ← rd_u32 sec (mp + 4);
  off ← rd_u32 sec (mp + 8);
  Done (MkMember (btf_str strs name) ty (if negb (kflag =? 0) then Z.land off 0xffffff else off)).

Definition rd_enum (strs sec : list Z) (p i : Z) : outcome BtfEnumVal :=
  let ep := p + i * 8 in
  name ← rd_u32 sec ep;
  v ← rd_u32 sec (ep + 4);
  Done (MkEnumVal (btf_str strs name) (as_i32 v)).

Definition rd_enum64 (strs sec : list Z) (p i : Z) : outcome BtfEnumVal :=
  let ep := p + i * 12 in
  name ← rd_u32 sec ep;
  lo ← rd_u32 sec (ep + 4);
  hi ← rd_u32 sec (ep + 8);
  Done (MkEnumVal (btf_str strs name) (as_i64 (Z.lor (Z.shiftl hi 32) lo))).

(** [for i in 0..vlen { v.push(f(i)?) }] *)
Fixpoint rd_list {A} (f : Z -> outcome A) (i : Z) (n : nat) : outcome (list A) :=
  match n with
  | O => Done []
  | S n => x ← f i; l ← rd_list f (i + 1) n; Done (x :: l)
  end.

(** The [match kind] of the loop: the type and the position after it. *)
Definition type_body (strs sec : list Z) (kind vlen kflag size_or_type p : Z) (out : BtfType) : outcome (BtfType * Z) :=
  if kind =? BTF_KIND_INT then
    enc ← rd_u32 sec p;
    Done (with_int (Z.land enc 0xff) (Z.land (Z.shiftr enc 24) 1) (with_size size_or_type out), p + 4)
  else if existsb (Z.eqb kind) [BTF_KIND_PTR; BTF_KIND_TYPEDEF; BTF_KIND_VOLATILE; BTF_KIND_CONST; BTF_KIND_RESTRICT; BTF_KIND_FWD] then
    Done (with_ref size_or_type out, p)
  else if kind =? BTF_KIND_ARRAY then
    ty ← rd_u32 sec p;
    n ← rd_u32 sec (p + 8);
    Done (with_array ty n out, p + 12)
  else if existsb (Z.eqb kind) [BTF_KIND_STRUCT; BTF_KIND_UNION] then
    l ← rd_list (rd_member strs sec kflag p) 0 (Z.to_nat vlen);
    Done (with_members l (with_size size_or_type out), p + vlen * 12)
  else if kind =? BTF_KIND_ENUM then
    l ← rd_list (rd_enum strs sec p) 0 (Z.to_nat vlen);
    Done (with_enums l (with_size size_or_type out), p + vlen * 8)
  else if kind =? BTF_KIND_ENUM64 then
    l ← rd_list (rd_enum64 strs sec p) 0 (Z.to_nat vlen);
    Done (with_enums l (with_size size_or_type out), p + vlen * 12)
  else if kind =? BTF_KIND_FUNC_PROTO then Done (with_ref size_or_type out, p + vlen * 8)
  else if kind =? BTF_KIND_FUNC then Done (with_ref size_or_type out, p)
  else if kind =? BTF_KIND_VAR then Done (with_ref size_or_type out, p + 4)
  else if kind =? BTF_KIND_DATASEC then Done (with_size size_or_type out, p + vlen * 12)
  else if kind =? BTF_KIND_FLOAT then Done (with_size size_or_type out, p)
  else Done (out, p).

Definition type_step (strs sec : list Z) (st : Z * Z * list BtfType) : outcome (ctl (Z * Z * list BtfType) (list BtfType)) :=
  let '(p, id, types) := st in
  if zlen sec <? p + 12 then Done (Stop types) else
  name_off ← rd_u32 sec p;
  info ← rd_u32 sec (p + 4);
  size_or_type ← rd_u32 sec (p + 8);
  let kind := Z.land (Z.shiftr info 24) 0x1f in
  let vlen := Z.land info 0xffff in
  let kflag := Z.shiftr info 31 in
  '(out, p) ← type_body strs sec kind vlen kflag size_or_type (p + 12) (blank id kind (btf_str strs name_off));
  Done (Next (p, as_u32 (id + 1), types ++ [out])).

Definition parse_types (strs sec : list Z) : outcome (list BtfType) :=
  loop (S (length sec)) (type_step strs sec) (0, 1, [void]).

(** [Btf::open] on the contents of the file, [None] when it cannot be read. *)
Definition open (file : option (list Z)) : outcome Btf :=
  raw ← of_option file;
  if zlen raw <? 24 then Fail else
  '(bstart, bsize) ←
    (if (64 <? zlen raw) && bytes_eqb (take 4 raw) [0x7f; 69; 76; 70] then find_elf_btf raw else Done (0, zlen raw));
  btf_data ← of_option (slice raw bstart (bstart +₆₄ bsize));
  if zlen btf_data <? 24 then Fail else
  magic ← rd_u16 btf_data 0;
  if negb (magic =? BTF_MAGIC) then Fail else
  hdr_len ← rd_u32 btf_data 4;
  type_off ← rd_u32 btf_data 8;
  type_len ← rd_u32 btf_data 12;
  str_off ← rd_u32 btf_data 16;
  str_len ← rd_u32 btf_data 20;
  let type_start := hdr_len + type_off in
  let str_start := hdr_len + str_off in
  strs ← of_option (slice btf_data str_start (str_start + str_len));
  types_sec ← of_option (slice btf_data type_start (type_start + type_len));
  types ← parse_types strs types_sec;
  Done (MkBtf types).

Definition type_count (b : Btf) : Z := as_u32 (zlen (types b)).

Definition type_by_id (b : Btf) (id : Z) : option BtfType := get (types b) id.

Definition is_composite (t : BtfType) : bool := (t_kind t =? BTF_KIND_STRUCT) || (t_kind t =? BTF_KIND_UNION).

(** [types.iter().skip(1).find(..)] *)
Definition find_type (p : BtfType -> bool) (b : Btf) : option BtfType :=
  snd <$> list_find (fun t => p t) (tail (types b)).

Definition find_struct (b : Btf) (name : list Z) : option BtfType :=
  find_type (fun t => is_composite t && bytes_eqb (t_name t) name) b.

Definition is_qualifier (t : BtfType) : bool :=
  existsb (Z.eqb (t_kind t)) [BTF_KIND_CONST; BTF_KIND_VOLATILE; BTF_KIND_TYPEDEF; BTF_KIND_RESTRICT].

Definition resolve_step (b : Btf) (t : BtfType) : outcome (ctl BtfType BtfType) :=
  if is_qualifier t then
    match type_by_id b (ref_type_id t) with Some next => Done (Next next) | None => Done (Stop t) end
  else Done (Stop t).

Definition resolve_bounded (fuel : nat) (b : Btf) (t : BtfType) : outcome BtfType := loop fuel (resolve_step b) t.

(** [resolve]: two steps more than the table has types. *)
Definition resolve (b : Btf) (t : BtfType) : outcome BtfType := resolve_bounded (S (S (length (types b)))) b t.

(** * Reading never panics on a raw file *)

Definition type_wf (i : nat) (t : BtfType) : Prop :=
  t_id t = Z.of_nat i /\ 0 <= t_kind t < 32 /\ is_u32 (t_size t) /\ is_u32 (ref_type_id t) /\
  zlen (members t) < 2 ^ 16 /\ zlen (enums t) < 2 ^ 16 /\ is_u8 (int_bits t) /\ 0 <= int_signed t < 2 /\
  Forall (fun m => is_u32 (m_type m) /\ is_u32 (offset_bits m)) (members t) /\
  Forall (fun e => - 2 ^ 63 <= e_val e < 2 ^ 63) (enums t) /\ is_u32 (array_type_id t) /\ is_u32 (array_nelems t).

Definition table_wf (ts : list BtfType) : Prop := ts <> [] /\ forall i t, ts !! i = Some t -> type_wf i t.

Lemma wp_rd_le n b off (Q : Z -> Prop) : bytes_ok b -> 0 <= n -> 0 <= off -> (forall v, 0 <= v < 2 ^ (8 * n) -> Q v) ->
  wp (rd_le n b off) Q True.
Proof.
  intros Hb Hn Ho HQ. unfold rd_le. destruct (slice b off (off +₆₄ n)) as [s|] eqn:E; [|done]. cbn.
  apply HQ. apply slice_length in E as Hs.
  assert (off +₆₄ n <= off + n) by (apply Z.mod_le; lia).
  assert (0 <= zlen s <= n) as Hz by (pose proof (zlen_nonneg s); lia).
  pose proof (le_val_range s (slice_bytes_ok _ _ _ _ Hb E)).
  pose proof (Z.pow_le_mono_r 2 (8 * zlen s) (8 * n)). lia.
Qed.

Lemma wp_rd_u32 {B} b off (f : Z -> outcome B) Q : bytes_ok b -> 0 <= off -> (forall v, is_u32 v -> wp (f v) Q True) ->
  wp (v ← rd_u32 b off; f v) Q True.
Proof. intros. apply wp_bind. by apply wp_rd_le. Qed.

Lemma wp_rd_list {A} (f : Z -> outcome A) (Q : A -> Prop) i n : (forall i, 0 <= i -> wp (f i) Q True) -> 0 <= i ->
  wp (rd_list f i n) (fun l => zlen l = Z.of_nat n /\ Forall Q l) True.
Proof.
  intros Hf. revert i. induction n as [|n IH]; intros i Hi; [by repeat constructor|]. cbn [rd_list].
  apply wp_bind. eapply wp_mono; [by apply Hf| |done]. intros x Hx. apply wp_bind.
  eapply wp_mono; [by apply IH; lia| |done]. intros l [Hl HQ]. cbn [wp]. rewrite zlen_cons. split; [lia|by constructor].
Qed.

Lemma land_range a k : 0 <= k -> 0 <= Z.land a (2 ^ k - 1) < 2 ^ k.
Proof. intros. rewrite Z.sub_1_r, <- Z.ones_equiv, Z.land_ones by done. apply Z.mod_pos_bound. lia. Qed.

Lemma wp_rd_member strs sec kf p i : bytes_ok sec -> 0 <= p -> 0 <= i ->
  wp (rd_member strs sec kf p i) (fun m => is_u32 (m_type m) /\ is_u32 (offset_bits m)) True.
Proof.
  intros Hb Hp Hi. unfold rd_member. apply wp_rd_u32; [done|lia|intros n Hn].
  apply wp_rd_u32; [done|lia|intros t Ht]. apply wp_rd_u32; [done|lia|intros o Ho]. cbn. split; [done|].
  destruct (negb _); [|done]. assert (0 <= Z.land o 0xffffff < 2 ^ 24) by (apply (land_range o 24); lia). unfold is_u32. lia.
Qed.

Lemma as_signed_u32 v : is_u32 v -> - 2 ^ 63 <= as_i32 v < 2 ^ 63.
Proof. intros. pose proof (as_signed_range 32 v). unfold as_i32. lia. Qed.

Lemma wp_rd_enum strs sec p i : bytes_ok sec -> 0 <= p -> 0 <= i ->
  wp (rd_enum strs sec p i) (fun e => - 2 ^ 63 <= e_val e < 2 ^ 63) True.
Proof.
  intros Hb Hp Hi. unfold rd_enum. apply wp_rd_u32; [done|lia|intros n Hn].
  apply wp_rd_u32; [done|lia|intros v Hv]. by apply as_signed_u32.
Qed.

Lemma wp_rd_enum64 strs sec p i : bytes_ok sec -> 0 <= p -> 0 <= i ->
  wp (rd_enum64 strs sec p i) (fun e => - 2 ^ 63 <= e_val e < 2 ^ 63) True.
Proof.
  intros Hb Hp Hi. unfold rd_enum64. apply wp_rd_u32; [done|lia|intros n Hn].
  apply wp_rd_u32; [done|lia|intros l Hl]. apply wp_rd_u32; [done|lia|intros h Hh]. cbn.
  apply (as_signed_range 64). lia.
Qed.

Ltac wf_fields := repeat split; cbn; unfold is_u32, is_u8 in *; done || lia.

Lemma wp_type_body strs sec kind vlen kf sz p i name : bytes_ok sec -> 0 <= kind < 32 -> 0 <= vlen < 2 ^ 16 -> is_u32 sz ->
  0 <= p -> wp (type_body strs sec kind vlen kf sz p (blank (Z.of_nat i) kind name)) (fun r => type_wf i (fst r) /\ p <= snd r) True.
Proof.
  intros Hb Hk Hv Hs Hp. unfold type_body.
  assert (forall t q, p <= q -> type_wf i t -> wp (Done (t, q)) (fun r => type_wf i (fst r) /\ p <= snd r) True) as Hd by done.
  assert (is_u32 0 /\ is_u8 0 /\ zlen (@nil BtfMember) < 2 ^ 16 /\ zlen (@nil BtfEnumVal) < 2 ^ 16) as (? & ? & ? & ?) by done.
  repeat match goal with |- wp (if ?c then _ else _) _ _ => destruct c end;
    try (apply Hd; [lia|]; wf_fields).
  - apply wp_rd_u32; [done..|intros v Hv']. apply Hd; [lia|].
    assert (is_u8 (Z.land v 0xff)) by (apply (land_range v 8); lia).
    assert (0 <= Z.land (v ≫ 24) 1 < 2) by (apply (land_range (v ≫ 24) 1); lia). wf_fields.
  - apply wp_rd_u32; [done..|intros t Ht]. apply wp_rd_u32; [done|lia|intros n Hn]. apply Hd; [lia|]. wf_fields.
  - apply wp_bind. eapply wp_mono; [eapply wp_rd_list; [|lia]; intros; by apply wp_rd_member| |done].
    intros l [Hl HQ]. apply Hd; [lia|]. wf_fields.
  - apply wp_bind. eapply wp_mono; [eapply wp_rd_list; [|lia]; intros; by apply wp_rd_enum| |done].
    intros l [Hl HQ]. apply Hd; [lia|]. wf_fields.
  - apply wp_bind. eapply wp_mono; [eapply wp_rd_list; [|lia]; intros; by apply wp_rd_enum64| |done].
    intros l [Hl HQ]. apply Hd; [lia|]. wf_fields.
Qed.

Definition scan_inv (sec : list Z) (st : Z * Z * list BtfType) : Prop :=
  let '(p, id, ts) := st in 0 <= p /\ id = zlen ts /\ 12 * (zlen ts - 1) <= p /\ table_wf ts.

Lemma table_wf_snoc ts t : table_wf ts -> type_wf (length ts) t -> table_wf (ts ++ [t]).
Proof.
  intros [Hn Hts] Ht. split; [by destruct ts|]. intros i u Hi.
  apply lookup_app_Some in Hi as [Hi|[Hi Hu]]; [by apply Hts|].
  destruct (i - length ts)%nat as [|k] eqn:E; [|by destruct k]. injection Hu as <-. by replace i with (length ts) by lia.
Qed.

Lemma wp_type_step strs sec st : bytes_ok sec -> zlen sec < 2 ^ 32 -> scan_inv sec st ->
  wp (type_step strs sec st)
    (fun c => match c with
              | Next st' => scan_inv sec st' /\ 0 <= Z.max 0 (zlen sec - st'.1.1) < Z.max 0 (zlen sec - st.1.1)
              | Stop ts => table_wf ts
              end) True.
Proof.
  intros Hb Hz. destruct st as [[p id] ts]. intros (Hp & -> & Hn & Hts). unfold type_step.
  destruct (Z.ltb_spec (zlen sec) (p + 12)); [exact Hts|].
  apply wp_rd_u32; [done|lia|intros name _]. apply wp_rd_u32; [done|lia|intros inf _].
  apply wp_rd_u32; [done|lia|intros sz Hsz].
  assert (0 <= Z.land (inf ≫ 24) 0x1f < 32) as Hk by (apply (land_range (inf ≫ 24) 5); lia).
  assert (0 <= Z.land inf 0xffff < 2 ^ 16) as Hv by (apply (land_range inf 16); lia).
  apply wp_bind. eapply wp_mono; [apply (wp_type_body _ _ _ _ _ _ _ (length ts)); [done..|lia]| |done].
  intros [t q] [Ht Hq]. cbn [fst snd] in *. cbn [wp]. rewrite as_u32_small by (unfold is_u32; pose proof (zlen_nonneg ts); lia).
  unfold scan_inv. replace (zlen (ts ++ [t])) with (zlen ts + 1) by (rewrite zlen_app; done). cbn [fst]. split_and!; try lia. by apply table_wf_snoc.
Qed.

Lemma wp_parse_types strs sec : bytes_ok sec -> zlen sec < 2 ^ 32 -> wp (parse_types strs sec) table_wf True.
Proof.
  intros Hb Hz. unfold parse_types.
  apply (wp_loop (scan_inv sec) (fun st => Z.max 0 (zlen sec - st.1.1))).
  - intros st Hst. by apply wp_type_step.
  - unfold scan_inv, table_wf. split_and!; try done. intros [|i] t Hi; [|by destruct i]. injection Hi as <-. wf_fields.
  - cbn. unfold zlen. lia.
Qed.

(** The contents are an ELF image, for [open]. *)
Definition is_elf (raw : list Z) : bool := (64 <? zlen raw) && bytes_eqb (take 4 raw) [0x7f; 69; 76; 70].

(** Whatever bytes a raw (not ELF) BTF file holds,
    [open] returns: either nothing, or a table whose entries are numbered by
    their position and whose kinds, sizes, counts, offsets and enumerators
    fit their fields.  It never reads out of range and the walk over the type
    section ends. *)
Theorem btf_open_total raw : bytes_ok raw -> is_elf raw = false ->
  wp (open (Some raw)) (fun b => table_wf (types b)) True.
Proof.
  intros Hb He. unfold open. cbn [of_option mbind outcome_bind]. destruct (zlen raw <? 24); [done|].
  unfold is_elf in He. rewrite He. cbn [mbind outcome_bind].
  destruct (slice raw 0 _) as [d|] eqn:Ed; [|done]. cbn [of_option mbind outcome_bind].
  assert (bytes_ok d) as Hd by by eapply slice_bytes_ok.
  destruct (zlen d <? 24); [done|]. apply wp_bind. apply wp_rd_le; [done..|]. intros m _.
  destruct (negb _); [done|]. apply wp_rd_u32; [done..|intros hl Hhl]. apply wp_rd_u32; [done..|intros to Hto].
  apply wp_rd_u32; [done..|intros tl Htl]. apply wp_rd_u32; [done..|intros so Hso]. apply wp_rd_u32; [done..|intros sl Hsl].
  destruct (slice d (hl + so) _) as [strs|]; [|done]. cbn [of_option mbind outcome_bind].
  destruct (slice d (hl + to) _) as [sec|] eqn:Es; [|done]. cbn [of_option mbind outcome_bind].
  apply wp_bind. eapply wp_mono; [apply wp_parse_types| |done].
  - by eapply slice_bytes_ok.
  - apply slice_length in Es. unfold is_u32 in *. lia.
  - done.
Qed.

(** A raw file with one integer type. *)
Definition tiny_file : list Z :=
  [0x9f; 0xeb; 1; 0] ++ concat (le_bytes 4 <$> [24; 0; 16; 16; 5; 1; 0x1000000; 4; 0x1000020]) ++ 0 :: bs "int" ++ [0].

Lemma btf_open_total_witness : is_elf tiny_file = false /\ wp (open (Some tiny_file)) (fun b => table_wf (types b)) True.
Proof.
  split; [vm_compute; reflexivity|]. apply btf_open_total; [|vm_compute; reflexivity].
  apply (bool_decide_unpack (Forall (fun x => 0 <= x < 2 ^ 8) _)). vm_compute. exact I.
Defined.

(** * [resolve] *)

(** The type reached after [n] steps through qualifiers, if there is one. *)
Fixpoint hop (b : Btf) (n : nat) (t : BtfType) : option BtfType :=
  match n with
  | O => Some t
  | S n => if is_qualifier t then match type_by_id b (ref_type_id t) with Some u => hop b n u | None => None end else None
  end.

Lemma hop_S b n t : hop b (S n) t = u ← hop b n t; hop b 1 u.
Proof.
  revert t. induction n as [|n IH]; intros t; [done|]. cbn [hop] in *. rename IH into IHn.
  destruct (is_qualifier t); [|done]. destruct (type_by_id b (ref_type_id t)) as [u|]; [|done]. apply IHn.
Qed.

Lemma resolve_bounded_S fuel b t : resolve_bounded (S fuel) b t =
  if is_qualifier t then match type_by_id b (ref_type_id t) with Some u => resolve_bounded fuel b u | None => Done t end
  else Done t.
Proof.
  unfold resolve_bounded. rewrite loop_S.
  assert (resolve_step b t = if is_qualifier t then match type_by_id b (ref_type_id t) with
    Some next => Done (Next next) | None => Done (Stop t) end else Done (Stop t)) as -> by done.
  destruct (is_qualifier t); [|done]. by destruct (type_by_id b (ref_type_id t)).
Qed.

Lemma resolve_hop b fuel t : hop b fuel t = None <-> exists u, resolve_bounded fuel b t = Done u.
Proof.
  revert t. induction fuel as [|fuel IH]; intros t; [split; [done|intros [? ?]; done]|].
  rewrite resolve_bounded_S. cbn [hop].
  destruct (is_qualifier t); [|by split; eauto].
  destruct (type_by_id b (ref_type_id t)) as [u|]; [apply IH|by split; eauto].
Qed.

(** A chain of qualifiers that comes back to a type it has visited goes on for ever. *)
Lemma hop_add b n m t : hop b (n + m) t = u ← hop b n t; hop b m u.
Proof.
  induction m as [|m IH]; [rewrite Nat.add_0_r; by destruct (hop b n t)|].
  rewrite Nat.add_succ_r, hop_S, IH. destruct (hop b n t) as [u|]; [|done]. cbn [mbind option_bind]. by rewrite <- hop_S.
Qed.

Lemma hop_le b n m t : (n <= m)%nat -> is_Some (hop b m t) -> is_Some (hop b n t).
Proof.
  intros Hle [u Hu]. replace m with (n + (m - n))%nat in Hu by lia. rewrite hop_add in Hu.
  destruct (hop b n t); [by eexists|done].
Qed.

Lemma hop_cycle b n t : (0 < n)%nat -> hop b n t = Some t -> forall m, is_Some (hop b m t).
Proof.
  intros Hn Ht m. assert (forall k, hop b (k * n) t = Some t) as Hk.
  { induction k as [|k IH]; [done|]. cbn. rewrite hop_add, Ht. exact IH. }
  eapply (hop_le b m (m * n)); [nia|]. rewrite Hk. by eexists.
Qed.

(** After one hop the chain stays in the table. *)
Lemma hop_in b n t u : hop b (S n) t = Some u -> u ∈ types b.
Proof.
  rewrite hop_S. intros H. destruct (hop b n t) as [v|]; [|done]. cbn [mbind option_bind hop] in H.
  destruct (is_qualifier v); [|done]. destruct (type_by_id b (ref_type_id v)) as [w|] eqn:E; [|done].
  injection H as <-. apply get_Some in E as [_ E]. by eapply list_elem_of_lookup_2.
Qed.

(** Pigeonhole: a chain longer than the table never ends. *)
Lemma hop_long b t : is_Some (hop b (S (S (length (types b)))) t) -> forall m, is_Some (hop b m t).
Proof.
  intros Hs. set (N := length (types b)) in *.
  assert (exists l, length l = S N /\ (forall i, (i < S N)%nat -> l !! i = hop b (S i) t)) as (l & Hl & Hi).
  { exists (omap (fun i => hop b (S i) t) (seq 0 (S N))).
    assert (forall (k s : nat), (s + k <= S N)%nat -> length (omap (fun i => hop b (S i) t) (seq s k)) = k /\
      forall i, (i < k)%nat -> omap (fun i => hop b (S i) t) (seq s k) !! i = hop b (S (s + i)%nat) t) as H.
    { induction k as [|k IH]; intros s Hsk; [split; [done|lia]|]. cbn [seq omap list_omap].
      destruct (hop_le b (S s) (S (S N)) t ltac:(lia) Hs) as [u Hu]. rewrite Hu.
      destruct (IH (S s) ltac:(lia)) as [H1 H2]. split; [cbn [length]; by rewrite H1|].
      intros [|i] Hi; cbn [lookup list_lookup]; [by rewrite Nat.add_0_r|].
      replace (s + S i)%nat with (S s + i)%nat by lia. apply H2. lia. }
    apply (H (S N) 0%nat). lia. }
  destruct (list_pigeonhole l (types b)) as (i & j & u & Hij & Hli & Hlj).
  - intros u Hu. apply list_elem_of_lookup in Hu as [i Hu]. pose proof (lookup_lt_Some _ _ _ Hu).
    rewrite Hi in Hu by lia. by eapply hop_in.
  - rewrite Hl. fold N. lia.
  - pose proof (lookup_lt_Some _ _ _ Hlj). rewrite Hi in Hli, Hlj by lia.
    assert (hop b (j - i) u = Some u) as Hc.
    { replace (S j) with (S i + (j - i))%nat in Hlj by lia. rewrite hop_add, Hli in Hlj. exact Hlj. }
    intros m. apply (hop_le b m (S i + m)); [lia|]. rewrite hop_add, Hli. apply (hop_cycle b (j - i) u); [lia|done].
Qed.

(** Running [resolve] for two steps more than the table
    has types decides it.  Either it returns, and then the type is no
    qualifier or refers outside the table; or the qualifiers form a cycle and
    it returns at no bound. *)
Theorem resolve_decides b t :
  (exists u, resolve b t = Done u /\ (is_qualifier u = true -> type_by_id b (ref_type_id u) = None)) \/
  (forall fuel, resolve_bounded fuel b t = Fuel).
Proof.
  destruct (hop b (S (S (length (types b)))) t) as [v|] eqn:E.
  - right. pose proof (hop_long b t (mk_is_Some _ _ E)) as Hm. intros fuel. destruct (Hm fuel) as [w Hw].
    clear E Hm v. revert t Hw. induction fuel as [|fuel IH]; intros t Hw; [done|].
    rewrite resolve_bounded_S. cbn [hop] in Hw. destruct (is_qualifier t); [|done].
    destruct (type_by_id b (ref_type_id t)); [|done]. by apply IH.
  - left. apply resolve_hop in E as [u Hu]. exists u. split; [done|].
    unfold resolve_bounded in Hu.
    refine (loop_inv (fun _ => True) (fun u => is_qualifier u = true -> type_by_id b (ref_type_id u) = None)
              (resolve_step b) _ t u _ I Hu).
    intros s c _. unfold resolve_step. destruct (is_qualifier s) eqn:Eq; [|intros [= <-]; congruence].
    destruct (type_by_id b (ref_type_id s)) eqn:Et; intros [= <-]; [done|]. by intros _.
Qed.

(** * Lookups *)

Lemma find_type_Some p b t : find_type p b = Some t ->
  p t = true /\ exists i, (0 < i)%nat /\ types b !! i = Some t /\ forall j u, (0 < j < i)%nat -> types b !! j = Some u -> p u = false.
Proof.
  unfold find_type. destruct (list_find _ _) as [[i u]|] eqn:E; [|done]. cbn. intros [= ->].
  apply list_find_Some in E as (Hi & Hp & Hmin). split; [by apply Is_true_true|].
  exists (S i). rewrite <- lookup_tail. split; [lia|]. split; [done|]. intros [|j] v Hj Hv; [lia|].
  rewrite <- lookup_tail in Hv. specialize (Hmin j v Hv ltac:(lia)). by destruct (p v).
Qed.

(** * Corrupt input *)

(** An ELF image whose only section header puts the string table past the end. *)
Definition bad_elf : list Z :=
  [0x7f; 69; 76; 70] ++ replicate 36 0 ++ le_bytes 8 64 ++ replicate 10 0 ++ le_bytes 2 64 ++ le_bytes 2 1 ++ le_bytes 2 0 ++
  replicate 24 0 ++ le_bytes 8 200 ++ replicate 32 0.

(** A corrupt ELF image makes the search for the section index out of range. *)
Lemma find_elf_btf_panics : open (Some bad_elf) = Panic.
Proof. vm_compute. reflexivity. Qed.

(** A type definition of itself is never resolved. *)
Lemma resolve_cycle fuel : resolve_bounded fuel (MkBtf [void; with_ref 1 (blank 1 BTF_KIND_TYPEDEF [])]) (with_ref 1 (blank 1 BTF_KIND_TYPEDEF [])) = Fuel.
Proof. induction fuel as [|fuel IH]; [done|]. rewrite resolve_bounded_S. exact IH. Qed.
