(* ===== verification/FuzzBtfTable.v ===== *)
(** The layout of a BTF type table as the kernel writes it, and the round trip
    of fuzz/btf.rs over it: every kind of declaration the reader knows, names
    by offset into the string section, members in the plain and the bit-field
    form.  Shown: [btf_roundtrip], reading a file of declarations back gives
    exactly their types; and [decl_tag_desyncs], a declaration tag, which the
    reader does not know, makes it lose the types that follow. *)
From S2P Require Import Prelude Text FuzzBtf.

(** * A type table as the kernel lays it out

    Every record is a sequence of 32-bit words.  A name is an offset into
    the string section together with the text found there. *)

Record Named : Type := MkNamed { n_off : Z; n_text : list Z }.

Definition str_at (strs : list Z) (n : Named) : Prop :=
  exists pre post, strs = pre ++ n_text n ++ 0 :: post /\ zlen pre = n_off n /\
                   Forall (fun c => 0 < c < 0x80) (n_text n).

Record MDecl : Type := MkMDecl { md_name : Named; md_type : Z; md_bits : Z; md_off : Z }.

(** [DTag] is a type tag (kind 18), which the reader keeps as a bare entry. *)
Inductive Decl : Type :=
  | DInt (n : Named) (size encoding offset bits : Z)
  | DRef (kind : Z) (n : Named) (to : Z)
  | DArray (n : Named) (elem index nelems : Z)
  | DComposite (union kflag : bool) (n : Named) (size : Z) (ms : list MDecl)
  | DEnum (n : Named) (size : Z) (es : list (Named * Z))
  | DEnum64 (n : Named) (size : Z) (es : list (Named * Z))
  | DProto (n : Named) (ret : Z) (params : list (Named * Z))
  | DFunc (n : Named) (linkage proto : Z)
  | DVar (n : Named) (ty linkage : Z)
  | DDatasec (n : Named) (size : Z) (vars : list (Z * Z * Z))
  | DFloat (n : Named) (size : Z)
  | DTag (n : Named) (to : Z).

Definition info (kflag : bool) (kind vlen : Z) : Z := (if kflag then 2 ^ 31 else 0) + kind * 2 ^ 24 + vlen.

Definition enc_member (kflag : bool) (m : MDecl) : list Z :=
  [n_off (md_name m); md_type m; (if kflag then md_bits m * 2 ^ 24 else 0) + md_off m].

Definition enc_decl (d : Decl) : list Z :=
  match d with
  | DInt n size encoding offset bits => [n_off n; info false BTF_KIND_INT 0; size; encoding * 2 ^ 24 + offset * 2 ^ 16 + bits]
  | DRef kind n to => [n_off n; info false kind 0; to]
  | DArray n elem index nelems => [n_off n; info false BTF_KIND_ARRAY 0; 0; elem; index; nelems]
  | DComposite union kflag n size ms =>
      [n_off n; info kflag (if union then BTF_KIND_UNION else BTF_KIND_STRUCT) (zlen ms); size] ++ concat (enc_member kflag <$> ms)
  | DEnum n size es =>
      [n_off n; info false BTF_KIND_ENUM (zlen es); size] ++ concat ((fun e => [n_off (fst e); as_u32 (snd e)]) <$> es)
  | DEnum64 n size es =>
      [n_off n; info false BTF_KIND_ENUM64 (zlen es); size] ++
      concat ((fun e => [n_off (fst e); as_u32 (snd e); as_u64 (snd e) / 2 ^ 32]) <$> es)
  | DProto n ret ps => [n_off n; info false BTF_KIND_FUNC_PROTO (zlen ps); ret] ++ concat ((fun p => [n_off (fst p); snd p]) <$> ps)
  | DFunc n linkage proto => [n_off n; info false BTF_KIND_FUNC linkage; proto]
  | DVar n ty linkage => [n_off n; info false BTF_KIND_VAR 0; ty; linkage]
  | DDatasec n size vs => [n_off n; info false BTF_KIND_DATASEC (zlen vs); size] ++ concat ((fun v => [fst (fst v); snd (fst v); snd v]) <$> vs)
  | DFloat n size => [n_off n; info false BTF_KIND_FLOAT 0; size]
  | DTag n to => [n_off n; info false 18 0; to]
  end.

Definition decl_name (d : Decl) : Named :=
  match d with
  | DInt n _ _ _ _ | DRef _ n _ | DArray n _ _ _ | DComposite _ _ n _ _ | DEnum n _ _ | DEnum64 n _ _
  | DProto n _ _ | DFunc n _ _ | DVar n _ _ | DDatasec n _ _ | DFloat n _ | DTag n _ => n
  end.

Definition decl_kind (d : Decl) : Z :=
  match d with
  | DInt _ _ _ _ _ => BTF_KIND_INT | DRef k _ _ => k | DArray _ _ _ _ => BTF_KIND_ARRAY
  | DComposite u _ _ _ _ => if u then BTF_KIND_UNION else BTF_KIND_STRUCT
  | DEnum _ _ _ => BTF_KIND_ENUM | DEnum64 _ _ _ => BTF_KIND_ENUM64 | DProto _ _ _ => BTF_KIND_FUNC_PROTO
  | DFunc _ _ _ => BTF_KIND_FUNC | DVar _ _ _ => BTF_KIND_VAR | DDatasec _ _ _ => BTF_KIND_DATASEC
  | DFloat _ _ => BTF_KIND_FLOAT | DTag _ _ => 18
  end.

(** The type a declaration stands for. *)
Definition type_of (id : Z) (d : Decl) : BtfType :=
  let out := blank id (decl_kind d) (n_text (decl_name d)) in
  match d with
  | DInt _ size encoding _ bits => with_int bits (encoding mod 2) (with_size size out)
  | DRef _ _ to | DProto _ to _ | DFunc _ _ to | DVar _ to _ => with_ref to out
  | DArray _ elem _ nelems => with_array elem nelems out
  | DComposite _ _ _ size ms =>
      with_members ((fun m => MkMember (n_text (md_name m)) (md_type m) (md_off m)) <$> ms) (with_size size out)
  | DEnum _ size es | DEnum64 _ size es => with_enums ((fun e => MkEnumVal (n_text (fst e)) (snd e)) <$> es) (with_size size out)
  | DDatasec _ size _ | DFloat _ size => with_size size out
  | DTag _ _ => out
  end.

Fixpoint types_of (id : Z) (ds : list Decl) : list BtfType :=
  match ds with [] => [] | d :: ds => type_of id d :: types_of (id + 1) ds end.

Definition words (ws : list Z) : list Z := concat (le_bytes 4 <$> ws).

(** A raw BTF file: a 24-byte header, the types, the strings. *)
Definition raw_file (ws strs : list Z) : list Z :=
  let sec := words ws in
  le_bytes 2 BTF_MAGIC ++ [1; 0] ++ words [24; 0; zlen sec; zlen sec; zlen strs] ++ sec ++ strs.

Definition enc_file (ds : list Decl) (strs : list Z) : list Z := raw_file (concat (enc_decl <$> ds)) strs.

Definition named_ok (strs : list Z) (n : Named) : Prop := str_at strs n /\ is_u32 (n_off n).

Definition member_ok (strs : list Z) (kflag : bool) (m : MDecl) : Prop :=
  named_ok strs (md_name m) /\ is_u32 (md_type m) /\
  (if kflag then is_u8 (md_bits m) /\ 0 <= md_off m < 2 ^ 24 else is_u32 (md_off m)).

Definition enum_ok (w : Z) (strs : list Z) (e : Named * Z) : Prop :=
  named_ok strs (fst e) /\ - 2 ^ (w - 1) <= snd e < 2 ^ (w - 1).

Definition ref_kinds : list Z :=
  [BTF_KIND_PTR; BTF_KIND_FWD; BTF_KIND_TYPEDEF; BTF_KIND_VOLATILE; BTF_KIND_CONST; BTF_KIND_RESTRICT].

(** Every number fits the field that stores it, every name is where its offset says. *)
Definition decl_ok (strs : list Z) (d : Decl) : Prop :=
  named_ok strs (decl_name d) /\
  match d with
  | DInt _ size encoding offset bits => is_u32 size /\ is_u8 encoding /\ is_u8 offset /\ is_u8 bits
  | DRef kind _ to => kind ∈ ref_kinds /\ is_u32 to
  | DArray _ elem index nelems => is_u32 elem /\ is_u32 index /\ is_u32 nelems
  | DComposite _ kflag _ size ms => is_u32 size /\ zlen ms < 2 ^ 16 /\ Forall (member_ok strs kflag) ms
  | DEnum _ size es => is_u32 size /\ zlen es < 2 ^ 16 /\ Forall (enum_ok 32 strs) es
  | DEnum64 _ size es => is_u32 size /\ zlen es < 2 ^ 16 /\ Forall (enum_ok 64 strs) es
  | DProto _ ret ps => is_u32 ret /\ zlen ps < 2 ^ 16
  | DFunc _ linkage proto => is_u32 proto /\ is_u16 linkage
  | DVar _ ty _ => is_u32 ty
  | DDatasec _ size vs => is_u32 size /\ zlen vs < 2 ^ 16
  | DFloat _ size => is_u32 size
  | DTag _ to => is_u32 to
  end.

(** * Words *)

Lemma zlen_words ws : zlen (words ws) = 4 * zlen ws.
Proof.
  unfold words. induction ws as [|w ws IH]; [done|]. cbn [fmap list_fmap concat].
  rewrite zlen_app, zlen_cons, IH. unfold zlen at 1. rewrite length_le_bytes. lia.
Qed.

Lemma words_app a b : words (a ++ b) = words a ++ words b.
Proof. unfold words. by rewrite fmap_app, concat_app. Qed.

Lemma rd_le_at n pre v post : is_u64 (zlen (pre ++ le_bytes n v ++ post)) -> 0 <= v < 2 ^ (8 * Z.of_nat n) ->
  rd_le (Z.of_nat n) (pre ++ le_bytes n v ++ post) (zlen pre) = Done v.
Proof.
  intros Hl Hv. unfold rd_le. rewrite !zlen_app, zlen_le_bytes in Hl.
  pose proof (zlen_nonneg pre). pose proof (zlen_nonneg post).
  unfold is_u64 in Hl. rewrite as_u64_small by (unfold is_u64; lia).
  unfold slice. rewrite !zlen_app, zlen_le_bytes.
  rewrite (proj2 (Z.leb_le 0 _)), (proj2 (Z.leb_le (zlen pre) _)), (proj2 (Z.leb_le (_ + _) _)) by lia. cbn [andb].
  replace (zlen pre + Z.of_nat n - zlen pre) with (Z.of_nat n) by lia. rewrite Nat2Z.id.
  unfold zlen. rewrite Nat2Z.id, drop_app_length, take_app_length' by (symmetry; apply length_le_bytes).
  cbn. rewrite le_val_le_bytes by lia. by rewrite Z.mod_small.
Qed.

Lemma rd_u32_words pre w post p : 4 * zlen (pre ++ w :: post) < 2 ^ 64 -> is_u32 w -> p = 4 * zlen pre ->
  rd_u32 (words (pre ++ w :: post)) p = Done w.
Proof.
  intros Hl Hw ->. rewrite words_app. change (words (w :: post)) with (le_bytes 4 w ++ words post).
  rewrite <- (zlen_words pre). apply (rd_le_at 4); [|exact Hw].
  change (le_bytes 4 w ++ words post) with (words (w :: post)). rewrite <- words_app.
  unfold is_u64. rewrite zlen_words. pose proof (zlen_nonneg (pre ++ w :: post)). lia.
Qed.

Lemma btf_str_named strs n : named_ok strs n -> btf_str strs (n_off n) = n_text n.
Proof.
  intros [(pre & post & -> & Hp & Ht) _]. unfold btf_str. rewrite <- Hp, !zlen_app, zlen_cons.
  pose proof (zlen_nonneg (n_text n)). pose proof (zlen_nonneg post).
  rewrite (proj2 (Z.leb_gt _ _)) by lia.
  unfold zlen. rewrite Nat2Z.id, drop_app_length.
  assert (position (fun c => c =? 0) (n_text n ++ 0 :: post) = Some (zlen (n_text n))) as E.
  { clear -Ht. induction Ht as [|c t Hc _ IH]; [done|]. cbn [position app].
    rewrite (proj2 (Z.eqb_neq c 0)) by lia. rewrite IH, zlen_cons. cbn. f_equal. lia. }
  unfold until_nul. rewrite E. unfold zlen. rewrite Nat2Z.id, take_app_length.
  apply lossy_ascii. eapply Forall_impl; [exact Ht|]. intros c Hc. cbv beta in *. lia.
Qed.

(** A list read entry by entry. *)
Lemma rd_list_fmap {A B} (f : Z -> outcome B) (g : A -> B) (l : list A) i :
  (forall k x, l !! k = Some x -> f (i + Z.of_nat k) = Done (g x)) -> rd_list f i (length l) = Done (g <$> l).
Proof.
  revert i. induction l as [|x l IH]; intros i H; [done|]. cbn [length rd_list fmap list_fmap].
  pose proof (H 0%nat x eq_refl) as Hx. rewrite Z.add_0_r in Hx. rewrite Hx. cbn.
  rewrite (IH (i + 1)); [done|]. intros k y Hk. rewrite <- (H (S k) y Hk). f_equal. lia.
Qed.

(** The [k]-th of the fixed-width records. *)
Lemma concat_nth {A} (enc : A -> list Z) (w : Z) (l : list A) k x : Forall (fun x => zlen (enc x) = w) l ->
  l !! k = Some x -> exists pre post, concat (enc <$> l) = pre ++ enc x ++ post /\ zlen pre = w * Z.of_nat k.
Proof.
  intros Hw Hk. apply take_drop_middle in Hk as Hs. exists (concat (enc <$> take k l)), (concat (enc <$> drop (S k) l)).
  split.
  - rewrite <- Hs at 1. by rewrite fmap_app, concat_app.
  - apply lookup_lt_Some in Hk. assert (Forall (fun x => zlen (enc x) = w) (take k l)) as Ht by by apply Forall_take.
    replace (Z.of_nat k) with (zlen (take k l)) by (unfold zlen; rewrite length_take_le; lia).
    clear -Ht. induction Ht as [|y l0 Hy _ IH]; [cbn; unfold zlen; simpl; lia|].
    cbn [fmap list_fmap concat]. rewrite zlen_app, zlen_cons, IH, Hy. lia.
Qed.

Lemma rd_word pre l (i : nat) v p : 4 * zlen (pre ++ l) < 2 ^ 64 -> l !! i = Some v -> is_u32 v ->
  p = 4 * (zlen pre + Z.of_nat i) -> rd_u32 (words (pre ++ l)) p = Done v.
Proof.
  intros Hl Hi Hv ->. apply take_drop_middle in Hi as Hs. apply lookup_lt_Some in Hi.
  rewrite <- Hs in Hl |- *. rewrite app_assoc in Hl |- *. apply rd_u32_words; [done..|].
  rewrite zlen_app. unfold zlen at 3. rewrite length_take_le by lia. done.
Qed.

Lemma rd_word_in sec pre l (i : nat) v p : sec = words (pre ++ l) -> zlen sec < 2 ^ 64 -> l !! i = Some v -> is_u32 v ->
  p = 4 * (zlen pre + Z.of_nat i) -> rd_u32 sec p = Done v.
Proof. intros -> Hl. rewrite zlen_words in Hl. by apply rd_word. Qed.

Lemma info_fields kflag kind vlen : 0 <= kind < 32 -> 0 <= vlen < 2 ^ 16 ->
  is_u32 (info kflag kind vlen) /\ Z.land (Z.shiftr (info kflag kind vlen) 24) 0x1f = kind /\
  Z.land (info kflag kind vlen) 0xffff = vlen /\ Z.shiftr (info kflag kind vlen) 31 = if kflag then 1 else 0.
Proof.
  intros Hk Hv.
  assert (forall x, Z.land x 0x1f = x mod 2 ^ 5) as -> by (intros; apply (Z.land_ones _ 5); lia).
  assert (forall x, Z.land x 0xffff = x mod 2 ^ 16) as -> by (intros; apply (Z.land_ones _ 16); lia).
  rewrite !Z.shiftr_div_pow2 by lia. unfold info, is_u32. destruct kflag; repeat split; dlia.
Qed.

(** The records of a type, read from the words after its header. *)
Lemma rd_records {A B} (enc : A -> list Z) (g : A -> B) (f : Z -> Z -> outcome B) (w : Z) (l : list A) pre post sec p :
  Forall (fun x => zlen (enc x) = w) l -> sec = words (pre ++ concat (enc <$> l) ++ post) -> p = 4 * zlen pre ->
  (forall a b i x, sec = words (a ++ enc x ++ b) -> 4 * zlen (a ++ enc x ++ b) = zlen sec -> x ∈ l ->
     p + i * (4 * w) = 4 * zlen a -> f p i = Done (g x)) ->
  rd_list (f p) 0 (length l) = Done (g <$> l).
Proof.
  intros Hw Hs Hp H. apply rd_list_fmap. intros k x Hk.
  destruct (concat_nth enc w l k x Hw Hk) as (a & b & He & Ha).
  apply (H (pre ++ a) (b ++ post)).
  - rewrite Hs, He. by rewrite <- !app_assoc.
  - rewrite Hs, He, zlen_words. by rewrite <- !app_assoc.
  - by eapply list_elem_of_lookup_2.
  - rewrite zlen_app. lia.
Qed.

Lemma zlen_concat {A} (enc : A -> list Z) (w : Z) (l : list A) : (forall x, zlen (enc x) = w) ->
  zlen (concat (enc <$> l)) = w * zlen l.
Proof.
  intros Hw. induction l as [|x l IH]; [unfold zlen; cbn; lia|].
  cbn [fmap list_fmap concat]. rewrite zlen_app, zlen_cons, IH, Hw. lia.
Qed.

Lemma rd_member_at strs kflag m a b i p sec : member_ok strs kflag m -> zlen sec < 2 ^ 64 ->
  sec = words (a ++ enc_member kflag m ++ b) -> 4 * zlen (a ++ enc_member kflag m ++ b) = zlen sec ->
  p + i * 12 = 4 * zlen a ->
  rd_member strs sec (if kflag then 1 else 0) p i = Done (MkMember (n_text (md_name m)) (md_type m) (md_off m)).
Proof.
  intros (Hn & Ht & Ho) Hl -> Hs Hp. unfold rd_member. rewrite Hp. rewrite zlen_words in Hl.
  assert (is_u32 ((if kflag then md_bits m * 2 ^ 24 else 0) + md_off m)) as Hw.
  { destruct kflag; [|exact Ho]. unfold is_u8, is_u32 in *. lia. }
  erewrite (rd_word _ _ 0 _ (4 * zlen a)); [|exact Hl|reflexivity|apply Hn|lia]. cbn [mbind outcome_bind].
  erewrite (rd_word _ _ 1 _ (4 * zlen a + 4)); [|exact Hl|reflexivity|exact Ht|lia]. cbn [mbind outcome_bind].
  erewrite (rd_word _ _ 2 _ (4 * zlen a + 8)); [|exact Hl|reflexivity|exact Hw|lia]. cbn [mbind outcome_bind].
  rewrite btf_str_named by done. do 2 f_equal. destruct kflag; cbn [Z.eqb negb]; [|lia].
  change 0xffffff with (Z.ones 24). rewrite Z.land_ones by lia. dlia.
Qed.

Lemma rd_enum_at strs e a b i p sec : enum_ok 32 strs e -> zlen sec < 2 ^ 64 ->
  sec = words (a ++ [n_off (fst e); as_u32 (snd e)] ++ b) -> p + i * 8 = 4 * zlen a ->
  rd_enum strs sec p i = Done (MkEnumVal (n_text (fst e)) (snd e)).
Proof.
  intros [Hn Hv] Hl -> Hp. unfold rd_enum. rewrite Hp. rewrite zlen_words in Hl.
  erewrite (rd_word _ _ 0 _ (4 * zlen a)); [|lia|reflexivity|apply Hn|lia]. cbn [mbind outcome_bind].
  erewrite (rd_word _ _ 1 _ (4 * zlen a + 4)); [|lia|reflexivity|apply as_u32_range|lia]. cbn [mbind outcome_bind].
  rewrite btf_str_named by done. do 2 f_equal. unfold as_i32, as_signed, as_u32. dlia.
Qed.

Lemma rd_enum64_at strs e a b i p sec : enum_ok 64 strs e -> zlen sec < 2 ^ 64 ->
  sec = words (a ++ [n_off (fst e); as_u32 (snd e); as_u64 (snd e) / 2 ^ 32] ++ b) -> p + i * 12 = 4 * zlen a ->
  rd_enum64 strs sec p i = Done (MkEnumVal (n_text (fst e)) (snd e)).
Proof.
  intros [Hn Hv] Hl -> Hp. unfold rd_enum64. rewrite Hp. rewrite zlen_words in Hl.
  assert (is_u32 (as_u64 (snd e) / 2 ^ 32)) as Hh by (unfold is_u32, as_u64; dlia).
  erewrite (rd_word _ _ 0 _ (4 * zlen a)); [|lia|reflexivity|apply Hn|lia]. cbn [mbind outcome_bind].
  erewrite (rd_word _ _ 1 _ (4 * zlen a + 4)); [|lia|reflexivity|apply as_u32_range|lia]. cbn [mbind outcome_bind].
  erewrite (rd_word _ _ 2 _ (4 * zlen a + 8)); [|lia|reflexivity|exact Hh|lia]. cbn [mbind outcome_bind].
  rewrite btf_str_named by done. do 2 f_equal.
  rewrite Z.lor_comm, lor_add by (first [lia | apply as_u32_range]).
  unfold as_i64, as_signed, as_u32, as_u64. dlia.
Qed.

(** * Reading back a table *)

(** What follows the kind, flag and length of a declaration's info word. *)
Definition decl_vlen (d : Decl) : Z :=
  match d with
  | DComposite _ _ _ _ l => zlen l
  | DEnum _ _ l | DEnum64 _ _ l | DProto _ _ l => zlen l
  | DDatasec _ _ l => zlen l
  | DFunc _ linkage _ => linkage
  | _ => 0
  end.

Definition decl_kflag (d : Decl) : bool := match d with DComposite _ kf _ _ _ => kf | _ => false end.

Definition decl_third (d : Decl) : Z :=
  match d with
  | DInt _ v _ _ _ | DRef _ _ v | DComposite _ _ _ v _ | DEnum _ v _ | DEnum64 _ v _ | DProto _ v _
  | DFunc _ _ v | DVar _ v _ | DDatasec _ v _ | DFloat _ v | DTag _ v => v
  | DArray _ _ _ _ => 0
  end.

Definition decl_rest (d : Decl) : list Z := drop 3 (enc_decl d).

Lemma enc_decl_header d :
  enc_decl d = [n_off (decl_name d); info (decl_kflag d) (decl_kind d) (decl_vlen d); decl_third d] ++ decl_rest d.
Proof. by destruct d. Qed.

Lemma decl_fields_ok strs d : decl_ok strs d ->
  0 <= decl_kind d < 32 /\ 0 <= decl_vlen d < 2 ^ 16 /\ is_u32 (decl_third d).
Proof.
  intros [_ H].
  assert (0 <= decl_kind d < 32) as Hk.
  { destruct d; try (vm_compute; intuition congruence); [|by destruct union]. destruct H as [Hk _].
    unfold ref_kinds in Hk. set_unfold in Hk. cbn. intuition (subst; vm_compute; intuition congruence). }
  split; [done|]. destruct d; cbn in *; unfold is_u8, is_u16, is_u32 in *;
    try (pose proof (zlen_nonneg ms)); try (pose proof (zlen_nonneg es)); try (pose proof (zlen_nonneg params));
    try (pose proof (zlen_nonneg vars)); lia.
Qed.

Ltac kinds := cbn [decl_kind Z.eqb Pos.eqb existsb orb BTF_KIND_INT BTF_KIND_PTR BTF_KIND_ARRAY BTF_KIND_STRUCT
  BTF_KIND_UNION BTF_KIND_ENUM BTF_KIND_FWD BTF_KIND_TYPEDEF BTF_KIND_VOLATILE BTF_KIND_CONST BTF_KIND_RESTRICT
  BTF_KIND_FUNC BTF_KIND_FUNC_PROTO BTF_KIND_VAR BTF_KIND_DATASEC BTF_KIND_FLOAT BTF_KIND_ENUM64].

Definition body_ok (strs : list Z) (d : Decl) : Prop :=
  forall id pre post sec, zlen sec < 2 ^ 64 -> sec = words (pre ++ decl_rest d ++ post) ->
  type_body strs sec (decl_kind d) (decl_vlen d) (if decl_kflag d then 1 else 0) (decl_third d) (4 * zlen pre)
    (blank id (decl_kind d) (n_text (decl_name d))) = Done (type_of id d, 4 * (zlen pre + zlen (decl_rest d))).

Lemma body_int strs n size e o b : decl_ok strs (DInt n size e o b) -> body_ok strs (DInt n size e o b).
Proof.
  intros [_ (_ & He & Ho & Hb)] id pre post sec Hl ->. unfold type_body. kinds. rewrite zlen_words in Hl.
  assert (is_u32 (e * 2 ^ 24 + o * 2 ^ 16 + b)) as Hw by (unfold is_u8, is_u32 in *; lia).
  erewrite (rd_word _ _ 0 _ (4 * zlen pre)); [|lia|reflexivity|exact Hw|lia]. cbn [mbind outcome_bind].
  change 0xff with (Z.ones 8). change 1 with (Z.ones 1) at 1. rewrite !Z.land_ones, Z.shiftr_div_pow2 by lia.
  unfold is_u8 in *. do 2 f_equal; [|unfold decl_rest, enc_decl; cbn [drop]; rewrite zlen_cons, zlen_nil; lia].
  cbn [type_of]. f_equal; dlia.
Qed.

Lemma body_array strs n elem index nelems :
  decl_ok strs (DArray n elem index nelems) -> body_ok strs (DArray n elem index nelems).
Proof.
  intros [_ (He & Hi & Hn)] id pre post sec Hl ->. unfold type_body. kinds. rewrite zlen_words in Hl.
  erewrite (rd_word _ _ 0 _ (4 * zlen pre)); [|lia|reflexivity|exact He|lia]. cbn [mbind outcome_bind].
  erewrite (rd_word _ _ 2 _ (4 * zlen pre + 8)); [|lia|reflexivity|exact Hn|lia]. cbn [mbind outcome_bind].
  do 2 f_equal. unfold decl_rest, enc_decl. cbn [drop]. rewrite !zlen_cons, zlen_nil. lia.
Qed.

Lemma body_composite strs u kf n size ms : decl_ok strs (DComposite u kf n size ms) -> body_ok strs (DComposite u kf n size ms).
Proof.
  intros [_ (_ & _ & Hm)] id pre post sec Hl Hs. unfold decl_rest, enc_decl in *. cbn [drop app] in *. rewrite drop_0 in *.
  cbn [decl_kflag decl_vlen]. rewrite (zlen_concat _ 3) by done.
  assert (rd_list (rd_member strs sec (if kf then 1 else 0) (4 * zlen pre)) 0 (Z.to_nat (zlen ms)) =
          Done ((fun m => MkMember (n_text (md_name m)) (md_type m) (md_off m)) <$> ms)) as E.
  { unfold zlen at 2. rewrite Nat2Z.id.
    eapply (rd_records _ _ (rd_member strs sec (if kf then 1 else 0)) 3); [|exact Hs|done|].
    { by apply Forall_forall. }
    intros a b i m Hab Hz Hin Hp. eapply rd_member_at; [|done..|lia]. rewrite Forall_forall in Hm. by apply Hm. }
  unfold type_body. destruct u; kinds; rewrite E; cbn [mbind outcome_bind]; do 2 f_equal; lia.
Qed.

Lemma body_enum strs n size es : decl_ok strs (DEnum n size es) -> body_ok strs (DEnum n size es).
Proof.
  intros [_ (_ & _ & Hm)] id pre post sec Hl Hs. unfold decl_rest, enc_decl in *. cbn [drop app] in *. rewrite drop_0 in *.
  cbn [decl_vlen]. rewrite (zlen_concat _ 2) by done. unfold type_body. kinds.
  assert (rd_list (rd_enum strs sec (4 * zlen pre)) 0 (Z.to_nat (zlen es)) =
          Done ((fun e => MkEnumVal (n_text (fst e)) (snd e)) <$> es)) as ->.
  { unfold zlen at 2. rewrite Nat2Z.id.
    eapply (rd_records _ _ (rd_enum strs sec) 2); [|exact Hs|done|].
    { by apply Forall_forall. }
    intros a b i m Hab Hz Hin Hp. eapply rd_enum_at; [|done..|lia]. rewrite Forall_forall in Hm. by apply Hm. }
  cbn [mbind outcome_bind]. do 2 f_equal. lia.
Qed.

Lemma body_enum64 strs n size es : decl_ok strs (DEnum64 n size es) -> body_ok strs (DEnum64 n size es).
Proof.
  intros [_ (_ & _ & Hm)] id pre post sec Hl Hs. unfold decl_rest, enc_decl in *. cbn [drop app] in *. rewrite drop_0 in *.
  cbn [decl_vlen]. rewrite (zlen_concat _ 3) by done. unfold type_body. kinds.
  assert (rd_list (rd_enum64 strs sec (4 * zlen pre)) 0 (Z.to_nat (zlen es)) =
          Done ((fun e => MkEnumVal (n_text (fst e)) (snd e)) <$> es)) as ->.
  { unfold zlen at 2. rewrite Nat2Z.id.
    eapply (rd_records _ _ (rd_enum64 strs sec) 3); [|exact Hs|done|].
    { by apply Forall_forall. }
    intros a b i m Hab Hz Hin Hp. eapply rd_enum64_at; [|done..|lia]. rewrite Forall_forall in Hm. by apply Hm. }
  cbn [mbind outcome_bind]. do 2 f_equal. lia.
Qed.

Lemma body_ref strs k n to : decl_ok strs (DRef k n to) -> body_ok strs (DRef k n to).
Proof.
  intros [_ [Hk _]] id pre post sec Hl _. unfold ref_kinds in Hk. set_unfold in Hk. unfold type_body.
  change (zlen (decl_rest (DRef k n to))) with 0.
  decompose [or] Hk; try done; subst k; kinds; do 2 f_equal; lia.
Qed.

Lemma type_body_decl strs d : decl_ok strs d -> body_ok strs d.
Proof.
  intros Hd. destruct d; eauto using body_int, body_ref, body_array, body_composite, body_enum, body_enum64;
    intros id pre post sec Hl Hs; unfold type_body; kinds; unfold decl_rest, enc_decl;
    cbn [drop app decl_vlen]; rewrite ?drop_0, ?(zlen_concat _ 2), ?(zlen_concat _ 3), ?zlen_cons, ?zlen_nil by done;
    do 2 f_equal; lia.
Qed.

Lemma zlen_enc_decl d : zlen (enc_decl d) = 3 + zlen (decl_rest d).
Proof. rewrite enc_decl_header, zlen_app. done. Qed.

Lemma type_step_decl strs d id ts pre post sec : decl_ok strs d -> zlen sec < 2 ^ 64 ->
  sec = words (pre ++ enc_decl d ++ post) ->
  type_step strs sec (4 * zlen pre, id, ts) =
  Done (Next (4 * (zlen pre + zlen (enc_decl d)), as_u32 (id + 1), ts ++ [type_of id d])).
Proof.
  intros Hd Hl Hs. destruct (decl_fields_ok _ _ Hd) as (Hk & Hv & H3).
  destruct (info_fields (decl_kflag d) (decl_kind d) (decl_vlen d) Hk Hv) as (Hi & Ek & Ev & Ef).
  unfold type_step. pose proof (zlen_nonneg (decl_rest d)). pose proof (zlen_nonneg post).
  assert (zlen sec = 4 * (zlen pre + (3 + zlen (decl_rest d) + zlen post))) as Hz.
  { rewrite Hs, zlen_words, !zlen_app, zlen_enc_decl. lia. }
  rewrite (proj2 (Z.ltb_ge _ _)) by lia.
  rewrite enc_decl_header in Hs.
  erewrite (rd_word_in sec _ _ 0 _ (4 * zlen pre)); [|exact Hs|exact Hl|reflexivity|apply Hd|lia]. cbn [mbind outcome_bind].
  erewrite (rd_word_in sec _ _ 1 _ (4 * zlen pre + 4)); [|exact Hs|exact Hl|reflexivity|exact Hi|lia]. cbn [mbind outcome_bind].
  erewrite (rd_word_in sec _ _ 2 _ (4 * zlen pre + 8)); [|exact Hs|exact Hl|reflexivity|exact H3|lia]. cbn [mbind outcome_bind].
  rewrite Ek, Ev, Ef, btf_str_named by apply Hd.
  set (h := [n_off (decl_name d); info (decl_kflag d) (decl_kind d) (decl_vlen d); decl_third d]) in *.
  pose proof (type_body_decl strs d Hd id (pre ++ h) post sec) as Hb.
  replace (4 * zlen pre + 12) with (4 * zlen (pre ++ h)) by (rewrite zlen_app; change (zlen h) with 3; lia).
  rewrite Hb; [|exact Hl|rewrite Hs; by rewrite <- !app_assoc].
  cbn [mbind outcome_bind]. do 4 f_equal. rewrite zlen_app, zlen_enc_decl. change (zlen h) with 3. lia.
Qed.

Lemma type_loop strs sec ds fuel id ts pre : Forall (decl_ok strs) ds -> zlen sec < 2 ^ 64 ->
  sec = words (pre ++ concat (enc_decl <$> ds)) -> 0 <= id -> id + zlen ds < 2 ^ 32 -> (length ds < fuel)%nat ->
  loop fuel (type_step strs sec) (4 * zlen pre, id, ts) = Done (ts ++ types_of id ds).
Proof.
  intros Hds Hl. revert fuel id ts pre. induction Hds as [|d ds Hd Hds IH]; intros fuel id ts pre Hs H0 Hid Hf;
    (destruct fuel as [|fuel]; [cbn in Hf; lia|]); rewrite loop_S.
  - unfold type_step. cbn [fmap list_fmap concat] in Hs. rewrite app_nil_r in Hs.
    assert (zlen sec = 4 * zlen pre) as Hz by (rewrite Hs; apply zlen_words).
    rewrite (proj2 (Z.ltb_lt _ _)) by lia. cbn. by rewrite app_nil_r.
  - cbn [fmap list_fmap concat] in Hs. rewrite (type_step_decl strs d id ts pre _ sec Hd Hl Hs). cbn [mbind outcome_bind].
    rewrite zlen_cons in Hid. pose proof (zlen_nonneg ds). rewrite as_u32_small by (unfold is_u32; lia).
    rewrite <- zlen_app. rewrite (IH fuel (id + 1) (ts ++ [type_of id d]) (pre ++ enc_decl d)); [|by rewrite <- app_assoc|lia..|cbn in Hf; lia].
    cbn [types_of]. by rewrite <- app_assoc.
Qed.

Lemma concat_decls_length ds : 3 * zlen ds <= zlen (concat (enc_decl <$> ds)).
Proof.
  induction ds as [|d ds IH]; [done|]. cbn [fmap list_fmap concat].
  rewrite zlen_app, zlen_cons, zlen_enc_decl. pose proof (zlen_nonneg (decl_rest d)). lia.
Qed.

Lemma rd_u32_file pre w post tail p : is_u64 (zlen (words (pre ++ w :: post) ++ tail)) -> is_u32 w -> p = 4 * zlen pre ->
  rd_u32 (words (pre ++ w :: post) ++ tail) p = Done w.
Proof.
  intros Hl Hw ->. rewrite words_app in Hl |- *. change (words (w :: post)) with (le_bytes 4 w ++ words post) in *.
  rewrite <- !app_assoc in Hl |- *. rewrite <- (zlen_words pre). by apply (rd_le_at 4).
Qed.

(** C37: a raw BTF file that holds the declarations [ds] is read
    back as the void type followed by the type of each declaration, numbered
    from one: kind, name, size, referenced type, members with their bit
    offsets (also in the packed bit-field form), enumerators as signed
    numbers of 32 or 64 bits, integer width and signedness, array element
    and length. *)
Theorem btf_roundtrip ds strs :
  Forall (decl_ok strs) ds -> 24 + zlen (enc_file ds strs) < 2 ^ 32 ->
  open (Some (enc_file ds strs)) = Done (MkBtf (void :: types_of 1 ds)).
Proof.
  intros Hds Hl. unfold enc_file, raw_file in *. set (sec := words (concat (enc_decl <$> ds))) in *.
  set (hdr := words [24; 0; zlen sec; zlen sec; zlen strs]) in *.
  set (file := le_bytes 2 BTF_MAGIC ++ [1; 0] ++ hdr ++ sec ++ strs) in *.
  assert (file = words (0x1EB9F :: [24; 0; zlen sec; zlen sec; zlen strs]) ++ sec ++ strs) as Hf by reflexivity.
  assert (zlen file = 24 + zlen sec + zlen strs) as Hz by (rewrite Hf, zlen_app, zlen_words, zlen_app; unfold zlen; cbn; lia).
  pose proof (zlen_nonneg sec). pose proof (zlen_nonneg strs).
  assert (is_u64 (zlen file)) as H64 by (unfold is_u64; lia).
  set (ws := [24; 0; zlen sec; zlen sec; zlen strs]) in *.
  assert (forall pre w post p, 0x1EB9F :: ws = pre ++ w :: post -> p = 4 * zlen pre -> is_u32 w -> rd_u32 file p = Done w) as Hw.
  { intros pre w post p E -> Hw. rewrite Hf, E. apply rd_u32_file; [|done..]. by rewrite <- E, <- Hf. }
  unfold open. cbn [of_option mbind outcome_bind].
  rewrite (proj2 (Z.ltb_ge (zlen file) 24)) by lia.
  change (bytes_eqb (take 4 file) [0x7f; 69; 76; 70]) with false. rewrite andb_false_r. cbn [mbind outcome_bind].
  replace (slice file 0 (0 +₆₄ zlen file)) with (Some file); cycle 1.
  { symmetry. rewrite as_u64_small by (unfold is_u64 in *; lia). rewrite <- (app_nil_r file) at 1.
    apply (slice_at [] file []); [done|]. change (zlen (@nil Z)) with 0. lia. }
  cbn [of_option mbind outcome_bind]. rewrite (proj2 (Z.ltb_ge (zlen file) 24)) by lia.
  assert (rd_u16 file 0 = Done BTF_MAGIC) as ->.
  { apply (rd_le_at 2 [] BTF_MAGIC ([1; 0] ++ hdr ++ sec ++ strs)); [exact H64|unfold BTF_MAGIC; lia]. }
  cbn [mbind outcome_bind]. rewrite Z.eqb_refl. cbn [negb].
  rewrite (Hw [_] 24 _ 4 eq_refl eq_refl) by (unfold is_u32; lia). cbn [mbind outcome_bind].
  rewrite (Hw [_; _] 0 _ 8 eq_refl eq_refl) by (unfold is_u32; lia). cbn [mbind outcome_bind].
  rewrite (Hw [_; _; _] (zlen sec) _ 12 eq_refl eq_refl) by (unfold is_u32; lia). cbn [mbind outcome_bind].
  rewrite (Hw [_; _; _; _] (zlen sec) _ 16 eq_refl eq_refl) by (unfold is_u32; lia). cbn [mbind outcome_bind].
  rewrite (Hw [_; _; _; _; _] (zlen strs) _ 20 eq_refl eq_refl) by (unfold is_u32; lia). cbn [mbind outcome_bind].
  assert (zlen (words (0x1EB9F :: ws)) = 24) as H24 by (rewrite zlen_words; done).
  assert (slice file (24 + zlen sec) (24 + zlen sec + zlen strs) = Some strs) as ->.
  { replace file with ((words (0x1EB9F :: ws) ++ sec) ++ strs ++ []) by (rewrite Hf, app_nil_r; by rewrite <- app_assoc).
    apply slice_at; rewrite zlen_app; lia. }
  assert (slice file (24 + 0) (24 + 0 + zlen sec) = Some sec) as -> by (rewrite Hf; apply slice_at; lia).
  cbn [of_option mbind outcome_bind]. unfold parse_types.
  pose proof (concat_decls_length ds). pose proof (zlen_words (concat (enc_decl <$> ds))) as Hsec. fold sec in Hsec.
  rewrite (type_loop strs sec ds _ 1 [void] [] Hds); [done|lia|done|lia|lia|].
  unfold zlen in *. lia.
Qed.

(** * What the reader does not handle *)

(** A structure [s] with one member, after an integer type. *)
Definition demo_strs : list Z := 0 :: bs "int" ++ 0 :: bs "s" ++ 0 :: bs "m" ++ [0].
Definition n_int : Named := MkNamed 1 (bs "int").
Definition n_s : Named := MkNamed 5 (bs "s").
Definition n_m : Named := MkNamed 7 (bs "m").
Definition demo : list Decl :=
  [DInt n_int 4 1 0 32; DComposite false false n_s 4 [MkMDecl n_m 1 0 0]; DEnum64 n_int 8 [(n_m, -1); (n_s, 2 ^ 40)];
   DRef BTF_KIND_TYPEDEF n_s 2; DComposite true true n_int 4 [MkMDecl n_m 1 3 5; MkMDecl n_s 1 0 8]].

Lemma demo_strs_ok : named_ok demo_strs n_int /\ named_ok demo_strs n_s /\ named_ok demo_strs n_m.
Proof.
  unfold named_ok, str_at, is_u32. split_and!; try (vm_compute; intuition congruence).
  - exists [0], (bs "s" ++ 0 :: bs "m" ++ [0]). split_and!; [done|done|]. repeat constructor.
  - exists (0 :: bs "int" ++ [0]), (bs "m" ++ [0]). split_and!; [done|done|]. repeat constructor.
  - exists (0 :: bs "int" ++ 0 :: bs "s" ++ [0]), []. split_and!; [done|done|]. repeat constructor.
Qed.

Ltac fits := cbn; unfold is_u32, is_u16, is_u8; lia.

Lemma demo_ok : Forall (decl_ok demo_strs) demo.
Proof.
  destruct demo_strs_ok as (H1 & H2 & H3). unfold demo.
  assert (forall kf n ty w o, named_ok demo_strs n -> is_u32 ty -> is_u8 w -> 0 <= o < 2 ^ 24 ->
          member_ok demo_strs kf (MkMDecl n ty w o)) as Hm.
  { intros kf n ty w o ? ? ? ?. split; [done|]. split; [done|]. destruct kf; [done|fits]. }
  apply List.Forall_cons; [split; [done|fits]|].
  apply List.Forall_cons; [split; [done|]; split; [fits|]; split; [done|]|].
  { apply List.Forall_cons; [apply Hm; [done|fits..]|done]. }
  apply List.Forall_cons; [split; [done|]; split; [fits|]; split; [done|]|].
  { apply List.Forall_cons; [split; [done|fits]|]. apply List.Forall_cons; [split; [done|fits]|done]. }
  apply List.Forall_cons; [split; [done|]; split; [by right; right; left|fits]|].
  apply List.Forall_cons; [split; [done|]; split; [fits|]; split; [done|]|done].
  apply List.Forall_cons; [apply Hm; [done|fits..]|]. apply List.Forall_cons; [apply Hm; [done|fits..]|done].
Qed.

Lemma btf_roundtrip_witness :
  Forall (decl_ok demo_strs) demo /\ open (Some (enc_file demo demo_strs)) = Done (MkBtf (void :: types_of 1 demo)).
Proof. split; [exact demo_ok|apply btf_roundtrip; [exact demo_ok|vm_compute; reflexivity]]. Defined.

(** A declaration tag (kind 17): its header and the index word after it. *)
Definition decl_tag : list Z := [n_off n_s; info false 17 0; 2; 2 ^ 32 - 1].
Definition tagged_file : list Z :=
  raw_file (concat (enc_decl <$> take 1 demo) ++ decl_tag ++ concat (enc_decl <$> drop 1 demo)) demo_strs.

(** A declaration tag carries one word after its header;
    the reader does not skip it, so the types after a tag are lost.  The
    same declarations with a tag between the first two are read without an
    error, and the structure [s] is no longer found. *)
Theorem decl_tag_desyncs :
  (exists b t, open (Some (enc_file demo demo_strs)) = Done b /\ find_struct b (bs "s") = Some t /\ t_size t = 4) /\
  (exists b, open (Some tagged_file) = Done b /\ find_struct b (bs "s") = None).
Proof.
  split.
  - exists (MkBtf (void :: types_of 1 demo)), (type_of 2 (DComposite false false n_s 4 [MkMDecl n_m 1 0 0])).
    split_and!; [vm_compute; reflexivity|done|done].
  - eexists. split; [vm_compute; reflexivity|vm_compute; reflexivity].
Qed.

