(* ===== verification/BtfMutate.v ===== *)
(** fuzz/btf_mutate.rs: the type-aware mutator of a structure's bytes.  The
    buffer tail a field function receives ([&mut buf[byte_off..]]) is a list
    it returns changed.  Shown: a mutation never panics, keeps the length of
    the buffer, leaves every byte outside the field it selected as it was and
    counts one try for that field only; the field is selected with a
    probability proportional to its hits plus one. *)
From S2P Require Import Prelude FuzzRng FuzzDraw FuzzBtf.

Definition INT_BOUNDARIES : list Z :=
  [0; 1; 2; 0x7f; 0x80; 0xff; 0x100; 0x7fff; 0x8000; 0xffff; 0x10000; 0x7fffffff; 0x80000000; 0xffffffff;
   0x100000000; 0x7fffffffffffffff; 0x8000000000000000; 0xffffffffffffffff].

Definition PTR_VALUES : list Z := [0; 0xdead; 0x1000; 0xffff; 0xffffffff; 0x7fffffffe000; 0xffff888000000000].

Record FieldWeight : Type := MkWeight { hits : Z; tries : Z }.

(** [struct BtfMutator]; [btf] is the table it borrows. *)
Record BtfMutator : Type := MkMutator { btf : Btf; root_id : Z; weights : list FieldWeight; nmembers : Z }.

(** * Field values *)

Definition mask_bits (val bits : Z) : Z := if 64 <=? bits then val else Z.land val (2 ^ bits - 1).

Definition write_int (field : list Z) (val nbytes : Z) : list Z :=
  let n := Z.to_nat (Z.min (Z.min nbytes (zlen field)) 8) in
  le_bytes n val ++ drop n field.

Definition read_int (field : list Z) (nbytes : Z) : Z :=
  le_val (take (Z.to_nat (Z.min (Z.min nbytes (zlen field)) 8)) field).

(** [buf[i] ^= 1 << rng.below(8)] *)
Definition flip_bit (buf : list Z) (i : Z) : draw (list Z) :=
  k ← below 8; b ← lift (idx buf i); lift (upd buf i (Z.lxor b (Z.shiftl 1 k))).

(** [TABLE[rng.below(TABLE.len())]] *)
Definition pick {A} (l : list A) : draw A := i ← below (zlen l); lift (idx l i).

Definition mutate_int_field (field : list Z) (bits : Z) (is_signed : bool) : draw (list Z) :=
  let bits := if bits =? 0 then 8 else bits in
  let nbytes := (bits + 7) / 8 in
  strategy ← below 100;
  if strategy <? 40 then
    val ← pick INT_BOUNDARIES;
    let val := mask_bits val bits in
    neg ← (if is_signed then c ← below 3; mret (c =? 0) else mret false);
    mret (write_int field (if neg : bool then mask_bits (as_u64 (- val)) bits else val) nbytes)
  else if strategy <? 60 then
    if 0 <? nbytes then
      byte_idx ← below nbytes;
      if byte_idx <? zlen field then flip_bit field byte_idx else mret field
    else mret field
  else if strategy <? 80 then
    let val := read_int field nbytes in
    d ← below 35;
    r ← random;
    let val := if Z.land r 1 =? 1 then val +₆₄ (d + 1) else val -₆₄ (d + 1) in
    mret (write_int field (mask_bits val bits) nbytes)
  else
    val ← random62;
    mret (write_int field (mask_bits val bits) nbytes).

Definition mutate_ptr_field (field : list Z) : draw (list Z) :=
  strategy ← below 100;
  val ← (if strategy <? 60 then pick PTR_VALUES
         else if strategy <? 80 then v ← random62; mret (Z.land v (2 ^ 64 - 1 - 0xfff))
         else random62);
  mret (write_int field val 8).

Definition mutate_enum_field (field : list Z) (size : Z) (enum_type : BtfType) : draw (list Z) :=
  strategy ← below 100;
  let some := negb (bool_decide (enums enum_type = [])) in
  if (strategy <? 70) && some then
    e ← pick (enums enum_type);
    mret (write_int field (as_u64 (e_val e)) size)
  else if (strategy <? 90) && some then
    e ← pick (enums enum_type);
    r ← random;
    let val := as_i64 (e_val e + if Z.land r 1 =? 1 then 1 else -1) in
    mret (write_int field (as_u64 val) size)
  else
    val ← random62;
    let val := if (size <? 8) && (0 <? size) then Z.land val (2 ^ (size * 8) - 1) else val in
    mret (write_int field val size).

(** [field[start + i] ^= rng.rand()] while the index is in the buffer *)
Fixpoint scramble (field : list Z) (p : Z) (n : nat) : draw (list Z) :=
  match n with
  | O => mret field
  | S n =>
      field ← (if p <? zlen field then r ← random; b ← lift (idx field p); lift (upd field p (Z.lxor b (Z.land r 0xff)))
               else mret field);
      scramble field (p + 1) n
  end.

(** [for b in field[..n].iter_mut() { *b = rng.rand() }] *)
Fixpoint fill_random (n : nat) : draw (list Z) :=
  match n with
  | O => mret []
  | S n => r ← random; l ← fill_random n; mret (Z.land r 0xff :: l)
  end.

Definition mutate_array_field (field : list Z) (elem_size nelems : Z) : draw (list Z) :=
  if (nelems =? 0) || (elem_size =? 0) then mret field else
  let total := Z.to_nat (Z.min (elem_size * nelems) (zlen field)) in
  strategy ← below 100;
  if strategy <? 40 then
    i ← below nelems;
    scramble field (i * elem_size) (Z.to_nat elem_size)
  else if strategy <? 70 then mret (replicate total 0 ++ drop total field)
  else if strategy <? 85 then mret (replicate total 0xff ++ drop total field)
  else l ← fill_random total; mret (l ++ drop total field).

(** * The mutator *)

Definition init (b : Btf) (struct_type_id : Z) : BtfMutator :=
  let n := match type_by_id b struct_type_id with Some t => zlen (members t) | None => 0 end in
  MkMutator b struct_type_id (replicate (Z.to_nat n) (MkWeight 0 0)) n.

(** The sum and the running sum of [hits + 1], as [u32]. *)
Definition total_weight (ws : list FieldWeight) : Z := foldl (fun acc w => as_u32 (acc + as_u32 (hits w + 1))) 0 ws.

Fixpoint pick_weighted (ws : list FieldWeight) (r acc i : Z) : option Z :=
  match ws with
  | [] => None
  | w :: ws => let acc := as_u32 (acc + as_u32 (hits w + 1)) in if r <? acc then Some i else pick_weighted ws r acc (i + 1)
  end.

Definition select_field (m : BtfMutator) : draw Z :=
  if nmembers m =? 0 then mret 0 else
  let total := total_weight (weights m) in
  x ← random;
  r ← lift (if total =? 0 then Panic else Done (as_u32 (x mod total)));
  mret (default (nmembers m - 1) (pick_weighted (weights m) r 0 0)).

(** [f(&mut buf[off..])] *)
Definition on_tail (buf : list Z) (off : Z) (f : list Z -> draw (list Z)) : draw (list Z) :=
  tail ← lift (or_panic (slice_from buf off));
  tail ← f tail;
  mret (take (Z.to_nat off) buf ++ tail).

(** The [match ft_kind] of [mutate]. *)
Definition mutate_field (buf : list Z) (byte_off : Z) (ft : BtfType) : draw (list Z) :=
  let k := t_kind ft in
  if k =? BTF_KIND_INT then on_tail buf byte_off (fun f => mutate_int_field f (int_bits ft) (negb (int_signed ft =? 0)))
  else if k =? BTF_KIND_PTR then on_tail buf byte_off mutate_ptr_field
  else if k =? BTF_KIND_ENUM then on_tail buf byte_off (fun f => mutate_enum_field f (t_size ft) ft)
  else if k =? BTF_KIND_ARRAY then on_tail buf byte_off (fun f => mutate_array_field f 1 (array_nelems ft))
  else if is_composite ft then
    if 0 <? t_size ft then
      off ← below (t_size ft);
      if byte_off + off <? zlen buf then flip_bit buf (byte_off + off) else mret buf
    else mret buf
  else flip_bit buf byte_off.

Definition with_weights (m : BtfMutator) (ws : list FieldWeight) : BtfMutator := MkMutator (btf m) (root_id m) ws (nmembers m).

(** [mutate]: the field index or -1, the mutator and the buffer. *)
Definition mutate (m : BtfMutator) (buf : list Z) : draw (Z * BtfMutator * list Z) :=
  if nmembers m =? 0 then mret (-1, m, buf) else
  match type_by_id (btf m) (root_id m) with
  | None => mret (-1, m, buf)
  | Some root =>
      if zlen buf <? t_size root then mret (-1, m, buf) else
      field_idx ← select_field m;
      member ← lift (idx (members root) field_idx);
      let byte_off := offset_bits member / 8 in
      if zlen buf <=? byte_off then mret (-1, m, buf) else
      match type_by_id (btf m) (m_type member) with
      | None => mret (as_i32 field_idx, m, buf)
      | Some t =>
          ft ← lift (resolve (btf m) t);
          w ← lift (idx (weights m) field_idx);
          ws ← lift (upd (weights m) field_idx (MkWeight (hits w) (as_u32 (tries w + 1))));
          buf ← mutate_field buf byte_off ft;
          mret (as_i32 field_idx, with_weights m ws, buf)
      end
  end.

Definition reward (m : BtfMutator) (field_idx : Z) : outcome BtfMutator :=
  if (0 <=? field_idx) && (field_idx <? nmembers m) then
    w ← idx (weights m) field_idx;
    ws ← upd (weights m) field_idx (MkWeight (as_u32 (hits w + 1)) (tries w));
    Done (with_weights m ws)
  else Done m.

(** * Changes confined to a span *)

(** [buf'] differs from [buf] only at indices in [off, off + w). *)
Definition confined (off w : Z) (buf buf' : list Z) : Prop :=
  length buf' = length buf /\ (bytes_ok buf -> bytes_ok buf') /\
  forall i : nat, (Z.of_nat i < off \/ off + w <= Z.of_nat i) -> buf' !! i = buf !! i.

Lemma span_refl off w buf : confined off w buf buf.
Proof. done. Qed.

Lemma span_trans off w a b c : confined off w a b -> confined off w b c -> confined off w a c.
Proof. intros (L1 & B1 & H1) (L2 & B2 & H2). split_and!; [congruence|auto|]. intros i Hi. by rewrite H2, H1. Qed.

Lemma span_weaken off w off' w' a b : confined off w a b -> off' <= off -> off + w <= off' + w' -> confined off' w' a b.
Proof. intros (L & B & H) Ho Hw. split_and!; [done..|]. intros i Hi. apply H. lia. Qed.

(** A prefix replaced by as many bytes. *)
Lemma confined_prefix l field w : bytes_ok l -> (length l <= length field)%nat -> Z.of_nat (length l) <= w ->
  confined 0 w field (l ++ drop (length l) field).
Proof.
  intros Hb Hl Hw. split_and!.
  - rewrite length_app, length_drop. lia.
  - intros Hf. apply Forall_app. split; [done|]. by apply Forall_drop.
  - intros i [Hi|Hi]; [lia|]. rewrite lookup_app_r by lia. rewrite lookup_drop. f_equal. lia.
Qed.

Lemma confined_write_int field v n w : 0 <= n -> Z.min n 8 <= w -> confined 0 w field (write_int field v n).
Proof.
  intros Hn Hw. unfold write_int. set (k := Z.to_nat _).
  replace (drop k field) with (drop (length (le_bytes k v)) field) by (by rewrite length_le_bytes).
  apply confined_prefix; rewrite ?length_le_bytes; [apply le_bytes_ok|unfold k, zlen; lia|unfold k, zlen; lia].
Qed.

Lemma confined_upd buf i v buf' : upd buf i v = Done buf' -> is_u8 v -> confined i 1 buf buf'.
Proof.
  unfold upd. intros E Hv. destruct ((0 <=? i) && (i <? zlen buf)) eqn:Hi; [|done]. injection E as <-.
  apply andb_true_iff in Hi as [?%Z.leb_le ?%Z.ltb_lt]. split_and!.
  - apply length_insert.
  - intros Hb. by apply Forall_insert.
  - intros j Hj. rewrite list_lookup_insert_ne; [done|lia].
Qed.

Lemma confined_tail off w buf tail tail' : slice_from buf off = Some tail -> confined 0 w tail tail' ->
  confined off w buf (take (Z.to_nat off) buf ++ tail').
Proof.
  intros Hs (Hl & Hb & Hi). unfold slice_from in Hs.
  destruct ((0 <=? off) && (off <=? zlen buf)) eqn:E; [|done]. injection Hs as <-.
  apply andb_true_iff in E as [?%Z.leb_le ?%Z.leb_le]. unfold zlen in *. rewrite length_drop in Hl. split_and!.
  - rewrite length_app, length_take. lia.
  - intros Hbuf. apply Forall_app. split; [by apply Forall_take|]. apply Hb. by apply Forall_drop.
  - intros i Hd. destruct (decide (Z.of_nat i < off)) as [Hlt|Hge].
    + rewrite lookup_app_l by (rewrite length_take; lia). by rewrite lookup_take_lt by lia.
    + rewrite lookup_app_r by (rewrite length_take; lia). rewrite length_take, Hi by lia. rewrite lookup_drop. f_equal. lia.
Qed.

(** * The field functions *)

(** [m] changes only the first [w] bytes of the list it is given. *)
Definition edits (field : list Z) (w : Z) (m : draw (list Z)) : Prop := draws m (confined 0 w field).

Lemma draws_idx {A B} (l : list A) i (f : A -> draw B) Q : 0 <= i < zlen l -> (forall x, x ∈ l -> draws (f x) Q) ->
  draws (lift (idx l i) ≫= f) Q.
Proof.
  intros Hi Hf. apply draws_lift_bind. destruct (idx_Done l i Hi) as (x & -> & Hx). cbn. apply Hf.
  apply get_Some in Hx as [_ Hx]. by eapply list_elem_of_lookup_2.
Qed.

Lemma draws_pick {A B} (l : list A) (f : A -> draw B) Q : l <> [] -> (forall x, x ∈ l -> draws (f x) Q) ->
  draws (pick l ≫= f) Q.
Proof.
  intros Hl Hf. eapply draws_bind; [|exact Hf]. unfold pick. apply draws_below_bind.
  - destruct l; [done|]. rewrite zlen_cons. pose proof (zlen_nonneg l). lia.
  - intros i Hi. apply draws_lift. destruct (idx_Done l i Hi) as (x & -> & Hx). cbn.
    apply get_Some in Hx as [_ Hx]. by eapply list_elem_of_lookup_2.
Qed.

Lemma draws_upd buf i v (Q : list Z -> Prop) : 0 <= i < zlen buf -> is_u8 v ->
  (forall buf', confined i 1 buf buf' -> Q buf') -> draws (lift (upd buf i v)) Q.
Proof.
  intros Hi Hv HQ. apply draws_lift. destruct (upd buf i v) eqn:E; cbn; [apply HQ; by eapply confined_upd|..];
    unfold upd in E; rewrite (proj2 (Z.leb_le _ _)), (proj2 (Z.ltb_lt _ _)) in E by lia; done.
Qed.

Lemma draws_flip_bit buf i : bytes_ok buf -> 0 <= i < zlen buf -> draws (flip_bit buf i) (confined i 1 buf).
Proof.
  intros Hb Hi. unfold flip_bit. apply draws_below_bind; [lia|]. intros k Hk. apply draws_idx; [done|]. intros x Hx.
  apply draws_upd; [done| |done]. apply lxor_range; [lia| |].
  - by eapply Forall_forall in Hb.
  - rewrite Z.shiftl_mul_pow2, Z.mul_1_l by lia. pose proof (Z.pow_le_mono_r 2 k 7). lia.
Qed.

Lemma edits_int field bits sgn : bytes_ok field -> 0 <= bits ->
  edits field (((if bits =? 0 then 8 else bits) + 7) / 8) (mutate_int_field field bits sgn).
Proof.
  intros Hf Hb. unfold mutate_int_field. set (bs := if bits =? 0 then 8 else bits).
  assert (0 < bs) as Hbs by (unfold bs; destruct (Z.eqb_spec bits 0); lia).
  set (n := (bs + 7) / 8). assert (0 < n) as Hn by (unfold n; dlia).
  assert (forall v, confined 0 n field (write_int field v n)) as Hw by (intros; apply confined_write_int; lia).
  apply draws_below_bind; [lia|]. intros s _. destruct (s <? 40).
  { apply draws_pick; [done|]. intros v _. destruct sgn.
    - eapply draws_bind; [|intros neg _; apply draws_ret, Hw]. apply draws_below_bind; [lia|]. intros c _. by apply (draws_ret _ (fun _ => True)).
    - eapply draws_bind; [by apply (draws_ret _ (fun _ => True))|]. intros neg _. apply draws_ret, Hw. }
  destruct (s <? 60).
  { rewrite (proj2 (Z.ltb_lt 0 n)) by done. apply draws_below_bind; [done|]. intros i Hi.
    destruct (Z.ltb_spec i (zlen field)); [|by apply draws_ret].
    eapply draws_mono; [by apply draws_flip_bit; [|lia]|]. intros f Hc. eapply span_weaken; [exact Hc|lia|lia]. }
  destruct (s <? 80).
  - apply draws_below_bind; [lia|]. intros d _. apply draws_random_bind. intros r _. apply draws_ret, Hw.
  - apply draws_random62_bind. intros v _. apply draws_ret, Hw.
Qed.

Lemma edits_ptr field : edits field 8 (mutate_ptr_field field).
Proof.
  unfold mutate_ptr_field. apply draws_below_bind; [lia|]. intros s _.
  eapply (draws_bind _ _ (fun _ => True)); [|intros v _; apply draws_ret, confined_write_int; lia].
  destruct (s <? 60); [|destruct (s <? 80)].
  - unfold pick. apply draws_below_bind; [done|]. intros i Hi. apply draws_lift.
    destruct (idx_Done PTR_VALUES i Hi) as (x & -> & _). done.
  - apply draws_random62_bind. intros v _. by apply draws_ret.
  - eapply draws_mono; [apply draws_random62|done].
Qed.

Lemma edits_enum field size t : 0 <= size -> edits field (Z.min size 8) (mutate_enum_field field size t).
Proof.
  intros Hs. unfold mutate_enum_field. assert (forall v, confined 0 (Z.min size 8) field (write_int field v size)) as Hw.
  { intros. by apply confined_write_int. }
  apply draws_below_bind; [lia|]. intros s _.
  destruct (decide (enums t = [])) as [He|He]; [rewrite (bool_decide_eq_true_2 _ He)|rewrite (bool_decide_eq_false_2 _ He)];
    cbn [negb]; rewrite ?andb_false_r, ?andb_true_r.
  { apply draws_random62_bind. intros v _. apply draws_ret, Hw. }
  destruct (s <? 70); [|destruct (s <? 90)].
  - apply draws_pick; [done|]. intros e _. apply draws_ret, Hw.
  - apply draws_pick; [done|]. intros e _. apply draws_random_bind. intros r _. apply draws_ret, Hw.
  - apply draws_random62_bind. intros v _. apply draws_ret, Hw.
Qed.

Lemma land_u8 r : is_u8 (Z.land r 0xff).
Proof. change 0xff with (Z.ones 8). rewrite Z.land_ones by lia. apply Z.mod_pos_bound. lia. Qed.

Lemma draws_scramble n : forall field p, bytes_ok field -> 0 <= p -> draws (scramble field p n) (confined p (Z.of_nat n) field).
Proof.
  induction n as [|n IH]; intros field p Hf Hp; [by apply draws_ret|]. cbn [scramble].
  eapply (draws_bind _ _ (confined p 1 field)).
  - destruct (Z.ltb_spec p (zlen field)); [|by apply draws_ret]. apply draws_random_bind. intros r _.
    apply draws_idx; [lia|]. intros x Hx. apply draws_upd; [lia| |done].
    apply lxor_range; [lia| |apply land_u8]. by eapply Forall_forall in Hf.
  - intros f Hc. eapply draws_mono; [apply IH; [by apply Hc|lia]|]. intros f' Hc'.
    eapply span_trans; (eapply span_weaken; [eassumption|lia|lia]).
Qed.

Lemma draws_fill_random n : draws (fill_random n) (fun l => length l = n /\ bytes_ok l).
Proof.
  induction n as [|n IH]; [apply draws_ret; by split; [|constructor]|]. cbn [fill_random]. apply draws_random_bind. intros r _.
  eapply draws_bind; [exact IH|]. intros l [Hl Hb]. apply draws_ret. split; [by cbn; rewrite Hl|]. constructor; [apply land_u8|done].
Qed.

Lemma bytes_ok_replicate n b : is_u8 b -> bytes_ok (replicate n b).
Proof. intros. by apply Forall_replicate. Qed.

Lemma edits_array field nelems : bytes_ok field -> 0 <= nelems -> edits field nelems (mutate_array_field field 1 nelems).
Proof.
  intros Hf Hn. unfold mutate_array_field. destruct (Z.eqb_spec nelems 0); [by apply draws_ret|]. cbn [orb Z.eqb].
  set (k := Z.to_nat (Z.min (1 * nelems) (zlen field))). assert (k <= length field)%nat as Hk by (unfold k, zlen; lia).
  assert (Z.of_nat k <= nelems) as Hk' by (unfold k, zlen; lia).
  assert (forall l, bytes_ok l -> length l = k -> confined 0 nelems field (l ++ drop k field)) as Hw.
  { intros l Hb <-. by apply confined_prefix. }
  apply draws_below_bind; [lia|]. intros s _. destruct (s <? 40); [|destruct (s <? 70); [|destruct (s <? 85)]].
  - apply draws_below_bind; [lia|]. intros i Hi. eapply draws_mono; [apply draws_scramble; [done|lia]|].
    intros f Hc. eapply span_weaken; [exact Hc|lia|lia].
  - apply draws_ret, Hw; [by apply bytes_ok_replicate|apply length_replicate].
  - apply draws_ret, Hw; [by apply bytes_ok_replicate|apply length_replicate].
  - eapply draws_bind; [apply draws_fill_random|]. intros l [Hl Hb]. by apply draws_ret, Hw.
Qed.

Lemma draws_on_tail buf off w f : 0 <= off <= zlen buf -> (forall t, slice_from buf off = Some t -> edits t w (f t)) ->
  draws (on_tail buf off f) (confined off w buf).
Proof.
  intros Ho Hf. unfold on_tail. apply draws_lift_bind. destruct (slice_from buf off) as [t|] eqn:E.
  - cbn. eapply draws_bind; [by apply Hf|]. intros t' Ht. apply draws_ret. by eapply confined_tail.
  - unfold slice_from in E. rewrite !(proj2 (Z.leb_le _ _)) in E by lia. done.
Qed.

(** The bytes a field of type [ft] can have changed, from its first. *)
Definition field_width (ft : BtfType) : Z :=
  if t_kind ft =? BTF_KIND_INT then ((if int_bits ft =? 0 then 8 else int_bits ft) + 7) / 8
  else if t_kind ft =? BTF_KIND_PTR then 8
  else if t_kind ft =? BTF_KIND_ENUM then Z.min (t_size ft) 8
  else if t_kind ft =? BTF_KIND_ARRAY then array_nelems ft
  else if is_composite ft then t_size ft
  else 1.

Lemma slice_from_ok buf off t : bytes_ok buf -> slice_from buf off = Some t -> bytes_ok t.
Proof. intros Hb H. apply slice_from_Some in H as [_ ->]. by apply Forall_drop. Qed.

Lemma draws_mutate_field buf off ft i : bytes_ok buf -> 0 <= off < zlen buf -> type_wf i ft ->
  draws (mutate_field buf off ft) (confined off (field_width ft) buf).
Proof.
  intros Hb Ho (_ & _ & Hsz & _ & _ & _ & Hib & _ & _ & _ & _ & Hne). unfold mutate_field, field_width.
  unfold is_u8, is_u32 in *.
  destruct (t_kind ft =? BTF_KIND_INT).
  { apply draws_on_tail; [lia|]. intros t Ht. apply edits_int; [by eapply slice_from_ok|lia]. }
  destruct (t_kind ft =? BTF_KIND_PTR); [apply draws_on_tail; [lia|intros; apply edits_ptr]|].
  destruct (t_kind ft =? BTF_KIND_ENUM); [apply draws_on_tail; [lia|intros; apply edits_enum; lia]|].
  destruct (t_kind ft =? BTF_KIND_ARRAY).
  { apply draws_on_tail; [lia|]. intros t Ht. apply edits_array; [by eapply slice_from_ok|lia]. }
  destruct (is_composite ft); [|by apply draws_flip_bit].
  destruct (Z.ltb_spec 0 (t_size ft)); [|by apply draws_ret]. apply draws_below_bind; [done|]. intros k Hk.
  destruct (Z.ltb_spec (off + k) (zlen buf)); [|by apply draws_ret].
  eapply draws_mono; [apply draws_flip_bit; [done|lia]|]. intros f Hc. eapply span_weaken; [exact Hc|lia|lia].
Qed.

(** * Selection by weight *)

Definition weight (w : FieldWeight) : Z := hits w + 1.
Definition sum_weights (ws : list FieldWeight) : Z := foldr (fun w n => weight w + n) 0 ws.

Definition weights_ok (ws : list FieldWeight) : Prop := Forall (fun w => 0 <= hits w) ws /\ sum_weights ws < 2 ^ 32.

Lemma sum_weights_cons w ws : sum_weights (w :: ws) = weight w + sum_weights ws.
Proof. done. Qed.

Lemma sum_weights_nonneg ws : Forall (fun w => 0 <= hits w) ws -> zlen ws <= sum_weights ws.
Proof. induction 1 as [|w ws Hw _ IH]; [done|]. rewrite zlen_cons, sum_weights_cons. unfold weight. lia. Qed.

Lemma weights_ok_cons w ws : weights_ok (w :: ws) -> 0 <= hits w /\ weights_ok ws /\ weight w + sum_weights ws < 2 ^ 32.
Proof.
  intros [H Hs]. apply Forall_cons in H as [Hw H]. pose proof (sum_weights_nonneg ws H). pose proof (zlen_nonneg ws).
  rewrite sum_weights_cons in Hs. unfold weight in *. split; [done|]. split; [split; [done|lia]|lia].
Qed.

Lemma acc_weight acc w : 0 <= acc -> 0 <= hits w -> acc + weight w < 2 ^ 32 -> as_u32 (acc + as_u32 (hits w + 1)) = acc + weight w.
Proof.
  intros Ha Hw H. unfold weight in *.
  rewrite (as_u32_small (hits w + 1)) by (unfold is_u32; lia). apply as_u32_small. unfold is_u32. lia.
Qed.

Lemma foldl_weight ws acc : weights_ok ws -> 0 <= acc -> acc + sum_weights ws < 2 ^ 32 ->
  foldl (fun acc w => as_u32 (acc + as_u32 (hits w + 1))) acc ws = acc + sum_weights ws.
Proof.
  revert acc. induction ws as [|w ws IH]; intros acc H Ha Hs; cbn [foldl]; [cbn; lia|].
  rewrite sum_weights_cons in *. apply weights_ok_cons in H as (Hw & H & _).
  pose proof (sum_weights_nonneg ws (proj1 H)). pose proof (zlen_nonneg ws).
  rewrite acc_weight by lia. rewrite IH; [lia|done|unfold weight; lia|lia].
Qed.

Lemma total_weight_sum ws : weights_ok ws -> total_weight ws = sum_weights ws.
Proof. intros H. unfold total_weight. rewrite foldl_weight; [lia|done|lia|apply H]. Qed.

Lemma pick_weighted_spec ws r acc i : weights_ok ws -> 0 <= acc -> acc + sum_weights ws < 2 ^ 32 -> acc <= r ->
  match pick_weighted ws r acc i with
  | Some j => exists k : nat, j = i + Z.of_nat k /\ (k < length ws)%nat /\
                acc + sum_weights (take k ws) <= r < acc + sum_weights (take (S k) ws)
  | None => acc + sum_weights ws <= r
  end.
Proof.
  revert acc i. induction ws as [|w ws IH]; intros acc i H Ha Hs Hr; cbn [pick_weighted]; [cbn; lia|].
  apply weights_ok_cons in H as (Hw & H & _). pose proof (sum_weights_nonneg ws (proj1 H)). pose proof (zlen_nonneg ws).
  rewrite sum_weights_cons in Hs |- *. rewrite acc_weight by lia.
  destruct (Z.ltb_spec r (acc + weight w)).
  - exists 0%nat. change (take 1 (w :: ws)) with [w]. change (sum_weights [w]) with (weight w + 0).
    change (sum_weights (take 0 (w :: ws))) with 0. cbn [length]. lia.
  - specialize (IH (acc + weight w) (i + 1) H ltac:(unfold weight; lia) ltac:(lia) ltac:(lia)).
    destruct (pick_weighted ws r _ _) as [j|]; [|lia].
    destruct IH as (k & -> & Hk & Hlo). exists (S k). rewrite !firstn_cons, !sum_weights_cons. cbn [length].
    split; [lia|]. split; [lia|]. lia.
Qed.

(** * A whole mutation *)

(** A mutator whose table is well formed and whose qualifiers all resolve,
    and whose counters belong to the members of its root type. *)
Record mut_wf (m : BtfMutator) : Prop := MutWf
  { wf_table : table_wf (types (btf m));
    wf_resolve : forall t, t ∈ types (btf m) -> exists u, resolve (btf m) t = Done u;
    wf_members : match type_by_id (btf m) (root_id m) with Some t => nmembers m = zlen (members t) | None => nmembers m = 0 end;
    wf_weights : zlen (weights m) = nmembers m;
    wf_hits : weights_ok (weights m) }.

Lemma wf_nmembers m : mut_wf m -> 0 <= nmembers m < 2 ^ 16.
Proof.
  intros [Ht _ Hm _ _]. destruct (type_by_id (btf m) (root_id m)) as [t|] eqn:E; [|lia].
  apply get_Some in E as [_ E]. destruct (proj2 Ht _ _ E) as (_ & _ & _ & _ & Hl & _). rewrite Hm. pose proof (zlen_nonneg (members t)). lia.
Qed.

Lemma sum_take_mono ws (a b : nat) : Forall (fun w => 0 <= hits w) ws -> (a <= b)%nat ->
  sum_weights (take a ws) <= sum_weights (take b ws).
Proof.
  intros H. revert a b. induction H as [|w ws Hw H IH]; intros a b Hab; [by rewrite !take_nil|].
  destruct a as [|a]; destruct b as [|b]; [done| |lia|].
  - change (sum_weights (take 0 (w :: ws))) with 0. pose proof (zlen_nonneg (take (S b) (w :: ws))).
    pose proof (sum_weights_nonneg (take (S b) (w :: ws)) ltac:(apply Forall_take; by constructor)). lia.
  - rewrite !firstn_cons, !sum_weights_cons. specialize (IH a b ltac:(lia)). lia.
Qed.

(** Field [i] is selected for the draws [x] whose remainder falls in its
    share, [hits + 1], of the sum. *)
Definition share (m : BtfMutator) (i x : Z) : Prop :=
  0 <= i < nmembers m /\
  sum_weights (take (Z.to_nat i) (weights m)) <= x mod sum_weights (weights m) < sum_weights (take (Z.to_nat (i + 1)) (weights m)).

Lemma select_field_share m r : mut_wf m -> nmembers m <> 0 -> Rng.wf r ->
  exists i, select_field m r = Done (i, (Rng.rand r).2) /\ share m i (Rng.rand r).1.
Proof.
  intros Hm Hn Hr. pose proof (wf_nmembers m Hm). destruct Hm as [_ _ _ Hw Hh].
  pose proof (sum_weights_nonneg _ (proj1 Hh)) as Hs. pose proof (proj2 Hh) as Hlt.
  unfold select_field. rewrite (proj2 (Z.eqb_neq _ 0)) by done. rewrite total_weight_sum by done.
  unfold mbind, draw_bind, random. cbn [mbind outcome_bind]. destruct (Rng.rand r) as [x r'] eqn:Ex. cbn [fst snd].
  rewrite (proj2 (Z.eqb_neq (sum_weights _) 0)) by lia. unfold lift. cbn [mbind outcome_bind].
  assert (0 <= x mod sum_weights (weights m) < sum_weights (weights m)) as Hx by (apply Z.mod_pos_bound; lia).
  rewrite as_u32_small by (unfold is_u32; lia).
  pose proof (pick_weighted_spec (weights m) (x mod sum_weights (weights m)) 0 0 Hh ltac:(lia) ltac:(lia) ltac:(lia)) as Hp.
  destruct (pick_weighted _ _ 0 0) as [j|]; [|lia]. destruct Hp as (k & -> & Hk & Hb).
  exists (0 + Z.of_nat k). split; [reflexivity|]. unfold share. unfold zlen in *.
  replace (Z.to_nat (0 + Z.of_nat k)) with k by lia. replace (Z.to_nat (0 + Z.of_nat k + 1)) with (S k) by lia. lia.
Qed.

Lemma resolve_in_table b t u : t ∈ types b -> resolve b t = Done u -> u ∈ types b.
Proof.
  intros Ht Hu. refine (loop_inv (fun t => t ∈ types b) (fun u => u ∈ types b) (resolve_step b) _ t u _ Ht Hu).
  intros s c Hs. unfold resolve_step. destruct (is_qualifier s); [|by intros [= <-]].
  destruct (type_by_id b (ref_type_id s)) as [v|] eqn:E; intros [= <-]; [|done].
  apply get_Some in E as [_ E]. by eapply list_elem_of_lookup_2.
Qed.

Lemma weights_ok_try ws i w n : weights_ok ws -> ws !! i = Some w -> weights_ok (<[i := MkWeight (hits w) n]> ws).
Proof.
  intros [H Hs] Hi. split.
  - apply Forall_insert; [done|]. exact (Forall_lookup_1 _ _ _ _ H Hi).
  - replace (sum_weights _) with (sum_weights ws); [done|]. clear H Hs. revert i Hi.
    induction ws as [|v ws IH]; intros [|i] Hi; cbn [insert list_insert]; rewrite ?sum_weights_cons; [done|done|..].
    + by injection Hi as ->.
    + f_equal. by apply IH.
Qed.

(** What [mutate] did: nothing, or one field's bytes and its try counter. *)
Definition edited (m : BtfMutator) (buf : list Z) (res : Z * BtfMutator * list Z) : Prop :=
  let '(i, m', buf') := res in
  (i = -1 /\ m' = m /\ buf' = buf) \/
  (exists root mem, 0 <= i < nmembers m /\ type_by_id (btf m) (root_id m) = Some root /\ get (members root) i = Some mem /\
   match type_by_id (btf m) (m_type mem) with
   | None => m' = m /\ buf' = buf
   | Some t =>
       exists ft w, resolve (btf m) t = Done ft /\ get (weights m) i = Some w /\
         confined (offset_bits mem / 8) (field_width ft) buf buf' /\
         m' = with_weights m (<[Z.to_nat i := MkWeight (hits w) (as_u32 (tries w + 1))]> (weights m))
   end).

Lemma mut_wf_tried m i w n : mut_wf m -> get (weights m) i = Some w ->
  mut_wf (with_weights m (<[Z.to_nat i := MkWeight (hits w) n]> (weights m))).
Proof.
  intros [Ht Hr Hm Hw Hh] [_ Hi]%get_Some. split; [done|done|done|..]; cbn.
  - by rewrite zlen_insert.
  - by apply weights_ok_try.
Qed.

(** From the selected field on. *)
Lemma draws_edit_field m buf root i mem : mut_wf m -> bytes_ok buf -> type_by_id (btf m) (root_id m) = Some root ->
  0 <= i < nmembers m -> get (members root) i = Some mem -> offset_bits mem / 8 < zlen buf ->
  draws (match type_by_id (btf m) (m_type mem) with
         | None => mret (as_i32 i, m, buf)
         | Some t =>
             ft ← lift (resolve (btf m) t);
             w ← lift (idx (weights m) i);
             ws ← lift (upd (weights m) i (MkWeight (hits w) (as_u32 (tries w + 1))));
             buf ← mutate_field buf (offset_bits mem / 8) ft;
             mret (as_i32 i, with_weights m ws, buf)
         end) (fun res => edited m buf res /\ mut_wf (res.1.2)).
Proof.
  intros Hm Hb Hroot Hi Hmem Ho. pose proof (wf_nmembers m Hm) as Hn.
  assert (as_i32 i = i) as Ei by (unfold as_i32, as_signed; dlia).
  destruct (type_by_id (btf m) (m_type mem)) as [t|] eqn:Et.
  - assert (t ∈ types (btf m)) as Htin by (apply get_Some in Et as [_ Et]; by eapply list_elem_of_lookup_2).
    apply draws_lift_bind. destruct (wf_resolve m Hm t Htin) as [ft Hft]. rewrite Hft. cbn [wp].
    apply draws_lift_bind. destruct (idx_Done (weights m) i) as (w & Hw & Hgw); [rewrite (wf_weights m Hm); lia|].
    rewrite Hw. cbn [wp]. apply draws_lift_bind. unfold upd.
    rewrite (proj2 (Z.leb_le _ _)), (proj2 (Z.ltb_lt _ _)) by (rewrite ?(wf_weights m Hm); lia). cbn [andb wp].
    apply (resolve_in_table _ _ _ Htin) in Hft as Hin. apply list_elem_of_lookup in Hin as [j Hj].
    eapply draws_bind; [eapply (draws_mutate_field buf _ ft j)|].
    + done.
    + assert (0 <= offset_bits mem); [|split; [dlia|done]].
      apply get_Some in Hroot as [_ Hroot]. destruct (proj2 (wf_table m Hm) _ _ Hroot) as (_ & _ & _ & _ & _ & _ & _ & _ & Hms & _).
      apply get_Some in Hmem as [_ Hmem]. eapply Forall_lookup_1 in Hmem; [|exact Hms]. unfold is_u32 in Hmem. lia.
    + by apply (proj2 (wf_table m Hm)).
    + intros buf' Hc. apply draws_ret. cbn [fst snd]. split; [|by apply mut_wf_tried].
      right. exists root, mem. rewrite Ei, Et. split; [done|]. split; [done|]. split; [done|]. by exists ft, w.
  - apply draws_ret. split; [|done]. right. exists root, mem. by rewrite Ei, Et.
Qed.

(** C38: a mutation of a structure's bytes never panics; it
    changes nothing, or exactly the bytes of one member of the root type, at
    most as wide as its resolved type allows, and it counts one try for that
    member and for no other.  The buffer keeps its length. *)
Theorem btf_mutate_confined m buf : mut_wf m -> bytes_ok buf ->
  draws (mutate m buf) (fun res => edited m buf res /\ mut_wf (res.1.2)).
Proof.
  intros Hm Hb. assert (draws (mret (-1, m, buf)) (fun res => edited m buf res /\ mut_wf (res.1.2))) as Hno.
  { apply draws_ret. split; [by left|done]. }
  unfold mutate. destruct (Z.eqb_spec (nmembers m) 0) as [|Hn]; [done|].
  destruct (type_by_id (btf m) (root_id m)) as [root|] eqn:Er; [|done].
  destruct (zlen buf <? t_size root); [done|].
  eapply (draws_bind _ _ (fun i => 0 <= i < nmembers m)).
  { intros r Hr. destruct (select_field_share m r Hm Hn Hr) as (i & -> & [Hi _]). cbn. split; [done|by apply rng_rand_wf]. }
  intros i Hi. apply draws_lift_bind. pose proof (wf_members m Hm) as Hl. rewrite Er in Hl.
  destruct (idx_Done (members root) i) as (mem & -> & Hmem); [lia|]. cbn [wp].
  destruct (Z.leb_spec (zlen buf) (offset_bits mem / 8)); [done|]. by apply (draws_edit_field m buf root).
Qed.

(** Prefix sums of the weights grow, so the shares are disjoint. *)
Lemma sum_weights_take (ws : list FieldWeight) (a b : nat) : Forall (fun w => 0 <= hits w) ws -> (a <= b)%nat ->
  sum_weights (take a ws) <= sum_weights (take b ws).
Proof.
  intros Hw Hab. replace b with (a + (b - a))%nat by lia. rewrite <- take_take_drop.
  assert (forall l k : list FieldWeight, sum_weights (l ++ k) = sum_weights l + sum_weights k) as Happ.
  { induction l as [|w l IH]; intros k; [done|]. cbn [app]. rewrite !sum_weights_cons, IH. lia. }
  rewrite Happ. pose proof (zlen_nonneg (take (b - a) (drop a ws))). pose proof (sum_weights_nonneg (take (b - a) (drop a ws)) ltac:(by apply Forall_take, Forall_drop)). lia.
Qed.

Lemma share_unique m i j x : mut_wf m -> share m i x -> share m j x -> i = j.
Proof.
  intros Hm [Hi Hsi] [Hj Hsj]. pose proof (proj1 (wf_hits m Hm)) as Hw.
  destruct (Z.lt_trichotomy i j) as [H|[H|H]]; [exfalso|done|exfalso].
  - pose proof (sum_weights_take (weights m) (Z.to_nat (i + 1)) (Z.to_nat j) Hw ltac:(lia)). lia.
  - pose proof (sum_weights_take (weights m) (Z.to_nat (j + 1)) (Z.to_nat i) Hw ltac:(lia)). lia.
Qed.

(** The field that is mutated is drawn in proportion to
    past success: the draw [x] selects field [i] exactly when [x], modulo the
    sum of all [hits + 1], falls in the share of [i], and every draw falls in
    some share. *)
Theorem select_by_share m r i : mut_wf m -> nmembers m <> 0 -> Rng.wf r ->
  (exists r', select_field m r = Done (i, r')) <-> share m i (Rng.rand r).1.
Proof.
  intros Hm Hn Hr. destruct (select_field_share m r Hm Hn Hr) as (j & Hj & Hs). split.
  - intros [r' H]. rewrite H in Hj. by injection Hj as -> _.
  - intros Hi. exists (Rng.rand r).2. rewrite Hj. do 2 f_equal. by eapply (share_unique m).
Qed.

Lemma sum_weights_replicate n : sum_weights (replicate n (MkWeight 0 0)) = Z.of_nat n.
Proof. induction n as [|n IH]; [done|]. cbn [replicate]. rewrite sum_weights_cons, IH. unfold weight. cbn. lia. Qed.

(** A fresh mutator of any type of a usable table is well formed. *)
Lemma init_wf b id : table_wf (types b) -> (forall t, t ∈ types b -> exists u, resolve b t = Done u) -> mut_wf (init b id).
Proof.
  intros Ht Hr. unfold init. split; cbn; [done|done|by destruct (type_by_id b id)|..].
  - unfold zlen at 1. rewrite length_replicate. destruct (type_by_id b id); [|done]. unfold zlen. lia.
  - split; [by apply Forall_replicate|]. rewrite sum_weights_replicate.
    destruct (type_by_id b id) as [t|] eqn:E; [|done]. apply get_Some in E as [_ E].
    destruct (proj2 Ht _ _ E) as (_ & _ & _ & _ & Hl & _). pose proof (zlen_nonneg (members t)). lia.
Qed.

(** Rewarding a field keeps the mutator well formed below the counters' width. *)
Lemma reward_wf m i : mut_wf m -> sum_weights (weights m) + 1 < 2 ^ 32 ->
  wp (reward m i) (fun m' => mut_wf m' /\ sum_weights (weights m') <= sum_weights (weights m) + 1) False.
Proof.
  intros Hm Hs. unfold reward. destruct ((0 <=? i) && (i <? nmembers m)) eqn:E; [|by split; [|lia]].
  apply andb_true_iff in E as [?%Z.leb_le ?%Z.ltb_lt]. destruct Hm as [Ht Hr Hmm Hw [Hh Hlt]].
  destruct (idx_Done (weights m) i) as (w & -> & Hg); [lia|]. cbn [mbind outcome_bind]. unfold upd.
  rewrite (proj2 (Z.leb_le _ _)), (proj2 (Z.ltb_lt _ _)) by lia. cbn [andb mbind outcome_bind wp].
  apply get_Some in Hg as [_ Hg]. pose proof (Forall_lookup_1 _ _ _ _ Hh Hg) as Hw0. cbv beta in Hw0.
  assert (sum_weights (<[Z.to_nat i := MkWeight (hits w + 1) (tries w)]> (weights m)) = sum_weights (weights m) + 1) as Hsum.
  { clear -Hg. revert Hg. generalize (Z.to_nat i) as k. induction (weights m) as [|v ws IH]; intros [|k] Hg; [done|done|..].
    - injection Hg as ->. cbn [insert list_insert]. rewrite !sum_weights_cons. unfold weight. cbn. lia.
    - change (<[S k := MkWeight (hits w + 1) (tries w)]> (v :: ws)) with (v :: <[k := MkWeight (hits w + 1) (tries w)]> ws). rewrite !sum_weights_cons. rewrite (IH k Hg). lia. }
  assert (hits w < 2 ^ 32 - 1) as Hcap.
  { assert (forall ws k, Forall (fun w => 0 <= hits w) ws -> ws !! k = Some w -> hits w + 1 <= sum_weights ws) as Hle.
    { clear. induction ws as [|v ws IH]; intros [|k] Hf Hk; [done|done|..]; apply Forall_cons in Hf as [Hv Hf];
        pose proof (sum_weights_nonneg ws Hf); pose proof (zlen_nonneg ws); rewrite sum_weights_cons; unfold weight.
      - injection Hk as ->. lia.
      - specialize (IH k Hf Hk). lia. }
    specialize (Hle _ _ Hh Hg). lia. }
  rewrite as_u32_small by (unfold is_u32; lia). split; [|cbn [weights with_weights]; lia].
  split; cbn [btf root_id nmembers weights with_weights]; [done|done|done|by rewrite zlen_insert|]. split; [|lia].
  apply Forall_insert; [done|]. cbn. lia.
Qed.

(** * Examples *)

(** [struct s { int a; int b; }] *)
Definition demo_btf : Btf := MkBtf
  [void; with_int 32 1 (with_size 4 (blank 1 BTF_KIND_INT []));
   with_members [MkMember [97] 1 0; MkMember [98] 1 32] (with_size 8 (blank 2 BTF_KIND_STRUCT []))].

Lemma demo_btf_wf : mut_wf (init demo_btf 2).
Proof.
  apply init_wf.
  - split; [done|]. intros i t Hi.
    do 3 (destruct i as [|i]; [injection Hi as <-; split_and!; try done; repeat constructor; done|]). done.
  - intros t Ht. unfold demo_btf in Ht. cbn [types] in Ht. set_unfold in Ht. decompose [or] Ht; [..|done]; subst; eexists; reflexivity.
Qed.

Lemma btf_mutate_confined_witness : mut_wf (init demo_btf 2) /\
  draws (mutate (init demo_btf 2) (replicate 8 0)) (fun res => edited (init demo_btf 2) (replicate 8 0) res /\ mut_wf (res.1.2)).
Proof.
  split; [exact demo_btf_wf|]. apply btf_mutate_confined; [exact demo_btf_wf|]. by apply bytes_ok_replicate.
Defined.

Lemma select_by_share_witness : Rng.wf (Rng.new 7) /\
  ((exists r', select_field (init demo_btf 2) (Rng.new 7) = Done (1, r')) <-> share (init demo_btf 2) 1 (Rng.rand (Rng.new 7)).1).
Proof.
  assert (Rng.wf (Rng.new 7)) as Hr by (apply rng_new_wf; done). split; [exact Hr|].
  apply select_by_share; [exact demo_btf_wf|done|exact Hr].
Defined.
