(* ===== verification/FuzzTypes.v ===== *)
(** fuzz/types.rs: binding system-call arguments to kernel structures by the
    sizes recorded in a trace, and the trace writer of syzlang.rs it reads
    from.  The reader keeps an index into the line; here it is the rest of
    the line.  Shown: reading a trace the recorder wrote gives, call by call,
    the bindings of its [ioctl] and [setsockopt] calls and nothing else, on
    both architectures, whatever the arguments and the traced memory. *)
From S2P Require Import Prelude Text Syscalls SysDecode FuzzBtf.

(** * The ioctl command word *)

Definition IOC_NRBITS : Z := 8.
Definition IOC_TYPEBITS : Z := 8.
Definition IOC_SIZEBITS : Z := 14.
Definition IOC_DIRBITS : Z := 2.
Definition IOC_NRSHIFT : Z := 0.
Definition IOC_TYPESHIFT : Z := IOC_NRSHIFT + IOC_NRBITS.
Definition IOC_SIZESHIFT : Z := IOC_TYPESHIFT + IOC_TYPEBITS.
Definition IOC_DIRSHIFT : Z := IOC_SIZESHIFT + IOC_SIZEBITS.
Definition IOC_WRITE : Z := 1.
Definition IOC_READ : Z := 2.

Definition ioc_size (nr : Z) : Z := Z.land (as_u32 (nr >>₆₄ IOC_SIZESHIFT)) (Z.shiftl 1 IOC_SIZEBITS - 1).
Definition ioc_dir (nr : Z) : Z := Z.land (as_u32 (nr >>₆₄ IOC_DIRSHIFT)) (Z.shiftl 1 IOC_DIRBITS - 1).

Record TypeBinding : Type := MkBinding
  { line : Z; b_nr : Z; b_name : list Z; cmd : Z; arg_index : Z; btf_type_id : Z; arg_size : Z; struct_name : list Z }.

(** * Lookups by size and value *)

Definition find_struct_by_size (b : Btf) (size : Z) : option BtfType :=
  if size =? 0 then None
  else find_type (fun t => is_composite t && (t_size t =? size) && negb (bytes_eqb (t_name t) [])) b.

Definition find_enum_name_for_val (b : Btf) (val : Z) : option (list Z) :=
  e_name <$> head (filter (fun e => as_u64 (e_val e) = val)
                          (concat (enums <$> filter (fun t => t_kind t = BTF_KIND_ENUM) (tail (types b))))).

(** * Reading a trace line *)

(** The digit loop: value (wrapping) and digits consumed. *)
Fixpoint uint_digits (radix val n : Z) (s : list Z) : Z * Z :=
  match s with
  | [] => (val, n)
  | c :: t => match to_digit c radix with
              | Some d => uint_digits radix (val *₆₄ radix +₆₄ d) (n + 1) t
              | None => (val, n)
              end
  end.

Definition parse_uint (s : list Z) : Z * Z :=
  let '(radix, start) :=
    match s with
    | 48 :: x :: _ => if (x =? 120) || (x =? 88) then (16, 2) else (8, 0)
    | 48 :: _ => (8, 0)
    | _ => (10, 0)
    end in
  let '(val, n) := uint_digits radix 0 0 (drop (Z.to_nat start) s) in
  if n =? 0 then (if (radix =? 8) && starts_with [48] s then (0, 1) else (0, 0)) else (val, start + n).

Fixpoint skip_while (p : Z -> bool) (s : list Z) : list Z :=
  match s with c :: t => if p c then skip_while p t else s | [] => [] end.

Definition at_end (s : list Z) : bool := match s with [] => true | c :: _ => c =? 41 end.

(** One argument: its value and the rest. *)
Definition parse_arg (rest : list Z) : Z * list Z :=
  let '(val, consumed) := parse_uint rest in
  if consumed =? 0 then
    if starts_with (bs "AT_FDCWD") rest then (as_u64 (-100), drop 8 rest)
    else (0, skip_while (fun c => negb (c =? 44) && negb (c =? 41)) rest)
  else (val, drop (Z.to_nat consumed) rest).

(** The argument loop, for [n] more arguments. *)
Fixpoint parse_args (n : nat) (rest : list Z) : list Z :=
  match n with
  | O => []
  | S n =>
      if at_end rest then [] else
      let rest := skip_while is_whitespace rest in
      if at_end rest then [] else
      let '(v, rest) := parse_arg rest in
      let rest := skip_while is_whitespace rest in
      v :: parse_args n (if starts_with [44] rest then drop 1 rest else rest)
  end.

Definition parse_trace_line (line : list Z) : option (list Z * list Z) :=
  let line := trim_start line in
  paren ← position (fun c => c =? 40) line;
  Some (take (Z.to_nat paren) line, parse_args 6 (drop (Z.to_nat (paren + 1)) line)).

(** * Bindings *)

(** What the [ioctl] and [setsockopt] blocks push. *)
Definition ioctl_binding (b : Btf) (lineno : Z) (args : list Z) : list TypeBinding :=
  let cmd := default 0 (args !! 1%nat) in
  let size := ioc_size cmd in
  if (0 <? size) && negb (Z.land (ioc_dir cmd) (Z.lor IOC_WRITE IOC_READ) =? 0) then
    match find_struct_by_size b size with
    | Some st => [MkBinding lineno 16 (bs "ioctl") cmd 2 (t_id st) (t_size st) (t_name st)]
    | None => []
    end
  else [].

Definition sockopt_binding (b : Btf) (lineno : Z) (args : list Z) : list TypeBinding :=
  let optlen := as_u32 (default 0 (args !! 4%nat)) in
  if (0 <? optlen) && (optlen <=? 4096) then
    match find_struct_by_size b optlen with
    | Some st => [MkBinding lineno 54 (bs "setsockopt")
                    (Z.lor (default 0 (args !! 1%nat) <<₆₄ 16) (default 0 (args !! 2%nat))) 3 (t_id st) (t_size st) (t_name st)]
    | None => []
    end
  else [].

Definition call_bindings (b : Btf) (lineno : Z) (name args : list Z) : list TypeBinding :=
  (if bytes_eqb name (bs "ioctl") && (3 <=? zlen args) then ioctl_binding b lineno args else []) ++
  (if bytes_eqb name (bs "setsockopt") && (5 <=? zlen args) then sockopt_binding b lineno args else []).

Definition bind_line (b : Btf) (idx : nat) (line : list Z) : list TypeBinding :=
  match parse_trace_line line with
  | Some (name, args) => call_bindings b (as_i32 (Z.of_nat idx + 1)) name args
  | None => []
  end.

(** [resolve]: the return value and the type map; an unreadable file leaves the map. *)
Definition resolve (b : Btf) (file : option (list Z)) (out : list TypeBinding) : Z * list TypeBinding :=
  match file with
  | None => (-1, out)
  | Some data => let out := concat (imap (bind_line b) (lines data)) in (as_i32 (zlen out), out)
  end.

(** [SyzWriter]: the file written so far; [emit] appends a rendered call. *)
Definition emit (arch : Arch) (L : Libc) (vm_readv : Z -> Z -> option (list Z)) (out : list Z) (sc : Syscall) : list Z :=
  out ++ decode_syscall arch L vm_readv sc.

(** * Numbers *)

Lemma uint_digits_val radix acc n s v rest : 0 < radix -> 0 <= acc < 2 ^ 64 -> digits_val radix (2 ^ 64 - 1) acc s = Some v ->
  match rest with c :: _ => to_digit c radix = None | [] => True end ->
  uint_digits radix acc n (s ++ rest) = (v, n + zlen s).
Proof.
  intros Hr. revert acc n. induction s as [|c s IH]; intros acc n Ha Hv Hrest; cbn in Hv.
  - injection Hv as <-. rewrite Z.add_0_r. destruct rest as [|c rest]; [done|]. cbn. by rewrite Hrest.
  - cbn [app uint_digits]. destruct (to_digit c radix) as [d|] eqn:Ed; [|done].
    apply to_digit_range in Ed; [|lia]. destruct (Z.leb_spec (acc * radix + d) (2 ^ 64 - 1)); [|done].
    assert (0 <= acc * radix) by (apply Z.mul_nonneg_nonneg; lia).
    rewrite (as_u64_small (acc * radix)), as_u64_small by (unfold is_u64; lia).
    rewrite IH; [|lia|exact Hv|exact Hrest]. f_equal. rewrite zlen_cons. lia.
Qed.

Definition arg_text (v : Z) : list Z := if v =? 0 then bs "0" else fmt_x v.

(** The byte after an argument: a comma or a closing parenthesis. *)
Definition sep (c : Z) : Prop := c = 44 \/ c = 41.

Lemma parse_uint_arg v c rest : sep c -> parse_uint (arg_text v ++ c :: rest) = (as_u64 v, zlen (arg_text v)).
Proof.
  intros Hc. assert (to_digit c 16 = None) as H16 by (by destruct Hc as [-> | ->]).
  unfold arg_text. destruct (Z.eqb_spec v 0) as [-> |].
  - by destruct Hc as [-> | ->].
  - unfold fmt_x. change (bs "0x" ++ ?l) with (48 :: 120 :: l). cbn [app parse_uint Z.eqb Pos.eqb orb].
    change (drop (Z.to_nat 2) (48 :: 120 :: ?l)) with l.
    pose proof (as_u64_range v) as Hv. unfold is_u64 in Hv.
    assert (as_u64 v < 16 ^ Z.of_nat 64) as Hlt by (apply (Z.lt_le_trans _ (2 ^ 64)); [lia|done]).
    pose proof (digits_val_fmt 64 16 (2 ^ 64 - 1) (as_u64 v) [] ltac:(lia) ltac:(lia) Hlt) as Hd.
    unfold fmt_hex. rewrite (uint_digits_val 16 0 0 _ (as_u64 v) (c :: rest)); [|lia|lia|exact Hd|exact H16].
    destruct (fmt_digits_head 63 16 (as_u64 v) [] ltac:(lia)) as (d & l & Hl & _). rewrite Hl, !zlen_cons.
    pose proof (zlen_nonneg l). rewrite (proj2 (Z.eqb_neq _ 0)) by lia. f_equal. lia.
Qed.

Lemma arg_text_head v : exists t, arg_text v = 48 :: t.
Proof. unfold arg_text. destruct (v =? 0); [by eexists|]. unfold fmt_x. by eexists. Qed.

Lemma parse_arg_text v c rest : sep c -> parse_arg (arg_text v ++ c :: rest) = (as_u64 v, c :: rest).
Proof.
  intros Hc. unfold parse_arg. rewrite parse_uint_arg by done. destruct (arg_text_head v) as [t Ht].
  assert (zlen (arg_text v) <> 0) as Hz by (rewrite Ht, zlen_cons; pose proof (zlen_nonneg t); lia).
  rewrite (proj2 (Z.eqb_neq _ 0)) by done. f_equal. unfold zlen. by rewrite Nat2Z.id, drop_app_length.
Qed.

(** The arguments as the renderer separates them. *)
Definition args_text (l : list Z) : list Z :=
  match l with [] => [] | v :: l => arg_text v ++ concat ((fun v => bs ", " ++ arg_text v) <$> l) end.

Lemma parse_args_text n (sp : bool) l rest : (length l <= n)%nat ->
  parse_args n ((if sp then [32] else []) ++ args_text l ++ 41 :: rest) = as_u64 <$> l.
Proof.
  revert n sp. induction l as [|v l IH]; intros n sp Hn.
  - destruct n as [|n]; [done|]. by destruct sp.
  - destruct n as [|n]; [cbn in Hn; lia|]. cbn [parse_args args_text fmap list_fmap].
    set (more := concat _). destruct (arg_text_head v) as [t Ht].
    assert (forall tl, skip_while is_whitespace ((if sp then [32] else []) ++ arg_text v ++ tl) = arg_text v ++ tl /\
              at_end ((if sp then [32] else []) ++ arg_text v ++ tl) = false /\ at_end (arg_text v ++ tl) = false) as Hsk.
    { intros tl. rewrite Ht. by destruct sp. }
    rewrite <- app_assoc. destruct (Hsk (more ++ 41 :: rest)) as (-> & -> & ->).
    destruct l as [|w l].
    + cbn [fmap list_fmap concat] in more. subst more. cbn [app]. rewrite parse_arg_text by (by right).
      f_equal. exact (IH n false ltac:(cbn in *; lia)).
    + assert (more ++ 41 :: rest = 44 :: [32] ++ args_text (w :: l) ++ 41 :: rest) as ->.
      { unfold more. cbn [fmap list_fmap concat args_text]. by rewrite <- !app_assoc. }
      rewrite parse_arg_text by (by left). f_equal. exact (IH n true ltac:(cbn in *; lia)).
Qed.

(** * The name in front of a rendered call *)

Definition call_name (arch : Arch) (n : Z) : list Z :=
  match syscall_name arch n with Some s => s | None => bs "syscall_" ++ fmt_i64 n end.

Definition name_ok (s : list Z) : Prop := Forall (fun c => c <> 40) s /\ exists c t, s = c :: t /\ 48 <= c <= 122.

Lemma fmt_dec_no_paren n : Forall (fun c => c <> 40) (fmt_dec n).
Proof. eapply Forall_impl; [apply fmt_digits_alnum; [lia|constructor]|]. intros c Hc. cbv beta in *. lia. Qed.

Lemma call_name_ok arch n : name_ok (call_name arch n).
Proof.
  unfold call_name. destruct (syscall_name arch n) as [s|] eqn:E.
  - unfold syscall_name in E. apply fmap_Some in E as (r & Hr & ->). apply lookup_nr_elem in Hr.
    assert (forallb (fun e => forallb (fun c => negb (c =? 40)) (bs (snd e)) &&
              match bs (snd e) with c :: _ => (48 <=? c) && (c <=? 122) | [] => false end) (arch_table arch) = true) as H
      by (destruct arch; vm_compute; reflexivity).
    rewrite forallb_forall in H. apply list_elem_of_In, H in Hr. apply andb_true_iff in Hr as [H1 H2]. cbn [snd] in *. split.
    + rewrite Forall_forall. rewrite forallb_forall in H1. intros c Hc%list_elem_of_In%H1. apply negb_true_iff, Z.eqb_neq in Hc. done.
    + destruct (bs r) as [|c t]; [done|]. apply andb_true_iff in H2 as [?%Z.leb_le ?%Z.leb_le]. by exists c, t.
  - split; [|by eexists _, _].
    apply Forall_app. split; [repeat constructor; done|]. unfold fmt_i64.
    destruct (n <? 0); [constructor; [done|]|]; apply fmt_dec_no_paren.
Qed.

(** Reading a line that starts with a name and a parenthesis. *)
Lemma parse_trace_line_name s rest : name_ok s -> parse_trace_line (s ++ 40 :: rest) = Some (s, parse_args 6 rest).
Proof.
  intros (Hs & c & t & -> & Hc). unfold parse_trace_line.
  assert (trim_start ((c :: t) ++ 40 :: rest) = (c :: t) ++ 40 :: rest) as ->.
  { unfold trim_start. cbn [app length strip_all]. by rewrite (proj1 (strip_any_alnum c _ Hc)). }
  assert (position (fun c => c =? 40) ((c :: t) ++ 40 :: rest) = Some (zlen (c :: t))) as ->.
  { clear Hc. induction Hs as [|x l Hx _ IH]; [done|]. cbn [app position]. rewrite (proj2 (Z.eqb_neq x 40)) by done.
    rewrite IH, zlen_cons. cbn. f_equal. lia. }
  cbn [mbind option_bind]. unfold zlen. rewrite Nat2Z.id, take_app_length. do 3 f_equal.
  replace (Z.to_nat (Z.of_nat (length (c :: t)) + 1)) with (length (c :: t) + 1)%nat by lia.
  by rewrite <- drop_drop, drop_app_length.
Qed.

Section Recorded.
Context (L : Libc) (vm_readv : Z -> Z -> option (list Z)).

(** [ioctl] and [setsockopt]: the calls that are bound. *)
Definition bound_name (s : list Z) : bool := bytes_eqb s (bs "ioctl") || bytes_eqb s (bs "setsockopt").

Lemma fmt_generic_text arch n a r : fmt_generic arch n a r = call_name arch n ++ 40 :: args_text a ++ 41 :: bs " = " ++ fmt_i64 r ++ [10].
Proof.
  unfold fmt_generic, call_name. set (args := concat _).
  assert (args = args_text a) as ->.
  { unfold args. destruct a as [|v a]; [done|]. cbn [imap args_text concat]. f_equal. f_equal.
    rewrite <- imap_const. by apply imap_ext. }
  by destruct (syscall_name arch n); rewrite <- ?app_assoc.
Qed.


(** Every call is rendered with its name in front; a bound one by [fmt_generic]. *)
Ltac named :=
  first [eexists; reflexivity
        |unfold fmt_brk, fmt_openat; match goal with |- context [if ?c then _ else _] => destruct c end; eexists; reflexivity].

Lemma decode_name arch sc : exists rest, decode_syscall arch L vm_readv sc = call_name arch (nr sc) ++ 40 :: rest.
Proof.
  unfold decode_syscall. destruct arch;
    repeat (match goal with |- context [nr sc =? ?k] => destruct (Z.eqb_spec (nr sc) k) as [-> |_] end;
      [match goal with |- exists _, ?f = call_name ?a ?n ++ _ =>
         let s := eval vm_compute in (call_name a n) in change (call_name a n) with s end; named|]);
    rewrite fmt_generic_text; eexists; reflexivity.
Qed.

Lemma decode_bound arch sc : bound_name (call_name arch (nr sc)) = true ->
  decode_syscall arch L vm_readv sc = fmt_generic arch (nr sc) (args sc) (ret sc).
Proof.
  intros H. unfold decode_syscall. destruct arch;
    repeat (match goal with |- context [nr sc =? ?k] => destruct (Z.eqb_spec (nr sc) k) as [E|_] end;
      [rewrite E in H; vm_compute in H; done|]); done.
Qed.

(** The bindings a recorded call calls for. *)
Definition wanted (b : Btf) (arch : Arch) (i : nat) (sc : Syscall) : list TypeBinding :=
  call_bindings b (as_i32 (Z.of_nat i + 1)) (call_name arch (nr sc)) (as_u64 <$> args sc).

Lemma unbound b n name args : bound_name name = false -> call_bindings b n name args = [].
Proof. unfold bound_name, call_bindings. intros [-> ->]%orb_false_iff. done. Qed.

Lemma line_bindings arch sc body : (length (args sc) <= 6)%nat -> decode_syscall arch L vm_readv sc = body ++ [10] ->
  forall b i, bind_line b i body = wanted b arch i sc.
Proof.
  intros H6 E b i. unfold bind_line, wanted. destruct (bound_name (call_name arch (nr sc))) eqn:Eb.
  - rewrite decode_bound, fmt_generic_text in E by done.
    replace (call_name arch (nr sc) ++ 40 :: args_text (args sc) ++ 41 :: bs " = " ++ fmt_i64 (ret sc) ++ [10])
      with ((call_name arch (nr sc) ++ 40 :: args_text (args sc) ++ 41 :: bs " = " ++ fmt_i64 (ret sc)) ++ [10]) in E
      by (by repeat (rewrite <- app_assoc; cbn [app])).
    apply app_inj_2 in E as [<- _]; [|done]. rewrite parse_trace_line_name by apply call_name_ok.
    f_equal. exact (parse_args_text 6 false _ _ H6).
  - destruct (decode_name arch sc) as [rest Hr]. rewrite Hr in E.
    destruct (exists_last (l := 40 :: rest) ltac:(done)) as (r & x & Hx). rewrite Hx, app_assoc in E.
    apply app_inj_2 in E as [<- Ex]; [|done]. injection Ex as ->. destruct r as [|y r].
    { injection Hx as Hx _. discriminate Hx. }
    injection Hx as <- Hrest. rewrite parse_trace_line_name by apply call_name_ok. by rewrite !unbound.
Qed.

(** Recording calls and resolving the trace against a BTF
    table gives, in order, the bindings of each recorded call, taken from its
    exact arguments as unsigned 64-bit words: the renderer and the reader
    agree on every [ioctl] and [setsockopt], and no other call is mistaken
    for one.  It holds for both architectures, any calls of at most six
    arguments and any memory of the traced process. *)
Theorem trace_bindings b arch scs out : Forall (fun sc => length (args sc) <= 6)%nat scs ->
  resolve b (Some (foldl (emit arch L vm_readv) [] scs)) out =
  (as_i32 (zlen (concat (imap (wanted b arch) scs))), concat (imap (wanted b arch) scs)).
Proof.
  intros H6. assert (forall acc, foldl (emit arch L vm_readv) acc scs = acc ++ concat (decode_syscall arch L vm_readv <$> scs)) as Hfold.
  { clear H6. induction scs as [|sc scs IH]; intros acc; cbn; [by rewrite app_nil_r|]. rewrite IH. unfold emit. by rewrite <- app_assoc. }
  rewrite Hfold. cbn [app].
  assert (exists bodies, (decode_syscall arch L vm_readv <$> scs) = (fun l => l ++ [10]) <$> bodies /\
    Forall (Forall (fun c => c <> 10 /\ c <> 13)) bodies /\ forall k, imap (fun i => bind_line b (k + i)%nat) bodies = imap (fun i => wanted b arch (k + i)%nat) scs)
    as (bodies & Hb & Hp & Hw).
  { clear Hfold. induction H6 as [|sc scs Hsc _ (bodies & IH1 & IH2 & IH3)]; [by exists []|].
    destruct (decode_syscall_one_line arch L vm_readv sc) as (body & Hd & Hpr). exists (body :: bodies). split; [|split].
    - cbn [fmap list_fmap]. by rewrite Hd, <- IH1.
    - constructor; [|done]. eapply Forall_impl; [exact Hpr|]. intros c Hc. cbv beta in *. lia.
    - intros k. cbn [imap]. f_equal; [by apply line_bindings|].
      specialize (IH3 (S k)). etransitivity; [|etransitivity; [exact IH3|]]; apply imap_ext; intros i x _; cbn; f_equal; lia. }
  unfold resolve. rewrite Hb, lines_concat_gen by done. specialize (Hw 0%nat). cbn in Hw.
  assert (imap (bind_line b) bodies = imap (wanted b arch) scs) as -> by exact Hw. done.
Qed.
End Recorded.

(** An [ioctl] with a readable 4-byte argument, after a [read]. *)
Lemma trace_bindings_witness :
  let scs := [MkSyscall 0 [3; 0x1000; 16; 0; 0; 0] 16; MkSyscall 16 [3; 0x80045430; 0x7ffd0000; 0; 0; 0] 0] in
  Forall (fun sc => length (args sc) <= 6)%nat scs /\
  resolve (MkBtf [void; with_size 4 (blank 1 BTF_KIND_STRUCT (bs "s"))]) (Some (foldl (emit X86_64 glibc_x86_64 (fun _ _ => None)) [] scs)) [] =
  (1, [MkBinding 2 16 (bs "ioctl") 0x80045430 2 1 4 (bs "s")]).
Proof.
  intros scs. assert (Forall (fun sc => length (args sc) <= 6)%nat scs) as H by (repeat constructor; cbn; lia).
  split; [exact H|]. rewrite (trace_bindings glibc_x86_64 (fun _ _ => None) _ X86_64 scs [] H). vm_compute. reflexivity.
Defined.
