(* ===== verification/FuzzMutate.v ===== *)
(** fuzz/mutate.rs: the mutation of recorded system-call sequences and their
    minimisation.  [f64::sqrt] of an integer below [2^52] truncated to an
    integer is the integer square root.  Shown: a mutated sequence is at most
    [MAX_SYSCALLS] long, is made of calls of the source or of one donor with
    only their arguments changed, and no index goes out of range; minimising
    drops only calls whose descriptor no later surviving call uses; and the
    biased index prefers the earlier calls, by an exact count. *)
From S2P Require Import Prelude FuzzRng FuzzDraw FuzzSets SysDecode.

Definition MAX_SYSCALLS : Z := 4096.

(** The calls of a [CorpusEntry]; its scores play no part here. *)
Record CorpusEntry : Type := MkEntry { calls : list Syscall }.

Definition SPECIAL_INTS : list Z :=
  [0; 1; 2; 3; 4; 5; 6; 7; 8; 9; 10; 11; 12; 13; 14; 15; 16; 64; 127; 128; 129; 255; 256; 257; 511; 512;
   1023; 1024; 1025; 2047; 2048; 4095; 4096; 0x7fff; 0x8000; 0x8001; 0xffff; 0x10000; 0x10001;
   0x7fffffff; 0x80000000; 0x80000001; 0xffffffff; 0x100000000; 0x100000001;
   0x7fffffffffffffff; 0x8000000000000000; 0xffffffffffffffff].
Definition N_SPECIAL : Z := 48.

Definition special_int : draw Z := i ← below N_SPECIAL; lift (idx SPECIAL_INTS i).

Definition rand_int : draw Z :=
  v ← random62;
  r ← below 182;
  v ← (if r <? 100 then mret (v mod 10)
       else if r <? 150 then special_int
       else if r <? 160 then mret (v mod 256)
       else if r <? 170 then mret (v mod 4096)
       else if r <? 180 then mret (v mod 65536)
       else mret (v mod 0x80000000));
  p ← below 107;
  if (100 <=? p) && (p <? 105) then mret (as_u64 (- v))
  else if 105 <=? p then k ← below 64; mret (v <<₆₄ k)
  else mret v.

Definition is_fd_arg (nr ai : Z) : bool :=
  (ai =? 0) && existsb (Z.eqb nr) [0; 1; 3; 5; 7; 8; 16; 17; 18; 19; 20; 72; 73; 74; 75].

(** [val] is not touched when it looks like a user-space pointer. *)
Definition is_pointer (val : Z) : bool :=
  ((0x100000 <=? val) && (val <=? 0x7fffffffffff)) || ((0x7f0000000000 <=? val) && (val <=? 0x7fffffffffffffff)).

Definition mutate_arg (val nr ai : Z) (fds : FdState.t) : draw Z :=
  if is_pointer val then mret val else
  fd ← (if is_fd_arg nr ai && (0 <? FdState.nfds fds) then k ← below 4; mret (k <? 3) else mret false);
  if fd : bool then f ← FdState.get_valid fds; mret (as_u64 f) else
  s ← below 100;
  if s <? 30 then rand_int
  else if s <? 50 then
    d ← below 35;
    r ← random;
    mret (if Z.land r 1 =? 1 then val +₆₄ (d + 1) else val -₆₄ (d + 1))
  else if s <? 70 then k ← below 64; mret (Z.lxor val (1 <<₆₄ k))
  else if s <? 85 then
    k ← below 3;
    let w := Z.shiftl 1 k in
    let mask := if w =? 4 then 0xffffffff else if w =? 2 then 0xffff else 0xff in
    v ← rand_int;
    mret (Z.lor (Z.land val (2 ^ 64 - 1 - mask)) (Z.land v mask))
  else special_int.

(** The index [biased_idx] makes of the draw [r]. *)
Definition biased_pos (n r : Z) : Z := let idx := n - 1 - Z.sqrt r in if idx <? 0 then 0 else idx.

Definition biased_idx (n : Z) : draw Z :=
  if n <=? 0 then mret 0 else r ← below (n * n); mret (biased_pos n r).

(** [dst[ci].args[ai] = mutate_arg(..)] *)
Definition mutate_call_arg (fds : FdState.t) (dst : list Syscall) (ci ai : Z) : draw (list Syscall) :=
  c ← lift (idx dst ci);
  a ← lift (idx (args c) ai);
  v ← mutate_arg (as_u64 a) (nr c) ai fds;
  l ← lift (upd (args c) ai (as_i64 v));
  lift (upd dst ci (MkSyscall (nr c) l (ret c))).

Fixpoint mutate_args (fds : FdState.t) (nsrc : Z) (dst : list Syscall) (m : nat) : draw (list Syscall) :=
  match m with
  | O => mret dst
  | S m =>
      if 0 <? nsrc then
        ci ← biased_idx nsrc;
        ai ← below 6;
        dst ← mutate_call_arg fds dst ci ai;
        mutate_args fds nsrc dst m
      else mret dst
  end.

(** [for a in 0..n { args[a] = rand_int(rng) as i64 }] *)
Fixpoint rand_args (n : nat) : draw (list Z) :=
  match n with O => mret [] | S n => v ← rand_int; l ← rand_args n; mret (as_i64 v :: l) end.

(** Replace the tail of [src] from [cut] on by a tail of the donor. *)
Definition splice (src : list Syscall) (corpus : list CorpusEntry) : draw (list Syscall) :=
  d ← below (zlen corpus);
  donor ← lift (idx corpus d);
  cut ← (if 0 <? zlen src then below (zlen src) else mret 0);
  ds ← (if 1 <? zlen (calls donor) then below (zlen (calls donor)) else mret 0);
  let dl := zlen (calls donor) - ds in
  let dl := if MAX_SYSCALLS <? cut + dl then MAX_SYSCALLS -₆₄ cut else dl in
  tail ← lift (or_panic (slice (calls donor) ds (ds +₆₄ dl)));
  mret (take (Z.to_nat cut) src ++ tail).

Definition mutate_sequence (src : list Syscall) (corpus : list CorpusEntry) (fds : FdState.t) : draw (list Syscall) :=
  let nsrc := zlen src in
  w ← below 560;
  if (w <? 200) && negb (bool_decide (corpus = [])) then splice src corpus
  else if w <? 300 then
    (if 0 <? nsrc then ci ← biased_idx nsrc; ai ← below 6; mutate_call_arg fds src ci ai else mret src)
  else if w <? 400 then
    m ← below 3; mutate_args fds nsrc src (Z.to_nat (m + 1))
  else if w <? 500 then
    (if 1 <? nsrc then cut ← below nsrc; mret (take (Z.to_nat cut) src ++ reverse (drop (Z.to_nat cut) src)) else mret src)
  else if w <? 550 then
    (if 0 <? nsrc then
       ci ← below nsrc;
       c ← lift (idx src ci);
       l ← rand_args 6;
       lift (upd src ci (MkSyscall (nr c) l (ret c)))
     else mret src)
  else
    (if 1 <? nsrc then ci ← below nsrc; mret (delete (Z.to_nat ci) src) else mret src).

(** * Minimisation *)

(** A descriptor in range that some call of [later] takes as an argument. *)
Definition needed (c : Syscall) (later : list Syscall) : bool :=
  (0 <=? ret c) && (ret c <? 256) && existsb (fun d => existsb (Z.eqb (ret c)) (args d)) later.

(** The [while] from index [i] down to one. *)
Fixpoint minimize_go (i : nat) (trace : list Syscall) : draw (list Syscall) :=
  match i with
  | O => mret trace
  | S i' =>
      if zlen trace <=? 3 then mret trace else
      c ← lift (idx trace (Z.of_nat i));
      dropped ← (if needed c (drop (S i) trace) then mret false else k ← below 3; mret (k =? 0));
      minimize_go i' (if dropped : bool then delete i trace else trace)
  end.

Definition minimize_trace (trace : list Syscall) : draw (list Syscall) :=
  if zlen trace <=? 3 then mret trace else minimize_go (pred (length trace)) trace.

(** * Every draw is in range *)

Lemma draws_special : draws special_int is_u64.
Proof.
  unfold special_int. apply draws_below_bind; [done|]. intros i Hi. apply draws_lift.
  destruct (idx_Done SPECIAL_INTS i Hi) as (x & -> & Hx). cbn. apply get_Some in Hx as [_ Hx].
  assert (Forall is_u64 SPECIAL_INTS) as Hall by (repeat constructor; done). exact (Forall_lookup_1 _ _ _ _ Hall Hx).
Qed.

Lemma mod_u64 v m : is_u64 v -> 0 < m -> is_u64 (v mod m).
Proof. unfold is_u64. intros. pose proof (Z.mod_pos_bound v m). pose proof (Z.mod_le v m). lia. Qed.

Lemma draws_rand_int : draws rand_int is_u64.
Proof.
  unfold rand_int. apply draws_random62_bind. intros v Hv. apply draws_below_bind; [lia|]. intros r _.
  apply (draws_bind _ _ is_u64).
  - repeat match goal with |- draws (if ?c then _ else _) _ => destruct c end;
      match goal with |- draws special_int _ => apply draws_special | |- _ => apply draws_ret, mod_u64; [done|lia] end.
  - intros u Hu. apply draws_below_bind; [lia|]. intros p _. destruct ((100 <=? p) && (p <? 105)).
    { apply draws_ret, as_u64_range. }
    destruct (105 <=? p); [|by apply draws_ret]. apply draws_below_bind; [lia|]. intros k _. apply draws_ret, as_u64_range.
Qed.

Lemma draws_get_valid s : FdState.wf s -> draws (FdState.get_valid s) (fun _ => True).
Proof.
  intros [Hl Hf] r Hr. unfold FdState.get_valid. destruct (FdState.fds s) as [|x l] eqn:E; [done|].
  pose proof (rng_below_range r (zlen (x :: l)) Hr) as Hb. pose proof (rng_below_wf r (zlen (x :: l)) Hr).
  destruct (Rng.below r _) as [i r']. cbn [fst snd] in *. rewrite zlen_cons in Hb. pose proof (zlen_nonneg l).
  destruct (idx_Done (x :: l) i) as (y & Hy & _); [rewrite zlen_cons; lia|]. unfold idx in Hy. by rewrite Hy.
Qed.

Lemma draws_mutate_arg val n ai fds : FdState.wf fds -> draws (mutate_arg val n ai fds) (fun _ => True).
Proof.
  intros Hf. unfold mutate_arg. destruct (is_pointer val); [by apply draws_ret|].
  apply (draws_bind _ _ (fun _ => True)).
  - destruct (_ && _); [apply draws_below_bind; [lia|]; intros|]; by apply draws_ret.
  - intros fd _. destruct fd.
    + eapply draws_bind; [by apply draws_get_valid|]. intros. by apply draws_ret.
    + apply draws_below_bind; [lia|]. intros s _.
      destruct (s <? 30); [by eapply draws_mono; [apply draws_rand_int|]|].
      destruct (s <? 50); [apply draws_below_bind; [lia|]; intros d _; apply draws_random_bind; intros r _; by apply draws_ret|].
      destruct (s <? 70); [apply draws_below_bind; [lia|]; intros k _; by apply draws_ret|].
      destruct (s <? 85); [|by eapply draws_mono; [apply draws_special|]].
      apply draws_below_bind; [lia|]. intros k _. eapply draws_bind; [apply draws_rand_int|]. intros v _. by apply draws_ret.
Qed.

Lemma biased_pos_range n r : 0 < n -> 0 <= r < n * n -> 0 <= n - 1 - Z.sqrt r < n.
Proof.
  intros Hn Hr. pose proof (Z.sqrt_nonneg r). assert (Z.sqrt r < n) by (apply Z.sqrt_lt_square; lia). lia.
Qed.

Lemma draws_biased_idx n : 0 < n -> draws (biased_idx n) (fun i => 0 <= i < n).
Proof.
  intros Hn. unfold biased_idx. rewrite (proj2 (Z.leb_gt _ _)) by done. apply draws_below_bind; [nia|]. intros r Hr.
  apply draws_ret. unfold biased_pos. pose proof (biased_pos_range n r Hn Hr). destruct (Z.ltb_spec (n - 1 - Z.sqrt r) 0); lia.
Qed.

(** * Sequences made of known calls *)

Section Sequences.
Context (pool : list Syscall).

(** A call of the pool up to its (six) arguments. *)
Definition derived (c : Syscall) : Prop :=
  length (args c) = 6%nat /\ exists c0, c0 ∈ pool /\ nr c = nr c0 /\ ret c = ret c0.

Definition good (dst : list Syscall) : Prop := zlen dst <= MAX_SYSCALLS /\ Forall derived dst.

Lemma derived_args c l : derived c -> length l = 6%nat -> derived (MkSyscall (nr c) l (ret c)).
Proof. intros [_ H] Hl. by split. Qed.

Lemma draws_set_call dst ci c : good dst -> 0 <= ci < zlen dst -> derived c ->
  draws (lift (upd dst ci c)) (fun dst' => good dst' /\ zlen dst' = zlen dst).
Proof.
  intros [Hl Hd] Hi Hc. apply draws_lift. unfold upd. rewrite (proj2 (Z.leb_le _ _)), (proj2 (Z.ltb_lt _ _)) by lia.
  cbn. unfold good. rewrite zlen_insert. split; [|done]. split; [done|]. by apply Forall_insert.
Qed.

Lemma draws_get_call {B} dst ci (f : Syscall -> draw B) Q : good dst -> 0 <= ci < zlen dst ->
  (forall c, derived c -> draws (f c) Q) -> draws (lift (idx dst ci) ≫= f) Q.
Proof.
  intros [_ Hd] Hi Hf. apply draws_lift_bind. destruct (idx_Done dst ci Hi) as (c & -> & Hc). cbn. apply Hf.
  apply get_Some in Hc as [_ Hc]. exact (Forall_lookup_1 _ _ _ _ Hd Hc).
Qed.

Lemma draws_mutate_call_arg fds dst ci ai : FdState.wf fds -> good dst -> 0 <= ci < zlen dst -> 0 <= ai < 6 ->
  draws (mutate_call_arg fds dst ci ai) (fun dst' => good dst' /\ zlen dst' = zlen dst).
Proof.
  intros Hf Hg Hci Hai. unfold mutate_call_arg. apply draws_get_call; [done..|]. intros c Hc.
  assert (zlen (args c) = 6) as H6 by (unfold zlen; by rewrite (proj1 Hc)).
  apply draws_lift_bind. destruct (idx_Done (args c) ai) as (a & -> & _); [lia|]. cbn [wp].
  eapply draws_bind; [by apply draws_mutate_arg|]. intros v _. apply draws_lift_bind. unfold upd.
  rewrite (proj2 (Z.leb_le _ _)), (proj2 (Z.ltb_lt _ _)) by lia. cbn [andb wp].
  apply draws_set_call; [done..|]. apply derived_args; [done|]. rewrite length_insert. apply Hc.
Qed.

Lemma draws_mutate_args fds dst m : FdState.wf fds -> good dst -> draws (mutate_args fds (zlen dst) dst m) good.
Proof.
  intros Hf. revert dst. enough (forall n dst, good dst -> zlen dst = n -> draws (mutate_args fds n dst m) good) as H by eauto.
  induction m as [|m IH]; intros n dst Hg Hn; cbn [mutate_args]; [by apply draws_ret|].
  destruct (Z.ltb_spec 0 n); [|by apply draws_ret]. eapply draws_bind; [by apply draws_biased_idx|]. intros ci Hci. cbv beta in Hci.
  apply draws_below_bind; [lia|]. intros ai Hai.
  eapply draws_bind; [apply draws_mutate_call_arg; [done|done|lia|done]|]. intros d [Hd Hz]. apply IH; [done|lia].
Qed.

Lemma draws_rand_args n : draws (rand_args n) (fun l => length l = n).
Proof.
  induction n as [|n IH]; [by apply draws_ret|]. cbn [rand_args]. eapply draws_bind; [apply draws_rand_int|]. intros v _.
  eapply draws_bind; [exact IH|]. intros l Hl. apply draws_ret. cbn. by rewrite Hl.
Qed.

Lemma draws_splice src corpus : good src -> Forall (fun e => Forall derived (calls e) /\ zlen (calls e) < 2 ^ 63) corpus ->
  corpus <> [] -> draws (splice src corpus) good.
Proof.
  intros [Hl Hd] Hc Hne. unfold splice. assert (0 < zlen corpus) as Hpos.
  { destruct corpus; [done|]. rewrite zlen_cons. pose proof (zlen_nonneg corpus). lia. }
  apply draws_below_bind; [done|]. intros d Hdi. apply draws_lift_bind.
  destruct (idx_Done corpus d Hdi) as (e & -> & He). cbn [wp]. apply get_Some in He as [_ He].
  destruct (Forall_lookup_1 _ _ _ _ Hc He) as [Hed Hel]. pose proof (zlen_nonneg (calls e)) as Hep.
  apply (draws_bind _ _ (fun cut => 0 <= cut /\ cut <= zlen src /\ cut < MAX_SYSCALLS)).
  { pose proof (zlen_nonneg src). destruct (Z.ltb_spec 0 (zlen src)); [|apply draws_ret; unfold MAX_SYSCALLS; lia].
    eapply draws_mono; [by apply draws_below|]. intros x Hx. cbv beta in *. lia. }
  intros cut (Hc0 & Hc1 & Hc2). apply (draws_bind _ _ (fun ds => 0 <= ds <= zlen (calls e))).
  { destruct (Z.ltb_spec 1 (zlen (calls e))); [|apply draws_ret; lia].
    eapply draws_mono; [apply draws_below; lia|]. intros x Hx. cbv beta in *. lia. }
  intros ds Hds. apply draws_lift_bind.
  set (dl := if MAX_SYSCALLS <? _ then _ else _).
  assert (0 <= dl /\ ds + dl <= zlen (calls e) /\ cut + dl <= MAX_SYSCALLS) as (D1 & D2 & D3).
  { unfold dl. destruct (Z.ltb_spec MAX_SYSCALLS (cut + (zlen (calls e) - ds))); [|lia].
    rewrite as_u64_small by (unfold is_u64, MAX_SYSCALLS in *; lia). lia. }
  rewrite as_u64_small by (unfold is_u64; lia). unfold slice.
  rewrite !(proj2 (Z.leb_le _ _)) by lia. cbn [andb or_panic wp]. apply draws_ret. unfold good. split.
  - rewrite zlen_app. unfold zlen in *. rewrite !length_take, length_drop. lia.
  - apply Forall_app. split; [by apply Forall_take|]. by apply Forall_take, Forall_drop.
Qed.
End Sequences.

(** The calls a mutation may draw from. *)
Definition call_pool (src : list Syscall) (corpus : list CorpusEntry) : list Syscall := src ++ concat (calls <$> corpus).

Definition six_args (c : Syscall) : Prop := length (args c) = 6%nat.

Lemma derived_pool pool l : (forall c, c ∈ l -> c ∈ pool) -> Forall six_args l -> Forall (derived pool) l.
Proof.
  intros Hp Hl. rewrite Forall_forall in Hl |- *. intros c Hc. split; [by apply Hl|]. exists c. by split; [apply Hp|].
Qed.

(** Mutating a sequence of at most [MAX_SYSCALLS]
    calls never goes out of range, for any corpus; the result is again at
    most [MAX_SYSCALLS] long, and each of its calls has the number and the
    result of a call of the source or of the corpus and six arguments. *)
Theorem mutate_sequence_derived src corpus fds :
  FdState.wf fds -> zlen src <= MAX_SYSCALLS -> Forall six_args src ->
  Forall (fun e => Forall six_args (calls e) /\ zlen (calls e) < 2 ^ 63) corpus ->
  draws (mutate_sequence src corpus fds)
    (fun dst => zlen dst <= MAX_SYSCALLS /\ Forall (derived (call_pool src corpus)) dst).
Proof.
  intros Hf Hl Hs Hc. set (pool := call_pool src corpus).
  assert (good pool src) as Hg.
  { split; [done|]. apply derived_pool; [|done]. intros c Hin. apply elem_of_app. by left. }
  change (draws (mutate_sequence src corpus fds) (good pool)). unfold mutate_sequence.
  apply draws_below_bind; [lia|]. intros w _. destruct ((w <? 200) && _) eqn:Ew.
  { apply andb_true_iff in Ew as [_ Ew]. apply negb_true_iff, bool_decide_eq_false in Ew. apply draws_splice; [done| |done].
    rewrite Forall_forall in Hc |- *. intros e He. destruct (Hc e He) as [H6 H63]. split; [|done].
    apply derived_pool; [|done]. intros c Hin. apply elem_of_app. right. apply list_elem_of_In, in_concat. exists (calls e).
    split; [|by apply list_elem_of_In]. by apply list_elem_of_In, list_elem_of_fmap_2. }
  destruct (w <? 300).
  { destruct (Z.ltb_spec 0 (zlen src)); [|by apply draws_ret]. eapply draws_bind; [by apply draws_biased_idx|]. intros ci Hci.
    apply draws_below_bind; [lia|]. intros ai Hai. eapply draws_mono; [by apply draws_mutate_call_arg|]. by intros d [Hd _]. }
  destruct (w <? 400); [apply draws_below_bind; [lia|]; intros m _; by apply draws_mutate_args|].
  destruct (w <? 500).
  { destruct (1 <? zlen src); [|by apply draws_ret]. eapply draws_bind; [by apply (draws_mono _ (fun _ => True) (fun _ => True));
      [intros r Hr; split; [|apply rng_below_wf]|]|]. intros cut _. apply draws_ret. destruct Hg as [Hz Hd]. split.
    - unfold zlen in *. rewrite length_app, length_reverse, <- length_app, take_drop. done.
    - apply Forall_app. split; [by apply Forall_take|]. by apply Forall_reverse, Forall_drop. }
  destruct (w <? 550).
  - destruct (Z.ltb_spec 0 (zlen src)); [|by apply draws_ret]. apply draws_below_bind; [done|]. intros ci Hci.
    apply (draws_get_call pool); [done..|]. intros c Hcd. eapply draws_bind; [apply draws_rand_args|]. intros l Hll.
    eapply draws_mono; [apply (draws_set_call pool); [done|done|by apply derived_args]|]. by intros d [Hd _].
  - destruct (Z.ltb_spec 1 (zlen src)); [|by apply draws_ret]. apply draws_below_bind; [lia|]. intros ci Hci. apply draws_ret.
    destruct Hg as [Hz Hd]. split.
    + unfold zlen in *. rewrite length_delete; [lia|]. apply lookup_lt_is_Some. lia.
    + by apply Forall_delete.
Qed.

(** * What minimising keeps *)

(** [kept t o]: [o] is [t] less some calls, none of which returned a
    descriptor that a call of [o] after it takes as an argument. *)
Inductive kept : list Syscall -> list Syscall -> Prop :=
  | kept_nil : kept [] []
  | kept_keep c t o : kept t o -> kept (c :: t) (c :: o)
  | kept_drop c t o : kept t o -> needed c o = false -> kept (c :: t) o.

Lemma kept_refl t : kept t t.
Proof. induction t; by constructor. Qed.

Lemma kept_pre p t o : kept t o -> kept (p ++ t) (p ++ o).
Proof. intros H. induction p as [|c p IH]; [done|]. by constructor. Qed.

Lemma kept_trans_drop p c t0 t : kept t0 t -> needed c t = false -> kept (p ++ c :: t0) (p ++ t).
Proof. intros H Hn. apply kept_pre. by constructor. Qed.

Lemma kept_length t o : kept t o -> (length o <= length t)%nat.
Proof. induction 1; cbn; lia. Qed.

(** The trace while the loop is at index [i]: a prefix of [i + 1] calls not
    yet looked at, and what is kept of the rest. *)
Lemma draws_minimize_go trace0 i : forall pre t0 t, trace0 = pre ++ t0 -> length pre = S i -> kept t0 t ->
  (3 <= length (pre ++ t))%nat -> draws (minimize_go i (pre ++ t)) (fun o => kept trace0 o /\ (3 <= length o)%nat /\ head o = head trace0).
Proof.
  induction i as [|i IH]; intros pre t0 t -> Hpre Hk H3; cbn [minimize_go].
  { apply draws_ret. destruct pre as [|c [|]]; try done. split; [by apply kept_pre|]. by split. }
  destruct (Z.leb_spec (zlen (pre ++ t)) 3) as [|H4].
  { apply draws_ret. destruct pre as [|c pre]; [done|]. split; [by apply kept_pre|]. by split. }
  destruct (exists_last (l := pre) ltac:(by destruct pre)) as (p & c & ->). rewrite length_app in Hpre. cbn in Hpre.
  assert (length p = S i) as Hp by lia.
  apply draws_lift_bind. assert (get ((p ++ [c]) ++ t) (Z.of_nat (S i)) = Some c) as Hg.
  { apply get_Some. split; [unfold zlen; rewrite !length_app; cbn; lia|]. rewrite Nat2Z.id, <- app_assoc.
    rewrite lookup_app_r by lia. by rewrite Hp, Nat.sub_diag. }
  unfold idx. rewrite Hg. cbn [or_panic wp].
  assert (drop (S (S i)) ((p ++ [c]) ++ t) = t) as Hdrop by (apply drop_app_length'; rewrite length_app; cbn; lia).
  rewrite Hdrop.
  apply (draws_bind _ _ (fun b : bool => b = true -> needed c t = false)).
  { destruct (needed c t); [by apply draws_ret|]. apply draws_below_bind; [lia|]. intros k _. by apply draws_ret. }
  intros b Hb. destruct b.
  - replace (delete (S i) ((p ++ [c]) ++ t)) with (p ++ t).
    + apply (IH p (c :: t0) t); [by rewrite <- app_assoc|done|by constructor; [|apply Hb]|].
      unfold zlen in H4. rewrite !length_app in *. cbn in *. lia.
    + rewrite <- app_assoc, <- Hp. symmetry. apply delete_middle.
  - rewrite <- app_assoc. apply (IH p (c :: t0) (c :: t)); [by rewrite <- app_assoc|done|by constructor|].
    rewrite !length_app in *. cbn in *. lia.
Qed.

(** Minimising a trace only drops calls; the
    first call stays; a trace of at most three calls is left alone and a
    longer one keeps at least three; and a dropped call never returned a
    descriptor (below 256) that a surviving later call takes as an argument. *)
Theorem minimize_trace_keeps_used trace :
  draws (minimize_trace trace)
    (fun o => kept trace o /\ head o = head trace /\ (length trace <= 3 -> o = trace)%nat /\ (3 < length trace -> 3 <= length o)%nat).
Proof.
  unfold minimize_trace. destruct (Z.leb_spec (zlen trace) 3) as [H|H]; unfold zlen in H.
  - apply draws_ret. split; [apply kept_refl|]. split; [done|]. split; [done|lia].
  - eapply draws_mono.
    + replace trace with (trace ++ []) at 2 by apply app_nil_r.
      apply (draws_minimize_go trace _ trace []); [by rewrite app_nil_r|lia|constructor|rewrite app_nil_r; lia].
    + intros o (Hk & H3 & Hh). split; [done|]. split; [done|]. split; [lia|done].
Qed.

(** * The bias *)

Lemma sqrt_bounds r s : 0 <= r -> 0 <= s -> Z.sqrt r = s <-> s * s <= r < (s + 1) * (s + 1).
Proof.
  intros Hr Hs. split; intros H.
  - subst s. pose proof (Z.sqrt_spec r Hr) as Hq. cbv zeta in Hq. nia.
  - apply Z.sqrt_unique. nia.
Qed.

Lemma count_all (p : Z -> Prop) `{!forall x, Decision (p x)} l : Forall p l -> zlen (filter p l) = zlen l.
Proof. induction 1 as [|x l Hx _ IH]; [done|]. rewrite filter_cons_True by done. by rewrite !zlen_cons, IH. Qed.

Lemma count_none (p : Z -> Prop) `{!forall x, Decision (p x)} l : Forall (fun x => ~ p x) l -> zlen (filter p l) = 0.
Proof. induction 1 as [|x l Hx _ IH]; [done|]. by rewrite filter_cons_False. Qed.

Lemma count_range (p : Z -> Prop) `{!forall x, Decision (p x)} a b n : 0 <= a -> a <= b -> b <= n ->
  (forall x, 0 <= x < n -> p x <-> a <= x < b) -> zlen (filter p (seqZ 0 n)) = b - a.
Proof.
  intros Ha Hab Hb Hp. replace n with (a + ((b - a) + (n - b))) by lia.
  rewrite seqZ_app, filter_app by lia. rewrite Z.add_0_l, seqZ_app, filter_app by lia. rewrite !zlen_app.
  rewrite (count_none p (seqZ 0 a)), (count_none p (seqZ (a + (b - a)) (n - b))), (count_all p (seqZ a (b - a))).
  - unfold zlen. rewrite length_seqZ. lia.
  - apply Forall_forall. intros x Hx%elem_of_seqZ. apply Hp; lia.
  - apply Forall_forall. intros x Hx%elem_of_seqZ. rewrite Hp by lia. lia.
  - apply Forall_forall. intros x Hx%elem_of_seqZ. rewrite Hp by lia. lia.
Qed.

(** Of the [n * n] equally likely draws, index
    [i] takes [2 * (n - 1 - i) + 1]: the first call is the likeliest and each
    later one loses two, down to a single draw for the last. *)
Theorem biased_idx_prefers_early n i : 0 < n -> 0 <= i < n ->
  zlen (filter (fun r => biased_pos n r = i) (seqZ 0 (n * n))) = 2 * (n - 1 - i) + 1.
Proof.
  intros Hn Hi. rewrite (count_range _ ((n - 1 - i) * (n - 1 - i)) ((n - i) * (n - i)) (n * n)); [lia|nia..|].
  intros r Hr. pose proof (biased_pos_range n r Hn Hr). unfold biased_pos.
  destruct (Z.ltb_spec (n - 1 - Z.sqrt r) 0); [lia|].
  pose proof (sqrt_bounds r (n - 1 - i) ltac:(lia) ltac:(lia)) as Hs. replace (n - 1 - i + 1) with (n - i) in Hs by lia.
  rewrite <- Hs. lia.
Qed.

Lemma biased_idx_prefers_early_witness : 0 < 10 /\
  zlen (filter (fun r => biased_pos 10 r = 0) (seqZ 0 (10 * 10))) = 2 * (10 - 1 - 0) + 1.
Proof. split; [done|apply biased_idx_prefers_early; done]. Defined.

Definition demo_trace : list Syscall :=
  [MkSyscall 257 [-100; 0; 0; 0; 0; 0] 3; MkSyscall 9 [0; 1; 2; 3; 4; 5] 4; MkSyscall 0 [3; 0; 8; 0; 0; 0] 8;
   MkSyscall 3 [4; 0; 0; 0; 0; 0] 0].

Lemma mutate_sequence_derived_witness :
  FdState.wf FdState.new /\
  draws (mutate_sequence demo_trace [MkEntry demo_trace] FdState.new)
    (fun dst => zlen dst <= MAX_SYSCALLS /\ Forall (derived (call_pool demo_trace [MkEntry demo_trace])) dst).
Proof.
  assert (FdState.wf FdState.new) as Hf by (by split; [|constructor]). split; [done|].
  assert (Forall six_args demo_trace) as H6 by (repeat constructor).
  apply mutate_sequence_derived; [done|done|done|]. constructor; [by split|constructor].
Defined.
