(* ===== verification/ReportLog.v ===== *)
(** report/mod.rs, the input side: the PC parser, whole-file reading and the
    reader thread that hands out line-aligned blocks, and the lines of the
    source-location twin.  The reader is a function of the results of its
    [read] calls.  Shown: however the operating system splits a file into
    reads, the blocks are its complete lines, in order, so the streamed
    report sees the PCs of every complete line; and the twin of a log is read
    back as the log.  Also shown: the last line of a file, when it has no
    newline, is read by the whole-file reader and lost by the reader thread,
    and an interrupted read loses the line it was in the middle of. *)
From S2P Require Import Prelude Text.

(** * Parsing *)

Definition hex_value (c : Z) : option Z :=
  if (48 <=? c) && (c <=? 57) then Some (c - 48)
  else if (97 <=? c) && (c <=? 102) then Some (c - 97 + 10)
  else if (65 <=? c) && (c <=? 70) then Some (c - 65 + 10)
  else None.

Fixpoint hex_loop (v : Z) (s : list Z) : option Z :=
  match s with
  | [] => Some v
  | c :: s => d ← hex_value c; hex_loop (Z.lor (v <<₆₄ 4) d) s
  end.

Definition parse_hex_bytes (hex : list Z) : option Z :=
  if (zlen hex =? 0) || (16 <? zlen hex) then None else hex_loop 0 hex.

Definition is_blank (c : Z) : bool := (c =? 32) || (c =? 9) || (c =? 13).

Fixpoint skip_blank (s : list Z) : list Z :=
  match s with c :: t => if is_blank c then skip_blank t else s | [] => [] end.

(** The first token of a line, without [0x]. *)
Definition parse_line (line : list Z) : option Z :=
  let tok := skip_blank line in
  let tok := match position is_blank tok with Some e => take (Z.to_nat e) tok | None => tok end in
  match tok with
  | [] => None
  | _ => parse_hex_bytes (default tok (match strip_prefix (bs "0x") tok with Some r => Some r | None => strip_prefix (bs "0X") tok end))
  end.

(** [parse_pcs]: the PCs it pushes, in order. *)
Definition parse_pcs (data : list Z) : list Z := omap parse_line (split_on 10 data).

(** * Whole files *)

(** [read_all_pcs]: a file that cannot be read is skipped. *)
Definition read_all_pcs (parts : list (option (list Z))) : list Z :=
  concat ((fun p => match p with Some data => parse_pcs data | None => [] end) <$> parts).

(** * The reader thread *)

(** What a call of [read] gives: bytes, an interruption, or another error;
    no bytes are the end of the file, as is the end of the list. *)
Inductive ReadEvent : Type :=
  | Got (chunk : list Z)
  | Interrupted
  | ReadError.

(** The loop over one file: the blocks sent and the carry left at its end.
    The block under construction takes the carry over before it reads: a block
    dropped on the end of the file, an error or an interruption takes the
    carry with it. *)
Fixpoint read_loop (carry : list Z) (evs : list ReadEvent) : list (list Z) * list Z :=
  match evs with
  | [] => ([], [])
  | Interrupted :: evs => read_loop [] evs
  | ReadError :: _ | Got [] :: _ => ([], [])
  | Got chunk :: evs =>
      let block := carry ++ chunk in
      match rposition 10 block with
      | Some nl =>
          let '(blocks, c) := read_loop (drop (Z.to_nat (nl + 1)) block) evs in
          (take (Z.to_nat (nl + 1)) block :: blocks, c)
      | None => read_loop block evs
      end
  end.

(** All files, with the carry between them; [None] is a file that does not open. *)
Fixpoint spawn_reader (carry : list Z) (parts : list (option (list ReadEvent))) : list (list Z) :=
  match parts with
  | [] => []
  | None :: parts => spawn_reader carry parts
  | Some evs :: parts =>
      let '(blocks, carry) := read_loop carry evs in
      blocks ++ match carry with
                | [] => spawn_reader [] parts
                | _ => (carry ++ [10]) :: spawn_reader [] parts
                end
  end.

(** * The source-location twin *)

(** One line of srccov.log. *)
Definition twin_line (pc : Z) (loc : option (list Z)) : list Z :=
  bs "0x" ++ fmt_hex pc ++ [32] ++ default (bs "??") loc ++ [10].

(** [write_srccov], with the location map as a function. *)
Definition write_srccov (loc_of : Z -> option (list Z)) (seq : list Z) : list Z :=
  concat ((fun pc => twin_line pc (loc_of pc)) <$> seq).

Definition unique_sorted (seq : list Z) : list Z := dedup (sort_u64 seq).

Definition hex_strings (pcs : list Z) : list (list Z) := (fun pc => bs "0x" ++ fmt_hex pc) <$> pcs.

(** * Lines *)

Lemma parse_pcs_app a b : parse_pcs (a ++ 10 :: b) = parse_pcs a ++ parse_pcs b.
Proof.
  unfold parse_pcs. rewrite <- omap_app. f_equal. induction a as [|x a IH]; [done|]. cbn [app split_on].
  destruct (Z.eqb_spec x 10) as [->|]; [by rewrite IH|]. rewrite IH. by destruct (split_on_cons 10 a) as (w & ws & ->).
Qed.

Lemma parse_pcs_line l b : parse_pcs ((l ++ [10]) ++ b) = parse_pcs l ++ parse_pcs b.
Proof. rewrite <- app_assoc. apply parse_pcs_app. Qed.

(** The complete lines of a file: all of it up to the last newline. *)
Definition complete (data : list Z) : list Z :=
  match rposition 10 data with Some nl => take (Z.to_nat (nl + 1)) data | None => [] end.

Lemma complete_app a b : complete (a ++ 10 :: b) = a ++ 10 :: complete b.
Proof.
  unfold complete. assert (rposition 10 (a ++ 10 :: b) = Some (zlen a + match rposition 10 b with Some i => 1 + i | None => 0 end)) as ->.
  { induction a as [|x a IH]; cbn [app rposition]; [by destruct (rposition 10 b)|]. rewrite IH, zlen_cons. f_equal. lia. }
  destruct (rposition 10 b) as [i|] eqn:E.
  - apply rposition_Some in E as (pre & post & -> & <- & _). pose proof (zlen_nonneg pre). pose proof (zlen_nonneg a).
    replace (Z.to_nat (zlen a + (1 + zlen pre) + 1)) with (length a + S (Z.to_nat (zlen pre + 1)))%nat by (unfold zlen; lia).
    rewrite take_app_add. done.
  - rewrite Z.add_0_r. replace (Z.to_nat (zlen a + 1)) with (length a + 1)%nat by (unfold zlen; lia). by rewrite take_app_add.
Qed.

Lemma complete_none s : 10 ∉ s -> complete s = [].
Proof. intros H. apply rposition_None in H. unfold complete. by rewrite H. Qed.

(** * The blocks are the complete lines *)

(** The reads of some chunks; a read that gives bytes gives at least one. *)
Definition reads (chunks : list (list Z)) : list ReadEvent := Got <$> filter (fun c => c <> []) chunks.

(** [cut] is what follows: the end of the file, or an interruption. *)
Lemma read_loop_cut carry chunks cut rest : 10 ∉ carry -> (forall c, 10 ∉ c -> read_loop c cut = (rest, [])) ->
  exists blocks, read_loop carry (reads chunks ++ cut) = (blocks ++ rest, []) /\
    concat blocks = complete (carry ++ concat chunks) /\ Forall (fun b => exists l, b = l ++ [10]) blocks.
Proof.
  intros Hc Hcut. revert carry Hc. induction chunks as [|ch chunks IH]; intros carry Hc.
  - exists []. cbn [reads filter list_filter fmap list_fmap app concat]. rewrite app_nil_r. by rewrite Hcut, complete_none.
  - unfold reads in *. rewrite filter_cons. case_decide as Hch; [|subst ch; by apply IH].
    cbn [fmap list_fmap app read_loop concat]. destruct ch as [|b0 ch0] eqn:Ech; [done|]. rewrite <- Ech in *. clear b0 ch0 Ech Hch. rewrite app_assoc. destruct (rposition 10 (carry ++ ch)) as [nl|] eqn:E.
    + apply rposition_Some in E as (pre & post & Eb & Hp & Hn). rewrite Eb.
      destruct (IH post Hn) as (blocks & E1 & E2 & E3). unfold reads in E1.
      replace (Z.to_nat (nl + 1)) with (length pre + 1)%nat by (unfold zlen in Hp; lia).
      rewrite drop_app_add, take_app_add. change (drop 1 (10 :: post)) with post. change (take 1 (10 :: post)) with [10].
      rewrite E1. exists ((pre ++ [10]) :: blocks). split; [reflexivity|]. split; [|constructor; [by eexists|done]].
      assert (complete ((pre ++ 10 :: post) ++ concat chunks) = pre ++ 10 :: complete (post ++ concat chunks)) as ->
        by (rewrite <- app_assoc; apply complete_app).
      cbn [concat]. rewrite E2. by rewrite <- app_assoc.
    + apply rposition_None in E. by apply IH.
Qed.

Lemma read_loop_blocks carry chunks : 10 ∉ carry ->
  exists blocks, read_loop carry (reads chunks) = (blocks, []) /\
    concat blocks = complete (carry ++ concat chunks) /\ Forall (fun b => exists l, b = l ++ [10]) blocks.
Proof.
  intros Hc. destruct (read_loop_cut carry chunks [] [] Hc) as (blocks & E & H); [by intros|]. exists blocks. by rewrite !app_nil_r in E.
Qed.

Lemma parse_pcs_blocks blocks : Forall (fun b => exists l, b = l ++ [10]) blocks ->
  concat (parse_pcs <$> blocks) = parse_pcs (concat blocks).
Proof.
  induction 1 as [|b blocks [l ->] _ IH]; [done|]. cbn [fmap list_fmap concat]. rewrite parse_pcs_line, IH. f_equal.
  rewrite parse_pcs_app. change (parse_pcs []) with (@nil Z). apply app_nil_r.
Qed.

Lemma complete_terminated data : data = [] \/ (exists l, data = l ++ [10]) -> complete data = data.
Proof. intros [-> | [l ->]]; [done|]. by rewrite complete_app. Qed.

(** Files given by the chunks their reads return: as events, as contents, and
    as the complete lines of the contents. *)
Definition File : Type := option (list (list Z)).
Definition arriving (f : File) : option (list ReadEvent) := match f with Some chunks => Some (reads chunks) | None => None end.
Definition contents (f : File) : option (list Z) := match f with Some chunks => Some (concat chunks) | None => None end.
Definition complete_lines (f : File) : option (list Z) := match contents f with Some d => Some (complete d) | None => None end.
Definition terminated (f : File) : Prop :=
  match contents f with Some d => d = [] \/ exists l, d = l ++ [10] | None => True end.

(** The PCs the streamed report sees. *)
Definition streamed (files : list File) : list Z := concat (parse_pcs <$> spawn_reader [] (arriving <$> files)).

Lemma streamed_complete files : streamed files = read_all_pcs (complete_lines <$> files).
Proof.
  unfold streamed, read_all_pcs. induction files as [|f files IH]; [done|].
  destruct f as [chunks|]; cbn [fmap list_fmap arriving spawn_reader]; [|exact IH].
  destruct (read_loop_blocks [] chunks ltac:(set_solver)) as (blocks & -> & Hb & Hl).
  cbn [app] in Hb. rewrite fmap_app, concat_app, parse_pcs_blocks, Hb by done. cbn [concat]. f_equal. exact IH.
Qed.

(** C32: whatever sizes the reads of each file
    return, the PCs of the blocks the reader thread sends are the PCs of the
    complete lines of the files, in order; when every file is empty or ends
    with a newline they are exactly the PCs of the whole-file reader. *)
Theorem stream_reads_complete_lines (files : list File) :
  streamed files = read_all_pcs (complete_lines <$> files) /\
  (Forall terminated files -> streamed files = read_all_pcs (contents <$> files)).
Proof.
  split; [apply streamed_complete|]. intros Hf. rewrite streamed_complete. f_equal.
  apply list_fmap_ext. intros i f Hi. pose proof (Forall_lookup_1 _ _ _ _ Hf Hi) as Ht.
  unfold complete_lines, terminated in *. destruct (contents f); [|done]. by rewrite complete_terminated.
Qed.

(** The reads of a file, interrupted between one run of chunks and the next. *)
Fixpoint interrupted (runs : list (list (list Z))) : list ReadEvent :=
  match runs with [] => [] | [r] => reads r | r :: runs => reads r ++ Interrupted :: interrupted runs end.

Lemma interrupted_blocks runs carry : 10 ∉ carry -> runs <> [] ->
  exists blocks, read_loop carry (interrupted runs) = (blocks, []) /\ Forall (fun b => exists l, b = l ++ [10]) blocks /\
    parse_pcs (concat blocks) = parse_pcs (complete (carry ++ concat (concat (take 1 runs)))) ++ concat ((fun r => parse_pcs (complete (concat r))) <$> drop 1 runs).
Proof.
  revert carry. induction runs as [|r runs IH]; intros carry Hc Hr; [done|]. cbn [take drop concat]. rewrite app_nil_r. destruct runs as [|r' runs].
  - cbn [interrupted drop fmap list_fmap concat]. destruct (read_loop_blocks carry r Hc) as (blocks & E & Hb & Hl). exists blocks. rewrite Hb. by rewrite app_nil_r.
  - destruct (IH [] ltac:(set_solver) ltac:(done)) as (more & Em & Hl & Hm). cbn [take drop concat app] in Hm. rewrite app_nil_r in Hm.
    destruct (read_loop_cut carry r (Interrupted :: interrupted (r' :: runs)) more Hc) as (blocks & E & Hb & Hl'); [by intros c _|].
    exists (blocks ++ more). split; [exact E|]. split; [by apply Forall_app|]. rewrite <- parse_pcs_blocks by (by apply Forall_app).
    rewrite fmap_app, concat_app, !parse_pcs_blocks, Hb, Hm by done. done.
Qed.

Lemma parse_pcs_tail pre tail pc : complete pre = pre -> 10 ∉ tail -> parse_line tail = Some pc ->
  parse_pcs (pre ++ tail) = parse_pcs pre ++ [pc] /\ complete (pre ++ tail) = pre.
Proof.
  intros Hp Ht Hl. assert (parse_pcs tail = [pc]) as Htail by (unfold parse_pcs; rewrite split_on_none by done; cbn [omap list_omap]; by rewrite Hl).
  assert (pre = [] \/ exists l, pre = l ++ [10]) as [->|[l ->]].
  { unfold complete in Hp. destruct (rposition 10 pre) as [nl|] eqn:E; [|by left]. right. apply rposition_Some in E as (a & b & -> & <- & _).
    replace (Z.to_nat (zlen a + 1)) with (length a + 1)%nat in Hp by (unfold zlen; lia). rewrite take_app_add in Hp. cbn in Hp.
    exists a. by rewrite <- Hp at 1. }
  - split; [exact Htail|by apply complete_none].
  - split; [by rewrite parse_pcs_line, Htail, <- (app_nil_r (l ++ [10])), parse_pcs_line, app_nil_r|].
    rewrite <- app_assoc. cbn [app]. rewrite complete_app, complete_none by done. done.
Qed.

(** C40: the reader thread loses what the whole-file reader keeps.  Of a
    file whose reads are interrupted, only the complete lines of each run of
    reads arrive: a line that an interruption splits is lost, and what follows
    of it is read as a line of its own; and where the last line lacks its
    newline and holds an address, that address is lost, however the bytes
    arrive and also without an interruption. *)
Theorem reader_loses_tail (runs : list (list (list Z))) : runs <> [] ->
  concat (parse_pcs <$> spawn_reader [] [Some (interrupted runs)]) = concat ((fun r => parse_pcs (complete (concat r))) <$> runs) /\
  (forall chunks pre tail pc, concat chunks = pre ++ tail -> complete pre = pre -> 10 ∉ tail -> parse_line tail = Some pc ->
     read_all_pcs [Some (concat chunks)] = streamed [Some chunks] ++ [pc]).
Proof.
  intros Hr. split.
  - destruct (interrupted_blocks runs [] ltac:(set_solver) Hr) as (blocks & E & Hl & Hp). cbn [spawn_reader]. rewrite E, app_nil_r.
    rewrite parse_pcs_blocks, Hp by done. destruct runs as [|r runs]; [done|]. cbn [take drop concat app fmap list_fmap]. by rewrite app_nil_r.
  - intros chunks pre tail pc Hc Hp Ht Hl. rewrite streamed_complete. unfold complete_lines, read_all_pcs. cbn [fmap list_fmap contents concat].
    rewrite !app_nil_r, Hc. by destruct (parse_pcs_tail pre tail pc Hp Ht Hl) as [-> ->].
Qed.

(** * Reading a twin back *)

Lemma hex_value_digit c : hex_value c = to_digit c 16.
Proof.
  unfold hex_value, to_digit, is_ascii_digit, is_ascii_lower, is_ascii_upper.
  zbool; cbn in *; try lia; try (f_equal; lia); try done.
Qed.

Lemma hex_loop_digits s acc v : 0 <= acc -> digits_val 16 (2 ^ 64 - 1) acc s = Some v -> hex_loop acc s = Some v.
Proof.
  revert acc. induction s as [|c s IH]; intros acc Ha Hv; [done|]. cbn in *. rewrite hex_value_digit.
  destruct (to_digit c 16) as [d|] eqn:E; [|done]. apply to_digit_range in E; [|lia]. cbn.
  destruct (Z.leb_spec (acc * 16 + d) (2 ^ 64 - 1)); [|done].
  rewrite Z.shiftl_mul_pow2, as_u64_small by (unfold is_u64; lia).
  replace (Z.lor (acc * 2 ^ 4) d) with (acc * 16 + d); [apply IH; [lia|done]|].
  rewrite Z.lor_comm. rewrite <- Z.shiftl_mul_pow2 by lia. rewrite lor_add by lia. lia.
Qed.

Lemma fmt_digits_length fuel radix n acc (k : nat) : 2 <= radix -> (0 < k)%nat -> 0 <= n < radix ^ Z.of_nat k ->
  (length (fmt_digits fuel radix n acc) <= k + length acc)%nat.
Proof.
  intros Hr. revert n acc k. induction fuel as [|fuel IH]; intros n acc k Hk Hn; cbn [fmt_digits]; [lia|].
  destruct (Z.eqb_spec (n / radix) 0); [cbn; lia|]. destruct k as [|[|k]]; [lia| |].
  - exfalso. change (Z.of_nat 1) with 1 in Hn. rewrite Z.pow_1_r in Hn. rewrite Z.div_small in *; lia.
  - etransitivity; [apply (IH _ _ (S k)); [lia|]|cbn; lia]. split; [apply Z.div_pos; lia|].
    apply Z.div_lt_upper_bound; [lia|]. rewrite <- Z.pow_succ_r by lia. rewrite <- Nat2Z.inj_succ. apply Hn.
Qed.

Lemma parse_hex_fmt n : is_u64 n -> parse_hex_bytes (fmt_hex n) = Some n.
Proof.
  intros Hn. unfold is_u64 in Hn. unfold parse_hex_bytes, fmt_hex.
  pose proof (fmt_digits_length 64 16 n [] 16 ltac:(lia) ltac:(lia) ltac:(lia)) as Hl. cbn [length] in Hl.
  destruct (fmt_digits_head 63 16 n [] ltac:(lia)) as (d & l & E & _).
  rewrite (proj2 (Z.eqb_neq _ 0)) by (rewrite E, zlen_cons; pose proof (zlen_nonneg l); lia).
  rewrite (proj2 (Z.ltb_ge _ _)) by (unfold zlen; lia). cbn [orb].
  apply hex_loop_digits; [lia|]. rewrite (digits_val_fmt 64 16 _ n []); [done|lia|lia|].
  apply (Z.lt_le_trans _ (2 ^ 64)); [lia|done].
Qed.

Lemma parse_line_twin pc rest : is_u64 pc -> parse_line (bs "0x" ++ fmt_hex pc ++ 32 :: rest) = Some pc.
Proof.
  intros Hpc. unfold parse_line. change (skip_blank (bs "0x" ++ ?l)) with (bs "0x" ++ l).
  assert (position is_blank (bs "0x" ++ fmt_hex pc ++ 32 :: rest) = Some (2 + zlen (fmt_hex pc))) as ->.
  { assert (Forall (fun c => is_blank c = false) (fmt_hex pc)) as Hb.
    { eapply Forall_impl; [apply fmt_hex_alnum|]. intros c Hc. unfold is_blank. cbv beta in *.
      rewrite !(proj2 (Z.eqb_neq _ _)) by lia. done. }
    change (position is_blank (bs "0x" ++ ?l)) with (Z.succ <$> (Z.succ <$> position is_blank l)).
    assert (position is_blank (fmt_hex pc ++ 32 :: rest) = Some (zlen (fmt_hex pc))) as ->; [|cbn; f_equal; lia].
    induction Hb as [|c l Hc _ IH]; [done|]. cbn [app position]. rewrite Hc, IH, zlen_cons. cbn. f_equal. lia. }
  replace (Z.to_nat (2 + zlen (fmt_hex pc))) with (length (bs "0x" ++ fmt_hex pc)) by (rewrite length_app; unfold zlen; cbn; lia).
  rewrite app_assoc, take_app_length. change (strip_prefix (bs "0x") (bs "0x" ++ ?l)) with (Some l).
  exact (parse_hex_fmt pc Hpc).
Qed.

(** The source-location twin of a log, whatever text stands
    for the locations, is itself a log of the same PCs: reading it back gives
    the sequence, order and duplicates included. *)
Theorem twin_roundtrip (loc_of : Z -> option (list Z)) (seq : list Z) :
  Forall is_u64 seq -> (forall pc l, loc_of pc = Some l -> 10 ∉ l) -> parse_pcs (write_srccov loc_of seq) = seq.
Proof.
  intros Hs Hl. unfold write_srccov. induction Hs as [|pc seq Hpc _ IH]; [done|]. cbn [fmap list_fmap concat].
  set (loc := default (bs "??") (loc_of pc)).
  assert (twin_line pc (loc_of pc) = (bs "0x" ++ fmt_hex pc ++ 32 :: loc) ++ [10]) as -> by (unfold twin_line; by rewrite <- !app_assoc).
  rewrite parse_pcs_line, IH.
  assert (10 ∉ bs "0x" ++ fmt_hex pc ++ 32 :: loc) as Hn.
  { rewrite !elem_of_app, elem_of_cons. intros [H|[H|[H|H]]]; [cbn in H; set_solver| |done|].
    - pose proof (fmt_hex_alnum pc) as Ha. rewrite Forall_forall in Ha. apply Ha in H. cbv beta in H. lia.
    - unfold loc in H. destruct (loc_of pc) as [l|] eqn:E; cbn in H; [by eapply Hl|set_solver]. }
  unfold parse_pcs. replace (split_on 10 _) with [bs "0x" ++ fmt_hex pc ++ 32 :: loc].
  - cbn [omap list_omap]. by rewrite parse_line_twin.
  - symmetry. apply split_on_none. done.
Qed.

Lemma stream_reads_complete_lines_witness : let files := [Some [bs "0x1"; bs "0" ++ 10 :: bs "0x2"; [10]]; None; Some []] in
  Forall terminated files /\ streamed files = read_all_pcs (contents <$> files).
Proof.
  intros files. assert (Forall terminated files) as H.
  { constructor; [right; by exists (bs "0x10" ++ 10 :: bs "0x2")|]. constructor; [done|]. constructor; [by left|constructor]. }
  split; [exact H|]. apply stream_reads_complete_lines. exact H.
Defined.

Lemma twin_roundtrip_witness : let loc_of pc := if pc =? 16 then Some (bs "do_open fs/open.c:3") else None in
  Forall is_u64 [16; 2 ^ 64 - 1; 16] /\ parse_pcs (write_srccov loc_of [16; 2 ^ 64 - 1; 16]) = [16; 2 ^ 64 - 1; 16].
Proof.
  intros loc_of. assert (Forall is_u64 [16; 2 ^ 64 - 1; 16]) as H by (repeat constructor; unfold is_u64; lia).
  split; [exact H|]. apply twin_roundtrip; [exact H|]. unfold loc_of. intros pc l E. destruct (pc =? 16); [|done].
  injection E as <-. vm_compute. intros Hin. repeat (apply elem_of_cons in Hin as [Hin|Hin]; [done|]). by apply not_elem_of_nil in Hin.
Defined.

(** An address cut in two by an interruption, and a last line without a newline. *)
Lemma reader_loses_tail_witness :
  let runs := [[bs "0x10" ++ 10 :: bs "0xffffffff"]; [bs "81000000"; 10 :: bs "0x20"]] in
  concat (parse_pcs <$> spawn_reader [] [Some (interrupted runs)]) = [0x10; 0x81000000] /\
  read_all_pcs [Some (concat (concat runs))] = [0x10; 0xffffffff81000000; 0x20] /\
  streamed [Some (concat runs)] = [0x10; 0xffffffff81000000].
Proof.
  intros runs. destruct (reader_loses_tail runs ltac:(done)) as [H1 H2]. split; [by rewrite H1; vm_compute|].
  specialize (H2 (concat runs) (bs "0x10" ++ 10 :: bs "0xffffffff81000000" ++ [10]) (bs "0x20") 0x20 ltac:(reflexivity) ltac:(reflexivity)
    ltac:(vm_compute; set_solver) ltac:(reflexivity)).
  split; [by vm_compute|]. apply (app_inj_2 _ _ [0x20] [0x20]); [done|]. rewrite <- H2. by vm_compute.
Defined.
