(* ===== verification/ReportPaths.v ===== *)
(** report/resolve.rs and report/symbolize.rs: from (function, file:line)
    resolutions to kernel-relative source lines.  A path is its bytes;
    [Path::components] of the standard library is written out.  Shown: a path
    below the kernel tree becomes its relative path however it is spelled, any
    other path is cut at a kernel directory or to its file name; the lines and
    functions a report shows are exactly those its resolutions locate; and the
    source-location twin names the same file and line as the report. *)
From S2P Require Import Prelude Text.

(** * Paths *)

(** [Path::components] on Unix, each component as its text. *)
Definition plain (p : list Z) : bool := negb (bytes_eqb p []) && negb (bytes_eqb p (bs ".")).

Definition normal (ps : list (list Z)) : list (list Z) := filter (fun p => plain p = true) ps.

Definition components (s : list Z) : list (list Z) :=
  if starts_with (bs "/") s then bs "/" :: normal (split_on 47 s)
  else match split_on 47 s with
       | p :: rest => (if bytes_eqb p (bs ".") then [p] else normal [p]) ++ normal rest
       | [] => []
       end.

(** [join("/")] *)
Fixpoint join_slash (ps : list (list Z)) : list Z :=
  match ps with
  | [] => []
  | [p] => p
  | p :: ps => p ++ 47 :: join_slash ps
  end.

Fixpoint strip_common (fc sc : list (list Z)) : list (list Z) * list (list Z) :=
  match fc, sc with
  | c :: fc', d :: sc' => if bytes_eqb c d then strip_common fc' sc' else (fc, sc)
  | _, _ => (fc, sc)
  end.

Definition relpath (file start : list Z) : list Z :=
  let '(f, s) := strip_common (components file) (components start) in
  match replicate (length s) (bs "..") ++ f with
  | [] => bs "."
  | parts => join_slash parts
  end.

Definition KERNEL_DIRS : list (list Z) :=
  [bs "arch/"; bs "fs/"; bs "net/"; bs "drivers/"; bs "kernel/"; bs "mm/"; bs "block/"; bs "security/";
   bs "crypto/"; bs "lib/"; bs "ipc/"; bs "init/"; bs "include/"; bs "sound/"; bs "virt/"; bs "io_uring/"].

(** The [for kd in KERNEL_DIRS] loop. *)
Fixpoint reroot (dirs : list (list Z)) (file_path : list Z) : option (list Z) :=
  match dirs with
  | [] => None
  | kd :: dirs =>
      match find_sub (bs "/" ++ kd) file_path with
      | Some i => Some (drop (Z.to_nat (i + 1)) file_path)
      | None => reroot dirs file_path
      end
  end.

Definition rel_kernel_path (file_path kernel_src : list Z) : list Z :=
  let rel := relpath file_path kernel_src in
  if starts_with (bs "..") rel then
    match reroot KERNEL_DIRS file_path with
    | Some r => r
    | None => match rposition 47 file_path with
              | Some i => drop (Z.to_nat (i + 1)) file_path
              | None => file_path
              end
    end
  else rel.

(** * Aggregation *)

Definition Cov : Type := gmap (list Z) (gset Z).
Definition Funcs : Type := gmap (list Z) (gmap Z (list Z)).

(** Where a resolution points: the [continue]s of the loop are [None]. *)
Definition locate (line kernel_src : list Z) : option (list Z * Z) :=
  colon ← rposition 58 line;
  let file_path := take (Z.to_nat colon) line in
  w ← head (split_whitespace (drop (Z.to_nat (colon + 1)) line));
  lineno ← parse_u64 w;
  if bytes_eqb file_path (bs "??") || (lineno =? 0) then None
  else Some (rel_kernel_path file_path kernel_src, lineno).

Definition named (func : list Z) : bool := negb (bytes_eqb func (bs "??")) && negb (bytes_eqb func []).

Definition aggregate_step (kernel_src : list Z) (st : Cov * Funcs) (pair : list Z * list Z) : Cov * Funcs :=
  let '(cov, funcs) := st in
  let '(func, line) := pair in
  match locate line kernel_src with
  | None => (cov, funcs)
  | Some (rel, lineno) =>
      (<[rel := {[lineno]} ∪ default ∅ (cov !! rel)]> cov,
       if named func then <[rel := <[lineno := func]> (default ∅ (funcs !! rel))]> funcs else funcs)
  end.

Definition aggregate (lines : list (list Z * list Z)) (kernel_src : list Z) : Cov * Funcs :=
  foldl (aggregate_step kernel_src) (∅, ∅) lines.

(** * Locations in the twin *)

Definition srccov_path (file_name : list Z) : list Z :=
  if bytes_eqb file_name (bs "kerncov.log") then bs "srccov.log" else bs "srccov-" ++ file_name.

Definition location_string (func loc kernel_src : list Z) : option (list Z) :=
  if bytes_eqb loc [] || starts_with (bs "??") loc then None
  else
    let l := match rposition 58 loc with
             | Some colon => rel_kernel_path (take (Z.to_nat colon) loc) kernel_src ++ [58] ++ drop (Z.to_nat (colon + 1)) loc
             | None => loc
             end in
    Some (if named func then func ++ [32] ++ l else l).

Definition location_map (pcs : list Z) (resolved : list (list Z * list Z)) (kernel_src : list Z) : gmap Z (list Z) :=
  foldl (fun m '(a, (f, l)) => match location_string f l kernel_src with Some v => <[a := v]> m | None => m end) ∅ (zip pcs resolved).

(** * Normal paths *)

Lemma normal_app a b : normal (a ++ b) = normal a ++ normal b.
Proof. apply filter_app. Qed.

Lemma normal_id ps : Forall (fun p => plain p = true) ps -> normal ps = ps.
Proof. induction 1 as [|p ps Hp _ IH]; [done|]. unfold normal. rewrite filter_cons_True by done. by f_equal. Qed.

Lemma split_join ps : ps <> [] -> Forall (fun p => 47 ∉ p) ps -> split_on 47 (join_slash ps) = ps.
Proof.
  intros Hn. induction 1 as [|p ps Hp H IH]; [done|]. destruct ps as [|q ps]; [by apply split_on_none|].
  change (join_slash (p :: q :: ps)) with (p ++ 47 :: join_slash (q :: ps)). rewrite split_on_app by done.
  by rewrite IH.
Qed.

(** The kernel tree as [canonicalize] gives it: an absolute path. *)
Definition canonical (root : list (list Z)) : Prop :=
  root <> [] /\ Forall (fun p => plain p = true /\ 47 ∉ p) root.

Lemma components_below root tail : canonical root ->
  components (47 :: join_slash root ++ 47 :: tail) = (bs "/" :: root) ++ normal (split_on 47 tail).
Proof.
  intros [Hn Hr]. unfold components. change (starts_with (bs "/") (47 :: ?l)) with true. cbv iota.
  cbn [split_on Z.eqb Pos.eqb]. rewrite split_on_split, split_join; [|done|by eapply Forall_impl; [exact Hr|intros ? []]].
  change ([] :: ?l) with ([[]] ++ l). rewrite !normal_app, (normal_id root); [done|]. by eapply Forall_impl; [exact Hr|intros ? []].
Qed.

Lemma components_root root : canonical root -> components (47 :: join_slash root) = bs "/" :: root.
Proof.
  intros [Hn Hr]. unfold components. change (starts_with (bs "/") (47 :: ?l)) with true. cbv iota.
  cbn [split_on Z.eqb Pos.eqb]. rewrite split_join; [|done|by eapply Forall_impl; [exact Hr|intros ? []]].
  change ([] :: ?l) with ([[]] ++ l). rewrite normal_app, (normal_id root); [done|]. by eapply Forall_impl; [exact Hr|intros ? []].
Qed.

Lemma strip_common_app a b : strip_common (a ++ b) a = (b, []).
Proof.
  induction a as [|c a IH]; [by destruct b|]. cbn. unfold bytes_eqb. rewrite bool_decide_eq_true_2 by done. exact IH.
Qed.

Lemma relpath_below root tail : canonical root -> normal (split_on 47 tail) <> [] ->
  relpath (47 :: join_slash root ++ 47 :: tail) (47 :: join_slash root) = join_slash (normal (split_on 47 tail)).
Proof.
  intros Hr Hn. unfold relpath. rewrite components_below, components_root, strip_common_app by done.
  cbn [length replicate app]. by destruct (normal (split_on 47 tail)).
Qed.

Lemma starts_with_join p q ps : 47 ∉ p -> starts_with p (join_slash (q :: ps)) = starts_with p q.
Proof.
  intros Hp. destruct ps as [|r ps]; [done|]. change (join_slash (q :: r :: ps)) with (q ++ 47 :: join_slash (r :: ps)).
  apply Bool.eq_iff_eq_true. rewrite !starts_with_iff. split; intros [t Ht].
  - apply app_eq_app in Ht as [u [[-> Hu]|[-> Hu]]]; [by exists u|].
    destruct u as [|x u]; [rewrite app_nil_r; by exists []; rewrite app_nil_r|]. injection Hu as <- _. set_solver.
  - rewrite Ht, <- app_assoc. by eexists.
Qed.

(** * What a path becomes *)

(** A file below the kernel tree is shown by its path
    relative to the tree, with doubled slashes and [.] components of the build
    path removed. *)
Theorem kernel_path_below (root : list (list Z)) (tail p : list Z) (ps : list (list Z)) :
  canonical root -> normal (split_on 47 tail) = p :: ps -> starts_with (bs "..") p = false ->
  rel_kernel_path (47 :: join_slash root ++ 47 :: tail) (47 :: join_slash root) = join_slash (p :: ps).
Proof.
  intros Hr Hp Hs. unfold rel_kernel_path. rewrite relpath_below by (done || by rewrite Hp). rewrite Hp.
  rewrite starts_with_join, Hs by (cbn; set_solver). done.
Qed.

Definition occurs (dir file : list Z) : Prop := exists pre post, file = pre ++ (47 :: dir) ++ post.

Lemma strip_common_split fc sc f s : strip_common fc sc = (f, s) -> exists c, fc = c ++ f /\ sc = c ++ s.
Proof.
  revert sc. induction fc as [|x fc IH]; intros sc; [intros [= <- <-]; by exists []|].
  destruct sc as [|y sc]; [intros [= <- <-]; by exists []|]. cbn. unfold bytes_eqb.
  destruct (bool_decide_reflect (x = y)) as [->|]; [|intros [= <- <-]; by exists []].
  intros H. destruct (IH sc H) as (c & -> & ->). by exists (y :: c).
Qed.

Lemma relpath_outside file start : (forall rest, components file <> components start ++ rest) ->
  starts_with (bs "..") (relpath file start) = true.
Proof.
  intros H. unfold relpath. destruct (strip_common _ _) as [f s] eqn:E. apply strip_common_split in E as (c & Ef & Es).
  destruct s as [|x s]; [rewrite app_nil_r in Es; subst; by destruct (H f)|]. cbn [length replicate app].
  change (bs ".." :: ?l) with ([bs ".."] ++ l). apply starts_with_iff. destruct (replicate (length s) _ ++ f) as [|y l]; [by exists []|].
  by eexists.
Qed.

Lemma reroot_Some dirs file r : reroot dirs file = Some r ->
  exists before kd after pre post, dirs = before ++ kd :: after /\ Forall (fun d => ~ occurs d file) before /\
    file = pre ++ 47 :: kd ++ post /\ r = kd ++ post /\
    forall pre' post', file = pre' ++ 47 :: kd ++ post' -> zlen pre <= zlen pre'.
Proof.
  induction dirs as [|kd dirs IH]; [done|]. cbn [reroot]. destruct (find_sub _ file) as [i|] eqn:E.
  - intros [= <-]. apply find_sub_Some in E as (pre & post & -> & <- & Hf). exists [], kd, dirs, pre, post. split; [done|]. split; [constructor|].
    split; [done|]. split; [|exact Hf]. replace (Z.to_nat (zlen pre + 1)) with (length pre + 1)%nat by (unfold zlen; lia). by rewrite drop_app_add.
  - intros H. destruct (IH H) as (before & kd' & after & pre & post & -> & Hb & Hrest). exists (kd :: before), kd', after, pre, post.
    split; [done|]. split; [|exact Hrest]. constructor; [|done]. intros (a & b & Hab). by apply (proj1 (find_sub_None _ _) E a b).
Qed.

Lemma reroot_None dirs file : reroot dirs file = None -> Forall (fun d => ~ occurs d file) dirs.
Proof.
  induction dirs as [|kd dirs IH]; [constructor|]. cbn [reroot]. destruct (find_sub _ file) as [i|] eqn:E; [done|].
  intros H. constructor; [|by apply IH]. intros (a & b & Hab). by apply (proj1 (find_sub_None _ _) E a b).
Qed.

(** A file outside the kernel tree is shown from the
    first occurrence of the first directory of KERNEL_DIRS that occurs in its
    path, the order being that of the list and not that of the path; when none
    occurs, by its file name. *)
Theorem kernel_path_elsewhere (file kernel_src : list Z) :
  (forall rest, components file <> components kernel_src ++ rest) ->
  let rel := rel_kernel_path file kernel_src in
  (exists before kd after pre post, KERNEL_DIRS = before ++ kd :: after /\ Forall (fun d => ~ occurs d file) before /\
     file = pre ++ 47 :: kd ++ post /\ rel = kd ++ post /\
     forall pre' post', file = pre' ++ 47 :: kd ++ post' -> zlen pre <= zlen pre') \/
  (Forall (fun d => ~ occurs d file) KERNEL_DIRS /\ 47 ∉ rel /\ (file = rel \/ exists pre, file = pre ++ 47 :: rel)).
Proof.
  intros H. cbv zeta. unfold rel_kernel_path. rewrite relpath_outside by done.
  destruct (reroot KERNEL_DIRS file) as [r|] eqn:E; [left; by apply reroot_Some|right].
  split; [by apply reroot_None|]. destruct (rposition 47 file) as [i|] eqn:Ei.
  - apply rposition_Some in Ei as (pre & post & -> & <- & Hp).
    replace (Z.to_nat (zlen pre + 1)) with (length pre + 1)%nat by (unfold zlen; lia). rewrite drop_app_add.
    split; [done|]. right. by exists pre.
  - apply rposition_None in Ei. split; [done|by left].
Qed.

(** The doc's "first recognizable kernel directory" is not the first in the
    path: a driver below [drivers/net/] loses its leading directory. *)
Lemma reroot_by_list_order : rel_kernel_path (bs "/b/linux/drivers/net/tun.c") (bs "/src/linux") = bs "net/tun.c".
Proof. vm_compute. reflexivity. Qed.

(** * What a report shows *)

(** The functions the resolutions give to a line, in order. *)
Definition names_at (kernel_src rel : list Z) (n : Z) (lines : list (list Z * list Z)) : list (list Z) :=
  omap (fun fl => if named (fst fl) && bool_decide (locate (snd fl) kernel_src = Some (rel, n)) then Some (fst fl) else None) lines.

Definition covered_at (cov : Cov) (rel : list Z) (n : Z) : Prop := exists s, cov !! rel = Some s /\ n ∈ s.

Definition func_at (funcs : Funcs) (rel : list Z) (n : Z) : option (list Z) := m ← funcs !! rel; m !! n.

Lemma aggregate_snoc lines p ks : aggregate (lines ++ [p]) ks = aggregate_step ks (aggregate lines ks) p.
Proof. unfold aggregate. by rewrite foldl_app. Qed.

Lemma covered_insert (cov : Cov) r s rel n :
  covered_at (<[r := {[s]} ∪ default ∅ (cov !! r)]> cov) rel n <-> (rel = r /\ n = s) \/ covered_at cov rel n.
Proof.
  unfold covered_at. destruct (decide (rel = r)) as [->|Hr].
  - setoid_rewrite lookup_insert_eq. split.
    + intros (x & [= <-] & [Hs|Hd]%elem_of_union); [left; set_solver|]. right. destruct (cov !! r); [by eexists|set_solver].
    + intros [[_ ->]|(x & -> & Hx)]; eexists; (split; [done|]); set_solver.
  - setoid_rewrite lookup_insert_ne; [|done]. split; [by right|]. by intros [[? _]|].
Qed.

Lemma func_insert (funcs : Funcs) r s f rel n :
  func_at (<[r := <[s := f]> (default ∅ (funcs !! r))]> funcs) rel n = if bool_decide (rel = r /\ n = s) then Some f else func_at funcs rel n.
Proof.
  unfold func_at, Funcs in *. destruct (decide (rel = r)) as [->|Hr].
  - rewrite lookup_insert_eq. cbn. destruct (decide (n = s)) as [->|Hn].
    + rewrite lookup_insert_eq. by rewrite bool_decide_eq_true_2.
    + rewrite lookup_insert_ne by done. rewrite bool_decide_eq_false_2 by naive_solver. by destruct (funcs !! r).
  - rewrite lookup_insert_ne by done. by rewrite bool_decide_eq_false_2 by naive_solver.
Qed.

(** A line is covered exactly when some resolution locates
    there, every listed file has a covered line, and the function shown for a
    line is the one named by the last resolution that locates there with a
    name. *)
Theorem aggregate_spec (lines : list (list Z * list Z)) (ks : list Z) :
  let '(cov, funcs) := aggregate lines ks in
  (forall rel n, covered_at cov rel n <-> exists f l, (f, l) ∈ lines /\ locate l ks = Some (rel, n)) /\
  (forall rel s, cov !! rel = Some s -> exists n, n ∈ s) /\
  (forall rel n, func_at funcs rel n = last (names_at ks rel n lines)).
Proof.
  induction lines as [|[f l] lines IH] using rev_ind.
  { cbn. split; [|done]. intros rel n. split; [by intros (s & ? & _)|by intros (f & l & H & _); apply not_elem_of_nil in H]. }
  rewrite aggregate_snoc. destruct (aggregate lines ks) as [cov funcs]. unfold Cov, Funcs in *. destruct IH as (IHc & IHn & IHf). cbn [aggregate_step].
  assert (forall rel n, names_at ks rel n (lines ++ [(f, l)]) = names_at ks rel n lines ++
    if named f && bool_decide (locate l ks = Some (rel, n)) then [f] else []) as Hna.
  { intros rel n. unfold names_at. rewrite omap_app. f_equal. cbn. by destruct (_ && _). }
  destruct (locate l ks) as [[r s]|] eqn:El; cbn [fst snd].
  - split; [|split].
    + intros rel n. rewrite covered_insert, IHc. split.
      * intros [[-> ->]|(f' & l' & H & Hl)]; [by exists f, l; rewrite elem_of_app, list_elem_of_singleton; auto|].
        exists f', l'. by rewrite elem_of_app; auto.
      * intros (f' & l' & [H|[= -> ->]%list_elem_of_singleton]%elem_of_app & Hl); [right; by exists f', l'|]. left. by simplify_eq.
    + unfold Cov in *. intros rel x. destruct (decide (rel = r)) as [->|Hr]; [|rewrite lookup_insert_ne by done; apply IHn].
      rewrite lookup_insert_eq. intros [= <-]. exists s. set_solver.
    + intros rel n. rewrite Hna. destruct (named f); cbn [andb]; [|by rewrite app_nil_r].
      rewrite func_insert. destruct (bool_decide_reflect (rel = r /\ n = s)) as [[-> ->]|Hn].
      * rewrite bool_decide_eq_true_2 by done. by rewrite last_snoc.
      * rewrite bool_decide_eq_false_2 by naive_solver. by rewrite app_nil_r.
  - split; [|split; [exact IHn|]].
    + intros rel n. rewrite IHc. split.
      * intros (f' & l' & H & Hl). exists f', l'. by rewrite elem_of_app; auto.
      * intros (f' & l' & [H|[= -> ->]%list_elem_of_singleton]%elem_of_app & Hl); [by exists f', l'|congruence].
    + intros rel n. rewrite Hna. rewrite bool_decide_eq_false_2 by done. rewrite andb_false_r, app_nil_r. apply IHf.
Qed.

(** * The twin and the report *)

Lemma fmt_dec_no_colon n : 58 ∉ fmt_dec n.
Proof.
  unfold fmt_dec. generalize 64%nat as fuel. intros fuel. assert (58 ∉ @nil Z) as Ht by apply not_elem_of_nil. revert n Ht.
  generalize (@nil Z) as tl. induction fuel as [|fuel IH]; intros tl n Ht; [done|]. cbn [fmt_digits].
  assert (58 ∉ digit_char (n mod 10) :: tl) as H.
  { rewrite not_elem_of_cons. split; [|done]. unfold digit_char. pose proof (Z.mod_pos_bound n 10). zbool; lia. }
  destruct (_ =? 0); [done|]. by apply IH.
Qed.

Lemma rposition_last pre post c : c ∉ post -> rposition c (pre ++ c :: post) = Some (zlen pre).
Proof.
  intros H. apply rposition_None in H. induction pre as [|x pre IH]; cbn [app rposition]; [by rewrite H, Z.eqb_refl|].
  rewrite IH. rewrite zlen_cons. f_equal.
Qed.

(** For a resolution [path:line] of a line other than
    zero, the report puts the line under some file name, and the twin names
    that file and that line, after the function when it is known. *)
Theorem twin_names_report_line (func path ks : list Z) (n : Z) :
  0 < n < 2 ^ 64 -> starts_with (bs "??") path = false ->
  let loc := path ++ [58] ++ fmt_dec n in
  exists rel, locate loc ks = Some (rel, n) /\
    location_string func loc ks = Some ((if named func then func ++ [32] else []) ++ rel ++ [58] ++ fmt_dec n).
Proof.
  intros Hn Hp loc. exists (rel_kernel_path path ks).
  assert (rposition 58 loc = Some (zlen path)) as Hr by (apply rposition_last, fmt_dec_no_colon).
  assert (take (Z.to_nat (zlen path)) loc = path) as Ht by (unfold zlen; rewrite Nat2Z.id; apply take_app_length).
  assert (drop (Z.to_nat (zlen path + 1)) loc = fmt_dec n) as Hd.
  { replace (Z.to_nat (zlen path + 1)) with (length path + 1)%nat by (unfold zlen; lia). unfold loc. by rewrite drop_app_add. }
  split.
  - unfold locate. rewrite Hr. cbn [mbind option_bind]. rewrite Ht, Hd.
    rewrite split_whitespace_word; [|destruct (fmt_digits_head 63 10 n [] ltac:(lia)) as (d & l & E & _); unfold fmt_dec; rewrite E; done|apply alnum_graph, fmt_digits_alnum; [lia|constructor]].
    cbn [head mbind option_bind]. rewrite parse_u64_fmt_dec by (unfold is_u64; lia). cbn [mbind option_bind].
    rewrite (proj2 (Z.eqb_neq n 0)) by lia. unfold bytes_eqb. rewrite bool_decide_eq_false_2; [done|].
    intros ->. by vm_compute in Hp.
  - unfold location_string. rewrite Hr, Ht, Hd. unfold bytes_eqb. rewrite bool_decide_eq_false_2 by (unfold loc; by destruct path).
    assert (starts_with (bs "??") loc = false) as ->.
    { apply Bool.not_true_iff_false. rewrite starts_with_iff. intros [r Hl]. unfold loc in Hl.
      destruct path as [|a path]; [done|]. injection Hl as -> Hl. destruct path as [|b path]; [done|]. injection Hl as -> _.
      apply Bool.not_true_iff_false in Hp. apply Hp. apply starts_with_iff. by exists path. }
    cbn [orb]. f_equal. destruct (named func); [by rewrite <- app_assoc|done].
Qed.

(** * Witnesses *)

Lemma kernel_path_below_witness :
  let root := [bs "home"; bs "u"; bs "linux"] in
  canonical root /\ rel_kernel_path (bs "/home/u/linux/./fs//open.c") (bs "/home/u/linux") = bs "fs/open.c".
Proof.
  assert (canonical [bs "home"; bs "u"; bs "linux"]) as Hr.
  { split; [done|]. repeat constructor; vm_compute; intros H; repeat (apply elem_of_cons in H as [H|H]; [done|]); by apply not_elem_of_nil in H. }
  split; [exact Hr|]. exact (kernel_path_below _ (bs "./fs//open.c") (bs "fs") [bs "open.c"] Hr eq_refl eq_refl).
Defined.

Lemma kernel_path_elsewhere_witness :
  let file := bs "/build/debian/fs/open.c" in
  (forall rest, components file <> components (bs "/src/linux") ++ rest) /\
  let rel := rel_kernel_path file (bs "/src/linux") in
  (exists before kd after pre post, KERNEL_DIRS = before ++ kd :: after /\ Forall (fun d => ~ occurs d file) before /\
     file = pre ++ 47 :: kd ++ post /\ rel = kd ++ post /\
     forall pre' post', file = pre' ++ 47 :: kd ++ post' -> zlen pre <= zlen pre') \/
  (Forall (fun d => ~ occurs d file) KERNEL_DIRS /\ 47 ∉ rel /\ (file = rel \/ exists pre, file = pre ++ 47 :: rel)).
Proof.
  assert (forall rest, components (bs "/build/debian/fs/open.c") <> components (bs "/src/linux") ++ rest) as H by (intros rest; vm_compute; discriminate).
  split; [exact H|]. exact (kernel_path_elsewhere _ _ H).
Defined.

Lemma twin_names_report_line_witness :
  0 < 1190 < 2 ^ 64 /\ starts_with (bs "??") (bs "fs/open.c") = false /\
  exists rel, locate (bs "fs/open.c:1190") (bs "/src") = Some (rel, 1190) /\
    location_string (bs "do_sys_open") (bs "fs/open.c:1190") (bs "/src") = Some (bs "do_sys_open " ++ rel ++ bs ":1190").
Proof.
  assert (0 < 1190 < 2 ^ 64) as Hn by lia. assert (starts_with (bs "??") (bs "fs/open.c") = false) as Hp by reflexivity.
  split; [exact Hn|]. split; [exact Hp|]. exact (twin_names_report_line (bs "do_sys_open") (bs "fs/open.c") (bs "/src") 1190 Hn Hp).
Defined.
