(* ===== verification/ReportKaslr.v ===== *)
(** report/kaslr.rs: the KASLR offset of a log.  The probe of the resolver
    ([probe_locations], on a resolver state), the symbol addresses of the vmlinux
    and the contents of /proc/kallsyms are parameters.  Shown: the offset is always a multiple
    of the 2 MiB granule and never larger than the sampled addresses allow; for
    a log of the running kernel, whose symbol table is readable, it is the
    slide of that kernel, whatever the sample. *)
From S2P Require Import Prelude Text.

Definition to_ascii_lowercase (c : Z) : Z := if is_ascii_upper c then c + 32 else c.

Definition eq_ignore_ascii_case (a b : list Z) : bool :=
  bytes_eqb (to_ascii_lowercase <$> a) (to_ascii_lowercase <$> b).

Definition contains (pat s : list Z) : bool := match find_sub pat s with Some _ => true | None => false end.

(** The address of the first text symbol [name] in a listing of
    "address type name" lines: /proc/kallsyms, or the output of nm. *)
Fixpoint text_symbol (name : list Z) (ls : list (list Z)) : option Z :=
  match ls with
  | [] => None
  | l :: ls =>
      match split_whitespace l with
      | addr :: t :: n :: _ =>
          if bytes_eqb n name && eq_ignore_ascii_case t (bs "t") then from_str_radix_u64 addr 16 else text_symbol name ls
      | _ => text_symbol name ls
      end
  end.

(** [None] is a file that cannot be read. *)
Definition kallsyms_stext (file : option (list Z)) : option Z :=
  s ← file; v ← text_symbol (bs "_stext") (lines s); if v =? 0 then None else Some v.

(** [symbol_address] through nm, [None] when it cannot be run. *)
Definition nm_symbol_address (nm : option (list Z)) (name : list Z) : option Z := out ← nm; text_symbol name (lines out).

Definition resolves (locs : list (list Z)) : bool :=
  existsb (fun l => negb (bytes_eqb l []) && negb (contains (bs "??") l)) locs.

Section Kaslr.
Context {S : Type}.
Context (kallsyms : option (list Z)).
Context (symbol_address : list Z -> option Z).
Context (probe : S -> list Z -> outcome (S * list (list Z))).

(** The [for shift in [21, 24]] loop. *)
Fixpoint try_shifts (s : S) (shifts : list Z) (median diff : Z) : outcome (S * option Z) :=
  match shifts with
  | [] => Done (s, None)
  | sh :: shifts =>
      let offset := Z.shiftr diff sh <<₆₄ sh in
      if 0 <? offset then
        '(s, locs) ← probe s [median -₆₄ offset];
        if resolves locs then Done (s, Some offset) else try_shifts s shifts median diff
      else try_shifts s shifts median diff
  end.

Definition heuristic (s : S) (pcs : list Z) : outcome (S * Z) :=
  match match symbol_address (bs "_text") with Some a => Some a | None => symbol_address (bs "_stext") end with
  | None => Done (s, 0)
  | Some text_addr =>
      let code_addrs := sort_u64 (filter (fun v => text_addr < v) pcs) in
      if bool_decide (code_addrs = []) then Done (s, 0) else
      median ← idx code_addrs (zlen code_addrs / 2);
      let diff := median -₆₄ text_addr in
      '(s, off) ← try_shifts s [21; 24] median diff;
      Done (s, default (Z.shiftr diff 24 <<₆₄ 24) off)
  end.

Definition detect_offset (s : S) (pcs : list Z) : outcome (S * Z) :=
  if bool_decide (pcs = []) then Done (s, 0) else
  '(s, locs) ← probe s (take 10 pcs);
  if resolves locs then Done (s, 0) else
  match kallsyms_stext kallsyms, symbol_address (bs "_stext") with
  | Some run, Some vml =>
      let off := run -₆₄ vml in
      if (Z.land off 0x1fffff =? 0) && (Z.shiftr off 21 <? Z.shiftl 1 20) then Done (s, off) else heuristic s pcs
  | _, _ => heuristic s pcs
  end.

(** * The granule *)

Definition granular (off : Z) : Prop := is_u64 off /\ off mod 2 ^ 21 = 0.

Lemma granular_0 : granular 0.
Proof using. by unfold granular, is_u64. Qed.

Lemma round_down diff sh : is_u64 diff -> 21 <= sh < 64 ->
  granular (Z.shiftr diff sh <<₆₄ sh) /\ Z.shiftr diff sh <<₆₄ sh <= diff.
Proof using.
  intros Hd Hs. unfold is_u64 in Hd. unfold granular. rewrite Z.shiftr_div_pow2, Z.shiftl_mul_pow2 by lia.
  pose proof (Z.div_mod diff (2 ^ sh) ltac:(lia)) as Hdm. pose proof (Z.mod_pos_bound diff (2 ^ sh) ltac:(lia)) as Hm.
  assert (0 <= diff / 2 ^ sh) by (apply Z.div_pos; lia).
  rewrite as_u64_small by (unfold is_u64; nia). split; [|nia]. split; [unfold is_u64; nia|].
  replace sh with ((sh - 21) + 21) by lia. rewrite Z.pow_add_r, Z.mul_assoc by lia. apply Z.mod_mul. lia.
Qed.

Context (ok : S -> Prop).
Context (probe_total : forall s l, ok s -> wp (probe s l) (fun r => ok (fst r)) False).

Lemma wp_try_shifts s shifts median diff : ok s -> Forall (fun sh => 21 <= sh < 64) shifts ->
  wp (try_shifts s shifts median diff) (fun r => ok (fst r) /\ forall off, is_u64 diff -> snd r = Some off -> granular off /\ off <= diff) False.
Proof using probe_total.
  intros Hs Hf. revert s Hs. induction Hf as [|sh shifts Hsh _ IH]; intros s Hs; cbn [try_shifts]; [done|].
  destruct (_ <? _); [|by apply IH]. apply wp_bind. eapply wp_mono; [by apply probe_total| |done]. intros [s' locs] Hs'.
  destruct (resolves locs); [|by apply IH]. split; [done|]. intros off Hd [= <-]. by apply round_down.
Qed.

(** What an offset may be. *)
Definition offset_ok (pcs : list Z) (off : Z) : Prop :=
  granular off /\
  (off = 0 \/ (exists run vml, kallsyms_stext kallsyms = Some run /\ symbol_address (bs "_stext") = Some vml /\ off = run -₆₄ vml /\ off < 2 ^ 41) \/
   exists pc, pc ∈ pcs /\ off <= pc).

Lemma offset_ok_0 pcs : offset_ok pcs 0.
Proof using. split; [apply granular_0|by left]. Qed.

(** The addresses the offset is computed from are 64-bit values. *)
Definition addresses_ok (pcs : list Z) : Prop := Forall is_u64 pcs /\ forall n a, symbol_address n = Some a -> is_u64 a.

Lemma wp_heuristic s pcs : ok s -> wp (heuristic s pcs) (fun r => ok (fst r) /\ (addresses_ok pcs -> offset_ok pcs (snd r))) False.
Proof using probe_total.
  intros Hs. unfold heuristic.
  destruct (match symbol_address (bs "_text") with Some a => Some a | None => _ end) as [t|] eqn:Et; [|split; [done|intros _; apply offset_ok_0]].
  set (code := sort_u64 _). destruct (bool_decide_reflect (code = [])) as [|Hn]; [split; [done|intros _; apply offset_ok_0]|].
  assert (0 < zlen code) by (destruct code; [done|rewrite zlen_cons; pose proof (zlen_nonneg code); lia]).
  destruct (idx_Done code (zlen code / 2)) as (median & -> & Hg); [dlia|]. cbn [mbind outcome_bind].
  apply wp_bind. eapply wp_mono; [apply wp_try_shifts; [done|repeat constructor; lia]| |done]. intros [s' off] [Hs' Ho]. cbn [fst snd wp] in *.
  split; [done|]. intros [Hp Hsa].
  assert (is_u64 t) as Ht by (destruct (symbol_address (bs "_text")) eqn:E; [simplify_eq; by eapply Hsa|by eapply Hsa]).
  assert (median ∈ pcs /\ t < median) as [Hin Hlt].
  { apply get_elem_of in Hg. unfold code in Hg. rewrite sort_u64_perm in Hg. apply list_elem_of_filter in Hg. tauto. }
  pose proof (proj1 (Forall_forall _ _) Hp median Hin) as Hm. cbv beta in Hm. unfold is_u64 in Hm, Ht.
  assert (is_u64 (median - t)) as Hd by (unfold is_u64; lia). rewrite (as_u64_small (median - t)) in * by exact Hd.
  assert (forall off, granular off /\ off <= median - t -> offset_ok pcs off) as Hok.
  { intros o [Hgr Hle]. split; [done|]. right. right. exists median. split; [done|lia]. }
  apply Hok. destruct off as [off|]; cbn [default]; [by apply Ho|by apply round_down].
Qed.

Lemma wp_detect_offset s pcs : ok s -> wp (detect_offset s pcs) (fun r => ok (fst r) /\ (addresses_ok pcs -> offset_ok pcs (snd r))) False.
Proof using probe_total.
  intros Hs. unfold detect_offset. destruct (bool_decide _); [split; [done|intros _; apply offset_ok_0]|].
  apply wp_bind. eapply wp_mono; [by apply probe_total| |done]. intros [s' locs] Hs'. cbn [fst] in Hs'.
  destruct (resolves locs); [split; [done|intros _; apply offset_ok_0]|].
  pose proof (wp_heuristic s' pcs Hs') as Hh.
  destruct (kallsyms_stext kallsyms) as [run|] eqn:Er; [|exact Hh]. destruct (symbol_address (bs "_stext")) as [vml|] eqn:Ev; [|exact Hh].
  destruct (Z.eqb_spec (Z.land (run -₆₄ vml) 0x1fffff) 0) as [Hl|]; [|exact Hh].
  destruct (Z.ltb_spec (Z.shiftr (run -₆₄ vml) 21) (Z.shiftl 1 20)) as [Hsh|]; [|exact Hh]. cbn [andb wp fst snd]. split; [done|]. intros _.
  change 0x1fffff with (Z.ones 21) in Hl. rewrite Z.land_ones in Hl by lia. pose proof (as_u64_range (run - vml)) as Hr.
  split; [split; done|]. right. left. exists run, vml. split_and!; [done..|].
  rewrite Z.shiftr_div_pow2 in Hsh by lia. change (Z.shiftl 1 20) with (2 ^ 20) in Hsh. unfold is_u64 in Hr.
  set (o := as_u64 (run - vml)) in *. pose proof (Z.div_mod o (2 ^ 21) ltac:(lia)). lia.
Qed.

(** The offset is found without an out-of-range index
    whatever the probe answers, is a multiple of the 2 MiB granule of x86
    KASLR, and is zero, or the slide of the running kernel, or at most a
    sampled address. *)
Theorem kaslr_offset_granular (s : S) (pcs : list Z) : ok s -> addresses_ok pcs ->
  wp (detect_offset s pcs) (fun r => offset_ok pcs (snd r)) False.
Proof using probe_total. intros Hs Ha. eapply wp_mono; [by apply wp_detect_offset| |done]. intros r [_ H]. by apply H. Qed.
End Kaslr.

(** * The symbol table of the running kernel *)

(** A line of /proc/kallsyms: address on sixteen digits, type, name. *)
Record KSym : Type := MkKSym { k_addr : Z; k_type : list Z; k_name : list Z }.

Definition fmt_hex16 (n : Z) : list Z := let d := fmt_hex n in replicate (16 - length d) 48 ++ d.

Definition ksym_line (k : KSym) : list Z := fmt_hex16 (k_addr k) ++ 32 :: k_type k ++ 32 :: k_name k.

Definition kallsyms_text (ks : list KSym) : list Z := concat ((fun l => l ++ [10]) <$> (ksym_line <$> ks)).

Definition text_word (w : list Z) : Prop := w <> [] /\ Forall graph w.

Definition ksym_ok (k : KSym) : Prop := is_u64 (k_addr k) /\ text_word (k_type k) /\ text_word (k_name k).

Lemma hex16_word n : text_word (fmt_hex16 n).
Proof.
  unfold text_word, fmt_hex16. split.
  - destruct (fmt_digits_head 63 16 n [] ltac:(lia)) as (d & l & E & _). unfold fmt_hex. rewrite E. intros H. by apply app_eq_nil in H as [_ ?].
  - apply Forall_app. split; [apply Forall_replicate; unfold graph; lia|apply alnum_graph, fmt_hex_alnum].
Qed.

Lemma parse_hex16 n : is_u64 n -> from_str_radix_u64 (fmt_hex16 n) 16 = Some n.
Proof.
  intros Hn. unfold is_u64 in Hn. assert (digits_val 16 (2 ^ 64 - 1) 0 (fmt_hex16 n) = Some n) as Hd.
  { unfold fmt_hex16. set (k := (16 - _)%nat). induction k as [|k IH]; cbn [replicate app digits_val].
    - unfold fmt_hex. rewrite (digits_val_fmt 64 16 _ n []); [done|lia|lia|]. apply (Z.lt_le_trans _ (2 ^ 64)); [lia|done].
    - exact IH. }
  destruct (hex16_word n) as [Hne Hg]. destruct (fmt_hex16 n) as [|c t] eqn:E; [done|]. unfold from_str_radix_u64.
  destruct (Z.eqb_spec c 43) as [->|]; [|done]. cbn in Hd. done.
Qed.

Lemma ksym_words k : ksym_ok k -> split_whitespace (ksym_line k) = [fmt_hex16 (k_addr k); k_type k; k_name k].
Proof.
  intros (_ & [Ht Htg] & [Hn Hng]). destruct (hex16_word (k_addr k)) as [Ha Hag]. unfold ksym_line.
  rewrite split_whitespace_step by (done || by right). rewrite split_whitespace_space. f_equal.
  rewrite split_whitespace_step by (done || by right). rewrite split_whitespace_space. f_equal. by apply split_whitespace_word.
Qed.

Lemma ksym_line_chars k : ksym_ok k -> Forall line_char (ksym_line k).
Proof.
  intros (_ & [_ Ht] & [_ Hn]). destruct (hex16_word (k_addr k)) as [_ Ha]. unfold ksym_line.
  apply Forall_app; split; [by apply graph_line_char|]. apply Forall_cons; split; [done|].
  apply Forall_app; split; [by apply graph_line_char|]. apply Forall_cons; split; [done|]. by apply graph_line_char.
Qed.

Lemma kallsyms_lines ks : Forall ksym_ok ks -> lines (kallsyms_text ks) = ksym_line <$> ks.
Proof.
  intros H. apply lines_concat_text. apply Forall_fmap. eapply Forall_impl; [exact H|]. intros k. apply ksym_line_chars.
Qed.

(** The table shows [_stext] at [a], with a text type. *)
Definition stext_at (ks : list KSym) (a : Z) : Prop :=
  exists before k after, ks = before ++ k :: after /\ Forall (fun k => k_name k <> bs "_stext") before /\
    k_name k = bs "_stext" /\ (k_type k = bs "t" \/ k_type k = bs "T") /\ k_addr k = a /\ a <> 0.

Lemma kallsyms_stext_at ks a : Forall ksym_ok ks -> stext_at ks a -> kallsyms_stext (Some (kallsyms_text ks)) = Some a.
Proof.
  intros Hok (before & k & after & -> & Hb & Hn & Ht & Ha & Hz). unfold kallsyms_stext. cbn [mbind option_bind].
  rewrite kallsyms_lines by done. apply Forall_app in Hok as [Hob Hok]. apply Forall_cons in Hok as [Hk _].
  assert (text_symbol (bs "_stext") (ksym_line <$> before ++ k :: after) = Some a) as ->; [|cbn; by rewrite (proj2 (Z.eqb_neq a 0))].
  rewrite fmap_app. induction before as [|b before IH]; cbn [fmap list_fmap app text_symbol].
  - rewrite ksym_words by done. rewrite Hn. rewrite parse_hex16 by apply Hk. by destruct Ht as [-> | ->]; rewrite Ha.
  - apply Forall_cons in Hob as [Hob1 Hob]. apply Forall_cons in Hb as [Hb1 Hb]. rewrite ksym_words by done.
    unfold bytes_eqb at 1. rewrite bool_decide_eq_false_2 by done. by apply IH.
Qed.

(** For a log whose addresses do not resolve as they
    are, taken on the running kernel with a readable symbol table, the offset is
    the slide of that kernel, whatever the sample, and taking it off gives the
    link-time addresses. *)
Theorem kaslr_running_kernel {S : Type} (ks : list KSym) (sa : list Z -> option Z) (probe : S -> list Z -> outcome (S * list (list Z)))
    (vml slide : Z) (pcs : list Z) (s s' : S) (locs : list (list Z)) :
  Forall ksym_ok ks -> stext_at ks (vml + slide) -> sa (bs "_stext") = Some vml ->
  0 <= slide < 2 ^ 41 -> slide mod 2 ^ 21 = 0 -> pcs <> [] ->
  probe s (take 10 ((fun p => p +₆₄ slide) <$> pcs)) = Done (s', locs) -> resolves locs = false ->
  detect_offset (Some (kallsyms_text ks)) sa probe s ((fun p => p +₆₄ slide) <$> pcs) = Done (s', slide) /\
  (forall p, is_u64 p -> (p +₆₄ slide) -₆₄ slide = p).
Proof.
  intros Hok Hst Hsa Hs Hm Hne Hpr Hr. split.
  - unfold detect_offset. rewrite bool_decide_eq_false_2 by (by destruct pcs). rewrite Hpr. cbn [mbind outcome_bind].
    rewrite Hr, (kallsyms_stext_at _ _ Hok Hst), Hsa.
    replace (vml + slide - vml) with slide by lia. rewrite (as_u64_small slide) by (unfold is_u64; lia).
    change 0x1fffff with (Z.ones 21). rewrite Z.land_ones, Hm, Z.eqb_refl by lia.
    rewrite Z.shiftr_div_pow2 by lia. change (Z.shiftl 1 20) with (2 ^ 20).
    rewrite (proj2 (Z.ltb_lt _ _)); [done|]. apply Z.div_lt_upper_bound; lia.
  - intros p Hp. unfold is_u64 in Hp. unfold as_u64. rewrite Zminus_mod_idemp_l. replace (p + slide - slide) with p by lia. rewrite Z.mod_small; lia.
Qed.

(** * Witnesses *)

Definition sample_ksyms : list KSym :=
  [MkKSym 0xffffffff9a000000 (bs "T") (bs "_text"); MkKSym 0xffffffff9a000000 (bs "T") (bs "_stext"); MkKSym 0xffffffff9a000040 (bs "t") (bs "run_init_process")].

Lemma text_word_check w : negb (bytes_eqb w []) && forallb (fun c => (33 <=? c) && (c <=? 126)) w = true -> text_word w.
Proof.
  intros [Hn Hg]%andb_true_iff. split; [by intros ->|]. rewrite forallb_forall in Hg. apply Forall_forall. intros c Hc.
  specialize (Hg c (proj1 (list_elem_of_In _ _) Hc)). unfold graph. lia.
Qed.

Lemma sample_ksyms_ok : Forall ksym_ok sample_ksyms.
Proof.
  repeat constructor; cbn [k_addr k_type k_name]; try done; apply text_word_check; reflexivity.
Qed.

Lemma kaslr_running_kernel_witness :
  let slide := 0x19000000 in let sa := fun _ : list Z => Some 0xffffffff81000000 in
  let probe := fun (n : nat) (_ : list Z) => Done (S n, [bs "??:0"]) in
  stext_at sample_ksyms (0xffffffff81000000 + slide) /\
  detect_offset (Some (kallsyms_text sample_ksyms)) sa probe 0%nat ((fun p => p +₆₄ slide) <$> [0xffffffff81000044]) = Done (1%nat, slide).
Proof.
  intros slide sa probe. assert (stext_at sample_ksyms (0xffffffff81000000 + slide)) as H.
  { exists [MkKSym 0xffffffff9a000000 (bs "T") (bs "_text")], (MkKSym 0xffffffff9a000000 (bs "T") (bs "_stext")), [MkKSym 0xffffffff9a000040 (bs "t") (bs "run_init_process")].
    split_and!; [done| |done|by right|done|done]. constructor; [done|constructor]. }
  split; [exact H|]. apply (kaslr_running_kernel sample_ksyms sa probe 0xffffffff81000000 slide [0xffffffff81000044] 0%nat 1%nat [bs "??:0"]);
    [apply sample_ksyms_ok|exact H|reflexivity|unfold slide; lia|reflexivity|discriminate|reflexivity|reflexivity].
Defined.

Lemma kaslr_offset_granular_witness :
  let probe := fun (n : nat) (_ : list Z) => Done (S n, @nil (list Z)) in let sa := fun _ : list Z => Some 0xffffffff81000000 in
  addresses_ok sa [0xffffffff9a000044] /\
  detect_offset None sa probe 0%nat [0xffffffff9a000044] = Done (3%nat, 0x19000000) /\
  wp (detect_offset None sa probe 0%nat [0xffffffff9a000044]) (fun r => offset_ok None sa [0xffffffff9a000044] (snd r)) False.
Proof.
  intros probe sa. assert (addresses_ok sa [0xffffffff9a000044]) as H.
  { split; [repeat constructor; unfold is_u64; lia|]. intros n a E. injection E as <-. unfold is_u64. lia. }
  split; [exact H|]. split; [vm_compute; reflexivity|].
  apply (kaslr_offset_granular None sa probe (fun _ => True)); [done|done|exact H].
Defined.
