(* ===== verification/ReportKallsyms.v ===== *)
(** report/btf.rs: resolving a log against /proc/kallsyms, and the ranking of
    functions.  The iteration order of a [HashMap] is a parameter.  Shown: when
    at least half of the addresses lie in the kernel text, every address of the
    log is given the name of the nearest symbol at or below it, as a scan of
    the unsorted table finds it, whatever the other addresses are; the ranking
    lists every function once with its number of hits, most hit first, and the
    order of ties is that of the hash map. *)
From S2P Require Import Prelude Text SortScan ReportLog ReportKaslr.

(** * The symbol table *)

Definition kallsyms_line (line : list Z) : option (Z * list Z) :=
  match split_whitespace line with
  | a :: _ :: name :: _ => addr ← from_str_radix_u64 a 16; if addr =? 0 then None else Some (addr, name)
  | _ => None
  end.

Definition by_addr (a b : Z * list Z) : bool := fst a <=? fst b.

(** [sort_by_key] is stable. *)
Definition load_kallsyms (file : option (list Z)) : list (Z * list Z) :=
  match file with Some data => sort_by by_addr (omap kallsyms_line (lines data)) | None => [] end.

(** [trim_start_matches] of a two-byte pattern. *)
Fixpoint trim_start_matches (fuel : nat) (p s : list Z) : list Z :=
  match fuel with
  | O => s
  | S f => match strip_prefix p s with Some r => trim_start_matches f p r | None => s end
  end.

Definition parse_pc (pc : list Z) : option Z :=
  let s := trim_start_matches (length pc) (bs "0x") pc in
  from_str_radix_u64 (trim_start_matches (length s) (bs "0X") s) 16.

(** * The offset *)

Definition is_text_symbol (s : Z * list Z) : bool := bytes_eqb (snd s) (bs "_text") || bytes_eqb (snd s) (bs "_stext").

Definition in_text_count (int_pcs : list Z) (text_addr last : Z) : Z :=
  zlen (filter (fun pc => text_addr <= pc /\ pc <= last) int_pcs).

Section Kallsyms.
Context (x86_64 : bool).
(** The order in which a [HashMap] yields its entries. *)
Context (hash_order : list (list Z * Z) -> list (list Z * Z)).

Definition min_list (x : Z) (l : list Z) : Z := foldl Z.min x l.

Definition kaslr_offset (int_pcs : list Z) (syms : list (Z * list Z)) : outcome Z :=
  match int_pcs with
  | [] => Done 0
  | p :: ps =>
      let min_pc := min_list p ps in
      last ← or_panic (fst <$> last syms);
      match list_find (fun s => is_text_symbol s = true) syms with
      | None => Done 0
      | Some (_, (text_addr, _)) =>
          let in_text := in_text_count int_pcs text_addr last in
          Done (if zlen int_pcs <=? in_text * 2 then 0
                else if min_pc <? text_addr then
                  (if x86_64 then as_i64 (as_i64 text_addr - as_i64 0xffffffff81000000) else 0)
                else if last <? min_pc then as_i64 (- as_i64 (min_pc -₆₄ text_addr))
                else 0)
      end
  end.

(** The name of one PC. *)
Definition sym_name (syms : list (Z * list Z)) (offset pc : Z) : outcome (option (list Z)) :=
  let adj := as_u64 (as_i64 (as_i64 pc + offset)) in
  let i := partition_point (fun a => a <=? adj) (fst <$> syms) in
  if i =? 0 then Done None else s ← idx syms (i - 1); Done (Some (snd s)).

Fixpoint name_all (syms : list (Z * list Z)) (offset : Z) (pcs : list (list Z)) : outcome (list (list Z * option (list Z))) :=
  match pcs with
  | [] => Done []
  | p :: ps =>
      name ← match parse_pc p with Some pc => sym_name syms offset pc | None => Done None end;
      rest ← name_all syms offset ps;
      Done ((p, name) :: rest)
  end.

Definition resolve_pcs (pcs : list (list Z)) (file : option (list Z)) : outcome (list (list Z * option (list Z))) :=
  let syms := load_kallsyms file in
  if bool_decide (syms = []) then Done ((fun p => (p, None)) <$> pcs)
  else offset ← kaslr_offset (omap parse_pc pcs) syms; name_all syms offset pcs.

(** * The ranking *)

Definition hit (m : gmap (list Z) Z) (r : list Z * option (list Z)) : gmap (list Z) Z :=
  match snd r with Some name => <[name := default 0 (m !! name) + 1]> m | None => m end.

Definition hits (resolved : list (list Z * option (list Z))) : gmap (list Z) Z := foldl hit ∅ resolved.

(** [sort_by] on the hit count, descending; stable. *)
Definition rank (resolved : list (list Z * option (list Z))) : list (list Z * Z) :=
  sort_by (fun a b => snd b <=? snd a) (hash_order (map_to_list (hits resolved))).
End Kallsyms.

(** * Function definitions in grep output *)

Fixpoint drop_back (p : Z -> bool) (rev_s : list Z) : list Z :=
  match rev_s with c :: t => if p c then drop_back p t else rev_s | [] => [] end.

Fixpoint take_back (p : Z -> bool) (rev_s : list Z) : list Z :=
  match rev_s with c :: t => if p c then c :: take_back p t else [] | [] => [] end.

Definition ident_char (b : Z) : bool := (b =? 95) || is_ascii_alphanumeric b.

(** [func_before_paren]; [before] is the text already passed, reversed. *)
Fixpoint func_before_paren (names : gset (list Z)) (before content : list Z) : option (list Z) :=
  match content with
  | [] => None
  | c :: t =>
      let ident := reverse (take_back ident_char (drop_back is_ascii_whitespace before)) in
      if (c =? 40) && negb (bytes_eqb ident []) && bool_decide (ident ∈ names) then Some ident
      else func_before_paren names (c :: before) t
  end.

(** * Loading a printed table *)

Definition entries (ks : list KSym) : list (Z * list Z) :=
  (fun k => (k_addr k, k_name k)) <$> filter (fun k => k_addr k <> 0) ks.

Lemma by_addr_total a b : by_addr a b = true \/ by_addr b a = true.
Proof. unfold by_addr. lia. Qed.

Lemma by_addr_trans a b c : by_addr a b = true -> by_addr b c = true -> by_addr a c = true.
Proof. unfold by_addr. lia. Qed.

Lemma load_printed ks : Forall ksym_ok ks -> load_kallsyms (Some (kallsyms_text ks)) = sort_by by_addr (entries ks).
Proof.
  intros H. unfold load_kallsyms. rewrite kallsyms_lines by done. f_equal.
  induction H as [|k ks Hk _ IH]; [done|]. cbn [fmap list_fmap omap list_omap]. unfold kallsyms_line at 1.
  rewrite ksym_words by done. rewrite parse_hex16 by apply Hk. cbn [mbind option_bind]. unfold entries. rewrite filter_cons.
  destruct (Z.eqb_spec (k_addr k) 0) as [E|E]; destruct (decide _) as [Hd|Hd]; try contradiction; cbn [fmap list_fmap]; [exact IH|].
  f_equal. exact IH.
Qed.

Lemma parse_pc_hex pc : is_u64 pc -> parse_pc (bs "0x" ++ fmt_hex pc) = Some pc.
Proof.
  intros Hp. unfold parse_pc.
  assert (forall c l, 48 <= c <= 122 -> forall fuel, strip_prefix (bs "0x") (c :: l) = None ->
     trim_start_matches fuel (bs "0x") (c :: l) = c :: l) as Hid by (by intros c l _ [|fuel] E; cbn [trim_start_matches]; rewrite ?E).
  pose proof (fmt_hex_alnum pc) as Ha. unfold is_u64 in Hp.
  destruct (fmt_digits_head 63 16 pc [] ltac:(lia)) as (d0 & l & E & Hd). fold (fmt_hex pc) in E. set (d := digit_char d0) in *. rewrite E in Ha |- *.
  assert (forall x, x = 120 \/ x = 88 -> head l <> Some x) as Hx.
  { intros x Hx Hl. assert (digits_val 16 (2 ^ 64 - 1) 0 (fmt_hex pc) = Some pc) as Hv.
    { unfold fmt_hex. rewrite (digits_val_fmt 64 16 _ pc []); [done|lia|lia|]. apply (Z.lt_le_trans _ (2 ^ 64)); [lia|done]. }
    rewrite E in Hv. destruct l as [|y l]; [done|]. injection Hl as ->. cbn in Hv. destruct (to_digit d 16); [|done].
    destruct (_ <=? _); [|done]. by destruct Hx as [-> | ->]. }
  assert (strip_prefix (bs "0x") (d :: l) = None) as E1.
  { destruct (strip_prefix (bs "0x") (d :: l)) as [r|] eqn:Es; [|done]. apply strip_prefix_Some in Es. injection Es as _ ->. by destruct (Hx 120); auto. }
  assert (strip_prefix (bs "0X") (d :: l) = None) as E2.
  { destruct (strip_prefix (bs "0X") (d :: l)) as [r|] eqn:Es; [|done]. apply strip_prefix_Some in Es. injection Es as _ ->. by destruct (Hx 88); auto. }
  change (bs "0x" ++ d :: l) with (48 :: 120 :: d :: l). cbn [length trim_start_matches].
  change (strip_prefix (bs "0x") (48 :: 120 :: d :: l)) with (Some (d :: l)). cbv iota. rewrite E1. cbn [length trim_start_matches]. rewrite E2.
  rewrite <- E. apply from_str_radix_fmt; [lia|done|]. apply (Z.lt_le_trans _ (2 ^ 64)); [lia|done].
Qed.

(** * A log of the running kernel *)

(** The name of the symbol nearest at or below [pc], found by a scan of the
    table as the kernel prints it; of several at one address the last. *)
Definition nearest_name (ks : list KSym) (pc : Z) : option (list Z) :=
  snd <$> scan_last by_addr (fun s => fst s <=? pc) (entries ks).

(** The text range: from the lowest [_text] or [_stext] to the last symbol. *)
Definition text_range (ks : list KSym) (lo hi : Z) : Prop :=
  (exists s, s ∈ entries ks /\ is_text_symbol s = true /\ fst s = lo) /\
  (forall s, s ∈ entries ks -> is_text_symbol s = true -> lo <= fst s) /\
  (exists s, s ∈ entries ks /\ fst s = hi) /\ (forall s, s ∈ entries ks -> fst s <= hi).

Definition same_kernel (ks : list KSym) (pcs : list Z) : Prop :=
  forall lo hi, text_range ks lo hi -> zlen pcs <= 2 * zlen (filter (fun pc => lo <= pc /\ pc <= hi) pcs).

Definition table (ks : list KSym) : list (Z * list Z) := sort_by by_addr (entries ks).

Lemma table_sorted ks : StronglySorted (fun a b => by_addr a b = true) (table ks).
Proof. apply sort_by_sorted; [apply by_addr_total|apply by_addr_trans]. Qed.

Lemma elem_of_ktable ks s : s ∈ table ks <-> s ∈ entries ks.
Proof. unfold table. by rewrite (sort_by_perm by_addr (entries ks)). Qed.

Lemma table_last ks s : last (table ks) = Some s -> s ∈ entries ks /\ forall t, t ∈ entries ks -> fst t <= fst s.
Proof.
  intros H. split; [apply elem_of_ktable; by apply last_Some_elem_of|]. intros t Ht. apply elem_of_ktable in Ht.
  apply last_Some in H as [l Hl]. pose proof (table_sorted ks) as Hs. rewrite Hl in Ht, Hs.
  apply elem_of_app in Ht as [Ht|Ht%list_elem_of_singleton]; [|subst; lia].
  pose proof (StronglySorted_app_1_elem_of _ _ _ t s Hs Ht ltac:(by left)) as Hle. unfold by_addr in Hle. lia.
Qed.

Lemma first_text_range ks i s e : list_find (fun s => is_text_symbol s = true) (table ks) = Some (i, s) -> last (table ks) = Some e ->
  text_range ks (fst s) (fst e).
Proof.
  intros (Hi & Hp & Hlt)%list_find_Some (He & Hmax)%table_last. split; [|split; [|split]].
  - exists s. split; [apply elem_of_ktable; by eapply list_elem_of_lookup_2|done].
  - intros t Ht Htp. apply elem_of_ktable, list_elem_of_lookup in Ht as [j Hj].
    destruct (decide (j < i)%nat) as [Hji|Hji]; [by destruct (Hlt j t Hj Hji)|].
    destruct (decide (j = i)) as [->|]; [simplify_eq; lia|].
    pose proof (table_sorted ks) as Hs. rewrite <- (take_drop_middle _ _ _ Hi) in Hs. apply StronglySorted_app_1_r in Hs.
    inversion Hs as [|? ? _ Hall]; subst. rewrite Forall_forall in Hall.
    assert (t ∈ drop (S i) (table ks)) as Hd.
    { apply list_elem_of_lookup. exists (j - S i)%nat. rewrite lookup_drop. rewrite <- Hj. f_equal. lia. }
    specialize (Hall t Hd). unfold by_addr in Hall. lia.
  - by exists e.
  - exact Hmax.
Qed.

Lemma kaslr_offset_same x86 ks pcs : same_kernel ks pcs -> table ks <> [] -> kaslr_offset x86 pcs (table ks) = Done 0.
Proof.
  intros Hs Hn. unfold kaslr_offset. destruct pcs as [|p ps]; [done|]. destruct (last (table ks)) as [e|] eqn:El; [|by apply last_None in El].
  cbn [fmap option_fmap option_map or_panic mbind outcome_bind]. destruct (list_find _ _) as [[i [lo nm]]|] eqn:Ef; [|done].
  specialize (Hs _ _ (first_text_range _ _ _ _ Ef El)). cbn [fst] in Hs. unfold in_text_count.
  rewrite (proj2 (Z.leb_le _ _)) by lia. done.
Qed.

Lemma sym_name_nearest ks pc : is_u64 pc -> sym_name (table ks) 0 pc = Done (nearest_name ks pc).
Proof.
  intros Hp. unfold sym_name. rewrite Z.add_0_r, !as_u64_as_i64, as_u64_small by done.
  assert (forall l : list (Z * list Z), partition_point (fun a => a <=? pc) (fst <$> l) = partition_point (fun s => fst s <=? pc) l) as ->.
  { induction l as [|x l IH]; [done|]. cbn [fmap list_fmap partition_point]. by rewrite IH. }
  pose proof (sorted_lookup_scan by_addr by_addr_total by_addr_trans (fun s => fst s <=? pc) (entries ks)
    ltac:(intros x y Hxy Hy; unfold by_addr in Hxy; cbv beta in *; lia)) as H. cbv zeta in H. fold (table ks) in H. unfold nearest_name. rewrite <- H.
  pose proof (partition_point_bound (fun s : Z * list Z => fst s <=? pc) (table ks)).
  destruct (Z.eqb_spec (partition_point (fun s : Z * list Z => fst s <=? pc) (table ks)) 0); [done|].
  destruct (idx_Done (table ks) (partition_point (fun s : Z * list Z => fst s <=? pc) (table ks) - 1)) as (s & -> & ->); [lia|done].
Qed.

Lemma parse_pc_range p pc : parse_pc p = Some pc -> is_u64 pc.
Proof. unfold parse_pc. apply from_str_radix_range. lia. Qed.

(** The name of a token of a log. *)
Definition token_name (ks : list KSym) (p : list Z) : option (list Z) := pc ← parse_pc p; nearest_name ks pc.

(** C36: When at least half of a log's addresses lie in the kernel text, each
    token of the log that is an address is given the name of the nearest symbol
    at or below it, in an unsorted table too, and each other token, of a damaged
    line, none; neither those nor the addresses outside the text change anything
    for the others.  An address below the first symbol has no name; one above
    the last symbol is given the name of the last, although the code's message
    and comment say that it has none ([above_table_named]). *)
Theorem kallsyms_same_kernel (x86 : bool) (ks : list KSym) (pcs : list (list Z)) : Forall ksym_ok ks -> same_kernel ks (omap parse_pc pcs) ->
  resolve_pcs x86 pcs (Some (kallsyms_text ks)) = Done ((fun p => (p, token_name ks p)) <$> pcs).
Proof.
  intros Hk Hs. unfold resolve_pcs. rewrite load_printed by done. fold (table ks).
  destruct (bool_decide_reflect (table ks = [])) as [E|E].
  { f_equal. apply list_fmap_ext. intros i p _. f_equal.
    assert (entries ks = []) as En by (apply elem_of_nil_inv; intros s; rewrite <- elem_of_ktable, E; apply not_elem_of_nil).
    unfold token_name, nearest_name. rewrite En. by destruct (parse_pc p). }
  rewrite kaslr_offset_same by done. cbn [mbind outcome_bind]. clear Hs.
  induction pcs as [|p pcs IH]; [done|]. cbn [fmap list_fmap name_all]. unfold token_name at 1. destruct (parse_pc p) as [pc|] eqn:Ep.
  - rewrite sym_name_nearest by (by eapply parse_pc_range). cbn [mbind outcome_bind option_bind]. by rewrite IH.
  - cbn [mbind outcome_bind option_bind]. by rewrite IH.
Qed.

(** Far above the table an address still has the last symbol's name. *)
Lemma above_table_named :
  resolve_pcs true (hex_strings [0xffffffff9a000004; 0xffffffff9a000040; 0xfffffffffffffff0]) (Some (kallsyms_text sample_ksyms)) =
    Done [(bs "0xffffffff9a000004", Some (bs "_stext")); (bs "0xffffffff9a000040", Some (bs "run_init_process"));
          (bs "0xfffffffffffffff0", Some (bs "run_init_process"))].
Proof. vm_compute. reflexivity. Qed.

(** * The ranking *)

Definition hit_count (resolved : list (list Z * option (list Z))) (name : list Z) : Z :=
  zlen (filter (fun r => snd r = Some name) resolved).

Lemma hits_lookup resolved name :
  hits resolved !! name = if hit_count resolved name =? 0 then None else Some (hit_count resolved name).
Proof.
  induction resolved as [|r resolved IH] using rev_ind; [done|]. unfold hits, hit_count in *. rewrite foldl_app, filter_app, zlen_app. cbn [foldl].
  unfold hit at 1. rewrite filter_cons, filter_nil. set (n := zlen (filter _ resolved)) in *. assert (0 <= n) by apply zlen_nonneg.
  destruct (snd r) as [f|] eqn:Er.
  - destruct (decide (Some f = Some name)) as [[= ->]|Hn].
    + rewrite lookup_insert_eq. change (zlen [r]) with 1. rewrite (proj2 (Z.eqb_neq (n + 1) 0)) by lia. f_equal. rewrite IH.
      destruct (Z.eqb_spec n 0); cbn; lia.
    + change (zlen (@nil (list Z * option (list Z)))) with 0. rewrite Z.add_0_r. rewrite lookup_insert_ne by congruence. exact IH.
  - destruct (decide (None = Some name)); [done|]. change (zlen (@nil (list Z * option (list Z)))) with 0. rewrite Z.add_0_r. exact IH.
Qed.

(** Whatever order the hash map yields its entries in, the ranking
    lists each function that was hit exactly once, with its number of hits, in
    descending order of hits. *)
Theorem rank_spec (hash_order : list (list Z * Z) -> list (list Z * Z)) (resolved : list (list Z * option (list Z))) :
  (forall l, hash_order l ≡ₚ l) ->
  StronglySorted (fun a b => snd b <= snd a) (rank hash_order resolved) /\
  NoDup (fst <$> rank hash_order resolved) /\
  (forall name n, (name, n) ∈ rank hash_order resolved <-> 0 < n /\ n = hit_count resolved name).
Proof.
  intros Hp. unfold rank. set (le := fun a b : list Z * Z => snd b <=? snd a). set (l := hash_order _).
  assert (sort_by le l ≡ₚ map_to_list (hits resolved)) as Hl by (rewrite sort_by_perm; apply Hp). split; [|split].
  - assert (StronglySorted (fun a b => le a b = true) (sort_by le l)) as Hs by (apply sort_by_sorted; unfold le; intros; lia).
    clear Hl. induction Hs as [|x k _ IH Hx]; constructor; [exact IH|]. eapply Forall_impl; [exact Hx|]. intros y. unfold le. lia.
  - rewrite Hl. apply NoDup_fst_map_to_list.
  - intros name n. rewrite Hl, elem_of_map_to_list, hits_lookup. pose proof (zlen_nonneg (filter (fun r => snd r = Some name) resolved)).
    fold (hit_count resolved name) in *. destruct (Z.eqb_spec (hit_count resolved name) 0); split; [done|lia|intros [= <-]; lia|by intros [_ ->]].
Qed.

(** Ties are listed in the order of the hash map, which changes from run to run. *)
Lemma rank_ties_unstable : exists resolved o1 o2, (forall l, o1 l ≡ₚ l) /\ (forall l, o2 l ≡ₚ l) /\ rank o1 resolved <> rank o2 resolved.
Proof.
  exists [(bs "0x1", Some (bs "f")); (bs "0x2", Some (bs "g"))], id, reverse. split; [done|]. split; [apply reverse_Permutation|].
  intros H. vm_compute in H. discriminate.
Qed.

(** * Witnesses *)

Lemma kallsyms_same_kernel_witness :
  let pcs := [bs "0xffffffff9a000004"; bs "0xffffffff9a0000400xffffffff9a000004"; bs "0xffffffff9a000040"; bs "0x10"] in
  same_kernel sample_ksyms (omap parse_pc pcs) /\
  resolve_pcs true pcs (Some (kallsyms_text sample_ksyms)) =
    Done [(bs "0xffffffff9a000004", Some (bs "_stext")); (bs "0xffffffff9a0000400xffffffff9a000004", None);
          (bs "0xffffffff9a000040", Some (bs "run_init_process")); (bs "0x10", None)].
Proof.
  intros pcs. assert (same_kernel sample_ksyms (omap parse_pc pcs)) as Hs.
  { intros lo hi ((s & Hin & _ & <-) & Hlo & (e & He & <-) & Hhi). change (entries sample_ksyms) with
      [(0xffffffff9a000000, bs "_text"); (0xffffffff9a000000, bs "_stext"); (0xffffffff9a000040, bs "run_init_process")] in *.
    specialize (Hlo (0xffffffff9a000000, bs "_text") ltac:(by left) eq_refl). cbn [fst] in Hlo.
    specialize (Hhi (0xffffffff9a000040, bs "run_init_process") ltac:(do 2 right; by left)). cbn [fst] in Hhi.
    repeat (apply elem_of_cons in Hin as [->|Hin]; [|]); [| |cbn in Hlo; lia|by apply not_elem_of_nil in Hin];
    repeat (apply elem_of_cons in He as [->|He]; [|]); try (cbn in Hhi; lia); try (by apply not_elem_of_nil in He); apply Z.leb_le; vm_compute; reflexivity. }
  split; [exact Hs|]. etransitivity; [apply (kallsyms_same_kernel true sample_ksyms pcs sample_ksyms_ok Hs)|]. vm_compute. reflexivity.
Defined.

Lemma rank_spec_witness :
  let resolved := [(bs "0x1", Some (bs "f")); (bs "0x2", None); (bs "0x3", Some (bs "g")); (bs "0x4", Some (bs "g"))] in
  (forall l : list (list Z * Z), reverse l ≡ₚ l) /\ rank reverse resolved = [(bs "g", 2); (bs "f", 1)] /\
  (forall name n, (name, n) ∈ rank reverse resolved <-> 0 < n /\ n = hit_count resolved name).
Proof.
  intros resolved. split; [apply reverse_Permutation|]. split; [vm_compute; reflexivity|].
  apply (rank_spec reverse resolved). apply reverse_Permutation.
Defined.
