(* ===== verification/ReportStream.v ===== *)
(** report/mod.rs, [run_streaming]: from blocks of a log to the twin and the
    covered lines, over any resolver.

    [Resolver] is what the report asks of a symbolizer: a batch of addresses is
    answered with at most one pair per address; ReportBackends.v has the
    implementations.
    Shown: the report never panics; there is one answer per distinct address,
    and the twin and the covered lines are functions of the addresses read and
    of those answers, however the log is cut into blocks; and with a resolver
    whose answers depend on the address alone, the report of a log depends only
    on the set of its addresses. *)
From S2P Require Import Prelude Text DwarfAranges ReportLog ReportPaths.

(** A resolution: function and file:line. *)
Definition Pair : Type := list Z * list Z.
Definition unresolved : Pair := (bs "??", bs "??:0").

(** * Resolvers *)

Class Resolver (S : Type) : Type := symbolize : S -> list Z -> outcome (S * list Pair).

(** A short answer is filled up with unresolved pairs. *)
Definition padded (n : nat) (l : list Pair) : list Pair := l ++ replicate (n - length l) unresolved.

(** The contract: on the states [ok] a batch is answered without a failure, by
    at most one pair per address, each admissible for its address. *)
Class Lawful (S : Type) {R : Resolver S} (ok : S -> Prop) (Q : Z -> Pair -> Prop) : Prop :=
  lawful : forall s pcs, ok s -> exists s' l, symbolize s pcs = Done (s', l) /\ ok s' /\
    (length l <= length pcs)%nat /\ Forall2 Q pcs (padded (length pcs) l).

(** * The streaming report *)

Record Stream (S : Type) : Type := MkStream
  { resolver : S; seen : gmap Z Z; uniq : list Z; pairs : list Pair; locs : list (option (list Z));
    offset : option Z; total : Z; sent : list (list Z); out : list Z }.
Arguments MkStream {S}.
Arguments resolver {S}.
Arguments seen {S}.
Arguments uniq {S}.
Arguments pairs {S}.
Arguments locs {S}.
Arguments offset {S}.
Arguments total {S}.
Arguments sent {S}.
Arguments out {S}.

Definition start_stream {S} (s : S) : Stream S := MkStream s ∅ [] [] [] None 0 [] [].

Section Stream.
Context {S : Type} {R : Resolver S}.
Context (kernel_src : list Z).
(** [kaslr::detect_offset] of a sample, which probes the resolver. *)
Context (detect : S -> list Z -> outcome (S * Z)).
(** Whether the [n]-th block sent to the writer thread is accepted. *)
Context (send_ok : nat -> bool).

(** The addresses not seen before, which the loop adds to [seen] and [uniq]. *)
Fixpoint collect (pcs : list Z) (sn : gmap Z Z) (un fresh : list Z) : gmap Z Z * list Z * list Z :=
  match pcs with
  | [] => (sn, un, fresh)
  | pc :: pcs =>
      match sn !! pc with
      | Some _ => collect pcs sn un fresh
      | None => collect pcs (<[pc := as_u32 (zlen un)]> sn) (un ++ [pc]) (fresh ++ [pc])
      end
  end.

(** [while pairs.len() < uniq.len()]: as many entries as are missing. *)
Definition resolve_fresh (st : Stream S) (s : S) (sn : gmap Z Z) (un fresh : list Z) (off : Z) : outcome (Stream S) :=
  if bool_decide (fresh = []) then
    Done (MkStream s sn un (pairs st) (locs st) (Some off) (total st) (sent st) (out st))
  else
    '(s, r) ← symbolize s ((fun a => a -₆₄ off) <$> fresh);
    let ps := pairs st ++ r in
    let ls := locs st ++ ((fun p => location_string (fst p) (snd p) kernel_src) <$> r) in
    let missing := (length un - length ps)%nat in
    Done (MkStream s sn un (ps ++ replicate missing unresolved) (ls ++ replicate missing None) (Some off) (total st) (sent st) (out st)).

(** The writing loop over the block's addresses. *)
Fixpoint emit (sn : gmap Z Z) (ls : list (option (list Z))) (pcs : list Z) (total : Z) (sent : list (list Z)) (out : list Z)
    : outcome (Z * list (list Z) * list Z) :=
  match pcs with
  | [] => Done (total, sent, out)
  | pc :: pcs =>
      i ← or_panic (sn !! pc);
      l ← idx ls i;
      let out := out ++ twin_line pc l in
      if 2 ^ 20 <=? zlen out then
        if send_ok (length sent) then emit sn ls pcs (total + 1) (sent ++ [out]) [] else Done (total + 1, sent, [])
      else emit sn ls pcs (total + 1) sent out
  end.

(** A received block up to the writing loop: the offset, the addresses not seen
    before, their answers. *)
Definition open_block (st : Stream S) (pcs : list Z) : outcome (Stream S) :=
  '(s, off) ← match offset st with
              | Some o => Done (resolver st, o)
              | None => detect (resolver st) (dedup (sort_u64 (take 256 pcs)))
              end;
  let '(sn, un, fresh) := collect pcs (seen st) (uniq st) [] in
  resolve_fresh st s sn un fresh off.

(** The stream with the counters and the buffer of the writing loop. *)
Definition with_out (st : Stream S) (total : Z) (sent : list (list Z)) (out : list Z) : Stream S :=
  MkStream (resolver st) (seen st) (uniq st) (pairs st) (locs st) (offset st) total sent out.

(** One received block. *)
Definition block_step (st : Stream S) (block : list Z) : outcome (Stream S) :=
  let pcs := parse_pcs block in
  if bool_decide (pcs = []) then Done st else
  st ← open_block st pcs;
  '(t, sn_, o) ← emit (seen st) (locs st) pcs (total st) (sent st) (out st);
  Done (with_out st t sn_ o).

(** The twin: the blocks the writer accepted. *)
Definition twin_of (st : Stream S) : list Z :=
  concat (sent st) ++ match out st with [] => [] | o => if send_ok (length (sent st)) then o else [] end.

(** [file.ends_with(".S")] *)
Definition is_asm (p : Pair) : bool :=
  let l := snd p in
  let file := match rposition 58 l with Some i => take (Z.to_nat i) l | None => l end in
  match strip_suffix (bs ".S") file with Some _ => true | None => match strip_suffix (bs ".s") file with Some _ => true | None => false end end.

Record Report : Type := MkReport { twin : list Z; source : Cov * Funcs; assembly : Cov * Funcs }.

(** [order.iter().map(|&i| &pairs[i])] *)
Fixpoint in_order (ps : list Pair) (order : list (Z * Z)) : outcome (list Pair) :=
  match order with
  | [] => Done []
  | (_, i) :: order => p ← idx ps i; rest ← in_order ps order; Done (p :: rest)
  end.

(** What the excerpts are rendered from: the answers in ascending order of the
    addresses, assembly apart.  [None] is "no coverage data found". *)
Definition finish (st : Stream S) : outcome (option Report) :=
  if total st =? 0 then Done None else
  let order := sort_by (fun a b => fst a <=? fst b) (zip (uniq st) (seqZ 0 (zlen (uniq st)))) in
  ps ← in_order (pairs st) order;
  Done (Some (MkReport (twin_of st)
    (aggregate (filter (fun p => is_asm p = false) ps) kernel_src) (aggregate (filter (fun p => is_asm p = true) ps) kernel_src))).

Definition run_streaming (s : S) (blocks : list (list Z)) : outcome (option Report) :=
  st ← fold_m block_step blocks (start_stream s); finish st.
End Stream.

(** * The loops of one block *)

Definition indexed (sn : gmap Z Z) (un : list Z) : Prop :=
  NoDup un /\ forall pc i, sn !! pc = Some i <-> get un i = Some pc.

Lemma collect_spec pcs sn un fresh : indexed sn un -> zlen un + zlen pcs < 2 ^ 32 ->
  exists sn' add, collect pcs sn un fresh = (sn', un ++ add, fresh ++ add) /\ indexed sn' (un ++ add) /\
    (forall pc, pc ∈ un ++ add <-> pc ∈ un \/ pc ∈ pcs).
Proof.
  revert sn un fresh. induction pcs as [|pc pcs IH]; intros sn un fresh Hi Hl; cbn [collect].
  - exists sn, []. rewrite !app_nil_r. split; [done|]. split; [done|]. set_solver.
  - rewrite zlen_cons in Hl. destruct (sn !! pc) as [i|] eqn:E.
    + destruct (IH sn un fresh Hi ltac:(lia)) as (sn' & add & -> & Hi' & Hel). exists sn', add. split; [done|]. split; [done|].
      intros q. rewrite Hel. apply Hi in E. apply get_elem_of in E. set_solver.
    + destruct Hi as [Hnd Hi]. assert (pc ∉ un) as Hn.
      { intros [i Hin]%list_elem_of_lookup. assert (sn !! pc = Some (Z.of_nat i)); [|congruence]. apply Hi. apply get_Some. split; [apply lookup_lt_Some in Hin; unfold zlen; lia|]. by rewrite Nat2Z.id. }
      destruct (IH (<[pc := as_u32 (zlen un)]> sn) (un ++ [pc]) (fresh ++ [pc])) as (sn' & add & -> & Hi' & Hel).
      * split; [apply NoDup_app; split; [done|split; [set_solver|apply NoDup_singleton]]|]. intros q i.
        pose proof (zlen_nonneg un). pose proof (zlen_nonneg pcs). rewrite as_u32_small by (unfold is_u32; lia).
        destruct (decide (q = pc)) as [->|Hq].
        -- rewrite lookup_insert_eq. split.
           ++ intros [= <-]. replace (zlen un) with (zlen un + 0) by lia. by rewrite get_app_r.
           ++ intros Hg. destruct (Z.lt_ge_cases i (zlen un)); [rewrite get_app_l in Hg by done; by apply get_elem_of in Hg|].
              replace i with (zlen un + (i - zlen un)) in Hg by lia. rewrite get_app_r in Hg by lia.
              destruct (decide (i - zlen un = 0)); [f_equal; lia|]. rewrite get_cons in Hg. rewrite (proj2 (Z.eqb_neq _ 0)) in Hg by done.
              apply get_Some in Hg as [? Hg]. by rewrite lookup_nil in Hg.
        -- rewrite lookup_insert_ne by done. rewrite Hi. split; intros Hg.
           ++ rewrite get_app_l; [done|]. assert (is_Some (get un i)) as Hx by by eexists. apply get_is_Some in Hx. lia.
           ++ destruct (Z.lt_ge_cases i (zlen un)); [by rewrite get_app_l in Hg|].
              replace i with (zlen un + (i - zlen un)) in Hg by lia. rewrite get_app_r in Hg by lia. apply get_elem_of in Hg. set_solver.
      * rewrite zlen_app. change (zlen [pc]) with 1. lia.
      * exists sn', (pc :: add). rewrite <- !app_assoc in *. split; [done|]. split; [done|]. intros q. rewrite Hel. set_solver.
Qed.

Lemma emit_spec (send_ok : nat -> bool) sn ls (at_ : Z -> option (list Z)) pcs total sent out : (forall n, send_ok n = true) ->
  (forall pc, pc ∈ pcs -> exists i, sn !! pc = Some i /\ get ls i = Some (at_ pc)) ->
  exists sent' out', emit send_ok sn ls pcs total sent out = Done (total + zlen pcs, sent', out') /\
    concat sent' ++ out' = concat sent ++ out ++ write_srccov at_ pcs.
Proof.
  intros Hok. revert total sent out. induction pcs as [|pc pcs IH]; intros total sent out Hl; cbn [emit].
  - exists sent, out. rewrite Z.add_0_r, app_nil_r. done.
  - destruct (Hl pc ltac:(by left)) as (i & -> & Hg). cbn [or_panic mbind outcome_bind]. unfold idx. rewrite Hg. cbn [or_panic mbind outcome_bind].
    assert (forall t s o, exists sent' out', emit send_ok sn ls pcs t s o = Done (t + zlen pcs, sent', out') /\
      concat sent' ++ out' = concat s ++ o ++ write_srccov at_ pcs) as IH' by (intros; apply IH; intros q Hq; apply Hl; by right).
    rewrite zlen_cons. replace (total + (1 + zlen pcs)) with (total + 1 + zlen pcs) by lia.
    change (write_srccov at_ (pc :: pcs)) with (twin_line pc (at_ pc) ++ write_srccov at_ pcs).
    destruct (2 ^ 20 <=? zlen _); [rewrite Hok|].
    + destruct (IH' (total + 1) (sent ++ [out ++ twin_line pc (at_ pc)]) []) as (s' & o' & -> & H). exists s', o'. split; [done|].
      rewrite H, concat_app. cbn [concat]. rewrite app_nil_r, <- !app_assoc. done.
    + destruct (IH' (total + 1) sent (out ++ twin_line pc (at_ pc))) as (s' & o' & -> & H). exists s', o'. split; [done|].
      by rewrite H, <- !app_assoc.
Qed.

(** * The state after some blocks *)

Section StreamInv.
Context {S : Type} {R : Resolver S} (ok : S -> Prop) (Q : Z -> Pair -> Prop) {L : Lawful S ok Q}.
Context (ks : list Z) (detect : S -> list Z -> outcome (S * Z)) (send_ok : nat -> bool).
Context (detect_total : forall s l, ok s -> exists s' off, detect s l = Done (s', off) /\ ok s').
Context (send_all : forall n, send_ok n = true).

Definition loc_of (p : Pair) : option (list Z) := location_string (fst p) (snd p) ks.

Definition answer (st : Stream S) (pc : Z) : Pair := default unresolved (i ← seen st !! pc; get (pairs st) i).

(** The addresses of some blocks, and the sample the offset is found from. *)
Definition pcs_of (blocks : list (list Z)) : list Z := concat (parse_pcs <$> blocks).
Definition sample_of (blocks : list (list Z)) : list Z :=
  dedup (sort_u64 (take 256 (default [] (head (filter (fun l => l <> []) (parse_pcs <$> blocks)))))).

(** The offset comes from the sample, at some state of the resolver. *)
Definition offset_from (blocks : list (list Z)) (off : Z) : Prop := exists s s', ok s /\ detect s (sample_of blocks) = Done (s', off).

Record good (blocks : list (list Z)) (st : Stream S) : Prop := MkGood
  { g_ok : ok (resolver st);
    g_ix : indexed (seen st) (uniq st);
    g_el : forall pc, pc ∈ uniq st <-> pc ∈ pcs_of blocks;
    g_len : length (pairs st) = length (uniq st);
    g_loc : locs st = loc_of <$> pairs st;
    g_tot : total st = zlen (pcs_of blocks);
    g_out : concat (sent st) ++ out st = write_srccov (fun pc => loc_of (answer st pc)) (pcs_of blocks);
    g_off : match offset st with
            | None => pcs_of blocks = []
            | Some off => offset_from blocks off /\ pcs_of blocks <> [] /\
                          Forall2 (fun pc p => Q (pc -₆₄ off) p) (uniq st) (pairs st)
            end }.

Lemma pcs_of_snoc blocks b : pcs_of (blocks ++ [b]) = pcs_of blocks ++ parse_pcs b.
Proof using. unfold pcs_of. rewrite fmap_app, concat_app. cbn. by rewrite app_nil_r. Qed.

Lemma sample_of_snoc blocks b : pcs_of blocks <> [] -> sample_of (blocks ++ [b]) = sample_of blocks.
Proof using.
  intros Hn. unfold sample_of. rewrite fmap_app, filter_app. destruct (filter _ (parse_pcs <$> blocks)) as [|l ls] eqn:E; [|done].
  destruct Hn. unfold pcs_of. induction (parse_pcs <$> blocks) as [|l ls IH]; [done|]. rewrite filter_cons in E.
  destruct (decide (l <> [])) as [|Hl]; [done|]. cbn [concat]. destruct l; [by apply IH|by destruct Hl].
Qed.

Lemma sample_of_first blocks b : pcs_of blocks = [] -> parse_pcs b <> [] ->
  sample_of (blocks ++ [b]) = dedup (sort_u64 (take 256 (parse_pcs b))).
Proof using.
  intros Hn Hb. unfold sample_of. rewrite fmap_app, filter_app. unfold pcs_of in Hn.
  assert (filter (fun l => l <> []) (parse_pcs <$> blocks) = []) as ->.
  { induction (parse_pcs <$> blocks) as [|l ls IH]; [done|]. cbn [concat] in Hn. apply app_eq_nil in Hn as [-> Hn]. rewrite filter_cons.
    destruct (decide _) as [Hd|]; [done|by apply IH]. }
  cbn [app fmap list_fmap]. rewrite filter_cons. by destruct (decide (parse_pcs b <> [])).
Qed.

Lemma write_srccov_app f a b : write_srccov f (a ++ b) = write_srccov f a ++ write_srccov f b.
Proof using. unfold write_srccov. by rewrite fmap_app, concat_app. Qed.

Lemma write_srccov_ext f g l : (forall pc, pc ∈ l -> f pc = g pc) -> write_srccov f l = write_srccov g l.
Proof using.
  intros H. unfold write_srccov. f_equal. apply list_fmap_ext. intros i pc Hi. f_equal. apply H. by eapply list_elem_of_lookup_2.
Qed.

Lemma indexed_get st pc : indexed (seen st) (uniq st) -> length (pairs st) = length (uniq st) -> pc ∈ uniq st ->
  exists i, seen st !! pc = Some i /\ get (uniq st) i = Some pc /\ get (pairs st) i = Some (answer st pc).
Proof using.
  intros [_ Hi] Hl [k Hk]%list_elem_of_lookup. assert (get (uniq st) (Z.of_nat k) = Some pc) as Hg.
  { apply get_Some. split; [apply lookup_lt_Some in Hk; unfold zlen; lia|]. by rewrite Nat2Z.id. }
  exists (Z.of_nat k). pose proof (proj2 (Hi pc _) Hg) as Hs. split; [done|]. split; [done|]. unfold answer. rewrite Hs. cbn [mbind option_bind].
  assert (is_Some (get (pairs st) (Z.of_nat k))) as [p Hp]; [|by rewrite Hp].
  apply get_is_Some. apply get_Some in Hg as [Hr _]. unfold zlen in *. lia.
Qed.

Lemma resolve_fresh_spec blocks st s0 sn add off : good blocks st -> ok s0 -> indexed sn (uniq st ++ add) ->
  exists s x, resolve_fresh ks st s0 sn (uniq st ++ add) add off =
    Done (MkStream s sn (uniq st ++ add) (pairs st ++ x) (loc_of <$> (pairs st ++ x)) (Some off) (total st) (sent st) (out st)) /\
    ok s /\ Forall2 (fun pc p => Q (pc -₆₄ off) p) add x.
Proof using L.
  intros G Hs0 Hi. unfold resolve_fresh. destruct (bool_decide_reflect (add = [])) as [->|Hn].
  - exists s0, []. rewrite !app_nil_r, (g_loc _ _ G). split; [done|]. split; [done|constructor].
  - destruct (lawful s0 ((fun a => a -₆₄ off) <$> add) Hs0) as (s & r & -> & Hs & Hlen & Hq).
    cbn [mbind outcome_bind]. rewrite length_fmap in *. exists s, (padded (length add) r).
    rewrite !length_app, (g_len _ _ G).
    replace (length (uniq st) + length add - (length (uniq st) + length r))%nat with (length add - length r)%nat by lia.
    unfold padded in *. split; [|split; [done|exact (proj1 (Forall2_fmap_l _ _ _ _) Hq)]]. f_equal. rewrite (g_loc _ _ G), <- !app_assoc. f_equal.
    rewrite !fmap_app. do 2 f_equal. by rewrite fmap_replicate.
Qed.

Lemma block_step_good blocks st b : good blocks st -> zlen (pcs_of (blocks ++ [b])) < 2 ^ 32 ->
  exists st', block_step ks detect send_ok st b = Done st' /\ good (blocks ++ [b]) st'.
Proof using L detect_total send_all.
  intros G Hlen. unfold block_step, open_block. set (pcs := parse_pcs b) in *. destruct (bool_decide_reflect (pcs = [])) as [E|E].
  { exists st. split; [done|]. assert (pcs_of (blocks ++ [b]) = pcs_of blocks) as Hp by (rewrite pcs_of_snoc; fold pcs; by rewrite E, app_nil_r).
    destruct G. constructor; rewrite ?Hp; try done. destruct (offset st); [|done]. unfold offset_from in *. rewrite sample_of_snoc by naive_solver. done. }
  assert (exists s0 off, match offset st with Some o => Done (resolver st, o) | None => detect (resolver st) (dedup (sort_u64 (take 256 pcs))) end = Done (s0, off) /\
    ok s0 /\ offset_from (blocks ++ [b]) off /\ Forall2 (fun pc p => Q (pc -₆₄ off) p) (uniq st) (pairs st)) as (s0 & off & -> & Hs0 & Hdet & HQ).
  { pose proof (g_off _ _ G) as Ho. destruct (offset st) as [o|].
    - exists (resolver st), o. destruct Ho as (Hd & Hne & Hq). split; [done|]. split; [apply G|]. unfold offset_from. by rewrite sample_of_snoc.
    - destruct (detect_total (resolver st) (dedup (sort_u64 (take 256 pcs))) (g_ok _ _ G)) as (s0 & o & Ho' & Hs0). exists s0, o.
      split; [done|]. split; [done|]. split; [exists (resolver st), s0; rewrite sample_of_first by done; by split; [apply G|]|].
      assert (uniq st = []) as Hu by (apply elem_of_nil_inv; intros q; rewrite (g_el _ _ G), Ho; apply not_elem_of_nil).
      pose proof (g_len _ _ G) as Hl. rewrite Hu in *. destruct (pairs st); [constructor|done]. }
  cbn [mbind outcome_bind]. rewrite pcs_of_snoc, zlen_app in Hlen. fold pcs in Hlen.
  assert (zlen (uniq st) <= zlen (pcs_of blocks)) as Hu.
  { unfold zlen. apply Nat2Z.inj_le. apply NoDup_submseteq_length || idtac. apply submseteq_length. apply NoDup_submseteq; [apply G|].
    intros q. apply (g_el _ _ G). }
  destruct (collect_spec pcs (seen st) (uniq st) [] (g_ix _ _ G) ltac:(lia)) as (sn & add & -> & Hi & Hel). cbn [app].
  destruct (resolve_fresh_spec blocks st s0 sn add off G Hs0 Hi) as (s & x & -> & Hs & Hx). cbn [mbind outcome_bind seen locs total sent out].
  set (st' := MkStream s sn (uniq st ++ add) (pairs st ++ x) _ (Some off) (total st) (sent st) (out st)).
  assert (length (pairs st') = length (uniq st')) as Hl' by (cbn; rewrite !length_app, (g_len _ _ G); f_equal; symmetry; by eapply Forall2_length).
  destruct (emit_spec send_ok sn (locs st') (fun pc => loc_of (answer st' pc)) pcs (total st) (sent st) (out st) send_all) as (sent' & out' & He & Ho).
  { intros pc Hpc. destruct (indexed_get st' pc Hi Hl') as (i & H1 & _ & H2); [cbn; apply Hel; by right|]. exists i. split; [exact H1|].
    cbn [locs st']. unfold get in *. rewrite list_lookup_fmap. unfold zlen in *. rewrite length_fmap. cbn [pairs st'] in H2.
    destruct (_ && _); [|done]. by rewrite H2. }
  cbn [locs st'] in He. rewrite He. cbn [mbind outcome_bind]. eexists. split; [reflexivity|].
  assert (forall pc, pc ∈ pcs_of blocks -> answer st' pc = answer st pc) as Hans.
  { intros pc Hpc. apply (g_el _ _ G) in Hpc. destruct (indexed_get st pc (g_ix _ _ G) (g_len _ _ G) Hpc) as (i & H1 & H2 & H3).
    assert (0 <= i < zlen (uniq st)) by (apply get_is_Some; by eexists).
    unfold answer at 1. cbn [seen pairs st']. assert (sn !! pc = Some i) as -> by (apply Hi; by rewrite get_app_l by lia). cbn [mbind option_bind].
    rewrite get_app_l by (unfold zlen in *; rewrite (g_len _ _ G); lia). by rewrite H3. }
  constructor; cbn [with_out st' resolver seen uniq pairs locs offset total sent out]; rewrite ?pcs_of_snoc; fold pcs.
  - done.
  - done.
  - intros pc. cbn [uniq st']. rewrite Hel, elem_of_app, (g_el _ _ G). done.
  - exact Hl'.
  - done.
  - by rewrite (g_tot _ _ G), zlen_app.
  - rewrite Ho, app_assoc, (g_out _ _ G), write_srccov_app. f_equal. apply write_srccov_ext. intros pc Hpc. f_equal. symmetry. by apply Hans.
  - split; [done|]. split; [intros [_ H]%app_eq_nil; done|]. by apply Forall2_app.
Qed.

(** * The report *)

(** The report of the addresses [pcs] with the answers [ans]. *)
Definition report_of (ans : Z -> Pair) (pcs : list Z) : Report :=
  let ps := ans <$> unique_sorted pcs in
  MkReport (write_srccov (fun pc => loc_of (ans pc)) pcs)
    (aggregate (filter (fun p => is_asm p = false) ps) ks) (aggregate (filter (fun p => is_asm p = true) ps) ks).

Lemma unique_sorted_perm un pcs : NoDup un -> (forall pc, pc ∈ un <-> pc ∈ pcs) -> un ≡ₚ unique_sorted pcs.
Proof using.
  intros Hn He. assert (StronglySorted Z.lt (unique_sorted pcs)) as Hs by (apply dedup_sorted, sort_u64_sorted).
  apply NoDup_Permutation; [done|by apply StronglySorted_lt_NoDup|]. intros pc. unfold unique_sorted. by rewrite elem_of_dedup, sort_u64_perm.
Qed.

Lemma StronglySorted_lt_le l : StronglySorted Z.lt l -> StronglySorted Z.le l.
Proof using. induction 1 as [|x l _ IH Hx]; constructor; [done|]. eapply Forall_impl; [exact Hx|]. intros y ?. cbv beta in *. lia. Qed.

Lemma order_sorted un pcs : NoDup un -> (forall pc, pc ∈ un <-> pc ∈ pcs) ->
  fst <$> sort_by (fun a b : Z * Z => fst a <=? fst b) (zip un (seqZ 0 (zlen un))) = unique_sorted pcs.
Proof using.
  intros Hn He. apply (StronglySorted_unique Z.le).
  - set (l := zip _ _). pose proof (sort_by_key_sorted fst l) as H. induction H as [|x k _ IH Hx]; [constructor|]. cbn [fmap list_fmap].
    constructor; [exact IH|]. by apply Forall_fmap.
  - apply StronglySorted_lt_le, dedup_sorted, sort_u64_sorted.
  - rewrite sort_by_perm, fst_zip; [by apply unique_sorted_perm|]. rewrite length_seqZ. unfold zlen. lia.
Qed.

Lemma finish_good blocks st : good blocks st ->
  finish ks send_ok st = Done (if bool_decide (pcs_of blocks = []) then None else Some (report_of (answer st) (pcs_of blocks))).
Proof using send_all.
  intros G. unfold finish. rewrite (g_tot _ _ G). destruct (bool_decide_reflect (pcs_of blocks = [])) as [->|Hn]; [done|].
  rewrite (proj2 (Z.eqb_neq _ 0)) by (destruct (pcs_of blocks) as [|x l]; [done|]; rewrite zlen_cons; pose proof (zlen_nonneg l); lia).
  set (order := sort_by _ _).
  assert (in_order (pairs st) order = Done (answer st <$> unique_sorted (pcs_of blocks))) as ->.
  { rewrite <- (order_sorted (uniq st) (pcs_of blocks) (proj1 (g_ix _ _ G)) (g_el _ _ G)). fold order.
    assert (Forall (fun x => get (pairs st) (snd x) = Some (answer st (fst x))) order) as Ha.
    { apply Forall_forall. intros [pc i] Hin. unfold order in Hin. rewrite sort_by_perm in Hin.
      apply elem_of_lookup_zip_with in Hin as (k & x & y & [= -> ->] & Hx & (-> & _)%lookup_seqZ). cbn [fst snd].
      destruct (indexed_get st x (g_ix _ _ G) (g_len _ _ G) ltac:(by eapply list_elem_of_lookup_2)) as (i & _ & H2 & H3).
      apply get_Some in H2 as [Hr H2]. assert (k = Z.to_nat i) as ->; [|by replace (0 + Z.of_nat (Z.to_nat i)) with i by lia].
      eapply (proj1 (NoDup_alt (uniq st)) (proj1 (g_ix _ _ G))); eassumption. }
    induction Ha as [|[pc i] o Hx _ IH]; [done|]. cbn [in_order fmap list_fmap fst snd] in *. unfold idx in *. rewrite Hx. cbn [or_panic mbind outcome_bind].
    rewrite IH. done. }
  cbn [mbind outcome_bind].
  assert (twin_of send_ok st = write_srccov (fun pc => loc_of (answer st pc)) (pcs_of blocks)) as ->; [|done].
  unfold twin_of. rewrite <- (g_out _ _ G), send_all. by destruct (out st).
Qed.

Lemma stream_good s blocks : ok s -> zlen (pcs_of blocks) < 2 ^ 32 ->
  exists st, fold_m (block_step ks detect send_ok) blocks (start_stream s) = Done st /\ good blocks st.
Proof using L detect_total send_all.
  intros Hs. assert (forall pre st blocks, good pre st -> zlen (pcs_of (pre ++ blocks)) < 2 ^ 32 ->
    exists st', fold_m (block_step ks detect send_ok) blocks st = Done st' /\ good (pre ++ blocks) st') as H.
  { intros pre st bl. revert pre st. induction bl as [|b bl IH]; intros pre st G Hl; [exists st; by rewrite app_nil_r|]. cbn [fold_m].
    replace (pre ++ b :: bl) with ((pre ++ [b]) ++ bl) in * by (by rewrite <- app_assoc).
    destruct (block_step_good pre st b G) as (st1 & -> & G1); [|cbn [mbind outcome_bind]; by apply IH].
    unfold pcs_of in *. rewrite fmap_app, concat_app, zlen_app in Hl. pose proof (zlen_nonneg (concat (parse_pcs <$> bl))). lia. }
  intros Hl. apply (H [] (start_stream s) blocks); [|exact Hl]. constructor; cbn; try done. split; [constructor|]. intros pc i. rewrite lookup_empty.
  split; [done|]. intros [_ Hx]%get_Some. by rewrite lookup_nil in Hx.
Qed.

(** Over any lawful resolver the streaming report never fails.  A log without
    addresses gives no report.  Otherwise there is one offset, found from the
    first addresses, and one answer per address, admissible for the address
    less the offset, and the report is determined by these and the sequence of
    addresses. *)
Lemma stream_report (s : S) (blocks : list (list Z)) : ok s -> zlen (pcs_of blocks) < 2 ^ 32 ->
  (pcs_of blocks = [] -> run_streaming ks detect send_ok s blocks = Done None) /\
  (pcs_of blocks <> [] -> exists off ans, offset_from blocks off /\
     (forall pc, pc ∈ pcs_of blocks -> Q (pc -₆₄ off) (ans pc)) /\
     run_streaming ks detect send_ok s blocks = Done (Some (report_of ans (pcs_of blocks)))).
Proof using L detect_total send_all.
  intros Hs Hl. unfold run_streaming. destruct (stream_good s blocks Hs Hl) as (st & -> & G). cbn [mbind outcome_bind]. rewrite (finish_good blocks st G).
  split; intros Hp; [by rewrite bool_decide_eq_true_2|]. rewrite bool_decide_eq_false_2 by done.
  pose proof (g_off _ _ G) as Ho. destruct (offset st) as [off|]; [|done]. destruct Ho as (Hd & _ & Hq). exists off, (answer st). split; [done|]. split; [|done].
  intros pc Hpc. apply (g_el _ _ G) in Hpc. destruct (indexed_get st pc (g_ix _ _ G) (g_len _ _ G) Hpc) as (i & _ & H2 & H3).
  apply get_Some in H2 as [_ H2]. apply get_Some in H3 as [_ H3]. exact (Forall2_lookup_lr _ _ _ _ _ _ Hq H2 H3).
Qed.
End StreamInv.

(** C34: with a resolver whose answers depend on the address
    alone, two logs with the same set of addresses and the same offset have the
    same covered lines and functions, source and assembly: order, duplicates
    and block boundaries of a log do not matter. *)
Theorem report_order_free {S : Type} {R : Resolver S} (ok : S -> Prop) (f : Z -> Pair) (ks : list Z)
    (detect : S -> list Z -> outcome (S * Z)) (send_ok : nat -> bool) (off : Z) (s : S) (blocks blocks' : list (list Z)) :
  Lawful S ok (fun pc p => p = f pc) -> (forall s l, ok s -> exists s', detect s l = Done (s', off) /\ ok s') ->
  (forall n, send_ok n = true) -> ok s -> zlen (pcs_of blocks) < 2 ^ 32 -> zlen (pcs_of blocks') < 2 ^ 32 ->
  pcs_of blocks <> [] -> (forall pc, pc ∈ pcs_of blocks <-> pc ∈ pcs_of blocks') ->
  exists r r', run_streaming ks detect send_ok s blocks = Done (Some r) /\ run_streaming ks detect send_ok s blocks' = Done (Some r') /\
    source r = source r' /\ assembly r = assembly r'.
Proof.
  intros HL Hd Hsend Hs Hl Hl' Hne Hset.
  assert (forall s l, ok s -> exists s' off, detect s l = Done (s', off) /\ ok s') as Hdt.
  { intros s0 l H0. destruct (Hd s0 l H0) as (s' & ? & ?). by exists s', off. }
  assert (forall bl o, offset_from ok detect bl o -> o = off) as Ho.
  { intros bl o (s0 & s1 & H0 & E). destruct (Hd s0 (sample_of bl) H0) as (s' & E' & _). congruence. }
  assert (pcs_of blocks' <> []) as Hne'.
  { intros E. apply Hne. apply elem_of_nil_inv. intros x. rewrite Hset, E. apply not_elem_of_nil. }
  destruct (proj2 (stream_report ok (fun pc p => p = f pc) ks detect send_ok Hdt Hsend s blocks Hs Hl) Hne) as (o & ans & Hof & Ha & E).
  destruct (proj2 (stream_report ok (fun pc p => p = f pc) ks detect send_ok Hdt Hsend s blocks' Hs Hl') Hne') as (o' & ans' & Hof' & Ha' & E').
  apply Ho in Hof as ->. apply Ho in Hof' as ->. do 2 eexists. split; [exact E|]. split; [exact E'|]. unfold report_of. cbn [source assembly].
  assert (unique_sorted (pcs_of blocks) = unique_sorted (pcs_of blocks')) as Hu.
  { apply (StronglySorted_unique Z.le); [apply StronglySorted_lt_le, dedup_sorted, sort_u64_sorted..|].
    rewrite <- (unique_sorted_perm (unique_sorted (pcs_of blocks)) (pcs_of blocks')); [done|apply StronglySorted_lt_NoDup, dedup_sorted, sort_u64_sorted|].
    intros pc. unfold unique_sorted. by rewrite elem_of_dedup, sort_u64_perm. }
  assert (ans <$> unique_sorted (pcs_of blocks) = ans' <$> unique_sorted (pcs_of blocks')) as ->; [|done].
  rewrite <- Hu. apply list_fmap_ext. intros i pc Hi. assert (pc ∈ pcs_of blocks) as Hin.
  { apply list_elem_of_lookup_2 in Hi. unfold unique_sorted in Hi. by rewrite elem_of_dedup, sort_u64_perm in Hi. }
  rewrite (Ha pc Hin). symmetry. apply Ha'. by apply Hset.
Qed.

(** * Witness *)

(** A resolver that is a table. *)
Definition table_resolver (f : Z -> Pair) : Resolver unit := fun s pcs => Done (s, f <$> pcs).

Lemma table_lawful f : Lawful unit (R := table_resolver f) (fun _ => True) (fun pc p => p = f pc).
Proof.
  intros s pcs _. exists s, (f <$> pcs). split; [done|]. split; [done|]. rewrite length_fmap. split; [done|]. unfold padded.
  rewrite length_fmap, Nat.sub_diag, app_nil_r. induction pcs; constructor; auto.
Qed.

Definition sample_answer (pc : Z) : Pair :=
  if pc =? 0x10 then (bs "do_open", bs "/k/fs/open.c:7") else if pc =? 0x20 then (bs "entry", bs "/k/arch/x86/entry.S:3") else unresolved.

Lemma report_order_free_witness :
  let blocks := [bs "0x20" ++ 10 :: bs "0x10"; [10]; bs "0x10" ++ [10]] in let blocks' := [bs "0x10" ++ 10 :: bs "0x20" ++ [10]] in
  let run := run_streaming (R := table_resolver sample_answer) (bs "/k") (fun s _ => Done (s, 0)) (fun _ => true) tt in
  (forall pc, pc ∈ pcs_of blocks <-> pc ∈ pcs_of blocks') /\
  exists r r', run blocks = Done (Some r) /\ run blocks' = Done (Some r') /\ source r = source r' /\ assembly r = assembly r'.
Proof.
  intros blocks blocks' run.
  assert (forall pc, pc ∈ pcs_of blocks <-> pc ∈ pcs_of blocks') as H.
  { change (pcs_of blocks) with [0x20; 0x10; 0x10]. change (pcs_of blocks') with [0x10; 0x20]. set_solver. }
  split; [exact H|].
  apply (report_order_free (R := table_resolver sample_answer) (fun _ => True) sample_answer (bs "/k") (fun s _ => Done (s, 0)) (fun _ => true) 0 tt blocks blocks');
    [apply table_lawful|by intros s l _; exists s|done|done|reflexivity|reflexivity|discriminate|exact H].
Defined.
