(* ===== verification/ReportPipe.v ===== *)
(** report/mod.rs, the threads of [run_streaming]: [spawn_reader] sends blocks
    of the logs over a bounded channel, the report's loop resolves them and
    sends pieces of the twin over a second one, [spawn_block_writer] writes
    these to the disk; then the report joins the writer.

    [step] is one turn of one thread: it moves, or it is blocked ([None]).  A
    schedule is a list of turns, and a turn of a blocked thread changes nothing.
    Shown: the threads never wait for each other for ever, every schedule ends
    within [work] moves, and what is reported does not depend on the schedule
    nor on the disk: it is what the sequential [ReportStream.run_streaming]
    reports, and the twin on the disk is a prefix of its twin, all of it when
    the disk takes everything. *)
From S2P Require Import Prelude Text DwarfAranges ReportLog ReportPaths ReportStream.

(** * Bounded channels *)

(** [std::sync::mpsc::sync_channel]: what is in flight, and whether the sender
    and the receiver are still there. *)
Record Chan (A : Type) : Type := MkChan { queue : list A; tx : bool; rx : bool }.
Arguments MkChan {A}.
Arguments queue {A}.
Arguments tx {A}.
Arguments rx {A}.

Definition sync_channel {A} : Chan A := MkChan [] true true.

(** [tx.send]: refused when the receiver is gone, [None] while the channel is full. *)
Definition try_send {A} (cap : nat) (x : A) (c : Chan A) : option (Chan A * bool) :=
  if negb (rx c) then Some (c, false) else
  if (length (queue c) <? cap)%nat then Some (MkChan (queue c ++ [x]) (tx c) (rx c), true) else None.

(** [rx.recv]: what was sent is received even after the sender is gone, then
    the iteration ends; [None] while there is nothing. *)
Definition try_recv {A} (c : Chan A) : option (option A * Chan A) :=
  match queue c with
  | x :: q => Some (Some x, MkChan q (tx c) (rx c))
  | [] => if tx c then None else Some (None, c)
  end.

Definition drop_tx {A} (c : Chan A) : Chan A := MkChan (queue c) false (rx c).
Definition drop_rx {A} (c : Chan A) : Chan A := MkChan [] (tx c) false.

(** * The threads *)

Inductive Thread : Type := Reader | Main | Writer.

(** The report's loop: waiting for a block; in the writing loop; at its
    [stx.send(full)]; after the last block; waiting for the writer. *)
Inductive Loop (S : Type) : Type :=
  | Recv (st : Stream S)
  | Emitting (st : Stream S) (pcs : list Z)
  | Sending (st : Stream S) (full : list Z) (pcs : list Z)
  | Closing (st : Stream S)
  | Joining (st : Stream S)
  | Finished (st : Stream S)
  | Panicked (st : Stream S).
Arguments Recv {S}.
Arguments Emitting {S}.
Arguments Sending {S}.
Arguments Closing {S}.
Arguments Joining {S}.
Arguments Finished {S}.
Arguments Panicked {S}.

(** The writer: before [File::create]; draining the channel, as the file could
    not be created; with the pieces given to its [BufWriter]; over, with the
    twin on the disk. *)
Inductive Writing : Type :=
  | Creating
  | Draining
  | Writes (w : list (list Z))
  | Ended (file : option (list Z)).

Record Pipe (S : Type) : Type := MkPipe
  { reader : option (list (list Z)); blocks_ch : Chan (list Z); main : Loop S; out_ch : Chan (list Z); writer : Writing }.
Arguments MkPipe {S}.
Arguments reader {S}.
Arguments blocks_ch {S}.
Arguments main {S}.
Arguments out_ch {S}.
Arguments writer {S}.

(** The disk: whether the file can be created, whether the [n]-th [write_all]
    succeeds, and what of the bytes given to the [BufWriter] is in the file
    once it is dropped. *)
Record Disk : Type := MkDisk { create_ok : bool; write_ok : nat -> bool; landed : list Z -> list Z }.

(** A [BufWriter] writes its bytes in order. *)
Class DiskLaws (d : Disk) : Prop := landed_prefix : forall l, landed d l `prefix_of` l.

(** A disk that takes everything. *)
Definition takes_all (d : Disk) : Prop := create_ok d = true /\ (forall n, write_ok d n = true) /\ (forall l, landed d l = l).

Section Pipe.
Context {S : Type} {R : Resolver S}.
Context (ks : list Z) (detect : S -> list Z -> outcome (S * Z)) (d : Disk).

(** [spawn_reader]: one block sent, or the end of the inputs; the thread
    returns when nobody receives. *)
Definition reader_turn (p : Pipe S) : option (Pipe S) :=
  match reader p with
  | None => None
  | Some [] => Some (MkPipe None (drop_tx (blocks_ch p)) (main p) (out_ch p) (writer p))
  | Some (b :: bl) =>
      '(c, sent) ← try_send 2 b (blocks_ch p);
      Some (if sent : bool then MkPipe (Some bl) c (main p) (out_ch p) (writer p)
            else MkPipe None (drop_tx c) (main p) (out_ch p) (writer p))
  end.

(** A panic of the loop drops its ends of both channels. *)
Definition panics (p : Pipe S) (st : Stream S) : Pipe S :=
  MkPipe (reader p) (drop_rx (blocks_ch p)) (Panicked st) (drop_tx (out_ch p)) (writer p).

Definition goes (p : Pipe S) (m : Loop S) : Pipe S := MkPipe (reader p) (blocks_ch p) m (out_ch p) (writer p).

(** A received block, up to its writing loop. *)
Definition on_block (p : Pipe S) (st : Stream S) (b : list Z) (c : Chan (list Z)) : Pipe S :=
  let p := MkPipe (reader p) c (main p) (out_ch p) (writer p) in
  let pcs := parse_pcs b in
  if bool_decide (pcs = []) then goes p (Recv st) else
  match open_block ks detect st pcs with Done st => goes p (Emitting st pcs) | _ => panics p st end.

(** One address of the writing loop. *)
Definition on_pc (p : Pipe S) (st : Stream S) (pc : Z) (pcs : list Z) : Pipe S :=
  match i ← or_panic (seen st !! pc); idx (locs st) i with
  | Done l =>
      let o := out st ++ twin_line pc l in
      if 2 ^ 20 <=? zlen o then goes p (Sending (with_out st (total st + 1) (sent st) []) o pcs)
      else goes p (Emitting (with_out st (total st + 1) (sent st) o) pcs)
  | _ => panics p st
  end.

Definition main_turn (p : Pipe S) : option (Pipe S) :=
  match main p with
  | Recv st =>
      '(b, c) ← try_recv (blocks_ch p);
      Some (match b with
            | Some b => on_block p st b c
            | None => MkPipe (reader p) (drop_rx c) (Closing st) (out_ch p) (writer p)
            end)
  | Emitting st [] => Some (goes p (Recv st))
  | Emitting st (pc :: pcs) => Some (on_pc p st pc pcs)
  | Sending st full pcs =>
      '(c, ok) ← try_send 32 full (out_ch p);
      Some (MkPipe (reader p) (blocks_ch p)
        (if ok : bool then Emitting (with_out st (total st) (sent st ++ [full]) (out st)) pcs else Recv st) c (writer p))
  | Closing st =>
      if bool_decide (out st = []) then Some (MkPipe (reader p) (blocks_ch p) (Joining st) (drop_tx (out_ch p)) (writer p)) else
      '(c, ok) ← try_send 32 (out st) (out_ch p);
      Some (MkPipe (reader p) (blocks_ch p)
        (Joining (with_out st (total st) (if ok : bool then sent st ++ [out st] else sent st) [])) (drop_tx c) (writer p))
  | Joining st =>
      match writer p with
      | Ended f => Some (MkPipe (reader p) (blocks_ch p) (Finished st) (out_ch p) (Ended (if total st =? 0 then None else f)))
      | _ => None
      end
  | Finished _ | Panicked _ => None
  end.

(** [spawn_block_writer] *)
Definition writer_turn (p : Pipe S) : option (Pipe S) :=
  let next c w := Some (MkPipe (reader p) (blocks_ch p) (main p) c w) in
  match writer p with
  | Creating => next (out_ch p) (if create_ok d then Writes [] else Draining)
  | Draining =>
      '(b, c) ← try_recv (out_ch p);
      match b with Some _ => next c Draining | None => next (drop_rx c) (Ended None) end
  | Writes w =>
      '(b, c) ← try_recv (out_ch p);
      match b with
      | Some b => if write_ok d (length w) then next c (Writes (w ++ [b])) else next (drop_rx c) (Ended (Some (landed d (concat (w ++ [b])))))
      | None => next (drop_rx c) (Ended (Some (landed d (concat w))))
      end
  | Ended _ => None
  end.

Definition step (t : Thread) (p : Pipe S) : option (Pipe S) :=
  match t with Reader => reader_turn p | Main => main_turn p | Writer => writer_turn p end.

(** A schedule: turns of blocked threads are lost. *)
Fixpoint exec (sched : list Thread) (p : Pipe S) : Pipe S :=
  match sched with [] => p | t :: sched => exec sched (default p (step t p)) end.

(** The reader hands over the blocks of [ReportLog.spawn_reader]. *)
Definition start_pipe (blocks : list (list Z)) (s : S) : Pipe S :=
  MkPipe (Some blocks) sync_channel (Recv (start_stream s)) sync_channel Creating.
End Pipe.

(** * Progress: the threads never all wait *)

Section Progress.
Context {S : Type} {R : Resolver S}.
Context (ks : list Z) (detect : S -> list Z -> outcome (S * Z)) (d : Disk).

Definition receiving (m : Loop S) : bool := match m with Recv _ | Emitting _ _ | Sending _ _ _ => true | _ => false end.
Definition writing (m : Loop S) : bool := match m with Closing _ => true | m => receiving m end.
Definition ended (p : Pipe S) : Prop :=
  reader p = None /\ (match main p with Finished _ | Panicked _ => True | _ => False end) /\ (exists f, writer p = Ended f).

(** Every end of a channel is open as long as its thread may use it. *)
Record wired (p : Pipe S) : Prop := MkWired
  { w_reader : tx (blocks_ch p) = match reader p with Some _ => true | None => false end;
    w_blocks : rx (blocks_ch p) = receiving (main p);
    w_out : tx (out_ch p) = writing (main p);
    w_writer : rx (out_ch p) = match writer p with Ended _ => false | _ => true end }.

(** What is left to do, in moves. *)
Definition block_work (b : list Z) : nat := 2 + 3 * length (parse_pcs b).
Definition loop_work (m : Loop S) : nat :=
  match m with
  | Recv _ => 4 | Emitting _ pcs => 5 + 3 * length pcs | Sending _ _ pcs => 7 + 3 * length pcs
  | Closing _ => 3 | Joining _ => 1 | Finished _ | Panicked _ => 0
  end.
Definition work (p : Pipe S) : nat := (
  match reader p with Some bl => 1 + sum_list_with (fun b => 1 + block_work b)%nat bl | None => 0 end +
  sum_list_with block_work (queue (blocks_ch p)) + loop_work (main p) + length (queue (out_ch p)) +
  match writer p with Creating => 2 | Ended _ => 0 | _ => 1 end)%nat.

(** What a turn can do, one rule per branch. *)
Inductive moves (p : Pipe S) : Pipe S -> Prop :=
  | reads_end : reader p = Some [] ->
      moves p (MkPipe None (drop_tx (blocks_ch p)) (main p) (out_ch p) (writer p))
  | reads_block b bl : reader p = Some (b :: bl) -> rx (blocks_ch p) = true ->
      moves p (MkPipe (Some bl) (MkChan (queue (blocks_ch p) ++ [b]) (tx (blocks_ch p)) true) (main p) (out_ch p) (writer p))
  | reads_refused b bl : reader p = Some (b :: bl) -> rx (blocks_ch p) = false ->
      moves p (MkPipe None (drop_tx (blocks_ch p)) (main p) (out_ch p) (writer p))
  | takes_nothing st b q : main p = Recv st -> queue (blocks_ch p) = b :: q -> parse_pcs b = [] ->
      moves p (MkPipe (reader p) (MkChan q (tx (blocks_ch p)) (rx (blocks_ch p))) (Recv st) (out_ch p) (writer p))
  | takes_block st st' b q : main p = Recv st -> queue (blocks_ch p) = b :: q -> parse_pcs b <> [] -> open_block ks detect st (parse_pcs b) = Done st' ->
      moves p (MkPipe (reader p) (MkChan q (tx (blocks_ch p)) (rx (blocks_ch p))) (Emitting st' (parse_pcs b)) (out_ch p) (writer p))
  | takes_panic st b q : main p = Recv st -> queue (blocks_ch p) = b :: q -> parse_pcs b <> [] ->
      (forall st', open_block ks detect st (parse_pcs b) <> Done st') ->
      moves p (MkPipe (reader p) (MkChan [] (tx (blocks_ch p)) false) (Panicked st) (drop_tx (out_ch p)) (writer p))
  | takes_end st : main p = Recv st -> queue (blocks_ch p) = [] -> tx (blocks_ch p) = false ->
      moves p (MkPipe (reader p) (drop_rx (blocks_ch p)) (Closing st) (out_ch p) (writer p))
  | emits_end st : main p = Emitting st [] -> moves p (goes p (Recv st))
  | emits_line st pc pcs i l (o := out st ++ twin_line pc l) : main p = Emitting st (pc :: pcs) ->
      seen st !! pc = Some i -> get (locs st) i = Some l -> (2 ^ 20 <=? zlen o) = false ->
      moves p (goes p (Emitting (with_out st (total st + 1) (sent st) o) pcs))
  | emits_full st pc pcs i l (o := out st ++ twin_line pc l) : main p = Emitting st (pc :: pcs) ->
      seen st !! pc = Some i -> get (locs st) i = Some l -> (2 ^ 20 <=? zlen o) = true ->
      moves p (goes p (Sending (with_out st (total st + 1) (sent st) []) o pcs))
  | emits_panic st pc pcs : main p = Emitting st (pc :: pcs) ->
      (forall l, (i ← or_panic (seen st !! pc); idx (locs st) i) <> Done l) -> moves p (panics p st)
  | sends st full pcs : main p = Sending st full pcs -> rx (out_ch p) = true ->
      moves p (MkPipe (reader p) (blocks_ch p) (Emitting (with_out st (total st) (sent st ++ [full]) (out st)) pcs)
        (MkChan (queue (out_ch p) ++ [full]) (tx (out_ch p)) true) (writer p))
  | send_refused st full pcs : main p = Sending st full pcs -> rx (out_ch p) = false -> moves p (goes p (Recv st))
  | closes_empty st : main p = Closing st -> out st = [] ->
      moves p (MkPipe (reader p) (blocks_ch p) (Joining st) (drop_tx (out_ch p)) (writer p))
  | closes_last st : main p = Closing st -> out st <> [] -> rx (out_ch p) = true ->
      moves p (MkPipe (reader p) (blocks_ch p) (Joining (with_out st (total st) (sent st ++ [out st]) []))
        (MkChan (queue (out_ch p) ++ [out st]) false true) (writer p))
  | close_refused st : main p = Closing st -> out st <> [] -> rx (out_ch p) = false ->
      moves p (MkPipe (reader p) (blocks_ch p) (Joining (with_out st (total st) (sent st) [])) (drop_tx (out_ch p)) (writer p))
  | joins st f : main p = Joining st -> writer p = Ended f ->
      moves p (MkPipe (reader p) (blocks_ch p) (Finished st) (out_ch p) (Ended (if total st =? 0 then None else f)))
  | creates : writer p = Creating ->
      moves p (MkPipe (reader p) (blocks_ch p) (main p) (out_ch p) (if create_ok d then Writes [] else Draining))
  | drains b q : writer p = Draining -> queue (out_ch p) = b :: q ->
      moves p (MkPipe (reader p) (blocks_ch p) (main p) (MkChan q (tx (out_ch p)) (rx (out_ch p))) Draining)
  | drains_end : writer p = Draining -> queue (out_ch p) = [] -> tx (out_ch p) = false ->
      moves p (MkPipe (reader p) (blocks_ch p) (main p) (drop_rx (out_ch p)) (Ended None))
  | writes w b q : writer p = Writes w -> queue (out_ch p) = b :: q -> write_ok d (length w) = true ->
      moves p (MkPipe (reader p) (blocks_ch p) (main p) (MkChan q (tx (out_ch p)) (rx (out_ch p))) (Writes (w ++ [b])))
  | write_fails w b q : writer p = Writes w -> queue (out_ch p) = b :: q -> write_ok d (length w) = false ->
      moves p (MkPipe (reader p) (blocks_ch p) (main p) (MkChan [] (tx (out_ch p)) false) (Ended (Some (landed d (concat (w ++ [b]))))))
  | writes_end w : writer p = Writes w -> queue (out_ch p) = [] -> tx (out_ch p) = false ->
      moves p (MkPipe (reader p) (blocks_ch p) (main p) (drop_rx (out_ch p)) (Ended (Some (landed d (concat w))))).

Lemma try_send_cases {A} cap (x : A) c c' ok : try_send cap x c = Some (c', ok) ->
  if ok then rx c = true /\ c' = MkChan (queue c ++ [x]) (tx c) true else rx c = false /\ c' = c.
Proof using. unfold try_send. destruct c as [q t []]; cbn; [case_match; [|done]|]; by intros [= <- <-]. Qed.

Lemma try_recv_cases {A} (c c' : Chan A) b : try_recv c = Some (b, c') ->
  match b with Some x => queue c = x :: queue c' /\ c' = MkChan (queue c') (tx c) (rx c) | None => queue c = [] /\ tx c = false /\ c' = c end.
Proof using. destruct c as [[|x q] [] r]; cbn; try done; by intros [= <- <-]. Qed.

Lemma step_moves t p p' : step ks detect d t p = Some p' -> moves p p'.
Proof using.
  destruct t; cbn [step]; unfold reader_turn, main_turn, writer_turn.
  - destruct (reader p) as [[|b bl]|] eqn:Hr; [intros [= <-]; by constructor| |done].
    destruct (try_send _ _ _) as [[c ok]|] eqn:Es; [|done]. apply try_send_cases in Es. cbn.
    destruct ok, Es as [? ->]; intros [= <-]; [by apply reads_block|by eapply reads_refused].
  - destruct (main p) as [st|st [|pc pcs]|st full pcs|st|st|st|st] eqn:Hm; try done.
    + destruct (try_recv _) as [[[b|] c]|] eqn:Er; [| |done]; apply try_recv_cases in Er; cbn; intros [= <-].
      * destruct Er as [Hq ->]. cbn [queue] in *. unfold on_block, goes, panics. cbn [reader blocks_ch out_ch writer]. case_bool_decide; [by eapply takes_nothing|].
        destruct (open_block _ _ _ _) eqn:Eo; [by eapply takes_block|by eapply takes_panic; [..|rewrite Eo]..].
      * destruct Er as (? & ? & ->). by apply takes_end.
    + intros [= <-]. by apply emits_end.
    + intros [= <-]. unfold on_pc. destruct (i ← or_panic (seen st !! pc); idx (locs st) i) eqn:E; [|by eapply emits_panic; [|rewrite E]..].
      unfold idx in E. destruct (seen st !! pc) as [i|] eqn:Ei; [|done]. cbn in E. destruct (get (locs st) i) eqn:El; [|done]. injection E as ->.
      destruct (2 ^ 20 <=? _) eqn:Eb; [by eapply emits_full|by eapply emits_line].
    + destruct (try_send _ _ _) as [[c ok]|] eqn:Es; [|done]. apply try_send_cases in Es. cbn.
      destruct ok, Es as [? ->]; intros [= <-]; [by apply sends|by eapply send_refused].
    + case_bool_decide; [intros [= <-]; by apply closes_empty|].
      destruct (try_send _ _ _) as [[c ok]|] eqn:Es; [|done]. apply try_send_cases in Es. cbn.
      destruct ok, Es as [? ->]; intros [= <-]; [by apply closes_last|by eapply close_refused].
    + destruct (writer p) eqn:Hw; try done. intros [= <-]. by eapply joins.
  - destruct (writer p) as [| |w|] eqn:Hw; [intros [= <-]; by apply creates| | |done];
      destruct (try_recv _) as [[[b|] c]|] eqn:Er; try done; apply try_recv_cases in Er; cbn.
    + destruct Er as [? ->]. intros [= <-]. by eapply drains.
    + destruct Er as (? & ? & ->). intros [= <-]. by apply drains_end.
    + destruct Er as [? ->]. cbn [queue] in *. destruct (write_ok _ _) eqn:?; intros [= <-]; [by eapply writes|by eapply write_fails].
    + destruct Er as (? & ? & ->). intros [= <-]. by apply writes_end.
Qed.

(** Every move keeps the ends in order and leaves less to do. *)
Lemma moves_wired p p' : moves p p' -> wired p -> wired p'.
Proof using. intros Hm [H1 H2 H3 H4]. destruct Hm; constructor; cbn; repeat match goal with H : reader _ = _ |- _ => rewrite H in * | H : main _ = _ |- _ => rewrite H in * | H : writer _ = _ |- _ => rewrite H in * end; cbn in *; try congruence. by destruct (create_ok d). Qed.

Lemma moves_work p p' : moves p p' -> (work p' < work p)%nat.
Proof using.
  unfold work. destruct 1; cbn [reader blocks_ch main out_ch writer goes panics drop_tx drop_rx queue];
    repeat match goal with H : reader _ = _ |- _ => rewrite H | H : main _ = _ |- _ => rewrite H | H : writer _ = _ |- _ => rewrite H | H : queue _ = _ |- _ => rewrite H end;
    rewrite ?length_app, ?sum_list_with_app; cbn [sum_list_with length loop_work]; unfold block_work; repeat case_match; simplify_eq; lia.
Qed.

(** A pipe where no thread can move is over. *)
Lemma blocked_ended p : wired p -> (forall t, step ks detect d t p = None) -> ended p.
Proof using.
  intros [H1 H2 H3 H4] H. pose proof (H Reader) as Hr. pose proof (H Main) as Hm. pose proof (H Writer) as Hw. clear H.
  cbn [step] in *. unfold reader_turn, main_turn, writer_turn, try_send, try_recv in *.
  assert (exists f, writer p = Ended f) as [f Ef].
  { destruct (writer p); [done|..|by eexists]; exfalso;
      destruct (queue (out_ch p)) as [|x q] eqn:Eq; [|repeat case_match; discriminate|..|repeat case_match; discriminate];
      rewrite H4, H3 in *; (destruct (main p) as [st|st [|pc pcs]|st full pcs|st|st|st|st]; cbn in *; try done; [|repeat case_match; done]);
      (destruct (queue (blocks_ch p)) eqn:Eb; [|done]); rewrite H1 in *; (destruct (reader p) as [[|b bl]|]; [done| |done]);
      rewrite H2 in *; done. }
  rewrite Ef in *. cbn in H4. rewrite H4 in Hm. cbn in Hm.
  destruct (main p) as [st|st [|pc pcs]|st full pcs|st|st|st|st] eqn:Em; try done; cbn in H2, Hm; try (case_bool_decide; done).
  - destruct (queue (blocks_ch p)) eqn:Eb; [|done]. rewrite H1 in Hm. destruct (reader p) as [[|b bl]|]; [done| |done]. rewrite H2 in Hr. done.
  - split; [|split; [by rewrite Em|by exists f]]. destruct (reader p) as [[|b bl]|]; [done| |done]. rewrite H2 in Hr. done.
  - split; [|split; [by rewrite Em|by exists f]]. destruct (reader p) as [[|b bl]|]; [done| |done]. rewrite H2 in Hr. done.
Qed.

(** * Schedules *)

Definition fair (round : list Thread) : Prop := Reader ∈ round /\ Main ∈ round /\ Writer ∈ round.

Lemma exec_app l l' p : exec ks detect d (l ++ l') p = exec ks detect d l' (exec ks detect d l p).
Proof using. revert p. induction l as [|t l IH]; intros p; [done|]. apply IH. Qed.

Lemma exec_ind (P : Pipe S -> Prop) l p : (forall p p', moves p p' -> P p -> P p') -> P p -> P (exec ks detect d l p).
Proof using.
  intros H. revert p. induction l as [|t l IH]; intros p Hp; [done|]. cbn [exec]. apply IH.
  destruct (step ks detect d t p) as [p'|] eqn:E; [|done]. eapply H; [by eapply step_moves|done].
Qed.

Lemma exec_cases l p : (exec ks detect d l p = p /\ forall t, t ∈ l -> step ks detect d t p = None) \/ (work (exec ks detect d l p) < work p)%nat.
Proof using.
  revert p. induction l as [|t l IH]; intros p; [left; split; [done|]; set_solver|]. cbn [exec].
  destruct (step ks detect d t p) as [p'|] eqn:E; cbn [default from_option].
  - change (id p') with p'. right. apply step_moves, moves_work in E. destruct (IH p') as [[-> _]|H]; lia.
  - destruct (IH p) as [[H1 H2]|H]; [left|by right]. split; [done|]. intros u [->|Hu]%elem_of_cons; [done|by apply H2].
Qed.

Lemma ended_exec l p : ended p -> exec ks detect d l p = p.
Proof using.
  intros (H1 & H2 & f & H3). induction l as [|t l IH]; [done|]. cbn [exec]. replace (step ks detect d t p) with (@None (Pipe S)); [exact IH|].
  destruct t; cbn [step]; unfold reader_turn, main_turn, writer_turn; rewrite ?H1, ?H3; [done| |done]. by destruct (main p).
Qed.

(** A schedule with as many rounds as there is work ends, whatever else it holds. *)
Lemma rounds_end rounds p : wired p -> Forall fair rounds -> (work p <= length rounds)%nat -> ended (exec ks detect d (concat rounds) p).
Proof using.
  intros Hw Hf. revert p Hw. induction Hf as [|r rounds (H1 & H2 & H3) _ IH]; intros p Hw Hl; cbn [concat length] in *.
  - apply blocked_ended; [done|]. intros t. destruct (step ks detect d t p) eqn:E; [|done]. apply step_moves, moves_work in E. lia.
  - rewrite exec_app. destruct (exec_cases r p) as [[E H]|H].
    + assert (ended p) as He by (apply blocked_ended; [done|]; intros []; by apply H). rewrite E. by rewrite ended_exec.
    + apply IH; [|lia]. apply exec_ind; [intros; by eapply moves_wired|done].
Qed.

(** * What is on the disk *)

Definition stream_of (m : Loop S) : Stream S :=
  match m with Recv st | Emitting st _ | Sending st _ _ | Closing st | Joining st | Finished st | Panicked st => st end.
Definition pieces (p : Pipe S) : list (list Z) := sent (stream_of (main p)).

(** The writer has the first pieces sent, the channel the others; a twin left
    by a finished writer is a prefix of the pieces. *)
Definition filed (p : Pipe S) : Prop :=
  match writer p with
  | Creating => queue (out_ch p) = pieces p
  | Draining => create_ok d = false
  | Writes w => create_ok d = true /\ w ++ queue (out_ch p) = pieces p
  | Ended f =>
      (forall t, f = Some t -> t `prefix_of` concat (pieces p)) /\
      (takes_all d -> writing (main p) = false /\ (f = Some (concat (pieces p)) \/ (exists st, main p = Finished st /\ total st = 0)))
  end.

Lemma open_block_sent st pcs st' : open_block ks detect st pcs = Done st' ->
  sent st' = sent st /\ out st' = out st /\ total st' = total st.
Proof using.
  unfold open_block. destruct (match offset st with Some _ => _ | None => _ end) as [[s off]| | |]; try done. cbn [mbind outcome_bind].
  destruct (collect _ _ _ _) as [[sn un] fresh]. unfold resolve_fresh. case_bool_decide; [by intros [= <-]|].
  destruct (symbolize _ _) as [[s' r]| | |]; try done. by intros [= <-].
Qed.

Lemma prefix_concat (l k : list (list Z)) : l `prefix_of` k -> concat l `prefix_of` concat k.
Proof using. intros [x ->]. rewrite concat_app. by eexists. Qed.

Lemma moves_filed {L : DiskLaws d} p p' : moves p p' -> wired p -> filed p -> filed p'.
Proof using.
  intros Hm [H1 H2 H3 H4]. unfold filed, pieces.
  destruct Hm; cbn [writer main out_ch queue goes panics stream_of sent with_out drop_tx drop_rx];
    repeat match goal with
      | H : reader _ = _ |- _ => rewrite H in * | H : main _ = _ |- _ => rewrite H in *
      | H : writer _ = _ |- _ => rewrite H in * | H : queue (out_ch _) = _ |- _ => rewrite H in *
      | H : open_block _ _ _ _ = Done _ |- _ => apply open_block_sent in H as (-> & _)
      end; cbn in *; try done.
  (* the moves of the loop *)
  all: try (revert H4; destruct (writer p) as [| |w|]; intros H4 F; cbn in H4; [congruence|done|destruct F as [? F2]; split; [done|]; by rewrite ?app_assoc, F2|];
    first [exfalso; congruence | destruct F as [F1 F2]; split; [done|]; intros T; by destruct (F2 T)]).
  - intros [F1 F2]. split; [intros t; destruct (total st =? 0); [discriminate|apply F1]|]. intros T. destruct (F2 T) as [_ [->|(st0 & ? & ?)]]; [|done].
    split; [done|]. destruct (Z.eqb_spec (total st) 0); [right; by exists st|by left].
  - intros F. by destruct (create_ok d).
  - intros F. split; [done|]. intros (T & _). congruence.
  - rewrite <- app_assoc. done.
  - intros [_ <-]. split; [|intros (_ & T & _); congruence]. intros t [= <-]. etrans; [apply landed_prefix|]. apply prefix_concat.
    change (b :: q) with ([b] ++ q). rewrite app_assoc. by eexists.
  - rewrite app_nil_r. intros [_ <-]. split; [intros t [= <-]; apply landed_prefix|]. intros (_ & _ & T). split; [congruence|]. left. by rewrite T.
Qed.
End Progress.

(** * The loop computes what the sequential report computes *)

Section Refines.
Context {S : Type} {R : Resolver S}.
Context (ks : list Z) (detect : S -> list Z -> outcome (S * Z)) (d : Disk) (send_ok : nat -> bool).

(** The stream after the last piece is sent. *)
Definition close (st : Stream S) : Stream S :=
  match out st with
  | [] => st
  | o => with_out st (total st) (if send_ok (length (sent st)) then sent st ++ [o] else sent st) []
  end.

(** What is left of the sequential report, with the blocks still to come. *)
Definition rest_of (m : Loop S) (bl : list (list Z)) : outcome (Stream S) :=
  let run st := st ← fold_m (block_step ks detect send_ok) bl st; Done (close st) in
  let emitting st pcs := '(t, s, o) ← emit send_ok (seen st) (locs st) pcs (total st) (sent st) (out st); run (with_out st t s o) in
  match m with
  | Recv st => run st
  | Emitting st pcs => emitting st pcs
  | Sending st full pcs =>
      if send_ok (length (sent st)) then emitting (with_out st (total st) (sent st ++ [full]) (out st)) pcs else run st
  | Closing st => Done (close st)
  | Joining st | Finished st => Done st
  | Panicked _ => Panic
  end.

Definition pending (p : Pipe S) : list (list Z) := queue (blocks_ch p) ++ default [] (reader p).

(** A move sends as [send_ok] says. *)
Definition agrees (p p' : Pipe S) : Prop :=
  match main p, main p' with
  | Sending st _ _, Emitting _ _ => send_ok (length (sent st)) = true
  | Sending st _ _, Recv _ => send_ok (length (sent st)) = false
  | Closing st, Joining _ => out st <> [] -> send_ok (length (sent st)) = rx (out_ch p)
  | _, _ => True
  end.

Lemma rest_of_late m bl bl' : receiving m = false -> rest_of m bl = rest_of m bl'.
Proof using. by destruct m. Qed.

Lemma close_nil st : out st = [] -> close st = st.
Proof using. intros E. unfold close. by rewrite E. Qed.

Lemma close_last st : out st <> [] ->
  close st = with_out st (total st) (if send_ok (length (sent st)) then sent st ++ [out st] else sent st) [].
Proof using. unfold close. by destruct (out st). Qed.

Lemma close_out st : close st = with_out st (total st) (sent (close st)) (out (close st)).
Proof using. unfold close. destruct st as [r sn un ps ls off t s [|c o]]; done. Qed.

Lemma block_step_open st b : block_step ks detect send_ok st b =
  if bool_decide (parse_pcs b = []) then Done st else
  st ← open_block ks detect st (parse_pcs b);
  '(t, s, o) ← emit send_ok (seen st) (locs st) (parse_pcs b) (total st) (sent st) (out st); Done (with_out st t s o).
Proof using. done. Qed.

Lemma emit_at sn ls pc pcs i l t s o : sn !! pc = Some i -> get ls i = Some l -> emit send_ok sn ls (pc :: pcs) t s o =
  let o := o ++ twin_line pc l in
  if 2 ^ 20 <=? zlen o then if send_ok (length s) then emit send_ok sn ls pcs (t + 1) (s ++ [o]) [] else Done (t + 1, s, [])
  else emit send_ok sn ls pcs (t + 1) s o.
Proof using. intros H1 H2. cbn [emit]. rewrite H1. cbn [or_panic mbind outcome_bind]. unfold idx. by rewrite H2. Qed.

Lemma moves_rest p p' x : moves ks detect d p p' -> wired p -> agrees p p' ->
  rest_of (main p) (pending p) = Done x -> rest_of (main p') (pending p') = Done x.
Proof using.
  intros Hm [H1 H2 H3 H4]. unfold pending, agrees. destruct Hm; cbn [writer main out_ch blocks_ch reader queue goes panics drop_tx drop_rx default];
    repeat match goal with
      | H : reader _ = _ |- _ => rewrite H in * | H : main _ = _ |- _ => rewrite H in *
      | H : queue (blocks_ch _) = _ |- _ => rewrite H in *
      end; try done; intros Ha.
  - by rewrite <- app_assoc.
  - intros <-. apply rest_of_late. congruence.
  - unfold rest_of. cbn [app fold_m]. rewrite block_step_open, bool_decide_eq_true_2 by done. done.
  - unfold rest_of. cbn [app fold_m]. rewrite block_step_open, bool_decide_eq_false_2 by done.
    match goal with H : open_block _ _ _ _ = Done _ |- _ => rewrite H end. cbn [mbind outcome_bind].
    by destruct (emit _ _ _ _ _ _ _) as [[[t s] o]| | |].
  - unfold rest_of. cbn [app fold_m]. rewrite block_step_open, bool_decide_eq_false_2 by done.
    destruct (open_block _ _ _ _) eqn:E; try done. naive_solver.
  - destruct (reader p); [congruence|]. done.
  - unfold rest_of. cbn [emit mbind outcome_bind]. by destruct st.
  - unfold rest_of. rewrite (emit_at _ _ pc pcs i l) by done. subst o. cbn zeta. match goal with H : (_ <=? _) = _ |- _ => by rewrite H end.
  - unfold rest_of. rewrite (emit_at _ _ pc pcs i l) by done. subst o. cbn zeta. match goal with H : (_ <=? _) = _ |- _ => rewrite H end.
    cbn [with_out sent]. by destruct (send_ok _).
  - unfold rest_of. cbn [emit]. destruct (or_panic (seen st !! pc)) as [i| | |] eqn:E1; try done. cbn [mbind outcome_bind] in *.
    destruct (idx (locs st) i) as [l| | |] eqn:E2; try done. exfalso. naive_solver.
  - unfold rest_of. by rewrite Ha.
  - unfold rest_of. by rewrite Ha.
  - unfold rest_of. by rewrite close_nil.
  - unfold rest_of. rewrite close_last, Ha by done. by match goal with H : rx _ = true |- _ => rewrite H end.
  - unfold rest_of. rewrite close_last, Ha by done. by match goal with H : rx _ = false |- _ => rewrite H end.
Qed.

Lemma exec_rest (G : list Thread -> Pipe S -> Prop) l p x :
  (forall t l p, G (t :: l) p -> wired p ->
     match step ks detect d t p with Some p' => agrees p p' /\ G l p' | None => G l p end) ->
  G l p -> wired p -> rest_of (main p) (pending p) = Done x ->
  let pf := exec ks detect d l p in rest_of (main pf) (pending pf) = Done x.
Proof using.
  intros Hs. revert p. induction l as [|t l IH]; intros p Hg Hw Hr; [done|]. cbn [exec]. specialize (Hs t l p Hg Hw).
  destruct (step ks detect d t p) as [p'|] eqn:E; cbn [default from_option]; [|by apply IH]. destruct Hs as [Ha Hg']. apply step_moves in E.
  apply IH; [done|by eapply moves_wired|by eapply moves_rest].
Qed.
End Refines.

(** * Refused pieces only shorten the twin *)

Section Lags.
Context {S : Type} {R : Resolver S}.
Context (ks : list Z) (detect : S -> list Z -> outcome (S * Z)) (m : nat).
Definition all_sent (n : nat) : bool := true.
Definition first_sent (n : nat) : bool := (n <? m)%nat.

(** The loop's counters when only the first [m] pieces are accepted, next to
    those when all are. *)
Definition lag (t : Z) (s : list (list Z)) (o : list Z) (t' : Z) (s' : list (list Z)) (o' : list Z) : Prop :=
  0 <= t /\ 0 <= t' /\ (t = 0 <-> t' = 0) /\
  ((s = s' /\ o = o' /\ (length s <= m)%nat) \/ (length s = m /\ s `prefix_of` s')).

Definition lags (st st' : Stream S) : Prop :=
  exists t' s' o', st' = with_out st t' s' o' /\ lag (total st) (sent st) (out st) t' s' o'.

Lemma emit_grows sn ls pcs t s o t' s' o' : emit all_sent sn ls pcs t s o = Done (t', s', o') ->
  t' = t + zlen pcs /\ s `prefix_of` s'.
Proof using.
  revert t s o. induction pcs as [|pc pcs IH]; intros t s o; cbn [emit]; [intros [= <- <- <-]; rewrite Z.add_0_r; by split|].
  destruct (or_panic (sn !! pc)) as [i| | |]; try done. cbn [mbind outcome_bind]. destruct (idx ls i) as [l| | |]; try done. cbn [mbind outcome_bind].
  rewrite zlen_cons. destruct (2 ^ 20 <=? _); intros [-> H]%IH; (split; [lia|]); [|done]. etrans; [by eexists|exact H].
Qed.

Lemma emit_lags sn ls pcs t s o t1 s1 o1 t' s' o' : lag t s o t1 s1 o1 -> emit all_sent sn ls pcs t1 s1 o1 = Done (t', s', o') ->
  exists t2 s2 o2, emit first_sent sn ls pcs t s o = Done (t2, s2, o2) /\ lag t2 s2 o2 t' s' o'.
Proof using.
  revert t s o t1 s1 o1. induction pcs as [|pc pcs IH]; intros t s o t1 s1 o1 Hl; [intros [= <- <- <-]; by exists t, s, o|].
  destruct (sn !! pc) as [i|] eqn:Ei; [|cbn [emit]; by rewrite Ei]. destruct (get ls i) as [l|] eqn:El.
  2: { cbn [emit]. rewrite Ei. cbn [or_panic mbind outcome_bind]. unfold idx. by rewrite El. }
  rewrite !(emit_at _ _ _ pc pcs i l) by done. cbn zeta. destruct Hl as (H0 & H1 & H2 & H). unfold first_sent at 1.
  pose proof (zlen_nonneg pcs) as Hz. intros E.
  assert (forall s o s1 o1, (s = s1 /\ o = o1 /\ (length s <= m)%nat) \/ (length s = m /\ s `prefix_of` s1) -> lag (t + 1) s o (t1 + 1) s1 o1) as Hn
    by (intros ? ? ? ? Hc; split; [lia|]; split; [lia|]; split; [lia|]; exact Hc).
  destruct H as [(<- & <- & Hm)|[Hm Hp]].
  - destruct (2 ^ 20 <=? _); [|eapply IH; [|exact E]; apply Hn; by left].
    destruct (Nat.ltb_spec (length s) m) as [Hlt|Hge].
    + eapply IH; [|exact E]. apply Hn. left. rewrite length_app. cbn. split; [done|]. split; [done|lia].
    + apply emit_grows in E as [-> E]. do 3 eexists. split; [done|]. split; [lia|]. split; [lia|]. split; [lia|]. right. split; [lia|].
      etrans; [by eexists|exact E].
  - rewrite Hm, Nat.ltb_irrefl. destruct (2 ^ 20 <=? zlen (o ++ _)).
    + assert (t' = t1 + 1 + zlen pcs /\ s1 `prefix_of` s') as [-> Hg].
      { destruct (2 ^ 20 <=? _); apply emit_grows in E as [-> E]; (split; [done|]); [|done]. etrans; [by eexists|exact E]. }
      do 3 eexists. split; [done|]. split; [lia|]. split; [lia|]. split; [lia|]. right. split; [done|]. by etrans.
    + destruct (2 ^ 20 <=? zlen (o1 ++ _)); (eapply IH; [|exact E]); apply Hn; right; (split; [done|]); [|done]. etrans; [exact Hp|by eexists].
Qed.

Lemma open_block_out st pcs t s o : open_block ks detect (with_out st t s o) pcs =
  (st ← open_block ks detect st pcs; Done (with_out st t s o)).
Proof using.
  unfold open_block. cbn [with_out offset resolver seen uniq]. destruct (match offset st with Some _ => _ | None => _ end) as [[s1 off]| | |]; try done.
  cbn [mbind outcome_bind]. destruct (collect _ _ _ _) as [[sn un] fresh]. unfold resolve_fresh. cbn [with_out pairs locs total sent out].
  case_bool_decide; [done|]. by destruct (symbolize _ _) as [[s2 r]| | |].
Qed.

Lemma block_lags st st' b r' : lags st st' -> block_step ks detect all_sent st' b = Done r' ->
  exists r, block_step ks detect first_sent st b = Done r /\ lags r r'.
Proof using.
  intros (t' & s' & o' & -> & Hl). rewrite !block_step_open. case_bool_decide; [intros [= <-]; exists st; split; [done|]; by exists t', s', o'|].
  rewrite open_block_out. destruct (open_block _ _ _ _) as [st1| | |] eqn:Eo; try done. cbn [mbind outcome_bind].
  apply open_block_sent in Eo as (Hs & Ho & Ht). cbn [with_out seen locs total sent out].
  destruct (emit all_sent _ _ _ _ _ _) as [[[t1 s1] o1]| | |] eqn:E; try done. intros [= <-].
  rewrite <- Hs, <- Ho, <- Ht in Hl. destruct (emit_lags _ _ _ _ _ _ _ _ _ _ _ _ Hl E) as (t2 & s2 & o2 & -> & Hl2).
  eexists. split; [reflexivity|]. exists t1, s1, o1. by split.
Qed.

Lemma fold_lags bl st st' r' : lags st st' -> fold_m (block_step ks detect all_sent) bl st' = Done r' ->
  exists r, fold_m (block_step ks detect first_sent) bl st = Done r /\ lags r r'.
Proof using.
  revert st st'. induction bl as [|b bl IH]; intros st st' Hl; cbn [fold_m]; [intros [= <-]; by exists st|].
  destruct (block_step _ _ all_sent _ _) as [r1| | |] eqn:E; try done. destruct (block_lags _ _ _ _ Hl E) as (r & -> & Hr). by apply IH.
Qed.

Lemma close_lags st st' : lags st st' -> sent (close first_sent st) `prefix_of` sent (close all_sent st').
Proof using.
  intros (t' & s' & o' & -> & _ & _ & _ & H). unfold close. cbn [with_out sent out total all_sent].
  assert (s' `prefix_of` sent (match o' with [] => with_out st t' s' o' | _ => with_out (with_out st t' s' o') t' (s' ++ [o']) [] end)) as Hp
    by (destruct o'; [done|by eexists]).
  destruct H as [(<- & <- & _)|[Hm H]]; unfold first_sent.
  - destruct (out st); [done|]. cbn [with_out sent]. destruct (_ <? _)%nat; [done|by eexists].
  - rewrite Hm, Nat.ltb_irrefl. destruct (out st), o'; cbn [with_out sent] in *; by etrans.
Qed.
End Lags.

(** * Every schedule reports the same *)

Section Schedules.
Context {S : Type} {R : Resolver S}.
Context (ks : list Z) (detect : S -> list Z -> outcome (S * Z)) (d : Disk).

Lemma start_wired blocks (s : S) : wired (start_pipe blocks s).
Proof using. done. Qed.

Lemma moves_pieces p p' : moves ks detect d p p' -> (length (pieces p) <= length (pieces p'))%nat /\
  (rx (out_ch p) = false -> rx (out_ch p') = false /\ pieces p' = pieces p).
Proof using.
  unfold pieces. destruct 1; cbn [main out_ch rx goes panics stream_of sent with_out drop_tx drop_rx];
    repeat match goal with
      | H : main _ = _ |- _ => rewrite H in * | H : open_block _ _ _ _ = Done _ |- _ => apply open_block_sent in H as (-> & _)
      end; cbn [stream_of]; rewrite ?length_app; (split; [lia|]); intros; first [by split|congruence].
Qed.

Lemma exec_pieces l p : let pf := exec ks detect d l p in
  (length (pieces p) <= length (pieces pf))%nat /\ (rx (out_ch p) = false -> pieces pf = pieces p).
Proof using.
  cbn zeta. split.
  - apply (exec_ind _ _ _ (fun q => (length (pieces p) <= length (pieces q))%nat)); [|done]. intros q q' H%moves_pieces. lia.
  - intros Hp. apply (exec_ind _ _ _ (fun q => rx (out_ch q) = false /\ pieces q = pieces p)); [|by split].
    intros q q' H%moves_pieces [Hq <-]. by apply H.
Qed.

(** The loop of a schedule sends as if the first pieces were accepted, as many
    as it got rid of. *)
Lemma agrees_first p p' l : moves ks detect d p p' -> agrees (first_sent (length (pieces (exec ks detect d l p')))) p p'.
Proof using.
  pose proof (exec_pieces l p') as [H1 H2]. cbn zeta in *. unfold agrees. intros Hm.
  destruct Hm; cbn [main out_ch goes panics pieces stream_of sent with_out] in *;
    repeat match goal with H : main _ = _ |- _ => rewrite H in * end; cbn [pieces stream_of main sent with_out out_ch goes] in *; try done;
    try (destruct (main p); done); unfold pieces in *; cbn [main stream_of sent with_out] in *; unfold first_sent.
  - rewrite length_app in H1. cbn [length] in H1. apply Nat.ltb_lt. lia.
  - rewrite H2 by done. apply Nat.ltb_irrefl.
  - intros _. rewrite length_app in H1. cbn [length] in H1. match goal with H : rx _ = true |- _ => rewrite H end. apply Nat.ltb_lt. lia.
  - intros _. rewrite H2 by done. match goal with H : rx _ = false |- _ => rewrite H end. apply Nat.ltb_irrefl.
Qed.

(** A disk that takes everything accepts every piece. *)
Lemma agrees_all p p' : takes_all d -> wired p -> filed d p -> moves ks detect d p p' -> agrees all_sent p p'.
Proof using.
  intros T [_ _ _ H4] F Hm. unfold agrees. assert (writing (main p) = true -> rx (out_ch p) = true) as Hrx.
  { intros Hw. rewrite H4. unfold filed in F. destruct (writer p); try done. destruct F as [_ F]. destruct (F T). congruence. }
  destruct Hm; cbn [main goes panics]; repeat match goal with H : main _ = _ |- _ => rewrite H in * end; try done; try (by destruct (main p)); cbn in Hrx.
  - by rewrite Hrx in *.
  - intros _. by rewrite Hrx.
Qed.

Lemma moves_removed p p' : moves ks detect d p p' ->
  (forall st, main p = Finished st -> total st = 0 -> writer p = Ended None) -> forall st, main p' = Finished st -> total st = 0 -> writer p' = Ended None.
Proof using.
  intros Hm H st. destruct Hm; cbn [main writer goes panics]; try done; try (by apply H); intros E Ht; try (specialize (H st E Ht); congruence).
  injection E as <-. by rewrite Ht.
Qed.

Lemma finish_out (f : nat -> bool) (st st' : Stream S) t s o r : finish ks f st = Done (Some r) -> st' = with_out st t s o -> t <> 0 ->
  exists r', finish ks f st' = Done (Some r') /\ source r' = source r /\ assembly r' = assembly r.
Proof using.
  intros H -> Ht. unfold finish in *. cbn [with_out total uniq pairs] in *. rewrite (proj2 (Z.eqb_neq t 0)) by done.
  destruct (total st =? 0); [done|]. destruct (in_order _ _); try done. cbn [mbind outcome_bind] in *. injection H as <-. eexists. by split.
Qed.
End Schedules.

(** The end of a schedule, against the sequential run: with as many accepted
    pieces as were sent, and with all of them if the disk takes everything. *)
Lemma pipeline_streams {S : Type} {R : Resolver S} (ks : list Z) (detect : S -> list Z -> outcome (S * Z)) (d : Disk) {L : DiskLaws d}
    (s : S) blocks st1 rounds : Forall fair rounds -> (work (start_pipe blocks s) <= length rounds)%nat ->
  fold_m (block_step ks detect all_sent) blocks (start_stream s) = Done st1 ->
  let p := exec ks detect d (concat rounds) (start_pipe blocks s) in
  exists st f, reader p = None /\ main p = Finished st /\ writer p = Ended f /\ filed d p /\ (total st = 0 -> f = None) /\
    (exists t sn o, st = with_out st1 t sn o /\ (t = 0 <-> total st1 = 0) /\ sn `prefix_of` sent (close all_sent st1)) /\
    (takes_all d -> st = close all_sent st1).
Proof.
  intros Hf Hw E1 p. assert (wired (start_pipe blocks s)) as Hws by apply start_wired.
  destruct (rounds_end ks detect d rounds _ Hws Hf Hw) as (Hr & Hm & f & Hwr). fold p in Hr, Hm, Hwr.
  set (m := length (pieces p)).
  destruct (fold_lags ks detect m blocks (start_stream s) (start_stream s) st1) as (st2 & E2 & Hlag); [|exact E1|].
  { exists 0, [], []. split; [done|]. split; [done|]. split; [done|]. split; [done|]. left. cbn. split; [done|]. split; [done|lia]. }
  assert (forall sk x, fold_m (block_step ks detect sk) blocks (start_stream s) = Done x ->
    rest_of ks detect sk (main (start_pipe blocks s)) (pending (start_pipe blocks s)) = Done (close sk x)) as Hstart by (intros sk x E; cbn; by rewrite E).
  assert (rest_of ks detect (first_sent m) (main p) (pending p) = Done (close (first_sent m) st2)) as Hx.
  { apply (exec_rest ks detect d _ (fun l q => exec ks detect d l q = p)); [|done|done|by apply Hstart].
    intros t l q Hq _. cbn [exec] in Hq. destruct (step ks detect d t q) as [q'|] eqn:E; cbn [default from_option] in Hq; [|done]. split; [|done].
    change (exec ks detect d l q' = p) in Hq. unfold m. rewrite <- Hq. by eapply agrees_first, step_moves. }
  destruct (main p) as [| | | | |st|] eqn:Em; try done. cbn [rest_of] in Hx. injection Hx as ->.
  assert (wired p /\ filed d p) as [_ Hfiled].
  { apply exec_ind; [|done]. intros q q' Hq [? ?]. split; [by eapply moves_wired|by eapply moves_filed]. }
  eexists _, f. split; [done|]. split; [done|]. split; [done|]. split; [done|]. split; [|split].
  - intros Ht. assert (forall st, main p = Finished st -> total st = 0 -> writer p = Ended None) as Hz.
    { apply (exec_ind _ _ _ (fun q => forall st, main q = Finished st -> total st = 0 -> writer q = Ended None)); [|done]. intros q q' Hq. by apply moves_removed with ks detect d. }
    specialize (Hz _ Em Ht). congruence.
  - exists (total (close (first_sent m) st2)), (sent (close (first_sent m) st2)), (out (close (first_sent m) st2)).
    assert (total (close (first_sent m) st2) = total st2) as -> by (unfold close; by destruct (out st2)).
    split; [|split; [|by apply close_lags]]; destruct Hlag as (t & sn & o & -> & H0 & H1 & H2 & _); [exact (close_out (first_sent m) st2)|done].
  - intros T. assert (rest_of ks detect all_sent (main p) (pending p) = Done (close all_sent st1)) as Hy; [|rewrite Em in Hy; by injection Hy].
    apply (exec_rest ks detect d _ (fun _ q => filed d q)); [|done|done|by apply Hstart].
    intros t l q Hq Hwq. destruct (step ks detect d t q) as [q'|] eqn:E; [|done]. apply step_moves in E. split; [by eapply agrees_all|by eapply moves_filed].
Qed.

(** C33: on every fair schedule, of any length and
    with the bounded channels ever so full, the reader, the loop and the twin
    writer all end, and what is reported is what the sequential report
    computes.  The disk can shorten the twin, and do nothing else: the covered
    lines are the same if the twin cannot be created or a write fails. *)
Theorem pipeline_report {S : Type} {R : Resolver S} (ok : S -> Prop) (Q : Z -> Pair -> Prop) (ks : list Z)
    (detect : S -> list Z -> outcome (S * Z)) (d : Disk) (s : S) (blocks : list (list Z)) (rounds : list (list Thread)) :
  Lawful S ok Q -> DiskLaws d -> (forall s l, ok s -> exists s' off, detect s l = Done (s', off) /\ ok s') -> ok s -> zlen (pcs_of blocks) < 2 ^ 32 ->
  Forall fair rounds -> (work (start_pipe blocks s) <= length rounds)%nat ->
  let p := exec ks detect d (concat rounds) (start_pipe blocks s) in
  exists st f, reader p = None /\ main p = Finished st /\ writer p = Ended f /\
    (pcs_of blocks = [] -> finish ks all_sent st = Done None /\ f = None) /\
    (pcs_of blocks <> [] -> exists r r', run_streaming ks detect all_sent s blocks = Done (Some r) /\ finish ks all_sent st = Done (Some r') /\
       source r' = source r /\ assembly r' = assembly r /\ (forall t, f = Some t -> t `prefix_of` twin r) /\ (takes_all d -> f = Some (twin r))).
Proof.
  intros HL HD Hdet Hs Hl Hf Hw p.
  destruct (stream_good ok Q ks detect all_sent Hdet (fun _ => eq_refl) s blocks Hs Hl) as (st1 & E1 & G).
  destruct (pipeline_streams ks detect d s blocks st1 rounds Hf Hw E1) as (st & f & Hr & Hm & Hwr & Hfiled & Hz & (t & sn & o & Est & Ht & Hp) & Hall).
  fold p in Hr, Hm, Hwr, Hfiled. exists st, f. split; [done|]. split; [done|]. split; [done|].
  pose proof (finish_good ok Q ks detect all_sent (fun _ => eq_refl) blocks st1 G) as Hfin.
  assert (total st = t) as Htot by by rewrite Est.
  assert (total st1 = 0 <-> pcs_of blocks = []) as Hzero.
  { rewrite (g_tot ok Q ks detect blocks st1 G). destruct (pcs_of blocks) as [|x l]; [done|]. rewrite zlen_cons. pose proof (zlen_nonneg l). split; [lia|done]. }
  split; intros Hpcs.
  - assert (total st = 0) as H0 by (rewrite Htot; by apply Ht, Hzero). split; [|by apply Hz]. unfold finish. by rewrite H0.
  - assert (t <> 0) as Hn by (intros H0; by apply Hpcs, Hzero, Ht).
    rewrite bool_decide_eq_false_2 in Hfin by done. destruct (finish_out ks all_sent _ _ _ _ _ _ Hfin Est Hn) as (r' & Hr' & H1 & H2).
    eexists _, r'. split; [unfold run_streaming; rewrite E1; exact Hfin|]. split; [done|]. split; [done|]. split; [done|].
    assert (twin (report_of ks (answer st1) (pcs_of blocks)) = concat (sent (close all_sent st1))) as ->.
    { cbn [report_of twin]. rewrite <- (g_out ok Q ks detect blocks st1 G). unfold close. destruct (out st1); [by rewrite app_nil_r|].
      cbn [with_out sent all_sent]. rewrite concat_app. cbn [concat]. by rewrite app_nil_r. }
    unfold filed, pieces in Hfiled. rewrite Hwr, Hm in Hfiled. cbn [stream_of] in Hfiled. destruct Hfiled as [F1 F2]. split.
    + intros x Hx. etrans; [by apply F1|]. apply prefix_concat. by rewrite Est.
    + intros T. destruct (F2 T) as [_ [->|(st0 & [= <-] & H0)]]; [by rewrite (Hall T)|congruence].
Qed.

(** * Witness *)

Definition whole_disk : Disk := MkDisk true (fun _ => true) (fun l => l).
(** A disk that is full after ten bytes. *)
Definition full_disk : Disk := MkDisk true (fun _ => false) (take 10).

#[export] Instance whole_disk_laws : DiskLaws whole_disk.
Proof. intros l. done. Qed.
#[export] Instance full_disk_laws : DiskLaws full_disk.
Proof. intros l. exists (drop 10 l). symmetry. apply take_drop. Qed.

Definition demo_blocks : list (list Z) := [bs "0x20" ++ 10 :: bs "0x10"; [10]; bs "0x10" ++ [10]; bs "0x30"].
Definition demo_pipe (d : Disk) (sched : list Thread) : Pipe unit :=
  exec (R := table_resolver sample_answer) (bs "/k") (fun s _ => Done (s, 0)) d sched (start_pipe demo_blocks tt).

Lemma pipeline_report_witness :
  let rounds := replicate 60 [Writer; Main; Reader] in let p := demo_pipe whole_disk (concat rounds) in
  (work (start_pipe demo_blocks tt) <= 60)%nat /\ takes_all whole_disk /\
  exists st f, reader p = None /\ main p = Finished st /\ writer p = Ended f /\
    (pcs_of demo_blocks = [] -> finish (bs "/k") all_sent st = Done None /\ f = None) /\
    (pcs_of demo_blocks <> [] -> exists r r',
       run_streaming (R := table_resolver sample_answer) (bs "/k") (fun s _ => Done (s, 0)) all_sent tt demo_blocks = Done (Some r) /\
       finish (bs "/k") all_sent st = Done (Some r') /\ source r' = source r /\ assembly r' = assembly r /\
       (forall t, f = Some t -> t `prefix_of` twin r) /\ (takes_all whole_disk -> f = Some (twin r))).
Proof.
  intros rounds p. split; [by apply Nat.leb_le|]. split; [done|].
  apply (pipeline_report (R := table_resolver sample_answer) (fun _ => True) (fun pc p => p = sample_answer pc) (bs "/k")
    (fun s _ => Done (s, 0)) whole_disk tt demo_blocks rounds);
    [apply table_lawful|apply whole_disk_laws|by intros s l _; exists s, 0|done|reflexivity| |].
  - apply Forall_replicate. unfold fair. set_solver.
  - by apply Nat.leb_le.
Defined.

(** The loop starved until the channel is full, on both disks. *)
Definition starved : list Thread := replicate 10 Reader ++ concat (replicate 60 [Reader; Main; Writer]).

Example demo_starved :
  reader (demo_pipe whole_disk (replicate 10 Reader)) = Some [bs "0x10" ++ [10]; bs "0x30"] /\
  writer (demo_pipe whole_disk starved) = Ended (Some (bs "0x20 entry arch/x86/entry.S:3" ++ [10] ++ bs "0x10 do_open fs/open.c:7" ++ [10]
    ++ bs "0x10 do_open fs/open.c:7" ++ [10] ++ bs "0x30 ??" ++ [10])) /\
  writer (demo_pipe full_disk starved) = Ended (Some (bs "0x20 entry")) /\
  (main (demo_pipe full_disk starved) = main (demo_pipe whole_disk starved)).
Proof. by vm_compute. Qed.
