(* ===== verification/ReportBackends.v ===== *)
(** report/resolve.rs: the two resolvers of the report, the external
    addr2line-compatible tool and the in-process symbolizer, as implementations
    of the interface of ReportStream.v, and the report over the latter.  The
    external program is a parameter.  Shown: a tool that stops early never
    shifts a later answer onto the wrong address, whatever the batches; the
    in-process resolver satisfies the contract on every opened vmlinux; and so
    reporting any log against any vmlinux never panics. *)
From S2P Require Import Prelude Text DwarfTables DwarfAranges DwarfUnit DwarfFuncs DwarfSymbolizer.
From S2P Require Import ReportLog ReportPaths ReportKaslr ReportStream.

(** * The external tool: [tool] maps the address lines written to its standard
    input to its standard output, [None] when it cannot be run. *)

Section External.
Context (tool : list (list Z) -> option (list Z)).

Definition pad_batch (v : list Pair) (want : nat) : list Pair :=
  take want (if (length v <? want)%nat then v ++ replicate (want - length v) unresolved else v).

Fixpoint pairs_of (ls : list (list Z)) : list Pair :=
  match ls with
  | func :: loc :: ls => (canonical_function func, loc) :: pairs_of ls
  | _ => []
  end.

Definition symbolize_batch (addrs : list (list Z)) : list Pair :=
  match tool addrs with
  | None => pad_batch [] (length addrs)
  | Some out => pad_batch (pairs_of (lines out)) (length addrs)
  end.

(** [chunks] *)
Fixpoint chunks_of {A} (fuel n : nat) (l : list A) : list (list A) :=
  match fuel, l with
  | O, _ | _, [] => []
  | S f, _ => take n l :: chunks_of f n (drop n l)
  end.

Definition GNU_ADDR2LINE_CHUNK : Z := 2048.

Definition symbolize_external (gnu : bool) (addrs : list (list Z)) : list Pair :=
  if gnu then concat (symbolize_batch <$> chunks_of (length addrs) (Z.to_nat GNU_ADDR2LINE_CHUNK) addrs) else symbolize_batch addrs.

Definition external (gnu : bool) : Resolver unit := fun s pcs =>
  Done (s, if bool_decide (pcs = []) then [] else symbolize_external gnu (hex_strings pcs)).
End External.

(** * The in-process symbolizer *)

Section InProcess.
Context `{UnstableSort}.

Fixpoint resolve_batch (force_full : bool) (s : Symbolizer) (c : Cache) (pcs : list Z) : outcome (Cache * list Pair) :=
  match pcs with
  | [] => Done (c, [])
  | pc :: pcs =>
      '(f, l, c) ← resolve force_full s c pc;
      '(c, r) ← resolve_batch force_full s c pcs;
      Done (c, (f, l) :: r)
  end.

Definition in_process (force_full : bool) : Resolver (Symbolizer * Cache) := fun '(d, c) pcs =>
  '(c, r) ← resolve_batch force_full d c pcs; Done ((d, c), r).
End InProcess.


(** [probe_locations] *)
Definition probe_locations {S} {R : Resolver S} (s : S) (pcs : list Z) : outcome (S * list (list Z)) :=
  mbind (M := outcome) (fun r : S * list Pair => Done (fst r, snd <$> snd r)) (symbolize s pcs).

(** * A tool that stops early *)

Section StopsEarly.
Context (g : list Z -> Pair).
Context (one_line : forall a, Forall line_char (fst (g a)) /\ Forall line_char (snd (g a))).

(** What the tool prints for a batch: two lines for each address. *)
Definition answer_lines (addrs : list (list Z)) : list (list Z) := concat ((fun a => [fst (g a); snd (g a)]) <$> addrs).

(** It answers by [g], but may not start, or be killed after any line. *)
Definition stops_early (tool : list (list Z) -> option (list Z)) : Prop :=
  forall addrs, tool addrs = None \/ exists k, tool addrs = Some (concat ((fun l => l ++ [10]) <$> take k (answer_lines addrs))).

Definition cleaned (p : Pair) : Pair := (canonical_function (fst p), snd p).

Lemma pairs_of_take k addrs : exists n, pairs_of (take k (answer_lines addrs)) = take n (cleaned ∘ g <$> addrs).
Proof using.
  unfold answer_lines. revert k. induction addrs as [|a addrs IH]; intros k; [exists 0%nat; cbn; by rewrite take_nil|].
  destruct k as [|[|k]]; [by exists 0%nat..|]. destruct (IH k) as [n Hn]. exists (S n). cbn [fmap list_fmap concat app take pairs_of]. f_equal. exact Hn.
Qed.

Lemma answer_lines_chars addrs : Forall (Forall line_char) (answer_lines addrs).
Proof using one_line.
  unfold answer_lines. induction addrs as [|a addrs IH]; [constructor|]. destruct (one_line a). cbn [fmap list_fmap concat app]. by repeat constructor.
Qed.

Lemma padded_prefix n (addrs : list (list Z)) :
  Forall2 (fun a p => p = cleaned (g a) \/ p = unresolved) addrs (pad_batch (take n (cleaned ∘ g <$> addrs)) (length addrs)).
Proof using.
  unfold pad_batch. revert n. induction addrs as [|a addrs IH]; intros n; [constructor|]. destruct n as [|n].
  - cbn. constructor; [by right|]. rewrite take_ge by (by rewrite length_replicate). clear IH. induction addrs; constructor; auto.
  - specialize (IH n). cbn [fmap list_fmap take length Nat.sub app] in *. change (S ?x <? S ?y)%nat with (x <? y)%nat.
    destruct (_ <? _)%nat; cbn [app take]; (constructor; [by left|exact IH]).
Qed.

Lemma batch_answers tool addrs : stops_early tool ->
  Forall2 (fun a p => p = cleaned (g a) \/ p = unresolved) addrs (symbolize_batch tool addrs).
Proof using one_line.
  intros Ht. unfold symbolize_batch. destruct (Ht addrs) as [-> | [k ->]]; [exact (padded_prefix 0 addrs)|].
  rewrite lines_concat_text by (apply Forall_take, answer_lines_chars). destruct (pairs_of_take k addrs) as [n ->]. apply padded_prefix.
Qed.

Lemma chunks_answers tool (Q : list Z -> Pair -> Prop) fuel n addrs : (forall l, Forall2 Q l (symbolize_batch tool l)) -> (0 < n)%nat ->
  (length addrs <= fuel)%nat -> Forall2 Q addrs (concat (symbolize_batch tool <$> chunks_of fuel n addrs)).
Proof using.
  intros Hq Hn. revert addrs. induction fuel as [|fuel IH]; intros addrs Hl; [destruct addrs; [constructor|cbn in Hl; lia]|].
  destruct addrs as [|a addrs]; [constructor|]. cbn [chunks_of fmap list_fmap concat].
  rewrite <- (take_drop n (a :: addrs)) at 1. apply Forall2_app; [apply Hq|]. apply IH. rewrite length_drop. cbn [length] in *. lia.
Qed.

(** An external tool that may fail to start or be
    killed after any line, in any of the batches it is fed, implements the
    resolver interface: every address is answered by the tool's own answer for
    it, clone suffix removed, or reported as unresolved; no answer moves to
    another address and none is missing. *)
Theorem external_keeps_addresses (tool : list (list Z) -> option (list Z)) (gnu : bool) : stops_early tool ->
  Lawful unit (R := external tool gnu) (fun _ => True)
    (fun pc p => p = cleaned (g (bs "0x" ++ fmt_hex pc)) \/ p = unresolved).
Proof using one_line.
  intros Ht s pcs _. unfold symbolize, external. exists s. eexists. split; [reflexivity|]. split; [done|].
  destruct (bool_decide_reflect (pcs = [])) as [->|Hn]; [split; [done|constructor]|].
  assert (Forall2 (fun a p => p = cleaned (g a) \/ p = unresolved) (hex_strings pcs) (symbolize_external tool gnu (hex_strings pcs))) as H.
  { unfold symbolize_external. destruct gnu; [|by apply batch_answers].
    apply chunks_answers; [intros; by apply batch_answers|unfold GNU_ADDR2LINE_CHUNK; lia|done]. }
  pose proof (Forall2_length _ _ _ H) as Hl. unfold hex_strings in Hl. rewrite length_fmap in Hl. split; [unfold hex_strings; lia|].
  unfold padded. replace (length pcs - _)%nat with 0%nat by (unfold hex_strings; lia). rewrite app_nil_r.
  exact (proj1 (Forall2_fmap_l _ _ _ _) H).
Qed.
End StopsEarly.

(** * The report over a vmlinux *)

Section Vmlinux.
Context `{UnstableSort}.

(** An answer the symbolizer gives, at some state of its caches. *)
Definition answered (ff : bool) (d : Symbolizer) (pc : Z) (p : Pair) : Prop :=
  exists c c', resolve ff d c pc = Done (fst p, snd p, c').

Lemma resolve_batch_answers ff d c pcs : symbolizer_ok d ->
  exists c' l, resolve_batch ff d c pcs = Done (c', l) /\ Forall2 (answered ff d) pcs l.
Proof using.
  intros Hd. revert c. induction pcs as [|pc pcs IH]; intros c; [by exists c, []|]. cbn [resolve_batch].
  pose proof (wp_resolve ff d c pc Hd) as Hr. destruct (resolve ff d c pc) as [[[f l] c1]| | |] eqn:E; try done. cbn [mbind outcome_bind].
  destruct (IH c1) as (c2 & r & -> & Hf). cbn [mbind outcome_bind]. exists c2, ((f, l) :: r). split; [done|]. constructor; [|done].
  by exists c, c1.
Qed.

Lemma in_process_lawful ff d : symbolizer_ok d ->
  Lawful (Symbolizer * Cache) (R := in_process ff) (fun s => fst s = d) (answered ff d).
Proof using.
  intros Hd [d' c] pcs Hs. cbn [fst] in Hs. subst d'. destruct (resolve_batch_answers ff d c pcs Hd) as (c' & l & E & Hf).
  exists (d, c'), l. unfold symbolize, in_process. rewrite E. pose proof (Forall2_length _ _ _ Hf) as Hl.
  split; [done|]. split; [done|]. split; [lia|]. unfold padded. replace (length pcs - length l)%nat with 0%nat by lia. by rewrite app_nil_r.
Qed.

(** [detect_offset] probing the symbolizer. *)
Definition detect_in (ff : bool) (kallsyms : option (list Z)) (s : Symbolizer * Cache) (pcs : list Z) : outcome ((Symbolizer * Cache) * Z) :=
  detect_offset kallsyms (address_of (parse_symtab (fst (symtab_raw (fst s))) (snd (symtab_raw (fst s)))))
    (probe_locations (R := in_process ff)) s pcs.

(** The streaming report of a log against the bytes of a vmlinux. *)
Definition report_vmlinux (ff : bool) (kallsyms : option (list Z)) (ks : list Z) (vmlinux : list Z) (blocks : list (list Z)) : outcome (option Report) :=
  d ← open vmlinux;
  run_streaming (R := in_process ff) ks (detect_in ff kallsyms) (fun _ => true) (d, ∅) blocks.

Lemma detect_in_total ff kallsyms d s pcs : symbolizer_ok d -> fst s = d ->
  exists s' off, detect_in ff kallsyms s pcs = Done (s', off) /\ fst s' = d.
Proof using.
  intros Hd Hs. pose proof (wp_detect_offset kallsyms (address_of (parse_symtab (fst (symtab_raw (fst s))) (snd (symtab_raw (fst s)))))
    (probe_locations (R := in_process ff)) (fun s => fst s = d)) as Hw. unfold detect_in.
  assert (forall s l, fst s = d -> wp (probe_locations (R := in_process ff) s l) (fun r => fst (fst r) = d) False) as Hp.
  { intros s0 l H0. unfold probe_locations. destruct (in_process_lawful ff d Hd s0 l H0) as (s1 & r & -> & H1 & _). exact H1. }
  specialize (Hw Hp s pcs Hs). destruct (detect_offset _ _ _ _ _) as [[s' off]| | |]; try done. exists s', off. by destruct Hw.
Qed.

(** C8: the report of a log against a vmlinux.  Whatever bytes the
    vmlinux, the log blocks and the kernel's symbol listing hold, the vmlinux is
    refused or the report ends normally: empty for a log without addresses, and
    otherwise the report of the log's addresses, in order, with one answer of
    the symbolizer per address, at the address less one common offset. *)
Theorem vmlinux_report (ff : bool) (kallsyms : option (list Z)) (ks vmlinux : list Z) (blocks : list (list Z)) :
  bytes_ok vmlinux -> zlen vmlinux < 2 ^ 63 -> zlen (pcs_of blocks) < 2 ^ 32 ->
  wp (report_vmlinux ff kallsyms ks vmlinux blocks) (fun r =>
    match r with
    | None => pcs_of blocks = []
    | Some rep => exists d off ans, open vmlinux = Done d /\ (forall pc, pc ∈ pcs_of blocks -> answered ff d (pc -₆₄ off) (ans pc)) /\
                    rep = report_of ks ans (pcs_of blocks)
    end) True.
Proof using.
  intros Hb Hl Hn. unfold report_vmlinux. pose proof (wp_open vmlinux Hb Hl) as Ho. destruct (open vmlinux) as [d| | |]; try done. cbn [mbind outcome_bind].
  destruct (@stream_report _ (in_process ff) (fun s => fst s = d) (answered ff d) (in_process_lawful ff d Ho) ks (detect_in ff kallsyms) (fun _ => true)
    (fun s l Hs => detect_in_total ff kallsyms d s l Ho Hs) (fun _ => eq_refl) (d, ∅) blocks eq_refl Hn) as [H0 H1].
  destruct (decide (pcs_of blocks = [])) as [E|E]; [by rewrite (H0 E)|]. destruct (H1 E) as (off & ans & _ & Ha & ->). cbn [wp]. by exists d, off, ans.
Qed.
End Vmlinux.

(** * Witnesses *)

(** A tool that answers two addresses and is killed in the third. *)
Definition sample_tool_answer (a : list Z) : Pair := (bs "f.isra.0", bs "a.c:1").

Definition dying_tool (addrs : list (list Z)) : option (list Z) :=
  Some (concat ((fun l => l ++ [10]) <$> take 5 (answer_lines sample_tool_answer addrs))).

Lemma external_keeps_addresses_witness :
  stops_early sample_tool_answer dying_tool /\
  symbolize_external dying_tool true (hex_strings [1; 2; 3; 4]) = [(bs "f", bs "a.c:1"); (bs "f", bs "a.c:1"); unresolved; unresolved] /\
  Lawful unit (R := external dying_tool true) (fun _ => True)
    (fun pc p => p = cleaned (sample_tool_answer (bs "0x" ++ fmt_hex pc)) \/ p = unresolved).
Proof.
  assert (stops_early sample_tool_answer dying_tool) as H by (intros addrs; right; by exists 5%nat).
  split; [exact H|]. split; [vm_compute; reflexivity|].
  apply (external_keeps_addresses sample_tool_answer); [|exact H].
  intros a. split; apply graph_line_char, text_word_check; reflexivity.
Defined.

Lemma vmlinux_report_witness :
  let blocks := [bs "0x1004" ++ [10]; bs "0x9999" ++ 10 :: bs "0x1004" ++ [10]] in
  bytes_ok tiny_file /\ zlen tiny_file < 2 ^ 63 /\ zlen (pcs_of blocks) < 2 ^ 32 /\
  (twin <$> (match report_vmlinux false None (bs "/k") tiny_file blocks with Done r => r | _ => None end)) =
    Some (bs "0x1004 ??" ++ 10 :: bs "0x9999 ??" ++ 10 :: bs "0x1004 ??" ++ [10]) /\
  wp (report_vmlinux false None (bs "/k") tiny_file blocks) (fun r =>
    match r with
    | None => pcs_of blocks = []
    | Some rep => exists d off ans, open tiny_file = Done d /\ (forall pc, pc ∈ pcs_of blocks -> answered false d (pc -₆₄ off) (ans pc)) /\
                    rep = report_of (bs "/k") ans (pcs_of blocks)
    end) True.
Proof.
  intros blocks. assert (bytes_ok tiny_file) as Hb by (apply (bool_decide_unpack (Forall (fun x => 0 <= x < 2 ^ 8) _)); vm_compute; exact I).
  split; [exact Hb|]. split; [vm_compute; reflexivity|]. split; [vm_compute; reflexivity|]. split; [vm_compute; reflexivity|].
  apply (vmlinux_report false None (bs "/k") tiny_file blocks); [exact Hb|vm_compute; reflexivity|vm_compute; reflexivity].
Defined.
