(* ===== verification/ReportRender.v ===== *)
(** report/terminal.rs and report/html.rs: the excerpts of covered source.

    Both renderers walk the same hunks; [hunk_rows] is that walk and each
    printer maps its rows to text.  Shown: an excerpt holds exactly the lines
    within the requested context of a covered line, once each, in order and
    with their own text, marks exactly the covered ones, opens a hunk exactly
    where a line is skipped, and names there the function of the next covered
    line; HTML escaping is undone by reading the entities back and leaves no
    markup character.  The ordered trace is printed without escaping. *)
From S2P Require Import Prelude Text ReportPaths.

(** * The walk over a file *)

(** A [BTreeSet<usize>] in iteration order. *)
Definition in_set_order (s : gset Z) : list Z := sort_u64 (elements s).

(** [i32::max(0) as usize] *)
Definition context (n : Z) : Z := Z.max n 0.

(** The lines around one covered line, [lo..=hi]. *)
Definition around (before after nlines ln : Z) : list Z :=
  let lo := Z.max (Z.max (ln - before) 0) 1 in
  let hi := Z.min (ln +₆₄ after) nlines in
  seqZ lo (hi - lo + 1).

Definition shown (before after nlines : Z) (covered : gset Z) : gset Z :=
  foldl (fun s ln => list_to_set (around before after nlines ln) ∪ s) ∅ (in_set_order covered).

Inductive Row : Type :=
  | Gap (func : option (list Z))
  | Line (ln : Z) (is_covered : bool) (text : list Z).

(** [covered.range(ln..).next()] and the function at that line. *)
Definition next_covered (covered : gset Z) (ln : Z) : option Z := head (filter (fun c => ln <= c) (in_set_order covered)).

Definition gap_func (covered : gset Z) (ffuncs : option (gmap Z (list Z))) (ln : Z) : option (list Z) :=
  m ← ffuncs; c ← next_covered covered ln; m !! c.

Fixpoint hunk_rows (all_lines : list (list Z)) (covered : gset Z) (ffuncs : option (gmap Z (list Z))) (last : Z) (show : list Z)
    : outcome (list Row) :=
  match show with
  | [] => Done []
  | ln :: show =>
      text ← if ln <=? zlen all_lines then idx all_lines (ln - 1) else Done [];
      rest ← hunk_rows all_lines covered ffuncs (as_i64 ln) show;
      Done ((if as_i64 ln =? last + 1 then [] else [Gap (gap_func covered ffuncs ln)]) ++ Line ln (bool_decide (ln ∈ covered)) text :: rest)
  end.

(** The excerpt of a file with the given contents. *)
Definition excerpt (content : list Z) (covered : gset Z) (ffuncs : option (gmap Z (list Z))) (before after : Z) : outcome (list Row) :=
  let all_lines := split_on 10 content in
  hunk_rows all_lines covered ffuncs (-1) (in_set_order (shown (context before) (context after) (zlen all_lines) covered)).

(** * The terminal and text printers *)

(** [{:5}] *)
Definition pad_left (w : nat) (s : list Z) : list Z := replicate (w - length s) 32 ++ s.

Fixpoint join (sep : list Z) (ps : list (list Z)) : list Z :=
  match ps with [] => [] | [p] => p | p :: ps => p ++ sep ++ join sep ps end.

(** The escape sequences G, R, YB and CY. *)
Definition G : list Z := 27 :: bs "[92m".
Definition RESET : list Z := 27 :: bs "[0m".
Definition YB : list Z := 27 :: bs "[1;33m".
Definition CY : list Z := 27 :: bs "[96m".

Section Terminal.
Context (color : bool).
Definition tint (c : list Z) : list Z := if color then c else [].

Definition text_row (row : Row) : list Z :=
  match row with
  | Gap (Some f) => tint CY ++ bs "   ... @@ " ++ f ++ tint RESET ++ [10]
  | Gap None => tint CY ++ bs "   ..." ++ tint RESET ++ [10]
  | Line ln true text => tint G ++ pad_left 5 (fmt_dec ln) ++ bs " > " ++ text ++ tint RESET ++ [10]
  | Line ln false text => pad_left 5 (fmt_dec ln) ++ bs " | " ++ text ++ [10]
  end.

Definition render_file (fpath : list Z) (covered : gset Z) (ffuncs : option (gmap Z (list Z))) (content : option (list Z)) (before after : Z)
    : outcome (list Z) :=
  let title := 10 :: bs "📄 " ++ tint YB ++ fpath ++ tint RESET ++ bs " (" ++ fmt_dec (Z.of_nat (size covered)) ++ bs " lines)" ++ [10] in
  match content with
  | None => Done (title ++ bs "   " ++ join [32] (fmt_dec <$> in_set_order covered) ++ [10])
  | Some content =>
      rows ← excerpt content covered ffuncs before after;
      Done (title ++ concat (text_row <$> rows) ++ tint CY ++ bs "   ..." ++ tint RESET ++ [10])
  end.
End Terminal.

Definition center (s : list Z) (width : nat) (fill : Z) : list Z :=
  if (width <=? length s)%nat then s
  else let total := (width - length s)%nat in
       let left := (total / 2)%nat in
       replicate left fill ++ s ++ replicate (total - left) fill.

(** [BTreeMap] iteration: keys in byte order. *)
Fixpoint bytes_leb (a b : list Z) : bool :=
  match a, b with
  | [], _ => true
  | _ :: _, [] => false
  | x :: a, y :: b => (x <? y) || ((x =? y) && bytes_leb a b)
  end.

Definition in_map_order {A} (m : gmap (list Z) A) : list (list Z * A) :=
  sort_by (fun a b => bytes_leb (fst a) (fst b)) (map_to_list m).

(** The files the filter lets through. *)
Definition has (pat s : list Z) : bool := match find_sub pat s with Some _ => true | None => false end.

Definition selected (filter_kw : option (list Z)) (cov : Cov) : list (list Z * gset Z) :=
  filter (fun f => match filter_kw with Some kw => has kw (fst f) | None => true end = true) (in_map_order cov).

Fixpoint render_files (funcs : Funcs) (sources : gmap (list Z) (list Z)) (before after : Z) (files : list (list Z * gset Z)) : outcome (list Z) :=
  match files with
  | [] => Done []
  | (fpath, covered) :: files =>
      f ← render_file false fpath covered (funcs !! fpath) (sources !! fpath) before after;
      rest ← render_files funcs sources before after files;
      Done (f ++ rest)
  end.

Definition render_text (cov : Cov) (funcs : Funcs) (before after : Z) (filter_kw : option (list Z)) (sources : gmap (list Z) (list Z)) : outcome (list Z) :=
  body ← render_files funcs sources before after (selected filter_kw cov);
  Done (10 :: center (bs " Coverage Report ") 80 45 ++ [10] ++ body).

(** * The HTML printer *)

(** [str::replace] of one byte. *)
Definition replace (c : Z) (by_ : list Z) (s : list Z) : list Z := concat ((fun x => if x =? c then by_ else [x]) <$> s).

Definition esc (s : list Z) : list Z := replace 62 (bs "&gt;") (replace 60 (bs "&lt;") (replace 38 (bs "&amp;") s)).

(** Text written with single quotes for the source's double ones. *)
Definition dq (s : list Z) : list Z := (fun c => if c =? 39 then 34 else c) <$> s.

Definition html_row (row : Row) : list Z :=
  match row with
  | Gap (Some f) => dq (bs "<span class='sep'>   ... @@ ") ++ esc f ++ bs "</span>" ++ [10]
  | Gap None => dq (bs "<span class='sep'>   ...</span>") ++ [10]
  | Line ln c text =>
      dq (bs "<span class='") ++ (if c then bs "cov" else bs "ctx") ++ dq (bs "'><span class='ln'>") ++ fmt_dec ln ++ bs "</span> " ++
      (if c then bs "&gt;" else bs "|") ++ [32] ++ esc text ++ bs "</span>" ++ [10]
  end.

Definition html_file (fpath : list Z) (covered : gset Z) (ffuncs : option (gmap Z (list Z))) (content : option (list Z)) (before after : Z)
    : outcome (list Z) :=
  let title := bs "<h2>" ++ esc fpath ++ bs " (" ++ fmt_dec (Z.of_nat (size covered)) ++ bs " lines)</h2>" ++ [10] ++ bs "<pre>" in
  match content with
  | None => Done (title ++ bs "  (file not found)" ++ [10] ++ bs "</pre>")
  | Some content => rows ← excerpt content covered ffuncs before after; Done (title ++ concat (html_row <$> rows) ++ bs "</pre>" ++ [10])
  end.

Fixpoint html_files (funcs : Funcs) (sources : gmap (list Z) (list Z)) (before after : Z) (files : list (list Z * gset Z)) : outcome (list Z) :=
  match files with
  | [] => Done []
  | (fpath, covered) :: files =>
      f ← html_file fpath covered (funcs !! fpath) (sources !! fpath) before after;
      rest ← html_files funcs sources before after files;
      Done (f ++ rest)
  end.

(** What [generate] writes between its header and [</body>]. *)
Definition generate_body (cov : Cov) (funcs : Funcs) (before after : Z) (filter_kw : option (list Z)) (sources : gmap (list Z) (list Z)) : outcome (list Z) :=
  let files := selected filter_kw cov in
  body ← html_files funcs sources before after files;
  Done (dq (bs "<p class='summary'>") ++ fmt_dec (zlen files) ++ bs " files, " ++
        fmt_dec (foldr (fun f n => Z.of_nat (size (snd f)) + n) 0 files) ++ bs " covered lines</p>" ++ [10] ++ body).

(** * The ordered trace *)

Definition ORDERED_HTML_ROWS : Z := 20000.

(** [ordered_html_rows], from the environment variable. *)
Definition ordered_html_rows (v : option (list Z)) : Z :=
  match v with
  | Some v => match parse_u64 (trim v) with Some 0 => 2 ^ 64 - 1 | Some n => n | None => ORDERED_HTML_ROWS end
  | None => ORDERED_HTML_ROWS
  end.

Definition split_once (c : Z) (s : list Z) : option (list Z * list Z) :=
  i ← position (fun x => x =? c) s; Some (take (Z.to_nat i) s, drop (Z.to_nat (i + 1)) s).

Definition ordered_row (i : Z) (addr loc : list Z) : list Z :=
  let '(func, src) := default (loc, []) (split_once 32 loc) in
  bs "<tr><td>" ++ fmt_dec (i + 1) ++ bs "</td><td>" ++ addr ++ bs "</td>" ++
  bs "<td class='func'>" ++ func ++ bs "</td>" ++ bs "<td class='file'>" ++ src ++ bs "</td></tr>" ++ [10].

Fixpoint ordered_rows (i : Z) (addrs lines : list (list Z)) : list Z :=
  match lines with
  | [] => []
  | loc :: lines => ordered_row i (default [] (head addrs)) loc ++ ordered_rows (i + 1) (tail addrs) lines
  end.

(** The rows of the table [generate_ordered] writes. *)
Definition ordered_table (max : Z) (addrs lines : list (list Z)) : list Z :=
  ordered_rows 0 addrs (take (Z.to_nat (Z.min (zlen lines) max)) lines).

(** * The lines of an excerpt *)

Lemma in_set_order_sorted s : StronglySorted Z.lt (in_set_order s).
Proof.
  unfold in_set_order. pose proof (sort_u64_sorted (elements s)) as Hs. pose proof (NoDup_elements s) as Hn.
  rewrite <- (sort_u64_perm (elements s)) in Hn. revert Hn. induction Hs as [|x l _ IH Hx]; intros Hn; [constructor|].
  apply NoDup_cons in Hn as [Hx' Hn]. constructor; [by apply IH|]. rewrite Forall_forall in *. intros y Hy. specialize (Hx y Hy).
  assert (x <> y) by congruence. lia.
Qed.

Lemma elem_of_in_set_order s x : x ∈ in_set_order s <-> x ∈ s.
Proof. unfold in_set_order. rewrite sort_u64_perm. apply elem_of_elements. Qed.

Lemma elem_of_around before after n ln i :
  i ∈ around before after n ln <-> 1 <= i <= n /\ ln - before <= i <= ln +₆₄ after.
Proof. unfold around. rewrite elem_of_seqZ. lia. Qed.

Lemma elem_of_shown before after n covered i :
  i ∈ shown before after n covered <-> 1 <= i <= n /\ exists c, c ∈ covered /\ c - before <= i <= c +₆₄ after.
Proof.
  unfold shown. transitivity (exists c, c ∈ in_set_order covered /\ i ∈ around before after n c).
  - assert (forall (l : list Z) (s : gset Z), i ∈ foldl (fun s ln => list_to_set (around before after n ln) ∪ s) s l <-> i ∈ s \/ exists c, c ∈ l /\ i ∈ around before after n c) as H.
    { induction l as [|x l IH]; intros s; cbn [foldl].
      - split; [by left|]. intros [?|(c & Hc & _)]; [done|by apply not_elem_of_nil in Hc].
      - rewrite IH, elem_of_union, elem_of_list_to_set. setoid_rewrite elem_of_cons. naive_solver. }
    rewrite H. set_solver.
  - setoid_rewrite elem_of_in_set_order. setoid_rewrite elem_of_around. naive_solver.
Qed.

(** The excerpt, line by line, over the set of lines it shows. *)
Definition row_block (all_lines : list (list Z)) (covered : gset Z) (ffuncs : option (gmap Z (list Z))) (S : gset Z) (ln : Z) : list Row :=
  (if bool_decide (ln - 1 ∈ S) then [] else [Gap (gap_func covered ffuncs ln)]) ++
  [Line ln (bool_decide (ln ∈ covered)) (default [] (get all_lines (ln - 1)))].

Lemma hunk_rows_blocks all_lines covered ffuncs S last show :
  zlen all_lines < 2 ^ 63 -> (forall x, x ∈ S -> 1 <= x <= zlen all_lines) ->
  StronglySorted Z.lt show -> (forall x, x ∈ show -> x ∈ S /\ last < x) -> (forall x, x ∈ S -> x <= last \/ x ∈ show) ->
  (last = -1 \/ last ∈ S) ->
  hunk_rows all_lines covered ffuncs last show = Done (concat (row_block all_lines covered ffuncs S <$> show)).
Proof.
  intros Hn HS Hs. revert last. induction Hs as [|ln show Hs IH Hx]; intros last Hshow Hrest Hlast; [done|]. cbn [hunk_rows].
  destruct (Hshow ln ltac:(by left)) as [Hln Hlt]. pose proof (HS ln Hln) as Hb. rewrite (proj2 (Z.leb_le _ _)) by lia.
  destruct (idx_Done all_lines (ln - 1)) as (t & -> & Ht); [lia|]. cbn [mbind outcome_bind]. rewrite Forall_forall in Hx.
  assert (as_i64 ln = ln) as -> by (unfold as_i64, as_signed; rewrite Z.mod_small; lia).
  rewrite IH.
  - cbn [mbind outcome_bind fmap list_fmap concat]. f_equal. unfold row_block at 2. rewrite Ht. rewrite <- app_assoc. cbn [app default]. f_equal.
    assert (bool_decide (ln - 1 ∈ S) = (ln =? last + 1)) as ->; [|done]. apply Bool.eq_iff_eq_true. rewrite bool_decide_eq_true, Z.eqb_eq. split.
    + intros [H|[H|H]%elem_of_cons]%Hrest; [lia|lia|]. apply Hx in H. lia.
    + intros ->. destruct Hlast as [-> | H]; [lia|]. by replace (last + 1 - 1) with last by lia.
  - intros x Hxs. split; [apply Hshow; by right|by apply Hx].
  - intros x [H|[->|H]%elem_of_cons]%Hrest; [left; lia|left; lia|by right].
  - by right.
Qed.

Lemma next_covered_spec covered ln c : next_covered covered ln = Some c <-> c ∈ covered /\ ln <= c /\ forall c', c' ∈ covered -> ln <= c' -> c <= c'.
Proof.
  unfold next_covered. pose proof (in_set_order_sorted covered) as Hs. setoid_rewrite <- elem_of_in_set_order.
  induction Hs as [|x l Hs IH Hx]; [split; [done|by intros [H%not_elem_of_nil _]]|]. rewrite Forall_forall in Hx. rewrite filter_cons.
  destruct (decide (ln <= x)) as [Hle|Hle].
  - cbn [head]. split.
    + intros [= <-]. split; [by left|]. split; [done|]. intros c' [->|H]%elem_of_cons _; [lia|]. apply Hx in H. lia.
    + intros ([->|H]%elem_of_cons & _ & Hmin); [done|]. specialize (Hmin x ltac:(by left) Hle). apply Hx in H. lia.
  - rewrite IH. split; intros (H1 & H2 & H3).
    + split; [by right|]. split; [done|]. intros c' [->|H]%elem_of_cons; [lia|by apply H3].
    + apply elem_of_cons in H1 as [->|H1]; [lia|]. split; [done|]. split; [done|]. intros c' H. apply H3. by right.
Qed.

(** The rows of an excerpt. *)
Lemma excerpt_rows (content : list Z) (covered : gset Z) (ffuncs : option (gmap Z (list Z))) (before after : Z) :
  zlen (split_on 10 content) < 2 ^ 63 ->
  let all_lines := split_on 10 content in
  let S := shown (context before) (context after) (zlen all_lines) covered in
  excerpt content covered ffuncs before after = Done (concat (row_block all_lines covered ffuncs S <$> in_set_order S)).
Proof.
  intros Hn all_lines S. unfold excerpt. fold all_lines. fold S. apply (hunk_rows_blocks all_lines covered ffuncs S); [done| | | | |by left].
  - intros x Hx. apply elem_of_shown in Hx as [H _]. exact H.
  - apply in_set_order_sorted.
  - intros x Hx. apply elem_of_in_set_order in Hx. split; [done|]. apply elem_of_shown in Hx as [H _]. lia.
  - intros x Hx. right. by apply elem_of_in_set_order.
Qed.

(** C35: an excerpt never indexes outside the file.  It shows, once
    each and in order, the lines of the file within the context of a covered
    line; each with its own text and a mark that says whether it is covered; a
    gap precedes a line exactly when the line before it is not shown, and names
    the function known for the first covered line from there on. *)
Theorem excerpt_spec (content : list Z) (covered : gset Z) (ffuncs : option (gmap Z (list Z))) (before after : Z) :
  zlen (split_on 10 content) < 2 ^ 63 ->
  let all_lines := split_on 10 content in
  let S := shown (context before) (context after) (zlen all_lines) covered in
  excerpt content covered ffuncs before after = Done (concat (row_block all_lines covered ffuncs S <$> in_set_order S)) /\
  (forall i, i ∈ S <-> 1 <= i <= zlen all_lines /\ exists c, c ∈ covered /\ c - context before <= i <= c +₆₄ context after) /\
  (forall ln f, gap_func covered ffuncs ln = Some f <-> exists m c, ffuncs = Some m /\ m !! c = Some f /\
     c ∈ covered /\ ln <= c /\ forall c', c' ∈ covered -> ln <= c' -> c <= c').
Proof.
  intros Hn all_lines S. split; [|split].
  - by apply excerpt_rows.
  - intros i. apply elem_of_shown.
  - intros ln f. unfold gap_func. destruct ffuncs as [m|]; cbn [mbind option_bind]; [|split; [done|by intros (m & c & ? & _)]].
    destruct (next_covered covered ln) as [c|] eqn:E; cbn [mbind option_bind].
    + apply next_covered_spec in E as (H1 & H2 & H3). split; [intros Hm; by exists m, c|]. intros (m' & c' & [= <-] & Hm & H1' & H2' & H3').
      assert (c = c') as ->; [|done]. specialize (H3 c' H1' H2'). specialize (H3' c H1 H2). lia.
    + split; [done|]. intros (m' & c & _ & _ & H). apply next_covered_spec in H. congruence.
Qed.

(** * Escaping *)

(** Reading the entities back. *)
Fixpoint unesc (s : list Z) : list Z :=
  match s with
  | 38 :: 97 :: 109 :: 112 :: 59 :: t => 38 :: unesc t
  | 38 :: 108 :: 116 :: 59 :: t => 60 :: unesc t
  | 38 :: 103 :: 116 :: 59 :: t => 62 :: unesc t
  | c :: t => c :: unesc t
  | [] => []
  end.

Lemma replace_app c b s t : replace c b (s ++ t) = replace c b s ++ replace c b t.
Proof. unfold replace. by rewrite fmap_app, concat_app. Qed.

Lemma esc_cons c s : esc (c :: s) = (if c =? 38 then bs "&amp;" else if c =? 60 then bs "&lt;" else if c =? 62 then bs "&gt;" else [c]) ++ esc s.
Proof.
  unfold esc. change (c :: s) with ([c] ++ s). rewrite !replace_app. f_equal. unfold replace at 3. cbn [fmap list_fmap concat].
  destruct (Z.eqb_spec c 38) as [->|H1]; [reflexivity|]. unfold replace at 2. cbn [app fmap list_fmap concat].
  destruct (Z.eqb_spec c 60) as [->|H2]; [reflexivity|]. unfold replace. cbn [app fmap list_fmap concat].
  by destruct (Z.eqb_spec c 62) as [->|H3].
Qed.

Lemma unesc_other c t : c <> 38 -> unesc (c :: t) = c :: unesc t.
Proof.
  intros H. destruct c as [|p|p]; [done| |done]. do 6 (destruct p as [p|p|]; try done). 
Qed.

(** Escaped text holds no markup character, and reading its
    entities back gives the text. *)
Theorem esc_roundtrip (s : list Z) : unesc (esc s) = s /\ 60 ∉ esc s /\ 62 ∉ esc s.
Proof.
  induction s as [|c s (IH1 & IH2 & IH3)]; [split; [done|split; apply not_elem_of_nil]|]. rewrite esc_cons, !not_elem_of_app.
  destruct (Z.eqb_spec c 38) as [->|H1]; [split; [change (38 :: unesc (esc s) = 38 :: s); by rewrite IH1|split; (split; [vm_compute; set_solver|done])]|].
  destruct (Z.eqb_spec c 60) as [->|H2]; [split; [change (60 :: unesc (esc s) = 60 :: s); by rewrite IH1|split; (split; [vm_compute; set_solver|done])]|].
  destruct (Z.eqb_spec c 62) as [->|H3]; [split; [change (62 :: unesc (esc s) = 62 :: s); by rewrite IH1|split; (split; [vm_compute; set_solver|done])]|].
  cbn [app]. rewrite unesc_other, IH1 by done. split; [done|]. rewrite !list_elem_of_singleton. by split; split; [congruence|done|congruence|done].
Qed.

(** The ordered trace splits an entry at its first space and escapes nothing: a
    Rust method loses its name, and its angle brackets become markup. *)
Lemma ordered_row_raw :
  ordered_row 0 (bs "0x10") (bs "<Foo as Drop>::drop lib.rs:1") =
    bs "<tr><td>1</td><td>0x10</td><td class='func'><Foo</td><td class='file'>as Drop>::drop lib.rs:1</td></tr>" ++ [10].
Proof. vm_compute. reflexivity. Qed.

(** * Witness *)

Lemma excerpt_spec_witness :
  let content := bs "a" ++ 10 :: bs "b" ++ 10 :: bs "c" ++ 10 :: bs "d" ++ 10 :: bs "e" ++ [10] in
  let covered : gset Z := {[2; 5]} in let ffuncs := Some (<[2 := bs "f"]> ∅ : gmap Z (list Z)) in
  excerpt content covered ffuncs 0 1 =
    Done [Gap (Some (bs "f")); Line 2 true (bs "b"); Line 3 false (bs "c"); Gap None; Line 5 true (bs "e"); Line 6 false []] /\
  zlen (split_on 10 content) < 2 ^ 63 /\
  (forall i, i ∈ shown 0 1 6 covered <-> 1 <= i <= 6 /\ exists c, c ∈ covered /\ c - 0 <= i <= c +₆₄ 1).
Proof.
  intros content covered ffuncs. assert (zlen (split_on 10 content) < 2 ^ 63) as H by (vm_compute; reflexivity).
  split; [vm_compute; reflexivity|]. split; [exact H|]. exact (proj1 (proj2 (excerpt_spec content covered ffuncs 0 1 H))).
Defined.
