(* ===== verification/ReportBtfPage.v ===== *)
(** report/btf.rs: the page of a report by function.

    The search of the sources is grep's: its output for given arguments, and
    the files, are parameters.
    Shown: a function is placed where the first line of grep's output that names
    it says; every function of the page appears once, under its file or among
    those without source; the excerpt of a file holds exactly the lines within
    the context of a definition, in order, escaped, with the definitions
    marked. *)
From stdpp Require Import gmap.
From S2P Require Import Prelude Text ReportPaths ReportKallsyms ReportRender.

(** * Where functions are defined *)

(** [splitn(3, ':')] with all three parts. *)
Definition splitn3 (line : list Z) : option (list Z * list Z * list Z) :=
  '(path, rest) ← split_once 58 line; '(lno, content) ← split_once 58 rest; Some (path, lno, content).

Definition grep_args (names : list (list Z)) (kernel_src : list Z) : list (list Z) :=
  [bs "120"; bs "grep"; bs "-rnE"; bs "--include=*.c";
   bs "^[a-zA-Z_].*\b(" ++ join [124] names ++ bs ")[[:space:]]*\("; kernel_src].

(** [Path::strip_prefix] on a path grep prints. *)
Definition relative_to (dir path : list Z) : list Z :=
  let d := components dir in let p := components path in
  if bool_decide (take (length d) p = d) then join [47] (drop (length d) p) else path.

Definition located_line (names : gset (list Z)) (kernel_src line : list Z) : option (list Z * (list Z * Z)) :=
  '(path, lno, content) ← splitn3 line;
  lineno ← parse_u64 lno;
  func ← func_before_paren names [] content;
  Some (func, (relative_to kernel_src path, lineno)).

(** [entry().or_insert_with()] *)
Definition insert_new {A} (m : gmap (list Z) A) (e : list Z * A) : gmap (list Z) A :=
  match m !! fst e with Some _ => m | None => <[fst e := snd e]> m end.

Section Page.
(** A directory test, [timeout] with grep's arguments and its output, a source file. *)
Context (is_dir : list Z -> bool) (timeout : list (list Z) -> option (list Z)) (read_file : list Z -> option (list Z)).

Definition locate_functions (names : list (list Z)) (kernel_src : list Z) : gmap (list Z) (list Z * Z) :=
  if bool_decide (names = []) || bool_decide (kernel_src = []) || negb (is_dir kernel_src) then ∅ else
  match timeout (grep_args names kernel_src) with
  | None => ∅
  | Some out => foldl insert_new ∅ (omap (located_line (list_to_set names) kernel_src) (lines (from_utf8_lossy out)))
  end.

(** * The page *)

Definition FUNCS_SHOWN : nat := 200.
Definition UNRESOLVED_SHOWN : nat := 50.

(** A function, its hits and its line. *)
Definition Def : Type := list Z * Z * Z.
Definition place (located : gmap (list Z) (list Z * Z)) (s : gmap (list Z) (list Def) * list (list Z * Z)) (f : list Z * Z)
    : gmap (list Z) (list Def) * list (list Z * Z) :=
  match located !! fst f with
  | Some (path, lineno) => (<[path := default [] (fst s !! path) ++ [(fst f, snd f, lineno)]]> (fst s), snd s)
  | None => (fst s, snd s ++ [f])
  end.

Definition highlight (funcs : list Def) : gset Z := list_to_set (snd <$> funcs).
Definition page_lines (funcs : list Def) (ctx nlines : Z) : list Z := in_set_order (shown ctx ctx nlines (highlight funcs)).

Inductive BtfRow : Type :=
  | Skip
  | Source (ln : Z) (text : list Z) (cov : bool) (def : option (list Z * Z)).

Definition def_at (funcs : list Def) (ln : Z) : option (list Z * Z) := head (omap (fun f => if snd f =? ln then Some (fst f) else None) funcs).

Fixpoint page_rows (source : list (list Z)) (funcs : list Def) (prev : Z) (show : list Z) : outcome (list BtfRow) :=
  match show with
  | [] => Done []
  | ln :: show =>
      raw ← if ln <=? zlen source then idx source (ln - 1) else Done [];
      rest ← page_rows source funcs ln show;
      Done ((if negb (prev =? 0) && (prev + 1 <? ln) then [Skip] else [])
            ++ Source ln (esc (trim_end raw)) (bool_decide (ln ∈ highlight funcs)) (def_at funcs ln) :: rest)
  end.

(** [←] *)
Definition LARROW : list Z := [0xE2; 0x86; 0x90].
Definition row_html (r : BtfRow) : list Z :=
  match r with
  | Skip => dq (bs "<span class='line-num'>...</span>")
  | Source ln text cov def =>
      dq (bs "<span class='line-num'>") ++ pad_left 5 (fmt_dec ln) ++ bs "</span><span" ++ (if cov then dq (bs " class='cov'") else []) ++ bs ">" ++ text ++
      match def with Some (f, h) => bs "  " ++ LARROW ++ [32] ++ f ++ bs " (" ++ fmt_dec h ++ bs " hits)" | None => [] end ++ bs "</span>"
  end.

Definition def_html (f : Def) : list Z :=
  dq (bs "<p><span class='func'>") ++ fst (fst f) ++ dq (bs "</span> <span class='hit'>(") ++ fmt_dec (snd (fst f)) ++ bs " hits)</span> line " ++ fmt_dec (snd f) ++ bs "</p>".

(** [Path::join]: an absolute file stands for itself. *)
Definition full_path (dir file : list Z) : list Z :=
  if starts_with [47] file then file else if bool_decide (last dir = Some 47) then dir ++ file else dir ++ [47] ++ file.

Definition page_file (kernel_src : list Z) (ctx : Z) (f : list Z * list Def) : outcome (list (list Z)) :=
  let title := dq (bs "<h2 class='file'>") ++ fst f ++ bs "</h2>" in
  match read_file (full_path kernel_src (fst f)) with
  | None => Done (title :: (def_html <$> snd f))
  | Some content =>
      let source := lines content in
      rows ← page_rows source (snd f) 0 (page_lines (snd f) ctx (zlen source));
      Done (title :: bs "<pre>" :: (row_html <$> rows) ++ [bs "</pre>"])
  end.

Fixpoint page_files (kernel_src : list Z) (ctx : Z) (files : list (list Z * list Def)) : outcome (list (list Z)) :=
  match files with
  | [] => Done []
  | f :: files => a ← page_file kernel_src ctx f; b ← page_files kernel_src ctx files; Done (a ++ b)
  end.

Definition page_head (n : Z) : list (list Z) :=
  dq <$> [bs "<!DOCTYPE html><html><head><meta charset='utf-8'>"; bs "<title>vock BTF Coverage Report</title>"; bs "<style>";
          bs "body{font-family:monospace;background:#1e1e1e;color:#d4d4d4;padding:20px}"; bs "h1{color:#569cd6} h2{color:#4ec9b0;margin-top:2em}";
          bs ".func{background:#264f78;padding:2px 6px;border-radius:3px}"; bs ".hit{color:#b5cea8} .file{color:#ce9178}";
          bs "pre{background:#2d2d2d;padding:10px;border-radius:5px;overflow-x:auto}"; bs ".cov{background:#2ea04366;display:block}";
          bs ".line-num{color:#858585;user-select:none;padding-right:1em}"; bs "</style></head><body>"; bs "<h1>vock BTF Coverage Report</h1>";
          bs "<p>" ++ fmt_dec n ++ bs " kernel functions covered</p>"].

Definition pad_right (w : nat) (s : list Z) : list Z := s ++ replicate (w - length s) 32.
Definition unresolved_html (unresolved : list (list Z * Z)) : list (list Z) :=
  match unresolved with
  | [] => []
  | _ => bs "<h2>Functions (source not found)</h2><pre>" ::
         ((fun f => bs "  " ++ pad_right 50 (fst f) ++ [32] ++ pad_left 6 (fmt_dec (snd f)) ++ bs " hits") <$> take UNRESOLVED_SHOWN unresolved) ++ [bs "</pre>"]
  end.

Definition placed (ranked : list (list Z * Z)) (kernel_src : list Z) : gmap (list Z) (list Def) * list (list Z * Z) :=
  let top := take FUNCS_SHOWN ranked in foldl (place (locate_functions (fst <$> top) kernel_src)) (∅, []) top.

(** The text written to the output file. *)
Definition generate_html (ranked : list (list Z * Z)) (kernel_src : list Z) (ctx : Z) : outcome (list Z) :=
  let '(file_funcs, unresolved) := placed ranked kernel_src in
  files ← page_files kernel_src ctx (in_map_order file_funcs);
  Done (join [10] (page_head (zlen ranked) ++ files ++ unresolved_html unresolved ++ [bs "</body></html>"])).
End Page.

(** * Where a function is placed *)

Lemma insert_new_all {A} (l : list (list Z * A)) m k :
  foldl insert_new m l !! k = match m !! k with Some a => Some a | None => snd <$> head (filter (fun e => fst e = k) l) end.
Proof.
  revert m. induction l as [|[n a] l IH]; intros m; cbn [foldl]; [by destruct (m !! k)|]. rewrite IH, filter_cons. unfold insert_new. cbn [fst snd].
  destruct (decide (n = k)) as [->|Hn].
  - destruct (m !! k) eqn:E; [by rewrite E|]. by rewrite lookup_insert_eq.
  - assert (forall x, <[n := x]> m !! k = m !! k) as Hi by (intros; by rewrite lookup_insert_ne). destruct (m !! n); rewrite ?Hi; done.
Qed.

Section Spec.
Context (is_dir : list Z -> bool) (timeout : list (list Z) -> option (list Z)) (read_file : list Z -> option (list Z)).

(** The first line that names a function as its definition places it. *)
Theorem locate_first names kernel_src out f : names <> [] -> kernel_src <> [] -> is_dir kernel_src = true -> timeout (grep_args names kernel_src) = Some out ->
  locate_functions is_dir timeout names kernel_src !! f =
  snd <$> head (filter (fun e => fst e = f) (omap (located_line (list_to_set names) kernel_src) (lines (from_utf8_lossy out)))).
Proof.
  intros Hn Hk Hd Ht. unfold locate_functions. rewrite !bool_decide_eq_false_2, Hd, Ht by done. cbn [orb negb]. by rewrite insert_new_all, lookup_empty.
Qed.

(** The functions of one file, and those without source. *)
Definition in_file (located : gmap (list Z) (list Z * Z)) (path : list Z) (f : list Z * Z) : option Def :=
  match located !! fst f with Some (p, l) => if bytes_eqb p path then Some (fst f, snd f, l) else None | None => None end.

Lemma place_all located l s path :
  let r := foldl (place located) s l in
  default [] (fst r !! path) = default [] (fst s !! path) ++ omap (in_file located path) l /\
  snd r = snd s ++ filter (fun f => located !! fst f = None) l.
Proof.
  cbn zeta. revert s. induction l as [|f l IH]; intros s; cbn [foldl]; [by rewrite !app_nil_r|]. destruct (IH (place located s f)) as [-> ->]. clear IH.
  rewrite filter_cons. change (omap ?g (f :: l)) with (match g f with Some b => b :: omap g l | None => omap g l end). unfold place.
  assert (in_file located path f = match located !! fst f with Some (p, ln) => if bytes_eqb p path then Some (fst f, snd f, ln) else None | None => None end) as -> by done.
  destruct (located !! fst f) as [[p ln]|]; cbn [fst snd].
  - rewrite decide_False by done. split; [|done]. unfold bytes_eqb. destruct (bool_decide_reflect (p = path)) as [->|Hp].
    + rewrite lookup_insert_eq. cbn [default from_option id]. by rewrite <- app_assoc.
    + by rewrite lookup_insert_ne.
  - rewrite decide_True by done. by rewrite <- app_assoc.
Qed.

(** Each of the functions shown stands under the file it was located in, with
    its hits and its line, or among those without source; in both lists in the
    order of the ranking. *)
Theorem page_partition ranked kernel_src path :
  let top := take FUNCS_SHOWN ranked in
  let located := locate_functions is_dir timeout (fst <$> top) kernel_src in
  default [] (fst (placed is_dir timeout ranked kernel_src) !! path) = omap (in_file located path) top /\
  snd (placed is_dir timeout ranked kernel_src) = filter (fun f => located !! fst f = None) top.
Proof. cbn zeta. unfold placed. by destruct (place_all (locate_functions is_dir timeout (fst <$> take FUNCS_SHOWN ranked) kernel_src) (take FUNCS_SHOWN ranked) (∅, []) path) as [-> ->]. Qed.

(** * The excerpts *)

Definition row_line (r : BtfRow) : option Z := match r with Source ln _ _ _ => Some ln | Skip => None end.
Definition source_row (source : list (list Z)) (funcs : list Def) (ln : Z) : BtfRow :=
  Source ln (esc (trim_end (default [] (get source (ln - 1))))) (bool_decide (ln ∈ highlight funcs)) (def_at funcs ln).

(** The rows are the lines, one after the other, with a mark where one is
    skipped. *)
Fixpoint rows_of (source : list (list Z)) (funcs : list Def) (prev : Z) (show : list Z) : list BtfRow :=
  match show with
  | [] => []
  | ln :: show => (if negb (prev =? 0) && (prev + 1 <? ln) then [Skip] else []) ++ source_row source funcs ln :: rows_of source funcs ln show
  end.

Lemma page_rows_total source funcs prev show : Forall (fun ln => 1 <= ln <= zlen source) show ->
  page_rows source funcs prev show = Done (rows_of source funcs prev show).
Proof.
  intros H. revert prev. induction H as [|ln show Hln _ IH]; intros prev; [done|]. cbn [page_rows rows_of]. rewrite (proj2 (Z.leb_le _ _)) by lia.
  destruct (idx_Done source (ln - 1)) as (x & -> & Hx); [lia|]. cbn [mbind outcome_bind]. rewrite IH. cbn [mbind outcome_bind]. unfold source_row. by rewrite Hx.
Qed.

Lemma page_lines_range funcs ctx n : Forall (fun ln => 1 <= ln <= n) (page_lines funcs ctx n).
Proof. apply Forall_forall. intros ln Hln. unfold page_lines in Hln. rewrite elem_of_in_set_order, elem_of_shown in Hln. apply Hln. Qed.

Lemma rows_lines source funcs prev show : omap row_line (rows_of source funcs prev show) = show.
Proof.
  revert prev. induction show as [|ln show IH]; intros prev; [done|]. cbn [rows_of]. destruct (_ && _); cbn [app omap list_omap row_line source_row]; by rewrite IH.
Qed.

(** The excerpt of a file: its lines are in order and once each exactly those
    within the context of a definition; each is the text of its line, trimmed
    and escaped, marked exactly when a definition is there. *)
Theorem page_excerpt (source : list (list Z)) (funcs : list Def) ctx : 0 <= ctx -> Forall (fun f => 0 <= snd f /\ snd f + ctx < 2 ^ 64) funcs ->
  exists rows, page_rows source funcs 0 (page_lines funcs ctx (zlen source)) = Done rows /\
    StronglySorted Z.lt (omap row_line rows) /\
    (forall ln, ln ∈ omap row_line rows <-> 1 <= ln <= zlen source /\ exists f, f ∈ funcs /\ snd f - ctx <= ln <= snd f + ctx) /\
    (forall ln text cov def, Source ln text cov def ∈ rows ->
       text = esc (trim_end (default [] (get source (ln - 1)))) /\ (cov = true <-> exists f, f ∈ funcs /\ snd f = ln) /\ def = def_at funcs ln).
Proof.
  intros Hc0 Hf. eexists. rewrite page_rows_total by apply page_lines_range. split; [done|]. rewrite rows_lines. split_and!.
  - apply in_set_order_sorted.
  - intros ln. unfold page_lines. rewrite elem_of_in_set_order, elem_of_shown. unfold highlight. setoid_rewrite elem_of_list_to_set. setoid_rewrite list_elem_of_fmap.
    rewrite Forall_forall in Hf. split; intros [H1 (c & Hc)]; (split; [done|]).
    + destruct Hc as [(f & -> & Hin) Hr]. exists f. specialize (Hf f Hin). rewrite as_u64_small in Hr; [done|]. unfold is_u64. lia.
    + destruct Hc as [Hin Hr]. exists (snd c). specialize (Hf c Hin). split; [by exists c|]. rewrite as_u64_small; [done|]. unfold is_u64. lia.
  - intros ln text cov def Hin.
    assert (forall prev show, Source ln text cov def ∈ rows_of source funcs prev show -> Source ln text cov def = source_row source funcs ln) as H.
    { clear Hin. intros prev show. revert prev. induction show as [|l show IH]; intros prev; [intros H; by apply not_elem_of_nil in H|]. cbn [rows_of]. intros [H|[H|H]%elem_of_cons]%elem_of_app.
      - destruct (_ && _); [|by apply not_elem_of_nil in H]. by apply list_elem_of_singleton in H.
      - unfold source_row in H. by injection H as -> -> -> ->.
      - by eapply IH. }
    apply H in Hin. injection Hin as -> -> ->. split_and!; [done| |done]. rewrite bool_decide_eq_true. unfold highlight. rewrite elem_of_list_to_set, list_elem_of_fmap. naive_solver.
Qed.

(** The page is always made. *)
Theorem generate_html_total ranked kernel_src ctx : exists html, generate_html is_dir timeout read_file ranked kernel_src ctx = Done html.
Proof.
  unfold generate_html. destruct (placed _ _ _ _) as [ff un].
  assert (forall files, exists t, page_files read_file kernel_src ctx files = Done t) as H.
  { induction files as [|f files [t IH]]; [by eexists|]. cbn [page_files]. unfold page_file. destruct (read_file _) as [content|]; cbn [mbind outcome_bind]; [|rewrite IH; by eexists].
    rewrite page_rows_total by apply page_lines_range. cbn [mbind outcome_bind]. rewrite IH. by eexists. }
  destruct (H (in_map_order ff)) as [t ->]. by eexists.
Qed.
End Spec.

(** Two functions of one file, and one grep does not find. *)
Example demo_page :
  generate_html (fun _ => true) (fun _ => Some (bs "/k/net/a.c:2:int f(void)" ++ [10] ++ bs "/k/net/a.c:4:static int g (int x)" ++ [10]))
    (fun p => if bytes_eqb p (bs "/k/net/a.c") then Some (bs "l1" ++ [10] ++ bs "int f(void)" ++ [10] ++ bs "l3" ++ [10] ++ bs "static int g (int x)  " ++ [10] ++ bs "if (a<b)" ++ [10] ++ bs "l6") else None)
    [(bs "f", 3); (bs "g", 2); (bs "h", 1)] (bs "/k") 1 =
  Done (join [10] (page_head 3 ++
    [dq (bs "<h2 class='file'>net/a.c</h2>"); bs "<pre>"; dq (bs "<span class='line-num'>    1</span><span>l1</span>");
     dq (bs "<span class='line-num'>    2</span><span class='cov'>int f(void)  ") ++ LARROW ++ bs " f (3 hits)</span>"; dq (bs "<span class='line-num'>    3</span><span>l3</span>");
     dq (bs "<span class='line-num'>    4</span><span class='cov'>static int g (int x)  ") ++ LARROW ++ bs " g (2 hits)</span>"; dq (bs "<span class='line-num'>    5</span><span>if (a&lt;b)</span>"); bs "</pre>";
     bs "<h2>Functions (source not found)</h2><pre>"; bs "  h                                                       1 hits"; bs "</pre>"; bs "</body></html>"])).
Proof. vm_compute. reflexivity. Qed.
