(* ===== verification/ProgSyntax.v ===== *)
(** fuzz/prog_decode.rs, first half: the syntax tree of a program and its
    parser.

    A parser function takes the text [s] and a position and returns a value and
    the position after it; the nesting depth left is the recursion argument.
    Shown: parsing is total on every text, whatever its nesting, never indexes
    out of it and never moves backwards; a printed argument parses back to
    itself. *)
From S2P Require Import Prelude Text Inflate Syscalls.

Definition ENCODING_ADDR_BASE : Z := 0x7f0000000000.
Definition DATA_OFFSET : Z := 0x200000000000.
Definition AUTO_ADDR : Z := 2 ^ 64 - 1.
Definition MAX_DEPTH : nat := 64.
Definition MAX_IMAGE : Z := 134217728.

Definition physical_addr (offset : Z) : Z := DATA_OFFSET +₆₄ offset.

Inductive Arg : Type :=
  | Int (v : Z)
  | Res (idx div add : Z)
  | Ptr (addr : Z) (inner : option Arg)
  | Data (d : list Z)
  | Struct (fs : list Arg)
  | Array (fs : list Arg)
  | Union (a : Arg)
  | Csum
  | Out (slot : Z) (inner : Arg)
  | Nil.

Record Call : Type := MkCall
  { name : list Z; base : list Z; nr : option Z; args : list Arg; res : option Z;
    fail_nth : option Z; is_async : bool }.

(** [c] with other arguments. *)
Definition with_args (c : Call) (l : list Arg) : Call :=
  MkCall (name c) (base c) (nr c) l (res c) (fail_nth c) (is_async c).

Definition is_pseudo (c : Call) : bool := starts_with (bs "syz_") (base c).

Definition Prog : Type := list Call.

(** * Induction on arguments *)

Section ArgInd.
Context (P : Arg -> Prop)
  (HInt : forall v, P (Int v)) (HRes : forall i d a, P (Res i d a))
  (HPtr : forall addr inner, P inner -> P (Ptr addr (Some inner))) (HPtr0 : forall addr, P (Ptr addr None))
  (HData : forall d, P (Data d)) (HStruct : forall fs, Forall P fs -> P (Struct fs))
  (HArray : forall fs, Forall P fs -> P (Array fs)) (HUnion : forall a, P a -> P (Union a))
  (HCsum : P Csum) (HOut : forall slot a, P a -> P (Out slot a)) (HNil : P Nil).

Fixpoint arg_nested_ind (a : Arg) : P a :=
  let all := fix all (fs : list Arg) : Forall P fs :=
    match fs with [] => Forall_nil_2 P | f :: fs => Forall_cons_2 P f fs (arg_nested_ind f) (all fs) end in
  match a with
  | Int v => HInt v
  | Res i d a => HRes i d a
  | Ptr addr (Some inner) => HPtr addr inner (arg_nested_ind inner)
  | Ptr addr None => HPtr0 addr
  | Data d => HData d
  | Struct fs => HStruct fs (all fs)
  | Array fs => HArray fs (all fs)
  | Union a => HUnion a (arg_nested_ind a)
  | Csum => HCsum
  | Out slot a => HOut slot a (arg_nested_ind a)
  | Nil => HNil
  end.
End ArgInd.

(** * Tokens *)

Definition find (c : Z) (s : list Z) : option Z := position (fun x => x =? c) s.
Definition rfind (c : Z) (s : list Z) : option Z :=
  (fun i => zlen s - 1 - i) <$> find c (reverse s).

(** [s[..i]] and [s[i..]] of an index found in [s]. *)
Definition upto (s : list Z) (i : Z) : list Z := take (Z.to_nat i) s.
Definition from (s : list Z) (i : Z) : list Z := drop (Z.to_nat i) s.

Definition is_sep (c : Z) : bool :=
  (c =? 44) || (c =? 41) || (c =? 125) || (c =? 93) || (c =? 61) || (c =? 32) || (c =? 9) || (c =? 0).

Definition split_while (p : Z -> bool) (s : list Z) : list Z * list Z :=
  let n := partition_point p s in (upto s n, from s n).
Definition split_digits : list Z -> list Z * list Z := split_while is_ascii_digit.
Definition split_int_token : list Z -> list Z * list Z := split_while is_ascii_alphanumeric.

Definition parse_int (s : list Z) : option Z :=
  let s := trim s in
  match s with
  | [] => None
  | c :: t =>
      match (match strip_prefix (bs "0x") s with Some h => Some h | None => strip_prefix (bs "0X") s end) with
      | Some h => from_str_radix_u64 h 16
      | None =>
          match strip_prefix [45] s with
          | Some neg => (fun v => as_u64 (- v)) <$> parse_i64 neg
          | None =>
              if (1 <? zlen s) && (c =? 48) && forallb (fun c => (48 <=? c) && (c <=? 55)) s
              then from_str_radix_u64 t 8 else parse_u64 s
          end
      end
  end.

(** [r0], [r0/0x10], [r0+0x5], [r0/0x10+0x5] *)
Definition parse_res_ref (w : list Z) : option Arg :=
  rest ← strip_prefix [114] w;
  let '(num, tail) := split_digits rest in
  if bool_decide (num = []) then None else
  idx ← parse_u64 num;
  let '(div, tail) :=
    match strip_prefix [47] tail with
    | Some t => let '(d, r) := split_int_token t in (default 0 (parse_int d), r)
    | None => (0, tail)
    end in
  let '(add, tail) :=
    match strip_prefix [43] tail with
    | Some t => let '(a, r) := split_int_token t in (default 0 (parse_int a), r)
    | None => (0, tail)
    end in
  if bool_decide (tail = []) then Some (Res idx div add) else None.

(** Backslash escapes; an unknown one stands for its character. *)
Fixpoint unescape (s : list Z) : list Z :=
  match s with
  | [] => []
  | b :: t =>
      if b =? 92 then
        match t with
        | [] => [b]
        | c :: t' =>
            if c =? 110 then 10 :: unescape t'
            else if c =? 116 then 9 :: unescape t'
            else if c =? 114 then 13 :: unescape t'
            else if c =? 97 then 7 :: unescape t'
            else if c =? 98 then 8 :: unescape t'
            else if c =? 102 then 12 :: unescape t'
            else if c =? 118 then 11 :: unescape t'
            else if c =? 120 then
              match t' with
              | hi :: lo :: t'' =>
                  match to_digit hi 16, to_digit lo 16 with
                  | Some h, Some l => as_u8 (h * 16 + l) :: unescape t''
                  | _, _ => 120 :: unescape t'
                  end
              | _ => c :: unescape t'
              end
            else c :: unescape t'
        end
      else b :: unescape t
  end.

(** [filter_map(|i| u8::from_str_radix(&s[i..i + 2], 16).ok())] over pairs. *)
Fixpoint hex_pairs (s : list Z) : list Z :=
  match s with
  | a :: b :: t =>
      match to_digit a 16, to_digit b 16 with
      | Some h, Some l => h * 16 + l :: hex_pairs t
      | _, _ => hex_pairs t
      end
  | _ => []
  end.

(** [unwrap_or_default] on the fallible decoder. *)
Definition unwrap_or_default (m : outcome (list Z)) : outcome (list Z) :=
  match m with Fail => Done [] | _ => m end.

Definition decode_hex_bytes (s : list Z) : outcome (list Z) :=
  match strip_prefix [36] s with
  | Some b64 => unwrap_or_default (decode_compressed_image b64 MAX_IMAGE)
  | None =>
      if negb (bool_decide (s = [])) && (zlen s mod 2 =? 0) && forallb is_ascii_hexdigit s
      then Done (hex_pairs s) else Done (unescape s)
  end.

(** * The parser *)

Section Parser.
Context (s : list Z).

Definition peek (i : Z) : Z := default 0 (get s i).
Definition at_end (i : Z) : bool := zlen s <=? i.

(** [while !done && p(peek) { i += 1 }] *)
Definition skip_while (p : Z -> bool) (i : Z) : Z := i + partition_point p (from s i).

Definition eat_ws (i : Z) : Z := skip_while is_whitespace i.
Definition eat (c i : Z) : bool * Z :=
  let i := eat_ws i in if peek i =? c then (true, i + 1) else (false, i).
Definition starts_at (pat : list Z) (i : Z) : bool := starts_with pat (from s i).
Definition skip_token (i : Z) : Z := skip_while (fun c => negb (is_sep c)) i.

(** Length of the text before [close], escapes honoured. *)
Fixpoint until_len (close : Z) (l : list Z) : Z :=
  match l with
  | [] => 0
  | c :: t =>
      if c =? close then 0
      else if c =? 92 then match t with [] => 1 | _ :: t' => 2 + until_len close t' end
      else 1 + until_len close t
  end.

Definition until (close i : Z) : list Z * Z :=
  let e := i + until_len close (from s i) in
  (from_utf8_lossy (upto (from s i) (e - i)), if at_end e then e else e + 1).

Definition opt_size_suffix (i : Z) : Z := if peek i =? 47 then skip_token (i + 1) else i.

Definition word (i : Z) : Arg * Z :=
  let start := eat_ws i in
  let i := skip_token start in
  let w := trim (from_utf8_lossy (upto (from s start) (i - start))) in
  if bool_decide (w = []) then (Nil, if at_end i then i else i + 1)
  else if bool_decide (w = bs "nil") || bool_decide (w = bs "AUTO") then (Nil, i)
  else if starts_with (bs "csum") w then (Csum, i)
  else match parse_res_ref w with
       | Some r => (r, i)
       | None => (match parse_int w with Some v => Int v | None => Nil end, i)
       end.

Section WithArg.
Context (arg : Z -> outcome (Arg * Z)).

(** One round of [list]: [acc] holds the arguments so far. *)
Definition list_step (close : Z) (st : list Arg * Z) : outcome (ctl (list Arg * Z) (list Arg * Z)) :=
  let '(acc, i) := st in
  let i := eat_ws i in
  if at_end i then Done (Stop (acc, i))
  else if peek i =? close then Done (Stop (acc, i + 1))
  else
    let before := i in
    '(a, i) ← arg i;
    let acc := acc ++ [a] in
    let i := eat_ws i in
    if peek i =? 44 then Done (Next (acc, i + 1))
    else if peek i =? close then Done (Stop (acc, i + 1))
    else if i =? before then Done (Next (acc, i + 1))
    else Done (Next (acc, i)).

Definition list_ (close i : Z) : outcome (list Arg * Z) :=
  loop (S (S (length s))) (list_step close) ([], i).

(** [&(0xADDR)=inner], [&(0xADDR/0xSIZE)=nil], [&AUTO=inner]; [i] is at the [&]. *)
Definition ptr (i : Z) : outcome (Arg * Z) :=
  let i := i + 1 in
  let '(addr, i) :=
    if starts_at (bs "AUTO") i then (AUTO_ADDR, i + 4)
    else
      let '(paren, i) := eat 40 i in
      if paren : bool then
        let '(body, i) := until 41 i in
        let head := trim (match split_on 47 body with h :: _ => h | [] => [] end) in
        (default ENCODING_ADDR_BASE (parse_int head) -₆₄ ENCODING_ADDR_BASE, i)
      else (0, i) in
  let '(eq, i) := eat 61 i in
  if eq : bool then
    let i := eat_ws i in
    let i := if starts_at (bs "ANY=") i then i + 4 else i in
    if starts_at (bs "nil") i then Done (Ptr addr None, i + 3)
    else '(inner, i) ← arg i; Done (Ptr addr (Some inner), i)
  else Done (Ptr addr None, i).

Definition arg_match (i : Z) : outcome (Arg * Z) :=
  let c := peek i in
  if c =? 38 then ptr i
  else if c =? 123 then '(l, i) ← list_ 125 (i + 1); Done (Struct l, i)
  else if c =? 91 then '(l, i) ← list_ 93 (i + 1); Done (Array l, i)
  else if c =? 64 then
    let i := skip_while (fun c => negb (c =? 61) && negb (is_sep c)) (i + 1) in
    let '(eq, i) := eat 61 i in
    if eq : bool then '(a, i) ← arg i; Done (Union a, i) else Done (Nil, i)
  else if c =? 34 then
    let '(raw, i) := until 34 (i + 1) in
    d ← decode_hex_bytes raw; Done (Data d, opt_size_suffix i)
  else if c =? 39 then
    let '(raw, i) := until 39 (i + 1) in Done (Data (unescape raw), opt_size_suffix i)
  else Done (word i).

(** An inline label [<r5=>arg] first; a text in angle brackets that is not one
    is read again as an ordinary argument. *)
Definition arg_inner (i : Z) : outcome (Arg * Z) :=
  if peek i =? 60 then
    let '(lbl, j) := until 62 (i + 1) in
    match strip_suffix [61] lbl with
    | Some nm =>
        let slot := n ← strip_prefix [114] (trim nm); parse_u64 n in
        '(inner, k) ← arg j;
        Done (match slot with Some slot => Out slot inner | None => inner end, k)
    | None => arg_match i
    end
  else arg_match i.

End WithArg.

Fixpoint arg (d : nat) (i : Z) : outcome (Arg * Z) :=
  let i := eat_ws i in
  match d with
  | O => Done (Nil, skip_token i)
  | S d' => arg_inner (arg d') i
  end.

End Parser.

(** * Statements *)

(** The quote-aware scanners; [q] is the open quote or 0. *)
Fixpoint matching_paren_go (s : list Z) (depth q i : Z) : option Z :=
  match s with
  | [] => None
  | c :: t =>
      if negb (q =? 0) then
        if c =? 92 then match t with [] => None | _ :: t' => matching_paren_go t' depth q (i + 2) end
        else matching_paren_go t depth (if c =? q then 0 else q) (i + 1)
      else if (c =? 34) || (c =? 39) then matching_paren_go t depth c (i + 1)
      else if c =? 40 then matching_paren_go t (depth + 1) q (i + 1)
      else if c =? 41 then
        if depth - 1 =? 0 then Some i else matching_paren_go t (depth - 1) q (i + 1)
      else matching_paren_go t depth q (i + 1)
  end.
Definition matching_paren (s : list Z) (open : Z) : option Z := matching_paren_go (from s open) 0 0 open.

Fixpoint comment_pos_go (s : list Z) (q i : Z) : option Z :=
  match s with
  | [] => None
  | c :: t =>
      if negb (q =? 0) then
        if c =? 92 then match t with [] => None | _ :: t' => comment_pos_go t' q (i + 2) end
        else comment_pos_go t (if c =? q then 0 else q) (i + 1)
      else if (c =? 34) || (c =? 39) then comment_pos_go t c (i + 1)
      else if c =? 35 then Some i
      else comment_pos_go t q (i + 1)
  end.
Definition comment_pos (s : list Z) : option Z := comment_pos_go s 0 0.

Definition parse_prop (c : Call) (part : list Z) : Call :=
  let p := trim part in
  if bool_decide (p = bs "async") then
    MkCall (name c) (base c) (nr c) (args c) (res c) (fail_nth c) true
  else match strip_prefix (bs "fail_nth:") p with
       | Some v => MkCall (name c) (base c) (nr c) (args c) (res c) (as_i32 <$> parse_int (trim v)) (is_async c)
       | None => c
       end.
Definition parse_props (s : list Z) (c : Call) : Call := foldl parse_prop c (split_on 44 s).

(** [parse_call]; [Fail] is its [None]. *)
Definition parse_call (arch : Arch) (line : list Z) : outcome Call :=
  let line := trim line in
  if bool_decide (line = []) || starts_with [35] line then Fail else
  let line := match comment_pos line with Some pos => trim (upto line pos) | None => line end in
  paren ← of_option (find 40 line);
  let '(res, rest) :=
    match find 61 (upto line paren) with
    | Some eq =>
        let lhs := trim (upto line eq) in
        ((n ← strip_prefix [114] lhs; parse_u64 n), trim (from line (eq + 1)))
    | None => (None, line)
    end in
  paren ← of_option (find 40 rest);
  let name := trim (upto rest paren) in
  if bool_decide (name = []) then Fail else
  close ← of_option (matching_paren rest paren);
  inner ← or_panic (slice rest (paren + 1) close);
  '(args, _) ← list_ inner (arg inner MAX_DEPTH) 0 0;
  let base := match split_on 36 name with b :: _ => b | [] => name end in
  let call := MkCall name base (syscall_nr arch base) args res None false in
  let tail := trim (from rest (close + 1)) in
  Done (match find 40 tail, rfind 41 tail with
        | Some open, Some end_ =>
            if open <? end_ then parse_props (upto (from tail (open + 1)) (end_ - (open + 1))) call else call
        | _, _ => call
        end).

(** [parse_prog]: lines that do not parse are dropped. *)
Definition prog_step (arch : Arch) (calls : Prog) (line : list Z) : outcome Prog :=
  let l := trim line in
  if bool_decide (l = []) || starts_with [35] l then Done calls
  else match parse_call arch l with
       | Done c => Done (calls ++ [c])
       | Fail => Done calls
       | Panic => Panic
       | Fuel => Fuel
       end.
Definition parse_prog (arch : Arch) (text : list Z) : outcome Prog := fold_m (prog_step arch) (lines text) [].

Example parse_demo :
  parse_prog X86_64 (bs "r0 = openat$x(0xffffffffffffff9c, &(0x7f0000001000)='/dev/null\x00', 0x2, 0x0) (fail_nth: 3, async) # c
pipe2(&(0x7f0000000040)={<r1=>0xffffffffffffffff, <r2=>0x0}, 0x0)
write(r1, &AUTO=[@a=0x1, r2/0x2+0x3, nil], 0x5)") =
  Done [MkCall (bs "openat$x") (bs "openat") (Some 257)
          [Int 0xffffffffffffff9c; Ptr 0x1000 (Some (Data (bs "/dev/null" ++ [0]))); Int 2; Int 0] (Some 0) (Some 3) true;
        MkCall (bs "pipe2") (bs "pipe2") (Some 293)
          [Ptr 0x40 (Some (Struct [Out 1 (Int 0xffffffffffffffff); Out 2 (Int 0)])); Int 0] None None false;
        MkCall (bs "write") (bs "write") (Some 1)
          [Res 1 0 0; Ptr AUTO_ADDR (Some (Array [Union (Int 1); Res 2 2 3; Nil])); Int 5] None None false].
Proof. vm_compute. reflexivity. Qed.

(** * The parser is total *)

Lemma skip_while_ge s p i : i <= skip_while s p i.
Proof. unfold skip_while. pose proof (partition_point_bound p (from s i)). lia. Qed.

Lemma eat_ws_ge s i : i <= eat_ws s i.
Proof. apply skip_while_ge. Qed.

Lemma skip_token_ge s i : i <= skip_token s i.
Proof. apply skip_while_ge. Qed.

Lemma eat_ge s c i : i <= snd (eat s c i).
Proof. unfold eat. pose proof (eat_ws_ge s i). destruct (_ =? _); simpl; lia. Qed.

Lemma until_len_nonneg close l : 0 <= until_len close l.
Proof.
  induction l as [l IH] using (induction_ltof1 _ length). unfold ltof in IH.
  destruct l as [|c t]; cbn [until_len]; [lia|]. destruct (c =? close); [lia|].
  destruct (c =? 92); [destruct t as [|? t']; [lia|]|].
  - pose proof (IH t' ltac:(simpl; lia)). lia.
  - pose proof (IH t ltac:(simpl; lia)). lia.
Qed.

Lemma until_ge s close i : i <= snd (until s close i).
Proof.
  unfold until. pose proof (until_len_nonneg close (from s i)). destruct (at_end _ _); simpl; lia.
Qed.

Lemma opt_size_suffix_ge s i : i <= opt_size_suffix s i.
Proof. unfold opt_size_suffix. pose proof (skip_token_ge s (i + 1)). destruct (_ =? _); lia. Qed.

Lemma word_ge s i : i <= snd (word s i).
Proof.
  unfold word. pose proof (eat_ws_ge s i). pose proof (skip_token_ge s (eat_ws s i)).
  repeat case_match; simpl; lia.
Qed.

(** A parser from position [i]: returns without a panic, at or after [i]. *)
Definition parses {A} (m : outcome (A * Z)) (i : Z) : Prop := wp m (fun '(_, j) => i <= j) False.

Lemma parses_le {A} (m : outcome (A * Z)) i i' : parses m i' -> i <= i' -> parses m i.
Proof. intros H Hi. eapply wp_mono; [exact H| |done]. intros [a j]. lia. Qed.

Lemma parses_map {A B} (m : outcome (A * Z)) (f : A -> B) i :
  parses m i -> parses ('(a, j) ← m; Done (f a, j)) i.
Proof. intros H. apply wp_bind. eapply wp_mono; [exact H| |done]. intros [a j]. done. Qed.

Lemma wp_decode_hex raw (F : Prop) : wp (decode_hex_bytes raw) (fun _ => True) F.
Proof.
  unfold decode_hex_bytes. destruct (strip_prefix _ _) as [b64|]; [|destruct (_ && _ && _); done].
  pose proof (wp_decode_image b64 MAX_IMAGE ltac:(done)) as H. unfold unwrap_or_default.
  destruct (decode_compressed_image b64 MAX_IMAGE); done.
Qed.

Section Total.
Context (s : list Z) (arg : Z -> outcome (Arg * Z)) (Harg : forall i, 0 <= i -> parses (arg i) i).

Lemma parses_list close i : 0 <= i -> parses (list_ s arg close i) i.
Proof using Harg.
  intros Hi. unfold list_, parses. pose proof (zlen_nonneg s).
  apply (wp_loop (fun st => i <= snd st) (fun st => Z.max 0 (zlen s + 1 - snd st))).
  - intros [acc j] Hj. cbn [snd] in Hj. unfold list_step. pose proof (eat_ws_ge s j).
    unfold at_end. destruct (Z.leb_spec (zlen s) (eat_ws s j)); [simpl; lia|].
    destruct (_ =? close); [simpl; lia|].
    apply wp_bind. eapply wp_mono; [apply Harg; lia| |done]. intros [a k] Hk.
    pose proof (eat_ws_ge s k).
    destruct (_ =? 44); [simpl; lia|]. destruct (_ =? close); [simpl; lia|].
    destruct (Z.eqb_spec (eat_ws s k) (eat_ws s j)); simpl; lia.
  - cbn [snd]. lia.
  - cbn [snd]. unfold zlen in *. lia.
Qed.

Lemma parses_ptr i : 0 <= i -> parses (ptr s arg i) i.
Proof using Harg.
  intros Hi. unfold ptr.
  assert (forall addr k, i <= k -> parses (let '(eq, i) := eat s 61 k in
    if eq : bool then
      let i := eat_ws s i in
      let i := if starts_at s (bs "ANY=") i then i + 4 else i in
      if starts_at s (bs "nil") i then Done (Ptr addr None, i + 3)
      else '(inner, i) ← arg i; Done (Ptr addr (Some inner), i)
    else Done (Ptr addr None, i)) i) as Hk.
  { intros addr k Hk. pose proof (eat_ge s 61 k) as He. destruct (eat s 61 k) as [[] j]; cbn [snd] in He; [|simpl; lia].
    cbv zeta. pose proof (eat_ws_ge s j).
    assert (i <= (if starts_at s (bs "ANY=") (eat_ws s j) then eat_ws s j + 4 else eat_ws s j)) as Hj by (case_match; lia).
    set (j' := if starts_at s _ _ then _ else _) in *. clearbody j'.
    destruct (starts_at s (bs "nil") j'); [unfold parses; cbn [wp]; lia|].
    eapply (parses_map (arg j') (fun inner => Ptr addr (Some inner))), parses_le; [apply Harg; lia|done]. }
  destruct (starts_at s (bs "AUTO") (i + 1)); [apply Hk; lia|].
  pose proof (eat_ge s 40 (i + 1)) as He. destruct (eat s 40 (i + 1)) as [[] j]; cbn [snd] in He; [|apply Hk; lia].
  pose proof (until_ge s 41 j) as Hu. destruct (until s 41 j) as [body k]. cbn [snd] in Hu. apply Hk. lia.
Qed.

Lemma parses_arg_match i : 0 <= i -> parses (arg_match s arg i) i.
Proof using Harg.
  intros Hi. unfold arg_match. destruct (_ =? 38); [by apply parses_ptr|].
  destruct (_ =? 123); [eapply (parses_map _ Struct), parses_le; [apply parses_list; lia|lia]|].
  destruct (_ =? 91); [eapply (parses_map _ Array), parses_le; [apply parses_list; lia|lia]|].
  destruct (_ =? 64).
  { set (j := skip_while s _ (i + 1)). assert (i + 1 <= j) by apply skip_while_ge. clearbody j.
    pose proof (eat_ge s 61 j) as He. destruct (eat s 61 j) as [[] k]; cbn [snd] in He; [|simpl; lia].
    eapply (parses_map _ Union), parses_le; [apply Harg; lia|lia]. }
  destruct (_ =? 34).
  { pose proof (until_ge s 34 (i + 1)) as Hu. destruct (until s 34 (i + 1)) as [raw k]. cbn [snd] in Hu.
    apply wp_bind. eapply wp_mono; [apply wp_decode_hex| |done]. intros d _.
    pose proof (opt_size_suffix_ge s k). simpl. lia. }
  destruct (_ =? 39).
  { pose proof (until_ge s 39 (i + 1)) as Hu. destruct (until s 39 (i + 1)) as [raw k]. cbn [snd] in Hu.
    pose proof (opt_size_suffix_ge s k). simpl. lia. }
  pose proof (word_ge s i) as Hw. unfold parses. destruct (word s i) as [a j]. done.
Qed.

Lemma parses_arg_inner i : 0 <= i -> parses (arg_inner s arg i) i.
Proof using Harg.
  intros Hi. unfold arg_inner. destruct (_ =? 60); [|by apply parses_arg_match].
  pose proof (until_ge s 62 (i + 1)) as Hu. destruct (until s 62 (i + 1)) as [lbl j]. cbn [snd] in Hu.
  destruct (strip_suffix [61] lbl) as [nm|]; [|by apply parses_arg_match].
  apply (parses_map (arg j) (fun inner => match (n ← strip_prefix [114] (trim nm); parse_u64 n) with
    | Some slot => Out slot inner | None => inner end)). eapply parses_le; [apply Harg; lia|lia].
Qed.
End Total.

Lemma parses_arg s d i : 0 <= i -> parses (arg s d i) i.
Proof.
  revert i. induction d as [|d IH]; intros i Hi; cbn [arg]; pose proof (eat_ws_ge s i).
  { pose proof (skip_token_ge s (eat_ws s i)). simpl. lia. }
  eapply parses_le; [|exact H]. apply parses_arg_inner; [exact IH|lia].
Qed.

Lemma find_Some c l i : find c l = Some i -> 0 <= i < zlen l /\ l !! Z.to_nat i = Some c.
Proof.
  unfold find. intros (Hi & (x & Hx & He) & _)%position_Some. apply Z.eqb_eq in He as ->. done.
Qed.

Lemma matching_paren_go_bounds l depth q i r : matching_paren_go l depth q i = Some r -> i <= r < i + zlen l.
Proof.
  revert depth q i. induction l as [l IH] using (induction_ltof1 _ length). unfold ltof in IH.
  intros depth q i H. destruct l as [|c t]; cbn [matching_paren_go] in H; [done|]. rewrite zlen_cons.
  pose proof (zlen_nonneg t).
  assert (forall d q, matching_paren_go t d q (i + 1) = Some r -> i <= r < i + (1 + zlen t)) as Ht.
  { intros d' q' H'. apply IH in H'; [lia|simpl; lia]. }
  destruct (negb (q =? 0)).
  - destruct (c =? 92); [|by eapply Ht]. destruct t as [|c' t']; [done|]. rewrite zlen_cons in *.
    apply IH in H; [lia|simpl; lia].
  - repeat (case_match; [try (by eapply Ht); try (simplify_eq; lia)|]); try (by eapply Ht).
Qed.

Lemma matching_paren_slice rest paren close : find 40 rest = Some paren -> matching_paren rest paren = Some close ->
  exists inner, slice rest (paren + 1) close = Some inner.
Proof.
  intros [Hp Hl]%find_Some Hm. unfold matching_paren, from in Hm.
  rewrite (drop_S rest 40) in Hm by done. cbn [matching_paren_go] in Hm. cbn in Hm.
  apply matching_paren_go_bounds in Hm. unfold slice.
  assert (zlen (drop (S (Z.to_nat paren)) rest) = zlen rest - paren - 1) as Hz.
  { unfold zlen in *. rewrite length_drop. lia. }
  destruct (_ && _) eqn:E; [by eexists|]. lia.
Qed.

Lemma wp_parse_call arch line : wp (parse_call arch line) (fun _ => True) True.
Proof.
  unfold parse_call. destruct (_ || _); [done|]. set (l := match comment_pos _ with Some _ => _ | None => _ end).
  destruct (find 40 l) as [paren|]; [|done]. cbn [of_option mbind outcome_bind].
  destruct (match find 61 _ with Some _ => _ | None => _ end) as [res rest].
  destruct (find 40 rest) as [p|] eqn:Ep; [|done]. cbn [of_option mbind outcome_bind].
  destruct (bool_decide _); [done|].
  destruct (matching_paren rest p) as [close|] eqn:Ec; [|done]. cbn [of_option mbind outcome_bind].
  destruct (matching_paren_slice _ _ _ Ep Ec) as (inner & ->). cbn [or_panic mbind outcome_bind].
  apply wp_bind. eapply wp_mono; [|intros [args k] _|done].
  - eapply wp_mono; [apply (parses_list inner (arg inner MAX_DEPTH)); [intros; by apply parses_arg|lia]|done|done].
  - done.
Qed.

(** The program parser is total.  On every text, with any
    nesting, any stray bracket, quote or escape and any compressed blob,
    [parse_prog] returns a program: no panic, no endless loop, no unbounded
    recursion; and [parse_call] on any line returns a call or [None]. *)
Theorem parse_prog_total arch text :
  (exists p, parse_prog arch text = Done p) /\
  forall line, (exists c, parse_call arch line = Done c) \/ parse_call arch line = Fail.
Proof.
  split.
  - enough (wp (parse_prog arch text) (fun _ => True) False) as H.
    { destruct (parse_prog arch text) as [p| | |]; try done. by exists p. }
    apply (wp_fold_m (fun _ _ => True)); [|done]. intros d l rest calls _ _. unfold prog_step.
    destruct (_ || _); [done|]. pose proof (wp_parse_call arch (trim l)) as H. by destruct (parse_call arch (trim l)).
  - intros line. pose proof (wp_parse_call arch line) as H. destruct (parse_call arch line) as [c| | |]; try done; eauto.
Qed.
