(* ===== verification/ProgPrint.v ===== *)
(** The textual syntax of an argument as syzkaller prints it, and the round
    trip through the parser of ProgSyntax.v. *)
From S2P Require Import Prelude Text Inflate Syscalls ProgSyntax.

(** * The printer *)

Fixpoint join (sep : list Z) (l : list (list Z)) : list Z :=
  match l with
  | [] => []
  | [x] => x
  | x :: t => x ++ sep ++ join sep t
  end.

Definition hex2 (b : Z) : list Z := [digit_char (b / 16); digit_char (b mod 16)].

Definition print_hex (v : Z) : list Z := bs "0x" ++ fmt_hex v.

Definition print_ptr (addr : Z) : list Z :=
  if addr =? AUTO_ADDR then bs "&AUTO" else bs "&(" ++ print_hex (ENCODING_ADDR_BASE +₆₄ addr) ++ bs ")".

Fixpoint print_arg (a : Arg) : list Z :=
  match a with
  | Int v => print_hex v
  | Res idx div add =>
      114 :: fmt_dec idx ++ (if div =? 0 then [] else 47 :: print_hex div) ++
      (if add =? 0 then [] else 43 :: print_hex add)
  | Ptr addr None => print_ptr addr ++ bs "=nil"
  | Ptr addr (Some inner) => print_ptr addr ++ 61 :: print_arg inner
  | Data d => 34 :: concat (hex2 <$> d) ++ [34]
  | Struct fs => 123 :: join (bs ", ") (print_arg <$> fs) ++ [125]
  | Array fs => 91 :: join (bs ", ") (print_arg <$> fs) ++ [93]
  | Union a => bs "@u=" ++ print_arg a
  | Csum => bs "csum"
  | Out slot inner => bs "<r" ++ fmt_dec slot ++ bs "=>" ++ print_arg inner
  | Nil => bs "nil"
  end.

(** What the syntax can express: machine words, bytes, and no pointer to a bare
    [nil] (which the parser reads as a pointer without a target). *)
Fixpoint arg_wf (a : Arg) : Prop :=
  match a with
  | Int v => is_u64 v
  | Res idx div add => is_u64 idx /\ is_u64 div /\ is_u64 add
  | Ptr addr None => is_u64 addr
  | Ptr addr (Some inner) => is_u64 addr /\ inner <> Nil /\ arg_wf inner
  | Data d => bytes_ok d
  | Struct fs | Array fs => foldr (fun a P => arg_wf a /\ P) True fs
  | Union a => arg_wf a
  | Out slot inner => is_u64 slot /\ arg_wf inner
  | Csum | Nil => True
  end.

(** Nesting depth. *)
Fixpoint depth (a : Arg) : nat :=
  match a with
  | Ptr _ (Some i) => S (depth i)
  | Struct fs | Array fs => S (foldr (fun a n => Nat.max (depth a) n) 0%nat fs)
  | Union a => S (depth a)
  | Out _ a => S (depth a)
  | _ => 1%nat
  end.

(** * Positions *)

(** [s] continues with [l] at position [i]. *)
Definition at_ (s : list Z) (i : Z) (l : list Z) : Prop := 0 <= i <= zlen s /\ from s i = l.

Lemma at_zlen s i l : at_ s i l -> i + zlen l = zlen s.
Proof. intros [Hi <-]. unfold from, zlen in *. rewrite length_drop. lia. Qed.

Lemma at_app s i u l : at_ s i (u ++ l) -> at_ s (i + zlen u) l.
Proof.
  intros H. pose proof (at_zlen _ _ _ H) as Hz. destruct H as [Hi Hf]. rewrite zlen_app in Hz.
  pose proof (zlen_nonneg u). pose proof (zlen_nonneg l). split; [lia|]. unfold from in *.
  replace (Z.to_nat (i + zlen u)) with (Z.to_nat i + length u)%nat by (unfold zlen; lia).
  by rewrite <- skipn_skipn, Hf, drop_app_length || (rewrite <- drop_drop, Hf; apply drop_app_length).
Qed.

Lemma at_cons s i c l : at_ s i (c :: l) -> at_ s (i + 1) l.
Proof. apply (at_app s i [c] l). Qed.

Lemma at_peek s i c l : at_ s i (c :: l) -> peek s i = c.
Proof.
  intros H. pose proof (at_zlen _ _ _ H) as Hz. rewrite zlen_cons in Hz. pose proof (zlen_nonneg l).
  destruct H as [Hi Hf]. unfold peek. unfold from in Hf.
  assert (s !! Z.to_nat i = Some c) as E.
  { rewrite <- (Nat.add_0_r (Z.to_nat i)), <- lookup_drop. by rewrite Hf. }
  rewrite (proj2 (get_Some s i c)); [done|]. split; [lia|done].
Qed.

Lemma at_peek_nil s i : at_ s i [] -> peek s i = 0.
Proof.
  intros H. pose proof (at_zlen _ _ _ H) as Hz. unfold peek.
  rewrite (proj2 (get_None s i)); [done|]. change (zlen []) with 0 in Hz. lia.
Qed.

Lemma at_end_cons s i c l : at_ s i (c :: l) -> at_end s i = false.
Proof. intros H%at_zlen. rewrite zlen_cons in H. pose proof (zlen_nonneg l). unfold at_end. lia. Qed.

Lemma at_end_nil s i : at_ s i [] -> at_end s i = true.
Proof. intros H%at_zlen. change (zlen []) with 0 in H. unfold at_end. lia. Qed.

Lemma partition_point_stop p (w r : list Z) : Forall (fun c => p c = true) w ->
  (match r with [] => True | c :: _ => p c = false end) -> partition_point p (w ++ r) = zlen w.
Proof.
  intros Hw Hr. rewrite partition_point_app by done. destruct r as [|c r]; cbn [partition_point]; [lia|]. rewrite Hr. lia.
Qed.

Lemma skip_while_at s p i w r : at_ s i (w ++ r) -> Forall (fun c => p c = true) w ->
  (match r with [] => True | c :: _ => p c = false end) -> skip_while s p i = i + zlen w.
Proof. intros [_ Hf] Hw Hr. unfold skip_while. by rewrite Hf, partition_point_stop. Qed.

Lemma eat_ws_at s i c l : at_ s i (c :: l) -> is_whitespace c = false -> eat_ws s i = i.
Proof. intros H Hc. unfold eat_ws. rewrite (skip_while_at s _ i [] (c :: l)); [apply Z.add_0_r|done|done|done]. Qed.

Lemma eat_ws_nil s i : at_ s i [] -> eat_ws s i = i.
Proof. intros H. unfold eat_ws. rewrite (skip_while_at s _ i [] []); [apply Z.add_0_r|done|done|done]. Qed.

(** What may follow a printed argument. *)
Definition next_ok (r : list Z) : Prop :=
  match r with [] => True | c :: _ => c = 44 \/ c = 125 \/ c = 93 end.

Lemma eat_ws_next s i r : at_ s i r -> next_ok r -> eat_ws s i = i.
Proof.
  destruct r as [|c r]; intros H Hr; [by apply eat_ws_nil|]. apply (eat_ws_at s i c r H).
  by destruct Hr as [->|[->| ->]].
Qed.

Definition token (w : list Z) : Prop := w <> [] /\ Forall (fun c => 33 <= c < 127 /\ is_sep c = false) w.

Lemma skip_token_at s i w r : at_ s i (w ++ r) -> token w -> next_ok r -> skip_token s i = i + zlen w.
Proof.
  intros H [_ Hw] Hr. apply (skip_while_at s _ i w r H).
  - eapply Forall_impl; [exact Hw|]. by intros c [_ ->].
  - destruct r as [|c r]; [done|]. by destruct Hr as [->|[->| ->]].
Qed.

(** Text that does not end or escape a literal closed by [c]. *)
Definition plain (c : Z) (w : list Z) : Prop := Forall (fun x => x <> c /\ x <> 92 /\ x < 128) w.

Lemma until_len_plain c w r : plain c w -> until_len c (w ++ c :: r) = zlen w.
Proof.
  induction 1 as [|x w (H1 & H2 & _) _ IH]; cbn [until_len app]; [by rewrite Z.eqb_refl|].
  replace (x =? c) with false by lia. replace (x =? 92) with false by lia. rewrite IH, zlen_cons. lia.
Qed.

Lemma until_at s i c w r : at_ s i (w ++ c :: r) -> plain c w -> until s c i = (w, i + zlen w + 1).
Proof.
  intros H Hw. pose proof (at_app _ _ _ _ H) as H2. destruct H as [Hi Hf]. unfold until.
  rewrite Hf, until_len_plain by done. rewrite (at_end_cons _ _ _ _ H2). f_equal.
  unfold upto. replace (Z.to_nat (i + zlen w - i)) with (length w) by (unfold zlen; lia).
  rewrite take_app_length. apply lossy_ascii. eapply Forall_impl; [exact Hw|]. naive_solver.
Qed.

(** * Words *)

Lemma strip_any_edge c r : 33 <= c < 127 ->
  strip_any ws_chars (c :: r) = None /\ strip_any (reverse <$> ws_chars) (c :: r) = None.
Proof.
  intros Hc. split; apply strip_any_None; vm_compute (reverse <$> _);
    repeat (constructor; [eexists _, _; split; [done|lia]|]); constructor.
Qed.

(** [trim] keeps text without spaces or control characters. *)
Lemma trim_visible s : Forall (fun c => 33 <= c < 127) s -> trim s = s.
Proof.
  intros Hs. destruct s as [|c s]; [done|].
  assert (trim_start (c :: s) = c :: s) as Hst.
  { unfold trim_start. cbn [length strip_all]. inversion Hs; subst. by rewrite (proj1 (strip_any_edge c s ltac:(done))). }
  unfold trim. rewrite Hst. unfold trim_end. rewrite <- (reverse_involutive (c :: s)) at 3.
  f_equal. rewrite <- Forall_reverse in Hs.
  rewrite <- (length_reverse (c :: s)). destruct (reverse (c :: s)) as [|d r]; [done|].
  cbn [length strip_all]. inversion Hs; subst. by rewrite (proj2 (strip_any_edge d r ltac:(done))).
Qed.

Lemma token_visible w : token w -> Forall (fun c => 33 <= c < 127) w.
Proof. intros [_ Hw]. eapply Forall_impl; [exact Hw|]. naive_solver. Qed.

(** The value of a token. *)
Definition word_value (w : list Z) : Arg :=
  if bool_decide (w = bs "nil") || bool_decide (w = bs "AUTO") then Nil
  else if starts_with (bs "csum") w then Csum
  else match parse_res_ref w with
       | Some r => r
       | None => match parse_int w with Some v => Int v | None => Nil end
       end.

Lemma word_at s i w r : at_ s i (w ++ r) -> token w -> next_ok r -> word s i = (word_value w, i + zlen w).
Proof.
  intros H Hw Hr. pose proof (token_visible w Hw) as Hv. destruct Hw as [Hne Hall] eqn:E.
  assert (eat_ws s i = i) as Hws.
  { destruct w as [|c w]; [done|]. inversion Hv; subst. apply (eat_ws_at s i c (w ++ r) H).
    unfold is_whitespace. lia. }
  unfold word. rewrite Hws, (skip_token_at s i w r H Hw Hr). destruct H as [Hi Hf].
  assert (upto (from s i) (i + zlen w - i) = w) as ->.
  { rewrite Hf. unfold upto. replace (Z.to_nat (i + zlen w - i)) with (length w) by (unfold zlen; lia). apply take_app_length. }
  rewrite lossy_ascii by (eapply Forall_impl; [exact Hv|]; simpl; lia). rewrite trim_visible by done.
  rewrite bool_decide_false by done. unfold word_value.
  destruct (_ || _); [done|]. destruct (starts_with _ _); [done|]. by destruct (parse_res_ref w).
Qed.

Lemma alnum_token w : w <> [] -> Forall (fun c => 48 <= c <= 57 \/ 97 <= c <= 122) w -> token w.
Proof. intros H Hw. split; [done|]. eapply Forall_impl; [exact Hw|]. intros c Hc. cbv beta in Hc. unfold is_sep. lia. Qed.

Lemma fmt_digits_low fuel radix n tail : 2 <= radix <= 36 ->
  Forall (fun c => 48 <= c <= 57 \/ 97 <= c <= 122) tail ->
  Forall (fun c => 48 <= c <= 57 \/ 97 <= c <= 122) (fmt_digits fuel radix n tail).
Proof.
  intros Hr. revert n tail. induction fuel as [|fuel IH]; intros n tail Ht; [done|]. cbn [fmt_digits].
  assert (Forall (fun c => 48 <= c <= 57 \/ 97 <= c <= 122) (digit_char (n mod radix) :: tail)).
  { constructor; [|done]. pose proof (Z.mod_pos_bound n radix). unfold digit_char. zbool; lia. }
  destruct (_ =? 0); [done|]. by apply IH.
Qed.

Lemma print_hex_low v : Forall (fun c => 48 <= c <= 57 \/ 97 <= c <= 122) (print_hex v).
Proof.
  apply Forall_app. split; [|by apply fmt_digits_low].
  change (bs "0x") with [48; 120]. constructor; [lia|]. constructor; [lia|constructor].
Qed.

Lemma parse_int_hex v : is_u64 v -> parse_int (print_hex v) = Some v.
Proof.
  intros Hv. unfold parse_int.
  rewrite trim_visible by (eapply Forall_impl; [apply print_hex_low|]; simpl; lia).
  unfold print_hex. change (bs "0x" ++ fmt_hex v) with (48 :: 120 :: fmt_hex v).
  change (strip_prefix (bs "0x") (48 :: 120 :: fmt_hex v)) with (Some (fmt_hex v)). cbv iota.
  by apply from_str_radix_fmt_hex.
Qed.

Lemma word_value_hex v : is_u64 v -> word_value (print_hex v) = Int v.
Proof.
  intros Hv. unfold word_value. rewrite parse_int_hex by done. unfold print_hex.
  change (bs "0x" ++ fmt_hex v) with (48 :: 120 :: fmt_hex v).
  by rewrite !bool_decide_false by done.
Qed.

Lemma fmt_digits_decimal fuel n tail : Forall (fun c => is_ascii_digit c = true) tail ->
  Forall (fun c => is_ascii_digit c = true) (fmt_digits fuel 10 n tail).
Proof.
  revert n tail. induction fuel as [|fuel IH]; intros n tail Ht; [done|]. cbn [fmt_digits].
  assert (Forall (fun c => is_ascii_digit c = true) (digit_char (n mod 10) :: tail)).
  { constructor; [|done]. pose proof (Z.mod_pos_bound n 10). unfold digit_char, is_ascii_digit. zbool; lia. }
  destruct (_ =? 0); [done|]. by apply IH.
Qed.

Lemma split_while_app p w r : Forall (fun c => p c = true) w ->
  (match r with [] => True | c :: _ => p c = false end) -> split_while p (w ++ r) = (w, r).
Proof.
  intros Hw Hr. unfold split_while. rewrite partition_point_stop by done. unfold upto, from, zlen. rewrite Nat2Z.id.
  by rewrite take_app_length, drop_app_length.
Qed.

Lemma fmt_dec_nonempty n : fmt_dec n <> [].
Proof. unfold fmt_dec. destruct (fmt_digits_head 63 10 n []) as (d & l & -> & _); [lia|done]. Qed.

Lemma int_token_split v r : (match r with [] => True | c :: _ => is_ascii_alphanumeric c = false end) ->
  split_int_token (print_hex v ++ r) = (print_hex v, r).
Proof.
  intros Hr. apply split_while_app; [|done]. eapply Forall_impl; [apply print_hex_low|].
  intros c Hc. cbv beta in Hc. unfold is_ascii_alphanumeric, is_ascii_digit, is_ascii_lower, is_ascii_upper. lia.
Qed.

Definition res_tail (div add : Z) : list Z :=
  (if div =? 0 then [] else 47 :: print_hex div) ++ (if add =? 0 then [] else 43 :: print_hex add).

Lemma parse_res_print idx div add : is_u64 idx -> is_u64 div -> is_u64 add ->
  parse_res_ref (114 :: fmt_dec idx ++ res_tail div add) = Some (Res idx div add).
Proof.
  intros Hi Hd Ha. unfold parse_res_ref.
  change (strip_prefix [114] (114 :: fmt_dec idx ++ res_tail div add)) with (Some (fmt_dec idx ++ res_tail div add)).
  cbn [mbind option_bind]. unfold split_digits.
  rewrite split_while_app; [|by apply fmt_digits_decimal|by unfold res_tail; destruct (div =? 0), (add =? 0)].
  rewrite bool_decide_false by apply fmt_dec_nonempty. rewrite parse_u64_fmt_dec by done. cbn [mbind option_bind].
  unfold res_tail. destruct (Z.eqb_spec div 0) as [->|Hd0].
  - cbn [app]. destruct (Z.eqb_spec add 0) as [->|Ha0]; [done|].
    change (strip_prefix [47] (43 :: print_hex add)) with (@None (list Z)). cbv iota.
    change (strip_prefix [43] (43 :: print_hex add)) with (Some (print_hex add)). cbv iota.
    rewrite <- (app_nil_r (print_hex add)) at 1. rewrite int_token_split by done. by rewrite parse_int_hex.
  - cbn [app].
    change (strip_prefix [47] (47 :: print_hex div ++ (if add =? 0 then [] else 43 :: print_hex add)))
      with (Some (print_hex div ++ (if add =? 0 then [] else 43 :: print_hex add))). cbv iota.
    rewrite int_token_split by (by destruct (add =? 0)). rewrite parse_int_hex by done.
    destruct (Z.eqb_spec add 0) as [->|Ha0]; [done|].
    change (strip_prefix [43] (43 :: print_hex add)) with (Some (print_hex add)). cbv iota.
    rewrite <- (app_nil_r (print_hex add)) at 1. rewrite int_token_split by done. by rewrite parse_int_hex.
Qed.

Lemma res_token idx div add : token (114 :: fmt_dec idx ++ res_tail div add).
Proof.
  split; [done|]. assert (forall v, Forall (fun c => 33 <= c < 127 /\ is_sep c = false) (print_hex v)) as Hh.
  { intros v. eapply Forall_impl; [apply print_hex_low|]. intros c Hc. cbv beta in Hc. unfold is_sep. lia. }
  constructor; [done|]. apply Forall_app. split.
  - eapply Forall_impl; [by apply fmt_digits_low|]. intros c Hc. unfold is_sep. simpl in Hc. lia.
  - unfold res_tail. apply Forall_app. split; case_match; try done; constructor; done.
Qed.

Lemma word_value_res idx div add : is_u64 idx -> is_u64 div -> is_u64 add ->
  word_value (114 :: fmt_dec idx ++ res_tail div add) = Res idx div add.
Proof.
  intros. unfold word_value. rewrite parse_res_print by done. by rewrite !bool_decide_false by done.
Qed.

Lemma hex2_digits b : is_u8 b -> to_digit (digit_char (b / 16)) 16 = Some (b / 16) /\
  to_digit (digit_char (b mod 16)) 16 = Some (b mod 16) /\ b / 16 * 16 + b mod 16 = b /\
  is_ascii_hexdigit (digit_char (b / 16)) = true /\ is_ascii_hexdigit (digit_char (b mod 16)) = true.
Proof.
  unfold is_u8. intros Hb. rewrite !to_digit_char by dlia. split_and!; try done; [dlia|..];
    unfold digit_char, is_ascii_hexdigit, is_ascii_digit.
  - destruct (Z.ltb_spec (b / 16) 10); dlia.
  - destruct (Z.ltb_spec (b mod 16) 10); dlia.
Qed.

Lemma decode_hex_print d : bytes_ok d -> decode_hex_bytes (concat (hex2 <$> d)) = Done d.
Proof.
  intros Hd. unfold decode_hex_bytes.
  assert (forallb is_ascii_hexdigit (concat (hex2 <$> d)) = true /\ hex_pairs (concat (hex2 <$> d)) = d /\
          zlen (concat (hex2 <$> d)) = 2 * zlen d) as (H1 & H2 & H3).
  { induction Hd as [|b d Hb _ (I1 & I2 & I3)]; [done|]. rewrite fmap_cons. cbn [concat].
    destruct (hex2_digits b Hb) as (E1 & E2 & E3 & E4 & E5). unfold hex2 at 1 3 5. cbn [app forallb hex_pairs].
    rewrite E1, E2, E3, E4, E5, I1, I2, !zlen_cons, I3. split_and!; [done|done|lia]. }
  destruct d as [|b d]; [done|]. inversion Hd as [|? ? Hb _]; subst.
  assert (strip_prefix [36] (concat (hex2 <$> b :: d)) = None) as ->.
  { rewrite fmap_cons. cbn [concat hex2 app strip_prefix]. destruct (hex2_digits b Hb) as (_ & _ & _ & E & _).
    destruct (Z.eqb_spec 36 (digit_char (b / 16))) as [Eq|]; [|done]. by rewrite <- Eq in E. }
  rewrite H1, H2, H3, bool_decide_false by done. rewrite Z.mul_comm, Z_mod_mult. done.
Qed.

Lemma hex_plain c d : bytes_ok d -> (c = 34 \/ c = 39) -> plain c (concat (hex2 <$> d)).
Proof.
  intros Hd Hc. apply Forall_concat, Forall_fmap. eapply Forall_impl; [exact Hd|]. intros b Hb. unfold is_u8 in Hb.
  unfold compose, hex2, digit_char. repeat constructor; case_match; dlia.
Qed.

(** * The round trip *)

Lemma print_arg_head a : exists c l, print_arg a = c :: l /\ 33 <= c < 127 /\ c <> 44 /\ c <> 125 /\ c <> 93.
Proof.
  destruct a as [v|idx div add|addr [inner|]|d|fs|fs|a| |slot inner|]; cbn [print_arg]; unfold print_ptr, print_hex;
    try (destruct (addr =? AUTO_ADDR)); eexists _, _; (split; [reflexivity|split_and!; vm_compute; done]).
Qed.

(** Only the bare [nil] starts with [nil]. *)
Lemma print_arg_not_nil a l : a <> Nil ->
  starts_with (bs "nil") (print_arg a ++ l) = false /\ starts_with (bs "ANY=") (print_arg a ++ l) = false.
Proof.
  intros Ha. destruct a as [v|idx div add|addr [inner|]|d|fs|fs|a| |slot inner|]; cbn [print_arg]; unfold print_ptr, print_hex;
    try (destruct (addr =? AUTO_ADDR)); try done; split; reflexivity.
Qed.

Lemma arg_wf_Forall fs : foldr (fun a P => arg_wf a /\ P) True fs <-> Forall arg_wf fs.
Proof.
  induction fs as [|a fs IH]; simpl; [split; [constructor|done]|]. rewrite IH, Forall_cons. done.
Qed.

Lemma depth_Forall fs n : (foldr (fun a n => Nat.max (depth a) n) 0 fs <= n)%nat -> Forall (fun a => (depth a <= n)%nat) fs.
Proof. induction fs as [|a fs IH]; simpl; constructor; [lia|]. apply IH. lia. Qed.

(** The parser [p] reads back the printed text of [a]. *)
Definition reads (s : list Z) (p : Z -> outcome (Arg * Z)) (a : Arg) : Prop :=
  forall i rest, at_ s i (print_arg a ++ rest) -> next_ok rest -> p i = Done (a, i + zlen (print_arg a)).

Lemma starts_at_at s i pat l : at_ s i l -> starts_at s pat i = starts_with pat l.
Proof. intros [_ Hf]. unfold starts_at. by rewrite Hf. Qed.

Lemma eat_at s i c d l : at_ s i (c :: l) -> is_whitespace c = false ->
  eat s d i = (if c =? d then (true, i + 1) else (false, i)).
Proof. intros H Hc. unfold eat. rewrite (eat_ws_at s i c l H Hc), (at_peek s i c l H). done. Qed.

Lemma visible_not_ws c : 33 <= c < 127 -> is_whitespace c = false.
Proof. unfold is_whitespace. lia. Qed.

Section Reads.
Context (s : list Z) (p : Z -> outcome (Arg * Z)).

(** Where the list ends: at the closing character, or at the end of the text. *)
Definition list_end (close : Z) (t : list Z) : Prop :=
  ((close = 125 \/ close = 93) /\ exists rest, t = close :: rest) \/ (close = 0 /\ t = []).

Lemma list_end_peek close t i : list_end close t -> at_ s i t -> peek s i = close /\ close <> 44 /\ next_ok t /\ eat_ws s i = i.
Proof.
  intros [[Hc (rest & ->)]|[-> ->]] Hi.
  - rewrite (at_peek s i _ _ Hi). rewrite (eat_ws_at s i close rest Hi) by (by destruct Hc as [->| ->]).
    split_and!; try done; [lia|by right].
  - rewrite (at_peek_nil s i Hi), (eat_ws_nil s i Hi). done.
Qed.

(** The space after a comma is skipped. *)
Lemma list_step_space close acc i l : at_ s i (32 :: l) -> list_step s p close (acc, i) = list_step s p close (acc, i + 1).
Proof.
  intros Hi. unfold list_step. assert (eat_ws s i = eat_ws s (i + 1)) as ->; [|done].
  unfold eat_ws, skip_while. rewrite (proj2 Hi), (proj2 (at_cons _ _ _ _ Hi)). cbn [partition_point].
  change (is_whitespace 32) with true. cbv iota. lia.
Qed.

Lemma list_reads close fs acc fuel i t : list_end close t -> Forall (reads s p) fs ->
  (length fs < fuel)%nat -> at_ s i (join (bs ", ") (print_arg <$> fs) ++ t) ->
  loop fuel (list_step s p close) (acc, i) =
    Done (acc ++ fs, i + zlen (join (bs ", ") (print_arg <$> fs)) + match fs, t with [], [] => 0 | _, _ => 1 end).
Proof.
  intros Hc Hfs. revert acc fuel i. induction Hfs as [|a fs Ha Hfs IH]; intros acc fuel i Hf Hi;
    (destruct fuel as [|fuel]; [simpl in Hf; lia|]); cbn [loop]; unfold list_step at 2.
  - change (join (bs ", ") (print_arg <$> []) ++ t) with t in Hi.
    destruct (list_end_peek _ _ _ Hc Hi) as (Hp & _ & _ & ->). rewrite Hp, Z.eqb_refl.
    change (zlen (join (bs ", ") (print_arg <$> []))) with 0. rewrite app_nil_r, Z.add_0_r.
    destruct t as [|c t]; [by rewrite (at_end_nil s i Hi), Z.add_0_r|by rewrite (at_end_cons s i _ _ Hi)].
  - rewrite fmap_cons in *.
    destruct (print_arg_head a) as (c & l & El & Hv & H44 & H125 & H93).
    assert (exists rest', join (bs ", ") (print_arg a :: (print_arg <$> fs)) ++ t = print_arg a ++ rest'
      /\ next_ok rest' /\ (fs = [] /\ rest' = t \/
          fs <> [] /\ rest' = 44 :: 32 :: join (bs ", ") (print_arg <$> fs) ++ t)) as (rest' & Er & Hn & Hr).
    { destruct fs as [|b fs].
      - exists t. split_and!; [done| |by left]. destruct Hc as [[Hc (r & ->)]|[_ ->]]; [by right|done].
      - exists (44 :: 32 :: join (bs ", ") (print_arg <$> b :: fs) ++ t). rewrite fmap_cons.
        split_and!; [|by left|by right]. cbn [join]. rewrite <- !app_assoc. done. }
    rewrite Er in Hi. assert (at_ s i (c :: l ++ rest')) as Hi' by (by rewrite El in Hi).
    rewrite (eat_ws_at s i _ _ Hi') by (by apply visible_not_ws).
    assert (close = 125 \/ close = 93 \/ close = 0) as Hc' by (destruct Hc as [[[|] _]|[? _]]; auto).
    rewrite (at_end_cons s i _ _ Hi'), (at_peek s i _ _ Hi'). replace (c =? close) with false by lia.
    rewrite (Ha i rest' Hi Hn). cbn [mbind outcome_bind]. pose proof (at_app _ _ _ _ Hi) as Ha'.
    rewrite (eat_ws_next s _ _ Ha' Hn). set (k := i + zlen (print_arg a)) in *.
    destruct Hr as [[-> ->]|[Hne ->]].
    + destruct (list_end_peek _ _ _ Hc Ha') as (-> & _). replace (close =? 44) with false by lia. rewrite Z.eqb_refl. done.
    + rewrite (at_peek s k _ _ Ha'). cbn [Z.eqb Pos.eqb mbind outcome_bind]. apply at_cons in Ha'.
      assert (loop fuel (list_step s p close) (acc ++ [a], k + 1) = loop fuel (list_step s p close) (acc ++ [a], k + 1 + 1)) as ->.
      { destruct fuel as [|fuel]; [done|]. cbn [loop]. by rewrite (list_step_space _ _ _ _ Ha'). }
      rewrite IH; [|simpl in Hf; lia|by apply at_cons in Ha']. rewrite <- app_assoc. cbn [app]. do 2 f_equal.
      destruct fs as [|b fs]; [done|]. rewrite fmap_cons. cbn [join]. rewrite !zlen_app. change (zlen (bs ", ")) with 2. lia.
Qed.

End Reads.

(** One syntactic form each: [p] reads the nested arguments. *)
Section Forms.
Context (s : list Z) (p : Z -> outcome (Arg * Z)).

Lemma word_reads i w rest : token w -> at_ s i (w ++ rest) -> next_ok rest ->
  (match w with c :: _ => c <> 38 /\ c <> 60 /\ c <> 123 /\ c <> 91 /\ c <> 64 /\ c <> 34 /\ c <> 39 | [] => True end) ->
  arg_inner s p i = Done (word_value w, i + zlen w).
Proof.
  intros Hw Hi Hn Hc. destruct w as [|c w]; [by destruct Hw|]. unfold arg_inner, arg_match.
  rewrite (at_peek s i _ _ Hi). rewrite (word_at s i _ _ Hi Hw Hn).
  repeat match goal with |- context [c =? ?k] => replace (c =? k) with false by lia end. done.
Qed.

Lemma zlen_join_ge fs : Z.of_nat (length fs) <= zlen (join (bs ", ") (print_arg <$> fs)).
Proof.
  induction fs as [|a fs IH]; [done|]. rewrite fmap_cons.
  destruct (print_arg_head a) as (c & l & E & _). pose proof (zlen_nonneg l).
  destruct fs as [|b fs]; [change (join (bs ", ") (print_arg a :: (print_arg <$> []))) with (print_arg a); rewrite E, zlen_cons; simpl; lia|].
  change (join (bs ", ") (print_arg a :: (print_arg <$> b :: fs)))
    with (print_arg a ++ bs ", " ++ join (bs ", ") (print_arg <$> b :: fs)).
  rewrite E, !zlen_app, zlen_cons. change (zlen (bs ", ")) with 2. simpl length in *. lia.
Qed.

Lemma list_form_reads close fs i t : list_end close t -> Forall (reads s p) fs ->
  at_ s i (join (bs ", ") (print_arg <$> fs) ++ t) ->
  list_ s p close i = Done (fs, i + zlen (join (bs ", ") (print_arg <$> fs)) + match fs, t with [], [] => 0 | _, _ => 1 end).
Proof.
  intros Hc Hfs Hi. unfold list_. eapply (list_reads s p close fs []); [done|done| |done].
  pose proof (at_zlen _ _ _ Hi) as Hz. rewrite zlen_app in Hz. pose proof (zlen_nonneg t). pose proof (zlen_join_ge fs).
  destruct Hi. unfold zlen in *. lia.
Qed.

(** The address, and what follows the equals sign. *)
Definition ptr_target (addr i : Z) : outcome (Arg * Z) :=
  let '(eq, i) := eat s 61 i in
  if eq : bool then
    let i := eat_ws s i in
    let i := if starts_at s (bs "ANY=") i then i + 4 else i in
    if starts_at s (bs "nil") i then Done (Ptr addr None, i + 3)
    else '(inner, i) ← p i; Done (Ptr addr (Some inner), i)
  else Done (Ptr addr None, i).

Lemma ptr_addr_reads addr i l : is_u64 addr -> at_ s i (print_ptr addr ++ 61 :: l) ->
  ptr s p i = ptr_target addr (i + zlen (print_ptr addr)).
Proof.
  intros Ha Hi. unfold ptr, print_ptr in *. destruct (Z.eqb_spec addr AUTO_ADDR) as [->|Hne].
  - change (bs "&AUTO" ++ 61 :: l) with (38 :: bs "AUTO" ++ 61 :: l) in Hi. apply at_cons in Hi.
    rewrite (starts_at_at s _ _ _ Hi). change (starts_with (bs "AUTO") (bs "AUTO" ++ 61 :: l)) with true.
    cbv iota beta. fold (ptr_target AUTO_ADDR (i + 1 + 4)). f_equal. change (zlen (bs "&AUTO")) with 5. lia.
  - set (v := ENCODING_ADDR_BASE +₆₄ addr) in *. assert (is_u64 v) as Hv by apply as_u64_range.
    rewrite <- !app_assoc in Hi. change (bs "&(" ++ print_hex v ++ bs ")" ++ 61 :: l) with (38 :: 40 :: print_hex v ++ 41 :: 61 :: l) in Hi.
    apply at_cons in Hi. rewrite (starts_at_at s _ _ _ Hi).
    change (starts_with (bs "AUTO") (40 :: print_hex v ++ 41 :: 61 :: l)) with false. cbv iota beta zeta.
    rewrite (eat_at s _ _ 40 _ Hi) by done. cbn [Z.eqb Pos.eqb]. apply at_cons in Hi.
    rewrite (until_at s _ 41 (print_hex v) (61 :: l)); [|done|].
    2:{ eapply Forall_impl; [apply print_hex_low|]. simpl. lia. }
    assert (match split_on 47 (print_hex v) with h :: _ => h | [] => [] end = print_hex v) as ->.
    { assert (Forall (fun c => c <> 47) (print_hex v)) as H by (eapply Forall_impl; [apply print_hex_low|]; simpl; lia).
      revert H. generalize (print_hex v). clear. intros w H. induction H as [|c w Hc _ IH]; [done|].
      cbn [split_on]. replace (c =? 47) with false by lia. destruct (split_on 47 w); [by rewrite <- IH|by rewrite IH]. }
    rewrite trim_visible by (eapply Forall_impl; [apply print_hex_low|]; simpl; lia).
    rewrite parse_int_hex by done. unfold default.
    change (id v) with v. assert (v -₆₄ ENCODING_ADDR_BASE = addr) as ->.
    { unfold v, as_u64. rewrite Zminus_mod_idemp_l. rewrite Z.add_simpl_l. by apply Z.mod_small. }
    fold (ptr_target addr (i + 1 + 1 + zlen (print_hex v) + 1)). f_equal. rewrite !zlen_app.
    change (zlen (bs "&(")) with 2. change (zlen (bs ")")) with 1. lia.
Qed.

Lemma ptr_nil_reads addr i rest : is_u64 addr -> at_ s i (print_arg (Ptr addr None) ++ rest) ->
  ptr s p i = Done (Ptr addr None, i + zlen (print_arg (Ptr addr None))).
Proof.
  intros Ha Hi. cbn [print_arg] in *. rewrite <- app_assoc in Hi.
  change (bs "=nil" ++ rest) with (61 :: 110 :: 105 :: 108 :: rest) in Hi.
  rewrite (ptr_addr_reads addr i _ Ha Hi). apply at_app in Hi. unfold ptr_target.
  rewrite (eat_at s _ _ 61 _ Hi) by done. cbn [Z.eqb Pos.eqb]. apply at_cons in Hi.
  rewrite (eat_ws_at s _ _ _ Hi) by done. rewrite !(starts_at_at s _ _ _ Hi).
  change (starts_with (bs "ANY=") _) with false. change (starts_with (bs "nil") _) with true. cbv iota.
  rewrite zlen_app. change (zlen (bs "=nil")) with 4. do 2 f_equal. lia.
Qed.

Lemma ptr_inner_reads addr inner i rest : is_u64 addr -> inner <> Nil -> reads s p inner -> next_ok rest ->
  at_ s i (print_arg (Ptr addr (Some inner)) ++ rest) ->
  ptr s p i = Done (Ptr addr (Some inner), i + zlen (print_arg (Ptr addr (Some inner)))).
Proof.
  intros Ha Hne Hp Hn Hi. cbn [print_arg] in *. rewrite <- app_assoc in Hi. cbn [app] in Hi.
  rewrite (ptr_addr_reads addr i _ Ha Hi). apply at_app in Hi. unfold ptr_target.
  rewrite (eat_at s _ _ 61 _ Hi) by done. cbn [Z.eqb Pos.eqb]. apply at_cons in Hi.
  destruct (print_arg_head inner) as (c & l & El & Hv & _).
  assert (at_ s (i + zlen (print_ptr addr) + 1) (c :: l ++ rest)) as Hi' by (by rewrite El in Hi).
  rewrite (eat_ws_at s _ _ _ Hi') by (by apply visible_not_ws). destruct (print_arg_not_nil inner rest Hne) as [E1 E2].
  rewrite (starts_at_at s _ _ _ Hi), E2. rewrite (starts_at_at s _ _ _ Hi), E1. rewrite (Hp _ _ Hi Hn). cbn [mbind outcome_bind].
  rewrite zlen_app, zlen_cons. do 2 f_equal. lia.
Qed.

Lemma data_reads d i rest : bytes_ok d -> next_ok rest -> at_ s i (print_arg (Data d) ++ rest) ->
  arg_match s p i = Done (Data d, i + zlen (print_arg (Data d))).
Proof.
  intros Hd Hn Hi. cbn [print_arg app] in *. rewrite <- app_assoc in Hi. cbn [app] in Hi.
  unfold arg_match. rewrite (at_peek s i _ _ Hi). cbn [Z.eqb Pos.eqb]. apply at_cons in Hi.
  rewrite (until_at s _ 34 _ _ Hi) by (apply hex_plain; [done|by left]).
  rewrite decode_hex_print by done. cbn [mbind outcome_bind]. apply at_app, at_cons in Hi.
  assert (opt_size_suffix s (i + 1 + zlen (concat (hex2 <$> d)) + 1) = i + 1 + zlen (concat (hex2 <$> d)) + 1) as ->.
  { unfold opt_size_suffix. destruct rest as [|c rest]; [by rewrite (at_peek_nil _ _ Hi)|].
    rewrite (at_peek _ _ _ _ Hi). by destruct Hn as [->|[->| ->]]. }
  rewrite zlen_cons, zlen_app. change (zlen [34]) with 1. do 2 f_equal. lia.
Qed.

Lemma out_reads slot inner i rest : is_u64 slot -> reads s p inner -> next_ok rest ->
  at_ s i (print_arg (Out slot inner) ++ rest) ->
  arg_inner s p i = Done (Out slot inner, i + zlen (print_arg (Out slot inner))).
Proof.
  intros Hs Hp Hn Hi. cbn [print_arg] in *.
  assert (Forall (fun c => 48 <= c <= 57) (fmt_dec slot)) as Hd.
  { eapply Forall_impl; [by apply (fmt_digits_decimal 64 slot [])|]. unfold is_ascii_digit. simpl. lia. }
  rewrite <- !app_assoc in Hi.
  change (bs "<r" ++ fmt_dec slot ++ bs "=>" ++ print_arg inner ++ rest)
    with (60 :: 114 :: fmt_dec slot ++ [61] ++ 62 :: print_arg inner ++ rest) in Hi.
  unfold arg_inner. rewrite (at_peek s i _ _ Hi). cbn [Z.eqb Pos.eqb]. apply at_cons in Hi.
  replace (114 :: fmt_dec slot ++ [61] ++ 62 :: print_arg inner ++ rest)
    with ((114 :: fmt_dec slot ++ [61]) ++ 62 :: print_arg inner ++ rest) in Hi by (cbn [app]; by rewrite <- app_assoc).
  rewrite (until_at s _ 62 _ _ Hi).
  2:{ constructor; [done|]. apply Forall_app. split; [|by repeat constructor]. eapply Forall_impl; [exact Hd|]. simpl. lia. }
  assert (strip_suffix [61] (114 :: fmt_dec slot ++ [61]) = Some (114 :: fmt_dec slot)) as ->.
  { unfold strip_suffix. rewrite app_comm_cons, reverse_app.
    change (strip_prefix (reverse [61]) (reverse [61] ++ reverse (114 :: fmt_dec slot))) with (Some (reverse (114 :: fmt_dec slot))).
    cbn [fmap option_fmap option_map]. by rewrite reverse_involutive. }
  rewrite trim_visible by (constructor; [lia|]; eapply Forall_impl; [exact Hd|]; simpl; lia).
  change (strip_prefix [114] (114 :: fmt_dec slot)) with (Some (fmt_dec slot)). cbn [mbind option_bind].
  rewrite parse_u64_fmt_dec by done. apply at_app, at_cons in Hi.
  rewrite (Hp _ _ Hi Hn). cbn [mbind outcome_bind]. rewrite !zlen_app.
  change (zlen (bs "<r")) with 2. change (zlen (bs "=>")) with 2. rewrite zlen_cons, zlen_app. change (zlen [61]) with 1.
  do 2 f_equal. lia.
Qed.

Lemma union_reads a i rest : reads s p a -> next_ok rest -> at_ s i (print_arg (Union a) ++ rest) ->
  arg_match s p i = Done (Union a, i + zlen (print_arg (Union a))).
Proof.
  intros Hp Hn Hi. cbn [print_arg] in *. rewrite <- app_assoc in Hi.
  change (bs "@u=" ++ print_arg a ++ rest) with (64 :: [117] ++ 61 :: print_arg a ++ rest) in Hi.
  unfold arg_match. rewrite (at_peek s i _ _ Hi). cbn [Z.eqb Pos.eqb]. apply at_cons in Hi.
  rewrite (skip_while_at s _ _ [117] _ Hi) by (by repeat constructor). apply at_app in Hi.
  rewrite (eat_at s _ _ 61 _ Hi) by done. cbn [Z.eqb Pos.eqb]. apply at_cons in Hi.
  change (zlen [117]) with 1 in *. rewrite (Hp _ _ Hi Hn). cbn [mbind outcome_bind].
  rewrite zlen_app. change (zlen (bs "@u=")) with 3. do 2 f_equal. lia.
Qed.
End Forms.

Lemma arg_reads s d a : (depth a <= d)%nat -> arg_wf a -> reads s (arg s d) a.
Proof.
  revert a. induction d as [|d IH]; intros a Hd Hwf i rest Hi Hn.
  { destruct a as [| |? []| | | | | | |]; simpl in Hd; lia. }
  cbn [arg]. destruct (print_arg_head a) as (c & l & El & Hv & _).
  assert (at_ s i (c :: l ++ rest)) as Hi' by (by rewrite El in Hi).
  rewrite (eat_ws_at s i _ _ Hi') by (by apply visible_not_ws).
  assert (forall fs, (foldr (fun a n => Nat.max (depth a) n) 0 fs <= d)%nat ->
    foldr (fun a P => arg_wf a /\ P) True fs -> Forall (reads s (arg s d)) fs) as Hfs.
  { intros fs Hf%depth_Forall Hw%arg_wf_Forall. rewrite Forall_forall in *. intros x Hx. apply IH; auto. }
  destruct a as [v|idx div add|addr [inner|]|b|fs|fs|a| |slot inner|]; cbn [depth arg_wf] in Hd, Hwf.
  - cbn [print_arg] in *. rewrite (word_reads s _ i (print_hex v) rest), word_value_hex; try done.
    apply alnum_token; [done|apply print_hex_low].
  - destruct Hwf as (H1 & H2 & H3). cbn [print_arg] in *. fold (res_tail div add) in *.
    rewrite (word_reads s _ i (114 :: fmt_dec idx ++ res_tail div add) rest), word_value_res; try done. apply res_token.
  - destruct Hwf as (H1 & H2 & H3). unfold arg_inner, arg_match.
    assert (peek s i = 38) as ->; [|apply (ptr_inner_reads s _ addr inner i rest); try done; apply IH; [lia|done]].
    rewrite (at_peek s i _ _ Hi'). cbn [print_arg] in El. unfold print_ptr in El.
    destruct (addr =? AUTO_ADDR); by injection El as <- _.
  - unfold arg_inner, arg_match.
    assert (peek s i = 38) as ->; [|by apply (ptr_nil_reads s _ addr i rest)].
    rewrite (at_peek s i _ _ Hi'). cbn [print_arg] in El. unfold print_ptr in El.
    destruct (addr =? AUTO_ADDR); by injection El as <- _.
  - unfold arg_inner. rewrite (at_peek s i _ _ Hi). cbn [Z.eqb Pos.eqb]. by apply (data_reads s _ b i rest).
  - cbn [print_arg app] in *. rewrite <- app_assoc in Hi. unfold arg_inner, arg_match.
    rewrite (at_peek s i _ _ Hi). cbn [Z.eqb Pos.eqb]. apply at_cons in Hi.
    rewrite (list_form_reads s _ 125 fs _ (125 :: rest)); [|by left; eauto|apply Hfs; [lia|done]|done].
    replace (match fs with [] => 1 | _ => 1 end) with 1 by (by destruct fs).
    cbn [mbind outcome_bind]. rewrite zlen_cons, zlen_app. change (zlen [125]) with 1. do 2 f_equal. lia.
  - cbn [print_arg app] in *. rewrite <- app_assoc in Hi. unfold arg_inner, arg_match.
    rewrite (at_peek s i _ _ Hi). cbn [Z.eqb Pos.eqb]. apply at_cons in Hi.
    rewrite (list_form_reads s _ 93 fs _ (93 :: rest)); [|by left; eauto|apply Hfs; [lia|done]|done].
    replace (match fs with [] => 1 | _ => 1 end) with 1 by (by destruct fs).
    cbn [mbind outcome_bind]. rewrite zlen_cons, zlen_app. change (zlen [93]) with 1. do 2 f_equal. lia.
  - unfold arg_inner. rewrite (at_peek s i _ _ Hi). cbn [Z.eqb Pos.eqb].
    apply (union_reads s _ a i rest); [|done|done]. apply IH; [lia|done].
  - rewrite (word_reads s _ i (bs "csum") rest); try done. by repeat constructor.
  - destruct Hwf. apply (out_reads s _ slot inner i rest); try done. apply IH; [lia|done].
  - rewrite (word_reads s _ i (bs "nil") rest); try done. by repeat constructor.
Qed.

