(* ===== verification/ProgText.v ===== *)
(** The textual syntax of a call and of a program, and their round trip
    through [parse_call] and [parse_prog]. *)
From S2P Require Import Prelude Text Inflate Syscalls ProgSyntax ProgPrint.

Definition print_props (c : Call) : list Z :=
  match fail_nth c, is_async c with
  | None, false => []
  | None, true => bs " (async)"
  | Some v, false => bs " (fail_nth: " ++ print_hex v ++ bs ")"
  | Some v, true => bs " (fail_nth: " ++ print_hex v ++ bs ", async)"
  end.

Definition print_args (l : list Arg) : list Z := join (bs ", ") (print_arg <$> l).

Definition print_res (c : Call) : list Z := match res c with Some n => 114 :: fmt_dec n ++ bs " = " | None => [] end.

Definition print_call (c : Call) : list Z :=
  print_res c ++ name c ++ 40 :: print_args (args c) ++ 41 :: print_props c.

Definition print_prog (p : Prog) : list Z := concat ((fun c => print_call c ++ [10]) <$> p).

Definition is_name_char (c : Z) : bool := is_ascii_alphanumeric c || (c =? 95) || (c =? 36).

(** A call the text can express; [base] and [nr] are what its name says. *)
Definition call_wf (arch : Arch) (c : Call) : Prop :=
  name c <> [] /\ Forall (fun x => is_name_char x = true) (name c) /\
  base c = match split_on 36 (name c) with b :: _ => b | [] => name c end /\
  nr c = syscall_nr arch (base c) /\
  Forall arg_wf (args c) /\ Forall (fun a => (depth a <= MAX_DEPTH)%nat) (args c) /\
  (match res c with Some n => is_u64 n | None => True end) /\
  (match fail_nth c with Some v => 0 <= v < 2 ^ 31 | None => True end).

(** * Balanced text *)

(** The quote-aware scanners pass over [u] and are where they were; [u] is
    one line. *)
Definition balanced (u : list Z) : Prop :=
  Forall (fun x => x <> 10 /\ x <> 13) u /\
  (forall depth i r, 1 <= depth -> matching_paren_go (u ++ r) depth 0 i = matching_paren_go r depth 0 (i + zlen u)) /\
  (forall i r, comment_pos_go (u ++ r) 0 i = comment_pos_go r 0 (i + zlen u)).

Lemma balanced_nil : balanced [].
Proof. split; [constructor|]. split; intros; cbn [app]; f_equal; change (zlen []) with 0; lia. Qed.

Lemma balanced_app u v : balanced u -> balanced v -> balanced (u ++ v).
Proof.
  intros (U0 & U1 & U2) (V0 & V1 & V2). split; [by apply Forall_app|]. split; intros.
  - rewrite <- app_assoc, U1, V1 by done. f_equal. rewrite zlen_app. lia.
  - rewrite <- app_assoc, U2, V2 by done. f_equal. rewrite zlen_app. lia.
Qed.

(** Neither a quote, a parenthesis nor a comment. *)
Definition inert (c : Z) : bool :=
  negb ((c =? 34) || (c =? 39) || (c =? 40) || (c =? 41) || (c =? 35) || (c =? 10) || (c =? 13)).

Lemma balanced_cons c u : inert c = true -> balanced u -> balanced (c :: u).
Proof.
  intros Hc Hu. apply (balanced_app [c] u); [|done]. unfold inert in Hc.
  split; [repeat constructor; lia|].
  split; intros; cbn [app matching_paren_go comment_pos_go]; change (negb (0 =? 0)) with false; cbv iota;
    destruct (c =? 34) eqn:E1; try done; destruct (c =? 39) eqn:E2; try done; cbn [orb];
    [destruct (c =? 40) eqn:E3, (c =? 41) eqn:E4; try done|destruct (c =? 35) eqn:E3; try done];
    change (zlen [c]) with 1; try done; by rewrite !orb_true_r in Hc.
Qed.

Lemma balanced_inert u : Forall (fun c => inert c = true) u -> balanced u.
Proof. induction 1; [apply balanced_nil|by apply balanced_cons]. Qed.

Lemma balanced_paren u : balanced u -> balanced (40 :: u ++ [41]).
Proof.
  intros (H0 & H1 & H2). split; [constructor; [done|]; apply Forall_app; split; [done|by repeat constructor]|].
  split; intros; rewrite zlen_cons, zlen_app; change (zlen [41]) with 1; cbn [app]; rewrite <- app_assoc; cbn [app].
  - cbn [matching_paren_go]. cbn [negb Z.eqb Pos.eqb orb]. rewrite H1 by lia. cbn [matching_paren_go]. cbn [negb Z.eqb Pos.eqb orb].
    replace (depth + 1 - 1 =? 0) with false by lia. f_equal; lia.
  - cbn [comment_pos_go]. cbn [negb Z.eqb Pos.eqb orb]. rewrite H2. cbn [comment_pos_go]. cbn [negb Z.eqb Pos.eqb orb]. f_equal. lia.
Qed.

Lemma balanced_quoted q u : q = 34 \/ q = 39 -> plain q u -> Forall (fun x => x <> 10 /\ x <> 13) u ->
  balanced (q :: u ++ [q]).
Proof.
  intros Hq Hu H0.
  split; [constructor; [lia|]; apply Forall_app; split; [done|by constructor; [lia|]]|]. clear H0.
  assert (forall depth i r, matching_paren_go (u ++ q :: r) depth q i = matching_paren_go r depth 0 (i + zlen u + 1)) as H1.
  { intros depth. induction Hu as [|c u (Hc & Hc' & _) _ IH]; intros i r; cbn [app matching_paren_go];
      replace (negb (q =? 0)) with true by lia.
    - replace (q =? 92) with false by lia. rewrite Z.eqb_refl. f_equal. change (zlen []) with 0. lia.
    - replace (c =? 92) with false by lia. replace (c =? q) with false by lia. rewrite IH, zlen_cons. f_equal. lia. }
  assert (forall i r, comment_pos_go (u ++ q :: r) q i = comment_pos_go r 0 (i + zlen u + 1)) as H2.
  { clear H1. induction Hu as [|c u (Hc & Hc' & _) _ IH]; intros i r; cbn [app comment_pos_go];
      replace (negb (q =? 0)) with true by lia.
    - replace (q =? 92) with false by lia. rewrite Z.eqb_refl. f_equal. change (zlen []) with 0. lia.
    - replace (c =? 92) with false by lia. replace (c =? q) with false by lia. rewrite IH, zlen_cons. f_equal. lia. }
  split; intros; rewrite zlen_cons, zlen_app; change (zlen [q]) with 1; cbn [app]; rewrite <- app_assoc; cbn [app matching_paren_go comment_pos_go];
    change (negb (0 =? 0)) with false; replace ((q =? 34) || (q =? 39)) with true by lia; cbv iota;
    rewrite ?H1, ?H2; f_equal; lia.
Qed.

Lemma low_inert u : Forall (fun c => 48 <= c <= 57 \/ 97 <= c <= 122) u -> balanced u.
Proof. intros H. apply balanced_inert. eapply Forall_impl; [exact H|]. intros c Hc. cbv beta in Hc. unfold inert. lia. Qed.

Lemma fmt_dec_low n : Forall (fun c => 48 <= c <= 57 \/ 97 <= c <= 122) (fmt_dec n).
Proof. by apply fmt_digits_low. Qed.

Lemma balanced_join l : Forall balanced l -> balanced (join (bs ", ") l).
Proof.
  induction 1 as [|u l Hu Hl IH]; [apply balanced_nil|]. destruct l; [done|]. cbn [join].
  apply balanced_app; [done|]. change (bs ", " ++ ?x) with (44 :: 32 :: x). by do 2 (apply balanced_cons; [done|]).
Qed.

Lemma balanced_ptr addr : balanced (print_ptr addr).
Proof.
  unfold print_ptr. destruct (_ =? _); [by apply balanced_inert; repeat constructor|].
  change (bs "&(" ++ ?x ++ bs ")") with (38 :: 40 :: x ++ [41]). apply balanced_cons; [done|].
  apply balanced_paren, low_inert, print_hex_low.
Qed.

Lemma balanced_res_tail div add : balanced (res_tail div add).
Proof.
  apply balanced_app; destruct (_ =? _); try apply balanced_nil;
    (apply balanced_cons; [done|apply low_inert, print_hex_low]).
Qed.

Lemma balanced_hex d : bytes_ok d -> balanced (34 :: concat (hex2 <$> d) ++ [34]).
Proof.
  intros Hd. apply balanced_quoted; [by left|apply hex_plain; [done|by left]|].
  apply Forall_concat, Forall_fmap. eapply Forall_impl; [exact Hd|]. intros b Hb. unfold is_u8 in Hb.
  unfold compose, hex2, digit_char. repeat constructor; case_match; dlia.
Qed.

(** Every printed argument is balanced; by induction on the nesting depth. *)
Lemma balanced_arg n a : (depth a <= n)%nat -> arg_wf a -> balanced (print_arg a).
Proof.
  revert a. induction n as [|n IH]; intros a Hd Hwf.
  { destruct a as [| |? []| | | | | | |]; simpl in Hd; lia. }
  assert (forall fs, (foldr (fun a n => Nat.max (depth a) n) 0 fs <= n)%nat ->
    foldr (fun a P => arg_wf a /\ P) True fs -> balanced (print_args fs)) as Hfs.
  { intros fs Hf%depth_Forall Hw%arg_wf_Forall. apply balanced_join, Forall_fmap.
    rewrite Forall_forall in *. intros x Hx. apply IH; auto. }
  destruct a as [v|idx div add|addr [inner|]|b|fs|fs|a| |slot inner|]; cbn [depth arg_wf] in Hd, Hwf; cbn [print_arg].
  - apply low_inert, print_hex_low.
  - fold (res_tail div add). apply balanced_cons; [done|].
    apply balanced_app; [apply low_inert, fmt_dec_low|apply balanced_res_tail].
  - destruct Hwf as (_ & _ & Hwf). apply balanced_app; [apply balanced_ptr|].
    apply balanced_cons; [done|]. apply IH; [lia|done].
  - apply balanced_app; [apply balanced_ptr|]. by apply balanced_inert; repeat constructor.
  - by apply balanced_hex.
  - apply balanced_cons; [done|]. apply balanced_app; [apply Hfs; [lia|done]|]. by apply balanced_inert; repeat constructor.
  - apply balanced_cons; [done|]. apply balanced_app; [apply Hfs; [lia|done]|]. by apply balanced_inert; repeat constructor.
  - apply balanced_app; [by apply balanced_inert; repeat constructor|]. apply IH; [lia|done].
  - by apply balanced_inert; repeat constructor.
  - destruct Hwf as [_ Hwf]. apply balanced_app; [by apply balanced_inert; repeat constructor|].
    apply balanced_app; [apply low_inert, fmt_dec_low|].
    apply balanced_app; [by apply balanced_inert; repeat constructor|]. apply IH; [lia|done].
  - by apply balanced_inert; repeat constructor.
Qed.

Lemma balanced_args l : Forall arg_wf l -> balanced (print_args l).
Proof.
  intros Hl. apply balanced_join, Forall_fmap. eapply Forall_impl; [exact Hl|].
  intros a Ha. by apply (balanced_arg (depth a)).
Qed.

(** * Searching the line *)

Lemma find_app c u r : Forall (fun x => x <> c) u -> find c (u ++ c :: r) = Some (zlen u).
Proof.
  unfold find. induction 1 as [|x u Hx _ IH]; cbn [app position]; [by rewrite Z.eqb_refl|].
  replace (x =? c) with false by lia. rewrite IH, zlen_cons. simpl. f_equal. lia.
Qed.

Lemma find_not c u : Forall (fun x => x <> c) u -> find c u = None.
Proof.
  unfold find. induction 1 as [|x u Hx _ IH]; cbn [position]; [done|].
  replace (x =? c) with false by lia. by rewrite IH.
Qed.

Lemma upto_app u r : upto (u ++ r) (zlen u) = u.
Proof. unfold upto, zlen. rewrite Nat2Z.id. apply take_app_length. Qed.

Lemma from_app u r : from (u ++ r) (zlen u) = r.
Proof. unfold from, zlen. rewrite Nat2Z.id. apply drop_app_length. Qed.

Lemma from_app_S u c r : from (u ++ c :: r) (zlen u + 1) = r.
Proof.
  replace (zlen u + 1) with (zlen (u ++ [c])) by (rewrite zlen_app; done).
  replace (u ++ c :: r) with ((u ++ [c]) ++ r) by (by rewrite <- app_assoc). apply from_app.
Qed.

Lemma trim_start_edge c l : 33 <= c < 127 -> trim_start (c :: l) = c :: l.
Proof. intros Hc. unfold trim_start. cbn [length strip_all]. by rewrite (proj1 (strip_any_edge c l Hc)). Qed.

Lemma trim_end_edge l d : 33 <= d < 127 -> trim_end (l ++ [d]) = l ++ [d].
Proof.
  intros Hd. unfold trim_end. rewrite reverse_app. change (reverse [d] ++ reverse l) with (d :: reverse l).
  rewrite length_app, Nat.add_comm. cbn [length Nat.add strip_all]. rewrite (proj2 (strip_any_edge d _ Hd)).
  by rewrite reverse_cons, reverse_involutive.
Qed.

(** Text with visible first and last characters is not trimmed. *)
Lemma trim_edges l c d : 33 <= c < 127 -> 33 <= d < 127 -> (exists t, l = c :: t) -> (exists t, l = t ++ [d]) -> trim l = l.
Proof.
  intros Hc Hd [t Ht] [t' Ht']. unfold trim. rewrite Ht, trim_start_edge, <- Ht by done. rewrite Ht'. by apply trim_end_edge.
Qed.

Lemma trim_start_space c l : 33 <= c < 127 -> trim_start (32 :: c :: l) = c :: l.
Proof.
  intros Hc. unfold trim_start. cbn [length].
  assert (strip_any ws_chars (32 :: c :: l) = Some (c :: l)) as E by reflexivity.
  cbn [strip_all]. rewrite E. by rewrite (proj1 (strip_any_edge c l Hc)).
Qed.

Lemma trim_space_edges l c d : 33 <= c < 127 -> 33 <= d < 127 -> (exists t, l = c :: t) -> (exists t, l = t ++ [d]) ->
  trim (32 :: l) = l.
Proof.
  intros Hc Hd [t Ht] [t' Ht']. unfold trim. rewrite Ht, trim_start_space, <- Ht by done. rewrite Ht'. by apply trim_end_edge.
Qed.

Lemma trim_end_space l d : 33 <= d < 127 -> trim_end (l ++ [d; 32]) = l ++ [d].
Proof.
  intros Hd. unfold trim_end. rewrite reverse_app. change (reverse [d; 32] ++ reverse l) with (32 :: d :: reverse l).
  rewrite length_app, Nat.add_comm. cbn [length Nat.add].
  assert (strip_any (reverse <$> ws_chars) (32 :: d :: reverse l) = Some (d :: reverse l)) as E by reflexivity.
  cbn [strip_all]. rewrite E, (proj2 (strip_any_edge d _ Hd)). by rewrite reverse_cons, reverse_involutive.
Qed.

Lemma name_char c : is_name_char c = true -> 33 <= c < 127 /\ c <> 40 /\ c <> 61 /\ inert c = true.
Proof.
  unfold is_name_char, is_ascii_alphanumeric, is_ascii_digit, is_ascii_lower, is_ascii_upper, inert. lia.
Qed.

(** * One call *)

Section Call.
Context (arch : Arch) (c : Call) (Hwf : call_wf arch c).

Lemma name_chars : Forall (fun x => 33 <= x < 127 /\ x <> 40 /\ x <> 61 /\ inert x = true) (name c).
Proof using Hwf. destruct Hwf as (_ & H & _). eapply Forall_impl; [exact H|]. apply name_char. Qed.

Lemma name_head : exists x t, name c = x :: t /\ 33 <= x < 127 /\ x <> 40 /\ x <> 61 /\ inert x = true.
Proof using Hwf.
  pose proof name_chars as H. destruct Hwf as (Hne & _). destruct (name c) as [|x t]; [done|].
  inversion H; subst. eauto 8.
Qed.

Definition body : list Z := name c ++ 40 :: print_args (args c) ++ 41 :: print_props c.

Lemma print_call_ends l : exists t, l ++ body = t ++ [41].
Proof.
  unfold body, print_props. destruct (fail_nth c), (is_async c);
    [set (u := print_hex z ++ bs ", async)"); exists (l ++ name c ++ 40 :: print_args (args c) ++ 41 :: bs " (fail_nth: " ++ print_hex z ++ bs ", async")
    |exists (l ++ name c ++ 40 :: print_args (args c) ++ 41 :: bs " (fail_nth: " ++ print_hex z)
    |exists (l ++ name c ++ 40 :: print_args (args c) ++ 41 :: bs " (async")
    |exists (l ++ name c ++ 40 :: print_args (args c))];
    repeat first [rewrite <- app_assoc; cbn [app]|progress f_equal]; done.
Qed.

Lemma trim_body : trim body = body.
Proof using Hwf.
  destruct name_head as (x & t & E & Hx & _). apply (trim_edges _ x 41); [done|done| |].
  - unfold body. rewrite E. cbn [app]. eauto.
  - apply (print_call_ends []).
Qed.

Lemma trim_space_body : trim (32 :: body) = body.
Proof using Hwf.
  destruct name_head as (x & t & E & Hx & _). apply (trim_space_edges _ x 41); [done|done| |].
  - unfold body. rewrite E. cbn [app]. eauto.
  - apply (print_call_ends []).
Qed.

Lemma print_call_body : print_call c = print_res c ++ body.
Proof. done. Qed.

Lemma trim_print_call : trim (print_call c) = print_call c.
Proof using Hwf.
  rewrite print_call_body. unfold print_res. destruct (res c) as [n|]; [|apply trim_body].
  apply (trim_edges _ 114 41); [done|done|cbn [app]; eauto|apply print_call_ends].
Qed.

Lemma balanced_body_args : balanced (name c ++ 40 :: print_args (args c) ++ [41]).
Proof using Hwf.
  apply balanced_app.
  - apply balanced_inert. eapply Forall_impl; [apply name_chars|]. naive_solver.
  - apply balanced_paren, balanced_args. by destruct Hwf as (_ & _ & _ & _ & H & _).
Qed.

Lemma balanced_props : balanced (print_props c).
Proof.
  unfold print_props. destruct (fail_nth c) as [v|], (is_async c);
    try (pose proof (low_inert _ (print_hex_low v)); set (h := print_hex v) in *; clearbody h).
  - change (bs " (fail_nth: " ++ h ++ bs ", async)")
      with (32 :: 40 :: (bs "fail_nth: " ++ h ++ bs ", async" ++ [41])).
    rewrite !app_assoc. apply balanced_cons; [done|]. apply balanced_paren.
    repeat apply balanced_app; first [done | by apply balanced_inert; repeat constructor].
  - change (bs " (fail_nth: " ++ h ++ bs ")") with (32 :: 40 :: (bs "fail_nth: " ++ h ++ [41])).
    rewrite !app_assoc. apply balanced_cons; [done|]. apply balanced_paren.
    repeat apply balanced_app; first [done | by apply balanced_inert; repeat constructor].
  - change (bs " (async)") with (32 :: 40 :: (bs "async" ++ [41])). apply balanced_cons; [done|].
    apply balanced_paren, balanced_inert. by repeat constructor.
  - apply balanced_nil.
Qed.

Lemma balanced_print_call : balanced (print_call c).
Proof using Hwf.
  rewrite print_call_body. apply balanced_app.
  - unfold print_res. destruct (res c); [|apply balanced_nil]. apply balanced_cons; [done|].
    apply balanced_app; [apply low_inert, fmt_dec_low|]. by apply balanced_inert; repeat constructor.
  - unfold body. replace (name c ++ 40 :: print_args (args c) ++ 41 :: print_props c)
      with ((name c ++ 40 :: print_args (args c) ++ [41]) ++ print_props c).
    + apply balanced_app; [apply balanced_body_args|apply balanced_props].
    + rewrite <- app_assoc. cbn [app]. by rewrite <- app_assoc.
Qed.

Lemma no_comment : comment_pos (print_call c) = None.
Proof using Hwf.
  destruct balanced_print_call as (_ & _ & H). unfold comment_pos. rewrite <- (app_nil_r (print_call c)), H. done.
Qed.
End Call.

(** The call without its properties. *)
Definition bare (c : Call) : Call := MkCall (name c) (base c) (nr c) (args c) (res c) None false.

Definition props_inner (c : Call) : list Z :=
  match fail_nth c with
  | Some v => bs "fail_nth: " ++ print_hex v ++ (if is_async c then bs ", async" else [])
  | None => bs "async"
  end.

Lemma split_on_forall sep w : Forall (fun x => x <> sep) w -> split_on sep w = [w].
Proof.
  induction 1 as [|x w Hx _ IH]; [done|]. cbn [split_on]. replace (x =? sep) with false by lia. by rewrite IH.
Qed.

Lemma hex_not v x : x < 48 -> Forall (fun c => c <> x) (print_hex v).
Proof. intros Hx. eapply Forall_impl; [apply print_hex_low|]. simpl. lia. Qed.

Lemma visible_last w : w <> [] -> Forall (fun c => 33 <= c < 127) w -> exists t d, w = t ++ [d] /\ 33 <= d < 127.
Proof.
  intros Hne H. destruct w as [|d t _] using rev_ind; [done|]. exists t, d. split; [done|].
  apply Forall_app in H as [_ H]. by inversion H.
Qed.

Lemma parse_fail_nth c v : 0 <= v < 2 ^ 31 ->
  parse_prop c (bs "fail_nth: " ++ print_hex v) =
    MkCall (name c) (base c) (nr c) (args c) (res c) (Some v) (is_async c).
Proof.
  intros Hv. unfold parse_prop.
  assert (Forall (fun c => 33 <= c < 127) (print_hex v)) as Hvis by (eapply Forall_impl; [apply print_hex_low|]; simpl; lia).
  destruct (visible_last (print_hex v)) as (t & d & Et & Hd); [done|done|].
  rewrite (trim_edges _ 102 d); [|done|done|by eexists|].
  2:{ exists (bs "fail_nth: " ++ t). by rewrite Et, <- app_assoc. }
  rewrite bool_decide_false by done.
  replace (bs "fail_nth: " ++ print_hex v) with (bs "fail_nth:" ++ 32 :: print_hex v) by done.
  rewrite strip_prefix_app, (trim_space_edges _ 48 d); [|done|done|by eexists|by exists t].
  rewrite parse_int_hex by (unfold is_u64; lia). cbn [fmap option_fmap option_map]. do 2 f_equal.
  unfold as_i32, as_signed. change (2 ^ (32 - 1)) with (2 ^ 31). rewrite Z.mod_small by lia. lia.
Qed.

Lemma parse_props_print c : (match fail_nth c with Some v => 0 <= v < 2 ^ 31 | None => True end) ->
  print_props c <> [] -> parse_props (props_inner c) (bare c) = c.
Proof.
  destruct c as [nm b n l r [v|] a]; unfold print_props, props_inner, parse_props, bare; cbn -[bs print_hex parse_prop split_on]; intros Hv Hne.
  - destruct a.
    + replace (bs "fail_nth: " ++ print_hex v ++ bs ", async") with ((bs "fail_nth: " ++ print_hex v) ++ 44 :: bs " async") by (by rewrite <- app_assoc).
      rewrite split_on_app, split_on_forall; [|by repeat constructor|].
      * cbn [foldl]. by rewrite parse_fail_nth.
      * intros H. apply elem_of_app in H as [H|H]; [vm_compute in H; set_solver|].
        pose proof (hex_not v 44 ltac:(lia)) as Hn. rewrite Forall_forall in Hn. by apply (Hn _ H).
    + rewrite app_nil_r, split_on_forall; [|apply Forall_app; split; [by repeat constructor|by apply hex_not]].
      cbn [foldl]. by rewrite parse_fail_nth.
  - destruct a; [|done]. reflexivity.
Qed.

(** What follows the closing parenthesis. *)
Lemma props_tail c : (match fail_nth c with Some v => 0 <= v < 2 ^ 31 | None => True end) ->
  (let tail := trim (print_props c) in
   match find 40 tail, rfind 41 tail with
   | Some open, Some end_ =>
       if open <? end_ then parse_props (upto (from tail (open + 1)) (end_ - (open + 1))) (bare c) else bare c
   | _, _ => bare c
   end) = c.
Proof.
  intros Hv. cbv zeta. destruct (decide (print_props c = [])) as [E|Hne].
  { rewrite E. change (trim []) with (@nil Z). cbn. unfold print_props in E.
    destruct c as [nm b n l r [v|] []]; done. }
  assert (print_props c = 32 :: 40 :: props_inner c ++ [41]) as E.
  { clear Hv. unfold print_props, props_inner in *. destruct (fail_nth c), (is_async c); try done;
      [rewrite <- !app_assoc|rewrite app_nil_r, <- app_assoc]; done. }
  rewrite E, (trim_space_edges _ 40 41); [|done|done|by eexists|by exists (40 :: props_inner c)].
  assert (Forall (fun x => x <> 41) (props_inner c)) as Hin.
  { unfold props_inner. destruct (fail_nth c); [|by repeat constructor]. apply Forall_app. split; [by repeat constructor|].
    apply Forall_app. split; [by apply hex_not|]. by destruct (is_async c); repeat constructor. }
  change (find 40 (40 :: props_inner c ++ [41])) with (Some 0).
  assert (rfind 41 (40 :: props_inner c ++ [41]) = Some (zlen (props_inner c) + 1)) as ->.
  { unfold rfind. rewrite app_comm_cons, reverse_app.
    change (find 41 (reverse [41] ++ reverse (40 :: props_inner c))) with (Some 0). cbn [fmap option_fmap option_map].
    f_equal. rewrite zlen_app, zlen_cons. change (zlen [41]) with 1. lia. }
  pose proof (zlen_nonneg (props_inner c)). replace (0 <? zlen (props_inner c) + 1) with true by lia. cbv iota.
  change (from (40 :: props_inner c ++ [41]) (0 + 1)) with (props_inner c ++ [41]).
  replace (zlen (props_inner c) + 1 - (0 + 1)) with (zlen (props_inner c)) by lia.
  rewrite upto_app. by apply parse_props_print.
Qed.

(** The assignment, if any, is split off. *)
Lemma parse_assignment arch c : call_wf arch c ->
  exists paren, find 40 (print_call c) = Some paren /\
  match find 61 (upto (print_call c) paren) with
  | Some eq =>
      let lhs := trim (upto (print_call c) eq) in
      ((n ← strip_prefix [114] lhs; parse_u64 n), trim (from (print_call c) (eq + 1)))
  | None => (None, print_call c)
  end = (res c, body c).
Proof.
  intros Hwf. pose proof (name_chars arch c Hwf) as Hn. rewrite print_call_body. unfold print_res.
  destruct (res c) as [n|] eqn:Er.
  - assert (Forall (fun x => 48 <= x <= 57 \/ 97 <= x <= 122) (fmt_dec n)) as Hd by apply fmt_dec_low.
    assert (Forall (fun x => x <> 40) ((114 :: fmt_dec n ++ bs " = ") ++ name c)) as H40.
    { apply Forall_app. split; [|eapply Forall_impl; [exact Hn|]; naive_solver].
      constructor; [done|]. apply Forall_app. split; [|by repeat constructor]. eapply Forall_impl; [exact Hd|]. simpl. lia. }
    assert (Forall (fun x => x <> 61) (114 :: fmt_dec n ++ [32])) as H61.
    { constructor; [done|]. apply Forall_app. split; [|by repeat constructor]. eapply Forall_impl; [exact Hd|]. simpl. lia. }
    exists (zlen ((114 :: fmt_dec n ++ bs " = ") ++ name c)).
    assert ((114 :: fmt_dec n ++ bs " = ") ++ body c =
      ((114 :: fmt_dec n ++ bs " = ") ++ name c) ++ 40 :: print_args (args c) ++ 41 :: print_props c) as -> by (unfold body; by rewrite app_assoc).
    rewrite find_app, upto_app by done. split; [done|].
    assert ((114 :: fmt_dec n ++ bs " = ") ++ name c = (114 :: fmt_dec n ++ [32]) ++ 61 :: 32 :: name c) as ->.
    { cbn [app]. f_equal. rewrite <- !app_assoc. done. }
    rewrite find_app by done. rewrite <- app_assoc. cbv zeta. rewrite upto_app.
    change ((61 :: 32 :: name c) ++ ?r) with (61 :: 32 :: name c ++ r). rewrite from_app_S.
    fold (body c). rewrite (trim_space_body arch c Hwf).
    destruct (visible_last (114 :: fmt_dec n)) as (t & d & Et & Hd'); [done| |].
    { constructor; [lia|]. eapply Forall_impl; [exact Hd|]. simpl. lia. }
    assert (trim (114 :: fmt_dec n ++ [32]) = 114 :: fmt_dec n) as ->.
    { unfold trim. rewrite trim_start_edge by lia. rewrite app_comm_cons, Et, <- app_assoc. by apply trim_end_space. }
    change (strip_prefix [114] (114 :: fmt_dec n)) with (Some (fmt_dec n)). cbn [mbind option_bind].
    destruct Hwf as (_ & _ & _ & _ & _ & _ & Hr & _). rewrite Er in Hr. by rewrite parse_u64_fmt_dec.
  - exists (zlen (name c)). cbn [app]. unfold body.
    rewrite find_app, upto_app; [|eapply Forall_impl; [exact Hn|]; naive_solver]. split; [done|].
    rewrite find_not; [done|]. eapply Forall_impl; [exact Hn|]; naive_solver.
Qed.

(** The parentheses of the body match around the arguments. *)
Lemma body_paren arch c : call_wf arch c ->
  find 40 (body c) = Some (zlen (name c)) /\ upto (body c) (zlen (name c)) = name c /\
  matching_paren (body c) (zlen (name c)) = Some (zlen (name c) + 1 + zlen (print_args (args c))) /\
  slice (body c) (zlen (name c) + 1) (zlen (name c) + 1 + zlen (print_args (args c))) = Some (print_args (args c)) /\
  from (body c) (zlen (name c) + 1 + zlen (print_args (args c)) + 1) = print_props c.
Proof.
  intros Hwf. pose proof (name_chars arch c Hwf) as Hn.
  assert (balanced (print_args (args c))) as (_ & Hb & _) by (apply balanced_args; by destruct Hwf as (_ & _ & _ & _ & H & _)).
  split_and!.
  - apply find_app. eapply Forall_impl; [exact Hn|]. naive_solver.
  - apply upto_app.
  - unfold matching_paren, body. rewrite from_app. cbn [matching_paren_go]. cbn [negb Z.eqb Pos.eqb orb].
    rewrite Hb by lia. cbn [matching_paren_go]. cbn [negb Z.eqb Pos.eqb orb]. cbn. f_equal.
  - apply slice_Some. unfold body. rewrite zlen_app, zlen_cons, zlen_app. pose proof (zlen_nonneg (name c)).
    pose proof (zlen_nonneg (print_args (args c))). pose proof (zlen_nonneg (41 :: print_props c)).
    split_and!; [lia|lia|lia|].
    fold (from (name c ++ 40 :: print_args (args c) ++ 41 :: print_props c) (zlen (name c) + 1)). rewrite from_app_S.
    replace (zlen (name c) + 1 + zlen (print_args (args c)) - (zlen (name c) + 1)) with (zlen (print_args (args c))) by lia.
    symmetry. apply upto_app.
  - unfold body.
    replace (name c ++ 40 :: print_args (args c) ++ 41 :: print_props c)
      with ((name c ++ 40 :: print_args (args c)) ++ 41 :: print_props c) by (by rewrite <- app_assoc).
    replace (zlen (name c) + 1 + zlen (print_args (args c))) with (zlen (name c ++ 40 :: print_args (args c)))
      by (rewrite zlen_app, zlen_cons; lia). apply from_app_S.
Qed.

Lemma parse_print_call arch c : call_wf arch c -> parse_call arch (print_call c) = Done c.
Proof.
  intros Hwf. unfold parse_call. rewrite (trim_print_call arch c Hwf).
  destruct (parse_assignment arch c Hwf) as (paren & Hp & Ha). destruct (body_paren arch c Hwf) as (B1 & B2 & B3 & B4 & B5).
  destruct (name_head arch c Hwf) as (x & t & En & Hx & H40 & H61 & Hi).
  assert (exists y r, print_call c = y :: r /\ y <> 35) as (y & r & Ey & Hy).
  { unfold print_call, print_res. destruct (res c); [by eexists _, _|]. rewrite En. eexists _, _. split; [done|]. unfold inert in Hi. lia. }
  replace (bool_decide (print_call c = []) || starts_with [35] (print_call c)) with false.
  2:{ rewrite Ey. rewrite bool_decide_false by done. unfold starts_with. cbn [strip_prefix]. by replace (35 =? y) with false by lia. }
  rewrite (no_comment arch c Hwf), Hp. cbn [of_option mbind outcome_bind].
  set (m := match find 61 _ with Some _ => _ | None => _ end) in *. rewrite Ha. rewrite B1. cbn [of_option mbind outcome_bind].
  rewrite B2, B3, trim_visible by (eapply Forall_impl; [apply (name_chars arch c Hwf)|]; naive_solver).
  rewrite bool_decide_false by (by rewrite En). cbn [of_option mbind outcome_bind]. rewrite B4. cbn [or_panic mbind outcome_bind].
  destruct Hwf as (_ & _ & Hbase & Hnr & Hargs & Hdepth & _ & Hfn).
  rewrite (list_form_reads (print_args (args c)) (arg (print_args (args c)) MAX_DEPTH) 0 (args c) 0 []); [|by right| |].
  2:{ rewrite Forall_forall in *. intros a Hin. apply arg_reads; auto. }
  2:{ split; [|by rewrite app_nil_r]. split; [done|apply zlen_nonneg]. }
  cbn [mbind outcome_bind]. rewrite B5, <- Hbase, <- Hnr. f_equal. by apply props_tail.
Qed.

Lemma prog_step_print arch acc c : call_wf arch c -> prog_step arch acc (print_call c) = Done (acc ++ [c]).
Proof.
  intros Hc. unfold prog_step. rewrite (trim_print_call arch c Hc), (parse_print_call arch c Hc).
  pose proof (parse_print_call arch c Hc) as H. unfold parse_call in H. rewrite (trim_print_call arch c Hc) in H.
  by destruct (_ || _).
Qed.

(** C6: the program text round trip.  A program of well-formed
    calls (with results, [fail_nth] and [async] properties, and arguments made
    of words, resource references, pointers, data, nested structures, unions,
    out-slots and checksums up to the parser's depth), printed in syzkaller's
    syntax one call a line, is read back unchanged by [parse_prog]. *)
Theorem prog_roundtrip arch p : Forall (call_wf arch) p -> parse_prog arch (print_prog p) = Done p.
Proof.
  intros Hp. unfold parse_prog, print_prog.
  replace ((fun c => print_call c ++ [10]) <$> p) with ((fun l => l ++ [10]) <$> (print_call <$> p)) by (by rewrite <- list_fmap_compose).
  rewrite lines_concat_gen.
  2:{ apply Forall_fmap. eapply Forall_impl; [exact Hp|]. intros c Hc. apply (balanced_print_call arch c Hc). }
  rewrite <- (app_nil_l p) at 2. generalize (@nil Call) as acc. induction Hp as [|c p Hc _ IH]; intros acc.
  { by rewrite app_nil_r. }
  rewrite fmap_cons. cbn [fold_m]. rewrite (prog_step_print arch acc c Hc). cbn [mbind outcome_bind].
  rewrite IH, <- app_assoc. done.
Qed.

Lemma prog_roundtrip_witness :
  let p := [MkCall (bs "openat$x") (bs "openat") (Some 257)
              [Int 0xffffffffffffff9c; Ptr 0x1000 (Some (Data (bs "/dev/null" ++ [0]))); Int 2; Csum] (Some 0) (Some 3) true;
            MkCall (bs "pipe2") (bs "pipe2") (Some 293)
              [Ptr AUTO_ADDR (Some (Struct [Out 1 (Int 7); Array []; Union (Res 2 3 4); Nil])); Ptr 0 None] None None false] in
  parse_prog X86_64 (print_prog p) = Done p.
Proof.
  apply prog_roundtrip. repeat (apply Forall_cons; split); [| |apply Forall_nil; done];
    (split; [done|]; split; [by repeat constructor|]; split; [reflexivity|]; split; [reflexivity|];
     split; [repeat constructor; simpl; repeat constructor; try done; lia|];
     split; [repeat constructor; simpl; lia|]; split; simpl; try done; unfold is_u64; lia).
Defined.
