(* ===== verification/ProgArena.v ===== *)
(** fuzz/prog_decode.rs, second half, the data arena: the byte memory with its
    granule bitmap, the first-fit allocator, clipped writes, and the pass that
    reserves the fixed objects of a program and places its [&AUTO] ones.

    The mapping is the list [mem] of its bytes; [base] is always DATA_OFFSET.
    The length of the mapping is a field, as in the code. *)
From S2P Require Import Prelude Text ProgSyntax.

Definition ARENA_SIZE : Z := Z.shiftl 16 20.
Definition GRANULE : Z := 64.
Definition RES_WIDTH : Z := 4.

Definition div_ceil (a b : Z) : Z := (a + b - 1) / b.

(** [int_width]; [env] is the value of VOCK_PROG_INT_WIDTH. *)
Definition int_width (env : option (list Z)) : Z :=
  match env ≫= parse_u64 with
  | Some w => if (w =? 1) || (w =? 2) || (w =? 4) || (w =? 8) then w else 8
  | None => 8
  end.

Record Arena : Type := MkArena { mem : list Z; len : Z; used : list Z; fixed : list Z }.

(** [Arena::map] with a mapping of [size] bytes. *)
Definition map_arena (size : Z) : Arena :=
  MkArena (replicate (Z.to_nat size) 0) size (replicate (Z.to_nat (size / GRANULE / 64 + 1)) 0) [].

Definition reset (ar : Arena) : Arena :=
  MkArena (replicate (Z.to_nat (len ar)) 0) (len ar) ((fun _ => 0) <$> used ar) (fixed ar).

(** [off.saturating_add(size) <= len] *)
Definition in_range (ar : Arena) (off size : Z) : bool := Z.min (off + size) (2 ^ 64 - 1) <=? len ar.

Definition with_used (ar : Arena) (u : list Z) : Arena := MkArena (mem ar) (len ar) u (fixed ar).
Definition with_mem (ar : Arena) (m : list Z) : Arena := MkArena m (len ar) (used ar) (fixed ar).

(** [used[g / 64] |= 1 << (g % 64)] *)
Definition mark (u : list Z) (g : Z) : outcome (list Z) :=
  w ← idx u (g / 64); upd u (g / 64) (Z.lor w (Z.shiftl 1 (g mod 64))).

Definition note_alloc (ar : Arena) (off size : Z) : outcome Arena :=
  if negb (in_range ar off size) then Done ar else
  let first := off / GRANULE in
  let last := div_ceil (off + size) GRANULE in
  u ← fold_m mark (seqZ first (last - first)) (used ar);
  Done (with_used ar u).

(** The scan of the granules from [g] on: the first occupied one, if any. *)
Fixpoint busy (u : list Z) (g : Z) (n : nat) : outcome (option Z) :=
  match n with
  | O => Done None
  | S n' =>
      w ← idx u (g / 64);
      if negb (Z.land w (Z.shiftl 1 (g mod 64)) =? 0) then Done (Some g) else busy u (g + 1) n'
  end.

(** The outer loop of [alloc]: [start] moves just past the occupied granule. *)
Definition alloc_step (ar : Arena) (size need total start : Z) : outcome (ctl Z (Z * Arena)) :=
  if start + need <=? total then
    b ← busy (used ar) start (Z.to_nat need);
    match b with
    | Some g => Done (Next (g + 1))
    | None => ar' ← note_alloc ar (start * GRANULE) size; Done (Stop (start * GRANULE, ar'))
    end
  else Done (Stop (0, ar)).

Definition alloc (ar : Arena) (size : Z) : outcome (Z * Arena) :=
  let need := Z.max (div_ceil size GRANULE) 1 in
  let total := len ar / GRANULE in
  loop (S (S (Z.to_nat total))) (alloc_step ar size need total) 0.

(** Overwrite [m] from [off] on. *)
Definition blit (m : list Z) (off : Z) (bytes : list Z) : list Z :=
  take (Z.to_nat off) m ++ bytes ++ drop (Z.to_nat off + length bytes) m.

(** [fixed.iter().find(|f| f > off)] *)
Definition next_fixed (ar : Arena) (off : Z) : option Z := head (filter (fun f => off < f) (fixed ar)).

Definition write (ar : Arena) (off : Z) (bytes : list Z) : Arena :=
  let n := match next_fixed ar off with Some next => Z.min (zlen bytes) (next - off) | None => zlen bytes end in
  if (n =? 0) || negb (in_range ar off n) then ar
  else with_mem ar (blit (mem ar) off (take (Z.to_nat n) bytes)).

Definition read_scalar (ar : Arena) (off size : Z) : option Z :=
  let size := Z.max 1 (Z.min size 8) in
  if negb (in_range ar off size) then None
  else Some (le_val (take (Z.to_nat size) (drop (Z.to_nat off) (mem ar)))).

Definition set_fixed (ar : Arena) (addrs : list Z) : Arena :=
  MkArena (mem ar) (len ar) (used ar) (dedup (sort_u64 addrs)).

(** Byte length [encode] will produce. *)
Fixpoint encoded_len (a : Arg) (w : Z) : Z :=
  match a with
  | Data d => zlen d
  | Csum => 2
  | Ptr _ _ => 8
  | Out _ _ => RES_WIDTH
  | Union i => encoded_len i w
  | Struct fs | Array fs => foldr (fun f n => encoded_len f w + n) 0 fs
  | _ => w
  end.

Section NoteFixed.
Context (w : Z).

(** Pass 1: reserve every textually addressed object. *)
Fixpoint note (a : Arg) (st : Arena * list Z) : outcome (Arena * list Z) :=
  match a with
  | Ptr addr (Some inner) =>
      let '(ar, addrs) := st in
      ar ← note_alloc ar addr (Z.max (encoded_len inner w) 1);
      note inner (ar, addrs ++ [addr])
  | Struct fs | Array fs =>
      (fix go (fs : list Arg) (st : Arena * list Z) : outcome (Arena * list Z) :=
         match fs with [] => Done st | f :: fs => st ← note f st; go fs st end) fs st
  | Union i | Out _ i => note i st
  | _ => Done st
  end.

Definition note_list (l : list Arg) (st : Arena * list Z) : outcome (Arena * list Z) :=
  fold_m (fun st a => note a st) l st.

(** Pass 2: give every [&AUTO] pointer a slot. *)
Fixpoint assign (a : Arg) (st : Arena * list Z) : outcome (Arg * (Arena * list Z)) :=
  match a with
  | Ptr addr (Some inner) =>
      '(addr, st) ←
        (if addr =? AUTO_ADDR then
           '(off, ar) ← alloc (fst st) (Z.max (encoded_len inner w) 1); Done (off, (ar, snd st ++ [off]))
         else Done (addr, st));
      '(inner, st) ← assign inner st;
      Done (Ptr addr (Some inner), st)
  | Ptr addr None =>
      if addr =? AUTO_ADDR then '(off, ar) ← alloc (fst st) GRANULE; Done (Ptr off None, (ar, snd st))
      else Done (a, st)
  | Struct fs =>
      '(fs, st) ←
        (fix go (fs : list Arg) (st : Arena * list Z) : outcome (list Arg * (Arena * list Z)) :=
           match fs with
           | [] => Done ([], st)
           | f :: fs => '(f, st) ← assign f st; '(fs, st) ← go fs st; Done (f :: fs, st)
           end) fs st;
      Done (Struct fs, st)
  | Array fs =>
      '(fs, st) ←
        (fix go (fs : list Arg) (st : Arena * list Z) : outcome (list Arg * (Arena * list Z)) :=
           match fs with
           | [] => Done ([], st)
           | f :: fs => '(f, st) ← assign f st; '(fs, st) ← go fs st; Done (f :: fs, st)
           end) fs st;
      Done (Array fs, st)
  | Union i => '(i, st) ← assign i st; Done (Union i, st)
  | Out slot i => '(i, st) ← assign i st; Done (Out slot i, st)
  | _ => Done (a, st)
  end.

Fixpoint assign_list (l : list Arg) (st : Arena * list Z) : outcome (list Arg * (Arena * list Z)) :=
  match l with
  | [] => Done ([], st)
  | a :: l => '(a, st) ← assign a st; '(l, st) ← assign_list l st; Done (a :: l, st)
  end.

Fixpoint assign_calls (p : Prog) (st : Arena * list Z) : outcome (Prog * (Arena * list Z)) :=
  match p with
  | [] => Done ([], st)
  | c :: p => '(l, st) ← assign_list (args c) st; '(p, st) ← assign_calls p st; Done (with_args c l :: p, st)
  end.

Definition note_fixed (ar : Arena) (p : Prog) : outcome (Arena * Prog) :=
  st ← fold_m (fun st c => note_list (args c) st) p (ar, []);
  '(p, (ar, addrs)) ← assign_calls p st;
  Done (set_fixed ar addrs, p).

End NoteFixed.

(** * The bitmap as a set of granules *)

Definition occ (u : list Z) (g : Z) : bool :=
  match get u (g / 64) with Some w => Z.testbit w (g mod 64) | None => false end.

Record arena_wf (ar : Arena) : Prop := ArenaWf
  { wf_len : 0 <= len ar <= 2 ^ 62;
    wf_mem : zlen (mem ar) = len ar;
    wf_bytes : bytes_ok (mem ar);
    wf_used : zlen (used ar) = len ar / GRANULE / 64 + 1 }.

Lemma granule_pos g : 0 <= g -> 0 <= g / 64 /\ 0 <= g mod 64 < 64.
Proof. intros. split; [apply Z.div_pos; lia|apply Z.mod_pos_bound; lia]. Qed.

Lemma mark_spec u g : 0 <= g -> g / 64 < zlen u ->
  exists u', mark u g = Done u' /\ zlen u' = zlen u /\ forall h, 0 <= h -> occ u' h = (h =? g) || occ u h.
Proof.
  intros Hg Hu. destruct (granule_pos g Hg) as [Hq Hm]. unfold mark.
  destruct (idx_Done u (g / 64) (conj Hq Hu)) as (w & -> & Ew). cbn [mbind outcome_bind].
  rewrite (proj2 (upd_Done u _ (g / 64) (Z.lor w (Z.shiftl 1 (g mod 64)))) (conj (conj Hq Hu) eq_refl)). eexists. split; [done|].
  split; [apply zlen_insert|]. intros h Hh. unfold occ. rewrite get_insert by done.
  destruct (granule_pos h Hh) as [Hq' Hm'].
  destruct (decide (g / 64 = h / 64)) as [E|E].
  - rewrite <- E, Ew. rewrite Z.lor_spec, orb_comm. f_equal.
    rewrite Z.shiftl_1_l, Z.pow2_bits_eqb by lia.
    pose proof (Z.div_mod g 64). pose proof (Z.div_mod h 64). lia.
  - destruct (Z.eqb_spec h g) as [->|]; done.
Qed.

Lemma range_succ a n h : 0 <= n ->
  ((Z.succ a <=? h) && (h <? Z.succ a + n)) || (h =? a) = (a <=? h) && (h <? a + Z.succ n).
Proof.
  intros Hn. destruct (Z.leb_spec (Z.succ a) h), (Z.ltb_spec h (Z.succ a + n)), (Z.eqb_spec h a),
    (Z.leb_spec a h), (Z.ltb_spec h (a + Z.succ n)); try done; lia.
Qed.

Lemma marks_spec u a n : 0 <= a -> (a + n - 1) / 64 < zlen u ->
  exists u', fold_m mark (seqZ a n) u = Done u' /\ zlen u' = zlen u /\
    forall h, 0 <= h -> occ u' h = ((a <=? h) && (h <? a + n)) || occ u h.
Proof.
  intros Ha. destruct (decide (n <= 0)) as [Hn|Hn].
  { intros _. rewrite seqZ_nil by done. exists u. split_and!; [done..|]. intros h Hh.
    by replace ((a <=? h) && (h <? a + n)) with false by lia. }
  replace n with (Z.of_nat (Z.to_nat n)) by lia. clear Hn. revert a u Ha. induction (Z.to_nat n) as [|m IH]; intros a u Ha Hu.
  { rewrite seqZ_nil by done. exists u. split_and!; [done..|]. intros h Hh.
    by destruct (Z.leb_spec a h), (Z.ltb_spec h (a + Z.of_nat 0)); try done; lia. }
  rewrite seqZ_cons by lia. cbn [fold_m].
  destruct (mark_spec u a Ha) as (u1 & -> & Hz & H1).
  { apply (Z.le_lt_trans _ ((a + Z.of_nat (S m) - 1) / 64)); [apply Z.div_le_mono; lia|done]. }
  cbn [mbind outcome_bind]. replace (Z.pred (Z.of_nat (S m))) with (Z.of_nat m) by lia.
  destruct (IH (Z.succ a) u1) as (u2 & -> & Hz2 & H2); [lia|replace (Z.succ a + Z.of_nat m - 1) with (a + Z.of_nat (S m) - 1) by lia; lia|].
  exists u2. split_and!; [done|congruence|]. intros h Hh. rewrite H2, H1 by done.
  destruct (occ u h); [by rewrite !orb_true_r|]. rewrite !orb_false_r, Nat2Z.inj_succ. apply range_succ. lia.
Qed.

(** The granules of an object. *)
Definition covers (off size g : Z) : bool := (off / GRANULE <=? g) && (g <? div_ceil (off + size) GRANULE).

Lemma in_range_iff ar off size : arena_wf ar -> 0 <= off -> 0 <= size -> in_range ar off size = true <-> off + size <= len ar.
Proof. intros [Hl _ _ _] Ho Hs. unfold in_range. lia. Qed.

Lemma note_alloc_spec ar off size : arena_wf ar -> 0 <= off -> 0 <= size ->
  exists u, note_alloc ar off size = Done (with_used ar u) /\ arena_wf (with_used ar u) /\
    forall g, 0 <= g -> occ u g = (in_range ar off size && covers off size g) || occ (used ar) g.
Proof.
  intros Hwf Ho Hs. unfold note_alloc. destruct (in_range ar off size) eqn:E; cbn [negb].
  2:{ exists (used ar). destruct ar. done. }
  apply in_range_iff in E; [|done..]. destruct Hwf as [Hl Hm Hb Hu]. unfold div_ceil, GRANULE in *.
  destruct (marks_spec (used ar) (off / 64) ((off + size + 64 - 1) / 64 - off / 64)) as (u & -> & Hz & H).
  - apply Z.div_pos; lia.
  - rewrite Hu. assert ((off + size + 64 - 1) / 64 <= len ar / 64 + 1) by dlia.
    enough ((off / 64 + ((off + size + 64 - 1) / 64 - off / 64) - 1) / 64 <= len ar / 64 / 64) by lia.
    apply Z.div_le_mono; lia.
  - exists u. cbn [mbind outcome_bind]. split; [done|]. split; [by constructor; cbn; rewrite ?Hz|].
    intros g Hg. rewrite H by done. unfold covers, div_ceil, GRANULE. cbn [andb]. f_equal. lia.
Qed.

(** * First fit *)

Definition free_run (u : list Z) (s n : Z) : Prop := forall g, s <= g < s + n -> occ u g = false.

Lemma word_bit w k : 0 <= k -> (Z.land w (Z.shiftl 1 k) =? 0) = negb (Z.testbit w k).
Proof.
  intros Hk. rewrite Z.shiftl_1_l. destruct (Z.testbit w k) eqn:E; cbn [negb]; [apply Z.eqb_neq|apply Z.eqb_eq].
  - intros H. apply (f_equal (fun x => Z.testbit x k)) in H.
    by rewrite Z.land_spec, E, Z.pow2_bits_true, Z.bits_0 in H.
  - apply Z.bits_inj'. intros i Hi. rewrite Z.land_spec, Z.bits_0, Z.pow2_bits_eqb by done.
    destruct (Z.eqb_spec k i) as [<-|]; [by rewrite E|apply andb_false_r].
Qed.

Lemma busy_spec u g n : 0 <= g -> (g + Z.of_nat n - 1) / 64 < zlen u ->
  (busy u g n = Done None /\ free_run u g (Z.of_nat n)) \/
  (exists h, busy u g n = Done (Some h) /\ g <= h < g + Z.of_nat n /\ occ u h = true).
Proof.
  revert g. induction n as [|n IH]; intros g Hg Hu; cbn [busy].
  { left. split; [done|]. intros h Hh. lia. }
  destruct (granule_pos g Hg) as [Hq Hm]. rewrite Nat2Z.inj_succ in *.
  assert (g / 64 < zlen u) as Hlt by (apply (Z.le_lt_trans _ ((g + Z.succ (Z.of_nat n) - 1) / 64)); [apply Z.div_le_mono; lia|done]).
  destruct (idx_Done u (g / 64) (conj Hq Hlt)) as (w & -> & Ew). cbn [mbind outcome_bind].
  assert (occ u g = Z.testbit w (g mod 64)) as Eo by (unfold occ; by rewrite Ew).
  rewrite word_bit, negb_involutive by lia. rewrite <- Eo. destruct (occ u g) eqn:E.
  { right. exists g. split_and!; [done|lia..|done]. }
  destruct (IH (g + 1)) as [[-> Hf]|(h & -> & Hh & Ho)]; [lia|by replace (g + 1 + Z.of_nat n - 1) with (g + Z.succ (Z.of_nat n) - 1) by lia|..].
  - left. split; [done|]. intros h Hh. destruct (decide (h = g)) as [->|]; [done|]. apply Hf. lia.
  - right. exists h. split_and!; [done|lia..|done].
Qed.

(** The outcome of an allocation of [size] bytes. *)
Definition alloc_ok (ar : Arena) (size s : Z) (u : list Z) : Prop :=
  let need := Z.max (div_ceil size GRANULE) 1 in
  0 <= s /\ s + need <= len ar / GRANULE /\ free_run (used ar) s need /\
  (forall s', 0 <= s' < s -> ~ free_run (used ar) s' need) /\
  arena_wf (with_used ar u) /\
  (forall g, 0 <= g -> occ u g = ((s <=? g) && (g <? s + need)) || occ (used ar) g).

Definition alloc_full (ar : Arena) (size : Z) : Prop :=
  let need := Z.max (div_ceil size GRANULE) 1 in
  forall s, 0 <= s -> s + need <= len ar / GRANULE -> ~ free_run (used ar) s need.

Lemma covers_run s size : 0 <= s -> 1 <= size ->
  forall g, covers (s * GRANULE) size g = (s <=? g) && (g <? s + Z.max (div_ceil size GRANULE) 1).
Proof.
  intros Hs Hz g. unfold covers, div_ceil, GRANULE. rewrite Z.div_mul by done.
  replace ((s * 64 + size + 64 - 1) / 64) with (s + (size + 64 - 1) / 64).
  2:{ replace (s * 64 + size + 64 - 1) with (s * 64 + (size + 64 - 1)) by lia. by rewrite Z.div_add_l. }
  by replace (Z.max ((size + 64 - 1) / 64) 1) with ((size + 64 - 1) / 64) by dlia.
Qed.

Lemma alloc_spec ar size : arena_wf ar -> 1 <= size ->
  (exists s u, alloc ar size = Done (s * GRANULE, with_used ar u) /\ alloc_ok ar size s u) \/
  (alloc ar size = Done (0, ar) /\ alloc_full ar size).
Proof.
  intros Hwf Hz. unfold alloc. set (need := Z.max (div_ceil size GRANULE) 1). set (total := len ar / GRANULE).
  enough (wp (loop (S (S (Z.to_nat total))) (alloc_step ar size need total) 0)
    (fun r => (exists s u, r = (s * GRANULE, with_used ar u) /\ alloc_ok ar size s u) \/ (r = (0, ar) /\ alloc_full ar size)) False) as H.
  { destruct (loop _ _ _) as [r| | |]; try done. destruct H as [(s & u & -> & H)|[-> H]]; [left; eauto|by right]. }
  assert (0 <= total) by (apply Z.div_pos; [apply Hwf|done]).
  apply (wp_loop (fun s => 0 <= s /\ forall s', 0 <= s' < s -> ~ free_run (used ar) s' need) (fun s => Z.max 0 (total + 1 - s))).
  - intros s [Hs Hbefore]. unfold alloc_step. assert (1 <= need) by lia.
    destruct (Z.leb_spec (s + need) total) as [Hfit|Hend].
    2:{ right. split; [done|]. intros s' H1 H2. apply Hbefore. unfold total in *. fold need in H2. lia. }
    destruct (busy_spec (used ar) s (Z.to_nat need)) as [[-> Hfree]|(g & -> & Hg & Ho)]; [lia| | |].
    + rewrite (wf_used ar Hwf), Z2Nat.id by lia. fold total.
      enough ((s + need - 1) / 64 <= total / 64) by lia. apply Z.div_le_mono; lia.
    + cbn [mbind outcome_bind]. rewrite Z2Nat.id in Hfree by lia.
      destruct (note_alloc_spec ar (s * GRANULE) size Hwf) as (u & -> & Hwf' & Hu); [unfold GRANULE; lia|lia|].
      cbn [mbind outcome_bind wp]. left. exists s, u. split; [done|]. unfold alloc_ok. fold need. fold total.
      split_and!; try done. intros g Hg. rewrite Hu by done. f_equal.
      assert (in_range ar (s * GRANULE) size = true) as ->.
      { apply in_range_iff; [done|unfold GRANULE; lia|lia|]. unfold total, need, div_ceil, GRANULE in *. dlia. }
      cbn [andb]. by apply covers_run.
    + cbn [mbind outcome_bind wp]. rewrite Z2Nat.id in Hg by lia. split; [|lia]. split; [lia|].
      intros s' Hs'. destruct (decide (s' < s)); [apply Hbefore; lia|]. intros Hf. specialize (Hf g ltac:(lia)). congruence.
  - split; [done|]. intros; lia.
  - lia.
Qed.

(** First fit.  [alloc] terminates on every bitmap.  It returns the
    lowest granule-aligned address at which enough free granules follow, marks
    exactly these and keeps the memory; it answers 0 with the bitmap untouched
    only when no such address exists in the arena. *)
Theorem alloc_first_fit ar size : arena_wf ar -> 1 <= size ->
  let need := div_ceil size GRANULE in
  (exists s ar', alloc ar size = Done (s * GRANULE, ar') /\ arena_wf ar' /\ mem ar' = mem ar /\ fixed ar' = fixed ar /\
     0 <= s /\ (s + need) * GRANULE <= len ar /\ free_run (used ar) s need /\
     (forall s', 0 <= s' < s -> ~ free_run (used ar) s' need) /\
     (forall g, 0 <= g -> occ (used ar') g = true <-> s <= g < s + need \/ occ (used ar) g = true)) \/
  (alloc ar size = Done (0, ar) /\ forall s, 0 <= s -> (s + need) * GRANULE <= len ar -> ~ free_run (used ar) s need).
Proof.
  intros Hwf Hs need. assert (Z.max (div_ceil size GRANULE) 1 = need) as En by (unfold need, div_ceil, GRANULE; dlia).
  destruct (alloc_spec ar size Hwf Hs) as [(s & u & E & H)|[E H]].
  - left. unfold alloc_ok in H. rewrite En in H. destruct H as (H0 & H1 & H2 & H3 & H4 & H5).
    exists s, (with_used ar u). split_and!; try done.
    + unfold GRANULE in *. dlia.
    + intros g Hg. cbn [used with_used]. rewrite H5 by done. rewrite orb_true_iff, andb_true_iff, Z.leb_le, Z.ltb_lt. done.
  - right. split; [done|]. unfold alloc_full in H. rewrite En in H. intros s H0 Hfit. apply H; [done|]. unfold GRANULE in *. dlia.
Qed.

Lemma alloc_first_fit_witness :
  let ar := MkArena (replicate 512 0) 512 [11] [] in
  arena_wf ar /\ 1 <= 100 /\ exists s ar', alloc ar 100 = Done (s * GRANULE, ar') /\ s = 4 /\ used ar' = [59].
Proof.
  cbv zeta. assert (arena_wf (MkArena (replicate 512 0) 512 [11] [])) as Hwf.
  { constructor; [cbn; lia|reflexivity| |reflexivity]. apply Forall_replicate. unfold is_u8. lia. }
  split; [exact Hwf|]. split; [lia|].
  assert (alloc (MkArena (replicate 512 0) 512 [11] []) 100 = Done (256, MkArena (replicate 512 0) 512 [59] [])) as E0 by reflexivity.
  destruct (alloc_first_fit (MkArena (replicate 512 0) 512 [11] []) 100 Hwf ltac:(lia)) as [(s & ar' & E & _)|[E _]].
  - exists s, ar'. split; [exact E|]. rewrite E0 in E. injection E as E <-. unfold GRANULE in E. split; [lia|reflexivity].
  - exfalso. rewrite E0 in E. discriminate E.
Defined.
