(* ===== verification/ProgPlace.v ===== *)
(** Where the objects of a program go: the reservation of the fixed objects and
    the placement of the [&AUTO] ones ([note_fixed] of fuzz/prog_decode.rs),
    against an abstract placement relation. *)
From S2P Require Import Prelude Text ProgSyntax ProgArena.

(** The objects of an argument that are laid out in the arena. *)
Fixpoint objs (w : Z) (a : Arg) : list (Z * Z) :=
  match a with
  | Ptr addr (Some inner) => (addr, Z.max (encoded_len inner w) 1) :: objs w inner
  | Struct fs | Array fs => concat (objs w <$> fs)
  | Union i | Out _ i => objs w i
  | _ => []
  end.

Definition prog_objs (w : Z) (p : Prog) : list (Z * Z) := concat ((fun c => concat (objs w <$> args c)) <$> p).

Definition apart (x y : Z * Z) : Prop := fst x + snd x <= fst y \/ fst y + snd y <= fst x.

(** [a'] is [a] with its [&AUTO] pointers replaced in order by the placements. *)
Inductive places (w : Z) : Arg -> list (Z * Z) -> Arg -> Prop :=
  | Pl_auto inner L inner' off : places w inner L inner' ->
      places w (Ptr AUTO_ADDR (Some inner)) ((off, Z.max (encoded_len inner w) 1) :: L) (Ptr off (Some inner'))
  | Pl_fixed addr inner L inner' : addr <> AUTO_ADDR -> places w inner L inner' ->
      places w (Ptr addr (Some inner)) L (Ptr addr (Some inner'))
  | Pl_page off : places w (Ptr AUTO_ADDR None) [(off, GRANULE)] (Ptr off None)
  | Pl_bare addr : addr <> AUTO_ADDR -> places w (Ptr addr None) [] (Ptr addr None)
  | Pl_struct fs L fs' : places_list w fs L fs' -> places w (Struct fs) L (Struct fs')
  | Pl_array fs L fs' : places_list w fs L fs' -> places w (Array fs) L (Array fs')
  | Pl_union a L a' : places w a L a' -> places w (Union a) L (Union a')
  | Pl_out slot a L a' : places w a L a' -> places w (Out slot a) L (Out slot a')
  | Pl_int v : places w (Int v) [] (Int v)
  | Pl_res i d x : places w (Res i d x) [] (Res i d x)
  | Pl_data d : places w (Data d) [] (Data d)
  | Pl_csum : places w Csum [] Csum
  | Pl_nil : places w Nil [] Nil
with places_list (w : Z) : list Arg -> list (Z * Z) -> list Arg -> Prop :=
  | Pl_end : places_list w [] [] []
  | Pl_cons a L a' fs L' fs' : places w a L a' -> places_list w fs L' fs' ->
      places_list w (a :: fs) (L ++ L') (a' :: fs').

Inductive places_prog (w : Z) : Prog -> list (Z * Z) -> Prog -> Prop :=
  | Pl_done : places_prog w [] [] []
  | Pl_call c L l p L' p' : places_list w (args c) L l -> places_prog w p L' p' ->
      places_prog w (c :: p) (L ++ L') (with_args c l :: p').

(** * Pass 1 *)

Lemma encoded_len_nonneg w a : 0 <= w -> 0 <= encoded_len a w.
Proof.
  intros Hw. induction a using arg_nested_ind; cbn [encoded_len]; try done; try apply zlen_nonneg.
  all: match goal with H : Forall _ _ |- _ => induction H; simpl; lia end.
Qed.

Lemma with_used_twice ar u u' : with_used (with_used ar u) u' = with_used ar u'.
Proof. done. Qed.

Lemma with_used_same ar : with_used ar (used ar) = ar.
Proof. by destruct ar. Qed.

Section Note.
Context (w : Z) (Hw : 0 <= w).

Definition reserved (ar : Arena) (l : list (Z * Z)) (g : Z) : bool :=
  existsb (fun o => in_range ar (fst o) (snd o) && covers (fst o) (snd o) g) l.

(** [run] reserves the objects [l] and records their addresses. *)
Definition reserves (run : Arena * list Z -> outcome (Arena * list Z)) (l : list (Z * Z)) : Prop :=
  forall ar addrs, arena_wf ar -> Forall (fun o => is_u64 (fst o)) l ->
    exists u, run (ar, addrs) = Done (with_used ar u, addrs ++ (fst <$> l)) /\ arena_wf (with_used ar u) /\
      forall g, 0 <= g -> occ u g = reserved ar l g || occ (used ar) g.

Lemma reserves_nil : reserves (fun st => Done st) [].
Proof.
  intros ar addrs Hwf _. exists (used ar). rewrite with_used_same. split_and!; [by rewrite app_nil_r|done|]. by intros g _.
Qed.

Lemma reserves_app r1 r2 l1 l2 : reserves r1 l1 -> reserves r2 l2 -> reserves (fun st => st ← r1 st; r2 st) (l1 ++ l2).
Proof.
  intros H1 H2 ar addrs Hwf [Hl1 Hl2]%Forall_app.
  destruct (H1 ar addrs Hwf Hl1) as (u1 & E1 & Hwf1 & Ho1). rewrite E1. cbn [mbind outcome_bind].
  destruct (H2 (with_used ar u1) (addrs ++ (fst <$> l1)) Hwf1 Hl2) as (u2 & -> & Hwf2 & Ho2).
  exists u2. rewrite with_used_twice, fmap_app, app_assoc. split_and!; [done|done|].
  intros g Hg. rewrite Ho2 by done. cbn [used with_used]. rewrite Ho1 by done.
  unfold reserved. rewrite existsb_app, (orb_comm (existsb _ l1) (existsb _ l2)), <- orb_assoc. reflexivity.
Qed.

Lemma reserves_list (fs : list Arg) : Forall (fun f => reserves (note w f) (objs w f)) fs ->
  reserves (note_list w fs) (concat (objs w <$> fs)).
Proof.
  induction 1 as [|f fs Hf _ IH]; [apply reserves_nil|]. rewrite fmap_cons. cbn [concat].
  apply (reserves_app _ _ _ _ Hf IH).
Qed.

Lemma note_struct fs st : note w (Struct fs) st = note_list w fs st.
Proof. cbn [note]. unfold note_list. revert st. induction fs as [|f fs IH]; intros st; [done|]. cbn [fold_m]. destruct (note w f st); [apply IH|done..]. Qed.

Lemma note_reserves a : reserves (note w a) (objs w a).
Proof using Hw.
  induction a as [v|i d x|addr inner IH|addr|d|fs IH|fs IH|a IH| |slot a IH|] using arg_nested_ind;
    try apply reserves_nil; try apply IH.
  - intros ar addrs Hwf [Ha Hl]%Forall_cons. cbn [fst] in Ha. cbn [note objs].
    destruct (note_alloc_spec ar addr (Z.max (encoded_len inner w) 1) Hwf) as (u & -> & Hwf1 & Ho); [unfold is_u64 in Ha; lia|lia|].
    cbn [mbind outcome_bind]. destruct (IH (with_used ar u) (addrs ++ [addr]) Hwf1 Hl) as (u' & -> & Hwf' & Ho').
    exists u'. rewrite fmap_cons, <- app_assoc. split_and!; [done|done|]. intros g Hg. rewrite Ho' by done.
    cbn [used with_used]. rewrite Ho by done. unfold reserved. cbn [existsb fst snd].
    rewrite orb_assoc. f_equal. by rewrite orb_comm.
  - intros ar addrs. rewrite note_struct. by apply reserves_list.
  - intros ar addrs. change (note w (Array fs) (ar, addrs)) with (note w (Struct fs) (ar, addrs)).
    rewrite note_struct. by apply reserves_list.
Qed.

Lemma note_calls_reserve (p : Prog) : reserves (fold_m (fun st c => note_list w (args c) st) p) (prog_objs w p).
Proof using Hw.
  induction p as [|c p IH]; [apply reserves_nil|]. unfold prog_objs. rewrite fmap_cons. cbn [concat].
  apply (reserves_app (note_list w (args c)) (fold_m (fun st c => note_list w (args c) st) p)); [|exact IH].
  apply reserves_list, Forall_forall. intros f _. apply note_reserves.
Qed.
End Note.

(** * Pass 2 *)

(** Objects of at least a byte sharing no granule share no byte. *)
Lemma covers_apart x y : 0 <= fst x -> 0 <= fst y -> 1 <= snd x -> 1 <= snd y ->
  (forall g, 0 <= g -> covers (fst x) (snd x) g = true -> covers (fst y) (snd y) g = false) -> apart x y.
Proof.
  destruct x as [a m], y as [b n]. unfold apart. cbn [fst snd]. intros Ha Hb Hm Hn H.
  destruct (Z.le_gt_cases (a + m) b) as [?|H1]; [by left|]. destruct (Z.le_gt_cases (b + n) a) as [?|H2]; [by right|]. exfalso.
  assert (forall c k, 0 <= c -> 1 <= k -> c <= Z.max a b < c + k -> covers c k (Z.max a b / 64) = true) as Hin.
  { intros c k Hc Hk Hx. unfold covers, div_ceil, GRANULE. apply andb_true_intro. split; [apply Z.leb_le, Z.div_le_mono; lia|].
    apply Z.ltb_lt. generalize dependent (Z.max a b). intros x Hx. dlia. }
  pose proof (H (Z.max a b / 64)) as H3. rewrite Hin, (Hin b n) in H3 by lia. discriminate H3; [apply Z.div_pos; lia|done].
Qed.

(** No run of free granules of the bitmap [u] holds [n] bytes. *)
Definition no_room (size : Z) (u : list Z) (n : Z) : Prop :=
  forall s, 0 <= s -> s + Z.max (div_ceil n GRANULE) 1 <= size / GRANULE -> ~ free_run u s (Z.max (div_ceil n GRANULE) 1).

(** An object the allocator answers 0 for, as nothing fits. *)
Definition homeless (size : Z) (u : list Z) (o : Z * Z) : Prop := fst o = 0 /\ no_room size u (snd o).

Lemma no_room_grow size u u' n : (forall g, 0 <= g -> occ u g = true -> occ u' g = true) -> no_room size u n -> no_room size u' n.
Proof.
  intros Hg H s Hs Hfit Hf. apply (H s Hs Hfit). intros g Hr. specialize (Hf g Hr). destruct (occ u g) eqn:E; [|done].
  rewrite (Hg g) in Hf by (done || lia). done.
Qed.

(** The placements [L] took free granules of [u], each its own, giving [u']. *)
Record placed (size : Z) (u : list Z) (L : list (Z * Z)) (u' : list Z) : Prop := Placed
  { pl_grow : forall g, 0 <= g -> occ u g = true -> occ u' g = true;
    pl_new : Forall (fun o => 0 <= fst o /\ 1 <= snd o /\ (homeless size u' o \/ (fst o + snd o <= size /\
      forall g, 0 <= g -> covers (fst o) (snd o) g = true -> occ u g = false /\ occ u' g = true))) L;
    pl_apart : forall i j x y, (i < j)%nat -> L !! i = Some x -> L !! j = Some y -> apart x y \/ homeless size u' x \/ homeless size u' y }.

Lemma placed_nil size u : placed size u [] u.
Proof. constructor; [done|constructor|done]. Qed.

Lemma placed_app size u L u1 L' u2 : placed size u L u1 -> placed size u1 L' u2 -> placed size u (L ++ L') u2.
Proof.
  intros [G1 N1 A1] [G2 N2 A2]. assert (forall o, homeless size u1 o -> homeless size u2 o) as Hh.
  { intros o [H0 H]. split; [done|]. by eapply no_room_grow. }
  pose proof N1 as N1'. pose proof N2 as N2'. rewrite Forall_forall in N1', N2'. constructor.
  - auto.
  - apply Forall_app. split; (eapply Forall_impl; [eassumption|]); intros o (H0 & H1 & H); (split_and!; [done|done|]);
      (destruct H as [H|[Hs Hg]]; [left; by auto|right; split; [done|]]); intros g Hge Hc; destruct (Hg g Hge Hc) as [E1 E2].
    + split; [done|auto].
    + split; [|done]. destruct (occ u g) eqn:E; [|done]. rewrite (G1 g Hge E) in E1. done.
  - intros i j x y Hij Hx Hy. destruct (decide (j < length L)%nat) as [Hj|Hj].
    { rewrite lookup_app_l in Hx, Hy by lia. destruct (A1 i j x y Hij Hx Hy) as [?|[?|?]]; auto. }
    destruct (decide (i < length L)%nat) as [Hi|Hi].
    2:{ rewrite lookup_app_r in Hx, Hy by lia. apply (A2 (i - length L)%nat (j - length L)%nat); try done. lia. }
    rewrite lookup_app_l in Hx by lia. rewrite lookup_app_r in Hy by lia.
    destruct (N1' x) as (X0 & X1 & [X|[_ X]]); [by eapply list_elem_of_lookup_2|auto|].
    destruct (N2' y) as (Y0 & Y1 & [Y|[_ Y]]); [by eapply list_elem_of_lookup_2|auto|].
    left. apply covers_apart; try done. intros g Hg Hc. destruct (covers (fst y) (snd y) g) eqn:E; [|done].
    destruct (X g Hg Hc), (Y g Hg E). congruence.
Qed.

Lemma alloc_placed ar size : arena_wf ar -> 1 <= size ->
  exists off u, alloc ar size = Done (off, with_used ar u) /\ arena_wf (with_used ar u) /\ placed (len ar) (used ar) [(off, size)] u.
Proof.
  intros Hwf Hs. destruct (alloc_spec ar size Hwf Hs) as [(s & u & -> & H)|[-> Hfull]].
  - unfold alloc_ok in H. set (need := Z.max (div_ceil size GRANULE) 1) in *. destruct H as (H0 & Hfit & Hfree & _ & Hwf' & Ho).
    exists (s * GRANULE), u. split_and!; [done|done|]. constructor.
    + intros g Hg E. rewrite Ho, E by done. apply orb_true_r.
    + constructor; [|constructor]. cbn [fst snd]. split_and!; [unfold GRANULE; lia|done|]. right. split.
      * unfold need, div_ceil, GRANULE in *. dlia.
      * intros g Hg Hc. rewrite (covers_run s size H0 Hs g) in Hc. fold need in Hc. split; [apply Hfree; lia|].
        by rewrite Ho, Hc.
    + intros [|i] [|j] x y Hij Hx Hy; done || lia.
  - exists 0, (used ar). rewrite with_used_same. split_and!; [done|done|]. constructor; [done| |].
    + constructor; [|constructor]. cbn [fst snd]. split_and!; [lia|done|]. left. split; [done|]. exact Hfull.
    + intros [|i] [|j] x y Hij Hx Hy; done || lia.
Qed.

Section Assign.
Context (w : Z) (Hw : 0 <= w).

(** [run] places the objects of [x] and records their addresses. *)
Definition assigns {A} (run : Arena * list Z -> outcome (A * (Arena * list Z))) (x : A)
    (pl : A -> list (Z * Z) -> A -> Prop) (ob : A -> list (Z * Z)) : Prop :=
  forall ar addrs, arena_wf ar ->
    exists x' u addrs' L, run (ar, addrs) = Done (x', (with_used ar u, addrs ++ addrs')) /\ arena_wf (with_used ar u) /\
      pl x L x' /\ placed (len ar) (used ar) L u /\ (forall a, a ∈ fst <$> ob x' -> a ∈ addrs' \/ a ∈ fst <$> ob x).

Definition list_objs (l : list Arg) : list (Z * Z) := concat (objs w <$> l).

Lemma assign_leaf a : places w a [] a -> assigns (fun st => Done (a, st)) a (places w) (objs w).
Proof using.
  intros H ar addrs Hwf. exists a, (used ar), [], []. rewrite with_used_same, app_nil_r.
  split_and!; try done; try apply placed_nil; intros x Hx; by right.
Qed.

Lemma assign_map {A B} run x (f : A -> B) pl ob pl' ob' : assigns run x pl ob ->
  (forall x L x', pl x L x' -> pl' (f x) L (f x')) -> (forall x, ob' (f x) = ob x) ->
  assigns (fun st => '(x, st) ← run st; Done (f x, st)) (f x) pl' ob'.
Proof using.
  intros H Hpl Hob ar addrs Hwf. destruct (H ar addrs Hwf) as (x' & u & addrs' & L & E & Hwf' & Hp & Hpd & Hin).
  exists (f x'), u, addrs', L. rewrite E, !Hob. split_and!; try done. by apply Hpl.
Qed.

Lemma assign_list_spec (l : list Arg) : Forall (fun a => assigns (assign w a) a (places w) (objs w)) l ->
  assigns (assign_list w l) l (places_list w) list_objs.
Proof using.
  induction 1 as [|a l Ha _ IH]; intros ar addrs Hwf.
  { exists [], (used ar), [], []. rewrite with_used_same. cbn [assign_list]. rewrite app_nil_r.
    split_and!; [done|done|constructor|apply placed_nil|intros x Hx; by right]. }
  cbn [assign_list]. destruct (Ha ar addrs Hwf) as (a' & u & addrs1 & L & E & Hwf1 & Hp & Hpd & Hin).
  rewrite E. cbn [mbind outcome_bind].
  destruct (IH (with_used ar u) (addrs ++ addrs1) Hwf1) as (l' & u' & addrs2 & L' & E' & Hwf2 & Hp' & Hpd' & Hin').
  rewrite E'. cbn [mbind outcome_bind]. exists (a' :: l'), u', (addrs1 ++ addrs2), (L ++ L').
  rewrite with_used_twice, <- app_assoc. split_and!; try done; [by constructor|by eapply placed_app|].
  intros x. unfold list_objs in *. rewrite !fmap_cons. cbn [concat]. rewrite !fmap_app, !elem_of_app.
  intros [Hx|Hx]; [destruct (Hin x Hx); auto|destruct (Hin' x Hx); auto].
Qed.

Lemma assign_struct fs st : assign w (Struct fs) st = '(fs, st) ← assign_list w fs st; Done (Struct fs, st).
Proof using.
  cbn [assign].
  enough (forall st, (fix go (fs : list Arg) (st : Arena * list Z) : outcome (list Arg * (Arena * list Z)) :=
    match fs with
    | [] => Done ([], st)
    | f :: fs => '(f, st) ← assign w f st; '(fs, st) ← go fs st; Done (f :: fs, st)
    end) fs st = assign_list w fs st) as -> by done.
  induction fs as [|f fs IH]; intros st'; [done|]. cbn [assign_list].
  destruct (assign w f st') as [[f' st'']| | |]; [|done..]. cbn [mbind outcome_bind]. by rewrite IH.
Qed.

Lemma assign_array fs st : assign w (Array fs) st = '(fs, st) ← assign_list w fs st; Done (Array fs, st).
Proof using.
  pose proof (assign_struct fs st) as H. cbn [assign] in *.
  destruct ((fix go (fs : list Arg) (st : Arena * list Z) : outcome (list Arg * (Arena * list Z)) := _) fs st) as [[l st']| | |];
    destruct (assign_list w fs st) as [[l2 st2]| | |]; cbn in *; by simplify_eq.
Qed.

Lemma assign_spec a : assigns (assign w a) a (places w) (objs w).
Proof using Hw.
  induction a as [v|i d x|addr inner IH|addr|d|fs IH|fs IH|a IH| |slot a IH|] using arg_nested_ind;
    try (apply assign_leaf; constructor).
  - intros ar addrs Hwf. cbn [assign fst snd]. destruct (Z.eqb_spec addr AUTO_ADDR) as [->|Hne].
    + destruct (alloc_placed ar (Z.max (encoded_len inner w) 1) Hwf) as (off & u & -> & Hwf1 & Hpl); [lia|].
      cbn [mbind outcome_bind]. destruct (IH (with_used ar u) (addrs ++ [off]) Hwf1) as (x' & u' & addrs' & L & -> & Hwf2 & Hp & Hpd & Hin).
      cbn [mbind outcome_bind]. exists (Ptr off (Some x')), u', (off :: addrs'), ((off, Z.max (encoded_len inner w) 1) :: L).
      rewrite with_used_twice, <- app_assoc. split_and!; try done; [by constructor|by eapply (placed_app _ _ [_])|].
      intros a. cbn [objs]. rewrite !fmap_cons. cbn [fst]. rewrite !elem_of_cons.
      intros [->|Ha]; [by left; left|]. destruct (Hin a Ha); auto.
    + cbn [mbind outcome_bind]. destruct (IH ar addrs Hwf) as (x' & u' & addrs' & L & -> & Hwf2 & Hp & Hpd & Hin).
      cbn [mbind outcome_bind]. exists (Ptr addr (Some x')), u', addrs', L. split_and!; try done; [by constructor|].
      intros a. cbn [objs]. rewrite !fmap_cons. cbn [fst]. rewrite !elem_of_cons.
      intros [->|Ha]; [by right; left|]. destruct (Hin a Ha); auto.
  - intros ar addrs Hwf. cbn [assign fst snd]. destruct (Z.eqb_spec addr AUTO_ADDR) as [->|Hne].
    + destruct (alloc_placed ar GRANULE Hwf) as (off & u & -> & Hwf1 & Hpl); [done|]. cbn [mbind outcome_bind].
      exists (Ptr off None), u, [], [(off, GRANULE)]. rewrite app_nil_r. split_and!; [done|done|constructor|done|intros a Ha; by right].
    + apply (assign_leaf (Ptr addr None)); [by constructor|done].
  - intros ar addrs Hwf. rewrite assign_struct. revert ar addrs Hwf.
    apply (assign_map (assign_list w fs) fs Struct (places_list w) list_objs); [by apply assign_list_spec|by constructor|done].
  - intros ar addrs Hwf. rewrite assign_array. revert ar addrs Hwf.
    apply (assign_map (assign_list w fs) fs Array (places_list w) list_objs); [by apply assign_list_spec|by constructor|done].
  - apply (assign_map (assign w a) a Union _ _ _ _ IH); [by constructor|done].
  - apply (assign_map (assign w a) a (Out slot) _ _ _ _ IH); [by constructor|done].
Qed.

Lemma assign_calls_spec p : assigns (assign_calls w p) p (places_prog w) (prog_objs w).
Proof using Hw.
  induction p as [|c p IH]; intros ar addrs Hwf.
  { exists [], (used ar), [], []. rewrite with_used_same. cbn [assign_calls]. rewrite app_nil_r.
    split_and!; [done|done|constructor|apply placed_nil|intros x Hx; by right]. }
  cbn [assign_calls]. assert (assigns (assign_list w (args c)) (args c) (places_list w) list_objs) as Ha.
  { apply assign_list_spec, Forall_forall. intros a _. apply assign_spec. }
  destruct (Ha ar addrs Hwf) as (l & u & addrs1 & L & E & Hwf1 & Hp & Hpd & Hin). rewrite E. cbn [mbind outcome_bind].
  destruct (IH (with_used ar u) (addrs ++ addrs1) Hwf1) as (p' & u' & addrs2 & L' & E' & Hwf2 & Hp' & Hpd' & Hin').
  rewrite E'. cbn [mbind outcome_bind]. exists (with_args c l :: p'), u', (addrs1 ++ addrs2), (L ++ L').
  rewrite with_used_twice, <- app_assoc. split_and!; try done; [by constructor|by eapply placed_app|].
  intros x. unfold list_objs, prog_objs in *. rewrite !fmap_cons. cbn [concat args with_args]. rewrite !fmap_app, !elem_of_app.
  intros [Hx|Hx]; [destruct (Hin x Hx); auto|destruct (Hin' x Hx); auto].
Qed.
End Assign.

Lemma objs_size w a : Forall (fun o => 1 <= snd o) (objs w a).
Proof.
  induction a as [v|i d x|addr inner IH|addr|d|fs IH|fs IH|a IH| |slot a IH|] using arg_nested_ind; cbn [objs]; try done.
  - constructor; [cbn; lia|done].
  - by apply Forall_concat, Forall_fmap.
  - by apply Forall_concat, Forall_fmap.
Qed.

Lemma prog_objs_size w p : Forall (fun o => 1 <= snd o) (prog_objs w p).
Proof.
  apply Forall_concat, Forall_fmap, Forall_forall. intros c _.
  apply Forall_concat, Forall_fmap, Forall_forall. intros a _. apply objs_size.
Qed.

(** The two passes together. *)
Lemma note_fixed_run w ar p : 0 <= w -> arena_wf ar -> Forall (fun o => is_u64 (fst o)) (prog_objs w p) ->
  exists u u' addrs p' L, note_fixed w ar p = Done (set_fixed (with_used ar u') addrs, p') /\
    (forall g, 0 <= g -> occ u g = reserved ar (prog_objs w p) g || occ (used ar) g) /\
    arena_wf (set_fixed (with_used ar u') addrs) /\ places_prog w p L p' /\ placed (len ar) u L u' /\
    (forall o, o ∈ prog_objs w p' -> fst o ∈ addrs).
Proof.
  intros Hw Hwf Hp. unfold note_fixed.
  destruct (note_calls_reserve w Hw p ar [] Hwf Hp) as (u & -> & Hwf1 & Hu). cbn [mbind outcome_bind].
  destruct (assign_calls_spec w Hw p (with_used ar u) ([] ++ (fst <$> prog_objs w p)) Hwf1)
    as (p' & u' & addrs' & L & -> & Hwf2 & Hpl & Hpd & Hin). cbn [mbind outcome_bind].
  eexists u, u', _, p', L. split_and!; [done|done| |done|done|].
  - by destruct Hwf2; constructor.
  - intros o Ho. apply elem_of_app. destruct (Hin (fst o)) as [H|H]; [by apply list_elem_of_fmap_2|by right|by left].
Qed.

(** C13: placement.  On every program and every well-formed arena
    [note_fixed] terminates without an out-of-range granule and returns the
    program with exactly its [&AUTO] pointers replaced.  A placed object, also
    one at address 0, lies in the arena and shares no byte with another placed
    object or with a textually addressed object of the program that lies in the
    arena.  Only where no run of granules holds an object, which the final bitmap
    still shows, is it given the address 0 it then shares; and the clip table
    is strictly sorted and holds the address of every object the program will
    lay out. *)
Theorem note_fixed_places w ar p : 0 <= w -> arena_wf ar -> Forall (fun o => is_u64 (fst o)) (prog_objs w p) ->
  exists ar' p' L, note_fixed w ar p = Done (ar', p') /\ arena_wf ar' /\ len ar' = len ar /\ places_prog w p L p' /\
    (forall i j x y, (i < j)%nat -> L !! i = Some x -> L !! j = Some y ->
       apart x y \/ homeless (len ar) (used ar') x \/ homeless (len ar) (used ar') y) /\
    (forall x, x ∈ L -> homeless (len ar) (used ar') x \/ (fst x + snd x <= len ar /\
       forall o, o ∈ prog_objs w p -> fst o + snd o <= len ar -> apart o x)) /\
    StronglySorted Z.lt (fixed ar') /\ (forall o, o ∈ prog_objs w p' -> fst o ∈ fixed ar').
Proof.
  intros Hw Hwf Hp. destruct (note_fixed_run w ar p Hw Hwf Hp) as (u & u' & addrs & p' & L & Er & Hu & Hwf' & Hpl & [_ Hnew Hap] & Hin).
  exists (set_fixed (with_used ar u') addrs), p', L. split_and!; [done|done|done|done|exact Hap| | |].
  - intros x Hx. rewrite Forall_forall in Hnew. destruct (Hnew x Hx) as (H0 & H1 & [H|[Hs Hg]]); [by left|right].
    split; [done|]. intros o Ho Hfit. rewrite Forall_forall in Hp. pose proof (Hp o Ho) as Hou. unfold is_u64 in Hou.
    pose proof (prog_objs_size w p) as Hsz. rewrite Forall_forall in Hsz. pose proof (Hsz o Ho) as Ho1. cbv beta in Ho1.
    apply covers_apart; try done; [lia|]. intros g Hge Hc. destruct (covers (fst x) (snd x) g) eqn:E; [|done].
    destruct (Hg g Hge E) as [E1 _]. rewrite Hu in E1 by done.
    apply orb_false_iff in E1 as [E1 _]. unfold reserved in E1.
    assert (in_range ar (fst o) (snd o) && covers (fst o) (snd o) g = false) as E2.
    { rewrite <- not_true_iff_false in E1 |- *. intros E2. apply E1. apply existsb_exists. exists o. split; [|done].
      by apply list_elem_of_In. }
    rewrite Hc, (proj2 (in_range_iff ar (fst o) (snd o) Hwf ltac:(lia) ltac:(lia))) in E2 by lia. done.
  - cbn [fixed set_fixed]. apply dedup_sorted, sort_u64_sorted.
  - intros o Ho. cbn [fixed set_fixed]. rewrite elem_of_dedup, sort_u64_perm. by apply Hin.
Qed.

Lemma map_arena_wf size : 0 <= size <= 2 ^ 62 -> arena_wf (map_arena size).
Proof.
  intros Hs. constructor; cbn [len mem used map_arena]; [done| | |].
  - unfold zlen. rewrite length_replicate. lia.
  - apply Forall_replicate. unfold is_u8. lia.
  - unfold zlen. rewrite length_replicate. pose proof (Z.div_pos (size / GRANULE) 64 ltac:(apply Z.div_pos; done || lia)). lia.
Qed.

Lemma note_fixed_places_witness :
  let p := [MkCall (bs "write") (bs "write") (Some 1) [Ptr 64 (Some (Struct [Int 1; Ptr AUTO_ADDR (Some (Data [1; 2; 3]))]));
              Ptr AUTO_ADDR (Some (Array [Int 1; Int 2]))] None None false] in
  exists ar' p' L, note_fixed 8 (map_arena 1024) p = Done (ar', p') /\ places_prog 8 p L p' /\ L = [(0, 3); (128, 16)] /\
    (forall i j x y, (i < j)%nat -> L !! i = Some x -> L !! j = Some y ->
       apart x y \/ homeless 1024 (used ar') x \/ homeless 1024 (used ar') y) /\
    (forall x, x ∈ L -> ~ homeless 1024 (used ar') x).
Proof.
  destruct (note_fixed_places 8 (map_arena 1024)
    [MkCall (bs "write") (bs "write") (Some 1) [Ptr 64 (Some (Struct [Int 1; Ptr AUTO_ADDR (Some (Data [1; 2; 3]))]));
      Ptr AUTO_ADDR (Some (Array [Int 1; Int 2]))] None None false]) as (ar' & p' & L & E & _ & _ & Hp & Ha & Hd & _).
  - done.
  - apply map_arena_wf. lia.
  - repeat constructor; vm_compute; done.
  - exists ar', p', L. assert (L = [(0, 3); (128, 16)]) as EL.
    { vm_compute in E. injection E as <- <-. clear Ha Hd.
      repeat match goal with H : places_prog _ _ _ _ |- _ => inversion H; clear H; subst | H : places_list _ _ _ _ |- _ => inversion H; clear H; subst
        | H : places _ _ _ _ |- _ => inversion H; clear H; subst end; try done. }
    split_and!; [done|done|done|exact Ha|]. intros x Hx [H0 Hn]. rewrite EL in Hx. assert (x = (0, 3)) as -> by set_solver.
    apply (Hn 8 ltac:(lia) ltac:(vm_compute; discriminate)). assert (used ar' = [7]) as -> by (vm_compute in E; by injection E as <- <-).
    intros g Hg. change (Z.max (div_ceil (snd (0, 3)) GRANULE) 1) with 1 in Hg. assert (g = 8) as -> by lia. reflexivity.
Defined.
