(* ===== verification/ProgCopyin.v ===== *)
(** fuzz/prog_decode.rs, third part: checksums, resource resolution, the byte
    image of an argument, its layout in the arena (copyin) and the places the
    produced resources are read back from (copyout). *)
From S2P Require Import Prelude Text ProgSyntax ProgArena.

(** * Checksums *)

(** [while acc > 0xffff { acc = (acc & 0xffff) + (acc >> 16) }] *)
Definition fold_step (acc : Z) : outcome (ctl Z Z) :=
  if 0xffff <? acc then Done (Next (as_u32 (Z.land acc 0xffff + Z.shiftr acc 16))) else Done (Stop acc).
Definition fold_carry (acc : Z) : outcome Z := loop 4 fold_step acc.

(** The word loop; the accumulator is folded after every word. *)
Fixpoint csum_words (acc : Z) (data : list Z) : outcome Z :=
  match data with
  | a :: b :: t => acc ← fold_carry (as_u32 (acc + le_val [a; b])); csum_words acc t
  | [a] => Done (as_u32 (acc + a))
  | [] => Done acc
  end.

Definition csum_inet (data : list Z) : outcome Z :=
  acc ← csum_words 0 data; acc ← fold_carry acc; Done (0xffff - as_u16 acc).

(** [bitfield_pack]; a shift of a u64 uses the amount modulo 64. *)
Definition bitfield_pack (word value offset length : Z) : Z :=
  if (length =? 0) || (64 <=? length) then value
  else
    let s := offset mod 64 in
    let mask := ((1 <<₆₄ length) -₆₄ 1) <<₆₄ s in
    Z.lor (Z.land word (2 ^ 64 - 1 - mask)) (Z.land (value <<₆₄ s) mask).

(** * Execution state *)

Definition Ctx : Type := gmap Z Z.

Definition resolve (ctx : Ctx) (idx div add : Z) : Z :=
  match ctx !! idx with
  | Some v => (if negb (div =? 0) then v / div else v) +₆₄ add
  | None => 2 ^ 64 - 1
  end.

Definition set (ctx : Ctx) (idx val : Z) : Ctx := <[idx := val]> ctx.

(** [v.to_le_bytes()[..w]] for a width up to 8 *)
Definition low_bytes (w v : Z) : list Z := take (Z.to_nat w) (le_bytes 8 v).

(** [b.resize(n, 0)] *)
Definition resize (n : nat) (l : list Z) : list Z := take n l ++ replicate (n - length l) 0.

Fixpoint encode (a : Arg) (ctx : Ctx) (w : Z) : list Z :=
  match a with
  | Int v => low_bytes w v
  | Res idx div add => low_bytes w (resolve ctx idx div add)
  | Nil => replicate (Z.to_nat w) 0
  | Csum => [0; 0]
  | Data d => d
  | Union inner => encode inner ctx w
  | Out _ inner => resize (Z.to_nat RES_WIDTH) (encode inner ctx RES_WIDTH)
  | Struct fs | Array fs => concat ((fun f => encode f ctx w) <$> fs)
  | Ptr addr _ => le_bytes 8 (physical_addr addr)
  end.

Record Copyout : Type := MkCopyout { slot : Z; off : Z; size : Z }.

(** The fields appended to [out], in order. *)
Fixpoint collect_copyouts (a : Arg) (base w : Z) : list Copyout :=
  match a with
  | Out slot inner => MkCopyout slot base RES_WIDTH :: collect_copyouts inner base w
  | Struct fs | Array fs =>
      (fix go (fs : list Arg) (off : Z) : list Copyout :=
         match fs with
         | [] => []
         | f :: fs => collect_copyouts f off w ++ go fs (off +₆₄ encoded_len f w)
         end) fs base
  | Union i => collect_copyouts i base w
  | _ => []
  end.

Fixpoint csum_offset (a : Arg) (base w : Z) : option Z :=
  match a with
  | Csum => Some base
  | Struct fs | Array fs =>
      (fix go (fs : list Arg) (off : Z) : option Z :=
         match fs with
         | [] => None
         | f :: fs => match csum_offset f off w with Some p => Some p | None => go fs (off + encoded_len f w) end
         end) fs base
  | Union i | Out _ i => csum_offset i base w
  | _ => None
  end.

Definition fix_csums (bytes : list Z) (a : Arg) (w : Z) : outcome (list Z) :=
  match csum_offset a 0 w with
  | None => Done bytes
  | Some off =>
      if zlen bytes <? off + 2 then Done bytes else
      bytes ← upd bytes off 0;
      bytes ← upd bytes (off + 1) 0;
      sum ← csum_inet bytes;
      Done (blit bytes off (le_bytes 2 sum))
  end.

Section Copyin.
Context (ctx : Ctx) (w : Z).

(** The pointer case of [copyin]; [lay] lays out the pointers of the target. *)
Definition copyin_ptr (lay : Arena -> outcome Arena) (ar : Arena) (addr : Z) (inner : Arg) : outcome Arena :=
  ar ← lay ar;
  bytes ← fix_csums (encode inner ctx w) inner w;
  Done (write ar addr bytes).

Fixpoint lay_out_nested (a : Arg) (ar : Arena) : outcome Arena :=
  match a with
  | Ptr addr (Some inner) => copyin_ptr (lay_out_nested inner) ar addr inner
  | Struct fs | Array fs =>
      (fix go (fs : list Arg) (ar : Arena) : outcome Arena :=
         match fs with [] => Done ar | f :: fs => ar ← lay_out_nested f ar; go fs ar end) fs ar
  | Union i | Out _ i => lay_out_nested i ar
  | _ => Done ar
  end.

Fixpoint copyin (a : Arg) (ar : Arena) : outcome (Arena * Z) :=
  match a with
  | Int v => Done (ar, v)
  | Res idx div add => Done (ar, resolve ctx idx div add)
  | Nil | Csum | Data _ | Struct _ | Array _ => Done (ar, 0)
  | Union inner | Out _ inner => copyin inner ar
  | Ptr addr (Some inner) => ar ← copyin_ptr (lay_out_nested inner) ar addr inner; Done (ar, physical_addr addr)
  | Ptr addr None => Done (ar, physical_addr addr)
  end.

Definition MAX_ARGS : nat := 9.

Definition arg_copyouts (a : Arg) : list Copyout :=
  match a with Ptr addr (Some inner) => collect_copyouts inner addr w | _ => [] end.

Fixpoint prepare_go (l : list Arg) (ar : Arena) : outcome (Arena * (list Z * list Copyout)) :=
  match l with
  | [] => Done (ar, ([], []))
  | a :: l =>
      '(ar, v) ← copyin a ar;
      '(ar, (vs, cos)) ← prepare_go l ar;
      Done (ar, (as_i64 v :: vs, arg_copyouts a ++ cos))
  end.

(** The nine scalars and the copyouts. *)
Definition prepare_args (c : Call) (ar : Arena) : outcome (Arena * (list Z * list Copyout)) :=
  '(ar, (vs, cos)) ← prepare_go (take MAX_ARGS (args c)) ar;
  Done (ar, (vs ++ replicate (MAX_ARGS - length vs) 0, cos)).

End Copyin.

(** * The checksum verifies *)

(** The sum of the 16-bit words, the last byte padded with zero. *)
Fixpoint words_sum (data : list Z) : Z :=
  match data with a :: b :: t => a + 256 * b + words_sum t | [a] => a | [] => 0 end.

Lemma wp_fold_carry acc (Q : Z -> Prop) F : is_u32 acc ->
  (forall r, 0 <= r <= 0xffff -> r mod 0xffff = acc mod 0xffff -> (0 < acc -> 0 < r) -> (acc = 0 -> r = 0) -> Q r) -> wp (fold_carry acc) Q F.
Proof.
  intros Hacc HQ.
  assert (forall x, is_u32 x -> 0xffff < x -> let y := Z.land x 0xffff + Z.shiftr x 16 in
    y = x mod 65536 + x / 65536) as Hy.
  { intros x Hx Hg y. unfold y. rewrite Z.shiftr_div_pow2 by lia. f_equal.
    change 0xffff with (Z.ones 16). by rewrite Z.land_ones by lia. }
  unfold is_u32 in *.
  apply (wp_loop (fun x => 0 <= x < 2 ^ 32 /\ x mod 0xffff = acc mod 0xffff /\ (0 < acc -> 0 < x) /\ (acc = 0 -> x = 0))
    (fun x => if x <=? 0xffff then 0 else if x <=? 0x1fffe then 1 else 2)).
  - intros x (Hx & Hm & Hp & H0). unfold fold_step. destruct (Z.ltb_spec 0xffff x) as [Hg|Hl]; cbn [wp]; [|apply HQ; auto; lia].
    rewrite (Hy x Hx Hg). clear Hy HQ.
    assert (as_u32 (x mod 65536 + x / 65536) = x mod 65536 + x / 65536) as -> by (apply as_u32_small; unfold is_u32; dlia).
    split_and!; [dlia|dlia| |intros; dlia|intros; dlia| |].
    + rewrite <- Hm. pose proof (Z.div_mod x 65536 ltac:(lia)) as Hd.
      replace x with ((x mod 65536 + x / 65536) + (x / 65536) * 65535) at 3 by lia. by rewrite Z_mod_plus_full.
    + repeat case_match; lia.
    + destruct (Z.leb_spec x 0xffff); [lia|]. destruct (Z.leb_spec (x mod 65536 + x / 65536) 0xffff); [destruct (x <=? 0x1fffe); lia|].
      destruct (Z.leb_spec x 0x1fffe); [dlia|]. destruct (Z.leb_spec (x mod 65536 + x / 65536) 0x1fffe); [lia|dlia].
  - split_and!; lia.
  - repeat case_match; lia.
Qed.

Lemma words_sum_nonneg data : bytes_ok data -> 0 <= words_sum data.
Proof.
  induction data as [data IH] using (induction_ltof1 _ (@length Z)). unfold ltof in IH. intros H.
  destruct data as [|a [|b t]]; cbn [words_sum]; [lia| |].
  - inversion H; subst. unfold is_u8 in *. lia.
  - inversion H as [|? ? Ha H']; subst. inversion H' as [|? ? Hb Ht]; subst. unfold is_u8 in *.
    pose proof (IH t ltac:(simpl; lia) Ht). lia.
Qed.

Lemma wp_csum_words data acc (Q : Z -> Prop) F : bytes_ok data -> 0 <= acc <= 0xffff ->
  (forall r, 0 <= r < 0x20000 -> r mod 0xffff = (acc + words_sum data) mod 0xffff -> (0 < acc + words_sum data -> 0 < r) ->
    (acc + words_sum data = 0 -> r = 0) -> Q r) ->
  wp (csum_words acc data) Q F.
Proof.
  revert acc. induction data as [data IH] using (induction_ltof1 _ (@length Z)). unfold ltof in IH. intros acc Hd Hacc HQ.
  destruct data as [|a [|b t]]; cbn [csum_words words_sum] in *.
  - apply HQ; intros; rewrite ?Z.add_0_r in *; lia.
  - inversion Hd as [|? ? Ha _]; subst. unfold is_u8 in *.
    rewrite as_u32_small by (unfold is_u32; lia). apply HQ; intros; lia.
  - inversion Hd as [|? ? Ha H']; subst. inversion H' as [|? ? Hb Ht]; subst. unfold is_u8 in *.
    pose proof (words_sum_nonneg t Ht). cbn [le_val].
    rewrite as_u32_small by (unfold is_u32; lia). apply wp_bind. apply wp_fold_carry; [unfold is_u32; lia|].
    intros r Hr Hm Hp H0. apply IH; [simpl; lia|done|done|]. intros r' Hr' Hm' Hp' H0'. apply HQ; [done| |lia|lia].
    rewrite Hm', <- Zplus_mod_idemp_l, Hm, Zplus_mod_idemp_l. f_equal. lia.
Qed.

(** The checksum is the complement of the ones' complement sum. *)
Lemma wp_csum_inet data (Q : Z -> Prop) F : bytes_ok data ->
  (forall r, 0 <= r <= 0xffff -> r mod 0xffff = words_sum data mod 0xffff -> (0 < words_sum data -> 0 < r) ->
    (words_sum data = 0 -> r = 0) -> Q (0xffff - r)) ->
  wp (csum_inet data) Q F.
Proof.
  intros Hd HQ. unfold csum_inet. apply wp_bind, wp_csum_words; [done|lia|]. intros r Hr Hm Hp H0.
  pose proof (words_sum_nonneg data Hd). rewrite Z.add_0_l in *.
  apply wp_bind, wp_fold_carry; [unfold is_u32; lia|]. intros r' Hr' Hm' Hp' H0'. cbn [wp].
  unfold as_u16. rewrite (Z.mod_small r') by lia. apply HQ; [done|congruence|lia|lia].
Qed.

Lemma words_sum_app l k : Z.Even (zlen l) -> words_sum (l ++ k) = words_sum l + words_sum k.
Proof.
  induction l as [l IH] using (induction_ltof1 _ (@length Z)). unfold ltof in IH. intros He.
  destruct l as [|a [|b t]]; [done| |].
  - destruct He as [q Hq]. change (zlen [a]) with 1 in Hq. lia.
  - cbn [app words_sum]. rewrite IH; [lia|simpl; lia|]. destruct He as [q Hq]. exists (q - 1). rewrite !zlen_cons in Hq. lia.
Qed.

Lemma blit_spec m off bytes : 0 <= off -> off + zlen bytes <= zlen m ->
  exists p q r, m = p ++ q ++ r /\ zlen p = off /\ length q = length bytes /\ blit m off bytes = p ++ bytes ++ r.
Proof.
  intros Ho Hb. exists (take (Z.to_nat off) m), (take (length bytes) (drop (Z.to_nat off) m)), (drop (Z.to_nat off + length bytes) m).
  unfold zlen in *. split_and!; [|rewrite length_take; lia|rewrite length_take, length_drop; lia|done].
  rewrite <- drop_drop, take_drop, take_drop. done.
Qed.

Lemma zlen_blit m off bytes : 0 <= off -> off + zlen bytes <= zlen m -> zlen (blit m off bytes) = zlen m.
Proof.
  intros Ho Hb. destruct (blit_spec m off bytes Ho Hb) as (p & q & r & -> & _ & Hq & ->). rewrite !zlen_app. unfold zlen. lia.
Qed.

Lemma bytes_blit m off bytes : bytes_ok m -> bytes_ok bytes -> bytes_ok (blit m off bytes).
Proof. intros Hm Hb. unfold blit, bytes_ok. rewrite !Forall_app. split_and!; [by apply Forall_take|done|by apply Forall_drop]. Qed.

(** A byte outside the written range is kept. *)
Lemma get_blit_out m off bytes i : 0 <= off -> off + zlen bytes <= zlen m -> ~ off <= i < off + zlen bytes ->
  get (blit m off bytes) i = get m i.
Proof.
  intros Ho Hb Hi. destruct (blit_spec m off bytes Ho Hb) as (p & q & r & -> & <- & Hq & ->).
  assert (zlen q = zlen bytes) as Hz by (unfold zlen; lia). pose proof (zlen_nonneg bytes).
  destruct (decide (i < zlen p)); [by rewrite !get_app_l by done|].
  replace i with (zlen p + (zlen bytes + (i - zlen p - zlen bytes))) by lia.
  rewrite !get_app_r by lia. rewrite <- Hz, get_app_r by lia. done.
Qed.

Lemma insert_middle {A} (p q : list A) x y : <[length p := y]> (p ++ x :: q) = p ++ y :: q.
Proof. rewrite <- (Nat.add_0_r (length p)). by rewrite insert_app_r. Qed.

(** Writing the checksum of the zeroed buffer at an even offset makes the
    whole buffer sum to zero. *)
Lemma wp_fix_csums bytes a w F (Q : list Z -> Prop) : bytes_ok bytes ->
  (forall off, csum_offset a 0 w = Some off -> 0 <= off) ->
  (csum_offset a 0 w = None \/ (exists off, csum_offset a 0 w = Some off /\ zlen bytes < off + 2) -> Q bytes) ->
  (forall off p x y q v, csum_offset a 0 w = Some off -> bytes = p ++ [x; y] ++ q -> zlen p = off -> is_u16 v ->
     (v + words_sum (p ++ [0; 0] ++ q)) mod 0xffff = 0 -> (v = 0xffff <-> words_sum (p ++ [0; 0] ++ q) = 0) ->
     (Z.Even off -> csum_inet (p ++ le_bytes 2 v ++ q) = Done 0) -> Q (p ++ le_bytes 2 v ++ q)) ->
  wp (fix_csums bytes a w) Q F.
Proof.
  intros Hb Hoff Hnone HQ. unfold fix_csums. destruct (csum_offset a 0 w) as [off|] eqn:E; [|apply Hnone; by left].
  specialize (Hoff off eq_refl). destruct (Z.ltb_spec (zlen bytes) (off + 2)) as [Hs|Hs]; [apply Hnone; right; by exists off|].
  destruct (blit_spec bytes off [0; 0]) as (p & q & r & -> & Hp & Hq & _); [done|change (zlen [0; 0]) with 2; lia|].
  destruct q as [|x [|y [|]]]; try done. cbn [app] in *.
  assert (Z.to_nat off = length p) as Hn by (unfold zlen in Hp; lia).
  assert (Z.to_nat (off + 1) = length (p ++ [0])) as Hn1 by (rewrite length_app; simpl; lia).
  apply wp_bind, wp_upd; [lia|]. rewrite Hn, insert_middle.
  apply wp_bind, wp_upd; [rewrite zlen_app, !zlen_cons in *; lia|].
  replace (p ++ 0 :: y :: r) with ((p ++ [0]) ++ y :: r) by (by rewrite <- app_assoc).
  rewrite Hn1, insert_middle, <- app_assoc. cbn [app].
  assert (bytes_ok (p ++ 0 :: 0 :: r)) as Hz.
  { apply Forall_app in Hb as [H1 H2]. inversion H2 as [|? ? _ H3]; subst. inversion H3; subst.
    apply Forall_app. split; [done|]. repeat constructor; done || (unfold is_u8; lia). }
  apply wp_bind, wp_csum_inet; [done|]. intros s Hsr Hm Hpos H0. cbn [wp].
  destruct (blit_spec (p ++ 0 :: 0 :: r) off (le_bytes 2 (0xffff - s))) as (p' & q' & r' & Eb & Hp' & Hq' & ->); [done| |].
  { unfold zlen at 1. rewrite length_le_bytes. rewrite zlen_app, !zlen_cons in *. lia. }
  rewrite length_le_bytes in Hq'. destruct q' as [|x' [|y' [|]]]; try done.
  apply app_inj_1 in Eb as [<- Eb]; [|unfold zlen in *; lia]. cbn [app] in Eb. injection Eb as _ _ <-.
  pose proof (words_sum_nonneg _ Hz) as Hnn0.
  apply (HQ off p x y r); [done|done|done|unfold is_u16; lia| |cbn [app]; lia|].
  { cbn [app]. rewrite Z.add_comm, <- Zplus_mod_idemp_l, <- Hm, Zplus_mod_idemp_l. by replace (s + (0xffff - s)) with 0xffff by lia. }
  intros He.
  assert (bytes_ok (p ++ le_bytes 2 (0xffff - s) ++ r)) as Hnb.
  { apply Forall_app in Hz as [H1 H2]. apply Forall_app. split; [done|]. apply Forall_app. split; [apply le_bytes_ok|].
    inversion H2 as [|? ? _ H3]; subst. by inversion H3. }
  assert (words_sum (p ++ le_bytes 2 (0xffff - s) ++ r) = words_sum (p ++ 0 :: 0 :: r) + (0xffff - s)) as Hsum.
  { rewrite !(words_sum_app p) by (by rewrite Hp'). cbn [le_bytes app words_sum]. rewrite (Z.mod_small ((0xffff - s) / 256)) by dlia.
    pose proof (Z.div_mod (0xffff - s) 256 ltac:(lia)). lia. }
  pose proof (wp_csum_inet (p ++ le_bytes 2 (0xffff - s) ++ r) (fun c => c = 0) False Hnb) as Hw.
  destruct (csum_inet _) as [c| | |]; [f_equal; apply Hw|exfalso; apply Hw..];
    clear Hw; intros s' Hs' Hm' Hpos' H0'; rewrite Hsum in *; pose proof (words_sum_nonneg _ Hz) as Hnn;
    (assert (s' mod 0xffff = 0) as Hz0; [rewrite Hm', <- Zplus_mod_idemp_l, <- Hm, Zplus_mod_idemp_l; replace (s + (0xffff - s)) with 0xffff by lia; done|dlia]).
Qed.

Lemma encoded_len_pos w a : 0 <= w -> 0 <= encoded_len a w.
Proof.
  intros Hw. induction a using arg_nested_ind; cbn [encoded_len]; try done; try apply zlen_nonneg.
  all: match goal with H : Forall _ _ |- _ => induction H; simpl; lia end.
Qed.

Lemma csum_offset_ge w a base off : 0 <= w -> csum_offset a base w = Some off -> base <= off.
Proof.
  intros Hw. revert base. induction a as [v|i d x|addr inner IH|addr|d|fs IH|fs IH|a IH| |slot a IH|] using arg_nested_ind;
    intros base; cbn [csum_offset]; try done; try apply IH; try (intros [= <-]; lia).
  all: revert base; induction IH as [|f fs Hf _ IH]; intros base; [done|];
    pose proof (encoded_len_pos w f Hw); destruct (csum_offset f base w) as [p|] eqn:E;
    [intros [= <-]; by apply Hf|intros H'; apply IH in H'; lia].
Qed.

(** The checksum verifies.  When the checksum field of an object lies
    inside its bytes at an even offset, [fix_csums] terminates, changes only
    the two bytes of the field, and the Internet checksum of the whole object,
    field included, is then zero, which is how a receiver validates it. *)
Theorem fix_csums_verifies bytes a w off : 0 <= w -> bytes_ok bytes -> csum_offset a 0 w = Some off ->
  Z.Even off -> off + 2 <= zlen bytes ->
  exists bytes', fix_csums bytes a w = Done bytes' /\ zlen bytes' = zlen bytes /\ csum_inet bytes' = Done 0 /\
    forall i, ~ off <= i < off + 2 -> get bytes' i = get bytes i.
Proof.
  intros Hw Hb Ho He Hfit. pose proof (csum_offset_ge w a 0 off Hw Ho) as H0.
  enough (wp (fix_csums bytes a w) (fun bytes' => zlen bytes' = zlen bytes /\ csum_inet bytes' = Done 0 /\
    forall i, ~ off <= i < off + 2 -> get bytes' i = get bytes i) False) as H.
  { destruct (fix_csums bytes a w) as [b'| | |]; try done. by exists b'. }
  apply wp_fix_csums; [done| | |].
  - intros off'. rewrite Ho. by intros [= <-].
  - intros [E|(off' & E & Hs)]; rewrite Ho in E; [done|]. injection E as <-. lia.
  - intros off' p x y q v E -> Hp Hv _ _ Hz. rewrite Ho in E. injection E as <-. rewrite !zlen_app.
    change (zlen (le_bytes 2 v)) with 2. change (zlen [x; y]) with 2. split_and!; [done|by apply Hz|].
    intros i Hi. rewrite zlen_app in Hfit.
    destruct (decide (i < zlen p)); [by rewrite !get_app_l|].
    replace i with (zlen p + (2 + (i - zlen p - 2))) by lia. by rewrite !get_app_r by lia.
Qed.

Lemma fix_csums_verifies_witness :
  let a := Struct [Data [69; 0]; Csum; Data [1; 2; 3]] in
  exists bytes', fix_csums [69; 0; 7; 7; 1; 2; 3] a 8 = Done bytes' /\ zlen bytes' = 7 /\ csum_inet bytes' = Done 0 /\
    forall i, ~ 2 <= i < 4 -> get bytes' i = get [69; 0; 7; 7; 1; 2; 3] i.
Proof.
  apply (fix_csums_verifies [69; 0; 7; 7; 1; 2; 3] (Struct [Data [69; 0]; Csum; Data [1; 2; 3]]) 8 2).
  - lia.
  - repeat constructor; vm_compute; done.
  - reflexivity.
  - by exists 1.
  - vm_compute. done.
Defined.

(** * The image *)

(** The widths [int_width] returns, and that of a resource. *)
Definition width_ok (w : Z) : Prop := w = 1 \/ w = 2 \/ w = 4 \/ w = 8.

Lemma int_width_ok env : width_ok (int_width env).
Proof.
  unfold int_width, width_ok. destruct (env ≫= parse_u64) as [w|]; [|lia].
  destruct (_ || _) eqn:E; lia.
Qed.

Lemma low_bytes_length w v : width_ok w -> zlen (low_bytes w v) = w.
Proof.
  intros Hw. unfold low_bytes, zlen. rewrite length_take, length_le_bytes. unfold width_ok in Hw. lia.
Qed.

Lemma zlen_replicate {A} n (x : A) : zlen (replicate n x) = Z.of_nat n.
Proof. unfold zlen. by rewrite length_replicate. Qed.

Lemma zlen_resize n l : zlen (resize n l) = Z.of_nat n.
Proof. unfold resize. rewrite zlen_app, zlen_replicate. unfold zlen. rewrite length_take. lia. Qed.

Lemma zlen_encode a ctx w : width_ok w -> zlen (encode a ctx w) = encoded_len a w.
Proof.
  intros Hw. induction a as [v|i d x|addr inner IH|addr|d|fs IH|fs IH|a IH| |slot a IH|] using arg_nested_ind;
    cbn [encode encoded_len]; try done; try (by apply low_bytes_length).
  1, 2: induction IH as [|f fs Hf _ IH]; [done|]; rewrite fmap_cons; cbn [concat foldr]; by rewrite zlen_app, Hf, IH.
  - by rewrite zlen_resize.
  - rewrite zlen_replicate. unfold width_ok in Hw. lia.
Qed.

(** The produced fields with their images, in order. *)
Fixpoint out_fields (a : Arg) : list (Z * Arg) :=
  match a with
  | Out slot inner => (slot, inner) :: out_fields inner
  | Struct fs | Array fs => concat (out_fields <$> fs)
  | Union i => out_fields i
  | _ => []
  end.

(** A produced field holds no further produced field. *)
Fixpoint outs_flat (a : Arg) : Prop :=
  match a with
  | Out _ inner => out_fields inner = []
  | Struct fs | Array fs => foldr (fun a P => outs_flat a /\ P) True fs
  | Union i => outs_flat i
  | _ => True
  end.

(** [co] points at the image of the field in the object's bytes at [base]. *)
Definition locates (ctx : Ctx) (w base : Z) (bytes : list Z) (co : Copyout) (f : Z * Arg) : Prop :=
  slot co = fst f /\ size co = RES_WIDTH /\
  slice bytes (off co - base) (off co - base + RES_WIDTH) = Some (encode (Out (fst f) (snd f)) ctx w).

Lemma slice_app_r {A} (pre l : list A) a b s : 0 <= a -> slice l a b = Some s -> slice (pre ++ l) (zlen pre + a) (zlen pre + b) = Some s.
Proof.
  intros Ha (H1 & H2 & ->)%slice_Some. apply slice_Some. rewrite zlen_app. pose proof (zlen_nonneg pre).
  split_and!; [lia|lia|lia|]. replace (zlen pre + b - (zlen pre + a)) with (b - a) by lia. f_equal.
  replace (Z.to_nat (zlen pre + a)) with (length pre + Z.to_nat a)%nat by (unfold zlen in *; lia).
  by rewrite drop_app_add.
Qed.

Lemma slice_app_l {A} (l k : list A) a b s : slice l a b = Some s -> slice (l ++ k) a b = Some s.
Proof.
  intros (H1 & H2 & ->)%slice_Some. apply slice_Some. rewrite zlen_app. pose proof (zlen_nonneg k).
  split_and!; [lia|lia|lia|]. unfold zlen in *. rewrite drop_app_le by lia. rewrite take_app_le; [done|]. rewrite length_drop. lia.
Qed.

Lemma copyouts_none a base w : out_fields a = [] -> collect_copyouts a base w = [].
Proof.
  revert base. induction a as [v|i d x|addr inner IH|addr|d|fs IH|fs IH|a IH| |slot a IH|] using arg_nested_ind;
    intros base; cbn [out_fields collect_copyouts]; try done; try apply IH.
  all: revert base; induction IH as [|f fs Hf _ IH]; intros base; [done|]; rewrite fmap_cons; cbn [concat];
    intros [H1 H2]%app_eq_nil; rewrite Hf by done; by apply IH.
Qed.

Lemma locates_shift ctx w base pre bytes post co f :
  locates ctx w (base + zlen pre) bytes co f -> locates ctx w base (pre ++ bytes ++ post) co f.
Proof.
  intros (H1 & H2 & H3). split_and!; [done|done|]. pose proof H3 as (H4 & _)%slice_Some.
  replace (off co - base) with (zlen pre + (off co - (base + zlen pre))) by lia.
  replace (zlen pre + (off co - (base + zlen pre)) + RES_WIDTH) with (zlen pre + (off co - (base + zlen pre) + RES_WIDTH)) by lia.
  apply slice_app_r; [lia|]. by apply slice_app_l.
Qed.

Section Locate.
Context (ctx : Ctx) (w : Z) (Hw : width_ok w).

Definition located (a : Arg) : Prop := forall base, outs_flat a -> 0 <= base -> base + encoded_len a w < 2 ^ 64 ->
  Forall2 (locates ctx w base (encode a ctx w)) (collect_copyouts a base w) (out_fields a).

Lemma located_list fs : Forall located fs -> forall base pre, foldr (fun a P => outs_flat a /\ P) True fs ->
  0 <= base -> base + zlen pre + encoded_len (Struct fs) w < 2 ^ 64 ->
  Forall2 (locates ctx w base (pre ++ encode (Struct fs) ctx w)) (collect_copyouts (Struct fs) (base + zlen pre) w)
    (concat (out_fields <$> fs)).
Proof using Hw.
  assert (0 <= w) as Hw0 by (unfold width_ok in Hw; lia).
  induction 1 as [|f fs Hf _ IH]; intros base pre Hflat Hb Hsz; [constructor|]. destruct Hflat as [Hff Hfs].
  pose proof (encoded_len_pos w f Hw0). pose proof (encoded_len_pos w (Struct fs) Hw0). pose proof (zlen_nonneg pre).
  assert (encoded_len (Struct (f :: fs)) w = encoded_len f w + encoded_len (Struct fs) w) as El by done. rewrite El in Hsz.
  change (collect_copyouts (Struct (f :: fs)) (base + zlen pre) w) with
    (collect_copyouts f (base + zlen pre) w ++ collect_copyouts (Struct fs) (base + zlen pre +₆₄ encoded_len f w) w).
  change (encode (Struct (f :: fs)) ctx w) with (encode f ctx w ++ encode (Struct fs) ctx w).
  rewrite fmap_cons. cbn [concat]. apply Forall2_app.
  - eapply Forall2_impl; [apply Hf; [done|lia|lia]|]. intros co x Hx. by apply locates_shift.
  - rewrite as_u64_small by (unfold is_u64; lia). rewrite app_assoc.
    replace (base + zlen pre + encoded_len f w) with (base + zlen (pre ++ encode f ctx w)) by (rewrite zlen_app, zlen_encode by done; lia).
    apply IH; [done|done|]. rewrite zlen_app, zlen_encode by done. lia.
Qed.

Lemma located_arg a : located a.
Proof using Hw.
  induction a as [v|i d x|addr inner IH|addr|d|fs IH|fs IH|a IH| |sl a IH|] using arg_nested_ind;
    try (intros base _ _ _; by constructor); try exact IH.
  - intros base Hf Hb Hs. pose proof (located_list fs IH base [] Hf Hb) as H. change (zlen []) with 0 in H. rewrite Z.add_0_r in H.
    apply H. exact Hs.
  - intros base Hf Hb Hs. pose proof (located_list fs IH base [] Hf Hb) as H. change (zlen []) with 0 in H. rewrite Z.add_0_r in H.
    apply H. exact Hs.
  - intros base Hf Hb Hs. cbn [outs_flat] in Hf. cbn [collect_copyouts out_fields]. rewrite Hf, copyouts_none by done.
    constructor; [|constructor]. split_and!; [done|done|]. cbn [off fst snd]. rewrite Z.sub_diag. apply slice_Some.
    assert (zlen (encode (Out sl a) ctx w) = RES_WIDTH) as Hz by (by rewrite zlen_encode).
    unfold RES_WIDTH in Hz. split_and!; try (unfold RES_WIDTH; lia). change (Z.to_nat (0 + RES_WIDTH - 0)) with 4%nat.
    rewrite drop_0, take_ge; [done|]. unfold zlen in Hz. lia.
Qed.
End Locate.

(** Copyouts point at their fields.  The list of fields read back
    after a call names, in order, the slot of every produced field [<rN=>] of
    the object and the exact position of its four bytes in the object's image,
    whose length is what [encoded_len] says. *)
Theorem copyouts_locate_fields a ctx w base : width_ok w -> outs_flat a -> 0 <= base -> base + encoded_len a w < 2 ^ 64 ->
  zlen (encode a ctx w) = encoded_len a w /\
  Forall2 (locates ctx w base (encode a ctx w)) (collect_copyouts a base w) (out_fields a).
Proof. intros Hw Hf Hb Hs. split; [by apply zlen_encode|by apply located_arg]. Qed.

Lemma copyouts_locate_fields_witness :
  let a := Struct [Int 7; Array [Out 3 (Int 0xffffffffffffffff); Out 5 (Res 1 0 0)]; Data [1; 2]] in
  collect_copyouts a 64 8 = [MkCopyout 3 72 4; MkCopyout 5 76 4] /\ zlen (encode a ∅ 8) = 18 /\
  Forall2 (locates ∅ 8 64 (encode a ∅ 8)) (collect_copyouts a 64 8) (out_fields a).
Proof.
  split; [reflexivity|].
  apply (copyouts_locate_fields (Struct [Int 7; Array [Out 3 (Int 0xffffffffffffffff); Out 5 (Res 1 0 0)]; Data [1; 2]]) ∅ 8 64).
  - unfold width_ok. lia.
  - repeat split.
  - lia.
  - vm_compute. done.
Defined.
