(* ===== verification/ProgLayout.v ===== *)
(** What the layout of a call's arguments does to the arena: it touches only
    the objects' own bytes, short of the next object ([ProgImage]: and leaves
    every object it writes with its image). *)
From S2P Require Import Prelude Text ProgSyntax ProgArena ProgPlace ProgCopyin.

(** The bytes of an object that its write may touch. *)
Definition owns (fx : list Z) (o : Z * Z) (i : Z) : Prop :=
  fst o <= i < fst o + snd o /\ forall f, f ∈ fx -> fst o < f -> i < f.

#[export] Instance owns_dec fx o i : Decision (owns fx o i).
Proof.
  unfold owns. destruct (decide (fst o <= i < fst o + snd o)); [|right; tauto].
  destruct (decide (Forall (fun f => fst o < f -> i < f) fx)) as [Hf|Hf].
  - left. split; [done|]. by rewrite Forall_forall in Hf.
  - right. intros [_ H]. apply Hf, Forall_forall. exact H.
Defined.

(** [ar'] differs from [ar] only in bytes owned by the objects [l]. *)
Record confined (l : list (Z * Z)) (ar ar' : Arena) : Prop := Confined
  { cf_wf : arena_wf ar';
    cf_len : len ar' = len ar;
    cf_used : used ar' = used ar;
    cf_fixed : fixed ar' = fixed ar;
    cf_mem : forall i, (forall o, o ∈ l -> ~ owns (fixed ar) o i) -> get (mem ar') i = get (mem ar) i }.

Lemma confined_refl l ar : arena_wf ar -> confined l ar ar.
Proof. by constructor. Qed.

Lemma confined_trans l1 l2 ar1 ar2 ar3 : confined l1 ar1 ar2 -> confined l2 ar2 ar3 -> confined (l1 ++ l2) ar1 ar3.
Proof.
  intros [W1 L1 U1 F1 M1] [W2 L2 U2 F2 M2]. constructor; [done|congruence..|].
  intros i Hi. rewrite M2, M1; [done| |]; intros o Ho; [|rewrite F1]; apply Hi; apply elem_of_app; auto.
Qed.

Lemma confined_weaken l l' ar ar' : l ⊆ l' -> confined l ar ar' -> confined l' ar ar'.
Proof. intros Hl [W L U F M]. constructor; auto. Qed.

(** The next object is the least address above. *)
Lemma next_fixed_Some ar off next : StronglySorted Z.lt (fixed ar) -> next_fixed ar off = Some next ->
  off < next /\ next ∈ fixed ar /\ forall f, f ∈ fixed ar -> off < f -> next <= f.
Proof.
  unfold next_fixed. induction 1 as [|f fx _ IH Hf]; [done|]. rewrite filter_cons. case_decide as D.
  - intros [= <-]. split_and!; [done|by left|]. intros g [->|Hg]%elem_of_cons Hgo; [lia|].
    rewrite Forall_forall in Hf. apply Hf in Hg. lia.
  - intros H. destruct (IH H) as (H1 & H2 & H3). split_and!; [done|by right|].
    intros g [->|Hg]%elem_of_cons Hgo; [done|auto].
Qed.

Lemma next_fixed_None ar off : next_fixed ar off = None -> forall f, f ∈ fixed ar -> f <= off.
Proof.
  unfold next_fixed. intros H f Hf. destruct (filter (fun f => off < f) (fixed ar)) as [|g l] eqn:E; [|done].
  destruct (decide (off < f)) as [Hlt|]; [|lia].
  assert (f ∈ filter (fun f => off < f) (fixed ar)) as Hin by (by apply list_elem_of_filter). rewrite E in Hin. by apply elem_of_nil in Hin.
Qed.

(** How many bytes a write of [n] at [off] stores. *)
Definition clip (ar : Arena) (off n : Z) : Z :=
  match next_fixed ar off with Some next => Z.min n (next - off) | None => n end.

Lemma clip_bounds ar off n : StronglySorted Z.lt (fixed ar) -> 0 <= n -> 0 <= clip ar off n <= n.
Proof.
  intros Hs Hn. unfold clip. destruct (next_fixed ar off) as [next|] eqn:E; [|lia].
  destruct (next_fixed_Some _ _ _ Hs E). lia.
Qed.

Lemma clip_owned ar off n i : StronglySorted Z.lt (fixed ar) -> off <= i < off + clip ar off n -> 0 <= n ->
  owns (fixed ar) (off, Z.max n 1) i.
Proof.
  intros Hs Hi Hn. pose proof (clip_bounds ar off n Hs Hn). split; cbn [fst snd]; [lia|]. intros f Hf Ho.
  unfold clip in Hi. destruct (next_fixed ar off) as [next|] eqn:E.
  - destruct (next_fixed_Some _ _ _ Hs E) as (_ & _ & Hmin). specialize (Hmin f Hf Ho). lia.
  - pose proof (next_fixed_None _ _ E f Hf). lia.
Qed.

Lemma write_spec ar off bytes : arena_wf ar -> StronglySorted Z.lt (fixed ar) -> 0 <= off -> bytes_ok bytes ->
  confined [(off, Z.max (zlen bytes) 1)] ar (write ar off bytes) /\
  (off + clip ar off (zlen bytes) <= len ar ->
   slice (mem (write ar off bytes)) off (off + clip ar off (zlen bytes)) = Some (take (Z.to_nat (clip ar off (zlen bytes))) bytes)).
Proof.
  intros Hwf Hs Ho Hb. pose proof (clip_bounds ar off (zlen bytes) Hs (zlen_nonneg _)) as Hc.
  unfold write. fold (clip ar off (zlen bytes)). set (n := clip ar off (zlen bytes)) in *.
  destruct (Z.eqb_spec n 0) as [E|E]; cbn [orb].
  { split; [by apply confined_refl|]. rewrite E. intros Hle. apply slice_Some. rewrite (wf_mem ar Hwf).
    split_and!; try lia. by replace (off + 0 - off) with 0 by lia. }
  destruct (in_range ar off n) eqn:Er; cbn [negb].
  2:{ split; [by apply confined_refl|]. intros Hfit. apply (in_range_iff ar off n Hwf) in Hfit; [congruence|lia|lia]. }
  apply (in_range_iff ar off n Hwf) in Er; [|lia|lia].
  assert (zlen (take (Z.to_nat n) bytes) = n) as Hz by (unfold zlen in *; rewrite length_take; lia).
  assert (off + zlen (take (Z.to_nat n) bytes) <= zlen (mem ar)) as Hfit by (rewrite Hz, (wf_mem ar Hwf); lia).
  split.
  - constructor; try done.
    + destruct Hwf. constructor; cbn [len mem used with_mem]; [done|by rewrite zlen_blit|by apply bytes_blit; [|apply Forall_take]|done].
    + intros i Hi. cbn [mem with_mem]. apply get_blit_out; [done|done|]. rewrite Hz. intros Hin.
      apply (Hi (off, Z.max (zlen bytes) 1)); [by left|]. apply clip_owned; [done|done|apply zlen_nonneg].
  - intros _. cbn [mem with_mem]. destruct (blit_spec (mem ar) off (take (Z.to_nat n) bytes) Ho Hfit) as (p & q & r & _ & Hp & _ & ->).
    set (t := take (Z.to_nat n) bytes) in *. clearbody t n. subst n.
    rewrite <- Hp. rewrite <- (Z.add_0_r (zlen p)) at 1. apply slice_app_r; [lia|]. apply slice_app_l, slice_Some.
    pose proof (zlen_nonneg t). split_and!; try lia. rewrite Z.sub_0_r, drop_0.
    unfold zlen. by rewrite Nat2Z.id, firstn_all.
Qed.

(** Data literals are bytes. *)
Fixpoint data_ok (a : Arg) : Prop :=
  match a with
  | Data d => bytes_ok d
  | Ptr _ (Some i) | Union i | Out _ i => data_ok i
  | Struct fs | Array fs => foldr (fun a P => data_ok a /\ P) True fs
  | _ => True
  end.

Lemma data_ok_Forall fs : foldr (fun a P => data_ok a /\ P) True fs -> Forall data_ok fs.
Proof. induction fs as [|f fs IH]; simpl; [constructor|]. intros [H1 H2]. constructor; auto. Qed.

Lemma encode_bytes a ctx w : data_ok a -> bytes_ok (encode a ctx w).
Proof.
  assert (forall n, bytes_ok (replicate n 0)) as Hr by (intros n; apply Forall_replicate; unfold is_u8; lia).
  revert w. induction a as [v|i d x|addr inner IH|addr|d|fs IH|fs IH|a IH| |slot a IH|] using arg_nested_ind; intros w Hd;
    cbn [encode]; try apply le_bytes_ok; try (apply Forall_take, le_bytes_ok); try done; try apply Hr; try (by apply IH).
  - apply data_ok_Forall in Hd. apply Forall_concat, Forall_fmap. rewrite Forall_forall in *. intros f Hf. apply IH; auto.
  - apply data_ok_Forall in Hd. apply Forall_concat, Forall_fmap. rewrite Forall_forall in *. intros f Hf. apply IH; auto.
  - repeat constructor; unfold is_u8; lia.
  - unfold resize. apply Forall_app. split; [apply Forall_take; by apply IH|apply Hr].
Qed.

Section Layout.
Context (ctx : Ctx) (w : Z) (Hw : width_ok w).

Definition ptrs_ok (l : list (Z * Z)) : Prop := Forall (fun o => is_u64 (fst o)) l.

(** A step that touches only the objects [l]. *)
Definition lays (run : Arena -> outcome Arena) (l : list (Z * Z)) : Prop :=
  forall ar, arena_wf ar -> StronglySorted Z.lt (fixed ar) -> ptrs_ok l -> wp (run ar) (confined l ar) False.

Lemma lays_nil : lays (fun ar => Done ar) [].
Proof using. intros ar Hwf _ _. by apply confined_refl. Qed.

Lemma lays_app r1 r2 l1 l2 : lays r1 l1 -> lays r2 l2 -> lays (fun ar => ar ← r1 ar; r2 ar) (l1 ++ l2).
Proof using.
  intros H1 H2 ar Hwf Hs [Hl1 Hl2]%Forall_app. apply wp_bind. eapply wp_mono; [by apply H1| |done].
  intros ar1 C1. eapply wp_mono; [apply H2; [apply C1|by rewrite (cf_fixed _ _ _ C1)|done]| |done].
  intros ar2 C2. by eapply confined_trans.
Qed.

Lemma wp_image inner F (Q : list Z -> Prop) : data_ok inner ->
  (forall b, bytes_ok b -> zlen b = encoded_len inner w -> fix_csums (encode inner ctx w) inner w = Done b -> Q b) ->
  wp (fix_csums (encode inner ctx w) inner w) Q F.
Proof using Hw.
  intros Hd HQ. pose proof (encode_bytes inner ctx w Hd) as Hb. pose proof (zlen_encode inner ctx w Hw) as Hz.
  enough (wp (fix_csums (encode inner ctx w) inner w) (fun b => bytes_ok b /\ zlen b = encoded_len inner w) False) as H.
  { destruct (fix_csums _ _ _) as [b| | |] eqn:E; try done. destruct H. by apply HQ. }
  apply wp_fix_csums; [done| |done|].
  - intros off H. apply csum_offset_ge in H; [done|unfold width_ok in Hw; lia].
  - intros off p x y q v _ E _ _ _ _ _. rewrite E in *. apply Forall_app in Hb as [H1 H2]. apply Forall_app in H2 as [H2 H3].
    split; [|by rewrite <- Hz, !zlen_app]. apply Forall_app. split; [done|]. apply Forall_app. split; [apply le_bytes_ok|done].
Qed.

Lemma copyin_ptr_lays lay addr inner : data_ok inner -> lays lay (objs w inner) ->
  lays (fun ar => copyin_ptr ctx w lay ar addr inner) (objs w (Ptr addr (Some inner))).
Proof using Hw.
  intros Hd Hlay ar Hwf Hs [Ha Hl]%Forall_cons. unfold copyin_ptr. apply wp_bind. eapply wp_mono; [by apply Hlay| |done].
  intros ar1 C1. apply wp_bind, wp_image; [done|]. intros b Hb Hz _. cbn [wp].
  destruct (write_spec ar1 addr b) as [C2 _]; [apply C1|by rewrite (cf_fixed _ _ _ C1)|unfold is_u64 in Ha; cbn in Ha; lia|done|].
  rewrite Hz in C2. cbn [objs]. eapply confined_weaken; [|by eapply confined_trans].
  intros o. rewrite elem_of_app, !elem_of_cons, elem_of_nil. naive_solver.
Qed.

Lemma lay_struct fs ar : lay_out_nested ctx w (Struct fs) ar = fold_m (fun ar f => lay_out_nested ctx w f ar) fs ar.
Proof using.
  cbn [lay_out_nested]. revert ar. induction fs as [|f fs IH]; intros ar; [done|]. cbn [fold_m].
  destruct (lay_out_nested ctx w f ar); [apply IH|done..].
Qed.

Lemma lays_list fs : Forall (fun f => data_ok f -> lays (lay_out_nested ctx w f) (objs w f)) fs -> Forall data_ok fs ->
  lays (fold_m (fun ar f => lay_out_nested ctx w f ar) fs) (concat (objs w <$> fs)).
Proof using.
  induction 1 as [|f fs Hf _ IH]; intros Hd; [apply lays_nil|]. rewrite fmap_cons. cbn [concat].
  inversion Hd; subst. apply (lays_app (lay_out_nested ctx w f) (fold_m (fun ar f => lay_out_nested ctx w f ar) fs)); auto.
Qed.

Lemma lay_out_nested_lays a : data_ok a -> lays (lay_out_nested ctx w a) (objs w a).
Proof using Hw.
  induction a as [v|i d x|addr inner IH|addr|d|fs IH|fs IH|a IH| |slot a IH|] using arg_nested_ind; intros Hd;
    try apply lays_nil; try (by apply IH).
  - apply (copyin_ptr_lays (lay_out_nested ctx w inner)); [done|by apply IH].
  - intros ar. rewrite lay_struct. by apply lays_list; [|apply data_ok_Forall].
  - intros ar. change (lay_out_nested ctx w (Array fs) ar) with (lay_out_nested ctx w (Struct fs) ar).
    rewrite lay_struct. by apply lays_list; [|apply data_ok_Forall].
Qed.

(** The objects a top-level argument lays out: a compound by value has none. *)
Fixpoint arg_objs (a : Arg) : list (Z * Z) :=
  match a with
  | Ptr _ _ => objs w a
  | Union i | Out _ i => arg_objs i
  | _ => []
  end.

Lemma copyin_lays a ar : data_ok a -> arena_wf ar -> StronglySorted Z.lt (fixed ar) -> ptrs_ok (arg_objs a) ->
  wp (copyin ctx w a ar) (fun r => confined (arg_objs a) ar (fst r)) False.
Proof using Hw.
  intros Hd Hwf Hs. induction a as [v|i d x|addr inner _|addr|d|fs _|fs _|a IH| |slot a IH|] using arg_nested_ind; intros Hp;
    cbn [copyin arg_objs]; try (by apply confined_refl); try (by apply IH).
  apply wp_bind. eapply wp_mono; [apply (copyin_ptr_lays (lay_out_nested ctx w inner) addr inner Hd); [by apply lay_out_nested_lays|done..]|done|done].
Qed.
End Layout.

(** * The arguments of a call *)

(** The scalar a system call receives. *)
Fixpoint scalar (ctx : Ctx) (a : Arg) : Z :=
  match a with
  | Int v => v
  | Res idx div add => resolve ctx idx div add
  | Ptr addr _ => physical_addr addr
  | Union i | Out _ i => scalar ctx i
  | _ => 0
  end.

Lemma copyin_scalar ctx w a ar ar' v : copyin ctx w a ar = Done (ar', v) -> v = scalar ctx a.
Proof.
  induction a as [x|i d x|addr inner _|addr|d|fs _|fs _|a IH| |slot a IH|] using arg_nested_ind; cbn [copyin scalar];
    try (by intros [= _ <-]); try exact IH.
  destruct (copyin_ptr _ _ _ _ _ _); try done. by intros [= _ <-].
Qed.

Definition call_objs (w : Z) (l : list Arg) : list (Z * Z) := concat (arg_objs w <$> l).

Lemma prepare_go_spec ctx w l ar : width_ok w -> Forall data_ok l -> arena_wf ar -> StronglySorted Z.lt (fixed ar) ->
  ptrs_ok (call_objs w l) ->
  exists ar', prepare_go ctx w l ar = Done (ar', ((fun a => as_i64 (scalar ctx a)) <$> l, concat (arg_copyouts w <$> l))) /\
    confined (call_objs w l) ar ar'.
Proof.
  intros Hw Hd. revert ar. induction Hd as [|a l Ha _ IH]; intros ar Hwf Hs Hp.
  { exists ar. split; [done|by apply confined_refl]. }
  unfold call_objs in *. rewrite fmap_cons in *. cbn [concat] in *. apply Forall_app in Hp as [Hp1 Hp2].
  cbn [prepare_go]. pose proof (copyin_lays ctx w Hw a ar Ha Hwf Hs Hp1) as H.
  destruct (copyin ctx w a ar) as [[ar1 v]| | |] eqn:E; try done. cbn [wp fst] in H. cbn [mbind outcome_bind].
  destruct (IH ar1) as (ar2 & -> & H2); [apply H|by rewrite (cf_fixed _ _ _ H)|done|]. cbn [mbind outcome_bind].
  exists ar2. rewrite (copyin_scalar _ _ _ _ _ _ E). split; [done|by eapply confined_trans].
Qed.

(** C12: laying out a call is total and stays in its objects.  Once
    [note_fixed] has placed a program's objects, preparing any of its calls
    succeeds in every arena with that clip table and any resource state; the
    call gets nine scalars, argument by argument the value, resource or live
    address; and every byte that changes belongs to an object of this call and
    lies before every other object of the whole program that starts after it. *)
Theorem prepare_stays_in_objects ctx w ar0 p ar1 p1 c ar : width_ok w -> arena_wf ar0 -> ptrs_ok (prog_objs w p) ->
  note_fixed w ar0 p = Done (ar1, p1) -> c ∈ p1 -> Forall data_ok (args c) -> ptrs_ok (call_objs w (take MAX_ARGS (args c))) ->
  arena_wf ar -> fixed ar = fixed ar1 ->
  exists ar' vs, prepare_args ctx w c ar = Done (ar', (vs, concat (arg_copyouts w <$> take MAX_ARGS (args c)))) /\
    arena_wf ar' /\ length vs = MAX_ARGS /\
    (forall i a, (i < MAX_ARGS)%nat -> args c !! i = Some a -> vs !! i = Some (as_i64 (scalar ctx a))) /\
    forall i, get (mem ar') i <> get (mem ar) i ->
      exists o, o ∈ call_objs w (take MAX_ARGS (args c)) /\ fst o <= i < fst o + snd o /\
        forall o', o' ∈ prog_objs w p1 -> fst o < fst o' -> i < fst o'.
Proof.
  intros Hw Hwf0 Hp E Hc Hd Hpc Hwf Hfx.
  destruct (note_fixed_run w ar0 p) as (u & u' & addrs & p' & L & E' & _ & _ & _ & _ & Hin); [unfold width_ok in Hw; lia|done|done|].
  rewrite E in E'. injection E' as -> ->. cbn [fixed set_fixed] in Hfx.
  assert (StronglySorted Z.lt (fixed ar)) as Hs by (rewrite Hfx; apply dedup_sorted, sort_u64_sorted).
  unfold prepare_args. destruct (prepare_go_spec ctx w (take MAX_ARGS (args c)) ar) as (ar' & -> & Hcf); [done|by apply Forall_take|done..|].
  cbn [mbind outcome_bind]. eexists ar', _. split_and!; [done|apply Hcf| | |].
  - rewrite length_app, length_replicate, !length_fmap, length_take. lia.
  - intros i a Hi Ha. rewrite lookup_app_l; [|rewrite length_fmap, length_take; apply lookup_lt_Some in Ha; lia].
    by rewrite list_lookup_fmap, lookup_take_lt, Ha by done.
  - intros i Hi.
    destruct (decide (Exists (fun o => owns (fixed ar) o i) (call_objs w (take MAX_ARGS (args c))))) as [Hex|Hno].
    + apply Exists_exists in Hex as (o & Ho & [H1 H2]). exists o. split_and!; [done|lia..|].
      intros o' Ho' Hlt. apply H2; [|done]. rewrite Hfx, elem_of_dedup, sort_u64_perm. by apply Hin.
    + exfalso. apply Hi, (cf_mem _ _ _ Hcf). intros o Ho Hown. apply Hno, Exists_exists. eauto.
Qed.

Definition demo_call : Call :=
  MkCall (bs "pipe") (bs "pipe") (Some 22) [Ptr 64 (Some (Struct [Out 1 (Int 7); Out 2 (Int 9); Ptr AUTO_ADDR (Some (Data [1; 2; 3]))])); Int 5]
    None None false.

Lemma prepare_stays_in_objects_witness :
  exists ar1 c ar' vs, note_fixed 8 (map_arena 256) [demo_call] = Done (ar1, [c]) /\
    prepare_args ∅ 8 c ar1 = Done (ar', (vs, [MkCopyout 1 64 4; MkCopyout 2 68 4])) /\
    vs !! 0%nat = Some 0x200000000040 /\ slice (mem ar') 0 4 = Some [1; 2; 3; 0] /\
    forall i, get (mem ar') i <> get (mem ar1) i -> i < 80.
Proof.
  destruct (note_fixed 8 (map_arena 256) [demo_call]) as [[ar1 p1]| | |] eqn:E; [|by vm_compute in E..].
  assert (exists c, p1 = [c] /\ args c = [Ptr 64 (Some (Struct [Out 1 (Int 7); Out 2 (Int 9); Ptr 0 (Some (Data [1; 2; 3]))])); Int 5]) as (c & -> & Ec).
  { vm_compute in E. injection E as _ <-. eexists. split; reflexivity. }
  destruct (prepare_stays_in_objects ∅ 8 (map_arena 256) [demo_call] ar1 [c] c ar1) as (ar' & vs & Ep & _ & _ & Hv & Hm);
    rewrite ?Ec.
  - unfold width_ok. lia.
  - apply map_arena_wf. lia.
  - repeat constructor; vm_compute; done.
  - done.
  - by left.
  - repeat constructor; vm_compute; done.
  - repeat constructor; vm_compute; done.
  - vm_compute in E. injection E as <- _. constructor; [vm_compute; split; done|reflexivity| |reflexivity].
    cbn [mem]. repeat constructor; vm_compute; done.
  - done.
  - exists ar1, c, ar', vs. rewrite Ec in *. split_and!; [done|exact Ep| | |].
    + rewrite (Hv 0%nat _ ltac:(vm_compute; lia) eq_refl). reflexivity.
    + unfold prepare_args in Ep. rewrite Ec in Ep. vm_compute in E. injection E as <- _. vm_compute in Ep. by injection Ep as <- _.
    + intros i Hi. destruct (Hm i Hi) as (o & Ho & Hr & _).
      replace (call_objs 8 _) with [(64, 16); (0, 3)] in Ho by reflexivity.
      rewrite !elem_of_cons, elem_of_nil in Ho. destruct Ho as [->|[->|[]]]; simpl in Hr; lia.
Defined.
