(* ===== verification/ProgImage.v ===== *)
(** What the bytes of a program's object are: a relation between an argument,
    its image and the places of its checksum fields, stated on its own, and the
    proof that [copyin] leaves such an image at the object's address, cut at the
    next object. *)
From S2P Require Import Prelude Text ProgSyntax ProgArena ProgPlace ProgCopyin ProgLayout.

(** * The image of an argument *)

(** [b] is [v] in [n] bytes, the lowest first. *)
Definition little (n v : Z) (b : list Z) : Prop := zlen b = n /\ bytes_ok b /\ le_val b = v mod 2 ^ (8 * n).

Section Image.
Context (ctx : Ctx).

(** [image w a b cs]: in a program whose scalars take [w] bytes, [b] is an image
    of [a] and [cs] are the offsets of the checksum fields in it, whose two bytes
    are left open here.  A resource that no call has produced reads as all ones;
    one that has is divided and shifted first.  A field that a call is to fill is
    the first four bytes of its initial value, padded with zeros. *)
Inductive image : Z -> Arg -> list Z -> list Z -> Prop :=
  | image_int w v b : little w v b -> image w (Int v) b []
  | image_res w idx div add v b : ctx !! idx = Some v -> little w ((if div =? 0 then v else v / div) + add) b -> image w (Res idx div add) b []
  | image_unset w idx div add b : ctx !! idx = None -> little w (-1) b -> image w (Res idx div add) b []
  | image_nil w : image w Nil (replicate (Z.to_nat w) 0) []
  | image_csum w x y : is_u8 x -> is_u8 y -> image w Csum [x; y] [0]
  | image_data w d : image w (Data d) d []
  | image_ptr w addr a b : little 8 (0x200000000000 + addr) b -> image w (Ptr addr a) b []
  | image_union w a b cs : image w a b cs -> image w (Union a) b cs
  | image_out w slot a b : image 4 a b [] -> image w (Out slot a) (take 4 (b ++ [0; 0; 0; 0])) []
  | image_struct w fs b cs : images w fs b cs -> image w (Struct fs) b cs
  | image_array w fs b cs : images w fs b cs -> image w (Array fs) b cs
with images : Z -> list Arg -> list Z -> list Z -> Prop :=
  | images_nil w : images w [] [] []
  | images_cons w f fs b cs b' cs' : image w f b cs -> images w fs b' cs' -> images w (f :: fs) (b ++ b') (cs ++ (Z.add (zlen b) <$> cs')).

Scheme image_mind := Minimality for image Sort Prop
  with images_mind := Minimality for images Sort Prop.
Combined Scheme image_images_ind from image_mind, images_mind.

(** The first checksum field holds the complement of the ones' complement sum of
    the 16-bit words of the object with the field zeroed; the others are zero. *)
Definition checksummed (b cs : list Z) : Prop :=
  match cs with
  | [] => True
  | c :: rest =>
      (exists p x y q, b = p ++ [x; y] ++ q /\ zlen p = c /\
         let s := words_sum (p ++ [0; 0] ++ q) in
         (x + 256 * y + s) mod 0xffff = 0 /\ (x + 256 * y = 0xffff <-> s = 0)) /\
      Forall (fun c' => slice b c' (c' + 2) = Some [0; 0]) rest
  end.

(** ** Checksum fields lie inside, apart, and may hold anything *)

Definition field_in (b : list Z) (c : Z) : Prop := 0 <= c /\ c + 2 <= zlen b.

Lemma field_in_shift b b' c : field_in b' c -> field_in (b ++ b') (zlen b + c).
Proof using. unfold field_in. rewrite zlen_app. pose proof (zlen_nonneg b). lia. Qed.

(** Fields in order, each after the one before it. *)
Definition after (c c' : Z) : Prop := c + 2 <= c'.

Lemma image_fields :
  (forall w a b cs, image w a b cs -> Forall (field_in b) cs /\ StronglySorted after cs) /\
  (forall w fs b cs, images w fs b cs -> Forall (field_in b) cs /\ StronglySorted after cs).
Proof using.
  apply image_images_ind; try done; try (by repeat constructor).
  - intros w f fs b cs b' cs' _ [F1 S1] _ [F2 S2]. split.
    + apply Forall_app. split.
      * eapply Forall_impl; [exact F1|]. intros c [? ?]. unfold field_in. rewrite zlen_app. pose proof (zlen_nonneg b'). lia.
      * apply Forall_fmap. eapply Forall_impl; [exact F2|]. intros c. apply field_in_shift.
    + clear -F1 F2 S1 S2. induction S1 as [|c cs S IH Hc]; cbn [app].
      * clear F1. change (StronglySorted after (Z.add (zlen b) <$> cs')). induction S2 as [|c cs S IH Hc]; [constructor|]. rewrite fmap_cons. inversion F2; subst. constructor; [by apply IH|].
        apply Forall_fmap. eapply Forall_impl; [exact Hc|]. unfold after. cbn. lia.
      * inversion F1 as [|? ? Hin F1']; subst. constructor; [by apply IH|]. apply Forall_app. split; [done|]. apply Forall_fmap.
        eapply Forall_impl; [exact F2|]. intros c' [? ?]. unfold after, field_in in *. cbn. lia.
Qed.

(** Every image has the length the code reserves for the object. *)
Lemma image_length :
  (forall w a b cs, image w a b cs -> 0 <= w -> zlen b = encoded_len a w) /\
  (forall w fs b cs, images w fs b cs -> 0 <= w -> zlen b = encoded_len (Struct fs) w).
Proof using.
  apply image_images_ind; try done; try (by intros; match goal with H : little _ _ _ |- _ => destruct H as [-> _] end).
  - intros w Hw. rewrite zlen_replicate. cbn. lia.
  - intros w slot a b _ _ _. change (encoded_len (Out slot a) w) with 4. unfold zlen. rewrite length_take, length_app. simpl length. lia.
  - intros w f fs b cs b' cs' _ IH1 _ IH2 Hw. rewrite zlen_app, IH1, IH2 by done. done.
Qed.

(** The two bytes of the first field may be replaced. *)
Lemma image_patch :
  (forall w a b cs, image w a b cs -> forall p x y q x' y', head cs = Some (zlen p) -> b = p ++ [x; y] ++ q -> is_u8 x' -> is_u8 y' ->
     image w a (p ++ [x'; y'] ++ q) cs) /\
  (forall w fs b cs, images w fs b cs -> forall p x y q x' y', head cs = Some (zlen p) -> b = p ++ [x; y] ++ q -> is_u8 x' -> is_u8 y' ->
     images w fs (p ++ [x'; y'] ++ q) cs).
Proof using.
  apply image_images_ind; try done; try (by intros; constructor; eauto).
  - intros w x y Hx Hy p x0 y0 q x' y' [= Hp] E ? ?. destruct p as [|z p]; [|rewrite zlen_cons in Hp; pose proof (zlen_nonneg p); lia].
    cbn [app] in E |- *. injection E as <- <- <-. by constructor.
  - intros w f fs b cs b' cs' Hf IHf Hfs IHfs p x y q x' y' Hh E Hx Hy.
    destruct (proj1 image_fields w f b cs Hf) as [Fin _]. destruct cs as [|c cs].
    + destruct cs' as [|c' cs']; [done|]. cbn in Hh. injection Hh as Hh.
      assert (0 <= c') as Hc by (destruct (proj2 image_fields w fs b' (c' :: cs') Hfs) as [F _]; by inversion F as [|? ? [? ?] ?]; subst).
      apply app_eq_inv in E as [(k & -> & E)|(k & -> & E)].
      * rewrite zlen_app in Hh. pose proof (zlen_nonneg k). destruct k as [|z k]; [|rewrite zlen_cons in *; pose proof (zlen_nonneg k); lia].
        rewrite app_nil_r in *. cbn [app] in E. assert (c' = 0) as -> by lia.
        apply (images_cons w f fs p [] ([x'; y'] ++ q) (0 :: cs')); [done|]. by eapply (IHfs [] x y q).
      * rewrite <- (app_assoc b). rewrite zlen_app in Hh. replace c' with (zlen k) in * by lia.
        apply (images_cons w f fs b [] (k ++ [x'; y'] ++ q) (zlen k :: cs')); [done|]. by eapply IHfs.
    + cbn in Hh. injection Hh as ->. inversion Fin as [|? ? [_ Hin] _]; subst.
      assert (exists q1, b = p ++ [x; y] ++ q1 /\ q = q1 ++ b') as (q1 & -> & ->).
      { assert (b = take (length b) (p ++ [x; y] ++ q)) as Eb by (rewrite <- E; by rewrite take_app_length).
        exists (take (length b - length p - 2) q). unfold zlen in Hin.
        assert (b = p ++ [x; y] ++ take (length b - length p - 2) q) as Eb'.
        { rewrite Eb at 1. rewrite take_app_ge by lia. rewrite take_app_ge by (simpl; lia). do 3 f_equal. }
        split; [exact Eb'|]. remember (take _ q) as q1 eqn:Eq. clear Eq Eb. rewrite Eb', <- !app_assoc in E. apply app_inv_head in E. cbn [app] in E. by injection E as <-. }
      replace (p ++ [x'; y'] ++ q1 ++ b') with ((p ++ [x'; y'] ++ q1) ++ b') by (by rewrite <- !app_assoc).
      replace (zlen (p ++ [x; y] ++ q1)) with (zlen (p ++ [x'; y'] ++ q1)) by (by rewrite !zlen_app).
      apply images_cons; [|done]. by eapply IHf.
Qed.

(** ** The code's encoding is an image *)

Lemma le_val_bytes n v : le_val (le_bytes n v) = v mod 2 ^ (8 * Z.of_nat n).
Proof using.
  revert v. induction n as [|n IH]; intros v; cbn [le_bytes le_val]; [by rewrite Z.mod_1_r|].
  rewrite IH, Nat2Z.inj_succ. replace (8 * Z.succ (Z.of_nat n)) with (8 + 8 * Z.of_nat n) by lia. rewrite Z.pow_add_r by lia.
  change (2 ^ 8) with 256. rewrite Z.rem_mul_r by lia. lia.
Qed.

Lemma low_bytes_little w v : width_ok w -> little w v (low_bytes w v).
Proof using.
  intros Hw. split; [by apply low_bytes_length|]. split; [apply Forall_take, le_bytes_ok|].
  destruct Hw as [->|[->|[->| ->]]]; [apply (le_val_bytes 1)|apply (le_val_bytes 2)|apply (le_val_bytes 4)|apply (le_val_bytes 8)].
Qed.

Lemma mod_u64_width w v : width_ok w -> (v mod 2 ^ 64) mod 2 ^ (8 * w) = v mod 2 ^ (8 * w).
Proof using.
  intros Hw. apply Z.mod_mod_divide.
  exists (2 ^ (64 - 8 * w)). by destruct Hw as [->|[->|[->| ->]]].
Qed.

Lemma little_u64 w v b : width_ok w -> little w (v mod 2 ^ 64) b -> little w v b.
Proof using. intros Hw (H1 & H2 & H3). split_and!; [done|done|]. by rewrite H3, mod_u64_width. Qed.

(** Checksum fields of the object itself, and none of them in a field that a
    call is to fill. *)
Fixpoint has_csum (a : Arg) : bool :=
  match a with
  | Csum => true
  | Union i | Out _ i => has_csum i
  | Struct fs | Array fs => existsb has_csum fs
  | _ => false
  end.
Fixpoint outs_plain (a : Arg) : Prop :=
  match a with
  | Out _ i => has_csum i = false
  | Union i => outs_plain i
  | Struct fs | Array fs => foldr (fun a P => outs_plain a /\ P) True fs
  | _ => True
  end.

Lemma no_csum_plain a : has_csum a = false -> outs_plain a.
Proof using.
  induction a as [v|i d x|addr inner IH|addr|d|fs IH|fs IH|a IH| |slot a IH|] using arg_nested_ind; cbn [has_csum outs_plain]; try done.
  all: induction IH as [|f fs Hf _ IH]; [done|]; cbn [existsb foldr]; intros [H1 H2]%orb_false_iff; auto.
Qed.

(** Its checksum fields are [cs], all zero, and [csum_offset] finds the first. *)
Definition zero_fields (a : Arg) (w : Z) (cs : list Z) : Prop :=
  (forall base, csum_offset a base w = Z.add base <$> head cs) /\
  Forall (fun c => slice (encode a ctx w) c (c + 2) = Some [0; 0]) cs /\ (has_csum a = false -> cs = []).

Lemma encode_images fs w : width_ok w ->
  Forall (fun a => outs_plain a -> exists cs, image w a (encode a ctx w) cs /\ zero_fields a w cs) fs ->
  foldr (fun a P => outs_plain a /\ P) True fs ->
  exists cs, images w fs (encode (Struct fs) ctx w) cs /\ zero_fields (Struct fs) w cs.
Proof using.
  intros Hw. induction 1 as [|f fs Hf _ IH]; intros Hp; [exists []; split; [constructor|by split_and!]|].
  destruct Hp as [Pf Pfs]. destruct (Hf Pf) as (cs & I1 & O1 & Z1 & N1). destruct (IH Pfs) as (cs' & I2 & O2 & Z2 & N2).
  change (encode (Struct (f :: fs)) ctx w) with (encode f ctx w ++ encode (Struct fs) ctx w).
  exists (cs ++ (Z.add (zlen (encode f ctx w)) <$> cs')). split; [by constructor|]. split_and!.
  - intros base. change (csum_offset (Struct (f :: fs)) base w) with
      (match csum_offset f base w with Some p => Some p | None => csum_offset (Struct fs) (base + encoded_len f w) w end).
    rewrite O1, O2. destruct cs as [|c cs]; [|done]. destruct cs' as [|c cs']; [done|]. cbn. rewrite zlen_encode by done. f_equal. lia.
  - change (encode (Struct (f :: fs)) ctx w) with (encode f ctx w ++ encode (Struct fs) ctx w). apply Forall_app. split.
    + eapply Forall_impl; [exact Z1|]. intros c. apply slice_app_l.
    + apply Forall_fmap. eapply Forall_impl; [exact Z2|]. intros c Hc. cbn. rewrite <- Z.add_assoc. apply slice_app_r; [|done].
      apply slice_Some in Hc as [? _]. lia.
  - cbn [has_csum existsb]. intros [H1 H2]%orb_false_iff. by rewrite N1, N2.
Qed.

Lemma encode_image a : forall w, width_ok w -> outs_plain a ->
  exists cs, image w a (encode a ctx w) cs /\ zero_fields a w cs.
Proof using.
  assert (width_ok 8) as W8 by (unfold width_ok; lia). assert (width_ok 4) as W4 by (unfold width_ok; lia).
  induction a as [v|i d x|addr inner IH|addr|d|fs IH|fs IH|a IH| |slot a IH|] using arg_nested_ind; intros w Hw Hp; cbn [outs_plain] in Hp;
    try (exists []; split; [|by split_and!]).
  - apply image_int. by apply low_bytes_little.
  - destruct (ctx !! i) as [v|] eqn:E; cbn [encode]; unfold resolve; rewrite E.
    + apply (image_res w i d x v); [done|]. replace (if negb (d =? 0) then v / d else v) with (if d =? 0 then v else v / d) by (by destruct (d =? 0)).
      apply little_u64; [done|]. by apply low_bytes_little.
    + apply image_unset; [done|]. apply little_u64; [done|]. change (-1 mod 2 ^ 64) with (2 ^ 64 - 1). by apply low_bytes_little.
  - apply image_ptr. apply little_u64; [done|]. apply (low_bytes_little 8 (physical_addr addr) W8).
  - apply image_ptr. apply little_u64; [done|]. apply (low_bytes_little 8 (physical_addr addr) W8).
  - apply image_data.
  - destruct (encode_images fs w Hw) as (cs & I & Zf); [|done|]; [|exists cs; split; [by constructor|done]].
    eapply Forall_impl; [exact IH|]. intros f Hf. by apply Hf.
  - destruct (encode_images fs w Hw) as (cs & I & Zf); [|done|]; [|exists cs; split; [by constructor|done]].
    eapply Forall_impl; [exact IH|]. intros f Hf. by apply Hf.
  - destruct (IH w Hw Hp) as (cs & I & Zf). exists cs. split; [by constructor|done].
  - exists [0]. split; [by constructor|]. split_and!; [|repeat constructor|done]. intros base. cbn. f_equal. lia.
  - pose proof (no_csum_plain a Hp) as Hp'. destruct (IH 4 W4 Hp') as (cs & I & _ & _ & N). rewrite (N Hp) in I.
    destruct (IH w Hw Hp') as (cs' & _ & O' & _ & N'). rewrite (N' Hp) in O'. exists []. split; [|split_and!; [exact O'|constructor|done]].
    cbn [encode]. unfold resize, RES_WIDTH. change (Z.to_nat 4) with 4%nat.
    replace (take 4 (encode a ctx 4) ++ replicate (4 - length (encode a ctx 4)) 0) with (take 4 (encode a ctx 4 ++ [0; 0; 0; 0])); [by constructor|].
    rewrite take_app. f_equal. by destruct (4 - length (encode a ctx 4))%nat as [|[|[|[|[|]]]]] eqn:E; try lia.
  - apply image_nil.
Qed.

(** ** Filling in the checksum keeps the image *)

Lemma slice_disjoint (p a b q : list Z) c s : length a = length b -> slice (p ++ a ++ q) c (c + 2) = Some s -> zlen p + zlen a <= c ->
  slice (p ++ b ++ q) c (c + 2) = Some s.
Proof using.
  intros Hl Hs Hc. assert (zlen b = zlen a) as Hz by (unfold zlen; lia).
  apply slice_Some in Hs as (H1 & H2 & ->). apply slice_Some. rewrite !zlen_app in *. split; [lia|]. split; [lia|]. f_equal.
  unfold zlen in *. rewrite !drop_app_ge by lia. do 2 f_equal; lia.
Qed.

Lemma fixed_image w a : width_ok w -> data_ok a -> outs_plain a ->
  exists b cs, fix_csums (encode a ctx w) a w = Done b /\ image w a b cs /\ checksummed b cs /\ bytes_ok b.
Proof using.
  intros Hw Hd Hp. destruct (encode_image a w Hw Hp) as (cs & I & O & Zf & _). destruct (proj1 image_fields w a _ cs I) as [Fi Sc].
  pose proof (encode_bytes a ctx w Hd) as Hb.
  enough (wp (fix_csums (encode a ctx w) a w) (fun b => image w a b cs /\ checksummed b cs /\ bytes_ok b) False) as H.
  { destruct (fix_csums _ _ _) as [b| | |]; try done. by exists b, cs. }
  assert (forall c, csum_offset a 0 w = Some c -> head cs = Some c /\ field_in (encode a ctx w) c) as Hc.
  { intros c. rewrite O. destruct cs as [|c' cs]; [done|]. cbn. intros [= <-]. by inversion Fi; subst. }
  apply wp_fix_csums; [done| | |].
  - intros c [_ [? _]]%Hc. done.
  - intros [E|(c & [_ [_ ?]]%Hc & Hl)]; [|lia]. rewrite O in E. destruct cs as [|c cs]; [|done]. by split_and!.
  - intros c p x y q v E Eb <- Hv Hm H0 _. destruct (Hc _ E) as [Hh _]. destruct cs as [|c cs]; [done|]. cbn in Hh. injection Hh as ->.
    unfold is_u16 in Hv. assert (le_bytes 2 v = [v mod 256; v / 256]) as El.
    { cbn [le_bytes]. rewrite (Z.mod_small (v / 256)) by dlia. done. }
    assert (is_u8 (v mod 256) /\ is_u8 (v / 256)) as [V1 V2] by (unfold is_u8; dlia). rewrite El.
    assert (v mod 256 + 256 * (v / 256) = v) as Ev by (pose proof (Z.div_mod v 256); lia). split_and!.
    + by eapply (proj1 image_patch).
    + split.
      * exists p, (v mod 256), (v / 256), q. split_and!; [done|done|]. cbv zeta. rewrite Ev. by split.
      * inversion Sc as [|? ? _ Ha]; subst. inversion Zf as [|? ? _ Zc]; subst. rewrite Forall_forall in *. intros c Hcin. rewrite Eb in Zc.
        eapply slice_disjoint; [|by apply Zc|]; [done|]. specialize (Ha c Hcin). unfold after in Ha. change (zlen [x; y]) with 2. lia.
    + rewrite Eb in Hb. apply Forall_app in Hb as [Hb1 Hb2]. apply Forall_app. split; [done|]. inversion Hb2 as [|? ? _ Hb3]; subst.
      inversion Hb3; subst. cbn [app]. by do 2 (constructor; [done|]).
Qed.
End Image.

(** C14: An object is laid out as its image.  When a pointer argument is
    laid out, the call receives the live address of its target, and the arena
    holds there - after the objects nested in it, which are laid out first - the
    target's image byte for byte: scalars in the program's width and resources at
    their values, lowest byte first, pointers as the live addresses of their
    targets, fields in order, and the first checksum field the Internet checksum
    of the whole.  The image is cut where the next object begins, and only there;
    what is left of it is written whole or, when it would run past the mapping,
    not at all.  (A checksum field inside a field a call is to fill is the one
    case left out.) *)
Theorem copyin_writes_object ctx w addr inner ar : width_ok w -> data_ok inner -> outs_plain inner -> is_u64 addr -> ptrs_ok (objs w inner) ->
  arena_wf ar -> StronglySorted Z.lt (fixed ar) ->
  exists ar' b cs m, copyin ctx w (Ptr addr (Some inner)) ar = Done (ar', (0x200000000000 + addr) mod 2 ^ 64) /\
    image ctx w inner b cs /\ checksummed b cs /\
    0 <= m <= zlen b /\ (forall f, f ∈ fixed ar -> addr < f -> addr + m <= f) /\ (m = zlen b \/ addr + m ∈ fixed ar) /\
    if addr + m <=? len ar then slice (mem ar') addr (addr + m) = Some (take (Z.to_nat m) b)
    else lay_out_nested ctx w inner ar = Done ar'.
Proof.
  intros Hw Hd Ho Ha Hp Hwf Hs. cbn [copyin]. unfold copyin_ptr.
  pose proof (lay_out_nested_lays ctx w Hw inner Hd ar Hwf Hs Hp) as H.
  destruct (lay_out_nested ctx w inner ar) as [ar1| | |]; try done. cbn [wp] in H. cbn [mbind outcome_bind].
  destruct (fixed_image ctx w inner Hw Hd Ho) as (b & cs & -> & Hi & Hc & Hb). cbn [mbind outcome_bind].
  assert (0 <= addr) as Ha0 by (unfold is_u64 in Ha; lia).
  assert (StronglySorted Z.lt (fixed ar1)) as Hs1 by (by rewrite (cf_fixed _ _ _ H)).
  exists (write ar1 addr b), b, cs, (clip ar1 addr (zlen b)).
  pose proof (clip_bounds ar1 addr (zlen b) Hs1 (zlen_nonneg b)) as Hcl. split_and!; [done|done|done|lia|lia| | |].
  - intros f Hf Hlt. rewrite <- (cf_fixed _ _ _ H) in Hf. unfold clip. destruct (next_fixed ar1 addr) as [next|] eqn:En.
    + destruct (next_fixed_Some _ _ _ Hs1 En) as (_ & _ & Hn). specialize (Hn f Hf Hlt). lia.
    + pose proof (next_fixed_None _ _ En f Hf). lia.
  - unfold clip. destruct (next_fixed ar1 addr) as [next|] eqn:En; [|by left]. destruct (next_fixed_Some _ _ _ Hs1 En) as (_ & Hin & _).
    rewrite (cf_fixed _ _ _ H) in Hin. destruct (Z.min_spec (zlen b) (next - addr)) as [[_ ->]|[_ ->]]; [by left|right].
    by replace (addr + (next - addr)) with next by lia.
  - destruct (Z.leb_spec (addr + clip ar1 addr (zlen b)) (len ar)) as [Hl|Hl]; rewrite <- (cf_len _ _ _ H) in Hl.
    + by apply (write_spec ar1 addr b (cf_wf _ _ _ H) Hs1 Ha0 Hb).
    + f_equal. unfold write. fold (clip ar1 addr (zlen b)). destruct (in_range ar1 addr (clip ar1 addr (zlen b))) eqn:Er; [|by rewrite orb_true_r].
      apply in_range_iff in Er; [lia|apply H|done|lia].
Qed.

(** The case left out: the offset of a checksum field inside a field to fill is
    counted in the program's width, while the field is written in four bytes, and
    the checksum lands in the data that follows. *)
Lemma out_csum_misplaced :
  let a := Struct [Out 1 (Struct [Int 0; Csum]); Data [1; 2; 3; 4; 5; 6; 7; 8]] in
  encode a ∅ 8 = [0; 0; 0; 0; 1; 2; 3; 4; 5; 6; 7; 8] /\
  exists x y, fix_csums (encode a ∅ 8) a 8 = Done [0; 0; 0; 0; 1; 2; 3; 4; x; y; 7; 8] /\ (x, y) <> (5, 6).
Proof. split; [reflexivity|]. do 2 eexists. split; [vm_compute; reflexivity|done]. Qed.

(** An object with a checksum and a nested pointer, cut by an object at 74. *)
Definition demo_object : Arg := Struct [Data [69; 0]; Csum; Ptr 0 (Some (Data [1; 2; 3])); Res 0 0 1; Out 1 (Int 7)].
Definition demo_arena : Arena := set_fixed (map_arena 128) [74].

Lemma copyin_writes_object_witness :
  exists ar' b cs, copyin {[0 := 9]} 4 (Ptr 64 (Some demo_object)) demo_arena = Done (ar', 0x200000000040) /\
    image {[0 := 9]} 4 demo_object b cs /\ checksummed b cs /\ slice (mem ar') 64 74 = Some (take 10 b).
Proof.
  destruct (copyin_writes_object {[0 := 9]} 4 64 demo_object demo_arena) as (ar' & b & cs & m & E & Hi & Hc & Hm & Hf & Hn & Hs).
  - unfold width_ok. lia.
  - repeat split; repeat constructor; vm_compute; done.
  - by repeat split.
  - vm_compute. done.
  - repeat constructor; vm_compute; done.
  - pose proof (map_arena_wf 128 ltac:(lia)) as [? ? ? ?]. by constructor.
  - repeat constructor.
  - exists ar', b, cs. split_and!; [exact E|done|done|].
    assert (m = 10) as ->; [|exact Hs].
    specialize (Hf 74 ltac:(by left) ltac:(lia)). destruct Hn as [Hn|Hn]; [|by apply list_elem_of_singleton in Hn; lia].
    rewrite (proj1 (image_length _) _ _ _ _ Hi ltac:(lia)) in Hn, Hm. change (encoded_len demo_object 4) with 20 in *. lia.
Defined.
