(* ===== verification/ProgMutate.v ===== *)
(** fuzz/prog_mutate.rs: mutation of a decoded program for [execprog -stress].

    The generator is threaded explicitly; [mutate_nth] also threads the count
    of leaves still to skip.  Shown: a round edits exactly the leaf it drew and
    keeps every other leaf and the whole tree structure; a mutated program
    stays non-empty and bounded and consists of variants of the original calls;
    but a call that produces a used resource can be dropped. *)
From S2P Require Import Prelude Text Syscalls ProgSyntax FuzzRng.
Import StressRng.

Definition INTERESTING : list Z :=
  [0; 1; 0xffffffffffffffff; 0x7fffffffffffffff; 0x8000000000000000; 0xffffffff; 0x7fffffff; 0x80000000;
   0xffff; 0x8000; 0x7f; 0x80; 0x100; 0x1000; 0x4000; 0xffffff00].

Definition mutate_int (v : Z) (rng : t) : outcome (Z * t) :=
  let '(k, rng) := below rng 4 in
  if k =? 0 then
    let '(i, rng) := below rng (zlen INTERESTING) in
    x ← idx INTERESTING i; Done (x, rng)
  else if k =? 1 then let '(b, rng) := below rng 64 in Done (Z.lxor v (1 <<₆₄ b), rng)
  else if k =? 2 then let '(d, rng) := below rng 4 in Done (v +₆₄ (1 + d), rng)
  else let '(d, rng) := below rng 4 in Done (v -₆₄ (1 + d), rng).

Definition MAX_BUF : Z := Z.shiftl 64 10.

Definition mutate_data (d : list Z) (rng : t) : outcome (list Z * t) :=
  if bool_decide (d = []) then let '(x, rng) := next rng in Done ([as_u8 x], rng)
  else
    let '(k, rng) := below rng 4 in
    if k =? 0 then
      let '(i, rng) := below rng (zlen d) in
      x ← idx d i;
      let '(b, rng) := below rng 8 in
      d ← upd d i (Z.lxor x (as_u8 (Z.shiftl 1 b))); Done (d, rng)
    else if k =? 1 then
      let '(i, rng) := below rng (zlen d) in
      let '(j, rng) := below rng (zlen INTERESTING) in
      x ← idx INTERESTING j;
      d ← upd d i (as_u8 x); Done (d, rng)
    else if (k =? 2) && (zlen d <? MAX_BUF) then let '(b, rng) := next rng in Done (d ++ [as_u8 b], rng)
    else Done (if 1 <? zlen d then take (Z.to_nat (zlen d - 1)) d else d, rng).

Fixpoint count_leaves (a : Arg) : Z :=
  match a with
  | Int _ | Data _ => 1
  | Ptr _ (Some i) => count_leaves i
  | Union i | Out _ i => count_leaves i
  | Struct fs | Array fs => foldr (fun f n => count_leaves f + n) 0 fs
  | _ => 0
  end.

(** The state threaded by the descent: the leaves to skip and the generator. *)
Definition st : Type := Z * t.

Fixpoint mutate_nth (a : Arg) (s : st) : outcome (Arg * st * bool) :=
  match a with
  | Int v =>
      if fst s =? 0 then '(v, rng) ← mutate_int v (snd s); Done (Int v, (fst s, rng), true)
      else Done (a, (fst s - 1, snd s), false)
  | Data d =>
      if fst s =? 0 then '(d, rng) ← mutate_data d (snd s); Done (Data d, (fst s, rng), true)
      else Done (a, (fst s - 1, snd s), false)
  | Ptr addr (Some i) => '(i, s, b) ← mutate_nth i s; Done (Ptr addr (Some i), s, b)
  | Union i => '(i, s, b) ← mutate_nth i s; Done (Union i, s, b)
  | Out slot i => '(i, s, b) ← mutate_nth i s; Done (Out slot i, s, b)
  | Struct fs =>
      '(fs, s, b) ←
        (fix go (fs : list Arg) (s : st) : outcome (list Arg * st * bool) :=
           match fs with
           | [] => Done ([], s, false)
           | f :: fs =>
               '(f, s, b) ← mutate_nth f s;
               if b : bool then Done (f :: fs, s, true)
               else '(fs, s, b) ← go fs s; Done (f :: fs, s, b)
           end) fs s;
      Done (Struct fs, s, b)
  | Array fs =>
      '(fs, s, b) ←
        (fix go (fs : list Arg) (s : st) : outcome (list Arg * st * bool) :=
           match fs with
           | [] => Done ([], s, false)
           | f :: fs =>
               '(f, s, b) ← mutate_nth f s;
               if b : bool then Done (f :: fs, s, true)
               else '(fs, s, b) ← go fs s; Done (f :: fs, s, b)
           end) fs s;
      Done (Array fs, s, b)
  | _ => Done (a, s, false)
  end.

(** [for a in args { if mutate_nth(a, ..) { edits += 1; break } }] *)
Fixpoint mutate_args (l : list Arg) (s : st) : outcome (list Arg * st * bool) :=
  match l with
  | [] => Done ([], s, false)
  | a :: l =>
      '(a, s, b) ← mutate_nth a s;
      if b : bool then Done (a :: l, s, true)
      else '(l, s, b) ← mutate_args l s; Done (a :: l, s, b)
  end.

Definition total_leaves (c : Call) : Z := foldr (fun a n => count_leaves a + n) 0 (args c).

(** The state of [mutate]: program, generator, edits. *)
Definition state : Type := Prog * t * Z.

(** [calls.remove(i)] of an index in range *)
Definition remove {A} (l : list A) (i : Z) : outcome (list A) :=
  _ ← idx l i; Done (delete (Z.to_nat i) l).

(** [calls.insert(i, c)] *)
Definition insert_at {A} (l : list A) (i : Z) (x : A) : list A :=
  take (Z.to_nat i) l ++ x :: drop (Z.to_nat i) l.

Definition drop_call (s : state) : outcome state :=
  let '(p, rng, edits) := s in
  if 1 <? zlen p then
    let '(b, rng) := chance rng 10 in
    if b : bool then
      let '(i, rng) := below rng (zlen p) in
      p ← remove p i; Done (p, rng, edits + 1)
    else Done (p, rng, edits)
  else Done s.

Definition dup_call (s : state) : outcome state :=
  let '(p, rng, edits) := s in
  if zlen p <? 512 then
    let '(b, rng) := chance rng 10 in
    if b : bool then
      let '(i, rng) := below rng (zlen p) in
      c ← idx p i; Done (insert_at p i c, rng, edits + 1)
    else Done (p, rng, edits)
  else Done s.

Definition mutate_round (s : state) : outcome state :=
  let '(p, rng, edits) := s in
  let '(ci, rng) := below rng (zlen p) in
  c ← idx p ci;
  let total := total_leaves c in
  if total =? 0 then Done (p, rng, edits)
  else
    let '(n, rng) := below rng total in
    '(l, (_, rng), b) ← mutate_args (args c) (n, rng);
    p ← upd p ci (with_args c l);
    Done (p, rng, if b : bool then edits + 1 else edits).

Definition mutate (p : Prog) (rng : t) : outcome state :=
  if bool_decide (p = []) then Done (p, rng, 0)
  else
    s ← drop_call (p, rng, 0);
    s ← dup_call s;
    let '(p, rng, edits) := s in
    let '(r, rng) := below rng 3 in
    repeat_m (Z.to_nat (1 + r)) mutate_round (p, rng, edits).

(** * Leaves and structure *)

(** The mutable leaves, in the order the descent meets them. *)
Fixpoint leaves (a : Arg) : list Arg :=
  match a with
  | Int _ | Data _ => [a]
  | Ptr _ (Some i) => leaves i
  | Union i | Out _ i => leaves i
  | Struct fs | Array fs => concat (leaves <$> fs)
  | _ => []
  end.

(** The argument with the values of its leaves forgotten. *)
Fixpoint skeleton (a : Arg) : Arg :=
  match a with
  | Int _ => Int 0
  | Data _ => Data []
  | Ptr addr (Some i) => Ptr addr (Some (skeleton i))
  | Union i => Union (skeleton i)
  | Out slot i => Out slot (skeleton i)
  | Struct fs => Struct (skeleton <$> fs)
  | Array fs => Array (skeleton <$> fs)
  | _ => a
  end.

(** One edited leaf: a word stays a word, a buffer changes by at most a byte in
    length, never beyond the bound unless it was there, and stays bytes. *)
Inductive edit : Arg -> Arg -> Prop :=
  | Edit_int v v' : (is_u64 v -> is_u64 v') -> edit (Int v) (Int v')
  | Edit_data d d' : (bytes_ok d -> bytes_ok d') -> zlen d' <= Z.max (zlen d) MAX_BUF -> 1 <= zlen d' -> edit (Data d) (Data d').

Lemma below_range n rng : 0 < n -> exists x rng', below rng n = (x, rng') /\ 0 <= x < n.
Proof.
  intros Hn. pose proof (stress_below_range rng n Hn) as H. destruct (below rng n) as [x rng']. eauto.
Qed.

Lemma INTERESTING_u64 : Forall is_u64 INTERESTING.
Proof. repeat constructor; vm_compute; done. Qed.

Lemma wp_interesting i (Q : Z -> Prop) F : 0 <= i < 16 -> (forall x, is_u64 x -> Q x) -> wp (idx INTERESTING i) Q F.
Proof.
  intros Hi HQ. destruct (idx_Done INTERESTING i Hi) as (x & -> & Hx). apply HQ.
  apply get_elem_of in Hx. pose proof INTERESTING_u64 as H. rewrite Forall_forall in H. auto.
Qed.

Lemma wp_mutate_int v rng F : wp (mutate_int v rng) (fun r => edit (Int v) (Int (fst r))) F.
Proof.
  unfold mutate_int. destruct (below_range 4 rng) as (k & r1 & -> & Hk); [done|].
  destruct (k =? 0).
  { destruct (below_range 16 r1) as (i & r2 & E & Hi); [done|]. change (zlen INTERESTING) with 16. rewrite E.
    apply wp_bind, wp_interesting; [done|]. intros x Hx. by constructor. }
  destruct (k =? 1).
  { destruct (below_range 64 r1) as (b & r2 & -> & Hb); [done|]. cbn [wp fst]. constructor. intros Hv.
    apply lxor_range; [lia|done|apply as_u64_range]. }
  destruct (k =? 2); (destruct (below_range 4 r1) as (d & r2 & -> & _); [done|]);
    cbn [wp fst]; constructor; intros _; apply as_u64_range.
Qed.

Lemma bytes_insert d i x : bytes_ok d -> (is_u8 x) -> bytes_ok (<[i := x]> d).
Proof. intros Hd Hx. by apply Forall_insert. Qed.

Lemma wp_mutate_data d rng F : wp (mutate_data d rng) (fun r => edit (Data d) (Data (fst r))) F.
Proof.
  assert (0 < MAX_BUF) as HB by done.
  unfold mutate_data. case_bool_decide as E.
  { destruct (next rng) as [x r1]. cbn [wp fst]. constructor; [|change (zlen [as_u8 x]) with 1; pose proof (zlen_nonneg d); lia|done].
    intros _. constructor; [apply as_u8_range|constructor]. }
  assert (0 < zlen d) as Hd by (destruct d; [done|rewrite zlen_cons; pose proof (zlen_nonneg d); lia]).
  destruct (below_range 4 rng) as (k & r1 & -> & Hk); [done|].
  destruct (k =? 0).
  { destruct (below_range (zlen d) r1) as (i & r2 & -> & Hi); [done|]. destruct (idx_Done d i Hi) as (x & -> & Hx).
    cbn [mbind outcome_bind]. destruct (below_range 8 r2) as (b & r3 & -> & Hb); [done|].
    apply wp_bind, wp_upd; [done|]. cbn [wp fst]. constructor; rewrite ?zlen_insert; [|lia..]. intros Hok. apply bytes_insert; [done|].
    apply lxor_range; [lia|by eapply get_bytes_ok|apply as_u8_range]. }
  destruct (k =? 1).
  { destruct (below_range (zlen d) r1) as (i & r2 & -> & Hi); [done|].
    destruct (below_range 16 r2) as (j & r3 & Ej & Hj); [done|]. change (zlen INTERESTING) with 16. rewrite Ej.
    apply wp_bind, wp_interesting; [done|]. intros x Hx. apply wp_bind, wp_upd; [done|]. cbn [wp fst].
    constructor; rewrite ?zlen_insert; [|lia..]. intros Hok. apply bytes_insert; [done|apply as_u8_range]. }
  destruct (Z.ltb_spec (zlen d) MAX_BUF) as [Hlt|Hge]; [destruct (k =? 2); cbn [andb]|rewrite andb_false_r].
  { destruct (next r1) as [b r2]. cbn [wp fst]. constructor; rewrite ?zlen_app; change (zlen [as_u8 b]) with 1; [|lia..].
    intros Hok. apply Forall_app. split; [done|]. constructor; [apply as_u8_range|constructor]. }
  all: cbn [wp fst]; destruct (Z.ltb_spec 1 (zlen d)); (constructor; [intros Hok; try done; by apply Forall_take|unfold zlen in *; rewrite ?length_take..]); try lia.
Qed.

Lemma count_leaves_zlen a : count_leaves a = zlen (leaves a).
Proof.
  induction a as [v|i d x|addr inner IH|addr|d|fs IH|fs IH|a IH| |slot a IH|] using arg_nested_ind; cbn [count_leaves leaves]; try done.
  all: induction IH as [|f fs Hf _ IH]; [done|]; rewrite fmap_cons; cbn [concat foldr]; by rewrite zlen_app, Hf, IH.
Qed.

(** The leaf [n] of [x] was edited, giving [y]. *)
Definition edited (n : Z) (lx ly : list Arg) : Prop :=
  exists l l', lx !! Z.to_nat n = Some l /\ edit l l' /\ ly = <[Z.to_nat n := l']> lx.

(** What a descent over leaves [lx] with skeleton [sk] returns. *)
Definition descends {A} (lv : A -> list Arg) (sk : A -> list Arg) (x : A) (s : st) (m : outcome (A * st * bool)) : Prop :=
  if fst s <? zlen (lv x)
  then exists y s', m = Done (y, s', true) /\ sk y = sk x /\ edited (fst s) (lv x) (lv y)
  else m = Done (x, (fst s - zlen (lv x), snd s), false).

Definition leaves_list (l : list Arg) : list Arg := concat (leaves <$> l).
Definition skeleton_list (l : list Arg) : list Arg := skeleton <$> l.

Lemma edited_app_l n l1 l2 k : edited n l1 k -> edited n (l1 ++ l2) (k ++ l2).
Proof.
  intros (l & l' & Hl & He & ->). exists l, l'. pose proof (lookup_lt_Some _ _ _ Hl). split_and!; [by rewrite lookup_app_l|done|].
  by rewrite insert_app_l.
Qed.

Lemma edited_app_r n l1 l2 k : zlen l1 <= n -> edited (n - zlen l1) l2 k -> edited n (l1 ++ l2) (l1 ++ k).
Proof.
  intros Hn (l & l' & Hl & He & ->). exists l, l'. unfold zlen in *.
  replace (Z.to_nat (n - Z.of_nat (length l1))) with (Z.to_nat n - length l1)%nat in * by lia.
  split_and!; [by rewrite lookup_app_r by lia|done|]. rewrite insert_app_r_alt by lia. done.
Qed.

Lemma mutate_args_spec (l : list Arg) s : 0 <= fst s ->
  Forall (fun a => forall s, 0 <= fst s -> descends leaves (fun a => [skeleton a]) a s (mutate_nth a s)) l ->
  descends leaves_list skeleton_list l s (mutate_args l s).
Proof.
  intros Hs Hl. revert s Hs. induction Hl as [|a l Ha _ IH]; intros [n rng] Hs; cbn [fst] in Hs.
  { unfold descends, leaves_list. cbn [fst snd]. change (zlen (concat (leaves <$> []))) with 0.
    replace (n <? 0) with false by lia. cbn [mutate_args]. by rewrite Z.sub_0_r. }
  specialize (Ha (n, rng) Hs). unfold descends in *. cbn [fst snd] in *. unfold leaves_list in *. rewrite fmap_cons. cbn [concat].
  rewrite zlen_app. pose proof (zlen_nonneg (leaves a)). pose proof (zlen_nonneg (concat (leaves <$> l))). cbn [mutate_args].
  destruct (Z.ltb_spec n (zlen (leaves a))) as [Hn|Hn].
  - replace (n <? zlen (leaves a) + zlen (concat (leaves <$> l))) with true by lia.
    destruct Ha as (y & s' & -> & Hsk & He). cbn [mbind outcome_bind]. exists (y :: l), s'. split_and!; [done| |].
    + unfold skeleton_list. rewrite !fmap_cons. by injection Hsk as ->.
    + rewrite fmap_cons. cbn [concat]. by apply edited_app_l.
  - rewrite Ha. cbn [mbind outcome_bind]. specialize (IH (n - zlen (leaves a), rng) ltac:(cbn; lia)). cbn [fst snd] in IH.
    replace (n <? zlen (leaves a) + zlen (concat (leaves <$> l))) with (n - zlen (leaves a) <? zlen (concat (leaves <$> l))) by lia.
    destruct (n - zlen (leaves a) <? _).
    + destruct IH as (y & s' & -> & Hsk & He). cbn [mbind outcome_bind]. exists (a :: y), s'. split_and!; [done| |].
      * unfold skeleton_list in *. rewrite !fmap_cons. by rewrite Hsk.
      * rewrite fmap_cons. cbn [concat]. by apply edited_app_r.
    + rewrite IH. cbn [mbind outcome_bind]. do 4 f_equal. lia.
Qed.

Lemma nth_struct fs s : mutate_nth (Struct fs) s = '(fs, s, b) ← mutate_args fs s; Done (Struct fs, s, b).
Proof.
  cbn [mutate_nth].
  enough (forall s, (fix go (fs : list Arg) (s : st) : outcome (list Arg * st * bool) :=
     match fs with
     | [] => Done ([], s, false)
     | f :: fs =>
         '(f, s, b) ← mutate_nth f s;
         if b : bool then Done (f :: fs, s, true)
         else '(fs, s, b) ← go fs s; Done (f :: fs, s, b)
     end) fs s = mutate_args fs s) as -> by done.
  induction fs as [|f fs IH]; intros s'; [done|]. cbn [mutate_args].
  destruct (mutate_nth f s') as [[[f' s''] []]| | |]; cbn [mbind outcome_bind]; try done; by rewrite IH.
Qed.

Lemma nth_array fs s : mutate_nth (Array fs) s = '(fs, s, b) ← mutate_args fs s; Done (Array fs, s, b).
Proof.
  pose proof (nth_struct fs s) as H. cbn [mutate_nth] in *.
  destruct ((fix go (fs : list Arg) (s : st) : outcome (list Arg * st * bool) := _) fs s) as [[[l s'] b]| | |];
    destruct (mutate_args fs s) as [[[l2 s2] b2]| | |]; cbn in *; by simplify_eq.
Qed.

(** A constructor around one list or one argument. *)
Lemma descends_map {A} (lv sk : A -> list Arg) (f : A -> Arg) x s m :
  (forall x, leaves (f x) = lv x) -> (forall x y, sk y = sk x -> skeleton (f y) = skeleton (f x)) ->
  descends lv sk x s m -> descends leaves (fun a => [skeleton a]) (f x) s ('(x, s, b) ← m; Done (f x, s, b)).
Proof.
  intros Hl Hsk. unfold descends. rewrite Hl. destruct (_ <? _).
  - intros (y & s' & -> & H & He). exists (f y), s'. cbn [mbind outcome_bind]. split_and!; [done|by rewrite (Hsk x y H)|by rewrite Hl].
  - by intros ->.
Qed.

Lemma descends_leaf a e rng (run : outcome (Arg * st * bool)) : 0 <= e -> leaves a = [a] ->
  (e = 0 -> exists a' s', run = Done (a', s', true) /\ edit a a' /\ skeleton a' = skeleton a /\ leaves a' = [a']) ->
  descends leaves (fun a => [skeleton a]) a (e, rng) (if e =? 0 then run else Done (a, (e - 1, rng), false)).
Proof.
  intros He Hl Hrun. unfold descends. cbn [fst snd]. rewrite Hl. change (zlen [a]) with 1. destruct (Z.eqb_spec e 0) as [->|Hne].
  - change (0 <? 1) with true. destruct Hrun as (a' & s' & -> & Hed & Hs & Hl'); [done|]. exists a', s'. split_and!; [done|by rewrite Hs|].
    rewrite Hl'. exists a, a'. done.
  - replace (e <? 1) with false by lia. done.
Qed.

Lemma descends_none a s : leaves a = [] -> 0 <= fst s -> descends leaves (fun a => [skeleton a]) a s (Done (a, s, false)).
Proof.
  intros Hl Hs. unfold descends. rewrite Hl. change (zlen []) with 0. replace (fst s <? 0) with false by lia.
  rewrite Z.sub_0_r. by destruct s.
Qed.

Lemma mutate_nth_spec a s : 0 <= fst s -> descends leaves (fun a => [skeleton a]) a s (mutate_nth a s).
Proof.
  revert s. induction a as [v|i d x|addr inner IH|addr|d|fs IH|fs IH|a IH| |slot a IH|] using arg_nested_ind; intros s Hs;
    try (by apply descends_none).
  - destruct s as [e rng]. apply (descends_leaf (Int v) e rng); [done|done|]. intros _. cbn [fst snd].
    pose proof (wp_mutate_int v rng False) as H. destruct (mutate_int v rng) as [[v' r]| | |]; try done.
    eexists _, _. split_and!; [done|exact H|done|done].
  - apply (descends_map leaves (fun a => [skeleton a]) (fun i => Ptr addr (Some i))); [done| |by apply IH].
    intros x y [= H]. cbn [skeleton]. by rewrite H.
  - destruct s as [e rng]. apply (descends_leaf (Data d) e rng); [done|done|]. intros _. cbn [fst snd].
    pose proof (wp_mutate_data d rng False) as H. destruct (mutate_data d rng) as [[d' r]| | |]; try done.
    eexists _, _. split_and!; [done|exact H|done|done].
  - rewrite nth_struct. apply (descends_map leaves_list skeleton_list Struct); [done| |by apply mutate_args_spec].
    intros x y H. cbn [skeleton]. unfold skeleton_list in H. by rewrite H.
  - rewrite nth_array. apply (descends_map leaves_list skeleton_list Array); [done| |by apply mutate_args_spec].
    intros x y H. cbn [skeleton]. unfold skeleton_list in H. by rewrite H.
  - apply (descends_map leaves (fun a => [skeleton a]) Union); [done| |by apply IH]. intros x y [= H]. cbn [skeleton]. by rewrite H.
  - apply (descends_map leaves (fun a => [skeleton a]) (Out slot)); [done| |by apply IH]. intros x y [= H]. cbn [skeleton]. by rewrite H.
Qed.

Lemma args_spec l s : 0 <= fst s -> descends leaves_list skeleton_list l s (mutate_args l s).
Proof. intros Hs. apply mutate_args_spec; [done|]. apply Forall_forall. intros a _ s' Hs'. by apply mutate_nth_spec. Qed.

Lemma total_leaves_zlen c : total_leaves c = zlen (leaves_list (args c)).
Proof.
  unfold total_leaves, leaves_list. induction (args c) as [|a l IH]; [done|]. rewrite fmap_cons. cbn [concat foldr].
  by rewrite zlen_app, count_leaves_zlen, IH.
Qed.

(** The effect of a round. *)
Definition round_ok (p : Prog) (edits : Z) (s' : state) : Prop :=
  let '(p', _, edits') := s' in
  exists ci c, p !! ci = Some c /\
    ((leaves_list (args c) = [] /\ p' = p /\ edits' = edits) \/
     exists n l, edited n (leaves_list (args c)) (leaves_list l) /\ skeleton_list l = skeleton_list (args c) /\
       p' = <[ci := with_args c l]> p /\ edits' = edits + 1).

Lemma zlen_zero {A} (l : list A) : zlen l = 0 -> l = [].
Proof. destruct l; [done|]. rewrite zlen_cons. pose proof (zlen_nonneg l). lia. Qed.

Lemma wp_mutate_round p rng edits F : p <> [] -> wp (mutate_round (p, rng, edits)) (round_ok p edits) F.
Proof.
  intros Hp. assert (0 < zlen p) as Hz by (destruct p; [done|rewrite zlen_cons; pose proof (zlen_nonneg p); lia]).
  unfold mutate_round. destruct (below_range (zlen p) rng) as (ci & r1 & -> & Hci); [done|].
  destruct (idx_Done p ci Hci) as (c & -> & Hc). apply get_Some in Hc as [_ Hc]. cbn [mbind outcome_bind].
  rewrite total_leaves_zlen. destruct (Z.eqb_spec (zlen (leaves_list (args c))) 0) as [E|E].
  { cbn [wp]. exists (Z.to_nat ci), c. split; [done|]. left. split_and!; [by apply zlen_zero|done|done]. }
  pose proof (zlen_nonneg (leaves_list (args c))).
  destruct (below_range (zlen (leaves_list (args c))) r1) as (n & r2 & -> & Hn); [lia|].
  pose proof (args_spec (args c) (n, r2) ltac:(cbn; lia)) as H'. unfold descends in H'. cbn [fst] in H'.
  replace (n <? zlen (leaves_list (args c))) with true in H' by lia. destruct H' as (l & [n' r3] & -> & Hsk & He).
  cbn [mbind outcome_bind]. apply wp_bind, wp_upd; [done|]. cbn [wp]. exists (Z.to_nat ci), c. split; [done|]. right.
  exists n, l. done.
Qed.

(** A mutation round is a single targeted edit.  On any
    non-empty program a round succeeds; it picks one call, and unless that call
    has no leaf at all exactly one of its leaves (over all arguments, at any
    depth, the one drawn) is edited while every other leaf, every pointer,
    resource reference and the shape of every argument stay as they were, and
    the edit count grows by one. *)
Theorem mutate_round_edits_one_leaf p rng edits : p <> [] ->
  exists p' rng' edits' ci c, mutate_round (p, rng, edits) = Done (p', rng', edits') /\ p !! ci = Some c /\
    ((leaves_list (args c) = [] /\ p' = p /\ edits' = edits) \/
     exists n l, edited n (leaves_list (args c)) (leaves_list l) /\ skeleton_list l = skeleton_list (args c) /\
       p' = <[ci := with_args c l]> p /\ edits' = edits + 1).
Proof.
  intros Hp. pose proof (wp_mutate_round p rng edits False Hp) as H.
  destruct (mutate_round (p, rng, edits)) as [[[p' rng'] edits']| | |]; try done. destruct H as (ci & c & Hc & H).
  exists p', rng', edits', ci, c. done.
Qed.

Lemma mutate_round_edits_one_leaf_witness :
  let p := [MkCall (bs "close") (bs "close") (Some 3) [Struct [Res 0 0 0; Data [1; 2]]] None None false] in
  p <> [] /\ exists p' rng' edits' ci c, mutate_round (p, StressRng.new 5, 0) = Done (p', rng', edits') /\ p !! ci = Some c /\
    ((leaves_list (args c) = [] /\ p' = p /\ edits' = 0) \/
     exists n l, edited n (leaves_list (args c)) (leaves_list l) /\ skeleton_list l = skeleton_list (args c) /\
       p' = <[ci := with_args c l]> p /\ edits' = 0 + 1).
Proof. split; [done|]. by apply (mutate_round_edits_one_leaf _ (StressRng.new 5) 0). Defined.


(** * Whole programs *)

(** [c'] is [c] with some leaf values changed. *)
Definition variant_of (c c' : Call) : Prop :=
  exists l, c' = with_args c l /\ skeleton_list l = skeleton_list (args c).

Definition buf_ok (B : Z) (a : Arg) : Prop := match a with Data d => zlen d <= B | _ => True end.

Lemma nonempty_zlen {A} (l : list A) : l <> [] <-> 0 < zlen l.
Proof. destruct l; [done|]. rewrite zlen_cons. pose proof (zlen_nonneg l). split; [lia|done]. Qed.

Lemma zlen_delete {A} (l : list A) i x : get l i = Some x -> zlen (delete (Z.to_nat i) l) = zlen l - 1.
Proof. intros [Hi Hx]%get_Some. unfold zlen in *. rewrite length_delete by eauto. lia. Qed.

(** The invariant of a run of mutations that started from [p0]; [Q] is a
    property of leaves that an edit keeps. *)
Section Inv.
Context (Q : Arg -> Prop) (HQ : forall l l', edit l l' -> Q l -> Q l') (p0 : Prog).

Definition stress_inv (p : Prog) : Prop :=
  p <> [] /\ zlen p <= Z.max 512 (zlen p0) /\
  Forall (fun c' => (exists c, c ∈ p0 /\ variant_of c c') /\ Forall Q (leaves_list (args c'))) p.

Lemma edited_keeps n lx ly : edited n lx ly -> Forall Q lx -> Forall Q ly.
Proof using HQ.
  intros (l & l' & Hl & He & ->) Hx. apply Forall_insert; [done|].
  eapply Forall_lookup_1 in Hx; [|exact Hl]. by eapply HQ.
Qed.

Lemma round_stress p edits s' : stress_inv p -> round_ok p edits s' -> stress_inv (fst (fst s')) /\ edits <= snd s' <= edits + 1.
Proof using HQ.
  destruct s' as [[p' rng'] edits']. cbn [fst snd]. intros (Hne & Hz & Hall) (ci & c & Hc & [(_ & -> & ->)|(n & l & He & Hsk & -> & ->)]);
    [split; [done|lia]|]. split; [|lia].
  assert (zlen (<[ci := with_args c l]> p) = zlen p) as Hzi by exact (zlen_insert p ci (with_args c l)).
  apply nonempty_zlen in Hne. split_and!.
  - apply nonempty_zlen. lia.
  - lia.
  - refine (Forall_insert _ p ci (with_args c l) Hall _).
    destruct (Forall_lookup_1 _ p ci c Hall Hc) as [(c0 & Hc0 & l0 & -> & Hsk0) Hb].
    split; [|by eapply edited_keeps]. exists c0. split; [done|]. exists l. split; [done|]. cbn [args with_args] in *. congruence.
Qed.

Lemma wp_drop_call p rng F : stress_inv p ->
  wp (drop_call (p, rng, 0)) (fun s' => stress_inv (fst (fst s')) /\ 0 <= snd s' <= 1) F.
Proof using.
  intros (Hne & Hz & Hall). unfold drop_call. destruct (Z.ltb_spec 1 (zlen p)) as [Hp|]; [|cbn; split; [done|lia]].
  destruct (chance rng 10) as [[] r1]; [|cbn; split; [done|lia]].
  destruct (below_range (zlen p) r1) as (i & r2 & -> & Hi); [lia|]. unfold remove.
  destruct (idx_Done p i Hi) as (c & -> & Hc). cbn [mbind outcome_bind wp fst snd]. split; [|lia].
  pose proof (zlen_delete p i c Hc) as Hd.
  split_and!; [apply nonempty_zlen; lia|lia|by apply Forall_delete].
Qed.

Lemma wp_dup_call p rng e F : stress_inv p ->
  wp (dup_call (p, rng, e)) (fun s' => stress_inv (fst (fst s')) /\ e <= snd s' <= e + 1) F.
Proof using.
  intros (Hne & Hz & Hall). unfold dup_call. destruct (Z.ltb_spec (zlen p) 512) as [Hp|]; [|cbn; split; [done|lia]].
  destruct (chance rng 10) as [[] r1]; [|cbn; split; [done|lia]].
  destruct (below_range (zlen p) r1) as (i & r2 & -> & Hi); [by apply nonempty_zlen|].
  destruct (idx_Done p i Hi) as (c & -> & Hc). cbn [mbind outcome_bind wp fst snd]. split; [|lia].
  assert (zlen (insert_at p i c) = zlen p + 1) as Hd.
  { unfold insert_at, zlen. rewrite length_app. cbn [length]. rewrite length_take, length_drop. unfold zlen in Hi. lia. }
  split_and!; [apply nonempty_zlen; lia|lia|]. unfold insert_at. apply Forall_app. split; [by apply Forall_take|].
  constructor; [|by apply Forall_drop]. apply get_elem_of in Hc. rewrite Forall_forall in Hall. by apply Hall.
Qed.

Lemma wp_mutate p rng : stress_inv p -> wp (mutate p rng) (fun s' => stress_inv (fst (fst s')) /\ 0 <= snd s' <= 5) False.
Proof using HQ.
  intros Hok. unfold mutate. rewrite bool_decide_false by apply Hok.
  apply wp_bind. eapply wp_mono; [by apply wp_drop_call| |done]. intros [[p1 r1] e1] [Hok1 He1]. cbn [fst snd] in *.
  apply wp_bind. eapply wp_mono; [by apply wp_dup_call| |done]. intros [[p2 r2] e2] [Hok2 He2]. cbn [fst snd] in *.
  destruct (below_range 3 r2) as (r & r3 & -> & Hr); [done|].
  apply (wp_mono _ (fun s' => stress_inv (fst (fst s')) /\ 0 <= snd s' <= 5 - Z.of_nat 0) _ False); [|intros s'; rewrite Z.sub_0_r; done|done].
  apply (wp_repeat_m (fun k s' => stress_inv (fst (fst s')) /\ 0 <= snd s' <= 5 - Z.of_nat k)).
  - intros k [[p3 r4] e3] [Hok3 He3]. cbn [fst snd] in *. eapply wp_mono; [apply wp_mutate_round; apply Hok3| |done].
    intros s' Hs'. destruct (round_stress _ _ _ Hok3 Hs'). split; [done|lia].
  - cbn [fst snd]. split; [done|]. lia.
Qed.
End Inv.

(** Buffers of at most [B] bytes. *)
Definition stress_ok (p0 : Prog) (B : Z) : Prog -> Prop := stress_inv (buf_ok B) p0.

Lemma edit_bounded B l l' : MAX_BUF <= B -> edit l l' -> buf_ok B l -> buf_ok B l'.
Proof. intros HB He. destruct He; cbn [buf_ok] in *; [done|lia]. Qed.

(** Mutation keeps a program runnable in shape and size.  [mutate]
    never fails; it makes at most five edits; a non-empty program stays
    non-empty; every call of the result is a call of the original with at most
    its words and buffers changed (same name, number, result slot, properties,
    pointers and resource references); the call count never grows past 512 nor
    a buffer past 64 KiB, unless it already was there.  The statement is an
    invariant of any number of mutations of a program [p0]. *)
Theorem mutate_keeps_shape p0 B p rng : MAX_BUF <= B -> stress_ok p0 B p ->
  exists p' rng' edits, mutate p rng = Done (p', rng', edits) /\ stress_ok p0 B p' /\ 0 <= edits <= 5.
Proof.
  intros HB Hok. pose proof (wp_mutate (buf_ok B) (fun l l' => edit_bounded B l l' HB) p0 p rng Hok) as H. unfold wp in H.
  destruct (mutate p rng) as [[[p' rng'] edits]| | |]; try done. exists p', rng', edits. done.
Qed.

Definition demo_prog : Prog :=
  [MkCall (bs "openat") (bs "openat") (Some 257) [Int 0xffffffffffffff9c; Ptr 0 (Some (Data (bs "/dev/null"))); Int 2] (Some 0) None false;
   MkCall (bs "close") (bs "close") (Some 3) [Res 0 0 0] None None false].

Lemma mutate_keeps_shape_witness : stress_ok demo_prog MAX_BUF demo_prog /\
  exists p' rng' edits, mutate demo_prog (StressRng.new 7) = Done (p', rng', edits) /\ stress_ok demo_prog MAX_BUF p' /\ 0 <= edits <= 5.
Proof.
  assert (stress_ok demo_prog MAX_BUF demo_prog) as H.
  { split_and!; [done|vm_compute; done|]. constructor; [|constructor; [|constructor]]; (split; [|repeat constructor; vm_compute; done]).
    - eexists. split; [by left|]. eexists. split; reflexivity.
    - eexists. split; [by right; left|]. eexists. split; reflexivity. }
  split; [exact H|]. apply (mutate_keeps_shape demo_prog MAX_BUF demo_prog); [done|exact H].
Defined.

(** * Resource wiring *)

(** Resource slots an argument reads, and those it fills. *)
Fixpoint uses (a : Arg) : list Z :=
  match a with
  | Res idx _ _ => [idx]
  | Ptr _ (Some i) | Union i | Out _ i => uses i
  | Struct fs | Array fs => concat (uses <$> fs)
  | _ => []
  end.

Fixpoint fills (a : Arg) : list Z :=
  match a with
  | Out slot i => slot :: fills i
  | Ptr _ (Some i) | Union i => fills i
  | Struct fs | Array fs => concat (fills <$> fs)
  | _ => []
  end.

Definition call_fills (c : Call) : list Z := option_list (res c) ++ concat (fills <$> args c).

(** Every slot read was filled by an earlier call. *)
Fixpoint wired (known : list Z) (p : Prog) : bool :=
  match p with
  | [] => true
  | c :: p => forallb (fun i => bool_decide (i ∈ known)) (concat (uses <$> args c)) && wired (call_fills c ++ known) p
  end.

(** Mutation can unwire a program.  The module promises that the [rN]
    wiring is left alone, so that a mutant stays runnable; but the call that
    produces a resource can be the one dropped: a two-call program whose every
    resource is produced becomes, under the generator seeded with 2, a program
    that reads a resource no call produces. *)
Theorem mutate_can_unwire :
  wired [] demo_prog = true /\
  exists c rng edits, mutate demo_prog (StressRng.new 2) = Done ([c], rng, edits) /\
    concat (uses <$> args c) = [0] /\ wired [] [c] = false.
Proof. split; [reflexivity|]. eexists _, _, _. split; [vm_compute; reflexivity|]. split; reflexivity. Qed.
