(* ===== verification/ProgExec.v ===== *)
(** fuzz/prog_exec.rs: running a program call by call.

    The operating system is an instance of the class [Kernel]: every host
    operation the file performs is one of its methods on a kernel state [W], and
    a system call also maps the bytes of the arena.  The one process-wide alarm
    timer is a field of the machine state [Sys], and so is whether its signal has
    a handler.  A system call that cannot complete in a state of the kernel is
    [None] there, and sleeps.  The threads of overlapped calls run in two steps
    (up to the system call, and from it on); which thread steps before which
    iteration of the main loop, and which while its call sleeps, is a schedule,
    an argument of [run_prog], and the theorems hold for every schedule.  A run
    that waits for ever is [Fuel], one ended by the signal [Fail]. *)
From S2P Require Import Prelude Text Syscalls ProgSyntax ProgArena ProgPlace ProgCopyin ProgLayout.

(** * Program counters *)

Definition previous_instruction_pc (arch : Arch) (pc : Z) : Z :=
  pc -₆₄ (match arch with Aarch64 => 4 | X86_64 => 1 end).
Definition next_instruction_pc (arch : Arch) (pc : Z) : Z :=
  pc +₆₄ (match arch with Aarch64 => 4 | X86_64 => 1 end).

(** * The host interface *)

Definition KCOV_INIT_TRACE : Z := 0x80086301.
Definition KCOV_ENABLE : Z := 0x6364.
Definition KCOV_DISABLE : Z := 0x6365.
Definition KCOV_TRACE_PC : Z := 0.
Definition KCOV_REMOTE_ENABLE : Z := 0x40186366.
Definition COVER_SIZE : Z := Z.shiftl 2 20.

Record KcovRemoteArg : Type := MkKcovRemoteArg
  { trace_mode : Z; area_size : Z; num_handles : Z; common_handle : Z }.

Inductive IoctlArg : Type :=
  | IoWord (v : Z)
  | IoRemote (a : KcovRemoteArg).

Class Kernel (W : Type) : Type :=
  { sys_open : list Z -> W -> Z * W;
    sys_ioctl : Z -> Z -> IoctlArg -> W -> Z * W;
    sys_mmap : Z -> Z -> W -> option Z * W;         (* length, fd; [None] is MAP_FAILED *)
    sys_munmap : Z -> Z -> W -> W;
    sys_close : Z -> W -> W;
    sys_getpid : W -> Z;
    peek : Z -> Z -> W -> Z;                        (* the i-th u64 of a mapping *)
    poke : Z -> Z -> Z -> W -> W;
    now : W -> Z * W;                               (* nanoseconds *)
    sys_sigaction : W -> W;
    write_file : list Z -> list Z -> W -> W;
    sys_alarm : Z -> W -> W;
    (* number, six arguments, the bytes of the arena: (ret, errno), the bytes;
       [None] when the call sleeps, until another task acts or a signal comes *)
    sys_syscall : Z -> list Z -> list Z -> W -> option ((Z * Z) * (list Z * W)) }.

(** The machine: the kernel, the arena, the seconds of the process's alarm
    timer ([0] when it is not armed), and whether [SIGALRM] has a handler. *)
Record Sys (W : Type) : Type := MkSys { world : W; arena : Arena; alarm : Z; handler : bool }.
Arguments MkSys {W} _ _ _ _.
Arguments world {W} _.
Arguments arena {W} _.
Arguments alarm {W} _.
Arguments handler {W} _.

Record CallResult : Type := MkCallResult
  { index : Z; call_name : list Z; ret : Z; errno : Z; cover : list Z; unfinished : bool }.

Record Timeouts : Type := MkTimeouts { syscall : Z; program : Z; prog_extra : Z }.

Record Opts : Type := MkOpts
  { collect_cover : bool; threaded : bool; collide : bool; timeouts : Timeouts; procid : Z }.

Record Kcov : Type := MkKcov { kfd : Z; area : Z }.

(** * Timeouts, in nanoseconds *)

Definition from_millis (n : Z) : Z := n * 1000000.
Definition from_secs (n : Z) : Z := n * 1000000000.

Definition timeouts_new (slowdown : Z) : Timeouts :=
  let slowdown := Z.max slowdown 1 in
  let scale := Z.min slowdown 3 in
  MkTimeouts (from_millis 50 * slowdown) (from_secs 5 * scale) (from_millis 500 * slowdown).

Definition unfinished_grace (t : Timeouts) : Z :=
  Z.max (Z.max (syscall t * 2) (program t / 6)) (prog_extra t).

(** [references]: does an argument read the resource [slot]? *)
Fixpoint references (a : Arg) (slot : Z) : bool :=
  match a with
  | Res idx _ _ => idx =? slot
  | Struct fs | Array fs => existsb (fun f => references f slot) fs
  | Union i | Out _ i => references i slot
  | Ptr _ (Some i) => references i slot
  | _ => false
  end.

Definition call_references (c : Call) (slot : Z) : bool := existsb (fun a => references a slot) (args c).

Definition result_used_later (prog : Prog) (i : Z) : outcome bool :=
  c ← or_panic (get prog i);
  match res c with
  | None => Done false
  | Some slot => rest ← or_panic (slice_from prog (i + 1)); Done (existsb (fun c => call_references c slot) rest)
  end.

(** * The machine's operations *)

Section Exec.
Context {W : Type} `{!Kernel W}.
Context (arch : Arch) (width ENOSYS EINTR : Z).
(** The in-process dispatcher of pseudo-system-calls ([pseudo_ext::dispatch]). *)
Context (dispatch : Call -> list Z -> Arena -> Ctx -> W -> (Z * Z) * (list Z * W)).

Definition lift {A} (f : W -> A * W) (s : Sys W) : A * Sys W :=
  let '(a, w) := f (world s) in (a, MkSys w (arena s) (alarm s) (handler s)).
Definition lift_ (f : W -> W) (s : Sys W) : Sys W := MkSys (f (world s)) (arena s) (alarm s) (handler s).

Definition kcov_path : list Z := bs "/sys/kernel/debug/kcov".
Definition area_bytes : Z := COVER_SIZE * 8.

(** The body shared by the two [open] functions; [request] and [arg] are the
    enabling ioctl. *)
Definition kcov_attach (request : Z) (arg : W -> IoctlArg) (w : W) : option Kcov * W :=
  let '(fd, w) := sys_open kcov_path w in
  if fd <? 0 then (None, w) else
  let '(r, w) := sys_ioctl fd KCOV_INIT_TRACE (IoWord COVER_SIZE) w in
  if negb (r =? 0) then (None, sys_close fd w) else
  let '(a, w) := sys_mmap area_bytes fd w in
  match a with
  | None => (None, sys_close fd w)
  | Some a =>
      let '(r, w) := sys_ioctl fd request (arg w) w in
      if negb (r =? 0) then (None, sys_close fd (sys_munmap a area_bytes w))
      else (Some (MkKcov fd a), w)
  end.

Definition kcov_open : W -> option Kcov * W := kcov_attach KCOV_ENABLE (fun _ => IoWord KCOV_TRACE_PC).
Definition remote_open : W -> option Kcov * W :=
  kcov_attach KCOV_REMOTE_ENABLE
    (fun w => IoRemote (MkKcovRemoteArg (as_u32 KCOV_TRACE_PC) (as_u32 COVER_SIZE) 0 (Z.land (as_u64 (sys_getpid w)) 0xffffffff))).

Definition kcov_reset (k : Kcov) (w : W) : W := poke (area k) 0 0 w.

Definition kcov_collect (k : Kcov) (w : W) : list Z :=
  let n := Z.min (peek (area k) 0 w) (COVER_SIZE - 1) in
  (fun i => peek (area k) (i + 1) w) <$> seqZ 0 n.

Definition kcov_drop (k : Kcov) (w : W) : W :=
  let '(_, w) := sys_ioctl (kfd k) KCOV_DISABLE (IoWord 0) w in
  sys_close (kfd k) (sys_munmap (area k) area_bytes w).

(** [if let Some(k) = kcov { .. }] *)
Definition when_kcov (f : Kcov -> W -> W) (k : option Kcov) (w : W) : W :=
  match k with Some k => f k w | None => w end.
Definition collect_or_default (k : option Kcov) (w : W) : list Z :=
  match k with Some k => kcov_collect k w | None => [] end.

Definition install_watchdog (s : Sys W) : Sys W := MkSys (sys_sigaction (world s)) (arena s) (alarm s) true.

Definition set_alarm (secs : Z) (s : Sys W) : Sys W := MkSys (sys_alarm secs (world s)) (arena s) secs (handler s).
Definition arm (timeout : Z) : Sys W -> Sys W :=
  set_alarm (Z.min (Z.max (timeout / 1000000000) 1) (2 ^ 32 - 1)).
Definition disarm : Sys W -> Sys W := set_alarm 0.

Definition fail_nth_path : list Z := bs "/proc/thread-self/fail-nth".
(** [write!(f, "{n}")] of an i32 *)
Definition fmt_i32 (n : Z) : list Z := if n <? 0 then 45 :: fmt_dec (- n) else fmt_dec n.
Definition fault_inject (nth : Z) : Sys W -> Sys W := lift_ (write_file fail_nth_path (fmt_i32 nth)).
Definition fault_disable : Sys W -> Sys W := lift_ (write_file fail_nth_path (bs "0")).

(** The result of a host operation that may write the arena. *)
Definition after (r : (Z * Z) * (list Z * W)) (s : Sys W) : (Z * Z) * Sys W :=
  let '(v, (m, w)) := r in (v, MkSys w (with_mem (arena s) m) (alarm s) (handler s)).

(** [libc::syscall] with errno cleared before and read after it. *)
Definition host_call (nr : option Z) (args : list Z) (s : Sys W) : option ((Z * Z) * Sys W) :=
  match nr with
  | None => Some ((-1, ENOSYS), s)
  | Some nr => r ← sys_syscall nr (take 6 args) (mem (arena s)) (world s); Some (after r s)
  end.

Definition do_call (c : Call) (args : list Z) (ctx : Ctx) (s : Sys W) : option ((Z * Z) * Sys W) :=
  if is_pseudo c then Some (after (dispatch c args (arena s) ctx (world s)) s)
  else host_call (nr c) args s.

(** * Overlapped calls *)

(** What the closure of [thread::spawn] captures. *)
Record Job : Type := MkJob { job_nr : option Z; job_args : list Z; job_collect : bool; job_timeout : Z }.

Inductive Thread : Type :=
  | Spawned (j : Job)
  | InCall (j : Job) (k : option Kcov)
  | Ended (r : (Z * Z) * list Z).

(** The closure up to its system call, *)
Definition start (j : Job) (s : Sys W) : option Kcov * Sys W :=
  let '(k, s) := if job_collect j then lift kcov_open s else (None, s) in
  let s := lift_ (when_kcov kcov_reset k) s in
  (k, arm (job_timeout j) (install_watchdog s)).

(** and from it on; [k] is dropped at the end. *)
Definition perform (j : Job) (k : option Kcov) (s : Sys W) : option (((Z * Z) * list Z) * Sys W) :=
  '(r, s) ← host_call (job_nr j) (job_args j) s;
  let s := disarm s in
  let cov := collect_or_default k (world s) in
  Some ((r, cov), lift_ (when_kcov kcov_drop k) s).

(** A thread whose call sleeps stays in it.  The timer's signal is the
    process's, and goes to its main thread. *)
Definition thread_step (t : Thread) (s : Sys W) : Thread * Sys W :=
  match t with
  | Spawned j => let '(k, s) := start j s in (InCall j k, s)
  | InCall j k => match perform j k s with Some (r, s) => (Ended r, s) | None => (t, s) end
  | Ended r => (t, s)
  end.

#[local] Notation Pending := (list (Z * Thread)) (only parsing).

(** The [n]-th spawned thread takes a step. *)
Definition wake (ps : Pending) (s : Sys W) (n : nat) : Pending * Sys W :=
  match ps !! n with
  | Some (i, t) => let '(t, s) := thread_step t s in (<[n := (i, t)]> ps, s)
  | None => (ps, s)
  end.
Definition wake_all (ns : list nat) (ps : Pending) (s : Sys W) : Pending * Sys W :=
  foldl (fun st n => wake (fst st) (snd st) n) (ps, s) ns.

(** While the main thread joins, each of the others takes its steps; [rounds]
    rounds, two for each thread, bring all of them to an end or to a sleep. *)
Fixpoint step_each (ps : Pending) (s : Sys W) : Pending * Sys W :=
  match ps with
  | [] => ([], s)
  | (i, t) :: ps => let '(t, s) := thread_step t s in let '(ps, s) := step_each ps s in ((i, t) :: ps, s)
  end.
Fixpoint settle (rounds : nat) (ps : Pending) (s : Sys W) : Pending * Sys W :=
  match rounds with O => (ps, s) | S n => let '(ps, s) := step_each ps s in settle n ps s end.

(** [h.join()], when no thread has a step left. *)
Definition join (t : Thread) : outcome ((Z * Z) * list Z) := match t with Ended r => Done r | _ => Fuel end.

(** * A call of the main thread *)

(** A call that sleeps lets the threads of [during] step.  It completes when it
    then can; else the timer ends the sleep, if it is armed. *)
Definition await (during : list nat) (call : Sys W -> option ((Z * Z) * Sys W)) (ps : Pending) (s : Sys W)
    : outcome ((Z * Z) * (Pending * Sys W)) :=
  match call s with
  | Some (v, s) => Done (v, (ps, s))
  | None =>
      let '(ps, s) := wake_all during ps s in
      match call s with
      | Some (v, s) => Done (v, (ps, s))
      | None =>
          if alarm s =? 0 then Fuel
          else if handler s then Done ((-1, EINTR), (ps, MkSys (world s) (arena s) 0 true)) else Fail
      end
  end.

Definition exec_call (i : Z) (c : Call) (args : list Z) (ctx : Ctx) (kcov : option Kcov) (timeout : Z) (during : list nat) (ps : Pending) (s : Sys W)
    : outcome (CallResult * (Pending * Sys W)) :=
  let s := match fail_nth c with Some n => fault_inject n s | None => s end in
  let s := lift_ (when_kcov kcov_reset kcov) s in
  let s := arm timeout s in
  '((r, e), (ps, s)) ← await during (do_call c args ctx) ps s;
  let s := disarm s in
  let cover := collect_or_default kcov (world s) in
  let s := match fail_nth c with Some _ => fault_disable s | None => s end in
  Done (MkCallResult i (name c) r e cover false, (ps, s)).

(** * [run_prog] *)

Record Run : Type := MkRun { rctx : Ctx; rout : list CallResult; rpending : Pending; rsys : Sys W }.

Definition overlap (p : Prog) (o : Opts) (i : Z) (c : Call) : outcome bool :=
  if (is_async c || (collide o && (i mod 2 =? 1))) && threaded o && negb (is_pseudo c)
  then used ← result_used_later p i; Done (negb used) else Done false.

Definition copy_out (ar : Arena) (ctx : Ctx) (co : Copyout) : Ctx :=
  match read_scalar ar (off co) (size co) with Some v => set ctx (slot co) v | None => ctx end.

(** One iteration of the loop over the calls. *)
Definition call_step (p : Prog) (o : Opts) (kcov : option Kcov) (during : list nat) (i : Z) (r : Run) : outcome Run :=
  c ← or_panic (get p i);
  '(ar, (args, copyouts)) ← prepare_args (rctx r) width c (arena (rsys r));
  let s := MkSys (world (rsys r)) ar (alarm (rsys r)) (handler (rsys r)) in
  ov ← overlap p o i c;
  if ov : bool then
    let j := MkJob (nr c) args (collect_cover o) (syscall (timeouts o)) in
    Done (MkRun (rctx r) (rout r ++ [MkCallResult i (name c) 0 0 [] true]) (rpending r ++ [(i, Spawned j)]) s)
  else
    '(res_, (ps, s)) ← exec_call i c args (rctx r) kcov (syscall (timeouts o)) during (rpending r) s;
    let ctx := match res c with Some slot => set (rctx r) slot (as_u64 (ret res_)) | None => rctx r end in
    let ctx := foldl (copy_out (arena s)) ctx copyouts in
    Done (MkRun ctx (rout r ++ [res_]) ps s).

(** The loop; the spawned threads named by [fst (sched i)] step before
    iteration [i], those named by [snd (sched i)] while its call sleeps. *)
Fixpoint run_calls (p : Prog) (o : Opts) (kcov : option Kcov) (started : Z) (sched : Z -> list nat * list nat) (is_ : list Z) (r : Run)
    : outcome Run :=
  match is_ with
  | [] => Done r
  | i :: is_ =>
      let '(ps, s) := wake_all (fst (sched i)) (rpending r) (rsys r) in
      let '(t, s) := lift now s in
      let r := MkRun (rctx r) (rout r) ps s in
      if program (timeouts o) <? Z.max 0 (t - started) then Done r
      else r ← call_step p o kcov (snd (sched i)) i r; run_calls p o kcov started sched is_ r
  end.

(** [out.iter_mut().find(|r| r.index == i)], filled in *)
Fixpoint fill (i : Z) (v : (Z * Z) * list Z) (l : list CallResult) : list CallResult :=
  match l with
  | [] => []
  | r :: l =>
      if index r =? i then MkCallResult (index r) (call_name r) (fst (fst v)) (snd (fst v)) (snd v) false :: l
      else r :: fill i v l
  end.

Definition join_step (p : Prog) (st : outcome (Ctx * list CallResult)) (it : Z * Thread) : outcome (Ctx * list CallResult) :=
  '(ctx, out) ← st;
  v ← join (snd it);
  c ← or_panic (get p (fst it));
  let ctx := match res c with Some slot => set ctx slot (as_u64 (fst (fst v))) | None => ctx end in
  Done (ctx, fill (fst it) v out).

Record ProgResult : Type := MkProgResult { calls : list CallResult; extra : list Z }.

(** What comes before the loop: the time, the placed program, the coverage
    devices, and the state of the loop. *)
Record Started : Type := MkStarted { st_time : Z; st_prog : Prog; st_kcov : option Kcov; st_remote : option Kcov; st_run : Run }.

Definition prog_start (p : Prog) (o : Opts) (s : Sys W) : outcome Started :=
  let '(started, s) := lift now s in
  '(ar, p) ← note_fixed width (reset (arena s)) p;
  let s := install_watchdog (MkSys (world s) ar (alarm s) (handler s)) in
  let '(kcov, s) := if collect_cover o then lift kcov_open s else (None, s) in
  let '(remote, s) := if collect_cover o then lift remote_open s else (None, s) in
  let s := lift_ (when_kcov kcov_reset remote) s in
  Done (MkStarted started p kcov remote (MkRun ∅ [] [] s)).

Definition run_prog (p : Prog) (o : Opts) (sched : Z -> list nat * list nat) (s : Sys W) : outcome (ProgResult * (Prog * Sys W)) :=
  st ← prog_start p o s;
  let p := st_prog st in
  r ← run_calls p o (st_kcov st) (st_time st) sched (seqZ 0 (zlen p)) (st_run st);
  let '(ps, s) := wake_all (fst (sched (zlen p))) (rpending r) (rsys r) in
  let '(ps, s) := settle (2 * length ps) ps s in
  '(_, out) ← foldl (join_step p) (Done (rctx r, rout r)) ps;
  let extra := collect_or_default (st_remote st) (world s) in
  let s := lift_ (when_kcov kcov_drop (st_kcov st)) (lift_ (when_kcov kcov_drop (st_remote st)) s) in
  Done (MkProgResult out extra, (p, s)).

End Exec.

(** * What the arguments of a call read *)

(** Two resource states that give every slot [a] reads the same value. *)
Definition agree (a : Arg) (ctx ctx' : Ctx) : Prop := forall s, references a s = true -> ctx !! s = ctx' !! s.

Lemma agree_fields (fs : list Arg) ctx ctx' : (forall s, existsb (fun f => references f s) fs = true -> ctx !! s = ctx' !! s) ->
  forall f, f ∈ fs -> agree f ctx ctx'.
Proof. intros H f Hf s Hs. apply H, existsb_exists. exists f. split; [by apply list_elem_of_In|done]. Qed.

Lemma resolve_agree i d x ctx ctx' : agree (Res i d x) ctx ctx' -> resolve ctx i d x = resolve ctx' i d x.
Proof. intros H. unfold resolve. by rewrite (H i) by apply Z.eqb_refl. Qed.

Lemma encode_agree a ctx ctx' w : agree a ctx ctx' -> encode a ctx w = encode a ctx' w.
Proof.
  revert w. induction a as [v|i d x|addr inner IH|addr|d|fs IH|fs IH|a IH| |slot a IH|] using arg_nested_ind; intros w H;
    cbn [encode]; try done.
  - by rewrite (resolve_agree i d x ctx ctx').
  - f_equal. apply list_fmap_ext. intros k f Hf%list_elem_of_lookup_2. rewrite Forall_forall in IH.
    apply IH; [done|]. by apply (agree_fields fs).
  - f_equal. apply list_fmap_ext. intros k f Hf%list_elem_of_lookup_2. rewrite Forall_forall in IH.
    apply IH; [done|]. by apply (agree_fields fs).
  - by apply IH.
  - by rewrite IH.
Qed.

Lemma copyin_ptr_agree ctx ctx' w lay lay' addr inner ar : agree inner ctx ctx' -> lay ar = lay' ar ->
  copyin_ptr ctx w lay ar addr inner = copyin_ptr ctx' w lay' ar addr inner.
Proof. intros H E. unfold copyin_ptr. by rewrite E, (encode_agree inner ctx ctx'). Qed.

Lemma fields_agree ctx ctx' w (fs : list Arg) ar :
  Forall (fun f => forall ar, agree f ctx ctx' -> lay_out_nested ctx w f ar = lay_out_nested ctx' w f ar) fs ->
  (forall f, f ∈ fs -> agree f ctx ctx') ->
  fold_m (fun ar f => lay_out_nested ctx w f ar) fs ar = fold_m (fun ar f => lay_out_nested ctx' w f ar) fs ar.
Proof.
  intros H. revert ar. induction H as [|f fs Hf _ IH]; intros ar Ha; [done|]. cbn [fold_m].
  rewrite Hf by (apply Ha; left). destruct (lay_out_nested ctx' w f ar); try done. cbn [mbind outcome_bind].
  apply IH. intros g Hg. apply Ha. by right.
Qed.

Lemma lay_array ctx w fs ar : lay_out_nested ctx w (Array fs) ar = fold_m (fun ar f => lay_out_nested ctx w f ar) fs ar.
Proof. exact (lay_struct ctx w fs ar). Qed.

Lemma lay_out_agree ctx ctx' w a ar : agree a ctx ctx' -> lay_out_nested ctx w a ar = lay_out_nested ctx' w a ar.
Proof.
  revert ar. induction a as [v|i d x|addr inner IH|addr|d|fs IH|fs IH|a IH| |slot a IH|] using arg_nested_ind; intros ar H;
    rewrite ?lay_struct, ?lay_array; try done.
  - apply copyin_ptr_agree; [exact H|]. apply IH. exact H.
  - apply fields_agree; [done|by apply agree_fields].
  - apply fields_agree; [done|by apply agree_fields].
  - cbn [lay_out_nested]. by apply IH.
  - cbn [lay_out_nested]. by apply IH.
Qed.

Lemma copyin_agree ctx ctx' w a ar : agree a ctx ctx' -> copyin ctx w a ar = copyin ctx' w a ar.
Proof.
  induction a as [v|i d x|addr inner IH|addr|d|fs IH|fs IH|a IH| |slot a IH|] using arg_nested_ind; intros H; cbn [copyin]; try done.
  - by rewrite (resolve_agree i d x ctx ctx').
  - rewrite (copyin_ptr_agree ctx ctx' w _ (lay_out_nested ctx' w inner)); [done|exact H|]. by apply lay_out_agree.
  - by apply IH.
  - by apply IH.
Qed.

(** Preparing a call reads only the slots [call_references] finds. *)
Lemma prepare_agree ctx ctx' w c ar : (forall s, call_references c s = true -> ctx !! s = ctx' !! s) ->
  prepare_args ctx w c ar = prepare_args ctx' w c ar.
Proof.
  intros H. assert (forall f, f ∈ take MAX_ARGS (args c) -> agree f ctx ctx') as Ha.
  { intros f Hf. apply (agree_fields (args c)); [done|]. rewrite <- (take_drop MAX_ARGS (args c)). set_solver. }
  unfold prepare_args. assert (prepare_go ctx w (take MAX_ARGS (args c)) ar = prepare_go ctx' w (take MAX_ARGS (args c)) ar) as ->; [|done].
  generalize dependent (take MAX_ARGS (args c)). intros l Ha. revert ar. induction l as [|a l IH]; intros ar; [done|].
  cbn [prepare_go]. rewrite (copyin_agree ctx ctx') by (apply Ha; left).
  destruct (copyin ctx' w a ar) as [[ar' v]| | |]; try done. cbn [mbind outcome_bind]. rewrite IH; [done|].
  intros f Hf. apply Ha. by right.
Qed.

(** An overlapped call produces nothing a later call reads. *)
Lemma overlap_unreferenced (p : Prog) o i c slot k ck : overlap p o i c = Done true -> get p i = Some c -> res c = Some slot ->
  i < k -> get p k = Some ck -> call_references ck slot = false.
Proof.
  intros Ho Hc Hs Hk Hck. destruct (call_references ck slot) eqn:Hr; [|done]. exfalso.
  unfold overlap, result_used_later in Ho. rewrite Hc in Ho. cbn [or_panic mbind outcome_bind] in Ho. rewrite Hs in Ho.
  destruct (_ && negb _); [|done]. destruct (slice_from p (i + 1)) as [rest|] eqn:E; [|done]. cbn [or_panic mbind outcome_bind] in Ho.
  injection Ho as Ho%negb_true_iff. rewrite <- not_true_iff_false in Ho. apply Ho, existsb_exists. exists ck. split; [|done].
  apply slice_from_Some in E as [Hi ->]. apply list_elem_of_In. apply get_Some in Hck as [Hk' Hck], Hc as [Hi' _].
  apply (list_elem_of_lookup_2 _ (Z.to_nat (k - (i + 1)))). rewrite lookup_drop. rewrite <- Hck. f_equal. lia.
Qed.

(** Overlapping a call cannot change what a later call is given.
    When the executor overlaps call [i], then whatever value its thread would
    publish in the call's resource slot, and whenever, the arguments of every
    later call, the bytes laid out for it and its copyouts are the same. *)
Theorem overlap_result_unobserved (p : Prog) o i c slot ck k w : overlap p o i c = Done true -> get p i = Some c -> res c = Some slot ->
  i < k -> get p k = Some ck -> forall ctx v ar, prepare_args (set ctx slot v) w ck ar = prepare_args ctx w ck ar.
Proof.
  intros Ho Hc Hs Hk Hck ctx v ar. apply prepare_agree. intros s Hr. unfold set. apply lookup_insert_ne. intros <-.
  by rewrite (overlap_unreferenced p o i c slot k ck) in Hr.
Qed.

(** * Descriptors and mappings of the coverage device *)

(** What the host promises of descriptors and mappings. *)
Class KernelFds (W : Type) `{!Kernel W} : Type :=
  { fds : W -> gset Z;
    maps : W -> gset Z;
    open_fds : forall p w fd w', sys_open p w = (fd, w') ->
      maps w' = maps w /\ if fd <? 0 then fds w' = fds w else fds w' = {[fd]} ∪ fds w /\ fd ∉ fds w;
    ioctl_fds : forall fd req a w r w', sys_ioctl fd req a w = (r, w') -> fds w' = fds w /\ maps w' = maps w;
    mmap_fds : forall n fd w a w', sys_mmap n fd w = (a, w') ->
      fds w' = fds w /\ match a with Some a => maps w' = {[a]} ∪ maps w /\ a ∉ maps w | None => maps w' = maps w end;
    munmap_fds : forall a n w, fds (sys_munmap a n w) = fds w /\ maps (sys_munmap a n w) = maps w ∖ {[a]};
    close_fds : forall fd w, fds (sys_close fd w) = fds w ∖ {[fd]} /\ maps (sys_close fd w) = maps w }.

Lemma add_remove (x : Z) (X : gset Z) : x ∉ X -> ({[x]} ∪ X) ∖ {[x]} = X.
Proof. intros H. set_solver. Qed.

(** The coverage device leaks nothing.  When opening it fails at any
    of its four steps, the descriptors and mappings of the process are what
    they were; when it succeeds it holds exactly one new descriptor and one new
    mapping, and dropping the handle gives both back. *)
Theorem kcov_balanced {W} `{!Kernel W} `{!KernelFds W} request arg (w w' : W) k : kcov_attach request arg w = (k, w') ->
  match k with
  | None => fds w' = fds w /\ maps w' = maps w
  | Some k => fds w' = {[kfd k]} ∪ fds w /\ maps w' = {[area k]} ∪ maps w /\
              fds (kcov_drop k w') = fds w /\ maps (kcov_drop k w') = maps w
  end.
Proof.
  unfold kcov_attach. destruct (sys_open kcov_path w) as [fd w1] eqn:E1. apply open_fds in E1 as [M1 F1].
  destruct (fd <? 0); [by intros [= <- <-]|]. destruct F1 as [F1 N1].
  destruct (sys_ioctl fd KCOV_INIT_TRACE _ w1) as [r2 w2] eqn:E2. apply ioctl_fds in E2 as [F2 M2].
  destruct (negb (r2 =? 0)).
  { intros [= <- <-]. destruct (close_fds fd w2) as [-> ->]. by rewrite F2, M2, F1, M1, add_remove. }
  destruct (sys_mmap area_bytes fd w2) as [a w3] eqn:E3. apply mmap_fds in E3 as [F3 M3].
  destruct a as [a|].
  2:{ intros [= <- <-]. destruct (close_fds fd w3) as [-> ->]. by rewrite F3, M3, F2, M2, F1, M1, add_remove. }
  destruct M3 as [M3 N3]. rewrite M2, M1 in *. rewrite F2, F1 in *.
  destruct (sys_ioctl fd request (arg w3) w3) as [r4 w4] eqn:E4. apply ioctl_fds in E4 as [F4 M4]. rewrite F3, M3 in *.
  destruct (negb (r4 =? 0)); intros [= <- <-].
  - destruct (close_fds fd (sys_munmap a area_bytes w4)) as [-> ->]. destruct (munmap_fds a area_bytes w4) as [-> ->].
    by rewrite F4, M4, !add_remove.
  - cbn [kfd area]. split_and!; [done|done|..]; unfold kcov_drop; cbn [kfd area];
      destruct (sys_ioctl fd KCOV_DISABLE _ w4) as [r5 w5] eqn:E5; apply ioctl_fds in E5 as [F5 M5];
      destruct (close_fds fd (sys_munmap a area_bytes w5)) as [C1 C2]; destruct (munmap_fds a area_bytes w5) as [U1 U2].
    + by rewrite C1, U1, F5, F4, add_remove.
    + by rewrite C2, U2, M5, M4, add_remove.
Qed.

(** Reading the trace buffer touches only the words of the mapping. *)
Lemma kcov_collect_in_map {W} (K1 K2 : Kernel W) k w :
  (forall i, 0 <= i < COVER_SIZE -> @peek W K1 (area k) i w = @peek W K2 (area k) i w) ->
  @kcov_collect W K1 k w = @kcov_collect W K2 k w.
Proof.
  intros H. unfold kcov_collect. assert (0 <= 0 < COVER_SIZE) as H0 by (by vm_compute). rewrite H by done.
  apply list_fmap_ext. intros j i Hi%list_elem_of_lookup_2%elem_of_seqZ. apply H. lia.
Qed.

(** * The run *)

(** What the host promises of the arena: a system call and a pseudo-system-call
    write bytes, and only in place. *)
Class KernelMem (W : Type) `{!Kernel W} : Prop :=
  syscall_mem : forall nr args m w v m' w', bytes_ok m -> sys_syscall nr args m w = Some (v, (m', w')) -> bytes_ok m' /\ zlen m' = zlen m.

(** The arena is well formed, its clip table sorted, and the timer's signal
    handled. *)
Definition sys_ok {W} (s : Sys W) : Prop := arena_wf (arena s) /\ StronglySorted Z.lt (fixed (arena s)) /\ handler s = true.

(** A call whose literals are bytes and whose pointers are addresses. *)
Definition call_ok (width : Z) (c : Call) : Prop :=
  Forall data_ok (args c) /\ ptrs_ok (concat (objs width <$> args c)).

Scheme places_mut := Induction for places Sort Prop
  with places_list_mut := Induction for places_list Sort Prop.

Lemma ptrs_app l l' : ptrs_ok (l ++ l') <-> ptrs_ok l /\ ptrs_ok l'.
Proof. apply Forall_app. Qed.

Definition placed_ok (w : Z) (l : list Arg) (L : list (Z * Z)) (l' : list Arg) : Prop :=
  ptrs_ok L -> Forall data_ok l -> ptrs_ok (concat (objs w <$> l)) -> Forall data_ok l' /\ ptrs_ok (concat (objs w <$> l')).

Lemma data_ok_fields fs : Forall data_ok fs <-> foldr (fun a P => data_ok a /\ P) True fs.
Proof.
  split; [|apply data_ok_Forall]. induction 1; [done|]. split; done.
Qed.

Lemma places_ok w a L a' : places w a L a' ->
  ptrs_ok L -> data_ok a -> ptrs_ok (objs w a) -> data_ok a' /\ ptrs_ok (objs w a').
Proof.
  intros H. apply (places_mut w (fun a L a' _ => ptrs_ok L -> data_ok a -> ptrs_ok (objs w a) -> data_ok a' /\ ptrs_ok (objs w a'))
    (fun l L l' _ => placed_ok w l L l')) with (l := L); try done; clear.
  - intros inner L inner' off _ IH HL Hd Ho. inversion HL; subst. inversion Ho; subst. destruct (IH H2 Hd H4).
    split; [done|]. by constructor.
  - intros addr inner L inner' _ _ IH HL Hd Ho. inversion Ho; subst. destruct (IH HL Hd H2). split; [done|]. by constructor.
  - intros fs L fs' _ IH HL Hd Ho. destruct (IH HL) as [H1 H2]; [by apply data_ok_fields|done|].
    split; [by apply data_ok_fields in H1|done].
  - intros fs L fs' _ IH HL Hd Ho. destruct (IH HL) as [H1 H2]; [by apply data_ok_fields|done|].
    split; [by apply data_ok_fields in H1|done].
  - intros a L a' fs L' fs' _ IHa _ IHl HL Hd Ho. apply ptrs_app in HL as [HL1 HL2]. inversion Hd; subst.
    rewrite fmap_cons in Ho. cbn [concat] in Ho. apply ptrs_app in Ho as [Ho1 Ho2].
    destruct (IHa HL1) as [? ?]; [done..|]. destruct (IHl HL2) as [? ?]; [done..|].
    split; [by constructor|]. rewrite fmap_cons. cbn [concat]. by apply ptrs_app.
Qed.

Lemma places_list_ok w l L l' : places_list w l L l' -> placed_ok w l L l'.
Proof.
  induction 1 as [|a L a' fs L' fs' Ha _ IH]; intros HL Hd Ho; [split; constructor|].
  apply ptrs_app in HL as [HL1 HL2]. inversion Hd; subst. rewrite fmap_cons in Ho. cbn [concat] in Ho.
  apply ptrs_app in Ho as [Ho1 Ho2]. destruct (places_ok w a L a' Ha) as [? ?]; [done..|]. destruct (IH HL2) as [? ?]; [done..|].
  split; [by constructor|]. rewrite fmap_cons. cbn [concat]. by apply ptrs_app.
Qed.

(** Placing a program keeps it well formed and keeps everything but arguments. *)
Lemma places_prog_ok w p L p' : places_prog w p L p' -> ptrs_ok L -> Forall (call_ok w) p ->
  Forall (call_ok w) p' /\ Forall2 (fun c c' => exists l, c' = with_args c l) p p'.
Proof.
  induction 1 as [|c L l p L' p' Hl _ IH]; intros HL Hp; [split; constructor|].
  apply ptrs_app in HL as [HL1 HL2]. inversion Hp as [|? ? [Hd Ho] Hp']; subst. destruct (IH HL2 Hp') as [H1 H2].
  destruct (places_list_ok w _ _ _ Hl HL1 Hd Ho). split; constructor; [by split|done|by exists l|done].
Qed.

Lemma arg_objs_ok w a : ptrs_ok (objs w a) -> ptrs_ok (arg_objs w a).
Proof.
  induction a as [v|i d x|addr inner _|addr|d|fs _|fs _|a IH| |slot a IH|] using arg_nested_ind; cbn [arg_objs objs];
    try done; intros; constructor.
Qed.

Section Run.
Context {W : Type} `{!Kernel W} `{!KernelMem W}.
Context (width ENOSYS EINTR : Z) (Hwidth : width_ok width).
Context (dispatch : Call -> list Z -> Arena -> Ctx -> W -> (Z * Z) * (list Z * W)).
Context (dispatch_mem : forall c args ar ctx w v m' w', bytes_ok (mem ar) -> dispatch c args ar ctx w = (v, (m', w')) ->
  bytes_ok m' /\ zlen m' = zlen (mem ar)).
(** Either calls may sleep and the main thread is the only one, or no call
    sleeps, whatever threads there are. *)
Context (single : bool) (prompt : single = false -> forall nr args m (w : W), sys_syscall nr args m w <> None).

Lemma after_ok r (s : Sys W) : sys_ok s -> bytes_ok (fst (snd r)) -> zlen (fst (snd r)) = zlen (mem (arena s)) -> sys_ok (snd (after r s)).
Proof using.
  destruct r as [v [m w]]. cbn. intros (Hwf & Hs) Hb Hz. split; [|done]. cbn.
  destruct Hwf as [H1 H2 H3 H4]. constructor; cbn; [done|by rewrite Hz|done|done].
Qed.

Lemma host_call_ok nr args (s : Sys W) r : sys_ok s -> host_call ENOSYS nr args s = Some r -> sys_ok (snd r).
Proof using KernelMem0.
  intros Hs. unfold host_call. destruct nr as [nr|]; [|by intros [= <-]].
  destruct (sys_syscall nr (take 6 args) (mem (arena s)) (world s)) as [[v [m w]]|] eqn:E; [|done]. intros [= <-].
  apply syscall_mem in E as [Hb Hz]; [|apply Hs]. by apply (after_ok (v, (m, w))).
Qed.

Lemma host_call_prompt nr args (s : Sys W) : single = false -> host_call ENOSYS nr args s <> None.
Proof using prompt.
  intros Hp. unfold host_call. destruct nr as [nr|]; [|done]. by destruct (sys_syscall nr _ _ _) eqn:E; [|apply prompt in E].
Qed.

Lemma do_call_ok c args ctx (s : Sys W) r : sys_ok s -> do_call ENOSYS dispatch c args ctx s = Some r -> sys_ok (snd r).
Proof using KernelMem0 dispatch_mem.
  intros Hs. unfold do_call. destruct (is_pseudo c); [|by apply host_call_ok].
  destruct (dispatch c args (arena s) ctx (world s)) as [v [m w]] eqn:E. intros [= <-].
  apply dispatch_mem in E as [Hb Hz]; [|apply Hs]. by apply (after_ok (v, (m, w))).
Qed.

Lemma do_call_prompt c args ctx (s : Sys W) : single = false -> do_call ENOSYS dispatch c args ctx s <> None.
Proof using prompt. intros Hp. unfold do_call. destruct (is_pseudo c); [done|by apply host_call_prompt]. Qed.

(** The threads of a run with one thread only. *)
Definition threads_ok (ps : list (Z * Thread)) : Prop := single = true -> ps = [].

(** A call of the main thread returns: it completes, or its timer, which is
    armed, ends its sleep. *)
Lemma await_ok c args ctx during ps (s : Sys W) : sys_ok s -> threads_ok ps -> alarm s <> 0 ->
  exists v s', await ENOSYS EINTR during (do_call ENOSYS dispatch c args ctx) ps s = Done (v, (ps, s')) /\ sys_ok s'.
Proof using KernelMem0 dispatch_mem prompt.
  intros Hs Hps Ha. unfold await. destruct (do_call ENOSYS dispatch c args ctx s) as [[v s']|] eqn:E.
  { exists v, s'. split; [done|]. by apply do_call_ok in E. }
  destruct (Bool.bool_dec single false) as [Em|Em%not_false_is_true]; [by apply do_call_prompt in E|]. rewrite (Hps Em).
  assert (wake_all ENOSYS during [] s = ([], s)) as ->.
  { unfold wake_all. induction during as [|n ns IH]; [done|]. cbn [foldl]. exact IH. }
  rewrite E, (proj2 (Z.eqb_neq _ _)) by done. destruct Hs as (H1 & H2 & Hh). rewrite Hh. eexists _, _. split; [done|]. by split_and!.
Qed.

Lemma arm_alarm t (s : Sys W) : alarm (arm t s) <> 0.
Proof using. unfold arm, set_alarm. cbn [alarm]. lia. Qed.

Lemma exec_call_spec i c args ctx kcov timeout during ps (s : Sys W) : sys_ok s -> threads_ok ps ->
  exists r s', exec_call ENOSYS EINTR dispatch i c args ctx kcov timeout during ps s = Done (r, (ps, s')) /\
    sys_ok s' /\ alarm s' = 0 /\ index r = i /\ call_name r = name c /\ unfinished r = false.
Proof using KernelMem0 dispatch_mem prompt.
  unfold exec_call. intros Hs Hps.
  set (s0 := match fail_nth c with Some n => fault_inject n s | None => s end).
  assert (sys_ok s0) as H0 by (by unfold s0; destruct (fail_nth c)). clearbody s0.
  set (s1 := arm timeout _). assert (sys_ok s1) as H1 by done.
  destruct (await_ok c args ctx during ps s1 H1 Hps (arm_alarm _ _)) as ([r e] & s2 & -> & H2). cbn [mbind outcome_bind].
  eexists _, _. split; [done|]. destruct (fail_nth c); done.
Qed.

Lemma start_ok j (s : Sys W) : sys_ok s -> sys_ok (snd (start j s)).
Proof using.
  intros (H1 & H2 & H3). unfold start. destruct (job_collect j); [|done]. unfold lift. by destruct (kcov_open (world s)).
Qed.

Lemma thread_step_ok t (s : Sys W) : sys_ok s -> sys_ok (snd (thread_step ENOSYS t s)).
Proof using KernelMem0.
  intros Hs. destruct t as [j|j k|r]; cbn [thread_step]; [|..|done].
  - pose proof (start_ok j s Hs). by destruct (start j s).
  - unfold perform. destruct (host_call ENOSYS (job_nr j) (job_args j) s) as [[v s']|] eqn:E; [|done]. by apply host_call_ok in E.
Qed.

Lemma wake_all_ok ns ps (s : Sys W) : sys_ok s ->
  fst <$> fst (wake_all ENOSYS ns ps s) = fst <$> ps /\ sys_ok (snd (wake_all ENOSYS ns ps s)).
Proof using KernelMem0.
  unfold wake_all. revert ps s. induction ns as [|n ns IH]; intros ps s Hs; [done|]. cbn [foldl].
  change (wake ENOSYS (fst (ps, s)) (snd (ps, s)) n) with (wake ENOSYS ps s n).
  assert (fst <$> fst (wake ENOSYS ps s n) = fst <$> ps /\ sys_ok (snd (wake ENOSYS ps s n))) as [<- H2].
  { unfold wake. destruct (ps !! n) as [[i t]|] eqn:E; [|done]. pose proof (thread_step_ok t s Hs).
    destruct (thread_step ENOSYS t s) as [t' s']. split; [|done]. cbn [fst]. rewrite (list_fmap_insert fst ps). apply list_insert_id.
    by rewrite (list_lookup_fmap fst ps), E. }
  destruct (wake ENOSYS ps s n) as [ps' s']. by apply IH.
Qed.

(** What a thread still has to do. *)
Definition steps_left (t : Thread) : nat := match t with Spawned _ => 2 | InCall _ _ => 1 | Ended _ => 0 end.

Lemma thread_step_left t (s : Sys W) : let t' := fst (thread_step ENOSYS t s) in
  (steps_left t' <= steps_left t)%nat /\ (single = false -> steps_left t' = (steps_left t - 1)%nat) /\
  (steps_left t' = steps_left t -> thread_step ENOSYS t s = (t, s)).
Proof using prompt.
  destruct t as [j|j k|r]; cbn [thread_step]; [destruct (start j s) as [k s']; cbn; lia| |cbn; auto].
  unfold perform. destruct (host_call _ _ _ _) as [[v s']|] eqn:E; cbn; [lia|]. split; [lia|]. split; [|done]. intros Hp. by apply host_call_prompt in E.
Qed.

Lemma step_each_ok ps (s : Sys W) : sys_ok s ->
  fst <$> fst (step_each ENOSYS ps s) = fst <$> ps /\ sys_ok (snd (step_each ENOSYS ps s)) /\
  (single = false -> Forall2 (fun x y => steps_left (snd y) = (steps_left (snd x) - 1)%nat) ps (fst (step_each ENOSYS ps s))).
Proof using KernelMem0 prompt.
  revert s. induction ps as [|[i t] ps IH]; intros s Hs; [done|]. cbn [step_each].
  pose proof (thread_step_ok t s Hs) as Ht. pose proof (thread_step_left t s) as (_ & Hl & _). destruct (thread_step ENOSYS t s) as [t' s1]. cbn [snd fst] in *.
  destruct (IH s1 Ht) as (H1 & H2 & H3). destruct (step_each ENOSYS ps s1) as [ps' s2]. cbn [fst snd] in *. rewrite !fmap_cons, H1.
  split_and!; [done|done|]. intros Hp. constructor; [by apply Hl|by apply H3].
Qed.

Lemma settle_ok n ps (s : Sys W) : sys_ok s ->
  fst <$> fst (settle ENOSYS n ps s) = fst <$> ps /\ sys_ok (snd (settle ENOSYS n ps s)) /\
  (single = false -> Forall2 (fun x y => steps_left (snd y) = (steps_left (snd x) - n)%nat) ps (fst (settle ENOSYS n ps s))).
Proof using KernelMem0 prompt.
  revert ps s. induction n as [|n IH]; intros ps s Hs; cbn [settle].
  { split_and!; [done|done|]. intros _. apply Forall_Forall2_diag, Forall_forall. cbn. lia. }
  destruct (step_each_ok ps s Hs) as (H1 & H2 & H3). destruct (step_each ENOSYS ps s) as [ps1 s1]. cbn [fst snd] in *.
  destruct (IH ps1 s1 H2) as (E1 & E2 & E3). rewrite E1, H1. split_and!; [done|done|]. intros Hp.
  eapply Forall2_trans; [|by apply H3|by apply E3]. cbn. intros x y z. lia.
Qed.

(** The threads all end, when no call sleeps. *)
Lemma settled ps (s : Sys W) : sys_ok s -> threads_ok ps ->
  Forall (fun it => exists r, snd it = Ended r) (fst (settle ENOSYS (2 * length ps) ps s)).
Proof using KernelMem0 prompt.
  intros Hs Hps. destruct (settle_ok (2 * length ps) ps s Hs) as (Hf & _ & H).
  destruct (Bool.bool_dec single false) as [Em|Em%not_false_is_true]; [|rewrite (Hps Em) in *; constructor].
  specialize (H Em). apply Forall_forall. intros y Hy. apply list_elem_of_lookup in Hy as (k & Hy).
  destruct (Forall2_lookup_r _ _ _ _ _ H Hy) as (x & Hx & E). apply lookup_lt_Some in Hx.
  assert (steps_left (snd x) <= 2)%nat by (destruct (snd x); cbn; lia).
  destruct (snd y) as [j|j q|r]; cbn in E; [lia|lia|by exists r].
Qed.

(** After the rounds of [settle] another one changes nothing: what has not ended
    then sleeps, and nothing is left to wake it. *)
Lemma step_each_left ps (s : Sys W) : let ps' := fst (step_each ENOSYS ps s) in
  (sum_list (steps_left <$> (snd <$> ps')) <= sum_list (steps_left <$> (snd <$> ps)))%nat /\
  (sum_list (steps_left <$> (snd <$> ps')) = sum_list (steps_left <$> (snd <$> ps)) -> step_each ENOSYS ps s = (ps, s)).
Proof using prompt.
  revert s. induction ps as [|[i t] ps IH]; intros s; [done|]. cbn [step_each].
  pose proof (thread_step_left t s) as (Hle & _ & Heq). destruct (thread_step ENOSYS t s) as [t' s1]. cbn [fst snd] in *.
  destruct (IH s1) as [H1 H2]. destruct (step_each ENOSYS ps s1) as [ps' s2]. cbn [fst snd] in *. rewrite !fmap_cons. cbn [sum_list_with fst snd]. unfold id in *.
  split; [lia|]. intros E. assert (steps_left t' = steps_left t) as Et by lia. specialize (Heq Et). injection Heq as -> ->.
  assert ((ps', s2) = (ps, s)) as [= -> ->] by (apply H2; lia). done.
Qed.

Lemma settle_quiet n ps (s : Sys W) : (sum_list (steps_left <$> (snd <$> ps)) <= n)%nat ->
  let '(ps', s') := settle ENOSYS n ps s in step_each ENOSYS ps' s' = (ps', s').
Proof using prompt.
  revert ps s. induction n as [|n IH]; intros ps s Hn; cbn [settle].
  - destruct (step_each_left ps s) as [H1 H2]. apply H2. lia.
  - destruct (step_each_left ps s) as [H1 H2]. destruct (step_each ENOSYS ps s) as [ps1 s1] eqn:E. cbn [fst] in *.
    destruct (decide (sum_list (steps_left <$> (snd <$> ps1)) = sum_list (steps_left <$> (snd <$> ps)))) as [Eq|Ne]; [|apply IH; lia].
    specialize (H2 Eq). injection H2 as -> ->. clear -E. assert (forall k, settle ENOSYS k ps s = (ps, s)) as Hk.
    { induction k as [|k IH]; [done|]. cbn [settle]. by rewrite E. }
    by rewrite Hk.
Qed.

(** Preparing a well-formed call is total and keeps the machine well formed. *)
Lemma prepare_ok ctx c ar : call_ok width c -> arena_wf ar -> StronglySorted Z.lt (fixed ar) ->
  exists ar' vs, prepare_args ctx width c ar = Done (ar', (vs, concat (arg_copyouts width <$> take MAX_ARGS (args c)))) /\
    arena_wf ar' /\ fixed ar' = fixed ar /\
    forall i a, (i < MAX_ARGS)%nat -> args c !! i = Some a -> vs !! i = Some (as_i64 (scalar ctx a)).
Proof using Hwidth.
  intros [Hd Ho] Hwf Hs. unfold prepare_args.
  destruct (prepare_go_spec ctx width (take MAX_ARGS (args c)) ar) as (ar' & -> & Hcf); [done|by apply Forall_take|done|done| |].
  - apply Forall_concat, Forall_fmap, Forall_forall. intros a Hin. apply arg_objs_ok.
    apply Forall_concat in Ho. rewrite Forall_fmap, Forall_forall in Ho. apply Ho.
    rewrite <- (take_drop MAX_ARGS (args c)). apply elem_of_app. by left.
  - cbn [mbind outcome_bind]. eexists ar', _. split_and!; [done|apply Hcf|apply Hcf|].
    intros i a Hi Ha. rewrite lookup_app_l; [|rewrite length_fmap, length_take; apply lookup_lt_Some in Ha; lia].
    by rewrite list_lookup_fmap, lookup_take_lt, Ha by done.
Qed.

Lemma overlap_total p o i c : get p i = Some c -> exists b, overlap p o i c = Done b.
Proof using.
  intros Hc. unfold overlap. destruct (_ && negb _); [|by exists false].
  unfold result_used_later. rewrite Hc. cbn [or_panic mbind outcome_bind]. destruct (res c) as [slot|]; [|by exists true].
  apply get_Some in Hc as [Hi _].
  assert (slice_from p (i + 1) = Some (drop (Z.to_nat (i + 1)) p)) as -> by (apply slice_from_Some; split; [lia|done]).
  cbn [or_panic mbind outcome_bind]. eauto.
Qed.

(** The state of a run before iteration [i]: one result per call so far, in
    order, unfinished exactly for the calls still pending. *)
Record run_inv (p : Prog) (i : Z) (r : Run (W := W)) : Prop := RunInv
  { ri_sys : sys_ok (rsys r);
    ri_len : zlen (rout r) = i;
    ri_out : forall k x, get (rout r) k = Some x -> index x = k /\ (exists c, get p k = Some c /\ call_name x = name c) /\
               (unfinished x = true -> k ∈ fst <$> rpending r);
    ri_threads : threads_ok (rpending r);
    ri_pending : Forall (fun k => 0 <= k < i) (fst <$> rpending r) }.

Lemma wake_all_threads ns ps (s : Sys W) : sys_ok s -> threads_ok ps -> threads_ok (fst (wake_all ENOSYS ns ps s)).
Proof using KernelMem0.
  intros Hs Hps Hm. destruct (wake_all_ok ns ps s Hs) as [Hf _]. rewrite (Hps Hm) in *. by apply fmap_nil_inv in Hf.
Qed.

Lemma run_inv_wake p i r ns ps s : run_inv p i r -> wake_all ENOSYS ns (rpending r) (rsys r) = (ps, s) ->
  run_inv p i (MkRun (rctx r) (rout r) ps s).
Proof using KernelMem0.
  intros [H1 H2 H3 H4 H5] E. destruct (wake_all_ok ns (rpending r) (rsys r) H1) as [Hp Hs].
  pose proof (wake_all_threads ns (rpending r) (rsys r) H1 H4). rewrite E in *. cbn [fst snd] in *.
  constructor; cbn [rsys rout rpending]; [done|done|by rewrite Hp|done|by rewrite Hp].
Qed.

Lemma get_snoc {A} (l : list A) x k y : get (l ++ [x]) k = Some y -> get l k = Some y \/ k = zlen l /\ y = x.
Proof using.
  intros H. destruct (decide (k < zlen l)); [left; by rewrite get_app_l in H|].
  destruct (proj1 (get_Some _ _ _) H) as [Hk _].
  rewrite zlen_app in Hk. change (zlen [x]) with 1 in Hk.
  assert (k = zlen l) as -> by lia. rewrite <- (Z.add_0_r (zlen l)), get_app_r in H by done. right. split; [done|]. by injection H.
Qed.

(** Every call runs in place: overlapping is off, or nothing asks for it. *)
Definition in_place (p : Prog) (o : Opts) : Prop := threaded o = false \/ (collide o = false /\ Forall (fun c => is_async c = false) p).

Lemma in_place_overlap p o i c : in_place p o -> get p i = Some c -> overlap p o i c = Done false.
Proof using.
  intros Hio Hc. unfold overlap. assert ((is_async c || collide o && (i mod 2 =? 1)) && threaded o = false) as ->; [|done].
  destruct Hio as [->|[-> Ha]]; [apply andb_false_r|]. rewrite Forall_forall in Ha. by rewrite (Ha c) by (by apply (get_elem_of p i)).
Qed.

Lemma call_step_inv p o kcov during i r c : (single = true -> in_place p o) -> Forall (call_ok width) p -> get p i = Some c -> run_inv p i r ->
  exists r', call_step width ENOSYS EINTR dispatch p o kcov during i r = Done r' /\ run_inv p (i + 1) r'.
Proof using KernelMem0 dispatch_mem Hwidth prompt.
  intros Hio Hp Hc [(Hwf & Hst & Hh) H2 H3 Ht H4]. unfold call_step. rewrite Hc. cbn [or_panic mbind outcome_bind].
  rewrite Forall_forall in Hp. destruct (prepare_ok (rctx r) c (arena (rsys r))) as (ar & vs & -> & Hwf' & Hfx & _);
    [by apply Hp, (get_elem_of p i)|done|done|]. cbn [mbind outcome_bind].
  assert (sys_ok (MkSys (world (rsys r)) ar (alarm (rsys r)) (handler (rsys r)))) as Hs by (split; [done|]; cbn; by rewrite Hfx).
  destruct (overlap_total p o i c Hc) as [b Hb]. rewrite Hb. cbn [mbind outcome_bind]. destruct b.
  - eexists. split; [done|]. constructor; cbn [rsys rout rpending]; [done|rewrite zlen_app, H2; done|..].
    + intros k x [Hx|[-> ->]]%get_snoc.
      * destruct (H3 k x Hx) as (? & ? & Hu). split_and!; [done..|]. intros. rewrite fmap_app. apply elem_of_app. auto.
      * rewrite H2. split_and!; [done|by exists c|]. intros _. rewrite fmap_app. apply elem_of_app. right. by left.
    + intros Hm. by rewrite (in_place_overlap p o i c (Hio Hm) Hc) in Hb.
    + rewrite fmap_app. apply Forall_app. split; [eapply Forall_impl; [done|]; cbn; lia|]. repeat constructor; cbn; pose proof (zlen_nonneg (rout r)); lia.
  - destruct (exec_call_spec i c vs (rctx r) kcov (syscall (timeouts o)) during (rpending r) _ Hs Ht) as (x & s & -> & Hs' & _ & Hi & Hn & Hu).
    cbn [mbind outcome_bind].
    eexists. split; [done|]. constructor; cbn [rsys rout rpending]; [done|rewrite zlen_app, H2; done|..].
    + intros k y [Hx|[-> ->]]%get_snoc; [by apply H3|]. rewrite H2. split_and!; [done|by exists c|by rewrite Hu].
    + done.
    + eapply Forall_impl; [done|]; cbn; lia.
Qed.

(** Results stand at their index, under their call's name, and only the calls
    of [pend] are unfinished. *)
Definition out_ok (p : Prog) (pend : list Z) (out : list CallResult) : Prop :=
  forall k x, get out k = Some x -> (index x = k) /\ (exists c, get p k = Some c /\ call_name x = name c) /\
    (unfinished x = true -> k ∈ pend).

Lemma fill_spec b i v l k y : (forall k x, get l k = Some x -> index x = b + k) -> get (fill i v l) k = Some y ->
  exists x, get l k = Some x /\ (index y = index x) /\ call_name y = call_name x /\
    (unfinished y = true -> unfinished x = true /\ index x <> i).
Proof using.
  revert b k. induction l as [|x l IH]; intros b k Hl Hy; cbn [fill] in Hy; [by apply get_Some in Hy as [_ ?]|].
  assert (0 <= k) as Hk by (destruct (proj1 (get_Some _ _ _) Hy); lia).
  pose proof (Hl 0 x eq_refl) as H0. destruct (Z.eqb_spec (index x) i) as [Hi|Hi].
  - rewrite get_cons in Hy. destruct (Z.eqb_spec k 0) as [->|Hk0].
    + exists x. injection Hy as <-. by cbn.
    + exists y. rewrite get_cons, (proj2 (Z.eqb_neq _ _) Hk0). split_and!; [done..|]. intros Hu. split; [done|].
      rewrite (Hl k y); [lia|]. by rewrite get_cons, (proj2 (Z.eqb_neq _ _) Hk0).
  - rewrite get_cons in Hy. destruct (Z.eqb_spec k 0) as [->|Hk0]; [injection Hy as <-; exists x; split_and!; done|].
    destruct (IH (b + 1) (k - 1)) as (z & Hz & H); [|done|].
    + intros j z Hz. destruct (proj1 (get_Some _ _ _) Hz) as [? _]. rewrite (Hl (j + 1) z); [lia|].
      rewrite get_cons, (proj2 (Z.eqb_neq _ _)) by lia. by replace (j + 1 - 1) with j by lia.
    + exists z. rewrite get_cons, (proj2 (Z.eqb_neq _ _)) by done. by split.
Qed.

Lemma zlen_fill i v l : zlen (fill i v l) = zlen l.
Proof using. induction l as [|x l IH]; cbn [fill]; [done|]. destruct (index x =? i); by rewrite !zlen_cons, ?IH. Qed.

Lemma joins_ok p ps ctx out : Forall (fun k => 0 <= k < zlen p) (fst <$> ps) -> Forall (fun it => exists r, snd it = Ended r) ps ->
  out_ok p (fst <$> ps) out ->
  exists ctx' out', foldl (join_step p) (Done (ctx, out)) ps = Done (ctx', out') /\ zlen out' = zlen out /\ out_ok p [] out'.
Proof using.
  revert ctx out. induction ps as [|[i t] ps IH]; intros ctx out Hp He Ho; [by exists ctx, out|].
  rewrite fmap_cons in Hp, Ho. inversion Hp as [|? ? Hi Hp']; subst. inversion He as [|? ? [v Hv] He']; subst. cbn [foldl fst snd] in *.
  unfold join_step at 2. subst t. cbn [mbind outcome_bind fst snd join]. destruct (proj2 (get_is_Some p i) Hi) as [c ->].
  cbn [or_panic mbind outcome_bind].
  destruct (IH (match res c with Some slot => set ctx slot (as_u64 (fst (fst v))) | None => ctx end) (fill i v out))
    as (ctx' & out' & -> & Hz & Ho'); [done|done| |by exists ctx', out'; rewrite <- (zlen_fill i v out)].
  intros k y Hy. destruct (fill_spec 0 i v out k y) as (x & Hx & E1 & E2 & Hu); [by intros j z [? _]%Ho|done|].
  destruct (Ho k x Hx) as (Hxi & Hc & Hp0). rewrite E1, E2. split_and!; [done|done|].
  intros Hy'. destruct (Hu Hy') as [Hux Hne]. specialize (Hp0 Hux). apply elem_of_cons in Hp0 as [->|?]; [congruence|done].
Qed.

(** The clock, read in the state [r] before call [n], is past the deadline. *)
Definition late (o : Opts) (started : Z) (sched : Z -> list nat * list nat) (n : Z) (r : Run (W := W)) : Prop :=
  program (timeouts o) < Z.max 0 (fst (now (world (snd (wake_all ENOSYS (fst (sched n)) (rpending r) (rsys r))))) - started).

Lemma run_calls_inv p o kcov started sched m i r : (single = true -> in_place p o) -> Forall (call_ok width) p ->
  0 <= i -> i + Z.of_nat m = zlen p -> run_inv p i r ->
  exists r' n, run_calls width ENOSYS EINTR dispatch p o kcov started sched (seqZ i (Z.of_nat m)) r = Done r' /\ run_inv p n r' /\ i <= n <= zlen p /\
    (n = zlen p \/ exists q, run_calls width ENOSYS EINTR dispatch p o kcov started sched (seqZ i (n - i)) r = Done q /\ zlen (rout q) = n /\ late o started sched n q).
Proof using KernelMem0 dispatch_mem Hwidth prompt.
  intros Hio Hp. revert i r. induction m as [|m IH]; intros i r Hi Hm Hr.
  { exists r, i. split_and!; [done|done|lia|lia|left; lia]. }
  rewrite Nat2Z.inj_succ, seqZ_cons by lia. cbn [run_calls]. rewrite Z.pred_succ.
  destruct (wake_all ENOSYS (fst (sched i)) (rpending r) (rsys r)) as [ps s] eqn:Ew. pose proof Ew as Ew'.
  apply (run_inv_wake p i) in Ew; [|done]. unfold lift at 1. destruct (now (world s)) as [t w] eqn:En.
  assert (run_inv p i (MkRun (rctx r) (rout r) ps (MkSys w (arena s) (alarm s) (handler s)))) as Hr'.
  { destruct Ew as [H1 H2 H3 H4 H5]. by constructor. }
  destruct (_ <? _) eqn:Et.
  - eexists _, i. split_and!; [done|done|lia|lia|]. right. exists r. rewrite Z.sub_diag. split_and!; [done|apply Hr|].
    unfold late. rewrite Ew'. cbn [snd]. rewrite En. cbn [fst]. by apply Z.ltb_lt.
  - destruct (proj2 (get_is_Some p i) ltac:(lia)) as [c Hc].
    destruct (call_step_inv p o kcov (snd (sched i)) i _ c Hio Hp Hc Hr') as (r' & E & Hr''). rewrite E. cbn [mbind outcome_bind].
    destruct (IH (i + 1) r') as (r2 & n & E2 & Hr2 & Hn & Hl); [lia|lia|done|]. exists r2, n. split_and!; [done|done|lia|lia|].
    destruct Hl as [?|(q & Eq & Hq)]; [by left|right]. exists q. split; [|done].
    replace (n - i) with (Z.succ (n - (i + 1))) by lia. rewrite seqZ_cons by lia. cbn [run_calls]. rewrite Z.pred_succ, Ew'. unfold lift at 1.
    rewrite En, Et, E. exact Eq.
Qed.

Lemma reset_wf ar : arena_wf ar -> arena_wf (reset ar).
Proof using.
  intros [H1 H2 H3 H4]. constructor; cbn [len mem used reset]; [done| | |].
  - unfold zlen. rewrite length_replicate. lia.
  - apply Forall_replicate. unfold is_u8. lia.
  - unfold zlen in *. by rewrite length_fmap.
Qed.

Lemma placed_ptrs size u L u' : size <= 2 ^ 62 -> placed size u L u' -> ptrs_ok L.
Proof using.
  intros Hs [_ H _]. eapply Forall_impl; [exact H|]. intros o (H0 & H1 & Ho). unfold is_u64.
  destruct Ho as [[-> _]|[Ho _]]; lia.
Qed.

Lemma prog_objs_ok p : Forall (call_ok width) p -> ptrs_ok (prog_objs width p).
Proof using. intros H. apply Forall_concat, Forall_fmap. eapply Forall_impl; [exact H|]. by intros c [_ Ho]. Qed.

Lemma out_ok_names p p' out : out_ok p' [] out -> Forall2 (fun c c' => exists l, c' = with_args c l) p p' ->
  Forall (fun x => unfinished x = false) out /\ (index <$> out = seqZ 0 (zlen out)) /\ call_name <$> out = name <$> take (length out) p.
Proof using.
  intros Ho HF. assert (forall k x, out !! k = Some x -> get out (Z.of_nat k) = Some x) as Hg.
  { intros k x Hx. apply get_Some. rewrite Nat2Z.id. split; [|done]. apply lookup_lt_Some in Hx. unfold zlen. lia. }
  split_and!.
  - apply Forall_lookup. intros k x Hx%Hg. apply Ho in Hx as (_ & _ & Hu). destruct (unfinished x); [|done].
    by apply elem_of_nil in Hu.
  - apply list_eq. intros k. rewrite list_lookup_fmap. destruct (out !! k) as [x|] eqn:E.
    + pose proof (lookup_lt_Some _ _ _ E). rewrite lookup_seqZ_lt by (unfold zlen; lia). apply Hg, Ho in E as (Hi & _). cbn. by rewrite Hi.
    + apply lookup_ge_None in E. rewrite lookup_seqZ_ge by (unfold zlen; lia). done.
  - apply list_eq. intros k. rewrite !list_lookup_fmap. destruct (out !! k) as [x|] eqn:E.
    + pose proof (lookup_lt_Some _ _ _ E). rewrite lookup_take_lt by done. apply Hg, Ho in E as (_ & (c & Hc & Hn) & _).
      apply get_Some in Hc as [_ Hc]. rewrite Nat2Z.id in Hc. destruct (Forall2_lookup_r _ _ _ _ _ HF Hc) as (c0 & -> & l & ->).
      cbn. by rewrite Hn.
    + apply lookup_ge_None in E. by rewrite lookup_take_ge by done.
Qed.

(** The clock, read before call [n] of the run, is past the program's deadline. *)
Definition past_deadline (p : Prog) (o : Opts) (sched : Z -> list nat * list nat) (s : Sys W) (n : Z) : Prop :=
  exists st r, prog_start width p o s = Done st /\
    run_calls width ENOSYS EINTR dispatch (st_prog st) o (st_kcov st) (st_time st) sched (seqZ 0 n) (st_run st) = Done r /\
    zlen (rout r) = n /\ late o (st_time st) sched n r.

Lemma prog_start_done p o (s : Sys W) : arena_wf (arena s) -> Forall (call_ok width) p ->
  exists st, prog_start width p o s = Done st /\ run_inv (st_prog st) 0 (st_run st) /\
    Forall (call_ok width) (st_prog st) /\ Forall2 (fun c c' => exists l, c' = with_args c l) p (st_prog st).
Proof using Hwidth.
  intros Hwf Hp. unfold prog_start. unfold lift at 1. destruct (now (world s)) as [started w0]. cbn [world arena alarm handler fst].
  assert (0 <= width) as Hw by (unfold width_ok in Hwidth; lia).
  destruct (note_fixed_run width (reset (arena s)) p Hw (reset_wf _ Hwf) (prog_objs_ok p Hp))
    as (u & u' & addrs & p' & L & -> & _ & Hwf' & Hpl & Hpd & _). cbn [mbind outcome_bind].
  destruct (places_prog_ok width p L p' Hpl) as [Hp' HF]; [by eapply placed_ptrs; [apply Hwf|exact Hpd]|done|].
  set (ar := set_fixed _ _) in *. cbn [install_watchdog lift_ world arena alarm].
  set (s0 := install_watchdog _). assert (sys_ok s0) as H0 by (split; [done|]; split; [cbn; apply dedup_sorted, sort_u64_sorted|done]).
  destruct (if collect_cover o then lift kcov_open s0 else (None, s0)) as [kc s1] eqn:E1.
  assert (sys_ok s1) as H1 by (destruct (collect_cover o); [unfold lift in E1; destruct (kcov_open (world s0))|]; by injection E1 as <- <-).
  clearbody s0. clear E1 H0.
  destruct (if collect_cover o then lift remote_open s1 else (None, s1)) as [rm s2] eqn:E2.
  assert (sys_ok s2) as H2 by (destruct (collect_cover o); [unfold lift in E2; destruct (remote_open (world s1))|]; by injection E2 as <- <-).
  clear E2 H1. eexists. split; [done|]. cbn [st_run st_prog]. split_and!; [|done|done].
  constructor; cbn [rsys rout rpending]; [done|done| |done|constructor]. intros k x Hx%get_Some. by destruct Hx.
Qed.

(** The run, with what it leaves behind. *)
Lemma run_prog_done p o sched (s : Sys W) : (single = true -> in_place p o) -> arena_wf (arena s) -> Forall (call_ok width) p ->
  exists r p' s', run_prog width ENOSYS EINTR dispatch p o sched s = Done (r, (p', s')) /\
    Forall (fun x => unfinished x = false) (calls r) /\
    (index <$> calls r = seqZ 0 (zlen (calls r))) /\ call_name <$> calls r = name <$> take (length (calls r)) p /\
    (zlen (calls r) = zlen p \/ past_deadline p o sched s (zlen (calls r))) /\
    arena_wf (arena s') /\ Forall (call_ok width) p' /\ Forall2 (fun c c' => exists l, c' = with_args c l) p p'.
Proof using KernelMem0 dispatch_mem Hwidth prompt.
  intros Hio Hwf Hp. unfold run_prog. destruct (prog_start_done p o s Hwf Hp) as (st & Est & Hinv & Hp' & HF). rewrite Est. cbn [mbind outcome_bind].
  set (p' := st_prog st) in *. assert (zlen p' = zlen p) as Hz by (unfold zlen; by rewrite (Forall2_length _ _ _ HF)).
  assert (single = true -> in_place p' o) as Hio'.
  { intros Hm. destruct (Hio Hm) as [?|[? Ha]]; [by left|right]. split; [done|]. clear -Ha HF. induction HF as [|c c' l l' [x ->] _ IH]; [done|].
    inversion Ha; subst. constructor; [done|by apply IH]. }
  change (seqZ 0 (zlen p')) with (seqZ 0 (Z.of_nat (length p'))).
  destruct (run_calls_inv p' o (st_kcov st) (st_time st) sched (length p') 0 (st_run st)) as (r & n & -> & Hr & Hn & Hq); [done|done|lia|done|done|].
  cbn [mbind outcome_bind]. destruct Hr as [Hs Hlen Ho Ht Hpend].
  destruct (wake_all_ok (fst (sched (zlen p'))) (rpending r) (rsys r) Hs) as [Hps Hs'].
  pose proof (wake_all_threads (fst (sched (zlen p'))) (rpending r) (rsys r) Hs Ht) as Ht'.
  destruct (wake_all ENOSYS (fst (sched (zlen p'))) (rpending r) (rsys r)) as [ps s3]. cbn [fst snd] in Hps, Hs', Ht'.
  pose proof (settled ps s3 Hs' Ht') as He. destruct (settle_ok (2 * length ps) ps s3 Hs') as (Hps' & Hs4 & _).
  destruct (settle ENOSYS (2 * length ps) ps s3) as [ps' s4]. cbn [fst snd] in *.
  destruct (joins_ok p' ps' (rctx r) (rout r)) as (ctx & out & -> & Hzo & Ho'); [|done|by rewrite Hps', Hps|].
  { rewrite Hps', Hps. eapply Forall_impl; [exact Hpend|]. cbn. lia. }
  cbn [mbind outcome_bind]. eexists _, _, _. split; [done|]. cbn [calls].
  destruct (out_ok_names p p' out Ho' HF) as (Hu & Hi & Hnm). split_and!; [done..| | |done|done].
  - rewrite Hzo, Hlen, <- Hz. destruct Hq as [?|(q & Eq & Hzq & Hl)]; [by left|right]. exists st, q. rewrite Z.sub_0_r in Eq. by split_and!.
  - cbn [arena lift_]. apply Hs4.
Qed.
End Run.

Section Completes.
Context {W : Type} `{!Kernel W} `{!KernelMem W}.
Context (width ENOSYS EINTR : Z) (Hwidth : width_ok width).
Context (dispatch : Call -> list Z -> Arena -> Ctx -> W -> (Z * Z) * (list Z * W)).
Context (dispatch_mem : forall c args ar ctx w v m' w', bytes_ok (mem ar) -> dispatch c args ar ctx w = (v, (m', w')) ->
  bytes_ok m' /\ zlen m' = zlen (mem ar)).

(** No system call sleeps. *)
Definition prompt_calls : Prop := forall nr args m (w : W), sys_syscall nr args m w <> None.

Lemma run_prog_ends p o sched (s : Sys W) : in_place p o \/ prompt_calls -> arena_wf (arena s) -> Forall (call_ok width) p ->
  exists r p' s', run_prog width ENOSYS EINTR dispatch p o sched s = Done (r, (p', s')) /\
    Forall (fun x => unfinished x = false) (calls r) /\
    (index <$> calls r = seqZ 0 (zlen (calls r))) /\ call_name <$> calls r = name <$> take (length (calls r)) p /\
    (zlen (calls r) = zlen p \/ past_deadline width ENOSYS EINTR dispatch p o sched s (zlen (calls r))) /\
    arena_wf (arena s') /\ Forall (call_ok width) p' /\ Forall2 (fun c c' => exists l, c' = with_args c l) p p'.
Proof using KernelMem0 dispatch_mem Hwidth.
  intros [Hio|Hpr].
  - by apply (run_prog_done width ENOSYS EINTR Hwidth dispatch dispatch_mem true).
  - by apply (run_prog_done width ENOSYS EINTR Hwidth dispatch dispatch_mem false).
Qed.

End Completes.

(** * From a producer to its consumer *)

(** The slots the copyouts of a call fill. *)
Definition copyout_slots (w : Z) (c : Call) : list Z := slot <$> concat (arg_copyouts w <$> take MAX_ARGS (args c)).

Lemma prepare_go_values ctx w l ar ar' vs cos : prepare_go ctx w l ar = Done (ar', (vs, cos)) ->
  vs = (fun a => as_i64 (scalar ctx a)) <$> l /\ cos = concat (arg_copyouts w <$> l).
Proof.
  revert ar ar' vs cos. induction l as [|a l IH]; intros ar ar' vs cos; cbn [prepare_go]; [by intros [= _ <- <-]|].
  destruct (copyin ctx w a ar) as [[ar1 v]| | |] eqn:E; try done. cbn [mbind outcome_bind].
  destruct (prepare_go ctx w l ar1) as [[ar2 [vs' cos']]| | |] eqn:E2; try done. cbn [mbind outcome_bind]. intros [= _ <- <-].
  destruct (IH _ _ _ _ E2) as [-> ->]. by rewrite (copyin_scalar _ _ _ _ _ _ E).
Qed.

Lemma prepare_values ctx w c ar ar' vs cos : prepare_args ctx w c ar = Done (ar', (vs, cos)) ->
  slot <$> cos = copyout_slots w c /\ forall n a, (n < MAX_ARGS)%nat -> args c !! n = Some a -> vs !! n = Some (as_i64 (scalar ctx a)).
Proof.
  unfold prepare_args, copyout_slots. destruct (prepare_go ctx w (take MAX_ARGS (args c)) ar) as [[ar1 [vs' cos']]| | |] eqn:E; try done.
  cbn [mbind outcome_bind]. intros [= _ <- <-]. apply prepare_go_values in E as [-> ->]. split; [done|]. intros n a Hn Ha.
  rewrite lookup_app_l; [|rewrite length_fmap, length_take; apply lookup_lt_Some in Ha; lia].
  by rewrite list_lookup_fmap, lookup_take_lt, Ha by done.
Qed.

Lemma copy_out_other ar cos ctx x : x ∉ slot <$> cos -> foldl (copy_out ar) ctx cos !! x = ctx !! x.
Proof.
  revert ctx. induction cos as [|co cos IH]; intros ctx Hx; [done|]. cbn [foldl]. rewrite fmap_cons in Hx.
  apply not_elem_of_cons in Hx as [Hne Hx]. rewrite IH by done. unfold copy_out.
  destruct (read_scalar _ _ _); [|done]. unfold set. by apply lookup_insert_ne.
Qed.

Section Flow.
Context {W : Type} `{!Kernel W}.
Context (width ENOSYS EINTR : Z).
Context (dispatch : Call -> list Z -> Arena -> Ctx -> W -> (Z * Z) * (list Z * W)).

(** One iteration appends one result; a call that is not overlapped publishes
    its return value before the next iteration. *)
Lemma call_step_publishes p o kcov during i r r' c : call_step width ENOSYS EINTR dispatch p o kcov during i r = Done r' -> get p i = Some c ->
  exists x, rout r' = rout r ++ [x] /\
    (overlap p o i c = Done true /\ rctx r' = rctx r \/
     overlap p o i c = Done false /\ unfinished x = false /\ forall s, s ∉ copyout_slots width c ->
       rctx r' !! s = if decide (res c = Some s) then Some (as_u64 (ret x)) else rctx r !! s).
Proof using.
  unfold call_step. intros H Hc. rewrite Hc in H. cbn [or_panic mbind outcome_bind] in H.
  destruct (prepare_args (rctx r) width c (arena (rsys r))) as [[ar [vs cos]]| | |] eqn:Ep; try done. cbn [mbind outcome_bind] in H.
  apply prepare_values in Ep as [Eco _]. destruct (overlap p o i c) as [b| | |]; try done. cbn [mbind outcome_bind] in H.
  destruct b; [injection H as <-; eexists; split; [done|by left]|].
  destruct (exec_call _ _ _ _ _ _ _ _ _ _ _ _) as [[x [ps s]]| | |] eqn:Ex; try done. cbn [mbind outcome_bind] in H. injection H as <-.
  exists x. split; [done|]. right. split; [done|]. split.
  - unfold exec_call in Ex. destruct (await _ _ _ _ _ _) as [[[v e] [ps1 s1]]| | |]; try done. cbn [mbind outcome_bind] in Ex. by injection Ex as <- _ _.
  - intros q Hq. cbn [rctx]. rewrite copy_out_other by (by rewrite Eco). unfold set. destruct (res c) as [q'|].
    + case_decide as D; [injection D as ->; apply lookup_insert_eq|]. apply lookup_insert_ne. congruence.
    + by case_decide.
Qed.

(** The state of a producer's slot between its call and call [i]. *)
Definition published (slot j i : Z) (r : Run (W := W)) : Prop :=
  zlen (rout r) = i /\ (j < i -> exists x, get (rout r) j = Some x /\ unfinished x = false /\ rctx r !! slot = Some (as_u64 (ret x))).


Lemma call_step_published p o kcov during i i' j ci cj c slot r r' : call_step width ENOSYS EINTR dispatch p o kcov during i' r = Done r' ->
  get p i' = Some c -> get p i = Some ci -> get p j = Some cj -> j < i -> i' < i -> res cj = Some slot ->
  call_references ci slot = true -> (j <= i' -> slot ∉ copyout_slots width c /\ (j < i' -> res c <> Some slot)) ->
  published slot j i' r -> published slot j (i' + 1) r'.
Proof using.
  intros Hst Hc Hi Hj Hlt Hi' Hres Href Hq [Hz Hp]. destruct (call_step_publishes _ _ _ _ _ _ _ _ Hst Hc) as (x & Eo & Hx).
  split; [by rewrite Eo, zlen_app, Hz|]. intros Hji. rewrite Eo.
  destruct (decide (j = i')) as [->|Hne].
  - assert (c = cj) as -> by congruence. destruct (Hq ltac:(lia)) as [Hs _].
    destruct Hx as [[Hov _]|(_ & Hu & Hx)]; [by rewrite (overlap_unreferenced p o i' cj slot i ci) in Href|].
    exists x. rewrite <- Hz, <- (Z.add_0_r (zlen (rout r))), get_app_r by done. rewrite (Hx slot Hs), decide_True by done. done.
  - destruct (Hq ltac:(lia)) as [Hs Hn]. destruct Hp as (y & Hy & Hu & E); [lia|]. exists y. rewrite get_app_l by lia.
    split_and!; [done|done|]. destruct Hx as [[_ ->]|(_ & _ & Hx)]; [done|].
    rewrite (Hx slot Hs), decide_False by (apply Hn; lia). done.
Qed.

(** A run that stopped at the deadline has fewer results than iterations. *)
Lemma run_calls_published p o kcov started sched i j ci cj slot m i' r r' :
  run_calls width ENOSYS EINTR dispatch p o kcov started sched (seqZ i' (Z.of_nat m)) r = Done r' -> zlen (rout r') = i' + Z.of_nat m ->
  i' + Z.of_nat m = i -> 0 <= i' -> get p i = Some ci -> get p j = Some cj -> j < i -> res cj = Some slot ->
  call_references ci slot = true ->
  (forall k ck, j <= k < i -> get p k = Some ck -> slot ∉ copyout_slots width ck /\ (j < k -> res ck <> Some slot)) ->
  published slot j i' r -> published slot j i r'.
Proof using.
  intros Hrun Hz Hm H0 Hi Hj Hlt Hres Href Hq. revert i' r Hrun Hz Hm H0. induction m as [|m IH]; intros i' r Hrun Hz Hm H0 Hp.
  { injection Hrun as <-. by replace i with i' by lia. }
  rewrite Nat2Z.inj_succ, seqZ_cons in Hrun by lia. cbn [run_calls] in Hrun. rewrite Z.pred_succ in Hrun.
  destruct (wake_all ENOSYS (fst (sched i')) (rpending r) (rsys r)) as [ps s]. destruct (lift now s) as [t s'].
  destruct (_ <? _); [injection Hrun as <-; cbn [rout] in Hz; destruct Hp as [Hz' _]; lia|].
  destruct (call_step _ _ _ _ _ _ _ _ _ _) as [r1| | |] eqn:E; try done. cbn [mbind outcome_bind] in Hrun.
  destruct (proj2 (get_is_Some p i') ltac:(apply get_Some in Hi as [? _]; lia)) as [c Hc].
  eapply (IH (Z.succ i')); [done|lia|lia|lia|]. rewrite <- Z.add_1_r.
  eapply (call_step_published p o kcov (snd (sched i')) i i' j ci cj c slot); try done; [lia|]. intros Hji. apply (Hq i'); [lia|done].
Qed.

(** C15: A consumer sees its producer's return value, under every
    schedule.  In the state the executor has reached before call [i], after
    executing all earlier calls, a slot that call [i] reads, produced by call
    [j] and by no call between them, holds the return value that stands in
    [j]'s result, which is final; and each argument of call [i] that is a
    reference to the slot is that value, divided and offset as it asks. *)
Theorem consumer_sees_producer p o kcov started sched s i j ci cj slot r :
  run_calls width ENOSYS EINTR dispatch p o kcov started sched (seqZ 0 i) (MkRun ∅ [] [] s) = Done r -> zlen (rout r) = i ->
  get p i = Some ci -> get p j = Some cj -> j < i -> res cj = Some slot -> call_references ci slot = true ->
  (forall k ck, j <= k < i -> get p k = Some ck -> slot ∉ copyout_slots width ck /\ (j < k -> res ck <> Some slot)) ->
  exists x, get (rout r) j = Some x /\ unfinished x = false /\ rctx r !! slot = Some (as_u64 (ret x)) /\
    forall ar ar' vs cos n d a, prepare_args (rctx r) width ci ar = Done (ar', (vs, cos)) -> (n < MAX_ARGS)%nat ->
      args ci !! n = Some (Res slot d a) ->
      vs !! n = Some (as_i64 ((if negb (d =? 0) then as_u64 (ret x) / d else as_u64 (ret x)) +₆₄ a)).
Proof using.
  intros Hrun Hz Hi Hj Hlt Hres Href Hq. assert (0 <= i) as Hi0 by (apply get_Some in Hi as [? _]; lia).
  rewrite <- (Z2Nat.id i) in Hrun by done.
  assert (published slot j i r) as [_ Hp].
  { eapply (run_calls_published p o kcov started sched i j ci cj slot (Z.to_nat i) 0); try done; try lia.
    split; [done|]. apply get_Some in Hj as [? _]. lia. }
  destruct (Hp Hlt) as (x & Hx & Hu & Hc). exists x. split_and!; [done..|].
  intros ar ar' vs cos n d a Ep Hn Ha. apply prepare_values in Ep as [_ Hv]. rewrite (Hv n _ Hn Ha). cbn [scalar]. unfold resolve.
  by rewrite Hc.
Qed.

(** The watchdog of an overlapped call does not outlive the next
    call.  An iteration that runs its call in place leaves the process's one
    alarm timer disarmed, and every pending thread as it was unless the call
    slept meanwhile, also those already in their system call. *)
Theorem next_call_disarms_pending p o kcov during i c r r' : call_step width ENOSYS EINTR dispatch p o kcov during i r = Done r' -> get p i = Some c ->
  overlap p o i c = Done false -> alarm (rsys r') = 0 /\ (during = [] -> rpending r' = rpending r).
Proof using.
  unfold call_step. intros H Hc Ho. rewrite Hc in H. cbn [or_panic mbind outcome_bind] in H.
  destruct (prepare_args (rctx r) width c (arena (rsys r))) as [[ar [vs cos]]| | |]; try done. cbn [mbind outcome_bind] in H.
  rewrite Ho in H. cbn [mbind outcome_bind] in H. destruct (exec_call _ _ _ _ _ _ _ _ _ _ _ _) as [[x [ps s]]| | |] eqn:Ex; try done.
  cbn [mbind outcome_bind] in H. injection H as <-. cbn [rsys rpending]. unfold exec_call in Ex.
  destruct (await _ _ _ _ _ _) as [[[v e] [ps1 s1]]| | |] eqn:Ea; try done. cbn [mbind outcome_bind] in Ex. injection Ex as _ <- <-.
  split; [by destruct (fail_nth c)|]. intros ->. unfold await in Ea. cbn [wake_all foldl] in Ea.
  set (call := do_call _ _ _ _ _) in Ea. set (s0 := arm _ _) in Ea. clearbody call s0.
  destruct (call s0) as [[v' s']|]; [congruence|]. destruct (_ =? 0); [done|]. destruct (handler s0); congruence.
Qed.
End Flow.

(** * A concrete host

    A log of the system calls, the open descriptors and the mappings.  [pipe]
    (22) writes a descriptor to offset 64 of the arena; [read] (0) sleeps until a
    call of [write] (1) is in the log; every other call returns its number plus
    one hundred. *)

Record Host : Type := MkHost { h_log : list (Z * list Z); h_fds : gset Z; h_maps : gset Z }.

#[export] Instance host_kernel : Kernel Host :=
  {| sys_open _ w :=
       let fd := fresh (h_fds w) in
       if fd <? 0 then (-1, w) else (fd, MkHost (h_log w) ({[fd]} ∪ h_fds w) (h_maps w));
     sys_ioctl _ _ _ w := (0, w);
     sys_mmap _ _ w := let a := fresh (h_maps w) in (Some a, MkHost (h_log w) (h_fds w) ({[a]} ∪ h_maps w));
     sys_munmap a _ w := MkHost (h_log w) (h_fds w) (h_maps w ∖ {[a]});
     sys_close fd w := MkHost (h_log w) (h_fds w ∖ {[fd]}) (h_maps w);
     sys_getpid _ := 42;
     peek _ _ _ := 0;
     poke _ _ _ w := w;
     now w := (0, w);
     sys_sigaction w := w;
     write_file _ _ w := w;
     sys_alarm _ w := w;
     sys_syscall nr args m w :=
       if (nr =? 0) && negb (existsb (fun c => fst c =? 1) (h_log w)) then None else
       let w := MkHost (h_log w ++ [(nr, args)]) (h_fds w) (h_maps w) in
       if (nr =? 22) && (68 <=? zlen m) then Some ((0, 0), (blit m 64 [7; 0; 0; 0], w)) else Some ((100 + nr, 0), (m, w)) |}.

#[export] Instance host_fds : KernelFds Host.
Proof.
  refine {| fds := h_fds; maps := h_maps |}.
  - intros p w fd w'. cbn. destruct (fresh (h_fds w) <? 0) eqn:E; intros [= <- <-]; cbn; [done|].
    rewrite E. split_and!; [done|done|apply is_fresh].
  - by intros fd req a w r w' [= _ <-].
  - intros n fd w a w' [= <- <-]. cbn. split_and!; [done|done|apply is_fresh].
  - by intros.
  - by intros.
Defined.

#[export] Instance host_mem : KernelMem Host.
Proof.
  intros nr args m w v m' w' Hb. cbn. destruct (_ && negb _); [done|]. destruct ((nr =? 22) && (68 <=? zlen m)) eqn:E; intros [= _ <- _]; [|done].
  apply andb_prop in E as [_ E%Z.leb_le]. split.
  - apply bytes_blit; [done|]. repeat constructor; vm_compute; done.
  - apply zlen_blit; [lia|]. change (zlen [7; 0; 0; 0]) with 4. lia.
Qed.

Definition no_pseudo (c : Call) (args : list Z) (ar : Arena) (ctx : Ctx) (w : Host) : (Z * Z) * (list Z * Host) := ((-1, 38), (mem ar, w)).

(** [pipe2] with an [async] property, then [close] of the descriptor it made. *)
Definition demo_prog : Prog :=
  [MkCall (bs "pipe") (bs "pipe") (Some 22) [Ptr 64 (Some (Struct [Out 1 (Int 9)]))] None None true;
   MkCall (bs "close") (bs "close") (Some 3) [Res 1 0 0] None None false].
(** [dup] into a slot, then [close] of the slot; a call that is [async] between. *)
Definition demo_flow : Prog :=
  [MkCall (bs "dup") (bs "dup") (Some 32) [Int 5] (Some 1) None true;
   MkCall (bs "sync") (bs "sync") (Some 162) [] (Some 2) None true;
   MkCall (bs "close") (bs "close") (Some 3) [Res 1 0 0] None None false].
Definition demo_opts (threaded : bool) : Opts := MkOpts true threaded false (timeouts_new 1) 0.
Definition demo_sys : Sys Host := MkSys (MkHost [] ∅ ∅) (map_arena 128) 0 false.
Definition before (ns : list nat) : Z -> list nat * list nat := fun _ => (ns, []).
Definition demo_run (p : Prog) (threaded : bool) (sched : Z -> list nat * list nat) : outcome (ProgResult * (Prog * Sys Host)) :=
  run_prog 8 38 4 no_pseudo p (demo_opts threaded) sched demo_sys.
Definition demo_log (p : Prog) (threaded : bool) (sched : Z -> list nat * list nat) : option (list (Z * list Z)) :=
  match demo_run p threaded sched with Done (_, (_, s)) => Some (h_log (world s)) | _ => None end.

(** Run in place, [close] is given the descriptor [pipe] wrote; run overlapped,
    the copyout of [pipe] is never made and [close] is given -1. *)
Lemma async_copyout_lost :
  demo_log demo_prog false (before []) = Some [(22, [0x200000000040; 0; 0; 0; 0; 0]); (3, [7; 0; 0; 0; 0; 0])] /\
  demo_log demo_prog true (before []) = Some [(3, [-1; 0; 0; 0; 0; 0]); (22, [0x200000000040; 0; 0; 0; 0; 0])] /\
  demo_log demo_prog true (before [0; 0]%nat) = Some [(22, [0x200000000040; 0; 0; 0; 0; 0]); (3, [-1; 0; 0; 0; 0; 0])].
Proof. vm_compute. done. Qed.

Definition plain (nm : string) (n : Z) (async : bool) : Call := MkCall (bs nm) (bs nm) (Some n) [] None None async.
Definition demo_results (p : Prog) (threaded : bool) (sched : Z -> list nat * list nat) : outcome (list (Z * Z)) :=
  '(r, _) ← demo_run p threaded sched; Done ((fun x => (ret x, errno x)) <$> calls r).

(** A call that sleeps for ever is interrupted, and the run goes on. *)
Example sleep_interrupted : demo_results [plain "read" 0 false; plain "sync" 162 false] false (before []) = Done [(-1, 4); (262, 0)].
Proof. vm_compute. done. Qed.

(** One that an overlapped call wakes completes. *)
Example sleep_woken : demo_results [plain "write" 1 true; plain "read" 0 false] true (fun i => ([], if i =? 1 then [0; 0]%nat else [])) = Done [(101, 0); (100, 0)].
Proof. vm_compute. done. Qed.

(** A join of an overlapped call that sleeps never returns, with its watchdog
    armed: the signal goes to the main thread. *)
Lemma join_waits_for_ever : demo_results [plain "read" 0 true] true (before []) = Fuel.
Proof. vm_compute. done. Qed.

(** An overlapped call that returns while a call in place sleeps disarms the
    watchdog of that one, which then sleeps for ever. *)
Lemma pending_call_disarms :
  demo_results [plain "sync" 162 true; plain "read" 0 false] true (fun i => if i =? 1 then ([0]%nat, [0]%nat) else ([], [])) = Fuel.
Proof. vm_compute. done. Qed.

Lemma overlap_result_unobserved_witness :
  exists c ck, get demo_flow 1 = Some c /\ get demo_flow 2 = Some ck /\
    forall ctx v ar, prepare_args (set ctx 2 v) 8 ck ar = prepare_args ctx 8 ck ar.
Proof.
  eexists _, _. split_and!; [reflexivity|reflexivity|].
  eapply (overlap_result_unobserved demo_flow (demo_opts true) 1 _ 2 _ 2 8); [|reflexivity|reflexivity|lia|reflexivity]. vm_compute. reflexivity.
Defined.

Lemma kcov_balanced_witness :
  exists k w', kcov_open (world demo_sys) = (Some k, w') /\ fds w' = {[kfd k]} /\ fds (kcov_drop k w') = ∅ /\ maps (kcov_drop k w') = ∅.
Proof.
  destruct (kcov_open (world demo_sys)) as [k w'] eqn:E. pose proof (kcov_balanced _ _ _ _ _ E) as H.
  destruct k as [k|]; [|vm_compute in E; discriminate E]. exists k, w'. destruct H as (-> & _ & -> & ->).
  split_and!; [reflexivity| |reflexivity|reflexivity]. apply union_empty_r_L.
Defined.

Lemma no_pseudo_mem c args ar ctx w v m' w' : bytes_ok (mem ar) -> no_pseudo c args ar ctx w = (v, (m', w')) ->
  bytes_ok m' /\ zlen m' = zlen (mem ar).
Proof. intros Hb [= _ <- _]. done. Qed.

(** The second call sleeps; the watchdog ends it. *)
Definition demo_sleep : Prog := [plain "sync" 162 false; plain "read" 0 false; plain "sync" 162 true].


(** The state before the call [i] of [demo_flow], threads stepping by [sched]. *)
Definition demo_before (sched : Z -> list nat * list nat) (i : Z) : outcome (Run (W := Host)) :=
  run_calls 8 38 4 no_pseudo demo_flow (demo_opts true) None 0 sched (seqZ 0 i) (MkRun ∅ [] [] demo_sys).

Lemma consumer_sees_producer_witness :
  exists r x, demo_before (before [0]%nat) 2 = Done r /\ get (rout r) 0 = Some x /\ ret x = 132 /\ rctx r !! 1 = Some 132.
Proof.
  destruct (demo_before (before [0]%nat) 2) as [r| | |] eqn:E; [|vm_compute in E; discriminate E..].
  destruct (consumer_sees_producer 8 38 4 no_pseudo demo_flow (demo_opts true) None 0 (before [0]%nat) demo_sys 2 0
    (MkCall (bs "close") (bs "close") (Some 3) [Res 1 0 0] None None false)
    (MkCall (bs "dup") (bs "dup") (Some 32) [Int 5] (Some 1) None true) 1 r E) as (x & Hx & _ & Hc & _);
    [vm_compute in E; injection E as <-; reflexivity|reflexivity|reflexivity|lia|reflexivity|reflexivity| |].
  - intros k ck Hk Hck. assert (k = 0 \/ k = 1) as [-> | ->] by lia; injection Hck as <-; (split; [apply not_elem_of_nil|intros ?; (lia || discriminate)]).
  - exists r, x. split_and!; [reflexivity|exact Hx| |].
    + vm_compute in E. injection E as <-. by injection Hx as <-.
    + rewrite Hc. vm_compute in E. injection E as <-. by injection Hx as <-.
Defined.

(** The thread of [sync] is in its system call when [close] disarms the timer. *)
Lemma next_call_disarms_pending_witness :
  exists r r' j k, demo_before (fun i => (if i =? 2 then [0]%nat else [], [])) 2 = Done r /\
    call_step 8 38 4 no_pseudo demo_flow (demo_opts true) None [] 2 (let '(ps, s) := wake_all 38 [0%nat] (rpending r) (rsys r) in MkRun (rctx r) (rout r) ps s) = Done r' /\
    alarm (rsys r') = 0 /\ rpending r' = [(1, InCall j k)].
Proof.
  destruct (demo_before (fun i => (if i =? 2 then [0]%nat else [], [])) 2) as [r| | |] eqn:E; [|vm_compute in E; discriminate E..].
  destruct (call_step 8 38 4 no_pseudo demo_flow (demo_opts true) None [] 2
    (let '(ps, s) := wake_all 38 [0%nat] (rpending r) (rsys r) in MkRun (rctx r) (rout r) ps s)) as [r'| | |] eqn:E2;
    [|vm_compute in E; injection E as <-; vm_compute in E2; discriminate E2..].
  destruct (next_call_disarms_pending 8 38 4 no_pseudo demo_flow (demo_opts true) None [] 2
    (MkCall (bs "close") (bs "close") (Some 3) [Res 1 0 0] None None false) _ r' E2) as [H1 H2]; [reflexivity|reflexivity|].
  eexists r, r', _, _. split_and!; [reflexivity|exact E2|exact H1|]. rewrite (H2 eq_refl).
  vm_compute in E. injection E as <-. vm_compute. reflexivity.
Defined.
