(* ===== verification/CovLogs.v ===== *)
(** The coverage logs: the writers of fuzz/prog_exec.rs ([write_cover]),
    mode/kcov.rs and the preload shim, and the merges of per-task logs.

    Shown: what a writer logs is what the report reads, every address shifted
    onto its call site; [write_cover] leaves one file per call, the background
    file and the merged log, each with exactly its addresses; and merging
    per-task logs, also ones cut in the middle of a line, neither loses nor
    glues addresses: the merged file reads as its parts do. *)
From S2P Require Import Prelude Text Syscalls ReportLog ProgExec.

(** * Lines of addresses *)

(** [writeln!(f, "0x{:x}", previous_instruction_pc(pc))] for each address. *)
Definition cover_lines (arch : Arch) (pcs : list Z) : list Z :=
  concat ((fun pc => fmt_pc_line (previous_instruction_pc arch pc)) <$> pcs).

(** * [write_cover] *)

Section WriteCover.
Context {Fs : Type}.
(** Creating, filling and flushing a file; [false] when any of it fails. *)
Context (store : list Z -> list Z -> Fs -> Fs * bool).

Definition cover_path (prefix suffix : list Z) : list Z := prefix ++ bs "_prog1." ++ suffix.

(** One file, or the early return of [?]. *)
Definition put (path bytes : list Z) (fs : Fs) : outcome Fs :=
  let '(fs, ok) := store path bytes fs in if ok : bool then Done fs else Fail.

Definition write_cover (arch : Arch) (results : list CallResult) (extra_cover prefix : list Z) (fs : Fs) : outcome (Fs * Z) :=
  '(fs, merged) ← fold_m
    (fun (st : Fs * list Z) r =>
       fs ← put (cover_path prefix (fmt_dec (index r))) (cover_lines arch (cover r)) (fst st);
       Done (fs, snd st ++ cover r)) results (fs, []);
  fs ← put (cover_path prefix (bs "extra")) (cover_lines arch extra_cover) fs;
  let merged := dedup (sort_u64 (previous_instruction_pc arch <$> (merged ++ extra_cover))) in
  fs ← put (bs "kerncov.log") (concat (fmt_pc_line <$> merged)) fs;
  Done (fs, zlen merged).
End WriteCover.

(** * Merging per-task logs *)

(** The data of one log, with the newline a cut log lacks. *)
Definition terminated (data : list Z) : list Z :=
  match last data with Some 10 | None => data | Some _ => data ++ [10] end.

Definition is_tid_log (name : list Z) : bool :=
  (starts_with (bs "local-") name || starts_with (bs "remote-") name) &&
  match find_sub (bs ".log") name with Some _ => true | None => false end.

(** A directory listing: names, with the data of the files that can be read. *)
Definition Dir : Type := list (list Z * option (list Z)).

Definition tid_logs (d : Dir) : Dir := filter (fun e => is_tid_log (fst e) = true) d.

(** The bytes [merge_logs] and [merge_tid_logs] give kerncov.log. *)
Definition merge_logs (d : Dir) : list Z :=
  concat ((fun e => match snd e with Some data => terminated data | None => [] end) <$> tid_logs d).

(** [append_parent_remote_log] on the bytes of kerncov.log. *)
Definition append_parent_remote_log (remote : option (list Z)) (merged : list Z) : list Z :=
  match remote with
  | Some (c :: t) => merged ++ terminated (c :: t)
  | _ => merged
  end.

(** The inputs of the streamed report: the per-task logs and, when it is not
    empty, the parent's remote log. *)
Definition report_parts (d : Dir) (remote : option (list Z)) : list (option (list Z)) :=
  (snd <$> tid_logs d) ++ match remote with Some (c :: t) => [Some (c :: t)] | _ => [] end.

(** The task id in the name of an ordered log:
    [&name["local-".len()..name.find(".log").unwrap()]] *)
Definition log_tid (name : list Z) : outcome (list Z) :=
  e ← or_panic (find_sub (bs ".log") name); or_panic (slice name 6 e).

(** * The remote handle and the context option *)

Definition kcov_handle (subsys inst : Z) : Z := Z.lor subsys (Z.land inst 0xffffffff).

(** The value of VOCK_KCOV_COMMON_HANDLE, when it is set and is UTF-8. *)
Definition common_handle_override (raw : option (list Z)) : option Z :=
  raw ← raw;
  let v := trim raw in
  let parsed :=
    match (match strip_prefix (bs "0x") v with Some hex => Some hex | None => strip_prefix (bs "0X") v end) with
    | Some hex => from_str_radix_u64 hex 16
    | None => parse_u64 v
    end in
  match parsed with Some h => if negb (h =? 0) then Some h else None | None => None end.

Definition ctx (v : Z) : Z := if 0 <=? v then v else 3.

(** * Reading what was written *)

Lemma previous_pc_range arch pc : is_u64 (previous_instruction_pc arch pc).
Proof. apply as_u64_range. Qed.

Lemma pc_shift_roundtrip arch pc : is_u64 pc -> next_instruction_pc arch (previous_instruction_pc arch pc) = pc.
Proof.
  unfold is_u64, next_instruction_pc, previous_instruction_pc, as_u64. intros H.
  rewrite Zplus_mod_idemp_l. replace (_ - _ + _) with pc by lia. apply Z.mod_small. lia.
Qed.

Lemma not_blank_hex n : Forall (fun c => is_blank c = false) (bs "0x" ++ fmt_hex n).
Proof.
  apply Forall_app. split; [repeat constructor|]. eapply Forall_impl; [apply fmt_hex_alnum|]. intros c Hc. unfold is_blank.
  cbv beta in *. rewrite !(proj2 (Z.eqb_neq _ _)) by lia. done.
Qed.

Lemma parse_line_pc pc : is_u64 pc -> parse_line (bs "0x" ++ fmt_hex pc) = Some pc.
Proof.
  intros Hpc. unfold parse_line. change (skip_blank (bs "0x" ++ ?l)) with (bs "0x" ++ l).
  assert (position is_blank (bs "0x" ++ fmt_hex pc) = None) as ->.
  { pose proof (not_blank_hex pc) as H. induction H as [|c l Hc _ IH]; [done|]. cbn [position]. by rewrite Hc, IH. }
  change (strip_prefix (bs "0x") (bs "0x" ++ ?l)) with (Some l). exact (parse_hex_fmt pc Hpc).
Qed.

Lemma parse_pc_line pc rest : is_u64 pc -> parse_pcs (fmt_pc_line pc ++ rest) = pc :: parse_pcs rest.
Proof.
  intros Hpc. unfold fmt_pc_line. rewrite (app_assoc (bs "0x")), parse_pcs_line. unfold parse_pcs at 1.
  rewrite split_on_none; [cbn [omap list_omap]; by rewrite (parse_line_pc pc Hpc)|].
  intros Hin. assert (Forall graph (bs "0x" ++ fmt_hex pc)) as H.
  { apply Forall_app. split; [repeat constructor; unfold graph; vm_compute; intuition discriminate|].
    apply alnum_graph, fmt_hex_alnum. }
  rewrite Forall_forall in H. specialize (H _ Hin). unfold graph in H. lia.
Qed.

Lemma parse_pc_lines pcs : Forall is_u64 pcs -> parse_pcs (concat (fmt_pc_line <$> pcs)) = pcs.
Proof.
  induction 1 as [|pc pcs Hpc _ IH]; [done|]. cbn [fmap list_fmap concat]. by rewrite parse_pc_line, IH.
Qed.

Lemma parse_cover_lines arch pcs : parse_pcs (cover_lines arch pcs) = previous_instruction_pc arch <$> pcs.
Proof.
  unfold cover_lines. assert ((fun pc => fmt_pc_line (previous_instruction_pc arch pc)) <$> pcs =
    fmt_pc_line <$> (previous_instruction_pc arch <$> pcs)) as -> by (by rewrite <- list_fmap_compose).
  apply parse_pc_lines.
  apply Forall_fmap, Forall_forall. intros pc _. apply previous_pc_range.
Qed.

(** * The files of [write_cover] *)

Lemma fmt_dec_digits n : is_u64 n -> fmt_dec n <> bs "extra".
Proof. intros Hn E. pose proof (parse_u64_fmt_dec n Hn) as H. rewrite E in H. discriminate H. Qed.

Lemma fmt_dec_inj n m : is_u64 n -> is_u64 m -> fmt_dec n = fmt_dec m -> n = m.
Proof. intros Hn Hm E. pose proof (parse_u64_fmt_dec n Hn) as H. rewrite E, parse_u64_fmt_dec in H by done. by injection H. Qed.

Lemma cover_path_inj prefix a b : cover_path prefix a = cover_path prefix b -> a = b.
Proof. unfold cover_path. by intros H%app_inv_head%app_inv_head. Qed.

Lemma cover_path_log prefix a : cover_path prefix a <> bs "kerncov.log".
Proof.
  intros E. assert (95 ∈ bs "kerncov.log") as H.
  { rewrite <- E. unfold cover_path. apply elem_of_app. right. apply elem_of_app. left. by left. }
  revert H. apply (bool_decide_unpack (95 ∉ bs "kerncov.log")). vm_compute. exact I.
Qed.

Section WriteCoverSpec.
Context (store : list Z -> list Z -> gmap (list Z) (list Z) -> gmap (list Z) (list Z) * bool).
(** A file that was created, filled and flushed has the bytes it was given,
    and no other file changed. *)
Context (store_ok : forall path bytes fs fs', store path bytes fs = (fs', true) -> fs' = <[path := bytes]> fs).

Lemma put_Done path bytes fs fs' : put store path bytes fs = Done fs' -> fs' = <[path := bytes]> fs.
Proof using store_ok. unfold put. destruct (store path bytes fs) as [f []] eqn:E; [|done]. intros [= <-]. by apply store_ok. Qed.

(** The per-call files. *)
Lemma put_calls arch prefix results fs merged fs' merged' :
  Forall (fun r => is_u64 (index r)) results -> NoDup (index <$> results) ->
  fold_m (fun (st : gmap (list Z) (list Z) * list Z) r =>
       fs ← put store (cover_path prefix (fmt_dec (index r))) (cover_lines arch (cover r)) (fst st);
       Done (fs, snd st ++ cover r)) results (fs, merged) = Done (fs', merged') ->
  merged' = merged ++ concat (cover <$> results) /\
  (forall r, r ∈ results -> fs' !! cover_path prefix (fmt_dec (index r)) = Some (cover_lines arch (cover r))) /\
  (forall p, (forall r, r ∈ results -> p <> cover_path prefix (fmt_dec (index r))) -> fs' !! p = fs !! p).
Proof using store_ok.
  revert fs merged. induction results as [|r results IH]; intros fs merged Hu Hnd; cbn [fold_m].
  { intros [= <- <-]. rewrite app_nil_r. split_and!; [done|by intros r Hr%elem_of_nil|done]. }
  destruct (put store _ _ _) as [fs1| | |] eqn:E; try done. cbn [mbind outcome_bind fst snd]. intros H.
  rewrite fmap_cons in Hnd. apply NoDup_cons in Hnd as [Hni Hnd]. apply put_Done in E as ->.
  inversion Hu as [|? ? Hr Hu']; subst. destruct (IH _ _ Hu' Hnd H) as (-> & H1 & H2). split_and!.
  - cbn [fmap list_fmap concat]. by rewrite <- app_assoc.
  - intros q [->|Hq]%elem_of_cons; [|by apply H1]. rewrite H2; [apply lookup_insert_eq|].
    intros q Hq E%cover_path_inj. apply Hni. apply list_elem_of_fmap. exists q. split; [|done].
    rewrite Forall_forall in Hu'. apply fmt_dec_inj; [done|by apply Hu'|done].
  - intros p Hp. rewrite H2; [apply lookup_insert_ne; symmetry; apply Hp; left|]. intros q Hq. apply Hp. by right.
Qed.

(** C18: What [write_cover] leaves.  When it returns, the file of each
    call reads as the call's addresses shifted onto their call sites, in order;
    the background file as the background addresses; and kerncov.log, which it
    counts, as the strictly sorted list of the shifted addresses of all calls
    and of the background; every other file is as it was. *)
Theorem write_cover_files arch results extra_cover prefix fs fs' n :
  Forall (fun r => is_u64 (index r)) results -> NoDup (index <$> results) ->
  write_cover store arch results extra_cover prefix fs = Done (fs', n) ->
  let shift := previous_instruction_pc arch in
  (forall r, r ∈ results -> exists data, fs' !! cover_path prefix (fmt_dec (index r)) = Some data /\ parse_pcs data = shift <$> cover r) /\
  (exists data, fs' !! cover_path prefix (bs "extra") = Some data /\ parse_pcs data = shift <$> extra_cover) /\
  (exists data, fs' !! bs "kerncov.log" = Some data /\ StronglySorted Z.lt (parse_pcs data) /\ n = zlen (parse_pcs data) /\
     forall pc, pc ∈ parse_pcs data <-> pc ∈ shift <$> concat (cover <$> results) ++ extra_cover) /\
  forall p, p <> bs "kerncov.log" -> (forall s, p <> cover_path prefix s) -> fs' !! p = fs !! p.
Proof using store_ok.
  intros Hu Hnd. unfold write_cover.
  destruct (fold_m _ results (fs, [])) as [[fs1 merged]| | |] eqn:E; try done. cbn [mbind outcome_bind].
  apply put_calls in E as (-> & H1 & H2); [|done|done]. cbn [app].
  destruct (put store (cover_path prefix (bs "extra")) _ fs1) as [fs2| | |] eqn:E2; try done. cbn [mbind outcome_bind].
  apply put_Done in E2 as ->. set (m := dedup _).
  destruct (put store (bs "kerncov.log") _ _) as [fs3| | |] eqn:E3; try done. cbn [mbind outcome_bind].
  apply put_Done in E3 as ->. intros [= <- <-]. set (shift := previous_instruction_pc arch) in *.
  assert (parse_pcs (concat (fmt_pc_line <$> m)) = m) as Hm.
  { apply parse_pc_lines, Forall_forall. intros pc Hpc. unfold m in Hpc. rewrite elem_of_dedup, sort_u64_perm in Hpc.
    apply list_elem_of_fmap in Hpc as (y & -> & _). apply previous_pc_range. }
  split_and!.
  - intros r Hr. eexists. rewrite lookup_insert_ne by (intros E; symmetry in E; by apply cover_path_log in E).
    rewrite lookup_insert_ne; [rewrite (H1 r Hr); split; [done|apply parse_cover_lines]|].
    intros E%cover_path_inj. rewrite Forall_forall in Hu. symmetry in E. by apply fmt_dec_digits in E; [|apply Hu].
  - eexists. rewrite lookup_insert_ne by (intros E; symmetry in E; by apply cover_path_log in E).
    rewrite lookup_insert_eq. split; [done|apply parse_cover_lines].
  - eexists. rewrite lookup_insert_eq. split; [done|]. rewrite Hm. split_and!; [apply dedup_sorted, sort_u64_sorted|done|].
    intros pc. unfold m. by rewrite elem_of_dedup, sort_u64_perm.
  - intros p Hp1 Hp2. rewrite lookup_insert_ne by (intros E; by apply Hp1).
    rewrite lookup_insert_ne by (intros E; by apply (Hp2 (bs "extra"))). apply H2. intros r _. apply Hp2.
Qed.
End WriteCoverSpec.

Definition ram_store (p b : list Z) (fs : gmap (list Z) (list Z)) : gmap (list Z) (list Z) * bool := (<[p := b]> fs, true).

Lemma write_cover_files_witness :
  exists fs' n data, write_cover ram_store X86_64 [MkCallResult 0 (bs "read") 3 0 [0x20; 0x10] false] [0x10] (bs "t") ∅ = Done (fs', n) /\
    fs' !! bs "kerncov.log" = Some data /\ parse_pcs data = [0xf; 0x1f].
Proof.
  destruct (write_cover ram_store X86_64 [MkCallResult 0 (bs "read") 3 0 [0x20; 0x10] false] [0x10] (bs "t") ∅) as [[fs' n]| | |] eqn:E;
    [|vm_compute in E; discriminate E..].
  destruct (write_cover_files ram_store ltac:(by intros p b f f' [= <-]) X86_64
    [MkCallResult 0 (bs "read") 3 0 [0x20; 0x10] false] [0x10] (bs "t") ∅ fs' n ltac:(repeat constructor; vm_compute; done)
    ltac:(repeat constructor; set_solver) E) as (_ & _ & (data & Hd & _) & _).
  exists fs', n, data. split_and!; [done|done|]. vm_compute in E. injection E as <- _. vm_compute in Hd. injection Hd as <-. reflexivity.
Defined.

(** * Merging *)

Lemma parse_terminated data rest : parse_pcs (terminated data ++ rest) = parse_pcs data ++ parse_pcs rest.
Proof.
  unfold terminated. destruct data as [|c data _] using rev_ind; [done|]. rewrite last_snoc.
  destruct (decide (c = 10)) as [->|Hc].
  - rewrite parse_pcs_line. rewrite <- (app_nil_r (data ++ [10])) at 1. by rewrite parse_pcs_line, app_nil_r.
  - assert (match c with 10 => data ++ [c] | _ => (data ++ [c]) ++ [10] end = (data ++ [c]) ++ [10]) as ->.
    { repeat case_match; congruence. }
    apply parse_pcs_line.
Qed.

Lemma parse_merged (d : Dir) rest :
  parse_pcs (concat ((fun e => match snd e with Some data => terminated data | None => [] end) <$> d) ++ rest) =
  read_all_pcs (snd <$> d) ++ parse_pcs rest.
Proof.
  unfold read_all_pcs. induction d as [|[n [data|]] d IH]; cbn [fmap list_fmap concat snd]; [done| |done].
  rewrite <- app_assoc, parse_terminated, IH. by rewrite app_assoc.
Qed.

(** The merged log reads as its parts.  Whatever the per-task logs and
    the remote log hold, also a line cut short by a killed task, and whichever
    cannot be read, the log the --btf report reads, merged and then extended by
    the remote log, gives the same addresses in the same order as the parts the
    source report is given. *)
Theorem merged_reads_as_parts (d : Dir) (remote : option (list Z)) :
  parse_pcs (append_parent_remote_log remote (merge_logs d)) = read_all_pcs (report_parts d remote).
Proof.
  unfold merge_logs, report_parts, append_parent_remote_log. destruct remote as [[|c t]|].
  - rewrite app_nil_r. rewrite <- (app_nil_r (concat _)), parse_merged. apply app_nil_r.
  - rewrite parse_merged. rewrite <- (app_nil_r (terminated _)), parse_terminated. unfold read_all_pcs.
    rewrite fmap_app, concat_app. cbn. done.
  - rewrite app_nil_r. rewrite <- (app_nil_r (concat _)), parse_merged. apply app_nil_r.
Qed.

(** The task id of an ordered log is a slice of its name in range. *)
Lemma find_log_past s r : Forall (fun c => c <> 46) s -> find_sub (bs ".log") (s ++ r) = (fun n => zlen s + n) <$> find_sub (bs ".log") r.
Proof.
  induction 1 as [|c s Hc _ IH]; [cbn [app]; by destruct (find_sub _ r)|]. cbn [app find_sub].
  assert (starts_with (bs ".log") (c :: s ++ r) = false) as ->.
  { unfold starts_with. cbn [strip_prefix bs]. vm_compute (bs ".log"). cbn [strip_prefix].
    by rewrite (proj2 (Z.eqb_neq 46 c)) by congruence. }
  rewrite IH. destruct (find_sub (bs ".log") r) as [n|]; [|done]. cbn. f_equal. rewrite zlen_cons. lia.
Qed.

Lemma log_tid_total name : is_tid_log name = true -> starts_with (bs "local-") name = true ->
  exists tid rest, log_tid name = Done tid /\ name = bs "local-" ++ tid ++ bs ".log" ++ rest.
Proof.
  intros Hl Hs. unfold is_tid_log in Hl. apply andb_prop in Hl as [_ Hl]. unfold log_tid.
  apply starts_with_iff in Hs as [r ->]. rewrite find_log_past in * by (apply (bool_decide_unpack _); vm_compute; exact I).
  destruct (find_sub (bs ".log") r) as [e|] eqn:E; [|done]. cbn [fmap option_fmap option_map or_panic mbind outcome_bind].
  apply find_sub_Some in E as (tid & rest & -> & <- & _). exists tid, rest. split; [|done].
  change (zlen (bs "local-")) with 6. assert (slice (bs "local-" ++ tid ++ bs ".log" ++ rest) 6 (6 + zlen tid) = Some tid) as ->; [|done].
  apply slice_Some. change (Z.to_nat 6) with (length (bs "local-")). rewrite drop_app_length.
  rewrite !zlen_app. change (zlen (bs "local-")) with 6. pose proof (zlen_nonneg tid). pose proof (zlen_nonneg rest). pose proof (zlen_nonneg (bs ".log")).
  split_and!; try lia. replace (Z.to_nat (6 + zlen tid - 6)) with (length tid) by (unfold zlen; lia). by rewrite take_app_length.
Qed.

Lemma handle_roundtrip h : is_u64 h -> h <> 0 -> common_handle_override (Some (bs "0x" ++ fmt_hex h)) = Some h.
Proof.
  intros Hh H0. unfold common_handle_override. cbn [mbind option_bind]. rewrite trim_alnum.
  - rewrite strip_prefix_app, from_str_radix_fmt_hex by done. by rewrite (proj2 (Z.eqb_neq h 0)).
  - apply Forall_app. split; [repeat constructor; vm_compute; intuition discriminate|apply fmt_hex_alnum].
Qed.

Lemma handle_nonzero raw h : common_handle_override raw = Some h -> is_u64 h /\ h <> 0.
Proof.
  unfold common_handle_override. destruct raw as [raw|]; [|done]. cbn [mbind option_bind].
  set (p := match _ with Some hex => from_str_radix_u64 hex 16 | None => parse_u64 (trim raw) end).
  destruct p as [v|] eqn:E; [|done]. destruct (Z.eqb_spec v 0); [done|]. intros [= <-]. split; [|done].
  unfold p in E. destruct (match strip_prefix _ _ with Some _ => _ | None => _ end); (eapply from_str_radix_range; [|exact E]; done).
Qed.
