(* ===== verification/KcovShim.v ===== *)
(** kcov-preload/src/lib.rs: the preload shim that gives every task of a target
    its own coverage buffers and flushes them when the task ends.

    [Tls] is the thread-local state, [Proc] the process's statics.  The hooks
    (constructor, fork, exec, thread entry, the ways out of a task) are
    functions on them and on the host, an instance of [Kernel] and of
    [ShimHost].  Standard error is not modelled.

    Shown: whatever order a task's hooks run in, each of its areas is one mapped
    from its descriptor; flushing twice is flushing once, so a task's addresses
    are logged exactly once by each of its ways out, also when the destructor of
    the image follows, which then merges the logs; the log gains exactly the
    addresses of the buffers, shifted; and the shim leaks no descriptor.  (The C
    library clears the value of the destructor's key before it runs it; [TSD]
    stays set, which a task that ends does not notice.) *)
From S2P Require Import Prelude Text Syscalls ReportLog ProgExec CovLogs.

Class ShimHost (W : Type) : Type :=
  { gettid : W -> Z;
    getpid : W -> Z;
    host_errno : W -> Z;
    fcntl_dupfd : Z -> Z -> W -> Z * W;                   (* fd, least new fd *)
    proc_self_fd : W -> list (list Z * option (list Z));  (* names and link targets; [] when unreadable *)
    append_file : list Z -> list Z -> W -> W;             (* create or append, errors ignored *)
    create_file : list Z -> list Z -> W -> W;
    read_dir : W -> option Dir;
    no_merge : W -> bool }.                               (* VOCK_NO_MERGE is set *)

Record Tls : Type := MkTls
  { LOCAL_FD : Z; LOCAL_AREA : option Z; REMOTE_FD : Z; REMOTE_AREA : option Z; KCOV_TID : Z; TSD : bool }.

Record Proc : Type := MkProc { INITIAL_PID : Z; TSD_READY : bool }.

Definition tls_init : Tls := MkTls (-1) None (-1) None 0 false.

Definition with_tid (t : Tls) (tid : Z) : Tls := MkTls (LOCAL_FD t) (LOCAL_AREA t) (REMOTE_FD t) (REMOTE_AREA t) tid (TSD t).
Definition with_local (t : Tls) (fd : Z) (a : option Z) : Tls := MkTls fd a (REMOTE_FD t) (REMOTE_AREA t) (KCOV_TID t) (TSD t).
Definition with_remote (t : Tls) (fd : Z) (a : option Z) : Tls := MkTls (LOCAL_FD t) (LOCAL_AREA t) fd a (KCOV_TID t) (TSD t).
Definition with_tsd (t : Tls) : Tls := MkTls (LOCAL_FD t) (LOCAL_AREA t) (REMOTE_FD t) (REMOTE_AREA t) (KCOV_TID t) true.

Section Shim.
Context {W : Type} `{!Kernel W} `{!ShimHost W}.
Context (arch : Arch) (EBUSY : Z).

Definition raise_fd (fd : Z) (w : W) : Z * W :=
  let '(high, w) := fcntl_dupfd fd 700 w in if high <? 0 then (fd, w) else (high, sys_close fd w).

Definition map_area (fd : Z) (w : W) : option Z * W := sys_mmap area_bytes fd w.

Definition fds_pointing_at (link_target : list Z) (skip : Z) (w : W) : list Z :=
  omap (fun e => fd ← parse_i32 (fst e);
                 if fd =? skip then None
                 else link ← snd e; if bytes_eqb link link_target then Some fd else None) (proc_self_fd w).

Definition local_log (tid : Z) : list Z := bs "local-" ++ fmt_i32 tid ++ bs ".log".
Definition remote_log (tid : Z) : list Z := bs "remote-" ++ fmt_i32 tid ++ bs ".log".

Definition write_coverage (path : list Z) (a : option Z) (fd : Z) (w : W) : W :=
  match a with
  | Some a =>
      if fd <? 0 then w else
      let '(_, w) := sys_ioctl fd KCOV_DISABLE (IoWord 0) w in
      let n := peek a 0 w in
      let w := append_file path (cover_lines arch ((fun i => peek a (i + 1) w) <$> seqZ 0 n)) w in
      sys_close fd (sys_munmap a area_bytes w)
  | None => w
  end.

(** One descriptor of [recover_stale_kcov]. *)
Definition recover_one (tid : Z) (st : bool * W) (fd : Z) : bool * W :=
  let '(recovered, w) := st in
  let '(r, w) := sys_ioctl fd KCOV_DISABLE (IoWord 0) w in
  if negb (r =? 0) then (recovered, w) else
  let '(a, w) := map_area fd w in
  match a with
  | None => (true, sys_close fd w)
  | Some a => (true, write_coverage (local_log tid) (Some a) fd w)
  end.
Definition recover_stale_kcov (skip tid : Z) (w : W) : bool * W :=
  foldl (recover_one tid) (false, w) (fds_pointing_at kcov_path skip w).

(** Remote coverage, the second half of [kcov_enable]. *)
Definition enable_remote (t : Tls) (w : W) : Tls * W :=
  let '(fd, w) := sys_open kcov_path w in
  if fd <? 0 then (t, w) else
  let '(fd, w) := raise_fd fd w in
  let '(r, w) := sys_ioctl fd KCOV_INIT_TRACE (IoWord COVER_SIZE) w in
  if negb (r =? 0) then (t, sys_close fd w) else
  let '(a, w) := map_area fd w in
  match a with
  | None => (t, sys_close fd w)
  | Some a =>
      let arg := MkKcovRemoteArg (as_u32 KCOV_TRACE_PC) (as_u32 COVER_SIZE) 0 (kcov_handle 0 (as_u64 (KCOV_TID t))) in
      let '(r, w) := sys_ioctl fd KCOV_REMOTE_ENABLE (IoRemote arg) w in
      if negb (r =? 0) then (t, sys_close fd (sys_munmap a area_bytes w))
      else (with_remote t fd (Some a), poke a 0 0 w)
  end.

(** [KCOV_ENABLE], once more after a stale instance was reclaimed. *)
Definition arm_local (fd tid : Z) (w : W) : bool * W :=
  let '(r, w) := sys_ioctl fd KCOV_ENABLE (IoWord KCOV_TRACE_PC) w in
  if r =? 0 then (true, w) else
  if host_errno w =? EBUSY then
    let '(recovered, w) := recover_stale_kcov fd tid w in
    if recovered : bool then let '(r, w) := sys_ioctl fd KCOV_ENABLE (IoWord KCOV_TRACE_PC) w in (r =? 0, w) else (false, w)
  else (false, w).

Definition kcov_enable (p : Proc) (t : Tls) (w : W) : Tls * W :=
  let tid := gettid w in
  let t := with_tid t tid in
  let '(fd, w) := sys_open kcov_path w in
  if fd <? 0 then (t, w) else
  let '(fd, w) := raise_fd fd w in
  let '(r, w) := sys_ioctl fd KCOV_INIT_TRACE (IoWord COVER_SIZE) w in
  if negb (r =? 0) then (t, sys_close fd w) else
  let '(a, w) := map_area fd w in
  match a with
  | None => (t, sys_close fd w)
  | Some a =>
      let '(armed, w) := arm_local fd tid w in
      if negb armed then (t, sys_close fd (sys_munmap a area_bytes w)) else
      let w := poke a 0 0 w in
      let t := with_local t fd (Some a) in
      let t := if TSD_READY p then with_tsd t else t in
      enable_remote t w
  end.

Definition kcov_disable (t : Tls) (w : W) : Tls * W :=
  let w := write_coverage (local_log (KCOV_TID t)) (LOCAL_AREA t) (LOCAL_FD t) w in
  let w := write_coverage (remote_log (KCOV_TID t)) (REMOTE_AREA t) (REMOTE_FD t) w in
  (with_remote (with_local t (-1) None) (-1) None, w).

Definition kcov_child_reinit (p : Proc) (t : Tls) (w : W) : Tls * W :=
  let w := if 0 <=? LOCAL_FD t then sys_close (LOCAL_FD t) w else w in
  let w := if 0 <=? REMOTE_FD t then sys_close (REMOTE_FD t) w else w in
  kcov_enable p (with_remote (with_local t (-1) None) (-1) None) w.

(** * Hooks *)

(** The interposed [fork] and [vfork], after the real call returned [pid]. *)
Definition fork_hook (p : Proc) (pid : Z) (t : Tls) (w : W) : Tls * W :=
  if pid =? 0 then kcov_child_reinit p t w else (t, w).

(** [daemon], after the real call; [before] is the process id before it. *)
Definition daemon_hook (p : Proc) (before ret : Z) (t : Tls) (w : W) : Tls * W :=
  if (ret =? 0) && negb (getpid w =? before) then kcov_child_reinit p t w else (t, w).

(** The [exec] family: before the real call, and after it when it failed. *)
Definition exec_before (t : Tls) (w : W) : Tls * W := kcov_disable t w.
Definition exec_failed (p : Proc) (t : Tls) (w : W) : Tls * W := kcov_enable p t w.

(** The destructor of the thread-specific key: run when its value is set. *)
Definition kcov_thread_dtor (t : Tls) (w : W) : Tls * W := if TSD t then kcov_disable t w else (t, w).

(** [kcov_ctor]; [key_ok] is whether the key could be created. *)
Definition kcov_ctor (key_ok : bool) (t : Tls) (w : W) : Proc * (Tls * W) :=
  let p := MkProc (getpid w) key_ok in (p, kcov_enable p t w).

Definition merge_into (w : W) : W :=
  create_file (bs "kerncov.log") (match read_dir w with Some d => merge_logs d | None => [] end) w.

Definition kcov_dtor (p : Proc) (t : Tls) (w : W) : Tls * W :=
  let '(t, w) := kcov_disable t w in
  if negb (getpid w =? INITIAL_PID p) then (t, w)
  else if no_merge w then (t, w) else (t, merge_into w).

End Shim.

(** * A task's hooks *)

(** What can happen to a task between its start and its end.  [HExec] is an
    [exec] whose real call failed; the host state changes arbitrarily between
    hooks, the real calls and the target's own work being in between. *)
Inductive hook : Type :=
  | HFork (pid : Z)
  | HDaemon (before ret : Z)
  | HExec
  | HFlush                            (* [_exit], or the return of a start routine *)
  | HThreadDtor
  | HDtor.

Section Hooks.
Context {W : Type} `{!Kernel W} `{!ShimHost W}.
Context (arch : Arch) (EBUSY : Z).

(** A hook on the state [w] the host is in when it runs; [w2] is the state the
    real call of an [exec] left. *)
Definition run_hook (p : Proc) (h : hook) (t : Tls) (w w2 : W) : Tls * W :=
  match h with
  | HFork pid => fork_hook arch EBUSY p pid t w
  | HDaemon before ret => daemon_hook arch EBUSY p before ret t w
  | HExec => exec_failed arch EBUSY p (fst (exec_before arch t w)) w2
  | HFlush => kcov_disable arch t w
  | HThreadDtor => kcov_thread_dtor arch t w
  | HDtor => kcov_dtor arch p t w
  end.

(** A task: the constructor or a thread's start, then hooks in any order. *)
Inductive task (p : Proc) : Tls -> Prop :=
  | Task_start t w w' : kcov_enable arch EBUSY p tls_init w = (t, w') -> task p t
  | Task_hook h t w w2 t' w' : task p t -> run_hook p h t w w2 = (t', w') -> task p t'.

(** The area [a] is one that mapping the descriptor [fd] gave. *)
Definition mapped_from (fd a : Z) : Prop := exists w w' : W, sys_mmap area_bytes fd w = (Some a, w').

(** A descriptor and its area come and go together, remote coverage is there
    only with local coverage, and what is there will be flushed on exit. *)
Definition pair_ok (fd : Z) (a : option Z) : Prop := fd = -1 /\ a = None \/ 0 <= fd /\ exists b, a = Some b /\ mapped_from fd b.
Record tls_ok (p : Proc) (t : Tls) : Prop := TlsOk
  { ok_local : pair_ok (LOCAL_FD t) (LOCAL_AREA t);
    ok_remote : pair_ok (REMOTE_FD t) (REMOTE_AREA t);
    ok_order : 0 <= REMOTE_FD t -> 0 <= LOCAL_FD t;
    ok_dtor : 0 <= LOCAL_FD t -> TSD_READY p = true -> TSD t = true }.

Definition cleared (t : Tls) : Prop := LOCAL_FD t = -1 /\ LOCAL_AREA t = None /\ REMOTE_FD t = -1 /\ REMOTE_AREA t = None.

Lemma cleared_ok p t : cleared t -> tls_ok p t.
Proof using. intros (H1 & H2 & H3 & H4). constructor; rewrite ?H1, ?H2, ?H3, ?H4; [by left|by left|lia|lia]. Qed.

Lemma disable_cleared t (w : W) : cleared (fst (kcov_disable arch t w)).
Proof using. by unfold cleared. Qed.

Lemma raise_fd_nonneg fd (w : W) : 0 <= fd -> 0 <= fst (raise_fd fd w).
Proof using.
  intros H. unfold raise_fd. destruct (fcntl_dupfd fd 700 w) as [high w']. destruct (Z.ltb_spec high 0); cbn; lia.
Qed.

Lemma enable_remote_ok p t (w : W) : 0 <= LOCAL_FD t -> tls_ok p t -> tls_ok p (fst (enable_remote t w)).
Proof using.
  intros Hl Ht. unfold enable_remote. destruct (sys_open kcov_path w) as [fd w1]. destruct (Z.ltb_spec fd 0) as [|Hfd]; [done|].
  pose proof (raise_fd_nonneg fd w1 Hfd) as Hr. destruct (raise_fd fd w1) as [fd2 w2]. cbn [fst] in Hr.
  destruct (sys_ioctl _ _ _ w2) as [r w3]. destruct (negb _); [done|]. destruct (map_area fd2 w3) as [[a|] w4] eqn:Em; [|done].
  destruct (sys_ioctl _ _ _ w4) as [r2 w5]. destruct (negb _); [done|]. cbn [fst].
  destruct Ht as [H1 H2 H3 H4]. constructor; cbn; [done|right; split; [done|by exists a; split; [|exists w3, w4]]|done|done].
Qed.

Lemma enable_ok p t (w : W) : cleared t -> tls_ok p (fst (kcov_enable arch EBUSY p t w)).
Proof using.
  intros Hc. assert (tls_ok p (with_tid t (gettid w))) as Ht by (by apply cleared_ok).
  unfold kcov_enable. destruct (sys_open kcov_path w) as [fd w1]. destruct (Z.ltb_spec fd 0) as [|Hfd]; [done|].
  pose proof (raise_fd_nonneg fd w1 Hfd) as Hr. destruct (raise_fd fd w1) as [fd2 w2]. cbn [fst] in Hr.
  destruct (sys_ioctl _ _ _ w2) as [r w3]. destruct (negb _); [done|]. destruct (map_area fd2 w3) as [[a|] w4] eqn:Em; [|done].
  destruct (arm_local _ _ fd2 _ w4) as [armed w5]. destruct (negb armed); [done|].
  destruct Hc as (_ & _ & H3 & H4).
  apply enable_remote_ok; [by destruct (TSD_READY p)|].
  destruct (TSD_READY p) eqn:E; (constructor; cbn;
    [right; split; [done|by exists a; split; [|exists w3, w4]]|left; by split|rewrite H3; lia|done || (intros _; by rewrite E)]).
Qed.

(** Every hook leaves the task as it was, with nothing, or as enabling left it. *)
Lemma task_from (P : Tls -> Prop) p : (forall t w, cleared t -> P (fst (kcov_enable arch EBUSY p t w))) -> (forall t, cleared t -> P t) ->
  forall t, task p t -> P t.
Proof using.
  intros He Hc t H. induction H as [t w w' E|h t w w2 t' w' _ IH E].
  { pose proof (He tls_init w) as H. rewrite E in H. by apply H. }
  assert (forall b w, P (fst (if b : bool then kcov_child_reinit arch EBUSY p t w else (t, w)))) as Hf.
  { intros [|] v; [|done]. unfold kcov_child_reinit. by apply He. }
  destruct h as [pid|before ret| | | |]; cbn [run_hook] in E.
  - specialize (Hf (pid =? 0) w). unfold fork_hook in E. by rewrite E in Hf.
  - specialize (Hf ((ret =? 0) && negb (getpid w =? before)) w). unfold daemon_hook in E. by rewrite E in Hf.
  - unfold exec_failed in E. pose proof (He (fst (exec_before arch t w)) w2 (disable_cleared t w)) as H. by rewrite E in H.
  - pose proof (disable_cleared t w) as H. rewrite E in H. by apply Hc.
  - unfold kcov_thread_dtor in E. destruct (TSD t); [|by injection E as <- _].
    pose proof (disable_cleared t w) as H. rewrite E in H. by apply Hc.
  - unfold kcov_dtor in E. pose proof (disable_cleared t w) as H. destruct (kcov_disable arch t w) as [t1 w1].
    cbn [fst] in H. destruct (negb _); [|destruct (no_merge w1)]; injection E as <- _; by apply Hc.
Qed.

Lemma task_ok p t : task p t -> tls_ok p t.
Proof using. apply task_from; [by apply enable_ok|by apply cleared_ok]. Qed.

(** C21: A task's buffers stay paired.  Whatever hooks a task goes through in
    whatever order, and whatever the host does in between, it has a descriptor
    exactly when it has an area, and that area was mapped from that very
    descriptor, for local and for remote coverage; it has remote coverage only
    beside local coverage; and, if the destructor key could be created, it has
    the destructor armed whenever it has something to flush. *)
Theorem task_buffers_paired p t : task p t -> tls_ok p t.
Proof using. apply task_ok. Qed.
End Hooks.

(** * Flushing and leaking *)

(** What the host promises of the shim's operations. *)
Class ShimLaws (W : Type) `{!Kernel W} `{!KernelFds W} `{!ShimHost W} : Type :=
  { file : W -> list Z -> list Z;
    append_file_law : forall p b w q, file (append_file p b w) q = if decide (q = p) then file w p ++ b else file w q;
    create_file_law : forall p b w q, file (create_file p b w) q = if decide (q = p) then b else file w q;
    append_fds : forall p b w, fds (append_file p b w) = fds w /\ maps (append_file p b w) = maps w;
    append_peek : forall p b w a i, peek a i (append_file p b w) = peek a i w;
    disable_keeps : forall fd x w r w', sys_ioctl fd KCOV_DISABLE x w = (r, w') ->
      (forall q, file w' q = file w q) /\ forall a i, peek a i w' = peek a i w;
    munmap_keeps : forall a n w, (forall q, file (sys_munmap a n w) q = file w q) /\
      forall b i, b <> a -> peek b i (sys_munmap a n w) = peek b i w;
    close_keeps : forall fd w, (forall q, file (sys_close fd w) q = file w q) /\ forall a i, peek a i (sys_close fd w) = peek a i w;
    poke_fds : forall a i v w, fds (poke a i v w) = fds w /\ maps (poke a i v w) = maps w;
    self_fd_names : forall w e fd, e ∈ proc_self_fd w -> parse_i32 (fst e) = Some fd -> 0 <= fd;
    dup_fds : forall fd n w h w', fcntl_dupfd fd n w = (h, w') ->
      maps w' = maps w /\ if h <? 0 then fds w' = fds w else fds w' = {[h]} ∪ fds w }.

Section Flush.
Context {W : Type} `{!Kernel W} `{!KernelFds W} `{!ShimHost W} `{!ShimLaws W}.
Context (arch : Arch) (EBUSY : Z).

(** The addresses of an area. *)
Definition recorded (a : option Z) (w : W) : list Z :=
  match a with Some a => kcov_collect (MkKcov 0 a) w | None => [] end.

(** The kernel never counts past the end of an area. *)
Definition counted (a : option Z) (w : W) : Prop := match a with Some a => peek a 0 w <= COVER_SIZE - 1 | None => True end.

Lemma write_coverage_spec path a fd (w : W) : pair_ok fd a -> counted a w ->
  file (write_coverage arch path a fd w) path = file w path ++ cover_lines arch (recorded a w) /\
  (forall q, q <> path -> file (write_coverage arch path a fd w) q = file w q) /\
  (forall b i, Some b <> a -> peek b i (write_coverage arch path a fd w) = peek b i w).
Proof using ShimLaws0.
  intros [[-> ->]|(Hfd & b & -> & _)] Hc; [by rewrite app_nil_r|]. unfold write_coverage. rewrite (proj2 (Z.ltb_ge fd 0)) by lia.
  destruct (sys_ioctl fd KCOV_DISABLE (IoWord 0) w) as [r w1] eqn:E. destruct (disable_keeps _ _ _ _ _ E) as [Hf Hp].
  set (w2 := append_file _ _ w1). destruct (close_keeps fd (sys_munmap b area_bytes w2)) as [Hf3 Hp3].
  destruct (munmap_keeps b area_bytes w2) as [Hf2 Hp2]. unfold counted in Hc. split_and!.
  - rewrite Hf3, Hf2. unfold w2. rewrite append_file_law, decide_True, Hf by done. f_equal. f_equal. unfold recorded, kcov_collect. cbn [area].
    rewrite Hp, Z.min_l by done. apply list_fmap_ext. intros. apply Hp.
  - intros q Hq. rewrite Hf3, Hf2. unfold w2. by rewrite append_file_law, decide_False, Hf.
  - intros c i Hne. rewrite Hp3, Hp2 by congruence. unfold w2. by rewrite append_peek, Hp.
Qed.

Lemma logs_differ t1 t2 : local_log t1 <> remote_log t2.
Proof using. unfold local_log, remote_log. intros E. apply (f_equal (fun l => l !! 0%nat)) in E. discriminate E. Qed.

Lemma disable_nothing t (w : W) : cleared t -> kcov_disable arch t w = (t, w).
Proof using. destruct t. intros (H1 & H2 & H3 & H4). cbn in *. by subst. Qed.

(** * Two areas *)

Definition apart (t : Tls) : Prop := LOCAL_AREA t = REMOTE_AREA t -> LOCAL_AREA t = None.

Lemma cleared_apart t : cleared t -> apart t.
Proof using. by intros (_ & H & _) _. Qed.

Lemma write_coverage_keeps path x fd (w : W) c : c ∈ maps w -> Some c <> x -> c ∈ maps (write_coverage arch path x fd w).
Proof using ShimLaws0.
  intros Hc Hx. destruct x as [b|]; [|done]. unfold write_coverage. destruct (fd <? 0); [done|].
  destruct (sys_ioctl fd KCOV_DISABLE (IoWord 0) w) as [r w1] eqn:E. apply ioctl_fds in E as [_ M1]. set (w2 := append_file _ _ w1).
  destruct (append_fds path (cover_lines arch ((fun i => peek b (i + 1) w1) <$> seqZ 0 (peek b 0 w1))) w1) as [_ M2]. fold w2 in M2.
  destruct (close_fds fd (sys_munmap b area_bytes w2)) as [_ ->]. destruct (munmap_fds b area_bytes w2) as [_ ->].
  rewrite M2, M1. apply elem_of_difference. split; [done|]. intros ->%elem_of_singleton. done.
Qed.

Lemma recover_keeps skip tid (w : W) c : c ∈ maps w -> c ∈ maps (snd (recover_stale_kcov arch skip tid w)).
Proof using ShimLaws0.
  unfold recover_stale_kcov. generalize (fds_pointing_at kcov_path skip w), false. intros l. revert w.
  induction l as [|fd l IH]; intros w b Hc; [done|]. cbn [foldl]. destruct (recover_one arch tid (b, w) fd) as [b' w1] eqn:E.
  apply IH. unfold recover_one in E. destruct (sys_ioctl fd KCOV_DISABLE (IoWord 0) w) as [r w2] eqn:E1. apply ioctl_fds in E1 as [_ M1].
  rewrite <- M1 in Hc. destruct (negb (r =? 0)); [by injection E as _ <-|]. unfold map_area in E.
  destruct (sys_mmap area_bytes fd w2) as [[a|] w3] eqn:E2; apply mmap_fds in E2 as [_ M2]; apply (f_equal snd) in E; cbn [snd] in E; rewrite <- E.
  - destruct M2 as [M2 Hn]. apply write_coverage_keeps; [rewrite M2; set_solver|]. intros [= <-]. done.
  - destruct (close_fds fd w3) as [_ ->]. by rewrite M2.
Qed.

Lemma arm_keeps fd tid (w : W) c : c ∈ maps w -> c ∈ maps (snd (arm_local arch EBUSY fd tid w)).
Proof using ShimLaws0.
  intros Hc. unfold arm_local. destruct (sys_ioctl fd KCOV_ENABLE _ w) as [r w1] eqn:E. apply ioctl_fds in E as [_ M1]. rewrite <- M1 in Hc.
  destruct (r =? 0); [done|]. destruct (host_errno w1 =? EBUSY); [|done]. pose proof (recover_keeps fd tid w1 c Hc) as H.
  destruct (recover_stale_kcov arch fd tid w1) as [b w2]. cbn [snd] in H. destruct b; [|done].
  destruct (sys_ioctl fd KCOV_ENABLE _ w2) as [r2 w3] eqn:E2. apply ioctl_fds in E2 as [_ M2]. cbn [snd]. by rewrite M2.
Qed.

Lemma raise_maps fd (w : W) : maps (snd (raise_fd fd w)) = maps w.
Proof using ShimLaws0.
  unfold raise_fd. destruct (fcntl_dupfd fd 700 w) as [h w1] eqn:E. apply dup_fds in E as [M _]. destruct (h <? 0); [done|].
  cbn [snd]. by rewrite (proj2 (close_fds fd w1)).
Qed.

Lemma enable_remote_apart t a (w : W) : LOCAL_AREA t = Some a -> REMOTE_AREA t = None -> a ∈ maps w -> apart (fst (enable_remote t w)).
Proof using ShimLaws0.
  intros Hl Hr Ha. assert (apart t) as Ht by (intros E; congruence). unfold enable_remote.
  destruct (sys_open kcov_path w) as [fd w1] eqn:E1. apply open_fds in E1 as [M1 _]. destruct (fd <? 0); [done|].
  pose proof (raise_maps fd w1) as M2. destruct (raise_fd fd w1) as [fd2 w2]. cbn [snd] in M2.
  destruct (sys_ioctl _ _ _ w2) as [r w3] eqn:E3. apply ioctl_fds in E3 as [_ M3]. destruct (negb _); [done|].
  unfold map_area. destruct (sys_mmap area_bytes fd2 w3) as [[b|] w4] eqn:E4; [|done]. apply mmap_fds in E4 as [_ [_ Hn]].
  destruct (sys_ioctl _ _ _ w4) as [r2 w5]. destruct (negb _); [done|]. cbn [fst]. unfold apart. cbn. rewrite Hl. intros [= <-].
  exfalso. apply Hn. by rewrite M3, M2, M1.
Qed.

Lemma enable_apart p t (w : W) : cleared t -> apart (fst (kcov_enable arch EBUSY p t w)).
Proof using ShimLaws0.
  intros Hc. assert (apart (with_tid t (gettid w))) as Ht by (by apply cleared_apart). destruct Hc as (_ & _ & _ & Hr). unfold kcov_enable.
  destruct (sys_open kcov_path w) as [fd w1]. destruct (fd <? 0); [done|]. destruct (raise_fd fd w1) as [fd2 w2].
  destruct (sys_ioctl _ _ _ w2) as [r w3]. destruct (negb _); [done|]. unfold map_area.
  destruct (sys_mmap area_bytes fd2 w3) as [[a|] w4] eqn:E4; [|done]. apply mmap_fds in E4 as [_ [M4 _]].
  pose proof (arm_keeps fd2 (gettid w) w4 a ltac:(rewrite M4; set_solver)) as H. destruct (arm_local _ _ fd2 _ w4) as [armed w5]. cbn [snd] in H.
  destruct (negb armed); [done|]. destruct (poke_fds a 0 0 w5) as [_ M6]. apply (enable_remote_apart _ a); [by destruct (TSD_READY p)..|by rewrite M6].
Qed.

Lemma task_apart p t : task arch EBUSY p t -> apart t.
Proof using ShimLaws0. apply task_from; [by apply enable_apart|by apply cleared_apart]. Qed.

(** * The ways out of a task *)

(** A flush before the task ends or calls [_exit], and the destructor of its
    key, any number of times; and then, for the task in which the image ends
    normally, the destructor of the image. *)
Definition exit_hook (h : hook) : Prop := h = HFlush \/ h = HThreadDtor.
Definition run_exits (p : Proc) (hs : list hook) (t : Tls) (w : W) : Tls * W :=
  foldl (fun st h => run_hook arch EBUSY p h (fst st) (snd st) (snd st)) (t, w) hs.
Definition exits (hs : list hook) (image_ends : bool) : list hook := hs ++ (if image_ends then [HDtor] else []).
(** Some hook flushes: the destructor of the key does when the key exists. *)
Definition flushes (p : Proc) (h : hook) : Prop := h = HFlush \/ h = HDtor \/ h = HThreadDtor /\ TSD_READY p = true.

Lemma exit_hook_cleared p h t (w : W) : exit_hook h -> cleared t -> run_hook arch EBUSY p h t w w = (t, w).
Proof using.
  intros [-> | ->] Hc; cbn [run_hook]; [by apply disable_nothing|]. unfold kcov_thread_dtor.
  destruct (TSD t); [by apply disable_nothing|done].
Qed.

Lemma exits_cleared p hs t (w : W) : Forall exit_hook hs -> cleared t -> run_exits p hs t w = (t, w).
Proof using. intros H Hc. induction H as [|h hs Hh _ IH]; [done|]. unfold run_exits in *. cbn [foldl fst snd]. by rewrite exit_hook_cleared. Qed.

(** The hooks before the image's destructor flush, or do nothing. *)
Lemma exits_flush p hs t (w : W) : tls_ok p t -> Forall exit_hook hs ->
  run_exits p hs t w = kcov_disable arch t w \/ run_exits p hs t w = (t, w) /\ Forall (fun h => ~ flushes p h) hs.
Proof using.
  intros Ht H. induction H as [|h hs Hh Hhs IH]; [right; by split|]. unfold run_exits. cbn [foldl fst snd].
  assert (forall x, foldl (fun st h => run_hook arch EBUSY p h (fst st) (snd st) (snd st)) x hs = run_exits p hs (fst x) (snd x)) as Hx by (by intros []).
  rewrite Hx. assert (run_hook arch EBUSY p h t w w = kcov_disable arch t w -> run_exits p hs (fst (run_hook arch EBUSY p h t w w)) (snd (run_hook arch EBUSY p h t w w)) = kcov_disable arch t w) as Hd.
  { intros ->. rewrite exits_cleared by (done || apply disable_cleared). by destruct (kcov_disable arch t w). }
  destruct Hh as [-> | ->]; [left; by apply Hd|]. destruct (TSD t) eqn:E.
  { left. apply Hd. cbn [run_hook]. unfold kcov_thread_dtor. by rewrite E. }
  assert (run_hook arch EBUSY p HThreadDtor t w w = (t, w)) as Eh by (cbn [run_hook]; unfold kcov_thread_dtor; by rewrite E).
  destruct (TSD_READY p) eqn:Er.
  - left. apply Hd. rewrite Eh. symmetry. apply disable_nothing. destruct Ht as [H1 H2 H3 H4].
    assert (~ 0 <= LOCAL_FD t) as Hl by (intros Hl; specialize (H4 Hl Er); congruence).
    destruct H1 as [[A B]|[A B]]; [|lia]. destruct H2 as [[C D]|[C D]]; [done|lia].
  - rewrite Eh. cbn [fst snd]. destruct IH as [->|[-> Hf]]; [by left|right]. split; [done|]. constructor; [|done].
    intros [?|[?|[_ ?]]]; congruence.
Qed.

(** The destructor of the image merges what is then in the directory. *)
Definition merges (p : Proc) (image_ends : bool) (w : W) : bool := image_ends && (getpid w =? INITIAL_PID p) && negb (no_merge w).
Definition finish (p : Proc) (image_ends : bool) (st : Tls * W) : Tls * W :=
  if merges p image_ends (snd st) then (fst st, merge_into (snd st)) else st.

Lemma run_exits_finish p hs b t (w : W) : tls_ok p t -> Forall exit_hook hs -> Exists (flushes p) (exits hs b) ->
  run_exits p (exits hs b) t w = finish p b (kcov_disable arch t w).
Proof using.
  intros Ht H He. unfold exits, run_exits. rewrite foldl_app. change (foldl _ (t, w) hs) with (run_exits p hs t w).
  assert (forall t w, run_hook arch EBUSY p HDtor t w w = finish p true (kcov_disable arch t w)) as Hd.
  { intros u v. cbn [run_hook]. unfold kcov_dtor, finish, merges. destruct (kcov_disable arch u v) as [t1 w1]. cbn [fst snd andb].
    destruct (_ =? _), (no_merge w1); done. }
  destruct (exits_flush p hs t w Ht H) as [->|[-> Hn]].
  - destruct b; [|done]. cbn [foldl]. rewrite Hd. pose proof (disable_cleared arch t w) as Hc.
    destruct (kcov_disable arch t w) as [t1 w1]. cbn [fst snd] in *. by rewrite disable_nothing.
  - destruct b; [cbn [foldl fst snd]; apply Hd|]. unfold exits in He. rewrite app_nil_r in He.
    apply Exists_exists in He as (h & Hin & Hf). rewrite Forall_forall in Hn. by destruct (Hn h Hin).
Qed.

(** What flushing a task does to the files. *)
Lemma disable_logs t (w : W) : pair_ok (LOCAL_FD t) (LOCAL_AREA t) -> pair_ok (REMOTE_FD t) (REMOTE_AREA t) -> apart t ->
  counted (LOCAL_AREA t) w -> counted (REMOTE_AREA t) w ->
  let w' := snd (kcov_disable arch t w) in
  file w' (local_log (KCOV_TID t)) = file w (local_log (KCOV_TID t)) ++ cover_lines arch (recorded (LOCAL_AREA t) w) /\
  file w' (remote_log (KCOV_TID t)) = file w (remote_log (KCOV_TID t)) ++ cover_lines arch (recorded (REMOTE_AREA t) w) /\
  forall q, q <> local_log (KCOV_TID t) -> q <> remote_log (KCOV_TID t) -> file w' q = file w q.
Proof using ShimLaws0.
  intros H1 H2 Hd Hc1 Hc2. unfold kcov_disable. cbn [snd]. set (w1 := write_coverage _ (local_log _) _ _ w).
  destruct (write_coverage_spec (local_log (KCOV_TID t)) _ _ w H1 Hc1) as (A1 & A2 & A3). fold w1 in A1, A2, A3.
  assert (forall b i, REMOTE_AREA t = Some b -> peek b i w1 = peek b i w) as Hpk.
  { intros b i Hb. apply A3. intros E. unfold apart in Hd. rewrite <- E in Hd. symmetry in Hb. specialize (Hd Hb). discriminate Hd. }
  assert (counted (REMOTE_AREA t) w1) as Hc2'.
  { unfold counted in *. destruct (REMOTE_AREA t) as [b|]; [|done]. by rewrite Hpk. }
  destruct (write_coverage_spec (remote_log (KCOV_TID t)) _ _ w1 H2 Hc2') as (B1 & B2 & _).
  assert (recorded (REMOTE_AREA t) w1 = recorded (REMOTE_AREA t) w) as Hrec.
  { unfold recorded. destruct (REMOTE_AREA t) as [b|]; [|done]. unfold kcov_collect. cbn [area]. rewrite Hpk by done.
    apply list_fmap_ext. intros. by apply Hpk. }
  split_and!.
  - rewrite B2 by apply logs_differ. exact A1.
  - rewrite B1, Hrec, A2; [done|]. intros E. symmetry in E. by apply logs_differ in E.
  - intros q Hq1 Hq2. by rewrite B2, A2.
Qed.

Lemma merged_apart tid : bs "kerncov.log" <> local_log tid /\ bs "kerncov.log" <> remote_log tid.
Proof using. unfold local_log, remote_log. split; intros E; apply (f_equal (fun l => l !! 0%nat)) in E; discriminate E. Qed.

(** C19: A task's coverage is logged exactly once, by each of its ways out: a
    flush at the end of its start routine or by [_exit], the destructor of its
    key, and the destructor of the image when it ends normally, in any number
    and order that flushes at all (the key's destructor does when the key could
    be created).  The two logs of the task get exactly the addresses of its two
    areas, shifted onto their call sites; nothing is left to flush; and no other
    file changes, but for kerncov.log when the image ends in its initial process
    without VOCK_NO_MERGE, which becomes the merge of the directory after that
    flush.  The kernel is taken not to count past the end of an area. *)
Theorem task_flushes_once p hs image_ends t (w : W) : task arch EBUSY p t -> Forall exit_hook hs -> Exists (flushes p) (exits hs image_ends) ->
  counted (LOCAL_AREA t) w -> counted (REMOTE_AREA t) w ->
  exists t' w' w1, run_exits p (exits hs image_ends) t w = (t', w') /\ cleared t' /\ snd (kcov_disable arch t w) = w1 /\
    file w' (local_log (KCOV_TID t)) = file w (local_log (KCOV_TID t)) ++ cover_lines arch (recorded (LOCAL_AREA t) w) /\
    file w' (remote_log (KCOV_TID t)) = file w (remote_log (KCOV_TID t)) ++ cover_lines arch (recorded (REMOTE_AREA t) w) /\
    file w' (bs "kerncov.log") = (if merges p image_ends w1 then match read_dir w1 with Some d => merge_logs d | None => [] end else file w (bs "kerncov.log")) /\
    forall q, q <> local_log (KCOV_TID t) -> q <> remote_log (KCOV_TID t) -> q <> bs "kerncov.log" -> file w' q = file w q.
Proof using ShimLaws0.
  intros Ht Hh He Hc1 Hc2. pose proof (task_ok arch EBUSY p t Ht) as Hok. rewrite (run_exits_finish p hs image_ends t w Hok Hh He).
  destruct Hok as [H1 H2 _ _]. destruct (disable_logs t w H1 H2 (task_apart p t Ht) Hc1 Hc2) as (A & B & C). cbv zeta in *.
  pose proof (disable_cleared arch t w) as Hcl. destruct (kcov_disable arch t w) as [t1 w1]. cbn [fst snd] in *.
  destruct (merged_apart (KCOV_TID t)) as [N1 N2]. unfold finish. cbn [fst snd]. destruct (merges p image_ends w1) eqn:Em.
  - exists t1, (merge_into w1), w1. rewrite Em. split_and!; [done|done|done|..]; unfold merge_into.
    + rewrite create_file_law, decide_False; [exact A|by apply not_eq_sym].
    + rewrite create_file_law, decide_False; [exact B|by apply not_eq_sym].
    + by rewrite create_file_law, decide_True.
    + intros q Hq1 Hq2 Hq3. rewrite create_file_law, decide_False by done. by apply C.
  - exists t1, w1, w1. rewrite Em. split_and!; [done|done|done|exact A|exact B|by apply C|]. intros q Hq1 Hq2 _. by apply C.
Qed.

(** [w'] holds no more than [w] and what is named. *)
Definition within (w w' : W) (F M : gset Z) : Prop := fds w' ⊆ fds w ∪ F /\ maps w' ⊆ maps w ∪ M.

Definition one (fd : Z) : gset Z := if fd <? 0 then ∅ else {[fd]}.
Definition held_fds (t : Tls) : gset Z := one (LOCAL_FD t) ∪ one (REMOTE_FD t).
Definition held_maps (t : Tls) : gset Z :=
  match LOCAL_AREA t with Some a => {[a]} | None => ∅ end ∪ match REMOTE_AREA t with Some a => {[a]} | None => ∅ end.

Lemma one_nonneg fd : 0 <= fd -> one fd = {[fd]}.
Proof using. intros H. unfold one. by rewrite (proj2 (Z.ltb_ge fd 0)). Qed.

Lemma open_within (w w' : W) p fd : sys_open p w = (fd, w') -> within w w' (one fd) ∅.
Proof using.
  intros E. apply open_fds in E as [M F]. unfold within, one. destruct (fd <? 0); [|destruct F as [F _]]; rewrite M, F; set_solver.
Qed.

Lemma raise_within (w w' : W) fd fd' X Y : raise_fd fd w' = (fd', w) -> 0 <= fd -> forall w0, within w0 w' (X ∪ {[fd]}) Y ->
  within w0 w (X ∪ {[fd']}) Y.
Proof using ShimLaws0.
  unfold raise_fd. intros E Hfd w0 [H1 H2]. destruct (fcntl_dupfd fd 700 w') as [h w1] eqn:Ed. apply dup_fds in Ed as [M F].
  destruct (h <? 0); injection E as <- <-; unfold within.
  - by rewrite M, F.
  - destruct (close_fds fd w1) as [-> ->]. rewrite M, F. set_solver.
Qed.

Lemma write_coverage_releases path a fd (w : W) : pair_ok fd a ->
  fds (write_coverage arch path a fd w) ⊆ fds w ∖ one fd /\
  maps (write_coverage arch path a fd w) ⊆ maps w ∖ match a with Some a => {[a]} | None => ∅ end.
Proof using ShimLaws0.
  intros [[-> ->]|(Hfd & b & -> & _)]; [cbn; set_solver|]. unfold write_coverage. rewrite (proj2 (Z.ltb_ge fd 0)) by lia.
  destruct (sys_ioctl fd KCOV_DISABLE (IoWord 0) w) as [r w1] eqn:E. apply ioctl_fds in E as [F1 M1].
  set (w2 := append_file _ _ w1). destruct (append_fds path (cover_lines arch ((fun i => peek b (i + 1) w1) <$> seqZ 0 (peek b 0 w1))) w1) as [F2 M2].
  fold w2 in F2, M2. destruct (close_fds fd (sys_munmap b area_bytes w2)) as [-> ->]. destruct (munmap_fds b area_bytes w2) as [-> ->].
  rewrite F2, M2, F1, M1, one_nonneg by done. set_solver.
Qed.

Lemma pointing_nonneg link skip (w : W) : Forall (fun fd => 0 <= fd) (fds_pointing_at link skip w).
Proof using ShimLaws0.
  apply Forall_forall. intros fd Hin. unfold fds_pointing_at in Hin. apply list_elem_of_omap in Hin as (e & He & E).
  destruct (parse_i32 (fst e)) as [v|] eqn:Ev; [|done]. cbn [mbind option_bind] in E. pose proof (self_fd_names w e v He Ev).
  destruct (v =? skip); [done|]. destruct (snd e) as [l|]; [|done]. cbn [mbind option_bind] in E. destruct (bytes_eqb l link); [|done].
  by injection E as <-.
Qed.

Lemma recover_within skip tid (w : W) : within w (snd (recover_stale_kcov arch skip tid w)) ∅ ∅.
Proof using ShimLaws0.
  unfold recover_stale_kcov. pose proof (pointing_nonneg kcov_path skip w) as Hl. generalize dependent (fds_pointing_at kcov_path skip w).
  intros l Hl.
  enough (forall b w0, within w w0 ∅ ∅ -> within w (snd (foldl (recover_one arch tid) (b, w0) l)) ∅ ∅) as H by (apply H; unfold within; set_solver).
  induction Hl as [|fd l Hfd _ IH]; intros b w0 Hw; [done|]. cbn [foldl]. destruct (recover_one arch tid (b, w0) fd) as [b' w1] eqn:E.
  apply IH. clear IH. unfold recover_one in E. destruct (sys_ioctl fd KCOV_DISABLE (IoWord 0) w0) as [r w2] eqn:E1.
  apply ioctl_fds in E1 as [F1 M1]. destruct Hw as [H1 H2].
  destruct (negb (r =? 0)); [injection E as _ <-; unfold within; by rewrite F1, M1|].
  unfold map_area in E. destruct (sys_mmap area_bytes fd w2) as [a w3] eqn:E2. pose proof E2 as Em. apply mmap_fds in E2 as [F2 M2].
  destruct a as [a|].
  - injection E as _ <-. destruct (write_coverage_releases (local_log tid) (Some a) fd w3) as [A B]; [right; split; [done|by exists a; split; [|exists w2, w3]]|].
    destruct M2 as [M2 _]. unfold within. rewrite F2, F1 in A. rewrite M2, M1 in B. set_solver.
  - injection E as _ <-. unfold within. destruct (close_fds fd w3) as [-> ->]. rewrite F2, F1, M2, M1. set_solver.
Qed.

Lemma within_trans (w w1 w2 : W) F1 M1 F2 M2 : within w w1 F1 M1 -> within w1 w2 F2 M2 -> within w w2 (F1 ∪ F2) (M1 ∪ M2).
Proof using. unfold within. set_solver. Qed.

(** Opening a coverage descriptor, up to its area: what is held at each way out. *)
Lemma close_within (w w1 : W) fd M : within w w1 {[fd]} M -> within w (sys_close fd w1) ∅ M.
Proof using. intros [H1 H2]. unfold within. destruct (close_fds fd w1) as [-> ->]. set_solver. Qed.
Lemma unmap_within (w w1 : W) fd a n : within w w1 {[fd]} {[a]} -> within w (sys_close fd (sys_munmap a n w1)) ∅ ∅.
Proof using.
  intros [H1 H2]. unfold within. destruct (close_fds fd (sys_munmap a n w1)) as [-> ->]. destruct (munmap_fds a n w1) as [-> ->]. set_solver.
Qed.
Lemma ioctl_within (w w1 w2 : W) fd r x y F M : within w w1 F M -> sys_ioctl fd r x w1 = (y, w2) -> within w w2 F M.
Proof using. intros [H1 H2] [E1 E2]%ioctl_fds. unfold within. by rewrite E1, E2. Qed.
Lemma map_within (w w1 w2 : W) fd a F M : within w w1 F M -> map_area fd w1 = (Some a, w2) -> within w w2 F (M ∪ {[a]}).
Proof using. unfold map_area. intros [H1 H2] [E1 [E2 _]]%mmap_fds. unfold within. rewrite E1, E2. set_solver. Qed.
Lemma map_fail_within (w w1 w2 : W) fd F M : within w w1 F M -> map_area fd w1 = (None, w2) -> within w w2 F M.
Proof using. unfold map_area. intros [H1 H2] [E1 E2]%mmap_fds. unfold within. by rewrite E1, E2. Qed.
Lemma open_raise_within (w w1 w2 : W) p fd fd2 : sys_open p w = (fd, w1) -> 0 <= fd -> raise_fd fd w1 = (fd2, w2) ->
  0 <= fd2 /\ within w w2 {[fd2]} ∅.
Proof using ShimLaws0.
  intros E Hfd Er. pose proof (raise_fd_nonneg fd w1 Hfd) as Hn. rewrite Er in Hn. split; [done|].
  pose proof (raise_within w2 w1 fd fd2 ∅ ∅ Er Hfd w) as H. rewrite !(left_id_L ∅ (∪)) in H. apply H.
  apply open_within in E. by rewrite one_nonneg in E.
Qed.
Lemma weaken_within (w w1 : W) F M F' M' : within w w1 F M -> F ⊆ F' -> M ⊆ M' -> within w w1 F' M'.
Proof using. unfold within. set_solver. Qed.
Lemma poke_within (w w1 : W) F M a i v : within w w1 F M -> within w (poke a i v w1) F M.
Proof using ShimLaws0. unfold within. destruct (poke_fds a i v w1) as [-> ->]. done. Qed.

Lemma enable_remote_within t (w : W) : REMOTE_FD t = -1 -> REMOTE_AREA t = None ->
  let '(t', w') := enable_remote t w in
  LOCAL_FD t' = LOCAL_FD t /\ LOCAL_AREA t' = LOCAL_AREA t /\
  within w w' (one (REMOTE_FD t')) match REMOTE_AREA t' with Some a => {[a]} | None => ∅ end.
Proof using ShimLaws0.
  intros Hf Ha. unfold enable_remote. destruct (sys_open kcov_path w) as [fd w1] eqn:E1.
  destruct (Z.ltb_spec fd 0) as [Hneg|Hfd].
  { split_and!; [done|done|]. apply open_within in E1. eapply weaken_within; [exact E1| |set_solver]. unfold one at 1.
    rewrite (proj2 (Z.ltb_lt fd 0)) by done. set_solver. }
  destruct (raise_fd fd w1) as [fd2 w2] eqn:E2. destruct (open_raise_within _ _ _ _ _ _ E1 Hfd E2) as [Hn H].
  destruct (sys_ioctl fd2 KCOV_INIT_TRACE _ w2) as [r w3] eqn:E3. eapply ioctl_within in E3; [|exact H].
  assert (forall x, within w x ∅ ∅ -> within w x (one (REMOTE_FD t)) match REMOTE_AREA t with Some a => {[a]} | None => ∅ end) as Hw.
  { intros x Hx. by rewrite Hf, Ha. }
  destruct (negb (r =? 0)); [split_and!; [done|done|]; by apply Hw, close_within|].
  destruct (map_area fd2 w3) as [[a|] w4] eqn:E4; [|split_and!; [done|done|]; apply Hw, close_within; by eapply map_fail_within].
  eapply map_within in E4; [|exact E3]. rewrite (left_id_L ∅ (∪)) in E4.
  destruct (sys_ioctl fd2 KCOV_REMOTE_ENABLE _ w4) as [r2 w5] eqn:E5. eapply ioctl_within in E5; [|exact E4].
  destruct (negb (r2 =? 0)); [split_and!; [done|done|]; by apply Hw, unmap_within|].
  split_and!; [done|done|]. cbn [REMOTE_FD REMOTE_AREA with_remote]. rewrite one_nonneg by done. by apply poke_within.
Qed.

Lemma arm_within fd tid (w w1 w2 : W) b F M : within w w1 F M -> arm_local arch EBUSY fd tid w1 = (b, w2) -> within w w2 F M.
Proof using ShimLaws0.
  intros H. unfold arm_local. destruct (sys_ioctl fd KCOV_ENABLE _ w1) as [r w3] eqn:E3. eapply ioctl_within in E3; [|exact H].
  destruct (r =? 0); [by intros [= _ <-]|]. destruct (host_errno w3 =? EBUSY); [|by intros [= _ <-]].
  pose proof (recover_within fd tid w3) as Hr. destruct (recover_stale_kcov arch fd tid w3) as [b' w4]. cbn [snd] in Hr.
  pose proof (within_trans _ _ _ _ _ _ _ E3 Hr) as H4. rewrite !(right_id_L ∅ (∪)) in H4.
  destruct b'; [|by intros [= _ <-]]. destruct (sys_ioctl fd KCOV_ENABLE _ w4) as [r5 w5] eqn:E5. intros [= _ <-].
  by eapply ioctl_within.
Qed.

Lemma enable_within p t (w : W) : cleared t ->
  let '(t', w') := kcov_enable arch EBUSY p t w in within w w' (held_fds t') (held_maps t').
Proof using ShimLaws0.
  intros (Hl & Hla & Hf & Ha). unfold kcov_enable. set (t0 := with_tid t (gettid w)).
  assert (forall x, within w x ∅ ∅ -> within w x (held_fds t0) (held_maps t0)) as Hw.
  { intros x Hx. unfold held_fds, held_maps. cbn. rewrite Hl, Hla, Hf, Ha. eapply weaken_within; [exact Hx|set_solver..]. }
  destruct (sys_open kcov_path w) as [fd w1] eqn:E1. destruct (Z.ltb_spec fd 0) as [Hneg|Hfd].
  { apply Hw. apply open_within in E1. unfold one in E1. by rewrite (proj2 (Z.ltb_lt fd 0)) in E1. }
  destruct (raise_fd fd w1) as [fd2 w2] eqn:E2. destruct (open_raise_within _ _ _ _ _ _ E1 Hfd E2) as [Hn H].
  destruct (sys_ioctl fd2 KCOV_INIT_TRACE _ w2) as [r w3] eqn:E3. eapply ioctl_within in E3; [|exact H].
  destruct (negb (r =? 0)); [by apply Hw, close_within|].
  destruct (map_area fd2 w3) as [[a|] w4] eqn:E4; [|apply Hw, close_within; by eapply map_fail_within].
  eapply map_within in E4; [|exact E3]. rewrite (left_id_L ∅ (∪)) in E4.
  destruct (arm_local arch EBUSY fd2 (gettid w) w4) as [armed w5] eqn:E5. eapply arm_within in E5; [|exact E4].
  destruct (negb armed); [by apply Hw, unmap_within|]. apply (poke_within _ _ _ _ a 0 0) in E5.
  set (t1 := if TSD_READY p then _ else _). 
  assert (LOCAL_FD t1 = fd2 /\ LOCAL_AREA t1 = Some a /\ REMOTE_FD t1 = -1 /\ REMOTE_AREA t1 = None) as (L1 & L2 & R1 & R2).
  { unfold t1. destruct (TSD_READY p); by cbn. }
  clearbody t1. pose proof (enable_remote_within t1 (poke a 0 0 w5) R1 R2) as Hr.
  destruct (enable_remote t1 (poke a 0 0 w5)) as [t2 w6]. destruct Hr as (E6 & E7 & Hr).
  pose proof (within_trans _ _ _ _ _ _ _ E5 Hr) as H6. unfold held_fds, held_maps. rewrite E6, E7, L1, L2, one_nonneg by done. exact H6.
Qed.

(** The shim leaks nothing.  Enabling coverage for a task that holds
    none, whichever of its steps fail and whatever stale instances it reclaims,
    and then flushing it leaves the process with no descriptor and no mapping
    it did not have before. *)
Theorem enable_disable_no_leak p t (w w1 w2 : W) t1 t2 : cleared t -> kcov_enable arch EBUSY p t w = (t1, w1) ->
  kcov_disable arch t1 w1 = (t2, w2) -> fds w2 ⊆ fds w /\ maps w2 ⊆ maps w.
Proof using ShimLaws0.
  intros Hc E1 E2. pose proof (enable_within p t w Hc) as Hw. pose proof (enable_ok arch EBUSY p t w Hc) as [H1 H2 _ _].
  rewrite E1 in *. cbn [fst] in *. destruct Hw as [Hf Hm]. injection E2 as _ <-. set (w3 := write_coverage arch (local_log _) _ _ w1).
  destruct (write_coverage_releases (local_log (KCOV_TID t1)) _ _ w1 H1) as [A1 A2]. fold w3 in A1, A2.
  destruct (write_coverage_releases (remote_log (KCOV_TID t1)) _ _ w3 H2) as [B1 B2].
  unfold held_fds, held_maps in *. set_solver.
Qed.

(** A fork closes the inherited descriptors in the child and forgets the
    inherited areas without unmapping them. *)
Lemma child_keeps_areas p t (w : W) : exists w1, kcov_child_reinit arch EBUSY p t w =
    kcov_enable arch EBUSY p (with_remote (with_local t (-1) None) (-1) None) w1 /\
  maps w1 = maps w /\ fds w1 = fds w ∖ held_fds t.
Proof using.
  unfold kcov_child_reinit. eexists. split; [done|]. unfold held_fds, one.
  assert (forall fd, (fd <? 0) = negb (0 <=? fd)) as Hn by (intros fd; by rewrite Z.ltb_antisym). rewrite !Hn.
  destruct (0 <=? LOCAL_FD t), (0 <=? REMOTE_FD t); cbn [negb];
    repeat match goal with |- context [sys_close ?f ?x] => rewrite (proj2 (close_fds f x)), (proj1 (close_fds f x)) end; set_solver.
Qed.
End Flush.

(** The constructor of every image makes the running process the initial one,
    so every image that ends through its destructor merges. *)
Lemma image_merges {W} `{!Kernel W} `{!ShimHost W} arch EBUSY key_ok t (w w1 w2 : W) p t1 : kcov_ctor arch EBUSY key_ok tls_init w = (p, (t1, w1)) ->
  let '(t3, w3) := kcov_disable arch t w2 in
  getpid w3 = getpid w -> no_merge w3 = false -> kcov_dtor arch p t w2 = (t3, merge_into w3).
Proof.
  intros [= <- _]. destruct (kcov_disable arch t w2) as [t3 w3] eqn:E. intros Hp Hn. unfold kcov_dtor. rewrite E. cbn [INITIAL_PID].
  by rewrite Hp, Z.eqb_refl, Hn.
Qed.

(** * A concrete host *)

Record Box : Type := MkBox { b_fds : gset Z; b_maps : gset Z; b_files : gmap (list Z) (list Z) }.

(** Every area holds two addresses. *)
#[export] Instance box_kernel : Kernel Box :=
  {| sys_open _ w :=
       let fd := fresh (b_fds w) in
       if fd <? 0 then (-1, w) else (fd, MkBox ({[fd]} ∪ b_fds w) (b_maps w) (b_files w));
     sys_ioctl _ _ _ w := (0, w);
     sys_mmap _ _ w := let a := fresh (b_maps w) in (Some a, MkBox (b_fds w) ({[a]} ∪ b_maps w) (b_files w));
     sys_munmap a _ w := MkBox (b_fds w) (b_maps w ∖ {[a]}) (b_files w);
     sys_close fd w := MkBox (b_fds w ∖ {[fd]}) (b_maps w) (b_files w);
     sys_getpid _ := 42;
     peek a i _ := if i =? 0 then 2 else 4096 * (1 + a) + i;
     poke _ _ _ w := w;
     now w := (0, w);
     sys_sigaction w := w;
     write_file _ _ w := w;
     sys_alarm _ w := w;
     sys_syscall _ _ m w := Some ((0, 0), (m, w)) |}.

#[export] Instance box_shim : ShimHost Box :=
  {| gettid _ := 42;
     getpid _ := 42;
     host_errno _ := 0;
     fcntl_dupfd _ _ w :=
       let fd := fresh (b_fds w) in
       if fd <? 0 then (-1, w) else (fd, MkBox ({[fd]} ∪ b_fds w) (b_maps w) (b_files w));
     proc_self_fd _ := [];
     append_file p b w := MkBox (b_fds w) (b_maps w) (<[p := default [] (b_files w !! p) ++ b]> (b_files w));
     create_file p b w := MkBox (b_fds w) (b_maps w) (<[p := b]> (b_files w));
     read_dir _ := None;
     no_merge _ := true |}.

#[export] Instance box_fds : KernelFds Box.
Proof.
  refine {| fds := b_fds; maps := b_maps |}.
  - intros p w fd w'. cbn. destruct (fresh (b_fds w) <? 0) eqn:E; intros [= <- <-]; cbn; [done|].
    rewrite E. split_and!; [done|done|apply is_fresh].
  - by intros fd req a w r w' [= _ <-].
  - intros n fd w a w' [= <- <-]. cbn. split_and!; [done|done|apply is_fresh].
  - by intros.
  - by intros.
Defined.

#[export] Instance box_laws : ShimLaws Box.
Proof.
  refine {| file w q := default [] (b_files w !! q) |}; try done.
  - intros p b w q. cbn. case_decide as D; [subst; by rewrite lookup_insert_eq|by rewrite lookup_insert_ne].
  - intros p b w q. cbn. case_decide as D; [subst; by rewrite lookup_insert_eq|by rewrite lookup_insert_ne].
  - by intros fd x w r w' [= _ <-].
  - by intros w e fd He%elem_of_nil.
  - intros fd n w h w'. cbn. destruct (fresh (b_fds w) <? 0) eqn:E; intros [= <- <-]; cbn; [done|]. by rewrite E.
Defined.

Definition box_empty : Box := MkBox ∅ ∅ ∅.
Definition demo_proc : Proc := MkProc 42 true.
Definition demo_task : Tls * Box := kcov_enable X86_64 16 demo_proc tls_init box_empty.

Lemma demo_task_task : task X86_64 16 demo_proc (fst demo_task).
Proof. apply (Task_start _ _ _ _ box_empty (snd demo_task)). unfold demo_task. by destruct (kcov_enable _ _ _ _ _). Qed.

Lemma task_buffers_paired_witness : 0 <= LOCAL_FD (fst demo_task) /\ 0 <= REMOTE_FD (fst demo_task) /\ TSD (fst demo_task) = true /\ tls_ok demo_proc (fst demo_task).
Proof.
  split_and!; [vm_compute; discriminate|vm_compute; discriminate|vm_compute; reflexivity|].
  apply (task_buffers_paired X86_64 16 demo_proc (fst demo_task)). exact demo_task_task.
Defined.

(** A task that is flushed, runs the destructor of its key and then that of the
    image. *)
Lemma task_flushes_once_witness :
  exists t' w', run_exits X86_64 16 demo_proc [HFlush; HThreadDtor; HDtor] (fst demo_task) (snd demo_task) = (t', w') /\ cleared t' /\
    parse_pcs (file w' (bs "local-42.log")) = [4096; 4097].
Proof.
  destruct (task_flushes_once X86_64 16 demo_proc [HFlush; HThreadDtor] true (fst demo_task) (snd demo_task)) as (t' & w' & w1 & E & Hc & _ & Hl & _).
  - exact demo_task_task.
  - constructor; [left; reflexivity|constructor; [right; reflexivity|constructor]].
  - left. left. reflexivity.
  - vm_compute. discriminate.
  - vm_compute. discriminate.
  - exists t', w'. split_and!; [exact E|exact Hc|]. change (bs "local-42.log") with (local_log (KCOV_TID (fst demo_task))).
    rewrite Hl. vm_compute. reflexivity.
Defined.

Lemma enable_disable_no_leak_witness :
  exists t2 w2, kcov_disable X86_64 (fst demo_task) (snd demo_task) = (t2, w2) /\ fds w2 ⊆ (∅ : gset Z) /\ maps w2 ⊆ (∅ : gset Z).
Proof.
  destruct (kcov_disable X86_64 (fst demo_task) (snd demo_task)) as [t2 w2] eqn:E. exists t2, w2. split; [reflexivity|].
  destruct (kcov_enable X86_64 16 demo_proc tls_init box_empty) as [t1 w1] eqn:E1. unfold demo_task in E. rewrite E1 in E. cbn [fst snd] in E.
  exact (enable_disable_no_leak X86_64 16 demo_proc tls_init box_empty w1 w2 t1 t2 ltac:(by unfold cleared) E1 E).
Defined.
