(* ===== verification/TraceFiles.v ===== *)
(** Recorded traces as text: the writer of fuzz.rs, the reader of execprog.rs,
    and the translation to C of prog2c.rs.

    A file is its bytes (a file that is not UTF-8 is refused before this code).
    Shown: a trace that was written is read back call by call, in order, up to
    the reader's limit, calls without a name left out; an argument comes back
    as it was when it is not negative and as 0 when it is, because the reader
    parses the 64-bit hexadecimal text as a signed integer; and the C program
    made from a trace replays those same calls. *)
From S2P Require Import Prelude Text Syscalls SysDecode FuzzTypes.

(** * Writing *)

(** [0x{:x}] of each argument, separated by comma and space. *)
Definition join_args (l : list Z) : list Z :=
  match l with [] => [] | v :: l => fmt_x v ++ concat ((fun v => bs ", " ++ fmt_x v) <$> l) end.

Definition fmt_call (arch : Arch) (sc : Syscall) : list Z :=
  match syscall_name arch (nr sc) with
  | Some name => name ++ [40]
  | None => bs "syscall_" ++ fmt_i64 (nr sc) ++ [40]
  end ++ join_args (args sc) ++ bs ") = " ++ fmt_i64 (ret sc) ++ [10].

Definition write_trace (arch : Arch) (trace : list Syscall) : list Z := concat (fmt_call arch <$> trace).

(** * [parse_leading_long] *)

Definition is_digit (radix c : Z) : bool := match to_digit c radix with Some _ => true | None => false end.

(** The value and the rest; without digits the text itself. *)
Definition parse_leading_long (s : list Z) : Z * list Z :=
  let t := trim_start s in
  let '(neg, u) := match t with
                   | c :: u => if (c =? 45) || (c =? 43) then (c =? 45, u) else (false, t)
                   | [] => (false, [])
                   end in
  let '(radix, d) := match (match strip_prefix (bs "0x") u with Some d => Some d | None => strip_prefix (bs "0X") u end) with
                     | Some d => (16, d)
                     | None => (10, u)
                     end in
  let n := Z.to_nat (partition_point (is_digit radix) d) in
  if (n =? 0)%nat then (0, s) else
  let mag := default 0 (digits_val radix (2 ^ 63 - 1) 0 (take n d)) in
  (if neg : bool then - mag else mag, drop n d).

(** * Reading *)

Definition MAX_CALLS : nat := Z.to_nat 4096.

Definition trim_seps (s : list Z) : list Z := FuzzTypes.skip_while (fun c => (c =? 44) || (c =? 32)) s.

(** [for a in args.iter_mut()], [n] slots of the zeroed array left. *)
Fixpoint read_args (n : nat) (p : list Z) : list Z :=
  match n with
  | O => []
  | S n =>
      let '(val, next) := parse_leading_long p in
      match trim_seps next with
      | [] => val :: replicate n 0
      | p => val :: read_args n p
      end
  end.

(** The name and the arguments of a line. *)
Definition read_call (arch : Arch) (line : list Z) : option (Z * list Z) :=
  paren ← position (fun c => c =? 40) line;
  nr ← syscall_nr arch (take (Z.to_nat paren) line);
  Some (nr, read_args 6 (drop (Z.to_nat (paren + 1)) line)).

(** The loop over the lines, with room for [n] more calls. *)
Fixpoint read_lines {A} (call : list Z -> option A) (n : nat) (ls : list (list Z)) : list A :=
  match ls with
  | [] => []
  | l :: ls =>
      match n with
      | O => []
      | S m => match call l with Some c => c :: read_lines call m ls | None => read_lines call n ls end
      end
  end.

(** A line of [parse_trace] (execprog.rs) and of [cmd] (prog2c.rs). *)
Definition trace_call (arch : Arch) (line : list Z) : option (Z * list Z) :=
  if starts_with [35] line || bytes_eqb line [] then None else read_call arch line.

Definition trace_syscall (arch : Arch) (line : list Z) : option Syscall :=
  if starts_with [35] line then None else
  '(nr, args) ← read_call arch line;
  let ret := match find_sub (bs ") = ") line with
             | Some i => fst (parse_leading_long (drop (Z.to_nat (i + 4)) line))
             | None => 0
             end in
  Some (MkSyscall nr args ret).

Definition parse_trace (arch : Arch) (data : list Z) : list (Z * list Z) := read_lines (trace_call arch) MAX_CALLS (lines data).
Definition parse_syz (arch : Arch) (data : list Z) : list Syscall := read_lines (trace_syscall arch) MAX_CALLS (lines data).

(** * [generate] *)

Definition c_lines : list (list Z) :=
  [bs "// Generated by vock prog2c"; bs "#define _GNU_SOURCE"; bs "#include <unistd.h>"; bs "#include <sys/syscall.h>";
   bs "#include <sys/mman.h>"; bs "#include <fcntl.h>"; bs "#include <sched.h>"; bs "#include <signal.h>";
   bs "#include <string.h>"; bs "#include <stdio.h>"; bs "#include <stdlib.h>"; bs "#include <sys/socket.h>";
   bs "#include <sys/ioctl.h>"; bs "#include <net/if.h>"; bs "#include <linux/rtnetlink.h>"; bs "";
   bs "int main(void)"; bs "{"].

Definition c_header : list Z :=
  concat ((fun l => l ++ [10]) <$> c_lines)
  ++ 9 :: bs "long r;" ++ 10 :: 9 :: bs "(void)r;" ++ [10; 10].

Definition c_call (arch : Arch) (sc : Syscall) : list Z :=
  9 :: bs "// " ++ default (bs "unknown") (syscall_name arch (nr sc)) ++ [10] ++
  9 :: bs "r = syscall(" ++ fmt_i64 (nr sc) ++ bs "L" ++ concat ((fun a => bs ", " ++ fmt_x a ++ bs "UL") <$> args sc) ++ bs ");" ++ [10].

Definition generate (arch : Arch) (trace : list Syscall) : list Z :=
  c_header ++ concat (c_call arch <$> trace) ++ 10 :: 9 :: bs "return 0;" ++ 10 :: bs "}" ++ [10].

(** [cmd]: from the text of a trace to the text of the C program. *)
Definition prog2c_cmd (arch : Arch) (data : list Z) : list Z := generate arch (parse_syz arch data).

(** * Numbers *)

(** What the reader makes of an argument, and of a return value. *)
Definition back (a : Z) : Z := if a <? 0 then 0 else a.
Definition ret_back (r : Z) : Z := if r =? - 2 ^ 63 then 0 else r.

Definition is_i64 (x : Z) : Prop := - 2 ^ 63 <= x < 2 ^ 63.

Lemma is_digit_fmt fuel radix n tail : 2 <= radix <= 36 -> Forall (fun c => is_digit radix c = true) tail ->
  Forall (fun c => is_digit radix c = true) (fmt_digits fuel radix n tail).
Proof.
  intros Hr. revert n tail. induction fuel as [|fuel IH]; intros n tail Ht; [done|]. cbn [fmt_digits].
  assert (Forall (fun c => is_digit radix c = true) (digit_char (n mod radix) :: tail)).
  { constructor; [|done]. unfold is_digit. rewrite to_digit_char; [done|apply Z.mod_pos_bound; lia|lia]. }
  destruct (_ =? 0); [done|]. by apply IH.
Qed.

(** A value too large for the signed range is not read. *)
Lemma digits_val_over radix max acc s v : 0 < radix -> 0 <= acc -> max < v ->
  digits_val radix v acc s = Some v -> digits_val radix max acc s = None \/ acc = v.
Proof.
  intros Hr. revert acc. induction s as [|c s IH]; intros acc Ha Hv H; cbn [digits_val] in *; [right; by injection H|].
  destruct (to_digit c radix) as [d|] eqn:E; [|by left]. apply to_digit_range in E; [|lia].
  destruct (Z.leb_spec (acc * radix + d) v); [|done].
  destruct (Z.leb_spec (acc * radix + d) max); [|by left].
  destruct (IH (acc * radix + d) ltac:(nia) Hv H) as [? | E2]; [by left|lia].
Qed.

(** Digits [ds] of [n] in front of [rest]. *)
Lemma leading_digits radix n rest : 2 <= radix <= 36 -> 0 <= n < 2 ^ 64 -> (forall c t, rest = c :: t -> is_digit radix c = false) ->
  let d := fmt_digits 64 radix n [] in
  Z.to_nat (partition_point (is_digit radix) (d ++ rest)) = length d /\ (length d <> 0)%nat /\
  default 0 (digits_val radix (2 ^ 63 - 1) 0 d) = (if 2 ^ 63 <=? n then 0 else n).
Proof.
  intros Hr Hn Hrest d. assert (n < radix ^ Z.of_nat 64) as Hf.
  { change (Z.of_nat 64) with 64. apply (Z.lt_le_trans _ (2 ^ 64)); [lia|]. apply Z.pow_le_mono_l; lia. }
  split_and!.
  - rewrite partition_point_app by (apply is_digit_fmt; [lia|constructor]).
    assert (partition_point (is_digit radix) rest = 0) as ->.
    { destruct rest as [|c t]; [done|]. cbn [partition_point]. by rewrite (Hrest c t). }
    unfold zlen. lia.
  - unfold d. destruct (fmt_digits_head 63 radix n [] ltac:(lia)) as (x & l & -> & _). done.
  - destruct (Z.leb_spec (2 ^ 63) n) as [Hbig|Hs].
    + pose proof (digits_val_fmt 64 radix n n [] Hr ltac:(lia) Hf) as H. fold d in H. cbn [digits_val] in H.
      destruct (digits_val_over radix (2 ^ 63 - 1) 0 d n ltac:(lia) ltac:(lia) ltac:(lia) H) as [-> | E]; [done|lia].
    + pose proof (digits_val_fmt 64 radix (2 ^ 63 - 1) n [] Hr ltac:(lia) Hf) as H. fold d in H. by rewrite H.
Qed.

Lemma trim_start_cons c t : 33 <= c <= 126 -> trim_start (c :: t) = c :: t.
Proof. intros H. apply trim_start_graph. exact H. Qed.

(** A hexadecimal argument, as it is printed. *)
Lemma leading_hex v rest : is_i64 v -> (forall c t, rest = c :: t -> is_digit 16 c = false) ->
  parse_leading_long (fmt_x v ++ rest) = (back v, rest).
Proof.
  intros Hv Hrest. unfold parse_leading_long, fmt_x. rewrite <- app_assoc.
  change (bs "0x" ++ fmt_hex (as_u64 v) ++ rest) with (48 :: 120 :: fmt_hex (as_u64 v) ++ rest).
  rewrite trim_start_cons by lia. cbn [Z.eqb orb Pos.eqb]. 
  change (strip_prefix (bs "0x") (48 :: 120 :: ?l)) with (Some l). cbv beta iota zeta.
  pose proof (as_u64_range v) as Hu. unfold is_u64 in Hu. unfold fmt_hex.
  destruct (leading_digits 16 (as_u64 v) rest ltac:(lia) Hu Hrest) as (-> & Hn & Hd).
  rewrite (proj2 (Nat.eqb_neq _ _) Hn), take_app_length, drop_app_length, Hd. f_equal. unfold back, is_i64, as_u64 in *.
  destruct (Z.ltb_spec v 0), (Z.leb_spec (2 ^ 63) (v mod 2 ^ 64)); Z.to_euclidean_division_equations; lia.
Qed.

(** A decimal return value, as it is printed, at the end of a line. *)
Lemma leading_dec r : is_i64 r -> parse_leading_long (fmt_i64 r) = (ret_back r, []).
Proof.
  intros Hr. unfold is_i64 in Hr. unfold parse_leading_long, fmt_i64.
  assert (forall n, 0 <= n <= 2 ^ 63 -> let d := fmt_dec n in
    (match strip_prefix (bs "0x") d with Some d' => Some d' | None => strip_prefix (bs "0X") d end) = None /\
    exists c t, d = c :: t /\ 48 <= c <= 57) as Hdec.
  { intros n Hn d. destruct (fmt_digits_head 63 10 n [] ltac:(lia)) as (x & l & E & Hx). fold (fmt_dec n) in E.
    assert (Forall (fun c => is_digit 10 c = true) d) as Hd by (apply is_digit_fmt; [lia|constructor]).
    subst d. rewrite E in Hd |- *. split.
    - cbn [strip_prefix bs]. vm_compute (bs "0x"). vm_compute (bs "0X"). cbn [strip_prefix].
      destruct (48 =? digit_char x); [|done]. destruct l as [|y l]; [done|]. apply Forall_cons in Hd as [_ Hd]. apply Forall_cons in Hd as [Hy _].
      destruct (Z.eqb_spec 120 y) as [<-|]; [discriminate Hy|]. destruct (Z.eqb_spec 88 y) as [<-|]; [discriminate Hy|]. done.
    - exists (digit_char x), l. split; [done|]. unfold digit_char. destruct (Z.ltb_spec x 10); lia. }
  destruct (Z.ltb_spec r 0) as [Hneg|Hpos].
  - rewrite trim_start_cons by lia. cbn [Z.eqb Pos.eqb orb]. destruct (Hdec (- r) ltac:(lia)) as [-> _]. cbv beta iota zeta.
    destruct (leading_digits 10 (- r) [] ltac:(lia) ltac:(lia) ltac:(done)) as (En & Hn & Hd). rewrite !app_nil_r in *. fold (fmt_dec (- r)) in *.
    rewrite En, (proj2 (Nat.eqb_neq _ _) Hn), firstn_all, drop_all, Hd. f_equal. unfold ret_back.
    destruct (Z.leb_spec (2 ^ 63) (- r)), (Z.eqb_spec r (- 2 ^ 63)); lia.
  - destruct (Hdec r ltac:(lia)) as [E (c & t & Ec & Hc)]. rewrite Ec, trim_start_cons by lia.
    rewrite (proj2 (Z.eqb_neq c 45)), (proj2 (Z.eqb_neq c 43)) by lia. cbn [orb]. rewrite <- Ec, E. cbv beta iota zeta.
    destruct (leading_digits 10 r [] ltac:(lia) ltac:(lia) ltac:(done)) as (En & Hn & Hd). rewrite !app_nil_r in *. fold (fmt_dec r) in *.
    rewrite En, (proj2 (Nat.eqb_neq _ _) Hn), firstn_all, drop_all, Hd. f_equal. unfold ret_back.
    destruct (Z.leb_spec (2 ^ 63) r), (Z.eqb_spec r (- 2 ^ 63)); lia.
Qed.

Lemma fmt_x_head w t : fmt_x w ++ t = 48 :: 120 :: fmt_hex (as_u64 w) ++ t.
Proof. unfold fmt_x. by rewrite <- app_assoc. Qed.

(** The argument list of a line. *)
Lemma read_args_text n l rest : (length l = n)%nat -> l <> [] -> Forall is_i64 l ->
  read_args n (join_args l ++ 41 :: rest) = back <$> l.
Proof.
  intros Hn Hne Hl. revert n Hn Hne. induction Hl as [|v l Hv Hl IH]; intros n Hn Hne; [done|].
  destruct n as [|n]; [done|]. cbn in Hn. injection Hn as Hn. cbn [read_args join_args]. rewrite <- app_assoc.
  rewrite leading_hex; [|done|].
  - destruct l as [|w l].
    + subst n. done.
    + cbn [fmap list_fmap concat]. change (bs ", ") with [44; 32].
      specialize (IH n Hn ltac:(done)). cbn [join_args] in IH. rewrite <- !app_assoc in *. cbn [fmap list_fmap] in IH. rewrite <- IH.
      by rewrite !fmt_x_head.
  - intros c t E. assert (c = 44 \/ c = 41) as [-> | ->]; [|done..]. destruct l as [|w l]; [right; by injection E|left].
    rewrite fmap_cons in E. cbn [concat] in E. change (bs ", ") with [44; 32] in E. rewrite <- !app_assoc in E. cbn [app] in E. by injection E.
Qed.

(** * Lines *)

Lemma read_lines_take {A} (call : list Z -> option A) n ls : read_lines call n ls = take n (omap call ls).
Proof.
  revert n. induction ls as [|l ls IH]; intros n; cbn [read_lines omap list_omap]; [by rewrite take_nil|].
  destruct n as [|m]; [done|]. destruct (call l); [cbn [take]; by rewrite IH|apply IH].
Qed.

(** A call as a line, without its newline. *)
Definition call_line (arch : Arch) (sc : Syscall) : list Z :=
  call_name arch (nr sc) ++ 40 :: join_args (args sc) ++ bs ") = " ++ fmt_i64 (ret sc).

Lemma fmt_call_line arch sc : fmt_call arch sc = call_line arch sc ++ [10].
Proof.
  unfold fmt_call, call_line, call_name. destruct (syscall_name arch (nr sc)); by rewrite <- ?app_assoc; cbn [app]; rewrite <- ?app_assoc.
Qed.

(** Characters of a line: printable, and no closing parenthesis before the end
    of the arguments. *)
Definition plain (c : Z) : Prop := 32 <= c <= 126 /\ c <> 41.

Lemma plain_alnum l : Forall (fun c => 48 <= c <= 122) l -> Forall plain l.
Proof. intros H. eapply Forall_impl; [exact H|]. unfold plain. intros c Hc. cbv beta in Hc. lia. Qed.

Lemma plain_bs s : forallb (fun c => (32 <=? c) && (c <=? 126) && negb (c =? 41)) (bs s) = true -> Forall plain (bs s).
Proof.
  intros H. rewrite forallb_forall in H. apply Forall_forall. intros c Hc%list_elem_of_In%H.
  rewrite !andb_true_iff, !Z.leb_le, negb_true_iff, Z.eqb_neq in Hc. unfold plain. lia.
Qed.

Lemma plain_i64 v : Forall plain (fmt_i64 v).
Proof.
  assert (forall n, Forall plain (fmt_dec n)) as Hd by (intros n; apply plain_alnum, fmt_digits_alnum; [lia|constructor]).
  unfold fmt_i64. destruct (v <? 0); [constructor; [unfold plain; lia|apply Hd]|apply Hd].
Qed.

Lemma plain_name arch n : Forall plain (call_name arch n).
Proof.
  unfold call_name. destruct (syscall_name arch n) as [s|] eqn:E.
  - unfold syscall_name in E. apply fmap_Some in E as (r & Hr & ->). apply lookup_nr_elem in Hr. apply plain_bs.
    assert (forallb (fun e => forallb (fun c => (32 <=? c) && (c <=? 126) && negb (c =? 41)) (bs (snd e))) (arch_table arch) = true) as H
      by (destruct arch; vm_compute; reflexivity).
    rewrite forallb_forall in H. apply list_elem_of_In, H in Hr. exact Hr.
  - apply Forall_app. split; [by apply plain_bs|apply plain_i64].
Qed.

Lemma plain_args l : Forall plain (join_args l).
Proof.
  assert (forall v, Forall plain (fmt_x v)) as Hx.
  { intros v. apply Forall_app. split; [by apply plain_bs|apply plain_alnum, fmt_hex_alnum]. }
  destruct l as [|v l]; [constructor|]. cbn [join_args]. apply Forall_app. split; [apply Hx|].
  apply Forall_concat, Forall_fmap, Forall_forall. intros w _. apply Forall_app. split; [by apply plain_bs|apply Hx].
Qed.

Lemma lines_written arch tr : lines (write_trace arch tr) = call_line arch <$> tr.
Proof.
  unfold write_trace. rewrite <- (lines_concat_text (call_line arch <$> tr)).
  - f_equal. f_equal. rewrite <- list_fmap_compose. apply list_fmap_ext. intros k sc _. apply fmt_call_line.
  - apply Forall_fmap, Forall_forall. intros sc _. assert (forall l, Forall plain l -> Forall line_char l) as Hp.
    { intros l H. eapply Forall_impl; [exact H|]. unfold plain, line_char. lia. }
    cbn. unfold call_line. apply Forall_app. split; [apply Hp, plain_name|]. constructor; [by unfold line_char|].
    apply Forall_app. split; [apply Hp, plain_args|]. apply Forall_app. split; [|apply Hp, plain_i64].
    repeat constructor; unfold line_char; vm_compute; done.
Qed.

(** A number without a name prints as a name no number has. *)
Lemma unnamed_unknown arch n : syscall_nr arch (bs "syscall_" ++ fmt_i64 n) = None.
Proof.
  destruct (syscall_nr arch _) as [k|] eqn:E; [|done]. apply syscall_nr_inverts in E. exfalso.
  unfold syscall_name in E. apply fmap_Some in E as (r & Hr & Er). apply lookup_nr_elem in Hr.
  assert (forallb (fun e => negb (starts_with (bs "syscall_") (bs (snd e)))) (arch_table arch) = true) as H
    by (destruct arch; vm_compute; reflexivity).
  rewrite forallb_forall in H. apply list_elem_of_In, H in Hr. cbn [snd] in Hr. rewrite <- Er in Hr.
  apply negb_true_iff, not_true_iff_false in Hr. apply Hr, starts_with_iff. by eexists.
Qed.

Lemma position_paren s rest : Forall (fun c => c <> 40) s -> position (fun c => c =? 40) (s ++ 40 :: rest) = Some (zlen s).
Proof.
  induction 1 as [|x l Hx _ IH]; [done|]. cbn [app position]. rewrite (proj2 (Z.eqb_neq x 40)) by done.
  rewrite IH, zlen_cons. cbn. f_equal. lia.
Qed.

(** The calls of a trace that have a name: what is read of them. *)
Definition known (arch : Arch) (sc : Syscall) : bool := match syscall_name arch (nr sc) with Some _ => true | None => false end.
Definition call_ok (sc : Syscall) : Prop := length (args sc) = 6%nat /\ Forall is_i64 (args sc).

Lemma read_call_line arch sc : call_ok sc ->
  read_call arch (call_line arch sc) = if known arch sc then Some (nr sc, back <$> args sc) else None.
Proof.
  intros [Hl Ha]. unfold read_call, call_line. destruct (call_name_ok arch (nr sc)) as [Hn _].
  rewrite position_paren by done. cbn [mbind option_bind]. unfold zlen. rewrite Nat2Z.id, take_app_length.
  replace (Z.to_nat (Z.of_nat (length (call_name arch (nr sc))) + 1)) with (length (call_name arch (nr sc)) + 1)%nat by lia.
  rewrite <- drop_drop, drop_app_length. cbn [drop]. unfold known, call_name.
  destruct (syscall_name arch (nr sc)) as [s|] eqn:E.
  - rewrite (proj2 (syscall_nr_inverts arch s (nr sc)) E). cbn [mbind option_bind]. do 2 f_equal.
    change (bs ") = " ++ fmt_i64 (ret sc)) with (41 :: bs " = " ++ fmt_i64 (ret sc)).
    apply read_args_text; [done|by destruct (args sc)|done].
  - by rewrite unnamed_unknown.
Qed.

Lemma line_head arch sc : exists c t, call_line arch sc = c :: t /\ c <> 35.
Proof.
  destruct (call_name_ok arch (nr sc)) as [_ (c & t & E & Hc)]. unfold call_line. rewrite E. cbn [app]. eexists c, _. split; [done|lia].
Qed.

Lemma find_ret pre post : Forall plain pre -> find_sub (bs ") = ") (pre ++ bs ") = " ++ post) = Some (zlen pre).
Proof.
  induction 1 as [|c l [_ Hc] _ IH]; [done|]. cbn [app find_sub].
  assert (starts_with (bs ") = ") (c :: l ++ bs ") = " ++ post) = false) as ->.
  { apply not_true_iff_false. intros [r E]%starts_with_iff. change (bs ") = " ++ r) with (41 :: bs " = " ++ r) in E. injection E as E _. congruence. }
  rewrite IH, zlen_cons. cbn. f_equal. lia.
Qed.

Lemma trace_syscall_line arch sc : call_ok sc -> is_i64 (ret sc) ->
  trace_syscall arch (call_line arch sc) = if known arch sc then Some (MkSyscall (nr sc) (back <$> args sc) (ret_back (ret sc))) else None.
Proof.
  intros Hc Hr. unfold trace_syscall. destruct (line_head arch sc) as (c & t & E & H35).
  assert (starts_with [35] (call_line arch sc) = false) as ->.
  { apply not_true_iff_false. intros [r Er]%starts_with_iff. rewrite E in Er. injection Er as Er _. done. }
  rewrite read_call_line by done. destruct (known arch sc); [|done]. cbn [mbind option_bind]. do 2 f_equal.
  unfold call_line. set (pre := call_name arch (nr sc) ++ 40 :: join_args (args sc)).
  assert (call_name arch (nr sc) ++ 40 :: join_args (args sc) ++ bs ") = " ++ fmt_i64 (ret sc) = pre ++ bs ") = " ++ fmt_i64 (ret sc)) as ->
    by (unfold pre; by rewrite <- app_assoc).
  rewrite find_ret.
  - replace (Z.to_nat (zlen pre + 4)) with (length pre + length (bs ") = "))%nat by (unfold zlen; change (length (bs ") = ")) with 4%nat; lia).
    rewrite <- drop_drop, drop_app_length, drop_app_length. by rewrite leading_dec.
  - apply Forall_app. split; [apply plain_name|]. constructor; [by unfold plain|apply plain_args].
Qed.

Lemma omap_written {B} (call : list Z -> option B) (g : Syscall -> option B) (line : Syscall -> list Z) (tr : list Syscall) :
  (forall sc, sc ∈ tr -> call (line sc) = g sc) -> omap call (line <$> tr) = omap g tr.
Proof.
  induction tr as [|sc tr IH]; intros H; [done|]. cbn [fmap list_fmap omap list_omap]. rewrite H by left.
  destruct (g sc); [f_equal|]; apply IH; intros; apply H; by right.
Qed.

Lemma trace_call_line arch sc : call_ok sc ->
  trace_call arch (call_line arch sc) = if known arch sc then Some (nr sc, back <$> args sc) else None.
Proof.
  intros H. unfold trace_call. destruct (line_head arch sc) as (c & t & E & H35).
  assert (starts_with [35] (call_line arch sc) || bytes_eqb (call_line arch sc) [] = false) as ->.
  { rewrite E. apply orb_false_iff. split; [|done]. apply not_true_iff_false. intros [r Er]%starts_with_iff. by injection Er. }
  by apply read_call_line.
Qed.

(** C24: Reading back a recorded trace.  The replayer reads from the text of
    a trace, in order and up to its limit of calls, exactly the calls whose
    number has a name, with that number and the recorded arguments, except that
    every negative argument has become 0. *)
Theorem trace_roundtrip arch tr : Forall call_ok tr ->
  parse_trace arch (write_trace arch tr) =
  take MAX_CALLS (omap (fun sc => if known arch sc then Some (nr sc, back <$> args sc) else None) tr).
Proof.
  intros H. unfold parse_trace. rewrite read_lines_take, lines_written. f_equal. apply omap_written. intros sc Hsc.
  rewrite Forall_forall in H. by apply trace_call_line, H.
Qed.

Lemma trace_roundtrip_witness :
  parse_trace X86_64 (write_trace X86_64 [MkSyscall 257 [-100; 0x7f; 0; 0; 0; 0] 3; MkSyscall 9999 [0; 0; 0; 0; 0; 0] 0; MkSyscall 3 [3; 0; 0; 0; 0; 0] 0]) =
  [(257, [0; 0x7f; 0; 0; 0; 0]); (3, [3; 0; 0; 0; 0; 0])].
Proof.
  rewrite (trace_roundtrip X86_64).
  - vm_compute. reflexivity.
  - repeat constructor; unfold is_i64; lia.
Defined.

(** The C program of a trace.  The reproducer made from a recorded
    trace replays, in order and up to the limit, exactly the calls with a name,
    with the arguments and results as the reader gives them back. *)
Theorem prog2c_of_trace arch tr : Forall call_ok tr -> Forall (fun sc => is_i64 (ret sc)) tr ->
  prog2c_cmd arch (write_trace arch tr) =
  generate arch (take MAX_CALLS (omap (fun sc => if known arch sc
    then Some (MkSyscall (nr sc) (back <$> args sc) (ret_back (ret sc))) else None) tr)).
Proof.
  intros H Hr. unfold prog2c_cmd, parse_syz. rewrite read_lines_take, lines_written. do 2 f_equal. apply omap_written. intros sc Hsc.
  rewrite Forall_forall in H, Hr. apply trace_syscall_line; auto.
Qed.

Lemma prog2c_of_trace_witness :
  exists text, prog2c_cmd X86_64 (write_trace X86_64 [MkSyscall 3 [-1; 0; 0; 0; 0; 0] (-9)]) = text /\
    text = generate X86_64 [MkSyscall 3 [0; 0; 0; 0; 0; 0] (-9)].
Proof.
  eexists. split; [reflexivity|]. rewrite (prog2c_of_trace X86_64).
  - reflexivity.
  - repeat constructor; unfold is_i64; lia.
  - constructor; [unfold is_i64; cbn; lia|by constructor].
Defined.
