(* ===== verification/BpfProg.v ===== *)
(** ebpf.rs, the two programs: the encoding of BPF instructions and the bytecode
    of the sys_enter and sys_exit probes, run by a reference interpreter.

    The interpreter is the documented meaning of the few instructions and
    helpers the programs use, by the numbers of the instruction set and not by
    the builder's constants: 64-bit registers, a 512-byte stack, a context of
    8-byte words, and the value of the filter map.  A register that was not set,
    an access outside the stack, the context or the value, an unknown opcode and
    a jump out of the program are [Fail], what the kernel's verifier refuses, and
    so is, unless the kernel allows privileged programs that, a helper that reads
    stack bytes which were never written.
    Shown: decoding inverts the encoding; whatever the context, the map and the
    initial stack hold, each program ends without a refused access within as
    many steps as it has instructions, where the stack may be read so, and
    outputs one 80-byte record exactly when the current process is the one in the
    map and the ring has room, whose fields are the number, the arguments and the
    result of the call; eight bytes of the record are never written. *)
From S2P Require Import Prelude.

(** * Instructions *)

Definition BPF_LD : Z := 0x00.
Definition BPF_LDX : Z := 0x01.
Definition BPF_ST : Z := 0x02.
Definition BPF_STX : Z := 0x03.
Definition BPF_ALU64 : Z := 0x07.
Definition BPF_JMP : Z := 0x05.
Definition BPF_W : Z := 0x00.
Definition BPF_DW : Z := 0x18.
Definition BPF_IMM : Z := 0x00.
Definition BPF_MEM : Z := 0x60.
Definition BPF_ADD : Z := 0x00.
Definition BPF_RSH : Z := 0x70.
Definition BPF_MOV : Z := 0xb0.
Definition BPF_K : Z := 0x00.
Definition BPF_X : Z := 0x08.
Definition BPF_JEQ : Z := 0x10.
Definition BPF_JNE : Z := 0x50.
Definition BPF_CALL : Z := 0x80.
Definition BPF_EXIT : Z := 0x90.
Definition BPF_PSEUDO_MAP_FD : Z := 1.
Definition HELPER_MAP_LOOKUP_ELEM : Z := 1.
Definition HELPER_GET_CURRENT_PID_TGID : Z := 14.
Definition HELPER_RINGBUF_OUTPUT : Z := 130.

Definition insn (code dst src off imm : Z) : Z :=
  let regs := Z.lor (Z.land dst 0x0f) (as_u8 (Z.shiftl src 4)) in
  Z.lor (Z.lor (Z.lor code (as_u64 (Z.shiftl regs 8))) (as_u64 (Z.shiftl (as_u16 off) 16))) (as_u64 (Z.shiftl (as_u32 imm) 32)).

(** [a | b | c] of an opcode *)
Definition op (l : list Z) : Z := foldr Z.lor 0 l.

Definition ld_map_fd (dst fd : Z) : list Z := [insn (op [BPF_LD; BPF_DW; BPF_IMM]) dst BPF_PSEUDO_MAP_FD 0 fd; 0].

Definition movx (dst src : Z) : Z := insn (op [BPF_ALU64; BPF_MOV; BPF_X]) dst src 0 0.
Definition movk (dst imm : Z) : Z := insn (op [BPF_ALU64; BPF_MOV; BPF_K]) dst 0 0 imm.
Definition call (f : Z) : Z := insn (op [BPF_JMP; BPF_CALL]) 0 0 0 f.
Definition exit_ : Z := insn (op [BPF_JMP; BPF_EXIT]) 0 0 0 0.
Definition ldx (size dst src off : Z) : Z := insn (op [BPF_LDX; BPF_MEM; size]) dst src off 0.
Definition stx (dst src off : Z) : Z := insn (op [BPF_STX; BPF_MEM; BPF_DW]) dst src off 0.
Definition sti (size dst off imm : Z) : Z := insn (op [BPF_ST; BPF_MEM; size]) dst 0 off imm.

(** The first part of both programs: return 0 unless the current process is
    the one in the map. *)
Definition pid_filter (pid_fd : Z) : list Z :=
  [movx 6 1;
   call HELPER_GET_CURRENT_PID_TGID;
   insn (op [BPF_ALU64; BPF_RSH; BPF_K]) 0 0 0 32;
   movx 7 0;
   sti BPF_W 10 (-4) 0;
   movx 2 10;
   insn (op [BPF_ALU64; BPF_ADD; BPF_K]) 2 0 0 (-4)]
  ++ ld_map_fd 1 pid_fd ++
  [call HELPER_MAP_LOOKUP_ELEM;
   insn (op [BPF_JMP; BPF_JNE; BPF_K]) 0 0 2 0;
   movk 0 0;
   exit_;
   ldx BPF_W 1 0 0;
   insn (op [BPF_JMP; BPF_JEQ; BPF_X]) 1 7 2 0;
   movk 0 0;
   exit_].

(** The last part: output the 80 bytes below the frame pointer. *)
Definition output (ring_fd : Z) : list Z :=
  ld_map_fd 1 ring_fd ++
  [movx 2 10;
   insn (op [BPF_ALU64; BPF_ADD; BPF_K]) 2 0 0 (-80);
   movk 3 80;
   movk 4 0;
   call HELPER_RINGBUF_OUTPUT;
   movk 0 0;
   exit_].

Definition build_enter (pid_fd ring_fd : Z) : list Z :=
  pid_filter pid_fd ++
  [ldx BPF_DW 1 6 8; stx 10 1 (-72); sti BPF_W 10 (-80) 0] ++
  concat ((fun '(src_off, dst_off) => [ldx BPF_DW 1 6 src_off; stx 10 1 dst_off]) <$>
    [(16, -64); (24, -56); (32, -48); (40, -40); (48, -32); (56, -24)]) ++
  [sti BPF_DW 10 (-16) 0] ++ output ring_fd.

Definition build_exit (pid_fd ring_fd : Z) : list Z :=
  pid_filter pid_fd ++
  [sti BPF_W 10 (-80) 1; ldx BPF_DW 1 6 8; stx 10 1 (-72); ldx BPF_DW 1 6 16; stx 10 1 (-16)] ++
  ((fun dst_off => sti BPF_DW 10 dst_off 0) <$> [-64; -56; -48; -40; -32; -24]) ++ output ring_fd.

(** * The record *)

Definition EVENT_SIZE : Z := 72.

Record Event : Type := MkEvent { is_exit : Z; e_nr : Z; e_args : list Z; e_ret : Z }.

(** [read_unaligned] of the record at the head of a list of bytes. *)
Definition event_of (b : list Z) : Event :=
  let word n := le_val (take 8 (drop n b)) in
  MkEvent (as_i32 (le_val (take 4 b))) (as_i64 (word 8%nat)) (word <$> [16; 24; 32; 40; 48; 56]%nat) (as_i64 (word 64%nat)).

(** * A reference interpreter *)

Record Ins : Type := MkIns { code : Z; dst : Z; src : Z; off : Z; imm : Z }.

Definition decode (w : Z) : Ins :=
  MkIns (Z.land w 0xff) (Z.land (Z.shiftr w 8) 0xf) (Z.land (Z.shiftr w 12) 0xf)
    (as_signed 16 (Z.land (Z.shiftr w 16) 0xffff)) (as_signed 32 (Z.shiftr w 32)).

(** Addresses: the stack is [0, 512), the context starts at CTX and the map's
    value stands at VALUE. *)
Definition FP : Z := 512.
Definition CTX : Z := 65536.
Definition VALUE : Z := 131072.

(** What a run of a program depends on: the current process and thread, the value
    in the filter map, the context, whether the ring has room for a record, and
    whether the verifier lets helpers read stack bytes never written (privileged
    programs, Linux 6.4 on). *)
Record Env : Type := MkEnv
  { pid_tgid : Z; target : option Z; ctx : list Z; room : bool; uninit_ok : bool }.

(** [written] lists the ranges of the stack that were stored to. *)
Record Vm : Type := MkVm { pc : nat; regs : list (option Z); stack : Z -> Z; written : list (Z * nat); records : list (list Z) }.

Definition reg (m : Vm) (r : Z) : outcome Z := match regs m !! Z.to_nat r with Some (Some v) => Done v | _ => Fail end.
Definition set_reg (m : Vm) (r v : Z) : Vm := MkVm (S (pc m)) (<[Z.to_nat r := Some v]> (regs m)) (stack m) (written m) (records m).
Definition jump (m : Vm) (off : Z) : Vm := MkVm (pc m + 1 + Z.to_nat off) (regs m) (stack m) (written m) (records m).

(** [n] bytes of [v] on the stack at [a]. *)
Definition poke_stack (st : Z -> Z) (a : Z) (n : nat) (v : Z) : Z -> Z :=
  fun i => if (a <=? i) && (i <? a + Z.of_nat n) then default 0 (le_bytes n v !! Z.to_nat (i - a)) else st i.

Definition store (m : Vm) (a : Z) (n : nat) (v : Z) : outcome Vm :=
  if (0 <=? a) && (a + Z.of_nat n <=? FP) then Done (MkVm (S (pc m)) (regs m) (poke_stack (stack m) a n v) ((a, n) :: written m) (records m)) else Fail.

(** The programs load words of the context and the map's value. *)
Definition load (e : Env) (m : Vm) (a : Z) (n : nat) : outcome Z :=
  if (n =? 8)%nat && (CTX <=? a) && ((a - CTX) mod 8 =? 0) then of_option (get (ctx e) ((a - CTX) / 8))
  else if (n =? 4)%nat && (a =? VALUE) then of_option (target e)
  else Fail.

Definition size_of (code : Z) : nat := if Z.land code 0x18 =? 0x18 then 8%nat else 4%nat.

(** A helper call clobbers r1 to r5 and sets r0. *)
Definition after_call (m : Vm) (v : Z) (rs : list (list Z)) : Vm :=
  MkVm (S (pc m)) (Some v :: replicate 5 None ++ drop 6 (regs m)) (stack m) (written m) rs.

Definition read_stack (st : Z -> Z) (a n : Z) : list Z := st <$> seqZ a n.

(** A helper may read the [n] bytes at [a]. *)
Definition readable (e : Env) (m : Vm) (a n : Z) : bool :=
  (0 <=? a) && (0 <=? n) && (a + n <=? FP) &&
  (uninit_ok e || forallb (fun i => existsb (fun r => (fst r <=? i) && (i <? fst r + Z.of_nat (snd r))) (written m)) (seqZ a n)).

(** The helpers by their numbers: map_lookup_elem, get_current_pid_tgid and
    ringbuf_output. *)
Definition helper (e : Env) (m : Vm) (f : Z) : outcome Vm :=
  if f =? 14 then Done (after_call m (pid_tgid e) (records m))
  else if f =? 1 then
    _ ← reg m 1; k ← reg m 2;
    if readable e m k 4
    then Done (after_call m (match target e with
                             | Some _ => if bool_decide (read_stack (stack m) k 4 = [0; 0; 0; 0]) then VALUE else 0
                             | None => 0 end) (records m))
    else Fail
  else if f =? 130 then
    _ ← reg m 1; p ← reg m 2; n ← reg m 3; _ ← reg m 4;
    if readable e m p n
    then Done (after_call m (if room e then 0 else as_u64 (-11)) (if room e then records m ++ [read_stack (stack m) p n] else records m))
    else Fail
  else Fail.

(** One instruction, by its opcode: moves, add, shift, loads, stores, the load of
    a map, jumps, call; [Stop] is [exit]. *)
Definition step (e : Env) (p : list Ins) (m : Vm) : outcome (ctl Vm Vm) :=
  i ← of_option (p !! pc m);
  let c := code i in
  if c =? 0xbf then v ← reg m (src i); Done (Next (set_reg m (dst i) v))
  else if c =? 0xb7 then Done (Next (set_reg m (dst i) (as_u64 (imm i))))
  else if c =? 0x07 then v ← reg m (dst i); Done (Next (set_reg m (dst i) (v +₆₄ imm i)))
  else if c =? 0x77 then v ← reg m (dst i); Done (Next (set_reg m (dst i) (Z.shiftr v (imm i))))
  else if (c =? 0x61) || (c =? 0x79) then
    a ← reg m (src i); v ← load e m (a + off i) (size_of c); Done (Next (set_reg m (dst i) v))
  else if (c =? 0x62) || (c =? 0x7a) then
    a ← reg m (dst i); m ← store m (a + off i) (size_of c) (as_u64 (imm i)); Done (Next m)
  else if c =? 0x7b then
    a ← reg m (dst i); v ← reg m (src i); m ← store m (a + off i) 8 v; Done (Next m)
  else if c =? 0x18 then
    Done (Next (set_reg (MkVm (S (pc m)) (regs m) (stack m) (written m) (records m)) (dst i) (as_u64 (imm i))))
  else if c =? 0x1d then
    a ← reg m (dst i); b ← reg m (src i); Done (Next (jump m (if bool_decide (a = b) then off i else 0)))
  else if c =? 0x55 then
    a ← reg m (dst i); Done (Next (jump m (if a =? as_u64 (imm i) then 0 else off i)))
  else if c =? 0x85 then m ← helper e m (imm i); Done (Next m)
  else if c =? 0x95 then Done (Stop m)
  else Fail.

(** A program attached to a tracepoint, on a stack of any content. *)
Definition start_vm (junk : Z -> Z) : Vm :=
  MkVm 0 [None; Some CTX; None; None; None; None; None; None; None; None; Some FP] junk [] [].
Definition run_bpf (e : Env) (junk : Z -> Z) (p : list Z) : outcome (list (list Z)) :=
  m ← loop (length p) (step e (decode <$> p)) (start_vm junk); Done (records m).

(** * Decoding inverts encoding *)

Definition ins_ok (i : Ins) : Prop :=
  0 <= code i < 256 /\ 0 <= dst i < 16 /\ 0 <= src i < 16 /\ - 2 ^ 15 <= off i < 2 ^ 15 /\ - 2 ^ 31 <= imm i < 2 ^ 31.

Lemma insn_sum i : ins_ok i ->
  insn (code i) (dst i) (src i) (off i) (imm i) =
  code i + (dst i + src i * 16) * 2 ^ 8 + (off i mod 2 ^ 16) * 2 ^ 16 + (imm i mod 2 ^ 32) * 2 ^ 32.
Proof.
  intros (Hc & Hd & Hs & _ & _). unfold insn, as_u8, as_u16, as_u32, as_u64.
  pose proof (Z.mod_pos_bound (off i) (2 ^ 16) ltac:(lia)) as Ho. pose proof (Z.mod_pos_bound (imm i) (2 ^ 32) ltac:(lia)) as Hi.
  change 0x0f with (Z.ones 4). rewrite Z.land_ones, (Z.mod_small (dst i)) by lia.
  rewrite (Z.shiftl_mul_pow2 (src i)) by lia. rewrite (Z.mod_small (src i * 2 ^ 4)) by lia.
  rewrite <- (Z.shiftl_mul_pow2 (src i)), lor_add by lia.
  change (2 ^ 4) with 16. rewrite (Z.mod_small (Z.shiftl (dst i + src i * 16) 8)) by (rewrite Z.shiftl_mul_pow2 by lia; nia).
  rewrite (Z.mod_small (Z.shiftl (off i mod 2 ^ 16) 16)) by (rewrite Z.shiftl_mul_pow2 by lia; nia).
  rewrite (Z.mod_small (Z.shiftl (imm i mod 2 ^ 32) 32)) by (rewrite Z.shiftl_mul_pow2 by lia; nia).
  rewrite (lor_add (code i)) by lia.
  rewrite (lor_add (code i + _) _ 16) by lia. by rewrite (lor_add (_ + _) _ 32) by lia.
Qed.

Lemma decode_encoded i : ins_ok i -> decode (insn (code i) (dst i) (src i) (off i) (imm i)) = i.
Proof.
  intros H. rewrite (insn_sum i H). destruct H as (Hc & Hd & Hs & Ho & Hi). destruct i as [c d s o im]. cbn [code dst src off imm] in *.
  pose proof (Z.mod_pos_bound o (2 ^ 16) ltac:(lia)) as Ho'. pose proof (Z.mod_pos_bound im (2 ^ 32) ltac:(lia)) as Hi'.
  unfold decode, as_signed. change 0xff with (Z.ones 8). change 0xf with (Z.ones 4). change 0xffff with (Z.ones 16).
  rewrite !Z.land_ones, !Z.shiftr_div_pow2 by lia. f_equal; Z.to_euclidean_division_equations; lia.
Qed.

(** * The two programs *)

Definition i32 (x : Z) : Prop := - 2 ^ 31 <= x < 2 ^ 31.

(** The program as decoded instructions. *)
Definition filter_ins (pid_fd : Z) : list Ins :=
  [MkIns 0xbf 6 1 0 0; MkIns 0x85 0 0 0 14; MkIns 0x77 0 0 0 32; MkIns 0xbf 7 0 0 0; MkIns 0x62 10 0 (-4) 0; MkIns 0xbf 2 10 0 0;
   MkIns 0x07 2 0 0 (-4); MkIns 0x18 1 1 0 pid_fd; MkIns 0 0 0 0 0; MkIns 0x85 0 0 0 1; MkIns 0x55 0 0 2 0; MkIns 0xb7 0 0 0 0;
   MkIns 0x95 0 0 0 0; MkIns 0x61 1 0 0 0; MkIns 0x1d 1 7 2 0; MkIns 0xb7 0 0 0 0; MkIns 0x95 0 0 0 0].
Definition output_ins (ring_fd : Z) : list Ins :=
  [MkIns 0x18 1 1 0 ring_fd; MkIns 0 0 0 0 0; MkIns 0xbf 2 10 0 0; MkIns 0x07 2 0 0 (-80); MkIns 0xb7 3 0 0 80; MkIns 0xb7 4 0 0 0;
   MkIns 0x85 0 0 0 130; MkIns 0xb7 0 0 0 0; MkIns 0x95 0 0 0 0].
Definition enter_ins (pid_fd ring_fd : Z) : list Ins :=
  filter_ins pid_fd ++
  [MkIns 0x79 1 6 8 0; MkIns 0x7b 10 1 (-72) 0; MkIns 0x62 10 0 (-80) 0;
   MkIns 0x79 1 6 16 0; MkIns 0x7b 10 1 (-64) 0; MkIns 0x79 1 6 24 0; MkIns 0x7b 10 1 (-56) 0;
   MkIns 0x79 1 6 32 0; MkIns 0x7b 10 1 (-48) 0; MkIns 0x79 1 6 40 0; MkIns 0x7b 10 1 (-40) 0;
   MkIns 0x79 1 6 48 0; MkIns 0x7b 10 1 (-32) 0; MkIns 0x79 1 6 56 0; MkIns 0x7b 10 1 (-24) 0; MkIns 0x7a 10 0 (-16) 0]
  ++ output_ins ring_fd.
Definition exit_ins (pid_fd ring_fd : Z) : list Ins :=
  filter_ins pid_fd ++
  [MkIns 0x62 10 0 (-80) 1; MkIns 0x79 1 6 8 0; MkIns 0x7b 10 1 (-72) 0; MkIns 0x79 1 6 16 0; MkIns 0x7b 10 1 (-16) 0;
   MkIns 0x7a 10 0 (-64) 0; MkIns 0x7a 10 0 (-56) 0; MkIns 0x7a 10 0 (-48) 0; MkIns 0x7a 10 0 (-40) 0; MkIns 0x7a 10 0 (-32) 0; MkIns 0x7a 10 0 (-24) 0]
  ++ output_ins ring_fd.

Lemma decode_map_fd r fd : 0 <= r < 16 -> i32 fd -> decode <$> ld_map_fd r fd = [MkIns 0x18 r 1 0 fd; MkIns 0 0 0 0 0].
Proof.
  intros Hd Hf. unfold ld_map_fd. cbn [fmap list_fmap]. f_equal.
  apply (decode_encoded (MkIns 0x18 r 1 0 fd)). unfold ins_ok, i32 in *. cbn [code dst src off imm]. lia.
Qed.

Lemma decode_filter pid_fd : i32 pid_fd -> decode <$> pid_filter pid_fd = filter_ins pid_fd.
Proof. intros H. unfold pid_filter. rewrite !fmap_app, decode_map_fd by (done || lia). vm_compute. reflexivity. Qed.

Lemma decode_output ring_fd : i32 ring_fd -> decode <$> output ring_fd = output_ins ring_fd.
Proof. intros H. unfold output. rewrite !fmap_app, decode_map_fd by (done || lia). vm_compute. reflexivity. Qed.

Lemma decode_enter pid_fd ring_fd : i32 pid_fd -> i32 ring_fd -> decode <$> build_enter pid_fd ring_fd = enter_ins pid_fd ring_fd.
Proof.
  intros H1 H2. unfold build_enter, enter_ins. rewrite !fmap_app, decode_filter, decode_output by done. reflexivity.
Qed.

Lemma decode_exit pid_fd ring_fd : i32 pid_fd -> i32 ring_fd -> decode <$> build_exit pid_fd ring_fd = exit_ins pid_fd ring_fd.
Proof.
  intros H1 H2. unfold build_exit, exit_ins. rewrite !fmap_app, decode_filter, decode_output by done. reflexivity.
Qed.

(** * What a stack reads back *)

Lemma read_poke_same st a n v : read_stack (poke_stack st a n v) a (Z.of_nat n) = le_bytes n v.
Proof.
  apply list_eq_same_length with (n := n); [by rewrite length_le_bytes| |].
  { unfold read_stack. by rewrite length_fmap, length_seqZ, Nat2Z.id. }
  intros i x y Hi Hx Hy. unfold read_stack in Hx. rewrite list_lookup_fmap, lookup_seqZ_lt in Hx by lia.
  simpl in Hx. unfold poke_stack in Hx. rewrite !(proj2 (Z.leb_le _ _)), (proj2 (Z.ltb_lt _ _)) in Hx by lia. simpl in Hx.
  replace (Z.to_nat (a + Z.of_nat i - a)) with i in Hx by lia. rewrite Hy in Hx. by simplify_eq/=.
Qed.

Lemma read_poke_other st a n v b m :
  b + m <= a \/ a + Z.of_nat n <= b -> read_stack (poke_stack st a n v) b m = read_stack st b m.
Proof.
  intros H. unfold read_stack. apply list_fmap_ext. intros _ i Hi%list_elem_of_lookup_2%elem_of_seqZ. unfold poke_stack.
  by rewrite (proj2 (andb_false_iff _ _)) by (rewrite Z.leb_gt, Z.ltb_ge; lia).
Qed.

Lemma read_stack_slice st a m n k : (n + k <= Z.to_nat m)%nat ->
  take k (drop n (read_stack st a m)) = read_stack st (a + Z.of_nat n) (Z.of_nat k).
Proof.
  intros H. unfold read_stack. rewrite <- fmap_drop, <- fmap_take. f_equal. apply list_eq. intros i.
  destruct (decide (i < k)%nat).
  - rewrite lookup_take_lt, lookup_drop, !lookup_seqZ_lt by lia. f_equal. lia.
  - rewrite lookup_take_ge, lookup_seqZ_ge by lia. done.
Qed.

(** * Running the programs *)

Lemma loop_step (e : Env) p n m m' : step e p m = Done (Next m') -> loop (S n) (step e p) m = loop n (step e p) m'.
Proof. intros H. cbn [loop]. by rewrite H. Qed.

Lemma loop_stop (e : Env) p n m m' : step e p m = Done (Stop m') -> loop (S n) (step e p) m = Done m'.
Proof. intros H. cbn [loop]. by rewrite H. Qed.

(** One instruction, when the registers it reads are known. *)
Ltac run_step :=
  lazymatch goal with |- loop (S ?n) (step ?e ?p) ?m = _ =>
    let r := eval lazy -[bool_decide Z.shiftr as_u64 read_stack poke_stack] in (step e p m) in
    lazymatch r with
    | Done (Next ?m') => refine (eq_trans (loop_step e p n m m' eq_refl) _)
    | Done (Stop ?m') => refine (eq_trans (loop_stop e p n m m' eq_refl) _)
    end;
    change (as_u64 508) with 508; change (as_u64 432) with 432; change (as_u64 80) with 80;
    change (as_u64 0) with 0; change (as_u64 1) with 1
  end.

Lemma key_ok st : read_stack (poke_stack st 508 4 0) 508 4 = [0; 0; 0; 0].
Proof. apply (read_poke_same st 508 4 0). Qed.

(** The filter lets the program go on exactly when the process is watched. *)
Definition watched (e : Env) : bool := bool_decide (target e = Some (Z.shiftr (pid_tgid e) 32)).

(** What a probe that reports [ev] puts into the ring. *)
Definition reports (e : Env) (ev : Event) (rs : list (list Z)) : Prop :=
  if watched e && room e then exists r, rs = [r] /\ length r = 80%nat /\ event_of r = ev else rs = [].

(** The stack each program leaves. *)
Definition enter_stack (junk : Z -> Z) (nr a0 a1 a2 a3 a4 a5 : Z) : Z -> Z :=
  let st := poke_stack (poke_stack (poke_stack junk 508 4 0) 440 8 nr) 432 4 0 in
  poke_stack (poke_stack (poke_stack (poke_stack (poke_stack (poke_stack (poke_stack st 448 8 a0) 456 8 a1) 464 8 a2) 472 8 a3) 480 8 a4) 488 8 a5) 496 8 0.
Definition exit_stack (junk : Z -> Z) (nr ret : Z) : Z -> Z :=
  let st := poke_stack (poke_stack (poke_stack (poke_stack junk 508 4 0) 432 4 1) 440 8 nr) 496 8 ret in
  poke_stack (poke_stack (poke_stack (poke_stack (poke_stack (poke_stack st 448 8 0) 456 8 0) 464 8 0) 472 8 0) 480 8 0) 488 8 0.

Ltac run_to_filter := do 9 run_step; rewrite (bool_decide_true _ (key_ok _)); do 3 run_step.

(** Both programs differ after the filter only: run one along each path. *)
Ltac run_probe :=
  match goal with |- context [match ?tg with Some _ => _ | None => _ end] => idtac | _ => idtac end;
  lazymatch goal with
  | |- context [bool_decide (Some ?tg = Some (Z.shiftr ?pt 32))] =>
      destruct (decide (tg = Z.shiftr pt 32));
      [ rewrite (bool_decide_true (Some tg = _)) by congruence;
        lazymatch goal with |- context [true && ?rm] => destruct rm end;
        eexists; (split; [run_to_filter; rewrite bool_decide_true by done; repeat run_step; reflexivity | reflexivity])
      | rewrite (bool_decide_false (Some tg = _)) by congruence;
        eexists; (split; [run_to_filter; rewrite bool_decide_false by done; repeat run_step; reflexivity | reflexivity]) ]
  | _ => eexists; (split; [repeat run_step; reflexivity | reflexivity])
  end.

Lemma run_enter e pf rf junk c0 nr a0 a1 a2 a3 a4 a5 : uninit_ok e = true -> ctx e = [c0; nr; a0; a1; a2; a3; a4; a5] ->
  exists m, loop 42 (step e (enter_ins pf rf)) (start_vm junk) = Done m /\
    records m = if watched e && room e then [read_stack (enter_stack junk nr a0 a1 a2 a3 a4 a5) 432 80] else [].
Proof.
  intros Hu Hctx. destruct e as [pt tg cx rm un]. cbn [ctx uninit_ok] in Hu, Hctx. subst cx un. unfold watched. cbn [target pid_tgid room].
  destruct tg as [tg|]; run_probe.
Qed.

Lemma run_exit e pf rf junk c0 nr ret : uninit_ok e = true -> ctx e = [c0; nr; ret] ->
  exists m, loop 37 (step e (exit_ins pf rf)) (start_vm junk) = Done m /\
    records m = if watched e && room e then [read_stack (exit_stack junk nr ret) 432 80] else [].
Proof.
  intros Hu Hctx. destruct e as [pt tg cx rm un]. cbn [ctx uninit_ok] in Hu, Hctx. subst cx un. unfold watched. cbn [target pid_tgid room].
  destruct tg as [tg|]; run_probe.
Qed.

(** * The record a stack holds *)

Lemma word_of_stack st (n : nat) v : (n + 8 <= 80)%nat -> is_u64 v ->
  read_stack st (432 + Z.of_nat n) 8 = le_bytes 8 v -> le_val (take 8 (drop n (read_stack st 432 80))) = v.
Proof.
  intros Hn Hv H. rewrite read_stack_slice by (simpl; lia). change (Z.of_nat 8) with 8. rewrite H, le_val_le_bytes by (unfold is_u64 in Hv; lia).
  apply Z.mod_small. exact Hv.
Qed.

Lemma int_of_stack st v : 0 <= v < 2 -> read_stack st 432 4 = le_bytes 4 v -> as_i32 (le_val (take 4 (read_stack st 432 80))) = v.
Proof.
  intros Hv H. rewrite <- (drop_0 (read_stack st 432 80)), read_stack_slice by (simpl; lia). change (Z.of_nat 4) with 4. change (432 + Z.of_nat 0) with 432.
  rewrite H, le_val_le_bytes by lia. rewrite Z.mod_small by lia. assert (v = 0 \/ v = 1) as [-> | ->] by lia; reflexivity.
Qed.

(** The top store to an address is what is read there. *)
Ltac read_back :=
  repeat (rewrite read_poke_other by lia);
  lazymatch goal with
  | |- read_stack (poke_stack _ _ ?n _) _ _ = _ => apply (read_poke_same _ _ n)
  end.

Lemma enter_event junk nr args : is_u64 nr -> Forall is_u64 args -> length args = 6%nat ->
  event_of (read_stack (match args with [a0; a1; a2; a3; a4; a5] => enter_stack junk nr a0 a1 a2 a3 a4 a5 | _ => junk end) 432 80)
  = MkEvent 0 (as_i64 nr) args 0.
Proof.
  intros Hnr Hargs Hl. destruct args as [|a0 [|a1 [|a2 [|a3 [|a4 [|a5 [|]]]]]]]; try discriminate.
  repeat match goal with H : Forall _ (_ :: _) |- _ => apply Forall_cons in H as [? H] end.
  unfold event_of. rewrite int_of_stack with (v := 0) by (lia || (unfold enter_stack; read_back)).
  cbn [fmap list_fmap].
  rewrite (word_of_stack _ 8 nr), (word_of_stack _ 16 a0), (word_of_stack _ 24 a1), (word_of_stack _ 32 a2), (word_of_stack _ 40 a3),
    (word_of_stack _ 48 a4), (word_of_stack _ 56 a5), (word_of_stack _ 64 0) by (lia || done || (simpl Z.add; unfold enter_stack; read_back)).
  reflexivity.
Qed.

Lemma exit_event junk nr ret : is_u64 nr -> is_u64 ret ->
  event_of (read_stack (exit_stack junk nr ret) 432 80) = MkEvent 1 (as_i64 nr) (replicate 6 0) (as_i64 ret).
Proof.
  intros Hnr Hret. unfold event_of. rewrite int_of_stack with (v := 1) by (lia || (unfold exit_stack; read_back)).
  cbn [fmap list_fmap].
  rewrite (word_of_stack _ 8 nr), (word_of_stack _ 16 0), (word_of_stack _ 24 0), (word_of_stack _ 32 0), (word_of_stack _ 40 0),
    (word_of_stack _ 48 0), (word_of_stack _ 56 0), (word_of_stack _ 64 ret) by (lia || done || (simpl Z.add; unfold exit_stack; read_back)).
  reflexivity.
Qed.

Lemma length_read_stack st a n : length (read_stack st a n) = Z.to_nat n.
Proof. unfold read_stack. by rewrite length_fmap, length_seqZ. Qed.

(** What a run that outputs the 80 bytes above address 432 reports. *)
Lemma reports_stack e st ev rs : event_of (read_stack st 432 80) = ev ->
  rs = (if watched e && room e then [read_stack st 432 80] else []) -> reports e ev rs.
Proof.
  intros Hev ->. unfold reports. destruct (watched e && room e); [|done].
  exists (read_stack st 432 80). by rewrite length_read_stack.
Qed.

(** * The property *)

(** C22: The programs the backend loads at raw_syscalls:sys_enter and sys_exit
    run, on a stack of any content, to their exit within as many steps as they
    have instructions and, on a kernel that lets privileged programs pass stack
    bytes never written to a helper, without an access the verifier would refuse
    (a register never set, an access outside the stack, the context or the map's
    value).  They output one 80-byte record when the current process is the one
    in the filter map and the ring has room for it, and else nothing; its fields
    are the number and the six arguments at the entry, the number and the result
    at the exit.  (Another kernel refuses both programs: [padding_refused].) *)
Theorem probes_report_calls pf rf e junk c0 nr (args : list Z) ret :
  uninit_ok e = true -> i32 pf -> i32 rf -> is_u64 nr -> Forall is_u64 args -> length args = 6%nat -> is_u64 ret ->
  (ctx e = c0 :: nr :: args ->
   exists rs, run_bpf e junk (build_enter pf rf) = Done rs /\ reports e (MkEvent 0 (as_i64 nr) args 0) rs) /\
  (ctx e = [c0; nr; ret] ->
   exists rs, run_bpf e junk (build_exit pf rf) = Done rs /\ reports e (MkEvent 1 (as_i64 nr) (replicate 6 0) (as_i64 ret)) rs).
Proof.
  intros Hu Hpf Hrf Hnr Hargs Hl Hret. unfold run_bpf. split; intros Hctx.
  - rewrite decode_enter by done. pose proof (enter_event junk nr args Hnr Hargs Hl) as Hev.
    destruct args as [|a0 [|a1 [|a2 [|a3 [|a4 [|a5 [|]]]]]]]; try discriminate.
    destruct (run_enter e pf rf junk _ _ _ _ _ _ _ _ Hu Hctx) as (m & Hm & Hr).
    exists (records m). split; [|exact (reports_stack _ _ _ _ Hev Hr)].
    change (length (build_enter pf rf)) with 42%nat. by rewrite Hm.
  - rewrite decode_exit by done. destruct (run_exit e pf rf junk _ _ _ Hu Hctx) as (m & Hm & Hr).
    exists (records m). split; [|exact (reports_stack _ _ _ _ (exit_event junk nr ret Hnr Hret) Hr)].
    change (length (build_exit pf rf)) with 37%nat. by rewrite Hm.
Qed.

(** openat(AT_FDCWD, ...) = 3 of the watched process 7. *)
Definition demo_env (uninit_ok : bool) : Env := MkEnv (7 * 2 ^ 32 + 9) (Some 7) [0; 257; 2 ^ 64 - 100; 1; 2; 3; 4; 5] true uninit_ok.

Lemma probes_report_calls_witness :
  exists rs, run_bpf (demo_env true) (fun _ => 0xAA) (build_enter 4 5) = Done rs /\
    reports (demo_env true) (MkEvent 0 257 [2 ^ 64 - 100; 1; 2; 3; 4; 5] 0) rs.
Proof.
  apply (probes_report_calls 4 5 (demo_env true) (fun _ => 0xAA)
    0 257 [2 ^ 64 - 100; 1; 2; 3; 4; 5] 3); unfold i32, is_u64; repeat constructor; lia.
Defined.

(** Neither program writes bytes 4 to 7 and 72 to 75 of its record: they hold
    what the stack held, and where the verifier asks for written bytes it refuses
    the programs. *)
Lemma padding_refused :
  run_bpf (demo_env false) (fun _ => 0xAA) (build_enter 4 5) = Fail /\ run_bpf (demo_env false) (fun _ => 0xAA) (build_exit 4 5) = Fail /\
  exists r, run_bpf (demo_env true) (fun _ => 0xAA) (build_enter 4 5) = Done [r] /\
    take 4 (drop 4 r) = replicate 4 0xAA /\ take 4 (drop 72 r) = replicate 4 0xAA.
Proof. split_and!; [vm_compute; reflexivity|vm_compute; reflexivity|]. eexists. vm_compute. by split_and!. Qed.
