(* ===== verification/BpfRing.v ===== *)
(** ebpf.rs, the ring buffer: [drain] and the loop of [run] that calls it.

    The kernel appends records to a ring of RINGBUF_SZ bytes, each an 8-byte
    header (length and flags, page offset) and the data, padded to 8 bytes,
    at a position that only grows; a record that passes the end of the ring
    goes on at its start.  The user side maps the ring's pages once: [fetch]
    of bytes past the last one is [Panic].
    Shown: whatever batches the records come in, and with a record half
    written at the end of any of them, the calls of a single-threaded target
    are logged once each, in order, with their arguments and results, for fewer
    than 5957 records, while each batch fits the ring; the record at position
    5957, counted from 0, passes the end of the ring and [drain] reads outside
    the mapping. *)
From S2P Require Import Prelude SysDecode BpfProg.

Definition RINGBUF_SZ : Z := 256 * 1024.
Definition BPF_RINGBUF_BUSY_BIT : Z := Z.shiftl 1 31.
Definition BPF_RINGBUF_DISCARD_BIT : Z := Z.shiftl 1 30.
Definition BPF_RINGBUF_HDR_SZ : Z := 8.

Definition Pending : Type := option (Z * list Z).

(** [n] bytes of the mapping at offset [off]. *)
Definition fetch (mem : Z -> Z) (off n : Z) : outcome (list Z) :=
  if off + n <=? RINGBUF_SZ then Done (read_stack mem off n) else Panic.

(** Matching an exit with the pending entry. *)
Definition match_event (s : Pending * list Syscall) (e : Event) : Pending * list Syscall :=
  let '(pending, log) := s in
  if is_exit e =? 0 then (Some (e_nr e, e_args e), log)
  else
    match pending with
    | Some (pnr, pargs) =>
        if pnr =? e_nr e then (None, log ++ [MkSyscall pnr (as_i64 <$> pargs) (e_ret e)]) else (pending, log)
    | None => (pending, log)
    end.

(** One round of the [while]: the consumer position, the pending entry and the log. *)
Definition drain_step (mem : Z -> Z) (prod : Z) (s : Z * (Pending * list Syscall)) :
    outcome (ctl (Z * (Pending * list Syscall)) (Z * (Pending * list Syscall))) :=
  let '(cpos, pl) := s in
  if cpos <? prod then
    let off := Z.land cpos (RINGBUF_SZ - 1) in
    w ← fetch mem off 4;
    let hdr := le_val w in
    if negb (Z.land hdr BPF_RINGBUF_BUSY_BIT =? 0) then Done (Stop s)
    else
      let data_len := Z.shiftr (as_u32 (Z.shiftl hdr 2)) 2 in
      let rec_len := (data_len + BPF_RINGBUF_HDR_SZ + 7) / 8 * 8 in
      pl ← (if (Z.land hdr BPF_RINGBUF_DISCARD_BIT =? 0) && (EVENT_SIZE <=? data_len)
            then b ← fetch mem (off + BPF_RINGBUF_HDR_SZ) EVENT_SIZE; Done (match_event pl (event_of b))
            else Done pl);
      Done (Next (cpos +₆₄ rec_len, pl))
  else Done (Stop s).

(** A record takes 8 bytes at least. *)
Definition drain (mem : Z -> Z) (prod cpos : Z) (pl : Pending * list Syscall) : outcome (Z * (Pending * list Syscall)) :=
  loop (S (Z.to_nat ((prod - cpos + 7) / 8))) (drain_step mem prod) (cpos, pl).

(** * The kernel's side *)

(** A committed record, and one reserved but not yet committed. *)
Definition frame (pg : Z) (r : list Z) : list Z := le_bytes 4 (zlen r) ++ le_bytes 4 pg ++ r.
Definition busy_frame (pg : Z) : list Z := le_bytes 4 (BPF_RINGBUF_BUSY_BIT + 80) ++ le_bytes 4 pg ++ replicate 80 0.

(** The records of [b], and perhaps a busy one, written from position [pos] on. *)
Definition batch_bytes (pg : Z) (b : list (list Z) * bool) : list Z :=
  concat (frame pg <$> fst b) ++ if snd b then busy_frame pg else [].
Definition produce (pg : Z) (mem : Z -> Z) (pos : Z) (b : list (list Z) * bool) : Z -> Z :=
  fun a => default (mem a) (batch_bytes pg b !! Z.to_nat ((a - pos) mod RINGBUF_SZ)).

(** The rounds of [run]: what the kernel wrote since the last one is drained. *)
Fixpoint run_drains (pg : Z) (mem : Z -> Z) (cpos : Z) (pl : Pending * list Syscall) (batches : list (list (list Z) * bool)) :
    outcome (Pending * list Syscall) :=
  match batches with
  | [] => Done pl
  | b :: rest =>
      let mem := produce pg mem cpos b in
      s ← drain mem (cpos + zlen (batch_bytes pg b)) cpos pl;
      let '(cpos, pl) := s in run_drains pg mem cpos pl rest
  end.

(** * Reading what was written *)

(** The ring holds [bs] from position [pos] on. *)
Definition holds (mem : Z -> Z) (pos : Z) (bs : list Z) : Prop :=
  forall j b, bs !! j = Some b -> mem ((pos + Z.of_nat j) mod RINGBUF_SZ) = b.

Lemma produce_holds pg mem pos b : zlen (batch_bytes pg b) <= RINGBUF_SZ -> holds (produce pg mem pos b) pos (batch_bytes pg b).
Proof.
  intros Hl j x Hj. unfold produce. pose proof (lookup_lt_Some _ _ _ Hj). unfold zlen in Hl.
  rewrite Zminus_mod_idemp_l. replace (pos + Z.of_nat j - pos) with (Z.of_nat j) by lia.
  rewrite (Z.mod_small (Z.of_nat j)) by lia. by rewrite Nat2Z.id, Hj.
Qed.

Lemma holds_app mem pos l k : holds mem pos (l ++ k) -> holds mem pos l /\ holds mem (pos + zlen l) k.
Proof.
  intros H. split; intros j b Hj.
  - apply H. by apply lookup_app_l_Some.
  - rewrite <- Z.add_assoc. unfold zlen. rewrite <- Nat2Z.inj_add. apply H. rewrite lookup_app_r by lia.
    by replace (length l + j - length l)%nat with j by lia.
Qed.

Lemma ring_off pos : Z.land pos (RINGBUF_SZ - 1) = pos mod RINGBUF_SZ.
Proof. apply (Z.land_ones pos 18). lia. Qed.

(** Bytes that do not pass the end of the ring are read back. *)
Lemma fetch_held mem pos k bs : holds mem (pos + k) bs -> 0 <= k -> pos mod RINGBUF_SZ + k + zlen bs <= RINGBUF_SZ ->
  fetch mem (pos mod RINGBUF_SZ + k) (zlen bs) = Done bs.
Proof.
  intros H Hk Hfit. unfold fetch. rewrite (proj2 (Z.leb_le _ _)) by done. f_equal.
  apply list_eq. intros j. unfold read_stack. destruct (bs !! j) as [b|] eqn:Hj.
  - pose proof (lookup_lt_Some _ _ _ Hj). unfold zlen in *. rewrite list_lookup_fmap, lookup_seqZ_lt by lia. cbn [fmap option_fmap option_map].
    rewrite <- (H j b Hj). do 2 f_equal. assert (0 < RINGBUF_SZ) by (vm_compute; done).
    replace (pos + k + Z.of_nat j) with (pos + (k + Z.of_nat j)) by lia. rewrite <- (Zplus_mod_idemp_l pos).
    pose proof (Z.mod_pos_bound pos RINGBUF_SZ). rewrite (Z.mod_small (_ + _)); lia.
  - apply lookup_ge_None in Hj. unfold zlen in *. by rewrite list_lookup_fmap, lookup_seqZ_ge by lia.
Qed.

(** * One round over a record *)

Definition fits (pos : Z) : Prop := pos mod RINGBUF_SZ + 80 <= RINGBUF_SZ.

Lemma le_bytes_small v : 0 <= v < 2 ^ 32 -> le_val (le_bytes 4 v) = v.
Proof. intros H. rewrite le_val_le_bytes by lia. by apply Z.mod_small. Qed.

Lemma event_of_take r : (72 <= length r)%nat -> event_of (take 72 r) = event_of r.
Proof.
  intros H. unfold event_of. cbn [fmap list_fmap].
  assert (forall n, (n + 8 <= 72)%nat -> take 8 (drop n (take 72 r)) = take 8 (drop n r)) as E.
  { intros n Hn. rewrite skipn_firstn_comm, take_take. by replace (8 `min` (72 - n))%nat with 8%nat by lia. }
  rewrite !E by lia. by rewrite take_take.
Qed.

(** The header of a committed record, when it does not pass the end. *)
Lemma header_step pg mem prod cpos pl r : holds mem cpos (frame pg r) -> zlen r = 80 -> cpos < prod -> cpos mod RINGBUF_SZ + 4 <= RINGBUF_SZ ->
  drain_step mem prod (cpos, pl) =
  (b ← fetch mem (cpos mod RINGBUF_SZ + 8) EVENT_SIZE; Done (Next (cpos +₆₄ 88, match_event pl (event_of b)))).
Proof.
  intros H Hr Hlt Hfit. apply holds_app in H as [Hhdr _].
  unfold drain_step. rewrite (proj2 (Z.ltb_lt _ _)) by done. rewrite ring_off.
  pose proof (fetch_held mem cpos 0 (le_bytes 4 (zlen r)) ltac:(by rewrite Z.add_0_r) ltac:(lia)) as Hw.
  change (zlen (le_bytes 4 (zlen r))) with 4 in Hw. rewrite Z.add_0_r in Hw. rewrite Hw by lia. cbn [mbind outcome_bind].
  rewrite le_bytes_small, Hr by lia. change (negb (Z.land 80 BPF_RINGBUF_BUSY_BIT =? 0)) with false. cbn iota.
  change (Z.shiftr (as_u32 (Z.shiftl 80 2)) 2) with 80. change ((Z.land 80 BPF_RINGBUF_DISCARD_BIT =? 0) && (EVENT_SIZE <=? 80)) with true. cbn iota.
  change BPF_RINGBUF_HDR_SZ with 8. change ((80 + 8 + 7) / 8 * 8) with 88. by destruct (fetch mem _ EVENT_SIZE).
Qed.

Lemma drain_step_record pg mem prod cpos pl r : holds mem cpos (frame pg r) -> zlen r = 80 -> cpos < prod -> fits cpos -> 0 <= cpos < 2 ^ 63 ->
  drain_step mem prod (cpos, pl) = Done (Next (cpos + 88, match_event pl (event_of r))).
Proof.
  intros H Hr Hlt Hfit Hc. unfold fits in Hfit. rewrite (header_step pg _ _ _ _ r) by (done || lia).
  apply holds_app in H as [_ H]. apply holds_app in H as [_ Hdata].
  rewrite <- Z.add_assoc in Hdata. change (zlen (le_bytes 4 (zlen r)) + zlen (le_bytes 4 pg)) with 8 in Hdata.
  rewrite <- (take_drop 72 r) in Hdata. apply holds_app in Hdata as [Hdata _].
  assert (Hl : length r = 80%nat) by (unfold zlen in Hr; lia).
  pose proof (fetch_held mem cpos 8 (take 72 r) Hdata ltac:(lia)) as Hev.
  assert (zlen (take 72 r) = EVENT_SIZE) as Hz by (unfold zlen; rewrite length_take, Hl; done).
  rewrite Hz in Hev. rewrite Hev by (unfold EVENT_SIZE; lia). cbn [mbind outcome_bind].
  by rewrite event_of_take, as_u64_small by (unfold is_u64; lia).
Qed.

(** A busy record ends the drain before it. *)
Lemma drain_step_busy pg mem prod cpos pl : holds mem cpos (busy_frame pg) -> fits cpos ->
  drain_step mem prod (cpos, pl) = Done (Stop (cpos, pl)).
Proof.
  intros H Hfit. apply holds_app in H as [Hhdr _]. unfold fits in Hfit. unfold drain_step. destruct (cpos <? prod); [|done].
  rewrite ring_off. pose proof (fetch_held mem cpos 0 _ ltac:(rewrite Z.add_0_r; exact Hhdr) ltac:(lia)) as Hw.
  change (zlen (le_bytes 4 (BPF_RINGBUF_BUSY_BIT + 80))) with 4 in Hw. rewrite Z.add_0_r in Hw. rewrite Hw by lia. done.
Qed.

Lemma drain_step_end mem cpos pl : drain_step mem cpos (cpos, pl) = Done (Stop (cpos, pl)).
Proof. unfold drain_step. by rewrite Z.ltb_irrefl. Qed.

(** * A whole drain *)

Definition records_ok (rs : list (list Z)) : Prop := Forall (fun r => zlen r = 80) rs.
Definition matched (pl : Pending * list Syscall) (rs : list (list Z)) : Pending * list Syscall := foldl match_event pl (event_of <$> rs).

(** The [n] records from position [pos] on do not pass the end of the ring. *)
Definition all_fit (pos : Z) (n : nat) : Prop := forall i, (i < n)%nat -> fits (pos + 88 * Z.of_nat i).

Lemma all_fit_cons pos n : all_fit pos (S n) -> fits pos /\ all_fit (pos + 88) n.
Proof.
  intros H. split; [specialize (H 0%nat ltac:(lia)); by rewrite Z.add_0_r in H|].
  intros i Hi. specialize (H (S i) ltac:(lia)). by replace (pos + 88 + 88 * Z.of_nat i) with (pos + 88 * Z.of_nat (S i)) by lia.
Qed.

Lemma zlen_frame pg r : zlen r = 80 -> zlen (frame pg r) = 88.
Proof. intros H. unfold frame. rewrite !zlen_app, H. done. Qed.

Lemma zlen_batch pg b : records_ok (fst b) -> zlen (batch_bytes pg b) = 88 * Z.of_nat (length (fst b) + if snd b then 1 else 0).
Proof.
  destruct b as [rs busy]. cbn [fst snd]. intros H. unfold batch_bytes. cbn [fst snd]. rewrite zlen_app.
  assert (zlen (concat (frame pg <$> rs)) = 88 * Z.of_nat (length rs)) as ->.
  { induction H as [|r rs Hr _ IH]; [done|]. cbn [fmap list_fmap concat]. rewrite zlen_app, IH, zlen_frame by done. simpl length. lia. }
  destruct busy; [change (zlen (busy_frame pg)) with 88|change (zlen []) with 0]; lia.
Qed.

Lemma drain_loop pg mem prod rs busy cpos pl fuel :
  records_ok rs -> holds mem cpos (batch_bytes pg (rs, busy)) -> prod = cpos + zlen (batch_bytes pg (rs, busy)) ->
  all_fit cpos (length rs + if busy then 1 else 0) -> 0 <= cpos -> prod < 2 ^ 63 -> (length rs < fuel)%nat ->
  loop fuel (drain_step mem prod) (cpos, pl) = Done (cpos + 88 * Z.of_nat (length rs), matched pl rs).
Proof.
  intros Hok. revert cpos pl fuel. induction Hok as [|r rs Hr Hok IH]; intros cpos pl fuel Hh Hp Hfit H0 Hlt Hfuel; (destruct fuel as [|fuel]; [simpl in Hfuel; lia|]).
  - cbn [loop]. change (batch_bytes pg ([], busy)) with (if busy then busy_frame pg else []) in *. rewrite Z.add_0_r. destruct busy.
    + rewrite (drain_step_busy pg); [done|done|]. by destruct (all_fit_cons _ _ Hfit).
    + rewrite Hp, Z.add_0_r, drain_step_end. done.
  - assert (batch_bytes pg (r :: rs, busy) = frame pg r ++ batch_bytes pg (rs, busy)) as E by (unfold batch_bytes; cbn; by rewrite <- !app_assoc).
    rewrite E in Hh, Hp. rewrite zlen_app, zlen_frame in Hp by done. apply holds_app in Hh as [Hf Hh]. rewrite zlen_frame in Hh by done.
    apply all_fit_cons in Hfit as [Hfit1 Hfit]. pose proof (zlen_nonneg (batch_bytes pg (rs, busy))).
    cbn [loop]. rewrite (drain_step_record pg mem prod cpos pl r) by (done || lia). cbn [mbind outcome_bind].
    rewrite IH; [|done|lia|done|lia|done|simpl in Hfuel; lia]. simpl length. do 2 f_equal. lia.
Qed.

Lemma drain_batch pg mem b cpos pl :
  records_ok (fst b) -> holds mem cpos (batch_bytes pg b) -> all_fit cpos (length (fst b) + if snd b then 1 else 0) ->
  0 <= cpos -> cpos + zlen (batch_bytes pg b) < 2 ^ 63 ->
  drain mem (cpos + zlen (batch_bytes pg b)) cpos pl = Done (cpos + 88 * Z.of_nat (length (fst b)), matched pl (fst b)).
Proof.
  intros Hok Hh Hfit H0 Hlt. destruct b as [rs busy]. cbn [fst snd] in *. unfold drain.
  apply (drain_loop pg _ _ _ busy); try done. rewrite zlen_batch by done. cbn [fst snd].
  apply Nat.lt_succ_r, Nat2Z.inj_le. rewrite Z2Nat.id by (apply Z.div_pos; lia). apply Z.div_le_lower_bound; lia.
Qed.

(** Whatever the ring holds, a drain ends: a record is eight bytes at least. *)
Lemma drain_step_advances mem prod cpos pl c : 0 <= cpos -> prod < 2 ^ 63 -> drain_step mem prod (cpos, pl) = Done (Next c) ->
  cpos < prod /\ cpos + 8 <= fst c < cpos + 2 ^ 31.
Proof.
  intros H0 Hp. unfold drain_step. destruct (Z.ltb_spec cpos prod) as [Hlt|]; [|done].
  destruct (fetch mem _ 4) as [w| | |]; [|done..]. cbn [mbind outcome_bind].
  destruct (negb _); [done|]. set (n := Z.shiftr _ 2).
  assert (0 <= n < 2 ^ 30) as Hn.
  { subst n. rewrite Z.shiftr_div_pow2 by lia. pose proof (Z.mod_pos_bound (Z.shiftl (le_val w) 2) (2 ^ 32)).
    change (as_u32 (Z.shiftl (le_val w) 2)) with (Z.shiftl (le_val w) 2 mod 2 ^ 32). split; [apply Z.div_pos; lia|apply Z.div_lt_upper_bound; lia]. }
  assert (8 <= (n + BPF_RINGBUF_HDR_SZ + 7) / 8 * 8 <= n + 15) as Hr by (unfold BPF_RINGBUF_HDR_SZ; Z.to_euclidean_division_equations; lia).
  intros H. assert (fst c = cpos +₆₄ ((n + BPF_RINGBUF_HDR_SZ + 7) / 8 * 8)) as ->.
  { destruct (_ && _); [destruct (fetch mem _ EVENT_SIZE); [|done..]|]; cbn [mbind outcome_bind] in H; by simplify_eq/=. }
  rewrite as_u64_small by (unfold is_u64; lia). lia.
Qed.

Lemma drain_step_no_fuel mem prod s : drain_step mem prod s <> Fuel.
Proof.
  destruct s as [cpos pl]. unfold drain_step. destruct (cpos <? prod); [|done].
  assert (forall off n, fetch mem off n <> Fuel) as Hf by (intros off n; unfold fetch; by destruct (_ <=? _)).
  destruct (fetch mem _ 4) as [w| | |] eqn:E; [|done|done|by apply Hf in E]. cbn [mbind outcome_bind]. destruct (negb _); [done|].
  destruct (_ && _); [|done]. by destruct (fetch mem _ EVENT_SIZE) eqn:E'; [..|apply Hf in E'].
Qed.

(** * The calls of a single thread *)

Definition call_ok (sc : Syscall) : Prop := Forall (fun x => - 2 ^ 63 <= x < 2 ^ 63) (args sc).

Lemma word_back x : - 2 ^ 63 <= x < 2 ^ 63 -> as_i64 (as_u64 x) = x.
Proof.
  intros H. unfold as_i64, as_signed, as_u64. change (64 - 1) with 63. rewrite Zplus_mod_idemp_l, Z.mod_small by lia. lia.
Qed.

Definition call_events (sc : Syscall) : list Event :=
  [MkEvent 0 (nr sc) (as_u64 <$> args sc) 0; MkEvent 1 (nr sc) (replicate 6 0) (ret sc)].

Lemma match_calls calls log : Forall call_ok calls -> foldl match_event (None, log) (concat (call_events <$> calls)) = (None, log ++ calls).
Proof.
  intros H. revert log. induction H as [|sc calls Hsc _ IH]; intros log; [by rewrite app_nil_r|].
  cbn [fmap list_fmap concat]. unfold call_events at 1. cbn [app foldl match_event is_exit e_nr e_args e_ret]. cbn.
  rewrite Z.eqb_refl, IH, <- app_assoc. do 3 f_equal. cbn [app]. f_equal. destruct sc as [n a r]. cbn [nr args ret] in *. f_equal.
  rewrite <- list_fmap_compose. rewrite <- (list_fmap_id a) at 2. apply list_fmap_ext. intros i x Hx. cbn.
  unfold call_ok in Hsc. cbn [args] in Hsc. apply word_back. exact (Forall_lookup_1 _ _ _ _ Hsc Hx).
Qed.

(** The exit of the call the target was stopped in when the probes were attached
    has no entry. *)
Lemma match_stray e : is_exit e <> 0 -> match_event (None, []) e = (None, []).
Proof. intros H. unfold match_event. by rewrite (proj2 (Z.eqb_neq _ _)). Qed.

(** How many records can be read before one passes the end of the ring. *)
Definition LAPS_RECORDS : Z := 5957.

Lemma first_records_fit pos n : 0 <= pos -> pos + 88 * Z.of_nat n <= 88 * LAPS_RECORDS -> (88 | pos) -> all_fit pos n.
Proof.
  intros H0 Hle [q ->] i Hi. unfold fits, LAPS_RECORDS, RINGBUF_SZ in *. change (256 * 1024) with 262144.
  pose proof (Z.div_mod (q * 88 + 88 * Z.of_nat i) 262144 ltac:(lia)) as E. pose proof (Z.mod_pos_bound (q * 88 + 88 * Z.of_nat i) 262144 ltac:(lia)).
  assert ((q * 88 + 88 * Z.of_nat i) / 262144 = 0 \/ (q * 88 + 88 * Z.of_nat i) / 262144 = 1) as [E'|E'] by nia; rewrite E' in E; lia.
Qed.

Lemma run_drains_matched pg mem cpos pl batches :
  Forall (fun b => records_ok (fst b) /\ zlen (batch_bytes pg b) <= RINGBUF_SZ) batches -> 0 <= cpos -> (88 | cpos) ->
  cpos + 88 * Z.of_nat (length (concat (fst <$> batches))) < 88 * LAPS_RECORDS ->
  run_drains pg mem cpos pl batches = Done (matched pl (concat (fst <$> batches))).
Proof.
  intros H. revert mem cpos pl. induction H as [|b bs [Hok Hsz] _ IH]; intros mem cpos pl H0 Hdiv Hlt; [done|].
  cbn [run_drains fmap list_fmap concat] in *. rewrite length_app in Hlt.
  assert (zlen (batch_bytes pg b) <= 88 * Z.of_nat (S (length (fst b)))) as Hz by (rewrite zlen_batch by done; destruct (snd b); lia).
  unfold LAPS_RECORDS in Hlt.
  rewrite drain_batch; [|done|by apply produce_holds| |done|lia].
  2: { apply first_records_fit; [done| |done]. unfold LAPS_RECORDS. destruct Hdiv as [q ->]. destruct (snd b); lia. }
  cbn [mbind outcome_bind]. rewrite IH.
  - unfold matched. by rewrite fmap_app, foldl_app.
  - lia.
  - apply Z.divide_add_r; [done|]. by exists (Z.of_nat (length (fst b))); lia.
  - unfold LAPS_RECORDS. lia.
Qed.

Lemma matched_calls rs (stray tail : list Event) calls : event_of <$> rs = stray ++ concat (call_events <$> calls) ++ tail ->
  Forall (fun e => is_exit e <> 0) stray -> (length tail <= 1)%nat -> Forall (fun e => is_exit e = 0) tail -> Forall call_ok calls ->
  exists pending, matched (None, []) rs = (pending, calls).
Proof.
  intros Hev Hs Hl Ht Hc. unfold matched. rewrite Hev, !foldl_app.
  assert (foldl match_event (None, []) stray = (None, [])) as ->.
  { clear Hev. induction Hs as [|e stray He _ IH]; [done|]. cbn [foldl]. by rewrite match_stray. }
  rewrite match_calls by done. cbn [app]. destruct tail as [|e [|]]; [by eexists| |simpl in Hl; lia].
  inversion Ht as [|? ? He _]; subst. cbn [foldl match_event]. rewrite He. by eexists.
Qed.

(** * The properties *)

(** For a single-threaded target, the calls that reach the log are the
    calls it made, once each, in order, with their arguments and results:
    whatever batches the drains find the records in, each fitting the ring, with
    a record reserved but not committed at the end of any of them, with the exit
    of the call the target was stopped in before the first entry and the entry of
    the call it ended in after the last exit, as long as fewer than 5957 records
    were written. *)
Theorem drains_log_calls pg mem batches (stray tail : list Event) calls :
  Forall (fun b => records_ok (fst b) /\ zlen (batch_bytes pg b) <= RINGBUF_SZ) batches ->
  zlen (concat (fst <$> batches)) < LAPS_RECORDS ->
  event_of <$> concat (fst <$> batches) = stray ++ concat (call_events <$> calls) ++ tail ->
  Forall (fun e => is_exit e <> 0) stray -> (length tail <= 1)%nat -> Forall (fun e => is_exit e = 0) tail -> Forall call_ok calls ->
  exists pending, run_drains pg mem 0 (None, []) batches = Done (pending, calls).
Proof.
  intros Hb Hn Hev Hs Hl Ht Hc. unfold zlen in Hn. rewrite run_drains_matched; [|done|done|by exists 0|lia].
  destruct (matched_calls _ _ _ _ Hev Hs Hl Ht Hc) as [p ->]. by exists p.
Qed.

(** The bytes of a record. *)
Definition record_of (is_exit nr : Z) (args : list Z) (ret : Z) : list Z :=
  le_bytes 8 is_exit ++ le_bytes 8 nr ++ concat (le_bytes 8 <$> args) ++ le_bytes 8 ret ++ replicate 8 0xAA.

(** The exit of kill, then close(3) = -9 in two batches, then exit_group. *)
Lemma drains_log_calls_witness :
  exists pending, run_drains 7 (fun _ => 0) 0 (None, [])
    [([record_of 1 62 (replicate 6 0) 0; record_of 0 3 [3; 0; 0; 0; 0; 0] 0], true);
     ([record_of 1 3 (replicate 6 0) (2 ^ 64 - 9)], false); ([], true); ([record_of 0 231 (replicate 6 0) 0], false)]
  = Done (pending, [MkSyscall 3 [3; 0; 0; 0; 0; 0] (-9)]).
Proof.
  apply (drains_log_calls _ _ _ [MkEvent 1 62 (replicate 6 0) 0] [MkEvent 0 231 (replicate 6 0) 0]).
  - repeat constructor; vm_compute; congruence.
  - vm_compute. reflexivity.
  - vm_compute. reflexivity.
  - repeat constructor. discriminate.
  - simpl. lia.
  - by repeat constructor.
  - repeat constructor; cbn; lia.
Defined.

(** A drain ends, whatever the ring holds: each round advances the
    position by eight bytes at least, so within one round more than there are
    eight-byte words between the two positions. *)
Theorem drain_ends mem prod cpos pl : 0 <= cpos -> prod < 2 ^ 63 -> drain mem prod cpos pl <> Fuel.
Proof.
  intros H0 Hp. unfold drain. set (n := Z.to_nat _).
  assert (prod - cpos <= 8 * Z.of_nat n) as Hn.
  { subst n. destruct (Z.le_gt_cases cpos prod); [|lia]. rewrite Z2Nat.id by (apply Z.div_pos; lia).
    Z.to_euclidean_division_equations. lia. }
  clearbody n. revert cpos pl H0 Hn. induction n as [|n IH]; intros cpos pl H0 Hn; cbn [loop].
  - destruct (drain_step mem prod (cpos, pl)) as [[c|]| | |] eqn:E; try done; [|by apply drain_step_no_fuel in E].
    apply drain_step_advances in E; [lia|done..].
  - destruct (drain_step mem prod (cpos, pl)) as [[[c q]|]| | |] eqn:E; try done; [|by apply drain_step_no_fuel in E].
    apply drain_step_advances in E; [|done..]. cbn [fst] in E. apply IH; lia.
Qed.

Lemma drain_ends_witness : drain (fun i => i mod 256) 4096 16 (None, []) <> Fuel.
Proof. apply (drain_ends (fun i => i mod 256) 4096 16 (None, [])); lia. Defined.

(** The second lap starts eight bytes into the ring: record 5957 passes its end. *)
Theorem second_lap_overrun pg mem pl r : zlen r = 80 ->
  drain (produce pg mem (88 * LAPS_RECORDS) ([r], false)) (88 * LAPS_RECORDS + 88) (88 * LAPS_RECORDS) pl = Panic.
Proof.
  intros Hr. set (p := 88 * LAPS_RECORDS).
  assert (holds (produce pg mem p ([r], false)) p (frame pg r)) as H.
  { assert (batch_bytes pg ([r], false) = frame pg r) as <- by (unfold batch_bytes; cbn; by rewrite !app_nil_r).
    apply produce_holds. unfold batch_bytes. cbn [fst snd fmap list_fmap concat]. rewrite !app_nil_r, zlen_frame by done. vm_compute. discriminate. }
  set (m := produce pg mem p _) in *. clearbody m. unfold drain. cbn [loop].
  rewrite (header_step pg m _ p pl r) by (done || (vm_compute; congruence)). done.
Qed.

(** Two threads in one process share the pending entry: the first call is lost,
    or is logged with the other thread's arguments. *)
Example threads_share_pending :
  snd (foldl match_event (None, []) [MkEvent 0 0 [3; 0; 0; 0; 0; 0] 0; MkEvent 0 1 [4; 0; 0; 0; 0; 0] 0; MkEvent 1 0 (replicate 6 0) 10; MkEvent 1 1 (replicate 6 0) 20])
    = [MkSyscall 1 [4; 0; 0; 0; 0; 0] 20] /\
  snd (foldl match_event (None, []) [MkEvent 0 0 [3; 0; 0; 0; 0; 0] 0; MkEvent 0 0 [4; 0; 0; 0; 0; 0] 0; MkEvent 1 0 (replicate 6 0) 10; MkEvent 1 0 (replicate 6 0) 20])
    = [MkSyscall 0 [4; 0; 0; 0; 0; 0] 10].
Proof. split; reflexivity. Qed.
