(* ===== verification/Ptrace.v ===== *)
(** syscall/ptrace.rs: the tracer, and fuzz.rs: the capture of a program's trace.

    The kernel's side is the sequence of answers waitpid gives, each stop with
    the registers PTRACE_GETREGS would read then ([None] when that fails); a
    sequence that ends stands for a wait that has not returned.  A call of the
    tracer gives its result, its state and the signals it handed to
    PTRACE_SYSCALL, one per resumption.
    Shown: on every run of a tracee, with signal stops anywhere, the calls that
    are logged or captured are the completed calls, in order, and no stop is
    resumed twice or not at all; and the tracer hands back no signal, so a
    tracee that faults is restarted at the fault for ever.  A run writes the
    same text to both of its files; the exit status it means to return is gone
    by then; a set-up that fails after the first stop waits for ever. *)
From S2P Require Import Prelude Syscalls SysDecode FuzzTypes.

(** The registers of both architectures; each reads its own. *)
Record Regs : Type := MkRegs
  { orig_rax : Z; rax : Z; rdi : Z; rsi : Z; rdx : Z; r10 : Z; r8 : Z; r9 : Z; xregs : Z -> Z }.

(** What waitpid says of the tracee. *)
Inductive Wait : Type :=
  | WError
  | WExited (status : Z)
  | WSignaled (sig : Z)
  | WStopped (sig : Z) (regs : option Regs)
  | WContinued.

Definition with_ret (sc : Syscall) (r : Z) : Syscall := MkSyscall (nr sc) (args sc) r.

Section Tracer.
Context (arch : Arch).

Definition regs_syscall (r : Regs) : Syscall :=
  match arch with
  | X86_64 => MkSyscall (as_i64 (orig_rax r)) (as_i64 <$> [rdi r; rsi r; rdx r; r10 r; r8 r; r9 r]) 0
  | Aarch64 => MkSyscall (as_i64 (xregs r 8)) ((fun i => as_i64 (xregs r i)) <$> [0; 1; 2; 3; 4; 5]) 0
  end.

Definition regs_ret (r : Regs) : Z := match arch with X86_64 => as_i64 (rax r) | Aarch64 => as_i64 (xregs r 0) end.

(** [in_syscall], the waits to come and the signals handed back so far. *)
Record Tracer : Type := MkTracer { in_syscall : bool; waits : list Wait; resumed : list Z }.

Definition default_syscall : Syscall := MkSyscall 0 (replicate 6 0) 0.

(** The loop of [next_syscall]; [Fail] is a wait that does not return. *)
Fixpoint next_loop (ins : bool) (pending : Syscall) (ws : list Wait) (rs : list Z) : outcome (option Syscall * Tracer) :=
  match ws with
  | [] => Fail
  | w :: ws =>
      match w with
      | WError | WExited _ | WSignaled _ => Done (None, MkTracer ins ws rs)
      | WContinued => next_loop ins pending ws (rs ++ [0])
      | WStopped sig regs =>
          if Z.land sig 0x80 =? 0 then next_loop ins pending ws (rs ++ [0])
          else
            match regs with
            | None => Done (None, MkTracer ins ws rs)
            | Some r =>
                if negb ins then next_loop true (regs_syscall r) ws (rs ++ [0])
                else Done (Some (with_ret pending (regs_ret r)), MkTracer false ws (rs ++ [0]))
            end
      end
  end.

Definition next_syscall (t : Tracer) : outcome (option Syscall * Tracer) := next_loop (in_syscall t) default_syscall (waits t) (resumed t).

(** [Tracer::start] on a stopped child has resumed it once. *)
Definition start (ws : list Wait) : Tracer := MkTracer false ws [0].

(** [while let Some(sc) = next_syscall()] with the files of [run]. *)
Definition run_step {F} (emit : F -> Syscall -> F) (s : Tracer * F) : outcome (ctl (Tracer * F) (Tracer * F)) :=
  let '(t, log) := s in
  r ← next_syscall t;
  Done (match r with (Some sc, t) => Next (t, emit log sc) | (None, t) => Stop (t, log) end).
Definition run_loop {F} (emit : F -> Syscall -> F) (t : Tracer) (files : F) : outcome (Tracer * F) :=
  loop (S (length (waits t))) (run_step emit) (t, files).
Definition run_log (emit : list Z -> Syscall -> list Z) (ws : list Wait) : outcome (Tracer * list Z) := run_loop emit (start ws) [].

(** What [fork], the two requests of [Tracer::start] and the creation of the
    files are answered. *)
Record Setup : Type := MkSetup { forked : Z; setoptions : Z; first_resume : Z; log_created : bool; syz_created : bool }.

(** A blocking wait. *)
Definition wait (ws : list Wait) : outcome (Wait * list Wait) := match ws with [] => Fail | w :: ws => Done (w, ws) end.

Definition tracer_start (a : Setup) (ws : list Wait) : outcome (option Tracer * list Wait) :=
  '(w, ws) ← wait ws;
  Done (match w with
        | WError => (None, ws)
        | _ => if setoptions a <? 0 then (None, ws) else if first_resume a <? 0 then (None, ws) else (Some (start ws), ws)
        end).

(** The status word starts as 0, and a wait that fails leaves it. *)
Definition final_status (w : Wait) : Z := match w with WExited st => st | _ => 0 end.

(** The result, the two files and the waits of [run]. *)
Record Traced : Type := MkTraced { code : Z; trace_log : option (list Z); trace_syz : option (list Z); left_ : list Wait }.

Definition emit_both (emit : list Z -> Syscall -> list Z) (f : list Z * option (list Z)) (sc : Syscall) : list Z * option (list Z) :=
  (emit (fst f) sc, (fun s => emit s sc) <$> snd f).

Definition run (emit : list Z -> Syscall -> list Z) (a : Setup) (syzlang : bool) (ws : list Wait) : outcome Traced :=
  if forked a <? 0 then Done (MkTraced 1 None None ws) else
  '(t, ws) ← tracer_start a ws;
  match t with
  | None => '(_, ws) ← wait ws; Done (MkTraced 1 None None ws)
  | Some t =>
      if negb (log_created a) then '(_, ws) ← wait (waits t); Done (MkTraced 1 None None ws) else
      '(t, f) ← run_loop (emit_both emit) t ([], if syzlang && syz_created a then Some [] else None);
      '(w, ws) ← wait (waits t);
      Done (MkTraced (final_status w) (Some (fst f)) (snd f) ws)
  end.

(** [trace_baseline]: the capture of a program, up to its limit. *)
Definition MAX_SYSCALLS : Z := 4096.
Definition baseline_step (s : Tracer * list Syscall) : outcome (ctl (Tracer * list Syscall) (Tracer * list Syscall)) :=
  let '(t, trace) := s in
  r ← next_syscall t;
  Done (match r with
        | (Some sc, t) => if MAX_SYSCALLS <=? zlen trace then Stop (t, trace) else Next (t, trace ++ [sc])
        | (None, t) => Stop (t, trace)
        end).
Definition baseline_loop (t : Tracer) : outcome (Tracer * list Syscall) := loop (S (length (waits t))) baseline_step (t, []).

Definition trace_baseline (a : Setup) (ws : list Wait) : outcome (option (list Syscall)) :=
  if forked a <? 0 then Done None else
  '(t, ws) ← tracer_start a ws;
  match t with
  | None => _ ← wait ws; Done None
  | Some t => '(t, trace) ← baseline_loop t; _ ← wait (waits t); Done (Some trace)
  end.

(** * The tracee *)

(** A stop that is no system-call stop. *)
Definition noise (w : Wait) : Prop :=
  match w with WStopped sig _ => Z.land sig 0x80 = 0 | WContinued => True | _ => False end.
Definition terminal (w : Wait) : Prop := match w with WError | WExited _ | WSignaled _ => True | _ => False end.
(** SIGTRAP | 0x80, what PTRACE_O_TRACESYSGOOD makes of a system-call stop. *)
Definition sysstop (r : Regs) : Wait := WStopped 0x85 (Some r).

(** A run of a tracee: the calls it completes, the waits it answers with and
    those that follow its end.  It may end inside a call (exit_group). *)
Inductive tracee_run : list Syscall -> list Wait -> list Wait -> Prop :=
  | run_end w rest : terminal w -> tracee_run [] (w :: rest) rest
  | run_noise w calls ws rest : noise w -> tracee_run calls ws rest -> tracee_run calls (w :: ws) rest
  | run_last r ns w rest : Forall noise ns -> terminal w -> tracee_run [] (sysstop r :: ns ++ w :: rest) rest
  | run_call r ns r' calls ws rest : Forall noise ns -> tracee_run calls ws rest ->
      tracee_run (with_ret (regs_syscall r) (regs_ret r') :: calls) (sysstop r :: ns ++ sysstop r' :: ws) rest.

(** * One call of the tracer *)

Lemma next_noise ins p ns ws rs : Forall noise ns -> next_loop ins p (ns ++ ws) rs = next_loop ins p ws (rs ++ replicate (length ns) 0).
Proof.
  intros H. revert rs. induction H as [|n ns Hn _ IH]; intros rs; [by rewrite app_nil_r|]. cbn [app length].
  replace (rs ++ replicate (S (length ns)) 0) with ((rs ++ [0]) ++ replicate (length ns) 0) by (by rewrite <- app_assoc).
  rewrite <- IH. destruct n; try done. cbn [next_loop]. cbn [noise] in Hn. by rewrite Hn.
Qed.

Lemma next_terminal ins p w ws rs : terminal w -> next_loop ins p (w :: ws) rs = Done (None, MkTracer ins ws rs).
Proof. by destruct w. Qed.

(** A run is answered call by call: each completed call takes as many
    resumptions as it has stops. *)
Lemma next_run calls ws rest rs p : tracee_run calls ws rest ->
  match calls with
  | [] => exists ins n, next_loop false p ws rs = Done (None, MkTracer ins rest (rs ++ replicate n 0)) /\ (S n + length rest = length ws)%nat
  | sc :: calls' => exists n ws', next_loop false p ws rs = Done (Some sc, MkTracer false ws' (rs ++ replicate n 0)) /\
      tracee_run calls' ws' rest /\ (n + length ws' = length ws)%nat /\ n <> 0%nat
  end.
Proof.
  intros H. revert rs. induction H as [w rest Hw|w calls ws rest Hw _ IH|r ns w rest Hn Hw|r ns r' calls ws rest Hn H _]; intros rs.
  - exists false, 0%nat. rewrite app_nil_r, next_terminal by done. simpl. split; [done|lia].
  - pose proof (next_noise false p [w] ws rs (proj2 (Forall_singleton _ _) Hw)) as E. cbn [app length replicate] in E. rewrite E.
    specialize (IH (rs ++ [0])). destruct calls as [|sc calls].
    + destruct IH as (ins & n & -> & Hn). exists ins, (S n). rewrite <- app_assoc. simpl. split; [done|lia].
    + destruct IH as (n & ws' & -> & Hr & Hn & _). exists (S n), ws'. rewrite <- app_assoc. simpl. split_and!; [done|done|lia|lia].
  - exists true, (S (length ns)). cbn [next_loop sysstop]. change (Z.land 0x85 0x80 =? 0) with false. cbn iota. cbn [negb].
    rewrite next_noise, next_terminal, <- app_assoc by done. split; [done|]. simpl. rewrite length_app. simpl. lia.
  - exists (S (length ns) + 1)%nat, ws. cbn [next_loop sysstop]. change (Z.land 0x85 0x80 =? 0) with false. cbn iota. cbn [negb].
    rewrite next_noise by done. cbn [next_loop sysstop]. change (Z.land 0x85 0x80 =? 0) with false. cbn iota. cbn [negb].
    split_and!; [|done|simpl; rewrite length_app; simpl; lia|lia]. do 3 f_equal. by rewrite replicate_add, <- !app_assoc.
Qed.

(** * The properties *)

Lemma run_log_run {F} (emit : F -> Syscall -> F) calls ws rest rs files fuel : tracee_run calls ws rest -> (length ws < fuel)%nat ->
  exists t n, loop fuel (run_step emit) (MkTracer false ws rs, files) = Done (t, foldl emit files calls) /\
    resumed t = rs ++ replicate n 0 /\ waits t = rest /\ (S n + length rest = length ws)%nat.
Proof.
  revert ws rs files fuel. induction calls as [|sc calls IH]; intros ws rs files fuel H Hf; (destruct fuel as [|fuel]; [lia|]);
    apply next_run with (rs := rs) (p := default_syscall) in H; rewrite loop_S; cbn [run_step]; unfold next_syscall; cbn [in_syscall waits resumed].
  - destruct H as (ins & n & -> & Hn). eexists _, n. by cbn.
  - destruct H as (n & ws' & -> & Hr & Hn & Hn0). cbn [mbind outcome_bind].
    destruct (IH ws' (rs ++ replicate n 0) (emit files sc) fuel Hr ltac:(lia)) as (t & m & -> & Hm & Hw & Hl).
    exists t, (n + m)%nat. split_and!; [done| |done|lia]. by rewrite Hm, replicate_add, app_assoc.
Qed.

Lemma emit_all L vm_readv log calls : foldl (emit arch L vm_readv) log calls = log ++ concat (decode_syscall arch L vm_readv <$> calls).
Proof.
  revert log. induction calls as [|sc calls IH]; intros log; [by rewrite app_nil_r|].
  cbn [foldl fmap list_fmap concat]. rewrite IH. unfold emit. by rewrite <- app_assoc.
Qed.

Lemma emit_both_all e log syz calls : foldl (emit_both e) (log, syz) calls = (foldl e log calls, (fun s => foldl e s calls) <$> syz).
Proof. revert log syz. induction calls as [|sc calls IH]; intros log [syz|]; [done|done|..]; cbn [foldl]; unfold emit_both at 2; cbn [fst snd fmap option_fmap option_map]; apply IH. Qed.

(** C26: The tracer logs the completed calls.  On every run of a tracee on
    either architecture, with stops for signals, group stops and execs anywhere
    between and inside its calls, tracing ends; the log is the rendering of the
    calls the tracee completed, in order, each with the arguments of its entry
    and the result of its exit; a call it ends in is left out; every stop of a
    living tracee was resumed exactly once, handing back no signal; and no wait
    after its end is taken. *)
Theorem tracer_logs_calls L vm_readv calls ws rest : tracee_run calls ws rest ->
  exists t n, run_log (emit arch L vm_readv) ws = Done (t, concat (decode_syscall arch L vm_readv <$> calls)) /\
    resumed t = replicate (S n) 0 /\ waits t = rest /\ (S n + length rest = length ws)%nat.
Proof.
  intros H. unfold run_log, run_loop, start. destruct (run_log_run (emit arch L vm_readv) calls ws rest [0] [] (S (length ws)) H ltac:(lia)) as (t & n & E & Hr).
  exists t, n. split; [|done]. rewrite <- (app_nil_l (concat _)), <- emit_all. exact E.
Qed.

(** A run that is set up writes one text to both files.  Its result is what a
    wait after the tracee's end says; once the end was reported such a wait
    fails, so a target that exits with any status gives 0. *)
Theorem run_files L vm_readv a syzlang w0 calls ws w rest :
  0 <= forked a -> w0 <> WError -> 0 <= setoptions a -> 0 <= first_resume a -> log_created a = true -> tracee_run calls ws (w :: rest) ->
  let text := concat (decode_syscall arch L vm_readv <$> calls) in
  run (emit arch L vm_readv) a syzlang (w0 :: ws) =
  Done (MkTraced (final_status w) (Some text) (if syzlang && syz_created a then Some text else None) rest).
Proof.
  intros Hf H0 Ho Hr Hl H text. unfold run, tracer_start. rewrite (proj2 (Z.ltb_ge _ _) Hf), (proj2 (Z.ltb_ge _ _) Ho), (proj2 (Z.ltb_ge _ _) Hr), Hl. cbn [wait mbind outcome_bind negb].
  assert (forall A (x y : A), match w0 with WError => x | _ => y end = y) as E by (by destruct w0). rewrite E. cbn [mbind outcome_bind]. unfold run_loop, start at 1 2. cbn [waits].
  destruct (run_log_run (emit_both (emit arch L vm_readv)) calls ws (w :: rest) [0] ([], if syzlang && syz_created a then Some [] else None) _ H (Nat.lt_succ_diag_r _)) as (t & n & Ht & _ & Hw & _).
  rewrite Ht. cbn [mbind outcome_bind]. rewrite Hw, emit_both_all, emit_all. cbn [wait mbind outcome_bind fst snd app]. do 2 f_equal.
  destruct (syzlang && syz_created a); [|done]. cbn [fmap option_fmap option_map]. by rewrite emit_all.
Qed.

Corollary run_status_lost L vm_readv a syzlang w0 calls ws rest :
  0 <= forked a -> w0 <> WError -> 0 <= setoptions a -> 0 <= first_resume a -> log_created a = true -> tracee_run calls ws (WError :: rest) ->
  exists t, run (emit arch L vm_readv) a syzlang (w0 :: ws) = Done t /\ code t = 0.
Proof. intros Hf H0 Ho Hr Hl H. by rewrite (run_files L vm_readv a syzlang w0 calls ws WError rest); [eexists|..]. Qed.

(** A tracer that cannot be set up leaves the tracee in its first stop and
    waits for a change that does not come. *)
Lemma start_failure_hangs e a syzlang regs : 0 <= forked a -> setoptions a < 0 \/ first_resume a < 0 ->
  run e a syzlang [WStopped 19 regs] = Fail /\ trace_baseline a [WStopped 19 regs] = Fail.
Proof.
  intros Hf Hs. unfold run, trace_baseline, tracer_start. rewrite (proj2 (Z.ltb_ge _ _) Hf). cbn [wait mbind outcome_bind].
  destruct (Z.ltb_spec (setoptions a) 0), (Z.ltb_spec (first_resume a) 0); try done. lia.
Qed.

Lemma baseline_run calls ws rest rs tr fuel : tracee_run calls ws rest -> (length ws < fuel)%nat -> zlen tr <= MAX_SYSCALLS ->
  exists t, loop fuel baseline_step (MkTracer false ws rs, tr) = Done (t, take (Z.to_nat MAX_SYSCALLS) (tr ++ calls)) /\
    (zlen tr + zlen calls <= MAX_SYSCALLS -> waits t = rest).
Proof.
  revert ws rs tr fuel. induction calls as [|sc calls IH]; intros ws rs tr fuel H Hf Ht; (destruct fuel as [|fuel]; [lia|]);
    apply next_run with (rs := rs) (p := default_syscall) in H; rewrite loop_S; cbn [baseline_step]; unfold next_syscall; cbn [in_syscall waits resumed]; unfold zlen in Ht.
  - destruct H as (ins & n & -> & Hn). eexists. cbn [mbind outcome_bind]. by rewrite app_nil_r, take_ge by lia.
  - destruct H as (n & ws' & -> & Hr & Hn & Hn0). cbn [mbind outcome_bind]. destruct (Z.leb_spec MAX_SYSCALLS (zlen tr)) as [Hm|Hm]; unfold zlen in Hm.
    + eexists. replace (Z.to_nat MAX_SYSCALLS) with (length tr) by lia. rewrite take_app_length. split; [done|].
      rewrite zlen_cons. pose proof (zlen_nonneg calls). unfold zlen in *. lia.
    + rewrite (cons_middle sc tr calls), app_assoc. rewrite zlen_cons. destruct (IH ws' (rs ++ replicate n 0) (tr ++ [sc]) fuel Hr ltac:(lia)) as (t & -> & Hw).
      { unfold zlen. rewrite length_app. simpl. lia. }
      exists t. split; [done|]. intros Hz. apply Hw. rewrite zlen_app, zlen_cons, zlen_nil. lia.
Qed.

(** The capture of a program is the first calls it completed; within the limit
    it ends with the wait after the tracee's end. *)
Theorem baseline_captures_calls a w0 calls ws w rest :
  0 <= forked a -> w0 <> WError -> 0 <= setoptions a -> 0 <= first_resume a -> tracee_run calls ws (w :: rest) -> zlen calls <= MAX_SYSCALLS ->
  trace_baseline a (w0 :: ws) = Done (Some calls).
Proof.
  intros Hf H0 Ho Hr H Hz. unfold trace_baseline, tracer_start. rewrite (proj2 (Z.ltb_ge _ _) Hf), (proj2 (Z.ltb_ge _ _) Ho), (proj2 (Z.ltb_ge _ _) Hr). cbn [wait mbind outcome_bind].
  assert (forall A (x y : A), match w0 with WError => x | _ => y end = y) as E by (by destruct w0). rewrite E. cbn [mbind outcome_bind]. unfold baseline_loop, start. cbn [waits].
  destruct (baseline_run calls ws (w :: rest) [0] [] _ H (Nat.lt_succ_diag_r _) ltac:(done)) as (t & -> & Hw). cbn [mbind outcome_bind]. rewrite Hw by (rewrite zlen_nil; lia).
  cbn [wait mbind outcome_bind app]. unfold zlen in Hz. by rewrite take_ge by lia.
Qed.

(** A tracee that faults is restarted at the fault, however often it stops there. *)
Lemma fault_restarts r n t : in_syscall t = false -> waits t = replicate n (WStopped 11 r) -> next_syscall t = Fail.
Proof.
  intros Hi Hw. unfold next_syscall. rewrite Hi, Hw. generalize (resumed t) as rs. clear.
  induction n as [|n IH]; intros rs; [done|]. cbn [replicate next_loop]. apply IH.
Qed.
End Tracer.

(** close(3) = -9 interrupted by a SIGCHLD stop, then exit_group. *)
Definition demo_regs (nr_ ax di : Z) : Regs := MkRegs nr_ (as_u64 ax) di 0 0 0 0 0 (fun _ => 0).

Lemma tracer_logs_calls_witness :
  exists t n, run_log X86_64 (emit X86_64 glibc_x86_64 (fun _ _ => None))
      [WStopped 17 None; sysstop (demo_regs 3 (-38) 3); WStopped 17 None; sysstop (demo_regs 3 (-9) 3); sysstop (demo_regs 231 (-38) 0); WExited 0; WError] =
      Done (t, concat (decode_syscall X86_64 glibc_x86_64 (fun _ _ => None) <$> [MkSyscall 3 [3; 0; 0; 0; 0; 0] (-9)])) /\
    resumed t = replicate (S n) 0 /\ waits t = [WError] /\ (S n + 1 = 7)%nat.
Proof.
  apply (tracer_logs_calls X86_64 glibc_x86_64 (fun _ _ => None) [MkSyscall 3 [3; 0; 0; 0; 0; 0] (-9)]
    [WStopped 17 None; sysstop (demo_regs 3 (-38) 3); WStopped 17 None; sysstop (demo_regs 3 (-9) 3); sysstop (demo_regs 231 (-38) 0); WExited 0; WError] [WError]).
  apply run_noise; [reflexivity|].
  apply (run_call X86_64 (demo_regs 3 (-38) 3) [WStopped 17 None] (demo_regs 3 (-9) 3) []); [by repeat constructor|].
  apply (run_last X86_64 (demo_regs 231 (-38) 0) [] (WExited 0) [WError]); [constructor|done].
Defined.

(** A target that exits with 3: the log is its call, the result 0. *)
Example demo_traced :
  run X86_64 (emit X86_64 glibc_x86_64 (fun _ _ => None)) (MkSetup 7 0 0 true true) true
    [WStopped 19 None; sysstop (demo_regs 3 (-38) 3); sysstop (demo_regs 3 (-9) 3); sysstop (demo_regs 231 (-38) 3); WExited 3; WError] =
  Done (let text := decode_syscall X86_64 glibc_x86_64 (fun _ _ => None) (MkSyscall 3 [3; 0; 0; 0; 0; 0] (-9)) in MkTraced 0 (Some text) (Some text) []).
Proof. vm_compute. reflexivity. Qed.
