(* ===== verification/Process.v ===== *)
(** Child processes and what a process holds, for the drivers that fork.

    A child is the list of what it does, in the order of the code after the
    fork; an exec that succeeds ends the list.  [Procs] is what the parent asks
    of the kernel, [Holdings] what it holds: descriptors, mappings, children.
    Shown: rules by which a straight run of acquisitions and releases is
    followed ([holds]), and that the forks and the waits of a fleet of workers
    balance. *)
From stdpp Require Import gmap.
From S2P Require Import Prelude Text.

Inductive Act : Type :=
  | Traceme
  | Raise (sig : Z)
  | CloseFd (fd : Z)
  | ReadByte (fd : Z)
  | Unshare (flags : Z)
  | RawSyscall (nr : Z) (args : list Z)
  | Setenv (name value : list Z)
  | Exec (cmd : list (list Z))          (* searches the path *)
  | Execv (path : list Z) (argv : list (list Z))
  | Work (id : Z)                       (* the code of a worker *)
  | Exit (code : Z).

(** [exec::execvp]: an empty command returns, arguments with a NUL are left out. *)
Definition execvp (cmd : list (list Z)) : list Act :=
  match cmd with [] => [] | _ => [Exec (filter (fun s => 0 ∉ s) cmd)] end.

Definition WNOHANG : Z := 1.
Definition WUNTRACED : Z := 2.
Definition SIGKILL : Z := 9.
Definition SIGCONT : Z := 18.
Definition SIGSTOP : Z := 19.

Class Procs (W : Type) : Type :=
  { p_fork : list Act -> W -> Z * W;
    p_waitpid : Z -> Z -> W -> (Z * Z) * W;
    p_kill : Z -> Z -> W -> W }.

Class Holdings (W : Type) : Type := { fds : W -> gset Z; maps : W -> gset Z; kids : W -> gset Z }.

(** The parent's side: fork gives a new child or fails; a blocking wait, or one
    that reports an end, leaves no such child. *)
Class ProcLaws (W : Type) `{!Procs W, !Holdings W} : Prop :=
  { fork_law : forall c w pid w', p_fork c w = (pid, w') -> fds w' = fds w /\ maps w' = maps w /\ pid <> 0 /\
      if pid <? 0 then kids w' = kids w else kids w' = {[pid]} ∪ kids w /\ pid ∉ kids w;
    wait_law : forall pid fl w r st w', p_waitpid pid fl w = ((r, st), w') -> fds w' = fds w /\ maps w' = maps w /\
      (kids w' = kids w \/ kids w' = kids w ∖ {[pid]}) /\ (fl = 0 \/ fl = WNOHANG /\ 0 < r -> pid ∉ kids w');
    kill_law : forall pid sig w, fds (p_kill pid sig w) = fds w /\ maps (p_kill pid sig w) = maps w /\ kids (p_kill pid sig w) = kids w }.

(** [Y] is [X] and, on top, the members of [F]. *)
Definition plus (F : list Z) (X Y : gset Z) : Prop := Y = list_to_set F ∪ X /\ NoDup F /\ forall x, x ∈ F -> x ∉ X.

Lemma plus_nil X : plus [] X X.
Proof. unfold plus. split_and!; [set_solver|constructor|set_solver]. Qed.

Lemma plus_none X Y : plus [] X Y -> Y = X.
Proof. intros (-> & _). set_solver. Qed.

Lemma plus_add x F X Y : plus F X Y -> x ∉ Y -> plus (x :: F) X ({[x]} ∪ Y).
Proof.
  intros (-> & H1 & H2) Hx. unfold plus. cbn [list_to_set]. split_and!; [set_solver| |].
  - constructor; [set_solver|done].
  - intros y [->|Hy]%elem_of_cons; [set_solver|by apply H2].
Qed.

Lemma plus_sub x F X Y : plus (x :: F) X Y -> plus F X (Y ∖ {[x]}).
Proof.
  intros (-> & H1 & H2). apply NoDup_cons in H1 as [H1 H3]. unfold plus. split_and!; [|done|intros y Hy; apply H2; by constructor].
  pose proof (H2 x ltac:(by constructor)) as Hx. cbn [list_to_set]. apply set_eq. intros y.
  rewrite elem_of_difference, !elem_of_union, !elem_of_singleton, elem_of_list_to_set. split; [tauto|].
  intros [Hy|Hy]; (split; [tauto|]); intros ->; done.
Qed.

Lemma plus_perm F F' X Y : F ≡ₚ F' -> plus F X Y -> plus F' X Y.
Proof.
  intros H (-> & H1 & H2). unfold plus. rewrite <- H. split_and!; [by rewrite (list_to_set_perm_L _ _ H)|done|].
  intros x Hx. apply H2. by rewrite H.
Qed.

(** Removing every member, in any order. *)
Definition remove_all (l : list Z) (Y : gset Z) : gset Z := foldl (fun Y x => Y ∖ {[x]}) Y l.

Lemma remove_all_diff l Y : remove_all l Y = Y ∖ list_to_set l.
Proof.
  unfold remove_all. revert Y. induction l as [|x l IH]; intros Y; cbn [foldl list_to_set]; [set_solver|].
  rewrite IH. set_solver.
Qed.

Lemma plus_clear F l X Y : plus F X Y -> F ≡ₚ l -> remove_all l Y = X.
Proof.
  intros (-> & _ & H) Hl. rewrite remove_all_diff, <- (list_to_set_perm_L _ _ Hl). apply set_eq. intros x.
  rewrite elem_of_difference, elem_of_union, elem_of_list_to_set. split; [tauto|]. intros Hx. split; [by right|]. intros HF. by apply (H x).
Qed.

Section Holds.
Context {W : Type} `{!Procs W, !Holdings W, !ProcLaws W}.

(** [w'] holds what [w] holds and, on top, descriptors, mappings and children. *)
Record holds (F M K : list Z) (w w' : W) : Prop := Holds
  { h_fds : plus F (fds w) (fds w'); h_maps : plus M (maps w) (maps w'); h_kids : plus K (kids w) (kids w') }.

Lemma holds_refl w : holds [] [] [] w w.
Proof. constructor; apply plus_nil. Qed.

Definition same (w w' : W) : Prop := fds w' = fds w /\ maps w' = maps w /\ kids w' = kids w.

Lemma holds_nothing w w' : holds [] [] [] w w' -> same w w'.
Proof. intros [H1 H2 H3]. split_and!; by apply plus_none. Qed.

Lemma same_refl_ w : same w w.
Proof. done. Qed.

Lemma same_trans_ w1 w2 w3 : same w1 w2 -> same w2 w3 -> same w1 w3.
Proof. unfold same. intros (-> & -> & ->) (-> & -> & ->). done. Qed.

Lemma holds_step F M K w w1 w2 : holds F M K w w1 -> same w1 w2 -> holds F M K w w2.
Proof. intros [H1 H2 H3] (E1 & E2 & E3). constructor; by rewrite ?E1, ?E2, ?E3. Qed.

Lemma holds_fd F M K w w1 w2 x : holds F M K w w1 -> fds w2 = {[x]} ∪ fds w1 -> x ∉ fds w1 -> maps w2 = maps w1 -> kids w2 = kids w1 -> holds (x :: F) M K w w2.
Proof. intros [H1 H2 H3] E Hx Em Ek. constructor; rewrite ?Em, ?Ek; [|done|done]. rewrite E. by apply plus_add. Qed.

Lemma holds_map F M K w w1 w2 x : holds F M K w w1 -> maps w2 = {[x]} ∪ maps w1 -> x ∉ maps w1 -> fds w2 = fds w1 -> kids w2 = kids w1 -> holds F (x :: M) K w w2.
Proof. intros [H1 H2 H3] E Hx Ef Ek. constructor; rewrite ?Ef, ?Ek; [done| |done]. rewrite E. by apply plus_add. Qed.

Lemma holds_permute F F' M M' K K' w w' : F ≡ₚ F' -> M ≡ₚ M' -> K ≡ₚ K' -> holds F M K w w' -> holds F' M' K' w w'.
Proof. intros HF HM HK [H1 H2 H3]. constructor; by eapply plus_perm. Qed.

Lemma holds_fork F M K w w1 c pid w2 : holds F M K w w1 -> p_fork c w1 = (pid, w2) -> holds F M (if pid <? 0 then K else pid :: K) w w2.
Proof.
  intros [H1 H2 H3] (E1 & E2 & _ & E3)%fork_law. constructor; rewrite ?E1, ?E2; [done|done|].
  destruct (pid <? 0); [by rewrite E3|]. destruct E3 as [-> E3]. by apply plus_add.
Qed.

(** A wait that reaps, or does not; the child may have been reaped before. *)
Definition kid_gone (pid : Z) (K : list Z) (w w' : W) : Prop := plus K (kids w) (kids w') \/ plus (pid :: K) (kids w) (kids w').

Lemma wait_cases F M K w w1 pid fl r st w2 : plus F (fds w) (fds w1) -> plus M (maps w) (maps w1) -> kid_gone pid K w w1 ->
  p_waitpid pid fl w1 = ((r, st), w2) -> pid ∉ kids w -> pid ∉ K ->
  plus F (fds w) (fds w2) /\ plus M (maps w) (maps w2) /\ kid_gone pid K w w2 /\ (fl = 0 \/ fl = WNOHANG /\ 0 < r -> holds F M K w w2).
Proof.
  intros H1 H2 H3 (E1 & E2 & E3 & E4)%wait_law Hp HK. rewrite E1, E2.
  assert (pid ∉ kids w2 -> kids w2 = kids w1 \/ kids w2 = kids w1 ∖ {[pid]} -> plus K (kids w) (kids w2)) as Hgone.
  { intros Hn Hc. assert (kids w2 = kids w1 ∖ {[pid]}) as Hd by (destruct Hc as [Hc|Hc]; [|done]; rewrite Hc in Hn; set_solver). rewrite Hd.
    destruct H3 as [H3|H3]; [|by apply plus_sub]. destruct H3 as (Hk & HN & HX). unfold plus. split_and!; [|done|done]. rewrite Hk.
    apply set_eq. intros y. rewrite elem_of_difference, elem_of_union, elem_of_list_to_set, elem_of_singleton. split; [tauto|]. intros Hy. split; [done|]. intros ->. tauto. }
  split_and!; [done|done| |].
  - destruct E3 as [E3|E3]; [unfold kid_gone; by rewrite E3|]. left. apply Hgone; [|by right]. rewrite E3. set_solver.
  - intros Hfl. specialize (E4 Hfl). constructor; rewrite ?E1, ?E2; [done|done|by apply Hgone].
Qed.

Lemma holds_wait F M K w w1 pid r st w2 : holds F M (pid :: K) w w1 -> p_waitpid pid 0 w1 = ((r, st), w2) -> holds F M K w w2.
Proof.
  intros [H1 H2 H3] E. pose proof H3 as (_ & HN & HX). apply NoDup_cons in HN as [HN _].
  eapply (wait_cases F M K w w1 pid 0) in E as (_ & _ & _ & H); [apply H; by left|done|done|by right|apply HX; by constructor|done].
Qed.

Lemma same_kill pid sig w : same w (p_kill pid sig w).
Proof. apply kill_law. Qed.

(** * A fleet of workers *)

(** [for w in 0..procs]: every worker is forked, failures included in the list. *)
Fixpoint fork_all (children : list (list Act)) (w : W) : list Z * W :=
  match children with
  | [] => ([], w)
  | c :: cs => let '(pid, w) := p_fork c w in let '(pids, w) := fork_all cs w in (pid :: pids, w)
  end.
(** [for pid in pids if pid > 0]. *)
Definition wait_all (pids : list Z) (w : W) : W :=
  foldl (fun w pid => if 0 <? pid then snd (p_waitpid pid 0 w) else w) w pids.

Lemma fork_all_holds cs F M K w w1 pids w2 : holds F M K w w1 -> fork_all cs w1 = (pids, w2) ->
  holds F M (reverse (filter (fun p => 0 < p) pids) ++ K) w w2 /\ length pids = length cs.
Proof.
  revert K w1 pids. induction cs as [|c cs IH]; intros K w1 pids H E; cbn [fork_all] in E; [by simplify_eq|].
  destruct (p_fork c w1) as [pid w3] eqn:Ef. destruct (fork_all cs w3) as [ps w4] eqn:Ea. injection E as <- <-.
  pose proof (fork_law _ _ _ _ Ef) as (_ & _ & Hp & _). pose proof (holds_fork _ _ _ _ _ _ _ _ H Ef) as H1.
  destruct (IH _ _ _ H1 Ea) as [H2 Hl]. split; [|cbn; by rewrite Hl]. rewrite filter_cons. destruct (Z.ltb_spec pid 0) as [Hlt|Hge].
  - by rewrite decide_False by lia.
  - by rewrite decide_True, reverse_cons, <- app_assoc by lia.
Qed.

Lemma wait_all_holds pids F M K w w1 : holds F M (filter (fun p => 0 < p) pids ++ K) w w1 -> holds F M K w (wait_all pids w1).
Proof.
  unfold wait_all. revert w1. induction pids as [|p pids IH]; intros w1 H; [done|]. cbn [foldl]. apply IH. rewrite filter_cons in H.
  destruct (Z.ltb_spec 0 p) as [Hp|Hp].
  - rewrite decide_True in H by lia. cbn [app] in H. destruct (p_waitpid p 0 w1) as [[r st] w2] eqn:E. cbn [snd]. by eapply holds_wait.
  - by rewrite decide_False in H by lia.
Qed.

(** However many of the forks fail, a fleet that was forked and waited for
    leaves nothing behind. *)
Theorem fleet_reaped cs w pids w1 : fork_all cs w = (pids, w1) -> same w (wait_all pids w1).
Proof.
  intros E. destruct (fork_all_holds cs _ _ _ w w pids w1 (holds_refl w) E) as [H _]. apply holds_nothing, wait_all_holds.
  eapply holds_permute; [done|done| |exact H]. by rewrite reverse_Permutation.
Qed.

(** One worker in place, or one process for each. *)
Definition run_procs (procs : Z) (worker : Z -> W -> outcome W) (w : W) : outcome W :=
  if procs <=? 1 then worker 0 w
  else let '(pids, w) := fork_all ((fun i => [Work i; Exit 0]) <$> seqZ 0 procs) w in Done (wait_all pids w).

Lemma run_procs_same procs worker w w1 : (forall v v', worker 0 v = Done v' -> same v v') -> run_procs procs worker w = Done w1 -> same w w1.
Proof.
  intros Hw. unfold run_procs. destruct (procs <=? 1); [apply Hw|]. destruct (fork_all _ w) as [pids w2] eqn:E. intros [= <-]. by eapply fleet_reaped.
Qed.
End Holds.

(** * Repetition *)

(** [while repeat == 0 || i < repeat { body; i += 1 }], while the process may go
    on; the counter is an [i32]. *)
Section Repeat.
Context {W : Type} (going : W -> bool) (body : W -> W).

Definition turn (repeat : Z) (s : Z * W) : outcome (ctl (Z * W) W) :=
  let '(i, w) := s in
  Done (if going w && ((repeat =? 0) || (i <? repeat)) then Next (as_i32 (i + 1), body w) else Stop w).
Definition turns (fuel : nat) (repeat : Z) (w : W) : outcome W := loop fuel (turn repeat) (0, w).

Lemma turns_from n : forall i fuel repeat w, (forall v, going v = true) -> 0 <= i -> repeat = i + Z.of_nat n -> 0 < repeat < 2 ^ 31 -> (n < fuel)%nat ->
  loop fuel (turn repeat) (i, w) = Done (Nat.iter n body w).
Proof.
  induction n as [|n IH]; intros i fuel repeat w Hg Hi Hr Hb Hf; (destruct fuel as [|fuel]; [lia|]); rewrite loop_S; cbn [turn]; rewrite Hg; cbn [andb].
  - rewrite (proj2 (Z.eqb_neq repeat 0)), (proj2 (Z.ltb_ge i repeat)) by lia. done.
  - rewrite (proj2 (Z.ltb_lt i repeat)), orb_true_r by lia. cbn [mbind outcome_bind]. assert (as_i32 (i + 1) = i + 1) as ->.
    { unfold as_i32, as_signed. change (32 - 1) with 31. rewrite Z.mod_small; lia. }
    rewrite (IH (i + 1) fuel repeat (body w)) by (done || lia). by rewrite Nat.iter_succ_r.
Qed.

(** A positive count is the number of passes, 0 is no limit, a negative count
    is none. *)
Lemma turns_count fuel repeat w : (forall v, going v = true) -> 0 < repeat < 2 ^ 31 -> (Z.to_nat repeat < fuel)%nat ->
  turns fuel repeat w = Done (Nat.iter (Z.to_nat repeat) body w).
Proof. intros Hg Hr Hf. unfold turns. apply turns_from; [done|lia|lia|done|done]. Qed.

Lemma turns_forever fuel w : (forall v, going v = true) -> turns fuel 0 w = Fuel.
Proof.
  intros Hg. apply (loop_diverges (fun _ => True)); [|done]. intros [i v] _. exists (as_i32 (i + 1), body v). split; [|done]. cbn [turn]. by rewrite Hg.
Qed.

Lemma turns_none fuel repeat w : repeat < 0 -> turns (S fuel) repeat w = Done w.
Proof. intros Hr. unfold turns. rewrite loop_S. cbn [turn]. rewrite (proj2 (Z.eqb_neq repeat 0)), (proj2 (Z.ltb_ge 0 repeat)), andb_false_r by lia. done. Qed.

(** What a pass keeps, the passes keep. *)
Lemma turns_keep (R : W -> W -> Prop) fuel repeat w w' : (forall v, R v v) -> (forall a b c, R a b -> R b c -> R a c) -> (forall v, R v (body v)) ->
  turns fuel repeat w = Done w' -> R w w'.
Proof.
  intros Hr Ht Hb. unfold turns. apply (loop_inv (fun s => R w (snd s)) (fun v => R w v)); [|apply Hr]. intros [i v] c Hv E. cbn [turn snd] in *.
  injection E as <-. destruct (_ && _); [|done]. cbn [snd]. by eapply Ht.
Qed.
End Repeat.
