(* ===== verification/BpfRun.v ===== *)
(** ebpf.rs: [run], from the maps to the written trace.

    A phase of [run] gives a value or the notice the user is shown with the
    result -1; the drains are those of BpfRing.v, on the pages the host shows.
    The host is an instance of [BpfHost] over the processes of Process.v.
    Shown: whatever fails, the target is killed and waited for, and a failure
    before the fork leaves nothing open; one after it leaves open what was; a
    run that is set up gives everything back, and logs the calls of the records
    the kernel wrote. *)
From stdpp Require Import gmap.
From S2P Require Import Prelude Text Syscalls SysDecode FuzzTypes BpfProg BpfRing Process.

Definition BPF_MAP_TYPE_HASH : Z := 1.
Definition BPF_MAP_TYPE_RINGBUF : Z := 27.
Definition BPF_PROG_TYPE_TRACEPOINT : Z := 5.
Definition BPF_ANY : Z := 0.
Definition PERF_TYPE_TRACEPOINT : Z := 2.
Definition PERF_SAMPLE_RAW : Z := Z.shiftl 1 10.
Definition PERF_EVENT_IOC_ENABLE : Z := 0x2400.
Definition PERF_EVENT_IOC_SET_BPF : Z := 0x40042408.
Definition EPERM : Z := 1.
Definition POLL_MS : Z := 10.

(** The views of [bpf_attr]; what a pointer field points to stands for it. *)
Inductive Attr : Type :=
  | MapCreate (map_type key_size value_size max_entries : Z)
  | MapElem (map_fd key value flags : Z)
  | ProgLoad (prog_type : Z) (insns : list Z) (license : list Z) (log_level log_size : Z).

(** The fields of [perf_event_attr] the file sets. *)
Record TpAttr : Type := MkTpAttr { type_ : Z; config : Z; sample_type : Z }.

Inductive ReadText : Type := Text (s : list Z) | PermissionDenied | ReadFailed.

Class BpfHost (W : Type) `{!Procs W} : Type :=
  { b_bpf : Attr -> W -> Z * W;
    b_errno : W -> Z;
    b_euid : W -> Z;
    b_close : Z -> W -> W;
    b_mmap : Z -> bool -> Z -> Z -> W -> option Z * W;     (* length, writable, fd, offset *)
    b_munmap : Z -> Z -> W -> W;
    b_perf_open : TpAttr -> Z -> W -> Z * W;               (* attributes, cpu *)
    b_ioctl : Z -> Z -> Z -> W -> Z * W;
    b_nprocs : W -> Z;
    b_read : list Z -> W -> ReadText;
    b_stat_denied : list Z -> W -> bool;
    b_exists : list Z -> W -> bool;
    b_poll : Z -> Z -> W -> W;
    b_word : Z -> W -> Z;                                  (* the first word of a page *)
    b_set_word : Z -> Z -> W -> W;
    b_data : Z -> W -> Z -> Z;                             (* what follows the page at an address *)
    b_create : list Z -> W -> option Z * W;
    b_write : Z -> list Z -> W -> W;
    b_readv : W -> Z -> Z -> option (list Z) }.

(** What [run] says on the error stream when it gives up, and at its end. *)
Inductive Notice : Type := NotBuilt | Eperm (disabled : list Z) | TracefsDenied | Written.
Definition returned (n : Notice) : Z := match n with Written => 0 | _ => -1 end.

Record Loaded : Type := MkLoaded { pid_map_fd : Z; ring_fd : Z; enter_fd : Z; exit_fd : Z }.
(** The pages, the events and the log of a run that is set up. *)
Record Ready : Type := MkReady { cons_page : Z; prod_pages : Z; enter_efds : list Z; exit_efds : list Z; log_fd : Z }.

Section Run.
Context {W : Type} `{!Procs W, !BpfHost W} (arch : Arch) (L : Libc).

(** A phase: a value, or the notice with which the run ends. *)
Definition phase (A : Type) : Type := W -> (A + Notice) * W.
Definition value {A} (a : A) : phase A := fun w => (inl a, w).
Definition bail {A} (n : Notice) : phase A := fun w => (inr n, w).
Definition and_then {A B} (m : phase A) (k : A -> phase B) : phase B :=
  fun w => match m w with (inl a, w) => k a w | (inr n, w) => (inr n, w) end.

Definition bpf_available (w : W) : bool := b_exists (bs "/sys/kernel/btf/vmlinux") w.

Definition bpf_fail (w : W) : Notice :=
  if (b_errno w =? EPERM) && negb (b_euid w =? 0)
  then Eperm (trim (match b_read (bs "/proc/sys/kernel/unprivileged_bpf_disabled") w with Text s => s | _ => [] end))
  else NotBuilt.

Definition bpf_create_map (map_type key_size value_size max_entries : Z) : W -> Z * W := b_bpf (MapCreate map_type key_size value_size max_entries).
Definition bpf_map_update (fd key val : Z) (w : W) : W := snd (b_bpf (MapElem (as_u32 fd) key val BPF_ANY) w).
Definition bpf_prog_load (prog_type : Z) (insns : list Z) : W -> Z * W := b_bpf (ProgLoad prog_type insns (bs "GPL" ++ [0]) 1 8192).

Definition close_all (fds : list Z) (w : W) : W := foldl (fun w fd => b_close fd w) w fds.

(** The maps and the programs. *)
Definition load : phase Loaded := fun w =>
  let '(pid_map, w) := bpf_create_map BPF_MAP_TYPE_HASH 4 4 1 w in
  if pid_map <? 0 then (inr (bpf_fail w), w) else
  let '(ring, w) := bpf_create_map BPF_MAP_TYPE_RINGBUF 0 0 RINGBUF_SZ w in
  if ring <? 0 then let w := b_close pid_map w in (inr (bpf_fail w), w) else
  let '(enter, w) := bpf_prog_load BPF_PROG_TYPE_TRACEPOINT (build_enter pid_map ring) w in
  if enter <? 0 then let w := close_all [pid_map; ring] w in (inr (bpf_fail w), w) else
  let '(exit, w) := bpf_prog_load BPF_PROG_TYPE_TRACEPOINT (build_exit pid_map ring) w in
  if exit <? 0 then bail NotBuilt (close_all [enter; pid_map; ring] w) else
  (inl (MkLoaded pid_map ring enter exit), w).

(** The child, stopped before it runs the command. *)
Definition spawn (cmd : list (list Z)) (l : Loaded) : phase Z := fun w =>
  let '(pid, w) := p_fork ([Raise SIGSTOP] ++ execvp cmd ++ [Exit 127]) w in
  if pid <? 0 then bail NotBuilt w else
  let '(_, w) := p_waitpid pid WUNTRACED w in
  (inl pid, bpf_map_update (pid_map_fd l) 0 (as_u32 pid) w).

Definition reap (pid : Z) (w : W) : W := snd (p_waitpid pid 0 (p_kill pid SIGKILL w)).
Definition abandon {A} (pid : Z) : phase A := fun w => bail NotBuilt (reap pid w).

Definition map_pages (pid : Z) (l : Loaded) : phase (Z * Z) := fun w =>
  let '(c, w) := b_mmap 4096 true (ring_fd l) 0 w in
  match c with
  | None => abandon pid w
  | Some c =>
      let '(p, w) := b_mmap (4096 + RINGBUF_SZ) false (ring_fd l) 4096 w in
      match p with None => abandon pid w | Some p => (inl (c, p), w) end
  end.

(** The first of the two directories with a readable number. *)
Definition tp_bases : list (list Z) := [bs "/sys/kernel/tracing/events/raw_syscalls"; bs "/sys/kernel/debug/tracing/events/raw_syscalls"].
Definition tp_file (base name : list Z) (w : W) : option Z :=
  match b_read (base ++ [47] ++ name ++ bs "/id") w with Text s => parse_i32 (trim s) | _ => None end.
Definition tp_id (name : list Z) (w : W) : Z := default (-1) (head (omap (fun base => tp_file base name w) tp_bases)).

Definition tracefs_denied (w : W) : bool :=
  negb (b_euid w =? 0) &&
  (match b_read (bs "/sys/kernel/tracing/events/raw_syscalls/sys_enter/id") w with PermissionDenied => true | _ => false end
   || b_stat_denied (bs "/sys/kernel/tracing/events") w).

(** One event per processor; one that cannot be attached is closed again. *)
Definition attach_cpu (prog tp cpu : Z) (w : W) : option Z * W :=
  let '(efd, w) := b_perf_open (MkTpAttr PERF_TYPE_TRACEPOINT (as_u64 tp) PERF_SAMPLE_RAW) cpu w in
  if efd <? 0 then (None, w) else
  let '(r, w) := b_ioctl efd PERF_EVENT_IOC_SET_BPF prog w in
  if r <? 0 then (None, b_close efd w) else
  (Some efd, snd (b_ioctl efd PERF_EVENT_IOC_ENABLE 0 w)).
Fixpoint attach_cpus (prog tp : Z) (cpus : list Z) (w : W) : list Z * W :=
  match cpus with
  | [] => ([], w)
  | cpu :: cpus =>
      let '(e, w) := attach_cpu prog tp cpu w in
      let '(es, w) := attach_cpus prog tp cpus w in
      (match e with Some e => e :: es | None => es end, w)
  end.
Definition attach_tp (prog tp : Z) (w : W) : list Z * W :=
  let n := if b_nprocs w <? 1 then 1 else as_i32 (b_nprocs w) in attach_cpus prog tp (seqZ 0 n) w.

Definition attach (pid : Z) (l : Loaded) : phase (list Z * list Z) := fun w =>
  let enter_id := tp_id (bs "sys_enter") w in
  let exit_id := tp_id (bs "sys_exit") w in
  if (enter_id <? 0) || (exit_id <? 0) then
    let w := reap pid w in bail (if tracefs_denied w then TracefsDenied else NotBuilt) w
  else
    let '(enter_efds, w) := attach_tp (enter_fd l) enter_id w in
    let '(exit_efds, w) := attach_tp (exit_fd l) exit_id w in
    match enter_efds, exit_efds with
    | [], _ | _, [] => abandon pid w
    | _, _ => (inl (enter_efds, exit_efds), w)
    end.

Definition open_log (pid : Z) (path : list Z) : phase Z := fun w =>
  let '(f, w) := b_create path w in match f with None => abandon pid w | Some f => (inl f, w) end.

(** The child's part of the set-up, after the fork. *)
Definition start_target (pid : Z) (path : list Z) (l : Loaded) : phase Ready :=
  and_then (map_pages pid l) (fun pages =>
  and_then (attach pid l) (fun efds =>
  and_then (open_log pid path) (fun log =>
  value (MkReady (fst pages) (snd pages) (fst efds) (snd efds) log)))).

(** * The trace *)

(** The pending entry, the calls logged and their text so far. *)
Record Trace : Type := MkTrace { pending : Pending; logged : list Syscall; text : list Z }.

(** [drain] on the pages of the ring: the new calls are rendered as the
    target's memory is then, the consumer position is stored. *)
Definition drain_pages (r : Ready) (t : Trace) (w : W) : outcome (Trace * W) :=
  '(cpos, (p, calls)) ← drain (b_data (prod_pages r) w) (b_word (prod_pages r) w) (b_word (cons_page r) w) (pending t, logged t);
  Done (MkTrace p calls (foldl (emit arch L (b_readv w)) (text t) (drop (length (logged t)) calls)), b_set_word (cons_page r) cpos w).

Definition trace_step (pid : Z) (l : Loaded) (r : Ready) (s : Trace * W) : outcome (ctl (Trace * W) (Trace * W)) :=
  let '(t, w) := s in
  let '((ret, _), w) := p_waitpid pid WNOHANG w in
  let exited := 0 <? ret in
  let w := if exited then w else b_poll (ring_fd l) POLL_MS w in
  s ← drain_pages r t w;
  Done (if exited then Stop s else Next s).

Definition trace_target (fuel : nat) (pid : Z) (l : Loaded) (r : Ready) (w : W) : outcome (Trace * W) :=
  '(t, w) ← loop fuel (trace_step pid l r) (MkTrace None [] [], p_kill pid SIGCONT w);
  '(t, w) ← drain_pages r t w;
  Done (t, b_write (log_fd r) (text t) w).

(** The clean-up, and the log that is closed when it goes out of scope. *)
Definition clean_up (l : Loaded) (r : Ready) (w : W) : W :=
  let w := b_munmap (prod_pages r) (4096 + RINGBUF_SZ) (b_munmap (cons_page r) 4096 w) in
  b_close (log_fd r) (close_all (enter_efds r ++ exit_efds r ++ [enter_fd l; exit_fd l; pid_map_fd l; ring_fd l]) w).

(** The result, with what was logged. *)
Definition run (fuel : nat) (cmd : list (list Z)) (path : list Z) (w : W) : outcome (Z * (list Syscall * (Notice * W))) :=
  if bool_decide (cmd = []) || negb (bpf_available w) then Done (-1, ([], (NotBuilt, w))) else
  let stopped n w := Done (returned n, ([], (n, w))) in
  match load w with
  | (inr n, w) => stopped n w
  | (inl l, w) =>
      match spawn cmd l w with
      | (inr n, w) => stopped n w
      | (inl pid, w) =>
          match start_target pid path l w with
          | (inr n, w) => stopped n w
          | (inl r, w) => '(t, w) ← trace_target fuel pid l r w; Done (returned Written, (logged t, (Written, clean_up l r w)))
          end
      end
  end.
End Run.

(** * What a run holds *)

Class BpfLaws (W : Type) `{!Procs W, !Holdings W, !BpfHost W} : Prop :=
  { bpf_law : forall a (w : W) r w', b_bpf a w = (r, w') -> maps w' = maps w /\ kids w' = kids w /\
      match a with
      | MapElem _ _ _ _ => fds w' = fds w
      | _ => if r <? 0 then fds w' = fds w else fds w' = {[r]} ∪ fds w /\ r ∉ fds w
      end;
    bpf_close_law : forall fd (w : W), fds (b_close fd w) = fds w ∖ {[fd]} /\ maps (b_close fd w) = maps w /\ kids (b_close fd w) = kids w;
    bpf_mmap_law : forall n wr fd off (w : W) a w', b_mmap n wr fd off w = (a, w') -> fds w' = fds w /\ kids w' = kids w /\
      match a with Some a => maps w' = {[a]} ∪ maps w /\ a ∉ maps w | None => maps w' = maps w end;
    bpf_munmap_law : forall a n (w : W), fds (b_munmap a n w) = fds w /\ maps (b_munmap a n w) = maps w ∖ {[a]} /\ kids (b_munmap a n w) = kids w;
    bpf_open_law : forall a cpu (w : W) r w', b_perf_open a cpu w = (r, w') -> maps w' = maps w /\ kids w' = kids w /\
      if r <? 0 then fds w' = fds w else fds w' = {[r]} ∪ fds w /\ r ∉ fds w;
    bpf_create_law : forall p (w : W) r w', b_create p w = (r, w') -> maps w' = maps w /\ kids w' = kids w /\
      match r with Some f => fds w' = {[f]} ∪ fds w /\ f ∉ fds w | None => fds w' = fds w end;
    bpf_ioctl_law : forall fd req a (w : W), same w (snd (b_ioctl fd req a w));
    bpf_poll_law : forall fd ms (w : W), same w (b_poll fd ms w);
    bpf_word_law : forall a v (w : W), same w (b_set_word a v w);
    bpf_write_law : forall fd t (w : W), same w (b_write fd t w) }.

Section Balance.
Context {W : Type} `{!Procs W, !Holdings W, !ProcLaws W, !BpfHost W, !BpfLaws W} (arch : Arch) (L : Libc).

Lemma holds_bpf a F M K (w w1 : W) r w2 : match a with MapElem _ _ _ _ => False | _ => True end ->
  holds F M K w w1 -> b_bpf a w1 = (r, w2) -> holds (if r <? 0 then F else r :: F) M K w w2.
Proof.
  intros Ha H (E1 & E2 & E3)%bpf_law. assert (if r <? 0 then fds w2 = fds w1 else fds w2 = {[r]} ∪ fds w1 /\ r ∉ fds w1) as E by (by destruct a).
  clear E3. destruct (r <? 0); [by eapply holds_step|]. destruct E as [E Hn]. by eapply holds_fd.
Qed.

Lemma holds_bclose fd F M K (w w1 : W) : holds (fd :: F) M K w w1 -> holds F M K w (b_close fd w1).
Proof.
  intros [H1 H2 H3]. destruct (bpf_close_law fd w1) as (E1 & E2 & E3). constructor; rewrite ?E1, ?E2, ?E3; [by apply plus_sub|done|done].
Qed.

(** Set-up before the fork gives back what it took. *)
Lemma load_holds (w : W) : match load w with
  | (inl l, w1) => holds [exit_fd l; enter_fd l; ring_fd l; pid_map_fd l] [] [] w w1
  | (inr n, w1) => n <> Written /\ same w w1
  end.
Proof.
  assert (forall v : W, bpf_fail v <> Written) as Hf by (intros v; unfold bpf_fail; by destruct (_ && _)).
  unfold load, bpf_create_map, bpf_prog_load, bail. pose proof (holds_refl w) as H.
  destruct (b_bpf _ w) as [pm w1] eqn:E1. apply (holds_bpf _ [] [] [] w) in E1; [|done|done]. destruct (pm <? 0); [split; [done|by apply holds_nothing]|].
  destruct (b_bpf _ w1) as [ring w2] eqn:E2. apply (holds_bpf _ [pm] [] [] w) in E2; [|done|done]. destruct (ring <? 0); [split; [done|by apply holds_nothing, holds_bclose]|].
  assert (forall v : W, holds [ring; pm] [] [] w v -> same w (close_all [pm; ring] v)) as Hc.
  { intros v Hv. apply holds_nothing. cbn [close_all foldl]. apply holds_bclose, holds_bclose. eapply holds_permute; [apply perm_swap|done|done|done]. }
  destruct (b_bpf _ w2) as [en w3] eqn:E3. apply (holds_bpf _ [ring; pm] [] [] w) in E3; [|done|done]. destruct (en <? 0); [split; [done|by apply Hc]|].
  destruct (b_bpf _ w3) as [ex w4] eqn:E4. apply (holds_bpf _ [en; ring; pm] [] [] w) in E4; [|done|done]. destruct (ex <? 0); [|done].
  split; [done|]. apply (Hc (b_close en w4)). by apply holds_bclose.
Qed.

(** A child that the first wait may have reaped. *)
Record tracks (F M : list Z) (pid : Z) (w w' : W) : Prop := Tracks
  { t_fds : plus F (fds w) (fds w'); t_maps : plus M (maps w) (maps w'); t_kid : kid_gone pid [] w w'; t_new : pid ∉ kids w }.

Lemma tracks_step F M pid (w w1 w2 : W) : tracks F M pid w w1 -> same w1 w2 -> tracks F M pid w w2.
Proof. intros [H1 H2 H3 H4] (E1 & E2 & E3). constructor; unfold kid_gone in *; rewrite ?E1, ?E2, ?E3; done. Qed.

Lemma tracks_fd F M pid (w w1 w2 : W) x : tracks F M pid w w1 -> fds w2 = {[x]} ∪ fds w1 -> x ∉ fds w1 -> maps w2 = maps w1 -> kids w2 = kids w1 -> tracks (x :: F) M pid w w2.
Proof. intros [H1 H2 H3 H4] E Hx E2 E3. constructor; unfold kid_gone in *; rewrite ?E2, ?E3; try done. rewrite E. by apply plus_add. Qed.

Lemma tracks_map F M pid (w w1 w2 : W) x : tracks F M pid w w1 -> maps w2 = {[x]} ∪ maps w1 -> x ∉ maps w1 -> fds w2 = fds w1 -> kids w2 = kids w1 -> tracks F (x :: M) pid w w2.
Proof. intros [H1 H2 H3 H4] E Hx E2 E3. constructor; unfold kid_gone in *; rewrite ?E2, ?E3; try done. rewrite E. by apply plus_add. Qed.

Lemma tracks_wait F M pid (w w1 w2 : W) fl r st : tracks F M pid w w1 -> p_waitpid pid fl w1 = ((r, st), w2) ->
  tracks F M pid w w2 /\ (fl = 0 \/ fl = WNOHANG /\ 0 < r -> holds F M [] w w2).
Proof.
  intros [H1 H2 H3 H4] E. eapply (wait_cases F M [] w w1) in E as (E1 & E2 & E3 & E4); [|done..|by apply not_elem_of_nil]. split; [done|exact E4].
Qed.

Lemma tracks_reap F M pid (w w1 : W) : tracks F M pid w w1 -> holds F M [] w (reap pid w1).
Proof.
  intros H. unfold reap. destruct (p_waitpid pid 0 _) as [[r st] w2] eqn:E. cbn [snd].
  eapply tracks_wait in E as [_ E]; [apply E; by left|]. eapply tracks_step; [exact H|apply same_kill].
Qed.

Lemma spawn_holds cmd l F M (w w1 : W) : holds F M [] w w1 -> match spawn cmd l w1 with
  | (inl pid, w2) => tracks F M pid w w2
  | (inr n, w2) => n <> Written /\ holds F M [] w w2
  end.
Proof.
  intros H. unfold spawn, bail. destruct (p_fork _ w1) as [pid w2] eqn:E. apply (holds_fork F M [] w) in E as H2; [|done].
  destruct (pid <? 0); [by split|]. destruct (p_waitpid pid WUNTRACED w2) as [[r st] w3] eqn:Ew.
  assert (tracks F M pid w w2) as Ht.
  { destruct H2 as [H1 H2 H3]. constructor; [done|done|by right|]. destruct H3 as (_ & _ & HX). apply HX. by constructor. }
  eapply tracks_wait in Ew as [Ew _]; [|exact Ht]. eapply tracks_step; [exact Ew|]. unfold bpf_map_update.
  destruct (b_bpf _ w3) as [r' w4] eqn:Eb. apply bpf_law in Eb as (? & ? & ?). done.
Qed.

Lemma attach_cpus_tracks prog tp cpus F M pid (w w1 : W) es w2 : tracks F M pid w w1 -> attach_cpus prog tp cpus w1 = (es, w2) ->
  tracks (reverse es ++ F) M pid w w2.
Proof.
  revert F w1 es. induction cpus as [|cpu cpus IH]; intros F w1 es H E; cbn [attach_cpus] in E; [by simplify_eq|].
  destruct (attach_cpu prog tp cpu w1) as [e w3] eqn:Ea. destruct (attach_cpus prog tp cpus w3) as [es' w4] eqn:Es. injection E as <- <-.
  assert (tracks (match e with Some e => e :: F | None => F end) M pid w w3) as H3.
  { unfold attach_cpu in Ea. destruct (b_perf_open _ cpu w1) as [efd w5] eqn:Eo. apply bpf_open_law in Eo as (E1 & E2 & E3).
    destruct (efd <? 0); [simplify_eq; by eapply tracks_step|]. destruct E3 as [E3 Hn].
    pose proof (tracks_fd _ _ _ _ _ _ _ H E3 Hn E1 E2) as H5. destruct (b_ioctl efd _ prog w5) as [r w6] eqn:Ei.
    assert (tracks (efd :: F) M pid w w6) as H6 by (eapply tracks_step; [exact H5|]; pose proof (bpf_ioctl_law efd PERF_EVENT_IOC_SET_BPF prog w5) as Hs; by rewrite Ei in Hs).
    destruct (r <? 0); simplify_eq.
    - destruct H6 as [H61 H62 H63 H64]. destruct (bpf_close_law efd w6) as (C1 & C2 & C3). constructor; unfold kid_gone in *; rewrite ?C1, ?C2, ?C3; try done. by apply plus_sub.
    - eapply tracks_step; [exact H6|apply bpf_ioctl_law]. }
  specialize (IH _ _ _ H3 Es). destruct e as [e|]; [|done]. by rewrite reverse_cons, <- app_assoc.
Qed.

(** A set-up that fails with the child there kills it and reaps it; what was
    open stays open. *)
Definition stays (F M : list Z) (w w2 : W) : Prop := exists F' M', holds (F' ++ F) (M' ++ M) [] w w2.

Lemma stays_reap F M F' M' pid (w w1 : W) : tracks (F' ++ F) (M' ++ M) pid w w1 -> stays F M w (reap pid w1).
Proof. intros H. eexists _, _. by eapply tracks_reap. Qed.

Definition target_ready F M pid (w : W) (r : Ready) (w2 : W) : Prop :=
  tracks (log_fd r :: reverse (exit_efds r) ++ reverse (enter_efds r) ++ F) (prod_pages r :: cons_page r :: M) pid w w2.

Lemma start_target_tracks pid path l F M (w w1 : W) : tracks F M pid w w1 -> match start_target pid path l w1 with
  | (inl r, w2) => target_ready F M pid w r w2
  | (inr n, w2) => n <> Written /\ stays F M w w2
  end.
Proof.
  intros H. unfold start_target, and_then, map_pages. destruct (b_mmap 4096 _ _ _ w1) as [[c|] w2] eqn:E1; apply bpf_mmap_law in E1 as (E11 & E12 & E13).
  2: { split; [done|]. apply (stays_reap F M [] []). by eapply tracks_step. }
  destruct E13 as [E13 Hc]. pose proof (tracks_map _ _ _ _ _ _ _ H E13 Hc E11 E12) as H2. clear H E11 E12 E13 Hc.
  destruct (b_mmap _ _ _ _ w2) as [[p|] w3] eqn:E1; apply bpf_mmap_law in E1 as (E11 & E12 & E13).
  2: { split; [done|]. apply (stays_reap F M [] [c]). by eapply tracks_step. }
  destruct E13 as [E13 Hc]. pose proof (tracks_map _ _ _ _ _ _ _ H2 E13 Hc E11 E12) as H3. clear H2 E11 E12 E13 Hc.
  cbn [fst snd]. unfold attach. destruct (_ || _).
  { split; [by destruct (tracefs_denied _)|]. apply (stays_reap F M [] [p; c] pid). done. }
  destruct (attach_tp (enter_fd l) _ w3) as [en w4] eqn:E4. eapply attach_cpus_tracks in E4; [|exact H3].
  destruct (attach_tp (exit_fd l) _ w4) as [ex w5] eqn:E5. eapply attach_cpus_tracks in E5; [|exact E4].
  assert (forall v, same w5 v -> stays F M w (reap pid v)) as Hst.
  { intros v Hv. apply (stays_reap F M (reverse ex ++ reverse en) [p; c] pid). rewrite <- app_assoc. by eapply tracks_step. }
  destruct en as [|e1 en], ex as [|x1 ex]; try (split; [done|]; by apply Hst).
  cbn [fst snd]. unfold open_log. destruct (b_create path w5) as [[f|] w6] eqn:E6; apply bpf_create_law in E6 as (E61 & E62 & E63).
  - destruct E63 as [E63 Hf]. unfold value, target_ready. cbn [log_fd enter_efds exit_efds prod_pages cons_page]. by eapply tracks_fd.
  - split; [done|]. apply Hst. unfold same. by rewrite E61, E62, E63.
Qed.

Lemma drain_same r t (w : W) t' w' : drain_pages arch L r t w = Done (t', w') -> same w w'.
Proof. unfold drain_pages. intros H. binds H. destruct a as [c [p calls]]. cbn beta iota in H. simplify_eq. apply bpf_word_law. Qed.

Lemma trace_reaps fuel F M pid l r (w w1 : W) t w2 : tracks F M pid w w1 -> trace_target arch L fuel pid l r w1 = Done (t, w2) -> holds F M [] w w2.
Proof.
  intros H E. unfold trace_target in E. binds E. destruct a as [t1 w3]. cbn beta iota in E. binds E. destruct a as [t2 w4]. cbn beta iota in E. simplify_eq.
  assert (holds F M [] w w3) as H3.
  { revert E0. apply (loop_inv (fun s => tracks F M pid w (snd s)) (fun s => holds F M [] w (snd s))).
    2: { cbn [snd]. eapply tracks_step; [exact H|apply same_kill]. }
    intros [t0 w0] c H0 Hs. unfold trace_step in Hs. destruct (p_waitpid pid WNOHANG w0) as [[ret st] w5] eqn:Ew. cbn [snd] in H0.
    eapply tracks_wait in Ew as [H5 Hr]; [|exact H0]. binds Hs. destruct a as [t' w6]. apply drain_same in E.
    destruct (Z.ltb_spec 0 ret) as [Hlt|Hle]; simplify_eq; cbn [snd].
    - eapply holds_step; [apply Hr; right; by split|done].
    - eapply tracks_step; [exact H5|]. eapply same_trans_; [apply bpf_poll_law|exact E]. }
  eapply holds_step; [eapply holds_step; [exact H3|by eapply drain_same]|]. apply bpf_write_law.
Qed.

Lemma close_all_same l (w : W) : fds (close_all l w) = remove_all l (fds w) /\ maps (close_all l w) = maps w /\ kids (close_all l w) = kids w.
Proof.
  unfold close_all, remove_all. revert w. induction l as [|x l IH]; intros w; [done|]. cbn [foldl]. destruct (IH (b_close x w)) as (-> & -> & ->).
  by destruct (bpf_close_law x w) as (-> & -> & ->).
Qed.

Lemma clean_up_all l r (w w1 : W) F : F ≡ₚ [enter_fd l; exit_fd l; pid_map_fd l; ring_fd l] -> 
  holds (log_fd r :: reverse (exit_efds r) ++ reverse (enter_efds r) ++ F) [prod_pages r; cons_page r] [] w w1 -> same w (clean_up l r w1).
Proof.
  intros HF [H1 H2 H3]. unfold clean_up. set (ws := b_munmap _ _ _). set (fs := enter_efds r ++ _).
  destruct (bpf_close_law (log_fd r) (close_all fs ws)) as (E1 & E2 & E3). destruct (close_all_same fs ws) as (C1 & C2 & C3).
  destruct (bpf_munmap_law (cons_page r) 4096 w1) as (U1 & U2 & U3). destruct (bpf_munmap_law (prod_pages r) (4096 + RINGBUF_SZ) (b_munmap (cons_page r) 4096 w1)) as (V1 & V2 & V3).
  unfold same. rewrite E1, E2, E3, C1, C2, C3. subst ws. rewrite V1, V2, V3, U1, U2, U3. split_and!; [..|by apply plus_none].
  - change (remove_all fs (fds w1) ∖ {[log_fd r]}) with (remove_all [log_fd r] (remove_all fs (fds w1))). unfold remove_all. rewrite <- foldl_app.
    apply (plus_clear _ _ _ _ H1). subst fs. rewrite <- Permutation_cons_append. apply perm_skip. rewrite !reverse_Permutation, HF, (app_assoc (enter_efds r)), (app_assoc (exit_efds r)).
    apply Permutation_app_tail, Permutation_app_comm.
  - apply plus_none, plus_sub. apply plus_sub. eapply plus_perm; [apply perm_swap|done].
Qed.

(** A run leaves no child, whatever fails and however the target ends.  A run
    that was set up gives back the maps, the programs, the events, the pages
    and the log; one that fails before the fork gives back what it took. *)
Theorem run_balanced fuel cmd path (w w2 : W) code calls n : run arch L fuel cmd path w = Done (code, (calls, (n, w2))) ->
  kids w2 = kids w /\ (n = Written -> same w w2) /\ (code = 0 <-> n = Written) /\
  (forall m w1, load w = (inr m, w1) -> cmd <> [] -> bpf_available w = true -> m = n /\ same w w2).
Proof.
  intros E. unfold run in E. destruct (_ || _) eqn:Hc.
  { simplify_eq. split_and!; [done|done|done|]. intros m w1 _ Hne Ha. rewrite bool_decide_eq_false_2, Ha in Hc by done. done. }
  clear Hc. pose proof (load_holds w) as Hl. destruct (load w) as [[l|m] w3] eqn:El.
  2: { simplify_eq. destruct Hl as [Hn Hs]. split_and!; [apply Hs|done|by destruct n|]. intros m' w1 [= <- <-]. done. }
  pose proof (spawn_holds cmd l _ _ _ _ Hl) as Hp. destruct (spawn cmd l w3) as [[pid|m] w4] eqn:Ep.
  2: { simplify_eq. destruct Hp as [Hn [_ _ Hk]]. apply plus_none in Hk. split_and!; [done|done|by destruct n|done]. }
  pose proof (start_target_tracks pid path l _ _ _ _ Hp) as Ht. destruct (start_target pid path l w4) as [[r|m] w5] eqn:Et.
  2: { simplify_eq. destruct Ht as (Hn & F' & M' & [_ _ Hk]). apply plus_none in Hk. split_and!; [done|done|by destruct n|done]. }
  binds E. destruct a as [t w6]. cbn beta iota in E. simplify_eq. eapply trace_reaps in E0; [|exact Ht].
  assert (same w (clean_up l r w6)) as Hs.
  { apply (clean_up_all l r w w6 [exit_fd l; enter_fd l; ring_fd l; pid_map_fd l]); [|exact E0]. etransitivity; [apply perm_swap|]. do 2 apply perm_skip. apply perm_swap. }
  split_and!; [apply Hs|done|done|done].
Qed.

(** A set-up that fails after the fork keeps the four descriptors. *)
Theorem failed_start_keeps cmd path l pid n (w w1 w2 w3 : W) : load w = (inl l, w1) -> spawn cmd l w1 = (inl pid, w2) -> start_target pid path l w2 = (inr n, w3) ->
  kids w3 = kids w /\ list_to_set [exit_fd l; enter_fd l; ring_fd l; pid_map_fd l] ⊆ fds w3.
Proof.
  intros El Ep Et. pose proof (load_holds w) as Hl. rewrite El in Hl. pose proof (spawn_holds cmd l _ _ _ _ Hl) as Hp. rewrite Ep in Hp.
  pose proof (start_target_tracks pid path l _ _ _ _ Hp) as Ht. rewrite Et in Ht. destruct Ht as (_ & F' & M' & [(-> & _) _ Hk]). split; [by apply plus_none|].
  rewrite list_to_set_app_L. set_solver.
Qed.
End Balance.

(** * What a run logs *)

Section Logged.
Context {W : Type} `{!Procs W, !Holdings W, !ProcLaws W, !BpfHost W, !BpfLaws W} (arch : Arch) (L : Libc).

(** The pages show the ring after the kernel wrote [b] at [pos]. *)
Definition shows (pg : Z) (r : Ready) (mem : Z -> Z) (pos : Z) (b : list (list Z) * bool) (w : W) : Prop :=
  b_data (prod_pages r) w = produce pg mem pos b /\ b_word (prod_pages r) w = pos + zlen (batch_bytes pg b) /\ b_word (cons_page r) w = pos.
Definition after (pos : Z) (b : list (list Z) * bool) : Z := pos + 88 * Z.of_nat (length (fst b)).

(** A traced target, from the state in which the loop waits: what the kernel
    writes before each drain; the last batch is for the drain after the end. *)
Inductive feeds (pg pid : Z) (l : Loaded) (r : Ready) : (Z -> Z) -> Z -> W -> list (list (list Z) * bool) -> Prop :=
  | feeds_poll mem pos w b bs ret st w1 : p_waitpid pid WNOHANG w = ((ret, st), w1) -> ret <= 0 ->
      shows pg r mem pos b (b_poll (ring_fd l) POLL_MS w1) ->
      feeds pg pid l r (produce pg mem pos b) (after pos b) (b_set_word (cons_page r) (after pos b) (b_poll (ring_fd l) POLL_MS w1)) bs ->
      feeds pg pid l r mem pos w (b :: bs)
  | feeds_exit mem pos w b b' ret st w1 : p_waitpid pid WNOHANG w = ((ret, st), w1) -> 0 < ret -> shows pg r mem pos b w1 ->
      shows pg r (produce pg mem pos b) (after pos b) b' (b_set_word (cons_page r) (after pos b) w1) ->
      feeds pg pid l r mem pos w [b; b'].

(** The calls added to a trace, each rendered as the target's memory was at
    some moment. *)
Definition render (ms : list (Z -> Z -> option (list Z))) (calls : list Syscall) : list Z :=
  concat (zip_with (fun m sc => decode_syscall arch L m sc) ms calls).
Definition extends (t t' : Trace) : Prop :=
  exists new ms, logged t' = logged t ++ new /\ length ms = length new /\ text t' = text t ++ render ms new.

Lemma extends_trans t1 t2 t3 : extends t1 t2 -> extends t2 t3 -> extends t1 t3.
Proof.
  intros (n1 & m1 & L1 & Hl1 & T1) (n2 & m2 & L2 & Hl2 & T2). exists (n1 ++ n2), (m1 ++ m2). rewrite L2, L1, T2, T1, !length_app, <- !app_assoc, Hl1, Hl2.
  split_and!; [done|done|]. unfold render. rewrite zip_with_app by done. by rewrite concat_app, <- ?app_assoc.
Qed.

Lemma matched_extends rs p log : exists new, snd (matched (p, log) rs) = log ++ new.
Proof.
  unfold matched. generalize (event_of <$> rs) as es. intros es. revert p log. induction es as [|e es IH]; intros p log; [exists []; by rewrite app_nil_r|].
  cbn [foldl]. assert (exists p' n, match_event (p, log) e = (p', log ++ n)) as (p' & n & ->).
  { unfold match_event. destruct (_ =? 0); [eexists _, []; by rewrite app_nil_r|]. destruct p as [[pnr pa]|]; [|eexists _, []; by rewrite app_nil_r].
    destruct (pnr =? _); [by eexists _, _|eexists _, []; by rewrite app_nil_r]. }
  destruct (IH p' (log ++ n)) as [new ->]. exists (n ++ new). by rewrite app_assoc.
Qed.

Lemma drain_shown pg r t mem pos b (w : W) : shows pg r mem pos b w -> records_ok (fst b) -> zlen (batch_bytes pg b) <= RINGBUF_SZ ->
  0 <= pos -> (88 | pos) -> pos + zlen (batch_bytes pg b) <= 88 * LAPS_RECORDS ->
  exists t', drain_pages arch L r t w = Done (t', b_set_word (cons_page r) (after pos b) w) /\
    (pending t', logged t') = matched (pending t, logged t) (fst b) /\ extends t t'.
Proof.
  intros (H1 & H2 & H3) Hok Hsz H0 Hd Hf. unfold drain_pages. rewrite H1, H2, H3. unfold LAPS_RECORDS in *.
  rewrite drain_batch; [|done|by apply produce_holds| |done|lia].
  2: { apply first_records_fit; [done| |done]. rewrite zlen_batch in Hf by done. unfold LAPS_RECORDS. lia. }
  cbn [mbind outcome_bind]. destruct (matched_extends (fst b) (pending t) (logged t)) as [new Hn]. destruct (matched _ _) as [p calls]. cbn [snd] in Hn. subst calls.
  eexists. split; [done|]. split; [done|]. exists new, (replicate (length new) (b_readv w)). cbn [logged text]. rewrite length_replicate, drop_app_length. split_and!; [done|done|].
  generalize (text t) as out. clear. induction new as [|sc new IH]; intros out; [by rewrite app_nil_r|].
  cbn [foldl length replicate]. rewrite IH. unfold render, emit. cbn [zip_with concat]. by rewrite <- app_assoc.
Qed.

Definition batch_ok (pg : Z) (b : list (list Z) * bool) : Prop := records_ok (fst b) /\ zlen (batch_bytes pg b) <= RINGBUF_SZ.

Lemma after_room pg pos b bs : batch_ok pg b -> (88 | pos) -> pos + 88 * zlen (concat (fst <$> (b :: bs))) < 88 * LAPS_RECORDS ->
  pos + zlen (batch_bytes pg b) <= 88 * LAPS_RECORDS /\ (88 | after pos b) /\ after pos b + 88 * zlen (concat (fst <$> bs)) < 88 * LAPS_RECORDS.
Proof.
  intros [Hok _] [q ->] Hlt. cbn [fmap list_fmap concat] in Hlt. rewrite zlen_app in Hlt. unfold after, LAPS_RECORDS in *. rewrite zlen_batch by done.
  pose proof (zlen_nonneg (concat (fst <$> bs))). unfold zlen in *. split_and!; [destruct (snd b); lia|exists (q + Z.of_nat (length (fst b))); lia|lia].
Qed.

Lemma trace_feeds pg pid l r mem pos (w : W) bs t fuel : feeds pg pid l r mem pos w bs -> Forall (batch_ok pg) bs -> 0 <= pos -> (88 | pos) ->
  pos + 88 * zlen (concat (fst <$> bs)) < 88 * LAPS_RECORDS -> (length bs <= fuel)%nat ->
  exists t1 w1 t2 w2, loop fuel (trace_step arch L pid l r) (t, w) = Done (t1, w1) /\ drain_pages arch L r t1 w1 = Done (t2, w2) /\
    (pending t2, logged t2) = matched (pending t, logged t) (concat (fst <$> bs)) /\ extends t t2.
Proof.
  intros H. revert t fuel. induction H as [mem pos w b bs ret st w1 Hw Hr Hs _ IH|mem pos w b b' ret st w1 Hw Hr Hs1 Hs2]; intros t fuel Hb H0 Hd Hlt Hf;
    (destruct fuel as [|fuel]; [simpl in Hf; lia|]); rewrite loop_S; cbn [trace_step]; rewrite Hw.
  - rewrite (proj2 (Z.ltb_ge _ _)) by lia. apply Forall_cons in Hb as [Hb1 Hb]. destruct (after_room _ _ _ _ Hb1 Hd Hlt) as (R1 & R2 & R3). destruct Hb1 as [Hok Hsz].
    destruct (drain_shown pg r t mem pos b _ Hs Hok Hsz H0 Hd R1) as (t' & -> & Hm & Hx). cbn [mbind outcome_bind].
    assert (0 <= after pos b) as Ha by (unfold after; lia). simpl in Hf.
    destruct (IH t' fuel Hb Ha R2 R3 ltac:(lia)) as (t1 & w2 & t2 & w3 & -> & E2 & Hm2 & Hx2). eexists _, _, t2, w3. split_and!; [done|done| |by eapply extends_trans].
    rewrite Hm2, Hm. unfold matched. cbn [fmap list_fmap concat]. by rewrite fmap_app, foldl_app.
  - rewrite (proj2 (Z.ltb_lt _ _)) by lia. apply Forall_cons in Hb as [Hb1 Hb]. destruct (after_room _ _ _ _ Hb1 Hd Hlt) as (R1 & R2 & R3). destruct Hb1 as [Hok Hsz].
    destruct (drain_shown pg r t mem pos b _ Hs1 Hok Hsz H0 Hd R1) as (t' & -> & Hm & Hx). cbn [mbind outcome_bind].
    assert (0 <= after pos b) as Ha by (unfold after; lia).
    apply Forall_cons in Hb as [Hb2 _]. destruct (after_room _ _ _ _ Hb2 R2 R3) as (R4 & _ & _). destruct Hb2 as [Hok2 Hsz2].
    destruct (drain_shown pg r t' _ _ b' _ Hs2 Hok2 Hsz2 Ha R2 R4) as (t2 & E2 & Hm2 & Hx2). eexists _, _, t2, _. split_and!; [done|exact E2| |by eapply extends_trans].
    rewrite Hm2, Hm. unfold matched. cbn [fmap list_fmap concat]. by rewrite app_nil_r, fmap_app, foldl_app.
Qed.

(** C23: A run of the eBPF backend, from the maps to the file.  For a
    single-threaded target, when the set-up succeeds, the run ends with 0 as soon
    as the target does; the file holds the calls the target made, once each, in
    order, with their arguments and results, each rendered with the target's
    memory at some moment of the run: whatever batches the drains find the
    records in, as long as each batch fits the ring (2978 records), so that the
    kernel drops none, and fewer than 5957 records are written in all; with
    records written between the target's end and the last drain, with the exit
    of the call the target was stopped in before the first entry and the entry
    of the call it ended in after the last exit.  Descriptors, mappings and
    children are what they were. *)
Theorem run_logs_calls fuel cmd path pg mem batches (stray tail : list Event) calls (w w1 w2 w3 : W) l pid r :
  cmd <> [] -> bpf_available w = true ->
  load w = (inl l, w1) -> spawn cmd l w1 = (inl pid, w2) -> start_target pid path l w2 = (inl r, w3) ->
  feeds pg pid l r mem 0 (p_kill pid SIGCONT w3) batches -> Forall (batch_ok pg) batches -> (length batches <= fuel)%nat ->
  zlen (concat (fst <$> batches)) < LAPS_RECORDS ->
  event_of <$> concat (fst <$> batches) = stray ++ concat (call_events <$> calls) ++ tail ->
  Forall (fun e => is_exit e <> 0) stray -> (length tail <= 1)%nat -> Forall (fun e => is_exit e = 0) tail -> Forall call_ok calls ->
  exists ms w4, length ms = length calls /\
    let w5 := clean_up l r (b_write (log_fd r) (render ms calls) w4) in
    run arch L fuel cmd path w = Done (0, (calls, (Written, w5))) /\ same w w5.
Proof.
  intros Hcmd Ha El Ep Et Hfeeds Hb Hf Hn Hev Hs Hl Ht Hc.
  destruct (trace_feeds pg pid l r mem 0 _ batches (MkTrace None [] []) fuel Hfeeds Hb) as (t1 & w4 & t2 & w5 & E1 & E2 & Hm & new & ms & Hnew & Hms & Htext); [done|by exists 0|lia|done|].
  cbn [pending logged text app] in *. destruct (matched_calls _ _ _ _ Hev Hs Hl Ht Hc) as [p Hp]. injection (eq_trans Hm Hp) as Hm1 Hm2.
  assert (new = calls) as -> by congruence. exists ms, w5. split; [done|]. cbn zeta.
  match goal with |- ?A /\ _ => assert A as E end.
  { unfold run. rewrite bool_decide_eq_false_2, Ha, El, Ep, Et by done. cbn [orb negb]. unfold trace_target. rewrite E1. cbn [mbind outcome_bind]. rewrite E2. cbn [mbind outcome_bind].
    rewrite Htext, Hm2. done. }
  split; [done|]. by apply run_balanced in E as (_ & E & _); apply E.
Qed.
End Logged.

(** * A concrete host *)

(** The kernel writes the next batch when the target is waited for and, after
    its end, when the consumer position is stored. *)
Record Desk : Type := MkDesk
  { k_fds : gset Z; k_maps : gset Z; k_kids : gset Z; k_mem : Z -> Z; k_prod : Z; k_cons : Z; k_batches : list (list (list Z) * bool); k_file : list Z }.
Definition feed (w : Desk) : Desk :=
  match k_batches w with
  | [] => w
  | b :: bs => MkDesk (k_fds w) (k_maps w) (k_kids w) (produce 7 (k_mem w) (k_cons w) b) (k_cons w + zlen (batch_bytes 7 b)) (k_cons w) bs (k_file w)
  end.
Definition with_kids (K : gset Z) (w : Desk) : Desk := MkDesk (k_fds w) (k_maps w) K (k_mem w) (k_prod w) (k_cons w) (k_batches w) (k_file w).
Definition with_fds (F : gset Z) (w : Desk) : Desk := MkDesk F (k_maps w) (k_kids w) (k_mem w) (k_prod w) (k_cons w) (k_batches w) (k_file w).
Definition with_maps (M : gset Z) (w : Desk) : Desk := MkDesk (k_fds w) M (k_kids w) (k_mem w) (k_prod w) (k_cons w) (k_batches w) (k_file w).
Definition new_fd (w : Desk) : Z * Desk := let fd := fresh (k_fds w) in if fd <? 0 then (-1, w) else (fd, with_fds ({[fd]} ∪ k_fds w) w).
(** The target ends when one batch is left. *)
Definition desk_wait (pid fl : Z) (w : Desk) : (Z * Z) * Desk :=
  if fl =? WUNTRACED then ((pid, 0x137f), w) else
  if (fl =? WNOHANG) && negb (length (k_batches w) =? 2)%nat then ((0, 0), feed w) else
  ((Z.abs pid + 1, 0), feed (with_kids (k_kids w ∖ {[pid]}) w)).
Definition new_kid (w : Desk) : Z * Desk := let pid := fresh ({[0]} ∪ k_kids w) in if pid <=? 0 then (-1, w) else (pid, with_kids ({[pid]} ∪ k_kids w) w).
Definition desk_set_cons (v : Z) (w : Desk) : Desk :=
  let w := MkDesk (k_fds w) (k_maps w) (k_kids w) (k_mem w) (k_prod w) v (k_batches w) (k_file w) in if (length (k_batches w) =? 1)%nat then feed w else w.

#[export] Instance desk_procs : Procs Desk := {| p_fork _ := new_kid; p_waitpid := desk_wait; p_kill _ _ w := w |}.
#[export] Instance desk_holdings : Holdings Desk := {| fds := k_fds; maps := k_maps; kids := k_kids |}.
#[export] Instance desk_host : BpfHost Desk :=
  {| b_bpf a w := match a with MapElem _ _ _ _ => (0, w) | _ => new_fd w end;
     b_errno _ := 0; b_euid _ := 0; b_close fd w := with_fds (k_fds w ∖ {[fd]}) w;
     b_mmap _ _ _ _ w := let a := fresh (k_maps w) in (Some a, with_maps ({[a]} ∪ k_maps w) w);
     b_munmap a _ w := with_maps (k_maps w ∖ {[a]}) w;
     b_perf_open _ _ := new_fd; b_ioctl _ _ _ w := (0, w); b_nprocs _ := 2; b_read _ _ := Text (bs "327" ++ [10]); b_stat_denied _ _ := false; b_exists _ _ := true;
     b_poll _ _ w := w; b_word a w := if a =? 0 then k_cons w else k_prod w; b_set_word _ := desk_set_cons; b_data _ := k_mem;
     b_create _ w := let '(fd, w) := new_fd w in (if fd <? 0 then None else Some fd, w);
     b_write _ t w := MkDesk (k_fds w) (k_maps w) (k_kids w) (k_mem w) (k_prod w) (k_cons w) (k_batches w) t;
     b_readv _ _ _ := None |}.

Lemma feed_same (w : Desk) : same w (feed w).
Proof. unfold feed. by destruct (k_batches w). Qed.

Lemma new_fd_law (w : Desk) r w' : new_fd w = (r, w') -> maps w' = maps w /\ kids w' = kids w /\
  if r <? 0 then fds w' = fds w else fds w' = {[r]} ∪ fds w /\ r ∉ fds w.
Proof.
  unfold new_fd. destruct (fresh (k_fds w) <? 0) eqn:E; intros [= <- <-]; cbn; [done|]. rewrite E. split_and!; [done..|]. apply is_fresh.
Qed.

#[export] Instance desk_proc_laws : ProcLaws Desk.
Proof.
  constructor; [..|done].
  - intros c w pid w'. cbn. unfold new_kid. pose proof (is_fresh ({[0]} ∪ k_kids w)) as Hf. destruct (Z.leb_spec (fresh ({[0]} ∪ k_kids w)) 0); intros [= <- <-]; cbn; [done|].
    rewrite (proj2 (Z.ltb_ge _ _)) by lia. split_and!; [done|done|lia|done|set_solver].
  - intros pid fl w r st w'. cbn. unfold desk_wait. destruct (Z.eqb_spec fl WUNTRACED) as [->|].
    { intros [= <- <- <-]. split_and!; [done|done|by left|]. intros [?|[? _]]; done. }
    destruct ((fl =? WNOHANG) && _) eqn:E; intros [= <- <- <-].
    + destruct (feed_same w) as (A & B & C). cbn in A, B, C. rewrite A, B, C. split_and!; [done|done|by left|]. intros [->|[_ ?]]; [done|lia].
    + destruct (feed_same (with_kids (k_kids w ∖ {[pid]}) w)) as (A & B & C). cbn in A, B, C. rewrite A, B, C. split_and!; [done|done|by right|set_solver].
Qed.

#[export] Instance desk_laws : BpfLaws Desk.
Proof.
  constructor; try done.
  - intros [] w r w' E; cbn in E; [by apply new_fd_law in E|by simplify_eq|by apply new_fd_law in E].
  - intros n wr fd off w a w'. cbn. intros [= <- <-]. cbn. split_and!; [done|done|done|apply is_fresh].
  - intros a cpu w r w' E. by apply new_fd_law.
  - intros p w r w'. cbn. destruct (new_fd w) as [fd w1] eqn:E. apply new_fd_law in E as (E1 & E2 & E3). intros [= <- <-]. destruct (fd <? 0); done.
  - intros a v w. cbn. unfold desk_set_cons. destruct (_ =? _)%nat; [|done]. by eapply same_trans_; [|apply feed_same].
Qed.

Definition demo_batches : list (list (list Z) * bool) :=
  [([record_of 1 62 (replicate 6 0) 0; record_of 0 3 [3; 0; 0; 0; 0; 0] 0], true);
   ([record_of 1 3 (replicate 6 0) (2 ^ 64 - 9)], false); ([record_of 0 231 (replicate 6 0) 0], false)].
Definition demo_desk : Desk := MkDesk {[0; 1; 2]} ∅ ∅ (fun _ => 0) 0 0 demo_batches [].

(** The close of a target that exits: the file has its line, and the
    descriptors of the process are those before. *)
Example demo_run : match run X86_64 glibc_x86_64 3 [bs "true"] (bs "trace.log") demo_desk with
  | Done (r, (calls, (n, w))) => (r, calls, n, k_file w, elements (k_fds w), elements (k_maps w), elements (k_kids w)) =
      (0, [MkSyscall 3 [3; 0; 0; 0; 0; 0] (-9)], Written, decode_syscall X86_64 glibc_x86_64 (fun _ _ => None) (MkSyscall 3 [3; 0; 0; 0; 0; 0] (-9)), elements (k_fds demo_desk), [], [])
  | _ => False
  end.
Proof. vm_compute. reflexivity. Qed.

(** The phases of that run. *)
Definition demo_loaded : Loaded := match fst (load demo_desk) with inl l => l | _ => MkLoaded 0 0 0 0 end.
Definition demo_w1 : Desk := snd (load demo_desk).
Definition demo_pid : Z := match fst (spawn [bs "true"] demo_loaded demo_w1) with inl p => p | _ => 0 end.
Definition demo_w2 : Desk := snd (spawn [bs "true"] demo_loaded demo_w1).
Definition demo_ready : Ready := match fst (start_target demo_pid (bs "trace.log") demo_loaded demo_w2) with inl r => r | _ => MkReady 0 0 [] [] 0 end.
Definition demo_w3 : Desk := snd (start_target demo_pid (bs "trace.log") demo_loaded demo_w2).

Lemma demo_feeds pid l r (w : Desk) : k_mem w = (fun _ => 0) -> k_cons w = 0 -> k_batches w = demo_batches -> cons_page r = 0 -> prod_pages r = 1 -> 0 < pid ->
  feeds 7 pid l r (fun _ => 0) 0 (p_kill pid SIGCONT w) demo_batches.
Proof.
  destruct w as [F M K mem prod cons bs file], r as [cp pp en ex lf]. cbn [k_mem k_cons k_batches cons_page prod_pages]. intros -> -> -> -> -> Hp.
  eapply feeds_poll; [reflexivity|lia|by split_and!|]. eapply feeds_exit; [reflexivity|lia|by split_and!|by split_and!].
Qed.

Lemma run_logs_calls_witness :
  exists ms w4, length ms = 1%nat /\
    let w5 := clean_up demo_loaded demo_ready (b_write (log_fd demo_ready) (render X86_64 glibc_x86_64 ms [MkSyscall 3 [3; 0; 0; 0; 0; 0] (-9)]) w4) in
    run X86_64 glibc_x86_64 3 [bs "true"] (bs "trace.log") demo_desk = Done (0, ([MkSyscall 3 [3; 0; 0; 0; 0; 0] (-9)], (Written, w5))) /\ same demo_desk w5.
Proof.
  apply (run_logs_calls X86_64 glibc_x86_64 3 [bs "true"] (bs "trace.log") 7 (fun _ => 0) demo_batches [MkEvent 1 62 (replicate 6 0) 0] [MkEvent 0 231 (replicate 6 0) 0]
    [MkSyscall 3 [3; 0; 0; 0; 0; 0] (-9)] demo_desk demo_w1 demo_w2 demo_w3 demo_loaded demo_pid demo_ready).
  - done.
  - reflexivity.
  - vm_compute. reflexivity.
  - vm_compute. reflexivity.
  - vm_compute. reflexivity.
  - apply demo_feeds; vm_compute; reflexivity.
  - repeat constructor; vm_compute; congruence.
  - simpl. lia.
  - vm_compute. reflexivity.
  - vm_compute. reflexivity.
  - repeat constructor. discriminate.
  - simpl. lia.
  - by repeat constructor.
  - repeat constructor; cbn; lia.
Defined.
