(* ===== verification/Sud.v ===== *)
(** sud.rs and exec.rs: the in-process capture by SYSCALL_USER_DISPATCH.

    A process is its selector byte, what it has asked of the kernel (the SIGSYS
    action and the dispatch window), the trace file and the rest of the world.
    The kernel decides at every syscall instruction, vock's own ones included,
    whether it passes: a call of vock that would trap inside the handler, where
    SIGSYS is masked, kills the process and is [Panic].  The traced code is a
    tree of syscalls, each with the address and registers it is made with and
    what follows for the registers it gets back.
    Shown: code runs under the interceptor as it runs without it, with the same
    calls, results and effects, and leaves the lines of its calls in the log;
    no line is longer than the writer's buffer. *)
From S2P Require Import Prelude Text Syscalls SysDecode.

(** [gregs]: the registers the handler reads, and the others. *)
Record Gregs : Type := MkGregs
  { REG_RAX : Z; REG_RDI : Z; REG_RSI : Z; REG_RDX : Z; REG_R10 : Z; REG_R8 : Z; REG_R9 : Z; others : Z -> Z }.

Definition set_rax (g : Gregs) (v : Z) : Gregs :=
  MkGregs v (REG_RDI g) (REG_RSI g) (REG_RDX g) (REG_R10 g) (REG_R8 g) (REG_R9 g) (others g).

(** Code that makes syscalls: [ip] follows the instruction, as the kernel sees it. *)
Inductive Code : Type :=
  | Return
  | Sys (ip : Z) (g : Gregs) (k : Gregs -> Code).

Definition PR_SYS_DISPATCH_OFF : Z := 0.
Definition PR_SYS_DISPATCH_ON : Z := 1.
Definition SYSCALL_DISPATCH_FILTER_ALLOW : Z := 0.
Definition SYSCALL_DISPATCH_FILTER_BLOCK : Z := 1.
Definition SA_RESTORER : Z := 0x04000000.
Definition SIGSYS : Z := 31.
Definition NR_RT_SIGRETURN : Z := 15.
Definition NR_EXECVE : Z := 59.
Definition NR_EXIT : Z := 60.
Definition NR_EXECVEAT : Z := 322.
Definition NR_EXIT_GROUP : Z := 231.

Definition does_not_return (nr : Z) : bool :=
  (nr =? NR_EXECVE) || (nr =? NR_EXECVEAT) || (nr =? NR_EXIT) || (nr =? NR_EXIT_GROUP) || (nr =? NR_RT_SIGRETURN).

Record KAction : Type := MkKAction { handler : Z; flags : Z; restorer : Z; mask : Z }.

(** * FdWriter *)

Definition BUF : Z := 4096.
Record FdWriter : Type := MkFdWriter { wfd : Z; wbuf : list Z }.
Definition FdWriter_new (fd : Z) : FdWriter := MkFdWriter fd [].

Definition fw_write (w : FdWriter) (data : list Z) : Z * FdWriter :=
  let take_ := Z.min (BUF - zlen (wbuf w)) (zlen data) in
  (take_, MkFdWriter (wfd w) (wbuf w ++ take (Z.to_nat take_) data)).

(** [Write::write_all]: a write of nothing is the error that ends it. *)
Fixpoint write_all (fuel : nat) (w : FdWriter) (data : list Z) : bool * FdWriter :=
  match data, fuel with
  | [], _ => (true, w)
  | _, O => (false, w)
  | _, S fuel =>
      let '(n, w) := fw_write w data in
      if n =? 0 then (false, w) else write_all fuel w (drop (Z.to_nat n) data)
  end.

(** One [let _ = write!(out, ..)] per piece: its error is dropped. *)
Definition write_pieces (w : FdWriter) (pieces : list (list Z)) : FdWriter :=
  foldl (fun w d => snd (write_all (S (length d)) w d)) w pieces.

(** * uname *)

(** [trim_end_matches(|c| !c.is_ascii_digit())]. *)
Fixpoint trim_end_nondigits (s : list Z) : list Z :=
  match s with
  | [] => []
  | c :: t =>
      match trim_end_nondigits t with
      | [] => if is_ascii_digit c then [c] else []
      | t' => c :: t'
      end
  end.

Definition kernel_at_least_5_11 (release : option (list Z)) : bool :=
  match release with
  | None => false
  | Some release =>
      let it := split_on 46 release in
      let major := default 0 (s ← it !! 0%nat; parse_u32 s) in
      let minor := default 0 (s ← it !! 1%nat; parse_u32 (trim_end_nondigits s)) in
      (5 <? major) || ((major =? 5) && (11 <=? minor))
  end.

(** [ret] and [errno] of the probing prctl. *)
Definition EINVAL : Z := 22.
Definition available (ret errno : Z) (release : option (list Z)) : bool :=
  ((ret =? 0) || negb (errno =? EINVAL)) && kernel_at_least_5_11 release.

(** * The interceptor *)

(** The rest of the world and what it does: a raw syscall ([None] when it does
    not come back), the memory [process_vm_readv] copies, how many bytes the
    next [write] to the trace file takes, the set-up calls, and the wait
    status of a process that was replaced or killed. *)
Record Os (V : Type) : Type := MkOs
  { call : Z -> list Z -> V -> option Z * V;
    readv : V -> Z -> Z -> option (list Z);
    accept : list Z -> list Z -> Z;
    open_trace : V -> Z * V;
    getpid : V -> Z;
    sigaction : Z -> KAction -> V -> Z * V;
    prctl : list Z -> V -> Z * V;
    ended : V -> Z }.
Arguments call {V}.
Arguments readv {V}.
Arguments accept {V}.
Arguments open_trace {V}.
Arguments getpid {V}.
Arguments sigaction {V}.
Arguments prctl {V}.
Arguments ended {V}.

(** Where vock's own code is linked: the handler, its three kinds of syscall
    instruction, the restorer stub and the selector. *)
Record Layout : Type := MkLayout
  { handle_addr : Z; raw_ip : Z; write_ip : Z; readv_ip : Z; win : Z; selector_addr : Z }.

(** A process: [SELECTOR], [TRACE_FD], [TRACE_PID], the SIGSYS action and the
    dispatch window, the bytes written to the trace file, the rest. *)
Record Proc (V : Type) : Type := MkProc
  { selector : Z; trace_fd : Z; trace_pid : Z; action : option KAction; dispatch : option (Z * Z); log : list Z; os : V }.
Arguments MkProc {V}.
Arguments selector {V}.
Arguments trace_fd {V}.
Arguments trace_pid {V}.
Arguments action {V}.
Arguments dispatch {V}.
Arguments log {V}.
Arguments os {V}.

Section Interceptor.
Context {V : Type} (K : Os V) (ly : Layout) (L : Libc).
Implicit Types (p : Proc V) (c : Code).

Definition with_os (v : V) p : Proc V := MkProc (selector p) (trace_fd p) (trace_pid p) (action p) (dispatch p) (log p) v.
Definition with_log (l : list Z) p : Proc V := MkProc (selector p) (trace_fd p) (trace_pid p) (action p) (dispatch p) l (os p).
Definition set_privilege_level (v : Z) p : Proc V := MkProc v (trace_fd p) (trace_pid p) (action p) (dispatch p) (log p) (os p).

(** The kernel's check of the syscall made at [ip]. *)
Definition passes (ip : Z) p : bool :=
  match dispatch p with
  | None => true
  | Some (off, len) => ((off <=? ip) && (ip <? off + len)) || (selector p =? SYSCALL_DISPATCH_FILTER_ALLOW)
  end.

(** A syscall of vock itself, made with SIGSYS masked. *)
Definition own {A} (ip : Z) (f : A) p : outcome A := if passes ip p then Done f else Panic.

Definition raw_syscall6 (nr : Z) (args : list Z) p : outcome (option Z * Proc V) :=
  own (raw_ip ly) (let '(r, v) := call K nr args (os p) in (r, with_os v p)) p.

(** [FdWriter::commit]: from [off] on, until a write takes nothing. *)
Definition commit_step (buf : list Z) (s : Z * Proc V) : outcome (ctl (Z * Proc V) (Proc V)) :=
  let '(off, p) := s in
  if off <? zlen buf then
    let data := drop (Z.to_nat off) buf in
    n ← own (write_ip ly) (accept K (log p) data) p;
    Done (if n <=? 0 then Stop p else Next (off + n, with_log (log p ++ take (Z.to_nat n) data) p))
  else Done (Stop p).
Definition commit (w : FdWriter) p : outcome (Proc V) := loop (S (length (wbuf w))) (commit_step (wbuf w)) (0, p).

(** [if fd >= 0 { FdWriter::new; decode_syscall; commit }]; the reads of the
    decoder are made under one selector value. *)
Definition log_syscall (sc : Syscall) p : outcome (Proc V) :=
  if 0 <=? trace_fd p then
    text ← own (readv_ip ly) (decode_syscall X86_64 L (readv K (os p)) sc) p;
    commit (write_pieces (FdWriter_new (trace_fd p)) [text]) p
  else Done p.

Definition greg_args (g : Gregs) : list Z := [REG_RDI g; REG_RSI g; REG_RDX g; REG_R10 g; REG_R8 g; REG_R9 g].

(** [None] when the re-issued call did not come back. *)
Definition handle_sigsys (g : Gregs) p : outcome (option Gregs * Proc V) :=
  let p := set_privilege_level SYSCALL_DISPATCH_FILTER_ALLOW p in
  let nr := REG_RAX g in
  let args := greg_args g in
  if does_not_return nr then
    p ← log_syscall (MkSyscall nr args 0) p;
    '(r, p) ← raw_syscall6 nr args p;
    Done (match r with
          | None => (None, p)
          | Some ret => (Some (set_rax g ret), set_privilege_level SYSCALL_DISPATCH_FILTER_BLOCK p)
          end)
  else
    '(r, p) ← raw_syscall6 nr args p;
    match r with
    | None => Done (None, p)
    | Some ret =>
        p ← log_syscall (MkSyscall nr args ret) p;
        Done (Some (set_rax g ret), set_privilege_level SYSCALL_DISPATCH_FILTER_BLOCK p)
    end.

(** A syscall of the traced code: it passes, or it is delivered to the handler,
    whose return runs the restorer's [mov eax, 15; syscall], 7 bytes. *)
Definition traced_syscall (ip : Z) (g : Gregs) p : outcome (option Gregs * Proc V) :=
  if passes ip p then
    let '(r, v) := call K (REG_RAX g) (greg_args g) (os p) in Done (set_rax g <$> r, with_os v p)
  else
    match action p with
    | None => Panic
    | Some ka =>
        if handler ka =? handle_addr ly then
          '(g', p) ← handle_sigsys g p;
          match g' with
          | None => Done (None, p)
          | Some _ => if passes (restorer ka + 7) p then Done (g', p) else Panic
          end
        else Panic
    end.

(** Code run by the process; [true] when it came back. *)
Fixpoint execute (c : Code) p : outcome (bool * Proc V) :=
  match c with
  | Return => Done (true, p)
  | Sys ip g k =>
      '(g', p) ← traced_syscall ip g p;
      match g' with None => Done (false, p) | Some g => execute (k g) p end
  end.

(** * Set-up and run *)

Definition SA_SIGINFO : Z := 4.
Definition WINDOW : Z := 0x40.
Definition PR_SET_SYSCALL_USER_DISPATCH : Z := 59.

Definition enable_sud p : outcome (bool * Proc V) :=
  let ka := MkKAction (handle_addr ly) (Z.lor SA_SIGINFO SA_RESTORER) (win ly) 0 in
  '(r, v) ← own (raw_ip ly) (sigaction K SIGSYS ka (os p)) p;
  let p := MkProc (selector p) (trace_fd p) (trace_pid p) (if r =? 0 then Some ka else action p) (dispatch p) (log p) v in
  if negb (r =? 0) then Done (false, p)
  else
    let p := set_privilege_level SYSCALL_DISPATCH_FILTER_ALLOW p in
    '(r, v) ← own (raw_ip ly) (prctl K [PR_SET_SYSCALL_USER_DISPATCH; PR_SYS_DISPATCH_ON; win ly; WINDOW; selector_addr ly] (os p)) p;
    let p := MkProc (selector p) (trace_fd p) (trace_pid p) (action p) (if r =? 0 then Some (win ly, WINDOW) else dispatch p) (log p) v in
    Done (r =? 0, p).

(** [exec::execvp]: arguments with a NUL are left out; the search and the
    execve are libc's. *)
Definition execvp (libc_execvp : list (list Z) -> Code) (cmd : list (list Z)) : Code :=
  match cmd with [] => Return | _ => libc_execvp (filter (fun s => 0 ∉ s) cmd) end.

(** The wait status of [_exit(127)]. *)
Definition exit_127 : Z := 127 * 256.

(** [execvp(cmd); _exit(127)], with the selector back at ALLOW in between. *)
Definition exec_or_exit (target : Code) (back : bool) p : outcome (Z * Proc V) :=
  '(returned, p) ← execute target p;
  if (returned : bool) then
    let p := if back then set_privilege_level SYSCALL_DISPATCH_FILTER_ALLOW p else p in
    own (raw_ip ly) (exit_127, p) p
  else Done (ended K (os p), p).

(** The forked child, from the process it is a copy of; the open truncates. *)
Definition child (target : Code) p : outcome (Z * Proc V) :=
  let '(fd, v) := open_trace K (os p) in
  let p := MkProc (selector p) (if 0 <=? fd then fd else trace_fd p) (getpid K v) (action p) (dispatch p) (if 0 <=? fd then [] else log p) v in
  '(armed, p) ← enable_sud p;
  if negb armed then exec_or_exit target false p
  else exec_or_exit target true (set_privilege_level SYSCALL_DISPATCH_FILTER_BLOCK p).

(** [run], from fork's result; a child that was killed has a signal's status. *)
Definition run (pid : Z) (target : Code) p : outcome (Z * option (Proc V)) :=
  if pid <? 0 then Done (1, None)
  else match child target p with
       | Done (status, p) => Done (exit_status status, Some p)
       | Panic => Done (exit_status SIGSYS, None)
       | Fail => Fail
       | Fuel => Fuel
       end.

(** Off x86_64 there is no interceptor. *)
Definition run_target_directly (pid : Z) (target : Code) p : outcome (Z * option (Proc V)) :=
  if pid <? 0 then Done (1, None)
  else match exec_or_exit target false p with
       | Done (status, p) => Done (exit_status status, Some p)
       | Panic => Done (exit_status SIGSYS, None)
       | Fail => Fail
       | Fuel => Fuel
       end.

(** * What the code does without the interceptor *)

(** Whether it came back, the world it leaves, and its calls, each with the
    world in which its line is written. *)
Fixpoint native (c : Code) (v : V) : bool * V * list (V * Syscall) :=
  match c with
  | Return => (true, v, [])
  | Sys ip g k =>
      let nr := REG_RAX g in
      let '(r, v') := call K nr (greg_args g) v in
      let line := if does_not_return nr then [(v, MkSyscall nr (greg_args g) 0)]
                  else match r with Some ret => [(v', MkSyscall nr (greg_args g) ret)] | None => [] end in
      match r with
      | None => (false, v', line)
      | Some ret => let '(b, v'', ls) := native (k (set_rax g ret)) v' in (b, v'', line ++ ls)
      end
  end.

Definition render (e : V * Syscall) : list Z := decode_syscall X86_64 L (readv K (fst e)) (snd e).

(** Code outside the window, as all code but the restorer is. *)
Fixpoint outside (c : Code) : Prop :=
  match c with Return => True | Sys ip _ k => ~ (win ly <= ip < win ly + WINDOW) /\ forall g, outside (k g) end.
End Interceptor.

(** * Lines fit the writer's buffer *)

(** [Fits s n]: a bound of the length, found by resolution on the text. *)
Class Fits (s : list Z) (n : Z) : Prop := fits : zlen s <= n.

Lemma fits_weaken s n m : Fits s n -> n <= m -> Fits s m.
Proof. unfold Fits. lia. Qed.

#[export] Instance fits_app s t n m : Fits s n -> Fits t m -> Fits (s ++ t) (n + m).
Proof. unfold Fits. rewrite zlen_app. lia. Qed.
#[local] Typeclasses Opaque bs zlen fmt_dec fmt_hex fmt_x fmt_i64 fmt_04o print_addr print_str print_rest print_open_flags
  print_mmap_prot print_mmap_flags print_socket_domain print_socket_type tail_ret tail_hex.

#[export] Instance fits_nil : Fits [] 0.
Proof. done. Qed.
#[export] Instance fits_cons x s n : Fits s n -> Fits (x :: s) (1 + n).
Proof. unfold Fits. rewrite zlen_cons. lia. Qed.
#[export] Instance fits_bs s : Fits (bs s) (zlen (bs s)).
Proof. unfold Fits. lia. Qed.
#[export] Instance fits_if (b : bool) s t n m : Fits s n -> Fits t m -> Fits (if b then s else t) (Z.max n m).
Proof. unfold Fits. destruct b; lia. Qed.

Lemma fits_digits fuel radix n tail : zlen (fmt_digits fuel radix n tail) <= Z.of_nat fuel + zlen tail.
Proof.
  revert n tail. induction fuel as [|fuel IH]; intros n tail; cbn [fmt_digits]; [lia|].
  case_match; [|etrans; [apply IH|]]; rewrite zlen_cons; lia.
Qed.
#[export] Instance fits_dec n : Fits (fmt_dec n) 64.
Proof. apply (fits_digits 64 10 n []). Qed.
#[export] Instance fits_hex n : Fits (fmt_hex n) 64.
Proof. apply (fits_digits 64 16 n []). Qed.
#[export] Instance fits_x n : Fits (fmt_x n) 66.
Proof. unfold fmt_x. eapply fits_weaken; [apply fits_app; [apply fits_bs|apply fits_hex]|vm_compute; discriminate]. Qed.
#[export] Instance fits_i64 n : Fits (fmt_i64 n) 65.
Proof. unfold Fits, fmt_i64. case_match; rewrite ?zlen_cons; [pose proof (fits_dec (- n)) as H'|pose proof (fits_dec n) as H']; unfold Fits in H'; lia. Qed.
Lemma zlen_pad0 w s : zlen (pad0 w s) = Z.max (Z.of_nat w) (zlen s).
Proof. unfold pad0, zlen. rewrite length_app, length_replicate. lia. Qed.
#[export] Instance fits_04o n : Fits (fmt_04o n) 64.
Proof. unfold Fits, fmt_04o. rewrite zlen_pad0. pose proof (fits_digits 64 8 (as_u64 n) []). unfold zlen in *. cbn [length] in *. lia. Qed.

Lemma char_fits c : is_u8 c -> zlen (print_char c) <= 4.
Proof.
  intros Hc. assert (forallb (fun c => zlen (print_char c) <=? 4) (seqZ 0 256) = true) as H by (vm_compute; reflexivity).
  apply Z.leb_le. exact (byte_cases _ c H Hc).
Qed.

Lemma concat_fits {A} (f : A -> list Z) l n : (forall x, x ∈ l -> zlen (f x) <= n) -> zlen (concat (f <$> l)) <= zlen l * n.
Proof.
  induction l as [|x l IH]; intros H; [done|]. cbn [fmap list_fmap concat]. rewrite zlen_app, zlen_cons.
  specialize (H x (list_elem_of_here _ _)) as Hx. specialize (IH (fun y Hy => H y (list_elem_of_further _ _ _ Hy))). lia.
Qed.

(** The bound found for [t], evaluated. *)
Ltac fit t :=
  let H := fresh "Hfit" in eassert (Fits t _) as H by apply _; unfold Fits in H;
  match type of H with _ <= ?n => let v := eval vm_compute in n in change n with v in H end.

Section Lines.
Context (L : Libc) (mem : Z -> Z -> option (list Z)) (Hmem : forall a n l, mem a n = Some l -> bytes_ok l).

(** At most 64 characters, four bytes each, between the quotes. *)
#[local] Instance fits_str a : Fits (print_str mem a) 258.
Proof.
  unfold Fits, print_str. assert (zlen (print_addr a) <= 258) as Ha.
  { unfold print_addr. case_match; [done|]. pose proof (fits_x a) as H'. unfold Fits in H'. lia. }
  destruct (read_str mem a 256) as [[|c t]|] eqn:E; try exact Ha.
  rewrite !zlen_app. change (zlen [34]) with 1.
  assert (bytes_ok (c :: t)) as Hb.
  { unfold read_str in E. destruct (_ || _); [done|]. destruct (mem a 256) as [l|] eqn:El; [|done]. apply Hmem in El.
    destruct (position _ _); injection E as <-; repeat apply Forall_take; done. }
  assert (zlen (concat (print_char <$> take 64 (c :: t))) <= zlen (take 64 (c :: t)) * 4) as H.
  { apply concat_fits. intros x Hx. apply char_fits. eapply Forall_forall in Hb; [exact Hb|]. rewrite <- (take_drop 64 (c :: t)). apply elem_of_app. by left. }
  unfold zlen in *. rewrite length_take in H. lia.
Qed.

(** The names of a table, each after a separator. *)
Definition names_len (tbl : list (Z * string)) : Z := foldr (fun e n => 1 + zlen (bs (snd e)) + n) 0 tbl.
Lemma bits_fits tbl sep f : zlen (fst (fst (print_bits tbl sep f))) <= names_len tbl.
Proof.
  revert sep f. induction tbl as [|[b s] tbl IH]; intros sep f; [done|]. cbn [print_bits names_len foldr snd]. fold (names_len tbl).
  pose proof (zlen_nonneg (bs s)). destruct (negb _).
  - specialize (IH true (Z.land f (Z.lnot b))). destruct (print_bits tbl true _) as [[u w] r]. cbn [fst] in *. rewrite !zlen_app.
    destruct sep; unfold zlen in *; cbn [length] in *; lia.
  - specialize (IH sep f). lia.
Qed.
#[local] Instance fits_rest r : Fits (print_rest r) 67.
Proof. unfold Fits, print_rest. case_match; [done|]. rewrite zlen_cons. pose proof (fits_x r) as H'. unfold Fits in H'. lia. Qed.
#[local] Instance fits_open_flags f : Fits (print_open_flags L f) 200.
Proof.
  unfold Fits, print_open_flags. pose proof (bits_fits (open_table L) true (Z.land f (Z.lnot 3))) as H.
  change (names_len _) with 77 in H. destruct (print_bits _ _ _) as [[u w] r]. cbn [fst] in H.
  fit (print_rest r). rewrite !zlen_app.
  fit (if Z.land f 3 =? 0 then bs "O_RDONLY" else if Z.land f 3 =? 1 then bs "O_WRONLY" else bs "O_RDWR"). lia.
Qed.
#[local] Instance fits_prot f : Fits (print_mmap_prot f) 110.
Proof.
  unfold Fits, print_mmap_prot. destruct (f =? 0); [done|]. pose proof (bits_fits prot_table false f) as H.
  change (names_len _) with 31 in H. destruct (print_bits _ _ _) as [[u w] r]. cbn [fst] in H.
  fit (print_rest r). rewrite zlen_app. lia.
Qed.
#[local] Instance fits_map_flags f : Fits (print_mmap_flags L f) 250.
Proof.
  unfold Fits, print_mmap_flags. pose proof (bits_fits (map_table L) true (Z.land f (Z.lnot 15))) as H.
  change (names_len _) with 37 in H. destruct (print_bits _ _ _) as [[u w] r]. cbn [fst] in H.
  fit (print_rest r). rewrite !zlen_app.
  fit (if negb (Z.land f (MAP_PRIVATE L) =? 0) then bs "MAP_PRIVATE"
       else if negb (Z.land f (MAP_SHARED L) =? 0) then bs "MAP_SHARED" else fmt_x (Z.land f 15)). lia.
Qed.

#[local] Instance fits_tail_ret r : Fits (tail_ret r) 70.
Proof. unfold tail_ret. eapply fits_weaken; [apply _|vm_compute; discriminate]. Qed.
#[local] Instance fits_tail_hex r : Fits (tail_hex r) 71.
Proof. unfold tail_hex. eapply fits_weaken; [apply _|vm_compute; discriminate]. Qed.
#[local] Instance fits_domain d : Fits (print_socket_domain L d) 65.
Proof. unfold print_socket_domain. eapply fits_weaken; [apply _|vm_compute; discriminate]. Qed.
#[local] Instance fits_type t : Fits (print_socket_type L t) 105.
Proof.
  unfold print_socket_type. eapply fits_weaken; [apply _|vm_compute; discriminate].
Qed.

Lemma name_fits arch n s : syscall_name arch n = Some s -> zlen s <= 64.
Proof.
  unfold syscall_name. intros (r & Hr & ->)%fmap_Some. apply lookup_nr_elem in Hr.
  assert (forallb (fun e => zlen (bs (snd e)) <=? 64) (arch_table arch) = true) as H by (destruct arch; vm_compute; reflexivity).
  rewrite forallb_forall in H. apply list_elem_of_In, H in Hr. cbn [snd] in Hr. lia.
Qed.

Lemma generic_fits n a r : length a = 6%nat -> Fits (fmt_generic X86_64 n a r) BUF.
Proof.
  intros Ha. unfold fmt_generic. do 7 (destruct a as [|? a]; [try discriminate Ha|]); [|discriminate Ha].
  cbn [imap concat]. destruct (syscall_name X86_64 n) as [s|] eqn:E.
  - apply name_fits in E. change (Fits s 64) in E. eapply fits_weaken; [apply _|vm_compute; discriminate].
  - eapply fits_weaken; [apply _|vm_compute; discriminate].
Qed.

Ltac bounded := eapply fits_weaken; [apply _|vm_compute; discriminate].

Lemma openat_fits a r : Fits (fmt_openat L mem a r) BUF.
Proof. unfold fmt_openat. bounded. Qed.
Lemma open_fits a r : Fits (fmt_open L mem a r) BUF.
Proof. unfold fmt_open. bounded. Qed.
Lemma mmap_fits a r : Fits (fmt_mmap L a r) BUF.
Proof. unfold fmt_mmap. bounded. Qed.
Lemma access_fits a r : Fits (fmt_access mem a r) BUF.
Proof.
  unfold fmt_access. assert (Fits (if arg a 1 =? 0 then bs "F_OK" else fst (fst (print_bits access_table false (arg a 1)))) 20).
  { apply (fits_weaken _ (Z.max 6 20) 20); [|done]. apply fits_if; [done|]. unfold Fits. etrans; [apply bits_fits|by vm_compute]. }
  bounded.
Qed.

Lemma decode_fits sc : length (args sc) = 6%nat -> zlen (decode_syscall X86_64 L mem sc) <= BUF.
Proof.
  destruct sc as [n a r]. cbn [args]. intros Ha. change (Fits (decode_syscall X86_64 L mem (MkSyscall n a r)) BUF).
  unfold decode_syscall. cbn [nr args ret].
  destruct (n =? 0); [unfold fmt_read, fmt_rw; bounded|].
  destruct (n =? 1); [unfold fmt_write, fmt_rw; bounded|].
  destruct (n =? 2); [apply open_fits|].
  destruct (n =? 3); [unfold fmt_close; bounded|].
  destruct (n =? 9); [apply mmap_fits|].
  destruct (n =? 10); [unfold fmt_mprotect; bounded|].
  destruct (n =? 12); [unfold fmt_brk; bounded|].
  destruct (n =? 21); [apply access_fits|].
  destruct (n =? 41); [unfold fmt_socket; bounded|].
  destruct (n =? 42); [unfold fmt_connect, fmt_rw; bounded|].
  destruct (n =? 59); [unfold fmt_execve; bounded|].
  destruct (n =? 257); [apply openat_fits|by apply generic_fits].
Qed.
End Lines.

(** * The writer and its commit *)

Lemma write_all_prefix w d fuel : (length d < fuel)%nat -> zlen (wbuf w) <= BUF ->
  wbuf (snd (write_all fuel w d)) = take (Z.to_nat BUF) (wbuf w ++ d) /\ wfd (snd (write_all fuel w d)) = wfd w.
Proof.
  intros Hf Hw. assert (forall k, (length (wbuf w) <= k)%nat -> take k (wbuf w) = wbuf w) as Ht by (intros; by rewrite take_ge).
  unfold zlen, BUF in *. destruct d as [|c d].
  { destruct fuel; cbn [write_all snd]; rewrite app_nil_r, Ht by lia; done. }
  destruct fuel as [|[|fuel]]; [simpl in Hf; lia|simpl in Hf; lia|]. cbn [write_all fw_write]. unfold fw_write, zlen, BUF. cbn [wbuf wfd].
  set (D := c :: d) in *. assert (0 < Z.of_nat (length D)) by (unfold D; cbn [length]; lia).
  rewrite take_app, (take_ge (wbuf w)) by lia.
  destruct (Z.eqb_spec (Z.min (4096 - Z.of_nat (length (wbuf w))) (Z.of_nat (length D))) 0) as [E|E].
  { cbn [snd wbuf wfd]. split; [|done]. do 2 f_equal. lia. }
  destruct (drop _ D) as [|x r] eqn:Er.
  { cbn [snd wbuf wfd]. split; [|done]. f_equal. apply (f_equal length) in Er. rewrite length_drop in Er. cbn [length] in Er.
    rewrite !take_ge by lia. done. }
  apply (f_equal length) in Er. rewrite length_drop in Er. cbn [length] in Er.
  match goal with |- context [if ?b =? 0 then _ else _] => replace b with 0 end.
  - cbn [snd wbuf wfd Z.eqb]. split; [|done]. replace (take (Z.to_nat 0) (x :: r)) with (@nil Z) by done. rewrite app_nil_r. do 2 f_equal. lia.
  - rewrite length_app, length_take. cbn [length]. lia.
Qed.

(** Pieces written one after the other fill the buffer as one piece would. *)
Lemma pieces_prefix pieces w : zlen (wbuf w) <= BUF ->
  wbuf (write_pieces w pieces) = take (Z.to_nat BUF) (wbuf w ++ concat pieces).
Proof.
  revert w. induction pieces as [|d ps IH]; intros w Hw.
  { cbn. rewrite app_nil_r, take_ge; [done|]. unfold zlen, BUF in *. lia. }
  cbn [write_pieces foldl concat]. destruct (write_all_prefix w d (S (length d)) ltac:(lia) Hw) as [E _].
  fold (write_pieces (snd (write_all (S (length d)) w d)) ps). rewrite IH, E.
  - rewrite app_assoc. remember (wbuf w ++ d) as l. destruct (decide (length l <= Z.to_nat BUF)%nat) as [Hl|Hl].
    + by rewrite (take_ge l) by done.
    + rewrite !take_app, take_take, Nat.min_id, length_take. f_equal. f_equal. lia.
  - rewrite E. unfold zlen. rewrite length_take. unfold BUF. lia.
Qed.

(** * The interceptor is transparent *)

(** Writes to the trace file take something, and memory is bytes. *)
Class OsLaws {V} (K : Os V) : Prop := MkOsLaws
  { accept_some : forall l d, d <> [] -> 0 < accept K l d <= zlen d;
    readv_bytes : forall v a n l, readv K v a n = Some l -> bytes_ok l }.

Section Transparent.
Context {V : Type} (K : Os V) `{!OsLaws K} (ly : Layout) (L : Libc).
Implicit Types (p : Proc V) (c : Code).

Lemma allow_passes ip p : selector p = SYSCALL_DISPATCH_FILTER_ALLOW -> passes ip p = true.
Proof. intros H. unfold passes. rewrite H. destruct (dispatch p) as [[off len]|]; [|done]. by rewrite orb_true_r. Qed.

(** The selector lets the writer through: everything reaches the file,
    whatever each write takes. *)
Lemma commit_loop buf p off fuel : selector p = SYSCALL_DISPATCH_FILTER_ALLOW ->
  0 <= off <= zlen buf -> zlen buf - off < Z.of_nat fuel ->
  loop fuel (commit_step K ly buf) (off, p) = Done (with_log (log p ++ drop (Z.to_nat off) buf) p).
Proof.
  revert off p. induction fuel as [|fuel IH]; intros off p Hs Ho Hf; [lia|]. rewrite loop_S. cbn [commit_step].
  destruct (Z.ltb_spec off (zlen buf)) as [Hlt|Hge].
  - unfold own. rewrite allow_passes by done. cbn [mbind outcome_bind].
    destruct (accept_some (log p) (drop (Z.to_nat off) buf)) as [H1 H2].
    { intros E. apply (f_equal length) in E. rewrite length_drop in E. unfold zlen in *. cbn [length] in E. lia. }
    assert (accept K (log p) (drop (Z.to_nat off) buf) <= zlen buf - off) as H3 by (unfold zlen in *; rewrite length_drop in H2; lia).
    set (n := accept K (log p) (drop (Z.to_nat off) buf)) in *. rewrite (proj2 (Z.leb_gt n 0)) by lia. rewrite IH; [|done|lia|lia].
    unfold with_log. cbn [log selector trace_fd trace_pid action dispatch os]. do 2 f_equal. rewrite <- app_assoc. f_equal.
    rewrite <- (take_drop (Z.to_nat n) (drop (Z.to_nat off) buf)) at 2. f_equal. rewrite drop_drop. f_equal. lia.
  - cbn [mbind outcome_bind]. rewrite drop_ge by (unfold zlen in *; lia). rewrite app_nil_r. by destruct p.
Qed.

(** What the handler adds to the log for a call. *)
Definition logged p (e : V * Syscall) : list Z := if 0 <=? trace_fd p then render K L e else [].

Lemma log_syscall_line sc p : selector p = SYSCALL_DISPATCH_FILTER_ALLOW -> length (args sc) = 6%nat ->
  log_syscall K ly L sc p = Done (with_log (log p ++ logged p (os p, sc)) p).
Proof.
  intros Hs Ha. unfold log_syscall, logged. destruct (0 <=? trace_fd p); [|rewrite app_nil_r; by destruct p].
  unfold own. rewrite allow_passes by done. cbn [mbind outcome_bind]. unfold commit.
  assert (wbuf (write_pieces (FdWriter_new (trace_fd p)) [decode_syscall X86_64 L (readv K (os p)) sc]) = render K L (os p, sc)) as E.
  { rewrite pieces_prefix by done. cbn [wbuf FdWriter_new app concat]. rewrite app_nil_r. unfold render. cbn [fst snd]. rewrite take_ge; [done|].
    pose proof (decode_fits L (readv K (os p)) (readv_bytes (os p)) sc Ha) as H. unfold zlen in H. unfold BUF in *. lia. }
  rewrite E. rewrite commit_loop; [done|done|pose proof (zlen_nonneg (render K L (os p, sc))); lia|unfold zlen; lia].
Qed.

(** The handler does the call once, with the arguments it was made with, gives
    the result back and leaves the selector blocking. *)
Lemma handler_spec g p r v : call K (REG_RAX g) (greg_args g) (os p) = (r, v) ->
  handle_sigsys K ly L g p = Done (set_rax g <$> r,
    MkProc (match r with Some _ => SYSCALL_DISPATCH_FILTER_BLOCK | None => SYSCALL_DISPATCH_FILTER_ALLOW end) (trace_fd p) (trace_pid p) (action p) (dispatch p)
      (log p ++ (if does_not_return (REG_RAX g) then logged p (os p, MkSyscall (REG_RAX g) (greg_args g) 0)
                 else match r with Some ret => logged p (v, MkSyscall (REG_RAX g) (greg_args g) ret) | None => [] end)) v).
Proof.
  intros Hc. unfold handle_sigsys. set (q := set_privilege_level _ p).
  assert (selector q = SYSCALL_DISPATCH_FILTER_ALLOW) as Hq by done.
  assert (os q = os p) as Ho by done.
  assert (forall q', selector q' = SYSCALL_DISPATCH_FILTER_ALLOW -> os q' = os p ->
    raw_syscall6 K ly (REG_RAX g) (greg_args g) q' = Done (r, with_os v q')) as Hraw.
  { intros q' Hs' Ho'. unfold raw_syscall6, own. by rewrite allow_passes, Ho', Hc by done. }
  destruct (does_not_return _).
  - rewrite log_syscall_line by done. cbn [mbind outcome_bind]. rewrite Hraw by done. cbn [mbind outcome_bind]. by destruct r.
  - rewrite Hraw by done. cbn [mbind outcome_bind]. destruct r as [ret|]; [|by rewrite app_nil_r].
    rewrite log_syscall_line by done. done.
Qed.

(** A process under the interceptor, between two syscalls of the code. *)
Record intercepted p : Prop := MkIntercepted
  { int_selector : selector p = SYSCALL_DISPATCH_FILTER_BLOCK;
    int_dispatch : dispatch p = Some (win ly, WINDOW);
    int_action : exists ka, action p = Some ka /\ handler ka = handle_addr ly /\ restorer ka = win ly }.

Lemma execute_native c p b v ls : intercepted p -> outside ly c -> native K c (os p) = (b, v, ls) ->
  execute K ly L c p = Done (b, MkProc (if b then SYSCALL_DISPATCH_FILTER_BLOCK else SYSCALL_DISPATCH_FILTER_ALLOW)
    (trace_fd p) (trace_pid p) (action p) (dispatch p) (log p ++ concat (logged p <$> ls)) v).
Proof.
  revert p b v ls. induction c as [|ip g k IH]; intros p b v ls Hi Hout Hn.
  { injection Hn as <- <- <-. cbn. rewrite app_nil_r. destruct p. apply int_selector in Hi. cbn in Hi. by rewrite Hi. }
  cbn [native] in Hn. cbn [outside] in Hout. destruct Hout as [Hip Hk]. destruct (call K _ _ _) as [r v1] eqn:Ec.
  destruct (int_action p Hi) as (ka & Ha & Hh & Hr). cbn [execute]. unfold traced_syscall.
  assert (forall q : Proc V, dispatch q = Some (win ly, WINDOW) -> passes (restorer ka + 7) q = true) as Hret.
  { intros q Hq. unfold passes. rewrite Hq, Hr. rewrite (proj2 (Z.leb_le _ _)), (proj2 (Z.ltb_lt _ _)) by (unfold WINDOW; lia). done. }
  assert (passes ip p = false) as ->.
  { unfold passes. rewrite (int_dispatch p Hi), (int_selector p Hi). unfold WINDOW in *. zbool; lia. }
  rewrite Ha, Hh, Z.eqb_refl, (handler_spec g p r v1 Ec). cbn [mbind outcome_bind].
  destruct r as [ret|]; cbn [fmap option_fmap option_map].
  - destruct (native K (k (set_rax g ret)) v1) as [[b' v'] ls'] eqn:En. injection Hn as <- <- <-.
    rewrite Hret by apply (int_dispatch p Hi). cbn [mbind outcome_bind].
    rewrite (IH (set_rax g ret) _ b' v' ls'); [|by constructor; [|apply Hi|exists ka]|done|done].
    cbn [selector trace_fd trace_pid action dispatch log os]. rewrite fmap_app, concat_app, <- app_assoc. do 5 f_equal; [done|].
    destruct (does_not_return _); rewrite list_fmap_singleton; cbn [concat]; by rewrite app_nil_r.
  - injection Hn as <- <- <-. cbn [mbind outcome_bind]. rewrite Ha. do 4 f_equal.
    destruct (does_not_return _); [rewrite list_fmap_singleton|]; cbn [concat fmap list_fmap]; by rewrite ?app_nil_r.
Qed.

Lemma execute_plain c p : dispatch p = None ->
  let '(b, v, _) := native K c (os p) in execute K ly L c p = Done (b, with_os v p).
Proof.
  revert p. induction c as [|ip g k IH]; intros p Hd; cbn [native execute]; [by destruct p|].
  unfold traced_syscall, passes. rewrite Hd. destruct (call K _ _ _) as [[ret|] v1] eqn:Ec; [|done]. cbn [mbind outcome_bind fmap option_fmap option_map].
  specialize (IH (set_rax g ret) (with_os v1 p) Hd). cbn [with_os os] in IH.
  by destruct (native K (k (set_rax g ret)) v1) as [[b v] ls].
Qed.

(** The fallback runs the target as it is. *)
Lemma directly_native pid target p : 0 <= pid -> dispatch p = None ->
  let '(returned, v, _) := native K target (os p) in
  run_target_directly K ly L pid target p = Done (exit_status (if returned then exit_127 else ended K v), Some (with_os v p)).
Proof.
  intros Hp Hd. unfold run_target_directly, exec_or_exit. rewrite (proj2 (Z.ltb_ge pid 0)) by done.
  pose proof (execute_plain target p Hd) as E. destruct (native K target (os p)) as [[b v] ls]. rewrite E. cbn [mbind outcome_bind].
  destruct b; [|done]. unfold own, passes. cbn [with_os dispatch]. by rewrite Hd.
Qed.

(** What the set-up calls answer. *)
Definition arms (v : V) : bool * V :=
  let '(r, v) := sigaction K SIGSYS (MkKAction (handle_addr ly) (Z.lor SA_SIGINFO SA_RESTORER) (win ly) 0) v in
  if r =? 0 then
    let '(r, v) := prctl K [PR_SET_SYSCALL_USER_DISPATCH; PR_SYS_DISPATCH_ON; win ly; WINDOW; selector_addr ly] v in (r =? 0, v)
  else (false, v).

Lemma enable_spec p : dispatch p = None -> exists q,
  enable_sud K ly p = Done (fst (arms (os p)), q) /\ os q = snd (arms (os p)) /\ log q = log p /\ trace_fd q = trace_fd p /\
  (if fst (arms (os p)) then intercepted (set_privilege_level SYSCALL_DISPATCH_FILTER_BLOCK q) else dispatch q = None).
Proof.
  intros Hd. unfold enable_sud, arms, own, passes. rewrite Hd. cbn [mbind outcome_bind].
  destruct (sigaction K _ _ _) as [r v] eqn:Es. cbn [mbind outcome_bind set_privilege_level dispatch os]. destruct (r =? 0) eqn:Er; cbn [negb].
  - cbn [mbind outcome_bind]. destruct (prctl K _ _) as [r' v'] eqn:Ep. cbn [mbind outcome_bind fst snd]. eexists. split; [done|]. repeat split; try done.
    destruct (r' =? 0); [|done]. constructor; [done|done|]. cbn [action]. eexists. split; [reflexivity|done].
  - cbn [fst snd]. eexists. split; [done|]. done.
Qed.

(** C27: Running under the interceptor is running without it.  Whatever code the
    target's exec runs (any calls, any results, from anywhere but the restorer
    stub), whatever each write to the trace file takes and whether or not the
    trace file opens and the kernel offers the dispatch: no syscall of vock's own
    is ever killed by the dispatch it set up, the target's calls happen once
    each, in order, with their arguments and results, and run gives the status
    of the target (127 when the exec came back).  When the dispatch is on, the
    trace is the lines of the calls, whole and in order, those that do not
    return included; otherwise it is empty. *)
Theorem run_transparent pid target p : 0 <= pid -> dispatch p = None -> trace_fd p = -1 -> outside ly target ->
  let '(fd, v1) := open_trace K (os p) in
  let '(armed, v2) := arms v1 in
  let '(returned, v, ls) := native K target v2 in
  exists q, run K ly L pid target p = Done (exit_status (if returned then exit_127 else ended K v), Some q) /\ os q = v /\
    log q = if 0 <=? fd then if armed then concat (render K L <$> ls) else [] else log p.
Proof.
  intros Hpid Hd Hfd Hout. unfold run, child. rewrite (proj2 (Z.ltb_ge pid 0)) by done.
  destruct (open_trace K (os p)) as [fd v1]. set (p1 := MkProc _ _ _ _ _ _ v1).
  destruct (enable_spec p1 Hd) as (q & -> & Ho & Hl & Ht & Hi). cbn [mbind outcome_bind]. unfold p1 in Ho, Hl, Ht, Hi. cbn [os log trace_fd] in Ho, Hl, Ht, Hi.
  unfold p1. cbn [os]. destruct (arms v1) as [armed v2]. cbn [fst snd] in *. unfold exec_or_exit. destruct armed; cbn [negb].
  - destruct (native K target v2) as [[b v] ls] eqn:En. rewrite (execute_native target _ b v ls Hi Hout) by (by rewrite <- En, <- Ho).
    cbn [mbind outcome_bind]. assert (concat (logged (set_privilege_level SYSCALL_DISPATCH_FILTER_BLOCK q) <$> ls) = if 0 <=? fd then concat (render K L <$> ls) else []) as E.
    { unfold logged. cbn [set_privilege_level trace_fd]. rewrite Ht, Hfd. destruct (0 <=? fd) eqn:F; [by rewrite F|]. cbn [Z.leb Z.compare].
      clear. by induction ls as [|e ls IH]. }
    destruct b; unfold own; [rewrite allow_passes by done|]; cbn [mbind outcome_bind]; (eexists; split; [reflexivity|]; split; [done|]);
      cbn [set_privilege_level log]; rewrite E, Hl; destruct (0 <=? fd); by rewrite ?app_nil_r.
  - pose proof (execute_plain target q Hi) as E. rewrite Ho in E. destruct (native K target v2) as [[b v] ls]. rewrite E. cbn [mbind outcome_bind].
    destruct b; unfold own, passes; [cbn [with_os dispatch]; rewrite Hi|]; cbn [mbind outcome_bind]; (eexists; split; [reflexivity|]; split; [done|]);
      cbn [with_os log]; rewrite Hl; by destruct (0 <=? fd).
Qed.
End Transparent.

(** * The version gate *)

Lemma dec_digits n : Forall (fun c => is_ascii_digit c = true) (fmt_dec n).
Proof.
  unfold fmt_dec. generalize 64%nat as fuel. assert (Forall (fun c => is_ascii_digit c = true) []) as Ht by constructor. revert Ht.
  generalize (@nil Z) as tail. intros tail Ht fuel. revert n tail Ht. induction fuel as [|fuel IH]; intros n tail Ht; [done|]. cbn [fmt_digits].
  assert (Forall (fun c => is_ascii_digit c = true) (digit_char (n mod 10) :: tail)).
  { constructor; [|done]. pose proof (Z.mod_pos_bound n 10). unfold is_ascii_digit, digit_char. zbool; lia. }
  destruct (_ =? 0); [done|]. by apply IH.
Qed.

Lemma trim_nondigits s t : Forall (fun c => is_ascii_digit c = true) s -> Forall (fun c => is_ascii_digit c = false) t ->
  trim_end_nondigits (s ++ t) = s.
Proof.
  intros Hs Ht. induction Hs as [|c s Hc Hs IH]; cbn [app trim_end_nondigits]; [|rewrite IH; destruct s; [by rewrite Hc|done]].
  induction Ht as [|c t Hc _ IH]; [done|]. cbn [trim_end_nondigits]. by rewrite IH, Hc.
Qed.

Lemma dec_no_dot n : 46 ∉ fmt_dec n.
Proof. intros H. pose proof (proj1 (Forall_forall _ _) (dec_digits n) 46 H) as E. vm_compute in E. done. Qed.

(** The gate reads a kernel release as its first two numbers, whatever follows
    them after a dot or without a digit. *)
Theorem gate_reads_release major minor tag rest : is_u32 major -> is_u32 minor ->
  Forall (fun c => is_ascii_digit c = false) tag -> 46 ∉ tag -> rest = [] \/ head rest = Some 46 ->
  kernel_at_least_5_11 (Some (fmt_dec major ++ 46 :: fmt_dec minor ++ tag ++ rest)) = (5 <? major) || ((major =? 5) && (11 <=? minor)).
Proof.
  intros HM Hm Ht Hd Hrest. unfold kernel_at_least_5_11. rewrite split_on_app by apply dec_no_dot.
  assert (46 ∉ fmt_dec minor ++ tag) as Hn by (rewrite elem_of_app; intros [?|?]; [by eapply dec_no_dot|done]).
  assert (exists ws, split_on 46 (fmt_dec minor ++ tag ++ rest) = (fmt_dec minor ++ tag) :: ws) as [ws ->].
  { destruct Hrest as [->|Hr]; [exists []; rewrite app_nil_r; by apply split_on_none|]. destruct rest as [|c rest]; [done|]. injection Hr as ->.
    rewrite app_assoc. eexists. by apply split_on_app. }
  cbn [lookup list_lookup mbind option_bind]. by rewrite (trim_nondigits _ _ (dec_digits minor) Ht), !parse_u32_fmt_dec by done.
Qed.

(** A tag with a digit in it is not cut off: the minor number is then 0. *)
Example tag_with_digit : kernel_at_least_5_11 (Some (bs "5.15-rc1")) = false.
Proof. reflexivity. Qed.

(** * A concrete run *)

(** A machine that records its calls: openat fails, execve is followed by a
    process that exits with 7; a write takes at most ten bytes. *)
Definition demo_call (nr : Z) (args : list Z) (v : list (Z * list Z)) : option Z * list (Z * list Z) :=
  (if nr =? NR_EXECVE then None else Some (-2), v ++ [(nr, args)]).
Definition demo_mem (_ : list (Z * list Z)) (a n : Z) : option (list Z) := if a =? 0x1000 then Some (bs "/bin/ls" ++ [0]) else None.
Definition demo_os : Os (list (Z * list Z)) :=
  MkOs _ demo_call demo_mem (fun _ d => Z.min 10 (zlen d)) (fun v => (3, v)) (fun _ => 42) (fun _ _ v => (0, v)) (fun _ v => (0, v)) (fun _ => 7 * 256).
Definition demo_layout : Layout := MkLayout 0x5000 0x5100 0x7000 0x7100 0x5200 0x9000.
Definition demo_gregs (nr a0 a1 : Z) : Gregs := MkGregs nr a0 a1 0 0 0 0 (fun _ => 0).

(** An access(2), then the execve when that failed. *)
Definition demo_target : Code :=
  Sys 0x7200 (demo_gregs 21 0x1000 1) (fun g => if REG_RAX g <? 0 then Sys 0x7300 (demo_gregs 59 0x1000 0) (fun _ => Return) else Return).
Definition demo_proc : Proc (list (Z * list Z)) := MkProc SYSCALL_DISPATCH_FILTER_ALLOW (-1) 0 None None [] [].

#[export] Instance demo_laws : OsLaws demo_os.
Proof.
  split.
  - intros l d Hd. cbn [accept demo_os]. destruct d; [done|]. rewrite zlen_cons. pose proof (zlen_nonneg d). lia.
  - intros v a n l. cbn [readv demo_os]. unfold demo_mem. destruct (a =? 0x1000); [|done]. intros [= <-].
    apply Forall_forall. intros x Hx. assert (forallb (fun x => (0 <=? x) && (x <? 256)) (bs "/bin/ls" ++ [0]) = true) as Hf by reflexivity.
    rewrite forallb_forall in Hf. apply list_elem_of_In, Hf in Hx. unfold is_u8. lia.
Qed.

Lemma run_transparent_witness :
  exists q, run demo_os demo_layout glibc_x86_64 9 demo_target demo_proc = Done (7, Some q) /\
    os q = [(21, [0x1000; 1; 0; 0; 0; 0]); (59, [0x1000; 0; 0; 0; 0; 0])] /\
    log q = bs "access(" ++ [34] ++ bs "/bin/ls" ++ [34] ++ bs ", X_OK) = -2" ++ [10] ++ bs "execve(" ++ [34] ++ bs "/bin/ls" ++ [34] ++ bs ", 0x0, 0x0) = 0" ++ [10].
Proof.
  destruct (run_transparent demo_os demo_layout glibc_x86_64 9 demo_target demo_proc) as (q & Hr & Ho & Hl).
  - lia.
  - reflexivity.
  - reflexivity.
  - cbn [outside demo_target win demo_layout]. unfold WINDOW. split; [lia|]. intros g.
    destruct (REG_RAX g <? 0); cbn [outside win demo_layout]; [split; [unfold WINDOW; lia|done]|done].
  - exists q. split; [exact Hr|]. split; [exact Ho|]. rewrite Hl. vm_compute. reflexivity.
Defined.
