(* ===== verification/UsbGadget.v ===== *)
(** fuzz/pseudo_syscalls.rs, first part: the emulated USB device.

    The raw-gadget driver is an instance of the class [Gadget]: every host
    operation the file performs is one of its methods on a kernel state [W].
    [GadgetLaws] states what the code relies on: an open gives a descriptor that
    was not open, a close takes it away, nothing else changes the set of open
    descriptors, an event leaves its buffer at its length, and the events that
    arrive before a fetch is interrupted (the watchdog of the program) are
    finitely many.
    Shown: a connect blob is indexed as exactly its interfaces with their
    endpoints, whatever bytes it holds; connecting ends, and leaves one more
    descriptor open when it succeeds and none when it fails; and a host that
    enumerates the device is answered as the descriptors say, request by
    request, and finds interface 0 enabled. *)
From stdpp Require Import gmap.
From S2P Require Import Prelude Text.

(** * Constants *)

Definition IOC_NRBITS : Z := 8.
Definition IOC_TYPEBITS : Z := 8.
Definition IOC_SIZEBITS : Z := 14.
Definition IOC_NRSHIFT : Z := 0.
Definition IOC_TYPESHIFT : Z := IOC_NRSHIFT + IOC_NRBITS.
Definition IOC_SIZESHIFT : Z := IOC_TYPESHIFT + IOC_TYPEBITS.
Definition IOC_DIRSHIFT : Z := IOC_SIZESHIFT + IOC_SIZEBITS.
Definition IOC_NONE : Z := 0.
Definition IOC_WRITE : Z := 1.
Definition IOC_READ : Z := 2.

Definition ioc (dir ty nr size : Z) : Z :=
  Z.lor (Z.lor (Z.lor (as_u32 (Z.shiftl dir IOC_DIRSHIFT)) (as_u32 (Z.shiftl ty IOC_TYPESHIFT))) (as_u32 (Z.shiftl nr IOC_NRSHIFT)))
    (as_u32 (Z.shiftl size IOC_SIZESHIFT)).

Definition U : Z := 85.
Definition SZ_INIT : Z := 257.
Definition SZ_EVENT : Z := 8.
Definition SZ_EP_IO : Z := 8.
Definition SZ_EP_DESC : Z := 9.
Definition SZ_U32 : Z := 4.

Definition USB_RAW_IOCTL_INIT : Z := ioc IOC_WRITE U 0 SZ_INIT.
Definition USB_RAW_IOCTL_RUN : Z := ioc IOC_NONE U 1 0.
Definition USB_RAW_IOCTL_EVENT_FETCH : Z := ioc IOC_READ U 2 SZ_EVENT.
Definition USB_RAW_IOCTL_EP0_WRITE : Z := ioc IOC_WRITE U 3 SZ_EP_IO.
Definition USB_RAW_IOCTL_EP0_READ : Z := ioc (Z.lor IOC_READ IOC_WRITE) U 4 SZ_EP_IO.
Definition USB_RAW_IOCTL_EP_ENABLE : Z := ioc IOC_WRITE U 5 SZ_EP_DESC.
Definition USB_RAW_IOCTL_EP_DISABLE : Z := ioc IOC_WRITE U 6 SZ_U32.
Definition USB_RAW_IOCTL_CONFIGURE : Z := ioc IOC_NONE U 9 0.
Definition USB_RAW_IOCTL_VBUS_DRAW : Z := ioc IOC_WRITE U 10 SZ_U32.
Definition USB_RAW_IOCTL_EP0_STALL : Z := ioc IOC_NONE U 12 0.

Definition USB_RAW_EVENT_CONTROL : Z := 2.

Definition USB_DIR_IN : Z := 0x80.
Definition USB_TYPE_MASK : Z := 0x60.
Definition USB_TYPE_STANDARD : Z := 0x00.
Definition USB_REQ_GET_DESCRIPTOR : Z := 0x06.
Definition USB_REQ_SET_CONFIGURATION : Z := 0x09.
Definition USB_REQ_SET_INTERFACE : Z := 0x0b.
Definition USB_DT_DEVICE : Z := 0x01.
Definition USB_DT_CONFIG : Z := 0x02.
Definition USB_DT_STRING : Z := 0x03.
Definition USB_DT_INTERFACE : Z := 0x04.
Definition USB_DT_ENDPOINT : Z := 0x05.
Definition USB_DT_DEVICE_QUALIFIER : Z := 0x06.
Definition USB_DT_BOS : Z := 0x0f.
Definition USB_MAX_PACKET_SIZE : Z := 4096.

Definition DEFAULT_LANG_ID : list Z := [4; USB_DT_STRING; 0x09; 0x04].
Definition DEFAULT_STRING : list Z := [8; USB_DT_STRING; 115; 0; 121; 0; 122; 0].

(** * Control requests *)

Record CtrlRequest : Type := MkCtrl { b_request_type : Z; b_request : Z; w_value : Z; w_index : Z; w_length : Z }.

Definition ctrl_parse (d : list Z) : outcome CtrlRequest :=
  t ← idx d 0; r ← idx d 1; v ← u16_at d 2; i ← u16_at d 4; l ← u16_at d 6; Done (MkCtrl t r v i l).

Definition dir_in (c : CtrlRequest) : bool := negb (Z.land (b_request_type c) USB_DIR_IN =? 0).
Definition is_standard (c : CtrlRequest) : bool := Z.land (b_request_type c) USB_TYPE_MASK =? USB_TYPE_STANDARD.

(** * The index of a device *)

Record EpIndex : Type := MkEp { desc : list Z; handle : Z }.
Record IfaceIndex : Type := MkIface { b_interface_number : Z; b_alternate_setting : Z; eps : list EpIndex }.
Record DeviceIndex : Type := MkDevice { dev : list Z; config : list Z; b_max_power : Z; ifaces : list IfaceIndex; iface_cur : Z }.

Definition DEV_LEN : Z := 18.
Definition CFG_LEN : Z := 9.

Definition push_ep (l : list IfaceIndex) (e : EpIndex) : list IfaceIndex :=
  alter (fun f => MkIface (b_interface_number f) (b_alternate_setting f) (eps f ++ [e])) (pred (length l)) l.

(** One round of the walk over the descriptors. *)
Definition desc_step (buf : list Z) (s : Z * list IfaceIndex) : outcome (ctl (Z * list IfaceIndex) (list IfaceIndex)) :=
  let '(off, l) := s in
  if off + 1 <? zlen buf then
    desc_len ← idx buf off;
    desc_type ← idx buf (off + 1);
    if (desc_len <=? 2) || (zlen buf <? off + desc_len) then Done (Stop l) else
    l ← (if (desc_type =? USB_DT_INTERFACE) && (9 <=? desc_len)
         then n ← idx buf (off + 2); a ← idx buf (off + 3); Done (l ++ [MkIface n a []]) else Done l);
    l ← (if (desc_type =? USB_DT_ENDPOINT) && negb (bool_decide (l = []))
         then let n := Z.min desc_len 9 in
              b ← or_panic (slice buf off (off + n));
              Done (push_ep l (MkEp (b ++ replicate (9 - length b) 0) (-1)))
         else Done l);
    Done (Next (off + desc_len, l))
  else Done (Stop l).

(** A descriptor is three bytes at least. *)
Definition parse_usb_descriptor (buf : list Z) : outcome (option DeviceIndex) :=
  if zlen buf <? DEV_LEN + CFG_LEN then Done None else
  d ← or_panic (slice buf 0 DEV_LEN);
  c ← or_panic (slice_from buf DEV_LEN);
  p ← idx buf (DEV_LEN + 8);
  l ← loop (S (length buf)) (desc_step buf) (0, []);
  Done (Some (MkDevice d c p l (-1))).

Definition lookup_connect_response_in (ix : DeviceIndex) (c : CtrlRequest) : outcome (option (list Z)) :=
  if negb (is_standard c) then Done None
  else if negb (b_request c =? USB_REQ_GET_DESCRIPTOR) then Done None
  else
    let desc_type := as_u8 (Z.shiftr (w_value c) 8) in
    let str_idx := as_u8 (Z.land (w_value c) 0xff) in
    if desc_type =? USB_DT_DEVICE then Done (Some (dev ix))
    else if desc_type =? USB_DT_CONFIG then Done (Some (config ix))
    else if desc_type =? USB_DT_STRING then Done (Some (if str_idx =? 0 then DEFAULT_LANG_ID else DEFAULT_STRING))
    else if desc_type =? USB_DT_DEVICE_QUALIFIER then
      if zlen (dev ix) <? 18 then Done None
      else
        b2 ← idx (dev ix) 2; b3 ← idx (dev ix) 3; b4 ← idx (dev ix) 4; b5 ← idx (dev ix) 5; b6 ← idx (dev ix) 6; b7 ← idx (dev ix) 7;
        b17 ← idx (dev ix) 17;
        Done (Some [10; USB_DT_DEVICE_QUALIFIER; b2; b3; b4; b5; b6; b7; b17; 0])
    else Done None.

Definition lookup_interface (ix : DeviceIndex) (num alt : Z) : option Z :=
  position (fun f => (b_interface_number f =? num) && (b_alternate_setting f =? alt)) (ifaces ix).

(** * The driver *)

Inductive GadgetArg : Type :=
  | GWord (v : Z)
  | GBytes (b : list Z).

Class Gadget (W : Type) : Type :=
  { g_open : list Z -> W -> Z * W;                     (* open(path, O_RDWR) *)
    g_close : Z -> W -> Z * W;
    g_ioctl : Z -> Z -> GadgetArg -> W -> Z * W;
    g_event : Z -> list Z -> W -> Z * (list Z * W);    (* EVENT_FETCH into a buffer *)
    g_sleep : Z -> W -> W }.

Record UsbDevice : Type := MkUsb { fd : Z; index : DeviceIndex }.

Section Driver.
Context {W : Type} `{!Gadget W}.

Definition usb_raw_open : W -> Z * W := g_open (bs "/dev/raw-gadget").

(** [usb_raw_init]: driver_name\[128\], device_name\[128\], speed. *)
Definition padded (n : nat) (b : list Z) : list Z := take n (b ++ replicate n 0).
Definition usb_raw_init (fd speed : Z) (device : list Z) : W -> Z * W :=
  g_ioctl fd USB_RAW_IOCTL_INIT (GBytes (padded 128 (bs "dummy_udc") ++ padded 128 (take 127 device) ++ [speed])).

Definition usb_raw_run (fd : Z) : W -> Z * W := g_ioctl fd USB_RAW_IOCTL_RUN (GWord 0).
Definition usb_raw_configure (fd : Z) : W -> Z * W := g_ioctl fd USB_RAW_IOCTL_CONFIGURE (GWord 0).
Definition usb_raw_vbus_draw (fd power : Z) : W -> Z * W := g_ioctl fd USB_RAW_IOCTL_VBUS_DRAW (GWord power).
Definition usb_raw_ep0_stall (fd : Z) : W -> Z * W := g_ioctl fd USB_RAW_IOCTL_EP0_STALL (GWord 0).
Definition usb_raw_ep_enable (fd : Z) (desc : list Z) : W -> Z * W := g_ioctl fd USB_RAW_IOCTL_EP_ENABLE (GBytes desc).
Definition usb_raw_ep_disable (fd handle : Z) : W -> Z * W := g_ioctl fd USB_RAW_IOCTL_EP_DISABLE (GBytes (le_bytes 4 (as_u32 handle))).

Definition usb_raw_event_fetch (fd : Z) (w : W) : outcome (option (Z * list Z) * W) :=
  let '(rv, (buf, w)) := g_event fd (replicate 4 0 ++ le_bytes 4 64 ++ replicate 64 0) w in
  if rv <? 0 then Done (None, w) else
  ty ← or_panic (slice buf 0 4);
  ctrl ← or_panic (slice buf 8 16);
  Done (Some (le_val ty, ctrl), w).

Definition usb_raw_ep0_io (fd : Z) (write : bool) (data : list Z) : W -> Z * W :=
  let len := Z.min (zlen data) USB_MAX_PACKET_SIZE in
  g_ioctl fd (if write then USB_RAW_IOCTL_EP0_WRITE else USB_RAW_IOCTL_EP0_READ)
    (GBytes ([0; 0; 0; 0] ++ le_bytes 4 len ++ take (Z.to_nat len) data)).

(** * Interfaces *)

Definition disable_eps (fd : Z) (l : list EpIndex) (w : W) : W :=
  foldl (fun w e => if 0 <=? handle e then snd (usb_raw_ep_disable fd (handle e) w) else w) w l.

Fixpoint enable_eps (fd : Z) (l : list EpIndex) (w : W) : list EpIndex * W :=
  match l with
  | [] => ([], w)
  | e :: l =>
      let '(rv, w) := usb_raw_ep_enable fd (desc e) w in
      let '(l, w) := enable_eps fd l w in
      ((if 0 <=? rv then MkEp (desc e) rv else e) :: l, w)
  end.

Definition set_interface (fd : Z) (ix : DeviceIndex) (n : Z) (w : W) : DeviceIndex * W :=
  let w := match get (ifaces ix) (iface_cur ix) with Some f => disable_eps fd (eps f) w | None => w end in
  match get (ifaces ix) n with
  | Some f =>
      let '(l, w) := enable_eps fd (eps f) w in
      (MkDevice (dev ix) (config ix) (b_max_power ix)
         (<[Z.to_nat n := MkIface (b_interface_number f) (b_alternate_setting f) l]> (ifaces ix)) n, w)
  | None => (ix, w)
  end.

Definition configure_device (fd : Z) (ix : DeviceIndex) (w : W) : Z * (DeviceIndex * W) :=
  let '(rv, w) := usb_raw_vbus_draw fd (b_max_power ix) w in
  if rv <? 0 then (rv, (ix, w)) else
  let '(rv, w) := usb_raw_configure fd w in
  if rv <? 0 then (rv, (ix, w)) else (0, set_interface fd ix 0 w).

(** * [syz_usb_connect] *)

(** [Err e], the descriptor closed. *)
Definition bail (fd e : Z) (w : W) : (Z + UsbDevice) * W := (inl e, snd (g_close fd w)).

(** One event of the enumeration. *)
Definition connect_step (fd : Z) (s : DeviceIndex * W) : outcome (ctl (DeviceIndex * W) ((Z + UsbDevice) * W)) :=
  let '(ix, w) := s in
  '(ev, w) ← usb_raw_event_fetch fd w;
  match ev with
  | None => Done (Stop (bail fd (-1) w))
  | Some (ty, bytes) =>
      if negb (ty =? USB_RAW_EVENT_CONTROL) then Done (Next (ix, w)) else
      c ← ctrl_parse bytes;
      let set_config := is_standard c && (b_request c =? USB_REQ_SET_CONFIGURATION) in
      r ← (if dir_in c then lookup_connect_response_in ix c else Done (if set_config then Some [] else None));
      match r with
      | None => Done (Next (ix, snd (usb_raw_ep0_stall fd w)))
      | Some resp =>
          let '(rv, (ix, w)) := if set_config then configure_device fd ix w else (0, (ix, w)) in
          if rv <? 0 then Done (Stop (bail fd rv w)) else
          let '(rv, w) := usb_raw_ep0_io fd (dir_in c) (take (Z.to_nat (w_length c)) resp) w in
          if rv <? 0 then Done (Stop (bail fd rv w)) else
          if negb (dir_in c) && set_config then Done (Stop (inr (MkUsb fd ix), g_sleep 200 w)) else Done (Next (ix, w))
      end
  end.

(** [fuel] bounds the events before the enumeration ends. *)
Definition syz_usb_connect (fuel : nat) (speed : Z) (blob : list Z) (procid : Z) (w : W) : outcome ((Z + UsbDevice) * W) :=
  ix ← parse_usb_descriptor blob;
  match ix with
  | None => Done (inl (-1), w)
  | Some ix =>
      let '(fd, w) := usb_raw_open w in
      if fd <? 0 then Done (inl fd, w) else
      let '(rv, w) := usb_raw_init fd speed (bs "dummy_udc." ++ fmt_dec procid) w in
      let '(rv, w) := if (rv <? 0) && negb (procid =? 0) then usb_raw_init fd speed (bs "dummy_udc.0") w else (rv, w) in
      if rv <? 0 then Done (bail fd rv w) else
      let '(rv, w) := usb_raw_run fd w in
      if rv <? 0 then Done (bail fd rv w) else
      loop fuel (connect_step fd) (ix, w)
  end.

(** * The other operations *)

Definition syz_usb_control_io (d : UsbDevice) (w : W) : outcome (Z * (UsbDevice * W)) :=
  '(ev, w) ← usb_raw_event_fetch (fd d) w;
  match ev with
  | None => Done (-1, (d, w))
  | Some (ty, bytes) =>
      if negb (ty =? USB_RAW_EVENT_CONTROL) then Done (-1, (d, w)) else
      c ← ctrl_parse bytes;
      let data_in := dir_in c && negb (w_length c =? 0) in
      let '(ix, w) :=
        if data_in then (index d, w)
        else if is_standard c || (b_request c =? USB_REQ_SET_INTERFACE) then
          match lookup_interface (index d) (as_u8 (w_index c)) (as_u8 (w_value c)) with
          | Some i => set_interface (fd d) (index d) (as_i32 i) w
          | None => (index d, w)
          end
        else (index d, w) in
      let len := if dir_in c && (w_length c =? 0) then USB_MAX_PACKET_SIZE else w_length c in
      let len := Z.min len USB_MAX_PACKET_SIZE in
      let '(rv, w) := usb_raw_ep0_io (fd d) data_in (replicate (Z.to_nat len) 0) w in
      if rv <? 0 then Done (rv, (MkUsb (fd d) ix, w)) else Done (0, (MkUsb (fd d) ix, g_sleep 200 w))
  end.

Definition syz_usb_disconnect (d : UsbDevice) (w : W) : Z * W :=
  let '(rv, w) := g_close (fd d) w in (rv, g_sleep 200 w).

(** The placeholders of a path, the first and the ones after it. *)
Fixpoint fill_path (path : list Z) (id id2 : Z) (seen : bool) : list Z :=
  match path with
  | [] => []
  | c :: path =>
      if c =? 35 then fmt_dec (if seen then id2 else id) ++ fill_path path id id2 true
      else c :: fill_path path id id2 seen
  end.

Definition syz_open_dev (path : list Z) (id id2 : Z) (w : W) : Z * W :=
  let out := fill_path path id id2 false in
  if existsb (fun c => c =? 0) out then (-1, w) else g_open out w.
End Driver.

(** * Indexing is total *)

Lemma wp_desc_step buf off l : bytes_ok buf -> 0 <= off <= zlen buf ->
  wp (desc_step buf (off, l)) (fun c => match c with
    | Next (off', _) => 0 <= off' <= zlen buf /\ 0 <= zlen buf - off' < zlen buf - off | Stop _ => True end) False.
Proof.
  intros Hb Ho. unfold desc_step. destruct (Z.ltb_spec (off + 1) (zlen buf)); [|done].
  apply wp_bind, wp_idx; [done|lia|]. intros n Hn _. apply wp_bind, wp_idx; [done|lia|]. intros t _ _.
  destruct (Z.leb_spec n 2); [done|]. destruct (Z.ltb_spec (zlen buf) (off + n)); [done|]. cbn [orb]. unfold is_u8 in Hn.
  apply wp_bind. eapply (wp_mono _ (fun _ => True) _ False); [|intros l' _|done].
  { destruct ((t =? USB_DT_INTERFACE) && (9 <=? n)) eqn:E; [|done]. apply andb_prop in E as [_ E%Z.leb_le].
    apply wp_bind, wp_idx; [done|lia|]. intros a _ _. apply wp_bind, wp_idx; [done|lia|]. done. }
  apply wp_bind. eapply (wp_mono _ (fun _ => True) _ False); [|intros l2 _; simpl; lia|done].
  destruct (_ && _); [|done].
  destruct (slice_Done buf off (off + Z.min n 9)) as (b & -> & _); [lia|lia|done].
Qed.

Lemma parse_total buf : bytes_ok buf ->
  wp (parse_usb_descriptor buf) (fun r => match r with Some ix => zlen (dev ix) = DEV_LEN /\ iface_cur ix = -1 | None => True end) False.
Proof.
  intros Hb. unfold parse_usb_descriptor. destruct (Z.ltb_spec (zlen buf) (DEV_LEN + CFG_LEN)) as [|Hl]; [done|].
  unfold DEV_LEN, CFG_LEN in *. destruct (slice_Done buf 0 18) as (d & -> & Hd); [lia|lia|]. cbn [or_panic mbind outcome_bind].
  unfold slice_from. rewrite !(proj2 (Z.leb_le _ _)) by lia. cbn [andb or_panic mbind outcome_bind].
  apply wp_bind, wp_idx; [done|lia|]. intros p _ _. apply wp_bind.
  eapply wp_mono; [|intros l _; split; [exact Hd|done]|done].
  apply (wp_loop (fun s => 0 <= fst s <= zlen buf) (fun s => zlen buf - fst s) (fun _ => True)).
  - intros [off l] Ho. eapply wp_mono; [by apply wp_desc_step| |done]. intros [[off' l']|]; [|done]. cbn [fst]. lia.
  - cbn [fst]. lia.
  - cbn [fst]. unfold zlen. lia.
Qed.

Lemma lookup_total ix c : zlen (dev ix) = DEV_LEN -> exists r, lookup_connect_response_in ix c = Done r.
Proof.
  intros Hd. unfold lookup_connect_response_in. repeat (case_match; [by eexists|]). case_match; [|by eexists].
  unfold DEV_LEN in Hd. case_match; [by eexists|].
  destruct (idx_Done (dev ix) 2) as (? & -> & _); [lia|]. destruct (idx_Done (dev ix) 3) as (? & -> & _); [lia|].
  destruct (idx_Done (dev ix) 4) as (? & -> & _); [lia|]. destruct (idx_Done (dev ix) 5) as (? & -> & _); [lia|].
  destruct (idx_Done (dev ix) 6) as (? & -> & _); [lia|]. destruct (idx_Done (dev ix) 7) as (? & -> & _); [lia|].
  destruct (idx_Done (dev ix) 17) as (? & -> & _); [lia|]. by eexists.
Qed.

Lemma ctrl_total d : zlen d = 8 -> exists c, ctrl_parse d = Done c.
Proof.
  intros Hd. unfold ctrl_parse, u16_at. change (2 + 1) with 3. change (4 + 1) with 5. change (6 + 1) with 7.
  destruct (idx_Done d 0) as (? & -> & _); [lia|]. destruct (idx_Done d 1) as (? & -> & _); [lia|].
  destruct (idx_Done d 2) as (? & -> & _); [lia|]. destruct (idx_Done d 3) as (? & -> & _); [lia|].
  destruct (idx_Done d 4) as (? & -> & _); [lia|]. destruct (idx_Done d 5) as (? & -> & _); [lia|].
  destruct (idx_Done d 6) as (? & -> & _); [lia|]. destruct (idx_Done d 7) as (? & -> & _); [lia|]. by eexists.
Qed.

(** * Descriptors of the process *)

(** What the host promises. *)
Class GadgetLaws (W : Type) `{!Gadget W} : Type :=
  { fds : W -> gset Z;
    events : W -> nat;
    open_law : forall p w fd w', g_open p w = (fd, w') ->
      events w' = events w /\ if fd <? 0 then fds w' = fds w else fds w' = {[fd]} ∪ fds w /\ fd ∉ fds w;
    close_law : forall fd w rv w', g_close fd w = (rv, w') -> fds w' = fds w ∖ {[fd]} /\ events w' = events w;
    ioctl_law : forall fd req a w rv w', g_ioctl fd req a w = (rv, w') -> fds w' = fds w /\ events w' = events w;
    event_law : forall fd buf w rv buf' w', g_event fd buf w = (rv, (buf', w')) ->
      fds w' = fds w /\ zlen buf' = zlen buf /\ if rv <? 0 then events w' = events w else (events w' < events w)%nat;
    sleep_law : forall n w, fds (g_sleep n w) = fds w /\ events (g_sleep n w) = events w }.

Section Balance.
Context {W : Type} `{!Gadget W} `{!GadgetLaws W}.

(** No descriptor opened or closed, no event taken. *)
Definition same (w w' : W) : Prop := fds w' = fds w /\ events w' = events w.

Lemma same_refl w : same w w.
Proof. done. Qed.
Lemma same_trans w1 w2 w3 : same w1 w2 -> same w2 w3 -> same w1 w3.
Proof. intros [A B] [C D]. split; congruence. Qed.
Lemma same_ioctl fd req a w : same w (snd (g_ioctl fd req a w)).
Proof. destruct (g_ioctl fd req a w) as [rv w'] eqn:E. by apply ioctl_law in E. Qed.

Lemma same_disable fd l w : same w (disable_eps fd l w).
Proof.
  revert w. induction l as [|e l IH]; intros w; [apply same_refl|]. cbn [disable_eps foldl].
  eapply same_trans; [|apply IH]. destruct (0 <=? handle e); [apply same_ioctl|apply same_refl].
Qed.

Lemma same_enable fd l w : same w (snd (enable_eps fd l w)).
Proof.
  revert w. induction l as [|e l IH]; intros w; [apply same_refl|]. cbn [enable_eps].
  pose proof (same_ioctl fd USB_RAW_IOCTL_EP_ENABLE (GBytes (desc e)) w) as H. unfold usb_raw_ep_enable.
  destruct (g_ioctl _ _ _ w) as [rv w1]. specialize (IH w1). destruct (enable_eps fd l w1) as [l' w2]. cbn [snd] in *. by eapply same_trans.
Qed.

Lemma same_set_interface fd ix n w :
  same w (snd (set_interface fd ix n w)) /\ dev (fst (set_interface fd ix n w)) = dev ix.
Proof.
  unfold set_interface. set (w1 := match get (ifaces ix) (iface_cur ix) with Some f => _ | None => w end).
  assert (same w w1) as H1 by (subst w1; destruct (get (ifaces ix) (iface_cur ix)); [apply same_disable|apply same_refl]).
  clearbody w1. destruct (get (ifaces ix) n) as [f|]; [|by split].
  pose proof (same_enable fd (eps f) w1) as H2. destruct (enable_eps fd (eps f) w1) as [l w2]. split; [by eapply same_trans|done].
Qed.

Lemma same_configure fd ix w rv ix' w' : configure_device fd ix w = (rv, (ix', w')) -> same w w' /\ dev ix' = dev ix.
Proof.
  unfold configure_device, usb_raw_vbus_draw, usb_raw_configure. pose proof (same_ioctl fd USB_RAW_IOCTL_VBUS_DRAW (GWord (b_max_power ix)) w) as H1.
  destruct (g_ioctl _ _ _ w) as [r1 w1]. destruct (r1 <? 0); [by intros [= <- <- <-]|].
  pose proof (same_ioctl fd USB_RAW_IOCTL_CONFIGURE (GWord 0) w1) as H2. destruct (g_ioctl _ _ _ w1) as [r2 w2]. cbn [snd] in *.
  pose proof (same_trans _ _ _ H1 H2) as H3. destruct (r2 <? 0); [by intros [= <- <- <-]|].
  destruct (same_set_interface fd ix 0 w2) as [H4 H5]. destruct (set_interface fd ix 0 w2) as [ix1 w3]. intros [= <- <- <-].
  split; [by eapply same_trans|done].
Qed.

(** One descriptor more than in [F]. *)
Definition connected (F : gset Z) (fd : Z) (w : W) : Prop := fds w = {[fd]} ∪ F /\ fd ∉ F.

(** The results of [syz_usb_connect] from [n] events on. *)
Definition settled (F : gset Z) (n : nat) (r : (Z + UsbDevice) * W) : Prop :=
  (events (snd r) <= n)%nat /\ match fst r with inl _ => fds (snd r) = F | inr d => connected F (fd d) (snd r) end.

Lemma settled_bail F fd e w n : connected F fd w -> (events w <= n)%nat -> settled F n (bail fd e w).
Proof.
  intros [H Hn] Hev. unfold bail, settled. destruct (g_close fd w) as [rv w'] eqn:E. apply close_law in E as [E E']. cbn [fst snd].
  rewrite E, E', H. split; [done|].
  apply set_eq. intros x. rewrite elem_of_difference, elem_of_union, elem_of_singleton. split; [tauto|].
  intros Hx. split; [by right|]. by intros ->.
Qed.

Lemma connected_same F fd w w' : connected F fd w -> same w w' -> connected F fd w'.
Proof. intros [A B] [C _]. split; [congruence|done]. Qed.

Lemma wp_event_fetch fd w (Q : option (Z * list Z) * W -> Prop) F :
  (forall ev w', fds w' = fds w ->
     match ev with Some (_, d) => zlen d = 8 /\ (events w' < events w)%nat | None => events w' = events w end -> Q (ev, w')) ->
  wp (usb_raw_event_fetch fd w) Q F.
Proof.
  intros H. unfold usb_raw_event_fetch. destruct (g_event fd _ w) as [rv [buf w']] eqn:E. apply event_law in E as (Ef & El & Ee).
  change (zlen (replicate 4 0 ++ le_bytes 4 64 ++ replicate 64 0)) with 72 in El. destruct (rv <? 0); [by apply H|].
  destruct (slice_Done buf 0 4) as (b & -> & _); [lia|lia|]. destruct (slice_Done buf 8 16) as (c & -> & Hc); [lia|lia|].
  apply H; [done|]. by split.
Qed.

Lemma wp_connect_step F fd ix w : zlen (dev ix) = DEV_LEN -> connected F fd w ->
  wp (connect_step fd (ix, w)) (fun c => match c with
    | Next (ix', w') => zlen (dev ix') = DEV_LEN /\ connected F fd w' /\ (events w' < events w)%nat
    | Stop r => settled F (events w) r end) False.
Proof.
  intros Hd Hc. unfold connect_step. apply wp_bind, wp_event_fetch. intros ev w1 Ef Hev.
  assert (connected F fd w1) as Hc1 by (destruct Hc as [A B]; split; [congruence|done]).
  destruct ev as [[ty d]|]; [|apply (settled_bail F); [done|lia]]. destruct Hev as [Hl He].
  destruct (negb (ty =? USB_RAW_EVENT_CONTROL)); [done|].
  destruct (ctrl_total d Hl) as [c ->]. cbn [mbind outcome_bind].
  set (sc := is_standard c && _). apply wp_bind.
  eapply (wp_mono _ (fun _ => True) _ False); [|intros r _|done].
  { destruct (dir_in c); [|done]. by destruct (lookup_total ix c Hd) as [r ->]. }
  destruct r as [resp|].
  2: { cbn. unfold usb_raw_ep0_stall. pose proof (same_ioctl fd USB_RAW_IOCTL_EP0_STALL (GWord 0) w1) as [H1 H2].
       split_and!; [done| |by rewrite H2]. by eapply connected_same. }
  assert (forall rv ix2 w2, (if sc then configure_device fd ix w1 else (0, (ix, w1))) = (rv, (ix2, w2)) -> same w1 w2 /\ dev ix2 = dev ix) as Hcfg.
  { intros rv ix2 w2. destruct sc; [apply same_configure|]. by intros [= <- <- <-]. }
  destruct (if sc then _ else _) as [rv [ix2 w2]]. destruct (Hcfg _ _ _ eq_refl) as [Hs Hd2].
  assert (connected F fd w2) as Hc2 by (by eapply connected_same).
  assert (events w2 <= events w)%nat as He2 by (destruct Hs as [_ E1]; lia).
  destruct (rv <? 0); [by apply (settled_bail F)|]. unfold usb_raw_ep0_io.
  pose proof (same_ioctl fd (if dir_in c then USB_RAW_IOCTL_EP0_WRITE else USB_RAW_IOCTL_EP0_READ)
    (GBytes ([0; 0; 0; 0] ++ le_bytes 4 (Z.min (zlen (take (Z.to_nat (w_length c)) resp)) USB_MAX_PACKET_SIZE) ++
      take (Z.to_nat (Z.min (zlen (take (Z.to_nat (w_length c)) resp)) USB_MAX_PACKET_SIZE)) (take (Z.to_nat (w_length c)) resp))) w2) as Hs3.
  destruct (g_ioctl _ _ _ w2) as [rv3 w3]. cbn [snd] in Hs3.
  assert (connected F fd w3) as Hc3 by (by eapply connected_same).
  assert (events w3 <= events w)%nat as He3 by (destruct Hs3 as [_ E2]; lia).
  destruct (rv3 <? 0); [by apply (settled_bail F)|]. destruct (negb (dir_in c) && sc); cbn.
  - destruct (sleep_law 200 w3) as [S1 S2]. split; cbn [fst snd]; [lia|]. eapply connected_same; [done|by split].
  - split_and!; [congruence|done|]. destruct Hs as [_ E1], Hs3 as [_ E2]. lia.
Qed.

Lemma wp_connect fuel speed blob procid (w : W) : bytes_ok blob -> (events w < fuel)%nat ->
  wp (syz_usb_connect fuel speed blob procid w) (settled (fds w) (events w)) False.
Proof.
  intros Hb Hf. unfold syz_usb_connect. apply wp_bind. eapply wp_mono; [by apply parse_total| |done]. intros [ix|]; [|done]. intros [Hd _].
  unfold usb_raw_open. destruct (g_open _ w) as [fd w1] eqn:E1. apply open_law in E1 as [Ee1 E1].
  destruct (fd <? 0); [split; cbn [fst snd]; [lia|done]|]. assert (connected (fds w) fd w1) as Hc1 by done.
  unfold usb_raw_init. set (a1 := GBytes _). pose proof (same_ioctl fd USB_RAW_IOCTL_INIT a1 w1) as S1.
  destruct (g_ioctl fd USB_RAW_IOCTL_INIT a1 w1) as [rv w2]. cbn [snd] in S1. set (a2 := GBytes _).
  assert (forall rv' w3, (if (rv <? 0) && negb (procid =? 0) then g_ioctl fd USB_RAW_IOCTL_INIT a2 w2 else (rv, w2)) = (rv', w3) -> same w2 w3) as S2.
  { intros rv' w3. destruct (_ && _); [|by intros [= _ <-]]. intros E. pose proof (same_ioctl fd USB_RAW_IOCTL_INIT a2 w2) as S. by rewrite E in S. }
  destruct (if _ && _ then _ else _) as [rv' w3]. specialize (S2 _ _ eq_refl). pose proof (same_trans _ _ _ S1 S2) as S12.
  pose proof (connected_same _ _ _ _ Hc1 S12) as Hc3. assert (events w3 <= events w)%nat as He3 by (destruct S12 as [_ ?]; lia).
  destruct (rv' <? 0); [by apply settled_bail|].
  unfold usb_raw_run. pose proof (same_ioctl fd USB_RAW_IOCTL_RUN (GWord 0) w3) as S3. destruct (g_ioctl _ _ _ w3) as [rv4 w4]. cbn [snd] in S3.
  pose proof (connected_same _ _ _ _ Hc3 S3) as Hc4. assert (events w4 <= events w)%nat as He4 by (destruct S3 as [_ ?]; lia).
  destruct (rv4 <? 0); [by apply settled_bail|].
  apply (wp_loop (fun s => zlen (dev (fst s)) = DEV_LEN /\ connected (fds w) fd (snd s) /\ (events (snd s) <= events w)%nat)
    (fun s => Z.of_nat (events (snd s)))).
  - intros [ix' w'] (Hd' & Hc' & He'). cbn [fst snd] in *. eapply wp_mono; [by apply wp_connect_step| |done].
    intros [[ix2 w5]|r]; [|intros [? ?]; split; [lia|done]]. cbn [fst snd]. intros (? & ? & ?). split_and!; [done..|lia|lia|lia].
  - by split_and!.
  - cbn [snd]. lia.
Qed.

(** Connecting a device leaks nothing and ends.  For any blob, whatever
    the driver answers and whatever requests the USB host makes before the
    watchdog, [syz_usb_connect] returns; when it fails the process has the open
    descriptors it had before, and when it succeeds exactly one more, the
    device's. *)
Theorem connect_balanced fuel speed blob procid (w : W) : bytes_ok blob -> (events w < fuel)%nat ->
  exists r w', syz_usb_connect fuel speed blob procid w = Done (r, w') /\
    match r with inl _ => fds w' = fds w | inr d => fds w' = {[fd d]} ∪ fds w /\ fd d ∉ fds w end.
Proof.
  intros Hb Hf. pose proof (wp_connect fuel speed blob procid w Hb Hf) as H. unfold wp in H.
  destruct (syz_usb_connect _ _ _ _ _) as [[r w']| | |]; try done. exists r, w'. split; [done|]. destruct H as [_ H]. by destruct r.
Qed.
End Balance.

(** * Indexing an encoded device *)

(** A descriptor after the device and configuration descriptors. *)
Inductive Item : Type :=
  | ItEndpoint (body : list Z)
  | ItOther (ty : Z) (body : list Z).

(** An interface: number, alternate setting, the rest of its descriptor, and
    the descriptors up to the next interface. *)
Record IfaceD : Type := MkIfaceD { d_num : Z; d_alt : Z; d_rest : list Z; d_items : list Item }.

Definition encode_item (it : Item) : list Z :=
  match it with ItEndpoint b => [2 + zlen b; USB_DT_ENDPOINT] ++ b | ItOther ty b => [2 + zlen b; ty] ++ b end.
Definition encode_iface (i : IfaceD) : list Z :=
  ([4 + zlen (d_rest i); USB_DT_INTERFACE; d_num i; d_alt i] ++ d_rest i) ++ concat (encode_item <$> d_items i).

(** What the index has of them. *)
Definition item_ep (it : Item) : option EpIndex :=
  match it with ItEndpoint b => Some (MkEp (padded 9 (encode_item it)) (-1)) | ItOther _ _ => None end.
Definition indexed (i : IfaceD) : IfaceIndex := MkIface (d_num i) (d_alt i) (omap item_ep (d_items i)).

Definition item_ok (it : Item) : Prop :=
  match it with
  | ItEndpoint b => 0 < zlen b <= 253
  | ItOther ty b => 0 < zlen b <= 253 /\ ty <> USB_DT_INTERFACE /\ ty <> USB_DT_ENDPOINT
  end.
Definition iface_ok (i : IfaceD) : Prop := 5 <= zlen (d_rest i) <= 251 /\ Forall item_ok (d_items i).

Lemma padded_take n b : padded n b = take n b ++ replicate (n - length (take n b)) 0.
Proof. unfold padded. rewrite take_app, take_replicate, length_take. do 2 f_equal. lia. Qed.

(** One descriptor [n; ty; ...] of [n] bytes. *)
Lemma desc_step_at pre n ty body post l : n = 2 + zlen body -> 3 <= n ->
  desc_step (pre ++ (n :: ty :: body) ++ post) (zlen pre, l) =
  (l ← (if (ty =? USB_DT_INTERFACE) && (9 <=? n) then a ← idx (body ++ post) 0; b ← idx (body ++ post) 1; Done (l ++ [MkIface a b []]) else Done l);
   Done (Next (zlen pre + n, if (ty =? USB_DT_ENDPOINT) && negb (bool_decide (l = [])) then push_ep l (MkEp (padded 9 (n :: ty :: body)) (-1)) else l))).
Proof.
  intros Hn H3. unfold desc_step. pose proof (zlen_nonneg post). pose proof (zlen_nonneg body). pose proof (zlen_nonneg pre).
  rewrite !zlen_app, !zlen_cons. rewrite (proj2 (Z.ltb_lt _ _)) by lia.
  assert (forall k, 0 <= k -> idx (pre ++ (n :: ty :: body) ++ post) (zlen pre + k) = idx ((n :: ty :: body) ++ post) k) as Hi
    by (intros k Hk; unfold idx; by rewrite get_app_r).
  pose proof (Hi 0 ltac:(lia)) as Hi0. rewrite Z.add_0_r in Hi0. rewrite Hi0, !Hi by lia.
  assert (idx ((n :: ty :: body) ++ post) 0 = Done n) as -> by done. assert (idx ((n :: ty :: body) ++ post) 1 = Done ty) as -> by (unfold idx; cbn [app]; by rewrite !get_cons).
  cbn [mbind outcome_bind]. rewrite (proj2 (Z.leb_gt n 2)) by lia. rewrite (proj2 (Z.ltb_ge (zlen pre + (1 + (1 + zlen body) + zlen post)) _)) by lia. cbn [orb].
  assert (idx ((n :: ty :: body) ++ post) 2 = idx (body ++ post) 0) as -> by (unfold idx; cbn [app]; by rewrite !get_cons).
  assert (idx ((n :: ty :: body) ++ post) 3 = idx (body ++ post) 1) as -> by (unfold idx; cbn [app]; by rewrite !get_cons).
  destruct ((ty =? USB_DT_INTERFACE) && (9 <=? n)) eqn:E; cbn [mbind outcome_bind].
  - apply andb_prop in E as [->%Z.eqb_eq _]. destruct (idx (body ++ post) 0); [|done..]. by destruct (idx (body ++ post) 1).
  - destruct (_ && negb _); [|done]. cbn [mbind outcome_bind].
    assert (slice (pre ++ (n :: ty :: body) ++ post) (zlen pre) (zlen pre + Z.min n 9) = Some (take 9 (n :: ty :: body))) as ->.
    { rewrite <- (take_drop 9 (n :: ty :: body)) at 1. rewrite <- app_assoc. apply slice_at; [done|]. f_equal.
      unfold zlen in *. rewrite length_take. simpl length. lia. }
    cbn [or_panic mbind outcome_bind]. by rewrite padded_take.
Qed.

Lemma push_ep_last l f e : push_ep (l ++ [f]) e = l ++ [MkIface (b_interface_number f) (b_alternate_setting f) (eps f ++ [e])].
Proof.
  unfold push_ep. rewrite length_app. simpl length. rewrite alter_app_r_alt by lia. by replace (pred (length l + 1) - length l)%nat with 0%nat by lia.
Qed.

(** The step over an encoded descriptor of a whole buffer. *)
Lemma desc_step_in buf pre n ty body post l : buf = pre ++ (n :: ty :: body) ++ post -> n = 2 + zlen body -> 3 <= n -> ty <> USB_DT_INTERFACE ->
  desc_step buf (zlen pre, l) =
  Done (Next (zlen pre + n, if (ty =? USB_DT_ENDPOINT) && negb (bool_decide (l = [])) then push_ep l (MkEp (padded 9 (n :: ty :: body)) (-1)) else l)).
Proof. intros -> Hn H3 Ht. rewrite desc_step_at by done. by rewrite (proj2 (Z.eqb_neq _ _) Ht). Qed.

Definition with_eps (f : IfaceIndex) (l : list EpIndex) : IfaceIndex := MkIface (b_interface_number f) (b_alternate_setting f) (eps f ++ l).

Lemma items_loop items buf pre post l f fuel : Forall item_ok items -> buf = pre ++ concat (encode_item <$> items) ++ post ->
  loop (length items + fuel) (desc_step buf) (zlen pre, l ++ [f]) =
  loop fuel (desc_step buf) (zlen (pre ++ concat (encode_item <$> items)), l ++ [with_eps f (omap item_ep items)]).
Proof.
  intros H. revert pre f. induction H as [|it items Hit _ IH]; intros pre f Hb; cbn [fmap list_fmap concat] in *.
  - rewrite app_nil_r. unfold with_eps. cbn [omap list_omap]. rewrite app_nil_r. by destruct f.
  - cbn [length Nat.add]. rewrite loop_S. rewrite <- app_assoc in Hb.
    assert (Hb2 := Hb). rewrite (app_assoc pre) in Hb2. specialize (IH (pre ++ encode_item it)). rewrite !app_assoc.
    assert (l ++ [f] <> []) as Hne by (by destruct l).
    destruct it as [b|ty b]; cbn [encode_item item_ok item_ep omap list_omap] in *.
    + rewrite (desc_step_in buf pre (2 + zlen b) USB_DT_ENDPOINT b _ _ Hb) by (lia || done). cbn [mbind outcome_bind].
      rewrite (bool_decide_false _ Hne). cbn [Z.eqb negb andb USB_DT_ENDPOINT Pos.eqb]. rewrite push_ep_last.
      replace (zlen pre + (2 + zlen b)) with (zlen (pre ++ [2 + zlen b; USB_DT_ENDPOINT] ++ b)) by (rewrite !zlen_app; unfold zlen; simpl length; lia).
      rewrite IH by done. do 3 f_equal. unfold with_eps. cbn [eps b_interface_number b_alternate_setting]. by rewrite <- app_assoc.
    + rewrite (desc_step_in buf pre (2 + zlen b) ty b _ _ Hb) by (lia || tauto). cbn [mbind outcome_bind].
      rewrite (proj2 (Z.eqb_neq ty USB_DT_ENDPOINT)) by tauto. cbn [andb].
      replace (zlen pre + (2 + zlen b)) with (zlen (pre ++ [2 + zlen b; ty] ++ b)) by (rewrite !zlen_app; unfold zlen; simpl length; lia).
      by rewrite IH.
Qed.

Lemma ifaces_loop ifs buf pre l fuel : Forall iface_ok ifs -> buf = pre ++ concat (encode_iface <$> ifs) ->
  loop (sum_list_with (fun i => S (length (d_items i))) ifs + S fuel) (desc_step buf) (zlen pre, l) = Done (l ++ (indexed <$> ifs)).
Proof.
  intros H. revert pre l. induction H as [|i ifs [Hr Hi] _ IH]; intros pre l Hb; cbn [fmap list_fmap concat sum_list_with] in *.
  - rewrite !app_nil_r in *. subst. cbn [Nat.add loop]. unfold desc_step. by rewrite (proj2 (Z.ltb_ge _ _)) by lia.
  - unfold encode_iface at 1 in Hb. cbn [Nat.add]. rewrite loop_S.
    set (hd := [4 + zlen (d_rest i); USB_DT_INTERFACE; d_num i; d_alt i] ++ d_rest i) in *.
    assert (desc_step buf (zlen pre, l) = Done (Next (zlen (pre ++ hd), l ++ [MkIface (d_num i) (d_alt i) []]))) as ->.
    { rewrite Hb, <- (app_assoc hd). change hd with (4 + zlen (d_rest i) :: USB_DT_INTERFACE :: d_num i :: d_alt i :: d_rest i).
      rewrite desc_step_at by (rewrite ?zlen_cons; lia). rewrite (proj2 (Z.leb_le 9 _)) by lia. unfold idx.
      cbn [app andb Z.eqb USB_DT_INTERFACE USB_DT_ENDPOINT Pos.eqb]. rewrite !get_cons. cbn. change (1 - 1 =? 0) with true. cbn.
      rewrite zlen_app, !zlen_cons. do 4 f_equal. lia. }
    cbn [mbind outcome_bind].
    rewrite <- Nat.add_assoc, (items_loop (d_items i) buf (pre ++ hd) (concat (encode_iface <$> ifs))) by (done || by rewrite Hb, <- !app_assoc).
    rewrite IH by (rewrite Hb, <- !app_assoc; done). rewrite <- app_assoc. done.
Qed.

Lemma rounds_le ifs : (sum_list_with (fun i => S (length (d_items i))) ifs <= length (concat (encode_iface <$> ifs)))%nat.
Proof.
  induction ifs as [|i ifs IH]; [done|]. cbn [sum_list_with fmap list_fmap concat]. rewrite length_app.
  assert (length (d_items i) <= length (concat (encode_item <$> d_items i)))%nat as H.
  { clear. induction (d_items i) as [|it l IH]; [done|]. cbn [fmap list_fmap concat length]. rewrite length_app. destruct it; cbn; lia. }
  unfold encode_iface at 1. rewrite !length_app. simpl length. lia.
Qed.

(** * The properties of the index *)

(** C29: A connect blob is indexed as its device says.  For a device
    descriptor of 18 bytes, a configuration descriptor of 9 and any list of
    interfaces with their endpoints and class descriptors, the index has the two
    descriptors, the power of the configuration and, in order, exactly the
    interfaces with their numbers and exactly their endpoints, each cut or padded
    to nine bytes and disabled. *)
Theorem parse_encoded_device dbody cbody ifs : length dbody = 16%nat -> length cbody = 7%nat -> Forall iface_ok ifs ->
  let d := [18; USB_DT_DEVICE] ++ dbody in
  let c := [9; USB_DT_CONFIG] ++ cbody in
  parse_usb_descriptor (d ++ c ++ concat (encode_iface <$> ifs)) =
  Done (Some (MkDevice d (c ++ concat (encode_iface <$> ifs)) (nth 6 cbody 0) (indexed <$> ifs) (-1))).
Proof.
  intros Hd Hc Hi. set (rest := concat (encode_iface <$> ifs)). intros d c. unfold parse_usb_descriptor.
  assert (zlen d = 18) as Zd by (unfold zlen, d; rewrite length_app, Hd; done).
  assert (zlen c = 9) as Zc by (unfold zlen, c; rewrite length_app, Hc; done).
  pose proof (zlen_nonneg rest). rewrite (proj2 (Z.ltb_ge _ _)) by (rewrite !zlen_app, Zd, Zc; unfold DEV_LEN, CFG_LEN; lia).
  rewrite (slice_at [] d (c ++ rest) 0 DEV_LEN ltac:(done) ltac:(by rewrite Zd) : slice (d ++ c ++ rest) 0 DEV_LEN = Some d). cbn [or_panic mbind outcome_bind].
  rewrite (proj2 (slice_from_Some (d ++ c ++ rest) DEV_LEN (c ++ rest))).
  2: { split; [rewrite zlen_app, Zd; rewrite zlen_app; unfold DEV_LEN; lia|]. unfold DEV_LEN. replace (Z.to_nat 18) with (length d) by (unfold zlen in Zd; lia). by rewrite drop_app_length. }
  cbn [or_panic mbind outcome_bind].
  assert (idx (d ++ c ++ rest) (DEV_LEN + 8) = Done (nth 6 cbody 0)) as ->.
  { unfold idx. change DEV_LEN with 18. rewrite <- Zd, get_app_r by lia. rewrite get_app_l by lia. unfold c.
    do 8 (destruct cbody as [|? cbody]; try discriminate). reflexivity. }
  cbn [mbind outcome_bind].
  enough (loop (S (length (d ++ c ++ rest))) (desc_step (d ++ c ++ rest)) (0, []) = Done (indexed <$> ifs)) as -> by done.
  eapply (loop_mono _ (S (S (sum_list_with (fun i => S (length (d_items i))) ifs + 1)))).
  - pose proof (rounds_le ifs) as Hr. fold rest in Hr. rewrite !length_app. unfold zlen in Zd, Zc. lia.
  - rewrite loop_S. pose proof (desc_step_in (d ++ c ++ rest) [] 18 USB_DT_DEVICE dbody (c ++ rest) []) as E1. cbn [app] in E1.
    change (zlen []) with 0 in E1. unfold zlen in E1 at 1. rewrite E1 by (rewrite ?Hd; done || lia). cbn [mbind outcome_bind andb Z.eqb USB_DT_DEVICE USB_DT_ENDPOINT Pos.eqb].
    rewrite loop_S. pose proof (desc_step_in (d ++ c ++ rest) d 9 USB_DT_CONFIG cbody rest []) as E2.
    rewrite Zd in E2. change (0 + 18) with 18. rewrite E2 by (unfold zlen; rewrite ?Hc; done || lia). cbn [mbind outcome_bind andb Z.eqb USB_DT_CONFIG USB_DT_ENDPOINT Pos.eqb].
    replace (18 + 9) with (zlen (d ++ c)) by (rewrite zlen_app; lia).
    apply (ifaces_loop ifs _ (d ++ c) [] 0 Hi). by rewrite <- app_assoc.
Qed.

(** * A driver that grants every request

    Its descriptors, the events it has yet to send, the number it answers a
    request with - any function of the requests so far, the last one included -
    and what it was asked, in order. *)

Inductive Call : Type :=
  | COpen (path : list Z)
  | CClose (fd : Z)
  | CIoctl (fd req : Z) (a : GadgetArg)
  | CSleep (ms : Z).

Record Bus : Type := MkBus { b_fds : gset Z; b_events : list (Z * list Z); b_rv : list Call -> Z; b_log : list Call }.

Definition next_fd (X : gset Z) : Z := 3 + foldr Z.max 0 (elements X).
(** [new] laid over the start of [old]. *)
Definition overlay (new old : list Z) : list Z := take (length old) (new ++ drop (length new) old).
Definition bus_add (w : Bus) (l : list Call) : Bus := MkBus (b_fds w) (b_events w) (b_rv w) (b_log w ++ l).

#[export] Instance bus_gadget : Gadget Bus :=
  {| g_open path w := let fd := next_fd (b_fds w) in (fd, MkBus ({[fd]} ∪ b_fds w) (b_events w) (b_rv w) (b_log w ++ [COpen path]));
     g_close fd w := (0, MkBus (b_fds w ∖ {[fd]}) (b_events w) (b_rv w) (b_log w ++ [CClose fd]));
     g_ioctl fd req a w := let log := b_log w ++ [CIoctl fd req a] in (b_rv w log, bus_add w [CIoctl fd req a]);
     g_event _ buf w :=
       match b_events w with
       | [] => (-1, (buf, w))
       | (ty, d) :: rest => (0, (overlay (le_bytes 4 ty ++ le_bytes 4 (zlen d) ++ d) buf, MkBus (b_fds w) rest (b_rv w) (b_log w)))
       end;
     g_sleep ms w := bus_add w [CSleep ms] |}.

Lemma next_fd_spec X : 0 <= next_fd X /\ next_fd X ∉ X.
Proof.
  unfold next_fd. assert (forall l : list Z, 0 <= foldr Z.max 0 l /\ forall x, x ∈ l -> x <= foldr Z.max 0 l) as H.
  { induction l as [|y l [H1 H2]]; cbn [foldr]; [split; [done|]; by intros x Hx%elem_of_nil|].
    split; [lia|]. intros x [->|Hx]%elem_of_cons; [lia|]. specialize (H2 x Hx). lia. }
  destruct (H (elements X)) as [H1 H2]. split; [lia|]. intros Hx%elem_of_elements%H2. lia.
Qed.

#[export] Instance bus_laws : GadgetLaws Bus.
Proof.
  refine {| fds := b_fds; events w := length (b_events w) |}.
  - intros p w fd w'. cbn. intros [= <- <-]. cbn. split; [done|]. destruct (next_fd_spec (b_fds w)) as [H1 H2].
    by rewrite (proj2 (Z.ltb_ge _ _)) by done.
  - by intros fd w rv w' [= <- <-].
  - by intros fd req a w rv w' [= <- <-].
  - intros fd buf w rv buf' w'. cbn. destruct (b_events w) as [|[ty d] rest] eqn:E; intros [= <- <- <-]; cbn.
    + by rewrite E.
    + split_and!; [done| |lia]. unfold zlen, overlay. rewrite length_take, length_app, length_drop. lia.
  - done.
Defined.

(** * What the protocol asks for

    Chapter 9 of the USB specification on the eight bytes of a set-up packet,
    and the numbers of linux/usb/raw_gadget.h. *)

(** The driver's requests. *)
Definition ep0_write (fd : Z) (data : list Z) : Call := CIoctl fd 0x40085503 (GBytes ([0; 0; 0; 0] ++ le_bytes 4 (zlen data) ++ data)).
Definition ep0_ack (fd : Z) : Call := CIoctl fd 0xc0085504 (GBytes [0; 0; 0; 0; 0; 0; 0; 0]).
Definition ep0_stall (fd : Z) : Call := CIoctl fd 0x550c (GWord 0).
Definition ep_enable (fd : Z) (e : EpIndex) : Call := CIoctl fd 0x40095505 (GBytes (desc e)).

(** The descriptor of type [ty] and index [i] of the device a blob holds: its
    device descriptor, everything after it, a string, or the qualifier: the USB
    version, the class, subclass and protocol, the packet size and the number of
    configurations of the device descriptor. *)
Definition descriptor (blob : list Z) (ty i : Z) : option (list Z) :=
  match ty with
  | 1 => Some (take 18 blob)
  | 2 => Some (drop 18 blob)
  | 3 => Some (if i =? 0 then [4; 3; 0x09; 0x04] else [8; 3; 115; 0; 121; 0; 122; 0])
  | 6 => Some ([10; 6] ++ take 6 (drop 2 blob) ++ take 1 (drop 17 blob) ++ [0])
  | _ => None
  end.

(** A standard request is one whose bits 5 and 6 are clear; bit 7 is set in a
    request for data.  GET_DESCRIPTOR is request 6: the type in the high byte of
    the value, the index in its low byte; the last two bytes are the length the
    host has room for.  One transfer is at most 4096 bytes. *)
Definition reply (fd : Z) (blob d : list Z) : Call :=
  match d with
  | [t; 6; i; ty; _; _; l0; l1] =>
      if (128 <=? t) && (t / 32 mod 4 =? 0) then
        match descriptor blob ty i with
        | Some b => ep0_write fd (take 4096 (take (Z.to_nat (l0 + 256 * l1)) b))
        | None => ep0_stall fd
        end
      else ep0_stall fd
  | _ => ep0_stall fd
  end.

(** A standard request without data, number 9. *)
Definition selects (d : list Z) : bool :=
  match d with t :: 9 :: _ => (t <? 128) && (t / 32 mod 4 =? 0) | _ => false end.

(** What the device asks of the driver for one event: nothing, but for a
    control request (type 2). *)
Definition answer (fd : Z) (blob : list Z) (e : Z * list Z) : list Call :=
  if fst e =? 2 then [reply fd blob (snd e)] else [].

(** A set-up packet, and an event of the enumeration before its last. *)
Definition setup_ok (d : list Z) : Prop := zlen d = 8 /\ bytes_ok d.
Definition event_ok (e : Z * list Z) : Prop :=
  0 <= fst e < 2 ^ 32 /\ setup_ok (snd e) /\ (fst e = 2 -> selects (snd e) = false).

(** ** The code's reading of a set-up packet *)

Lemma setup_parts d : setup_ok d -> exists t r v0 v1 i0 i1 l0 l1, d = [t; r; v0; v1; i0; i1; l0; l1] /\
  Forall is_u8 [t; r; v0; v1; i0; i1; l0; l1] /\
  ctrl_parse d = Done (MkCtrl t r (v0 + 256 * v1) (i0 + 256 * i1) (l0 + 256 * l1)).
Proof.
  intros [Hl Hb]. unfold zlen in Hl. do 8 (destruct d as [|? d]; [discriminate|]). destruct d; [|simpl in Hl; lia].
  do 8 eexists. split_and!; [reflexivity|exact Hb|]. change (Done (MkCtrl z z0 (le_val [z1; z2]) (le_val [z3; z4]) (le_val [z5; z6])) = Done (MkCtrl z z0 (z1 + 256 * z2) (z3 + 256 * z4) (z5 + 256 * z6))).
  unfold le_val. by rewrite !Z.mul_0_r, !Z.add_0_r.
Qed.

Lemma byte_in : forall t, is_u8 t -> negb (Z.land t 128 =? 0) = (128 <=? t).
Proof. intros t Ht. apply Bool.eqb_true_iff. by apply (byte_cases (fun t => Bool.eqb (negb (Z.land t 128 =? 0)) (128 <=? t))). Qed.

Lemma byte_standard : forall t, is_u8 t -> (Z.land t 96 =? 0) = (t / 32 mod 4 =? 0).
Proof. intros t Ht. apply Bool.eqb_true_iff. by apply (byte_cases (fun t => Bool.eqb (Z.land t 96 =? 0) (t / 32 mod 4 =? 0))). Qed.

Lemma parse_parts blob ix : parse_usb_descriptor blob = Done (Some ix) ->
  27 <= zlen blob /\ dev ix = take 18 blob /\ config ix = drop 18 blob /\ b_max_power ix = nth 26 blob 0 /\ iface_cur ix = -1.
Proof.
  unfold parse_usb_descriptor, DEV_LEN, CFG_LEN. change (18 + 9) with 27. destruct (Z.ltb_spec (zlen blob) 27); [done|].
  destruct (slice blob 0 18) as [d|] eqn:Ed; [|done]. apply slice_Some in Ed as (_ & _ & ->).
  destruct (slice_from blob 18) as [c|] eqn:Ec; [|done]. apply slice_from_Some in Ec as [_ ->]. cbn [or_panic mbind outcome_bind].
  change (18 + 8) with 26. destruct (idx blob 26) as [p| | |] eqn:Ep; try done. cbn [mbind outcome_bind].
  destruct (loop _ _ _); try done. cbn [mbind outcome_bind]. intros [= <-]. cbn. split_and!; try done; try lia.
  unfold idx in Ep. destruct (get blob 26) as [q|] eqn:E; [|done]. injection Ep as <-. apply get_Some in E as [_ E]. symmetry. by apply (nth_lookup_Some blob 26).
Qed.

(** The lookup gives the descriptor the protocol names. *)
Lemma lookup_descriptor blob ix t i ty wi wl : 27 <= zlen blob -> dev ix = take 18 blob -> config ix = drop 18 blob -> is_u8 t -> is_u8 i -> is_u8 ty ->
  lookup_connect_response_in ix (MkCtrl t 6 (i + 256 * ty) wi wl) = Done (if t / 32 mod 4 =? 0 then descriptor blob ty i else None).
Proof.
  intros Hl Hd Hc Ht Hi Hty. unfold lookup_connect_response_in, is_standard. cbn [b_request_type b_request w_value].
  unfold USB_TYPE_MASK, USB_TYPE_STANDARD, USB_REQ_GET_DESCRIPTOR. rewrite byte_standard by done. destruct (t / 32 mod 4 =? 0); [|done]. cbn [negb Z.eqb Pos.eqb].
  unfold is_u8 in *. assert (as_u8 (Z.shiftr (i + 256 * ty) 8) = ty) as ->.
  { unfold as_u8. rewrite Z.shiftr_div_pow2 by done. change (2 ^ 8) with 256. replace ((i + 256 * ty) / 256) with ty by (apply (Z.div_unique _ _ _ i); lia). by apply Z.mod_small. }
  assert (as_u8 (Z.land (i + 256 * ty) 255) = i) as ->.
  { unfold as_u8. change 255 with (Z.ones 8). rewrite Z.land_ones by done. change (2 ^ 8) with 256.
    rewrite Z.mod_mod by done. symmetry. apply (Z.mod_unique _ _ ty); lia. }
  unfold descriptor, USB_DT_DEVICE, USB_DT_CONFIG, USB_DT_STRING, USB_DT_DEVICE_QUALIFIER, DEFAULT_LANG_ID, DEFAULT_STRING, USB_DT_STRING.
  rewrite Hd, Hc. destruct (Z.eqb_spec ty 1) as [->|]; [done|]. destruct (Z.eqb_spec ty 2) as [->|]; [done|].
  destruct (Z.eqb_spec ty 3) as [->|]; [by destruct (i =? 0)|]. destruct (Z.eqb_spec ty 6) as [->|].
  - rewrite <- (take_drop 18 blob) in Hl. assert (length (take 18 blob) = 18%nat) as H18.
    { rewrite length_take. rewrite take_drop in Hl. unfold zlen in Hl. lia. }
    assert (take 6 (drop 2 blob) = take 6 (drop 2 (take 18 blob))) as -> by (rewrite <- (take_drop 18 blob) at 1; rewrite drop_app_le, take_app_le by (rewrite ?length_drop; lia); done).
    assert (take 1 (drop 17 blob) = drop 17 (take 18 blob)) as -> by (rewrite skipn_firstn_comm; done).
    clear Hl Hd Hc. remember (take 18 blob) as x eqn:Ex. clear Ex. do 18 (destruct x as [|? x]; [discriminate|]). destruct x; [|discriminate]. reflexivity.
  - destruct ty as [|[[[]|[]|]|[[]|[]|]|]|]; try done; lia.
Qed.

Lemma ep0_write_io fd b (w : Bus) : usb_raw_ep0_io fd true b w = (b_rv w (b_log w ++ [ep0_write fd (take 4096 b)]), bus_add w [ep0_write fd (take 4096 b)]).
Proof.
  unfold usb_raw_ep0_io, ep0_write, USB_MAX_PACKET_SIZE. cbn [g_ioctl bus_gadget].
  assert (Z.min (zlen b) 4096 = zlen (take 4096 b)) as E by (unfold zlen; rewrite length_take; lia). rewrite E.
  assert (take (Z.to_nat (zlen (take 4096 b))) b = take 4096 b) as ->; [|reflexivity].
  unfold zlen. rewrite Nat2Z.id, length_take. destruct (Nat.min_spec 4096 (length b)) as [[? ->]|[? ->]]; [done|]. by rewrite !take_ge by lia.
Qed.

Lemma bus_fetch fd ty d rest (w : Bus) : b_events w = (ty, d) :: rest -> 0 <= ty < 2 ^ 32 -> zlen d = 8 ->
  usb_raw_event_fetch fd w = Done (Some (ty, d), MkBus (b_fds w) rest (b_rv w) (b_log w)).
Proof.
  intros E Ht Hd. unfold usb_raw_event_fetch. cbn [g_event bus_gadget]. rewrite E. cbn [Z.ltb Z.compare].
  set (old := replicate 4 0 ++ le_bytes 4 64 ++ replicate 64 0).
  assert (overlay (le_bytes 4 ty ++ le_bytes 4 (zlen d) ++ d) old = le_bytes 4 ty ++ le_bytes 4 (zlen d) ++ d ++ replicate 56 0) as ->.
  { unfold overlay. rewrite !length_app, !length_le_bytes. replace (length d) with 8%nat by (unfold zlen in Hd; lia).
    change (drop (4 + (4 + 8)) old) with (replicate 56 0). rewrite <- !app_assoc. apply take_ge. rewrite !length_app, !length_le_bytes. unfold zlen in Hd. simpl. lia. }
  rewrite (slice_at [] (le_bytes 4 ty) (le_bytes 4 (zlen d) ++ d ++ replicate 56 0) 0 4 eq_refl eq_refl : slice (le_bytes 4 ty ++ _) 0 4 = _).
  cbn [or_panic mbind outcome_bind].
  pose proof (slice_at (le_bytes 4 ty ++ le_bytes 4 (zlen d)) d (replicate 56 0) 8 16) as H. rewrite <- app_assoc in H.
  rewrite H by (rewrite ?Hd; done). cbn [or_panic mbind outcome_bind]. by rewrite le_val_le_bytes, Z.mod_small by lia.
Qed.

(** A driver that refuses no request. *)
Definition grants (w : Bus) : Prop := forall l, 0 <= b_rv w l.

Lemma grants_ok (w : Bus) l : grants w -> (b_rv w l <? 0) = false.
Proof. intros H. apply Z.ltb_ge, H. Qed.

Lemma connect_step_answer fd blob ix e rest (w : Bus) : parse_usb_descriptor blob = Done (Some ix) -> grants w -> b_events w = e :: rest -> event_ok e ->
  connect_step fd (ix, w) = Done (Next (ix, MkBus (b_fds w) rest (b_rv w) (b_log w ++ answer fd blob e))).
Proof.
  intros Hp Hg E (Ht & Hd & Hs). destruct (parse_parts blob ix Hp) as (Hl & Hdev & Hcfg & _ & _). destruct e as [ty d]. cbn [fst snd] in *.
  unfold connect_step. rewrite (bus_fetch fd ty d rest w E Ht) by apply Hd. cbn [mbind outcome_bind]. unfold answer. cbn [fst snd].
  change USB_RAW_EVENT_CONTROL with 2. destruct (Z.eqb_spec ty 2) as [->|]; [|by rewrite app_nil_r].
  specialize (Hs eq_refl). cbn [negb]. destruct (setup_parts d Hd) as (t & r & v0 & v1 & i0 & i1 & l0 & l1 & -> & Hu & ->).
  rewrite !Forall_cons in Hu. destruct Hu as (Ut & Ur & U0 & U1 & _ & _ & Ul0 & Ul1 & _). cbn [mbind outcome_bind b_request].
  unfold dir_in, USB_DIR_IN. cbn [b_request_type]. rewrite (byte_in t Ut).
  assert (forall x, is_standard (MkCtrl t x (v0 + 256 * v1) (i0 + 256 * i1) (l0 + 256 * l1)) = (t / 32 mod 4 =? 0)) as Est by (intros x; apply (byte_standard t Ut)).
  rewrite Est. change USB_REQ_SET_CONFIGURATION with 9.
  destruct (Z.eqb_spec r 6) as [->|Hr].
  - cbn [Z.eqb Pos.eqb andb]. rewrite andb_false_r. unfold reply. destruct (Z.leb_spec 128 t) as [Hin|Hin]; cbn [andb mbind outcome_bind]; [|done].
    rewrite (lookup_descriptor blob ix) by done. destruct (t / 32 mod 4 =? 0); [|done]. cbn [mbind outcome_bind].
    destruct (descriptor blob v1 v0) as [b|]; [|done]. cbn [w_length]. rewrite ep0_write_io. by rewrite grants_ok by done.
  - assert (reply fd blob [t; r; v0; v1; i0; i1; l0; l1] = ep0_stall fd) as -> by (unfold reply; destruct r as [|[[[]|[]|]|[[]|[]|]|]|]; done).
    assert (lookup_connect_response_in ix (MkCtrl t r (v0 + 256 * v1) (i0 + 256 * i1) (l0 + 256 * l1)) = Done None) as ->.
    { unfold lookup_connect_response_in. rewrite Est. destruct (t / 32 mod 4 =? 0); [|done]. cbn [negb b_request]. change USB_REQ_GET_DESCRIPTOR with 6. by rewrite (proj2 (Z.eqb_neq _ _) Hr). }
    destruct (Z.leb_spec 128 t) as [Hin|Hin]; cbn [mbind outcome_bind]; [done|].
    assert ((t / 32 mod 4 =? 0) && (r =? 9) = false) as ->; [|done].
    destruct (Z.eqb_spec r 9) as [->|]; [|by rewrite andb_false_r]. unfold selects in Hs. rewrite (proj2 (Z.ltb_lt t 128) Hin) in Hs. cbn [andb] in Hs. by rewrite Hs.
Qed.

Lemma answers_loop evs blob ix fd fuel rest (w : Bus) : parse_usb_descriptor blob = Done (Some ix) -> grants w -> Forall event_ok evs -> b_events w = evs ++ rest ->
  loop (length evs + fuel) (connect_step fd) (ix, w) =
  loop fuel (connect_step fd) (ix, MkBus (b_fds w) rest (b_rv w) (b_log w ++ concat (answer fd blob <$> evs))).
Proof.
  intros Hp Hg H. revert w Hg. induction H as [|e evs He _ IH]; intros w Hg E; cbn [fmap list_fmap concat app length Nat.add] in *.
  - rewrite app_nil_r, <- E. by destruct w.
  - rewrite loop_S, (connect_step_answer fd blob ix e _ w Hp Hg E He). cbn [mbind outcome_bind]. rewrite IH by done. cbn [b_fds b_log b_rv]. by rewrite <- app_assoc.
Qed.

(** Endpoints enabled one after the other: each keeps the number the driver
    answered with. *)
Fixpoint numbered (rv : list Call -> Z) (fd : Z) (log : list Call) (l : list EpIndex) : list EpIndex :=
  match l with
  | [] => []
  | e :: l => let log := log ++ [ep_enable fd e] in MkEp (desc e) (rv log) :: numbered rv fd log l
  end.

Lemma bus_enable fd l (w : Bus) : grants w ->
  enable_eps fd l w = (numbered (b_rv w) fd (b_log w) l, bus_add w (ep_enable fd <$> l)).
Proof.
  revert w. induction l as [|e l IH]; intros w Hg; cbn [enable_eps fmap list_fmap numbered].
  - unfold bus_add. rewrite app_nil_r. by destruct w.
  - unfold usb_raw_ep_enable. cbn [g_ioctl bus_gadget]. rewrite IH by done. unfold bus_add at 2. cbn [b_log b_rv bus_add].
    change (CIoctl fd USB_RAW_IOCTL_EP_ENABLE (GBytes (desc e))) with (ep_enable fd e).
    rewrite (proj2 (Z.leb_le 0 (b_rv w (b_log w ++ [ep_enable fd e]))) (Hg _)). f_equal. unfold bus_add. cbn [b_fds b_events b_log b_rv]. by rewrite <- app_assoc.
Qed.

(** Powering and configuring the device, then enabling interface 0. *)
Definition configure_requests (fd : Z) (ix : DeviceIndex) (power : Z) : list Call :=
  [CIoctl fd 0x4004550a (GWord power); CIoctl fd 0x5509 (GWord 0)] ++ match ifaces ix with f :: _ => ep_enable fd <$> eps f | [] => [] end.

(** The device once the host has configured it. *)
Definition configured (rv : list Call -> Z) (fd : Z) (log : list Call) (ix : DeviceIndex) (power : Z) : DeviceIndex :=
  match ifaces ix with
  | [] => ix
  | f :: l =>
      MkDevice (dev ix) (config ix) (b_max_power ix)
        (MkIface (b_interface_number f) (b_alternate_setting f)
           (numbered rv fd (log ++ [CIoctl fd 0x4004550a (GWord power); CIoctl fd 0x5509 (GWord 0)]) (eps f)) :: l) 0
  end.

Lemma bus_configure fd ix (w : Bus) : grants w -> iface_cur ix = -1 ->
  configure_device fd ix w = (0, (configured (b_rv w) fd (b_log w) ix (b_max_power ix), bus_add w (configure_requests fd ix (b_max_power ix)))).
Proof.
  intros Hg Hc. unfold configure_device, usb_raw_vbus_draw, usb_raw_configure. cbn [g_ioctl bus_gadget bus_add b_rv b_log].
  rewrite !grants_ok by done. unfold set_interface, configured, configure_requests. rewrite Hc.
  destruct ix as [d c p [|f l] cur]; cbn [ifaces dev config b_max_power iface_cur] in *.
  - unfold bus_add. cbn. by rewrite <- app_assoc.
  - rewrite (proj2 (get_None (f :: l) (-1))) by lia. rewrite get_cons. cbn [Z.eqb]. rewrite bus_enable by done.
    unfold bus_add. cbn [b_fds b_events b_log b_rv]. rewrite <- !app_assoc. reflexivity.
Qed.

(** C28: Enumeration answers the USB host as the protocol asks.  When the
    host of an emulated device sends any events, resets and the like among them,
    and then selects a configuration, and the driver refuses nothing - whatever
    numbers it answers with - [syz_usb_connect] returns the device.  It opened
    the raw-gadget node and asked the driver, in order, for the set-up under the
    worker's own controller, one answer per control event - a standard
    GET_DESCRIPTOR with the device descriptor, everything after it, the language
    table or the one string, or the qualifier, cut to the length asked for and to
    one transfer; anything else a stall - then the power the blob states, the
    configuration, the endpoints of interface 0 in order, and the empty answer;
    each endpoint of interface 0 is recorded under the number the driver gave
    it; and no later event was taken. *)
Theorem enumeration_answers speed blob procid evs dset rest ix (w : Bus) :
  bytes_ok blob -> parse_usb_descriptor blob = Done (Some ix) -> grants w -> Forall event_ok evs ->
  setup_ok dset -> selects dset = true -> b_events w = evs ++ (2, dset) :: rest ->
  let fd := next_fd (b_fds w) in
  let power := nth 26 blob 0 in
  let asked := b_log w ++
    [COpen (bs "/dev/raw-gadget");
     CIoctl fd 0x41015500 (GBytes (padded 128 (bs "dummy_udc") ++ padded 128 (take 127 (bs "dummy_udc." ++ fmt_dec procid)) ++ [speed]));
     CIoctl fd 0x5501 (GWord 0)] ++ concat (answer fd blob <$> evs) in
  syz_usb_connect (S (length evs)) speed blob procid w =
  Done (inr (MkUsb fd (configured (b_rv w) fd asked ix power)),
        MkBus ({[fd]} ∪ b_fds w) rest (b_rv w) (asked ++ configure_requests fd ix power ++ [ep0_ack fd; CSleep 200])).
Proof.
  intros Hb Hp Hg Hev Hd Hs E fd power asked. unfold syz_usb_connect. rewrite Hp. cbn [mbind outcome_bind].
  destruct (parse_parts blob ix Hp) as (_ & _ & _ & Hpow & Hcur).
  unfold usb_raw_open. cbn [g_open bus_gadget]. fold fd. rewrite (proj2 (Z.ltb_ge fd 0)) by apply next_fd_spec.
  unfold usb_raw_init, usb_raw_run. cbn [g_ioctl bus_gadget bus_add b_rv b_log]. rewrite !grants_ok by done. cbn [andb]. rewrite !grants_ok by done.
  rewrite <- (Nat.add_1_r (length evs)), (answers_loop evs blob ix fd 1 ((2, dset) :: rest)) by done. cbn [b_fds b_log b_events b_rv bus_add].
  rewrite loop_S. unfold connect_step. erewrite bus_fetch; [|reflexivity|done|apply Hd]. cbn [mbind outcome_bind b_fds b_log b_rv].
  destruct (setup_parts dset Hd) as (t & r & v0 & v1 & i0 & i1 & l0 & l1 & -> & Hu & ->). rewrite !Forall_cons in Hu. destruct Hu as (Ut & _).
  assert (r = 9 /\ t < 128 /\ (t / 32 mod 4 =? 0) = true) as (-> & Ht & Hst).
  { unfold selects in Hs. destruct r as [|[[[[]|[]|]|[[]|[]|]|]|[[[]|[]|]|[[]|[]|]|]|]|]; try done. apply andb_prop in Hs as [?%Z.ltb_lt ?]. done. }
  change USB_RAW_EVENT_CONTROL with 2. cbn [negb Z.eqb Pos.eqb mbind outcome_bind b_request].
  unfold dir_in, USB_DIR_IN, is_standard, USB_TYPE_MASK, USB_TYPE_STANDARD. cbn [b_request_type]. rewrite (byte_in t Ut), (byte_standard t Ut), Hst.
  rewrite (proj2 (Z.leb_gt 128 t)) by lia. change USB_REQ_SET_CONFIGURATION with 9. cbn [Z.eqb Pos.eqb andb mbind outcome_bind].
  rewrite bus_configure by done. cbn [Z.ltb Z.compare negb andb]. rewrite take_nil, Hpow. fold power.
  unfold usb_raw_ep0_io. cbn [g_ioctl bus_gadget bus_add b_rv b_log]. rewrite grants_ok by done. cbn [g_sleep bus_gadget].
  assert (((b_log w ++ [COpen (bs "/dev/raw-gadget")]) ++ [CIoctl fd USB_RAW_IOCTL_INIT (GBytes (padded 128 (bs "dummy_udc") ++ padded 128 (take 127 (bs "dummy_udc." ++ fmt_dec procid)) ++ [speed]))]) ++ [CIoctl fd USB_RAW_IOCTL_RUN (GWord 0)] ++ concat (answer fd blob <$> evs) = asked) as Ea
    by (unfold asked; by rewrite <- !app_assoc).
  rewrite <- app_assoc, Ea. unfold bus_add. cbn [b_fds b_events b_log b_rv]. rewrite <- !app_assoc. reflexivity.
Qed.

(** * A concrete device: one interface with one endpoint, four events *)

Definition demo_iface : IfaceD := MkIfaceD 0 0 [1; 1; 1; 0; 0] [ItOther 0x24 [1; 2]; ItEndpoint [0x81; 3; 8; 0; 4]].
Definition demo_blob : list Z :=
  ([18; USB_DT_DEVICE] ++ [0; 2; 0; 0; 0; 64; 1; 2; 3; 4; 0; 1; 0; 0; 0; 1]) ++ ([9; USB_DT_CONFIG] ++ [36; 0; 1; 1; 0; 0x80; 50]) ++
  concat (encode_iface <$> [demo_iface]).
Definition demo_events : list (Z * list Z) := [(1, replicate 8 0); (2, [0x80; 6; 0; 1; 0; 0; 18; 0]); (2, [0x80; 6; 0; 15; 0; 0; 5; 0])].
(** raw-gadget's numbers: the index of an endpoint, the length of a transfer. *)
Definition enables (c : Call) : bool := match c with CIoctl _ r _ => r =? 0x40095505 | _ => false end.
Definition raw_gadget (log : list Call) : Z :=
  match last log with
  | Some (CIoctl _ req (GBytes a)) =>
      if req =? 0x40095505 then Z.of_nat (length (filter (fun c => enables c = true) log)) - 1
      else if (req =? 0x40085503) || (req =? 0xc0085504) then Z.abs (le_val (take 4 (drop 4 a)))
      else 0
  | _ => 0
  end.
Definition demo_bus : Bus := MkBus {[0]} (demo_events ++ [(2, [0; 9; 1; 0; 0; 0; 0; 0])]) raw_gadget [].

Lemma raw_gadget_grants l : 0 <= raw_gadget l.
Proof.
  unfold raw_gadget. destruct (last l) as [[| |fd req [v|a]|]|] eqn:E; try done. destruct (Z.eqb_spec req 0x40095505) as [->|].
  - apply last_Some in E as [l' ->]. rewrite filter_app, filter_cons_True by done. rewrite length_app. simpl. lia.
  - destruct (_ || _); [lia|done].
Qed.

Lemma parse_encoded_device_witness :
  parse_usb_descriptor demo_blob =
  Done (Some (MkDevice (take 18 demo_blob) (drop 18 demo_blob) 50 [MkIface 0 0 [MkEp [7; 5; 0x81; 3; 8; 0; 4; 0; 0] (-1)]] (-1))).
Proof.
  apply (parse_encoded_device [0; 2; 0; 0; 0; 64; 1; 2; 3; 4; 0; 1; 0; 0; 0; 1] [36; 0; 1; 1; 0; 0x80; 50] [demo_iface]); [done|done|].
  constructor; [|by constructor]. split; [unfold zlen; simpl; lia|].
  constructor; [split_and!; [vm_compute; done|vm_compute; done|discriminate|discriminate]|]. constructor; [split; vm_compute; done|by constructor].
Defined.

Lemma demo_blob_ok : bytes_ok demo_blob.
Proof.
  assert (forallb (fun b => (0 <=? b) && (b <? 256)) demo_blob = true) as H by (vm_compute; reflexivity).
  apply Forall_forall. intros b Hin. rewrite forallb_forall in H. specialize (H b (proj1 (list_elem_of_In _ _) Hin)). unfold is_u8. lia.
Qed.

Lemma connect_balanced_witness :
  exists r w', syz_usb_connect 9 3 demo_blob 0 demo_bus = Done (r, w') /\
    match r with inl _ => fds w' = fds demo_bus | inr d => fds w' = {[fd d]} ∪ fds demo_bus /\ fd d ∉ fds demo_bus end.
Proof. apply (connect_balanced 9 3 demo_blob 0 demo_bus); [exact demo_blob_ok|simpl; lia]. Defined.

Definition demo_index : DeviceIndex := MkDevice (take 18 demo_blob) (drop 18 demo_blob) 50 [MkIface 0 0 [MkEp [7; 5; 0x81; 3; 8; 0; 4; 0; 0] (-1)]] (-1).
Lemma demo_events_ok : Forall event_ok demo_events.
Proof.
  unfold demo_events, event_ok, setup_ok, bytes_ok, is_u8. cbn [fst snd replicate]. repeat constructor; try lia; try reflexivity; try discriminate.
Qed.

Lemma enumeration_answers_witness :
  exists ix w', syz_usb_connect 4 3 demo_blob 0 demo_bus = Done (inr (MkUsb 3 ix), w') /\ b_events w' = [] /\
    nth 3 (b_log w') (CSleep 0) = CIoctl 3 0x40085503 (GBytes ([0; 0; 0; 0; 18; 0; 0; 0] ++ take 18 demo_blob)) /\ nth 4 (b_log w') (CSleep 0) = ep0_stall 3.
Proof.
  eexists _, _. split.
  - apply (enumeration_answers 3 demo_blob 0 demo_events [0; 9; 1; 0; 0; 0; 0; 0] [] demo_index demo_bus);
      [exact demo_blob_ok|vm_compute; reflexivity|exact raw_gadget_grants|exact demo_events_ok| |reflexivity|reflexivity].
    split; [reflexivity|]. repeat constructor; unfold is_u8; lia.
  - split; [|split]; vm_compute; reflexivity.
Defined.
