(* ===== verification/UsbProg.v ===== *)
(** fuzz/pseudo_syscalls.rs, second part: the program parser and [run_once].

    A file is its bytes (a file that is not UTF-8 is refused before this code).
    The maps of resources are finite maps; the order in which a HashMap is
    drained is one order of its entries, and the theorems do not depend on it.
    Shown: a pass over a program whose opening statements bind distinct names
    and whose plain system calls touch no descriptor ends with the descriptors the process had before, whatever the driver
    answers and wherever the program disconnects; a statement that binds no name
    or a name twice leaks; and a line whose last closing parenthesis stands
    before its first opening one makes the parser panic. *)
From stdpp Require Import gmap.
From S2P Require Import Prelude Text Syscalls UsbGadget.

(** * Statements *)

Inductive Op : Type :=
  | Connect (res : option (list Z)) (speed : Z) (dev : list Z)
  | ControlIo (fd : list Z)
  | Disconnect (fd : list Z)
  | OpenDev (res : option (list Z)) (path : list Z) (id id2 : Z)
  | Raw (nr : Z) (args : list Z).

Fixpoint hex_pairs (s : list Z) : option (list Z) :=
  match s with
  | [] => Some []
  | a :: b :: s => hi ← to_digit a 16; lo ← to_digit b 16; (Z.lor (Z.shiftl hi 4) lo ::.) <$> hex_pairs s
  | [_] => None
  end.
Definition decode_hex (s : list Z) : option (list Z) :=
  let s := trim s in
  if bool_decide (s = []) || negb (zlen s mod 2 =? 0) then None else hex_pairs s.

Definition parse_u64 (s : list Z) : option Z :=
  let s := trim s in
  match strip_prefix (bs "0x") s with Some h => from_str_radix_u64 h 16 | None => Text.parse_u64 s end.

Definition split_args (s : list Z) : list (list Z) := filter (fun a => a <> []) (trim <$> split_on 44 s).

Definition connect_names : list (list Z) :=
  bs <$> ["syz_usb_connect"; "syz_usb_connect$printer"; "syz_usb_connect$hid"; "syz_usb_connect$cdc_ecm"; "syz_usb_connect$uac1"; "syz_usb_connect$midi"]%string.
Definition control_io_names : list (list Z) :=
  bs <$> ["syz_usb_control_io"; "syz_usb_control_io$printer"; "syz_usb_control_io$hid"; "syz_usb_control_io$midi"]%string.

(** [trim_matches] of the two quotes. *)
Definition is_quote (c : Z) : bool := (c =? 39) || (c =? 34).
Fixpoint drop_quotes (s : list Z) : list Z :=
  match s with c :: t => if is_quote c then drop_quotes t else s | [] => [] end.
Definition trim_quotes (s : list Z) : list Z := reverse (drop_quotes (reverse (drop_quotes s))).

(** The words of the arguments, up to the first that is none. *)
Fixpoint leading_words (args : list (list Z)) : list Z :=
  match args with
  | a :: args => match parse_u64 a with Some v => as_i64 v :: leading_words args | None => [] end
  | [] => []
  end.
Definition raw_args (args : list (list Z)) : list Z :=
  let l := leading_words (take 6 args) in l ++ replicate (6 - length l) 0.

(** [line.split_once('=')] with its guard. *)
Definition binding (line : list Z) : option (list Z) * list Z :=
  match find_sub [61] line with
  | Some i =>
      let lhs := take (Z.to_nat i) line in
      if starts_with [114] (trim lhs) && negb (bool_decide (40 ∈ lhs))
      then (Some (trim lhs), trim (drop (Z.to_nat (i + 1)) line)) else (None, line)
  | None => (None, line)
  end.

Definition parse_call (arch : Arch) (res : option (list Z)) (name : list Z) (args : list (list Z)) : option Op :=
  if bool_decide (name ∈ connect_names) then
    a ← args !! 0%nat; speed ← parse_u64 a; b ← args !! 1%nat; dev ← decode_hex b; Some (Connect res (as_u8 speed) dev)
  else if bool_decide (name ∈ control_io_names) then ControlIo <$> args !! 0%nat
  else if bytes_eqb name (bs "syz_usb_disconnect") then Disconnect <$> args !! 0%nat
  else if starts_with (bs "syz_open_dev") name then
    p ← args !! 0%nat;
    Some (OpenDev res (trim_quotes p) (default 0 (args !! 1%nat ≫= parse_u64)) (default 0 (args !! 2%nat ≫= parse_u64)))
  else nr ← syscall_nr arch name; Some (Raw nr (raw_args args)).

(** The slice between the parentheses panics when they are the wrong way round. *)
Definition parse_line (arch : Arch) (line : list Z) : outcome (option Op) :=
  let line := trim line in
  let '(res, rest) := binding line in
  match find_sub [40] rest with
  | None => Done None
  | Some paren =>
      let name := trim (take (Z.to_nat paren) rest) in
      match rposition 41 rest with
      | None => Done None
      | Some close =>
          inner ← or_panic (slice rest (paren + 1) close);
          Done (parse_call arch res name (split_args inner))
      end
  end.

(** The lines that are read: not blank, no comment. *)
Definition statements (body : list Z) : list (list Z) :=
  filter (fun l => l <> [] /\ starts_with [35] l = false) (trim <$> lines body).

Fixpoint parse_lines (arch : Arch) (ls : list (list Z)) : outcome (list Op) :=
  match ls with
  | [] => Done []
  | l :: ls => o ← parse_line arch l; ops ← parse_lines arch ls; Done (match o with Some op => op :: ops | None => ops end)
  end.

Definition parse_program (arch : Arch) (body : list Z) : outcome (option (list Op)) :=
  ops ← parse_lines arch (statements body); Done (if bool_decide (ops = []) then None else Some ops).

Definition program_has_pseudo (body : list Z) : bool :=
  existsb (fun l => match find_sub (bs "syz_") l with Some _ => true | None => false end) (statements body).

(** * One pass *)

Class ProgHost (W : Type) : Type :=
  { p_syscall : Z -> list Z -> W -> W;
    p_alarm : Z -> W -> W }.

Definition PROG_TIMEOUT_SECS : Z := 8.

Section Run.
Context {W : Type} `{!Gadget W, !ProgHost W}.

Record Store : Type := MkStore { usb : gmap (list Z) UsbDevice; open_fds : gmap (list Z) Z; host : W }.

Definition run_op (fuel : nat) (procid : Z) (s : Store) (op : Op) : outcome Store :=
  match op with
  | Connect res speed dev =>
      '(r, w) ← syz_usb_connect fuel speed dev procid (host s);
      Done (match r with
            | inr d =>
                let key := match res with Some r => r | None => bs "__anon" ++ fmt_dec (Z.of_nat (size (usb s))) end in
                MkStore (<[key := d]> (usb s)) (open_fds s) w
            | inl _ => MkStore (usb s) (open_fds s) w
            end)
  | ControlIo fd =>
      match usb s !! fd with
      | Some d => '(_, (d, w)) ← syz_usb_control_io d (host s); Done (MkStore (<[fd := d]> (usb s)) (open_fds s) w)
      | None => Done s
      end
  | Disconnect fd =>
      match usb s !! fd with
      | Some d => Done (MkStore (delete fd (usb s)) (open_fds s) (snd (syz_usb_disconnect d (host s))))
      | None => Done s
      end
  | OpenDev res path id id2 =>
      let '(fd, w) := syz_open_dev path id id2 (host s) in
      Done (MkStore (usb s) (match res with Some r => if 0 <=? fd then <[r := fd]> (open_fds s) else open_fds s | None => open_fds s end) w)
  | Raw nr args => Done (MkStore (usb s) (open_fds s) (p_syscall nr args (host s)))
  end.

Definition close_all (l : list Z) (w : W) : W := foldl (fun w x => snd (g_close x w)) w l.

Definition run_once (fuel : nat) (ops : list Op) (procid : Z) (w : W) : outcome W :=
  s ← fold_m (run_op fuel procid) ops (MkStore ∅ ∅ (p_alarm PROG_TIMEOUT_SECS w));
  let w := p_alarm 0 (host s) in
  Done (close_all (snd <$> map_to_list (open_fds s)) (close_all ((fun p => fd (snd p)) <$> map_to_list (usb s)) w)).

(** [worker]: [repeat] passes ([0] is for ever). *)
Definition worker (fuel : nat) (ops : list Op) (repeat : nat) (id : Z) (w : W) : outcome W := repeat_m repeat (run_once fuel ops id) w.
End Run.

(** * Descriptors *)

(** The alarm opens and closes nothing, and so does a plain system call that is
    [inert]: getpid, read, write and the like, not close, open or dup. *)
Class ProgLaws (W : Type) `{!Gadget W, !ProgHost W, !GadgetLaws W} : Type :=
  { inert : Z -> list Z -> bool;
    alarm_law : forall n w, fds (p_alarm n w) = fds w /\ events (p_alarm n w) = events w;
    syscall_law : forall nr args w, inert nr args = true ->
      fds (p_syscall nr args w) = fds w /\ (events (p_syscall nr args w) <= events w)%nat }.

Section Tidy.
Context {W : Type} `{!Gadget W, !ProgHost W, !GadgetLaws W, !ProgLaws W}.

Lemma wp_control_io d (w : W) :
  wp (syz_usb_control_io d w) (fun r => fd (fst (snd r)) = fd d /\ fds (snd (snd r)) = fds w /\ (events (snd (snd r)) <= events w)%nat) False.
Proof.
  unfold syz_usb_control_io. apply wp_bind, wp_event_fetch. intros ev w1 Ef Hev. destruct ev as [[ty b]|]; [|cbn; split_and!; [done|done|lia]].
  destruct Hev as [Hl He]. destruct (negb (ty =? USB_RAW_EVENT_CONTROL)); [cbn; split_and!; [done|done|lia]|].
  destruct (ctrl_total b Hl) as [c ->]. cbn [mbind outcome_bind]. set (di := dir_in c && _).
  assert (forall ix w2, (if di then (index d, w1) else if is_standard c || (b_request c =? USB_REQ_SET_INTERFACE) then
      match lookup_interface (index d) (as_u8 (w_index c)) (as_u8 (w_value c)) with Some i => set_interface (fd d) (index d) (as_i32 i) w1 | None => (index d, w1) end
      else (index d, w1)) = (ix, w2) -> same w1 w2) as H.
  { intros ix w2. destruct di; [by intros [= _ <-]|]. destruct (_ || _); [|by intros [= _ <-]].
    destruct (lookup_interface _ _ _) as [i|]; [|by intros [= _ <-]]. intros E.
    destruct (same_set_interface (fd d) (index d) (as_i32 i) w1) as [S _]. by rewrite E in S. }
  destruct (if di then _ else _) as [ix w2]. specialize (H _ _ eq_refl). unfold usb_raw_ep0_io.
  destruct (g_ioctl _ _ _ w2) as [rv w3] eqn:E3. apply ioctl_law in E3 as [F3 V3]. destruct H as [F2 V2].
  destruct (rv <? 0); cbn; [split_and!; [done|congruence|lia]|]. destruct (sleep_law 200 w3) as [F4 V4]. split_and!; [done|congruence|lia].
Qed.

(** The descriptors the store holds. *)
Definition held (s : Store (W := W)) : list Z :=
  ((fun p => fd (snd p)) <$> map_to_list (usb s)) ++ (snd <$> map_to_list (open_fds s)).

(** The process has the descriptors [F] and those of the store, each once. *)
Definition tidy (F : gset Z) (s : Store) : Prop := fds (host s) = list_to_set (held s) ∪ F /\ NoDup (held s) /\ forall x, x ∈ held s -> x ∉ F.

Lemma tidy_add F s s' x : tidy F s -> held s' ≡ₚ x :: held s -> fds (host s') = {[x]} ∪ fds (host s) -> x ∉ fds (host s) -> tidy F s'.
Proof.
  intros (E & Hn & HF) Hp E' Hx. rewrite E in Hx, E'. apply not_elem_of_union in Hx as [Hx HxF]. rewrite elem_of_list_to_set in Hx.
  split_and!.
  - rewrite E', Hp. cbn [list_to_set]. by rewrite (assoc_L (∪)).
  - rewrite Hp. by constructor.
  - intros y. rewrite Hp. intros [->|Hy]%elem_of_cons; [done|by apply HF].
Qed.

Lemma tidy_remove F s s' x : tidy F s -> held s ≡ₚ x :: held s' -> fds (host s') = fds (host s) ∖ {[x]} -> tidy F s'.
Proof.
  intros (E & Hn & HF) Hp E'. rewrite Hp in Hn. apply NoDup_cons in Hn as [Hx Hn].
  assert (x ∉ F) as HxF by (apply HF; rewrite Hp; left).
  split_and!; [|done|intros y Hy; apply HF; rewrite Hp; by right].
  rewrite E', E, Hp. cbn [list_to_set]. apply set_eq. intros y. rewrite elem_of_difference, !elem_of_union, elem_of_singleton, elem_of_list_to_set.
  split; [tauto|]. intros [Hy|Hy]; (split; [tauto|intros ->; contradiction]).
Qed.

Lemma tidy_same F s s' : tidy F s -> held s' ≡ₚ held s -> fds (host s') = fds (host s) -> tidy F s'.
Proof. intros (E & Hn & HF) Hp E'. split_and!; [by rewrite E', E, Hp|by rewrite Hp|intros x; rewrite Hp; apply HF]. Qed.

(** Closing every held descriptor leaves [F]. *)
Lemma close_all_fds l (w : W) : fds (close_all l w) = fds w ∖ list_to_set l.
Proof.
  revert w. induction l as [|x l IH]; intros w; cbn [close_all foldl list_to_set]; [by rewrite difference_empty_L|].
  fold (close_all l (snd (g_close x w))). rewrite IH. destruct (g_close x w) as [rv w'] eqn:E. apply close_law in E as [E _]. cbn [snd]. rewrite E.
  apply set_eq. intros y. rewrite !elem_of_difference, elem_of_union. tauto.
Qed.

(** What a statement binds, and the names free before it; what it may be. *)
Definition usb_name (op : Op) : list (list Z) := match op with Connect (Some r) _ _ => [r] | _ => [] end.
Definition fd_name (op : Op) : list (list Z) := match op with OpenDev (Some r) _ _ _ => [r] | _ => [] end.
Definition bound (op : Op) : Prop :=
  match op with Connect r _ blob => is_Some r /\ bytes_ok blob | OpenDev r _ _ _ => is_Some r | Raw nr args => inert nr args = true | _ => True end.

Lemma held_usb_insert s k d w : usb s !! k = None -> held (MkStore (<[k := d]> (usb s)) (open_fds s) w) ≡ₚ fd d :: held s.
Proof. intros H. unfold held. cbn [usb open_fds]. by rewrite map_to_list_insert. Qed.

Lemma held_fd_insert s k x w : open_fds s !! k = None -> held (MkStore (usb s) (<[k := x]> (open_fds s)) w) ≡ₚ x :: held s.
Proof. intros H. unfold held. cbn [usb open_fds]. rewrite map_to_list_insert by done. cbn [fmap list_fmap snd]. by rewrite Permutation_middle. Qed.

Lemma held_usb_delete s k d w : usb s !! k = Some d -> held s ≡ₚ fd d :: held (MkStore (delete k (usb s)) (open_fds s) w).
Proof. intros H. unfold held. cbn [usb open_fds]. by rewrite <- (map_to_list_delete (usb s) k d H). Qed.

Lemma held_usb_update s k d d' w : usb s !! k = Some d -> fd d' = fd d -> held (MkStore (<[k := d']> (usb s)) (open_fds s) w) ≡ₚ held s.
Proof.
  intros H E. rewrite (held_usb_delete s k d w H), <- E, <- (insert_delete_eq (usb s)).
  pose proof (held_usb_insert (MkStore (delete k (usb s)) (open_fds s) w) k d' w) as Hi. cbn [usb open_fds] in Hi. by rewrite Hi by apply lookup_delete_eq.
Qed.

(** One statement whose names are free keeps the store tidy. *)
Lemma wp_run_op fuel procid F n s op : tidy F s -> bound op -> (events (host s) <= n < fuel)%nat ->
  (forall r, r ∈ usb_name op -> usb s !! r = None) -> (forall r, r ∈ fd_name op -> open_fds s !! r = None) ->
  wp (run_op fuel procid s op) (fun s' => tidy F s' /\ (events (host s') <= n)%nat /\
    dom (usb s') ⊆ dom (usb s) ∪ list_to_set (usb_name op) /\ dom (open_fds s') ⊆ dom (open_fds s) ∪ list_to_set (fd_name op)) False.
Proof.
  intros Ht Hb Hn Hu Hf. destruct op as [[r|] speed blob|k|k|[r|] path id id2|nr args]; cbn [bound usb_name fd_name run_op] in *.
  - destruct Hb as [_ Hb]. apply wp_bind. eapply wp_mono; [apply wp_connect; [done|lia]| |done].
    intros [[e|d] w1] [He Hs]; cbn [fst snd] in *.
    + split_and!; [by eapply tidy_same|cbn; lia|cbn; set_solver|cbn; set_solver].
    + destruct Hs as [Hs Hx]. split_and!; [|cbn; lia|cbn; rewrite dom_insert_L; set_solver|cbn; set_solver].
      eapply tidy_add; [exact Ht|apply held_usb_insert, Hu; left|exact Hs|exact Hx].
  - by destruct Hb as [[? ?] _].
  - destruct (usb s !! k) as [d|] eqn:Ek; [|cbn; split_and!; [done|lia|set_solver|set_solver]].
    apply wp_bind. eapply wp_mono; [apply wp_control_io| |done]. intros [rv [d' w1]] (Hd & Hw & He). cbn [fst snd] in *.
    split_and!; [|cbn; lia| |cbn; set_solver].
    + eapply tidy_same; [exact Ht|by eapply held_usb_update|exact Hw].
    + cbn. rewrite dom_insert_L. assert (k ∈ dom (usb s)) by (by eapply elem_of_dom_2). set_solver.
  - destruct (usb s !! k) as [d|] eqn:Ek; [|cbn; split_and!; [done|lia|set_solver|set_solver]].
    unfold syz_usb_disconnect. destruct (g_close (fd d) (host s)) as [rv w1] eqn:E1. apply close_law in E1 as [F1 V1].
    destruct (sleep_law 200 w1) as [F2 V2]. cbn [wp snd]. split_and!; [|cbn; lia|cbn; rewrite dom_delete_L; set_solver|cbn; set_solver].
    eapply tidy_remove; [exact Ht|by apply held_usb_delete|cbn; congruence].
  - unfold syz_open_dev. destruct (existsb _ _); [cbn; split_and!; [done|lia|set_solver|set_solver]|].
    destruct (g_open _ (host s)) as [x w1] eqn:E1. apply open_law in E1 as [V1 F1]. cbn [wp].
    destruct (Z.leb_spec 0 x) as [Hx|Hx].
    + rewrite (proj2 (Z.ltb_ge _ _)) in F1 by lia. destruct F1 as [F1 Nx].
      split_and!; [|cbn; lia|cbn; set_solver|cbn; rewrite dom_insert_L; set_solver].
      eapply tidy_add; [exact Ht|apply held_fd_insert, Hf; left|exact F1|exact Nx].
    + rewrite (proj2 (Z.ltb_lt _ _)) in F1 by lia. split_and!; [by eapply tidy_same|cbn; lia|cbn; set_solver|cbn; set_solver].
  - by destruct Hb.
  - destruct (syscall_law nr args (host s) Hb) as [Fr Vr]. split_and!; [by eapply tidy_same|cbn; lia|cbn; set_solver|cbn; set_solver].
Qed.

Lemma wp_run_ops fuel procid F n ops s : tidy F s -> Forall bound ops -> (events (host s) <= n < fuel)%nat ->
  NoDup (concat (usb_name <$> ops)) -> NoDup (concat (fd_name <$> ops)) ->
  (forall r, r ∈ concat (usb_name <$> ops) -> r ∉ dom (usb s)) -> (forall r, r ∈ concat (fd_name <$> ops) -> r ∉ dom (open_fds s)) ->
  wp (fold_m (run_op fuel procid) ops s) (fun s' => tidy F s' /\ (events (host s') <= n)%nat) False.
Proof.
  intros Ht Hb. revert s Ht. induction Hb as [|op ops Hop _ IH]; intros s Ht Hn Nu Nf Hu Hf; [by split; [|lia]|].
  cbn [fold_m fmap list_fmap concat] in *. apply NoDup_app in Nu as (_ & Du & Nu). apply NoDup_app in Nf as (_ & Df & Nf).
  apply wp_bind. eapply wp_mono; [apply (wp_run_op fuel procid F n); [done|done|done| |]| |done].
  - intros r Hr. apply not_elem_of_dom, Hu, elem_of_app. by left.
  - intros r Hr. apply not_elem_of_dom, Hf, elem_of_app. by left.
  - intros s' (Ht' & Hn' & Dum & Dfm). apply IH; [done|lia|done|done| |].
    + intros r Hr Hd%Dum%elem_of_union. rewrite elem_of_list_to_set in Hd. destruct Hd as [Hd|Hd]; [|by apply (Du r)].
      apply (Hu r); [apply elem_of_app; by right|done].
    + intros r Hr Hd%Dfm%elem_of_union. rewrite elem_of_list_to_set in Hd. destruct Hd as [Hd|Hd]; [|by apply (Df r)].
      apply (Hf r); [apply elem_of_app; by right|done].
Qed.

(** The statements of a program that gives every device and descriptor it opens
    a name of its own, and whose plain system calls are inert. *)
Definition tidy_program (ops : list Op) : Prop :=
  Forall bound ops /\ NoDup (concat (usb_name <$> ops)) /\ NoDup (concat (fd_name <$> ops)).

Lemma wp_run_once fuel ops procid n (w : W) : tidy_program ops -> (events w <= n < fuel)%nat ->
  wp (run_once fuel ops procid w) (fun w' => fds w' = fds w /\ (events w' <= n)%nat) False.
Proof.
  intros (Hb & Nu & Nf) Hn. unfold run_once. destruct (alarm_law PROG_TIMEOUT_SECS w) as [F0 V0].
  apply wp_bind. eapply wp_mono; [apply (wp_run_ops fuel procid (fds w) n); try done| |done].
  - split_and!; [|constructor|intros x Hx; by apply elem_of_nil in Hx].
    change (fds (p_alarm PROG_TIMEOUT_SECS w) = ∅ ∪ fds w). by rewrite F0, union_empty_l_L.
  - cbn [host]. lia.
  - intros s [(E & Hnd & HF) Hev]. cbn [wp]. destruct (alarm_law 0 (host s)) as [F1 V1].
    assert (forall l (w : W), events (close_all l w) = events w) as Hce.
    { induction l as [|x l IH]; intros v; [done|]. cbn [close_all foldl]. fold (close_all l (snd (g_close x v))). rewrite IH.
      destruct (g_close x v) as [rv v'] eqn:Ec. by apply close_law in Ec as [_ ?]. }
    split; [|rewrite !Hce; lia]. rewrite !close_all_fds, F1, E. unfold held in *. rewrite list_to_set_app_L.
    apply set_eq. intros x. rewrite !elem_of_difference, !elem_of_union, !elem_of_list_to_set.
    setoid_rewrite elem_of_app in HF. specialize (HF x). tauto.
Qed.

(** C30: A program that binds what it opens leaves nothing open.  When every
    statement that opens a device or a file binds a name of its own, and every
    plain system call among the statements is one that changes no descriptor - so
    not a close, an open or a dup, which act behind the interpreter's back
    ([raw_calls_unseen]) - any number of passes over the program, with connections
    that fail, requests that are served and devices that are disconnected in any
    order, ends with exactly the descriptors the process had before. *)
Theorem passes_close_everything fuel ops passes id (w : W) : tidy_program ops -> (events w < fuel)%nat ->
  exists w', worker fuel ops passes id w = Done w' /\ fds w' = fds w.
Proof.
  intros Ht Hf. pose proof (wp_repeat_m (fun _ w' => fds w' = fds w /\ (events w' <= events w)%nat) False (run_once fuel ops id) passes w) as H.
  assert (wp (worker fuel ops passes id w) (fun w' => fds w' = fds w /\ (events w' <= events w)%nat) False) as Hw.
  { apply H; [|by split; [|lia]]. intros _ v [Hv He]. eapply wp_mono; [apply (wp_run_once fuel ops id (events w)); [done|lia]| |done].
    intros v' [A B]. split; [congruence|done]. }
  unfold wp in Hw. destruct (worker fuel ops passes id w) as [w'| | |]; try done. exists w'. by destruct Hw.
Qed.
End Tidy.

(** * On a concrete host

    Of the plain system calls it knows x86-64's close (3) and dup (32). *)

#[export] Instance bus_prog : ProgHost Bus :=
  {| p_syscall nr args w :=
       if nr =? 3 then snd (g_close (hd 0 args) w)
       else if nr =? 32 then snd (g_open [] w)
       else w;
     p_alarm _ w := w |}.
#[export] Instance bus_prog_laws : ProgLaws Bus.
Proof.
  refine {| inert nr _ := negb (nr =? 3) && negb (nr =? 32) |}; [by constructor|].
  intros nr args w [H1%negb_true_iff H2%negb_true_iff]%andb_prop. cbn. by rewrite H1, H2.
Defined.

Definition demo_ops : list Op :=
  [Connect (Some (bs "r0")) 3 demo_blob; ControlIo (bs "r0"); OpenDev (Some (bs "r1")) (bs "/dev/snd/midiC#D#") 0 0; Raw 1 [3; 0; 0; 0; 0; 0]; Disconnect (bs "r0"); ControlIo (bs "r0")].

Lemma passes_close_everything_witness : exists w', worker 9 demo_ops 3 0 demo_bus = Done w' /\ fds w' = fds demo_bus.
Proof.
  apply (passes_close_everything 9 demo_ops 3 0 demo_bus); [|simpl; lia]. split_and!.
  - unfold demo_ops. rewrite !Forall_cons. cbn [bound]. pose proof demo_blob_ok. split_and!; eauto.
  - apply NoDup_singleton.
  - apply NoDup_singleton.
Defined.

(** What one pass leaves open: a file that is not bound; the first of two files
    bound to one name; the device of a statement without a name, when its key
    is taken after a disconnection. *)
Definition left_open (ops : list Op) (w : Bus) : option (list Z) :=
  match run_once 99 ops 0 w with Done w' => Some (elements (b_fds w' ∖ b_fds w)) | _ => None end.
Definition plug (n : nat) : list (Z * list Z) := replicate n (USB_RAW_EVENT_CONTROL, [0; 9; 1; 0; 0; 0; 0; 0]).

Lemma unbound_open_leaks :
  left_open [OpenDev None (bs "/dev/null") 0 0] (MkBus {[0]} [] raw_gadget []) = Some [3] /\
  left_open [OpenDev (Some (bs "r0")) (bs "/dev/null") 0 0; OpenDev (Some (bs "r0")) (bs "/dev/null") 0 0] (MkBus {[0]} [] raw_gadget []) = Some [3] /\
  left_open [Connect (Some (bs "r0")) 3 demo_blob; Connect None 3 demo_blob; Disconnect (bs "r0"); Connect None 3 demo_blob] (MkBus {[0]} (plug 3) raw_gadget []) = Some [6].
Proof. vm_compute. done. Qed.

(** A plain close closes a descriptor of the process, a plain dup leaves one:
    neither is the interpreter's. *)
Lemma raw_calls_unseen :
  (exists w', run_once 9 [Raw 3 [0]] 0 (MkBus {[0]} [] raw_gadget []) = Done w' /\ 0 ∉ fds w') /\
  left_open [Raw 32 [0]] (MkBus {[0]} [] raw_gadget []) = Some [3].
Proof. split; [eexists; split; [reflexivity|by apply (bool_decide_unpack _)]|vm_compute; done]. Qed.

(** [")("]: the parser slices from after the first opening parenthesis to the last closing one. *)
Lemma parse_line_panics : parse_line X86_64 (bs ")(") = Panic.
Proof. vm_compute. reflexivity. Qed.

(** A device and its use, as text. *)
Example demo_text_parses :
  parse_program X86_64 (bs "# reproducer
r0 = syz_usb_connect$hid(0x3, 0a0B)
syz_usb_control_io(r0)
r1 = syz_open_dev('/dev/snd/midiC#D#', 0x1, 2)
close(0x3)
") = Done (Some [Connect (Some (bs "r0")) 3 [10; 11]; ControlIo (bs "r0"); OpenDev (Some (bs "r1")) (bs "/dev/snd/midiC#D#") 1 2; Raw 3 [3; 0; 0; 0; 0; 0]]).
Proof. vm_compute. reflexivity. Qed.
