(* ===== verification/PseudoExt.v ===== *)
(** fuzz/pseudo_ext.rs: the pseudo-system-calls of arena programs.

    The operating system is an instance of the class [ExtHost]; the arena is the
    list of its bytes, and an access outside it is [Panic], also one of the
    kernel to the parameters of io_uring_setup.  (Rings that such parameters ask
    to be placed in memory of the caller are not modelled.)  The errno numbers and
    open flags of libc are the record [Codes] of parameters.
    Shown: on a mapped arena every pseudo-system-call returns (io_uring, when its
    parameters end in the arena, which the code does not check), whatever its
    arguments and whatever the host answers: it reads and writes inside the
    arena only, keeps its size, and leaves no descriptor open but the one it
    returns; and the family number of generic netlink is found in every
    well-formed reply. *)
From stdpp Require Import gmap.
From S2P Require Import Prelude Text ProgSyntax ProgArena ProgCopyin.

(** The libc constants the file uses. *)
Record Codes : Type := MkCodes
  { EINVAL : Z; EFAULT : Z; ENODEV : Z; ENOSYS : Z; ENOENT : Z;
    O_RDONLY : Z; O_RDWR : Z; O_NONBLOCK : Z; O_CREAT : Z; CLONE_NEWNET : Z; AF_NETLINK : Z; SOCK_RAW : Z }.

Inductive ExtArg : Type :=
  | XWord (v : Z)
  | XBytes (b : list Z).

Class ExtHost (W : Type) : Type :=
  { x_open : list Z -> Z -> W -> Z * W;
    x_close : Z -> W -> W;
    x_ioctl : Z -> Z -> ExtArg -> W -> Z * W;
    x_ioctl_out : Z -> Z -> W -> (Z * Z) * W;             (* result, the int written *)
    x_socket : Z -> Z -> Z -> W -> Z * W;
    x_setns : Z -> Z -> W -> Z * W;
    x_write : Z -> list Z -> W -> Z * W;
    x_read : Z -> Z -> W -> (Z * list Z) * W;             (* result, the buffer *)
    x_uring_setup : Z -> list Z -> W -> (Z * list Z) * W; (* entries, the io_uring_params: result, the params after *)
    x_mount : list Z -> list Z -> list Z -> Z -> list Z -> W -> Z * W;
    x_chdir : list Z -> W -> W;
    x_mkdirs : list Z -> W -> W;
    x_save : list Z -> list Z -> W -> bool * W;
    x_remove : list Z -> W -> W;
    x_getpid : W -> Z;
    x_errno : W -> Z }.

Section Ext.
Context {W : Type} `{!ExtHost W}.
Context (K : Codes).

(** The result of a call: value, errno, the arena and the host. *)
#[local] Abbreviation Res := (outcome ((Z * Z) * (list Z * W))) (only parsing).

Definition in_arena (addr : Z) : bool := let a := as_u64 addr in (DATA_OFFSET <=? a) && (a <? DATA_OFFSET + ARENA_SIZE).
Definition offset_of (addr : Z) : Z := as_u64 addr - DATA_OFFSET.

Fixpoint cstr_loop (m : list Z) (off : Z) (n : nat) : outcome (list Z) :=
  match n with
  | O => Done []
  | S n => b ← idx m off; if b =? 0 then Done [] else s ← cstr_loop m (off + 1) n; Done (b :: s)
  end.

Definition cstr (m : list Z) (addr : Z) : outcome (option (list Z)) :=
  if negb (in_arena addr) then Done None else
  let max := ARENA_SIZE - offset_of addr in
  s ← cstr_loop m (offset_of addr) (Z.to_nat (Z.min max 4096));
  Done (Some (from_utf8_lossy s)).

Definition ret_ (v : Z * Z) (m : list Z) (w : W) : Res := Done (v, (m, w)).

Definition ok (r : Z * W) (m : list Z) : Res := let '(fd, w) := r in ret_ (if fd <? 0 then (-1, x_errno w) else (fd, 0)) m w.

Definition enosys (m : list Z) (w : W) : Res := ret_ (-1, ENOSYS K) m w.

Definition has_nul (s : list Z) : bool := existsb (fun c => c =? 0) s.

Definition open_path (path : list Z) (flags : Z) (m : list Z) (w : W) : Res :=
  if has_nul path then ret_ (-1, EINVAL K) m w else ok (x_open path flags w) m.

Definition arg (args : list Z) (i : nat) : Z := nth i args 0.

Definition fmt_i64 (v : Z) : list Z := if v <? 0 then 45 :: fmt_dec (- v) else fmt_dec v.

(** Each ['#'] takes the lowest digit of what is left of [id]; the digit of a
    negative remainder is ['0']. *)
Fixpoint fill_digits (path : list Z) (id : Z) : list Z :=
  match path with
  | [] => []
  | c :: path =>
      if c =? 35 then (let d := Z.rem id 10 in if 0 <=? d then 48 + d else 48) :: fill_digits path (Z.quot id 10)
      else c :: fill_digits path id
  end.

Definition syz_open_dev (args : list Z) (m : list Z) (w : W) : Res :=
  if (arg args 0 =? 0xc) || (arg args 0 =? 0xb) then
    open_path (bs "/dev/" ++ (if arg args 0 =? 0xc then bs "char" else bs "block") ++ bs "/" ++ fmt_i64 (arg args 1) ++ bs ":" ++ fmt_i64 (arg args 2))
      (Z.lor (O_RDWR K) (O_NONBLOCK K)) m w
  else
    p ← cstr m (arg args 0);
    match p with
    | None => ret_ (-1, EFAULT K) m w
    | Some path =>
        let flags := Z.land (as_i32 (arg args 2)) (Z.lnot (O_CREAT K)) in
        let flags := if flags =? 0 then Z.lor (O_RDWR K) (O_NONBLOCK K) else flags in
        open_path (fill_digits path (arg args 1)) flags m w
    end.

Definition syz_open_procfs (args : list Z) (m : list Z) (w : W) : Res :=
  f ← cstr m (arg args 1);
  match f with
  | None => ret_ (-1, EFAULT K) m w
  | Some file =>
      let base := if arg args 0 =? 0 then bs "/proc/self" else if arg args 0 =? -1 then bs "/proc/thread-self"
                  else bs "/proc/self/task/" ++ fmt_i64 (arg args 0) in
      let path := base ++ bs "/" ++ file in
      r ← open_path path (O_RDWR K) m w;
      let '((v, e), (m, w)) := r in
      if v <? 0 then open_path path (O_RDONLY K) m w else ret_ (v, e) m w
  end.

Definition syz_open_pts (args : list Z) (m : list Z) (w : W) : Res :=
  let '((r, i), w) := x_ioctl_out (as_i32 (arg args 0)) 0x80045430 w in
  if r <? 0 then ret_ (-1, x_errno w) m w else open_path (bs "/dev/pts/" ++ fmt_i64 i) (as_i32 (arg args 1)) m w.

Definition syz_init_net_socket (args : list Z) (m : list Z) (w : W) : Res :=
  let d := as_i32 (arg args 0) in let t := as_i32 (arg args 1) in let p := as_i32 (arg args 2) in
  let '(netns, w) := x_open (bs "/proc/1/ns/net") (O_RDONLY K) w in
  if netns <? 0 then ok (x_socket d t p w) m else
  let '(old, w) := x_open (bs "/proc/self/ns/net") (O_RDONLY K) w in
  let '(e, w) := x_setns netns (CLONE_NEWNET K) w in
  let '(fd, w) := x_socket d t p w in
  let err := x_errno w in
  let w := if (e =? 0) && (0 <=? old) then snd (x_setns old (CLONE_NEWNET K) w) else w in
  let w := x_close netns w in
  let w := if 0 <=? old then x_close old w else w in
  ret_ (if fd <? 0 then (-1, err) else (fd, 0)) m w.

Definition syz_create_resource (args : list Z) (m : list Z) (w : W) : Res := ret_ (arg args 0, 0) m w.

(** [ptr::copy] inside the arena. *)
Definition copy_within (m : list Z) (src dst n : Z) : outcome (list Z) :=
  s ← or_panic (slice m src (src + n));
  if dst + n <=? zlen m then Done (blit m dst s) else Panic.

Definition syz_memcpy_off (args : list Z) (m : list Z) (w : W) : Res :=
  let dst := as_i64 (arg args 0 + arg args 1) in
  let src := as_i64 (arg args 2 + arg args 3) in
  let n := Z.max (arg args 4) 0 in
  if n =? 0 then ret_ (0, 0) m w
  else if negb (in_arena dst) || negb (in_arena src) || (ARENA_SIZE <? n) then ret_ (-1, EFAULT K) m w
  else if negb (in_arena (as_i64 (dst + (n - 1)))) || negb (in_arena (as_i64 (src + (n - 1)))) then ret_ (-1, EFAULT K) m w
  else m ← copy_within m (offset_of src) (offset_of dst) n; ret_ (0, 0) m w.

(** * Generic netlink *)

Definition NETLINK_GENERIC : Z := 16.
Definition GENL_ID_CTRL : Z := 0x10.
Definition CTRL_CMD_GETFAMILY : Z := 3.
Definition CTRL_ATTR_FAMILY_NAME : Z := 2.
Definition CTRL_ATTR_FAMILY_ID : Z := 1.

(** nlmsghdr, genlmsghdr, one attribute with the NUL-terminated name, padded. *)
Definition family_request (name : list Z) : list Z :=
  let attrlen := 4 + (zlen name + 1) in
  let total := 16 + 4 + attrlen in
  let buf := le_bytes 4 (as_u32 total) ++ le_bytes 2 GENL_ID_CTRL ++ le_bytes 2 1 ++ le_bytes 4 1 ++ [0; 0; 0; 0] ++
             [CTRL_CMD_GETFAMILY; 1; 0; 0] ++ le_bytes 2 (as_u16 attrlen) ++ le_bytes 2 CTRL_ATTR_FAMILY_NAME ++ name in
  buf ++ replicate (Z.to_nat ((total + 3) / 4 * 4) - length buf) 0.

(** The walk over the attributes of a reply of [n] bytes. *)
Definition attr_step (rsp : list Z) (n : Z) (off : Z) : outcome (ctl Z (option Z)) :=
  if off + 4 <=? n then
    alen ← u16_at rsp off;
    atype ← u16_at rsp (off + 2);
    if (alen <? 4) || (n <? off + alen) then Done (Stop None)
    else if (atype =? CTRL_ATTR_FAMILY_ID) && (6 <=? alen) then id ← u16_at rsp (off + 4); Done (Stop (Some id))
    else Done (Next (off + (alen + 3) / 4 * 4))
  else Done (Stop None).

Definition family_id (rsp : list Z) (n : Z) : outcome (option Z) := loop (S (length rsp)) (attr_step rsp n) 20.

Definition syz_genetlink_get_family_id (args : list Z) (m : list Z) (w : W) : Res :=
  name ← cstr m (arg args 0);
  match name with
  | None => ret_ (-1, EFAULT K) m w
  | Some name =>
      let '(fd, w) := x_socket (AF_NETLINK K) (SOCK_RAW K) NETLINK_GENERIC w in
      if fd <? 0 then ret_ (-1, x_errno w) m w else
      let '(sent, w) := x_write fd (family_request name) w in
      if sent <? 0 then (let e := x_errno w in ret_ (-1, e) m (x_close fd w)) else
      let '((n, rsp), w) := x_read fd 4096 w in
      let w := x_close fd w in
      if n <? 20 then ret_ (-1, EINVAL K) m w else
      id ← family_id rsp n;
      ret_ (match id with Some id => (id, 0) | None => (-1, ENOENT K) end) m w
  end.

(** * Devices *)

(** [sizeof(struct io_uring_params)]: what the system call reads at its second
    argument, and writes back there. *)
Definition PARAMS_SIZE : Z := 120.

Definition syz_io_uring_setup (args : list Z) (m : list Z) (w : W) : Res :=
  if negb (in_arena (arg args 1)) then ret_ (-1, EFAULT K) m w else
  let off := offset_of (arg args 1) in
  params ← or_panic (slice m off (off + PARAMS_SIZE));
  let '((fd, params), w) := x_uring_setup (arg args 0) params w in
  ret_ (if fd <? 0 then (-1, x_errno w) else (fd, 0)) (blit m off params) w.

Definition TUNSETIFF : Z := 0x400454ca.
Definition ifreq : list Z := bs "syz_tun" ++ replicate 9 0 ++ le_bytes 2 0x1002 ++ replicate 22 0.

Definition syz_emit_ethernet (args : list Z) (m : list Z) (w : W) : Res :=
  let len := Z.max (arg args 0) 0 in
  let buf := arg args 1 in
  if negb (in_arena buf) || (len =? 0) || (Z.shiftl 64 10 <? len) || negb (in_arena (as_i64 (buf + (len - 1)))) then ret_ (-1, EFAULT K) m w else
  let '(fd, w) := x_open (bs "/dev/net/tun") (O_RDWR K) w in
  if fd <? 0 then ret_ (-1, x_errno w) m w else
  let '(r, w) := x_ioctl fd TUNSETIFF (XBytes ifreq) w in
  if r <? 0 then (let e := x_errno w in ret_ (-1, e) m (x_close fd w)) else
  frame ← or_panic (slice m (offset_of buf) (offset_of buf + len));
  let '(n, w) := x_write fd frame w in
  let e := x_errno w in
  ret_ (if n <? 0 then (-1, e) else (n, 0)) m (x_close fd w).

Definition MAX_IMAGE : Z := Z.shiftl 128 20.

Definition arena_slice (m : list Z) (addr len : Z) : outcome (option (list Z)) :=
  if (len =? 0) || negb (in_arena addr) || negb (in_arena (as_i64 (addr + (len - 1)))) then Done None
  else s ← or_panic (slice m (offset_of addr) (offset_of addr + len)); Done (Some s).

Definition LOOP_CTL_GET_FREE : Z := 0x4C82.
Definition LOOP_SET_FD : Z := 0x4C00.
Definition LOOP_CLR_FD : Z := 0x4C01.
Definition BLKRRPART : Z := 0x125F.
Definition image_path (w : W) : list Z := bs "/tmp/vock-img-" ++ fmt_i64 (x_getpid w).

(** The path and the descriptor of the loop device, or nothing open. *)
Definition attach_loop (img : list Z) (w : W) : option (list Z * Z) * W :=
  let path := image_path w in
  let '(saved, w) := x_save path img w in
  if negb saved then (None, w) else
  let '(ctl, w) := x_open (bs "/dev/loop-control") (O_RDWR K) w in
  if ctl <? 0 then (None, w) else
  let '(i, w) := x_ioctl ctl LOOP_CTL_GET_FREE (XWord 0) w in
  let w := x_close ctl w in
  if i <? 0 then (None, w) else
  let loop_path := bs "/dev/loop" ++ fmt_i64 i in
  let '(lfd, w) := x_open loop_path (O_RDWR K) w in
  if lfd <? 0 then (None, w) else
  let '(ifd, w) := x_open path (O_RDWR K) w in
  if ifd <? 0 then (None, x_close lfd w) else
  let '(r, w) := x_ioctl lfd LOOP_SET_FD (XWord ifd) w in
  let w := x_close ifd w in
  if r <? 0 then (None, x_close lfd w) else (Some (loop_path, lfd), w).

Definition detach_loop (lfd : Z) (w : W) : W :=
  let '(_, w) := x_ioctl lfd LOOP_CLR_FD (XWord 0) w in
  let w := x_close lfd w in
  x_remove (image_path w) w.

Definition syz_mount_image (args : list Z) (m : list Z) (w : W) : Res :=
  fs ← cstr m (arg args 0);
  dir ← cstr m (arg args 1);
  match fs, dir with
  | Some fs, Some dir =>
      img ← arena_slice m (arg args 6) (Z.min (Z.max (arg args 5) 0) MAX_IMAGE);
      match img with
      | None => ret_ (-1, EINVAL K) m w
      | Some img =>
          let '(l, w) := attach_loop img w in
          match l with
          | None => ret_ (-1, ENODEV K) m w
          | Some (loop_path, lfd) =>
              let w := x_mkdirs dir w in
              if has_nul loop_path || has_nul dir || has_nul fs then ret_ (-1, EINVAL K) m (detach_loop lfd w) else
              o ← cstr m (arg args 3);
              let opts := match o with Some o => if has_nul o then [] else o | None => [] end in
              let '(r, w) := x_mount loop_path dir fs (as_u64 (arg args 2)) opts w in
              let e := x_errno w in
              if r <? 0 then ret_ (-1, e) m (detach_loop lfd w) else
              let w := if negb (arg args 4 =? 0) then x_chdir dir w else w in
              ret_ (0, 0) m (x_close lfd w)
          end
      end
  | _, _ => ret_ (-1, EFAULT K) m w
  end.

Definition syz_read_part_table (args : list Z) (m : list Z) (w : W) : Res :=
  img ← arena_slice m (arg args 1) (Z.min (Z.max (arg args 0) 0) MAX_IMAGE);
  match img with
  | None => ret_ (-1, EINVAL K) m w
  | Some img =>
      let '(l, w) := attach_loop img w in
      match l with
      | None => ret_ (-1, ENODEV K) m w
      | Some (_, lfd) =>
          let '(r, w) := x_ioctl lfd BLKRRPART (XWord 0) w in
          let e := x_errno w in
          ret_ (if r <? 0 then (-1, e) else (0, 0)) m (detach_loop lfd w)
      end
  end.

Definition handlers : list (list Z * (list Z -> list Z -> W -> Res)) :=
  [(bs "syz_open_dev", syz_open_dev); (bs "syz_open_procfs", syz_open_procfs); (bs "syz_open_pts", syz_open_pts);
   (bs "syz_init_net_socket", syz_init_net_socket); (bs "syz_create_resource", syz_create_resource); (bs "syz_memcpy_off", syz_memcpy_off);
   (bs "syz_genetlink_get_family_id", syz_genetlink_get_family_id); (bs "syz_io_uring_setup", syz_io_uring_setup);
   (bs "syz_emit_ethernet", syz_emit_ethernet); (bs "syz_mount_image", syz_mount_image); (bs "syz_read_part_table", syz_read_part_table)].

Definition dispatch (base : list Z) (args : list Z) (m : list Z) (w : W) : Res :=
  match List.find (fun h => bytes_eqb (fst h) base) handlers with
  | Some (_, f) => f args m w
  | None => enosys m w
  end.

Definition SUPPORTED : list (list Z) := fst <$> handlers.
End Ext.

(** * What the host promises *)

Class ExtLaws (W : Type) `{!ExtHost W} : Type :=
  { xfds : W -> gset Z;
    opened (fd : Z) (w w' : W) : Prop := if fd <? 0 then xfds w' = xfds w else xfds w' = {[fd]} ∪ xfds w /\ fd ∉ xfds w;
    open_ok : forall p fl w fd w', x_open p fl w = (fd, w') -> opened fd w w';
    socket_ok : forall d t p w fd w', x_socket d t p w = (fd, w') -> opened fd w w';
    uring_ok : forall e p w fd p' w', bytes_ok p -> x_uring_setup e p w = ((fd, p'), w') -> opened fd w w' /\ zlen p' = zlen p /\ bytes_ok p';
    close_ok : forall fd w, xfds (x_close fd w) = xfds w ∖ {[fd]};
    ioctl_ok : forall fd r a w v w', x_ioctl fd r a w = (v, w') -> xfds w' = xfds w;
    ioctl_out_ok : forall fd r w v w', x_ioctl_out fd r w = (v, w') -> xfds w' = xfds w;
    setns_ok : forall fd f w v w', x_setns fd f w = (v, w') -> xfds w' = xfds w;
    write_ok : forall fd b w v w', x_write fd b w = (v, w') -> xfds w' = xfds w;
    read_ok : forall fd n w v b w', 0 <= n -> x_read fd n w = ((v, b), w') -> xfds w' = xfds w /\ zlen b = n /\ v <= n /\ bytes_ok b;
    mount_ok : forall a b c d e w v w', x_mount a b c d e w = (v, w') -> xfds w' = xfds w;
    chdir_ok : forall p w, xfds (x_chdir p w) = xfds w;
    mkdirs_ok : forall p w, xfds (x_mkdirs p w) = xfds w;
    save_ok : forall p b w v w', x_save p b w = (v, w') -> xfds w' = xfds w;
    remove_ok : forall p w, xfds (x_remove p w) = xfds w }.

(** * Addresses *)

Lemma in_arena_offset a : in_arena a = true -> 0 <= offset_of a < ARENA_SIZE.
Proof. unfold in_arena, offset_of. rewrite andb_true_iff, Z.leb_le, Z.ltb_lt. lia. Qed.

Lemma in_arena_end a n : in_arena a = true -> 0 < n <= 2 ^ 40 -> in_arena (as_i64 (a + (n - 1))) = true -> offset_of a + n <= ARENA_SIZE.
Proof.
  intros H Hn He. apply in_arena_offset in H, He. revert H He. unfold offset_of. rewrite as_u64_as_i64.
  assert (DATA_OFFSET + ARENA_SIZE < 2 ^ 46) as Hd by (vm_compute; done).
  intros H. assert (as_u64 (a + (n - 1)) = as_u64 a + (n - 1)) as ->; [|lia].
  unfold as_u64 in *. rewrite <- Zplus_mod_idemp_l. apply Z.mod_small. pose proof (Z.mod_pos_bound a (2 ^ 64)). assert (0 < ARENA_SIZE) by (vm_compute; done). lia.
Qed.

Section Contained.
Context {W : Type} `{!ExtHost W, !ExtLaws W}.
Context (K : Codes).

Lemma wp_cstr_loop m off n (Q : list Z -> Prop) F : 0 <= off -> off + Z.of_nat n <= zlen m -> (forall s, Q s) -> wp (cstr_loop m off n) Q F.
Proof.
  revert off Q. induction n as [|n IH]; intros off Q Ho Hl HQ; cbn [cstr_loop]; [apply HQ|].
  destruct (idx_Done m off) as (b & -> & _); [lia|]. cbn [mbind outcome_bind]. destruct (b =? 0); [apply HQ|].
  apply wp_bind, IH; [lia|lia|]. intros s. apply HQ.
Qed.

Lemma wp_cstr m a (Q : option (list Z) -> Prop) F : zlen m = ARENA_SIZE -> (forall s, Q s) -> wp (cstr m a) Q F.
Proof.
  intros Hm HQ. unfold cstr. destruct (in_arena a) eqn:E; [|apply HQ]. cbn [negb]. apply in_arena_offset in E.
  apply wp_bind, wp_cstr_loop; [lia| |intros s; apply HQ]. rewrite Z2Nat.id; lia.
Qed.

Lemma wp_arena_slice m a n (Q : option (list Z) -> Prop) F : zlen m = ARENA_SIZE -> 0 <= n <= MAX_IMAGE -> (forall s, Q s) -> wp (arena_slice m a n) Q F.
Proof.
  intros Hm Hn HQ. unfold arena_slice. destruct (Z.eqb_spec n 0); [apply HQ|]. destruct (in_arena a) eqn:Ea; [|apply HQ].
  destruct (in_arena (as_i64 (a + (n - 1)))) eqn:Ee; [|apply HQ]. cbn [negb orb].
  pose proof (in_arena_offset a Ea). assert (MAX_IMAGE <= 2 ^ 40) by (vm_compute; discriminate). pose proof (in_arena_end a n Ea ltac:(lia) Ee).
  destruct (slice_Done m (offset_of a) (offset_of a + n)) as (s & -> & _); [lia|lia|]. apply HQ.
Qed.

(** What a call may leave: the arena at its size, and as it was unless the call
    writes to it; the descriptors as they were but for the one it returns. *)
Definition contained (opener writer : bool) (m : list Z) (w : W) (r : (Z * Z) * (list Z * W)) : Prop :=
  let '((v, e), (m', w')) := r in
  zlen m' = zlen m /\ bytes_ok m' /\ (writer = false -> m' = m) /\
  if opener && (0 <=? v) then xfds w' = {[v]} ∪ xfds w /\ v ∉ xfds w else xfds w' = xfds w.

(** One operation of the host, with its law. *)
Ltac host_step :=
  match goal with
  | |- context [x_open ?p ?f ?w] => let E := fresh "E" in destruct (x_open p f w) as [? ?] eqn:E; apply open_ok in E; unfold opened in E
  | |- context [x_socket ?d ?t ?p ?w] => let E := fresh "E" in destruct (x_socket d t p w) as [? ?] eqn:E; apply socket_ok in E; unfold opened in E
  | |- context [x_ioctl ?f ?r ?a ?w] => let E := fresh "E" in destruct (x_ioctl f r a w) as [? ?] eqn:E; apply ioctl_ok in E
  | |- context [x_ioctl_out ?f ?r ?w] => let E := fresh "E" in destruct (x_ioctl_out f r w) as [[? ?] ?] eqn:E; apply ioctl_out_ok in E
  | |- context [x_setns ?f ?r ?w] => let E := fresh "E" in destruct (x_setns f r w) as [? ?] eqn:E; apply setns_ok in E
  | |- context [x_write ?f ?r ?w] => let E := fresh "E" in destruct (x_write f r w) as [? ?] eqn:E; apply write_ok in E
  | |- context [x_mount ?a ?b ?c ?d ?e ?w] => let E := fresh "E" in destruct (x_mount a b c d e w) as [? ?] eqn:E; apply mount_ok in E
  | |- context [x_save ?a ?b ?w] => let E := fresh "E" in destruct (x_save a b w) as [? ?] eqn:E; apply save_ok in E
  end.

(** A test of the sign of a result. *)
Ltac sign_step :=
  match goal with |- context [if ?x <? 0 then _ else _] => is_var x; destruct (Z.ltb_spec x 0) end.

Lemma drop_fd (fd : Z) (F G : gset Z) : F = {[fd]} ∪ G -> fd ∉ G -> F ∖ {[fd]} = G.
Proof. intros -> H. set_solver. Qed.

Lemma wp_ok m w r : zlen m = ARENA_SIZE -> bytes_ok m -> opened (fst r) w (snd r) -> wp (ok r m) (contained true false m w) False.
Proof.
  intros Hm Hb. destruct r as [fd w']. cbn [fst snd]. unfold ok, ret_, opened. destruct (Z.ltb_spec fd 0) as [H|H]; intros Ho; cbn [wp contained].
  - by split_and!.
  - rewrite (proj2 (Z.leb_le 0 fd)) by done. by split_and!.
Qed.

Lemma wp_open_path p fl m w w0 : zlen m = ARENA_SIZE -> bytes_ok m -> xfds w = xfds w0 -> wp (open_path K p fl m w) (contained true false m w0) False.
Proof.
  intros Hm Hb Hw. unfold open_path. destruct (has_nul p); [by cbn|].
  destruct (x_open p fl w) as [fd w'] eqn:E. apply open_ok in E. unfold opened in E. rewrite Hw in E. by apply (wp_ok m w0 (fd, w')).
Qed.

Lemma wp_open_dev args m w : zlen m = ARENA_SIZE -> bytes_ok m -> wp (syz_open_dev K args m w) (contained true false m w) False.
Proof.
  intros Hm Hb. unfold syz_open_dev. destruct (_ || _); [by apply wp_open_path|].
  apply wp_bind, wp_cstr; [done|]. intros [p|]; [by apply wp_open_path|by cbn].
Qed.

Lemma wp_open_procfs args m w : zlen m = ARENA_SIZE -> bytes_ok m -> wp (syz_open_procfs K args m w) (contained true false m w) False.
Proof.
  intros Hm Hb. unfold syz_open_procfs. apply wp_bind, wp_cstr; [done|]. intros [p|]; [|by cbn].
  apply wp_bind. eapply wp_mono; [by apply (wp_open_path _ _ m w w)| |done]. intros [[v e] [m' w']] (_ & _ & Hm' & Hf).
  rewrite Hm' by done. destruct (Z.ltb_spec v 0) as [H|H]; [|by cbn].
  rewrite (proj2 (Z.leb_gt _ _)) in Hf by done. by apply wp_open_path.
Qed.

Lemma wp_open_pts args m w : zlen m = ARENA_SIZE -> bytes_ok m -> wp (syz_open_pts K args m w) (contained true false m w) False.
Proof. intros Hm Hb. unfold syz_open_pts. host_step. sign_step; [by cbn|by apply wp_open_path]. Qed.

Lemma wp_net_socket args m w : zlen m = ARENA_SIZE -> bytes_ok m -> wp (syz_init_net_socket K args m w) (contained true false m w) False.
Proof.
  intros Hm Hb. unfold syz_init_net_socket. host_step. rename z into ns, w0 into w1. destruct (Z.ltb_spec ns 0) as [H1|H1].
  { destruct (x_socket _ _ _ w1) as [fd w2] eqn:E2. apply socket_ok in E2. unfold opened in E2. rewrite E in E2. by apply (wp_ok m w (fd, w2)). }
  destruct E as [E N]. host_step. rename z into old, w0 into w2. host_step. rename z into en, w0 into w3. host_step. rename z into fd, w0 into w4.
  set (w5 := if _ && _ then _ else w4). assert (xfds w5 = xfds w4) as H5.
  { subst w5. destruct (_ && _); [|done]. destruct (x_setns old _ w4) as [? ?] eqn:E5. by apply setns_ok in E5. }
  clearbody w5. set (w6 := if 0 <=? old then _ else _).
  assert (if fd <? 0 then xfds w6 = xfds w else xfds w6 = {[fd]} ∪ xfds w /\ fd ∉ xfds w) as H6; [|].
  { subst w6. rewrite E1 in *. destruct (Z.leb_spec 0 old) as [Ho|Ho].
    - rewrite (proj2 (Z.ltb_ge old 0)) in E0 by lia. destruct E0 as [E0 N0]. rewrite !close_ok, H5.
      destruct (fd <? 0); [|destruct E2 as [E2 N2]]; rewrite E2, ?E0, ?E in *; [set_solver|]. split; set_solver.
    - rewrite (proj2 (Z.ltb_lt old 0)) in E0 by lia. rewrite close_ok, H5.
      destruct (fd <? 0); [|destruct E2 as [E2 N2]]; rewrite E2, ?E0, ?E in *; [set_solver|]. split; set_solver. }
  unfold ret_. destruct (Z.ltb_spec fd 0); cbn [wp contained]; [by split_and!|]. rewrite (proj2 (Z.leb_le 0 fd)) by done. by split_and!.
Qed.

Lemma wp_memcpy args m w : zlen m = ARENA_SIZE -> bytes_ok m -> wp (syz_memcpy_off K args m w) (contained false true m w) False.
Proof.
  intros Hm Hb. unfold syz_memcpy_off. set (n := Z.max (arg args 4) 0). destruct (Z.eqb_spec n 0); [by cbn|].
  set (dst := as_i64 _). set (src := as_i64 _). destruct (in_arena dst) eqn:Ed; [|by cbn]. destruct (in_arena src) eqn:Es; [|by cbn].
  destruct (Z.ltb_spec ARENA_SIZE n); [by cbn|]. cbn [negb orb].
  destruct (in_arena (as_i64 (dst + _))) eqn:Ed'; [|by cbn]. destruct (in_arena (as_i64 (src + _))) eqn:Es'; [|by cbn]. cbn [negb orb].
  assert (ARENA_SIZE <= 2 ^ 40) by (vm_compute; discriminate). assert (0 <= n) by lia.
  pose proof (in_arena_offset _ Ed). pose proof (in_arena_offset _ Es).
  pose proof (in_arena_end dst n Ed ltac:(lia) Ed'). pose proof (in_arena_end src n Es ltac:(lia) Es').
  unfold copy_within. destruct (slice_Done m (offset_of src) (offset_of src + n)) as (b & Eb & Hz); [lia|lia|]. rewrite Eb. cbn [or_panic mbind outcome_bind].
  rewrite (proj2 (Z.leb_le _ _)) by lia. cbn [mbind outcome_bind wp ret_ contained]. split_and!; [|  |done|done].
  - apply zlen_blit; lia.
  - apply bytes_blit; [done|]. by eapply slice_bytes_ok.
Qed.

Lemma wp_u16_at l i (Q : Z -> Prop) F : bytes_ok l -> 0 <= i -> i + 2 <= zlen l -> (forall v, 0 <= v < 2 ^ 16 -> Q v) -> wp (u16_at l i) Q F.
Proof.
  intros Hb Hi Hl HQ. unfold u16_at. apply wp_bind, wp_idx; [done|lia|]. intros a Ha _. apply wp_bind, wp_idx; [done|lia|]. intros b Hb' _.
  apply HQ. unfold is_u8 in *. cbn. lia.
Qed.

Lemma wp_attr_step rsp n off (P : Prop) : bytes_ok rsp -> n <= zlen rsp -> 0 <= off ->
  wp (attr_step rsp n off) (fun c => match c with Next off' => 0 <= off' /\ off + 4 <= off' /\ off < n | Stop (Some v) => 0 <= v < 2 ^ 16 | Stop None => True end) P.
Proof.
  intros Hb Hn Ho. unfold attr_step. destruct (Z.leb_spec (off + 4) n); [|done].
  apply wp_bind, wp_u16_at; [done|lia|lia|]. intros alen Ha. apply wp_bind, wp_u16_at; [done|lia|lia|]. intros ty _.
  destruct (Z.ltb_spec alen 4); [done|]. destruct (Z.ltb_spec n (off + alen)); [done|]. cbn [orb].
  destruct ((ty =? CTRL_ATTR_FAMILY_ID) && (6 <=? alen)) eqn:E.
  - apply andb_prop in E as [_ E%Z.leb_le]. apply wp_bind, wp_u16_at; [done|lia|lia|]. done.
  - cbn [wp]. split_and!; [|Z.to_euclidean_division_equations; lia|lia]. apply Z.add_nonneg_nonneg; [done|]. apply Z.mul_nonneg_nonneg; [apply Z.div_pos; lia|lia].
Qed.

Lemma wp_family_id rsp n (P : Prop) : bytes_ok rsp -> n <= zlen rsp ->
  wp (family_id rsp n) (fun r => match r with Some v => 0 <= v < 2 ^ 16 | None => True end) P.
Proof.
  intros Hb Hn. unfold family_id. apply (wp_loop (fun off => 0 <= off) (fun off => Z.max 0 (zlen rsp - off))).
  - intros off Ho. eapply wp_mono; [by apply (wp_attr_step rsp n off P)| |done]. intros [off'|[v|]]; try done. lia.
  - lia.
  - unfold zlen. lia.
Qed.

Lemma wp_genetlink args m w : zlen m = ARENA_SIZE -> bytes_ok m -> wp (syz_genetlink_get_family_id K args m w) (contained false false m w) False.
Proof.
  intros Hm Hb. unfold syz_genetlink_get_family_id. apply wp_bind, wp_cstr; [done|]. intros [name|]; [|by cbn].
  host_step. sign_step; [by cbn|]. destruct E as [E N]. host_step. rewrite E in E0. pose proof (drop_fd _ _ _ E0 N) as D.
  sign_step; [cbn; by rewrite close_ok|]. destruct (x_read _ _ _) as [[n rsp] w3] eqn:E3. apply read_ok in E3 as (E3 & Hz & Hn & Hbr); [|lia].
  assert (xfds (x_close z w3) = xfds w) as Hc by (rewrite close_ok, E3; exact D).
  destruct (Z.ltb_spec n 20); [by cbn|]. apply wp_bind. eapply wp_mono; [apply wp_family_id; [done|lia]| |done].
  intros [v|] _; cbn; by split_and!.
Qed.

(** Where the parameters of the one call lie that the kernel gets a pointer of. *)
Definition params_inside (base : list Z) (args : list Z) : Prop :=
  base = bs "syz_io_uring_setup" -> in_arena (arg args 1) = true -> offset_of (arg args 1) + PARAMS_SIZE <= ARENA_SIZE.

Lemma wp_uring args m w : zlen m = ARENA_SIZE -> bytes_ok m -> params_inside (bs "syz_io_uring_setup") args ->
  wp (syz_io_uring_setup K args m w) (contained true true m w) False.
Proof.
  intros Hm Hb Hp. specialize (Hp eq_refl). unfold syz_io_uring_setup. destruct (in_arena _) eqn:Ea; [|by cbn]. specialize (Hp eq_refl). cbn [negb].
  pose proof (in_arena_offset _ Ea) as Ho. set (off := offset_of (arg args 1)) in *. assert (0 <= PARAMS_SIZE) by (vm_compute; discriminate).
  destruct (slice_Done m off (off + PARAMS_SIZE)) as (p & Ep & Hz); [lia|lia|]. rewrite Ep. cbn [or_panic mbind outcome_bind].
  destruct (x_uring_setup _ p w) as [[fd p'] w'] eqn:E. apply uring_ok in E as (E & Hz' & Hb'); [|by eapply slice_bytes_ok]. unfold opened in E.
  assert (zlen (blit m off p') = zlen m) by (apply zlen_blit; lia). assert (bytes_ok (blit m off p')) by (by apply bytes_blit). unfold ret_.
  destruct (Z.ltb_spec fd 0); cbn [wp contained andb].
  - by split_and!.
  - destruct E. rewrite (proj2 (Z.leb_le 0 fd)) by done. by split_and!.
Qed.

Lemma wp_emit args m w : zlen m = ARENA_SIZE -> bytes_ok m -> wp (syz_emit_ethernet K args m w) (contained false false m w) False.
Proof.
  intros Hm Hb. unfold syz_emit_ethernet. set (n := Z.max (arg args 0) 0). set (buf := arg args 1). destruct (in_arena buf) eqn:Ea; [|by cbn].
  destruct (Z.eqb_spec n 0); [by cbn|]. destruct (Z.ltb_spec (Z.shiftl 64 10) n); [by cbn|].
  destruct (in_arena (as_i64 (buf + _))) eqn:Ee; [|by cbn]. cbn [negb orb]. assert (Z.shiftl 64 10 <= 2 ^ 40) by (vm_compute; discriminate).
  pose proof (in_arena_offset _ Ea). pose proof (in_arena_end buf n Ea ltac:(lia) Ee).
  host_step. sign_step; [by cbn|]. destruct E as [E N]. host_step. rewrite E in E0. pose proof (drop_fd _ _ _ E0 N) as D.
  sign_step; [cbn; by rewrite close_ok|].
  destruct (slice_Done m (offset_of buf) (offset_of buf + n)) as (b & -> & _); [lia|lia|]. cbn [or_panic mbind outcome_bind].
  host_step. unfold ret_. destruct (_ <? 0); cbn; rewrite close_ok, E1; by split_and!.
Qed.

(** Attaching an image leaves the device's descriptor or none. *)
Lemma attach_fds img w r w' : attach_loop K img w = (r, w') ->
  match r with Some (_, lfd) => xfds w' = {[lfd]} ∪ xfds w /\ lfd ∉ xfds w | None => xfds w' = xfds w end.
Proof.
  unfold attach_loop. host_step. destruct (negb b); [by intros [= <- <-]|].
  host_step. rewrite E in E0. sign_step; [by intros [= <- <-]|]. destruct E0 as [E0 N0]. host_step. rewrite E0 in E1.
  set (w4 := x_close z _). assert (xfds w4 = xfds w) as H4 by (subst w4; rewrite close_ok; by apply drop_fd). clearbody w4.
  sign_step; [by intros [= <- <-]|]. host_step. rewrite H4 in E2. sign_step; [by intros [= <- <-]|]. destruct E2 as [E2 N2].
  host_step. rewrite E2 in E3. sign_step; [intros [= <- <-]; rewrite close_ok, E3; by apply drop_fd|]. destruct E3 as [E3 N3].
  host_step. set (w7 := x_close _ w6). assert (xfds w7 = {[z1]} ∪ xfds w) as H7 by (subst w7; rewrite close_ok, E4; by apply drop_fd). clearbody w7.
  sign_step; intros [= <- <-]; [rewrite close_ok, H7; by apply drop_fd|]. by split.
Qed.

Lemma detach_fds lfd w F : xfds w = {[lfd]} ∪ F -> lfd ∉ F -> xfds (detach_loop lfd w) = F.
Proof. intros E N. unfold detach_loop. host_step. rewrite remove_ok, close_ok, E0. by apply drop_fd. Qed.

Lemma wp_mount args m w : zlen m = ARENA_SIZE -> bytes_ok m -> wp (syz_mount_image K args m w) (contained false false m w) False.
Proof.
  intros Hm Hb. unfold syz_mount_image. apply wp_bind, wp_cstr; [done|]. intros fs. apply wp_bind, wp_cstr; [done|]. intros dir.
  destruct fs as [fs|], dir as [dir|]; [|by cbn..]. assert (0 <= MAX_IMAGE) by (vm_compute; discriminate).
  apply wp_bind, wp_arena_slice; [done|lia|]. intros [img|]; [|by cbn].
  destruct (attach_loop K img w) as [[[p lfd]|] w1] eqn:E; apply attach_fds in E; [|by cbn]. destruct E as [E N].
  set (w2 := x_mkdirs dir w1). assert (xfds w2 = {[lfd]} ∪ xfds w) as E2 by (subst w2; by rewrite mkdirs_ok). clearbody w2.
  destruct (_ || _); [cbn; split_and!; try done; by apply detach_fds|].
  apply wp_bind, wp_cstr; [done|]. intros o. host_step. rewrite E2 in E0. sign_step; [cbn; split_and!; try done; by apply detach_fds|].
  destruct (negb _); cbn; rewrite close_ok, ?chdir_ok; split_and!; try done; by apply drop_fd.
Qed.

Lemma wp_part_table args m w : zlen m = ARENA_SIZE -> bytes_ok m -> wp (syz_read_part_table K args m w) (contained false false m w) False.
Proof.
  intros Hm Hb. unfold syz_read_part_table. assert (0 <= MAX_IMAGE) by (vm_compute; discriminate).
  apply wp_bind, wp_arena_slice; [done|lia|]. intros [img|]; [|by cbn].
  destruct (attach_loop K img w) as [[[p lfd]|] w1] eqn:E; apply attach_fds in E; [|by cbn]. destruct E as [E N].
  host_step. rewrite E in E0. unfold ret_. destruct (_ <? 0); cbn; split_and!; try done; by apply detach_fds.
Qed.

(** * The properties *)

Definition openers : list (list Z) :=
  bs <$> ["syz_open_dev"; "syz_open_procfs"; "syz_open_pts"; "syz_init_net_socket"; "syz_io_uring_setup"]%string.
Definition writers : list (list Z) := bs <$> ["syz_memcpy_off"; "syz_io_uring_setup"]%string.

Lemma wp_dispatch base args m (w : W) : zlen m = ARENA_SIZE -> bytes_ok m -> params_inside base args ->
  wp (dispatch K base args m w) (contained (bool_decide (base ∈ openers)) (bool_decide (base ∈ writers)) m w) False.
Proof.
  intros Hm Hb Hp. unfold dispatch. destruct (List.find _ _) as [[name f]|] eqn:E.
  - apply List.find_some in E as [Hin E%bool_decide_eq_true]. cbn [fst] in E. subst name.
    repeat (destruct Hin as [[= <- <-]|Hin]; [eauto using wp_open_dev, wp_open_procfs, wp_open_pts, wp_net_socket, wp_memcpy, wp_genetlink, wp_uring, wp_emit, wp_mount, wp_part_table|]); [|done].
    cbn. split_and!; try done.
  - cbn. split_and!; try done. by destruct (bool_decide _).
Qed.

(** C31: A pseudo-system-call stays inside the arena and leaks nothing.  On a
    mapped arena, whatever the call, its arguments and the answers of the host,
    the dispatcher returns without an access outside the arena; the arena keeps
    its size, and its bytes unless the call is one of the two that write to it;
    and the process has the descriptors it had before, and one more exactly when
    the call is one that opens and returns a descriptor.  For syz_io_uring_setup,
    which checks the first byte of its parameters only, this needs the 120 bytes
    of an io_uring_params to fit between their address and the arena's end
    ([uring_reaches_out] is the other case). *)
Theorem dispatch_contained base args m (w : W) : zlen m = ARENA_SIZE -> bytes_ok m -> params_inside base args ->
  exists v e m' w', dispatch K base args m w = Done ((v, e), (m', w')) /\
    zlen m' = zlen m /\ bytes_ok m' /\ (base ∉ writers -> m' = m) /\
    if bool_decide (base ∈ openers) && (0 <=? v) then xfds w' = {[v]} ∪ xfds w /\ v ∉ xfds w else xfds w' = xfds w.
Proof.
  intros Hm Hb Hp.
  pose proof (wp_dispatch base args m w Hm Hb Hp) as H.
  unfold wp in H. destruct (dispatch K base args m w) as [[[v e] [m' w']]| | |]; try done. destruct H as (H1 & H2 & H3 & H4).
  exists v, e, m', w'. split_and!; try done. intros Hn. apply H3. by apply bool_decide_false.
Qed.

(** Parameters that start in the arena's last 119 bytes pass the check, and the
    system call is given a pointer to memory that ends outside it. *)
Lemma uring_reaches_out args m (w : W) : zlen m = ARENA_SIZE -> in_arena (arg args 1) = true ->
  ARENA_SIZE < offset_of (arg args 1) + PARAMS_SIZE -> dispatch K (bs "syz_io_uring_setup") args m w = Panic.
Proof.
  intros Hm Ha Hp. change (dispatch K (bs "syz_io_uring_setup") args m w) with (syz_io_uring_setup K args m w).
  unfold syz_io_uring_setup. rewrite Ha. cbn [negb]. destruct (slice m _ _) eqn:E; [|done]. apply slice_Some in E. lia.
Qed.
End Contained.

(** * A well-formed reply *)

(** An attribute: type and payload, padded to four bytes. *)
Definition encode_attr (a : Z * list Z) : list Z :=
  le_bytes 2 (4 + zlen (snd a)) ++ le_bytes 2 (fst a) ++ snd a ++ replicate (Z.to_nat ((zlen (snd a) + 3) / 4 * 4 - zlen (snd a))) 0.
Definition attr_ok (a : Z * list Z) : Prop := 0 <= fst a < 2 ^ 16 /\ zlen (snd a) < 2 ^ 16 - 4.

Lemma zlen_attr a : zlen (encode_attr a) = (4 + zlen (snd a) + 3) / 4 * 4.
Proof.
  unfold encode_attr. rewrite !zlen_app. pose proof (zlen_nonneg (snd a)).
  rewrite !zlen_le_bytes.
  assert (forall k, zlen (replicate k 0) = Z.of_nat k) as Hr by (intros; unfold zlen; by rewrite length_replicate). rewrite Hr.
  Z.to_euclidean_division_equations. lia.
Qed.

Lemma u16_le pre v post i : i = zlen pre -> 0 <= v < 2 ^ 16 -> u16_at (pre ++ le_bytes 2 v ++ post) i = Done v.
Proof.
  intros -> Hv. unfold u16_at, idx. pose proof (get_app_r pre (le_bytes 2 v ++ post) 0 ltac:(lia)) as H0. rewrite Z.add_0_r in H0.
  rewrite H0, get_app_r by lia. cbn [le_bytes app].
  assert (le_val [v mod 256; v / 256 mod 256] = v) as E by (cbn [le_val]; Z.to_euclidean_division_equations; lia).
  revert E. generalize (v mod 256), (v / 256 mod 256). intros a b E. cbn [app]. change (get (a :: b :: post) 0) with (Some a).
  pose proof (get_app_r [a] (b :: post) 0 ltac:(lia)) as H1. change (zlen [a] + 0) with 1 in H1. cbn [app] in H1. rewrite H1.
  change (get (b :: post) 0) with (Some b). cbn [or_panic mbind outcome_bind]. by rewrite E.
Qed.

(** The walk over one attribute that lies within the reply. *)
Lemma attr_step_at pre a post n : attr_ok a -> zlen pre + 4 + zlen (snd a) <= n ->
  attr_step (pre ++ encode_attr a ++ post) n (zlen pre) =
  (if (fst a =? CTRL_ATTR_FAMILY_ID) && (2 <=? zlen (snd a)) then id ← u16_at (snd a ++ drop (length (snd a) + 4) (encode_attr a) ++ post) 0; Done (Stop (Some id))
   else Done (Next (zlen (pre ++ encode_attr a)))).
Proof.
  intros [Ht Hl] Hn. destruct a as [ty p]. cbn [fst snd] in *. pose proof (zlen_nonneg p). unfold attr_step. rewrite (proj2 (Z.leb_le _ _)) by lia.
  rewrite zlen_app, zlen_attr. unfold encode_attr. cbn [fst snd]. set (pad := replicate _ 0). rewrite <- !app_assoc.
  rewrite (u16_le pre (4 + zlen p) (le_bytes 2 ty ++ p ++ pad ++ post) (zlen pre)) by (done || lia). cbn [mbind outcome_bind].
  pose proof (u16_le (pre ++ le_bytes 2 (4 + zlen p)) ty (p ++ pad ++ post) (zlen pre + 2)) as H2. rewrite <- app_assoc in H2.
  rewrite H2 by (rewrite ?zlen_app; (unfold zlen at 3; rewrite length_le_bytes; lia) || done). cbn [mbind outcome_bind].
  rewrite (proj2 (Z.ltb_ge (4 + zlen p) 4)), (proj2 (Z.ltb_ge n _)) by lia. cbn [orb].
  replace (6 <=? 4 + zlen p) with (2 <=? zlen p) by (destruct (Z.leb_spec 2 (zlen p)), (Z.leb_spec 6 (4 + zlen p)); lia || done).
  destruct (_ && _); [|done].
  replace (drop (length p + 4) (le_bytes 2 (4 + zlen p) ++ le_bytes 2 ty ++ p ++ pad)) with pad.
  2: { rewrite !app_assoc, drop_app_ge by (rewrite !length_app, !length_le_bytes; lia). rewrite !length_app, !length_le_bytes.
       by replace (length p + 4 - (2 + 2 + length p))%nat with 0%nat by lia. }
  f_equal. unfold u16_at, idx. rewrite (app_assoc (le_bytes 2 _)), (app_assoc pre).
  replace (zlen pre + 4) with (zlen (pre ++ le_bytes 2 (4 + zlen p) ++ le_bytes 2 ty) + 0) by (rewrite !zlen_app; unfold zlen; rewrite !length_le_bytes; lia).
  rewrite <- Z.add_assoc, !get_app_r by lia. done.
Qed.

(** The family number is found.  In a reply that holds, after its 20
    bytes of headers, any attributes of other types and then the attribute with
    the number, the walk returns that number, whatever follows. *)
Theorem family_id_found hdr attrs id rest n : zlen hdr = 20 -> Forall (fun a => attr_ok a /\ fst a <> CTRL_ATTR_FAMILY_ID) attrs -> 0 <= id < 2 ^ 16 ->
  let rsp := hdr ++ concat (encode_attr <$> attrs) ++ encode_attr (CTRL_ATTR_FAMILY_ID, le_bytes 2 id) ++ rest in
  zlen hdr + zlen (concat (encode_attr <$> attrs)) + 6 <= n -> family_id rsp n = Done (Some id).
Proof.
  intros Hh Ha Hid rsp Hn. unfold family_id. apply (loop_mono _ (S (length attrs))).
  { subst rsp. rewrite !length_app. assert (length attrs <= length (concat (encode_attr <$> attrs)))%nat; [|lia].
    clear. induction attrs as [|a attrs IH]; [done|]. cbn [fmap list_fmap concat length]. rewrite length_app. unfold encode_attr at 1. rewrite length_app, length_le_bytes. lia. }
  rewrite <- Hh. subst rsp. clear Hh. revert hdr Hn. induction Ha as [|a attrs [Hok Hne] _ IH]; intros hdr Hn; cbn [fmap list_fmap concat length] in *; rewrite loop_S.
  - cbn [app]. change (zlen []) with 0 in Hn.
    rewrite attr_step_at by (unfold attr_ok; cbn [fst snd]; change (zlen (le_bytes 2 id)) with 2; unfold CTRL_ATTR_FAMILY_ID; (lia || (split; lia))).
    cbn [fst snd]. cbn [Z.eqb CTRL_ATTR_FAMILY_ID Pos.eqb].
    change (zlen (le_bytes 2 id)) with 2. cbn [Z.leb Z.compare Pos.compare Pos.compare_cont andb].
    pose proof (u16_le [] id (drop (length (le_bytes 2 id) + 4) (encode_attr (CTRL_ATTR_FAMILY_ID, le_bytes 2 id)) ++ rest) 0 eq_refl Hid) as H1.
    cbn [app] in H1. by rewrite H1.
  - rewrite zlen_app, zlen_attr in Hn. pose proof (zlen_nonneg (concat (encode_attr <$> attrs))).
    assert (4 + zlen (snd a) <= (4 + zlen (snd a) + 3) / 4 * 4) by (Z.to_euclidean_division_equations; lia).
    rewrite <- app_assoc, attr_step_at by (done || lia). rewrite (proj2 (Z.eqb_neq _ _) Hne). cbn [andb mbind outcome_bind].
    rewrite (app_assoc hdr). apply IH. rewrite zlen_app, zlen_attr. lia.
Qed.

Lemma family_id_found_witness :
  family_id (replicate 20 7 ++ encode_attr (2, bs "nl80211" ++ [0]) ++ encode_attr (1, le_bytes 2 28) ++ [9; 9]) 42 = Done (Some 28).
Proof.
  apply (family_id_found (replicate 20 7) [(2, bs "nl80211" ++ [0])] 28 [9; 9] 42); [done| |lia|vm_compute; discriminate].
  constructor; [|constructor]. split; [split; vm_compute; (done || (split; [discriminate|done]))|discriminate].
Defined.

(** * A concrete host: the set of open descriptors *)

#[export] Instance set_host : ExtHost (gset Z) :=
  let op w := (let fd := fresh w in if fd <? 0 then (-1, w) else (fd, {[fd]} ∪ w)) in
  {| x_open _ _ w := op w; x_close fd w := w ∖ {[fd]}; x_ioctl _ _ _ w := (0, w); x_ioctl_out _ _ w := ((0, 1), w); x_socket _ _ _ w := op w;
     x_setns _ _ w := (-1, w); x_write _ b w := (zlen b, w); x_read _ n w := ((0, replicate (Z.to_nat n) 0), w);
     x_uring_setup _ p w := ((-1, p), w); x_mount _ _ _ _ _ w := (0, w); x_chdir _ w := w; x_mkdirs _ w := w; x_save _ _ w := (true, w);
     x_remove _ w := w; x_getpid _ := 42; x_errno _ := 5 |}.

Lemma set_host_open (w : gset Z) fd w' : (let fd := fresh w in if fd <? 0 then (-1, w) else (fd, {[fd]} ∪ w)) = (fd, w') ->
  if fd <? 0 then w' = w else w' = {[fd]} ∪ w /\ fd ∉ w.
Proof. cbn. destruct (fresh w <? 0) eqn:E; intros [= <- <-]; [done|]. rewrite E. split; [done|apply is_fresh]. Qed.

#[export] Instance set_laws : ExtLaws (gset Z).
Proof.
  refine {| xfds := fun w => w |}; try (intros; cbn in *; by simplify_eq).
  - intros p fl w fd w'. apply set_host_open.
  - intros d t p w fd w'. apply set_host_open.
  - intros fd n w v b w' Hn [= <- <- <-]. split_and!; [done| |done|].
    + unfold zlen. rewrite length_replicate. lia.
    + apply Forall_replicate. unfold is_u8. lia.
Defined.

Definition codes : Codes := MkCodes 22 14 19 38 2 0 2 2048 64 1073741824 16 3.

Lemma dispatch_contained_witness : let m := replicate (Z.to_nat ARENA_SIZE) 0 in
  exists v e m' w', dispatch codes (bs "syz_io_uring_setup") [8; DATA_OFFSET + 64; 0; 0; 0; 0; 0] m ({[0; 1; 2]} : gset Z) = Done ((v, e), (m', w')) /\
    zlen m' = zlen m /\ bytes_ok m' /\ (bs "syz_io_uring_setup" ∉ writers -> m' = m) /\
    if bool_decide (bs "syz_io_uring_setup" ∈ openers) && (0 <=? v) then xfds w' = {[v]} ∪ xfds {[0; 1; 2]} /\ v ∉ xfds {[0; 1; 2]} else xfds w' = xfds {[0; 1; 2]}.
Proof.
  intros m. apply (dispatch_contained codes (bs "syz_io_uring_setup")).
  - subst m. unfold zlen. rewrite length_replicate. apply Z2Nat.id. by apply (Z.leb_le 0 ARENA_SIZE).
  - apply Forall_replicate. unfold is_u8. lia.
  - intros _ _. by apply Z.leb_le.
Defined.
