(* ===== verification/PerfSession.v ===== *)
(** mode/engine.rs: the perf session of hardware tracing, and the AMD decoder.

    The host is an instance of the class [PerfHost]: [perf_event_open], mappings
    as lists of bytes, the files of sysfs.  A read outside a mapping is [Panic].
    Shown: a session that fails to start leaks nothing and one that started
    gives everything back; the decoder logs the kernel addresses of the sample
    records of both rings, every record oldest branch first, merged by time
    with equal times in arrival order.  A record that wraps around the end of
    its ring is read past the mapping, and a record of size 0 is read for
    ever. *)
From stdpp Require Import gmap.
From S2P Require Import Prelude Text PtPacket PtDecoder.

Definition PERF_EVENT_IOC_ENABLE : Z := 0x2400.
Definition PERF_EVENT_IOC_DISABLE : Z := 0x2401.
Definition PERF_TYPE_HARDWARE : Z := 0.
Definition PERF_COUNT_HW_CPU_CYCLES : Z := 0.
Definition PERF_SAMPLE_IP : Z := Z.shiftl 1 0.
Definition PERF_SAMPLE_TIME : Z := Z.shiftl 1 2.
Definition PERF_SAMPLE_BRANCH_STACK : Z := Z.shiftl 1 11.
Definition PERF_SAMPLE_BRANCH_KERNEL : Z := Z.shiftl 1 1.
Definition PERF_SAMPLE_BRANCH_ANY : Z := Z.shiftl 1 3.
Definition PERF_RECORD_SAMPLE : Z := 9.
Definition ATTR_DISABLED : Z := Z.shiftl 1 0.
Definition ATTR_EXCLUDE_USER : Z := Z.shiftl 1 4.
Definition ATTR_FREQ : Z := Z.shiftl 1 10.
Definition OFF_DATA_HEAD : Z := 1024.
Definition OFF_DATA_TAIL : Z := 1032.
Definition OFF_AUX_HEAD : Z := 1056.
Definition OFF_AUX_OFFSET : Z := 1072.
Definition OFF_AUX_SIZE : Z := 1080.
Definition AUX_SIZE : Z := 4 * 1024 * 1024.
Definition INTEL_MMAP_PAGES : Z := 1.
Definition AMD_MMAP_PAGES : Z := 128.

(** The fields of [perf_event_attr] the file sets; the others are 0. *)
Record PerfEventAttr : Type := MkAttr
  { type_ : Z; config : Z; sample_period_or_freq : Z; sample_type : Z; flags : Z; wakeup : Z; branch_sample_type : Z }.

Class PerfHost (W : Type) : Type :=
  { perf_event_open : PerfEventAttr -> Z -> W -> Z * W;
    pm_mmap : Z -> Z -> bool -> Z -> W -> option Z * W;    (* fd, size, writable, offset *)
    pm_munmap : Z -> Z -> W -> W;
    pm_close : Z -> W -> W;
    pm_ioctl : Z -> Z -> W -> W;
    pm_mem : Z -> W -> list Z;                             (* the bytes of a mapping *)
    pm_poke : Z -> Z -> Z -> W -> W;                       (* mapping, offset, a word *)
    pm_file : list Z -> W -> option (list Z);
    pm_exists : list Z -> W -> bool;
    pm_store : list Z -> list Z -> W -> bool * W }.

(** [read_volatile] and [read_unaligned] of a word of [n] bytes. *)
Definition read_le (n : Z) (mem : list Z) (off : Z) : outcome Z := b ← or_panic (slice mem off (off + n)); Done (le_val b).
Definition read_u64 : list Z -> Z -> outcome Z := read_le 8.

(** [atoi]: white space, a sign, digits; [0] when they are no number. *)
Fixpoint digits_prefix (s : list Z) : list Z :=
  match s with c :: s => if is_ascii_digit c then c :: digits_prefix s else [] | [] => [] end.
Definition parse_leading_int (s : list Z) : option Z :=
  let t := trim_start s in
  let num := match t with
             | c :: r => if (c =? 43) || (c =? 45) then c :: digits_prefix r else digits_prefix t
             | [] => []
             end in
  if bool_decide (num = []) then Some 0 else Some (default 0 (parse_i32 num)).

Record Session : Type := MkSession
  { perf_fd : Z; base : option Z; mmap_size : Z; aux_buf : option Z; aux_size : Z; amd_lbr : bool;
    ibs_fd : Z; ibs_base : option Z; ibs_size : Z }.

Section Session.
Context {W : Type} `{!PerfHost W}.

Definition intel_pt_available (w : W) : bool :=
  pm_exists (bs "/sys/bus/event_source/devices/intel_pt") w || pm_exists (bs "/sys/bus/event_source/devices/cs_etm") w.
Definition amd_lbr_available (w : W) : bool :=
  match pm_file (bs "/proc/cpuinfo") w with
  | Some s => match find_sub (bs "AuthenticAMD") s with Some _ => true | None => false end
  | None => false
  end.

Definition pmu_type (name : list Z) (w : W) : option Z :=
  s ← pm_file (bs "/sys/bus/event_source/devices/" ++ name ++ bs "/type") w; v ← parse_leading_int s; Some (as_u32 v).

Definition intel_pt_start (pid : Z) (w : W) : option Session * W :=
  let text := match pm_file (bs "/sys/bus/event_source/devices/intel_pt/type") w with
              | Some s => Some s
              | None => pm_file (bs "/sys/bus/event_source/devices/cs_etm/type") w
              end in
  match text ≫= parse_leading_int with
  | None => (None, w)
  | Some t =>
      if t <? 0 then (None, w) else
      let '(fd, w) := perf_event_open (MkAttr (as_u32 t) 0 0 0 (Z.lor ATTR_DISABLED ATTR_EXCLUDE_USER) 0 0) pid w in
      if fd <? 0 then (None, w) else
      let mmap_size := (INTEL_MMAP_PAGES + 1) * 4096 in
      let '(b, w) := pm_mmap fd mmap_size true 0 w in
      match b with
      | None => (None, pm_close fd w)
      | Some b =>
          let w := pm_poke b OFF_AUX_SIZE AUX_SIZE (pm_poke b OFF_AUX_OFFSET mmap_size w) in
          let '(a, w) := pm_mmap fd AUX_SIZE false mmap_size w in
          match a with
          | None => (None, pm_close fd (pm_munmap b mmap_size w))
          | Some a => (Some (MkSession fd (Some b) mmap_size (Some a) AUX_SIZE false (-1) None 0), pm_ioctl fd PERF_EVENT_IOC_ENABLE w)
          end
      end
  end.

Definition lbr_attr : PerfEventAttr :=
  MkAttr PERF_TYPE_HARDWARE PERF_COUNT_HW_CPU_CYCLES 10000 (Z.lor (Z.lor PERF_SAMPLE_IP PERF_SAMPLE_TIME) PERF_SAMPLE_BRANCH_STACK)
    (Z.lor (Z.lor ATTR_DISABLED ATTR_EXCLUDE_USER) ATTR_FREQ) 1 (Z.lor PERF_SAMPLE_BRANCH_KERNEL PERF_SAMPLE_BRANCH_ANY).
Definition ip_attr : PerfEventAttr :=
  MkAttr PERF_TYPE_HARDWARE PERF_COUNT_HW_CPU_CYCLES 4000 (Z.lor PERF_SAMPLE_IP PERF_SAMPLE_TIME) (Z.lor ATTR_DISABLED ATTR_EXCLUDE_USER) 1 0.
Definition ibs_attr (t flags : Z) : PerfEventAttr := MkAttr t 0 10000 (Z.lor PERF_SAMPLE_IP PERF_SAMPLE_TIME) flags 1 0.

Definition map_ring (fd size : Z) (w : W) : option Z * W := pm_mmap fd size true 0 w.

(** The second event: the first set of flags that opens and maps. *)
Fixpoint ibs_open (t pid size : Z) (fl : list Z) (w : W) : (Z * option Z) * W :=
  match fl with
  | [] => ((-1, None), w)
  | f :: fl =>
      let '(fd, w) := perf_event_open (ibs_attr t f) pid w in
      if 0 <=? fd then
        let '(b, w) := map_ring fd size w in
        match b with
        | Some b => ((fd, Some b), w)
        | None => ibs_open t pid size fl (pm_close fd w)
        end
      else ibs_open t pid size fl w
  end.

Definition amd_lbr_start (pid : Z) (w : W) : option Session * W :=
  let '(fd, w) := perf_event_open lbr_attr pid w in
  let '(fd, w) := if fd <? 0 then perf_event_open ip_attr pid w else (fd, w) in
  if fd <? 0 then (None, w) else
  let mmap_size := (AMD_MMAP_PAGES + 1) * 4096 in
  let '(b, w) := map_ring fd mmap_size w in
  match b with
  | None => (None, pm_close fd w)
  | Some b =>
      let '((ibs_fd, ibs_base), w) :=
        match pmu_type (bs "ibs_op") w with
        | Some t => ibs_open t pid mmap_size [Z.lor (Z.lor ATTR_DISABLED ATTR_FREQ) ATTR_EXCLUDE_USER; Z.lor ATTR_DISABLED ATTR_FREQ] w
        | None => ((-1, None), w)
        end in
      let w := pm_ioctl fd PERF_EVENT_IOC_ENABLE w in
      let w := if 0 <=? ibs_fd then pm_ioctl ibs_fd PERF_EVENT_IOC_ENABLE w else w in
      (Some (MkSession fd (Some b) mmap_size None 0 true ibs_fd ibs_base mmap_size), w)
  end.

Definition start (pid : Z) (w : W) : option Session * W :=
  if intel_pt_available w then intel_pt_start pid w else if amd_lbr_available w then amd_lbr_start pid w else (None, w).

Definition stop (s : Session) (w : W) : W :=
  let w := if 0 <=? perf_fd s then pm_ioctl (perf_fd s) PERF_EVENT_IOC_DISABLE w else w in
  if 0 <=? ibs_fd s then pm_ioctl (ibs_fd s) PERF_EVENT_IOC_DISABLE w else w.

Definition unmap (m : option Z) (size : Z) (w : W) : W := match m with Some b => pm_munmap b size w | None => w end.

(** The destructor. *)
Definition drop_session (s : Session) (w : W) : W :=
  let w := unmap (aux_buf s) (aux_size s) w in
  let w := unmap (base s) (mmap_size s) w in
  let w := if 0 <=? perf_fd s then pm_close (perf_fd s) w else w in
  let w := unmap (ibs_base s) (ibs_size s) w in
  if 0 <=? ibs_fd s then pm_close (ibs_fd s) w else w.

(** * The AMD decoder *)

Definition kernel_from : Z := 0xffff800000000000.

Fixpoint read_branches (mem : list Z) (p : Z) (n : nat) : outcome (list (Z * Z)) :=
  match n with
  | O => Done []
  | S n => from ← read_u64 mem p; to ← read_u64 mem (p + 8); l ← read_branches mem (p + 24) n; Done ((from, to) :: l)
  end.

Definition branch_pcs (b : Z * Z) : list Z :=
  (if kernel_from <=? fst b then [fst b] else []) ++ (if kernel_from <=? snd b then [snd b] else []).

(** One record at [ev] of size [ev_size]. *)
Definition sample_at (mem : list Z) (ev ev_size : Z) (samples : list (Z * list Z)) : outcome (list (Z * list Z)) :=
  ip ← read_u64 mem (ev + 8);
  time ← read_u64 mem (ev + 16);
  stack ← (if 8 + 8 + 8 + 8 <? ev_size
           then nr ← read_u64 mem (ev + 24);
                l ← read_branches mem (ev + 32) (Z.to_nat (Z.min nr 32));
                Done (concat (branch_pcs <$> reverse l))
           else Done []);
  let pcs := stack ++ (if kernel_from <=? ip then [ip] else []) in
  Done (if bool_decide (pcs = []) then samples else samples ++ [(time, pcs)]).

Definition drain_step (mem : list Z) (data_size head : Z) (s : Z * list (Z * list Z)) : outcome (ctl (Z * list (Z * list Z)) (list (Z * list Z))) :=
  let '(tail, samples) := s in
  if tail <? head then
    let ev := 4096 + tail mod data_size in
    ev_type ← read_le 4 mem ev;
    ev_size ← read_le 2 mem (ev + 6);
    samples ← (if (ev_type =? PERF_RECORD_SAMPLE) && (8 + 8 + 8 <=? ev_size) then sample_at mem ev ev_size samples else Done samples);
    Done (Next (tail +₆₄ ev_size, samples))
  else Done (Stop samples).

Definition drain_sample_ring (fuel : nat) (b size : Z) (samples : list (Z * list Z)) (w : W) : outcome (list (Z * list Z) * W) :=
  let mem := pm_mem b w in
  head ← read_u64 mem OFF_DATA_HEAD;
  tail ← read_u64 mem OFF_DATA_TAIL;
  samples ← loop fuel (drain_step mem (size - 4096) head) (tail, samples);
  Done (samples, pm_poke b OFF_DATA_TAIL head w).

Definition amd_log (samples : list (Z * list Z)) : list Z :=
  concat ((fun s => concat (fmt_pc_line <$> snd s)) <$> sort_by (fun a b => fst a <=? fst b) samples).

Definition amd_lbr_decode (fuel : nat) (b : Z) (s : Session) (w : W) : outcome W :=
  '(samples, w) ← drain_sample_ring fuel b (mmap_size s) [] w;
  '(samples, w) ← (match ibs_base s with Some i => drain_sample_ring fuel i (ibs_size s) samples w | None => Done (samples, w) end);
  Done (snd (pm_store (bs "kerncov.log") (amd_log samples) w)).

(** * The Intel decoder *)

Definition intel_pt_decode (fuel : nat) (b : Z) (s : Session) (vmlinux : option (option (list Z))) (w : W) : outcome W :=
  match aux_buf s with
  | None => Done w
  | Some a =>
      len ← read_u64 (pm_mem b w) OFF_AUX_HEAD;
      let len := if aux_size s <? len then aux_size s else len in
      if len =? 0 then Done w else
      data ← or_panic (slice (pm_mem a w) 0 len);
      let '(_, w) := pm_store (bs "hw_trace.bin") data w in
      dec ← (match vmlinux with
             | Some (Some vm) => PtDecoder.init vm data
             | _ => Done None
             end);
      text ← (match dec with
              | Some d => d ← PtDecoder.run fuel d; Done (out (PtDecoder.log d))
              | None => d ← TipOnly.tip_only_decode data; Done (out (TipOnly.log d))
              end);
      Done (snd (pm_store (bs "kerncov.log") text w))
  end.

(** [vmlinux]: the option given, and the bytes of the file when it can be read. *)
Definition decode (fuel : nat) (s : Session) (vmlinux : option (option (list Z))) (w : W) : outcome W :=
  match base s with
  | None => Done w
  | Some b => if amd_lbr s then amd_lbr_decode fuel b s w else intel_pt_decode fuel b s vmlinux w
  end.
End Session.

(** * Descriptors and mappings *)

Class PerfLaws (W : Type) `{!PerfHost W} : Type :=
  { pfds : W -> gset Z;
    pmaps : W -> gset Z;
    perf_open_law : forall a pid w fd w', perf_event_open a pid w = (fd, w') ->
      pmaps w' = pmaps w /\ if fd <? 0 then pfds w' = pfds w else pfds w' = {[fd]} ∪ pfds w /\ fd ∉ pfds w;
    perf_mmap_law : forall fd n wr off w b w', pm_mmap fd n wr off w = (b, w') ->
      pfds w' = pfds w /\ match b with Some b => pmaps w' = {[b]} ∪ pmaps w /\ b ∉ pmaps w | None => pmaps w' = pmaps w end;
    perf_munmap_law : forall b n w, pfds (pm_munmap b n w) = pfds w /\ pmaps (pm_munmap b n w) = pmaps w ∖ {[b]};
    perf_close_law : forall fd w, pfds (pm_close fd w) = pfds w ∖ {[fd]} /\ pmaps (pm_close fd w) = pmaps w;
    perf_ioctl_law : forall fd r w, pfds (pm_ioctl fd r w) = pfds w /\ pmaps (pm_ioctl fd r w) = pmaps w;
    perf_poke_law : forall b o v w, pfds (pm_poke b o v w) = pfds w /\ pmaps (pm_poke b o v w) = pmaps w;
    perf_poke_mem : forall b o v w b', b' <> b -> pm_mem b' (pm_poke b o v w) = pm_mem b' w;
    perf_store_law : forall p t w ok w', pm_store p t w = (ok, w') -> pfds w' = pfds w /\ pmaps w' = pmaps w }.

Section Balance.
Context {W : Type} `{!PerfHost W, !PerfLaws W}.

Definition same (w w' : W) : Prop := pfds w' = pfds w /\ pmaps w' = pmaps w.

(** [w'] has what [w] has and, on top, the descriptors [F] and the mappings [M]. *)
Definition holds (F M : list Z) (w w' : W) : Prop :=
  pfds w' = list_to_set F ∪ pfds w /\ NoDup F /\ (forall x, x ∈ F -> x ∉ pfds w) /\
  pmaps w' = list_to_set M ∪ pmaps w /\ NoDup M /\ (forall x, x ∈ M -> x ∉ pmaps w).

Lemma holds_nil w : holds [] [] w w.
Proof. unfold holds. split_and!; try (constructor || set_solver). Qed.

Lemma holds_same F M w w1 w2 : holds F M w w1 -> same w1 w2 -> holds F M w w2.
Proof. intros (A & B & C & D & E & G) [H1 H2]. unfold holds. rewrite H1, H2. by split_and!. Qed.

Lemma holds_open F M w w1 a pid fd w2 : holds F M w w1 -> perf_event_open a pid w1 = (fd, w2) -> holds (if fd <? 0 then F else fd :: F) M w w2.
Proof.
  intros (A & B & C & D & E & G) [H1 H2]%perf_open_law. destruct (fd <? 0).
  - unfold holds. rewrite H1, H2. by split_and!.
  - destruct H2 as [H2 H3]. rewrite A in H2, H3. unfold holds. rewrite H1, H2. split_and!; try done.
    + cbn. clear. set_solver.
    + constructor; [|done]. clear -H3. set_solver.
    + intros x [->|Hx]%elem_of_cons; [clear -H3; set_solver|by apply C].
Qed.

Lemma holds_mmap F M w w1 fd n wr off b w2 : holds F M w w1 -> pm_mmap fd n wr off w1 = (b, w2) ->
  holds F (match b with Some b => b :: M | None => M end) w w2.
Proof.
  intros (A & B & C & D & E & G) [H1 H2]%perf_mmap_law. destruct b as [b|].
  - destruct H2 as [H2 H3]. rewrite D in H2, H3. unfold holds. rewrite H1, H2. split_and!; try done.
    + cbn. clear. set_solver.
    + constructor; [|done]. clear -H3. set_solver.
    + intros x [->|Hx]%elem_of_cons; [clear -H3; set_solver|by apply G].
  - unfold holds. rewrite H1, H2. by split_and!.
Qed.

Lemma remove_one (x : Z) (L : list Z) (X : gset Z) : NoDup (x :: L) -> (forall y, y ∈ x :: L -> y ∉ X) ->
  (list_to_set (x :: L) ∪ X) ∖ {[x]} = list_to_set L ∪ X.
Proof.
  intros [Hx _]%NoDup_cons H. specialize (H x ltac:(constructor)). apply set_eq. intros y. cbn.
  rewrite elem_of_difference, !elem_of_union, !elem_of_singleton, elem_of_list_to_set. split; [tauto|].
  intros [Hy|Hy]; (split; [tauto|]); intros ->; done.
Qed.

Lemma holds_perm F F' M M' w w1 : F ≡ₚ F' -> M ≡ₚ M' -> holds F M w w1 -> holds F' M' w w1.
Proof.
  intros HF HM (A & B & C & D & E & G). unfold holds. rewrite A, D, (list_to_set_perm_L _ _ HF), (list_to_set_perm_L _ _ HM). split_and!; try done.
  - by rewrite <- HF.
  - intros x Hx. apply C. by rewrite HF.
  - by rewrite <- HM.
  - intros x Hx. apply G. by rewrite HM.
Qed.

Lemma holds_close fd F M w w1 : holds (fd :: F) M w w1 -> holds F M w (pm_close fd w1).
Proof.
  intros (A & B & C & D & E & G). unfold holds. destruct (perf_close_law fd w1) as [-> ->]. rewrite A, remove_one by done.
  split_and!; try done; [by apply NoDup_cons in B as [_ B]|]. intros x Hx. apply C. by constructor.
Qed.

Lemma holds_munmap b n F M w w1 : holds F (b :: M) w w1 -> holds F M w (pm_munmap b n w1).
Proof.
  intros (A & B & C & D & E & G). unfold holds. destruct (perf_munmap_law b n w1) as [-> ->]. rewrite D, remove_one by done.
  split_and!; try done; [by apply NoDup_cons in E as [_ E]|]. intros x Hx. apply G. by constructor.
Qed.

Lemma holds_none w w1 : holds [] [] w w1 -> same w w1.
Proof. intros (A & _ & _ & D & _). split; [rewrite A|rewrite D]; set_solver. Qed.

(** What a session owns. *)
Definition opt (o : option Z) : list Z := match o with Some b => [b] | None => [] end.
Definition owned_fd (fd : Z) : list Z := if 0 <=? fd then [fd] else [].
Definition owns (s : Session) (w w1 : W) : Prop :=
  holds (owned_fd (perf_fd s) ++ owned_fd (ibs_fd s)) (opt (aux_buf s) ++ opt (base s) ++ opt (ibs_base s)) w w1.

Lemma perf_ioctl_same fd r w : same w (pm_ioctl fd r w).
Proof. destruct (perf_ioctl_law fd r w). done. Qed.

Lemma drop_owned s w w1 : owns s w w1 -> same w (drop_session s w1).
Proof.
  unfold owns, drop_session, unmap. intros H. apply holds_none.
  assert (forall F m M n v, holds F (opt m ++ M) w v -> holds F M w match m with Some b => pm_munmap b n v | None => v end) as Hu.
  { intros F [b|] M n v Hv; [by apply holds_munmap|done]. }
  assert (forall F fd M v, holds (owned_fd fd ++ F) M w v -> holds F M w (if 0 <=? fd then pm_close fd v else v)) as Hc.
  { intros F fd M v. unfold owned_fd. destruct (0 <=? fd); [by apply holds_close|done]. }
  rewrite <- (app_nil_r (_ ++ owned_fd (ibs_fd s))), <- app_assoc in H. rewrite <- (app_nil_r (opt (ibs_base s))) in H.
  apply Hc, Hu, Hc, Hu, Hu, H.
Qed.

Lemma perf_same_refl w : same w w.
Proof. done. Qed.
Lemma perf_same_trans w1 w2 w3 : same w1 w2 -> same w2 w3 -> same w1 w3.
Proof. intros [A B] [C D]. split; congruence. Qed.

Lemma same_stop s w : same w (stop s w).
Proof. unfold stop. destruct (0 <=? perf_fd s), (0 <=? ibs_fd s); repeat (done || eapply perf_same_trans; [apply perf_ioctl_same|]); apply perf_ioctl_same || done. Qed.

Lemma owned_pos fd : fd <? 0 = false -> owned_fd fd = [fd].
Proof. intros H. unfold owned_fd. by replace (0 <=? fd) with true by lia. Qed.

Lemma holds_ioctl F M w w1 fd r : holds F M w w1 -> holds F M w (pm_ioctl fd r w1).
Proof. intros H. eapply holds_same; [done|apply perf_ioctl_same]. Qed.

Lemma holds_poke F M w w1 b o v : holds F M w w1 -> holds F M w (pm_poke b o v w1).
Proof. intros H. eapply holds_same; [done|]. destruct (perf_poke_law b o v w1). done. Qed.

Definition started (w : W) (r : option Session * W) : Prop :=
  match fst r with Some s => owns s w (snd r) | None => same w (snd r) end.

Lemma intel_started pid w : started w (intel_pt_start pid w).
Proof.
  unfold intel_pt_start. destruct (_ ≫= parse_leading_int) as [t|]; [|by apply perf_same_refl]. destruct (t <? 0); [by apply perf_same_refl|].
  destruct (perf_event_open _ pid w) as [fd w1] eqn:E1. pose proof (holds_open [] [] w w _ _ _ _ (holds_nil w) E1) as H1.
  destruct (fd <? 0) eqn:Hfd; [by apply holds_none|].
  destruct (pm_mmap fd _ true 0 w1) as [b w2] eqn:E2. pose proof (holds_mmap _ _ w _ _ _ _ _ _ _ H1 E2) as H2. destruct b as [b|]; [|by apply holds_none, (holds_close fd)].
  apply (holds_poke _ _ _ _ b OFF_AUX_OFFSET ((INTEL_MMAP_PAGES + 1) * 4096)), (holds_poke _ _ _ _ b OFF_AUX_SIZE AUX_SIZE) in H2.
  destruct (pm_mmap fd AUX_SIZE _ _ _) as [a w3] eqn:E3. pose proof (holds_mmap _ _ w _ _ _ _ _ _ _ H2 E3) as H3. destruct a as [a|].
  - cbn. unfold owns. cbn. rewrite owned_pos by done. by apply holds_ioctl.
  - by apply holds_none, (holds_close fd), (holds_munmap b).
Qed.

Lemma ibs_opened t pid size fl F M w w1 r w2 : holds F M w w1 -> ibs_open t pid size fl w1 = (r, w2) ->
  holds (owned_fd (fst r) ++ F) (opt (snd r) ++ M) w w2.
Proof.
  revert w1. induction fl as [|f fl IH]; intros w1 H E; cbn [ibs_open] in E; [by simplify_eq|].
  destruct (perf_event_open _ pid w1) as [fd v] eqn:E1. apply (holds_open F M w) in E1; [|done].
  destruct (0 <=? fd) eqn:Hfd; (replace (fd <? 0) with (negb (0 <=? fd)) in E1 by lia); rewrite Hfd in E1; cbn in E1; [|by apply (IH v)].
  destruct (map_ring fd size v) as [b v2] eqn:E2. apply (holds_mmap (fd :: F) M w) in E2; [|done]. destruct b as [b|].
  - simplify_eq. cbn [fst snd opt app]. unfold owned_fd. by rewrite Hfd.
  - eapply IH; [|done]. by apply holds_close.
Qed.

Lemma amd_started pid w : started w (amd_lbr_start pid w).
Proof.
  unfold amd_lbr_start. destruct (perf_event_open lbr_attr pid w) as [fd0 w0] eqn:E0. apply (holds_open [] [] w) in E0; [|apply holds_nil].
  set (r := if fd0 <? 0 then _ else _). assert (holds (if fst r <? 0 then [] else [fst r]) [] w (snd r)) as H1.
  { subst r. destruct (fd0 <? 0) eqn:Hf; cbn [fst snd]; [|by rewrite Hf].
    destruct (perf_event_open ip_attr pid w0) as [fd w1] eqn:E1. by apply (holds_open [] [] w) in E1. }
  clearbody r. destruct r as [fd w1]. cbn [fst snd] in H1. destruct (fd <? 0) eqn:Hf; [by apply holds_none|].
  destruct (map_ring fd _ w1) as [b w2] eqn:E2. apply (holds_mmap [fd] [] w) in E2; [|done]. destruct b as [b|]; [|by apply holds_none, (holds_close fd)].
  set (r := match pmu_type _ w2 with Some _ => _ | None => _ end).
  assert (holds (owned_fd (fst (fst r)) ++ [fd]) (opt (snd (fst r)) ++ [b]) w (snd r)) as H3.
  { subst r. destruct (pmu_type _ w2) as [t|]; [|done]. destruct (ibs_open t pid _ _ w2) as [r w3] eqn:E3. by eapply ibs_opened in E3. }
  clearbody r. destruct r as [[ifd ib] w3]. cbn [fst snd] in H3. unfold started, owns. cbn [fst snd perf_fd ibs_fd aux_buf base ibs_base opt app].
  rewrite owned_pos by done. eapply holds_perm; [apply Permutation_app_comm|apply (Permutation_app_comm _ [b])|].
  destruct (0 <=? ifd); by repeat apply holds_ioctl.
Qed.

Lemma start_started pid (w : W) : started w (start pid w).
Proof. unfold start. destruct (intel_pt_available w); [apply intel_started|]. by destruct (amd_lbr_available w); [apply amd_started|]. Qed.

(** A trace session leaks nothing.  Whichever hardware is present and
    whichever of its steps fails, a session that does not start leaves the
    descriptors and mappings of the process as they were; one that starts,
    Intel or AMD, with or without the second event, and is stopped and dropped
    after anything that opens and closes nothing, leaves them as they were
    too. *)
Theorem session_balanced pid (w : W) : match start pid w with
  | (None, w1) => same w w1
  | (Some s, w1) => forall w2, same (stop s w1) w2 -> same w (drop_session s w2)
  end.
Proof.
  pose proof (start_started pid w) as Hs. destruct (start pid w) as [[s|] w1]; [|done]. intros w2 H2. apply drop_owned. eapply holds_same; [exact Hs|]. eapply perf_same_trans; [apply same_stop|done].
Qed.
End Balance.

(** * Records of the ring *)

(** A sample with its branch stack, newest branch first, or a record of
    another type. *)
Inductive PerfRec : Type :=
  | Sample (misc ip time : Z) (stack : option (list (Z * Z * Z)))
  | Other (ty misc : Z) (body : list Z).

Definition encode_branch (b : Z * Z * Z) : list Z := le_bytes 8 (fst (fst b)) ++ le_bytes 8 (snd (fst b)) ++ le_bytes 8 (snd b).
Definition encode_stack (stack : option (list (Z * Z * Z))) : list Z :=
  match stack with Some l => le_bytes 8 (zlen l) ++ concat (encode_branch <$> l) | None => [] end.
Definition rec_body (r : PerfRec) : list Z :=
  match r with
  | Sample _ ip time stack => le_bytes 8 ip ++ le_bytes 8 time ++ encode_stack stack
  | Other _ _ body => body
  end.
Definition rec_type (r : PerfRec) : Z := match r with Sample _ _ _ _ => PERF_RECORD_SAMPLE | Other ty _ _ => ty end.
Definition rec_misc (r : PerfRec) : Z := match r with Sample m _ _ _ | Other _ m _ => m end.
Definition rec_size (r : PerfRec) : Z := 8 + zlen (rec_body r).
Definition encode_rec (r : PerfRec) : list Z := le_bytes 4 (rec_type r) ++ le_bytes 2 (rec_misc r) ++ le_bytes 2 (rec_size r) ++ rec_body r.

Definition branch_ok (b : Z * Z * Z) : Prop := is_u64 (fst (fst b)) /\ is_u64 (snd (fst b)).
Definition rec_ok (r : PerfRec) : Prop :=
  match r with
  | Sample _ ip time stack => is_u64 ip /\ is_u64 time /\ match stack with Some l => (length l <= 32)%nat /\ Forall branch_ok l | None => True end
  | Other ty _ body => is_u32 ty /\ ty <> PERF_RECORD_SAMPLE /\ zlen body < 2 ^ 16 - 8
  end.

(** The kernel addresses of a sample in execution order: the branches, the
    oldest first, then the sampled instruction. *)
Definition kernel_only (l : list Z) : list Z := filter (fun a => kernel_from <= a) l.
Definition rec_pcs (r : PerfRec) : list Z :=
  match r with
  | Sample _ ip _ stack => kernel_only (concat ((fun b => [fst (fst b); snd (fst b)]) <$> reverse (default [] stack)) ++ [ip])
  | Other _ _ _ => []
  end.
Definition rec_time (r : PerfRec) : Z := match r with Sample _ _ t _ => t | Other _ _ _ => 0 end.
Definition rec_sample (r : PerfRec) : list (Z * list Z) := if bool_decide (rec_pcs r = []) then [] else [(rec_time r, rec_pcs r)].

(** The records lie in the ring from position [pos] on, none across its end. *)
Fixpoint ring_holds (mem : list Z) (size pos : Z) (rs : list PerfRec) : Prop :=
  match rs with
  | [] => True
  | r :: rs => pos mod size + rec_size r <= size /\
               slice mem (4096 + pos mod size) (4096 + pos mod size + rec_size r) = Some (encode_rec r) /\
               ring_holds mem size (pos + rec_size r) rs
  end.
Definition ring_len (rs : list PerfRec) : Z := foldr (fun r n => rec_size r + n) 0 rs.

Lemma zlen_branches l : zlen (concat (encode_branch <$> l)) = 24 * zlen l.
Proof.
  induction l as [|b l IH]; [done|]. cbn [fmap list_fmap concat]. rewrite zlen_app, zlen_cons. fold (encode_branch <$> l). rewrite IH.
  unfold encode_branch. rewrite !zlen_app, !zlen_le_bytes. lia.
Qed.

Lemma rec_size_ok r : rec_ok r -> 8 <= rec_size r < 2 ^ 16.
Proof.
  unfold rec_size. pose proof (zlen_nonneg (rec_body r)). destruct r as [m ip t [l|]|ty m body]; cbn [rec_ok rec_body encode_stack].
  - intros (_ & _ & Hl & _). rewrite !zlen_app, !zlen_le_bytes, zlen_branches. unfold zlen. lia.
  - intros _. rewrite !zlen_app, !zlen_le_bytes, zlen_nil. lia.
  - cbn [rec_body] in *. lia.
Qed.

Lemma zlen_encode_rec r : zlen (encode_rec r) = rec_size r.
Proof. unfold encode_rec, rec_size. rewrite !zlen_app, !zlen_le_bytes. lia. Qed.

(** A read inside a slice is a read of the whole. *)
Lemma slice_slice {A} (l s : list A) a b c d : slice l a b = Some s -> 0 <= c <= d -> d <= b - a -> slice l (a + c) (a + d) = slice s c d.
Proof.
  intros H Hc Hd. pose proof (slice_length _ _ _ _ H) as Hl. apply slice_Some in H as (H1 & H2 & ->).
  destruct (slice l (a + c) (a + d)) as [u|] eqn:E1.
  2: { exfalso. destruct (slice_Done l (a + c) (a + d)) as (? & ? & _); [lia|lia|congruence]. }
  symmetry. apply slice_Some. apply slice_Some in E1 as (_ & _ & ->). split_and!; [lia|lia|lia|].
  replace (Z.to_nat (a + c)) with (Z.to_nat a + Z.to_nat c)%nat by lia. rewrite <- drop_drop.
  generalize (drop (Z.to_nat a) l) as y. intros y. rewrite !take_drop_commute, take_take. do 2 f_equal. lia.
Qed.

Lemma read_at n mem ev size pre v post : slice mem ev (ev + size) = Some (pre ++ le_bytes n v ++ post) -> 0 <= v < 2 ^ (8 * Z.of_nat n) ->
  read_le (Z.of_nat n) mem (ev + zlen pre) = Done v.
Proof.
  intros H Hv. pose proof (slice_length _ _ _ _ H) as Hl. rewrite !zlen_app, zlen_le_bytes in Hl.
  pose proof (zlen_nonneg pre). pose proof (zlen_nonneg post). unfold read_le. rewrite <- Z.add_assoc.
  rewrite (slice_slice _ _ _ _ _ _ H) by lia. rewrite (slice_at pre (le_bytes n v) post) by (done || rewrite zlen_le_bytes; done).
  cbn [or_panic mbind outcome_bind]. by rewrite le_val_le_bytes, Z.mod_small by lia.
Qed.

Lemma read_u64_at mem ev size pre v post off : slice mem ev (ev + size) = Some (pre ++ le_bytes 8 v ++ post) -> is_u64 v -> off = zlen pre ->
  read_u64 mem (ev + off) = Done v.
Proof. intros H Hv ->. by apply (read_at 8 mem ev size pre v post). Qed.

Lemma read_branches_at mem ev size pre l post : slice mem ev (ev + size) = Some (pre ++ concat (encode_branch <$> l) ++ post) ->
  Forall branch_ok l -> read_branches mem (ev + zlen pre) (length l) = Done (fst <$> l).
Proof.
  intros H Hl. revert pre H. induction Hl as [|[[f t] g] l [Hf Ht] Hl IH]; intros pre H; [done|].
  cbn [fmap list_fmap concat length read_branches] in *. fold (encode_branch <$> l) in H. unfold encode_branch at 1 in H. cbn [fst snd] in *.
  rewrite <- !app_assoc in H. rewrite (read_u64_at _ _ _ pre f _ _ H Hf eq_refl). cbn [mbind outcome_bind].
  rewrite (app_assoc pre) in H. rewrite <- (Z.add_assoc ev _ 8), (read_u64_at _ _ _ _ t _ _ H Ht) by (rewrite zlen_app, zlen_le_bytes; lia). cbn [mbind outcome_bind].
  rewrite (app_assoc (pre ++ _)), (app_assoc (_ ++ le_bytes 8 t)) in H. apply IH in H. rewrite !zlen_app, !zlen_le_bytes in H.
  replace (ev + (zlen pre + Z.of_nat 8 + Z.of_nat 8 + Z.of_nat 8)) with (ev + zlen pre + 24) in H by lia. by rewrite H.
Qed.

Lemma branch_pcs_kernel b : branch_pcs b = kernel_only [fst b; snd b].
Proof.
  unfold branch_pcs, kernel_only. destruct b as [f t]. cbn [fst snd]. rewrite !filter_cons.
  destruct (Z.leb_spec kernel_from f), (Z.leb_spec kernel_from t); repeat (first [rewrite decide_True by done|rewrite decide_False by lia]); done.
Qed.

Lemma kernel_only_app l k : kernel_only (l ++ k) = kernel_only l ++ kernel_only k.
Proof. apply filter_app. Qed.

Lemma branches_pcs (l : list (Z * Z * Z)) : concat (branch_pcs <$> reverse (fst <$> l)) = kernel_only (concat ((fun b => [fst (fst b); snd (fst b)]) <$> reverse l)).
Proof.
  rewrite <- fmap_reverse, <- list_fmap_compose. generalize (reverse l) as k. intros k. induction k as [|b k IH]; [done|].
  rewrite !fmap_cons. cbn [concat]. rewrite kernel_only_app, <- IH. f_equal. apply (branch_pcs_kernel (fst b)).
Qed.

(** Reading a record that lies in the ring. *)
Lemma sample_read mem ev m ip time stack samples :
  let r := Sample m ip time stack in
  rec_ok r -> slice mem ev (ev + rec_size r) = Some (encode_rec r) ->
  sample_at mem ev (rec_size r) samples = Done (samples ++ rec_sample r).
Proof.
  intros r (Hip & Ht & Hs) H. unfold sample_at. unfold encode_rec in H. cbn [rec_body r] in H.
  pose proof (read_u64_at mem ev (rec_size r) (le_bytes 4 (rec_type r) ++ le_bytes 2 (rec_misc r) ++ le_bytes 2 (rec_size r)) ip
    (le_bytes 8 time ++ encode_stack stack) 8) as R. rewrite <- !app_assoc in R. rewrite R; [|done|done|by rewrite !zlen_app, !zlen_le_bytes]. clear R. cbn [mbind outcome_bind].
  pose proof (read_u64_at mem ev (rec_size r) (le_bytes 4 (rec_type r) ++ le_bytes 2 (rec_misc r) ++ le_bytes 2 (rec_size r) ++ le_bytes 8 ip) time
    (encode_stack stack) 16) as R. rewrite <- !app_assoc in R. rewrite R; [|done|done|by rewrite !zlen_app, !zlen_le_bytes]. clear R. cbn [mbind outcome_bind].
  set (pre := le_bytes 4 (rec_type r) ++ le_bytes 2 (rec_misc r) ++ le_bytes 2 (rec_size r) ++ le_bytes 8 ip ++ le_bytes 8 time).
  assert (slice mem ev (ev + rec_size r) = Some (pre ++ encode_stack stack)) as H1 by (subst pre; by rewrite <- !app_assoc).
  assert (zlen pre = 24) as Zp by (subst pre; by rewrite !zlen_app, !zlen_le_bytes). clearbody pre. clear H.
  assert ((if 8 + 8 + 8 + 8 <? rec_size r then nr ← read_u64 mem (ev + 24); l ← read_branches mem (ev + 32) (Z.to_nat (Z.min nr 32)); Done (concat (branch_pcs <$> reverse l)) else Done [])
    = Done (kernel_only (concat ((fun b => [fst (fst b); snd (fst b)]) <$> reverse (default [] stack))))) as ->.
  { pose proof (slice_length _ _ _ _ H1) as Hl. rewrite zlen_app, Zp in Hl. destruct stack as [[|b0 l0]|]; [change (zlen (encode_stack (Some []))) with 8 in Hl; by rewrite (proj2 (Z.ltb_ge _ _)) by lia| |]; cbn [encode_stack default from_option id] in *.
    - set (l := b0 :: l0) in *. destruct Hs as [Hn Hb]. rewrite zlen_app, zlen_le_bytes, zlen_branches in Hl. assert (1 <= zlen l) by (subst l; rewrite zlen_cons; pose proof (zlen_nonneg l0); lia).
      rewrite (proj2 (Z.ltb_lt _ _)) by lia. rewrite (read_u64_at _ _ _ _ _ _ 24 H1) by (done || unfold is_u64, zlen; lia). cbn [mbind outcome_bind].
      replace (Z.to_nat (Z.min (zlen l) 32)) with (length l) by (unfold zlen; lia).
      rewrite app_assoc, <- (app_nil_r (concat _)) in H1. apply read_branches_at in H1; [|done].
      rewrite zlen_app, zlen_le_bytes, Zp in H1. change (24 + Z.of_nat 8) with 32 in H1. rewrite H1. cbn [mbind outcome_bind]. by rewrite branches_pcs.
    - rewrite zlen_nil in Hl. by rewrite (proj2 (Z.ltb_ge _ _)) by lia. }
  cbn [mbind outcome_bind]. f_equal. unfold rec_sample, rec_pcs, rec_time, r. rewrite kernel_only_app.
  assert (kernel_only [ip] = if kernel_from <=? ip then [ip] else []) as <-.
  { unfold kernel_only. rewrite filter_cons, filter_nil. destruct (Z.leb_spec kernel_from ip); [by rewrite decide_True|by rewrite decide_False by lia]. }
  destruct (bool_decide _); [by rewrite app_nil_r|done].
Qed.

Lemma drain_step_at mem size pos head r samples : rec_ok r -> 0 <= pos -> pos < head -> pos + rec_size r <= head < 2 ^ 64 ->
  slice mem (4096 + pos mod size) (4096 + pos mod size + rec_size r) = Some (encode_rec r) ->
  drain_step mem size head (pos, samples) = Done (Next (pos + rec_size r, samples ++ rec_sample r)).
Proof.
  intros Hr Hp Hlt Hh H. pose proof (rec_size_ok r Hr) as Hs. unfold drain_step. rewrite (proj2 (Z.ltb_lt _ _)) by done.
  set (ev := 4096 + pos mod size) in *. rewrite <- (Z.add_0_r ev) at 1.
  assert (0 <= rec_type r < 2 ^ 32) as Ht by (destruct r; [by vm_compute|by destruct Hr as [? _]]).
  pose proof (read_at 4 mem ev (rec_size r) [] (rec_type r) _ H Ht) as R. change (Z.of_nat 4) with 4 in R. change (zlen []) with 0 in R. rewrite R. cbn [mbind outcome_bind]. clear R.
  unfold encode_rec in H. rewrite (app_assoc (le_bytes 4 _)) in H. pose proof (read_at 2 mem ev (rec_size r) _ (rec_size r) _ H ltac:(cbn; lia)) as R.
  rewrite zlen_app, !zlen_le_bytes in R. change (Z.of_nat 4 + Z.of_nat 2) with 6 in R. change (Z.of_nat 2) with 2 in R. rewrite R. cbn [mbind outcome_bind]. clear R.
  rewrite <- app_assoc in H. fold (encode_rec r) in H. rewrite as_u64_small by (unfold is_u64; lia).
  destruct r as [m ip time stack|ty m body].
  - assert (24 <= rec_size (Sample m ip time stack)) as H24.
    { unfold rec_size. cbn [rec_body]. rewrite !zlen_app, !zlen_le_bytes. pose proof (zlen_nonneg (encode_stack stack)). lia. }
    cbn [rec_type]. rewrite (proj2 (Z.leb_le _ _)) by lia. rewrite Z.eqb_refl. cbn [andb].
    rewrite (sample_read mem ev m ip time stack samples Hr H). done.
  - destruct Hr as (_ & Hne & _). cbn [rec_type]. rewrite (proj2 (Z.eqb_neq _ _)) by done. cbn [andb mbind outcome_bind]. do 3 f_equal. symmetry. apply app_nil_r.
Qed.

Lemma ring_len_nonneg rs : Forall rec_ok rs -> 0 <= ring_len rs.
Proof. induction 1 as [|r rs Hr _ IH]; cbn; [done|]. apply rec_size_ok in Hr. unfold ring_len in IH. lia. Qed.

Lemma drain_records mem size rs : forall pos samples fuel, Forall rec_ok rs -> 0 <= pos -> pos + ring_len rs < 2 ^ 64 -> ring_holds mem size pos rs ->
  (length rs < fuel)%nat -> loop fuel (drain_step mem size (pos + ring_len rs)) (pos, samples) = Done (samples ++ concat (rec_sample <$> rs)).
Proof.
  induction rs as [|r rs IH]; intros pos samples fuel Hr Hp Hl Hh Hf; (destruct fuel as [|fuel]; [cbn in Hf; lia|]); rewrite loop_S.
  - unfold drain_step. cbn [ring_len foldr]. rewrite (proj2 (Z.ltb_ge _ _)) by lia. cbn. by rewrite app_nil_r.
  - apply Forall_cons in Hr as [H1 Hr]. pose proof (rec_size_ok r H1). pose proof (ring_len_nonneg rs Hr). destruct Hh as (_ & Hs & Hh).
    change (ring_len (r :: rs)) with (rec_size r + ring_len rs) in *.
    rewrite (drain_step_at mem size pos _ r samples) by (done || lia). cbn [mbind outcome_bind]. rewrite Z.add_assoc, IH by (done || lia || cbn in Hf; lia).
    by rewrite fmap_cons, <- app_assoc.
Qed.

(** A ring page: the tail at [pos], the head behind the records, and the
    records between. *)
Definition ring_page (mem : list Z) (size pos : Z) (rs : list PerfRec) : Prop :=
  0 <= pos /\ pos + ring_len rs < 2 ^ 64 /\ Forall rec_ok rs /\
  slice mem OFF_DATA_HEAD (OFF_DATA_HEAD + 8) = Some (le_bytes 8 (pos + ring_len rs)) /\
  slice mem OFF_DATA_TAIL (OFF_DATA_TAIL + 8) = Some (le_bytes 8 pos) /\ ring_holds mem (size - 4096) pos rs.

Lemma drain_page {W} `{!PerfHost W} fuel b size pos rs samples (w : W) : ring_page (pm_mem b w) size pos rs -> (length rs < fuel)%nat ->
  drain_sample_ring fuel b size samples w = Done (samples ++ concat (rec_sample <$> rs), pm_poke b OFF_DATA_TAIL (pos + ring_len rs) w).
Proof.
  intros (Hp & Hl & Hr & Hh & Ht & Hs) Hf. pose proof (ring_len_nonneg rs Hr). unfold drain_sample_ring, read_u64, read_le. rewrite Hh, Ht. cbn [or_panic mbind outcome_bind].
  rewrite !le_val_le_bytes by lia. change (2 ^ (8 * Z.of_nat 8)) with (2 ^ 64). rewrite !Z.mod_small by lia.
  by rewrite drain_records by done.
Qed.

(** Sorting keeps the order of what it may not tell apart. *)
Lemma sort_by_stable {A} (le : A -> A -> bool) (P : A -> Prop) `{!forall x, Decision (P x)} l :
  (forall x y, P x -> P y -> le x y = true) -> filter P (sort_by le l) = filter P l.
Proof.
  intros Hle. induction l as [|x l IH]; [done|]. cbn [sort_by foldr]. fold (sort_by le l). trans (filter P (x :: sort_by le l)).
  2: { rewrite !filter_cons. by rewrite IH. }
  generalize (sort_by le l) as k. clear IH. intros k. induction k as [|y k IH]; [done|]. cbn [insert_by]. destruct (le x y) eqn:E; [done|].
  rewrite filter_cons, IH, !filter_cons. destruct (decide (P x)), (decide (P y)); try done. by rewrite Hle in E.
Qed.

Definition by_time : Z * list Z -> Z * list Z -> bool := fun a b => fst a <=? fst b.

(** C5: The AMD decoder logs the samples in time order.  When the ring of a
    session, and that of the second event if there is one, hold any records of
    any types between tail and head, none across the end of the ring, the log
    that is written lists the kernel addresses of every sample, the branches of
    a record oldest first and its instruction last; the samples of both rings
    are sorted by time and those of equal times are in the order of arrival. *)
Theorem amd_log_merged {W} `{!PerfHost W, !PerfLaws W} fuel s b vm pos1 rs1 pos2 rs2 (w : W) :
  amd_lbr s = true -> base s = Some b -> ring_page (pm_mem b w) (mmap_size s) pos1 rs1 ->
  match ibs_base s with Some i => i <> b /\ ring_page (pm_mem i w) (ibs_size s) pos2 rs2 | None => rs2 = [] end ->
  (length rs1 + length rs2 < fuel)%nat ->
  let samples := concat (rec_sample <$> (rs1 ++ rs2)) in
  exists merged w', decode fuel s vm w = Done (snd (pm_store (bs "kerncov.log") (concat (fmt_pc_line <$> concat (snd <$> merged))) w')) /\
    StronglySorted (fun x y => fst x <= fst y) merged /\ merged ≡ₚ samples /\
    (forall t, filter (fun x => fst x = t) merged = filter (fun x => fst x = t) samples).
Proof.
  intros Ha Hb H1 H2 Hf samples. exists (sort_by by_time samples).
  assert (forall l : list (list Z), concat ((fun x => concat (fmt_pc_line <$> x)) <$> l) = concat (fmt_pc_line <$> concat l)) as Hc.
  { clear. intros l. induction l as [|x l IH]; [done|]. cbn [concat]. rewrite fmap_cons, fmap_app, concat_app. cbn [concat]. by rewrite IH. }
  assert (forall l, amd_log l = concat (fmt_pc_line <$> concat (snd <$> sort_by by_time l))) as Hlog.
  { intros l. unfold amd_log. by rewrite <- Hc, <- list_fmap_compose. }
  assert (exists w', decode fuel s vm w = Done (snd (pm_store (bs "kerncov.log") (amd_log samples) w'))) as [w' E].
  { unfold decode, amd_lbr_decode. rewrite Ha, Hb, (drain_page fuel b _ pos1 rs1) by (done || lia). cbn [mbind outcome_bind].
    destruct (ibs_base s) as [i|].
    - destruct H2 as [Hi H2]. rewrite <- (perf_poke_mem b OFF_DATA_TAIL (pos1 + ring_len rs1) w i) in H2 by done.
      rewrite (drain_page fuel i _ pos2 rs2) by (done || lia). cbn [mbind outcome_bind]. eexists. subst samples. by rewrite fmap_app, concat_app.
    - subst rs2 samples. rewrite app_nil_r. cbn [mbind outcome_bind]. by eexists. }
  exists w'. split_and!.
  - by rewrite E, Hlog.
  - assert (StronglySorted (fun x y => by_time x y = true) (sort_by by_time samples)) as Hs.
    { apply sort_by_sorted; unfold by_time; intros; lia. }
    induction Hs as [|x l _ IH Hx]; constructor; [done|]. eapply Forall_impl; [exact Hx|]. unfold by_time. intros y. lia.
  - apply sort_by_perm.
  - intros t. apply sort_by_stable. unfold by_time. intros x y -> ->. lia.
Qed.

(** A record of size 0 is read again and again. *)
Lemma zero_record_loops mem size head pos samples ty fuel : pos < head -> is_u64 pos -> read_le 4 mem (4096 + pos mod size) = Done ty ->
  read_le 2 mem (4096 + pos mod size + 6) = Done 0 -> loop fuel (drain_step mem size head) (pos, samples) = Fuel.
Proof.
  intros Hp Hu Ht Hs. apply (loop_diverges (fun s => s = (pos, samples))); [|done]. intros s ->. exists (pos, samples). split; [|done].
  unfold drain_step. rewrite (proj2 (Z.ltb_lt _ _)), Ht by done. cbn [mbind outcome_bind]. rewrite Hs. cbn [mbind outcome_bind]. rewrite andb_false_r.
  cbn [mbind outcome_bind]. by rewrite Z.add_0_r, as_u64_small.
Qed.

(** * A concrete host *)

Record Machine : Type := MkMachine { c_fds : gset Z; c_maps : gset Z; c_mem : Z -> list Z; c_log : list Z }.

#[export] Instance machine_host : PerfHost Machine :=
  {| perf_event_open _ _ w := let fd := fresh (c_fds w) in if fd <? 0 then (-1, w) else (fd, MkMachine ({[fd]} ∪ c_fds w) (c_maps w) (c_mem w) (c_log w));
     pm_mmap _ _ _ _ w := let b := fresh (c_maps w) in (Some b, MkMachine (c_fds w) ({[b]} ∪ c_maps w) (c_mem w) (c_log w));
     pm_munmap b _ w := MkMachine (c_fds w) (c_maps w ∖ {[b]}) (c_mem w) (c_log w);
     pm_close fd w := MkMachine (c_fds w ∖ {[fd]}) (c_maps w) (c_mem w) (c_log w);
     pm_ioctl _ _ w := w;
     pm_mem b w := c_mem w b;
     pm_poke b o v w := MkMachine (c_fds w) (c_maps w) (fun x => if decide (x = b) then take (Z.to_nat o) (c_mem w b) ++ le_bytes 8 v ++ drop (Z.to_nat o + 8) (c_mem w b) else c_mem w x) (c_log w);
     pm_file _ _ := None;
     pm_exists _ _ := true;
     pm_store _ t w := (true, MkMachine (c_fds w) (c_maps w) (c_mem w) t) |}.

#[export] Instance machine_laws : PerfLaws Machine.
Proof.
  refine {| pfds := c_fds; pmaps := c_maps |}; try (intros; cbn in *; by simplify_eq).
  - intros a pid w fd w'. cbn. destruct (fresh (c_fds w) <? 0) eqn:E; intros [= <- <-]; cbn; [done|]. rewrite E. split_and!; [done|done|apply is_fresh].
  - intros fd n wr off w b w' [= <- <-]. cbn. split_and!; [done|done|apply is_fresh].
  - intros b o v w b' Hb. cbn. by rewrite decide_False.
Defined.

(** A ring of 256 bytes with two samples and a record of another type. *)
Definition page (pos head : Z) (data : list Z) : list Z :=
  replicate 1024 0 ++ le_bytes 8 head ++ le_bytes 8 pos ++ replicate (4096 - 1040) 0 ++ data.
Definition demo_stack : list (Z * Z * Z) := [(0xffffffff81000030, 0xffffffff81000040, 0); (0xffffffff81000010, 0x400000, 0)].
Definition demo_recs : list PerfRec := [Sample 1 0xffffffff81000044 20 (Some demo_stack); Other 2 0 (replicate 16 0); Sample 1 0x400004 25 None].
Definition demo_ibs : list PerfRec := [Sample 1 0xffffffff81000020 10 None; Sample 1 0xffffffff81000050 20 None].
Definition demo_page (pos : Z) (rs : list PerfRec) : list Z :=
  let d := concat (encode_rec <$> rs) in page pos (pos + zlen d) (replicate (Z.to_nat (pos mod 256)) 0 ++ d ++ replicate (Z.to_nat (256 - pos mod 256 - zlen d)) 0).
Definition demo_machine : Machine := MkMachine {[0; 3; 4]} {[1; 2]} (fun b => if b =? 1 then demo_page 0 demo_recs else demo_page 264 demo_ibs) [].
Definition demo_session : Session := MkSession 3 (Some 1) 4352 None 0 true 4 (Some 2) 4352.

Ltac word_bound := split; [by apply Z.leb_le|by apply Z.ltb_lt].
Ltac ring_rec := match goal with
  | |- rec_ok (Sample _ _ _ (Some _)) => apply conj; [word_bound|apply conj; [word_bound|apply conj; [cbn; lia|unfold demo_stack; repeat (apply Forall_cons_2; [split; word_bound|]); apply Forall_nil_2]]]
  | |- rec_ok (Sample _ _ _ None) => apply conj; [word_bound|apply conj; [word_bound|done]]
  | |- rec_ok (Other _ _ _) => apply conj; [word_bound|apply conj; [discriminate|by apply Z.ltb_lt]]
  end.
Ltac recs_tac := unfold demo_recs, demo_ibs; repeat (apply Forall_cons_2; [ring_rec|]); apply Forall_nil_2.
Ltac ring_tac := repeat (apply conj; [by apply Z.leb_le|]; apply conj; [vm_compute; reflexivity|]); exact I.

Lemma demo_ring1 : ring_page (demo_page 0 demo_recs) 4352 0 demo_recs.
Proof.
  unfold ring_page. split; [done|]. split; [by apply Z.ltb_lt|]. split; [recs_tac|].
  split; [vm_compute; reflexivity|]. split; [vm_compute; reflexivity|]. ring_tac.
Qed.
Lemma demo_ring2 : ring_page (demo_page 264 demo_ibs) 4352 264 demo_ibs.
Proof.
  unfold ring_page. split; [done|]. split; [by apply Z.ltb_lt|]. split; [recs_tac|].
  split; [vm_compute; reflexivity|]. split; [vm_compute; reflexivity|]. ring_tac.
Qed.

Lemma amd_log_merged_witness :
  exists merged w', decode 6 demo_session None demo_machine = Done (snd (pm_store (bs "kerncov.log") (concat (fmt_pc_line <$> concat (snd <$> merged))) w')) /\
    StronglySorted (fun x y => fst x <= fst y) merged /\ merged ≡ₚ concat (rec_sample <$> (demo_recs ++ demo_ibs)) /\
    (forall t, filter (fun x => fst x = t) merged = filter (fun x => fst x = t) (concat (rec_sample <$> (demo_recs ++ demo_ibs)))).
Proof.
  apply (amd_log_merged 6 demo_session 1 None 0 demo_recs 264 demo_ibs demo_machine); [done|done| |split; [done|]|cbn; lia].
  - exact demo_ring1.
  - exact demo_ring2.
Defined.

(** The samples of both rings by time, and a record across the end of a ring:
    its last bytes are in front, but they are read behind the mapping. *)
Example demo_amd_log :
  (w ← decode 6 demo_session None demo_machine; Done (c_log w)) =
  Done (concat (fmt_pc_line <$> [0xffffffff81000020; 0xffffffff81000010; 0xffffffff81000030; 0xffffffff81000040; 0xffffffff81000044; 0xffffffff81000050])).
Proof. vm_compute. reflexivity. Qed.

Definition wrapped (r : list Z) : list Z := drop 16 r ++ replicate 232 0 ++ take 16 r.
Lemma wrapped_record_overrun :
  let r := encode_rec (Sample 1 0xffffffff81000020 10 None) in
  let mem := page 240 264 (wrapped r) in
  zlen mem = 4352 /\ drain_step mem 256 264 (240, []) = Panic.
Proof. vm_compute. done. Qed.
