(* ===== verification/ExecProg.v ===== *)
(** execprog.rs: replaying a program file, and stress runs.

    The composition of the parsers, the executor, the mutators and the
    pseudo-system-calls: [plan] is the choice between the three input forms,
    [run_worker] the passes of one worker over a program, [stress_worker] its
    loop of mutating and executing.  The workers of [procs] processes share
    nothing, so a process is modelled by its worker; the schedule of the
    overlapped threads is an argument, one for each run.
    Shown: with the dispatcher of pseudo_ext.rs in place every pass and every
    stress run completes, exactly as many as asked for, when calls are not
    overlapped or none sleeps; every call of a program is executed unless its
    deadline passes; and every program a stress run executes is made of calls of
    the seed with at most words and buffers changed. *)
From stdpp Require Import gmap.
From S2P Require Import Prelude Text FuzzRng Syscalls TraceFiles UsbProg PseudoExt CovLogs ProgSyntax ProgArena ProgPlace ProgCopyin ProgLayout ProgMutate ProgExec.

Record Flags : Type := MkFlags
  { repeat : Z; procs : Z; fcover : bool; fthreaded : bool; fcollide : bool; slowdown : Z; stress : bool }.
Definition default_flags : Flags := MkFlags 1 1 false false false 1 false.

Definition contains (pat s : list Z) : bool := match find_sub pat s with Some _ => true | None => false end.
Definition needs_arena (text : list Z) : bool := contains (bs "&(0x") text || contains (bs "&AUTO") text.

(** What [run_with] does with a file of this text, or of no text when it cannot
    be read: the workers and the program they get. *)
Inductive Plan : Type :=
  | NoStatements
  | Replay (p : Prog) (ids : list Z)
  | Stress (p : Prog) (ids : list Z)
  | UsbFile
  | NoTrace
  | Trace (calls : list (Z * list Z)) (ids : list Z).

Definition ids (f : Flags) : list Z := if procs f <=? 1 then [0] else seqZ 0 (procs f).

Definition plan (arch : Arch) (text : list Z) (f : Flags) : outcome Plan :=
  if needs_arena text then
    p ← parse_prog arch text;
    Done (if bool_decide (zlen p = 0) then NoStatements else if stress f then Stress p (ids f) else Replay p (ids f))
  else if program_has_pseudo text then Done UsbFile
  else let calls := parse_trace arch text in
       Done (if bool_decide (zlen calls = 0) then NoTrace else Trace calls (ids f)).

(** [Opts] of a worker. *)
Definition opts_of (f : Flags) (id : Z) : Opts := MkOpts (fcover f) (fthreaded f) (fcollide f) (timeouts_new (slowdown f)) id.

Section Worker.
Context {W Fs : Type} `{!Kernel W, !ExtHost W}.
Context (K : Codes) (EINTR : Z) (arch : Arch) (width : Z) (store : list Z -> list Z -> Fs -> Fs * bool).

(** [pseudo_ext::dispatch] on the arena of the process, which is mapped with
    [ARENA_SIZE] bytes.  It ends with [Done] there ([PseudoExt.wp_dispatch]) but
    for parameters of io_uring_setup that reach past the arena, where nothing is
    mapped and the kernel answers [EFAULT]. *)
Definition pseudo_dispatch (c : Call) (args : list Z) (ar : Arena) (ctx : Ctx) (w : W) : (Z * Z) * (list Z * W) :=
  if zlen (mem ar) =? ARENA_SIZE then
    match PseudoExt.dispatch K (base c) args (mem ar) w with Done r => r | _ => ((-1, EFAULT K), (mem ar, w)) end
  else ((-1, ENOSYS K), (mem ar, w)).

Definition run (p : Prog) (o : Opts) (sched : Z -> list nat * list nat) (s : Sys W) : outcome (ProgResult * (Prog * Sys W)) :=
  run_prog width (ENOSYS K) EINTR pseudo_dispatch p o sched s.

(** A pass of [run_worker]: its number, the program as the last pass left it,
    the machine, the results so far, and what writing the coverage gave. *)
Record Pass : Type := MkPass
  { pass : Z; prog : Prog; machine : Sys W; results : list ProgResult; written : option (outcome (Fs * Z)) }.

Definition pass_step (f : Flags) (o : Opts) (sched : Z -> Z -> list nat * list nat) (fs : Fs) (s : Pass) : outcome (ctl Pass Pass) :=
  if (repeat f =? 0) || (pass s <? repeat f) then
    '(r, (p, m)) ← run (prog s) o (sched (pass s)) (machine s);
    let w := if fcover f && (pass s =? 0) then Some (write_cover store arch (calls r) (extra r) (bs "kerncov") fs) else written s in
    Done (Next (MkPass (as_i32 (pass s + 1)) p m (results s ++ [r]) w))
  else Done (Stop s).

Definition run_worker (fuel : nat) (f : Flags) (id : Z) (sched : Z -> Z -> list nat * list nat) (p : Prog) (fs : Fs) (s : Sys W) : outcome Pass :=
  loop fuel (pass_step f (opts_of f id) sched fs) (MkPass 0 p s [] None).

(** The stress loop: the generator, the programs executed with their results,
    and the machine. *)
Definition stress_seed (pid id : Z) : Z := (pid *₆₄ 0x9E3779B9) +₆₄ ((id *₆₄ 0x85EBCA6B) +₆₄ 1).

Record Stressed : Type := MkStressed { rng : StressRng.t; executed : Z; host_ : Sys W; log_ : list (Prog * ProgResult) }.

Definition stress_step (f : Flags) (o : Opts) (sched : Z -> Z -> list nat * list nat) (p : Prog) (s : Stressed) : outcome (ctl Stressed Stressed) :=
  '(p', rng', _) ← mutate p (rng s);
  '(r, (_, m)) ← run p' o (sched (executed s)) (host_ s);
  let n := executed s +₆₄ 1 in
  let s' := MkStressed rng' n m (log_ s ++ [(p', r)]) in
  Done (if negb (repeat f =? 0) && (as_u64 (repeat f) <=? n) then Stop s' else Next s').

Definition stress_worker (fuel : nat) (f : Flags) (pid id : Z) (sched : Z -> Z -> list nat * list nat) (p : Prog) (s : Sys W) : outcome Stressed :=
  loop fuel (stress_step f (opts_of f id) sched p) (MkStressed (StressRng.new (stress_seed pid id)) 0 s []).
End Worker.
Arguments MkPass {W Fs} _ _ _ _ _.
Arguments MkStressed {W} _ _ _ _.

(** * Programs that run *)

Definition leaf_bytes (a : Arg) : Prop := match a with Data d => bytes_ok d | _ => True end.

Lemma edit_bytes l l' : edit l l' -> leaf_bytes l -> leaf_bytes l'.
Proof. intros He. destruct He; cbn; auto. Qed.

Lemma data_ok_leaves a : data_ok a <-> Forall leaf_bytes (leaves a).
Proof.
  induction a as [v|i d x|addr inner IH|addr|d|fs IH|fs IH|a IH| |slot a IH|] using arg_nested_ind; cbn [data_ok leaves]; try done;
    try (by rewrite Forall_singleton); try (by rewrite Forall_nil).
  all: rewrite Forall_concat, Forall_fmap, <- data_ok_fields; split; intros H; rewrite Forall_forall in *; intros f Hf; by apply IH, H.
Qed.

Lemma objs_addresses w a : fst <$> objs w (skeleton a) = fst <$> objs w a.
Proof.
  assert (forall fs, Forall (fun f => fst <$> objs w (skeleton f) = fst <$> objs w f) fs ->
    fst <$> concat (objs w <$> (skeleton <$> fs)) = fst <$> concat (objs w <$> fs)) as Hc.
  { intros fs H. induction H as [|f fs Hf _ IH]; [done|]. rewrite !fmap_cons. cbn [concat]. by rewrite !fmap_app, Hf, IH. }
  induction a as [v|i d x|addr inner IH|addr|d|fs IH|fs IH|a IH| |slot a IH|] using arg_nested_ind; cbn [objs skeleton]; try done; try (by apply Hc).
  rewrite !fmap_cons. cbn [fst]. by rewrite IH.
Qed.

Lemma ptrs_addresses l : ptrs_ok l <-> Forall is_u64 (fst <$> l).
Proof. unfold ptrs_ok. by rewrite Forall_fmap. Qed.

Lemma args_addresses w l l' : skeleton_list l = skeleton_list l' -> fst <$> concat (objs w <$> l) = fst <$> concat (objs w <$> l').
Proof.
  revert l'. induction l as [|a l IH]; intros [|b l'] H; try done. unfold skeleton_list in *. rewrite !fmap_cons in *. injection H as H1 H2. cbn [concat].
  rewrite !fmap_app, (IH l' H2). f_equal. by rewrite <- objs_addresses, H1, objs_addresses.
Qed.

Lemma variant_ok w c c' : call_ok w c -> variant_of c c' -> Forall leaf_bytes (leaves_list (args c')) -> call_ok w c'.
Proof.
  intros [_ Hp] (l & -> & Hs) Hl. cbn [args with_args] in *. split; cbn [args with_args].
  - unfold leaves_list in Hl. rewrite Forall_concat, Forall_fmap in Hl. eapply Forall_impl; [exact Hl|]. intros a. by apply data_ok_leaves.
  - rewrite ptrs_addresses in *. by rewrite (args_addresses w l (args c)).
Qed.

Lemma runnable_inv w p : p <> [] -> Forall (call_ok w) p -> stress_inv leaf_bytes p p.
Proof.
  intros Hp H. split_and!; [done|lia|]. rewrite Forall_forall in *. intros c Hc. split.
  - exists c. split; [done|]. exists (args c). split; [by destruct c|done].
  - destruct (H c Hc) as [Hd _]. unfold leaves_list. rewrite Forall_concat, Forall_fmap. eapply Forall_impl; [exact Hd|]. intros a. by apply data_ok_leaves.
Qed.

Lemma inv_runnable w p p' : Forall (call_ok w) p -> stress_inv leaf_bytes p p' -> Forall (call_ok w) p'.
Proof.
  intros H (_ & _ & Hi). eapply Forall_impl; [exact Hi|]. intros c' [(c & Hc & Hv) Hl]. rewrite Forall_forall in H.
  eapply variant_ok; [by apply H|done|done].
Qed.

Section Complete.
Context {W Fs : Type} `{!Kernel W, !KernelMem W, !ExtHost W, !ExtLaws W}.
Context (K : Codes) (EINTR : Z) (arch : Arch) (width : Z) (Hwidth : width_ok width) (store : list Z -> list Z -> Fs -> Fs * bool).

Lemma pseudo_inside c args ar (w : W) v m' w' : bytes_ok (mem ar) -> zlen (mem ar) = ARENA_SIZE -> params_inside (base c) args ->
  match PseudoExt.dispatch K (base c) args (mem ar) w with Done r => r | _ => ((-1, EFAULT K), (mem ar, w)) end = (v, (m', w')) ->
  bytes_ok m' /\ zlen m' = zlen (mem ar).
Proof using ExtLaws0.
  intros Hb Hz Hp. pose proof (wp_dispatch K (base c) args (mem ar) w Hz Hb Hp) as H. unfold wp in H.
  destruct (PseudoExt.dispatch K (base c) args (mem ar) w) as [[v1 [m1 w1]]| | |]; [|by intros [= _ <- _]..]. intros [= -> <- <-].
  unfold contained in H. by destruct v, H as (? & ? & _).
Qed.

Lemma pseudo_mem c args ar ctx (w : W) v m' w' : bytes_ok (mem ar) -> pseudo_dispatch K c args ar ctx w = (v, (m', w')) ->
  bytes_ok m' /\ zlen m' = zlen (mem ar).
Proof using ExtLaws0.
  intros Hb. unfold pseudo_dispatch. destruct (Z.eqb_spec (zlen (mem ar)) ARENA_SIZE) as [Hz|]; [|by intros [= _ <- _]].
  destruct (decide (in_arena (PseudoExt.arg args 1) = true /\ ARENA_SIZE < offset_of (PseudoExt.arg args 1) + PARAMS_SIZE)) as [[H1 H2]|Hn].
  - destruct (decide (base c = bs "syz_io_uring_setup")) as [->|Hb'].
    + rewrite uring_reaches_out by done. by intros [= _ <- _].
    + apply pseudo_inside; [done|done|by intros ?].
  - apply pseudo_inside; [done|done|]. intros _ Ha. destruct (decide (ARENA_SIZE < offset_of (PseudoExt.arg args 1) + PARAMS_SIZE)); [by exfalso; apply Hn|lia].
Qed.

(** All calls finished, one result for each call executed, in order. *)
Definition completed (p : Prog) (r : ProgResult) : Prop :=
  Forall (fun x => unfinished x = false) (calls r) /\ index <$> calls r = seqZ 0 (zlen (calls r)) /\
  call_name <$> calls r = name <$> take (length (calls r)) p.

(** The result [r] is that of running [p] on some machine, and it has every
    call, unless the clock is past the deadline before the first left out. *)
Definition ran (o : Opts) (sched : Z -> list nat * list nat) (p : Prog) (r : ProgResult) : Prop :=
  exists (s : Sys W) x, run K EINTR width p o sched s = Done (r, x) /\
    (zlen (calls r) = zlen p \/ past_deadline width (ENOSYS K) EINTR (pseudo_dispatch K) p o sched s (zlen (calls r))).

(** No call runs beside another, or none sleeps. *)
Definition unhindered (p : Prog) (o : Opts) : Prop := in_place p o \/ prompt_calls (W := W).

Lemma run_done p o sched (s : Sys W) : unhindered p o -> arena_wf (arena s) -> Forall (call_ok width) p ->
  exists r p' s', run K EINTR width p o sched s = Done (r, (p', s')) /\ completed p r /\ ran o sched p r /\ arena_wf (arena s') /\
    Forall (call_ok width) p' /\ Forall2 (fun c c' => exists l, c' = with_args c l) p p'.
Proof using KernelMem0 ExtLaws0 Hwidth.
  intros Hu Hw Hp. destruct (run_prog_ends width (ENOSYS K) EINTR Hwidth (pseudo_dispatch K) pseudo_mem p o sched s Hu Hw Hp)
    as (r & p' & s' & E & H1 & H2 & H3 & H4 & H5 & H6 & H7). exists r, p', s'. split_and!; try done. by exists s, (p', s').
Qed.

Lemma with_args_names (p p' : Prog) : Forall2 (fun c c' => exists l, c' = with_args c l) p p' -> name <$> p' = name <$> p.
Proof using. intros H. induction H as [|c c' p p' [l ->] _ IH]; [done|]. rewrite !fmap_cons. by rewrite IH. Qed.

(** A program of variants of calls overlaps none when the first does not. *)
Lemma unhindered_calls p v o : unhindered p o -> (forall c', c' ∈ v -> exists c, c ∈ p /\ is_async c' = is_async c) -> unhindered v o.
Proof using.
  intros [[Ht|[Hcol Ha]]|Hpr] H; [by left; left| |by right]. left. right. split; [done|]. rewrite Forall_forall in *. intros c' Hc.
  destruct (H c' Hc) as (c & Hc' & ->). by apply Ha.
Qed.

(** A program executed by a stress run of [p]. *)
Definition stress_variant (p : Prog) (v : Prog) : Prop :=
  v <> [] /\ zlen v <= Z.max 512 (zlen p) /\ forall c', c' ∈ v -> exists c, c ∈ p /\ variant_of c c'.

Lemma inv_variant p v : stress_inv leaf_bytes p v -> stress_variant p v.
Proof.
  intros (H1 & H2 & H3). split_and!; [done|done|]. intros c' Hc. rewrite Forall_forall in H3. by destruct (H3 c' Hc) as [? _].
Qed.

Lemma stress_step_done f o sched p s : unhindered p o -> p <> [] -> Forall (call_ok width) p -> arena_wf (arena (host_ s)) -> 0 <= executed s < 2 ^ 63 -> 0 < repeat f < 2 ^ 31 ->
  exists v r rng' m, stress_step K EINTR width f o sched p s =
    (let s' := MkStressed rng' (executed s + 1) m (log_ s ++ [(v, r)]) in Done (if repeat f <=? executed s + 1 then Stop s' else Next s')) /\
    arena_wf (arena m) /\ stress_variant p v /\ completed v r /\ ran o (sched (executed s)) v r.
Proof using KernelMem0 ExtLaws0 Hwidth.
  intros Hun Hp Hok Hw He Hr. unfold stress_step. pose proof (wp_mutate leaf_bytes edit_bytes p p (rng s) (runnable_inv width p Hp Hok)) as H. unfold wp in H.
  destruct (mutate p (rng s)) as [[[v rng'] n]| | |]; try done. destruct H as [Hv _]. cbn [fst snd] in Hv. cbn [mbind outcome_bind].
  assert (unhindered v o) as Hv'.
  { eapply unhindered_calls; [exact Hun|]. intros c' Hc. destruct (inv_variant p v Hv) as (_ & _ & Ha).
    destruct (Ha c' Hc) as (c & Hcp & l & -> & _). by exists c. }
  destruct (run_done v o (sched (executed s)) (host_ s) Hv' Hw (inv_runnable width p v Hok Hv)) as (r & p' & m & -> & Hc & Hran & Hm & _). cbn [mbind outcome_bind].
  exists v, r, rng', m. split_and!; [|done|by apply inv_variant|done|done].
  rewrite (as_u64_small (executed s + 1)) by (unfold is_u64; lia). rewrite (as_u64_small (repeat f)) by (unfold is_u64; lia).
  by rewrite (proj2 (Z.eqb_neq _ _)) by lia.
Qed.

(** The programs of a stress run with their results: the [n]-th is a variant of
    the seed, run under the [n]-th schedule. *)
Definition stressed (p : Prog) (o : Opts) (sched : Z -> Z -> list nat * list nat) (l : list (Prog * ProgResult)) : Prop :=
  forall n v r, get l n = Some (v, r) -> stress_variant p v /\ completed v r /\ ran o (sched n) v r.

Lemma stressed_snoc p o sched l v r : stressed p o sched l -> stress_variant p v -> completed v r -> ran o (sched (zlen l)) v r ->
  stressed p o sched (l ++ [(v, r)]).
Proof using.
  intros H H1 H2 H3 n v' r' [Hg|[-> [= -> ->]]]%get_snoc; [by apply H|by split_and!].
Qed.


Lemma completed_names p p' r : name <$> p' = name <$> p -> completed p' r -> completed p r.
Proof using. intros Hn (H1 & H2 & H3). split_and!; [done|done|]. rewrite fmap_take, <- Hn, <- fmap_take. exact H3. Qed.

(** The state of [run_worker] after [n] of its passes. *)
Definition passed (f : Flags) (fs : Fs) (p : Prog) (n : Z) (t : Pass (W := W) (Fs := Fs)) : Prop :=
  pass t = n /\ zlen (results t) = n /\ Forall (completed p) (results t) /\ name <$> prog t = name <$> p /\
  Forall (call_ok width) (prog t) /\ arena_wf (arena (machine t)) /\
  written t = match results t with r :: _ => if fcover f then Some (write_cover store arch (calls r) (extra r) (bs "kerncov") fs) else None | [] => None end.

Lemma pass_done f o sched fs p n t : unhindered (prog t) o -> passed f fs p n t -> 0 <= n < repeat f -> repeat f < 2 ^ 31 ->
  exists t', pass_step K EINTR arch width store f o sched fs t = Done (Next t') /\ passed f fs p (n + 1) t' /\ unhindered (prog t') o.
Proof using KernelMem0 ExtLaws0 Hwidth.
  intros Hun (Hp & Hz & Hc & Hn & Hok & Hw & Hwr) Hlt Hb. unfold pass_step. rewrite Hp, (proj2 (Z.ltb_lt n _)), orb_true_r by lia.
  destruct (run_done (prog t) o (sched n) (machine t) Hun Hw Hok) as (r & p' & m & -> & Hr & _ & Hm & Hok' & HF). cbn [mbind outcome_bind].
  pose proof (with_args_names _ _ HF) as Hn'. eexists. split; [done|]. split.
  2: { cbn [prog]. eapply unhindered_calls; [exact Hun|]. intros c' Hc'. apply list_elem_of_lookup in Hc' as (k & Hk).
       destruct (Forall2_lookup_r _ _ _ _ _ HF Hk) as (c & Hck & l & ->). exists c. split; [by eapply list_elem_of_lookup_2|done]. }
  unfold passed. cbn [pass results prog machine written]. split_and!; try done.
  - unfold as_i32, as_signed. rewrite Z.mod_small by lia. lia.
  - rewrite zlen_app, zlen_cons, zlen_nil. lia.
  - apply Forall_app. split; [done|]. apply Forall_singleton. by eapply completed_names.
  - congruence.
  - destruct (Z.eqb_spec n 0) as [->|Hne].
    + destruct (results t) as [|x l]; [|rewrite zlen_cons in Hz; pose proof (zlen_nonneg l); lia]. cbn [app]. rewrite Hwr. by destruct (fcover f).
    + rewrite andb_false_r. destruct (results t) as [|x l]; [rewrite zlen_nil in Hz; lia|]. done.
Qed.

(** A worker makes its passes.  [-repeat=N] runs the program [N] times,
    every pass finishing every call it starts, with one result a call under its
    name in the file and in order, although a pass changes the pointers of the
    program it is given; and with [-cover] the coverage written is that of the
    first pass. *)
Theorem replay_completes f id sched p fs (s : Sys W) : unhindered p (opts_of f id) -> Forall (call_ok width) p -> arena_wf (arena s) -> 0 < repeat f < 2 ^ 31 ->
  exists s' r rs, run_worker K EINTR arch width store (S (Z.to_nat (repeat f))) f id sched p fs s = Done s' /\
    results s' = r :: rs /\ zlen (results s') = repeat f /\ Forall (completed p) (results s') /\
    written s' = if fcover f then Some (write_cover store arch (calls r) (extra r) (bs "kerncov") fs) else None.
Proof using KernelMem0 ExtLaws0 Hwidth.
  intros Hun Hok Hw Hr. unfold run_worker. set (o := opts_of f id) in *.
  assert (forall k n t, n + Z.of_nat k = repeat f -> 0 <= n -> unhindered (prog t) o -> passed f fs p n t ->
    exists s', loop (S k) (pass_step K EINTR arch width store f o sched fs) t = Done s' /\ passed f fs p (repeat f) s') as H.
  { induction k as [|k IH]; intros n t Hk Hn Hut Ht.
    - exists t. replace n with (repeat f) in Ht by lia. split; [|done]. rewrite loop_S. unfold pass_step. destruct Ht as (-> & _).
      by rewrite Z.ltb_irrefl, (proj2 (Z.eqb_neq (repeat f) 0)) by lia.
    - rewrite loop_S. destruct (pass_done f o sched fs p n t Hut Ht) as (t' & -> & Ht' & Hut'); [lia|lia|]. cbn [mbind outcome_bind].
      apply (IH (n + 1)); [lia|lia|done|done]. }
  destruct (H (Z.to_nat (repeat f)) 0 (MkPass 0 p s [] None)) as (s' & E & Hs); [lia|lia|done|by unfold passed; cbn|].
  destruct Hs as (_ & Hz & Hc & _ & _ & _ & Hwr). destruct (results s') as [|r rs] eqn:Er; [rewrite zlen_nil in Hz; lia|].
  exists s', r, rs. rewrite Er. split_and!; [exact E|done|done|done|done].
Qed.
End Complete.

(** * A concrete host *)

#[export] Instance host_ext : ExtHost Host :=
  {| x_open _ _ w := (-1, w); x_close fd w := MkHost (h_log w) (h_fds w ∖ {[fd]}) (h_maps w); x_ioctl _ _ _ w := (0, w); x_ioctl_out _ _ w := ((0, 1), w);
     x_socket _ _ _ w := (-1, w); x_setns _ _ w := (-1, w); x_write _ b w := (zlen b, w); x_read _ n w := ((0, replicate (Z.to_nat n) 0), w);
     x_uring_setup _ p w := ((-1, p), w); x_mount _ _ _ _ _ w := (0, w); x_chdir _ w := w; x_mkdirs _ w := w; x_save _ _ w := (true, w);
     x_remove _ w := w; x_getpid _ := 42; x_errno _ := 5 |}.

#[export] Instance host_ext_laws : ExtLaws Host.
Proof.
  refine {| xfds := h_fds |}; try (intros; cbn in *; by simplify_eq).
  intros fd n w v b w' Hn [= <- <- <-]. split_and!; [done| |done|].
  - unfold zlen. rewrite length_replicate. lia.
  - apply Forall_replicate. unfold is_u8. lia.
Defined.

Definition demo_flags : Flags := MkFlags 2 1 true true false 1 true.
Definition demo_store (path bytes : list Z) (fs : gmap (list Z) (list Z)) : gmap (list Z) (list Z) * bool := (<[path := bytes]> fs, true).

Lemma demo_width : width_ok 8.
Proof. unfold width_ok. lia. Qed.
Lemma demo_arena : arena_wf (map_arena 128).
Proof. apply map_arena_wf. lia. Qed.
Lemma demo_calls : Forall (call_ok 8) demo_flow.
Proof. repeat constructor. Qed.

Definition demo_seed : Prog := [plain "sync" 162 false; plain "read" 0 false].
Lemma demo_in_place : unhindered (W := Host) demo_seed (opts_of demo_flags 0).
Proof. left. right. split; [done|]. repeat constructor. Qed.
Lemma demo_seed_calls : Forall (call_ok 8) demo_seed.
Proof. repeat constructor. Qed.


Lemma replay_completes_witness :
  exists s' r rs, run_worker codes 4 X86_64 8 demo_store 3 demo_flags 0 (fun _ => before []) demo_seed ∅ demo_sys = Done s' /\
    results s' = r :: rs /\ zlen (results s') = 2 /\ Forall (completed demo_seed) (results s') /\
    written s' = Some (write_cover demo_store X86_64 (calls r) (extra r) (bs "kerncov") ∅).
Proof.
  apply (replay_completes codes 4 X86_64 8 demo_width demo_store demo_flags 0 (fun _ => before []) demo_seed ∅ demo_sys);
    [exact demo_in_place|exact demo_seed_calls|exact demo_arena|done].
Defined.

(** The three forms of a program file. *)
Example demo_plans :
  (exists p, plan X86_64 (bs "close(&(0x7f0000000000)='a\x00')") default_flags = Done (Replay p [0])) /\
  plan X86_64 (bs "r0 = syz_usb_connect(0x0, 1201)") default_flags = Done UsbFile /\
  plan X86_64 (bs "close(3)") (MkFlags 1 2 false false false 1 false) = Done (Trace [(3, [3; 0; 0; 0; 0; 0])] [0; 1]) /\
  plan X86_64 (bs "# nothing") default_flags = Done NoTrace.
Proof. split_and!; [eexists|..]; vm_compute; reflexivity. Qed.
