(* ===== verification/Cli.v ===== *)
(** main.rs: the command line.

    [parse] reads the arguments into an [Action]; [launch] is what follows for a
    run: the checks, the output directory, and the order of the system-call
    backends around coverage.  What the system answers is the record [Env].
    Shown: every configuration printed as options is read back, and nothing of
    the target's own arguments is taken for an option. *)
From S2P Require Import Prelude Text PerfSession ExecProg.

Definition eqs (a : list Z) (s : string) : bool := bytes_eqb a (bs s).

Inductive Coverage : Type := Hw | Kcov.

(** The variables of [real_main]. *)
Record Cli : Type := MkCli
  { kernel_src : option (list Z); vmlinux : option (list Z); filter_ : option (list Z); btf : bool; mode : Coverage;
    syscall_on : bool; syzlang_on : bool; fuzz_on : bool; syscall_backend : list Z; ctx_after : Z; ctx_before : Z;
    output_dir : option (list Z); ordered : bool }.
Definition default_cli : Cli := MkCli None None None false Hw false false false (bs "ptrace") (-1) (-1) None false.

(** [report::Options]. *)
Record ROptions : Type := MkROptions
  { r_kernel_src : option (list Z); r_vmlinux : option (list Z); r_log : list Z; r_filter : option (list Z); r_quiet : bool;
    r_ctx_after : Z; r_ctx_before : Z; r_output : list Z; r_btf : bool; r_ordered : bool; r_parts : list (list Z) }.
Definition default_roptions : ROptions := MkROptions None None (bs "kerncov.log") None false 3 3 (bs "coverage.html") false false [].

Inductive Action : Type :=
  | Selftest (args : list (list Z))
  | Help (code : Z)
  | Usage
  | BadMode (m : list Z)
  | FuzzNotice (code : Z)
  | Missing
  | Execprog (file : list Z) (f : Flags)
  | Report (o : ROptions) (dir : option (list Z))
  | Prog2c (file out : list Z)
  | Run (c : Cli) (cmd : list (list Z)).

Definition parse_or (d : Z) (v : list Z) : Z := default d (parse_i32 v).

(** * execprog, report, prog2c *)

(** One flag of [execprog]: the flags, the help, or the file. *)
Definition execprog_flag (a : list Z) (f : Flags) : option (option Flags) :=
  match strip_prefix (bs "-repeat=") a, strip_prefix (bs "-procs=") a, strip_prefix (bs "-slowdown=") a with
  | Some v, _, _ => Some (Some (MkFlags (parse_or 1 v) (procs f) (fcover f) (fthreaded f) (fcollide f) (slowdown f) (stress f)))
  | None, Some v, _ => Some (Some (MkFlags (repeat f) (parse_or 1 v) (fcover f) (fthreaded f) (fcollide f) (slowdown f) (stress f)))
  | None, None, Some v => Some (Some (MkFlags (repeat f) (procs f) (fcover f) (fthreaded f) (fcollide f) (default 1 (parse_u32 v)) (stress f)))
  | None, None, None =>
      if eqs a "-cover" then Some (Some (MkFlags (repeat f) (procs f) true (fthreaded f) (fcollide f) (slowdown f) (stress f)))
      else if eqs a "-threaded" then Some (Some (MkFlags (repeat f) (procs f) (fcover f) true (fcollide f) (slowdown f) (stress f)))
      else if eqs a "-stress" then Some (Some (MkFlags 0 (procs f) (fcover f) (fthreaded f) (fcollide f) (slowdown f) true))
      else if eqs a "-collide" then Some (Some (MkFlags (repeat f) (procs f) (fcover f) true true (slowdown f) (stress f)))
      else if eqs a "--help" || eqs a "-h" then Some None
      else None
  end.

Fixpoint parse_execprog (file : option (list Z)) (f : Flags) (args : list (list Z)) : Action :=
  match args with
  | [] => match file with Some t => Execprog t f | None => Missing end
  | a :: args =>
      match execprog_flag a f with
      | Some (Some f) => parse_execprog file f args
      | Some None => Help 0
      | None => parse_execprog (Some a) f args
      end
  end.

Definition set_ctx (a b : Z) (o : ROptions) : ROptions :=
  MkROptions (r_kernel_src o) (r_vmlinux o) (r_log o) (r_filter o) (r_quiet o) a b (r_output o) (r_btf o) (r_ordered o) (r_parts o).

(** An option of [report] with a value. *)
Definition report_value (a v : list Z) (o : ROptions) (dir : option (list Z)) : option (ROptions * option (list Z)) :=
  if eqs a "--kernel-src" then Some (MkROptions (Some v) (r_vmlinux o) (r_log o) (r_filter o) (r_quiet o) (r_ctx_after o) (r_ctx_before o) (r_output o) (r_btf o) (r_ordered o) (r_parts o), dir)
  else if eqs a "--vmlinux" then Some (MkROptions (r_kernel_src o) (Some v) (r_log o) (r_filter o) (r_quiet o) (r_ctx_after o) (r_ctx_before o) (r_output o) (r_btf o) (r_ordered o) (r_parts o), dir)
  else if eqs a "--log" then Some (MkROptions (r_kernel_src o) (r_vmlinux o) v (r_filter o) (r_quiet o) (r_ctx_after o) (r_ctx_before o) (r_output o) (r_btf o) (r_ordered o) (r_parts o), dir)
  else if eqs a "--filter" then Some (MkROptions (r_kernel_src o) (r_vmlinux o) (r_log o) (Some v) (r_quiet o) (r_ctx_after o) (r_ctx_before o) (r_output o) (r_btf o) (r_ordered o) (r_parts o), dir)
  else if eqs a "-A" then Some (set_ctx (parse_or 4 v) (r_ctx_before o) o, dir)
  else if eqs a "-B" then Some (set_ctx (r_ctx_after o) (parse_or 4 v) o, dir)
  else if eqs a "-C" then Some (set_ctx (parse_or 3 v) (parse_or 3 v) o, dir)
  else if eqs a "-d" || eqs a "--output-dir" then Some (o, Some v)
  else if eqs a "-o" || eqs a "--output" then Some (MkROptions (r_kernel_src o) (r_vmlinux o) (r_log o) (r_filter o) (r_quiet o) (r_ctx_after o) (r_ctx_before o) v (r_btf o) (r_ordered o) (r_parts o), dir)
  else None.

Definition report_plain (a : list Z) (o : ROptions) : ROptions :=
  if eqs a "-q" || eqs a "--quiet" then MkROptions (r_kernel_src o) (r_vmlinux o) (r_log o) (r_filter o) true (r_ctx_after o) (r_ctx_before o) (r_output o) (r_btf o) (r_ordered o) (r_parts o)
  else if eqs a "--btf" then MkROptions (r_kernel_src o) (r_vmlinux o) (r_log o) (r_filter o) (r_quiet o) (r_ctx_after o) (r_ctx_before o) (r_output o) true (r_ordered o) (r_parts o)
  else if eqs a "--ordered" then MkROptions (r_kernel_src o) (r_vmlinux o) (r_log o) (r_filter o) (r_quiet o) (r_ctx_after o) (r_ctx_before o) (r_output o) (r_btf o) true (r_parts o)
  else o.

Fixpoint parse_report (o : ROptions) (dir : option (list Z)) (args : list (list Z)) : Action :=
  match args with
  | [] => Report o dir
  | a :: args =>
      if eqs a "--help" || eqs a "-h" then Help 0 else
      match args with
      | v :: rest => match report_value a v o dir with Some (o, dir) => parse_report o dir rest | None => parse_report (report_plain a o) dir args end
      | [] => Report (report_plain a o) dir
      end
  end.

Fixpoint parse_prog2c (file : option (list Z)) (out : list Z) (args : list (list Z)) : Action :=
  match args with
  | [] => match file with Some t => Prog2c t out | None => Missing end
  | a :: args =>
      match args with
      | v :: rest => if eqs a "-o" then parse_prog2c file v rest else if eqs a "--help" || eqs a "-h" then Help 0 else parse_prog2c (Some a) out args
      | [] => if eqs a "--help" || eqs a "-h" then Help 0 else Prog2c a out
      end
  end.

(** [vock fuzz]: nothing but a notice, or the usage when no command is left. *)
Fixpoint parse_fuzz (args : list (list Z)) : Action :=
  match args with
  | [] => Usage
  | f :: args =>
      if starts_with (bs "-repeat=") f || starts_with (bs "-procs=") f then parse_fuzz args
      else if eqs f "--mode" && negb (bool_decide (args = [])) then match args with _ :: rest => parse_fuzz rest | [] => Usage end
      else if eqs f "--help" || eqs f "-h" then FuzzNotice 0
      else FuzzNotice 2
  end.

(** * The main options *)

Definition with_mode (m : Coverage) (c : Cli) : Cli :=
  MkCli (kernel_src c) (vmlinux c) (filter_ c) (btf c) m (syscall_on c) (syzlang_on c) (fuzz_on c) (syscall_backend c) (ctx_after c) (ctx_before c) (output_dir c) (ordered c).
Definition with_ctx (a b : Z) (c : Cli) : Cli :=
  MkCli (kernel_src c) (vmlinux c) (filter_ c) (btf c) (mode c) (syscall_on c) (syzlang_on c) (fuzz_on c) (syscall_backend c) a b (output_dir c) (ordered c).
Definition with_syscall (syz fuzz : bool) (backend : list Z) (c : Cli) : Cli :=
  MkCli (kernel_src c) (vmlinux c) (filter_ c) (btf c) (mode c) true syz fuzz backend (ctx_after c) (ctx_before c) (output_dir c) (ordered c).

(** An option with a value; [inr] is an unknown mode. *)
Definition value_flag (a v : list Z) (c : Cli) : option (Cli + list Z) :=
  if eqs a "--kernel-src" then Some (inl (MkCli (Some v) (vmlinux c) (filter_ c) (btf c) (mode c) (syscall_on c) (syzlang_on c) (fuzz_on c) (syscall_backend c) (ctx_after c) (ctx_before c) (output_dir c) (ordered c)))
  else if eqs a "--vmlinux" then Some (inl (MkCli (kernel_src c) (Some v) (filter_ c) (btf c) (mode c) (syscall_on c) (syzlang_on c) (fuzz_on c) (syscall_backend c) (ctx_after c) (ctx_before c) (output_dir c) (ordered c)))
  else if eqs a "--filter" then Some (inl (MkCli (kernel_src c) (vmlinux c) (Some v) (btf c) (mode c) (syscall_on c) (syzlang_on c) (fuzz_on c) (syscall_backend c) (ctx_after c) (ctx_before c) (output_dir c) (ordered c)))
  else if eqs a "-A" then Some (inl (with_ctx (parse_or 0 v) (ctx_before c) c))
  else if eqs a "-B" then Some (inl (with_ctx (ctx_after c) (parse_or 0 v) c))
  else if eqs a "-d" || eqs a "--output-dir" then Some (inl (MkCli (kernel_src c) (vmlinux c) (filter_ c) (btf c) (mode c) (syscall_on c) (syzlang_on c) (fuzz_on c) (syscall_backend c) (ctx_after c) (ctx_before c) (Some v) (ordered c)))
  else if eqs a "-C" then let n := parse_or 0 v in Some (inl (with_ctx (if ctx_after c <? 0 then n else ctx_after c) (if ctx_before c <? 0 then n else ctx_before c) c))
  else if eqs a "--mode" then Some (if eqs v "kcov" then inl (with_mode Kcov c) else if eqs v "hw" then inl (with_mode Hw c) else inr v)
  else None.

Definition plain_flag (a : list Z) (c : Cli) : option Cli :=
  if eqs a "--btf" then Some (MkCli (kernel_src c) (vmlinux c) (filter_ c) true (mode c) (syscall_on c) (syzlang_on c) (fuzz_on c) (syscall_backend c) (ctx_after c) (ctx_before c) (output_dir c) (ordered c))
  else if eqs a "--ordered" then Some (MkCli (kernel_src c) (vmlinux c) (filter_ c) (btf c) (mode c) (syscall_on c) (syzlang_on c) (fuzz_on c) (syscall_backend c) (ctx_after c) (ctx_before c) (output_dir c) true)
  else if eqs a "--syzlang" then Some (with_syscall true (fuzz_on c) (syscall_backend c) c)
  else if eqs a "--fuzz" then Some (with_syscall true true (syscall_backend c) c)
  else None.

Definition is_backend (v : list Z) : bool := eqs v "ptrace" || eqs v "sud" || eqs v "ebpf".

Fixpoint parse (c : Cli) (args : list (list Z)) : Action :=
  match args with
  | [] => Usage
  | a :: rest =>
      if eqs a "selftest" then Selftest rest
      else if eqs a "--help" || eqs a "-h" then Help 0
      else match plain_flag a c with
      | Some c => parse c rest
      | None =>
          if eqs a "--syscall" then
            match rest with
            | v :: rest' => if is_backend v then parse (with_syscall (syzlang_on c) (fuzz_on c) v c) rest'
                            else parse (with_syscall (syzlang_on c) (fuzz_on c) (syscall_backend c) c) rest
            | [] => Usage
            end
          else if eqs a "fuzz" then parse_fuzz rest
          else if eqs a "execprog" then parse_execprog None default_flags rest
          else if eqs a "report" then parse_report default_roptions None rest
          else if eqs a "prog2c" then parse_prog2c None (bs "prog.c") rest
          else match rest with
               | v :: rest' => match value_flag a v c with
                               | Some (inl c) => parse c rest'
                               | Some (inr m) => BadMode m
                               | None => Run c args
                               end
               | [] => Run c args
               end
      end
  end.

(** * A run *)

Record Env : Type := MkEnv
  { cwd : option (list Z); create_dir : list Z -> bool; enter_dir : list Z -> bool; euid : Z; paranoid_file : option (list Z);
    sud_available : bool; ebpf_available : bool; coverage_ret : Z; ebpf_ret : Z }.

Inductive Step : Type :=
  | Chdir (d : list Z)
  | SudRun (cmd : list (list Z))
  | CopyTrace
  | CoverageRun (m : Coverage) (cmd : list (list Z)) (c : Cli)
  | PtraceRun (cmd : list (list Z)) (syz : bool)
  | EbpfRun (cmd : list (list Z)).

Definition is_relative (p : list Z) : bool := negb (starts_with [47] p).
Definition join_path (d p : list Z) : list Z := match last d with Some 47 => d ++ p | _ => d ++ [47] ++ p end.
Definition absolutize (e : Env) (p : list Z) : list Z :=
  if is_relative p then match cwd e with Some d => join_path d p | None => p end else p.

Definition paranoid (e : Env) : Z := match paranoid_file e with Some s => default 2 (parse_i32 (trim s)) | None => 2 end.
Definition permitted (e : Env) (c : Cli) : bool :=
  match mode c with Kcov => euid e =? 0 | Hw => (euid e =? 0) || negb (1 <? paranoid e) end.

(** The steps after the output directory is entered, and the exit code. *)
Definition run_steps (e : Env) (c : Cli) (cmd : list (list Z)) : list Step * Z :=
  let uses s := syscall_on c && eqs (syscall_backend c) s in
  let copy := if syzlang_on c then [CopyTrace] else [] in
  if uses "sud" && negb (sud_available e) then ([], 1) else
  let before := if uses "sud" then SudRun cmd :: copy else [] in
  let cov := [CoverageRun (mode c) cmd c] in
  if uses "ptrace" then (before ++ cov ++ [PtraceRun cmd (syzlang_on c)], coverage_ret e)
  else if uses "ebpf" then
    if negb (ebpf_available e) then (before ++ cov, 1)
    else (before ++ cov ++ EbpfRun cmd :: (if 0 <=? ebpf_ret e then copy else []), coverage_ret e)
  else (before ++ cov, coverage_ret e).

Definition launch (e : Env) (c : Cli) (cmd : list (list Z)) : list Step * Z :=
  if fuzz_on c then ([], 2)
  else if btf c && bool_decide (is_Some (vmlinux c)) then ([], 1)
  else if negb (permitted e c) then ([], 1)
  else match output_dir c with
  | Some d =>
      let c := MkCli (absolutize e <$> kernel_src c) (absolutize e <$> vmlinux c) (filter_ c) (btf c) (mode c) (syscall_on c) (syzlang_on c) (fuzz_on c)
                 (syscall_backend c) (ctx_after c) (ctx_before c) (output_dir c) (ordered c) in
      if negb (create_dir e d) then ([], 1) else if negb (enter_dir e d) then ([], 1)
      else let '(steps, code) := run_steps e c cmd in (Chdir d :: steps, code)
  | None => run_steps e c cmd
  end.

(** What the report runs with: with a directory, its inputs are named from
    where the command was given, and the directory is entered. *)
Definition launch_report (e : Env) (o : ROptions) (dir : option (list Z)) : option ROptions :=
  match dir with
  | None => Some o
  | Some d =>
      let o := MkROptions (absolutize e <$> r_kernel_src o) (absolutize e <$> r_vmlinux o) (absolutize e (r_log o)) (r_filter o) (r_quiet o)
                 (r_ctx_after o) (r_ctx_before o) (r_output o) (r_btf o) (r_ordered o) (r_parts o) in
      if negb (create_dir e d) then None else if negb (enter_dir e d) then None else Some o
  end.

(** * The options of a configuration *)

Definition print_value (flag : string) (o : option (list Z)) : list (list Z) := match o with Some v => [bs flag; v] | None => [] end.
Definition print_flag (flag : string) (b : bool) : list (list Z) := if b then [bs flag] else [].
Definition print_ctx (flag : string) (n : Z) : list (list Z) := if 0 <=? n then [bs flag; fmt_dec n] else [].
Definition print_cli (c : Cli) : list (list Z) :=
  print_value "--kernel-src" (kernel_src c) ++ print_value "--vmlinux" (vmlinux c) ++ print_value "--filter" (filter_ c) ++
  print_flag "--btf" (btf c) ++ [bs "--mode"; match mode c with Kcov => bs "kcov" | Hw => bs "hw" end] ++
  print_value "--syscall" (if syscall_on c then Some (syscall_backend c) else None) ++ print_flag "--syzlang" (syzlang_on c) ++
  print_ctx "-A" (ctx_after c) ++ print_ctx "-B" (ctx_before c) ++ print_value "-d" (output_dir c) ++ print_flag "--ordered" (ordered c).

Definition ctx_ok (n : Z) : Prop := n = -1 \/ 0 <= n < 2 ^ 31.
Definition cli_ok (c : Cli) : Prop :=
  fuzz_on c = false /\ syscall_backend c ∈ [bs "ptrace"; bs "sud"; bs "ebpf"] /\
  (syscall_on c = false -> syscall_backend c = bs "ptrace" /\ syzlang_on c = false) /\ ctx_ok (ctx_after c) /\ ctx_ok (ctx_before c).

(** The words the main parser knows. *)
Definition words : list string :=
  ["selftest"; "--help"; "-h"; "--kernel-src"; "--vmlinux"; "--btf"; "--ordered"; "--filter"; "-A"; "-B"; "-d"; "--output-dir"; "-C";
   "--syscall"; "--syzlang"; "--fuzz"; "fuzz"; "execprog"; "report"; "prog2c"; "--mode"]%string.

Lemma parse_command c h r : Forall (fun w => h <> bs w) words -> parse c (h :: r) = Run c (h :: r).
Proof.
  intros H. assert (forall s, s ∈ words -> eqs h s = false) as He.
  { intros s Hs. apply bool_decide_eq_false. rewrite Forall_forall in H. by apply H. }
  assert (forall v, value_flag h v c = None) as Hv.
  { intros v. unfold value_flag. by rewrite !He by (apply list_elem_of_In; cbn; tauto). }
  cbn [parse]. unfold plain_flag. rewrite !He by (apply list_elem_of_In; cbn; tauto). cbn [orb]. destruct r as [|v r]; [done|]. by rewrite Hv.
Qed.

Lemma parse_i64_fmt n : 0 <= n < 2 ^ 63 -> parse_i64 (fmt_dec n) = Some n.
Proof.
  intros Hn. assert (2 ^ 63 < 10 ^ Z.of_nat 64) as Hb by (vm_compute; done).
  pose proof (digits_val_fmt 64 10 (2 ^ 63 - 1) n [] ltac:(lia) ltac:(lia) ltac:(lia)) as Hv.
  destruct (fmt_digits_head 63 10 n [] ltac:(lia)) as (d & l & Hl & Hd). unfold parse_i64, fmt_dec. rewrite Hl in *.
  assert (48 <= digit_char d <= 57) as Hc by (unfold digit_char; rewrite (proj2 (Z.ltb_lt d 10)) by lia; lia).
  rewrite (proj2 (Z.eqb_neq _ 45)), (proj2 (Z.eqb_neq _ 43)) by lia. exact Hv.
Qed.

Lemma parse_or_fmt d n : 0 <= n < 2 ^ 31 -> parse_or d (fmt_dec n) = n.
Proof.
  intros Hn. unfold parse_or, parse_i32. rewrite parse_i64_fmt by lia. cbn [mbind option_bind]. by rewrite (proj2 (Z.leb_le _ _)), (proj2 (Z.ltb_lt _ _)) by lia.
Qed.

(** What each printed option does to the configuration. *)
Section Printed.
Context (ks vm fi : option (list Z)) (bt : bool) (mo : Coverage) (sy sl : bool) (ba : list Z) (ca cb : Z) (od : option (list Z)) (ord : bool) (r : list (list Z)).

Lemma pr_kernel_src v : parse (MkCli None vm fi bt mo sy sl false ba ca cb od ord) (print_value "--kernel-src" v ++ r) = parse (MkCli v vm fi bt mo sy sl false ba ca cb od ord) r.
Proof using. by destruct v. Qed.
Lemma pr_vmlinux v : parse (MkCli ks None fi bt mo sy sl false ba ca cb od ord) (print_value "--vmlinux" v ++ r) = parse (MkCli ks v fi bt mo sy sl false ba ca cb od ord) r.
Proof using. by destruct v. Qed.
Lemma pr_filter v : parse (MkCli ks vm None bt mo sy sl false ba ca cb od ord) (print_value "--filter" v ++ r) = parse (MkCli ks vm v bt mo sy sl false ba ca cb od ord) r.
Proof using. by destruct v. Qed.
Lemma pr_btf v : parse (MkCli ks vm fi false mo sy sl false ba ca cb od ord) (print_flag "--btf" v ++ r) = parse (MkCli ks vm fi v mo sy sl false ba ca cb od ord) r.
Proof using. by destruct v. Qed.
Lemma pr_mode v : parse (MkCli ks vm fi bt mo sy sl false ba ca cb od ord) ([bs "--mode"; match v with Kcov => bs "kcov" | Hw => bs "hw" end] ++ r) = parse (MkCli ks vm fi bt v sy sl false ba ca cb od ord) r.
Proof using. by destruct v. Qed.
Lemma pr_syscall (on : bool) b : b ∈ [bs "ptrace"; bs "sud"; bs "ebpf"] -> (on = false -> b = bs "ptrace") ->
  parse (MkCli ks vm fi bt mo false sl false (bs "ptrace") ca cb od ord) (print_value "--syscall" (if on then Some b else None) ++ r) = parse (MkCli ks vm fi bt mo on sl false b ca cb od ord) r.
Proof using.
  intros Hb Hon. destruct on; [|by rewrite Hon]. repeat (apply elem_of_cons in Hb as [->|Hb]; [reflexivity|]). by apply elem_of_nil in Hb.
Qed.
Lemma pr_syzlang (v : bool) : (v = true -> sy = true) -> parse (MkCli ks vm fi bt mo sy false false ba ca cb od ord) (print_flag "--syzlang" v ++ r) = parse (MkCli ks vm fi bt mo sy v false ba ca cb od ord) r.
Proof using. destruct v; [|done]. intros H. by rewrite H. Qed.
Lemma pr_after n : ctx_ok n -> parse (MkCli ks vm fi bt mo sy sl false ba (-1) cb od ord) (print_ctx "-A" n ++ r) = parse (MkCli ks vm fi bt mo sy sl false ba n cb od ord) r.
Proof using.
  intros [->|H]; [done|]. unfold print_ctx. rewrite (proj2 (Z.leb_le 0 n)) by lia. rewrite <- (parse_or_fmt 0 n H) at 2. generalize (fmt_dec n) as v. reflexivity.
Qed.
Lemma pr_before n : ctx_ok n -> parse (MkCli ks vm fi bt mo sy sl false ba ca (-1) od ord) (print_ctx "-B" n ++ r) = parse (MkCli ks vm fi bt mo sy sl false ba ca n od ord) r.
Proof using.
  intros [->|H]; [done|]. unfold print_ctx. rewrite (proj2 (Z.leb_le 0 n)) by lia. rewrite <- (parse_or_fmt 0 n H) at 2. generalize (fmt_dec n) as v. reflexivity.
Qed.
Lemma pr_dir v : parse (MkCli ks vm fi bt mo sy sl false ba ca cb None ord) (print_value "-d" v ++ r) = parse (MkCli ks vm fi bt mo sy sl false ba ca cb v ord) r.
Proof using. by destruct v. Qed.
Lemma pr_ordered v : parse (MkCli ks vm fi bt mo sy sl false ba ca cb od false) (print_flag "--ordered" v ++ r) = parse (MkCli ks vm fi bt mo sy sl false ba ca cb od v) r.
Proof using. by destruct v. Qed.
End Printed.

(** C25: A command line is read as it was meant.  For every configuration,
    whatever the values of its options, the options printed for it followed by a
    command whose name is no word of the parser are read back as exactly that
    configuration and that command with all its arguments, also those that look
    like options or subcommands. *)
Theorem cli_roundtrip c cmd args : cli_ok c -> Forall (fun w => cmd <> bs w) words ->
  parse default_cli (print_cli c ++ cmd :: args) = Run c (cmd :: args).
Proof.
  intros (Hf & Hb & Hs & Ha & Hbe) Hw. destruct c as [ks vm fi bt mo sy sl fz ba ca cb od ord].
  cbn [fuzz_on syscall_backend syscall_on syzlang_on ctx_after ctx_before] in *. subst fz. unfold print_cli, default_cli.
  cbn [kernel_src vmlinux filter_ btf mode syscall_on syzlang_on syscall_backend ctx_after ctx_before output_dir ordered]. rewrite <- !app_assoc.
  rewrite pr_kernel_src, pr_vmlinux, pr_filter, pr_btf, pr_mode, pr_syscall, pr_syzlang, pr_after, pr_before, pr_dir, pr_ordered; try done.
  - by apply parse_command.
  - intros ->. destruct sy; [done|]. by destruct (Hs eq_refl).
  - intros ->. by destruct (Hs eq_refl).
Qed.

Lemma cli_roundtrip_witness :
  let c := MkCli (Some (bs "/usr/src/linux")) None (Some (bs "--btf")) true Kcov true true false (bs "ebpf") 5 (-1) (Some (bs "out")) true in
  parse default_cli (print_cli c ++ [bs "/bin/ls"; bs "--mode"; bs "selftest"]) = Run c [bs "/bin/ls"; bs "--mode"; bs "selftest"].
Proof.
  intros c. apply (cli_roundtrip c (bs "/bin/ls") [bs "--mode"; bs "selftest"]).
  - split_and!; [done|by right; right; left|done|right; vm_compute; split; [discriminate|done]|by left].
  - repeat (apply Forall_cons_2; [discriminate|]). apply Forall_nil_2.
Defined.

(** [-stress] sets the number of passes to "for ever" also when [-repeat] was
    given before it. *)
Lemma stress_discards_repeat :
  parse default_cli (bs <$> ["execprog"; "-repeat=5"; "-stress"; "p.syz"]%string) = Execprog (bs "p.syz") (MkFlags 0 1 false false false 1 true) /\
  parse default_cli (bs <$> ["execprog"; "-stress"; "-repeat=5"; "p.syz"]%string) = Execprog (bs "p.syz") (MkFlags 5 1 false false false 1 true).
Proof. split; vm_compute; reflexivity. Qed.

(** In front of a command [-A] has precedence over a later [-C]; for [report] it
    has not. *)
Lemma context_precedence :
  (exists c, parse default_cli (bs <$> ["-A"; "9"; "-C"; "1"; "ls"]%string) = Run c [bs "ls"] /\ ctx_after c = 9 /\ ctx_before c = 1) /\
  exists o, parse default_cli (bs <$> ["report"; "-A"; "9"; "-C"; "1"]%string) = Report o None /\ r_ctx_after o = 1 /\ r_ctx_before o = 1.
Proof. split; eexists; (split; [vm_compute; reflexivity|done]). Qed.

(** An option that lacks its value is run as the command. *)
Example last_option_is_command : parse default_cli [bs "--vmlinux"] = Run default_cli [bs "--vmlinux"].
Proof. vm_compute. reflexivity. Qed.

(** Tracking system calls runs the command a second time. *)
Definition runs_target (s : Step) : bool := match s with SudRun _ | CoverageRun _ _ _ | PtraceRun _ _ | EbpfRun _ => true | _ => false end.
Lemma target_runs e c cmd : syscall_backend c ∈ [bs "ptrace"; bs "sud"; bs "ebpf"] -> sud_available e = true -> ebpf_available e = true ->
  length (filter (fun s => runs_target s = true) (fst (run_steps e c cmd))) = if syscall_on c then 2%nat else 1%nat.
Proof.
  intros Hb Hs He. unfold run_steps. rewrite Hs, He. destruct (syscall_on c); [|reflexivity]. cbn [andb negb].
  repeat (apply elem_of_cons in Hb as [->|Hb]; [destruct (syzlang_on c), (0 <=? ebpf_ret e); reflexivity|]). by apply elem_of_nil in Hb.
Qed.

(** In front of a directory every input of the report has an absolute path, and
    one that had keeps it. *)
Lemma absolutize_absolute e c p : cwd e = Some c -> is_relative c = false -> is_relative (absolutize e p) = false /\ (is_relative p = false -> absolutize e p = p).
Proof.
  intros Hc Ha. unfold absolutize. destruct (is_relative p) eqn:E; [|by split]. rewrite Hc. split; [|done].
  destruct c as [|x c]; [done|]. unfold join_path, is_relative in *. assert (exists t, match last (x :: c) with Some 47 => (x :: c) ++ p | _ => (x :: c) ++ [47] ++ p end = x :: t) as [t ->].
  { by repeat case_match; eexists. }
  unfold starts_with in *. cbn [strip_prefix] in *. by destruct (47 =? x).
Qed.

Theorem report_inputs_absolute e o d o' c : launch_report e o (Some d) = Some o' -> cwd e = Some c -> is_relative c = false ->
  is_relative (r_log o') = false /\ (forall p, r_vmlinux o' = Some p \/ r_kernel_src o' = Some p -> is_relative p = false) /\ r_output o' = r_output o.
Proof.
  intros H Hc Ha. unfold launch_report in H. destruct (create_dir e d), (enter_dir e d); try done. injection H as <-. cbn [r_log r_vmlinux r_kernel_src r_output].
  split_and!; [by eapply absolutize_absolute| |done]. intros p [H|H]; apply fmap_Some in H as (q & _ & ->); by eapply absolutize_absolute.
Qed.
