(* ===== verification/ReportRun.v ===== *)
(** report/mod.rs, the driver of a report, and the choice of a symbolizer of
    report/resolve.rs.

    The file system is what reading a path gives, file by file the chunks its
    reads return; a report is the list of files it writes.  The page of
    btf::generate_html stands for itself.
    Shown: a report of any log in any mode ends normally and, when its files have
    names of their own, the disk then keeps the addresses: one file, or the log
    itself, reads back as the addresses the mode reads; the sources are read once each by at most eight threads; and the
    unversioned symbolizer, else the newest, is taken. *)
From S2P Require Import Cli CovLogs.
From S2P Require Import Prelude Text DwarfAranges ReportLog ReportPaths ReportKaslr ReportKallsyms ReportStream ReportRender.

(** * The external tool *)

Inductive Tool : Type :=
  | LlvmAddr2line (path : list Z)
  | LlvmSymbolizer (path : list Z)
  | Gnu (path : list Z).

Definition tool_path (t : Tool) : list Z := match t with LlvmAddr2line p | LlvmSymbolizer p | Gnu p => p end.

(** Program and arguments. *)
Definition command (t : Tool) (vmlinux : list Z) : list Z * list (list Z) :=
  (tool_path t,
   match t with LlvmSymbolizer _ => [bs "--output-style=GNU"; bs "--no-inlines"] | _ => [] end ++
   [bs "-f"; bs "-C"; bs "-e"; vmlinux]).

(** [Path::file_name] of a path that ends in a name. *)
Definition file_name (p : list Z) : list Z := match rposition 47 p with Some i => drop (Z.to_nat (i + 1)) p | None => p end.
Definition tool_name (t : Tool) : list Z := file_name (tool_path t).
Definition is_gnu (t : Tool) : bool := match t with Gnu _ => true | _ => false end.

Definition classify (path : list Z) : Tool :=
  let name := file_name path in
  if starts_with (bs "llvm-symbolizer") name then LlvmSymbolizer path
  else if starts_with (bs "llvm-addr2line") name then LlvmAddr2line path
  else Gnu path.

(** [Path::join]: an absolute path replaces. *)
Definition join_path (d p : list Z) : list Z :=
  if starts_with [47] p then p else match last d with Some 47 => d ++ p | None => p | _ => d ++ [47] ++ p end.

(** What the machine has. *)
Record Env : Type := MkEnv
  { home : option (list Z); path_dirs : option (list (list Z)); vock_addr2line : option (list Z);
    is_file : list Z -> bool; is_dir : list Z -> bool; read_dir : list Z -> option (list (list Z));
    canonicalize : list Z -> option (list Z); read_to_string : list Z -> option (list Z);
    read_chunks : list Z -> File; kallsyms : option (list Z); ordered_rows_var : option (list Z) }.

(** The version in [<stem>-N]. *)
Definition version_of (stem name : list Z) : option Z :=
  rest ← strip_prefix stem name; ver ← strip_prefix (bs "-") rest; parse_u32 ver.

Definition newer (stem dir : list Z) (best : option (Z * list Z)) (name : list Z) : option (Z * list Z) :=
  match version_of stem name with
  | None => best
  | Some v =>
      match best with
      | Some (bv, _) => if bv <? v then Some (v, join_path dir name) else best
      | None => Some (v, join_path dir name)
      end
  end.

Fixpoint search (e : Env) (stem : list Z) (dirs : list (list Z)) (best : option (Z * list Z)) : option (list Z) :=
  match dirs with
  | [] => snd <$> best
  | dir :: dirs =>
      let exact := join_path dir stem in
      if is_file e exact then Some exact
      else search e stem dirs (foldl (newer stem dir) best (default [] (read_dir e dir)))
  end.

Definition find_on_path (e : Env) (stem : list Z) : option (list Z) := dirs ← path_dirs e; search e stem dirs None.

Definition forced_external (e : Env) : option Tool :=
  match vock_addr2line e with Some ((_ :: _) as v) => Some (classify v) | _ => None end.

Definition external_tool (e : Env) : Tool :=
  match forced_external e with
  | Some r => r
  | None =>
      match find_on_path e (bs "llvm-addr2line") with
      | Some p => LlvmAddr2line p
      | None =>
          match find_on_path e (bs "llvm-symbolizer") with
          | Some p => LlvmSymbolizer p
          | None => Gnu (bs "addr2line")
          end
      end
  end.

(** [dwarf::get] either has the symbolizer of the file or an error. *)
Inductive Backend (D : Type) : Type :=
  | InProcess (d : D)
  | External (t : Tool).
Arguments InProcess {D}.
Arguments External {D}.

Definition backend {D} (e : Env) (dwarf_get : option D) : Backend D :=
  match forced_external e with
  | Some _ => External (external_tool e)
  | None => match dwarf_get with Some d => InProcess d | None => External (external_tool e) end
  end.
Definition backend_name {D} (e : Env) (dwarf_get : option D) : list Z :=
  match backend e dwarf_get with InProcess _ => bs "in-process DWARF" | External t => tool_name t end.

(** * Paths *)

Definition home_dir (e : Env) : list Z := default (bs "/root") (home e).

Definition defaults (e : Env) : list Z * list Z :=
  let at_ n := join_path (home_dir e) (bs n) in
  let vm p := join_path p (bs "vmlinux") in
  match filter (fun p => is_file e (vm p) = true) [at_ "linux"%string; at_ "stable"%string; at_ "net"%string] with
  | p :: _ => (p, vm p)
  | [] => (at_ "stable"%string, vm (at_ "stable"%string))
  end.

Definition vmlinux_path (e : Env) (kernel_src vmlinux : option (list Z)) : list Z :=
  match vmlinux, kernel_src with
  | Some v, _ => v
  | None, Some ks => join_path ks (bs "vmlinux")
  | None, None => snd (defaults e)
  end.

(** * Sources *)

(** [chunks(per)] *)
Fixpoint chunks {A} (fuel per : nat) (l : list A) : list (list A) :=
  match fuel, l with
  | O, _ | _, [] => []
  | S f, _ => take per l :: chunks f per (drop per l)
  end.

(** One thread's files. *)
Definition read_sources (e : Env) (root : list Z) (files : list (list Z)) : list (list Z * list Z) :=
  omap (fun f => (fun c => (f, c)) <$> read_to_string e (join_path root f)) files.

Definition source_threads (files : list (list Z)) : list (list (list Z)) :=
  let n := Nat.min 8 (length files) in
  chunks (length files) ((length files + n - 1) / n) files.

Definition load_sources (e : Env) (cov : Cov) (kernel_src : list Z) (filter_kw : option (list Z)) : gmap (list Z) (list Z) :=
  let files := fst <$> selected filter_kw cov in
  foldl (fun m v => foldl (fun m '(f, c) => <[f := c]> m) m v) ∅ (read_sources e kernel_src <$> source_threads files).

(** * The pages *)

Definition page_header : list Z := dq (
  bs "<!DOCTYPE html>" ++ [10] ++
  bs "<html><head><meta charset='utf-8'><title>vock coverage</title>" ++ [10] ++
  bs "<style>" ++ [10] ++
  bs "body { font-family: monospace; background: #1e1e1e; color: #d4d4d4; padding: 20px; }" ++ [10] ++
  bs "h1 { color: #569cd6; } h2 { color: #dcdcaa; margin-top: 2em; }" ++ [10] ++
  bs ".cov { background: #1e3a1e; color: #4ec9b0; }" ++ [10] ++
  bs ".ctx { color: #808080; } .sep { color: #569cd6; }" ++ [10] ++
  bs ".ln { color: #858585; display: inline-block; width: 5em; text-align: right; margin-right: 1em; }" ++ [10] ++
  bs "pre { margin: 0; } .summary { color: #9cdcfe; margin-bottom: 2em; }" ++ [10] ++
  bs "</style></head><body>" ++ [10] ++
  bs "<h1>vock kernel coverage report</h1>" ++ [10]).

(** [html::generate] *)
Definition generate (cov : Cov) (funcs : Funcs) (before after : Z) (filter_kw : option (list Z)) (sources : gmap (list Z) (list Z)) : outcome (list Z) :=
  body ← generate_body cov funcs before after filter_kw sources; Done (page_header ++ body ++ bs "</body></html>").

Definition ordered_header : list Z :=
  bs "<!DOCTYPE html><html><head><meta charset='utf-8'>" ++ [10] ++
  bs "<title>vock ordered coverage</title>" ++ [10] ++
  bs "<style>body{background:#1e1e1e;color:#d4d4d4;font-family:monospace;padding:20px}" ++
  bs "table{border-collapse:collapse;width:100%}" ++
  bs "td,th{padding:4px 8px;border-bottom:1px solid #333;text-align:left}" ++
  bs "th{background:#264f78;color:#fff}" ++
  bs ".func{color:#dcdcaa}.file{color:#9cdcfe}.line{color:#b5cea8}" ++
  bs "</style></head><body>" ++ [10].

(** [html::generate_ordered] *)
Definition generate_ordered (rows_var : option (list Z)) (addrs lines : list (list Z)) : list Z :=
  let max := ordered_html_rows rows_var in
  let shown := Z.min (zlen lines) max in
  ordered_header ++ bs "<h2>Ordered Kernel Execution Trace (" ++ fmt_dec (zlen addrs) ++ bs " PCs)</h2>" ++ [10] ++
  (if shown <? zlen lines then
     bs "<p>Showing the first " ++ fmt_dec shown ++ bs " of " ++ fmt_dec (zlen lines) ++
     bs " entries. The complete sequence, in order and with every duplicate, is the log this report was generated from and its srccov twin. Set VOCK_ORDERED_HTML_ROWS=0 to render all of them.</p>" ++ [10]
   else []) ++
  bs "<table><tr><th>#</th><th>Address</th><th>Function</th><th>Source</th></tr>" ++ [10] ++
  ordered_table max addrs lines ++ bs "</table></body></html>" ++ [10].

(** * The driver *)

(** A file written: its bytes, or the page of functions over a source tree. *)
Inductive Artifact : Type :=
  | Bytes (data : list Z)
  | FunctionPage (ranked : list (list Z * Z)).
Definition Written : Type := list (list Z * Artifact).

(** The disk after the writes, in their order.  [place] is the file a path leads
    to, [can] whether it can be created and written. *)
Definition write_out (place : list Z -> list Z) (can : list Z -> bool) (w : Written) (d : gmap (list Z) Artifact) : gmap (list Z) Artifact :=
  foldl (fun d f => if can (fst f) then <[place (fst f) := snd f]> d else d) d w.

Definition input_parts (o : ROptions) : list (list Z) := match r_parts o with [] => [r_log o] | ps => ps end.

(** [str::replace] of a pattern. *)
Fixpoint replace_all (fuel : nat) (pat by_ s : list Z) : list Z :=
  match fuel, s with
  | O, _ | _, [] => s
  | S f, c :: t =>
      match strip_prefix pat s with
      | Some rest => by_ ++ replace_all f pat by_ rest
      | None => c :: replace_all f pat by_ t
      end
  end.

Definition no_assembly : list Z := bs "# no assembly PCs in this log (KCOV instruments C code only; hardware engines observe entry stubs)" ++ [10].

Section Driver.
Context {S : Type} {R : Resolver S} (e : Env).
Context (detect : S -> list Z -> outcome (S * Z)) (send_ok : nat -> bool) (x86_64 : bool) (hash_order : list (list Z * Z) -> list (list Z * Z)).

Definition whole_files (o : ROptions) : list (option (list Z)) := (fun p => contents (read_chunks e p)) <$> input_parts o.

(** [resolve::symbolize] of a vmlinux. *)
Definition symbolize_vm (vm : list Z) (s : S) (pcs : list Z) : outcome (S * list Pair) :=
  if bool_decide (pcs = []) || negb (is_file e vm) then Done (s, []) else symbolize s pcs.

Definition ordered_line (umap : gmap Z Pair) (a : Z) : list Z :=
  match umap !! a with Some (f, l) => f ++ [32] ++ l | None => bs "?? ??" end.

Definition twin_name (o : ROptions) : list Z := srccov_path (file_name (r_log o)).
Definition text_name (o : ROptions) : list Z := replace_all (length (r_output o)) (bs ".html") (bs ".txt") (r_output o).

Definition run_ordered (o : ROptions) (ks vm : list Z) (s : S) : outcome Written :=
  let seq := read_all_pcs (whole_files o) in
  if bool_decide (seq = []) then Done [] else
  let uniq := unique_sorted seq in
  '(s, offset) ← detect s (take 100 seq);
  '(s, pairs_u) ← symbolize_vm vm s ((fun a => a -₆₄ offset) <$> uniq);
  let umap := list_to_map (zip uniq pairs_u) in
  let locs := location_map uniq pairs_u ks in
  Done [(twin_name o, Bytes (write_srccov (fun pc => locs !! pc) seq));
        (r_output o, Bytes (generate_ordered (ordered_rows_var e) (hex_strings ((fun a => a -₆₄ offset) <$> seq)) (ordered_line umap <$> seq)))].

Definition btf_line (r : list Z * option (list Z)) : list Z := fst r ++ [32] ++ default (bs "??") (snd r) ++ [10].

(** [None] hands the log over to the vmlinux pipeline. *)
Definition run_btf (o : ROptions) (ks vm : list Z) : outcome (option Written) :=
  let seq := read_all_pcs (whole_files o) in
  if bool_decide (seq = []) then Done (Some []) else
  resolved ← resolve_pcs x86_64 (hex_strings (unique_sorted seq)) (kallsyms e);
  let ranked := rank hash_order resolved in
  if bool_decide (ranked = []) && is_file e vm then Done None else
  let twin := (twin_name o, Bytes (concat (btf_line <$> resolved))) in
  if (match r_kernel_src o with Some _ => true | None => false end) && is_dir e ks then Done (Some [twin; (r_output o, FunctionPage ranked)])
  else Done (Some [twin; (text_name o, Bytes (concat ((fun r => fst r ++ [9] ++ fmt_dec (snd r) ++ [10]) <$> ranked)))]).

(** [run_streaming], from the report ReportStream.v gives. *)
Definition write_report (o : ROptions) (ks : list Z) (r : Report) : outcome Written :=
  let '(cov, funcs) := source r in
  let '(asm_cov, asm_funcs) := assembly r in
  let twin := (twin_name o, Bytes (twin r)) in
  let sources := load_sources e cov ks (r_filter o) in
  let asm_sources := load_sources e asm_cov ks (r_filter o) in
  if bool_decide (cov = ∅) && bool_decide (asm_cov = ∅) then Done [twin] else
  asm_text ← (if bool_decide (asm_cov = ∅) then Done no_assembly
              else render_text asm_cov asm_funcs (r_ctx_before o) (r_ctx_after o) (r_filter o) asm_sources);
  page ← generate cov funcs (r_ctx_before o) (r_ctx_after o) (r_filter o) sources;
  text ← render_text cov funcs (r_ctx_before o) (r_ctx_after o) (r_filter o) sources;
  Done [twin; (bs "asmcov.log", Bytes asm_text); (r_output o, Bytes page); (r_log o, Bytes text)].

Definition stream_log (o : ROptions) (ks : list Z) (s : S) : outcome Written :=
  r ← run_streaming ks detect send_ok s (spawn_reader [] (arriving <$> (read_chunks e <$> input_parts o)));
  match r with None => Done [] | Some r => write_report o ks r end.

(** The source tree of [run], made absolute. *)
Definition source_root (o : ROptions) : list Z :=
  let ks := default (fst (defaults e)) (r_kernel_src o) in default ks (canonicalize e ks).

Definition run (o : ROptions) (s : S) : outcome Written :=
  let vm := vmlinux_path e (r_kernel_src o) (r_vmlinux o) in
  let ks := source_root o in
  let vmlinux_pipeline :=
    if negb (is_file e vm) then
      let seq := read_all_pcs (whole_files o) in
      Done (match seq, r_parts o with
            | [], _ | _, [] => []
            | _, _ => [(r_log o, Bytes (concat (fmt_pc_line <$> seq)))]
            end)
    else stream_log o ks s in
  if r_ordered o then run_ordered o ks vm s
  else if r_btf o then w ← run_btf o ks vm; match w with Some w => Done w | None => vmlinux_pipeline end
  else vmlinux_pipeline.
End Driver.

(** * Sources are read once *)

Lemma concat_chunks {A} fuel per (l : list A) : (0 < per)%nat -> (length l <= fuel)%nat -> concat (chunks fuel per l) = l.
Proof.
  revert l. induction fuel as [|fuel IH]; intros l Hp Hl; [by destruct l; [|simpl in Hl; lia]|]. cbn [chunks]. destruct l as [|x l]; [done|].
  cbn [concat]. rewrite IH; [apply take_drop|done|rewrite length_drop; simpl in *; lia].
Qed.

Lemma length_chunks {A} fuel per (l : list A) : (0 < per)%nat -> (length l <= fuel)%nat -> (length (chunks fuel per l) * per < length l + per)%nat.
Proof.
  revert l. induction fuel as [|fuel IH]; intros l Hp Hl; [destruct l; simpl in *; lia|]. cbn [chunks]. destruct l as [|x l]; [simpl; lia|].
  specialize (IH (drop per (x :: l)) Hp ltac:(rewrite length_drop; simpl in *; lia)). rewrite length_drop in IH.
  set (k := length (chunks fuel per (drop per (x :: l)))) in *. cbn [length] in *. fold k. clearbody k.
  destruct (Nat.le_gt_cases per (S (length l))); [lia|]. assert (k = 0)%nat as -> by nia. lia.
Qed.

(** The files are split among at most eight threads, in order. *)
Lemma source_threads_split files : concat (source_threads files) = files /\ (length (source_threads files) <= 8)%nat.
Proof.
  unfold source_threads. destruct files as [|f l]; [split; [done|simpl; lia]|]. set (L := f :: l). set (n := Nat.min 8 (length L)).
  assert (1 <= n <= 8)%nat as Hn by (unfold n, L; cbn [length]; lia). set (per := ((length L + n - 1) / n)%nat).
  assert (length L <= per * n)%nat as Hper.
  { unfold per. pose proof (Nat.div_mod_eq (length L + n - 1) n). pose proof (Nat.mod_upper_bound (length L + n - 1) n ltac:(lia)). nia. }
  assert (0 < per)%nat as Hp by (unfold L in *; cbn [length] in *; nia).
  split; [by apply concat_chunks|]. pose proof (length_chunks (length L) per L Hp ltac:(lia)). nia.
Qed.

Lemma insert_sources (f : list Z -> option (list Z)) (m : gmap (list Z) (list Z)) files :
  let g x := (fun c => (x, c)) <$> f x in
  foldl (fun m '(k, c) => <[k := c]> m) m (omap g files) =
  foldl (fun m k => match f k with Some c => <[k := c]> m | None => m end) m files.
Proof. intros g. revert m. induction files as [|x l IH]; intros m; [done|]. cbn [omap list_omap foldl]. unfold g at 1. destruct (f x) as [c|]; cbn; apply IH. Qed.

Lemma lookup_sources (f : list Z -> option (list Z)) (m : gmap (list Z) (list Z)) files k :
  foldl (fun m k => match f k with Some c => <[k := c]> m | None => m end) m files !! k =
  if decide (k ∈ files) then match f k with Some c => Some c | None => m !! k end else m !! k.
Proof.
  revert m. induction files as [|x l IH]; intros m; cbn [foldl]; [by rewrite decide_False by apply not_elem_of_nil|]. rewrite IH.
  destruct (decide (k = x)) as [->|Hk].
  - rewrite (decide_True (P := x ∈ x :: l)) by left. destruct (f x) as [c|] eqn:E; destruct (decide _); try done. by rewrite lookup_insert_eq.
  - assert ((match f x with Some c => <[x := c]> m | None => m end) !! k = m !! k) as -> by (destruct (f x); [by rewrite lookup_insert_ne|done]).
    destruct (decide (k ∈ l)) as [Hl|Hl]; [by rewrite decide_True by (by right)|]. rewrite decide_False; [done|]. by intros [->|?]%elem_of_cons.
Qed.

(** Whatever the threads, the table holds exactly the files of the report that
    can be read, each with its text. *)
Theorem load_sources_spec e cov ks filter_kw f :
  load_sources e cov ks filter_kw !! f =
  if decide (f ∈ fst <$> selected filter_kw cov) then read_to_string e (join_path ks f) else None.
Proof.
  unfold load_sources. set (files := fst <$> selected filter_kw cov).
  assert (forall (ts : list (list (list Z))) (m : gmap (list Z) (list Z)), foldl (fun m v => foldl (fun m '(f, c) => <[f := c]> m) m v) m (read_sources e ks <$> ts) =
    foldl (fun m k => match read_to_string e (join_path ks k) with Some c => <[k := c]> m | None => m end) m (concat ts)) as H.
  { induction ts as [|t ts IH]; intros m; [done|]. cbn [fmap list_fmap foldl concat]. rewrite IH, foldl_app. f_equal.
    apply (insert_sources (fun k => read_to_string e (join_path ks k))). }
  rewrite H, (proj1 (source_threads_split files)), lookup_sources, lookup_empty. destruct (decide _); [|done]. by destruct (read_to_string _ _).
Qed.

(** * The tool *)

Lemma newer_fold stem dir names best : let r := foldl (newer stem dir) best names in
  (forall v n, n ∈ names -> version_of stem n = Some v -> exists bv p, r = Some (bv, p) /\ v <= bv) /\
  (forall bv p, best = Some (bv, p) -> exists bv' p', r = Some (bv', p') /\ bv <= bv') /\
  (forall bv p, r = Some (bv, p) -> best = Some (bv, p) \/ exists n, n ∈ names /\ version_of stem n = Some bv /\ p = join_path dir n).
Proof.
  revert best. induction names as [|n names IH]; intros best; cbn [foldl]; [set_solver|]. cbv zeta in *.
  destruct (IH (newer stem dir best n)) as (H1 & H2 & H3). split_and!.
  - intros v m [->|Hm]%elem_of_cons Hv; [|by eapply H1]. unfold newer in *. rewrite Hv in *. destruct best as [[bv p]|]; [|by eapply H2].
    destruct (Z.ltb_spec bv v); [by eapply H2|]. destruct (H2 bv p eq_refl) as (b' & p' & E & ?). exists b', p'. split; [done|lia].
  - intros bv p ->. unfold newer in *. destruct (version_of stem n) as [v|]; [|by eapply H2].
    destruct (Z.ltb_spec bv v); [|by eapply H2]. destruct (H2 v _ eq_refl) as (b' & p' & E & ?). exists b', p'. split; [done|lia].
  - intros bv p [E|(m & Hm & Hv & ->)]%H3; [|right; exists m; split; [by right|done]]. unfold newer in E. destruct (version_of stem n) as [v|] eqn:Ev; [|by left].
    assert (best = Some (bv, p) \/ (bv = v /\ p = join_path dir n)) as [?|[-> ->]]; [|by left|right; exists n; split; [left|done]].
    destruct best as [[b q]|]; [destruct (b <? v)|]; injection E as <- <-; auto.
Qed.

(** The unversioned name in the first directory that has it; else the highest
    version of any directory. *)
Theorem tool_choice e stem : match find_on_path e stem with
  | Some p => exists dirs, path_dirs e = Some dirs /\
      ((exists pre dir post, dirs = pre ++ dir :: post /\ p = join_path dir stem /\ is_file e p = true /\ Forall (fun d => is_file e (join_path d stem) = false) pre) \/
       (Forall (fun d => is_file e (join_path d stem) = false) dirs /\
        exists dir n v, dir ∈ dirs /\ n ∈ default [] (read_dir e dir) /\ version_of stem n = Some v /\ p = join_path dir n /\
          forall dir' n' v', dir' ∈ dirs -> n' ∈ default [] (read_dir e dir') -> version_of stem n' = Some v' -> v' <= v))
  | None => forall dirs, path_dirs e = Some dirs -> Forall (fun d => is_file e (join_path d stem) = false) dirs /\
      forall dir n, dir ∈ dirs -> n ∈ default [] (read_dir e dir) -> version_of stem n = None
  end.
Proof.
  unfold find_on_path. destruct (path_dirs e) as [dirs|]; cbn [mbind option_bind]; [|done].
  assert (forall dirs best, match search e stem dirs best with
    | Some p => (exists pre dir post, dirs = pre ++ dir :: post /\ p = join_path dir stem /\ is_file e p = true /\ Forall (fun d => is_file e (join_path d stem) = false) pre) \/
       (Forall (fun d => is_file e (join_path d stem) = false) dirs /\ exists v, (forall bv q, best = Some (bv, q) -> bv <= v) /\
        (best = Some (v, p) \/ exists dir n, dir ∈ dirs /\ n ∈ default [] (read_dir e dir) /\ version_of stem n = Some v /\ p = join_path dir n) /\
          forall dir' n' v', dir' ∈ dirs -> n' ∈ default [] (read_dir e dir') -> version_of stem n' = Some v' -> v' <= v)
    | None => best = None /\ Forall (fun d => is_file e (join_path d stem) = false) dirs /\
      forall dir n, dir ∈ dirs -> n ∈ default [] (read_dir e dir) -> version_of stem n = None
    end) as H.
  { clear dirs. induction dirs as [|d dirs IH]; intros best; cbn [search].
    - destruct best as [[v p]|]; cbn; [|split; [done|split; [constructor|set_solver]]]. right. split; [constructor|]. exists v. split; [by intros ? ? [= -> ->]|]. split; [by left|set_solver].
    - destruct (is_file e (join_path d stem)) eqn:Ef; [left; exists [], d, dirs; auto|].
      pose proof (newer_fold stem d (default [] (read_dir e d)) best) as (H1 & H2 & H3). cbv zeta in *. set (best' := foldl (newer stem d) best (default [] (read_dir e d))) in *.
      specialize (IH best'). destruct (search e stem dirs best') as [p|].
      + destruct IH as [(pre & dir & post & -> & Hp & Hf & Hpre)|(Hn & v & Hv & Hor & Hmax)].
        * left. exists (d :: pre), dir, post. split; [done|]. split; [done|]. split; [done|]. by constructor.
        * right. split; [by constructor|]. exists v. split_and!.
          -- intros bv q E. destruct (H2 bv q E) as (b & q' & E' & ?). specialize (Hv b q' E'). lia.
          -- destruct Hor as [E|(dir & n & Hd & Hrest)]; [|right; exists dir, n; split; [by right|done]].
             destruct (H3 v p E) as [?|(n & Hin & Hver & ->)]; [by left|]. right. exists d, n. split; [left|done].
          -- intros dir n v' [->|Hd]%elem_of_cons Hin Hver; [|by eapply Hmax]. destruct (H1 v' n Hin Hver) as (b & q & E & ?). specialize (Hv b q E). lia.
      + destruct IH as (Hb & Hn & Hall). split; [|split; [by constructor|]].
        * destruct best as [[bv q]|]; [|done]. destruct (H2 bv q eq_refl) as (? & ? & E & _). congruence.
        * intros dir n [->|Hd]%elem_of_cons Hin; [|by eapply Hall]. destruct (version_of stem n) as [v|] eqn:Ev; [|done].
          destruct (H1 v n Hin Ev) as (? & ? & E & _). congruence. }
  specialize (H dirs None). destruct (search e stem dirs None) as [p|].
  - exists dirs. split; [done|]. destruct H as [H|(Hn & v & _ & [?|(dir & n & Hd & Hin & Hver & Hp)] & Hmax)]; [by left|done|]. right. split; [done|]. by exists dir, n, v.
  - intros ? [= <-]. by destruct H as (_ & H).
Qed.

(** * Addresses read are 64-bit *)

Lemma hex_loop_range s v r : is_u64 v -> hex_loop v s = Some r -> is_u64 r.
Proof.
  revert v. induction s as [|c s IH]; intros v Hv; cbn [hex_loop]; [by intros [= <-]|]. destruct (hex_value c) as [d|] eqn:E; [|done].
  cbn [mbind option_bind]. apply IH. assert (is_u64 d) as Hd.
  { unfold hex_value in E. repeat case_match; try done; injection E as <-; unfold is_u64; lia. }
  apply (lor_range _ _ 64); [lia| |exact Hd]. apply as_u64_range.
Qed.

Lemma parse_pcs_range data : Forall is_u64 (parse_pcs data).
Proof.
  unfold parse_pcs. apply Forall_forall. intros pc (l & _ & E)%list_elem_of_omap. unfold parse_line in E.
  set (tok := match position is_blank (skip_blank l) with Some e => _ | None => _ end) in E. destruct tok as [|c t]; [done|].
  unfold parse_hex_bytes in E. destruct (_ || _); [done|]. eapply hex_loop_range; [|exact E]. unfold is_u64. lia.
Qed.

Lemma read_all_range fs : Forall is_u64 (read_all_pcs fs).
Proof. unfold read_all_pcs. apply Forall_concat, Forall_fmap, Forall_forall. intros [d|] _; [apply parse_pcs_range|constructor]. Qed.

(** Logs whose last line is complete read the same in blocks and whole. *)
Lemma streamed_whole files : Forall terminated files -> streamed files = read_all_pcs (contents <$> files).
Proof.
  intros Hf. rewrite streamed_complete. f_equal. apply list_fmap_ext. intros i f Hi. pose proof (Forall_lookup_1 _ _ _ _ Hf Hi) as Ht.
  unfold complete_lines, terminated in *. destruct (contents f); [|done]. by rewrite complete_terminated.
Qed.

(** * The names of kallsyms *)

Lemma word_line s : 10 ∉ word s.
Proof.
  induction s as [|c t IH]; cbn [word]; [apply not_elem_of_nil|]. destruct (strip_any ws_chars (c :: t)) eqn:E; [apply not_elem_of_nil|].
  intros [<-|H]%elem_of_cons; [|done]. done.
Qed.

Lemma split_ws_line fuel s w : w ∈ split_ws fuel s -> 10 ∉ w.
Proof.
  revert s. induction fuel as [|fuel IH]; intros s; cbn [split_ws]; [by intros ?%not_elem_of_nil|].
  destruct (trim_start s) as [|c t]; [by intros ?%not_elem_of_nil|]. intros [->|H]%elem_of_cons; [apply word_line|by eapply IH].
Qed.

Lemma kallsyms_names file a n : (a, n) ∈ load_kallsyms file -> 10 ∉ n.
Proof.
  unfold load_kallsyms. destruct file as [data|]; [|by intros ?%not_elem_of_nil]. rewrite sort_by_perm. intros (l & _ & E)%list_elem_of_omap.
  unfold kallsyms_line in E. destruct (split_whitespace l) as [|x [|y [|z r]]] eqn:Es; try done.
  destruct (from_str_radix_u64 x 16) as [addr|]; [|done]. cbn [mbind option_bind] in E. destruct (addr =? 0); [done|]. injection E as <- <-.
  eapply (split_ws_line (S (length l)) l). unfold split_whitespace in Es. rewrite Es. right. right. left.
Qed.

(** Resolving never fails and answers the addresses asked, in order. *)
Lemma resolve_pcs_total x86 pcs file : exists r, resolve_pcs x86 pcs file = Done r /\ fst <$> r = pcs /\ (forall p n, (p, Some n) ∈ r -> 10 ∉ n).
Proof.
  unfold resolve_pcs. destruct (bool_decide_reflect (load_kallsyms file = [])) as [E|E].
  { eexists. split; [done|]. split; [|by intros p n (q & [=] & _)%list_elem_of_fmap]. induction pcs as [|p pcs IH]; [done|]. cbn. by rewrite IH. }
  assert (exists off, kaslr_offset x86 (omap parse_pc pcs) (load_kallsyms file) = Done off) as [off ->].
  { unfold kaslr_offset. destruct (omap parse_pc pcs); [by eexists|]. destruct (last (load_kallsyms file)) as [x|] eqn:El; [|by apply last_None in El].
    cbn. destruct (list_find _ _) as [[i [ta nm]]|]; by eexists. }
  cbn [mbind outcome_bind]. induction pcs as [|p pcs (r & IH & Hr & Hn)]; [exists []; split; [done|]; split; [done|by intros ? ? ?%not_elem_of_nil]|].
  cbn [name_all]. assert (exists name, match parse_pc p with Some pc => sym_name (load_kallsyms file) off pc | None => Done None end = Done name /\ forall n, name = Some n -> 10 ∉ n) as (name & -> & Hname).
  { destruct (parse_pc p) as [pc|]; [|exists None; by split]. unfold sym_name. set (i := partition_point _ _). destruct (Z.eqb_spec i 0) as [|Hi]; [exists None; by split|].
    pose proof (partition_point_bound (fun a => a <=? as_u64 (as_i64 (as_i64 pc + off))) (fst <$> load_kallsyms file)) as Hb. fold i in Hb.
    unfold zlen in Hb. rewrite length_fmap in Hb. destruct (idx_Done (load_kallsyms file) (i - 1)) as ([a n] & -> & Hg); [unfold zlen; lia|].
    eexists. split; [done|]. intros ? [= <-]. apply get_elem_of in Hg. by eapply kallsyms_names. }
  cbn [mbind outcome_bind]. rewrite IH. cbn [mbind outcome_bind]. eexists. split; [done|]. cbn [fmap list_fmap fst]. split; [by rewrite Hr|].
  intros q n [[= -> <-]|H]%elem_of_cons; [by apply Hname|by eapply Hn].
Qed.

(** The twin of a --btf report. *)
Lemma twin_line_reads pc n rest : is_u64 pc -> (forall l, n = Some l -> 10 ∉ l) -> parse_pcs (twin_line pc n ++ rest) = pc :: parse_pcs rest.
Proof.
  intros Hpc Hn. assert (forall r, parse_pcs (twin_line pc n ++ r) = parse_pcs (bs "0x" ++ fmt_hex pc ++ [32] ++ default (bs "??") n) ++ parse_pcs r) as H.
  { intros r. rewrite <- parse_pcs_line. f_equal. unfold twin_line. by rewrite <- !app_assoc. }
  rewrite H. change (pc :: parse_pcs rest) with ([pc] ++ parse_pcs rest). f_equal. specialize (H []). rewrite app_nil_r in H.
  pose proof (twin_roundtrip (fun _ => n) [pc] ltac:(by constructor) (fun _ => Hn)) as T. unfold write_srccov in T.
  rewrite list_fmap_singleton in T. cbn [concat] in T. rewrite app_nil_r, H in T. change (parse_pcs []) with (@nil Z) in T. by rewrite app_nil_r in T.
Qed.

Lemma btf_twin_reads seq r : Forall is_u64 seq -> fst <$> r = hex_strings seq -> (forall p n, (p, Some n) ∈ r -> 10 ∉ n) ->
  parse_pcs (concat (btf_line <$> r)) = seq.
Proof.
  intros Hs. revert r. induction Hs as [|pc seq Hpc Hs IH]; intros r; [by destruct r|]. destruct r as [|[p n] r]; [done|].
  unfold hex_strings. rewrite !fmap_cons. intros [Hp Hr]%(inj2 cons) Hn. cbn [concat fst] in *. subst p.
  assert (btf_line (bs "0x" ++ fmt_hex pc, n) = twin_line pc n) as -> by (unfold btf_line, twin_line; cbn [fst snd]; by rewrite <- !app_assoc).
  rewrite twin_line_reads, IH; [done|exact Hr| |done|].
  - intros q m H. apply (Hn q m). by right.
  - intros l ->. eapply Hn. left.
Qed.

(** * Rendering never fails *)

Section Render.
Context (sources : gmap (list Z) (list Z)) (Hlen : forall f c, sources !! f = Some c -> zlen (split_on 10 c) < 2 ^ 63).

Lemma render_text_total cov funcs before after flt : exists d, render_text cov funcs before after flt sources = Done d.
Proof.
  unfold render_text. assert (forall files, exists d, render_files funcs sources before after files = Done d) as H.
  { induction files as [|[f c] files [d IH]]; [by eexists|]. cbn [render_files]. rewrite IH.
    assert (exists x, render_file false f c (funcs !! f) (sources !! f) before after = Done x) as [x ->]; [|by eexists].
    unfold render_file. destruct (sources !! f) as [t|] eqn:E; [|by eexists]. rewrite excerpt_rows by (by eapply Hlen). by eexists. }
  destruct (H (selected flt cov)) as [d ->]. by eexists.
Qed.

Lemma generate_total cov funcs before after flt : exists d, generate cov funcs before after flt sources = Done d.
Proof.
  unfold generate, generate_body. assert (forall files, exists d, html_files funcs sources before after files = Done d) as H.
  { induction files as [|[f c] files [d IH]]; [by eexists|]. cbn [html_files]. rewrite IH.
    assert (exists x, html_file f c (funcs !! f) (sources !! f) before after = Done x) as [x ->]; [|by eexists].
    unfold html_file. destruct (sources !! f) as [t|] eqn:E; [|by eexists]. rewrite excerpt_rows by (by eapply Hlen). by eexists. }
  destruct (H (selected flt cov)) as [d ->]. by eexists.
Qed.
End Render.

Lemma split_len c s : zlen (split_on c s) <= zlen s + 1.
Proof.
  induction s as [|x s IH]; [done|]. cbn [split_on]. rewrite zlen_cons. destruct (x =? c); [rewrite zlen_cons; lia|].
  destruct (split_on_cons c s) as (w & ws & E). rewrite E in *. rewrite zlen_cons in *. lia.
Qed.

(** * A report of any log *)

Section Report.
Context {S : Type} {R : Resolver S} (ok : S -> Prop) (Q : Z -> Pair -> Prop) {L : Lawful S ok Q} (e : Env).
Context (detect : S -> list Z -> outcome (S * Z)) (send_ok : nat -> bool) (x86_64 : bool) (hash_order : list (list Z * Z) -> list (list Z * Z)).
Context (detect_total : forall s l, ok s -> exists s' off, detect s l = Done (s', off) /\ ok s').
Context (send_all : forall n, send_ok n = true).
(** Sources that fit in memory, and answers on one line. *)
Context (sources_fit : forall p c, read_to_string e p = Some c -> zlen c < 2 ^ 62).
Context (o : ROptions) (one_line : forall pc p l, Q pc p -> location_string (fst p) (snd p) (source_root e o) = Some l -> 10 ∉ l).
Let ks : list Z := source_root e o.

Lemma load_fit cov flt f c : load_sources e cov ks flt !! f = Some c -> zlen (split_on 10 c) < 2 ^ 63.
Proof using sources_fit.
  rewrite load_sources_spec. destruct (decide _); [|done]. intros H. apply sources_fit in H. pose proof (split_len 10 c). lia.
Qed.

(** Where the report writes. *)
Context (place : list Z -> list Z) (can : list Z -> bool) (disk : gmap (list Z) Artifact).
Context (can_twin : can (twin_name o) = true) (can_log : can (r_log o) = true).
(** The twin has a file of its own. *)
Context (twin_apart : place (twin_name o) ∉ place <$> [bs "asmcov.log"; r_output o; text_name o; r_log o]).

(** Some file then reads back as the addresses, or as their set. *)
Definition keeps (seq : list Z) (w : Written) : Prop :=
  exists name data, write_out place can w disk !! place name = Some (Bytes data) /\ (parse_pcs data = seq \/ parse_pcs data = unique_sorted seq).

Lemma write_out_other w d p : p ∉ place <$> (fst <$> w) -> write_out place can w d !! p = d !! p.
Proof using.
  revert d. induction w as [|[n a] w IH]; intros d Hp; [done|]. rewrite !fmap_cons, not_elem_of_cons in Hp. destruct Hp as [Hn Hp].
  unfold write_out in *. cbn [foldl fst snd] in *. rewrite IH by done. destruct (can n); [|done]. rewrite lookup_insert_ne; congruence.
Qed.

Lemma keeps_first name data w seq : can name = true -> place name ∉ place <$> (fst <$> w) ->
  (parse_pcs data = seq \/ parse_pcs data = unique_sorted seq) -> keeps seq ((name, Bytes data) :: w).
Proof using.
  intros Hc Hw Hd. exists name, data. split; [|done]. unfold write_out. cbn [foldl fst snd]. rewrite Hc. fold (write_out place can w (<[place name := Bytes data]> disk)).
  rewrite write_out_other by done. apply lookup_insert_eq.
Qed.

Lemma keeps_twin data w seq : (fst <$> w) ⊆ [bs "asmcov.log"; r_output o; text_name o; r_log o] ->
  (parse_pcs data = seq \/ parse_pcs data = unique_sorted seq) -> keeps seq ((twin_name o, Bytes data) :: w).
Proof using can_twin twin_apart.
  intros Hs Hd. apply keeps_first; [done| |done]. intros (n & E & Hn)%list_elem_of_fmap. apply twin_apart. rewrite E. by apply list_elem_of_fmap_2, Hs.
Qed.

Lemma write_report_keeps ans pcs : Forall is_u64 pcs -> (forall pc l, pc ∈ pcs -> loc_of ks (ans pc) = Some l -> 10 ∉ l) ->
  exists w, write_report e o ks (report_of ks ans pcs) = Done w /\ keeps pcs w.
Proof using All.
  intros Hp Hl. unfold write_report, report_of. cbn [source assembly ReportStream.twin].
  destruct (aggregate _ ks) as [cov funcs]. destruct (aggregate _ ks) as [acov afuncs].
  set (tw := (twin_name o, _)). assert (forall w, (fst <$> w) ⊆ [bs "asmcov.log"; r_output o; text_name o; r_log o] -> keeps pcs (tw :: w)) as Hk.
  { intros w Hw. apply keeps_twin; [done|]. left.
    rewrite (write_srccov_ext _ (fun pc => if decide (pc ∈ pcs) then loc_of ks (ans pc) else None)) by (intros pc Hin; by rewrite decide_True).
    apply twin_roundtrip; [done|]. intros pc l. destruct (decide (pc ∈ pcs)); [by apply Hl|done]. }
  destruct (bool_decide (cov = ∅) && bool_decide (acov = ∅)); [eexists; split; [done|apply Hk; cbn; set_solver]|].
  assert (exists t, (if bool_decide (acov = ∅) then Done no_assembly else render_text acov afuncs (r_ctx_before o) (r_ctx_after o) (r_filter o) (load_sources e acov ks (r_filter o))) = Done t) as [t ->].
  { destruct (bool_decide _); [by eexists|]. apply render_text_total. apply load_fit. }
  destruct (generate_total _ (load_fit cov (r_filter o)) cov funcs (r_ctx_before o) (r_ctx_after o) (r_filter o)) as [g ->].
  destruct (render_text_total _ (load_fit cov (r_filter o)) cov funcs (r_ctx_before o) (r_ctx_after o) (r_filter o)) as [x ->].
  cbn [mbind outcome_bind]. eexists. split; [done|]. apply Hk. cbn. set_solver.
Qed.

(** The addresses the streamed report reads, those of the complete lines. *)
Definition line_pcs : list Z := streamed (read_chunks e <$> input_parts o).

Lemma line_pcs_range : Forall is_u64 line_pcs.
Proof using. unfold line_pcs. rewrite streamed_complete. apply read_all_range. Qed.

Lemma stream_log_keeps s : ok s -> zlen line_pcs < 2 ^ 32 ->
  exists w, stream_log e detect send_ok o ks s = Done w /\ (line_pcs <> [] -> keeps line_pcs w).
Proof using All.
  intros Hs Hl. unfold stream_log. set (blocks := spawn_reader _ _).
  assert (pcs_of blocks = line_pcs) as Hb by done.
  destruct (stream_report ok Q ks detect send_ok detect_total send_all s blocks Hs ltac:(by rewrite Hb)) as [H1 H2]. rewrite Hb in *.
  destruct (decide (line_pcs = [])) as [E|E]; [rewrite H1 by done; exists []; by split|].
  destruct (H2 E) as (off & ans & _ & Ha & ->). cbn [mbind outcome_bind].
  destruct (write_report_keeps ans line_pcs line_pcs_range) as (w & -> & Hk); [|by exists w].
  intros pc l Hpc Hloc. apply (one_line (pc -₆₄ off) (ans pc)); [by apply Ha|exact Hloc].
Qed.

Lemma location_map_from pcs pairs pc l : location_map pcs pairs ks !! pc = Some l ->
  exists i p, pcs !! i = Some pc /\ pairs !! i = Some p /\ location_string (fst p) (snd p) ks = Some l.
Proof using.
  unfold location_map. assert (forall (z : list (Z * Pair)) (m : gmap Z (list Z)),
    foldl (fun m '(a, (f, l)) => match location_string f l ks with Some v => <[a := v]> m | None => m end) m z !! pc = Some l ->
    m !! pc = Some l \/ exists i p, z !! i = Some (pc, p) /\ location_string (fst p) (snd p) ks = Some l) as H.
  { induction z as [|[a [f t]] z IH]; intros m; cbn [foldl]; [by left|]. intros [H|(i & p & Hi & Hl)]%IH; [|right; by exists (Datatypes.S i), p].
    destruct (location_string f t ks) as [v|] eqn:E; [|by left]. destruct (decide (a = pc)) as [->|Ha]; [|rewrite lookup_insert_ne in H by done; by left].
    rewrite lookup_insert_eq in H. injection H as ->. right. by exists 0%nat, (f, t). }
  intros [H0|(i & p & Hi & Hl)]%H; [by rewrite lookup_empty in H0|]. apply lookup_zip_with_Some in Hi as (x & y & [= <- <-] & Hx & Hy). by exists i, p.
Qed.

Lemma run_ordered_keeps vm s : ok s -> exists w, run_ordered e detect o ks vm s = Done w /\
  (read_all_pcs (whole_files e o) <> [] -> keeps (read_all_pcs (whole_files e o)) w).
Proof using All.
  intros Hs. unfold run_ordered. set (seq := read_all_pcs (whole_files e o)). destruct (bool_decide_reflect (seq = [])) as [E|E]; [by exists []|].
  destruct (detect_total s (take 100 seq) Hs) as (s1 & off & -> & Hs1). cbn [mbind outcome_bind]. set (dek := (fun a => a -₆₄ off) <$> unique_sorted seq).
  assert (exists s2 ps, symbolize_vm e vm s1 dek = Done (s2, ps) /\ (forall i pc p, unique_sorted seq !! i = Some pc -> ps !! i = Some p -> Q (pc -₆₄ off) p)) as (s2 & ps & -> & Hq).
  { unfold symbolize_vm. destruct (_ || _); [by exists s1, []|]. destruct (lawful s1 dek Hs1) as (s2 & ps & -> & _ & Hlen & Hq). exists s2, ps. split; [done|].
    intros i pc p Hi Hp. eapply (Forall2_lookup_lr _ _ _ i); [exact Hq|unfold dek; by rewrite list_lookup_fmap, Hi|]. unfold padded. by apply lookup_app_l_Some. }
  cbn [mbind outcome_bind]. eexists. split; [done|]. intros _. apply keeps_twin; [cbn; set_solver|]. left. apply twin_roundtrip; [apply read_all_range|].
  intros pc l (i & p & Hi & Hp & Hl)%location_map_from. eapply one_line; [|exact Hl]. by eapply Hq.
Qed.

Lemma run_btf_keeps vm : exists r, run_btf e x86_64 hash_order o ks vm = Done r /\
  match r with Some w => read_all_pcs (whole_files e o) <> [] -> keeps (read_all_pcs (whole_files e o)) w | None => is_file e vm = true end.
Proof using All.
  unfold run_btf. set (seq := read_all_pcs (whole_files e o)). destruct (bool_decide_reflect (seq = [])) as [E|E]; [by exists (Some [])|].
  destruct (resolve_pcs_total x86_64 (hex_strings (unique_sorted seq)) (kallsyms e)) as (r & -> & Hr & Hn). cbn [mbind outcome_bind].
  destruct (bool_decide (rank hash_order r = []) && is_file e vm) eqn:Eb; [exists None; split; [done|]; by apply andb_prop in Eb as [_ ?]|].
  assert (forall w, (fst <$> w) ⊆ [bs "asmcov.log"; r_output o; text_name o; r_log o] -> keeps seq ((twin_name o, Bytes (concat (btf_line <$> r))) :: w)) as Hk.
  { intros w Hw. apply keeps_twin; [done|]. right. apply btf_twin_reads; [|done|done].
    apply Forall_forall. intros x Hx. unfold unique_sorted in Hx. rewrite elem_of_dedup, sort_u64_perm in Hx. by eapply Forall_forall in Hx; [|apply read_all_range]. }
  destruct ((match r_kernel_src o with Some _ => true | None => false end) && is_dir e ks); (eexists; split; [reflexivity|]; intros _; apply Hk; cbn; set_solver).
Qed.

(** C9: A report of any log, in any of its modes, ends normally and does not lose
    the log, for every kernel image, symbol table and source tree, for answers of
    the symbolizer that are missing or wrong, and with the fallback of --btf to
    the vmlinux.  The addresses [kept] are those of the whole input files, or, in
    the streaming mode, those of their complete lines, which are the same when
    every file ends with a newline.  When there are any, then once everything is
    written a file on the disk reads back as their sequence or as their set: the
    source-line twin, or the merged log when there is no vmlinux; only without
    a vmlinux and with the log as its one input nothing is written.  The answers
    of the symbolizer are taken to be on one line, the twin to have a file of
    its own that can be written, and the addresses to be fewer than 2^32. *)
Theorem report_keeps_addresses s : ok s -> zlen line_pcs < 2 ^ 32 ->
  exists w kept, ReportRun.run e detect send_ok x86_64 hash_order o s = Done w /\
    (kept = read_all_pcs (whole_files e o) \/ (kept = line_pcs /\ r_ordered o = false)) /\
    (Forall terminated (read_chunks e <$> input_parts o) -> kept = read_all_pcs (whole_files e o)) /\
    (kept <> [] -> keeps kept w \/ (w = [] /\ r_parts o = [] /\ is_file e (vmlinux_path e (r_kernel_src o) (r_vmlinux o)) = false)).
Proof using All.
  intros Hs Hl. unfold run. fold ks. set (vm := vmlinux_path e _ _). set (seq := read_all_pcs (whole_files e o)) in *.
  assert (Forall terminated (read_chunks e <$> input_parts o) -> line_pcs = seq) as Hterm.
  { intros Ht. unfold line_pcs. rewrite streamed_whole by done. unfold seq, whole_files. by rewrite <- list_fmap_compose. }
  destruct (r_ordered o); [destruct (run_ordered_keeps vm s Hs) as (w & -> & Hk); exists w, seq; split_and!; auto|].
  set (pipeline := if negb (is_file e vm) then _ else _).
  assert (exists w kept, pipeline = Done w /\ (kept = seq \/ (kept = line_pcs /\ false = false)) /\
    (Forall terminated (read_chunks e <$> input_parts o) -> kept = seq) /\
    (kept <> [] -> keeps kept w \/ (w = [] /\ r_parts o = [] /\ is_file e vm = false))) as (w & kept & -> & Hk).
  { unfold pipeline. destruct (is_file e vm); cbn [negb]; [destruct (stream_log_keeps s Hs Hl) as (w & -> & Hk); exists w, line_pcs; split_and!; auto|].
    eexists _, seq. split; [done|]. split; [by left|]. split; [done|]. intros E. fold seq. destruct seq as [|pc pcs] eqn:Eseq; [done|].
    destruct (r_parts o) as [|p ps]; [by right|]. left. apply keeps_first; [done|apply not_elem_of_nil|]. left. rewrite <- Eseq. apply parse_pc_lines, read_all_range. }
  destruct (r_btf o); [|by exists w, kept]. destruct (run_btf_keeps vm) as (r & -> & Hr). cbn [mbind outcome_bind].
  destruct r as [w'|]; [exists w', seq; split_and!; auto|by exists w, kept].
Qed.
End Report.

(** * A concrete report *)

Definition demo_env : Env :=
  MkEnv (Some (bs "/root")) (Some [bs "/bin"; bs "/usr/bin"]) None (fun p => bytes_eqb p (bs "/k/vmlinux")) (fun _ => false)
    (fun d => if bytes_eqb d (bs "/bin") then Some [bs "llvm-addr2line-18"; bs "sh"] else Some [bs "llvm-addr2line-19"; bs "llvm-addr2line-x"])
    Some (fun p => if bytes_eqb p (bs "/k/fs/open.c") then Some (concat (replicate 9 (bs "x" ++ [10]))) else None)
    (fun p => if bytes_eqb p (bs "kerncov.log") then Some [bs "0x20" ++ 10 :: bs "0x1"; bs "0" ++ [10]] else None) None None.
Definition demo_options : ROptions := MkROptions (Some (bs "/k")) None (bs "kerncov.log") None true 3 3 (bs "coverage.html") false false [].

(** The newest of the versioned tools. *)
Example newest_tool : find_on_path demo_env (bs "llvm-addr2line") = Some (bs "/usr/bin/llvm-addr2line-19").
Proof. reflexivity. Qed.

#[local] Instance sample_resolver : Resolver unit := table_resolver sample_answer.

Lemma report_keeps_addresses_witness :
  exists w name data, ReportRun.run demo_env (fun (s : unit) _ => Done (s, 0)) (fun _ => true) true (fun l => l) demo_options tt = Done w /\
    write_out (fun p => p) (fun _ => true) w ∅ !! name = Some (Bytes data) /\ (parse_pcs data = [0x20; 0x10] \/ parse_pcs data = unique_sorted [0x20; 0x10]).
Proof.
  destruct (report_keeps_addresses (fun _ : unit => True) (fun pc p => p = sample_answer pc) (L := table_lawful sample_answer) demo_env
    (fun (s : unit) _ => Done (s, 0)) (fun _ => true) true (fun l => l)) with (o := demo_options) (s := tt) (place := fun p : list Z => p)
    (can := fun _ : list Z => true) (disk := ∅ : gmap (list Z) Artifact) as (w & kept & Hw & _ & Ht & Hk).
  - intros s l _. by exists s, 0.
  - reflexivity.
  - intros p c. cbn [read_to_string demo_env]. destruct (bytes_eqb p _); [|done]. intros [= <-]. reflexivity.
  - intros pc p l ->. unfold sample_answer. destruct (pc =? 0x10); [|destruct (pc =? 0x20)]; vm_compute; intros [= <-]; set_solver.
  - reflexivity.
  - reflexivity.
  - rewrite list_fmap_id. vm_compute. set_solver.
  - exact I.
  - reflexivity.
  - assert (read_all_pcs (whole_files demo_env demo_options) = [0x20; 0x10]) as Hseq by (vm_compute; reflexivity).
    rewrite Hseq in Ht. assert (kept = [0x20; 0x10]) as ->.
    { apply Ht. constructor; [|constructor]. right. exists (bs "0x20" ++ 10 :: bs "0x10"). vm_compute. reflexivity. }
    destruct (Hk ltac:(discriminate)) as [(name & data & Hd & Hr)|(_ & _ & H)]; [|vm_compute in H; discriminate].
    exists w, name, data. split; [exact Hw|split; [exact Hd|exact Hr]].
Defined.
