(* ===== verification/KcovRun.v ===== *)
(** mode/kcov.rs and util.rs: a run in KCOV mode.

    The kernel is the class of ProgExec.v, the working directory the listing of
    CovLogs.v, and what a run gives the report is kept with the directory it is
    given in.  The target is what it does to the directory and the kernel under
    the environment it is started with.
    Shown: the report of a run reads the addresses the run's tasks logged and
    the ones of the parent's own handle, in order, in both report forms, and with
    --ordered each local log has its report; the handle is given back; and a run
    that collects nothing reports the kerncov.log that is there. *)
From stdpp Require Import gmap.
From S2P Require Import Prelude Text Syscalls ReportLog ProgExec CovLogs Cli ReportRun.

(** * util.rs *)

(** What the process is asked of its environment. *)
Record Setting : Type := MkSetting
  { kcov_so : option (list Z); exe_link : option (list Z); multiarch : option (list Z);
    path_exists : list Z -> bool; handle_var : option (list Z) }.

(** [Path::parent] of an absolute path without a trailing slash. *)
Definition parent (p : list Z) : option (list Z) :=
  i ← rposition 47 p; if zlen p <=? 1 then None else Some (if i =? 0 then [47] else take (Z.to_nat i) p).

Definition exe_dir (e : Setting) : list Z := default (bs ".") (l ← exe_link e; parent l).

Definition join (p : list Z) (names : list string) : list Z := foldl (fun p n => join_path p (bs n)) p names.

Definition kcov_preload_system_paths (e : Setting) : list (list Z) :=
  match multiarch e with Some t => [bs "/usr/lib/" ++ t ++ bs "/vock/kcov.so"] | None => [] end ++
  [bs "/usr/lib/vock/kcov.so"; bs "/usr/libexec/vock/kcov.so"; bs "/usr/local/lib/vock/kcov.so"].

Definition kcov_preload_path (e : Setting) : list Z :=
  let search :=
    let build_tree := join (exe_dir e) ["mode"; "kcov.so"]%string in
    let prefix_lib := join (exe_dir e) [".."; "lib"; "vock"; "kcov.so"]%string in
    if path_exists e build_tree then build_tree
    else if path_exists e prefix_lib then prefix_lib
    else default build_tree (head (filter (fun c => path_exists e c = true) (kcov_preload_system_paths e))) in
  match kcov_so e with Some ((_ :: _) as p) => p | _ => search end.

(** [copy_file] between files of a directory. *)
Definition lookup_file (name : list Z) (d : Dir) : option (list Z) :=
  head (filter (fun e => fst e = name) d) ≫= snd.
Fixpoint put_file (name data : list Z) (d : Dir) : Dir :=
  match d with
  | [] => [(name, Some data)]
  | e :: d => if decide (fst e = name) then (name, Some data) :: d else e :: put_file name data d
  end.
Definition copy_file (src dst : list Z) (d : Dir) : Dir :=
  match lookup_file src d with Some data => put_file dst data d | None => d end.

(** * mode/kcov.rs *)

Definition REMOTE_LOG : list Z := bs "remote_coverage.log".
Definition KERNCOV : list Z := bs "kerncov.log".

Record RemoteKcov : Type := MkRemote { fd : Z; area : Z }.

(** What becomes of the forked target. *)
Inductive Child : Type := ForkFailed | WaitFailed | Ended (status : Z).

(** The options of [run]. *)
Record RunOpts : Type := MkRunOpts
  { o_kernel_src : option (list Z); o_vmlinux : option (list Z); o_filter : option (list Z); o_btf : bool;
    o_after : Z; o_before : Z; o_ordered : bool }.

Section KcovRun.
Context {W : Type} `{!Kernel W} (arch : Arch).
(** The target run under extra environment variables, the report, and whether
    a file can be created. *)
Context (target : list (list Z * list Z) -> list (list Z) -> Dir -> W -> Child * (Dir * W)).
Context (report : ROptions -> Dir -> Dir) (can_create : list Z -> bool).

Definition remote_enable (override : option Z) (w : W) : option RemoteKcov * W :=
  let '(fd, w) := sys_open kcov_path w in
  if fd =? -1 then (None, w) else
  let '(r, w) := sys_ioctl fd KCOV_INIT_TRACE (IoWord COVER_SIZE) w in
  if negb (r =? 0) then (None, w) else
  let '(a, w) := sys_mmap area_bytes fd w in
  match a with
  | None => (None, w)
  | Some a =>
      let handle := default (kcov_handle 0 (as_u64 (sys_getpid w))) override in
      let '(r, w) := sys_ioctl fd KCOV_REMOTE_ENABLE (IoRemote (MkKcovRemoteArg KCOV_TRACE_PC (as_u32 COVER_SIZE) 0 handle)) w in
      if negb (r =? 0) then (None, w) else (Some (MkRemote fd a), w)
  end.

(** The addresses the kernel left in the area; a count beyond the mapping
    makes the reads fault. *)
Definition area_pcs (a : Z) (w : W) : outcome (list Z) :=
  let n := peek a 0 w in
  if COVER_SIZE - 1 <? n then Panic else Done ((fun i => peek a (i + 1) w) <$> seqZ 0 n).

Definition write_remote_log (a : Z) (w : W) (d : Dir) : outcome Dir :=
  if can_create REMOTE_LOG then pcs ← area_pcs a w; Done (put_file REMOTE_LOG (cover_lines arch pcs) d) else Done d.

(** [ioctl(KCOV_DISABLE); munmap; close] *)
Definition release (k : RemoteKcov) (w : W) : W :=
  let '(_, w) := sys_ioctl (fd k) KCOV_DISABLE (IoWord 0) w in sys_close (fd k) (sys_munmap (area k) area_bytes w).

(** The logs of earlier runs are removed. *)
Definition remove_stale (d : Dir) : Dir := filter (fun e => is_tid_log (fst e) = false) d.

Definition preload_vars (preload : list Z) (o : RunOpts) : list (list Z * list Z) :=
  (bs "LD_PRELOAD", preload) :: if o_ordered o || negb (o_btf o) then [(bs "VOCK_NO_MERGE", bs "1")] else [].

Definition remote_log_data (d : Dir) : option (list Z) := lookup_file REMOTE_LOG d.

(** [merge_tid_logs] and [append_parent_remote_log] on the directory. *)
Definition merge_tid_logs (d : Dir) : Dir := if can_create KERNCOV then put_file KERNCOV (merge_logs d) d else d.
Definition append_remote (d : Dir) : Dir :=
  match remote_log_data d with
  | Some ((_ :: _) as data) =>
      if can_create KERNCOV then put_file KERNCOV (append_parent_remote_log (Some data) (default [] (lookup_file KERNCOV d))) d else d
  | _ => d
  end.

(** The names the streamed report is given. *)
Definition part_names (d : Dir) : list (list Z) :=
  (fst <$> tid_logs d) ++ match remote_log_data d with Some (_ :: _) => [REMOTE_LOG] | _ => [] end.

Definition report_opts (o : RunOpts) (log out : list Z) (ordered : bool) (parts : list (list Z)) : ROptions :=
  MkROptions (o_kernel_src o) (o_vmlinux o) log (o_filter o) false (ctx (o_after o)) (ctx (o_before o)) out (o_btf o) ordered parts.

(** The directory, and the reports made so far, each with the directory then. *)
Record Work : Type := MkWork { dir : Dir; made : list (ROptions * Dir) }.
Definition make_report (o : ROptions) (s : Work) : Work := MkWork (report o (dir s)) (made s ++ [(o, dir s)]).

(** One report per local log of the listing. *)
Definition ordered_report (o : RunOpts) (s : Work) (name : list Z) : outcome Work :=
  if negb (starts_with (bs "local-") name) || negb (is_tid_log name) then Done s
  else tid ← log_tid name; Done (make_report (report_opts o name (bs "coverage-" ++ tid ++ bs ".html") true []) s).

Definition make_reports (o : RunOpts) (s : Work) : outcome Work :=
  if o_ordered o then fold_m (ordered_report o) (fst <$> dir s) s
  else
    let '(s, parts) :=
      if o_btf o then (MkWork (append_remote (merge_tid_logs (dir s))) (made s), [])
      else (s, part_names (dir s)) in
    Done (make_report (report_opts o KERNCOV (bs "coverage.html") false parts) s).

Definition run (e : Setting) (cmd : list (list Z)) (o : RunOpts) (s : Work) (w : W) : outcome (Z * (Work * W)) :=
  let preload := kcov_preload_path e in
  if negb (path_exists e preload) then Done (1, (s, w))
  else
    match remote_enable (common_handle_override (handle_var e)) w with
    | (None, w) => Done (1, (s, w))
    | (Some k, w) =>
        let d := remove_stale (dir s) in
        match target (preload_vars preload o) cmd d w with
        | (Ended status, (d, w)) =>
            d ← write_remote_log (area k) w d;
            let w := release k w in
            s ← make_reports o (MkWork d (made s));
            Done (exit_status status, (s, w))
        | (_, (d, w)) => Done (1, (MkWork d (made s), w))
        end
    end.
End KcovRun.

(** * What a report reads *)

(** The addresses the report [o] finds in the directory: --ordered and --btf
    read whole files, the source report streams them. *)
Definition report_reads (o : ROptions) (d : Dir) : list Z :=
  let files := (fun p => lookup_file p d) <$> input_parts o in
  if r_ordered o || r_btf o then read_all_pcs files else streamed ((fun f => (fun data => [data]) <$> f) <$> files).

(** What is read of one file: the streamed report leaves out a line that is cut. *)
Definition as_read (o : RunOpts) (data : list Z) : list Z := if o_btf o then data else complete data.

(** The logs of the tasks, as they are read. *)
Definition task_reads (o : RunOpts) (d : list (list Z * option (list Z))) : list (option (list Z)) :=
  (fun f : option (list Z) => as_read o <$> f) <$> (snd <$> filter (fun e : list Z * option (list Z) => is_tid_log (fst e) = true) d).

(** * The directory *)

Lemma lookup_put name data d n : lookup_file n (put_file name data d) = if decide (n = name) then Some data else lookup_file n d.
Proof.
  unfold lookup_file, Dir in *. induction d as [|[m f] d IH]; cbn [put_file fst].
  - rewrite filter_cons. cbn [fst]. destruct (decide (name = n)) as [->|Hn]; [by rewrite decide_True|by rewrite decide_False by congruence].
  - destruct (decide (m = name)) as [->|Hm]; rewrite !filter_cons; cbn [fst].
    + destruct (decide (name = n)) as [->|Hn]; [by rewrite decide_True|]. by rewrite (decide_False (P := n = name)) by congruence.
    + destruct (decide (m = n)) as [->|Hn]; [by rewrite decide_False|exact IH].
Qed.

Lemma tid_logs_put name data d : is_tid_log name = false -> tid_logs (put_file name data d) = tid_logs d.
Proof.
  intros Hn. unfold tid_logs, Dir in *. induction d as [|[m f] d IH]; cbn [put_file fst].
  - rewrite filter_cons. cbn [fst]. by rewrite decide_False by congruence.
  - destruct (decide (m = name)) as [->|Hm]; rewrite !filter_cons; cbn [fst]; [by rewrite !decide_False by congruence|by rewrite IH].
Qed.

Lemma names_put name data d : NoDup (fst <$> d) -> NoDup (fst <$> put_file name data d).
Proof.
  assert (forall d n, n ∈ fst <$> put_file name data d -> n = name \/ n ∈ fst <$> d) as Hin.
  { clear d. intros d n. induction d as [|[m f] d IH]; cbn [put_file fst fmap list_fmap]; [rewrite list_elem_of_singleton; by left|].
    destruct (decide (m = name)) as [->|]; cbn [fst fmap list_fmap]; rewrite !elem_of_cons; [tauto|]. intros [->|H]; [tauto|]. destruct (IH H); tauto. }
  induction d as [|[m f] d IH]; cbn [put_file fst fmap list_fmap]; intros Hd; [apply NoDup_singleton|].
  apply NoDup_cons in Hd as [H1 H2]. destruct (decide (m = name)) as [->|Hm]; cbn [fst fmap list_fmap]; apply NoDup_cons; [done|].
  split; [|by apply IH]. intros [->|H]%Hin; done.
Qed.

(** The name of a listed file finds its data. *)
Lemma lookup_listed d e : NoDup (fst <$> d) -> e ∈ d -> lookup_file (fst e) d = snd e.
Proof.
  unfold lookup_file, Dir in *. induction d as [|x d IH]; intros Hd He; [by apply not_elem_of_nil in He|].
  rewrite filter_cons. cbn [fmap list_fmap] in Hd. apply NoDup_cons in Hd as [H1 H2]. apply elem_of_cons in He as [->|He].
  - by rewrite decide_True.
  - rewrite decide_False; [by apply IH|]. intros Hx. apply H1. rewrite Hx. apply list_elem_of_fmap. by exists e.
Qed.

Lemma lookup_tid_logs d : NoDup (fst <$> d) -> (fun p => lookup_file p d) <$> (fst <$> tid_logs d) = snd <$> tid_logs d.
Proof.
  intros Hd. rewrite <- list_fmap_compose. apply list_fmap_ext. intros i e He. cbn [compose]. apply lookup_listed; [done|].
  apply list_elem_of_lookup_2, list_elem_of_filter in He. apply He.
Qed.

Lemma no_stale d : tid_logs (remove_stale d) = [].
Proof.
  unfold tid_logs, remove_stale, Dir in *. apply elem_of_nil_inv. intros e He. apply list_elem_of_filter in He as [H1 He].
  apply list_elem_of_filter in He as [H2 _]. congruence.
Qed.

(** * A run *)

Section Runs.
Context {W : Type} `{!Kernel W} (arch : Arch).
Context (target : list (list Z * list Z) -> list (list Z) -> Dir -> W -> Child * (Dir * W)).
Context (report : ROptions -> Dir -> Dir) (can_create : list Z -> bool).

Lemma cover_lines_end pcs : cover_lines arch pcs = [] \/ exists l, cover_lines arch pcs = l ++ [10].
Proof.
  destruct pcs as [|pc pcs _] using rev_ind; [by left|right]. unfold cover_lines. rewrite fmap_app, concat_app. cbn [fmap list_fmap concat].
  unfold fmt_pc_line at 2. rewrite app_nil_r. eexists. by rewrite !app_assoc.
Qed.

Lemma cover_lines_nil pcs : cover_lines arch pcs = [] -> pcs = [].
Proof. destruct pcs; [done|]. unfold cover_lines, fmt_pc_line. cbn [fmap list_fmap concat]. discriminate. Qed.

(** The two forms of the report, on a directory that holds the logs of the
    tasks and the remote log. *)
Lemma reads_parts o (d : list (list Z * option (list Z))) pcs : NoDup (fst <$> d) -> o_btf o = false -> tid_logs d <> [] \/ pcs <> [] ->
  let d' := put_file REMOTE_LOG (cover_lines arch pcs) d in
  report_reads (report_opts o KERNCOV (bs "coverage.html") false (part_names d')) d' =
  read_all_pcs (task_reads o d) ++ (previous_instruction_pc arch <$> pcs).
Proof.
  intros Hd Hb Hne d'. assert (tid_logs d' = tid_logs d) as Ht by (apply tid_logs_put; reflexivity).
  assert (remote_log_data d' = Some (cover_lines arch pcs)) as Hr by (unfold remote_log_data, d'; by rewrite lookup_put, decide_True).
  assert (input_parts (report_opts o KERNCOV (bs "coverage.html") false (part_names d')) = part_names d') as Hi.
  { unfold input_parts. cbn [r_parts report_opts]. unfold part_names. rewrite Hr, Ht. destruct (tid_logs d) as [|e l]; [|done].
    destruct (cover_lines arch pcs) eqn:E; [|done]. apply cover_lines_nil in E. naive_solver. }
  unfold report_reads. rewrite Hi. cbn [r_ordered r_btf report_opts]. rewrite Hb. cbn [orb]. rewrite streamed_complete. unfold part_names.
  rewrite !fmap_app, lookup_tid_logs by (by apply names_put). unfold read_all_pcs. rewrite !fmap_app, concat_app. f_equal.
  - unfold task_reads. fold (tid_logs d). f_equal. rewrite Ht, <- !list_fmap_compose. apply list_fmap_ext. intros i [n f] _.
    unfold compose, as_read. rewrite Hb. cbn [snd]. destruct f as [f|]; [|done]. cbn. by rewrite app_nil_r.
  - rewrite Hr. destruct (cover_lines arch pcs) as [|c l] eqn:E; [apply cover_lines_nil in E; by subst|]. cbn [fmap list_fmap].
    unfold remote_log_data in Hr. rewrite Hr. unfold complete_lines, contents. cbn [fmap option_fmap option_map concat]. rewrite !app_nil_r, <- E.
    rewrite complete_terminated by apply cover_lines_end. apply parse_cover_lines.
Qed.

Lemma reads_merged o (d : list (list Z * option (list Z))) pcs : can_create KERNCOV = true -> o_btf o = true ->
  let d' := put_file REMOTE_LOG (cover_lines arch pcs) d in
  report_reads (report_opts o KERNCOV (bs "coverage.html") false []) (append_remote can_create (merge_tid_logs can_create d')) =
  read_all_pcs (task_reads o d) ++ (previous_instruction_pc arch <$> pcs).
Proof.
  intros Hc Hb d'. unfold report_reads. cbn [r_ordered r_btf report_opts input_parts r_parts r_log]. rewrite Hb. cbn [orb].
  assert (lookup_file KERNCOV (append_remote can_create (merge_tid_logs can_create d')) =
    Some (append_parent_remote_log (Some (cover_lines arch pcs)) (merge_logs d'))) as Hl.
  { unfold append_remote, merge_tid_logs, remote_log_data. rewrite Hc.
    assert (lookup_file REMOTE_LOG (put_file KERNCOV (merge_logs d') d') = Some (cover_lines arch pcs)) as ->.
    { rewrite lookup_put, decide_False by done. unfold d'. by rewrite lookup_put, decide_True. }
    unfold append_parent_remote_log. destruct (cover_lines arch pcs) as [|c l]; rewrite !lookup_put, !decide_True by done; done. }
  cbn [fmap list_fmap]. rewrite Hl. unfold read_all_pcs at 1. cbn [fmap list_fmap concat]. rewrite app_nil_r, merged_reads_as_parts.
  unfold report_parts, read_all_pcs. rewrite fmap_app, concat_app. f_equal.
  - unfold task_reads. fold (tid_logs d). assert (tid_logs d' = tid_logs d) as -> by (apply tid_logs_put; reflexivity).
    f_equal. rewrite <- !list_fmap_compose. apply list_fmap_ext. intros i [n f] _. unfold compose, as_read. rewrite Hb. by destruct f.
  - destruct (cover_lines arch pcs) as [|c l] eqn:E; [apply cover_lines_nil in E; by subst|]. cbn [fmap list_fmap concat].
    rewrite app_nil_r, <- E. apply parse_cover_lines.
Qed.

(** With --ordered every local log of the listing has one report, in the order
    of the listing, which reads that log. *)
Theorem ordered_reports_each o s names : o_ordered o = true ->
  exists s' ms, fold_m (ordered_report report o) names s = Done s' /\ made s' = made s ++ ms /\
    r_log <$> (fst <$> ms) = filter (fun n => is_tid_log n = true /\ starts_with (bs "local-") n = true) names /\
    Forall (fun m => report_reads (fst m) (snd m) = read_all_pcs [lookup_file (r_log (fst m)) (snd m)]) ms.
Proof.
  intros Ho. revert s. induction names as [|n names IH]; intros s; cbn [fold_m].
  { exists s, []. by rewrite app_nil_r. }
  rewrite filter_cons. destruct (decide _) as [[E2 E1]|Hn].
  2:{ assert (ordered_report report o s n = Done s) as -> by (unfold ordered_report; destruct (starts_with (bs "local-") n), (is_tid_log n); naive_solver). apply IH. }
  destruct (log_tid_total n E2 E1) as (tid & _ & Et & _). set (r := report_opts o n (bs "coverage-" ++ tid ++ bs ".html") true []).
  assert (ordered_report report o s n = Done (make_report report r s)) as -> by (unfold ordered_report; rewrite E1, E2, Et; done).
  cbn [mbind outcome_bind]. destruct (IH (make_report report r s)) as (s' & ms & -> & Hm & Hf & Hr).
  exists s', ((r, dir s) :: ms). split_and!; [done|by rewrite Hm; cbn [make_report made]; rewrite <- app_assoc|by rewrite !fmap_cons, Hf|].
  constructor; [done|exact Hr].
Qed.

(** A run that collects nothing gives the streamed report no parts: it then
    reads kerncov.log, which this run has not written. *)
Lemma reads_nothing o (d : list (list Z * option (list Z))) : o_btf o = false -> tid_logs d = [] ->
  let d' := put_file REMOTE_LOG (cover_lines arch []) d in
  report_reads (report_opts o KERNCOV (bs "coverage.html") false (part_names d')) d' = read_all_pcs [complete <$> lookup_file KERNCOV d].
Proof.
  intros Hb Hl d'. assert (part_names d' = []) as ->.
  { unfold part_names, d'. rewrite tid_logs_put, Hl by reflexivity. unfold remote_log_data. by rewrite lookup_put, decide_True. }
  unfold report_reads. cbn [r_ordered r_btf report_opts input_parts r_parts r_log fmap list_fmap dir]. rewrite Hb. cbn [orb].
  unfold d'. rewrite lookup_put, decide_False by done. rewrite streamed_complete. unfold read_all_pcs, complete_lines, contents.
  destruct (lookup_file KERNCOV d) as [f|]; cbn [fmap list_fmap option_fmap option_map concat]; by rewrite ?app_nil_r.
Qed.

(** What the reports [ms] of a run read that left the directory [d1] and the
    addresses [pcs] in the parent's area. *)
Definition reads_this_run (o : RunOpts) (d1 : Dir) (pcs : list Z) (ms : list (ROptions * Dir)) : Prop :=
  if o_ordered o then
    r_log <$> (fst <$> ms) = filter (fun n => is_tid_log n = true /\ starts_with (bs "local-") n = true) (fst <$> put_file REMOTE_LOG (cover_lines arch pcs) d1) /\
    Forall (fun m => report_reads (fst m) (snd m) = read_all_pcs [lookup_file (r_log (fst m)) (snd m)]) ms
  else exists r d, ms = [(r, d)] /\
    report_reads r d =
      if negb (o_btf o) && bool_decide (tid_logs d1 = []) && bool_decide (pcs = []) then read_all_pcs [complete <$> lookup_file KERNCOV d1]
      else read_all_pcs (task_reads o d1) ++ (previous_instruction_pc arch <$> pcs).


End Runs.

(** * The parent's handle *)

Section Handle.
Context {W : Type} `{!Kernel W, !KernelFds W}.
Hypothesis Hopen : forall p (w : W) fd w', sys_open p w = (fd, w') -> -1 <= fd.

(** A handle is one descriptor and one mapping; a run whose target leaves the
    parent's alone gives both back. *)
Theorem handle_released override (w w1 : W) k : remote_enable override w = (Some k, w1) ->
  fds w1 = {[fd k]} ∪ fds w /\ maps w1 = {[area k]} ∪ maps w /\
  forall w2, fds w2 = fds w1 -> maps w2 = maps w1 -> fds (release k w2) = fds w /\ maps (release k w2) = maps w.
Proof.
  unfold remote_enable. destruct (sys_open kcov_path w) as [fd wa] eqn:E1. pose proof (Hopen _ _ _ _ E1) as Hfd. apply open_fds in E1 as [M1 F1].
  destruct (Z.eqb_spec fd (-1)); [done|]. rewrite (proj2 (Z.ltb_ge fd 0)) in F1 by lia. destruct F1 as [F1 N1].
  destruct (sys_ioctl fd KCOV_INIT_TRACE _ wa) as [r2 wb] eqn:E2. apply ioctl_fds in E2 as [F2 M2]. destruct (negb (r2 =? 0)); [done|].
  destruct (sys_mmap area_bytes fd wb) as [[a|] wc] eqn:E3; [|done]. apply mmap_fds in E3 as [F3 [M3 N3]].
  destruct (sys_ioctl fd KCOV_REMOTE_ENABLE _ wc) as [r4 wd] eqn:E4. apply ioctl_fds in E4 as [F4 M4]. destruct (negb (r4 =? 0)); [done|].
  intros [= <- <-]. cbn [KcovRun.fd KcovRun.area]. rewrite F4, F3, F2, F1, M4, M3, M2, M1. split_and!; [done|done|]. intros w2 Hf Hm. unfold release. cbn [KcovRun.fd KcovRun.area].
  destruct (sys_ioctl fd KCOV_DISABLE _ w2) as [r5 w5] eqn:E5. apply ioctl_fds in E5 as [F5 M5].
  destruct (close_fds fd (sys_munmap a area_bytes w5)) as [-> ->]. destruct (munmap_fds a area_bytes w5) as [-> ->].
  rewrite F5, M5, Hf, Hm, M2, M1 in *. by rewrite !add_remove.
Qed.

(** A set-up that fails after the open keeps the descriptor. *)
Lemma failed_setup_leaks override (w wa wb : W) fd r : sys_open kcov_path w = (fd, wa) -> 0 <= fd ->
  sys_ioctl fd KCOV_INIT_TRACE (IoWord COVER_SIZE) wa = (r, wb) -> r <> 0 ->
  remote_enable override w = (None, wb) /\ fds wb = {[fd]} ∪ fds w.
Proof.
  intros E1 Hfd E2 Hr. unfold remote_enable. rewrite E1, E2. destruct (Z.eqb_spec fd (-1)); [lia|]. rewrite (proj2 (Z.eqb_neq r 0)) by done.
  split; [done|]. apply open_fds in E1 as [_ F1]. rewrite (proj2 (Z.ltb_ge fd 0)) in F1 by lia. apply ioctl_fds in E2 as [-> _]. apply F1.
Qed.
End Handle.

(** * A concrete run *)

(** A kernel whose coverage areas all hold the words [d_words]. *)
Record Desk : Type := MkDesk { d_fds : list Z; d_words : list Z }.
#[export] Instance desk_kernel : Kernel Desk :=
  {| sys_open _ w := (3, MkDesk (3 :: d_fds w) (d_words w)); sys_ioctl _ _ _ w := (0, w); sys_mmap _ _ w := (Some 1, w);
     sys_munmap _ _ w := w; sys_close fd w := MkDesk (filter (fun x => x <> fd) (d_fds w)) (d_words w); sys_getpid _ := 42;
     peek _ i w := default 0 (get (d_words w) i); poke _ _ _ w := w; now w := (0, w); sys_sigaction w := w; write_file _ _ w := w;
     sys_alarm _ w := w; sys_syscall _ _ m w := Some ((0, 0), (m, w)) |}.

Definition demo_setting : Setting :=
  MkSetting None (Some (bs "/opt/vock/vock")) None (fun p => bytes_eqb p (bs "/opt/vock/mode/kcov.so")) (Some (bs "0x4b440001")).
Definition demo_opts : RunOpts := MkRunOpts None None None false (-1) 5 false.
(** The directory of an earlier run. *)
Definition demo_dir : Dir := [(bs "local-9.log", Some (bs "0xdead" ++ [10])); (KERNCOV, Some (bs "0xbeef" ++ [10])); (bs "notes", None)].
(** A target with two tasks; the second is killed in the middle of a line. *)
Definition demo_target (_ : list (list Z * list Z)) (_ : list (list Z)) (d : Dir) (w : Desk) : Child * (Dir * Desk) :=
  (Ended (3 * 256), (d ++ [(bs "local-10.log", Some (bs "0x10" ++ [10] ++ bs "0x20" ++ [10])); (bs "remote-10.log", Some (bs "0x30" ++ [10] ++ bs "0x4"))],
   MkDesk (d_fds w) [2; 0x1005; 0x2005])).

