(* ===== verification/Replay.v ===== *)
(** Replaying a trace: execprog.rs on a plain trace, fuzz/prog2c_exec.rs, and the
    run of fuzz.rs.

    A pass is a child: its calls are the list of what it does.  The files, the
    compiler and the flag the interrupt clears are the host's.
    Shown: a captured program is replayed call by call with its arguments; the
    trace written of it replays its named calls as the reader gives them back;
    there are as many passes as asked for; no child, and no source or binary of
    a pass, is left. *)
From stdpp Require Import gmap.
From S2P Require Import Prelude Text Syscalls SysDecode TraceFiles Ptrace Process KcovRun.

Definition CLONE_NEWUSER : Z := 0x10000000.
Definition CLONE_NEWNET : Z := 0x40000000.
Definition CLONE_NEWPID : Z := 0x20000000.

Class ReplayHost (W : Type) `{!Procs W} : Type :=
  { r_pid : W -> Z;
    r_link : W -> option (list Z);                       (* /proc/self/exe *)
    r_write : list Z -> list Z -> W -> bool * W;
    r_remove : list Z -> W -> W;
    r_read : list Z -> W -> option (list Z);
    r_cc : list (list Z) -> W -> bool * W;               (* its arguments, success *)
    r_running : W -> bool;
    r_signal : W -> W }.

(** A wait status, or the initial 0 of a wait that failed. *)
Definition exit_code (st : Z) : Z := if Z.land st 0x7f =? 0 then Z.land (Z.shiftr st 8) 0xff else -1.

Definition raw_calls (calls : list (Z * list Z)) : list Act := (fun c => RawSyscall (fst c) (snd c)) <$> calls.
Definition replay_acts (flags : Z) (calls : list (Z * list Z)) : list Act := [Unshare flags] ++ raw_calls calls ++ [Exit 0].

Section Replay.
Context {W : Type} `{!Procs W, !ReplayHost W} (arch : Arch).

Definition fork_and_wait (acts : list Act) (w : W) : Z * W :=
  let '(pid, w) := p_fork acts w in
  if pid <? 0 then (-1, w) else let '((_, st), w) := p_waitpid pid 0 w in (exit_code st, w).

(** * execprog.rs *)

Definition exec_once (calls : list (Z * list Z)) : W -> Z * W := fork_and_wait (replay_acts (Z.lor CLONE_NEWUSER CLONE_NEWNET) calls).
Definition worker (fuel : nat) (calls : list (Z * list Z)) (repeat : Z) (id : Z) : W -> outcome W :=
  turns (fun _ => true) (fun w => snd (exec_once calls w)) fuel repeat.

(** The rest of [run_with] on a text that is no program. *)
Definition run_trace (fuel : nat) (text : option (list Z)) (repeat procs : Z) (w : W) : outcome (Z * W) :=
  match text with
  | None => Done (1, w)
  | Some text =>
      match parse_trace arch text with
      | [] => Done (1, w)
      | calls => w ← run_procs procs (worker fuel calls repeat) w; Done (0, w)
      end
  end.

(** * fuzz/prog2c_exec.rs *)

Definition trace_calls (trace : list Syscall) : list (Z * list Z) := (fun sc => (nr sc, args sc)) <$> trace.

Definition exec_direct (trace : list Syscall) : W -> Z * W :=
  fork_and_wait (replay_acts (Z.lor (Z.lor CLONE_NEWUSER CLONE_NEWNET) CLONE_NEWPID) (trace_calls trace)).

(** [readlink] fills at most 255 bytes. *)
Definition kcov_so_path (w : W) : list Z :=
  match take 255 (default [] (r_link w)) with
  | [] => bs "./mode/kcov.so"
  | link => default (bs ".") (parent (from_utf8_lossy link)) ++ bs "/mode/kcov.so"
  end.

Definition src_of (pid : Z) : list Z := bs "/tmp/vock_" ++ fmt_i64 pid ++ bs ".c".
Definition bin_of (pid : Z) : list Z := bs "/tmp/vock_" ++ fmt_i64 pid.

Definition exec_kcov (trace : list Syscall) (w : W) : Z * W :=
  let src := src_of (r_pid w) in
  let bin := bin_of (r_pid w) in
  let '(ok, w) := r_write src (generate arch trace) w in
  if negb ok then (-1, w) else
  let '(ok, w) := r_cc [bs "-w"; bs "-O0"; bs "-o"; bin; src] w in
  if negb ok then (-1, r_remove src w) else
  let preload := kcov_so_path w in
  let '(r, w) := fork_and_wait [Setenv (bs "LD_PRELOAD") preload; Execv bin [bin]; Exit 127] w in
  (r, r_remove bin (r_remove src w)).

(** * fuzz.rs *)

Definition execprog_worker (fuel : nat) (prog : list Syscall) (repeat : Z) (kcov : bool) (worker_id : Z) : W -> outcome W :=
  turns r_running (fun w => snd (if kcov then exec_kcov prog w else exec_direct prog w)) fuel repeat.

Definition count_pcs (log : option (list Z)) : Z :=
  match log with Some s => zlen (filter (fun l => trim l <> []) (lines s)) | None => 0 end.

(** The result, and the addresses it says were covered. *)
Definition fuzz_run (fuel : nat) (a : Setup) (ws : list Wait) (iterations procs : Z) (kcov : bool) (w : W) : outcome (Z * (option Z * W)) :=
  let w := r_remove (bs "kerncov.log") (r_signal w) in
  baseline ← trace_baseline arch a ws;
  match baseline with
  | None | Some [] => Done (1, (None, w))
  | Some prog =>
      let '(_, w) := r_write (bs "trace.syz") (write_trace arch prog) w in
      let procs := if 0 <? procs then procs else 1 in
      w ← run_procs procs (execprog_worker fuel prog iterations kcov) w;
      Done (0, (if kcov then Some (count_pcs (r_read (bs "kerncov.log") w)) else None, w))
  end.
End Replay.

(** * What a pass leaves *)

Class ReplayLaws (W : Type) `{!Procs W, !Holdings W, !ReplayHost W} : Type :=
  { files : W -> gmap (list Z) (list Z);
    write_law : forall p t (w : W), same w (snd (r_write p t w));
    remove_law : forall p (w : W), same w (r_remove p w) /\ files (r_remove p w) = delete p (files w);
    cc_law : forall args (w : W), same w (snd (r_cc args w));
    signal_law : forall (w : W), same w (r_signal w) }.

Section Passes.
Context {W : Type} `{!Procs W, !Holdings W, !ProcLaws W, !ReplayHost W, !ReplayLaws W} (arch : Arch).

Lemma fork_and_wait_same acts (w : W) : same w (snd (fork_and_wait acts w)).
Proof.
  unfold fork_and_wait. destruct (p_fork acts w) as [pid w1] eqn:E. apply (holds_fork [] [] [] w) in E; [|apply holds_refl].
  destruct (pid <? 0); [by apply holds_nothing|]. destruct (p_waitpid pid 0 w1) as [[r st] w2] eqn:Ew. cbn [snd]. apply holds_nothing. by eapply holds_wait.
Qed.

(** Whatever fails, a pass of the compiled program leaves no child; its source
    is gone when it was written, and its binary when it was compiled. *)
Theorem exec_kcov_cleans trace (w : W) :
  let src := src_of (r_pid w) in let r := exec_kcov arch trace w in
  same w (snd r) /\ (fst (r_write src (generate arch trace) w) = true -> files (snd r) !! src = None) /\
  (forall w1, r_write src (generate arch trace) w = (true, w1) -> fst (r_cc [bs "-w"; bs "-O0"; bs "-o"; bin_of (r_pid w); src] w1) = true ->
   files (snd r) !! bin_of (r_pid w) = None).
Proof.
  cbn zeta. unfold exec_kcov. pose proof (write_law (src_of (r_pid w)) (generate arch trace) w) as Hw. destruct (r_write _ _ w) as [[] w1]; cbn [negb fst snd] in *; [|split_and!; [done|done|intros; by simplify_eq]].
  pose proof (cc_law [bs "-w"; bs "-O0"; bs "-o"; bin_of (r_pid w); src_of (r_pid w)] w1) as Hc. destruct (r_cc _ w1) as [[] w2] eqn:Ec; cbn [negb fst snd] in *.
  - pose proof (fork_and_wait_same [Setenv (bs "LD_PRELOAD") (kcov_so_path w2); Execv (bin_of (r_pid w)) [bin_of (r_pid w)]; Exit 127] w2) as Hf.
    destruct (fork_and_wait _ w2) as [r w3]. cbn [snd] in *. destruct (remove_law (src_of (r_pid w)) w3) as [S1 F1]. destruct (remove_law (bin_of (r_pid w)) (r_remove (src_of (r_pid w)) w3)) as [S2 F2].
    split_and!.
    + by do 4 (eapply same_trans_; [eassumption|]).
    + intros _. rewrite F2, F1. apply lookup_delete_None. right. by rewrite lookup_delete_eq.
    + intros _ _ _. rewrite F2. by rewrite lookup_delete_eq.
  - destruct (remove_law (src_of (r_pid w)) w2) as [S1 F1]. split_and!.
    + by do 2 (eapply same_trans_; [eassumption|]).
    + intros _. rewrite F1. by rewrite lookup_delete_eq.
    + intros w1' [= <-]. by rewrite Ec.
Qed.

Lemma pass_same prog kcov (w : W) : same w (snd (if kcov : bool then exec_kcov arch prog w else exec_direct prog w)).
Proof. destruct kcov; [apply exec_kcov_cleans|apply fork_and_wait_same]. Qed.

(** A run of either driver leaves no child and nothing open, however many
    workers it had and however many of them could not be forked. *)
Theorem run_trace_same fuel text repeat procs (w w1 : W) r : run_trace arch fuel text repeat procs w = Done (r, w1) -> same w w1.
Proof.
  unfold run_trace. destruct text as [text|]; [|intros [= <- <-]; done]. destruct (parse_trace arch text); [intros [= <- <-]; done|]. intros E. binds E. simplify_eq.
  eapply run_procs_same; [|eassumption]. intros v v' Hv. eapply (turns_keep _ _ same); [done|apply same_trans_|intros; apply fork_and_wait_same|exact Hv].
Qed.

Theorem fuzz_run_same fuel a ws iterations procs kcov (w : W) r : fuzz_run arch fuel a ws iterations procs kcov w = Done r -> same w (snd (snd r)).
Proof.
  unfold fuzz_run. intros E. binds E. assert (same w (r_remove (bs "kerncov.log") (r_signal w))) as H0 by (eapply same_trans_; [apply signal_law|apply remove_law]).
  destruct a0 as [[|sc prog]|]; [by simplify_eq| |by simplify_eq].
  pose proof (write_law (bs "trace.syz") (write_trace arch (sc :: prog)) (r_remove (bs "kerncov.log") (r_signal w))) as Hw. destruct (r_write _ _ _) as [ok w2]. cbn [snd] in Hw.
  binds E. simplify_eq. cbn [snd]. eapply same_trans_; [exact H0|]. eapply same_trans_; [exact Hw|]. eapply run_procs_same; [|eassumption].
  intros v v' Hv. eapply (turns_keep _ _ same); [done|apply same_trans_|intros; apply pass_same|exact Hv].
Qed.

(** A captured program is replayed as it was captured: for every run of the
    target the calls it completed are, with their numbers and arguments, what
    the child of each pass makes, as many times as asked for. *)
Theorem fuzz_replays_capture fuel a ws w0 calls we rest iterations (w : W) :
  0 <= forked a -> w0 <> WError -> 0 <= setoptions a -> 0 <= first_resume a -> tracee_run arch calls ws (we :: rest) ->
  0 < zlen calls <= MAX_SYSCALLS -> (forall v : W, r_running v = true) -> 0 < iterations < 2 ^ 31 -> (Z.to_nat iterations < fuel)%nat ->
  let w1 := snd (r_write (bs "trace.syz") (write_trace arch calls) (r_remove (bs "kerncov.log") (r_signal w))) in
  fuzz_run arch fuel a (w0 :: ws) iterations 1 false w =
  Done (0, (None, Nat.iter (Z.to_nat iterations) (fun v => snd (fork_and_wait (replay_acts (Z.lor (Z.lor CLONE_NEWUSER CLONE_NEWNET) CLONE_NEWPID) ((fun sc => (nr sc, args sc)) <$> calls)) v)) w1)).
Proof.
  intros Hf H0 Ho Hr Ht Hz Hg Hi Hfuel w1. unfold fuzz_run. rewrite (baseline_captures_calls arch a w0 calls ws we rest) by (done || lia). cbn [mbind outcome_bind].
  destruct calls as [|sc calls]; [unfold zlen in Hz; simpl in Hz; lia|]. subst w1. destruct (r_write _ _ _) as [ok w2]. cbn [snd]. change (0 <? 1) with true. unfold run_procs. change (1 <=? 1) with true. cbn iota.
  unfold execprog_worker. by rewrite turns_count.
Qed.

(** The trace written of a run replays, pass by pass, its named calls as the
    reader gives them back. *)
Theorem written_trace_replays fuel tr repeat (w : W) : Forall call_ok tr -> Exists (fun sc => known arch sc = true) tr -> 0 < repeat < 2 ^ 31 -> (Z.to_nat repeat < fuel)%nat ->
  let calls := take MAX_CALLS (omap (fun sc => if known arch sc then Some (nr sc, back <$> args sc) else None) tr) in
  run_trace arch fuel (Some (write_trace arch tr)) repeat 1 w =
  Done (0, Nat.iter (Z.to_nat repeat) (fun v => snd (fork_and_wait (replay_acts (Z.lor CLONE_NEWUSER CLONE_NEWNET) calls) v)) w).
Proof.
  intros Hok Hex Hr Hf calls. unfold run_trace. assert (parse_trace arch (write_trace arch tr) = calls) as ->.
  { unfold parse_trace. rewrite read_lines_take, lines_written. f_equal. apply omap_written. intros sc Hsc. rewrite Forall_forall in Hok. by apply trace_call_line, Hok. }
  destruct calls as [|c cs] eqn:E.
  { exfalso. subst calls. assert (omap (fun sc => if known arch sc then Some (nr sc, back <$> args sc) else None) tr = []) as E0 by (destruct (omap _ tr); [done|discriminate E]).
    apply Exists_exists in Hex as (sc & Hin & Hk). apply (elem_of_nil (nr sc, back <$> args sc)). rewrite <- E0. apply list_elem_of_omap. exists sc. by rewrite Hk. }
  unfold run_procs. change (1 <=? 1) with true. cbn iota. unfold worker. by rewrite turns_count.
Qed.
End Passes.

(** * A concrete host *)

(** A host that keeps its files and the children it was asked for. *)
Record Desk : Type := MkDesk { d_files : gmap (list Z) (list Z); d_kids : gset Z; d_acts : list (list Act) }.

#[export] Instance desk_procs : Procs Desk :=
  {| p_fork acts w := let pid := Z.of_nat (S (length (d_acts w))) in
       if decide (pid ∈ d_kids w) then (-1, w) else (pid, MkDesk (d_files w) ({[pid]} ∪ d_kids w) (d_acts w ++ [acts]));
     p_waitpid pid _ w := ((pid, 0), MkDesk (d_files w) (d_kids w ∖ {[pid]}) (d_acts w)); p_kill _ _ w := w |}.
#[export] Instance desk_holdings : Holdings Desk := {| fds _ := ∅; maps _ := ∅; kids := d_kids |}.
#[export] Instance desk_host : ReplayHost Desk :=
  {| r_pid _ := 42; r_link _ := Some (bs "/usr/bin/vock");
     r_write p t w := (true, MkDesk (<[p := t]> (d_files w)) (d_kids w) (d_acts w));
     r_remove p w := MkDesk (delete p (d_files w)) (d_kids w) (d_acts w);
     r_read p w := d_files w !! p;
     r_cc args w := (true, match args with _ :: _ :: _ :: bin :: _ => MkDesk (<[bin := []]> (d_files w)) (d_kids w) (d_acts w) | _ => w end);
     r_running _ := true; r_signal w := w |}.
#[export] Instance desk_proc_laws : ProcLaws Desk.
Proof.
  constructor; [..|done].
  - intros c w pid w'. cbn. destruct (decide _) as [|Hn]; intros [= <- <-]; [done|]. cbn -[Z.of_nat]. rewrite (proj2 (Z.ltb_ge _ _)) by lia. split_and!; [done|done|lia|done|done].
  - intros pid fl w r st w'. cbn. intros [= <- <- <-]. cbn. split_and!; [done|done|by right|set_solver].
Qed.
#[export] Instance desk_laws : ReplayLaws Desk.
Proof.
  refine {| files := d_files |}; try (intros; done). intros args w. cbn. by destruct args as [|? [|? [|? [|? ?]]]].
Defined.

(** A target that closes descriptor 3 and exits, replayed twice, directly and
    compiled; an installed vock looks for the shim beside its executable. *)
Definition demo_waits : list Wait :=
  [WStopped 19 None; sysstop (demo_regs 3 (-38) 3); sysstop (demo_regs 3 (-9) 3); sysstop (demo_regs 231 (-38) 0); WExited 0; WError].
Definition demo_desk : Desk := MkDesk {[bs "kerncov.log" := bs "0xdead"]} ∅ [].
Example demo_fuzz :
  match fuzz_run X86_64 3 (MkSetup 7 0 0 true true) demo_waits 2 1 false demo_desk, fuzz_run X86_64 3 (MkSetup 7 0 0 true true) demo_waits 1 1 true demo_desk with
  | Done (r1, (c1, w1)), Done (r2, (c2, w2)) =>
      (r1, c1, d_acts w1, elements (d_kids w1), r2, c2, d_acts w2, (map_to_list (d_files w2)).*1) =
      (0, None, replicate 2 [Unshare 0x70000000; RawSyscall 3 [3; 0; 0; 0; 0; 0]; Exit 0], [],
       0, Some 0, [[Setenv (bs "LD_PRELOAD") (bs "/usr/bin/mode/kcov.so"); Execv (bs "/tmp/vock_42") [bs "/tmp/vock_42"]; Exit 127]], [bs "trace.syz"])
  | _, _ => False
  end.
Proof. vm_compute. reflexivity. Qed.
