(* ===== verification/HwRun.v ===== *)
(** mode/hw.rs: a run in hardware mode, around a session of PerfSession.v.

    The host is the one of the session with processes, a pipe and the report.
    Shown: a run leaves descriptors, mappings and children as they were, whether
    the session starts or not; the report is made once, after the target's end,
    from the log the decoder stored, and the status is the target's.  The gate
    that holds the child back until tracing is armed works when the session
    starts; when it does not, closing the gate opens it. *)
From stdpp Require Import gmap.
From S2P Require Import Prelude Text PtPacket PtDecoder PerfSession Cli KcovRun Process.

Class HwHost (W : Type) `{!PerfHost W, !Procs W} : Type :=
  { h_pipe : W -> option (Z * Z) * W;                    (* read end, write end *)
    h_write : Z -> list Z -> W -> W;
    h_report : ROptions -> W -> W }.

Definition child_acts (rd wr : Z) (cmd : list (list Z)) : list Act := [CloseFd wr; ReadByte rd; CloseFd rd] ++ execvp cmd ++ [Exit 127].

Section Run.
Context {W : Type} `{!PerfHost W, !Procs W, !HwHost W}.

Definition hw_options (o : RunOpts) : ROptions := report_opts o (bs "kerncov.log") (bs "coverage.html") (o_ordered o) [].

Definition run (fuel : nat) (cmd : list (list Z)) (o : RunOpts) (w : W) : outcome (Z * W) :=
  let '(p, w) := h_pipe w in
  match p with
  | None => Done (1, w)
  | Some (rd, wr) =>
      let '(pid, w) := p_fork (child_acts rd wr cmd) w in
      if pid <? 0 then Done (1, w) else
      let w := pm_close rd w in
      let '(s, w) := start pid w in
      match s with
      | None => Done (1, snd (p_waitpid pid 0 (p_kill pid SIGKILL (pm_close wr w))))
      | Some s =>
          let w := pm_close wr (h_write wr (bs "g") w) in
          let '((_, st), w) := p_waitpid pid 0 w in
          let w := stop s w in
          w ← decode fuel s ((fun p => pm_file p w) <$> o_vmlinux o) w;
          Done (exit_status st, h_report (hw_options o) (drop_session s w))
      end
  end.
End Run.

(** * What a run holds *)

(** The children of the process, which the session does not touch. *)
Class HwLaws (W : Type) `{!PerfHost W, !PerfLaws W, !Procs W, !HwHost W} : Type :=
  { hkids : W -> gset Z;
    kids_open : forall a pid w, hkids (snd (perf_event_open a pid w)) = hkids w;
    kids_mmap : forall fd n wr off w, hkids (snd (pm_mmap fd n wr off w)) = hkids w;
    kids_munmap : forall b n w, hkids (pm_munmap b n w) = hkids w;
    kids_close : forall fd w, hkids (pm_close fd w) = hkids w;
    kids_ioctl : forall fd r w, hkids (pm_ioctl fd r w) = hkids w;
    kids_poke : forall b o v w, hkids (pm_poke b o v w) = hkids w;
    kids_store : forall p t w, hkids (snd (pm_store p t w)) = hkids w;
    pipe_law : forall w p w', h_pipe w = (p, w') -> pmaps w' = pmaps w /\ hkids w' = hkids w /\
      match p with Some (rd, wr) => pfds w' = {[wr]} ∪ ({[rd]} ∪ pfds w) /\ rd ∉ pfds w /\ wr ∉ {[rd]} ∪ pfds w | None => pfds w' = pfds w end;
    h_write_law : forall fd t w, PerfSession.same w (h_write fd t w) /\ hkids (h_write fd t w) = hkids w;
    h_report_law : forall o w, PerfSession.same w (h_report o w) /\ hkids (h_report o w) = hkids w }.

#[export] Instance hw_holdings {W} `{!PerfHost W, !PerfLaws W, !Procs W, !HwHost W, !HwLaws W} : Holdings W :=
  {| fds := pfds; maps := pmaps; kids := hkids |}.

Section Balance.
Context {W : Type} `{!PerfHost W, !PerfLaws W, !Procs W, !HwHost W, !HwLaws W, !ProcLaws W}.

Lemma kids_ibs t pid size fl (w : W) : hkids (snd (ibs_open t pid size fl w)) = hkids w.
Proof.
  revert w. induction fl as [|f fl IH]; intros w; [done|]. cbn [ibs_open]. pose proof (kids_open (ibs_attr t f) pid w) as H1. destruct (perf_event_open _ pid w) as [fd w1]. cbn [snd] in H1.
  destruct (0 <=? fd); [|by rewrite IH]. unfold map_ring. pose proof (kids_mmap fd size true 0 w1) as H2. destruct (pm_mmap _ _ _ _ w1) as [[b|] w2]; cbn [snd] in *; [by rewrite H2|].
  by rewrite IH, kids_close, H2.
Qed.

Lemma kids_intel pid (w : W) : hkids (snd (intel_pt_start pid w)) = hkids w.
Proof.
  unfold intel_pt_start. destruct (_ ≫= _) as [t|]; [|done]. destruct (t <? 0); [done|].
  match goal with |- context [perf_event_open ?a pid w] => pose proof (kids_open a pid w) as H1; destruct (perf_event_open a pid w) as [fd w1] end. cbn [snd] in H1.
  destruct (fd <? 0); [done|]. match goal with |- context [pm_mmap fd ?n true 0 w1] => pose proof (kids_mmap fd n true 0 w1) as H2; destruct (pm_mmap fd n true 0 w1) as [[b|] w2] end; cbn [snd] in H2; [|by rewrite <- H1, <- H2; apply kids_close].
  match goal with |- context [pm_mmap fd ?n false ?o ?v] => pose proof (kids_mmap fd n false o v) as H3; destruct (pm_mmap fd n false o v) as [[a|] w3] end; cbn [snd] in *;
    by rewrite ?kids_ioctl, ?kids_close, ?kids_munmap, H3, !kids_poke, H2.
Qed.

Lemma kids_amd pid (w : W) : hkids (snd (amd_lbr_start pid w)) = hkids w.
Proof.
  unfold amd_lbr_start. pose proof (kids_open lbr_attr pid w) as H1. destruct (perf_event_open lbr_attr pid w) as [fd0 w0]. cbn [snd] in H1.
  set (r := if fd0 <? 0 then _ else _). assert (hkids (snd r) = hkids w) as H2 by (subst r; destruct (fd0 <? 0); [rewrite kids_open|]; done). clearbody r. destruct r as [fd w1]. cbn [snd] in H2.
  destruct (fd <? 0); [done|]. unfold map_ring. match goal with |- context [pm_mmap fd ?n true 0 w1] => pose proof (kids_mmap fd n true 0 w1) as H3; destruct (pm_mmap fd n true 0 w1) as [[b|] w2] end; cbn [snd] in H3; [|by rewrite <- H2, <- H3; apply kids_close].
  set (r := match pmu_type _ w2 with Some _ => _ | None => _ end). assert (hkids (snd r) = hkids w2) as H4 by (subst r; destruct (pmu_type _ w2); [apply kids_ibs|done]).
  clearbody r. destruct r as [[ifd ib] w3]. cbn [snd] in *. by destruct (0 <=? ifd); rewrite ?kids_ioctl, H4, H3.
Qed.

Lemma kids_start pid (w : W) : hkids (snd (start pid w)) = hkids w.
Proof. unfold start. destruct (intel_pt_available w); [apply kids_intel|]. destruct (amd_lbr_available w); [apply kids_amd|done]. Qed.

Lemma kids_stop s (w : W) : hkids (stop s w) = hkids w.
Proof. unfold stop. by destruct (0 <=? perf_fd s), (0 <=? ibs_fd s); rewrite ?kids_ioctl. Qed.

Lemma kids_drop s (w : W) : hkids (drop_session s w) = hkids w.
Proof. unfold drop_session, unmap. by destruct (0 <=? perf_fd s), (0 <=? ibs_fd s), (aux_buf s), (base s), (ibs_base s); rewrite ?kids_close, ?kids_munmap, ?kids_close, ?kids_munmap, ?kids_close. Qed.

(** The decoders write their files and the tails of the rings, nothing else. *)
Lemma drain_keeps fuel b size l l' (w w' : W) : drain_sample_ring fuel b size l w = Done (l', w') -> PerfSession.same w w' /\ hkids w' = hkids w.
Proof. unfold drain_sample_ring. intros E. binds E. simplify_eq. split; [apply perf_poke_law|apply kids_poke]. Qed.

Lemma store_keeps p t (w : W) : PerfSession.same w (snd (pm_store p t w)) /\ hkids (snd (pm_store p t w)) = hkids w.
Proof. split; [|apply kids_store]. destruct (pm_store p t w) as [ok w'] eqn:E. by apply perf_store_law in E. Qed.

Lemma decode_keeps fuel s vm (w w' : W) : decode fuel s vm w = Done w' -> PerfSession.same w w' /\ hkids w' = hkids w.
Proof.
  assert (forall a b c : W, PerfSession.same a b /\ hkids b = hkids a -> PerfSession.same b c /\ hkids c = hkids b -> PerfSession.same a c /\ hkids c = hkids a) as Ht.
  { intros a b c [H1 H2] [H3 H4]. split; [by eapply perf_same_trans|by rewrite H4]. }
  unfold decode. destruct (base s) as [b|]; [|intros [= <-]; by split]. destruct (amd_lbr s); intros E.
  - unfold amd_lbr_decode in E. binds E. destruct a as [l1 w1]. cbn beta iota in E. apply drain_keeps in E0. binds E. destruct a as [l2 w2]. cbn beta iota in E. injection E as <-.
    eapply Ht; [exact E0|]. eapply Ht; [|apply store_keeps]. destruct (ibs_base s); [by eapply drain_keeps|by simplify_eq].
  - unfold intel_pt_decode in E. destruct (aux_buf s); [|injection E as <-; by split]. binds E. destruct (_ =? 0); [injection E as <-; by split|]. binds E.
    match type of E with context [pm_store _ ?d w] => pose proof (store_keeps (bs "hw_trace.bin") d w) as Hs; destruct (pm_store _ d w) as [ok w1] end. cbn [snd] in Hs. binds E. binds E. injection E as <-. eapply Ht; [exact Hs|apply store_keeps].
Qed.

Lemma perf_close_holds fd F M K (w w1 : W) : holds (fd :: F) M K w w1 -> holds F M K w (pm_close fd w1).
Proof.
  intros [H1 H2 H3]. destruct (perf_close_law fd w1) as [E1 E2]. constructor; cbn; rewrite ?E1, ?E2, ?kids_close; [by apply plus_sub|done|done].
Qed.

Lemma perf_same_step (w w1 : W) : PerfSession.same w w1 -> hkids w1 = hkids w -> same w w1.
Proof. intros [H1 H2] H3. by split_and!. Qed.

(** Closing a descriptor the session did not open. *)
Lemma owns_close s fd (v v1 : W) : owns s v v1 -> fd ∈ pfds v -> owns s (pm_close fd v) (pm_close fd v1).
Proof.
  unfold owns, PerfSession.holds. set (F := owned_fd _ ++ _). clearbody F. intros (A & B & C & D) Hfd. destruct (perf_close_law fd v) as [E1 E2], (perf_close_law fd v1) as [E3 E4].
  rewrite E1, E2, E3, E4, A. split_and!; try apply D; [|done|intros x Hx; specialize (C x Hx); set_solver].
  apply set_eq. intros x. rewrite elem_of_difference, !elem_of_union, elem_of_difference, elem_of_singleton, elem_of_list_to_set. split; [tauto|].
  intros [Hx|Hx]; (split; [tauto|]); [|tauto]. intros ->. by apply (C fd).
Qed.

Lemma owns_same s (v v1 v2 : W) : owns s v v1 -> PerfSession.same v1 v2 -> owns s v v2.
Proof. apply PerfSession.holds_same. Qed.

(** A run with a child, whether its session starts or not, leaves descriptors,
    mappings and children as they were. *)
Theorem hw_run_balanced fuel cmd o (w w1 w2 : W) rd wr pid r w3 : h_pipe w = (Some (rd, wr), w1) -> p_fork (child_acts rd wr cmd) w1 = (pid, w2) -> 0 <= pid ->
  run fuel cmd o w = Done (r, w3) -> same w w3.
Proof.
  intros Hp Hf H0 E. unfold run in E. rewrite Hp, Hf, (proj2 (Z.ltb_ge _ _)) in E by done.
  pose proof (pipe_law w _ _ Hp) as (P1 & P2 & P3 & P4 & P5).
  assert (holds [wr; rd] [] [] w w1) as H1.
  { constructor; cbn; rewrite ?P1, ?P2, ?P3; [|apply plus_nil|apply plus_nil]. apply plus_add; [|done]. apply plus_add; [apply plus_nil|done]. }
  apply (holds_fork [wr; rd] [] [] w) in Hf; [|done]. rewrite (proj2 (Z.ltb_ge _ _)) in Hf by done.
  apply (holds_permute _ [rd; wr] [] [] [pid] [pid]) in Hf; [|apply perm_swap|done|done]. apply perf_close_holds in Hf. set (v := pm_close rd w2) in *. clearbody v.
  pose proof (start_started pid v) as Hb. pose proof (kids_start pid v) as Hk. destruct (start pid v) as [[s|] v1]; cbn [snd] in Hk.
  - unfold started in Hb. cbn [fst snd] in Hb. destruct (p_waitpid pid 0 _) as [[rt st] v2] eqn:Ew. binds E. injection E as _ <-. apply decode_keeps in E0 as [D1 D2]. rewrite kids_stop in D2.
    assert (wr ∈ pfds v) as Hwr by (destruct Hf as [(Hf & _) _ _]; cbn in Hf; rewrite Hf; set_solver).
    destruct (h_write_law wr (bs "g") v1) as [HW1 HW2]. apply (owns_same _ _ _ _ Hb), owns_close with (fd := wr) in HW1; [|done]. apply perf_close_holds in Hf.
    set (v1' := pm_close wr (h_write wr (bs "g") v1)) in *. assert (hkids v1' = hkids (pm_close wr v)) as Hk1 by (unfold v1'; by rewrite !kids_close, HW2, Hk).
    clearbody v1'. pose proof (wait_law _ _ _ _ _ _ Ew) as (W1 & W2 & _ & _). cbn in W1, W2.
    assert (owns s (pm_close wr v) a) as Ho by (eapply owns_same; [exact HW1|]; eapply perf_same_trans; [by split|]; eapply perf_same_trans; [apply same_stop|exact D1]).
    apply drop_owned in Ho as [O1 O2]. destruct (h_report_law (hw_options o) (drop_session s a)) as [[R1 R2] R3].
    assert (kids v2 = kids w) as Hv2.
    { apply plus_none. unfold owns in HW1. destruct HW1 as (A & B & C & D1' & D2' & D3'). destruct Hf as [F1 F2 F3]. cbn in F1, F2, F3. rewrite <- Hk1 in F3.
      eapply (holds_wait _ _ [] w v1' pid) in Ew as [_ _ Ew]; [exact Ew|]. apply plus_none in F1. apply plus_none in F2. rewrite F1 in A, C. rewrite F2 in D1', D3'.
      constructor; cbn; [by split_and!|by split_and!|exact F3]. }
    destruct Hf as [F1 F2 _]. apply plus_none in F1. apply plus_none in F2. cbn in F1, F2, Hv2. split_and!; cbn.
    + by rewrite R1, O1.
    + by rewrite R2, O2.
    + by rewrite R3, kids_drop, D2.
  - injection E as _ <-. destruct (p_waitpid pid 0 _) as [[rt st] v2] eqn:Ew. cbn [snd]. apply holds_nothing. eapply holds_wait; [|exact Ew].
    eapply holds_step; [|apply same_kill]. apply perf_close_holds. eapply holds_step; [exact Hf|]. by apply perf_same_step.
Qed.

(** The report of a run whose session started: one, after the decoder stored
    its log, with the log it stored; the status is the target's. *)
Theorem hw_run_reports fuel cmd o (w w1 w2 w3 w4 w5 : W) rd wr pid s rt st : h_pipe w = (Some (rd, wr), w1) -> p_fork (child_acts rd wr cmd) w1 = (pid, w2) -> 0 <= pid ->
  start pid (pm_close rd w2) = (Some s, w3) -> p_waitpid pid 0 (pm_close wr (h_write wr (bs "g") w3)) = ((rt, st), w4) ->
  decode fuel s ((fun p => pm_file p (stop s w4)) <$> o_vmlinux o) (stop s w4) = Done w5 ->
  run fuel cmd o w = Done (exit_status st, h_report (hw_options o) (drop_session s w5)) /\ r_log (hw_options o) = bs "kerncov.log" /\ r_parts (hw_options o) = [].
Proof. intros Hp Hf H0 Hs Hw Hd. unfold run. rewrite Hp, Hf, (proj2 (Z.ltb_ge _ _)), Hs, Hw, Hd by done. done. Qed.
End Balance.

(** * The gate *)

(** What the parent does to the pipe and to the child, by how the start of the
    session went, and the child: it has its copy of the write end, it waits, it
    runs the target. *)
Inductive Move : Type := Arm | SendByte | CloseWrite | Kill.
Definition moves (started : bool) : list Move := if started then [Arm; SendByte; CloseWrite] else [CloseWrite; Kill].

Inductive Stage : Type := Forked | Waiting | Running | Killed.
Record Gate : Type := MkGate { armed : bool; sent : bool; write_open : bool; stage : Stage }.
Definition gate0 : Gate := MkGate false false true Forked.

Definition move (m : Move) (g : Gate) : Gate :=
  match m with
  | Arm => MkGate true (sent g) (write_open g) (stage g)
  | SendByte => MkGate (armed g) true (write_open g) (stage g)
  | CloseWrite => MkGate (armed g) (sent g) false (stage g)
  | Kill => MkGate (armed g) (sent g) (write_open g) Killed
  end.

(** A read returns with a byte, or with none when no write end is left; the
    child does not look at which. *)
Definition child_step (g : Gate) : option Gate :=
  match stage g with
  | Forked => Some (MkGate (armed g) (sent g) (write_open g) Waiting)
  | Waiting => if sent g || negb (write_open g) then Some (MkGate (armed g) (sent g) (write_open g) Running) else None
  | _ => None
  end.

Inductive reaches (started : bool) : list Move -> Gate -> Prop :=
  | at_start : reaches started (moves started) gate0
  | by_parent m ms g : reaches started (m :: ms) g -> reaches started ms (move m g)
  | by_child ms g g' : reaches started ms g -> child_step g = Some g' -> reaches started ms g'.

(** However parent and child interleave, a target runs only once its session
    is armed. *)
Theorem runs_armed ms g : reaches true ms g -> stage g = Running -> armed g = true.
Proof.
  intros H. assert (armed g = true \/ ms = moves true /\ sent g = false /\ write_open g = true /\ (stage g = Forked \/ stage g = Waiting)) as HI; [|intros Hr; destruct HI as [|(_ & _ & _ & [?|?])]; congruence].
  induction H as [|m ms g _ IH|ms g g' _ IH Hs].
  - right. split_and!; [done..|by left].
  - left. destruct IH as [IH|(E & _)]; [by destruct m|]. by injection E as -> ->.
  - unfold child_step in Hs. destruct IH as [IH|(-> & H1 & H2 & H3)].
    + left. destruct (stage g); [|destruct (_ || _)|..]; by simplify_eq.
    + right. rewrite H1, H2 in Hs. destruct (stage g); simplify_eq. cbn. split_and!; [done|done|done|by right].
Qed.

(** A session that does not start: the write end is closed before the child is
    killed, so the child can read the end of the pipe and run the target. *)
Lemma runs_untraced : exists ms g, reaches false ms g /\ stage g = Running /\ armed g = false.
Proof.
  exists [Kill], (MkGate false false false Running). split; [|done].
  apply (by_child false [Kill] (MkGate false false false Waiting)); [|done]. apply (by_parent false CloseWrite [Kill] (MkGate false false true Waiting)).
  by apply (by_child false (moves false) gate0); [constructor|].
Qed.
